(* ===== verification/_CoqProject ===== *)
-Q . S2P
Prelude.v
NbdProtocol.v
Extents.v
Exports.v
Server.v
Connections.v
Backend.v
Plugin.v
Disk.v
Filter.v
Protocol.v
Handshake.v
Negotiation.v
Service.v
ExtentsQuery.v
Locks.v
Parse.v
Bytes.v
Io.v
Vector.v
Allocators.v
Sparse.v
Malloc.v
Layer.v
Blocksize.v
Offset.v
Truncate.v
Bitmap.v
Blocks.v
Lru.v
Cache.v
Cow.v
CowDisk.v
Stack.v
Serve.v
Fua.v
CacheDisk.v
CacheDefects.v
Memory.v
System.v
DataFormat.v
DataEval.v
DataSem.v
DataLaws.v
DataOptim.v
DataParse.v
DataRun.v
DataFuel.v
DataPrint.v
Data.v
Regions.v
Gpt.v
Partitioning.v
PartitioningDisk.v
PartitioningServe.v
Partition.v
PartitionTable.v
Protect.v
ProtectDisk.v
