(* ===== verification/Prelude.v ===== *)
(** * A verification development for nbdkit

    nbdkit is a server for the NBD protocol.  A client connects, negotiates
    an export in the handshake and then sends requests (read, write, flush,
    trim, zero, cache, block status); the server passes them through a stack
    of filters to a plugin.  This library models what a connection runs
    through, from [handle_single_connection] down to the allocator in which
    the memory and data plugins keep their bytes or the files that other
    plugins and filters use, with a number of filters, plugins and common
    libraries, and proves it correct.

    ** Parts of the program, and the files that model them

    Foundations:
    - [Prelude] (this file): machine integers with their wrap-around, flag
      words, big-endian fields, and the automation shared by all files.
    - [NbdProtocol] ([common/protocol/nbd-protocol.h]): the constants and
      packed structures of the protocol, with encoders and decoders.

    The server:
    - [Extents] and [ExtentsQuery] ([server/extents.c]): the list of extents
      that a block status request builds, and the queries of filters.
    - [Exports] ([server/exports.c]): the list of exports.
    - [Server] ([server/internal.h]): the state ([struct connection], the
      [struct context] of every layer, the thread's error fields), the
      monad [M] that threads it, in which a failed [assert], a NULL
      dereference, an access out of bounds and exhausted fuel are crashes,
      and the total-correctness predicate [wp].
    - [Connections] ([server/connections.c], [server/threadlocal.c]): the
      connection status, and sending and receiving over scripts of what the
      system calls do (short, interrupted, failing).
    - [Backend] ([server/backend.c]): the layer between the protocol and
      plugin or filters.  The classes [DataContract] and [CapContract] state
      what the server relies on.
    - [Plugin] ([server/plugins.c]): a plugin, given by its callbacks, as a
      backend, with all defaults and emulations.  [PluginLaws] states what
      the plugin documentation asks of the callbacks.
    - [Disk]: what the backend and plugin layers do to the contents of a
      disk (zeroing, FUA), against a plugin whose writes are specified.
    - [Filter] ([server/filters.c]): a filter, given by its callbacks, as a
      backend on top of the next layer.
    - [Protocol] ([server/protocol.c]): receiving, validating, executing
      and answering one request.
    - [Handshake] ([server/protocol-handshake*.c]) and [Negotiation] (its
      properties, against the class [StackContract]).
    - [Service] ([server/connections.c]): a whole connection with requests
      processed serially.
    - [Locks] ([server/locks.c] and the locks of a connection, with the
      threads of [connections.c], [protocol.c] and [timeout.c]): interleaved
      sequences of lock operations, and a step relation on them.
    - [Parse] ([server/public.c]): parsing numbers, sizes and booleans.

    Common libraries:
    - [Bytes] (byte arrays, the monad of code that allocates), [Io] (files,
      and the loops of [common/utils/full-rw.c]), [Vector]
      ([common/utils/vector.c]), [Bitmap] ([common/bitmap]), [Allocators]
      ([common/allocators/allocator.h], the class [AllocatorSpec]),
      [Sparse] ([sparse.c]), [Malloc] ([malloc.c]), [Regions]
      ([common/regions]) and [Gpt] ([common/gpt]: the CRC and the structures
      of GUID partition tables).

    Filters:
    - [Layer]: the class [DiskLayer], which states what a layer promises to
      the filter above it about the contents of the disk.
    - [Blocksize], [Offset], [Truncate] ([filters/blocksize], [offset],
      [truncate]).
    - [Blocks]: how the cow and cache filters split requests into blocks; it
      takes the functions that read and write blocks as parameters.  [Cow]
      and [CowDisk] ([filters/cow]); [Lru], [Cache], [CacheDisk] and
      [CacheDefects] ([filters/cache]).
    - [Partition] ([filters/partition]): one partition of an MBR or GPT disk.
    - [Fua] ([filters/fua]): how the FUA flag and flushes are handled.
    - [Protect] and [ProtectDisk] ([filters/protect]): the protected ranges as
      regions, and the writes that they guard.
    - [Stack]: the promises compose.  [Serve]: they survive the checks and
      emulations of the server, from the plugin's callbacks to the reply.

    Plugins:
    - [Memory] ([plugins/memory/memory.c]).
    - [Data] ([plugins/data/data.c]) with the data format
      ([plugins/data/format.c]): [DataFormat] (parser), [DataEval] (optimizer
      and evaluator), [DataSem] (what expressions mean), [DataLaws],
      [DataOptim], [DataParse], [DataRun] (correctness of the optimizer, the
      parser and the evaluator), [DataFuel], [DataPrint] (a printer, and
      reading its output back).

    - [Partitioning] ([plugins/partitioning]), with [PartitioningDisk] (the
      regions and tables that it lays out) and [PartitioningServe] (what it
      serves).

    [System] puts a whole server together: four filters on the memory plugin
    over either allocator.  [PartitionTable] puts the partition filter on the
    partitioning plugin.

    Definitions have the names of the C functions.  A C function that
    returns -1 and sets an error is a computation in [M] that returns -1 (or
    [None] where the value is a pointer); an [err] parameter that is passed
    by reference is an argument and a component of the result.  Code that
    only allocates is in the monad [AM] of [Bytes], and the parser of the
    data format has its own results in [DataFormat].

    ** Fuel

    Loops that are not structural take fuel, and the theorems show that the
    fuel is enough: 64 chunks for the emulation loops (a request has at most
    2^32-1 bytes and a chunk 2^26), 32 + 32 * 10000 options for the
    negotiation (one listing of at most 10000 exports raises the limit), the
    length of the option data for the queries of a meta context option, the
    size of the remaining input for the request loop, the number of bytes or
    blocks for extent queries and the loops of the blocksize and cow filters,
    the number of pages a request touches for the sparse array, and the
    height of the expression for the optimizer.  For the parser and the
    evaluator of the data format the theorems say that there is an amount of
    fuel from which on the result is the final one; for the parser this needs
    parameters that do not refer to each other in a cycle
    ([DataParse.parser_cycle] shows why).  The read and write loops on files
    and regions have the length of the request, as every turn transfers at
    least a byte; the loops over partitions have the number of partitions, or
    of the one that is looked for, which the loop over extended boot records
    counts up to.  The loops of the cache filter have the number of blocks of the
    bitmap: the search for a block to reclaim comes round to where it
    started.  The loop of the protect filter has the length of the request.

    ** What the theorems show

    - The whole server: [System.server_is_a_disk], every sequence of requests
      that the protocol code accepts, block status requests excepted, is
      answered by the stack of filters, the server's emulations and the
      plugin as by one disk.  Its parts are
      [Serve.backend_layer], [Serve.next_layer] and [Serve.filter_layer], the
      theorems of the filters ([Blocksize.blocksize_presents_disk],
      [CowDisk.cow_presents_disk], [CacheDisk.cache_presents_disk],
      [Truncate.truncate_presents_disk]), of the
      emulations ([Disk.backend_zero_zeroes]) and of the allocators
      ([Sparse.sparse_array_refines_flat], [Malloc.allocators_equivalent],
      [Sparse.sparse_extents_honest]).
    - Safety of a connection ([Service.connection_served],
      [Protocol.request_never_aborts], [Negotiation.newstyle_handshake_safe],
      [Negotiation.tls_required_first]): no client input makes the server
      fail an assertion, read out of bounds or loop forever, on exports of at
      most [UINT32_MAX] bytes that have fast zero if they can zero; a meta
      context is only in use for the export it was selected for; and nothing
      reaches the plugin before a required TLS negotiation.
    - Threads ([Locks.thread_model_respected], [Locks.threads_complete]): the
      promises of the thread models hold in every interleaving, and there is
      no deadlock on the locks of [locks.c] and of the connections.
    - The protocol ([Protocol.one_request_one_reply],
      [Protocol.validate_request_exact], [Protocol.block_descriptors_correct],
      [Negotiation.export_flags_exact]).
    - The data plugin ([Data.data_get_ready_correct]): what a [data='...']
      parameter means in the manual is what the disk contains, for the
      regular expressions, which leave out those that the plugin gets wrong.  The parser builds
      well-formed expressions and ends ([DataParse.parser_correct]), it reads
      back what is printed ([DataPrint.parser_print_roundtrip]), the
      optimizer keeps the meaning ([DataOptim.optimize_ast_correct]) and the
      evaluator ends with the bytes that are meant
      ([DataRun.evaluate_correct]).
    - Partitions: the partitioning plugin lays out its files with correct
      tables ([PartitioningDisk.partitioning_get_ready_correct], on top of
      [Regions.append_region_correct] and [Gpt.efi_crc32_correct]) and serves
      them ([PartitioningServe.partitioning_serves_files]); the partition
      filter presents the partition that it finds
      ([Partition.partition_presents_partition]); and together they give each
      file back ([PartitionTable.partition_of_file]).
    - The protect filter never lets a write change a protected byte
      ([ProtectDisk.protect_pwrite_guards]) and writes nothing of a request
      that would, and its configuration protects
      what the parameters say ([Protect.protect_config_complete_correct],
      [Protect.parse_range_correct]).
    - The fua filter presents the disk below in every mode
      ([Fua.fua_presents_disk]) and keeps it stable in mode force
      ([Fua.fua_force_write_through]).
    - Components ([Extents.add_extent_refines],
      [Extents.add_extent_preserves_wf], [ExtentsQuery.extents_full_covers],
      [Connections.raw_recv_refines_stream], [Filter.lifecycle_order],
      [Parse.parse_print_roundtrip], [Parse.parse_size_exact],
      [Bitmap.bitmap_next_first]).
    - Defects of the code, as theorems
      ([Negotiation.oldstyle_readonly_write_aborts],
      [Protocol.fast_zero_unadvertised_abort],
      [Protocol.block_descriptors_abort],
      [Disk.plugin_zero_fallback_incomplete],
      [Malloc.malloc_growth_not_cleared],
      [Locks.timeout_waits_for_connection],
      [Parse.parse_uint64_accepts_negative],
      [Blocksize.blocksize_extents_aborts],
      [Truncate.truncate_extents_aborts], [DataParse.parser_cycle],
      [Data.repeat_of_assignment_leaks], [Data.whole_script_slice],
      [Data.unterminated_slice],
      [PartitioningDisk.alignment_aborts],
      [Partition.gpt_partition_overflow],
      [CacheDefects.reclaim_discards_dirty],
      [CacheDefects.cache_unsafe_trim_aborts],
      [ProtectDisk.protect_zero_crashes],
      [Protect.nested_range_unprotects], [Protect.largest_range_aborts],
      [CowDisk.full_pwrite_short_wrong], [CowDisk.blk_cache_error_lost], [Fua.fuamode_none_refused], and the examples of
      [CacheDefects]).  The other theorems exclude the conditions under which
      these are reachable, and say so: for the cache filter, writes below must
      not fail where it writes through, a limit on the cache needs the
      writethrough mode, and the layer below must keep what is trimmed; for the
      cache and cow filters, transfers of the overlay are never short and
      [posix_fadvise] does not fail; for the protect filter, ranges end at
      [INT64_MAX] or before, no range lies inside of another one and a zero
      request meets its first protected byte in the region where it begins;
      for the data format, repetitions are of data and no slice is that of
      the whole output of a script.

    ** What is not modelled

    Process set-up, the command line, sockets, signals and logging (system
    calls and output); the TLS library, which is a parameter of the
    handshake; floating point (probabilities and delays in [public.c]).
    Allocation failures are modelled for the request buffer, the allocators,
    vectors and the memory plugin; where the code ends the process after one
    (the data format), or where a few bytes are asked for, they are not.
    Threads are modelled at the level of their locks; the handlers
    themselves run one at a time, as the locks make them.  The shared and
    independent contexts that filters may open outside a connection, loading
    and unloading modules, printing ([.dump_plugin], [.magic_config_key] and
    debugging) and freeing memory are not modelled.  Of files, the contents,
    the size and failing or short transfers are modelled; creating temporary
    files and sizing them is taken to succeed, and a crash of the machine is
    only modelled through what counts as stable ([settled] in [Layer]).  Of
    plugins and filters only those listed above are modelled; many of the
    others are glue to libraries, interpreters or system calls, and what has
    logic of its own can be added in the same way: the operations in a file,
    and an instance of [DiskLayer] or [DiskPlugin]. *)

From Stdlib Require Export ZArith Lia.
From stdpp Require Export base tactics list numbers option relations.

#[global] Set Default Goal Selector "!".
#[global] Open Scope Z_scope.

(** ** Machine integers

    A C integer is a [Z]; an operation whose result may not fit its type
    is followed by an explicit wrap. *)

Definition UINT16_MAX : Z := 65535.
Definition UINT32_MAX : Z := 4294967295.
Definition INT32_MAX : Z := 2147483647.
Definition INT64_MAX : Z := 9223372036854775807.
Definition UINT64_MAX : Z := 18446744073709551615.

Definition u16 (z : Z) : Z := z mod 65536.
Definition u32 (z : Z) : Z := z mod 4294967296.
Definition u64 (z : Z) : Z := z mod 18446744073709551616.

(** Conversion of a 64-bit pattern to [int64_t]. *)
Definition i64 (z : Z) : Z :=
  let r := u64 z in
  if r <=? INT64_MAX then r else r - 18446744073709551616.

(** Conversion of a 32-bit pattern to [int]. *)
Definition i32 (z : Z) : Z :=
  let r := u32 z in
  if r <=? INT32_MAX then r else r - 4294967296.

Lemma u16_small z : 0 <= z <= UINT16_MAX -> u16 z = z.
Proof. unfold u16, UINT16_MAX. intros. apply Z.mod_small. lia. Qed.

Lemma u32_small z : 0 <= z <= UINT32_MAX -> u32 z = z.
Proof. unfold u32, UINT32_MAX. intros. apply Z.mod_small. lia. Qed.

Lemma u64_small z : 0 <= z <= UINT64_MAX -> u64 z = z.
Proof. unfold u64, UINT64_MAX. intros. apply Z.mod_small. lia. Qed.

Lemma i64_small z : 0 <= z <= INT64_MAX -> i64 z = z.
Proof.
  unfold i64, INT64_MAX. intros.
  rewrite u64_small by (unfold UINT64_MAX; lia).
  destruct (Z.leb_spec z 9223372036854775807); lia.
Qed.

Lemma u16_range z : 0 <= u16 z <= UINT16_MAX.
Proof. unfold u16, UINT16_MAX. pose proof (Z.mod_pos_bound z 65536). lia. Qed.

Lemma u32_range z : 0 <= u32 z <= UINT32_MAX.
Proof. unfold u32, UINT32_MAX. pose proof (Z.mod_pos_bound z 4294967296). lia. Qed.

Lemma u64_range z : 0 <= u64 z <= UINT64_MAX.
Proof.
  unfold u64, UINT64_MAX.
  pose proof (Z.mod_pos_bound z 18446744073709551616). lia.
Qed.

Create HintDb nbdkit.
#[export] Hint Resolve u16_range u32_range u64_range : nbdkit.

(** Unfold the limits of the machine types, so that [lia] sees numerals. *)
Ltac limits := unfold UINT16_MAX, INT32_MAX, UINT32_MAX, INT64_MAX, UINT64_MAX in *.

(** Remove the wraps whose argument is provably in range. *)
Ltac unwrap_with f lem :=
  match goal with
  | |- context [f ?x] => rewrite (lem x) by (limits; lia)
  | H : context [f ?x] |- _ => rewrite (lem x) in H by (limits; lia)
  end.

Ltac unwrap :=
  repeat first
    [ unwrap_with u64 u64_small | unwrap_with u32 u32_small
    | unwrap_with u16 u16_small | unwrap_with i64 i64_small ].

(** ** Flag words *)

(** [flags & mask], used as a condition. *)
Definition has (flags mask : Z) : bool := negb (Z.land flags mask =? 0).

(** [flags & ~mask] *)
Definition clear (flags mask : Z) : Z := Z.ldiff flags mask.

(** [if (cond) flags |= mask;] *)
Definition set_if (cond : bool) (flags mask : Z) : Z :=
  if cond then Z.lor flags mask else flags.

Lemma has_pow2 flags k :
  0 <= k -> has flags (Z.shiftl 1 k) = Z.testbit flags k.
Proof.
  intros Hk. unfold has.
  assert (Hb : forall j, Z.testbit (Z.shiftl 1 k) j = bool_decide (j = k)).
  { intros j. rewrite Z.shiftl_1_l. case_bool_decide as E.
    - subst. apply Z.pow2_bits_true; lia.
    - apply Z.pow2_bits_false; lia. }
  destruct (Z.testbit flags k) eqn:Ht.
  - apply negb_true_iff, Z.eqb_neq. intros H0.
    assert (Z.testbit (Z.land flags (Z.shiftl 1 k)) k = false)
      by (rewrite H0; apply Z.bits_0).
    rewrite Z.land_spec, Ht, Hb, bool_decide_eq_true_2 in *; done.
  - apply negb_false_iff, Z.eqb_eq, Z.bits_inj'. intros j Hj.
    rewrite Z.bits_0, Z.land_spec, Hb. case_bool_decide; subst; [|by rewrite andb_false_r].
    by rewrite Ht.
Qed.

Lemma testbit_set_if c flags k j :
  0 <= j -> 0 <= k ->
  Z.testbit (set_if c flags (Z.shiftl 1 k)) j =
  (Z.testbit flags j || (c && (j =? k)))%bool.
Proof.
  intros Hj Hk. unfold set_if. destruct c; simpl; [|by rewrite orb_false_r].
  rewrite Z.lor_spec, Z.shiftl_1_l. f_equal.
  destruct (Z.eqb_spec j k); subst.
  - apply Z.pow2_bits_true; lia.
  - apply Z.pow2_bits_false; lia.
Qed.

Lemma has_lor f g m : has (Z.lor f g) m = (has f m || has g m)%bool.
Proof.
  unfold has. rewrite Z.land_lor_distr_l.
  destruct (Z.eqb_spec (Z.lor (Z.land f m) (Z.land g m)) 0) as [E|E];
    destruct (Z.eqb_spec (Z.land f m) 0), (Z.eqb_spec (Z.land g m) 0); try done.
  - apply Z.lor_eq_0_iff in E as [??]; done.
  - apply Z.lor_eq_0_iff in E as [??]; done.
  - apply Z.lor_eq_0_iff in E as [??]; done.
  - rewrite e, e0 in E. done.
Qed.

(** ** Masks of a power of two *)

Lemma land_pred_pow2 a n : 0 <= n -> Z.land a (2 ^ n - 1) = a mod 2 ^ n.
Proof.
  intros Hn. replace (2 ^ n - 1) with (Z.ones n) by (rewrite Z.ones_equiv; lia).
  by apply Z.land_ones.
Qed.

Lemma land_neg_pow2 a n : 0 <= n -> 0 <= a <= UINT64_MAX ->
  Z.land a (u64 (- 2 ^ n)) = a - a mod 2 ^ n.
Proof.
  intros Hn Ha. replace (a - a mod 2 ^ n) with (Z.shiftl (Z.shiftr a n) n).
  2: { rewrite Z.shiftl_mul_pow2, Z.shiftr_div_pow2 by lia. rewrite Z.mod_eq by lia. lia. }
  unfold u64. change 18446744073709551616 with (2 ^ 64).
  rewrite <- Z.ldiff_ones_r by lia. apply Z.bits_inj'. intros j Hj.
  rewrite Z.land_spec, Z.ldiff_spec, Z.testbit_ones_nonneg by lia.
  destruct (Z.ltb_spec j 64).
  - f_equal. rewrite Z.mod_pow2_bits_low by lia.
    rewrite Z.bits_opp by lia. f_equal.
    replace (Z.pred (2 ^ n)) with (Z.ones n) by (rewrite Z.ones_equiv; lia).
    by rewrite Z.testbit_ones_nonneg by lia.
  - replace (Z.testbit a j) with false; [done|]. symmetry.
    destruct (decide (a = 0)) as [->|]; [apply Z.bits_0|]. apply Z.bits_above_log2; [lia|].
    apply Z.log2_lt_pow2; [lia|]. apply Z.lt_le_trans with (2 ^ 64); [unfold UINT64_MAX in *; lia|].
    apply Z.pow_le_mono_r; lia.
Qed.

Lemma land_neg_pow2_32 a n : 0 <= n <= 16 -> 0 <= a <= UINT32_MAX ->
  Z.land a (u32 (- 2 ^ n)) = a - a mod 2 ^ n.
Proof.
  intros Hn Ha. rewrite <- (land_neg_pow2 a n) by (limits; lia).
  unfold u32, u64. change 4294967296 with (2 ^ 32). change 18446744073709551616 with (2 ^ 64).
  rewrite <- !Z.land_ones by lia. apply Z.bits_inj'. intros i Hi.
  rewrite !Z.land_spec, !Z.testbit_ones_nonneg by lia.
  destruct (Z.ltb_spec i 32).
  - by rewrite (proj2 (Z.ltb_lt i 64)) by lia.
  - replace (Z.testbit a i) with false; [done|]. symmetry.
    destruct (Z.eq_dec a 0) as [-> |]; [apply Z.bits_0|]. apply Z.bits_above_log2; [lia|].
    apply Z.log2_lt_pow2; [lia|]. apply Z.lt_le_trans with (2 ^ 32); [limits; lia|].
    apply Z.pow_le_mono_r; lia.
Qed.

Lemma land_neg_pow2_signed a n : 0 <= n -> 0 <= a -> Z.land a (- 2 ^ n) = a - a mod 2 ^ n.
Proof.
  intros Hn Ha. replace (- 2 ^ n) with (Z.lnot (Z.ones n)) by (unfold Z.lnot; rewrite Z.ones_equiv; lia).
  rewrite <- Z.ldiff_land, Z.ldiff_ones_r, Z.shiftl_mul_pow2, Z.shiftr_div_pow2 by lia.
  rewrite Z.mod_eq by lia. lia.
Qed.

(** The next multiple after one that is below a multiple. *)
Lemma divide_next m a b : 0 < m -> (m | a) -> (m | b) -> a < b -> a + m <= b.
Proof. intros Hm [i ->] [j ->] Hlt. assert (i < j) by nia. nia. Qed.

Lemma divide_sub_mod m a : 0 < m -> (m | a - a mod m).
Proof. intros Hm. exists (a / m). rewrite Z.mod_eq by lia. lia. Qed.

(** ** Big-endian fields

    Bytes are [Z]s in [0, 255].  [be n z] is [htobe16]/[32]/[64] of [z]
    laid out in memory ([n] bytes), [be_val] is the inverse
    ([be16toh] and friends). *)

Definition is_byte (b : Z) : Prop := 0 <= b <= 255.

Fixpoint be (n : nat) (z : Z) : list Z :=
  match n with
  | O => []
  | S n' => (z / 256 ^ Z.of_nat n') mod 256 :: be n' z
  end.

Definition be_val (bs : list Z) : Z := fold_left (fun acc b => acc * 256 + b) bs 0.

Lemma length_be n z : length (be n z) = n.
Proof. induction n; simpl; congruence. Qed.

Lemma be_bytes n z : Forall is_byte (be n z).
Proof.
  induction n; simpl; constructor; [|done].
  unfold is_byte. pose proof (Z.mod_pos_bound (z / 256 ^ Z.of_nat n) 256). lia.
Qed.

Lemma fold_be acc n z :
  fold_left (fun acc b => acc * 256 + b) (be n z) acc =
  acc * 256 ^ Z.of_nat n + z mod 256 ^ Z.of_nat n.
Proof.
  revert acc. induction n as [|n IH]; intros acc.
  - simpl. rewrite Z.mod_1_r. lia.
  - cbn [be fold_left]. rewrite IH. rewrite Nat2Z.inj_succ, Z.pow_succ_r by lia.
    assert (0 < 256 ^ Z.of_nat n) by lia.
    rewrite (Z.mul_comm 256 (256 ^ Z.of_nat n)).
    rewrite (Z.rem_mul_r z (256 ^ Z.of_nat n) 256) by lia. lia.
Qed.

Lemma be_val_be n z : be_val (be n z) = z mod 256 ^ Z.of_nat n.
Proof. unfold be_val. rewrite fold_be. lia. Qed.

Lemma be_val_be_small n z : 0 <= z < 256 ^ Z.of_nat n -> be_val (be n z) = z.
Proof. intros. rewrite be_val_be. by apply Z.mod_small. Qed.

Lemma fold_be_bound bs acc :
  Forall is_byte bs -> 0 <= acc ->
  0 <= fold_left (fun acc b => acc * 256 + b) bs acc <
       (acc + 1) * 256 ^ Z.of_nat (length bs).
Proof.
  intros Hb. revert acc. induction Hb as [|b bs Hx Hb IH]; intros acc Hacc.
  - simpl. lia.
  - unfold is_byte in Hx. specialize (IH (acc * 256 + b)).
    cbn [fold_left length]. rewrite Nat2Z.inj_succ, Z.pow_succ_r by lia.
    split; [apply IH; lia|]. eapply Z.lt_le_trans; [apply IH; lia|].
    rewrite Z.mul_assoc. apply Z.mul_le_mono_nonneg_r; lia.
Qed.

Lemma be_val_bound bs :
  Forall is_byte bs -> 0 <= be_val bs < 256 ^ Z.of_nat (length bs).
Proof. intros Hb. pose proof (fold_be_bound bs 0 Hb). unfold be_val. lia. Qed.

#[global] Arguments be : simpl never.
#[global] Arguments be_val : simpl never.
#[global] Arguments u16 : simpl never.
#[global] Arguments u32 : simpl never.
#[global] Arguments u64 : simpl never.
#[global] Arguments i64 : simpl never.
#[global] Arguments has : simpl never.
