(* ===== verification/NbdProtocol.v ===== *)
(** * Wire format of the NBD protocol

    Models [common/protocol/nbd-protocol.h] (constants and packed
    structures), the flags of [include/nbdkit-common.h] that cross the
    plugin interface, and the [errno] values (Linux numbering) that the
    server converts to and from the wire.  A packed structure is laid out
    by an encoder that writes its members in order; the structures the
    server receives also have the accessor the server uses. *)

From S2P Require Import Prelude.

(** ** Constants *)

Definition NBD_MAX_STRING : Z := 4096.
Definition NBD_MAGIC : Z := 0x4e42444d41474943.
Definition NBD_OLD_VERSION : Z := 0x0000420281861253.
Definition NBD_NEW_VERSION : Z := 0x49484156454F5054.
Definition NBD_REP_MAGIC : Z := 0x3e889045565a9.

(** Global flags. *)
Definition NBD_FLAG_FIXED_NEWSTYLE : Z := Z.shiftl 1 0.
Definition NBD_FLAG_NO_ZEROES : Z := Z.shiftl 1 1.

(** Per-export flags. *)
Definition NBD_FLAG_HAS_FLAGS : Z := Z.shiftl 1 0.
Definition NBD_FLAG_READ_ONLY : Z := Z.shiftl 1 1.
Definition NBD_FLAG_SEND_FLUSH : Z := Z.shiftl 1 2.
Definition NBD_FLAG_SEND_FUA : Z := Z.shiftl 1 3.
Definition NBD_FLAG_ROTATIONAL : Z := Z.shiftl 1 4.
Definition NBD_FLAG_SEND_TRIM : Z := Z.shiftl 1 5.
Definition NBD_FLAG_SEND_WRITE_ZEROES : Z := Z.shiftl 1 6.
Definition NBD_FLAG_SEND_DF : Z := Z.shiftl 1 7.
Definition NBD_FLAG_CAN_MULTI_CONN : Z := Z.shiftl 1 8.
Definition NBD_FLAG_SEND_CACHE : Z := Z.shiftl 1 10.
Definition NBD_FLAG_SEND_FAST_ZERO : Z := Z.shiftl 1 11.

(** Options, option replies and information types. *)
Definition NBD_OPT_EXPORT_NAME : Z := 1.
Definition NBD_OPT_ABORT : Z := 2.
Definition NBD_OPT_LIST : Z := 3.
Definition NBD_OPT_STARTTLS : Z := 5.
Definition NBD_OPT_INFO : Z := 6.
Definition NBD_OPT_GO : Z := 7.
Definition NBD_OPT_STRUCTURED_REPLY : Z := 8.
Definition NBD_OPT_LIST_META_CONTEXT : Z := 9.
Definition NBD_OPT_SET_META_CONTEXT : Z := 10.

Definition NBD_REP_ERR (v : Z) : Z := Z.lor 0x80000000 v.
Definition NBD_REP_IS_ERR (v : Z) : bool := has v 0x80000000.
Definition NBD_REP_ACK : Z := 1.
Definition NBD_REP_SERVER : Z := 2.
Definition NBD_REP_INFO : Z := 3.
Definition NBD_REP_META_CONTEXT : Z := 4.
Definition NBD_REP_ERR_UNSUP : Z := NBD_REP_ERR 1.
Definition NBD_REP_ERR_POLICY : Z := NBD_REP_ERR 2.
Definition NBD_REP_ERR_INVALID : Z := NBD_REP_ERR 3.
Definition NBD_REP_ERR_PLATFORM : Z := NBD_REP_ERR 4.
Definition NBD_REP_ERR_TLS_REQD : Z := NBD_REP_ERR 5.
Definition NBD_REP_ERR_UNKNOWN : Z := NBD_REP_ERR 6.
Definition NBD_REP_ERR_TOO_BIG : Z := NBD_REP_ERR 9.

Definition NBD_INFO_EXPORT : Z := 0.
Definition NBD_INFO_NAME : Z := 1.
Definition NBD_INFO_DESCRIPTION : Z := 2.
Definition NBD_INFO_BLOCK_SIZE : Z := 3.

(** Requests and replies. *)
Definition NBD_REQUEST_MAGIC : Z := 0x25609513.
Definition NBD_SIMPLE_REPLY_MAGIC : Z := 0x67446698.
Definition NBD_STRUCTURED_REPLY_MAGIC : Z := 0x668e33ef.
Definition NBD_REPLY_FLAG_DONE : Z := Z.shiftl 1 0.
Definition NBD_REPLY_TYPE_ERR (v : Z) : Z := Z.lor (Z.shiftl 1 15) v.
Definition NBD_REPLY_TYPE_OFFSET_DATA : Z := 1.
Definition NBD_REPLY_TYPE_BLOCK_STATUS : Z := 5.
Definition NBD_REPLY_TYPE_ERROR : Z := NBD_REPLY_TYPE_ERR 1.

Definition NBD_CMD_READ : Z := 0.
Definition NBD_CMD_WRITE : Z := 1.
Definition NBD_CMD_DISC : Z := 2.
Definition NBD_CMD_FLUSH : Z := 3.
Definition NBD_CMD_TRIM : Z := 4.
Definition NBD_CMD_CACHE : Z := 5.
Definition NBD_CMD_WRITE_ZEROES : Z := 6.
Definition NBD_CMD_BLOCK_STATUS : Z := 7.

Definition NBD_CMD_FLAG_FUA : Z := Z.shiftl 1 0.
Definition NBD_CMD_FLAG_NO_HOLE : Z := Z.shiftl 1 1.
Definition NBD_CMD_FLAG_DF : Z := Z.shiftl 1 2.
Definition NBD_CMD_FLAG_REQ_ONE : Z := Z.shiftl 1 3.
Definition NBD_CMD_FLAG_FAST_ZERO : Z := Z.shiftl 1 4.

Definition NBD_SUCCESS : Z := 0.
Definition NBD_EPERM : Z := 1.
Definition NBD_EIO : Z := 5.
Definition NBD_ENOMEM : Z := 12.
Definition NBD_EINVAL : Z := 22.
Definition NBD_ENOSPC : Z := 28.
Definition NBD_EOVERFLOW : Z := 75.
Definition NBD_ENOTSUP : Z := 95.
Definition NBD_ESHUTDOWN : Z := 108.

(** ** System [errno] values (Linux) *)

Definition EPERM : Z := 1.
Definition EIO : Z := 5.
Definition ENOMEM : Z := 12.
Definition EINVAL : Z := 22.
Definition EFBIG : Z := 27.
Definition ENOSPC : Z := 28.
Definition EROFS : Z := 30.
Definition ERANGE : Z := 34.
Definition EBADMSG : Z := 74.
Definition EOVERFLOW : Z := 75.
Definition ENOTSUP : Z := 95.
Definition EOPNOTSUPP : Z := 95.
Definition ESHUTDOWN : Z := 108.
Definition EDQUOT : Z := 122.

(** ** The plugin interface ([nbdkit-common.h], [nbdkit-plugin.h]) *)

Definition NBDKIT_THREAD_MODEL_SERIALIZE_CONNECTIONS : Z := 0.
Definition NBDKIT_THREAD_MODEL_SERIALIZE_ALL_REQUESTS : Z := 1.
Definition NBDKIT_THREAD_MODEL_SERIALIZE_REQUESTS : Z := 2.
Definition NBDKIT_THREAD_MODEL_PARALLEL : Z := 3.

Definition NBDKIT_FLAG_MAY_TRIM : Z := Z.shiftl 1 0.
Definition NBDKIT_FLAG_FUA : Z := Z.shiftl 1 1.
Definition NBDKIT_FLAG_REQ_ONE : Z := Z.shiftl 1 2.
Definition NBDKIT_FLAG_FAST_ZERO : Z := Z.shiftl 1 3.

Definition NBDKIT_ZERO_NONE : Z := 0.
Definition NBDKIT_ZERO_EMULATE : Z := 1.
Definition NBDKIT_ZERO_NATIVE : Z := 2.
Definition NBDKIT_FUA_NONE : Z := 0.
Definition NBDKIT_FUA_EMULATE : Z := 1.
Definition NBDKIT_FUA_NATIVE : Z := 2.
Definition NBDKIT_CACHE_NONE : Z := 0.
Definition NBDKIT_CACHE_EMULATE : Z := 1.
Definition NBDKIT_CACHE_NATIVE : Z := 2.

Definition NBDKIT_EXTENT_HOLE : Z := Z.shiftl 1 0.
Definition NBDKIT_EXTENT_ZERO : Z := Z.shiftl 1 1.

(** Maximum read or write request ([server/internal.h]). *)
Definition MAX_REQUEST_SIZE : Z := 64 * 1024 * 1024.

(** ** Packed structures *)

(** [n] bytes at byte position [off], converted from big-endian. *)
Definition field (off n : nat) (bs : list Z) : Z := be_val (take n (drop off bs)).

(** Compact request (client to server).  The cookie is opaque: the server
    keeps its eight bytes and copies them into the reply. *)
Record nbd_request : Type := NbdRequest {
  rq_magic : Z;
  rq_flags : Z;
  rq_type : Z;
  rq_cookie : list Z;
  rq_offset : Z;
  rq_count : Z;
}.

Definition sizeof_request : nat := 28.

Definition encode_request (r : nbd_request) : list Z :=
  be 4 (rq_magic r) ++ be 2 (rq_flags r) ++ be 2 (rq_type r) ++
  rq_cookie r ++ be 8 (rq_offset r) ++ be 4 (rq_count r).

Definition decode_request (bs : list Z) : nbd_request :=
  NbdRequest (field 0 4 bs) (field 4 2 bs) (field 6 2 bs)
    (take 8 (drop 8 bs)) (field 16 8 bs) (field 24 4 bs).

(** Newstyle option header (client to server). *)
Record nbd_new_option : Type := NbdNewOption {
  no_version : Z;
  no_option : Z;
  no_optlen : Z;
}.

Definition sizeof_new_option : nat := 16.

Definition encode_new_option (o : nbd_new_option) : list Z :=
  be 8 (no_version o) ++ be 4 (no_option o) ++ be 4 (no_optlen o).

Definition decode_new_option (bs : list Z) : nbd_new_option :=
  NbdNewOption (field 0 8 bs) (field 8 4 bs) (field 12 4 bs).

(** Structures only ever sent. *)
Definition nbd_old_handshake (nbdmagic version exportsize gflags eflags : Z) : list Z :=
  be 8 nbdmagic ++ be 8 version ++ be 8 exportsize ++ be 2 gflags ++
  be 2 eflags ++ replicate 124 0.

Definition nbd_new_handshake (nbdmagic version gflags : Z) : list Z :=
  be 8 nbdmagic ++ be 8 version ++ be 2 gflags.

Definition nbd_export_name_option_reply (exportsize eflags : Z) : list Z :=
  be 8 exportsize ++ be 2 eflags ++ replicate 124 0.

Definition nbd_fixed_new_option_reply (magic option reply replylen : Z) : list Z :=
  be 8 magic ++ be 4 option ++ be 4 reply ++ be 4 replylen.

Definition nbd_fixed_new_option_reply_info_export (info exportsize eflags : Z) : list Z :=
  be 2 info ++ be 8 exportsize ++ be 2 eflags.

Definition nbd_fixed_new_option_reply_info_block_size
    (info minimum preferred maximum : Z) : list Z :=
  be 2 info ++ be 4 minimum ++ be 4 preferred ++ be 4 maximum.

Definition nbd_simple_reply (magic error : Z) (cookie : list Z) : list Z :=
  be 4 magic ++ be 4 error ++ cookie.

Definition nbd_structured_reply (magic flags type : Z) (cookie : list Z) (length : Z)
    : list Z :=
  be 4 magic ++ be 2 flags ++ be 2 type ++ cookie ++ be 4 length.

Definition nbd_chunk_error (error len : Z) : list Z := be 4 error ++ be 2 len.

Record nbd_block_descriptor_32 : Type := BlockDescriptor {
  bd_length : Z;
  bd_status_flags : Z;
}.

Definition encode_block_descriptor (b : nbd_block_descriptor_32) : list Z :=
  be 4 (bd_length b) ++ be 4 (bd_status_flags b).

(** ** Layout lemmas *)

Lemma field_app_l off n bs bs' :
  (off + n <= length bs)%nat -> field off n (bs ++ bs') = field off n bs.
Proof.
  intros H. unfold field. rewrite drop_app_le by lia.
  rewrite take_app_le; [done|]. rewrite length_drop. lia.
Qed.

Lemma field_skip off n bs bs' :
  (length bs <= off)%nat -> field off n (bs ++ bs') = field (off - length bs) n bs'.
Proof. intros H. unfold field. by rewrite drop_app_ge by lia. Qed.

Lemma field_be n z : field 0 n (be n z) = z mod 256 ^ Z.of_nat n.
Proof.
  unfold field. rewrite drop_0, take_ge by (rewrite length_be; lia).
  apply be_val_be.
Qed.

Lemma field_bound off n bs :
  Forall is_byte bs -> 0 <= field off n bs < 256 ^ Z.of_nat n.
Proof.
  intros H. unfold field.
  pose proof (be_val_bound (take n (drop off bs))) as Hb.
  assert (Hf : Forall is_byte (take n (drop off bs)))
    by (apply Forall_take, Forall_drop, H).
  specialize (Hb Hf). split; [lia|].
  eapply Z.lt_le_trans; [apply Hb|]. apply Z.pow_le_mono_r; [lia|].
  rewrite length_take. lia.
Qed.

(** Peel the members of a packed structure off [field]. *)
Ltac fields :=
  repeat first
    [ rewrite field_app_l by (rewrite ?length_app, ?length_be, ?length_replicate; simpl; lia)
    | rewrite field_skip by (rewrite ?length_app, ?length_be, ?length_replicate; simpl; lia)
    | rewrite length_be
    | progress cbn [Nat.sub]
    | rewrite field_be ].

(** The members of a request are in the ranges of their C types. *)
Definition request_wf (r : nbd_request) : Prop :=
  0 <= rq_magic r <= UINT32_MAX /\ 0 <= rq_flags r <= UINT16_MAX /\
  0 <= rq_type r <= UINT16_MAX /\ length (rq_cookie r) = 8%nat /\
  0 <= rq_offset r <= UINT64_MAX /\ 0 <= rq_count r <= UINT32_MAX.

Lemma length_encode_request r :
  length (rq_cookie r) = 8%nat -> length (encode_request r) = sizeof_request.
Proof.
  intros H. unfold encode_request.
  by rewrite !length_app, !length_be, H.
Qed.

Lemma decode_encode_request r :
  request_wf r -> decode_request (encode_request r) = r.
Proof.
  intros (Hm & Hf & Ht & Hc & Ho & Hn). unfold decode_request, encode_request.
  destruct r as [m f t c o n].
  cbn [rq_magic rq_flags rq_type rq_cookie rq_offset rq_count] in *. limits.
  f_equal.
  - fields. apply Z.mod_small. simpl; lia.
  - fields. apply Z.mod_small. simpl; lia.
  - fields. apply Z.mod_small. simpl; lia.
  - rewrite !drop_app_ge, !length_be by (rewrite ?length_be; lia).
    cbn [Nat.sub]. rewrite drop_0, take_app_le by lia. apply take_ge. lia.
  - rewrite !field_skip by (rewrite ?length_be; lia). rewrite !length_be, Hc.
    fields. apply Z.mod_small. simpl; lia.
  - rewrite !field_skip by (rewrite ?length_be; lia). rewrite !length_be, Hc.
    fields. apply Z.mod_small. simpl; lia.
Qed.

Lemma decode_encode_new_option o :
  0 <= no_version o <= UINT64_MAX -> 0 <= no_option o <= UINT32_MAX ->
  0 <= no_optlen o <= UINT32_MAX ->
  decode_new_option (encode_new_option o) = o.
Proof.
  intros Hv Ho Hl. destruct o as [v o l].
  unfold decode_new_option, encode_new_option.
  cbn [no_version no_option no_optlen] in *. limits.
  f_equal; fields; apply Z.mod_small; simpl; lia.
Qed.
