(* ===== verification/Extents.v ===== *)
(** * Extent lists

    Models the data structure of [server/extents.c]: the list of extents
    a plugin or filter builds with [nbdkit_add_extent] while it answers a
    block-status request.  The abstract view of a list is the partial
    function from byte offsets to extent types ([type_at]).

    [malloc] and [realloc] are taken to succeed. *)

From S2P Require Import Prelude NbdProtocol.

(** ** Data and operations *)

Definition MAX_EXTENTS : Z := 1 * 1024 * 1024.

Record nbdkit_extent : Type := Extent {
  e_offset : Z;
  e_length : Z;
  e_type : Z;
}.

Record nbdkit_extents : Type := Extents {
  x_extents : list nbdkit_extent;
  x_start : Z;
  x_end : Z;
  x_next : Z;
}.

(** [inl errno] when the C function returns NULL. *)
Definition nbdkit_extents_new (start end_ : Z) : Z + nbdkit_extents :=
  if ((INT64_MAX <? start) || (INT64_MAX <? end_))%bool then inl ERANGE
  else if end_ <? start then inl ERANGE
  else inr (Extents [] start end_ (-1)).

Definition nbdkit_extents_count (exts : nbdkit_extents) : Z :=
  Z.of_nat (length (x_extents exts)).

(** [None] is a failed assertion. *)
Definition nbdkit_get_extent (exts : nbdkit_extents) (i : Z) : option nbdkit_extent :=
  if (0 <=? i)%Z then x_extents exts !! Z.to_nat i else None.

Definition append_extent (exts : nbdkit_extents) (e : nbdkit_extent) : nbdkit_extents :=
  Extents (x_extents exts ++ [e]) (x_start exts) (x_end exts) (x_next exts).

(** [exts->extents.ptr[len-1].length += length] *)
Fixpoint extend_last (l : list nbdkit_extent) (length : Z) : list nbdkit_extent :=
  match l with
  | [] => []
  | [e] => [Extent (e_offset e) (u64 (e_length e + length)) (e_type e)]
  | e :: l' => e :: extend_last l' length
  end.

(** The last two steps of [nbdkit_add_extent]: add or extend. *)
Definition add_or_extend (exts : nbdkit_extents) (offset length type : Z)
    : nbdkit_extents :=
  match list.last (x_extents exts) with
  | Some e =>
      if e_type e =? type
      then Extents (extend_last (x_extents exts) length) (x_start exts) (x_end exts)
             (x_next exts)
      else append_extent exts (Extent offset length type)
  | None => append_extent exts (Extent offset length type)
  end.

(** The result is [None] for 0 and [Some errno] for -1. *)
Definition nbdkit_add_extent (exts : nbdkit_extents) (offset length type : Z)
    : option Z * nbdkit_extents :=
  if ((0 <=? x_next exts) && negb (u64 (x_next exts) =? offset))%bool
  then (Some ERANGE, exts)
  else
    let exts := Extents (x_extents exts) (x_start exts) (x_end exts)
                  (i64 (offset + length)) in
    if length =? 0 then (None, exts)
    else if ((x_end exts <=? offset) || (MAX_EXTENTS <=? nbdkit_extents_count exts))%bool
    then (None, exts)
    else
      let length :=
        if x_end exts <? u64 (offset + length)
        then u64 (length - u64 (u64 (offset + length) - x_end exts))
        else length in
      if nbdkit_extents_count exts =? 0 then
        if u64 (offset + length) <=? x_start exts then (None, exts)
        else if x_start exts <? offset then (Some ERANGE, exts)
        else
          let overlap := u64 (x_start exts - offset) in
          (None, add_or_extend exts (u64 (offset + overlap)) (u64 (length - overlap)) type)
      else (None, add_or_extend exts offset length type).

(** ** Abstract view *)

(** The type recorded for byte [x]. *)
Fixpoint type_at (l : list nbdkit_extent) (x : Z) : option Z :=
  match l with
  | [] => None
  | e :: l' =>
      if ((e_offset e <=? x) && (x <? e_offset e + e_length e))%bool
      then Some (e_type e) else type_at l' x
  end.

(** The extents follow one another from byte [s] on, none of them empty. *)
Fixpoint chain (s : Z) (l : list nbdkit_extent) : Prop :=
  match l with
  | [] => True
  | e :: l' => e_offset e = s /\ 0 < e_length e /\ chain (s + e_length e) l'
  end.

(** The first byte after the last extent. *)
Fixpoint chain_end (s : Z) (l : list nbdkit_extent) : Z :=
  match l with
  | [] => s
  | e :: l' => chain_end (s + e_length e) l'
  end.

(** Neighbours have different types (they would have been coalesced). *)
Fixpoint coalesced (l : list nbdkit_extent) : Prop :=
  match l with
  | e :: (e' :: _) as l' => e_type e <> e_type e' /\ coalesced l'
  | _ => True
  end.

(** What [nbdkit_add_extent] maintains. *)
Record exts_wf (x : nbdkit_extents) : Prop := ExtsWf {
  wf_start : 0 <= x_start x <= x_end x;
  wf_end : x_end x <= INT64_MAX;
  wf_next : -1 <= x_next x <= INT64_MAX;
  wf_chain : chain (x_start x) (x_extents x);
  wf_coalesced : coalesced (x_extents x);
  wf_count : nbdkit_extents_count x <= MAX_EXTENTS;
  wf_filled : x_extents x <> [] ->
    0 <= x_next x /\
    chain_end (x_start x) (x_extents x) <= Z.min (x_next x) (x_end x) /\
    (nbdkit_extents_count x < MAX_EXTENTS ->
     chain_end (x_start x) (x_extents x) = Z.min (x_next x) (x_end x));
}.

(** ** Lists of contiguous extents *)

Lemma chain_app s l1 l2 :
  chain s (l1 ++ l2) <-> chain s l1 /\ chain (chain_end s l1) l2.
Proof.
  revert s. induction l1 as [|e l1 IH]; intros s; simpl; [tauto|].
  rewrite IH. tauto.
Qed.

Lemma chain_end_app s l1 l2 :
  chain_end s (l1 ++ l2) = chain_end (chain_end s l1) l2.
Proof. revert s. induction l1 as [|e l1 IH]; intros s; simpl; [done|]. apply IH. Qed.

Lemma chain_end_le s l : chain s l -> s <= chain_end s l.
Proof.
  revert s. induction l as [|e l IH]; intros s; simpl; [lia|].
  intros (? & ? & H). apply IH in H. lia.
Qed.

Lemma chain_end_lt s l : chain s l -> l <> [] -> s < chain_end s l.
Proof.
  destruct l as [|e l]; [done|]. simpl. intros (? & ? & H) _.
  apply chain_end_le in H. lia.
Qed.

Lemma type_at_app l1 l2 x :
  type_at (l1 ++ l2) x =
  match type_at l1 x with Some t => Some t | None => type_at l2 x end.
Proof.
  induction l1 as [|e l1 IH]; simpl; [done|].
  destruct (_ && _)%bool; [done|apply IH].
Qed.

(** A contiguous list covers exactly one interval. *)
Lemma chain_domain s l x :
  chain s l -> is_Some (type_at l x) <-> s <= x < chain_end s l.
Proof.
  revert s. induction l as [|e l IH]; intros s; simpl.
  - intros _. rewrite is_Some_alt. lia.
  - intros (-> & Hl & Hc). pose proof (chain_end_le _ _ Hc).
    specialize (IH _ Hc).
    destruct (Z.leb_spec s x), (Z.ltb_spec x (s + e_length e)); simpl.
    + split; [lia|eauto].
    + rewrite IH. lia.
    + rewrite IH. lia.
    + rewrite IH. lia.
Qed.

Lemma chain_outside s l x :
  chain s l -> ~ (s <= x < chain_end s l) -> type_at l x = None.
Proof.
  intros Hc Hx. destruct (type_at l x) eqn:E; [|done].
  exfalso. apply Hx, (chain_domain s l x Hc). rewrite E. eauto.
Qed.

Lemma extend_last_snoc l e n :
  extend_last (l ++ [e]) n =
  l ++ [Extent (e_offset e) (u64 (e_length e + n)) (e_type e)].
Proof.
  induction l as [|e' l IH]; [done|].
  simpl. rewrite IH. destruct (l ++ [e]) eqn:E; [|done].
  by apply app_nil in E as [_ ?].
Qed.

Lemma coalesced_snoc l e :
  coalesced l -> (forall e', list.last l = Some e' -> e_type e' <> e_type e) ->
  coalesced (l ++ [e]).
Proof.
  induction l as [|e1 l IH]; [done|].
  destruct l as [|e2 l].
  - simpl. intros _ H. split; [by apply H|done].
  - intros [Hne Hc] Hl. simpl in IH |- *. split; [done|]. apply IH; [done|].
    intros e' He'. apply Hl. done.
Qed.

Lemma coalesced_replace_last l e e' :
  e_type e = e_type e' -> coalesced (l ++ [e]) -> coalesced (l ++ [e']).
Proof.
  intros Ht. induction l as [|e1 l IH]; [done|].
  destruct l as [|e2 l].
  - simpl. intros [H _]. split; [congruence|done].
  - simpl in IH |- *. intros [Hne Hc]. split; [done|]. by apply IH.
Qed.

(** ** Adding an extent *)

(** [l'] is [l] with bytes [offset, offset + length) appended as [type]. *)
Record appended (s : Z) (l : list nbdkit_extent) (offset length type : Z)
    (l' : list nbdkit_extent) : Prop := Appended {
  ap_chain : chain s l';
  ap_coalesced : coalesced l';
  ap_end : chain_end s l' = offset + length;
  ap_count : (List.length l <= List.length l' <= S (List.length l))%nat;
  ap_nonempty : l' <> [];
  ap_type : forall x, type_at l' x =
    if decide (offset <= x < offset + length) then Some type else type_at l x;
}.

Lemma snoc_appended s l offset length type :
  chain s l -> coalesced l -> chain_end s l = offset -> 0 < length ->
  (forall e, list.last l = Some e -> e_type e <> type) ->
  appended s l offset length type (l ++ [Extent offset length type]).
Proof.
  intros Hc Hco He Hlen Hne. split.
  - apply chain_app. simpl. auto.
  - by apply coalesced_snoc.
  - by rewrite chain_end_app, He.
  - rewrite length_app. simpl. lia.
  - intros H. by apply app_nil in H as [_ ?].
  - intros x. rewrite type_at_app. simpl.
    destruct (decide _) as [Hx|Hx].
    + rewrite (chain_outside s l x) by (done || lia).
      destruct (Z.leb_spec offset x), (Z.ltb_spec x (offset + length)); simpl; [done|lia..].
    + destruct (Z.leb_spec offset x), (Z.ltb_spec x (offset + length)); simpl;
        (lia || by destruct (type_at l x)).
Qed.

Lemma extend_appended s l e offset length type :
  chain s (l ++ [e]) -> coalesced (l ++ [e]) -> chain_end s (l ++ [e]) = offset ->
  0 < length -> 0 <= s -> offset + length <= INT64_MAX -> e_type e = type ->
  appended s (l ++ [e]) offset length type (extend_last (l ++ [e]) length).
Proof.
  intros Hc Hco He Hlen Hs Hmax Ht. rewrite extend_last_snoc.
  apply chain_app in Hc as [Hc (Heo & Hel & _)].
  rewrite chain_end_app in He. simpl in He.
  pose proof (chain_end_le _ _ Hc).
  rewrite u64_small by (limits; lia). split.
  - apply chain_app. simpl. repeat split; (done || lia).
  - by apply (coalesced_replace_last l e).
  - rewrite chain_end_app. simpl. lia.
  - rewrite !length_app. simpl. lia.
  - intros H'. by apply app_nil in H' as [_ ?].
  - intros x. rewrite !type_at_app. simpl. rewrite Heo.
    destruct (decide _) as [Hx|Hx].
    + rewrite (chain_outside s l x) by (done || lia).
      destruct (Z.leb_spec (chain_end s l) x),
        (Z.ltb_spec x (chain_end s l + (e_length e + length))); simpl; [congruence|lia..].
    + destruct (type_at l x); [done|].
      destruct (Z.leb_spec (chain_end s l) x), (Z.ltb_spec x (chain_end s l + e_length e)),
        (Z.ltb_spec x (chain_end s l + (e_length e + length))); simpl; (done || lia).
Qed.

Lemma add_or_extend_appended exts offset length type :
  chain (x_start exts) (x_extents exts) -> coalesced (x_extents exts) ->
  chain_end (x_start exts) (x_extents exts) = offset ->
  0 < length -> 0 <= x_start exts -> offset + length <= INT64_MAX ->
  appended (x_start exts) (x_extents exts) offset length type
    (x_extents (add_or_extend exts offset length type)) /\
  x_start (add_or_extend exts offset length type) = x_start exts /\
  x_end (add_or_extend exts offset length type) = x_end exts /\
  x_next (add_or_extend exts offset length type) = x_next exts.
Proof.
  intros Hc Hco He Hlen Hs Hmax. unfold add_or_extend.
  destruct (list.last (x_extents exts)) as [e|] eqn:Hl.
  - destruct (Z.eqb_spec (e_type e) type) as [Ht|Ht]; simpl.
    + apply last_Some in Hl as [l Hl]. rewrite Hl in *.
      split; [by apply extend_appended|done].
    + split; [|done]. apply snoc_appended; try done.
      intros e' He'. rewrite Hl in He'. by simplify_eq.
  - simpl. split; [|done]. apply snoc_appended; try done.
    intros e' He'. by rewrite Hl in He'.
Qed.

(** Arguments for which the 64-bit arithmetic of the plugin's own disk
    cannot wrap: the extent lies below [INT64_MAX]. *)
Definition add_ok (offset length : Z) : Prop :=
  0 <= offset /\ 0 <= length /\ offset + length <= INT64_MAX.

(** The five ways [nbdkit_add_extent] can end.  In the last one,
    [lo, hi) is the part of the new extent inside the requested range. *)
Inductive add_spec (exts : nbdkit_extents) (offset length type : Z)
    : option Z -> nbdkit_extents -> Prop :=
| add_discontiguous :
    0 <= x_next exts -> x_next exts <> offset ->
    add_spec exts offset length type (Some ERANGE) exts
| add_gap :
    ~ (0 <= x_next exts /\ x_next exts <> offset) -> 0 < length ->
    x_extents exts = [] -> x_start exts < offset < x_end exts ->
    add_spec exts offset length type (Some ERANGE)
      (Extents [] (x_start exts) (x_end exts) (offset + length))
| add_ignored :
    ~ (0 <= x_next exts /\ x_next exts <> offset) ->
    (length = 0 \/ x_end exts <= offset \/ nbdkit_extents_count exts = MAX_EXTENTS \/
     (x_extents exts = [] /\ Z.min (offset + length) (x_end exts) <= x_start exts)) ->
    add_spec exts offset length type None
      (Extents (x_extents exts) (x_start exts) (x_end exts) (offset + length))
| add_done l' lo hi :
    ~ (0 <= x_next exts /\ x_next exts <> offset) ->
    lo = Z.max offset (x_start exts) -> hi = Z.min (offset + length) (x_end exts) ->
    lo < hi -> nbdkit_extents_count exts < MAX_EXTENTS ->
    appended (x_start exts) (x_extents exts) lo (hi - lo) type l' ->
    add_spec exts offset length type None
      (Extents l' (x_start exts) (x_end exts) (offset + length)).

Lemma count_zero exts : nbdkit_extents_count exts = 0 <-> x_extents exts = [].
Proof.
  unfold nbdkit_extents_count. split; intros H.
  - destruct (x_extents exts); [done|]. simpl in H. lia.
  - by rewrite H.
Qed.

(** The bytes [lo, lo + n) are appended. *)
Lemma add_or_extend_done exts offset length type lo n :
  chain (x_start exts) (x_extents exts) -> coalesced (x_extents exts) ->
  chain_end (x_start exts) (x_extents exts) = lo -> 0 <= x_start exts -> 0 < n ->
  ~ (0 <= x_next exts /\ x_next exts <> offset) ->
  lo = Z.max offset (x_start exts) -> lo + n = Z.min (offset + length) (x_end exts) ->
  offset + length <= INT64_MAX -> nbdkit_extents_count exts < MAX_EXTENTS ->
  add_spec exts offset length type None
    (add_or_extend (Extents (x_extents exts) (x_start exts) (x_end exts) (offset + length))
       lo n type).
Proof.
  intros Hch Hco Hce Hs Hpos Hn Hlo Hhi Hm Hcnt.
  destruct (add_or_extend_appended
    (Extents (x_extents exts) (x_start exts) (x_end exts) (offset + length)) lo n type)
    as (Hap & Hs' & He' & Hn'); cbn [x_extents x_start x_end x_next] in *; try (done || lia).
  destruct (add_or_extend _ _ _ _) as [l' s' e' n']; simpl in *. subst s' e' n'.
  eapply add_done with (lo := lo) (hi := lo + n); [done|lia..|].
  by replace (lo + n - lo) with n by lia.
Qed.

Lemma nbdkit_add_extent_spec exts offset length type :
  exts_wf exts -> add_ok offset length ->
  add_spec exts offset length type
    (nbdkit_add_extent exts offset length type).1
    (nbdkit_add_extent exts offset length type).2.
Proof.
  intros [Hst Hen Hnx Hch Hco Hcnt Hfill] (Ho & Hl & Hm). unfold nbdkit_add_extent.
  assert (Hnext : ((0 <=? x_next exts) && negb (u64 (x_next exts) =? offset))%bool = true
     <-> 0 <= x_next exts /\ x_next exts <> offset).
  { rewrite andb_true_iff, negb_true_iff, Z.leb_le, Z.eqb_neq.
    split; intros [H1 H2]; (split; [done|]); by rewrite u64_small in * by (limits; lia). }
  destruct (_ && _)%bool; [by apply add_discontiguous; apply Hnext|].
  assert (Hn : ~ (0 <= x_next exts /\ x_next exts <> offset))
    by (intros H; apply Hnext in H; done). clear Hnext.
  rewrite i64_small by lia. cbn [x_extents x_start x_end x_next].
  change (nbdkit_extents_count (Extents (x_extents exts) (x_start exts) (x_end exts)
    (offset + length))) with (nbdkit_extents_count exts).
  destruct (Z.eqb_spec length 0); [by apply add_ignored; auto|].
  destruct (Z.leb_spec (x_end exts) offset); [by apply add_ignored; auto|].
  destruct (Z.leb_spec MAX_EXTENTS (nbdkit_extents_count exts)); simpl;
    [apply add_ignored; auto; lia|].
  rewrite (u64_small (offset + length)) by (limits; lia).
  set (len := if x_end exts <? offset + length then _ else length).
  assert (Hlen : offset + len = Z.min (offset + length) (x_end exts) /\ 0 < len).
  { subst len. destruct (Z.ltb_spec (x_end exts) (offset + length)); unwrap; lia. }
  clearbody len. destruct Hlen as [Hlen Hpos].
  rewrite (u64_small (offset + len)) by (limits; lia).
  destruct (Z.eqb_spec (nbdkit_extents_count exts) 0) as [Hz|Hz].
  - apply count_zero in Hz.
    destruct (Z.leb_spec (offset + len) (x_start exts)); [apply add_ignored; auto with lia|].
    destruct (Z.ltb_spec (x_start exts) offset).
    { simpl. rewrite Hz. apply add_gap; auto with lia. }
    set (ov := u64 (x_start exts - offset)).
    assert (Hov : ov = x_start exts - offset) by (subst ov; unwrap; lia). clearbody ov. subst ov.
    rewrite !u64_small by (limits; lia). simpl.
    apply add_or_extend_done; (done || lia || by rewrite Hz; simpl; lia).
  - assert (Hne : x_extents exts <> []) by (intros E; by apply count_zero in E).
    destruct (Hfill Hne) as (Hnn & _ & Hfull). specialize (Hfull ltac:(lia)).
    pose proof (chain_end_lt _ _ Hch Hne).
    assert (Hoff : x_next exts = offset) by (destruct (decide (x_next exts = offset)); [done|]; tauto).
    simpl. apply add_or_extend_done; (done || lia).
Qed.

(** ** Properties *)

(** Every result of [add_spec] keeps the list well formed. *)
Lemma add_spec_wf exts offset length type r exts' :
  exts_wf exts -> add_ok offset length ->
  add_spec exts offset length type r exts' -> exts_wf exts'.
Proof.
  intros Hwf (Ho & Hl & Hm) Hadd. pose proof Hwf as [Hst Hen Hnx Hch Hco Hcnt Hfill].
  destruct Hadd as [| ? ? He ? | Hn Hwhy | l' lo hi Hn -> -> Hlt Hc [Hc' Hco' He' Hn' Hne Ht]].
  - done.
  - split; simpl; try (done || lia).
  - split; simpl; try (done || lia). intros Hne. destruct (Hfill Hne) as (? & Hle & Hfull).
    assert (x_next exts = offset)
      by (destruct (decide (x_next exts = offset)); [done|tauto]).
    split; [lia|]. split; [lia|]. intros Hlt. specialize (Hfull Hlt).
    change (nbdkit_extents_count (Extents (x_extents exts) _ _ _))
      with (nbdkit_extents_count exts) in Hlt.
    destruct Hwhy as [|[|[|[]]]]; (done || lia).
  - split; simpl; try (done || lia).
    unfold nbdkit_extents_count in *. simpl. lia.
Qed.

(** [nbdkit_add_extent] preserves the well-formedness of an extent
    list on every path, the failing ones included: extents stay contiguous
    from [start], non-empty, inside [start, end), coalesced, and there are
    never more than [MAX_EXTENTS] of them. *)
Lemma add_extent_preserves_wf exts offset length type :
  exts_wf exts -> add_ok offset length ->
  exts_wf (nbdkit_add_extent exts offset length type).2.
Proof.
  intros Hwf Hok.
  exact (add_spec_wf _ _ _ _ _ _ Hwf Hok (nbdkit_add_extent_spec _ _ _ type Hwf Hok)).
Qed.

Lemma add_extent_preserves_wf_witness :
  exts_wf (nbdkit_add_extent (Extents [] 10 100 (-1)) 0 30 1).2.
Proof.
  apply (add_extent_preserves_wf (Extents [] 10 100 (-1)) 0 30 1).
  - split; simpl; unfold INT64_MAX; (done || lia).
  - unfold add_ok, INT64_MAX. lia.
Defined.

(** C25: Refinement to the abstract view: when [nbdkit_add_extent] succeeds
    on a list that is not full, the recorded type of every byte of
    [start, end) that the new extent covers becomes [type], and no other
    byte changes. *)
Theorem add_extent_refines exts offset length type :
  exts_wf exts -> add_ok offset length ->
  nbdkit_extents_count exts < MAX_EXTENTS ->
  (nbdkit_add_extent exts offset length type).1 = None ->
  forall x, type_at (x_extents (nbdkit_add_extent exts offset length type).2) x =
    if decide (offset <= x < offset + length /\ x_start exts <= x < x_end exts)
    then Some type else type_at (x_extents exts) x.
Proof.
  intros Hwf Hok Hfull Hr x. pose proof (nbdkit_add_extent_spec exts offset length type Hwf Hok) as Hs.
  rewrite Hr in Hs. destruct (nbdkit_add_extent exts offset length type) as [r exts'].
  simpl in *. inversion Hs as [| | Hn Hwhy | l' lo hi Hn Hlo Hhi Hlt Hc Hap]; subst; simpl.
  - destruct (decide _); [|done]. destruct Hwhy as [|[|[|[]]]]; lia.
  - rewrite (ap_type _ _ _ _ _ _ Hap). destruct (decide _), (decide _); (done || lia).
Qed.

Lemma add_extent_refines_witness :
  type_at (x_extents (nbdkit_add_extent (Extents [] 10 100 (-1)) 0 30 1).2) 12 = Some 1.
Proof.
  rewrite (add_extent_refines (Extents [] 10 100 (-1)) 0 30 1).
  - reflexivity.
  - split; simpl; unfold INT64_MAX; (done || lia).
  - unfold add_ok, INT64_MAX. lia.
  - reflexivity.
  - reflexivity.
Defined.

(** The failures of [nbdkit_add_extent] are exactly the two API
    violations: an extent that does not start where the previous one
    ended, and a first extent that leaves a gap after [start].  A failure
    never changes the extents. *)
Theorem add_extent_errors exts offset length type :
  exts_wf exts -> add_ok offset length ->
  ((nbdkit_add_extent exts offset length type).1 = None <->
   (x_next exts = -1 \/ x_next exts = offset) /\
   ~ (x_extents exts = [] /\ 0 < length /\ x_start exts < offset < x_end exts)) /\
  ((nbdkit_add_extent exts offset length type).1 <> None ->
   (nbdkit_add_extent exts offset length type).1 = Some ERANGE /\
   x_extents (nbdkit_add_extent exts offset length type).2 = x_extents exts).
Proof.
  intros Hwf Hok. pose proof (nbdkit_add_extent_spec exts offset length type Hwf Hok) as Hs.
  destruct (nbdkit_add_extent exts offset length type) as [r exts'].
  pose proof (wf_next _ Hwf). simpl in *. destruct Hok as (? & ? & ?).
  inversion Hs as [| | Hn Hwhy | l' lo hi Hn Hlo Hhi Hlt Hc Hap]; subst; simpl; split;
    try done; split; try done; try lia.
  - intros [_ []]. tauto.
  - intros _. split; [lia|]. intros (He & ? & ?).
    destruct Hwhy as [|[|[Hc|[]]]]; try lia.
    unfold nbdkit_extents_count, MAX_EXTENTS in Hc. rewrite He in Hc. done.
  - intros _. split; [lia|]. intros (He & ? & ?).
    pose proof (ap_chain _ _ _ _ _ _ Hap) as Hch. pose proof (ap_type _ _ _ _ _ _ Hap) as Ht.
    assert (Hx : is_Some (type_at l' (x_start exts))).
    { apply (chain_domain _ _ _ Hch). split; [lia|].
      exact (chain_end_lt _ _ Hch (ap_nonempty _ _ _ _ _ _ Hap)). }
    rewrite Ht, He in Hx. destruct (decide _); [lia|by destruct Hx].
Qed.

Lemma add_extent_errors_witness :
  (nbdkit_add_extent (Extents [] 10 100 (-1)) 20 30 1).1 = Some ERANGE.
Proof.
  destruct (add_extent_errors (Extents [] 10 100 (-1)) 20 30 1) as [_ H].
  - split; simpl; unfold INT64_MAX; (done || lia).
  - unfold add_ok, INT64_MAX. lia.
  - apply H. vm_compute. discriminate.
Defined.

Lemma extents_new_wf start end_ exts :
  0 <= start -> nbdkit_extents_new start end_ = inr exts ->
  exts_wf exts /\ x_start exts = start /\ x_end exts = end_ /\ x_extents exts = [].
Proof.
  intros Hs. unfold nbdkit_extents_new.
  destruct (Z.ltb_spec INT64_MAX start), (Z.ltb_spec INT64_MAX end_); simpl; try done.
  destruct (Z.ltb_spec end_ start); [done|]. intros [= <-].
  split; [|done]. split; simpl; unfold nbdkit_extents_count, MAX_EXTENTS, INT64_MAX in *;
    simpl; (done || lia).
Qed.

(** ** Sequences of additions

    A plugin can only change the list it is given with calls of
    [nbdkit_add_extent]. *)
Definition exts_add (x x' : nbdkit_extents) : Prop :=
  exists offset length type, add_ok offset length /\
    x' = (nbdkit_add_extent x offset length type).2.

Definition exts_reach : relation nbdkit_extents := rtc exts_add.

Lemma add_extent_range x offset length type :
  x_start (nbdkit_add_extent x offset length type).2 = x_start x /\
  x_end (nbdkit_add_extent x offset length type).2 = x_end x.
Proof.
  unfold nbdkit_add_extent, add_or_extend, append_extent.
  repeat (case_match; simpl); done.
Qed.

Lemma exts_reach_wf x x' :
  exts_reach x x' -> exts_wf x ->
  exts_wf x' /\ x_start x' = x_start x /\ x_end x' = x_end x.
Proof.
  induction 1 as [x|x y z (o & l & t & Hok & ->) _ IH]; [done|]. intros Hwf.
  destruct (IH (add_spec_wf _ _ _ _ _ _ Hwf Hok (nbdkit_add_extent_spec x o l t Hwf Hok)))
    as (? & Hs & He).
  destruct (add_extent_range x o l t). split; [done|]. split; congruence.
Qed.

Lemma coalesced_app_l l1 l2 : coalesced (l1 ++ l2) -> coalesced l1.
Proof.
  induction l1 as [|e l1 IH]; [done|]. destruct l1 as [|e1 l1]; [done|].
  simpl in IH |- *. intros [Hne Hc]. split; [done|]. by apply IH.
Qed.

(** ** Sound answers

    A bit of an extent's type is a promise about its bytes, for example that
    they read as zeroes.  [P] is what the bit [k] promises. *)

Section Sound.
Context (k : Z) (P : Z -> Prop).

Definition types_sound (l : list nbdkit_extent) : Prop :=
  forall x t, type_at l x = Some t -> Z.testbit t k = true -> P x.

Lemma types_sound_nil : types_sound [].
Proof. done. Qed.

Lemma types_sound_appended s l offset length type l' :
  appended s l offset length type l' -> types_sound l ->
  (Z.testbit type k = true -> forall x, offset <= x < offset + length -> P x) ->
  types_sound l'.
Proof.
  intros Hap Hl Ht x t. rewrite (ap_type _ _ _ _ _ _ Hap).
  destruct (decide _); [intros [= <-]; auto|apply Hl].
Qed.

(** The first extent of a sound list, and the others. *)
Lemma types_sound_cons s e l :
  chain s (e :: l) ->
  types_sound (e :: l) <->
  (Z.testbit (e_type e) k = true ->
     forall x, e_offset e <= x < e_offset e + e_length e -> P x) /\ types_sound l.
Proof.
  intros (<- & Hpos & Hch). unfold types_sound. simpl. split.
  - intros H. split.
    + intros Hk x Hx. apply (H x (e_type e)); [|done].
      by rewrite (proj2 (Z.leb_le _ _)), (proj2 (Z.ltb_lt _ _)) by lia.
    + intros x t Hx Hk. apply (H x t); [|done].
      assert (Hd : is_Some (type_at l x)) by eauto. rewrite (chain_domain _ _ _ Hch) in Hd.
      by rewrite (proj2 (Z.ltb_ge x _)), andb_false_r by lia.
  - intros [He Hl] x t. destruct (Z.leb_spec (e_offset e) x), (Z.ltb_spec x (e_offset e + e_length e));
      simpl; [intros [= <-] ?; auto|apply Hl..].
Qed.

Lemma types_sound_app_l l1 l2 : types_sound (l1 ++ l2) -> types_sound l1.
Proof. intros H x t Ht. apply H. by rewrite type_at_app, Ht. Qed.

(** Two extents merged with the intersection of their types. *)
Lemma types_sound_merge s e e1 l n t :
  chain s (e :: e1 :: l) -> n = e_length e + e_length e1 ->
  t = Z.land (e_type e) (e_type e1) -> types_sound (e :: e1 :: l) ->
  chain s (Extent (e_offset e) n t :: l) /\ types_sound (Extent (e_offset e) n t :: l).
Proof.
  intros Hch -> -> Hsnd. apply (types_sound_cons s) in Hsnd as [He Hsnd]; [|done].
  destruct Hch as (Ho & Hpos & Hch). apply (types_sound_cons (s + e_length e)) in Hsnd as [He1 Hl]; [|done].
  destruct Hch as (Ho1 & Hpos1 & Hch).
  assert (Hm : chain s (Extent (e_offset e) (e_length e + e_length e1)
                         (Z.land (e_type e) (e_type e1)) :: l)).
  { simpl. split; [done|]. split; [lia|]. by rewrite Z.add_assoc. }
  split; [done|]. apply (types_sound_cons s); [done|]. simpl. split; [|done].
  rewrite Z.land_spec, andb_true_iff. intros [H0 H1] x Hx.
  destruct (decide (x < e_offset e + e_length e)); [apply He|apply He1]; (done || lia).
Qed.

(** A list cut inside one of its extents. *)
Lemma types_sound_cut s l1 e l2 n :
  chain (chain_end s l1) (e :: l2) -> 0 <= n <= e_length e ->
  types_sound (l1 ++ e :: l2) -> types_sound (l1 ++ [Extent (e_offset e) n (e_type e)]).
Proof.
  intros Hch Hn Hsnd x t. pose proof (Hsnd x t) as Hx. rewrite type_at_app in Hx |- *.
  destruct (type_at l1 x); [done|]. simpl in Hx |- *.
  destruct (Z.leb_spec (e_offset e) x), (Z.ltb_spec x (e_offset e + n)); simpl; try done.
  rewrite (proj2 (Z.ltb_lt x _)) in Hx by lia. done.
Qed.

(** The first extent, shortened. *)
Lemma types_sound_shorten s e l n :
  chain s (e :: l) -> 0 <= n <= e_length e -> types_sound (e :: l) ->
  types_sound [Extent (e_offset e) n (e_type e)].
Proof. apply (types_sound_cut s []). Qed.

(** [ret] describes [start, offset) of the range [start, end_). *)
Record collected (start end_ offset : Z) (ret : nbdkit_extents) : Prop := Collected {
  cl_wf : exts_wf ret;
  cl_start : x_start ret = start;
  cl_end : x_end ret = end_;
  cl_offset : start <= offset <= end_;
  cl_next : x_next ret = offset \/ (x_next ret = -1 /\ offset = start);
  cl_filled : start < offset -> x_extents ret <> [];
  cl_sound : types_sound (x_extents ret);
}.

(** Adding the next extent, which may reach beyond the end. *)
Lemma collected_extend start end_ offset ret length type :
  collected start end_ offset ret -> 0 < length -> offset < end_ -> offset + length <= INT64_MAX ->
  (Z.testbit type k = true -> forall x, offset <= x < offset + length -> P x) ->
  exists ret', nbdkit_add_extent ret offset length type = (None, ret') /\ exts_wf ret' /\
    x_start ret' = start /\ x_end ret' = end_ /\ x_next ret' = offset + length /\
    x_extents ret' <> [] /\ types_sound (x_extents ret').
Proof.
  intros [Hwf Hs He Ho Hn Hf Hsnd] Hl Hlt Hmax Ht.
  pose proof (wf_start _ Hwf) as Hst.
  assert (Hok : add_ok offset length) by (unfold add_ok; lia).
  pose proof (nbdkit_add_extent_spec ret offset length type Hwf Hok) as Hsp.
  pose proof (add_spec_wf _ _ _ _ _ _ Hwf Hok Hsp) as Hwf'.
  destruct (nbdkit_add_extent ret offset length type) as [r ret']. simpl in *.
  inversion Hsp as [? ?|? ? Hnil ?|? Hwhy|l' lo hi ? ? ? ? ? Hap]; subst; simpl in *.
  - lia.
  - exfalso. apply Hf; [lia|done].
  - exists (Extents (x_extents ret) (x_start ret) (x_end ret) (offset + length)).
    do 5 (split; [done|]). split; [|done]. intros Hnil.
    destruct Hwhy as [?|[?|[Hc|[_ ?]]]]; [lia..| |lia].
    simpl in Hnil. apply count_zero in Hnil. unfold MAX_EXTENTS in Hc. lia.
  - eexists. do 5 (split; [done|]). split; [apply Hap|].
    eapply types_sound_appended; [exact Hap|done|]. intros Hk x Hx. apply (Ht Hk). lia.
Qed.

Lemma collected_add start end_ offset ret length type :
  collected start end_ offset ret -> 0 < length -> offset + length <= end_ ->
  (Z.testbit type k = true -> forall x, offset <= x < offset + length -> P x) ->
  exists ret', nbdkit_add_extent ret offset length type = (None, ret') /\
    collected start end_ (offset + length) ret'.
Proof.
  intros Hcl Hl Hend Ht. pose proof (wf_end _ (cl_wf _ _ _ _ Hcl)) as Hmax.
  pose proof (cl_offset _ _ _ _ Hcl). rewrite (cl_end _ _ _ _ Hcl) in Hmax.
  destruct (collected_extend _ _ _ _ length type Hcl) as (ret' & E & Hwf' & Hs' & He' & Hn' & Hne' & Hsnd');
    [lia..|done|].
  exists ret'. split; [done|]. split; try (done || lia).
Qed.

(** A new list has collected nothing. *)
Lemma collected_new start end_ :
  0 <= start <= end_ -> end_ <= INT64_MAX ->
  collected start end_ start (Extents [] start end_ (-1)).
Proof.
  intros Hs He. split; simpl; try (done || lia || auto).
Qed.
End Sound.
#[global] Arguments cl_wf {k P}.
#[global] Arguments cl_start {k P}.
#[global] Arguments cl_end {k P}.
#[global] Arguments cl_offset {k P}.
#[global] Arguments cl_next {k P}.
#[global] Arguments cl_filled {k P}.
#[global] Arguments cl_sound {k P}.
#[global] Arguments collected_add {k P}.
#[global] Arguments collected_extend {k P}.
