(* ===== verification/Exports.v ===== *)
(** * Export lists

    Models [server/exports.c]: the list of export names a plugin returns
    for [NBD_OPT_LIST].  Strings are lists of non-zero bytes; [malloc] and
    [strdup] are taken to succeed. *)

From S2P Require Import Prelude NbdProtocol.

Definition MAX_EXPORTS : Z := 10000.

Record nbdkit_export : Type := Export {
  ex_name : list Z;
  ex_description : option (list Z);
}.

Record nbdkit_exports : Type := Exports {
  xs_exports : list nbdkit_export;
  xs_use_default : bool;
}.

Definition nbdkit_exports_new : nbdkit_exports := Exports [] false.

Definition nbdkit_exports_count (exps : nbdkit_exports) : Z :=
  Z.of_nat (length (xs_exports exps)).

(** [None] is a failed assertion. *)
Definition nbdkit_get_export (exps : nbdkit_exports) (i : nat) : option nbdkit_export :=
  xs_exports exps !! i.

Definition strlen (s : list Z) : Z := Z.of_nat (length s).

(** [None] for 0, [Some errno] for -1. *)
Definition nbdkit_add_export (exps : nbdkit_exports) (name : list Z)
    (description : option (list Z)) : option Z * nbdkit_exports :=
  if nbdkit_exports_count exps =? MAX_EXPORTS then (Some EINVAL, exps)
  else if ((NBD_MAX_STRING <? strlen name) ||
           match description with
           | Some d => NBD_MAX_STRING <? strlen d
           | None => false
           end)%bool
  then (Some EINVAL, exps)
  else (None, Exports (xs_exports exps ++ [Export name description]) (xs_use_default exps)).

Definition nbdkit_use_default_export (exps : nbdkit_exports) : nbdkit_exports :=
  Exports (xs_exports exps) true.

(** [exports_resolve_default], given what [backend_default_export] answers
    when it is asked. *)
Definition exports_resolve_default_with (exps : nbdkit_exports) (def : option (list Z))
    : option Z * nbdkit_exports :=
  if xs_use_default exps then
    let exps := Exports (xs_exports exps) false in
    match def with
    | Some def => nbdkit_add_export exps def None
    | None => (None, exps)
    end
  else (None, exps).

(** ** Properties *)

(** Every list the server builds stays within the limits the replies on
    the wire rely on. *)
Definition exports_wf (exps : nbdkit_exports) : Prop :=
  nbdkit_exports_count exps <= MAX_EXPORTS /\
  Forall (fun e => strlen (ex_name e) <= NBD_MAX_STRING /\
     forall d, ex_description e = Some d -> strlen d <= NBD_MAX_STRING) (xs_exports exps).

Lemma add_export_cases exps name description :
  (nbdkit_add_export exps name description =
     (None, Exports (xs_exports exps ++ [Export name description]) (xs_use_default exps)) /\
   nbdkit_exports_count exps <> MAX_EXPORTS /\ strlen name <= NBD_MAX_STRING /\
   forall d, description = Some d -> strlen d <= NBD_MAX_STRING) \/
  (nbdkit_add_export exps name description = (Some EINVAL, exps) /\
   (nbdkit_exports_count exps = MAX_EXPORTS \/ NBD_MAX_STRING < strlen name \/
    exists d, description = Some d /\ NBD_MAX_STRING < strlen d)).
Proof.
  unfold nbdkit_add_export. destruct (Z.eqb_spec (nbdkit_exports_count exps) MAX_EXPORTS); [auto|].
  destruct (Z.ltb_spec NBD_MAX_STRING (strlen name)); simpl; [auto|].
  destruct description as [d|].
  - destruct (Z.ltb_spec NBD_MAX_STRING (strlen d)); [right; eauto 6|].
    left. repeat split; try done. by intros ? [= <-].
  - left. by repeat split.
Qed.

(** [nbdkit_add_export] appends exactly one export when the list is not
    full and both strings fit the protocol's limit, and otherwise fails
    with EINVAL and leaves the list alone; in both cases the limits hold
    of the result. *)
Theorem add_export_correct exps name description :
  exports_wf exps ->
  let '(r, exps') := nbdkit_add_export exps name description in
  exports_wf exps' /\ xs_use_default exps' = xs_use_default exps /\
  (r = None <->
     nbdkit_exports_count exps < MAX_EXPORTS /\ strlen name <= NBD_MAX_STRING /\
     (forall d, description = Some d -> strlen d <= NBD_MAX_STRING)) /\
  (r = None -> xs_exports exps' = xs_exports exps ++ [Export name description]) /\
  (r <> None -> r = Some EINVAL /\ exps' = exps).
Proof.
  intros Hwf. pose proof Hwf as [Hc Hall].
  destruct (add_export_cases exps name description)
    as [(-> & Hn & Hl & Hd)|(-> & Hwhy)].
  - repeat split; try done; try lia.
    + unfold nbdkit_exports_count in *. simpl. rewrite length_app. simpl. lia.
    + simpl. apply Forall_app. split; [done|]. by repeat constructor.
  - repeat split; try done.
    intros (? & ? & Hd). destruct Hwhy as [|[|(d & -> & ?)]]; [lia..|].
    specialize (Hd d eq_refl). lia.
Qed.

Lemma add_export_correct_witness :
  (nbdkit_add_export nbdkit_exports_new [97; 98] None).1 = None.
Proof.
  pose proof (add_export_correct nbdkit_exports_new [97; 98] None) as H.
  destruct (nbdkit_add_export nbdkit_exports_new [97; 98] None) as [r exps'].
  destruct H as (_ & _ & H & _).
  - split; [by vm_compute|constructor].
  - apply H. repeat split; try done; by vm_compute.
Defined.
