(* ===== verification/Server.v ===== *)
(** * Server state and the effect monad

    Models the data of [server/internal.h] ([struct context],
    [struct connection]), the thread-local error fields of
    [server/threadlocal.c], and the connection primitives of
    [server/connections.c]: the status, [raw_recv], [raw_send_socket] and
    [raw_close].

    All server code below runs in the monad [M W]: it threads the state
    [st W] and can crash (a failed [assert], a NULL dereference, an
    out-of-bounds read).  [W] is the world of the plugins and filters,
    which the server does not look into. *)

From Stdlib Require String.
From S2P Require Import Prelude NbdProtocol.

Export String.StringSyntax.
Delimit Scope string_scope with string.
#[global] Open Scope Z_scope.

(** ** Thread-local error state

    [t_err] is the value of [nbdkit_set_error], [t_errno] is the C
    [errno], [t_last_error] the format of the last [nbdkit_error] (its
    rendering, which option replies carry, is a parameter of those). *)
Record thread : Type := Thread {
  t_err : Z;
  t_errno : Z;
  t_last_error : option String.string;
}.

Definition EINTR : Z := 4.
Definition EBADF : Z := 9.
Definition EAGAIN : Z := 11.

(** ** Contexts

    The per-backend part of a connection.  [c_next] of the C structure is
    the tail of the list of contexts the state carries. *)

Definition HANDLE_OPEN : Z := 1.
Definition HANDLE_CONNECTED : Z := 2.
Definition HANDLE_FAILED : Z := 4.

Record context : Type := Context {
  c_handle : Z;               (* 0 is NULL *)
  c_state : Z;
  c_exportsize : Z;           (* uint64_t, UINT64_MAX = not known *)
  c_minimum_block_size : Z;   (* uint32_t, UINT32_MAX = not known *)
  c_preferred_block_size : Z;
  c_maximum_block_size : Z;
  c_can_write : Z;            (* int, -1 = not known *)
  c_can_flush : Z;
  c_is_rotational : Z;
  c_can_trim : Z;
  c_can_zero : Z;
  c_can_fast_zero : Z;
  c_can_fua : Z;
  c_can_multi_conn : Z;
  c_can_extents : Z;
  c_can_cache : Z;
}.

(** ** Connections *)

Inductive conn_status : Type :=
| STATUS_DEAD
| STATUS_CLIENT_DONE
| STATUS_SHUTDOWN
| STATUS_ACTIVE.

(** The enum's numeric value: statuses are compared with [<]. *)
Definition status_val (s : conn_status) : Z :=
  match s with
  | STATUS_DEAD => 0
  | STATUS_CLIENT_DONE => 1
  | STATUS_SHUTDOWN => 2
  | STATUS_ACTIVE => 3
  end.

#[global] Instance conn_status_eq_dec : EqDecision conn_status.
Proof. solve_decision. Defined.

(** What successive [read(2)] calls on the input socket find: some bytes
    (a short read takes a prefix and leaves the rest), or an error.  An
    exhausted script is the end of file. *)
Inductive read_event : Type :=
| RData (bs : list Z)
| RErr (errno : Z).

(** What successive [send(2)] calls do: accept up to [n] bytes, or fail.
    An exhausted script accepts everything. *)
Inductive write_event : Type :=
| WAccept (n : nat)
| WErr (errno : Z).

Record connection : Type := Connection {
  k_status : conn_status;
  k_nworkers : Z;
  k_status_pipe : Z;          (* notifications written to the pipe *)
  k_top_context : bool;       (* top_context != NULL *)
  k_default_exportname : list (option (list Z));
  k_cflags : Z;
  k_eflags : Z;
  k_handshake_complete : bool;
  k_using_tls : bool;
  k_structured_replies : bool;
  k_meta_context_base_allocation : bool;
  k_exportname_from_set_meta_context : option (list Z);
  k_exportname : option (list Z);
  k_sockin : list read_event;
  k_sockout_open : bool;      (* sockout >= 0 *)
  k_sockout : list write_event;
  k_sent : list Z;            (* everything the client has been sent *)
}.

Record st (W : Type) : Type := St {
  s_thread : thread;
  s_world : W;
  s_conn : connection;
  s_ctx : list context;
}.
Arguments St {W}.
Arguments s_thread {W}.
Arguments s_world {W}.
Arguments s_conn {W}.
Arguments s_ctx {W}.

(** ** The monad *)

(** [OutOfFuel] is not a crash of the program but of the model: proving its
    absence proves that a loop terminates. *)
Inductive crash : Type := AssertFailed | NullPointer | OutOfBounds | Undefined | OutOfFuel.

Inductive outcome (A : Type) : Type :=
| Ok (a : A)
| Crash (c : crash).
Arguments Ok {A}.
Arguments Crash {A}.

Definition M (W A : Type) : Type := st W -> outcome (A * st W).

#[global] Instance M_ret {W} : MRet (M W) := fun A a s => Ok (a, s).
#[global] Instance M_bind {W} : MBind (M W) := fun A B k m s =>
  match m s with
  | Ok (a, s') => k a s'
  | Crash c => Crash c
  end.

Definition fail {W A} (c : crash) : M W A := fun _ => Crash c.
Definition cassert {W} (b : bool) : M W unit :=
  if b then mret tt else fail AssertFailed.
Definition gets {W A} (f : st W -> A) : M W A := fun s => Ok (f s, s).
Definition modify {W} (f : st W -> st W) : M W unit := fun s => Ok (tt, f s).

(** Total correctness: [m] does not crash and its result satisfies [Q]. *)
Definition wp {W A} (m : M W A) (Q : A -> st W -> Prop) (s : st W) : Prop :=
  match m s with
  | Ok (a, s') => Q a s'
  | Crash _ => False
  end.

Section Wp.
Context {W : Type}.
Implicit Types (s : st W).

Lemma wp_ret {A} (a : A) Q s : wp (mret a : M W A) Q s <-> Q a s.
Proof. done. Qed.

Lemma wp_bind {A B} (m : M W A) (k : A -> M W B) Q s :
  wp (m ≫= k) Q s <-> wp m (fun a s' => wp (k a) Q s') s.
Proof. unfold wp, mbind, M_bind. destruct (m s) as [[a s']|]; done. Qed.

Lemma wp_mono {A} (m : M W A) (P Q : A -> st W -> Prop) s :
  wp m P s -> (forall a s', P a s' -> Q a s') -> wp m Q s.
Proof. unfold wp. destruct (m s) as [[a s']|]; auto. Qed.

Lemma wp_and {A} (m : M W A) (P Q : A -> st W -> Prop) s :
  wp m P s -> wp m Q s -> wp m (fun a s' => P a s' /\ Q a s') s.
Proof. unfold wp. destruct (m s) as [[a s']|]; auto. Qed.

Lemma wp_assert b (Q : unit -> st W -> Prop) s :
  wp (cassert b) Q s <-> b = true /\ Q tt s.
Proof. unfold cassert, wp. destruct b; simpl; [tauto|]. split; [done|by intros [? _]]. Qed.

Lemma wp_gets {A} (f : st W -> A) Q s : wp (gets f) Q s <-> Q (f s) s.
Proof. done. Qed.

Lemma wp_modify f (Q : unit -> st W -> Prop) s : wp (modify f) Q s <-> Q tt (f s).
Proof. done. Qed.

Lemma wp_run {A} (m : M W A) Q s a s' :
  wp m Q s -> m s = Ok (a, s') -> Q a s'.
Proof. unfold wp. intros H E. by rewrite E in H. Qed.

Lemma wp_ok {A} (m : M W A) Q s :
  wp m Q s -> exists a s', m s = Ok (a, s') /\ Q a s'.
Proof. unfold wp. destruct (m s) as [[a s']|]; [eauto|done]. Qed.

Lemma wp_intro {A} (m : M W A) (Q : A -> st W -> Prop) s a s' :
  m s = Ok (a, s') -> Q a s' -> wp m Q s.
Proof. unfold wp. by intros ->. Qed.
End Wp.

#[global] Arguments wp : simpl never.

(** Step through a program in a [wp] goal. *)
Ltac wp_step :=
  first
    [ apply wp_ret | apply wp_gets | apply wp_modify
    | apply wp_bind | apply wp_assert; split ].

(** Run a program symbolically in an equation. *)
Ltac unfold_m := unfold mbind, M_bind, mret, M_ret, gets, modify, cassert, fail in *.

(** ** Field updates *)

Section Updates.
Context {W : Type}.

Definition set_thread (f : thread -> thread) (s : st W) : st W :=
  St (f (s_thread s)) (s_world s) (s_conn s) (s_ctx s).
Definition set_world (w : W) (s : st W) : st W :=
  St (s_thread s) w (s_conn s) (s_ctx s).
Definition set_conn (f : connection -> connection) (s : st W) : st W :=
  St (s_thread s) (s_world s) (f (s_conn s)) (s_ctx s).
Definition set_ctx (l : list context) (s : st W) : st W :=
  St (s_thread s) (s_world s) (s_conn s) l.
End Updates.

Definition with_err (e : Z) (t : thread) : thread :=
  Thread e (t_errno t) (t_last_error t).
Definition with_errno (e : Z) (t : thread) : thread :=
  Thread (t_err t) e (t_last_error t).
Definition with_last_error (m : option String.string) (t : thread) : thread :=
  Thread (t_err t) (t_errno t) m.

Definition with_status (v : conn_status) (k : connection) : connection :=
  Connection v (k_nworkers k) (k_status_pipe k) (k_top_context k)
    (k_default_exportname k) (k_cflags k) (k_eflags k) (k_handshake_complete k)
    (k_using_tls k) (k_structured_replies k) (k_meta_context_base_allocation k)
    (k_exportname_from_set_meta_context k) (k_exportname k) (k_sockin k)
    (k_sockout_open k) (k_sockout k) (k_sent k).
Definition with_pipe (v : Z) (k : connection) : connection :=
  Connection (k_status k) (k_nworkers k) v (k_top_context k)
    (k_default_exportname k) (k_cflags k) (k_eflags k) (k_handshake_complete k)
    (k_using_tls k) (k_structured_replies k) (k_meta_context_base_allocation k)
    (k_exportname_from_set_meta_context k) (k_exportname k) (k_sockin k)
    (k_sockout_open k) (k_sockout k) (k_sent k).
Definition with_top_context (v : bool) (k : connection) : connection :=
  Connection (k_status k) (k_nworkers k) (k_status_pipe k) v
    (k_default_exportname k) (k_cflags k) (k_eflags k) (k_handshake_complete k)
    (k_using_tls k) (k_structured_replies k) (k_meta_context_base_allocation k)
    (k_exportname_from_set_meta_context k) (k_exportname k) (k_sockin k)
    (k_sockout_open k) (k_sockout k) (k_sent k).
Definition with_default_exportname (v : list (option (list Z))) (k : connection) : connection :=
  Connection (k_status k) (k_nworkers k) (k_status_pipe k) (k_top_context k) v
    (k_cflags k) (k_eflags k) (k_handshake_complete k) (k_using_tls k)
    (k_structured_replies k) (k_meta_context_base_allocation k)
    (k_exportname_from_set_meta_context k) (k_exportname k) (k_sockin k)
    (k_sockout_open k) (k_sockout k) (k_sent k).
Definition with_cflags (v : Z) (k : connection) : connection :=
  Connection (k_status k) (k_nworkers k) (k_status_pipe k) (k_top_context k)
    (k_default_exportname k) v (k_eflags k) (k_handshake_complete k)
    (k_using_tls k) (k_structured_replies k) (k_meta_context_base_allocation k)
    (k_exportname_from_set_meta_context k) (k_exportname k) (k_sockin k)
    (k_sockout_open k) (k_sockout k) (k_sent k).
Definition with_eflags (v : Z) (k : connection) : connection :=
  Connection (k_status k) (k_nworkers k) (k_status_pipe k) (k_top_context k)
    (k_default_exportname k) (k_cflags k) v (k_handshake_complete k)
    (k_using_tls k) (k_structured_replies k) (k_meta_context_base_allocation k)
    (k_exportname_from_set_meta_context k) (k_exportname k) (k_sockin k)
    (k_sockout_open k) (k_sockout k) (k_sent k).
Definition with_handshake_complete (v : bool) (k : connection) : connection :=
  Connection (k_status k) (k_nworkers k) (k_status_pipe k) (k_top_context k)
    (k_default_exportname k) (k_cflags k) (k_eflags k) v (k_using_tls k)
    (k_structured_replies k) (k_meta_context_base_allocation k)
    (k_exportname_from_set_meta_context k) (k_exportname k) (k_sockin k)
    (k_sockout_open k) (k_sockout k) (k_sent k).
Definition with_using_tls (v : bool) (k : connection) : connection :=
  Connection (k_status k) (k_nworkers k) (k_status_pipe k) (k_top_context k)
    (k_default_exportname k) (k_cflags k) (k_eflags k) (k_handshake_complete k)
    v (k_structured_replies k) (k_meta_context_base_allocation k)
    (k_exportname_from_set_meta_context k) (k_exportname k) (k_sockin k)
    (k_sockout_open k) (k_sockout k) (k_sent k).
Definition with_structured_replies (v : bool) (k : connection) : connection :=
  Connection (k_status k) (k_nworkers k) (k_status_pipe k) (k_top_context k)
    (k_default_exportname k) (k_cflags k) (k_eflags k) (k_handshake_complete k)
    (k_using_tls k) v (k_meta_context_base_allocation k)
    (k_exportname_from_set_meta_context k) (k_exportname k) (k_sockin k)
    (k_sockout_open k) (k_sockout k) (k_sent k).
Definition with_base_allocation (v : bool) (k : connection) : connection :=
  Connection (k_status k) (k_nworkers k) (k_status_pipe k) (k_top_context k)
    (k_default_exportname k) (k_cflags k) (k_eflags k) (k_handshake_complete k)
    (k_using_tls k) (k_structured_replies k) v
    (k_exportname_from_set_meta_context k) (k_exportname k) (k_sockin k)
    (k_sockout_open k) (k_sockout k) (k_sent k).
Definition with_set_meta_exportname (v : option (list Z)) (k : connection) : connection :=
  Connection (k_status k) (k_nworkers k) (k_status_pipe k) (k_top_context k)
    (k_default_exportname k) (k_cflags k) (k_eflags k) (k_handshake_complete k)
    (k_using_tls k) (k_structured_replies k) (k_meta_context_base_allocation k)
    v (k_exportname k) (k_sockin k) (k_sockout_open k) (k_sockout k) (k_sent k).
Definition with_exportname (v : option (list Z)) (k : connection) : connection :=
  Connection (k_status k) (k_nworkers k) (k_status_pipe k) (k_top_context k)
    (k_default_exportname k) (k_cflags k) (k_eflags k) (k_handshake_complete k)
    (k_using_tls k) (k_structured_replies k) (k_meta_context_base_allocation k)
    (k_exportname_from_set_meta_context k) v (k_sockin k) (k_sockout_open k)
    (k_sockout k) (k_sent k).
Definition with_sockin (v : list read_event) (k : connection) : connection :=
  Connection (k_status k) (k_nworkers k) (k_status_pipe k) (k_top_context k)
    (k_default_exportname k) (k_cflags k) (k_eflags k) (k_handshake_complete k)
    (k_using_tls k) (k_structured_replies k) (k_meta_context_base_allocation k)
    (k_exportname_from_set_meta_context k) (k_exportname k) v (k_sockout_open k)
    (k_sockout k) (k_sent k).
Definition with_sockout (op : bool) (v : list write_event) (sent : list Z) (k : connection) : connection :=
  Connection (k_status k) (k_nworkers k) (k_status_pipe k) (k_top_context k)
    (k_default_exportname k) (k_cflags k) (k_eflags k) (k_handshake_complete k)
    (k_using_tls k) (k_structured_replies k) (k_meta_context_base_allocation k)
    (k_exportname_from_set_meta_context k) (k_exportname k) (k_sockin k) op v
    sent.

Definition ctx_handle (v : Z) (c : context) : context :=
  Context v (c_state c) (c_exportsize c) (c_minimum_block_size c)
    (c_preferred_block_size c) (c_maximum_block_size c) (c_can_write c)
    (c_can_flush c) (c_is_rotational c) (c_can_trim c) (c_can_zero c)
    (c_can_fast_zero c) (c_can_fua c) (c_can_multi_conn c) (c_can_extents c)
    (c_can_cache c).
Definition ctx_state (v : Z) (c : context) : context :=
  Context (c_handle c) v (c_exportsize c) (c_minimum_block_size c)
    (c_preferred_block_size c) (c_maximum_block_size c) (c_can_write c)
    (c_can_flush c) (c_is_rotational c) (c_can_trim c) (c_can_zero c)
    (c_can_fast_zero c) (c_can_fua c) (c_can_multi_conn c) (c_can_extents c)
    (c_can_cache c).
Definition ctx_exportsize (v : Z) (c : context) : context :=
  Context (c_handle c) (c_state c) v (c_minimum_block_size c)
    (c_preferred_block_size c) (c_maximum_block_size c) (c_can_write c)
    (c_can_flush c) (c_is_rotational c) (c_can_trim c) (c_can_zero c)
    (c_can_fast_zero c) (c_can_fua c) (c_can_multi_conn c) (c_can_extents c)
    (c_can_cache c).
Definition ctx_can_write (v : Z) (c : context) : context :=
  Context (c_handle c) (c_state c) (c_exportsize c) (c_minimum_block_size c)
    (c_preferred_block_size c) (c_maximum_block_size c) v (c_can_flush c)
    (c_is_rotational c) (c_can_trim c) (c_can_zero c) (c_can_fast_zero c)
    (c_can_fua c) (c_can_multi_conn c) (c_can_extents c) (c_can_cache c).
Definition ctx_can_flush (v : Z) (c : context) : context :=
  Context (c_handle c) (c_state c) (c_exportsize c) (c_minimum_block_size c)
    (c_preferred_block_size c) (c_maximum_block_size c) (c_can_write c) v
    (c_is_rotational c) (c_can_trim c) (c_can_zero c) (c_can_fast_zero c)
    (c_can_fua c) (c_can_multi_conn c) (c_can_extents c) (c_can_cache c).
Definition ctx_is_rotational (v : Z) (c : context) : context :=
  Context (c_handle c) (c_state c) (c_exportsize c) (c_minimum_block_size c)
    (c_preferred_block_size c) (c_maximum_block_size c) (c_can_write c)
    (c_can_flush c) v (c_can_trim c) (c_can_zero c) (c_can_fast_zero c)
    (c_can_fua c) (c_can_multi_conn c) (c_can_extents c) (c_can_cache c).
Definition ctx_can_trim (v : Z) (c : context) : context :=
  Context (c_handle c) (c_state c) (c_exportsize c) (c_minimum_block_size c)
    (c_preferred_block_size c) (c_maximum_block_size c) (c_can_write c)
    (c_can_flush c) (c_is_rotational c) v (c_can_zero c) (c_can_fast_zero c)
    (c_can_fua c) (c_can_multi_conn c) (c_can_extents c) (c_can_cache c).
Definition ctx_can_zero (v : Z) (c : context) : context :=
  Context (c_handle c) (c_state c) (c_exportsize c) (c_minimum_block_size c)
    (c_preferred_block_size c) (c_maximum_block_size c) (c_can_write c)
    (c_can_flush c) (c_is_rotational c) (c_can_trim c) v (c_can_fast_zero c)
    (c_can_fua c) (c_can_multi_conn c) (c_can_extents c) (c_can_cache c).
Definition ctx_can_fast_zero (v : Z) (c : context) : context :=
  Context (c_handle c) (c_state c) (c_exportsize c) (c_minimum_block_size c)
    (c_preferred_block_size c) (c_maximum_block_size c) (c_can_write c)
    (c_can_flush c) (c_is_rotational c) (c_can_trim c) (c_can_zero c) v
    (c_can_fua c) (c_can_multi_conn c) (c_can_extents c) (c_can_cache c).
Definition ctx_can_fua (v : Z) (c : context) : context :=
  Context (c_handle c) (c_state c) (c_exportsize c) (c_minimum_block_size c)
    (c_preferred_block_size c) (c_maximum_block_size c) (c_can_write c)
    (c_can_flush c) (c_is_rotational c) (c_can_trim c) (c_can_zero c)
    (c_can_fast_zero c) v (c_can_multi_conn c) (c_can_extents c) (c_can_cache c).
Definition ctx_can_multi_conn (v : Z) (c : context) : context :=
  Context (c_handle c) (c_state c) (c_exportsize c) (c_minimum_block_size c)
    (c_preferred_block_size c) (c_maximum_block_size c) (c_can_write c)
    (c_can_flush c) (c_is_rotational c) (c_can_trim c) (c_can_zero c)
    (c_can_fast_zero c) (c_can_fua c) v (c_can_extents c) (c_can_cache c).
Definition ctx_can_extents (v : Z) (c : context) : context :=
  Context (c_handle c) (c_state c) (c_exportsize c) (c_minimum_block_size c)
    (c_preferred_block_size c) (c_maximum_block_size c) (c_can_write c)
    (c_can_flush c) (c_is_rotational c) (c_can_trim c) (c_can_zero c)
    (c_can_fast_zero c) (c_can_fua c) (c_can_multi_conn c) v (c_can_cache c).
Definition ctx_can_cache (v : Z) (c : context) : context :=
  Context (c_handle c) (c_state c) (c_exportsize c) (c_minimum_block_size c)
    (c_preferred_block_size c) (c_maximum_block_size c) (c_can_write c)
    (c_can_flush c) (c_is_rotational c) (c_can_trim c) (c_can_zero c)
    (c_can_fast_zero c) (c_can_fua c) (c_can_multi_conn c) (c_can_extents c) v.
Definition ctx_block_size (mi pr ma : Z) (c : context) : context :=
  Context (c_handle c) (c_state c) (c_exportsize c) mi pr ma (c_can_write c)
    (c_can_flush c) (c_is_rotational c) (c_can_trim c) (c_can_zero c)
    (c_can_fast_zero c) (c_can_fua c) (c_can_multi_conn c) (c_can_extents c)
    (c_can_cache c).
