(* ===== verification/Connections.v ===== *)
(** * Connection primitives

    Models the thread-local setters of [server/threadlocal.c] and, from
    [server/connections.c], the status of a connection
    ([connection_get_status], [connection_set_status]) and its transport
    ([raw_recv], [raw_send_socket], [raw_close]).

    Theorems: the status only ever goes down and one caller at most is
    told to shut down; reading a record does not depend on how the kernel
    fragments the byte stream; sending delivers the whole buffer or fails. *)

From Stdlib Require Import Sorted.
From S2P Require Import Prelude NbdProtocol Server.

(** ** Thread-local errors *)

Section ThreadLocal.
Context {W : Type}.

Definition threadlocal_set_errno (err : Z) : M W unit :=
  modify (set_thread (with_err err)).

Definition threadlocal_get_errno : M W Z := gets (fun s => t_err (s_thread s)).

Definition threadlocal_clear_last_error : M W unit :=
  modify (set_thread (with_last_error None)).

Definition threadlocal_get_last_error : M W (option String.string) :=
  gets (fun s => t_last_error (s_thread s)).

(** [nbdkit_error] leaves its message for the option replies. *)
Definition nbdkit_error (msg : String.string) : M W unit :=
  modify (set_thread (with_last_error (Some msg))).

Definition set_errno (e : Z) : M W unit := modify (set_thread (with_errno e)).
Definition get_errno_c : M W Z := gets (fun s => t_errno (s_thread s)).
End ThreadLocal.

(** ** Status *)

(** The body of [connection_set_status], which the status lock makes
    atomic: the new status, whether the pipe is notified, and whether the
    caller must shut the connection down. *)
Definition set_status (nworkers : bool) (old value : conn_status)
    : conn_status * bool * bool :=
  if status_val value <? status_val old then
    (value,
     (nworkers && (status_val STATUS_CLIENT_DONE <? status_val old) &&
      (status_val value <=? status_val STATUS_CLIENT_DONE))%bool,
     ((status_val STATUS_CLIENT_DONE <=? status_val old) &&
      (status_val value <? status_val STATUS_CLIENT_DONE))%bool)
  else (old, false, false).

Section Status.
Context {W : Type}.

Definition connection_get_status : M W conn_status := gets (fun s => k_status (s_conn s)).

Definition connection_set_status (value : conn_status) : M W bool :=
  k ← gets s_conn;
  let '(new, notify, ret) := set_status (negb (k_nworkers k =? 0)) (k_status k) value in
  modify (set_conn (fun k => with_status new
    (if (notify : bool) then with_pipe (k_status_pipe k + 1) k else k)));;
  mret ret.
End Status.

(** Calls of [connection_set_status] by the workers of one connection, in
    the order in which they get the status lock. *)
Fixpoint status_trace (nworkers : bool) (s : conn_status) (calls : list conn_status)
    : list (conn_status * bool * bool) :=
  match calls with
  | [] => []
  | v :: calls' =>
      let r := set_status nworkers s v in
      r :: status_trace nworkers r.1.1 calls'
  end.

(** ** Receiving *)

Fixpoint raw_recv_loop (evs : list read_event) (len : nat) (first_read : bool)
    : Z * list Z * list read_event * option Z :=
  match len with
  | O => (1, [], evs, None)
  | S _ =>
      let eof := if first_read then (0, [], [], None) else (-1, [], [], Some EBADMSG) in
      match evs with
      | [] => eof
      | RErr e :: evs' =>
          if ((e =? EINTR) || (e =? EAGAIN))%bool
          then raw_recv_loop evs' len first_read
          else (-1, [], evs', Some e)
      | RData [] :: _ => eof
      | RData bs :: evs' =>
          if Nat.ltb len (length bs)
          then (1, take len bs, RData (drop len bs) :: evs', None)
          else
            let '(r, d, evs'', e) := raw_recv_loop evs' (len - length bs) false in
            (r, bs ++ d, evs'', e)
      end
  end.

Definition opt_errno {W} (e : option Z) : M W unit :=
  match e with Some e => set_errno e | None => mret tt end.

(** [raw_recv]: 1 and the buffer, 0 at end of file, or -1. *)
Definition raw_recv {W} (len : Z) : M W (Z * list Z) :=
  k ← gets s_conn;
  let '(r, d, evs, e) := raw_recv_loop (k_sockin k) (Z.to_nat len) true in
  modify (set_conn (with_sockin evs));;
  opt_errno e;;
  mret (r, d).

(** ** Sending *)

Fixpoint raw_send_loop (script : list write_event) (buf : list Z)
    : Z * list Z * list write_event * option Z :=
  match buf with
  | [] => (0, [], script, None)
  | _ :: _ =>
      match script with
      | [] => (0, buf, [], None)
      | WErr e :: script' =>
          if ((e =? EINTR) || (e =? EAGAIN))%bool
          then raw_send_loop script' buf
          else (-1, [], script', Some e)
      | WAccept n :: script' =>
          let '(r, d, script'', e) := raw_send_loop script' (drop n buf) in
          (r, take n buf ++ d, script'', e)
      end
  end.

Definition raw_send_socket {W} (buf : list Z) : M W Z :=
  k ← gets s_conn;
  if negb (k_sockout_open k) then set_errno EBADF;; mret (-1)
  else
    let '(r, d, script, e) := raw_send_loop (k_sockout k) buf in
    modify (set_conn (with_sockout true script (k_sent k ++ d)));;
    opt_errno e;;
    mret r.

(** [conn->close (SHUT_WR)] *)
Definition raw_close_wr {W} : M W unit :=
  modify (set_conn (fun k => with_sockout false (k_sockout k) (k_sent k) k)).

(** ** Status properties *)

Lemma set_status_down n old v :
  status_val (set_status n old v).1.1 = Z.min (status_val old) (status_val v).
Proof. destruct old, v; reflexivity. Qed.

(** After a [true] answer the status is below [STATUS_CLIENT_DONE]; from
    there no call answers [true]. *)
Lemma set_status_true n old v :
  (set_status n old v).2 = true ->
  status_val STATUS_CLIENT_DONE <= status_val old /\
  status_val (set_status n old v).1.1 < status_val STATUS_CLIENT_DONE.
Proof. destruct old, v; simpl; (done || lia). Qed.

Lemma status_trace_quiet n s calls :
  status_val s < status_val STATUS_CLIENT_DONE ->
  Forall (fun r : conn_status * bool * bool => r.2 = false) (status_trace n s calls).
Proof.
  revert s. induction calls as [|v calls IH]; intros s Hs; simpl; constructor.
  - destruct ((set_status n s v).2) eqn:E; [|done]. apply set_status_true in E. lia.
  - apply IH. rewrite set_status_down. lia.
Qed.

(** However the workers of a connection interleave their calls of
    [connection_set_status], the status never rises, and at most one call
    returns true, so the socket is shut down for writing by at most one
    thread. *)
Lemma status_shutdown_once n s calls :
  Sorted Z.ge (status_val s :: (status_val ∘ fst ∘ fst <$> status_trace n s calls)) /\
  (length (filter (fun r : conn_status * bool * bool => r.2 = true)
             (status_trace n s calls)) <= 1)%nat.
Proof.
  revert s. induction calls as [|v calls IH]; intros s; simpl.
  - split; [|lia]. repeat constructor.
  - destruct (IH (set_status n s v).1.1) as [Hs Hc]. split.
    + constructor; [done|]. constructor. simpl. rewrite set_status_down. lia.
    + rewrite filter_cons. case_decide as Ht; [|done]. simpl.
      apply set_status_true in Ht as [_ Ht].
      pose proof (status_trace_quiet n _ calls Ht) as Hq.
      assert (filter (fun r : conn_status * bool * bool => r.2 = true)
        (status_trace n (set_status n s v).1.1 calls) = []) as ->; [|simpl; lia].
      clear -Hq. induction Hq as [|r l Hr Hq IHq]; [done|].
      rewrite filter_cons, decide_False by congruence. done.
Qed.

(** ** Transport properties *)

(** How a stream of read results looks once fragmentation and interrupted
    calls are ignored: its bytes, and what comes after them. *)
Inductive stream_end : Type := EndOfFile | EndError (errno : Z) (rest : list read_event).

Fixpoint stream_of (evs : list read_event) : list Z * stream_end :=
  match evs with
  | [] => ([], EndOfFile)
  | RErr e :: evs' =>
      if ((e =? EINTR) || (e =? EAGAIN))%bool then stream_of evs'
      else ([], EndError e evs')
  | RData [] :: _ => ([], EndOfFile)
  | RData bs :: evs' => let '(d, e) := stream_of evs' in (bs ++ d, e)
  end.

(** The record-level view of [raw_recv]: a whole record, a clean end of
    file at a record boundary, or an error. *)
Definition recv_spec (str : list Z * stream_end) (len : nat) (first : bool)
    : Z * option (list Z) :=
  if decide (len <= length str.1)%nat then (1, Some (take len str.1))
  else match str.1, first, str.2 with
       | [], true, EndOfFile => (0, None)
       | _, _, _ => (-1, None)
       end.

Lemma raw_recv_loop_0 evs first : raw_recv_loop evs 0 first = (1, [], evs, None).
Proof. by destruct evs. Qed.

Lemma recv_spec_0 str first : recv_spec str 0 first = (1, Some []).
Proof. unfold recv_spec. by rewrite decide_True by lia. Qed.

Lemma raw_recv_loop_spec evs len first :
  let '(r, d, evs', _) := raw_recv_loop evs len first in
  let '(r', d') := recv_spec (stream_of evs) len first in
  r = r' /\
  (r = 1 -> d' = Some d /\
     stream_of evs' = (drop len (stream_of evs).1, (stream_of evs).2)).
Proof.
  revert len first. induction evs as [|[bs|e] evs IH]; intros len first;
    (destruct len as [|len];
     [rewrite raw_recv_loop_0, recv_spec_0, drop_0; split; [done|]; intros _; split; [done|]; apply surjective_pairing|]).
  - by destruct first.
  - destruct bs as [|b bs]; [by destruct first|].
    cbn [raw_recv_loop]. destruct (Nat.ltb_spec (S len) (length (b :: bs))) as [Hl|Hl].
    + unfold recv_spec. cbn [stream_of]. destruct (stream_of evs) as [d e]; cbn [fst snd].
      rewrite decide_True by (rewrite length_app; lia).
      split; [done|]. intros _. split; [by rewrite take_app_le by lia|].
      rewrite drop_app_le by lia. cbn [stream_of].
      destruct (drop (S len) (b :: bs)) eqn:Hd; [|done].
      apply (f_equal length) in Hd. rewrite length_drop in Hd. simpl in *. lia.
    + specialize (IH (S len - length (b :: bs))%nat false).
      destruct (raw_recv_loop evs _ false) as [[[r d] evs'] e'].
      unfold recv_spec in *. cbn [stream_of].
      destruct (stream_of evs) as [d2 e2]; cbn [fst snd] in *.
      destruct (decide (S len - length (b :: bs) <= length d2)%nat).
      * rewrite decide_True by (rewrite length_app; lia).
        destruct IH as [-> IH]. split; [done|]. intros _. destruct (IH eq_refl) as [Hd%(inj Some) Hs].
        rewrite take_app_ge, drop_app_ge by lia. split; [congruence|done].
      * rewrite decide_False by (rewrite length_app; lia).
        destruct d2; destruct IH as [-> IH]; by destruct first.
  - cbn [raw_recv_loop stream_of]. destruct (_ || _)%bool; [apply IH|].
    by destruct first.
Qed.

(** C29: [raw_recv] depends only on the byte stream, not on how [read(2)]
    fragments it or how often it is interrupted: it returns the next [len]
    bytes and leaves exactly the bytes after them, reports a clean end of
    file only at a record boundary, and turns a truncated record into an
    error. *)
Theorem raw_recv_refines_stream {W} (s : st W) (len : Z) :
  exists r d s', raw_recv len s = Ok ((r, d), s') /\
  let str := stream_of (k_sockin (s_conn s)) in
  recv_spec str (Z.to_nat len) true = (r, if decide (r = 1) then Some d else None) /\
  (r = 1 -> stream_of (k_sockin (s_conn s')) = (drop (Z.to_nat len) str.1, str.2)) /\
  k_sent (s_conn s') = k_sent (s_conn s) /\ s_ctx s' = s_ctx s /\ s_world s' = s_world s.
Proof.
  unfold raw_recv. pose proof (raw_recv_loop_spec (k_sockin (s_conn s)) (Z.to_nat len) true) as H.
  unfold_m. destruct (raw_recv_loop _ _ true) as [[[r d] evs] e].
  destruct (recv_spec _ _ true) as [r' d'] eqn:Hr. destruct H as [<- H].
  destruct e as [e|]; simpl; (eexists r, d, _; split; [done|]); simpl;
    (split; [|repeat split; try done; intros E; apply (H E)]);
    (destruct (decide (r = 1)) as [E|E]; [f_equal; apply (H E)|]);
    unfold recv_spec in Hr; clear -Hr E;
    (destruct (decide _); [by simplify_eq|]);
    destruct (stream_of _) as [[|] []]; simpl in Hr; by simplify_eq.
Qed.

Lemma raw_send_loop_spec script buf :
  let '(r, d, _, _) := raw_send_loop script buf in
  (r = 0 /\ d = buf) \/ (r = -1 /\ d `prefix_of` buf).
Proof.
  revert buf. induction script as [|[n|e] script IH]; intros [|b buf]; simpl; auto.
  - specialize (IH (drop n (b :: buf))).
    destruct (raw_send_loop script _) as [[[r d] script'] e'].
    destruct IH as [[-> ->]|[-> Hp]].
    + left. by rewrite take_drop.
    + right. split; [done|]. rewrite <- (take_drop n (b :: buf)) at 2.
      by apply prefix_app.
  - destruct (_ || _)%bool; [apply IH|]. right. split; [done|]. apply prefix_nil.
Qed.

(** [raw_send_socket] either delivers the whole buffer and returns 0,
    or returns -1 having delivered a prefix of it, whatever the sequence
    of partial, interrupted and failed [send(2)] calls; on a socket that
    was already shut down it sends nothing. *)
Lemma raw_send_all_or_error {W} (s : st W) (buf : list Z) :
  exists r s', raw_send_socket buf s = Ok (r, s') /\
  ((r = 0 /\ k_sent (s_conn s') = k_sent (s_conn s) ++ buf) \/
   (r = -1 /\ exists d, d `prefix_of` buf /\
      k_sent (s_conn s') = k_sent (s_conn s) ++ d)) /\
  (k_sockout_open (s_conn s) = false ->
   r = -1 /\ k_sent (s_conn s') = k_sent (s_conn s)) /\
  s_ctx s' = s_ctx s /\ s_world s' = s_world s.
Proof.
  unfold raw_send_socket. unfold_m.
  destruct (k_sockout_open (s_conn s)) eqn:Ho; simpl.
  - pose proof (raw_send_loop_spec (k_sockout (s_conn s)) buf) as H.
    destruct (raw_send_loop _ buf) as [[[r d] script] e].
    destruct e; simpl; (eexists r, _; split; [done|]); simpl; (split; [|done]);
      (destruct H as [[-> ->]|[-> H]]; [by left|right; eauto]).
  - eexists (-1), _. split; [done|]. simpl. split; [|done]. right. split; [done|].
    exists []. split; [apply prefix_nil|by rewrite app_nil_r].
Qed.

(** ** Frame rules

    What a send or a receive leaves alone: everything but the sockets and
    the thread's error fields. *)

Definition input_wf (k : connection) : Prop :=
  Forall (fun ev => match ev with RData bs => Forall is_byte bs | RErr _ => True end)
    (k_sockin k).

(** How much is left to read: every event counts, and every byte. *)
Definition event_size (ev : read_event) : nat :=
  match ev with RData bs => S (length bs) | RErr _ => 1 end.

Definition events_size (evs : list read_event) : nat := sum_list_with event_size evs.

Definition input_size (k : connection) : nat := events_size (k_sockin k).

(** The negotiated part of a connection. *)
Definition negotiated (k : connection) :=
  (k_status k, k_nworkers k, k_top_context k, k_default_exportname k, k_cflags k, k_eflags k,
   k_using_tls k, k_structured_replies k, k_meta_context_base_allocation k,
   k_exportname_from_set_meta_context k, k_exportname k).

Record io_step {W} (s s' : st W) : Prop := IoStep {
  io_world : s_world s' = s_world s;
  io_ctx : s_ctx s' = s_ctx s;
  io_negotiated : negotiated (s_conn s') = negotiated (s_conn s);
  io_input : input_wf (s_conn s) -> input_wf (s_conn s');
  io_size : (input_size (s_conn s') <= input_size (s_conn s))%nat;
}.

#[global] Instance io_step_preorder {W} : PreOrder (@io_step W).
Proof.
  split.
  - by intros s.
  - intros s1 s2 s3 [] []. split; [congruence..|auto|lia].
Qed.

Lemma raw_recv_loop_wf evs len first :
  let wf := Forall (fun ev => match ev with RData bs => Forall is_byte bs | RErr _ => True end) in
  wf evs -> let '(_, d, evs', _) := raw_recv_loop evs len first in
  wf evs' /\ Forall is_byte d.
Proof.
  intros wf. revert len first.
  induction evs as [|[bs|e] evs IH]; intros len first Hwf;
    (destruct len as [|len]; [rewrite raw_recv_loop_0; by split; [done|constructor]|]).
  - destruct first; by split; constructor.
  - inversion Hwf as [|? ? Hb Hw]; subst.
    destruct bs as [|b bs]; [destruct first; by split; constructor|]. cbn [raw_recv_loop].
    destruct (Nat.ltb _ _).
    + split; [constructor; [by apply Forall_drop|done]|by apply Forall_take].
    + specialize (IH (S len - length (b :: bs))%nat false Hw).
      destruct (raw_recv_loop evs _ _) as [[[r d] evs'] e'].
      destruct IH. split; [done|by apply Forall_app].
  - inversion Hwf as [|? ? _ Hw]; subst. cbn [raw_recv_loop].
    destruct (_ || _)%bool; [by apply IH|]. split; [done|constructor].
Qed.

(** Receiving consumes input. *)
Lemma raw_recv_loop_size evs len first :
  let '(r, _, evs', _) := raw_recv_loop evs len first in
  (events_size evs' <= events_size evs)%nat /\
  (r = 1 -> (0 < len)%nat -> (events_size evs' < events_size evs)%nat).
Proof.
  unfold events_size. revert len first.
  induction evs as [|[bs|e] evs IH]; intros len first;
    (destruct len as [|len]; [rewrite raw_recv_loop_0; split; [done|lia]|]).
  - destruct first; by split; [simpl; lia|].
  - destruct bs as [|b bs]; [destruct first; by split; [simpl; lia|]|]. cbn [raw_recv_loop].
    destruct (Nat.ltb_spec (S len) (length (b :: bs))).
    + cbn [sum_list_with event_size]. rewrite length_drop. split; lia.
    + specialize (IH (S len - length (b :: bs))%nat false).
      destruct (raw_recv_loop evs _ _) as [[[r d] evs'] e']. simpl in *. split; lia.
  - cbn [raw_recv_loop]. destruct (_ || _)%bool; [|simpl; split; lia].
    specialize (IH (S len) first). destruct (raw_recv_loop evs _ _) as [[[r d] evs'] e'].
    simpl in *. destruct IH as [? IH]. split; [lia|]. intros Hr Hl. specialize (IH Hr Hl). lia.
Qed.

Section Frame.
Context {W : Type}.
Implicit Types (s : st W).

Lemma wp_recv_progress len Q s :
  (forall r d s', io_step s s' -> r = 1 \/ r = 0 \/ r = -1 ->
     (r = 1 -> length d = Z.to_nat len) ->
     (input_wf (s_conn s) -> Forall is_byte d) ->
     (r = 1 -> 0 < len -> (input_size (s_conn s') < input_size (s_conn s))%nat) -> Q (r, d) s') ->
  wp (raw_recv len) Q s.
Proof.
  intros HQ. unfold wp, raw_recv. unfold_m.
  pose proof (raw_recv_loop_spec (k_sockin (s_conn s)) (Z.to_nat len) true) as H.
  pose proof (raw_recv_loop_wf (k_sockin (s_conn s)) (Z.to_nat len) true) as Hw.
  pose proof (raw_recv_loop_size (k_sockin (s_conn s)) (Z.to_nat len) true) as Hsz.
  destruct (raw_recv_loop _ _ _) as [[[r d] evs] e].
  assert (Hlen : r = 1 -> length d = Z.to_nat len).
  { intros E. unfold recv_spec in H. destruct (decide _).
    - destruct H as [_ H]. destruct (H E) as [[= <-] _]. rewrite length_take. lia.
    - destruct (stream_of _) as [[|] []]; simpl in H; destruct H as [H _]; lia. }
  assert (Hr : r = 1 \/ r = 0 \/ r = -1).
  { unfold recv_spec in H. destruct (decide _); [destruct H; lia|].
    destruct (stream_of _) as [[|] []]; simpl in H; destruct H as [H _]; lia. }
  destruct Hsz as [Hle Hlt].
  destruct e; apply HQ; try done; try (by intros Hwf; destruct (Hw Hwf));
    try (intros E1 Hpos; apply Hlt; [done|lia]);
    split; try done; intros Hwf; destruct (Hw Hwf); done.
Qed.

Lemma wp_recv len Q s :
  (forall r d s', io_step s s' -> r = 1 \/ r = 0 \/ r = -1 ->
     (r = 1 -> length d = Z.to_nat len) ->
     (input_wf (s_conn s) -> Forall is_byte d) -> Q (r, d) s') ->
  wp (raw_recv len) Q s.
Proof. intros HQ. apply wp_recv_progress. auto. Qed.

Lemma wp_send buf Q s :
  (forall r s', io_step s s' -> r = 0 \/ r = -1 -> Q r s') ->
  wp (raw_send_socket buf) Q s.
Proof.
  intros HQ. unfold wp, raw_send_socket. unfold_m.
  destruct (k_sockout_open (s_conn s)); simpl.
  - pose proof (raw_send_loop_spec (k_sockout (s_conn s)) buf) as H.
    destruct (raw_send_loop _ buf) as [[[r d] script] e].
    destruct e; apply HQ; try done; destruct H as [[-> _]|[-> _]]; auto.
  - apply HQ; [done|auto].
Qed.
End Frame.
