(* ===== verification/Backend.v ===== *)
(** * Backends

    Models [server/backend.c], the layer between the protocol code and the
    plugin or filters: it caches the capabilities of an export in the
    connection's context, checks the preconditions of every data request
    with assertions, and emulates zeroing and caching for backends that
    cannot do it themselves.

    [struct backend] is the record [backend]; its functions run with the
    current context at the head of the state's list of contexts, the
    contexts of the underlying backends behind it.  A chain of backends
    (filters down to the plugin) is a list, top first. *)

From S2P Require Import Prelude NbdProtocol Extents Exports Server Connections.

(** ** [struct backend] *)

Record backend {W : Type} : Type := Backend {
  b_i : Z;
  b_list_exports : bool -> bool -> nbdkit_exports -> M W (Z * nbdkit_exports);
  b_default_export : bool -> bool -> M W (option (list Z));
  b_open : bool -> list Z -> bool -> M W Z;
  b_prepare : bool -> M W Z;
  b_finalize : M W Z;
  b_close : M W unit;
  b_export_description : M W (option (list Z));
  b_get_size : M W Z;
  b_block_size : M W (Z * (Z * Z * Z));
  b_can_write : M W Z;
  b_can_flush : M W Z;
  b_is_rotational : M W Z;
  b_can_trim : M W Z;
  b_can_zero : M W Z;
  b_can_fast_zero : M W Z;
  b_can_extents : M W Z;
  b_can_fua : M W Z;
  b_can_multi_conn : M W Z;
  b_can_cache : M W Z;
  (* count, offset, flags and *err in; the result, *err and the buffer out *)
  b_pread : Z -> Z -> Z -> Z -> M W (Z * Z * list Z);
  b_pwrite : list Z -> Z -> Z -> Z -> Z -> M W (Z * Z);
  b_flush : Z -> Z -> M W (Z * Z);
  b_trim : Z -> Z -> Z -> Z -> M W (Z * Z);
  b_zero : Z -> Z -> Z -> Z -> M W (Z * Z);
  b_extents : Z -> Z -> Z -> nbdkit_extents -> Z -> M W (Z * Z * nbdkit_extents);
  b_cache : Z -> Z -> Z -> Z -> M W (Z * Z);
}.
Arguments backend : clear implicits.
Arguments Backend {W}.

Section Backend.
Context {W : Type}.
Implicit Types (b : backend W) (bs : list (backend W)).

(** ** Access to the context *)

Definition cur : M W context := fun s =>
  match s_ctx s with
  | c :: _ => Ok (c, s)
  | [] => Crash NullPointer
  end.

Definition upd (f : context -> context) : M W unit := fun s =>
  match s_ctx s with
  | c :: cs => Ok (tt, set_ctx (f c :: cs) s)
  | [] => Crash NullPointer
  end.

(** Run [m] with [c->c_next] as the current context. *)
Definition on_next {A} (m : M W A) : M W A := fun s =>
  match s_ctx s with
  | c :: (_ :: _) as cs =>
      match m (set_ctx cs s) with
      | Ok (a, s') => Ok (a, set_ctx (c :: s_ctx s') s')
      | Crash e => Crash e
      end
  | _ => Crash NullPointer
  end.

(** [c->c_next != NULL] *)
Definition has_next : M W bool :=
  gets (fun s => match s_ctx s with _ :: _ :: _ => true | _ => false end).

(** [assert (c->handle && (c->state & HANDLE_CONNECTED))] *)
Definition check_connected : M W context :=
  c ← cur;
  cassert (negb (c_handle c =? 0) && has (c_state c) HANDLE_CONNECTED);;
  mret c.

(** ** Exports *)

Definition backend_default_export b (readonly : bool) : M W (option (list Z)) :=
  k ← gets s_conn;
  match k_default_exportname k !! Z.to_nat (b_i b) with
  | None => fail OutOfBounds
  | Some (Some s) => mret (Some s)
  | Some None =>
      cassert (negb (k_top_context k));;
      s ← b_default_export b readonly (k_using_tls k);
      let s := match s with
               | Some n => if NBD_MAX_STRING <? strlen n then None else Some n
               | None => None
               end in
      match s with
      | Some n =>
          modify (set_conn (fun k => with_default_exportname
            (<[Z.to_nat (b_i b) := Some n]> (k_default_exportname k)) k));;
          mret (Some n)
      | None => mret None
      end
  end.

Definition exports_resolve_default (exps : nbdkit_exports) b (readonly : bool)
    : M W (Z * nbdkit_exports) :=
  def ← (if xs_use_default exps then backend_default_export b readonly else mret None);
  let '(r, exps) := exports_resolve_default_with exps def in
  mret (match r with None => 0 | Some _ => -1 end, exps).

Definition backend_list_exports b (readonly : bool) (exps : nbdkit_exports)
    : M W (Z * nbdkit_exports) :=
  k ← gets s_conn;
  cassert (negb (k_top_context k));;
  '(r, exps) ← b_list_exports b readonly (k_using_tls k) exps;
  if r =? -1 then mret (-1, exps)
  else
    '(r, exps) ← exports_resolve_default exps b readonly;
    mret (if r =? -1 then -1 else 0, exps).

(** ** Opening and closing *)

Fixpoint backend_close bs : M W unit :=
  match bs with
  | [] => fail NullPointer
  | b :: bs' =>
      c ← cur;
      next ← has_next;
      cassert (negb (c_handle c =? 0));;
      cassert (has (c_state c) HANDLE_OPEN);;
      b_close b;;
      modify (fun s => set_ctx (tail (s_ctx s)) s);;
      if next : bool then backend_close bs' else mret tt
  end.

(** The context [backend_open] fills in before it calls [.open]. *)
Definition new_context (readonly : bool) : context :=
  Context 0 0 UINT64_MAX UINT32_MAX UINT32_MAX UINT32_MAX
    (if readonly then 0 else -1) (-1) (-1) (-1) (-1) (-1) (-1) (-1) (-1) (-1).

(** Run with no current context; on success (true) the new context is
    current.  Only contexts tied to a connection ([shared] false). *)
Definition backend_open bs (readonly : bool) (exportname : list Z) : M W bool :=
  match bs with
  | [] => fail NullPointer
  | b :: bs' =>
      k ← gets s_conn;
      modify (set_ctx [new_context readonly]);;
      name ← (match exportname with
              | [] => backend_default_export b readonly
              | _ => mret (Some exportname)
              end);
      match name with
      | None =>
          nbdkit_error "default export not permitted"%string;;
          modify (set_ctx []);; mret false
      | Some name =>
          handle ← b_open b readonly name (k_using_tls k);
          if handle =? 0 then
            next ← has_next;
            (if (negb (b_i b =? 0) && next)%bool then on_next (backend_close bs') else mret tt);;
            modify (set_ctx []);; mret false
          else
            upd (fun c => ctx_state (Z.lor (c_state c) HANDLE_OPEN) (ctx_handle handle c));;
            mret true
      end
  end.

Fixpoint backend_prepare bs : M W Z :=
  match bs with
  | [] => fail NullPointer
  | b :: bs' =>
      c ← cur;
      cassert (negb (c_handle c =? 0));;
      cassert (has (c_state c) HANDLE_OPEN);;
      if has (c_state c) HANDLE_CONNECTED then mret 0
      else
        next ← has_next;
        r ← (if (negb (b_i b =? 0) && next)%bool then on_next (backend_prepare bs')
             else mret 0);
        if r =? -1 then mret (-1)
        else
          r ← b_prepare b (c_can_write c =? 0);
          if r =? -1 then mret (-1)
          else
            upd (fun c => ctx_state (Z.lor (c_state c) HANDLE_CONNECTED) c);;
            mret 0
  end.

Fixpoint backend_finalize bs : M W Z :=
  match bs with
  | [] => fail NullPointer
  | b :: bs' =>
      c ← cur;
      if has (c_state c) HANDLE_FAILED then mret (-1)
      else
        r ← (if has (c_state c) HANDLE_CONNECTED then
               cassert (has (c_state c) HANDLE_OPEN && negb (c_handle c =? 0));;
               r ← b_finalize b;
               (if r =? -1
                then upd (fun c => ctx_state (Z.lor (c_state c) HANDLE_FAILED) c)
                else mret tt);;
               mret r
             else mret 0);
        if r =? -1 then mret (-1)
        else
          next ← has_next;
          if (negb (b_i b =? 0) && next)%bool then on_next (backend_finalize bs')
          else mret 0
  end.

(** ** Capabilities *)

Definition backend_export_description b : M W (option (list Z)) :=
  _ ← check_connected;
  s ← b_export_description b;
  mret (match s with
        | Some n => if NBD_MAX_STRING <? strlen n then None else Some n
        | None => None
        end).

Definition backend_get_size b : M W Z :=
  c ← check_connected;
  (if c_exportsize c =? UINT64_MAX then
     r ← b_get_size b; upd (ctx_exportsize (u64 r))
   else mret tt);;
  c ← cur;
  mret (i64 (c_exportsize c)).

Definition backend_block_size b : M W (Z * (Z * Z * Z)) :=
  c ← check_connected;
  if negb (c_minimum_block_size c =? UINT32_MAX) then
    mret (0, (c_minimum_block_size c, c_preferred_block_size c, c_maximum_block_size c))
  else
    '(r, (mi, pr, ma)) ← b_block_size b;
    (if r =? 0 then upd (ctx_block_size mi pr ma) else mret tt);;
    mret (r, (mi, pr, ma)).

Definition backend_can_write b : M W Z :=
  c ← check_connected;
  (if c_can_write c =? -1 then r ← b_can_write b; upd (ctx_can_write r) else mret tt);;
  c ← cur; mret (c_can_write c).

Definition backend_can_flush b : M W Z :=
  c ← check_connected;
  (if c_can_flush c =? -1 then r ← b_can_flush b; upd (ctx_can_flush r) else mret tt);;
  c ← cur; mret (c_can_flush c).

Definition backend_is_rotational b : M W Z :=
  c ← check_connected;
  (if c_is_rotational c =? -1
   then r ← b_is_rotational b; upd (ctx_is_rotational r) else mret tt);;
  c ← cur; mret (c_is_rotational c).

Definition backend_can_trim b : M W Z :=
  c ← check_connected;
  if c_can_trim c =? -1 then
    r ← backend_can_write b;
    if negb (r =? 1) then upd (ctx_can_trim 0);; mret r
    else
      r ← b_can_trim b; upd (ctx_can_trim r);; mret r
  else mret (c_can_trim c).

Definition backend_can_zero b : M W Z :=
  c ← check_connected;
  if c_can_zero c =? -1 then
    r ← backend_can_write b;
    if negb (r =? 1) then upd (ctx_can_zero NBDKIT_ZERO_NONE);; mret r
    else
      r ← b_can_zero b; upd (ctx_can_zero r);; mret r
  else mret (c_can_zero c).

Definition backend_can_fast_zero b : M W Z :=
  c ← check_connected;
  if c_can_fast_zero c =? -1 then
    r ← backend_can_zero b;
    if r <? NBDKIT_ZERO_EMULATE then upd (ctx_can_fast_zero 0);; mret r
    else
      r ← b_can_fast_zero b; upd (ctx_can_fast_zero r);; mret r
  else mret (c_can_fast_zero c).

Definition backend_can_extents b : M W Z :=
  c ← check_connected;
  (if c_can_extents c =? -1
   then r ← b_can_extents b; upd (ctx_can_extents r) else mret tt);;
  c ← cur; mret (c_can_extents c).

Definition backend_can_fua b : M W Z :=
  c ← check_connected;
  if c_can_fua c =? -1 then
    r ← backend_can_write b;
    if negb (r =? 1) then upd (ctx_can_fua NBDKIT_FUA_NONE);; mret r
    else
      r ← b_can_fua b; upd (ctx_can_fua r);; mret r
  else mret (c_can_fua c).

Definition backend_can_multi_conn b : M W Z :=
  c ← check_connected;
  (if c_can_multi_conn c =? -1
   then r ← b_can_multi_conn b; upd (ctx_can_multi_conn r) else mret tt);;
  c ← cur; mret (c_can_multi_conn c).

Definition backend_can_cache b : M W Z :=
  c ← check_connected;
  (if c_can_cache c =? -1
   then r ← b_can_cache b; upd (ctx_can_cache r) else mret tt);;
  c ← cur; mret (c_can_cache c).

(** ** Data requests *)

Definition valid_range (c : context) (offset count : Z) : bool :=
  ((0 <? count) && (offset <=? c_exportsize c) &&
   (u64 (offset + count) <=? c_exportsize c))%bool.

Definition backend_valid_range (offset count : Z) : M W bool :=
  c ← cur;
  cassert (c_exportsize c <=? INT64_MAX);;
  mret (valid_range c offset count).

(** [if (r == -1) assert ( *err ); return r;] *)
Definition assert_err (re : Z * Z) : M W (Z * Z) :=
  let '(r, err) := re in
  (if r =? -1 then cassert (negb (err =? 0)) else mret tt);;
  mret (r, err).

Definition backend_pread b (count offset flags err : Z) : M W (Z * Z * list Z) :=
  _ ← check_connected;
  v ← backend_valid_range offset count;
  cassert v;;
  cassert (flags =? 0);;
  '(r, err, buf) ← b_pread b count offset flags err;
  '(r, err) ← assert_err (r, err);
  mret (r, err, buf).

Definition backend_pwrite b (buf : list Z) (count offset flags err : Z) : M W (Z * Z) :=
  c ← check_connected;
  let fua := has flags NBDKIT_FLAG_FUA in
  cassert (c_can_write c =? 1);;
  v ← backend_valid_range offset count;
  cassert v;;
  cassert (clear flags NBDKIT_FLAG_FUA =? 0);;
  cassert (implb fua (NBDKIT_FUA_NONE <? c_can_fua c));;
  re ← b_pwrite b buf count offset flags err;
  assert_err re.

Definition backend_flush b (flags err : Z) : M W (Z * Z) :=
  c ← check_connected;
  cassert (c_can_flush c =? 1);;
  cassert (flags =? 0);;
  re ← b_flush b flags err;
  assert_err re.

Definition backend_trim b (count offset flags err : Z) : M W (Z * Z) :=
  c ← check_connected;
  let fua := has flags NBDKIT_FLAG_FUA in
  cassert (c_can_write c =? 1);;
  cassert (c_can_trim c =? 1);;
  v ← backend_valid_range offset count;
  cassert v;;
  cassert (clear flags NBDKIT_FLAG_FUA =? 0);;
  cassert (implb fua (NBDKIT_FUA_NONE <? c_can_fua c));;
  re ← b_trim b count offset flags err;
  assert_err re.

(** A prefix of the static buffer of zeroes. *)
Definition zeroes (n : Z) : list Z := replicate (Z.to_nat n) 0.

(** The loop of [backend_zero] when zeroing is emulated. *)
Fixpoint backend_zero_loop b (fuel : nat) (count offset writeflags : Z) (need_flush : bool)
    (err : Z) : M W (Z * Z) :=
  if count =? 0 then mret (0, err)
  else match fuel with
  | O => fail OutOfFuel
  | S fuel =>
      let limit := Z.min count MAX_REQUEST_SIZE in
      let writeflags :=
        if ((limit =? count) && need_flush)%bool then NBDKIT_FLAG_FUA else writeflags in
      '(r, err) ← backend_pwrite b (zeroes limit) limit offset writeflags err;
      if r =? -1 then mret (-1, err)
      else backend_zero_loop b fuel (count - limit) (u64 (offset + limit)) writeflags
             need_flush err
  end.

(** A request is at most [UINT32_MAX] bytes, that is 64 chunks of
    [MAX_REQUEST_SIZE]. *)
Definition max_chunks : nat := 64.

Definition backend_zero b (count offset flags err : Z) : M W (Z * Z) :=
  c ← check_connected;
  let fua := has flags NBDKIT_FLAG_FUA in
  let fast := has flags NBDKIT_FLAG_FAST_ZERO in
  cassert (c_can_write c =? 1);;
  cassert (NBDKIT_ZERO_NONE <? c_can_zero c);;
  v ← backend_valid_range offset count;
  cassert v;;
  cassert (clear flags (Z.lor NBDKIT_FLAG_MAY_TRIM
             (Z.lor NBDKIT_FLAG_FUA NBDKIT_FLAG_FAST_ZERO)) =? 0);;
  cassert (implb fua (NBDKIT_FUA_NONE <? c_can_fua c));;
  cassert (implb fast (c_can_fast_zero c =? 1));;
  let finish (re : Z * Z) : M W (Z * Z) :=
    let '(r, err) := re in
    (if r =? -1 then
       cassert (negb (err =? 0));;
       cassert (implb (negb fast) (negb (err =? ENOTSUP) && negb (err =? EOPNOTSUPP)))
     else mret tt);;
    mret (r, err) in
  if c_can_zero c =? NBDKIT_ZERO_NATIVE then
    re ← b_zero b count offset flags err;
    finish re
  else if fast then mret (-1, ENOTSUP)
  else
    let need_flush := (fua && (c_can_fua c =? NBDKIT_FUA_EMULATE))%bool in
    let writeflags :=
      if (fua && negb (c_can_fua c =? NBDKIT_FUA_EMULATE))%bool
      then NBDKIT_FLAG_FUA else 0 in
    (* an error inside the loop returns at once, without [finish]'s checks *)
    backend_zero_loop b max_chunks count offset writeflags need_flush err.

Definition backend_extents b (count offset flags : Z) (extents : nbdkit_extents) (err : Z)
    : M W (Z * Z * nbdkit_extents) :=
  c ← check_connected;
  cassert (0 <=? c_can_extents c);;
  v ← backend_valid_range offset count;
  cassert v;;
  cassert (clear flags NBDKIT_FLAG_REQ_ONE =? 0);;
  if c_can_extents c =? 0 then
    let '(r, extents) := nbdkit_add_extent extents offset count 0 in
    match r with
    | None => mret (0, err, extents)
    | Some e => set_errno e;; mret (-1, e, extents)
    end
  else
    '(r, err, extents) ← b_extents b count offset flags extents err;
    '(r, err) ← assert_err (r, err);
    mret (r, err, extents).

(** The loop of [backend_cache] when caching is emulated by reading. *)
Fixpoint backend_cache_loop b (fuel : nat) (count offset flags err : Z) : M W (Z * Z) :=
  if count =? 0 then mret (0, err)
  else match fuel with
  | O => fail OutOfFuel
  | S fuel =>
      let limit := Z.min count MAX_REQUEST_SIZE in
      '(r, err, _) ← backend_pread b limit offset flags err;
      if r =? -1 then mret (-1, err)
      else backend_cache_loop b fuel (count - limit) (u64 (offset + limit)) flags err
  end.

Definition backend_cache b (count offset flags err : Z) : M W (Z * Z) :=
  c ← check_connected;
  cassert (NBDKIT_CACHE_NONE <? c_can_cache c);;
  v ← backend_valid_range offset count;
  cassert v;;
  cassert (flags =? 0);;
  if c_can_cache c =? NBDKIT_CACHE_EMULATE
  then backend_cache_loop b max_chunks count offset flags err
  else
    re ← b_cache b count offset flags err;
    assert_err re.
End Backend.

#[global] Arguments valid_range : simpl never.
#[global] Arguments zeroes : simpl never.

(** ** The contract between the server and a backend

    [primed c]: the context of an open export whose capabilities have all
    been asked for ([protocol_common_open] does that).  The values are the
    ones [include/nbdkit-filter.h] documents. *)
Record primed (c : context) : Prop := Primed {
  pr_handle : c_handle c <> 0;
  pr_connected : has (c_state c) HANDLE_CONNECTED = true;
  pr_size : 0 <= c_exportsize c <= INT64_MAX;
  pr_can_write : c_can_write c = 0 \/ c_can_write c = 1;
  pr_can_flush : c_can_flush c = 0 \/ c_can_flush c = 1;
  pr_can_trim : c_can_trim c = 0 \/ c_can_trim c = 1;
  pr_can_zero : 0 <= c_can_zero c <= 2;
  pr_can_fast_zero : c_can_fast_zero c = 0 \/ c_can_fast_zero c = 1;
  pr_can_fua : 0 <= c_can_fua c <= 2;
  pr_can_extents : c_can_extents c = 0 \/ c_can_extents c = 1;
  pr_can_cache : 0 <= c_can_cache c <= 2;
}.

(** The handles and states of the contexts of all layers. *)
Definition handles (l : list context) : list (Z * Z) :=
  (fun c => (c_handle c, c_state c)) <$> l.

(** A callback leaves the connection and the context it runs on alone; a
    filter's callback may fill in what the contexts of the layers below
    cache, but opens and closes none. *)
Definition frame {W} (s s' : st W) : Prop :=
  head (s_ctx s') = head (s_ctx s) /\ handles (s_ctx s') = handles (s_ctx s) /\
  s_conn s' = s_conn s.

#[global] Instance frame_preorder {W} : PreOrder (@frame W).
Proof.
  split; [done|]. intros s1 s2 s3 (? & ? & ?) (? & ? & ?). split; [|split]; congruence.
Qed.

Lemma frame_ctx {W} (s s' : st W) c cs :
  frame s s' -> s_ctx s = c :: cs -> exists cs', s_ctx s' = c :: cs'.
Proof.
  intros (Hh & _ & _) E. rewrite E in Hh. destruct (s_ctx s') as [|c' cs']; [done|].
  exists cs'. by simplify_eq/=.
Qed.

(** The variable [err] holds an error number or 0, and after a failure it
    is an error number. *)
Definition err_ok (err : Z) : Prop := 0 <= err <= INT32_MAX.

Definition fails_with_errno (r err : Z) : Prop := err_ok err /\ (r = -1 -> err <> 0).

Lemma err_ok_0 : err_ok 0.
Proof. unfold err_ok, INT32_MAX. lia. Qed.

Lemma succeeds_err_ok r err : r <> -1 -> err_ok err -> fails_with_errno r err.
Proof. by split. Qed.

(** A failure with one of the constants the server uses. *)
Lemma fails_const r err : ((0 <? err) && (err <=? INT32_MAX))%bool = true -> fails_with_errno r err.
Proof. unfold fails_with_errno, err_ok. lia. Qed.

#[export] Hint Resolve err_ok_0 succeeds_err_ok : nbdkit.

(** What the protocol code relies on when it calls a backend: the plugin
    interface of [server/plugins.c] provides it (see [Plugin]). *)
Class DataContract {W} (b : backend W) : Prop := {
  dc_pread count offset flags err s c cs :
    s_ctx s = c :: cs -> primed c -> err_ok err -> valid_range c offset count = true ->
    wp (b_pread b count offset flags err) (fun '(r, err', buf) s' =>
      frame s s' /\ fails_with_errno r err' /\
      (r <> -1 -> length buf = Z.to_nat count)) s;
  dc_pwrite buf count offset flags err s c cs :
    s_ctx s = c :: cs -> primed c -> err_ok err -> valid_range c offset count = true ->
    wp (b_pwrite b buf count offset flags err) (fun '(r, err') s' =>
      frame s s' /\ fails_with_errno r err') s;
  dc_flush flags err s c cs :
    s_ctx s = c :: cs -> primed c -> err_ok err ->
    wp (b_flush b flags err) (fun '(r, err') s' =>
      frame s s' /\ fails_with_errno r err') s;
  dc_trim count offset flags err s c cs :
    s_ctx s = c :: cs -> primed c -> err_ok err -> valid_range c offset count = true ->
    wp (b_trim b count offset flags err) (fun '(r, err') s' =>
      frame s s' /\ fails_with_errno r err') s;
  dc_zero count offset flags s c cs :
    s_ctx s = c :: cs -> primed c -> valid_range c offset count = true ->
    0 <= count <= UINT32_MAX -> t_err (s_thread s) <> ENOTSUP ->
    wp (b_zero b count offset flags 0) (fun '(r, err') s' =>
      frame s s' /\ fails_with_errno r err' /\
      (r = -1 -> has flags NBDKIT_FLAG_FAST_ZERO = false -> err' <> ENOTSUP)) s;
  dc_extents count offset flags exts err s c cs :
    s_ctx s = c :: cs -> primed c -> err_ok err -> valid_range c offset count = true ->
    0 <= offset -> 0 <= count <= UINT32_MAX ->
    wp (b_extents b count offset flags exts err) (fun '(r, err', exts') s' =>
      frame s s' /\ fails_with_errno r err' /\ exts_reach exts exts' /\
      (r <> -1 -> x_extents exts' <> [])) s;
  dc_cache count offset flags err s c cs :
    s_ctx s = c :: cs -> primed c -> err_ok err -> valid_range c offset count = true ->
    wp (b_cache b count offset flags err) (fun '(r, err') s' =>
      frame s s' /\ fails_with_errno r err') s;
}.

(** ** Ranges *)

Lemma valid_range_iff (c : context) (offset count : Z) :
  0 <= offset <= UINT64_MAX -> 0 <= count <= UINT32_MAX ->
  0 <= c_exportsize c <= INT64_MAX ->
  valid_range c offset count = true <-> 0 < count /\ offset + count <= c_exportsize c.
Proof.
  intros Ho Hc Hs. unfold valid_range. rewrite !andb_true_iff, Z.ltb_lt, !Z.leb_le.
  destruct (Z.le_gt_cases offset INT64_MAX); [rewrite u64_small by (limits; lia)|]; lia.
Qed.

Lemma valid_range_bounds (c : context) (offset count : Z) :
  0 <= offset -> 0 <= count <= UINT32_MAX -> c_exportsize c <= INT64_MAX ->
  valid_range c offset count = true -> 0 < count /\ offset + count <= c_exportsize c.
Proof.
  intros Ho Hc Hs Hv. pose proof Hv as Hle. unfold valid_range in Hle.
  rewrite !andb_true_iff, !Z.leb_le in Hle. destruct Hle as [[_ Hle] _].
  apply (valid_range_iff c offset count); (done || limits; lia).
Qed.

(** [backend_valid_range] is the mathematical range check: despite the
    64-bit addition it accepts exactly the non-empty requests that end
    inside the export, for every offset and count a client can send, and
    its assertion holds on every export whose size was negotiated. *)
Lemma valid_range_correct {W} (s : st W) c cs offset count :
  s_ctx s = c :: cs -> 0 <= c_exportsize c <= INT64_MAX ->
  0 <= offset <= UINT64_MAX -> 0 <= count <= UINT32_MAX ->
  exists v, backend_valid_range offset count s = Ok (v, s) /\
  (v = true <-> 0 < count /\ offset + count <= c_exportsize c).
Proof.
  intros Hs Hsz Ho Hc. exists (valid_range c offset count).
  split; [|by apply valid_range_iff]. unfold backend_valid_range, cur. unfold_m.
  rewrite Hs. destruct (Z.leb_spec (c_exportsize c) INT64_MAX); [done|lia].
Qed.

Definition witness_thread : thread := Thread 0 0 None.

Definition witness_conn : connection :=
  Connection STATUS_ACTIVE 0 0 true [None] 3 1517 true false true true None (Some []) [] true [] [].

Definition witness_context : context :=
  Context 1 3 1048576 0 0 0 1 1 0 1 1 0 2 1 0 1.

Definition witness_state {W} (w : W) : st W :=
  St witness_thread w witness_conn [witness_context].

Lemma witness_primed : primed witness_context.
Proof. split; simpl; limits; (done || lia || auto). Qed.

Lemma valid_range_correct_witness :
  exists v, backend_valid_range UINT64_MAX 1 (witness_state tt) = Ok (v, witness_state tt) /\
  (v = true <-> 0 < 1 /\ UINT64_MAX + 1 <= 1048576).
Proof.
  apply (valid_range_correct (witness_state tt) witness_context [] UINT64_MAX 1);
    [reflexivity|unfold UINT64_MAX, UINT32_MAX, INT64_MAX; simpl; lia..].
Defined.

Section Wp.
Context {W : Type} (b : backend W) `{!DataContract b}.
Implicit Types (s : st W) (c : context).

Lemma wp_cur Q s c cs : s_ctx s = c :: cs -> Q c s -> wp (cur (W:=W)) Q s.
Proof. intros H HQ. unfold wp, cur. by rewrite H. Qed.

Lemma wp_check_connected Q s c cs :
  s_ctx s = c :: cs -> primed c -> Q c s -> wp (check_connected (W:=W)) Q s.
Proof.
  intros H Hp HQ. unfold check_connected. apply wp_bind. eapply wp_cur; [done|].
  apply wp_bind, wp_assert. split; [|by apply wp_ret].
  rewrite (pr_connected _ Hp), andb_true_r.
  apply negb_true_iff, Z.eqb_neq, Hp.
Qed.

Lemma wp_valid_range offset count Q s c cs :
  s_ctx s = c :: cs -> primed c ->
  Q (valid_range c offset count) s -> wp (backend_valid_range (W:=W) offset count) Q s.
Proof.
  intros H Hp HQ. unfold backend_valid_range. apply wp_bind. eapply wp_cur; [done|].
  apply wp_bind, wp_assert. split; [|by apply wp_ret].
  apply Z.leb_le. destruct (pr_size _ Hp). lia.
Qed.

Lemma wp_assert_err r err Q s :
  fails_with_errno r err -> Q (r, err) s -> wp (assert_err (W:=W) (r, err)) Q s.
Proof.
  intros He HQ. unfold assert_err. apply wp_bind.
  destruct (Z.eqb_spec r (-1)); [|done].
  apply wp_assert. split; [|done]. apply negb_true_iff, Z.eqb_neq. by apply He.
Qed.

(** The conditions under which the assertions of a writing request hold. *)
Definition may_write c offset count flags : Prop :=
  c_can_write c = 1 /\ valid_range c offset count = true /\
  clear flags NBDKIT_FLAG_FUA = 0 /\
  (has flags NBDKIT_FLAG_FUA = true -> 0 < c_can_fua c).

Lemma fua_assertion c flags :
  (has flags NBDKIT_FLAG_FUA = true -> 0 < c_can_fua c) ->
  implb (has flags NBDKIT_FLAG_FUA) (NBDKIT_FUA_NONE <? c_can_fua c) = true.
Proof.
  intros H. destruct (has _ _); [|done]. simpl. apply Z.ltb_lt. by apply H.
Qed.

Lemma wp_backend_pread count offset err s c cs :
  s_ctx s = c :: cs -> primed c -> err_ok err -> valid_range c offset count = true ->
  wp (backend_pread b count offset 0 err) (fun '(r, err', buf) s' =>
    frame s s' /\ fails_with_errno r err' /\
    (r <> -1 -> length buf = Z.to_nat count)) s.
Proof.
  intros Hs Hp Herr Hv. unfold backend_pread.
  apply wp_bind. eapply wp_check_connected; [done..|].
  apply wp_bind. eapply wp_valid_range; [done..|].
  apply wp_bind, wp_assert. split; [done|].
  apply wp_bind, wp_assert. split; [done|].
  apply wp_bind. eapply wp_mono; [by apply (dc_pread _ _ _ _ _ c cs)|].
  intros [[r e] buf] s' (Hf & He & Hl). apply wp_bind, wp_assert_err; [done|].
  by apply wp_ret.
Qed.

Lemma wp_backend_pwrite buf count offset flags err s c cs :
  s_ctx s = c :: cs -> primed c -> err_ok err -> may_write c offset count flags ->
  wp (backend_pwrite b buf count offset flags err) (fun '(r, err') s' =>
    frame s s' /\ fails_with_errno r err') s.
Proof.
  intros Hs Hp Herr (Hw & Hv & Hfl & Hfua). unfold backend_pwrite.
  apply wp_bind. eapply wp_check_connected; [done..|].
  apply wp_bind, wp_assert. split; [by apply Z.eqb_eq|].
  apply wp_bind. eapply wp_valid_range; [done..|].
  apply wp_bind, wp_assert. split; [done|].
  apply wp_bind, wp_assert. split; [by apply Z.eqb_eq|].
  apply wp_bind, wp_assert. split; [by apply fua_assertion|].
  apply wp_bind. eapply wp_mono; [by apply (dc_pwrite _ _ _ _ _ _ c cs)|].
  intros [r e] s' (Hf & He). by apply wp_assert_err.
Qed.

Lemma wp_backend_flush err s c cs :
  s_ctx s = c :: cs -> primed c -> err_ok err -> c_can_flush c = 1 ->
  wp (backend_flush b 0 err) (fun '(r, err') s' =>
    frame s s' /\ fails_with_errno r err') s.
Proof.
  intros Hs Hp Herr Hc. unfold backend_flush.
  apply wp_bind. eapply wp_check_connected; [done..|].
  apply wp_bind, wp_assert. split; [by apply Z.eqb_eq|].
  apply wp_bind, wp_assert. split; [done|].
  apply wp_bind. eapply wp_mono; [by apply (dc_flush _ _ _ c cs)|].
  intros [r e] s' (Hf & He). by apply wp_assert_err.
Qed.

Lemma wp_backend_trim count offset flags err s c cs :
  s_ctx s = c :: cs -> primed c -> err_ok err -> may_write c offset count flags -> c_can_trim c = 1 ->
  wp (backend_trim b count offset flags err) (fun '(r, err') s' =>
    frame s s' /\ fails_with_errno r err') s.
Proof.
  intros Hs Hp Herr (Hw & Hv & Hfl & Hfua) Hc. unfold backend_trim.
  apply wp_bind. eapply wp_check_connected; [done..|].
  apply wp_bind, wp_assert. split; [by apply Z.eqb_eq|].
  apply wp_bind, wp_assert. split; [by apply Z.eqb_eq|].
  apply wp_bind. eapply wp_valid_range; [done..|].
  apply wp_bind, wp_assert. split; [done|].
  apply wp_bind, wp_assert. split; [by apply Z.eqb_eq|].
  apply wp_bind, wp_assert. split; [by apply fua_assertion|].
  apply wp_bind. eapply wp_mono; [by apply (dc_trim _ _ _ _ _ c cs)|].
  intros [r e] s' (Hf & He). by apply wp_assert_err.
Qed.

(** *** Chunked loops

    Both emulation loops cut a request into chunks of [MAX_REQUEST_SIZE]. *)

Lemma valid_range_prefix c offset count n :
  0 <= offset -> 0 < n <= count -> count <= UINT32_MAX -> c_exportsize c <= INT64_MAX ->
  valid_range c offset count = true -> valid_range c offset n = true.
Proof.
  intros Ho Hn Hc Hs. unfold valid_range. rewrite !andb_true_iff, !Z.ltb_lt, !Z.leb_le.
  intros ((? & ?) & Hle). rewrite u64_small in Hle |- * by (limits; lia). lia.
Qed.

Lemma valid_range_suffix c offset count n :
  0 <= offset -> 0 < n < count -> count <= UINT32_MAX -> c_exportsize c <= INT64_MAX ->
  valid_range c offset count = true ->
  valid_range c (u64 (offset + n)) (count - n) = true /\ u64 (offset + n) = offset + n.
Proof.
  intros Ho Hn Hc Hs. unfold valid_range. rewrite !andb_true_iff, !Z.ltb_lt, !Z.leb_le.
  intros ((? & ?) & Hle). rewrite u64_small in Hle by (limits; lia).
  rewrite (u64_small (offset + n)) by (limits; lia).
  rewrite u64_small by (limits; lia). lia.
Qed.

(** The flags a chunk of an emulated zero is written with. *)
Definition chunk_flags (last need_flush : bool) (writeflags : Z) : Z :=
  if (last && need_flush)%bool then NBDKIT_FLAG_FUA else writeflags.

Lemma chunk_flags_ok c last need_flush writeflags :
  writeflags = 0 \/ (writeflags = NBDKIT_FLAG_FUA /\ 0 < c_can_fua c) ->
  (need_flush = true -> 0 < c_can_fua c) ->
  let f := chunk_flags last need_flush writeflags in
  (f = 0 \/ (f = NBDKIT_FLAG_FUA /\ 0 < c_can_fua c)) /\
  clear f NBDKIT_FLAG_FUA = 0 /\ (has f NBDKIT_FLAG_FUA = true -> 0 < c_can_fua c).
Proof.
  intros Hw Hn. unfold chunk_flags.
  destruct last, need_flush; simpl; destruct Hw as [->|[-> Hc]]; split; auto;
    by (split; [reflexivity|]; intros H; (done || auto)).
Qed.

Lemma wp_backend_zero_loop fuel count offset writeflags need_flush err s c cs :
  s_ctx s = c :: cs -> primed c -> err_ok err -> c_can_write c = 1 ->
  0 <= offset -> 0 < count <= UINT32_MAX -> count <= Z.of_nat fuel * MAX_REQUEST_SIZE ->
  valid_range c offset count = true ->
  (writeflags = 0 \/ (writeflags = NBDKIT_FLAG_FUA /\ 0 < c_can_fua c)) ->
  (need_flush = true -> 0 < c_can_fua c) ->
  wp (backend_zero_loop b fuel count offset writeflags need_flush err) (fun '(r, err') s' =>
    frame s s' /\ fails_with_errno r err') s.
Proof.
  revert count offset writeflags err s cs.
  induction fuel as [|fuel IH]; intros count offset wf err s cs Hs Hp Herr Hw Ho Hc Hfuel Hv Hf Hn;
    [simpl in Hfuel; lia|].
  cbn [backend_zero_loop]. destruct (Z.eqb_spec count 0); [lia|].
  pose proof (pr_size _ Hp) as [_ Hsz].
  set (limit := Z.min count MAX_REQUEST_SIZE).
  assert (Hl : 0 < limit <= count) by (unfold limit, MAX_REQUEST_SIZE; lia).
  pose proof (chunk_flags_ok c (limit =? count) need_flush wf Hf Hn) as (Hf' & Hcl & Hfua).
  unfold chunk_flags in *. set (wf' := if ((limit =? count) && need_flush)%bool then NBDKIT_FLAG_FUA else wf) in *.
  apply wp_bind. eapply wp_mono.
  { apply (wp_backend_pwrite _ _ _ _ _ s c cs); [done..|]. split; [done|].
    split; [apply (valid_range_prefix c offset count); (done || lia)|done]. }
  intros [r e] s1 [Hfr He]. destruct (Z.eqb_spec r (-1)); [by subst; apply wp_ret|].
  destruct (decide (limit = count)) as [E|E].
  { rewrite E, Z.sub_diag. destruct He. destruct fuel; apply wp_ret; auto with nbdkit. }
  destruct (valid_range_suffix c offset count limit) as [Hv' Ho']; [lia..|done|].
  destruct (frame_ctx _ _ _ _ Hfr Hs) as [cs1 Hs1].
  eapply wp_mono; [apply (IH (count - limit) (u64 (offset + limit)) wf' e s1 cs1)|].
  - done.
  - done.
  - by destruct He.
  - done.
  - lia.
  - lia.
  - unfold limit in *. lia.
  - done.
  - done.
  - done.
  - intros [r2 e2] s2 [Hfr2 He2]. split; [by etrans|done].
Qed.

(** The conditions under which the assertions of [backend_zero] hold. *)
Definition may_zero c offset count flags : Prop :=
  c_can_write c = 1 /\ 0 < c_can_zero c /\ valid_range c offset count = true /\
  clear flags (Z.lor NBDKIT_FLAG_MAY_TRIM
    (Z.lor NBDKIT_FLAG_FUA NBDKIT_FLAG_FAST_ZERO)) = 0 /\
  (has flags NBDKIT_FLAG_FUA = true -> 0 < c_can_fua c) /\
  (has flags NBDKIT_FLAG_FAST_ZERO = true -> c_can_fast_zero c = 1).

Lemma wp_backend_zero count offset flags s c cs :
  s_ctx s = c :: cs -> primed c -> 0 <= offset -> 0 <= count <= UINT32_MAX ->
  may_zero c offset count flags -> t_err (s_thread s) <> ENOTSUP ->
  wp (backend_zero b count offset flags 0) (fun '(r, err') s' =>
    frame s s' /\ fails_with_errno r err') s.
Proof.
  intros Hs Hp Ho Hc (Hw & Hz & Hv & Hfl & Hfua & Hfast) Ht. unfold backend_zero.
  assert (Hpos : 0 < count).
  { unfold valid_range in Hv. rewrite !andb_true_iff, Z.ltb_lt in Hv. tauto. }
  apply wp_bind. eapply wp_check_connected; [done..|].
  apply wp_bind, wp_assert. split; [by apply Z.eqb_eq|].
  apply wp_bind, wp_assert. split; [by apply Z.ltb_lt|].
  apply wp_bind. eapply wp_valid_range; [done..|].
  apply wp_bind, wp_assert. split; [done|].
  apply wp_bind, wp_assert. split; [by apply Z.eqb_eq|].
  apply wp_bind, wp_assert. split; [by apply fua_assertion|].
  apply wp_bind, wp_assert.
  split; [destruct (has flags NBDKIT_FLAG_FAST_ZERO); [by apply Z.eqb_eq, Hfast|done]|].
  destruct (c_can_zero c =? NBDKIT_ZERO_NATIVE).
  - apply wp_bind. eapply wp_mono; [by apply (dc_zero _ _ _ _ c cs)|].
    intros [r e] s' (Hf & He & Hns). apply wp_bind.
    destruct (Z.eqb_spec r (-1)) as [->|]; [|by apply wp_ret].
    apply wp_bind, wp_assert. split; [by apply negb_true_iff, Z.eqb_neq, He|].
    apply wp_assert. split; [|done].
    destruct (has flags NBDKIT_FLAG_FAST_ZERO); [done|]. simpl.
    specialize (Hns eq_refl eq_refl). change EOPNOTSUPP with ENOTSUP.
    by rewrite andb_diag; apply negb_true_iff, Z.eqb_neq.
  - destruct (has flags NBDKIT_FLAG_FAST_ZERO);
      [apply wp_ret; split; [done|]; split; [unfold err_ok, ENOTSUP, INT32_MAX; lia|done]|].
    apply (wp_backend_zero_loop _ _ _ _ _ _ s c cs); try done; [lia|..].
    + unfold max_chunks, MAX_REQUEST_SIZE. limits. lia.
    + destruct (has flags NBDKIT_FLAG_FUA), (c_can_fua c =? NBDKIT_FUA_EMULATE); simpl; auto.
    + destruct (has flags NBDKIT_FLAG_FUA); simpl; [auto|done].
Qed.

Lemma wp_backend_cache_loop fuel count offset err s c cs :
  s_ctx s = c :: cs -> primed c -> err_ok err ->
  0 <= offset -> 0 < count <= UINT32_MAX -> count <= Z.of_nat fuel * MAX_REQUEST_SIZE ->
  valid_range c offset count = true ->
  wp (backend_cache_loop b fuel count offset 0 err) (fun '(r, err') s' =>
    frame s s' /\ fails_with_errno r err') s.
Proof.
  revert count offset err s cs.
  induction fuel as [|fuel IH]; intros count offset err s cs Hs Hp Herr Ho Hc Hfuel Hv;
    [simpl in Hfuel; lia|].
  cbn [backend_cache_loop]. destruct (Z.eqb_spec count 0); [lia|].
  pose proof (pr_size _ Hp) as [_ Hsz].
  set (limit := Z.min count MAX_REQUEST_SIZE).
  assert (Hl : 0 < limit <= count) by (unfold limit, MAX_REQUEST_SIZE; lia).
  apply wp_bind. eapply wp_mono.
  { apply (wp_backend_pread _ _ _ s c cs); [done..|].
    apply (valid_range_prefix c offset count); (done || lia). }
  intros [[r e] buf] s1 (Hfr & He & _). destruct (Z.eqb_spec r (-1)); [by subst; apply wp_ret|].
  destruct (decide (limit = count)) as [E|E].
  { rewrite E, Z.sub_diag. destruct He. destruct fuel; apply wp_ret; auto with nbdkit. }
  destruct (valid_range_suffix c offset count limit) as [Hv' Ho']; [lia..|done|].
  destruct (frame_ctx _ _ _ _ Hfr Hs) as [cs1 Hs1].
  eapply wp_mono; [apply (IH (count - limit) (u64 (offset + limit)) e s1 cs1)|].
  - done.
  - done.
  - by destruct He.
  - lia.
  - lia.
  - unfold limit in *. lia.
  - done.
  - intros [r2 e2] s2 [Hfr2 He2]. split; [by etrans|done].
Qed.

Lemma wp_backend_cache count offset err s c cs :
  s_ctx s = c :: cs -> primed c -> err_ok err -> 0 <= offset -> 0 <= count <= UINT32_MAX ->
  0 < c_can_cache c -> valid_range c offset count = true ->
  wp (backend_cache b count offset 0 err) (fun '(r, err') s' =>
    frame s s' /\ fails_with_errno r err') s.
Proof.
  intros Hs Hp Herr Ho Hc Hcc Hv. unfold backend_cache.
  assert (Hpos : 0 < count).
  { unfold valid_range in Hv. rewrite !andb_true_iff, Z.ltb_lt in Hv. tauto. }
  apply wp_bind. eapply wp_check_connected; [done..|].
  apply wp_bind, wp_assert. split; [by apply Z.ltb_lt|].
  apply wp_bind. eapply wp_valid_range; [done..|].
  apply wp_bind, wp_assert. split; [done|].
  apply wp_bind, wp_assert. split; [done|].
  destruct (c_can_cache c =? NBDKIT_CACHE_EMULATE).
  - apply (wp_backend_cache_loop _ _ _ _ s c cs); try done; [lia|].
    unfold max_chunks, MAX_REQUEST_SIZE. limits. lia.
  - apply wp_bind. eapply wp_mono; [by apply (dc_cache _ _ _ _ _ c cs)|].
    intros [r e] s' (Hf & He). by apply wp_assert_err.
Qed.

(** The extents answered by a successful [backend_extents] cover the first
    requested byte. *)
Definition extents_answer (exts0 exts : nbdkit_extents) : Prop :=
  exts_wf exts /\ x_start exts = x_start exts0 /\ x_end exts = x_end exts0 /\
  x_extents exts <> [].

Lemma wp_backend_extents count offset flags err s c cs end_ :
  s_ctx s = c :: cs -> primed c -> err_ok err -> 0 <= offset -> 0 <= count <= UINT32_MAX ->
  valid_range c offset count = true -> clear flags NBDKIT_FLAG_REQ_ONE = 0 ->
  offset + count <= end_ <= INT64_MAX ->
  wp (backend_extents b count offset flags (Extents [] offset end_ (-1)) err)
    (fun '(r, err', exts') s' =>
      frame s s' /\ fails_with_errno r err' /\
      (r <> -1 -> extents_answer (Extents [] offset end_ (-1)) exts')) s.
Proof.
  intros Hs Hp Herr Ho Hc Hv Hfl Hend. unfold backend_extents.
  assert (Hpos : 0 < count).
  { unfold valid_range in Hv. rewrite !andb_true_iff, Z.ltb_lt in Hv. tauto. }
  assert (Hwf : exts_wf (Extents [] offset end_ (-1))).
  { split; simpl; unfold nbdkit_extents_count, MAX_EXTENTS; simpl; limits; (done || lia). }
  apply wp_bind. eapply wp_check_connected; [done..|].
  apply wp_bind, wp_assert.
  split; [apply Z.leb_le; destruct (pr_can_extents _ Hp); lia|].
  apply wp_bind. eapply wp_valid_range; [done..|].
  apply wp_bind, wp_assert. split; [done|].
  apply wp_bind, wp_assert. split; [by apply Z.eqb_eq|].
  destruct (c_can_extents c =? 0).
  - pose proof (nbdkit_add_extent_spec (Extents [] offset end_ (-1)) offset count 0 Hwf
      ltac:(unfold add_ok; lia)) as Hadd.
    destruct (nbdkit_add_extent _ _ _ _) as [r exts]; simpl in Hadd.
    inversion Hadd as [| |Hn Hwhy|l' lo hi Hn Hlo Hhi Hlt Hcnt Hap]; subst; simpl in *; try lia.
    + unfold nbdkit_extents_count, MAX_EXTENTS in Hwhy. simpl in Hwhy. lia.
    + split; [done|]. split; [by apply succeeds_err_ok|]. intros _.
      split; [|split; [done|split; [done|by apply Hap]]].
      eapply (add_spec_wf (Extents [] offset end_ (-1)) offset count 0); [done| |exact Hadd].
      unfold add_ok. lia.
  - apply wp_bind. eapply wp_mono; [by apply (dc_extents _ _ _ _ _ _ c cs)|].
    intros [[r e] exts] s' (Hf & He & Hr & Hne). apply wp_bind, wp_assert_err; [done|].
    apply wp_ret. split; [done|]. split; [done|]. intros Hr1.
    destruct (exts_reach_wf _ _ Hr Hwf) as (? & ? & ?).
    split; [done|]. split; [done|]. split; [done|]. auto.
Qed.
End Wp.

(** ** Running a program step by step, as an equation *)

Section Run.
Context {W : Type}.
Implicit Types (s : st W) (c : context).

Lemma check_connected_primed s c cs :
  s_ctx s = c :: cs -> primed c -> check_connected s = Ok (c, s).
Proof.
  intros Hs Hp. unfold check_connected, cur. unfold_m. rewrite Hs.
  rewrite (pr_connected _ Hp), andb_true_r.
  by rewrite (proj2 (Z.eqb_neq (c_handle c) 0) (pr_handle _ Hp)).
Qed.

Lemma valid_range_primed s c cs offset count :
  s_ctx s = c :: cs -> primed c ->
  backend_valid_range offset count s = Ok (valid_range c offset count, s).
Proof.
  intros Hs Hp. unfold backend_valid_range, cur. unfold_m. rewrite Hs.
  destruct (Z.leb_spec (c_exportsize c) INT64_MAX); [done|]. destruct (pr_size _ Hp). lia.
Qed.

Lemma bind_run {A B} (m : M W A) (k : A -> M W B) s a s' :
  m s = Ok (a, s') -> (m ≫= k) s = k a s'.
Proof. intros E. unfold mbind, M_bind. by rewrite E. Qed.

Lemma bind_assert {B} (x : bool) (k : unit -> M W B) s :
  x = true -> (cassert x ≫= k) s = k tt s.
Proof. by intros ->. Qed.

End Run.

(** ** Capabilities

    [cap_ok]: every capability is in its documented range, or still
    unknown (-1).  [extends c c']: what [c] knows, [c'] knows too. *)

Definition tri (r : Z) : Prop := r = -1 \/ r = 0 \/ r = 1.
Definition quad (r : Z) : Prop := -1 <= r <= 2.

Record cap_ok (c : context) : Prop := CapOk {
  co_handle : c_handle c <> 0;
  co_connected : has (c_state c) HANDLE_CONNECTED = true;
  co_size : 0 <= c_exportsize c <= UINT64_MAX;
  co_can_write : tri (c_can_write c);
  co_can_flush : tri (c_can_flush c);
  co_is_rotational : tri (c_is_rotational c);
  co_can_trim : tri (c_can_trim c);
  co_can_zero : quad (c_can_zero c);
  co_can_fast_zero : tri (c_can_fast_zero c);
  co_can_fua : quad (c_can_fua c);
  co_can_multi_conn : tri (c_can_multi_conn c);
  co_can_extents : tri (c_can_extents c);
  co_can_cache : quad (c_can_cache c);
}.

Definition keeps {A} (unknown : A) (f : context -> A) (c c' : context) : Prop :=
  f c = unknown \/ f c' = f c.

Record extends (c c' : context) : Prop := Extends {
  ex_handle : c_handle c' = c_handle c;
  ex_state : c_state c' = c_state c;
  ex_size : keeps UINT64_MAX c_exportsize c c';
  ex_can_write : keeps (-1) c_can_write c c';
  ex_can_flush : keeps (-1) c_can_flush c c';
  ex_is_rotational : keeps (-1) c_is_rotational c c';
  ex_can_trim : keeps (-1) c_can_trim c c';
  ex_can_zero : keeps (-1) c_can_zero c c';
  ex_can_fast_zero : keeps (-1) c_can_fast_zero c c';
  ex_can_fua : keeps (-1) c_can_fua c c';
  ex_can_multi_conn : keeps (-1) c_can_multi_conn c c';
  ex_can_extents : keeps (-1) c_can_extents c c';
  ex_can_cache : keeps (-1) c_can_cache c c';
}.

Lemma keeps_trans {A} (u : A) f c1 c2 c3 :
  keeps u f c1 c2 -> keeps u f c2 c3 -> keeps u f c1 c3.
Proof. unfold keeps. intros [|] [|]; (left; congruence) || (right; congruence). Qed.

#[global] Instance extends_preorder : PreOrder extends.
Proof.
  split.
  - intros c. split; (done || by right).
  - intros c1 c2 c3 [] []. split; [congruence..| | | | | | | | | | | ];
      by eapply keeps_trans.
Qed.

(** A step that may fill in capabilities of the current context. *)
Definition grows {W} (s s' : st W) : Prop :=
  s_conn s' = s_conn s /\ handles (s_ctx s') = handles (s_ctx s) /\
  forall c cs, s_ctx s = c :: cs -> cap_ok c ->
    exists c' cs', s_ctx s' = c' :: cs' /\ extends c c' /\ cap_ok c'.

#[global] Instance grows_preorder {W} : PreOrder (@grows W).
Proof.
  split.
  - intros s. split; [done|]. split; [done|]. intros c cs. by exists c, cs.
  - intros s1 s2 s3 (? & ? & H1) (? & ? & H2). split; [congruence|].
    split; [congruence|]. intros c cs Hs Hc.
    destruct (H1 _ _ Hs Hc) as (c' & cs' & Hs' & He & Hc').
    destruct (H2 _ _ Hs' Hc') as (c'' & cs'' & Hs'' & He' & Hc'').
    exists c'', cs''. split; [done|]. split; [by etrans|done].
Qed.

Lemma frame_grows {W} (s s' : st W) : frame s s' -> grows s s'.
Proof.
  intros Hf. pose proof Hf as (_ & Hl & Hk). split; [done|]. split; [done|].
  intros c cs Hs Hc. destruct (frame_ctx _ _ _ _ Hf Hs) as [cs' Hs'].
  by exists c, cs'.
Qed.

(** A capability callback: it answers a value in range. *)
Definition answers {W} (m : M W Z) (pre : context -> Prop) (P : Z -> Prop) : Prop :=
  forall s c cs, s_ctx s = c :: cs -> cap_ok c -> pre c ->
    wp m (fun r s' => frame s s' /\ P r) s.

Class CapContract {W} (b : backend W) : Prop := {
  cc_get_size : answers (b_get_size b) (fun _ => True) (fun r => - INT64_MAX - 1 <= r <= INT64_MAX);
  cc_can_write : answers (b_can_write b) (fun _ => True) tri;
  cc_can_flush : answers (b_can_flush b) (fun _ => True) tri;
  cc_is_rotational : answers (b_is_rotational b) (fun _ => True) tri;
  cc_can_trim : answers (b_can_trim b) (fun _ => True) tri;
  cc_can_zero : answers (b_can_zero b) (fun _ => True) quad;
  cc_can_fast_zero : answers (b_can_fast_zero b) (fun c => 1 <= c_can_zero c) tri;
  cc_can_extents : answers (b_can_extents b) (fun _ => True) tri;
  cc_can_fua : answers (b_can_fua b) (fun _ => True) quad;
  cc_can_multi_conn : answers (b_can_multi_conn b) (fun _ => True) tri;
  cc_can_cache : answers (b_can_cache b) (fun _ => True) quad;
  cc_block_size s c cs : s_ctx s = c :: cs -> cap_ok c ->
    wp (b_block_size b) (fun '(_, (mi, pr, ma)) s' => frame s s' /\
      0 <= mi <= UINT32_MAX /\ 0 <= pr <= UINT32_MAX /\ 0 <= ma <= UINT32_MAX) s;
  cc_export_description s c cs : s_ctx s = c :: cs -> cap_ok c ->
    wp (b_export_description b) (fun _ s' => frame s s') s;
}.

(** The current context after asking for one capability: it is known
    unless the question failed. *)
Definition asked {W} (f : context -> Z) (s : st W) (r : Z) (s' : st W) : Prop :=
  grows s s' /\ exists c' cs', s_ctx s' = c' :: cs' /\ (r = -1 \/ f c' = r).

Section Capabilities.
Context {W : Type} (b : backend W).
Implicit Types (s : st W) (c : context).

Lemma wp_check_cap_ok Q s c cs :
  s_ctx s = c :: cs -> cap_ok c -> Q c s -> wp (check_connected (W:=W)) Q s.
Proof.
  intros H Hp HQ. unfold check_connected. apply wp_bind. eapply wp_cur; [done|].
  apply wp_bind, wp_assert. split; [|by apply wp_ret].
  rewrite (co_connected _ Hp), andb_true_r. apply negb_true_iff, Z.eqb_neq, Hp.
Qed.

Lemma wp_upd f Q s c cs :
  s_ctx s = c :: cs -> Q tt (set_ctx (f c :: cs) s) -> wp (upd (W:=W) f) Q s.
Proof. intros H HQ. unfold wp, upd. by rewrite H. Qed.

(** Filling in one field of the current context, after a callback. *)
Lemma grows_upd (s s' : st W) c cs c' :
  frame s s' -> s_ctx s = c :: cs -> extends c c' -> cap_ok c' ->
  grows s (set_ctx (c' :: tail (s_ctx s')) s').
Proof.
  intros Hf Hs He Hc. pose proof Hf as (_ & Hl & Hk).
  destruct (frame_ctx _ _ _ _ Hf Hs) as [cs' Hs'].
  split; [done|]. split.
  { rewrite Hs, Hs' in *. simpl in *. by rewrite (ex_handle _ _ He), (ex_state _ _ He). }
  intros c0 cs0 Hs0 _. rewrite Hs in Hs0. simplify_eq. simpl. eauto 6.
Qed.

(** Setting the field [f], when it was not known. *)
Definition fills (f : context -> Z) (setf : Z -> context -> context) (P : Z -> Prop) : Prop :=
  (forall r c, f (setf r c) = r) /\
  (forall r c c1, P r -> f c = -1 -> extends c c1 -> cap_ok c1 ->
     extends c (setf r c1) /\ cap_ok (setf r c1)).

(** Ask a callback and remember the answer. *)
Lemma wp_ask (f : context -> Z) setf (ask : M W Z) pre P s0 c0 cs0 s c cs :
  fills f setf P -> answers ask pre P -> pre c ->
  s_ctx s0 = c0 :: cs0 -> f c0 = -1 ->
  grows s0 s -> s_ctx s = c :: cs -> extends c0 c -> cap_ok c ->
  wp ask (fun r s1 => wp (upd (setf r)) (fun _ s' =>
    grows s0 s' /\ exists c' cs', s_ctx s' = c' :: cs' /\ f c' = r) s1) s.
Proof.
  intros [Hset Hext] Ha Hpre Hs0 Hf Hg Hs He Hc. eapply wp_mono; [by eapply Ha|].
  intros r s1 [Hfr HP]. destruct (frame_ctx _ _ _ _ Hfr Hs) as [cs1 Hs1].
  eapply wp_upd; [done|]. destruct (Hext r c0 c HP Hf He Hc) as [He' Hok'].
  split; [|simpl; eauto]. destruct Hg as (Hk & Hl & _), Hfr as (_ & Hl' & Hk').
  split; [simpl; congruence|]. split.
  { rewrite Hs, Hs1, Hs0 in *. simpl in *. rewrite (ex_handle _ _ He'), (ex_state _ _ He').
    congruence. }
  intros c2 cs2 Hs2 _. rewrite Hs0 in Hs2. simplify_eq. simpl. eauto 6.
Qed.

(** The shape of the simple capabilities: look in the cache, or ask. *)
Lemma wp_simple_cap f setf (ask : M W Z) P s c cs :
  fills f setf P -> answers ask (fun _ => True) P ->
  s_ctx s = c :: cs -> cap_ok c ->
  wp (c ← check_connected;
      (if f c =? -1 then r ← ask; upd (setf r) else mret tt);;
      c ← cur; mret (f c)) (asked f s) s.
Proof.
  intros Hf Ha Hs Hc. apply wp_bind. eapply wp_check_cap_ok; [done..|].
  apply wp_bind. destruct (Z.eqb_spec (f c) (-1)) as [E|E].
  - apply wp_bind. eapply wp_mono; [by apply (wp_ask f setf ask (fun _ => True) P s c cs s c cs)|].
    intros r s1 H. eapply wp_mono; [exact H|]. intros _ s2 (Hg & c2 & cs2 & Hs2 & Hr).
    apply wp_bind. eapply wp_cur; [done|]. apply wp_ret. split; [done|]. eauto.
  - apply wp_ret. apply wp_bind. eapply wp_cur; [done|]. apply wp_ret. split; [done|]. eauto.
Qed.

(** The shape of the capabilities that depend on another one. *)
Lemma wp_dependent_cap f setf (ask inner : M W Z) fi (no : Z -> bool) pre P s c cs :
  fills f setf P -> answers ask pre P -> P 0 ->
  (forall s c cs, s_ctx s = c :: cs -> cap_ok c -> wp inner (asked fi s) s) ->
  (forall c r, cap_ok c -> r = -1 \/ fi c = r ->
     if no r then r = -1 \/ r = 0 else pre c) ->
  s_ctx s = c :: cs -> cap_ok c ->
  wp (c ← check_connected;
      if f c =? -1 then
        r ← inner;
        if no r then upd (setf 0);; mret r
        else r ← ask; upd (setf r);; mret r
      else mret (f c)) (asked f s) s.
Proof.
  intros Hf Ha HP0 Hin Hno Hs Hc. apply wp_bind. eapply wp_check_cap_ok; [done..|].
  destruct (Z.eqb_spec (f c) (-1)) as [E|E].
  - apply wp_bind. eapply wp_mono; [by eapply Hin|].
    intros r s1 (Hg & c1 & cs1 & Hs1 & Hr). destruct (proj2 (proj2 Hg) _ _ Hs Hc)
      as (c1' & cs1' & Hs1' & He & Hok). rewrite Hs1 in Hs1'. simplify_eq.
    specialize (Hno c1' r Hok Hr). destruct (no r).
    + assert (H0 : answers (W:=W) (mret 0) (fun _ => True) P)
        by (intros ? ? ? _ _ _; by apply wp_ret).
      pose proof (wp_ask f setf _ _ P s c cs s1 c1' cs1' Hf H0 I Hs E Hg Hs1 He Hok) as H.
      apply wp_ret in H. apply wp_bind. eapply wp_mono; [exact H|].
      intros _ s2 (Hg2 & c2 & cs2 & Hs2 & Hr2). apply wp_ret. split; [done|].
      exists c2, cs2. split; [done|]. destruct Hno; [by left|right; congruence].
    + apply wp_bind. eapply wp_mono; [by apply (wp_ask f setf ask pre P s c cs s1 c1' cs1')|].
      intros r2 s2 H. apply wp_bind. eapply wp_mono; [exact H|].
      intros _ s3 (Hg2 & c2 & cs2 & Hs2 & Hr2). apply wp_ret. split; [done|]. eauto.
  - apply wp_ret. split; [done|]. eauto.
Qed.

Ltac fills :=
  split; [done|]; intros r c c1 HP Hu He Hc;
  destruct He, Hc; unfold keeps in *;
  (split; split; simpl; try done; unfold keeps; simpl; auto; lia).

Lemma fills_can_write : fills c_can_write ctx_can_write tri.
Proof. fills. Qed.
Lemma fills_can_flush : fills c_can_flush ctx_can_flush tri.
Proof. fills. Qed.
Lemma fills_is_rotational : fills c_is_rotational ctx_is_rotational tri.
Proof. fills. Qed.
Lemma fills_can_trim : fills c_can_trim ctx_can_trim tri.
Proof. fills. Qed.
Lemma fills_can_zero : fills c_can_zero ctx_can_zero quad.
Proof. fills. Qed.
Lemma fills_can_fast_zero : fills c_can_fast_zero ctx_can_fast_zero tri.
Proof. fills. Qed.
Lemma fills_can_fua : fills c_can_fua ctx_can_fua quad.
Proof. fills. Qed.
Lemma fills_can_multi_conn : fills c_can_multi_conn ctx_can_multi_conn tri.
Proof. fills. Qed.
Lemma fills_can_extents : fills c_can_extents ctx_can_extents tri.
Proof. fills. Qed.
Lemma fills_can_cache : fills c_can_cache ctx_can_cache quad.
Proof. fills. Qed.

Context `{!CapContract b}.

Lemma wp_backend_can_write s c cs :
  s_ctx s = c :: cs -> cap_ok c -> wp (backend_can_write b) (asked c_can_write s) s.
Proof. eapply wp_simple_cap; [apply fills_can_write|apply cc_can_write]. Qed.

Lemma wp_backend_can_flush s c cs :
  s_ctx s = c :: cs -> cap_ok c -> wp (backend_can_flush b) (asked c_can_flush s) s.
Proof. eapply wp_simple_cap; [apply fills_can_flush|apply cc_can_flush]. Qed.

Lemma wp_backend_is_rotational s c cs :
  s_ctx s = c :: cs -> cap_ok c -> wp (backend_is_rotational b) (asked c_is_rotational s) s.
Proof. eapply wp_simple_cap; [apply fills_is_rotational|apply cc_is_rotational]. Qed.

Lemma wp_backend_can_extents s c cs :
  s_ctx s = c :: cs -> cap_ok c -> wp (backend_can_extents b) (asked c_can_extents s) s.
Proof. eapply wp_simple_cap; [apply fills_can_extents|apply cc_can_extents]. Qed.

Lemma wp_backend_can_multi_conn s c cs :
  s_ctx s = c :: cs -> cap_ok c -> wp (backend_can_multi_conn b) (asked c_can_multi_conn s) s.
Proof. eapply wp_simple_cap; [apply fills_can_multi_conn|apply cc_can_multi_conn]. Qed.

Lemma wp_backend_can_cache s c cs :
  s_ctx s = c :: cs -> cap_ok c -> wp (backend_can_cache b) (asked c_can_cache s) s.
Proof. eapply wp_simple_cap; [apply fills_can_cache|apply cc_can_cache]. Qed.

(** [r != 1] after asking for [can_write]. *)
Lemma not_writable c r :
  cap_ok c -> r = -1 \/ c_can_write c = r ->
  if negb (r =? 1) then r = -1 \/ r = 0 else True.
Proof.
  intros Hc Hr. destruct (Z.eqb_spec r 1); [done|]. simpl.
  destruct (co_can_write _ Hc) as [|[|]]; lia.
Qed.

Lemma wp_backend_can_trim s c cs :
  s_ctx s = c :: cs -> cap_ok c -> wp (backend_can_trim b) (asked c_can_trim s) s.
Proof.
  eapply (wp_dependent_cap c_can_trim ctx_can_trim _ _ c_can_write (fun r => negb (r =? 1)));
    [apply fills_can_trim|apply cc_can_trim|by right; left|apply wp_backend_can_write|
     apply not_writable].
Qed.

Lemma wp_backend_can_zero s c cs :
  s_ctx s = c :: cs -> cap_ok c -> wp (backend_can_zero b) (asked c_can_zero s) s.
Proof.
  eapply (wp_dependent_cap c_can_zero ctx_can_zero _ _ c_can_write (fun r => negb (r =? 1)));
    [apply fills_can_zero|apply cc_can_zero|done|apply wp_backend_can_write|
     apply not_writable].
Qed.

Lemma wp_backend_can_fua s c cs :
  s_ctx s = c :: cs -> cap_ok c -> wp (backend_can_fua b) (asked c_can_fua s) s.
Proof.
  eapply (wp_dependent_cap c_can_fua ctx_can_fua _ _ c_can_write (fun r => negb (r =? 1)));
    [apply fills_can_fua|apply cc_can_fua|done|apply wp_backend_can_write|
     apply not_writable].
Qed.

Lemma wp_backend_can_fast_zero s c cs :
  s_ctx s = c :: cs -> cap_ok c -> wp (backend_can_fast_zero b) (asked c_can_fast_zero s) s.
Proof.
  eapply (wp_dependent_cap c_can_fast_zero ctx_can_fast_zero _ _ c_can_zero
    (fun r => r <? NBDKIT_ZERO_EMULATE) (fun c => 1 <= c_can_zero c));
    [apply fills_can_fast_zero|apply cc_can_fast_zero|by right; left|
     apply wp_backend_can_zero|].
  intros c0 r Hc Hr. pose proof (co_can_zero _ Hc) as Hz. unfold quad in Hz.
  destruct (Z.ltb_spec r NBDKIT_ZERO_EMULATE); unfold NBDKIT_ZERO_EMULATE in *; lia.
Qed.

(** The size: known afterwards, unless the callback answered -1. *)
Lemma wp_backend_get_size s c cs :
  s_ctx s = c :: cs -> cap_ok c ->
  wp (backend_get_size b) (fun r s' => grows s s' /\
    exists c' cs', s_ctx s' = c' :: cs' /\ r = i64 (c_exportsize c')) s.
Proof.
  intros Hs Hc. unfold backend_get_size. apply wp_bind. eapply wp_check_cap_ok; [done..|].
  apply wp_bind. destruct (Z.eqb_spec (c_exportsize c) UINT64_MAX) as [E|E].
  - apply wp_bind. eapply wp_mono; [by eapply cc_get_size|].
    intros r s1 [Hfr Hr]. destruct (frame_ctx _ _ _ _ Hfr Hs) as [cs1 Hs1].
    eapply wp_upd; [done|]. apply wp_bind. eapply wp_cur; [done|]. apply wp_ret.
    split; [|by simpl; eauto]. pose proof (u64_range r).
    pose proof (grows_upd s s1 c cs (ctx_exportsize (u64 r) c) Hfr Hs) as Hg.
    rewrite Hs1 in Hg. apply Hg; destruct Hc; split; simpl; try done; by (left + right).
  - apply wp_ret. apply wp_bind. eapply wp_cur; [done|]. apply wp_ret. split; [done|]. eauto.
Qed.

Lemma wp_backend_export_description s c cs :
  s_ctx s = c :: cs -> cap_ok c ->
  wp (backend_export_description b) (fun r s' => grows s s' /\
    forall n, r = Some n -> strlen n <= NBD_MAX_STRING) s.
Proof.
  intros Hs Hc. unfold backend_export_description. apply wp_bind.
  eapply wp_check_cap_ok; [done..|]. apply wp_bind.
  eapply wp_mono; [by eapply cc_export_description|]. intros r s1 Hf. apply wp_ret.
  split; [by apply frame_grows|]. intros n. destruct r as [r|]; [|done].
  destruct (Z.ltb_spec NBD_MAX_STRING (strlen r)); [done|]. by intros [= <-].
Qed.

Lemma wp_backend_block_size s c cs :
  s_ctx s = c :: cs -> cap_ok c ->
  wp (backend_block_size b) (fun _ s' => grows s s') s.
Proof.
  intros Hs Hc. unfold backend_block_size. apply wp_bind.
  eapply wp_check_cap_ok; [done..|]. destruct (negb _); [by apply wp_ret|]. apply wp_bind.
  eapply wp_mono; [by eapply cc_block_size|]. intros [r [[mi pr] ma]] s1 (Hf & ? & ? & ?).
  destruct (frame_ctx _ _ _ _ Hf Hs) as [cs1 Hs1]. apply wp_bind.
  destruct (r =? 0); [|by apply wp_ret, wp_ret, frame_grows].
  eapply wp_upd; [done|]. apply wp_ret.
  pose proof (grows_upd s s1 c cs (ctx_block_size mi pr ma c) Hf Hs) as Hg.
  rewrite Hs1 in Hg. apply Hg; destruct Hc; split; simpl; try done; by right.
Qed.
End Capabilities.

(** ** A RAM disk

    A concrete backend of [size] bytes: the contract can be met, and the
    witnesses below run on it. *)

Section Ram.
Context (size : Z).

Definition ram_read (w : Z -> Z) (count offset : Z) : list Z := w <$> seqZ offset count.

Definition ram_write (w : Z -> Z) (buf : list Z) (offset : Z) : Z -> Z := fun x =>
  if ((offset <=? x) && (x <? offset + Z.of_nat (length buf)))%bool
  then nth (Z.to_nat (x - offset)) buf 0 else w x.

Definition ram_backend : backend (Z -> Z) :=
  Backend 0
    (fun _ _ exps => mret (0, nbdkit_use_default_export exps))
    (fun _ _ => mret (Some []))
    (fun _ _ _ => mret 1) (fun _ => mret 0) (mret 0) (mret tt)
    (mret None) (mret size) (mret (0, (0, 0, 0)))
    (mret 1) (mret 1) (mret 0) (mret 1) (mret NBDKIT_ZERO_EMULATE) (mret 0)
    (mret 0) (mret NBDKIT_FUA_NATIVE) (mret 1) (mret NBDKIT_CACHE_EMULATE)
    (fun count offset _ err => w ← gets s_world; mret (0, err, ram_read w count offset))
    (fun buf _ offset _ err =>
       modify (fun s => set_world (ram_write (s_world s) buf offset) s);; mret (0, err))
    (fun _ err => mret (0, err)) (fun _ _ _ err => mret (0, err))
    (fun _ _ _ err => mret (0, err))
    (fun count offset _ exts err =>
       let '(r, exts) := nbdkit_add_extent exts offset count 0 in
       mret (match x_extents exts with [] => -1 | _ => 0 end,
             match x_extents exts with [] => EIO | _ => err end, exts))
    (fun _ _ _ err => mret (0, err)).

#[export] Instance ram_data_contract : DataContract ram_backend.
Proof.
  assert (Hok : forall err, err_ok err -> fails_with_errno 0 err) by auto with nbdkit.
  assert (Hdone : forall (s : st (Z -> Z)) err, err_ok err -> wp (mret (0, err))
    (fun '(r, err') s' => frame s s' /\ fails_with_errno r err') s)
    by (intros s err He; apply wp_ret; split; [done|by apply Hok]).
  split; try (intros; by apply Hdone).
  - intros count offset flags err s c cs _ _ He _. simpl. apply wp_bind, wp_gets, wp_ret.
    split; [done|]. split; [auto|]. intros _. unfold ram_read.
    by rewrite length_fmap, length_seqZ.
  - intros buf count offset flags err s c cs _ _ He _. apply wp_bind, wp_modify, wp_ret.
    split; [done|by apply Hok].
  - intros count offset flags s c cs _ _ _ _ _. apply wp_ret.
    split; [done|]. split; [apply Hok, err_ok_0|done].
  - intros count offset flags exts err s c cs _ Hp He Hv Ho Hc. simpl.
    apply valid_range_bounds in Hv; [|done..|by apply pr_size].
    destruct (nbdkit_add_extent _ _ _ _) as [r x] eqn:E. apply wp_ret.
    split; [done|].
    split; [destruct (x_extents x); [split; [unfold err_ok, EIO, INT32_MAX; lia|done]|auto]|].
    split; [|by destruct (x_extents x)].
    eapply rtc_once. exists offset, count, 0. rewrite E. split; [|done].
    unfold add_ok. destruct (pr_size _ Hp). lia.
Qed.

Lemma ram_cap_contract : 0 <= size <= INT64_MAX -> CapContract ram_backend.
Proof.
  intros Hsize.
  split; try (intros s c cs _ _ _; apply wp_ret; split; [done|];
    unfold tri, quad, NBDKIT_ZERO_EMULATE, NBDKIT_FUA_NATIVE, NBDKIT_CACHE_EMULATE;
    limits; simpl; lia).
  - intros s c cs _ _. apply wp_ret. split; [done|]. limits. lia.
  - intros s c cs _ _. by apply wp_ret.
Qed.
End Ram.

#[export] Instance ram_1M_cap_contract : CapContract (ram_backend 1048576).
Proof. apply ram_cap_contract. unfold INT64_MAX. lia. Qed.

(** ** Capability properties *)

Definition capabilities {W} (b : backend W) : list (M W Z) :=
  [backend_can_write b; backend_can_flush b; backend_is_rotational b; backend_can_trim b;
   backend_can_zero b; backend_can_fast_zero b; backend_can_extents b; backend_can_fua b;
   backend_can_multi_conn b; backend_can_cache b].

Section CapabilityProperties.
Context {W : Type} (b : backend W).
Implicit Types (s : st W) (c : context).

(** The answer of a known capability comes from the cache. *)
Lemma known_capability (f : context -> Z) (m : M W Z) s c cs :
  (forall s c cs, s_ctx s = c :: cs -> cap_ok c -> wp m (asked f s) s) ->
  (forall s c cs, s_ctx s = c :: cs -> cap_ok c -> f c <> -1 -> m s = Ok (f c, s)) ->
  s_ctx s = c :: cs -> cap_ok c ->
  wp m (fun r s' => r <> -1 -> m s' = Ok (r, s')) s.
Proof.
  intros Hask Hknown Hs Hc. eapply wp_mono; [by eapply Hask|].
  intros r s' (Hg & c' & cs' & Hs' & Hr) Hne. destruct Hr as [|Hr]; [done|].
  destruct (proj2 (proj2 Hg) _ _ Hs Hc) as (c2 & cs2 & Hs2 & _ & Hok).
  rewrite Hs' in Hs2. simplify_eq. by eapply Hknown.
Qed.

Lemma check_connected_run s c cs :
  s_ctx s = c :: cs -> cap_ok c -> check_connected s = Ok (c, s).
Proof.
  intros Hs Hc. unfold check_connected, cur. unfold_m. rewrite Hs.
  rewrite (co_connected _ Hc), andb_true_r.
  by rewrite (proj2 (Z.eqb_neq (c_handle c) 0) (co_handle _ Hc)).
Qed.

Ltac known m :=
  intros s0 c0 cs0 Hs0 Hc0 Hne; unfold m, mbind, M_bind;
  rewrite (check_connected_run s0 c0 cs0 Hs0 Hc0);
  rewrite (proj2 (Z.eqb_neq _ (-1)) Hne); unfold cur, mret, M_ret; by rewrite ?Hs0.

(** Capabilities are asked for at most once: after a question that did
    not fail, asking again gives the same answer and touches neither the
    plugin nor the connection, whatever the plugin would now say. *)
Lemma capability_stable `{!CapContract b} s c cs :
  s_ctx s = c :: cs -> cap_ok c ->
  Forall (fun m => wp m (fun r s' => r <> -1 -> m s' = Ok (r, s')) s) (capabilities b).
Proof.
  intros Hs Hc. unfold capabilities. repeat constructor.
  - eapply (known_capability c_can_write); [by apply wp_backend_can_write| |done..].
    known @backend_can_write.
  - eapply (known_capability c_can_flush); [by apply wp_backend_can_flush| |done..].
    known @backend_can_flush.
  - eapply (known_capability c_is_rotational); [by apply wp_backend_is_rotational| |done..].
    known @backend_is_rotational.
  - eapply (known_capability c_can_trim); [by apply wp_backend_can_trim| |done..].
    known @backend_can_trim.
  - eapply (known_capability c_can_zero); [by apply wp_backend_can_zero| |done..].
    known @backend_can_zero.
  - eapply (known_capability c_can_fast_zero); [by apply wp_backend_can_fast_zero| |done..].
    known @backend_can_fast_zero.
  - eapply (known_capability c_can_extents); [by apply wp_backend_can_extents| |done..].
    known @backend_can_extents.
  - eapply (known_capability c_can_fua); [by apply wp_backend_can_fua| |done..].
    known @backend_can_fua.
  - eapply (known_capability c_can_multi_conn); [by apply wp_backend_can_multi_conn| |done..].
    known @backend_can_multi_conn.
  - eapply (known_capability c_can_cache); [by apply wp_backend_can_cache| |done..].
    known @backend_can_cache.
Qed.

(** On a read-only export (one opened with [readonly], or whose
    [.can_write] said no) trimming, zeroing and FUA are all answered
    "no" without asking the plugin. *)
Theorem readonly_capabilities s c cs :
  s_ctx s = c :: cs -> cap_ok c -> c_can_write c = 0 ->
  c_can_trim c <= 0 -> c_can_zero c <= 0 -> c_can_fast_zero c <= 0 -> c_can_fua c <= 0 ->
  Forall (fun m => exists s', m s = Ok (0, s') /\
            s_world s' = s_world s /\ s_thread s' = s_thread s /\ s_conn s' = s_conn s)
    [backend_can_write b; backend_can_trim b; backend_can_zero b;
     backend_can_fast_zero b; backend_can_fua b].
Proof.
  intros Hs Hc Hw Ht Hz Hfz Hfua. pose proof Hc as [_ _ _ _ _ _ Ct Cz Cfz Cf _ _ _].
  assert (Hcw : backend_can_write b s = Ok (0, s)).
  { unfold backend_can_write, mbind, M_bind. rewrite (check_connected_run s c cs Hs Hc), Hw.
    unfold mret, M_ret, cur. simpl. by rewrite Hs, Hw. }
  assert (Hcz : exists s', backend_can_zero b s = Ok (0, s') /\
            (s' = s \/ s' = set_ctx (ctx_can_zero 0 c :: cs) s)).
  { unfold backend_can_zero, mbind, M_bind. rewrite (check_connected_run s c cs Hs Hc).
    destruct (Z.eqb_spec (c_can_zero c) (-1)).
    - rewrite Hcw. simpl. unfold upd. rewrite Hs. eauto.
    - unfold mret, M_ret. unfold quad in Cz. replace (c_can_zero c) with 0 by lia. eauto. }
  repeat constructor.
  - eauto.
  - unfold backend_can_trim, mbind, M_bind. rewrite (check_connected_run s c cs Hs Hc).
    destruct (Z.eqb_spec (c_can_trim c) (-1)).
    + rewrite Hcw. simpl. unfold upd. rewrite Hs. eauto.
    + unfold mret, M_ret. unfold tri in Ct. replace (c_can_trim c) with 0 by lia. eauto.
  - destruct Hcz as (s' & -> & [->| ->]); eauto.
  - unfold backend_can_fast_zero, mbind, M_bind. rewrite (check_connected_run s c cs Hs Hc).
    destruct (Z.eqb_spec (c_can_fast_zero c) (-1)).
    + destruct Hcz as (s' & -> & [->| ->]); simpl; unfold upd; rewrite ?Hs; simpl; eauto.
    + unfold mret, M_ret. unfold tri in Cfz. replace (c_can_fast_zero c) with 0 by lia. eauto.
  - unfold backend_can_fua, mbind, M_bind. rewrite (check_connected_run s c cs Hs Hc).
    destruct (Z.eqb_spec (c_can_fua c) (-1)).
    + rewrite Hcw. simpl. unfold upd. rewrite Hs. eauto.
    + unfold mret, M_ret. unfold quad in Cf. replace (c_can_fua c) with 0 by lia. eauto.
Qed.
End CapabilityProperties.

Lemma readonly_context_ok : cap_ok (ctx_state 3 (ctx_handle 1 (new_context true))).
Proof. split; unfold tri, quad; simpl; limits; (done || lia). Qed.

Lemma capability_stable_witness :
  Forall (fun m => wp m (fun r s' => r <> -1 -> m s' = Ok (r, s'))
            (set_ctx [ctx_state 3 (ctx_handle 1 (new_context true))] (witness_state (fun _ => 0))))
    (capabilities (ram_backend 1048576)).
Proof.
  eapply capability_stable; [apply ram_1M_cap_contract|reflexivity|apply readonly_context_ok].
Defined.

Lemma readonly_capabilities_witness :
  Forall (fun m => exists s', m (set_ctx [ctx_state 3 (ctx_handle 1 (new_context true))]
              (witness_state (fun _ => 0))) = Ok (0, s') /\
            s_world s' = (fun _ => 0) /\ s_thread s' = witness_thread /\
            s_conn s' = witness_conn)
    [backend_can_write (ram_backend 1048576); backend_can_trim (ram_backend 1048576);
     backend_can_zero (ram_backend 1048576); backend_can_fast_zero (ram_backend 1048576);
     backend_can_fua (ram_backend 1048576)].
Proof.
  eapply (readonly_capabilities (ram_backend 1048576)
    (set_ctx [ctx_state 3 (ctx_handle 1 (new_context true))] (witness_state (fun _ => 0))));
    [reflexivity|apply readonly_context_ok|reflexivity|simpl; lia..].
Defined.
