(* ===== verification/Plugin.v ===== *)
(** * The plugin as a backend

    Models [server/plugins.c]: the functions that present a loaded
    [struct nbdkit_plugin] to the rest of the server as a [backend].  They
    supply the defaults of omitted callbacks, normalise results, emulate
    FUA with a flush and zeroing with writes, and choose the error number.

    The plugin itself is a parameter: [nbdkit_plugin] is its table of
    callbacks over an arbitrary state [W].  A callback sees the plugin's
    state and the thread's error fields ([nbdkit_set_error], [errno]) and
    nothing else of the server; it may crash. *)

From S2P Require Import Prelude NbdProtocol Extents Exports Server Connections Backend.

(** ** [struct nbdkit_plugin] *)

Definition cb (W A : Type) : Type := thread -> W -> outcome (A * thread * W).

Definition call {W A} (f : cb W A) : M W A := fun s =>
  match f (s_thread s) (s_world s) with
  | Ok (a, t, w) => Ok (a, St t w (s_conn s) (s_ctx s))
  | Crash c => Crash c
  end.

Record nbdkit_plugin {W : Type} : Type := Plugin {
  p_api_version : Z;
  p_errno_is_preserved : Z;
  p_list_exports : option (bool -> bool -> nbdkit_exports -> cb W (Z * nbdkit_exports));
  p_default_export : option (bool -> bool -> cb W (option (list Z)));
  p_open : bool -> cb W Z;
  p_close : option (Z -> cb W unit);
  p_export_description : option (Z -> cb W (option (list Z)));
  p_get_size : Z -> cb W Z;
  p_block_size : option (Z -> cb W (Z * (Z * Z * Z)));
  p_can_write : option (Z -> cb W Z);
  p_can_flush : option (Z -> cb W Z);
  p_is_rotational : option (Z -> cb W Z);
  p_can_trim : option (Z -> cb W Z);
  p_can_zero : option (Z -> cb W Z);
  p_can_fast_zero : option (Z -> cb W Z);
  p_can_extents : option (Z -> cb W Z);
  p_can_fua : option (Z -> cb W Z);
  p_can_multi_conn : option (Z -> cb W Z);
  p_can_cache : option (Z -> cb W Z);
  p_pread : option (Z -> Z -> Z -> Z -> cb W (Z * list Z));
  p_pread_v1 : option (Z -> Z -> Z -> cb W (Z * list Z));
  p_pwrite : option (Z -> list Z -> Z -> Z -> Z -> cb W Z);
  p_pwrite_v1 : option (Z -> list Z -> Z -> Z -> cb W Z);
  p_flush : option (Z -> Z -> cb W Z);
  p_flush_v1 : option (Z -> cb W Z);
  p_trim : option (Z -> Z -> Z -> Z -> cb W Z);
  p_trim_v1 : option (Z -> Z -> Z -> cb W Z);
  p_zero : option (Z -> Z -> Z -> Z -> cb W Z);
  p_zero_v1 : option (Z -> Z -> Z -> bool -> cb W Z);
  p_extents : option (Z -> Z -> Z -> Z -> nbdkit_extents -> cb W (Z * nbdkit_extents));
  p_cache : option (Z -> Z -> Z -> Z -> cb W Z);
}.
Arguments nbdkit_plugin : clear implicits.
Arguments Plugin {W}.

Section Plugin.
Context {W : Type} (p : nbdkit_plugin W).

(** [c->handle] *)
Definition handle : M W Z := c ← cur; mret (c_handle c).

(** Call a callback that takes only the handle. *)
Definition call_handle {A} (f : Z -> cb W A) : M W A := h ← handle; call (f h).

Definition is_some {A} (o : option A) : bool :=
  match o with Some _ => true | None => false end.

Definition b2z (b : bool) : Z := if b then 1 else 0.

(** ** Exports and handles *)

Definition plugin_list_exports (readonly is_tls : bool) (exps : nbdkit_exports)
    : M W (Z * nbdkit_exports) :=
  match p_list_exports p with
  | None => mret (0, nbdkit_use_default_export exps)
  | Some f => call (f readonly is_tls exps)
  end.

Definition plugin_default_export (readonly is_tls : bool) : M W (option (list Z)) :=
  match p_default_export p with
  | None => mret (Some [])
  | Some f => call (f readonly is_tls)
  end.

Definition plugin_open (readonly : bool) (exportname : list Z) (is_tls : bool) : M W Z :=
  k ← gets s_conn;
  cassert (match k_exportname k with None => true | Some _ => false end);;
  modify (set_conn (with_exportname (Some exportname)));;
  r ← call (p_open p readonly);
  (if r =? 0 then modify (set_conn (with_exportname None)) else mret tt);;
  mret r.

Definition plugin_prepare (readonly : bool) : M W Z := mret 0.

Definition plugin_finalize : M W Z := mret 0.

Definition plugin_close : M W unit :=
  h ← handle;
  cassert (negb (h =? 0));;
  (match p_close p with Some f => call (f h) | None => mret tt end);;
  modify (set_conn (with_exportname None)).

Definition plugin_export_description : M W (option (list Z)) :=
  match p_export_description p with
  | Some f => call_handle f
  | None => mret None
  end.

Definition plugin_get_size : M W Z := call_handle (p_get_size p).

Definition is_power_of_2 (v : Z) : bool :=
  (negb (v =? 0) && (Z.land v (v - 1) =? 0))%bool.

(** The first complaint [plugin_block_size] has about the plugin's answer. *)
Definition block_size_error (mi pr ma : Z) : option String.string :=
  if ((mi <? 1) || (65536 <? mi))%bool
  then Some "plugin must set minimum block size between 1 and 64K"%string
  else if negb (is_power_of_2 mi)
  then Some "plugin must set minimum block size to a power of 2"%string
  else if negb (is_power_of_2 pr)
  then Some "plugin must set preferred block size to a power of 2"%string
  else if ((pr <? 512) || (32 * 1024 * 1024 <? pr))%bool
  then Some "plugin must set preferred block size between 512 and 32M"%string
  else if (negb (ma =? UINT32_MAX) && negb (ma mod mi =? 0))%bool
  then Some "plugin must set maximum block size to -1 or a multiple of minimum block size"%string
  else if ((pr <? mi) || (ma <? pr))%bool
  then Some "plugin must set minimum block size <= preferred <= maximum"%string
  else None.

Definition plugin_block_size : M W (Z * (Z * Z * Z)) :=
  match p_block_size p with
  | Some f =>
      '(r, (mi, pr, ma)) ← call_handle f;
      if r =? -1 then mret (-1, (mi, pr, ma))
      else if ((mi =? 0) && (pr =? 0) && (ma =? 0))%bool then mret (0, (mi, pr, ma))
      else match block_size_error mi pr ma with
           | Some msg => nbdkit_error msg;; mret (-1, (mi, pr, ma))
           | None => mret (0, (mi, pr, ma))
           end
  | None => mret (0, (0, 0, 0))
  end.

(** ** Capabilities *)

Definition normalize_bool (value : Z) : Z :=
  if ((value =? -1) || (value =? 0))%bool then value else 1.

(** A boolean capability: the callback, or else a default. *)
Definition bool_capability (f : option (Z -> cb W Z)) (default : bool) : M W Z :=
  match f with
  | Some f => r ← call_handle f; mret (normalize_bool r)
  | None => mret (b2z default)
  end.

Definition plugin_can_write : M W Z :=
  bool_capability (p_can_write p) (is_some (p_pwrite p) || is_some (p_pwrite_v1 p)).

Definition plugin_can_flush : M W Z :=
  bool_capability (p_can_flush p) (is_some (p_flush p) || is_some (p_flush_v1 p)).

Definition plugin_is_rotational : M W Z := bool_capability (p_is_rotational p) false.

Definition plugin_can_trim : M W Z :=
  bool_capability (p_can_trim p) (is_some (p_trim p) || is_some (p_trim_v1 p)).

Definition plugin_can_zero : M W Z :=
  match p_can_zero p with
  | Some f =>
      r ← call_handle f;
      mret (if r =? -1 then -1
            else if negb (r =? 0) then NBDKIT_ZERO_NATIVE else NBDKIT_ZERO_EMULATE)
  | None =>
      mret (if (is_some (p_zero p) || is_some (p_zero_v1 p))%bool
            then NBDKIT_ZERO_NATIVE else NBDKIT_ZERO_EMULATE)
  end.

Definition plugin_can_extents : M W Z :=
  bool_capability (p_can_extents p) (is_some (p_extents p)).

Definition plugin_can_fua : M W Z :=
  match p_can_fua p with
  | Some f =>
      r ← call_handle f;
      mret (if ((NBDKIT_FUA_EMULATE <? r) && (p_api_version p =? 1))%bool
            then NBDKIT_FUA_EMULATE else r)
  | None =>
      mret (if (is_some (p_flush p) || is_some (p_flush_v1 p))%bool
            then NBDKIT_FUA_EMULATE else NBDKIT_FUA_NONE)
  end.

Definition plugin_can_multi_conn : M W Z := bool_capability (p_can_multi_conn p) false.

Definition plugin_can_cache : M W Z :=
  match p_can_cache p with
  | Some f => call_handle f
  | None => mret (if is_some (p_cache p) then NBDKIT_CACHE_NATIVE else NBDKIT_CACHE_NONE)
  end.

(** ** Errors *)

Definition get_errno : M W Z :=
  ret ← threadlocal_get_errno;
  e ← get_errno_c;
  let ret := if ((ret =? 0) && negb (p_errno_is_preserved p =? 0))%bool then e else ret in
  mret (if negb (ret =? 0) then ret else EIO).

(** [if (r == -1) *err = get_errno (p);] *)
Definition set_err_if_failed (r err : Z) : M W Z :=
  if r =? -1 then get_errno else mret err.

(** [if (r == -1 && !*err) *err = get_errno (p);] *)
Definition set_err_if_unset (r err : Z) : M W Z :=
  if ((r =? -1) && (err =? 0))%bool then get_errno else mret err.

(** ** Data requests *)

Definition plugin_pread (count offset flags err : Z) : M W (Z * Z * list Z) :=
  h ← handle;
  '(r, buf) ← (match p_pread p, p_pread_v1 p with
               | Some f, _ => call (f h count offset 0)
               | None, Some f => call (f h count offset)
               | None, None => fail AssertFailed
               end);
  err ← set_err_if_failed r err;
  mret (r, err, buf).

Definition plugin_flush (flags err : Z) : M W (Z * Z) :=
  h ← handle;
  match p_flush p, p_flush_v1 p with
  | None, None => mret (-1, EINVAL)
  | f, f1 =>
      r ← (match f, f1 with
           | Some f, _ => call (f h 0)
           | None, Some f => call (f h)
           | None, None => mret (-1)
           end);
      err ← set_err_if_failed r err;
      mret (r, err)
  end.

(** Does the request need an emulated FUA, and with which flags is it
    passed on: the first lines of [plugin_pwrite], [plugin_trim] and
    [plugin_zero]. *)
Definition emulate_fua (b : backend W) (flags : Z) : M W (Z * bool) :=
  if has flags NBDKIT_FLAG_FUA then
    r ← backend_can_fua b;
    mret (if negb (r =? NBDKIT_FUA_NATIVE) then (clear flags NBDKIT_FLAG_FUA, true)
          else (flags, false))
  else mret (flags, false).

(** [if (r != -1 && need_flush) r = plugin_flush (c, 0, err);
     if (r == -1 && !*err) *err = get_errno (p); return r;] *)
Definition flush_and_return (need_flush : bool) (r err : Z) : M W (Z * Z) :=
  '(r, err) ← (if (negb (r =? -1) && need_flush)%bool then plugin_flush 0 err
               else mret (r, err));
  err ← set_err_if_unset r err;
  mret (r, err).

Section Data.
Context (b : backend W).   (* c->b: the plugin's own backend *)

Definition plugin_pwrite (buf : list Z) (count offset flags err : Z) : M W (Z * Z) :=
  '(flags, need_flush) ← emulate_fua b flags;
  h ← handle;
  match p_pwrite p, p_pwrite_v1 p with
  | None, None => mret (-1, EROFS)
  | f, f1 =>
      r ← (match f, f1 with
           | Some f, _ => call (f h buf count offset flags)
           | None, Some f => call (f h buf count offset)
           | None, None => mret (-1)
           end);
      flush_and_return need_flush r err
  end.

Definition plugin_trim (count offset flags err : Z) : M W (Z * Z) :=
  '(flags, need_flush) ← emulate_fua b flags;
  h ← handle;
  match p_trim p, p_trim_v1 p with
  | None, None => mret (-1, EINVAL)
  | f, f1 =>
      r ← (match f, f1 with
           | Some f, _ => call (f h count offset flags)
           | None, Some f => call (f h count offset)
           | None, None => mret (-1)
           end);
      flush_and_return need_flush r err
  end.

(** The fallback loop of [plugin_zero].  As in the source, [offset] is the
    same in every iteration. *)
Fixpoint plugin_zero_loop (fuel : nat) (count offset flags r err : Z) : M W (Z * Z) :=
  if count =? 0 then mret (r, err)
  else match fuel with
  | O => fail OutOfFuel
  | S fuel =>
      let limit := Z.min count MAX_REQUEST_SIZE in
      '(r, err) ← plugin_pwrite (zeroes limit) limit offset flags err;
      if r =? -1 then mret (r, err)
      else plugin_zero_loop fuel (count - limit) offset flags r err
  end.

(** The attempt at the plugin's own [.zero]: [inl] returns from
    [plugin_zero] at once, [inr (r, err, done)] goes on, to the label
    [done] if [done] is set. *)
Definition plugin_zero_native (count offset flags err : Z) (may_trim fast_zero : bool)
    : M W ((Z * Z) + (Z * Z * bool)) :=
  set_errno 0;;
  h ← handle;
  match p_zero p, p_zero_v1 p, fast_zero with
  | None, Some _, true => mret (inl (-1, EOPNOTSUPP))
  | f, f1, _ =>
      r ← (match f, f1 with
           | Some f, _ => call (f h count offset flags)
           | None, Some f => call (f h count offset may_trim)
           | None, None => mret (-1)
           end);
      let emulate := match f, f1 with None, None => true | _, _ => false end in
      err ← (if r =? -1
             then (if emulate : bool then mret EOPNOTSUPP else get_errno)
             else mret err);
      mret (inr (r, err, ((r =? 0) ||
                          (negb (err =? EOPNOTSUPP) && negb (err =? ENOTSUP)))%bool))
  end.

Definition plugin_zero (count offset flags err : Z) : M W (Z * Z) :=
  let may_trim := has flags NBDKIT_FLAG_MAY_TRIM in
  let fast_zero := has flags NBDKIT_FLAG_FAST_ZERO in
  '(flags, need_flush) ← emulate_fua b flags;
  if count =? 0 then mret (0, err)
  else
    native ← backend_can_zero b;
    step ← (if native =? NBDKIT_ZERO_NATIVE
            then plugin_zero_native count offset flags err may_trim fast_zero
            else mret (inr (-1, err, false)));
    match step with
    | inl re => mret re
    | inr (r, err, true) => flush_and_return need_flush r err
    | inr (r, err, false) =>
        if fast_zero then
          cassert (r =? -1);;
          flush_and_return need_flush r EOPNOTSUPP
        else
          let flags := clear flags NBDKIT_FLAG_MAY_TRIM in
          threadlocal_set_errno 0;;
          '(r, err) ← plugin_zero_loop max_chunks count offset flags r 0;
          flush_and_return need_flush r err
    end.

Definition plugin_can_fast_zero : M W Z :=
  match p_can_fast_zero p with
  | Some f => r ← call_handle f; mret (normalize_bool r)
  | None =>
      match p_zero p with
      | None => mret 1
      | Some _ =>
          r ← backend_can_zero b;
          mret (if r =? -1 then -1 else b2z (r =? 0))
      end
  end.
End Data.

Definition plugin_extents (count offset flags : Z) (extents : nbdkit_extents) (err : Z)
    : M W (Z * Z * nbdkit_extents) :=
  match p_extents p with
  | None => mret (-1, EINVAL, extents)
  | Some f =>
      h ← handle;
      '(r, extents) ← call (f h count offset flags extents);
      r ← (if ((0 <=? r) && (nbdkit_extents_count extents <? 1))%bool
           then nbdkit_error "extents: plugin must return at least one extent"%string;;
                threadlocal_set_errno EINVAL;; mret (-1)
           else mret r);
      err ← set_err_if_failed r err;
      mret (r, err, extents)
  end.

Definition plugin_cache (count offset flags err : Z) : M W (Z * Z) :=
  match p_cache p with
  | None => mret (0, err)
  | Some f =>
      h ← handle;
      r ← call (f h count offset flags);
      err ← set_err_if_failed r err;
      mret (r, err)
  end.

(** ** The backend

    [plugin_functions].  The functions that consult the cached
    capabilities of their own context only use the capability fields of
    the table, so they are given a first table [plugin_caps] without
    them. *)
Definition plugin_caps : backend W :=
  Backend 0 plugin_list_exports plugin_default_export plugin_open plugin_prepare
    plugin_finalize plugin_close plugin_export_description plugin_get_size
    plugin_block_size plugin_can_write plugin_can_flush plugin_is_rotational
    plugin_can_trim plugin_can_zero (fail NullPointer) plugin_can_extents plugin_can_fua
    plugin_can_multi_conn plugin_can_cache plugin_pread
    (fun _ _ _ _ _ => fail NullPointer) plugin_flush (fun _ _ _ _ => fail NullPointer)
    (fun _ _ _ _ => fail NullPointer) plugin_extents plugin_cache.

Definition plugin_functions : backend W :=
  Backend 0 plugin_list_exports plugin_default_export plugin_open plugin_prepare
    plugin_finalize plugin_close plugin_export_description plugin_get_size
    plugin_block_size plugin_can_write plugin_can_flush plugin_is_rotational
    plugin_can_trim plugin_can_zero (plugin_can_fast_zero plugin_caps)
    plugin_can_extents plugin_can_fua plugin_can_multi_conn plugin_can_cache plugin_pread
    (plugin_pwrite plugin_caps) plugin_flush (plugin_trim plugin_caps)
    (plugin_zero plugin_caps) plugin_extents plugin_cache.
End Plugin.

#[global] Arguments plugin_zero_loop : simpl never.

(** ** Laws of a plugin

    What [docs/nbdkit-plugin.pod] asks of the callbacks, as far as the
    server depends on it. *)

(** The callback returns, with a result and error fields in [P]. *)
Definition cb_post {W A} (f : cb W A) (P : thread -> A -> thread -> Prop) : Prop :=
  forall t w, match f t w with Ok (a, t', _) => P t a t' | Crash _ => False end.

(** The callback answers a value in [P]. *)
Definition cb_answers {W A} (f : cb W A) (P : A -> Prop) : Prop := cb_post f (fun _ a _ => P a).

(** The callback does not crash. *)
Definition cb_runs {W A} (f : cb W A) : Prop := cb_answers f (fun _ => True).

(** A failing callback does not report [ENOTSUP]. *)
Definition cb_supported {W} (f : cb W Z) : Prop :=
  cb_post f (fun t r t' => t_err t <> ENOTSUP ->
    t_err t' <> ENOTSUP /\ (r = -1 -> t_errno t' <> ENOTSUP)).

(** After a failing callback the error fields are error numbers or 0. *)
Definition thread_ok (t : thread) : Prop := err_ok (t_err t) /\ err_ok (t_errno t).

Definition cb_errno {W A} (ret : A -> Z) (f : cb W A) : Prop :=
  cb_post f (fun _ a t' => ret a = -1 -> thread_ok t').

(** A callback that succeeds leaves no [ENOTSUP] behind. *)
Definition cb_quiet {W} (f : cb W Z) : Prop :=
  cb_post f (fun t r t' => r <> -1 -> t_err t <> ENOTSUP -> t_err t' <> ENOTSUP).

Class PluginLaws {W} (p : nbdkit_plugin W) : Prop := {
  pl_open readonly : cb_runs (p_open p readonly);
  pl_close f h : p_close p = Some f -> cb_runs (f h);
  pl_default_export f readonly tls : p_default_export p = Some f -> cb_runs (f readonly tls);
  pl_export_description f h : p_export_description p = Some f -> cb_runs (f h);
  pl_capabilities f h :
    Some f ∈ [p_can_write p; p_can_flush p; p_is_rotational p; p_can_trim p; p_can_zero p;
              p_can_fast_zero p; p_can_extents p; p_can_multi_conn p] -> cb_runs (f h);
  pl_get_size h : cb_answers (p_get_size p h) (fun r => - INT64_MAX - 1 <= r <= INT64_MAX);
  pl_block_size f h : p_block_size p = Some f ->
    cb_answers (f h) (fun '(_, (mi, pr, ma)) =>
      0 <= mi <= UINT32_MAX /\ 0 <= pr <= UINT32_MAX /\ 0 <= ma <= UINT32_MAX);
  pl_can_fua f h : p_can_fua p = Some f -> cb_answers (f h) quad;
  pl_can_cache f h : p_can_cache p = Some f -> cb_answers (f h) quad;
  (* .pread is mandatory; it fills the server's buffer of [count] bytes *)
  pl_pread : is_some (p_pread p) || is_some (p_pread_v1 p) = true;
  pl_pread_buf f h count offset flags : p_pread p = Some f ->
    cb_answers (f h count offset flags) (fun '(_, buf) => length buf = Z.to_nat count);
  pl_pread_v1_buf f h count offset : p_pread_v1 p = Some f ->
    cb_answers (f h count offset) (fun '(_, buf) => length buf = Z.to_nat count);
  pl_pread_errno f h count offset flags : p_pread p = Some f ->
    cb_errno fst (f h count offset flags);
  pl_pread_v1_errno f h count offset : p_pread_v1 p = Some f ->
    cb_errno fst (f h count offset);
  pl_pwrite_errno f h buf count offset flags : p_pwrite p = Some f ->
    cb_errno id (f h buf count offset flags);
  pl_pwrite_v1_errno f h buf count offset : p_pwrite_v1 p = Some f ->
    cb_errno id (f h buf count offset);
  pl_flush_errno f h flags : p_flush p = Some f -> cb_errno id (f h flags);
  pl_flush_v1_errno f h : p_flush_v1 p = Some f -> cb_errno id (f h);
  pl_trim_errno f h count offset flags : p_trim p = Some f ->
    cb_errno id (f h count offset flags);
  pl_trim_v1_errno f h count offset : p_trim_v1 p = Some f -> cb_errno id (f h count offset);
  pl_zero_errno f h count offset flags : p_zero p = Some f ->
    cb_errno id (f h count offset flags);
  pl_zero_v1_errno f h count offset may_trim : p_zero_v1 p = Some f ->
    cb_errno id (f h count offset may_trim);
  pl_extents_errno f h count offset flags exts : p_extents p = Some f ->
    cb_errno fst (f h count offset flags exts);
  pl_cache_errno f h count offset flags : p_cache p = Some f ->
    cb_errno id (f h count offset flags);
  pl_pwrite f h buf count offset flags : p_pwrite p = Some f ->
    cb_supported (f h buf count offset flags);
  pl_pwrite_v1 f h buf count offset : p_pwrite_v1 p = Some f ->
    cb_supported (f h buf count offset);
  pl_flush f h flags : p_flush p = Some f -> cb_supported (f h flags);
  pl_flush_v1 f h : p_flush_v1 p = Some f -> cb_supported (f h);
  pl_zero f h count offset flags : p_zero p = Some f -> cb_quiet (f h count offset flags);
  pl_zero_v1 f h count offset may_trim : p_zero_v1 p = Some f ->
    cb_quiet (f h count offset may_trim);
  (* .extents changes the list only through nbdkit_add_extent *)
  pl_extents f h count offset flags exts : p_extents p = Some f ->
    cb_answers (f h count offset flags exts) (fun '(r, exts') => -1 <= r /\ exts_reach exts exts');
}.

(** ** The plugin meets the contract of a backend *)

Section Contract.
Context {W : Type} (p : nbdkit_plugin W).
Implicit Types (s : st W) (c : context).

Lemma wp_call {A} (f : cb W A) P (Q : A -> st W -> Prop) s :
  cb_post f P ->
  (forall a t w, f (s_thread s) (s_world s) = Ok (a, t, w) -> P (s_thread s) a t ->
     Q a (St t w (s_conn s) (s_ctx s))) ->
  wp (call f) Q s.
Proof.
  intros Hf H. specialize (Hf (s_thread s) (s_world s)). unfold wp, call.
  destruct (f (s_thread s) (s_world s)) as [[[a t] w]|] eqn:E; [|done]. by apply H.
Qed.

Lemma frame_call s t w : frame s (St t w (s_conn s) (s_ctx s)).
Proof. done. Qed.

(** A call of a callback of whose answer [P] is known. *)
Lemma wp_call_answers {A} (f : cb W A) (P : A -> Prop) s :
  cb_answers f P -> wp (call f) (fun a s' => frame s s' /\ P a) s.
Proof.
  intros H. by apply (wp_call f _ _ s H).
Qed.

Lemma wp_handle Q s c cs : s_ctx s = c :: cs -> Q (c_handle c) s -> wp (handle (W:=W)) Q s.
Proof. intros H HQ. unfold handle. apply wp_bind. by eapply wp_cur. Qed.

(** An error number is never zero. *)
Lemma wp_get_errno s :
  wp (get_errno p) (fun e s' => s' = s /\ e <> 0 /\ (thread_ok (s_thread s) -> err_ok e) /\
    (t_err (s_thread s) <> ENOTSUP -> t_errno (s_thread s) <> ENOTSUP -> e <> ENOTSUP)) s.
Proof.
  unfold get_errno. apply wp_bind, wp_gets, wp_bind, wp_gets, wp_ret. split; [done|].
  unfold thread_ok, err_ok, INT32_MAX.
  destruct (Z.eqb_spec (t_err (s_thread s)) 0), (p_errno_is_preserved p =? 0); simpl;
    repeat case_match; simpl in *; unfold EIO, ENOTSUP in *; repeat split; (lia || auto).
Qed.

Lemma wp_set_err_if_failed r err s :
  err_ok err -> (r = -1 -> thread_ok (s_thread s)) ->
  wp (set_err_if_failed p r err) (fun e s' => s' = s /\ fails_with_errno r e) s.
Proof.
  intros He Ht. unfold set_err_if_failed. destruct (Z.eqb_spec r (-1)).
  - eapply wp_mono; [apply wp_get_errno|]. intros e' s' (-> & ? & ? & _).
    split; [done|]. split; auto.
  - apply wp_ret. split; [done|]. by split.
Qed.

(** Whatever the error fields hold, looking at them changes nothing. *)
Lemma wp_set_err_if_failed_state r err s :
  wp (set_err_if_failed p r err) (fun _ s' => s' = s) s.
Proof.
  unfold set_err_if_failed. destruct (r =? -1); [|by apply wp_ret].
  eapply wp_mono; [apply wp_get_errno|]. by intros e s' [-> _].
Qed.

Lemma wp_set_err_if_unset_state r err s :
  wp (set_err_if_unset p r err) (fun _ s' => s' = s) s.
Proof.
  unfold set_err_if_unset. destruct (_ && _)%bool; [|by apply wp_ret].
  eapply wp_mono; [apply wp_get_errno|]. by intros e s' [-> _].
Qed.

Lemma wp_set_err_if_unset r err s :
  err_ok err -> (r = -1 -> err = 0 -> thread_ok (s_thread s)) ->
  wp (set_err_if_unset p r err) (fun e s' => s' = s /\ fails_with_errno r e /\
    (err <> ENOTSUP -> (r = -1 -> err = 0 -> t_err (s_thread s) <> ENOTSUP /\
       t_errno (s_thread s) <> ENOTSUP) -> e <> ENOTSUP)) s.
Proof.
  intros He Ht. unfold set_err_if_unset. destruct (Z.eqb_spec r (-1)); simpl.
  - destruct (Z.eqb_spec err 0).
    + eapply wp_mono; [apply wp_get_errno|]. intros e' s' (-> & ? & ? & H).
      split; [done|]. split; [split; auto|]. intros _ Hn. apply H; by apply Hn.
    + apply wp_ret. split; [done|]. split; [by split|]. auto.
  - apply wp_ret. split; [done|]. split; [by split|]. auto.
Qed.

(** [backend_can_fua] and [backend_can_zero] on a primed context. *)
Lemma known_can_fua b s c cs :
  s_ctx s = c :: cs -> primed c -> backend_can_fua b s = Ok (c_can_fua c, s).
Proof.
  intros Hs Hp. pose proof (pr_can_fua _ Hp). unfold backend_can_fua, check_connected, cur.
  unfold_m. rewrite Hs, (pr_connected _ Hp), andb_true_r.
  rewrite (proj2 (Z.eqb_neq (c_handle c) 0) (pr_handle _ Hp)). simpl.
  by rewrite (proj2 (Z.eqb_neq (c_can_fua c) (-1)) ltac:(lia)).
Qed.

Lemma known_can_zero b s c cs :
  s_ctx s = c :: cs -> primed c -> backend_can_zero b s = Ok (c_can_zero c, s).
Proof.
  intros Hs Hp. pose proof (pr_can_zero _ Hp). unfold backend_can_zero, check_connected, cur.
  unfold_m. rewrite Hs, (pr_connected _ Hp), andb_true_r.
  rewrite (proj2 (Z.eqb_neq (c_handle c) 0) (pr_handle _ Hp)). simpl.
  by rewrite (proj2 (Z.eqb_neq (c_can_zero c) (-1)) ltac:(lia)).
Qed.

Lemma wp_emulate_fua b flags Q s c cs :
  s_ctx s = c :: cs -> primed c ->
  Q (if (has flags NBDKIT_FLAG_FUA && negb (c_can_fua c =? NBDKIT_FUA_NATIVE))%bool
     then (clear flags NBDKIT_FLAG_FUA, true) else (flags, false)) s ->
  wp (emulate_fua b flags) Q s.
Proof.
  intros Hs Hp HQ. unfold emulate_fua. destruct (has flags NBDKIT_FLAG_FUA); [|done].
  apply wp_bind. eapply wp_intro; [by eapply known_can_fua|]. apply wp_ret.
  by destruct (c_can_fua c =? NBDKIT_FUA_NATIVE).
Qed.

(** How a data callback ends: the server's state is untouched, a failure
    has an error number, and [ENOTSUP] does not appear out of nowhere. *)
Record data_step s (err : Z) (re : Z * Z) s' : Prop := DataStep {
  ds_frame : frame s s';
  ds_errno : fails_with_errno re.1 re.2;
  ds_supported : t_err (s_thread s) <> ENOTSUP -> err <> ENOTSUP ->
    (re.1 <> -1 -> t_err (s_thread s') <> ENOTSUP) /\ re.2 <> ENOTSUP;
}.

Context `{!PluginLaws p}.

(** A call of a supported callback, and what [get_errno] will say. *)
Lemma wp_call_supported (f : cb W Z) s :
  cb_supported f -> cb_errno id f ->
  wp (call f) (fun r s' => frame s s' /\ (r = -1 -> thread_ok (s_thread s')) /\
    (t_err (s_thread s) <> ENOTSUP -> t_err (s_thread s') <> ENOTSUP /\
       (r = -1 -> t_errno (s_thread s') <> ENOTSUP))) s.
Proof.
  intros H H'. apply (wp_call f _ _ s H). intros r t w E Hr. split; [done|].
  specialize (H' (s_thread s) (s_world s)). by rewrite E in H'.
Qed.

(** A call of a callback of which only [cb_errno] is known. *)
Lemma wp_call_thread {A} (ret : A -> Z) (f : cb W A) s :
  cb_errno ret f ->
  wp (call f) (fun a s' => frame s s' /\ (ret a = -1 -> thread_ok (s_thread s'))) s.
Proof.
  intros H. by apply (wp_call f _ _ s H).
Qed.

(** [r = callback (...); if (r == -1) *err = get_errno (p); return r;] *)
Lemma wp_call_data (f : cb W Z) err s :
  cb_supported f -> cb_errno id f -> err_ok err ->
  wp (r ← call f; err ← set_err_if_failed p r err; mret (r, err)) (data_step s err) s.
Proof.
  intros Hf Hf' Herr. apply wp_bind. eapply wp_mono; [by apply wp_call_supported|].
  intros r s1 (Hfr & Ht & Hs). apply wp_bind. unfold set_err_if_failed.
  destruct (Z.eqb_spec r (-1)) as [->|Hr].
  - eapply wp_mono; [apply wp_get_errno|]. intros e s2 (-> & He & Hok & Hne). apply wp_ret.
    split; [done|split; auto|]. intros H1 _. destruct (Hs H1). auto.
  - apply wp_ret, wp_ret. split; [done|by split|]. intros H1 H2. by destruct (Hs H1).
Qed.

Lemma wp_plugin_flush flags err s c cs :
  s_ctx s = c :: cs -> err_ok err -> wp (plugin_flush p flags err) (data_step s err) s.
Proof.
  intros Hs Herr. unfold plugin_flush. apply wp_bind. eapply wp_handle; [done|].
  destruct (p_flush p) as [f|] eqn:E; [|destruct (p_flush_v1 p) as [f|] eqn:E1].
  - apply wp_call_data; [by eapply pl_flush|by eapply pl_flush_errno|done].
  - apply wp_call_data; [by eapply pl_flush_v1|by eapply pl_flush_v1_errno|done].
  - apply wp_ret. split; [done|by apply fails_const|done].
Qed.

Lemma wp_flush_and_return need_flush r err s0 err0 s c cs :
  s_ctx s0 = c :: cs -> frame s0 s -> err_ok err ->
  (r = -1 -> err = 0 -> thread_ok (s_thread s)) ->
  (t_err (s_thread s0) <> ENOTSUP -> err0 <> ENOTSUP ->
   (r <> -1 -> t_err (s_thread s) <> ENOTSUP) /\ err <> ENOTSUP /\
   (r = -1 -> err = 0 -> t_err (s_thread s) <> ENOTSUP /\ t_errno (s_thread s) <> ENOTSUP)) ->
  wp (flush_and_return p need_flush r err) (data_step s0 err0) s.
Proof.
  intros Hs0 Hfr Herr Hthr Hsup. destruct (frame_ctx _ _ _ _ Hfr Hs0) as [cs1 Hs1].
  unfold flush_and_return. apply wp_bind.
  assert (Hend : wp (err ← set_err_if_unset p r err; mret (r, err)) (data_step s0 err0) s).
  { apply wp_bind. eapply wp_mono; [by apply wp_set_err_if_unset|].
    intros e s' (-> & He & Hne). apply wp_ret. split; [done|done|].
    intros H1 H2. destruct (Hsup H1 H2) as (? & ? & ?). split; [done|]. auto. }
  destruct (Z.eqb_spec r (-1)) as [Hr|Hr]; [|destruct need_flush]; simpl;
    [by apply wp_ret| |by apply wp_ret].
  eapply wp_mono; [by eapply wp_plugin_flush|]. intros [r1 e1] s1 [Hfr1 [He1 He1'] Hs]; simpl in *.
  assert (Hst : data_step s0 err0 (r1, e1) s1).
  { split; [by etrans|by split|]. intros H1 H2. destruct (Hsup H1 H2) as (? & ? & ?). auto. }
  apply wp_bind. unfold set_err_if_unset. destruct (Z.eqb_spec r1 (-1)) as [->|]; simpl;
    [rewrite (proj2 (Z.eqb_neq e1 0) (He1' eq_refl))|]; by apply wp_ret, wp_ret.
Qed.

Lemma wp_plugin_pwrite b buf count offset flags err s c cs :
  s_ctx s = c :: cs -> primed c -> err_ok err ->
  wp (plugin_pwrite p b buf count offset flags err) (data_step s err) s.
Proof.
  intros Hs Hp Herr. unfold plugin_pwrite. apply wp_bind. eapply wp_emulate_fua; [done..|].
  set (fl := if _ : bool then (_, true) else _). destruct fl as [flags' need].
  apply wp_bind. eapply wp_handle; [done|].
  destruct (p_pwrite p) as [f|] eqn:E; [|destruct (p_pwrite_v1 p) as [f|] eqn:E1].
  - apply wp_bind. eapply wp_mono.
    { apply wp_call_supported; [by eapply pl_pwrite|by eapply pl_pwrite_errno]. }
    intros r s1 (Hfr & Ht & Hsup). eapply wp_flush_and_return; [done..|auto|].
    intros H1 H2. destruct (Hsup H1). auto 6.
  - apply wp_bind. eapply wp_mono.
    { apply wp_call_supported; [by eapply pl_pwrite_v1|by eapply pl_pwrite_v1_errno]. }
    intros r s1 (Hfr & Ht & Hsup). eapply wp_flush_and_return; [done..|auto|].
    intros H1 H2. destruct (Hsup H1). auto 6.
  - apply wp_ret. split; [done|by apply fails_const|done].
Qed.

Lemma wp_plugin_zero_loop b fuel count offset flags r err s0 s c cs :
  s_ctx s0 = c :: cs -> primed c -> frame s0 s -> err_ok err ->
  0 <= count <= Z.of_nat fuel * MAX_REQUEST_SIZE ->
  (r = -1 -> count <> 0) -> (r <> -1 \/ count <> 0 -> t_err (s_thread s) <> ENOTSUP) ->
  err <> ENOTSUP ->
  wp (plugin_zero_loop p b fuel count offset flags r err)
    (fun '(r', err') s' => frame s0 s' /\ fails_with_errno r' err' /\
       (r' <> -1 -> t_err (s_thread s') <> ENOTSUP) /\ err' <> ENOTSUP) s.
Proof.
  intros Hs0 Hp. revert count r err s. induction fuel as [|fuel IH];
    intros count r err s Hfr Herr Hc Hr Ht He; unfold plugin_zero_loop; fold (plugin_zero_loop p b).
  - replace count with 0 in * by lia. simpl. split; [done|]. split; [|auto].
    split; [done|]. intros ->. by destruct Hr.
  - destruct (Z.eqb_spec count 0) as [->|Hne].
    { apply wp_ret. split; [done|]. split; [|auto]. split; [done|]. intros ->. by destruct Hr. }
    destruct (frame_ctx _ _ _ _ Hfr Hs0) as [cs1 Hs1].
    apply wp_bind. eapply wp_mono; [by eapply wp_plugin_pwrite|].
    intros [r1 e1] s1 [Hfr1 He1 Hsup]; simpl in *. destruct (Hsup ltac:(auto) He).
    destruct (Z.eqb_spec r1 (-1)) as [->|Hr1].
    + apply wp_ret. split; [by etrans|]. auto.
    + apply IH; [by etrans|by destruct He1|unfold MAX_REQUEST_SIZE in *; lia|done|auto|done].
Qed.

(** How the attempt at the plugin's own [.zero] ends. *)
Definition native_zero_step s (step : (Z * Z) + (Z * Z * bool)) s' : Prop :=
  frame s s' /\
  match step with
  | inl _ => False
  | inr (r, err', true) => fails_with_errno r err' /\ err' <> ENOTSUP /\
      (t_err (s_thread s) <> ENOTSUP -> r <> -1 -> t_err (s_thread s') <> ENOTSUP)
  | inr (r, err', false) => True
  end.

Lemma wp_plugin_zero_native count offset flags may_trim s c cs :
  s_ctx s = c :: cs ->
  wp (plugin_zero_native p count offset flags 0 may_trim false) (native_zero_step s) s.
Proof.
  intros Hs. unfold plugin_zero_native. apply wp_bind, wp_modify, wp_bind.
  eapply wp_handle; [done|].
  assert (Hend : forall (emulate : bool) r s1, frame s s1 ->
    (r = -1 -> emulate = false -> thread_ok (s_thread s1)) ->
    (t_err (s_thread s) <> ENOTSUP -> r <> -1 -> t_err (s_thread s1) <> ENOTSUP) ->
    wp (err ← (if r =? -1 then (if emulate : bool then mret EOPNOTSUPP else get_errno p)
               else mret 0);
        mret (inr (r, err, ((r =? 0) ||
                          (negb (err =? EOPNOTSUPP) && negb (err =? ENOTSUP)))%bool)
               : (Z * Z) + (Z * Z * bool)))
      (native_zero_step s) s1).
  { intros emulate r s1 Hfr Hthr Ht. apply wp_bind. destruct (Z.eqb_spec r (-1)) as [->|Hr].
    - destruct emulate; [by apply wp_ret, wp_ret|].
      eapply wp_mono; [apply wp_get_errno|]. intros e s2 (-> & He & Hok & _). apply wp_ret.
      split; [done|]. change EOPNOTSUPP with ENOTSUP. rewrite andb_diag. simpl.
      destruct (Z.eqb_spec e ENOTSUP); simpl; [done|]. split; [split; auto|]. auto.
    - apply wp_ret, wp_ret. split; [done|]. rewrite orb_true_r.
      split; [auto with nbdkit|]. done. }
  assert (Hcall : forall f, cb_quiet f -> cb_errno id f ->
    wp (call f) (fun r s1 => frame s s1 /\ (r = -1 -> thread_ok (s_thread s1)) /\
      (t_err (s_thread s) <> ENOTSUP -> r <> -1 -> t_err (s_thread s1) <> ENOTSUP))
      (set_thread (with_errno 0) s)).
  { intros f Hq He. apply (wp_call f _ _ _ Hq). intros r t w E Hr. split; [done|].
    specialize (He (s_thread (set_thread (with_errno 0) s)) (s_world s)). simpl in *.
    rewrite E in He. auto. }
  destruct (p_zero p) as [f|] eqn:E; [|destruct (p_zero_v1 p) as [f|] eqn:E1].
  - apply wp_bind. eapply wp_mono; [apply (Hcall (f (c_handle c) count offset flags)); [by apply (pl_zero f)|by apply (pl_zero_errno f)]|].
    intros r s1 (Hfr & He & Hq). apply (Hend false); auto.
  - apply wp_bind. eapply wp_mono; [apply (Hcall (f (c_handle c) count offset may_trim)); [by apply (pl_zero_v1 f)|by apply (pl_zero_v1_errno f)]|].
    intros r s1 (Hfr & He & Hq). apply (Hend false); auto.
  - apply wp_bind, wp_ret. by apply (Hend true).
Qed.

(** With the fast-zero flag the function only answers; it never writes. *)
Lemma wp_plugin_zero_native_fast count offset flags err may_trim s c cs :
  s_ctx s = c :: cs -> err_ok err ->
  wp (plugin_zero_native p count offset flags err may_trim true)
    (fun step s' => frame s s' /\
       match step with
       | inl (r, err') => fails_with_errno r err'
       | inr (r, err', true) => fails_with_errno r err'
       | inr (r, err', false) => r = -1 \/ err = EOPNOTSUPP
       end) s.
Proof.
  intros Hs Herr. unfold plugin_zero_native. apply wp_bind, wp_modify, wp_bind.
  eapply wp_handle; [done|].
  destruct (p_zero p) as [f|] eqn:E; [|destruct (p_zero_v1 p) as [f|] eqn:E1].
  - apply wp_bind. eapply wp_mono; [apply (wp_call_thread id); by eapply pl_zero_errno|].
    intros r s1 [Hfr Ht]. apply wp_bind.
    destruct (Z.eqb_spec r (-1)) as [->|Hr].
    + eapply wp_mono; [apply wp_get_errno|]. intros e s2 (-> & He & Hok & _). apply wp_ret.
      split; [done|]. destruct (_ || _)%bool; [split; auto|by left].
    + apply wp_ret, wp_ret. split; [done|].
      destruct (_ || _)%bool eqn:Ed; [by split|].
      right. apply orb_false_iff in Ed as [_ Ed]. change ENOTSUP with EOPNOTSUPP in Ed.
      rewrite andb_diag, negb_false_iff, Z.eqb_eq in Ed. done.
  - apply wp_ret. split; [done|]. by apply fails_const.
  - apply wp_bind, wp_ret, wp_bind, wp_ret, wp_ret. split; [done|]. by left.
Qed.

(** Flushing after a step that did not end with [ENOTSUP]. *)
Lemma wp_flush_supported need r e s0 s c cs :
  s_ctx s0 = c :: cs -> frame s0 s -> t_err (s_thread s0) <> ENOTSUP ->
  fails_with_errno r e -> e <> ENOTSUP -> (r <> -1 -> t_err (s_thread s) <> ENOTSUP) ->
  wp (flush_and_return p need r e) (fun '(r', err') s' =>
    frame s0 s' /\ fails_with_errno r' err' /\ err' <> ENOTSUP) s.
Proof.
  intros Hs Hfr Ht [Hok He] Hn Hq.
  eapply wp_mono; [eapply (wp_flush_and_return _ _ _ s0 0); [done..|by intros Hr%He|]|].
  - intros _ _. split; [auto|]. split; [done|]. intros -> ->. by destruct He.
  - intros [r' e'] s' [? ? Hsup]. split; [done|]. split; [done|]. by apply Hsup.
Qed.

Lemma wp_plugin_zero b count offset flags s c cs :
  s_ctx s = c :: cs -> primed c -> 0 <= count <= UINT32_MAX -> t_err (s_thread s) <> ENOTSUP ->
  wp (plugin_zero p b count offset flags 0) (fun '(r, err') s' =>
    frame s s' /\ fails_with_errno r err' /\
    (r = -1 -> has flags NBDKIT_FLAG_FAST_ZERO = false -> err' <> ENOTSUP)) s.
Proof.
  intros Hs Hp Hc Ht. unfold plugin_zero. apply wp_bind. eapply wp_emulate_fua; [done..|].
  set (fl := if _ : bool then (_, true) else _). destruct fl as [flags' need].
  destruct (Z.eqb_spec count 0).
  { apply wp_ret. split; [done|]. split; [by apply succeeds_err_ok; [|apply err_ok_0]|done]. }
  apply wp_bind. eapply wp_intro; [by eapply known_can_zero|]. apply wp_bind.
  destruct (has flags NBDKIT_FLAG_FAST_ZERO) eqn:Hfast.
  - eapply wp_mono with (P := fun step s' => frame s s' /\
       match step with
       | inl (r, err') => fails_with_errno r err'
       | inr (r, err', true) => fails_with_errno r err'
       | inr (r, err', false) => r = -1
       end).
    { destruct (c_can_zero c =? NBDKIT_ZERO_NATIVE); [|by apply wp_ret].
      eapply wp_mono; [eapply wp_plugin_zero_native_fast; [done|apply err_ok_0]|].
      intros [[r e]|[[r e] []]] s1 [Hfr H]; (split; [done|]); try done. by destruct H. }
    intros [[r e]|[[r e] []]] s1 [Hfr H].
    + apply wp_ret. auto with nbdkit.
    + destruct H as [Hok He]. eapply wp_mono.
      { eapply (wp_flush_and_return _ _ _ s ENOTSUP); [done..| |done]. by intros Hr%He. }
      by intros [r' e'] s' [? ? _].
    + subst r. apply wp_bind, wp_assert. split; [done|]. unfold flush_and_return. simpl.
      apply wp_bind, wp_ret, wp_ret. split; [done|]. split; [by apply fails_const|done].
  - eapply wp_mono with (P := fun step s' => frame s s' /\
       match step with
       | inl _ => False
       | inr (r, err', true) => fails_with_errno r err' /\ err' <> ENOTSUP /\
           (r <> -1 -> t_err (s_thread s') <> ENOTSUP)
       | inr (r, err', false) => True
       end).
    { destruct (c_can_zero c =? NBDKIT_ZERO_NATIVE); [|by apply wp_ret].
      eapply wp_mono; [by eapply wp_plugin_zero_native|].
      intros [[r e]|[[r e] []]] s1 [Hfr H]; (split; [done|]); try done.
      destruct H as (? & ? & ?). auto. }
    intros [[r e]|[[r e] []]] s1 [Hfr H]; [done|..].
    + destruct H as (He & Hn & Hq).
      eapply wp_mono; [by eapply wp_flush_supported|]. intros [r' e'] s' (? & ? & ?). auto.
    + apply wp_bind, wp_modify, wp_bind. eapply wp_mono.
      { apply (wp_plugin_zero_loop b max_chunks count offset _ r 0 s _ c cs); try done.
        unfold max_chunks, MAX_REQUEST_SIZE. limits. lia. }
      intros [r' e'] s2 (Hfr2 & He2 & Ht2 & Hn2).
      eapply wp_mono; [by eapply wp_flush_supported|]. intros [r3 e3] s3 (? & ? & ?). auto.
Qed.

Lemma wp_plugin_trim b count offset flags err s c cs :
  s_ctx s = c :: cs -> primed c -> err_ok err ->
  wp (plugin_trim p b count offset flags err) (fun '(r, err') s' =>
    frame s s' /\ fails_with_errno r err') s.
Proof.
  intros Hs Hp Herr. unfold plugin_trim. apply wp_bind. eapply wp_emulate_fua; [done..|].
  set (fl := if _ : bool then (_, true) else _). destruct fl as [flags' need].
  apply wp_bind. eapply wp_handle; [done|].
  assert (Hcall : forall f : cb W Z, cb_errno id f ->
    wp (r ← call f; flush_and_return p need r err)
      (fun '(r, err') s' => frame s s' /\ fails_with_errno r err') s).
  { intros f Hf. apply wp_bind. eapply wp_mono; [by apply (wp_call_thread id)|].
    intros r s1 [Hfr Ht].
    eapply wp_mono; [eapply (wp_flush_and_return _ _ _ s ENOTSUP); [done..|auto|done]|].
    by intros [r' e'] s' [? ? _]. }
  destruct (p_trim p) eqn:E; [apply Hcall; by eapply pl_trim_errno|].
  destruct (p_trim_v1 p) eqn:E1; [apply Hcall; by eapply pl_trim_v1_errno|].
  apply wp_ret. split; [done|]. by apply fails_const.
Qed.

Lemma wp_plugin_pread count offset flags err s c cs :
  s_ctx s = c :: cs -> err_ok err ->
  wp (plugin_pread p count offset flags err) (fun '(r, err', buf) s' =>
    frame s s' /\ fails_with_errno r err' /\ (r <> -1 -> length buf = Z.to_nat count)) s.
Proof.
  intros Hs Herr. unfold plugin_pread. apply wp_bind. eapply wp_handle; [done|]. apply wp_bind.
  eapply wp_mono with (P := fun '(r, buf) s' => frame s s' /\ length buf = Z.to_nat count /\
    (r = -1 -> thread_ok (s_thread s'))).
  { pose proof pl_pread as Hpr.
    destruct (p_pread p) as [f|] eqn:E; [|destruct (p_pread_v1 p) as [f|] eqn:E1]; [| |done].
    - eapply wp_mono; [apply wp_and; [apply wp_call_answers; by eapply pl_pread_buf|
        apply (wp_call_thread fst); by eapply pl_pread_errno]|].
      intros [r buf] s1 [[? ?] [? ?]]. auto.
    - eapply wp_mono; [apply wp_and; [apply wp_call_answers; by eapply pl_pread_v1_buf|
        apply (wp_call_thread fst); by eapply pl_pread_v1_errno]|].
      intros [r buf] s1 [[? ?] [? ?]]. auto. }
  intros [r buf] s1 (Hfr & Hl & Ht). apply wp_bind.
  eapply wp_mono; [by apply wp_set_err_if_failed|]. by intros e s' (-> & He).
Qed.

Lemma wp_plugin_extents count offset flags exts err s c cs :
  s_ctx s = c :: cs -> err_ok err ->
  wp (plugin_extents p count offset flags exts err) (fun '(r, err', exts') s' =>
    frame s s' /\ fails_with_errno r err' /\ exts_reach exts exts' /\
    (r <> -1 -> x_extents exts' <> [])) s.
Proof.
  intros Hs Herr. unfold plugin_extents. destruct (p_extents p) as [f|] eqn:E.
  - apply wp_bind. eapply wp_handle; [done|]. apply wp_bind.
    eapply wp_mono; [apply wp_and; [apply wp_call_answers; by eapply pl_extents|
      apply (wp_call_thread fst); by eapply pl_extents_errno]|].
    intros [r x] s1 [(Hfr & Hr1 & Hr) [_ Ht]]. apply wp_bind.
    destruct (Z.leb_spec 0 r), (Z.ltb_spec (nbdkit_extents_count x) 1); simpl.
    { apply wp_bind, wp_modify, wp_bind, wp_modify, wp_ret, wp_bind.
      unfold set_err_if_failed. simpl. unfold get_errno.
      apply wp_bind, wp_gets, wp_bind, wp_gets, wp_ret, wp_ret. simpl.
      split; [done|]. split; [by apply fails_const|]. by split. }
    all: apply wp_ret, wp_bind;
      (eapply wp_mono; [apply wp_set_err_if_failed; [done|exact Ht]|]);
      intros e s' (-> & He); apply wp_ret; (split; [done|]); (split; [done|]);
      (split; [done|]); intros Hne; try lia.
    intros Hx. apply count_zero in Hx. lia.
  - apply wp_ret. split; [done|]. split; [by apply fails_const|]. split; [apply rtc_refl|done].
Qed.

(** Capabilities. *)

Lemma wp_bool_capability f default s c cs :
  s_ctx s = c :: cs -> (forall g h, f = Some g -> cb_runs (g h)) ->
  wp (bool_capability (W:=W) f default) (fun r s' => frame s s' /\ tri r) s.
Proof.
  intros Hs Hf. unfold bool_capability. destruct f as [f|].
  - apply wp_bind. unfold call_handle. apply wp_bind. eapply wp_handle; [done|].
    eapply wp_call; [by apply Hf|]. intros r t w _ _. apply wp_ret. split; [done|].
    unfold normalize_bool, tri. destruct (Z.eqb_spec r (-1)), (Z.eqb_spec r 0); simpl; lia.
  - apply wp_ret. split; [done|]. destruct default; unfold tri, b2z; lia.
Qed.

Lemma wp_call_handle {A} (f : Z -> cb W A) (P : A -> Prop) s c cs :
  s_ctx s = c :: cs -> (forall h, cb_answers (f h) P) ->
  wp (call_handle f) (fun r s' => frame s s' /\ P r) s.
Proof.
  intros Hs HP. unfold call_handle. apply wp_bind. eapply wp_handle; [done|].
  by apply wp_call_answers.
Qed.

Lemma wp_plugin_can_zero s c cs :
  s_ctx s = c :: cs -> wp (plugin_can_zero p) (fun r s' => frame s s' /\ quad r) s.
Proof.
  intros Hs. unfold plugin_can_zero, NBDKIT_ZERO_NATIVE, NBDKIT_ZERO_EMULATE, quad.
  destruct (p_can_zero p) as [f|] eqn:E.
  - apply wp_bind. eapply wp_mono; [eapply wp_call_handle; [done|intros h; eapply pl_capabilities; rewrite E; set_solver]|].
    intros r s' [Hf _]. apply wp_ret. split; [done|]. destruct (r =? -1), (r =? 0); simpl; lia.
  - apply wp_ret. split; [done|]. case_match; lia.
Qed.

Lemma wp_plugin_can_fua s c cs :
  s_ctx s = c :: cs -> wp (plugin_can_fua p) (fun r s' => frame s s' /\ quad r) s.
Proof.
  intros Hs. unfold plugin_can_fua, NBDKIT_FUA_EMULATE, NBDKIT_FUA_NONE.
  destruct (p_can_fua p) as [f|] eqn:E.
  - apply wp_bind.
    eapply wp_mono; [eapply wp_call_handle; [done|intros h; by eapply pl_can_fua]|].
    intros r s' [Hf Hq]. apply wp_ret. split; [done|]. unfold quad in *. case_match; lia.
  - apply wp_ret. split; [done|]. unfold quad. case_match; lia.
Qed.

Lemma wp_plugin_can_cache s c cs :
  s_ctx s = c :: cs -> wp (plugin_can_cache p) (fun r s' => frame s s' /\ quad r) s.
Proof.
  intros Hs. unfold plugin_can_cache, NBDKIT_CACHE_NATIVE, NBDKIT_CACHE_NONE.
  destruct (p_can_cache p) as [f|] eqn:E.
  - eapply wp_call_handle; [done|]. intros h. by eapply pl_can_cache.
  - apply wp_ret. split; [done|]. unfold quad. case_match; lia.
Qed.

Lemma wp_plugin_can_fast_zero b s c cs :
  s_ctx s = c :: cs -> cap_ok c -> 1 <= c_can_zero c ->
  wp (plugin_can_fast_zero p b) (fun r s' => frame s s' /\ tri r) s.
Proof.
  intros Hs Hc Hz. unfold plugin_can_fast_zero. destruct (p_can_fast_zero p) as [f|] eqn:E.
  - eapply (wp_bool_capability (Some f) false); [done|]. intros g h [= <-].
    eapply pl_capabilities. rewrite E. set_solver.
  - destruct (p_zero p); [|apply wp_ret; split; [done|]; unfold tri; lia].
    apply wp_bind. unfold backend_can_zero. apply wp_bind. eapply wp_check_cap_ok; [done..|].
    rewrite (proj2 (Z.eqb_neq (c_can_zero c) (-1)) ltac:(lia)). apply wp_ret, wp_ret.
    split; [done|]. unfold tri, b2z. repeat case_match; lia.
Qed.

Lemma wp_plugin_block_size s c cs :
  s_ctx s = c :: cs ->
  wp (plugin_block_size p) (fun '(_, (mi, pr, ma)) s' => frame s s' /\
    0 <= mi <= UINT32_MAX /\ 0 <= pr <= UINT32_MAX /\ 0 <= ma <= UINT32_MAX) s.
Proof.
  intros Hs. unfold plugin_block_size. destruct (p_block_size p) as [f|] eqn:E.
  - apply wp_bind.
    eapply wp_mono; [eapply wp_call_handle; [done|intros h; by eapply pl_block_size]|].
    intros [r [[mi pr] ma]] s' [Hf Hb]. destruct (r =? -1); [by apply wp_ret|].
    destruct (_ && _)%bool; [by apply wp_ret|].
    destruct (block_size_error mi pr ma); [by apply wp_bind, wp_modify, wp_ret|by apply wp_ret].
  - apply wp_ret. split; [done|]. limits. lia.
Qed.

#[export] Instance plugin_data_contract : DataContract (plugin_functions p).
Proof.
  split; simpl; intros.
  - by eapply wp_plugin_pread.
  - eapply wp_mono; [by eapply wp_plugin_pwrite|]. by intros [r e] s' [? ? _].
  - eapply wp_mono; [by eapply wp_plugin_flush|]. by intros [r e] s' [? ? _].
  - by eapply wp_plugin_trim.
  - by eapply wp_plugin_zero.
  - by eapply wp_plugin_extents.
  - unfold plugin_cache. destruct (p_cache p) eqn:E;
      [|apply wp_ret; split; [done|]; by apply succeeds_err_ok].
    apply wp_bind. eapply wp_handle; [done|]. apply wp_bind.
    eapply wp_mono; [apply (wp_call_thread id); by eapply pl_cache_errno|].
    intros r s1 [Hfr Ht]. apply wp_bind.
    eapply wp_mono; [by apply wp_set_err_if_failed|]. by intros e s' (-> & He).
Qed.

#[export] Instance plugin_cap_contract : CapContract (plugin_functions p).
Proof.
  split; simpl;
    try (intros s c cs Hs Hc _; eapply wp_bool_capability; [done|]; intros g h E;
         eapply pl_capabilities; rewrite <- E; set_solver).
  - intros s c cs Hs Hc _. eapply wp_call_handle; [done|]. intros h. apply pl_get_size.
  - intros s c cs Hs Hc _. by eapply wp_plugin_can_zero.
  - intros s c cs Hs Hc Hz. by eapply wp_plugin_can_fast_zero.
  - intros s c cs Hs Hc _. by eapply wp_plugin_can_fua.
  - intros s c cs Hs Hc _. by eapply wp_plugin_can_cache.
  - intros s c cs Hs Hc. by eapply wp_plugin_block_size.
  - intros s c cs Hs Hc. unfold plugin_export_description.
    destruct (p_export_description p) eqn:E; [|by apply wp_ret].
    eapply wp_mono; [eapply wp_call_handle; [done|intros h; by eapply pl_export_description]|]. by intros ? ? [].
Qed.
End Contract.

(** ** Block sizes *)

Lemma is_power_of_2_spec v : 0 <= v -> is_power_of_2 v = true <-> exists k, 0 <= k /\ v = 2 ^ k.
Proof.
  intros Hv. unfold is_power_of_2. rewrite andb_true_iff, negb_true_iff, Z.eqb_neq, Z.eqb_eq.
  split.
  - intros [H0 Hl]. exists (Z.log2 v). split; [apply Z.log2_nonneg|].
    pose proof (Z.log2_spec v ltac:(lia)) as [Hlo Hhi].
    destruct (decide (v = 2 ^ Z.log2 v)) as [E|E]; [done|].
    assert (Hlog : Z.log2 (v - 1) = Z.log2 v)
      by (apply Z.log2_unique; [apply Z.log2_nonneg|lia]).
    assert (Hb : Z.testbit (Z.land v (v - 1)) (Z.log2 v) = true).
    { rewrite Z.land_spec, Z.bit_log2 by lia. rewrite <- Hlog. rewrite Z.bit_log2; [done|].
      pose proof (Z.pow_pos_nonneg 2 (Z.log2 v) ltac:(lia) (Z.log2_nonneg v)). lia. }
    by rewrite Hl, Z.bits_0 in Hb.
  - intros (k & Hk & ->). pose proof (Z.pow_pos_nonneg 2 k ltac:(lia) Hk). split; [lia|].
    apply Z.bits_inj'. intros j Hj. rewrite Z.bits_0, Z.land_spec.
    destruct (decide (j = k)) as [->|Hne].
    + replace (2 ^ k - 1) with (Z.ones k) by (rewrite Z.ones_equiv; lia).
      rewrite Z.ones_spec_high by lia. apply andb_false_r.
    + by rewrite Z.pow2_bits_false by lia.
Qed.

Lemma is_power_of_2_pow n : 0 <= n -> is_power_of_2 (2 ^ n) = true.
Proof. intros Hn. apply is_power_of_2_spec; [lia|]. eauto. Qed.

Definition block_size_valid (mi pr ma : Z) : Prop :=
  (mi = 0 /\ pr = 0 /\ ma = 0) \/
  ((exists i, 0 <= i <= 16 /\ mi = 2 ^ i) /\ (exists j, 9 <= j <= 25 /\ pr = 2 ^ j) /\
   (ma = UINT32_MAX \/ (mi | ma)) /\ mi <= pr <= ma).

Lemma pow2_between v lo hi :
  0 <= lo <= hi -> (2 ^ lo <= v <= 2 ^ hi /\ exists k, 0 <= k /\ v = 2 ^ k) <->
  exists k, lo <= k <= hi /\ v = 2 ^ k.
Proof.
  intros Hlh. split.
  - intros [[H1 H2] (k & Hk & ->)]. exists k. split; [|done].
    split; (apply (Z.pow_le_mono_r_iff 2); lia).
  - intros (k & Hk & ->). split; [|exists k; split; [lia|done]].
    split; apply Z.pow_le_mono_r; lia.
Qed.

Lemma block_size_error_spec mi pr ma :
  0 <= mi -> 0 <= pr -> 0 <= ma -> ~ (mi = 0 /\ pr = 0 /\ ma = 0) ->
  block_size_error mi pr ma = None <-> block_size_valid mi pr ma.
Proof.
  intros Hmi Hpr Hma Hnz. unfold block_size_error, block_size_valid.
  rewrite <- (pow2_between mi 0 16), <- (pow2_between pr 9 25) by lia.
  rewrite <- (is_power_of_2_spec mi), <- (is_power_of_2_spec pr) by lia.
  change (2 ^ 0) with 1. change (2 ^ 16) with 65536. change (2 ^ 9) with 512.
  change (2 ^ 25) with (32 * 1024 * 1024).
  destruct (Z.ltb_spec mi 1), (Z.ltb_spec 65536 mi); simpl; try (split; [done|lia]).
  destruct (is_power_of_2 mi); simpl; [|split; [done|intuition done]].
  destruct (is_power_of_2 pr); simpl; [|split; [done|intuition done]].
  destruct (Z.ltb_spec pr 512), (Z.ltb_spec (32 * 1024 * 1024) pr); simpl;
    try (split; [done|lia]).
  assert (Hdiv : (ma mod mi =? 0) = true <-> (mi | ma)).
  { rewrite Z.eqb_eq. apply Z.mod_divide. lia. }
  destruct (Z.eqb_spec ma UINT32_MAX), (ma mod mi =? 0); simpl;
    try (split; [done|]; intros [|(_ & _ & [|Hd] & _)]; [lia|lia|];
         apply Hdiv in Hd; done);
    destruct (Z.ltb_spec pr mi), (Z.ltb_spec ma pr); simpl; split; try done; try lia;
    intros _; right; repeat split; try lia; (by left) || (right; by apply Hdiv).
Qed.

(** [plugin_block_size] accepts a plugin's block sizes exactly when
    they are what the protocol demands: all zero (no information), or a
    minimum and a preferred size that are powers of two within 1..64K and
    512..32M, a maximum that is unlimited or a multiple of the minimum, and
    minimum <= preferred <= maximum.  Anything else is an error, never a
    constraint sent to the client. *)
Lemma block_size_checked {W} (p : nbdkit_plugin W) f s c cs r0 mi pr ma t w :
  p_block_size p = Some f -> s_ctx s = c :: cs ->
  f (c_handle c) (s_thread s) (s_world s) = Ok ((r0, (mi, pr, ma)), t, w) ->
  0 <= mi <= UINT32_MAX -> 0 <= pr <= UINT32_MAX -> 0 <= ma <= UINT32_MAX ->
  exists r s', plugin_block_size p s = Ok ((r, (mi, pr, ma)), s') /\
    (r = 0 \/ r = -1) /\ (r = 0 <-> r0 <> -1 /\ block_size_valid mi pr ma).
Proof.
  intros Hf Hs Hcall Hmi Hpr Hma. unfold plugin_block_size, call_handle, handle, cur, call.
  rewrite Hf. unfold_m. rewrite Hs, Hcall. destruct (Z.eqb_spec r0 (-1)) as [->|Hr0].
  { eexists (-1), _. split; [done|]. split; [auto|]. split; [done|]. by intros []. }
  destruct (decide (mi = 0 /\ pr = 0 /\ ma = 0)) as [(-> & -> & ->)|Hnz].
  { eexists 0, _. split; [done|]. split; [auto|]. split; [|done]. intros _.
    split; [done|]. by left. }
  assert ((mi =? 0) && (pr =? 0) && (ma =? 0) = false)%bool as ->.
  { destruct (Z.eqb_spec mi 0), (Z.eqb_spec pr 0), (Z.eqb_spec ma 0); simpl; (done || tauto). }
  pose proof (block_size_error_spec mi pr ma ltac:(lia) ltac:(lia) ltac:(lia) Hnz) as Hspec.
  destruct (block_size_error mi pr ma).
  - eexists (-1), _. split; [done|]. split; [auto|]. split; [done|].
    intros [_ Hv]. by apply Hspec in Hv.
  - eexists 0, _. split; [done|]. split; [auto|]. split; [|done]. intros _.
    split; [done|]. by apply Hspec.
Qed.

(** ** A RAM disk plugin

    A concrete plugin over a volatile and a stable copy of the disk: the
    laws can be met, and the witnesses run on it.  Its [.zero] always says
    [EOPNOTSUPP]. *)

Record ram : Type := Ram {
  ram_disk : Z -> Z;
  ram_stable : Z -> Z;
}.

Definition ram_pwrite (_ : Z) (buf : list Z) (_ offset flags : Z) : cb ram Z := fun t w =>
  let disk := ram_write (ram_disk w) buf offset in
  Ok (0, t, Ram disk (if has flags NBDKIT_FLAG_FUA
                      then ram_write (ram_stable w) buf offset else ram_stable w)).

Definition ram_plugin (size can_fua : Z) : nbdkit_plugin ram :=
  Plugin 2 0 None None (fun _ t w => Ok (1, t, w)) None None (fun _ t w => Ok (size, t, w))
    (Some (fun _ t w => Ok ((0, (512, 4096, UINT32_MAX)), t, w)))
    None None None None None None None
    (Some (fun _ t w => Ok (can_fua, t, w))) None None
    (Some (fun _ count offset _ t w => Ok ((0, ram_read (ram_disk w) count offset), t, w))) None
    (Some ram_pwrite) None
    (Some (fun _ _ t w => Ok (0, t, Ram (ram_disk w) (ram_disk w)))) None
    None None
    (Some (fun _ _ _ _ t w => Ok (-1, with_errno EOPNOTSUPP (with_err EOPNOTSUPP t), w))) None
    None None.

Lemma ram_plugin_laws size can_fua :
  0 <= size <= INT64_MAX -> quad can_fua -> PluginLaws (ram_plugin size can_fua).
Proof.
  intros Hs Hq. split; try done; simpl; intros; try (by set_solver); simplify_eq; intros t w; simpl; try done.
  - limits. lia.
  - unfold ram_read. by rewrite length_fmap, length_seqZ.
Qed.

Lemma block_size_checked_witness :
  exists r s', plugin_block_size (ram_plugin 1048576 2) (witness_state (Ram (fun _ => 0) (fun _ => 0)))
      = Ok ((r, (512, 4096, UINT32_MAX)), s') /\
    (r = 0 \/ r = -1) /\ (r = 0 <-> 0 <> -1 /\ block_size_valid 512 4096 UINT32_MAX).
Proof.
  eapply (block_size_checked (ram_plugin 1048576 2));
    [reflexivity|reflexivity|reflexivity|limits; lia..].
Defined.
