(* ===== verification/Disk.v ===== *)
(** * What writing requests do to the disk

    The functional side of [server/backend.c] and [server/plugins.c]: which
    writes the zero emulation of [backend_zero] issues, what it leaves on
    the disk, when a FUA write is durable, and what the fallback of
    [plugin_zero] does.

    A disk is a function from byte offsets to bytes; how the plugin's state
    represents it is a parameter ([disk], and [stable] for the part that
    survives a crash). *)

From S2P Require Import Prelude NbdProtocol Extents Exports Server Connections Backend Plugin.

(** ** The schedule of an emulated zero *)

Section EmulatedZero.
Context {W : Type} (b : backend W).
Implicit Types (s : st W) (c : context).

(** Reference: the [i]-th write of an emulated zero of [count] bytes. *)
Definition zero_write (count offset writeflags : Z) (need_flush : bool) (i : Z) : Z * Z * Z :=
  let done := i * MAX_REQUEST_SIZE in
  (Z.min (count - done) MAX_REQUEST_SIZE, offset + done,
   chunk_flags (bool_decide (count - done <= MAX_REQUEST_SIZE)) need_flush writeflags).

Definition zero_writes (count offset writeflags : Z) (need_flush : bool) : list (Z * Z * Z) :=
  zero_write count offset writeflags need_flush <$>
    seqZ 0 ((count + MAX_REQUEST_SIZE - 1) / MAX_REQUEST_SIZE).

(** Do the writes in order, up to the first failure. *)
Fixpoint run_writes (ws : list (Z * Z * Z)) (err : Z) : M W (Z * Z) :=
  match ws with
  | [] => mret (0, err)
  | (n, o, f) :: ws =>
      '(r, err) ← backend_pwrite b (zeroes n) n o f err;
      if r =? -1 then mret (-1, err) else run_writes ws err
  end.

Lemma zero_writes_cons count offset wf nf :
  0 < count ->
  zero_writes count offset wf nf =
  (Z.min count MAX_REQUEST_SIZE, offset, chunk_flags (bool_decide (count <= MAX_REQUEST_SIZE)) nf wf)
    :: (if decide (count <= MAX_REQUEST_SIZE) then []
        else zero_writes (count - MAX_REQUEST_SIZE) (offset + MAX_REQUEST_SIZE) wf nf).
Proof.
  intros Hc. unfold zero_writes, zero_write.
  assert (HM : 0 < MAX_REQUEST_SIZE) by done. set (m := MAX_REQUEST_SIZE) in *. clearbody m.
  assert (Hq : (count + m - 1) / m = (count - 1) / m + 1).
  { rewrite <- Z.div_add by lia. f_equal. lia. }
  pose proof (Z.div_pos (count - 1) m ltac:(lia) HM).
  rewrite Hq, seqZ_cons by lia. cbn [fmap list_fmap]. f_equal.
  - by rewrite Z.mul_0_l, Z.sub_0_r, Z.add_0_r.
  - replace (Z.pred ((count - 1) / m + 1)) with ((count - 1) / m) by lia.
    destruct (decide (count <= m)).
    + by rewrite Z.div_small by lia.
    + replace (count - m + m - 1) with (count - 1) by lia.
      change (Z.succ 0) with (0 + 1). rewrite (Z.add_comm 0 1), <- fmap_add_seqZ, <- list_fmap_compose.
      apply list_fmap_ext. intros i x _. simpl.
      replace (count - (1 + x) * m) with (count - m - x * m) by lia.
      by replace (offset + (1 + x) * m) with (offset + m + x * m) by lia.
Qed.

(** The emulation loop of [backend_zero] performs exactly the writes of
    the closed-form schedule, in order, up to the first failure: chunk [i]
    starts at [offset + i * MAX_REQUEST_SIZE], the chunks tile the request,
    and when FUA has to be emulated exactly the last one carries it.  The
    64 iterations the model allows are enough for every request. *)
Lemma zero_loop_schedule count offset wf nf err s :
  0 <= offset -> 0 <= count <= UINT32_MAX -> offset + count <= UINT64_MAX ->
  backend_zero_loop b max_chunks count offset wf nf err s =
  run_writes (zero_writes count offset wf nf) err s.
Proof.
  intros Ho Hc Hend.
  assert (Hfuel : count <= Z.of_nat max_chunks * MAX_REQUEST_SIZE)
    by (unfold max_chunks, MAX_REQUEST_SIZE; limits; lia).
  revert count offset err s Ho Hc Hend Hfuel.
  induction max_chunks as [|fuel IH]; intros count offset err s Ho Hc Hend Hfuel.
  { replace count with 0 by lia. done. }
  destruct (decide (count = 0)) as [->|Hne]; [done|].
  rewrite zero_writes_cons by lia. cbn [backend_zero_loop run_writes].
  rewrite (proj2 (Z.eqb_neq count 0) Hne).
  replace (Z.min count MAX_REQUEST_SIZE =? count)
    with (bool_decide (count <= MAX_REQUEST_SIZE)) by (case_bool_decide; lia).
  fold (chunk_flags (bool_decide (count <= MAX_REQUEST_SIZE)) nf wf).
  unfold_m. destruct (backend_pwrite b _ _ _ _ _ s) as [[[r e] s']|]; [|done].
  destruct (r =? -1); [done|].
  destruct (decide (count <= MAX_REQUEST_SIZE)).
  - rewrite Z.min_l, Z.sub_diag by lia. by destruct fuel.
  - rewrite Z.min_r by lia. assert (0 < MAX_REQUEST_SIZE) by done.
    unfold chunk_flags at 1. rewrite bool_decide_eq_false_2 by lia. simpl.
    rewrite u64_small by lia. rewrite IH by lia. done.
Qed.
End EmulatedZero.

Lemma zero_loop_schedule_witness :
  backend_zero_loop (ram_backend 1048576) max_chunks UINT32_MAX 4096 0 true 0
    (witness_state (fun _ => 0)) =
  run_writes (ram_backend 1048576) (zero_writes UINT32_MAX 4096 0 true) 0
    (witness_state (fun _ => 0)).
Proof. apply zero_loop_schedule; unfold UINT32_MAX, UINT64_MAX; lia. Defined.

(** ** The contents after a write *)

(** The disk [d] with [count] bytes of [buf] at [offset]. *)
Definition written (d : Z -> Z) (buf : list Z) (count offset : Z) : Z -> Z := fun x =>
  if decide (offset <= x < offset + count) then nth (Z.to_nat (x - offset)) buf 0 else d x.

(** The disk with a range zeroed. *)
Definition zeroed (d : Z -> Z) (count offset : Z) : Z -> Z := fun x =>
  if decide (offset <= x < offset + count) then 0 else d x.

Lemma nth_zeroes n i : nth i (zeroes n) 0 = 0.
Proof.
  unfold zeroes. revert i. induction (Z.to_nat n) as [|k IH]; intros [|i]; simpl; auto.
Qed.

Lemma written_zeroes d n offset x : written d (zeroes n) n offset x = zeroed d n offset x.
Proof. unfold written, zeroed. by rewrite nth_zeroes. Qed.

Lemma length_zeroes n : length (zeroes n) = Z.to_nat n.
Proof. apply length_replicate. Qed.

(** A backend whose successful [.pwrite] puts the buffer on the disk. *)
Class DiskWriter {W} (b : backend W) (disk : W -> Z -> Z) : Prop :=
  dw_pwrite buf count offset flags err s c cs :
    s_ctx s = c :: cs -> primed c -> length buf = Z.to_nat count ->
    wp (b_pwrite b buf count offset flags err) (fun '(r, _) s' =>
      r <> -1 -> forall x, disk (s_world s') x = written (disk (s_world s)) buf count offset x) s.

Section ZeroDisk.
Context {W : Type} (b : backend W) (disk : W -> Z -> Z).
Context `{!DataContract b} `{!DiskWriter b disk}.
Implicit Types (s : st W) (c : context).

(** [backend_pwrite] passes on what [.pwrite] does. *)
Lemma wp_backend_pwrite_post R buf count offset flags err s c cs :
  s_ctx s = c :: cs -> primed c -> err_ok err -> may_write c offset count flags ->
  wp (b_pwrite b buf count offset flags err) R s ->
  wp (backend_pwrite b buf count offset flags err) (fun '(r, err') s' =>
    frame s s' /\ fails_with_errno r err' /\ R (r, err') s') s.
Proof.
  intros Hs Hp Herr (Hw & Hv & Hfl & Hfua) HR. unfold backend_pwrite.
  apply wp_bind. eapply wp_check_connected; [done..|].
  apply wp_bind, wp_assert. split; [by apply Z.eqb_eq|].
  apply wp_bind. eapply wp_valid_range; [done..|].
  apply wp_bind, wp_assert. split; [done|].
  apply wp_bind, wp_assert. split; [by apply Z.eqb_eq|].
  apply wp_bind, wp_assert. split; [by apply fua_assertion|].
  apply wp_bind. eapply wp_mono; [apply wp_and; [by apply (dc_pwrite _ _ _ _ _ _ c cs)|exact HR]|].
  intros [r e] s' [(Hf & He) HRe]. by apply wp_assert_err.
Qed.

Lemma wp_backend_zero_loop_disk fuel count offset wf nf err s c cs :
  s_ctx s = c :: cs -> primed c -> err_ok err -> c_can_write c = 1 ->
  0 <= offset -> 0 < count <= UINT32_MAX -> count <= Z.of_nat fuel * MAX_REQUEST_SIZE ->
  valid_range c offset count = true ->
  (wf = 0 \/ (wf = NBDKIT_FLAG_FUA /\ 0 < c_can_fua c)) -> (nf = true -> 0 < c_can_fua c) ->
  wp (backend_zero_loop b fuel count offset wf nf err) (fun '(r, _) s' =>
    r <> -1 -> forall x, disk (s_world s') x = zeroed (disk (s_world s)) count offset x) s.
Proof.
  revert count offset wf err s cs.
  induction fuel as [|fuel IH]; intros count offset wf err s cs Hs Hp Herr Hw Ho Hc Hfuel Hv Hf Hn;
    [simpl in Hfuel; lia|].
  cbn [backend_zero_loop]. rewrite (proj2 (Z.eqb_neq count 0)) by lia.
  pose proof (pr_size _ Hp) as [_ Hsz].
  set (limit := Z.min count MAX_REQUEST_SIZE).
  assert (Hl : 0 < limit <= count) by (unfold limit, MAX_REQUEST_SIZE; lia).
  pose proof (chunk_flags_ok c (limit =? count) nf wf Hf Hn) as (Hf' & Hcl & Hfua).
  fold (chunk_flags (limit =? count) nf wf). set (wf' := chunk_flags _ _ _) in *.
  apply wp_bind. eapply wp_mono.
  { eapply (wp_backend_pwrite_post _ _ _ _ _ _ s c cs); [done..| |].
    - split; [done|].
      split; [apply (valid_range_prefix c offset count); (done || lia)|done].
    - apply (dw_pwrite _ _ _ _ _ _ c cs); [done..|apply length_zeroes]. }
  intros [r e] s1 (Hfr & [He _] & Hd). destruct (Z.eqb_spec r (-1)) as [|Hr]; [by apply wp_ret|].
  specialize (Hd Hr). destruct (decide (limit = count)) as [E|E].
  { rewrite E, Z.sub_diag in *. destruct fuel; simpl; intros _ x;
      by rewrite Hd, written_zeroes. }
  destruct (valid_range_suffix c offset count limit) as [Hv' Ho']; [lia..|done|].
  destruct (frame_ctx _ _ _ _ Hfr Hs) as [cs1 Hs1].
  eapply wp_mono; [apply (IH (count - limit) (u64 (offset + limit)) wf' e s1 cs1)|];
    try (done || lia).
  intros [r2 e2] s2 H2 Hr2 x. rewrite H2 by done. unfold zeroed at 1.
  rewrite Hd, written_zeroes, Ho'. unfold zeroed.
  repeat case_decide; (done || lia).
Qed.

(** C23: Emulated zeroing is correct and total: for a backend without
    native zeroing, a successful [backend_zero] of any valid range leaves
    exactly that range zero and every other byte unchanged, whatever the
    size of the request and the FUA mode. *)
Theorem backend_zero_zeroes count offset flags s c cs :
  s_ctx s = c :: cs -> primed c -> 0 <= offset -> 0 <= count <= UINT32_MAX ->
  may_zero c offset count flags -> c_can_zero c = NBDKIT_ZERO_EMULATE ->
  wp (backend_zero b count offset flags 0) (fun '(r, _) s' =>
    r <> -1 -> forall x, disk (s_world s') x = zeroed (disk (s_world s)) count offset x) s.
Proof.
  intros Hs Hp Ho Hc (Hw & Hz & Hv & Hfl & Hfua & Hfast) Hem. unfold backend_zero.
  pose proof (valid_range_bounds c offset count Ho Hc (proj2 (pr_size _ Hp)) Hv) as [Hpos _].
  apply wp_bind. eapply wp_check_connected; [done..|].
  apply wp_bind, wp_assert. split; [by apply Z.eqb_eq|].
  apply wp_bind, wp_assert. split; [by apply Z.ltb_lt|].
  apply wp_bind. eapply wp_valid_range; [done..|].
  apply wp_bind, wp_assert. split; [done|].
  apply wp_bind, wp_assert. split; [by apply Z.eqb_eq|].
  apply wp_bind, wp_assert. split; [by apply fua_assertion|].
  apply wp_bind, wp_assert.
  split; [destruct (has flags NBDKIT_FLAG_FAST_ZERO); [by apply Z.eqb_eq, Hfast|done]|].
  destruct (Z.eqb_spec (c_can_zero c) NBDKIT_ZERO_NATIVE) as [E|_]; [by rewrite Hem in E|].
  destruct (has flags NBDKIT_FLAG_FAST_ZERO); [by apply wp_ret|].
  apply (wp_backend_zero_loop_disk _ _ _ _ _ _ s c cs); try done; [lia|..].
  - unfold max_chunks, MAX_REQUEST_SIZE. limits. lia.
  - destruct (has flags NBDKIT_FLAG_FUA), (c_can_fua c =? NBDKIT_FUA_EMULATE); simpl; auto.
  - destruct (has flags NBDKIT_FLAG_FUA); simpl; [auto|done].
Qed.
End ZeroDisk.

Lemma ram_write_written w buf count offset x :
  length buf = Z.to_nat count -> ram_write w buf offset x = written w buf count offset x.
Proof.
  intros Hl. unfold ram_write, written. rewrite Hl.
  destruct (Z.leb_spec offset x), (Z.ltb_spec x (offset + Z.of_nat (Z.to_nat count))); simpl;
    case_decide; (done || lia).
Qed.

(** ** Plugins that keep a disk

    What the plugin documentation says of [.pwrite] and [.flush]:
    [disk] is what later reads return, [stable] what survives a crash. *)
Class PluginDisk {W} (p : nbdkit_plugin W) (disk stable : W -> Z -> Z) : Prop := {
  pd_pwrite f h buf count offset flags t w :
    p_pwrite p = Some f -> length buf = Z.to_nat count ->
    forall r t' w', f h buf count offset flags t w = Ok (r, t', w') -> r <> -1 ->
    (forall x, disk w' x = written (disk w) buf count offset x) /\
    (has flags NBDKIT_FLAG_FUA = true ->
     forall x, offset <= x < offset + count -> stable w' x = disk w' x);
  pd_flush f h flags t w :
    p_flush p = Some f ->
    forall r t' w', f h flags t w = Ok (r, t', w') ->
    r <> -1 -> (forall x, disk w' x = disk w x) /\ (forall x, stable w' x = disk w x);
}.

Section PluginDisk.
Context {W : Type} (p : nbdkit_plugin W) (disk stable : W -> Z -> Z).
Context `{!PluginLaws p} `{!PluginDisk p disk stable}.
Context (pwrite_ : Z -> list Z -> Z -> Z -> Z -> cb W Z).
Context (flush_ : Z -> Z -> cb W Z).
Hypothesis Hpwrite : p_pwrite p = Some pwrite_.
Hypothesis Hflush : p_flush p = Some flush_.
Implicit Types (s : st W) (c : context).

(** A flush makes everything on the disk stable. *)
Lemma wp_plugin_flush_disk flags err s c cs :
  s_ctx s = c :: cs ->
  wp (plugin_flush p flags err) (fun '(r, _) s' => r <> -1 ->
    (forall x, disk (s_world s') x = disk (s_world s) x) /\
    (forall x, stable (s_world s') x = disk (s_world s) x)) s.
Proof.
  intros Hs. unfold plugin_flush. apply wp_bind. eapply wp_handle; [done|]. rewrite Hflush.
  apply wp_bind. eapply wp_call; [by eapply pl_flush|]. intros r t w E _. apply wp_bind.
  eapply wp_mono; [apply wp_set_err_if_failed_state|]. intros e s' ->. apply wp_ret. simpl.
  intros Hr. by apply (pd_flush flush_ (c_handle c) 0 (s_thread s) (s_world s) Hflush r t).
Qed.

(** The end of a writing callback: the disk is as the callback left it,
    and stable if a flush was needed. *)
Lemma wp_flush_and_return_disk need r err s c cs :
  s_ctx s = c :: cs ->
  wp (flush_and_return p need r err) (fun '(r', _) s' => r' <> -1 -> r <> -1 /\
    (forall x, disk (s_world s') x = disk (s_world s) x) /\
    (if need : bool then forall x, stable (s_world s') x = disk (s_world s) x
     else s_world s' = s_world s)) s.
Proof.
  intros Hs. unfold flush_and_return. apply wp_bind.
  destruct (Z.eqb_spec r (-1)) as [->|Hr]; [|destruct need]; simpl.
  - apply wp_ret, wp_bind. eapply wp_mono; [apply wp_set_err_if_unset_state|].
    intros e s' ->. by apply wp_ret.
  - eapply wp_mono; [by eapply wp_plugin_flush_disk|]. intros [r1 e1] s1 H1.
    apply wp_bind. eapply wp_mono; [apply wp_set_err_if_unset_state|].
    intros e s' ->. apply wp_ret. intros Hr1. destruct (H1 Hr1). auto.
  - apply wp_ret, wp_bind. eapply wp_mono; [apply wp_set_err_if_unset_state|].
    intros e s' ->. by apply wp_ret.
Qed.

Lemma has_clear flags m : has (clear flags m) m = false.
Proof.
  unfold has, clear. apply negb_false_iff, Z.eqb_eq, Z.bits_inj'. intros k Hk.
  rewrite Z.land_spec, Z.ldiff_spec, Z.bits_0. by destruct (Z.testbit flags k), (Z.testbit m k).
Qed.

(** [plugin_pwrite]: the buffer is on the disk, and stable for FUA. *)
Lemma wp_plugin_pwrite_disk b buf count offset flags err s c cs :
  s_ctx s = c :: cs -> primed c -> length buf = Z.to_nat count ->
  wp (plugin_pwrite p b buf count offset flags err) (fun '(r, _) s' => r <> -1 ->
    (forall x, disk (s_world s') x = written (disk (s_world s)) buf count offset x) /\
    (has flags NBDKIT_FLAG_FUA = true ->
     forall x, offset <= x < offset + count ->
       stable (s_world s') x = nth (Z.to_nat (x - offset)) buf 0)) s.
Proof.
  intros Hs Hp Hl. unfold plugin_pwrite. apply wp_bind. eapply wp_emulate_fua; [done..|].
  set (fl := if _ : bool then (_, true) else _).
  assert (Hfl : fl.2 = true \/ (has flags NBDKIT_FLAG_FUA = true -> fl = (flags, false))).
  { subst fl. destruct (has flags NBDKIT_FLAG_FUA), (c_can_fua c =? _); simpl; auto. }
  destruct fl as [flags' need]; simpl in Hfl. apply wp_bind. eapply wp_handle; [done|].
  rewrite Hpwrite. apply wp_bind. eapply wp_call; [by eapply pl_pwrite|]. intros r t w E _.
  pose proof (pd_pwrite pwrite_ (c_handle c) buf count offset flags' (s_thread s) (s_world s)
    Hpwrite Hl r t w E) as Hw.
  eapply wp_mono; [by eapply wp_flush_and_return_disk|]. simpl.
  intros [r' e'] s' H Hr'. destruct (H Hr') as (Hr & Hd & Hst). destruct (Hw Hr) as [Hd' Hst'].
  split; [intros x; by rewrite Hd|]. intros Hfua x Hx.
  assert (Hx' : disk w x = nth (Z.to_nat (x - offset)) buf 0).
  { rewrite Hd'. unfold written. by rewrite decide_True. }
  destruct need; [by rewrite Hst|]. rewrite Hst. simpl.
  destruct Hfl as [|Hfl]; [done|]. specialize (Hfl Hfua). simplify_eq. by rewrite Hst'.
Qed.

#[export] Instance plugin_disk_writer : DiskWriter (plugin_functions p) disk.
Proof.
  intros buf count offset flags err s c cs Hs Hp Hl. simpl.
  eapply wp_mono; [by eapply wp_plugin_pwrite_disk|]. intros [r e] s' H Hr. by apply H.
Qed.

(** The fallback of [plugin_zero] for a request of one chunk. *)
Lemma wp_plugin_zero_loop_disk b fuel count offset flags r err s c cs :
  s_ctx s = c :: cs -> primed c -> 0 < count <= MAX_REQUEST_SIZE ->
  wp (plugin_zero_loop p b (S fuel) count offset flags r err) (fun '(r', _) s' =>
    r' <> -1 -> forall x, disk (s_world s') x = zeroed (disk (s_world s)) count offset x) s.
Proof.
  intros Hs Hp Hc. unfold plugin_zero_loop. fold (plugin_zero_loop p b).
  rewrite (proj2 (Z.eqb_neq count 0)), Z.min_l by lia. apply wp_bind.
  eapply wp_mono; [apply (wp_plugin_pwrite_disk b _ _ _ _ _ s c cs); [done..|apply length_zeroes]|].
  intros [r1 e1] s1 H1. destruct (Z.eqb_spec r1 (-1)) as [|Hr1]; [by apply wp_ret|].
  rewrite Z.sub_diag. destruct fuel; apply wp_ret; intros _ x;
    destruct (H1 Hr1) as [-> _]; apply written_zeroes.
Qed.

(** The loop writes the same range over and over: whatever the count, the
    bytes from [offset + MAX_REQUEST_SIZE] on are never written. *)
Lemma wp_plugin_zero_loop_stuck b fuel count offset flags r err s c cs :
  s_ctx s = c :: cs -> primed c -> err_ok err -> 0 <= count <= Z.of_nat fuel * MAX_REQUEST_SIZE ->
  wp (plugin_zero_loop p b fuel count offset flags r err) (fun '(r', _) s' =>
    r' <> -1 -> forall x, offset + MAX_REQUEST_SIZE <= x ->
      disk (s_world s') x = disk (s_world s) x) s.
Proof.
  revert count r err s cs. induction fuel as [|fuel IH]; intros count r err s cs Hs Hp Herr Hc;
    unfold plugin_zero_loop; fold (plugin_zero_loop p b).
  - replace count with 0 by lia. by apply wp_ret.
  - destruct (Z.eqb_spec count 0); [by apply wp_ret|]. apply wp_bind.
    eapply wp_mono; [apply wp_and; [by apply (wp_plugin_pwrite p b _ _ _ _ _ s c cs)|
      apply (wp_plugin_pwrite_disk b _ _ _ _ _ s c cs); [done..|apply length_zeroes]]|].
    intros [r1 e1] s1 [[Hf [He _] _] H1]. destruct (Z.eqb_spec r1 (-1)) as [|Hr1]; [by apply wp_ret|].
    destruct (H1 Hr1) as [Hd _]. destruct (frame_ctx _ _ _ _ Hf Hs) as [cs1 Hs1].
    eapply wp_mono; [apply (IH _ r1 e1 s1 cs1); [done..|]; simpl in *; unfold MAX_REQUEST_SIZE in *; lia|].
    intros [r2 e2] s2 H2 Hr2 x Hx. rewrite H2, Hd, written_zeroes by done.
    unfold zeroed. case_decide; [lia|done].
Qed.

Lemma wp_plugin_zero_loop_frame b fuel count offset flags r s c cs :
  s_ctx s = c :: cs -> primed c -> 0 < count <= UINT32_MAX ->
  count <= Z.of_nat fuel * MAX_REQUEST_SIZE -> t_err (s_thread s) = 0 ->
  wp (plugin_zero_loop p b fuel count offset flags r 0) (fun _ s' => frame s s') s.
Proof.
  intros Hs Hp Hc Hfuel Ht. eapply wp_mono.
  - apply (wp_plugin_zero_loop p b fuel count offset flags r 0 s s c cs); try done; try lia.
    by rewrite Ht.
  - by intros [r' e'] s' [].
Qed.

(** [.zero] is refused with [EOPNOTSUPP] and changes nothing. *)
Definition zero_unsupported (zero_ : Z -> Z -> Z -> Z -> cb W Z) : Prop :=
  forall h count offset flags t w, exists t',
    zero_ h count offset flags t w = Ok (-1, t', w) /\ t_err t' = EOPNOTSUPP.

Lemma get_errno_set s :
  t_err (s_thread s) <> 0 -> get_errno p s = Ok (t_err (s_thread s), s).
Proof.
  intros H. unfold get_errno, threadlocal_get_errno, get_errno_c. unfold_m.
  by rewrite (proj2 (Z.eqb_neq _ _) H); simpl; rewrite (proj2 (Z.eqb_neq _ _) H).
Qed.

(** [plugin_zero] with such a [.zero] runs the fallback loop on the
    unchanged disk, then the flush. *)
Lemma wp_plugin_zero_fallback (R : (Z -> Z) -> (Z -> Z) -> Prop) zero_ b count offset flags s c cs :
  (forall d1 d2 d3, (forall x, d3 x = d2 x) -> R d1 d2 -> R d1 d3) ->
  p_zero p = Some zero_ -> zero_unsupported zero_ ->
  s_ctx s = c :: cs -> primed c -> c_can_zero c = NBDKIT_ZERO_NATIVE -> 0 < count ->
  has flags NBDKIT_FLAG_FAST_ZERO = false ->
  (forall flags' s1, s_ctx s1 = c :: cs -> s_world s1 = s_world s ->
     t_err (s_thread s1) = 0 ->
     wp (plugin_zero_loop p b max_chunks count offset flags' (-1) 0) (fun '(r, _) s' =>
       frame s1 s' /\ (r <> -1 -> R (disk (s_world s)) (disk (s_world s')))) s1) ->
  wp (plugin_zero p b count offset flags 0) (fun '(r, _) s' =>
    r <> -1 -> R (disk (s_world s)) (disk (s_world s'))) s.
Proof.
  intros HR Hz Hun Hs Hp Hcz Hc Hfast Hloop. unfold plugin_zero. apply wp_bind.
  eapply wp_emulate_fua; [done..|]. set (fl := if _ : bool then (_, true) else _).
  destruct fl as [flags' need]. rewrite (proj2 (Z.eqb_neq count 0)) by lia.
  apply wp_bind. eapply wp_intro; [by eapply known_can_zero|]. apply wp_bind.
  rewrite Hcz, Hfast. change (NBDKIT_ZERO_NATIVE =? NBDKIT_ZERO_NATIVE) with true. cbv iota.
  unfold plugin_zero_native. apply wp_bind, wp_modify, wp_bind. eapply wp_handle; [done|].
  rewrite Hz. apply wp_bind. eapply wp_call; [by eapply pl_zero|]. intros r t w E0 _. revert E0.
  destruct (Hun (c_handle c) count offset flags' (s_thread (set_thread (with_errno 0) s))
    (s_world (set_thread (with_errno 0) s))) as (t' & -> & Ht'). intros E. simplify_eq.
  apply wp_bind. change (-1 =? -1) with true. cbv iota.
  eapply wp_intro; [apply get_errno_set; simpl; by rewrite Ht'|]. simpl. rewrite Ht'. apply wp_ret.
  apply wp_bind, wp_modify, wp_bind. eapply wp_mono; [by apply Hloop|].
  intros [r1 e1] s1 [Hf H1]. destruct (frame_ctx _ _ _ _ Hf Hs) as [cs1 Hs1].
  eapply wp_mono; [by eapply wp_flush_and_return_disk|].
  intros [r2 e2] s2 H2 Hr2. destruct (H2 Hr2) as (Hr1 & Hd & _). eapply HR; [exact Hd|]. auto.
Qed.

(** The fallback of [plugin_zero] (a plugin whose [.zero] says
    [EOPNOTSUPP]) zeroes exactly the requested range when the request is at
    most [MAX_REQUEST_SIZE] bytes. *)
Lemma plugin_zero_fallback_correct zero_ b count offset flags s c cs :
  p_zero p = Some zero_ -> zero_unsupported zero_ ->
  s_ctx s = c :: cs -> primed c -> c_can_zero c = NBDKIT_ZERO_NATIVE ->
  0 < count <= MAX_REQUEST_SIZE -> has flags NBDKIT_FLAG_FAST_ZERO = false ->
  wp (plugin_zero p b count offset flags 0) (fun '(r, _) s' =>
    r <> -1 -> forall x, disk (s_world s') x = zeroed (disk (s_world s)) count offset x) s.
Proof.
  intros Hz Hun Hs Hp Hcz Hc Hfast.
  eapply (wp_plugin_zero_fallback (fun d d' => forall x, d' x = zeroed d count offset x) zero_);
    try done; [by intros d1 d2 d3 H H' x; rewrite H|lia|].
  intros flags' s1 Hs1 Hw1 Ht1. eapply wp_mono; [apply wp_and|].
  - apply (wp_plugin_zero_loop_frame b max_chunks count offset flags' (-1) s1 c cs);
      try done; unfold max_chunks, MAX_REQUEST_SIZE in *; limits; lia.
  - by apply (wp_plugin_zero_loop_disk b 63 _ _ _ _ _ s1 c cs).
  - intros [r e] s' [Hf H]. split; [done|]. by rewrite <- Hw1.
Qed.

(** The same fallback for a larger request is wrong: [plugin_zero]
    reports success but has zeroed nothing from [offset + MAX_REQUEST_SIZE]
    on, because its loop does not advance [offset]. *)
Lemma plugin_zero_fallback_incomplete zero_ b count offset flags s c cs :
  p_zero p = Some zero_ -> zero_unsupported zero_ ->
  s_ctx s = c :: cs -> primed c -> c_can_zero c = NBDKIT_ZERO_NATIVE ->
  MAX_REQUEST_SIZE < count <= UINT32_MAX -> has flags NBDKIT_FLAG_FAST_ZERO = false ->
  wp (plugin_zero p b count offset flags 0) (fun '(r, _) s' =>
    r <> -1 -> forall x, offset + MAX_REQUEST_SIZE <= x ->
      disk (s_world s') x = disk (s_world s) x) s.
Proof.
  intros Hz Hun Hs Hp Hcz Hc Hfast.
  assert (0 < MAX_REQUEST_SIZE) by done.
  assert (count <= Z.of_nat max_chunks * MAX_REQUEST_SIZE)
    by (unfold max_chunks, MAX_REQUEST_SIZE; limits; lia).
  eapply (wp_plugin_zero_fallback
    (fun d d' => forall x, offset + MAX_REQUEST_SIZE <= x -> d' x = d x) zero_);
    try done; [by intros d1 d2 d3 H' H'' x Hx; rewrite H'; auto|lia|].
  intros flags' s1 Hs1 Hw1 Ht1. eapply wp_mono; [apply wp_and|].
  - apply (wp_plugin_zero_loop_frame b max_chunks count offset flags' (-1) s1 c cs); (done || lia).
  - apply (wp_plugin_zero_loop_stuck b max_chunks _ _ _ _ _ s1 c cs); (done || lia).
  - intros [r e] s' [Hf H']. split; [done|]. by rewrite <- Hw1.
Qed.

(** A write with FUA is durable when it is acknowledged: after a
    successful [backend_pwrite] with [NBDKIT_FLAG_FUA] the written bytes are
    on the disk and in stable storage, both when the plugin does FUA itself
    and when the server emulates it with a flush. *)
Lemma fua_write_durable buf count offset flags err s c cs :
  s_ctx s = c :: cs -> primed c -> err_ok err -> length buf = Z.to_nat count ->
  may_write c offset count flags -> has flags NBDKIT_FLAG_FUA = true ->
  wp (backend_pwrite (plugin_functions p) buf count offset flags err) (fun '(r, _) s' =>
    r <> -1 ->
    (forall x, disk (s_world s') x = written (disk (s_world s)) buf count offset x) /\
    (forall x, offset <= x < offset + count ->
       stable (s_world s') x = nth (Z.to_nat (x - offset)) buf 0)) s.
Proof.
  intros Hs Hp Herr Hl Hw Hfua. eapply wp_mono.
  { eapply (wp_backend_pwrite_post _ _ _ _ _ _ _ s c cs); [done..|].
    by apply (wp_plugin_pwrite_disk (plugin_caps p) _ _ _ _ _ s c cs). }
  intros [r e] s' (_ & _ & H) Hr. destruct (H Hr). auto.
Qed.
End PluginDisk.

(** ** Witnesses *)

#[export] Instance ram_disk_writer size : DiskWriter (ram_backend size) (fun w => w).
Proof.
  intros buf count offset flags err s c cs Hs Hp Hl. simpl.
  apply wp_bind, wp_modify, wp_ret. intros _ x. by apply ram_write_written.
Qed.

#[export] Instance ram_plugin_disk size can_fua :
  PluginDisk (ram_plugin size can_fua) ram_disk ram_stable.
Proof.
  split.
  - intros f h buf count offset flags t w [= <-] Hl r t' w' [= <- <- <-] _. simpl.
    split; [intros x; by apply ram_write_written|]. intros -> x Hx.
    rewrite !(ram_write_written _ _ count) by done. unfold written. by rewrite !decide_True.
  - by intros f h flags t w [= <-] r t' w' [= <- <- <-].
Qed.

Lemma ram_plugin_laws_1M can_fua : quad can_fua -> PluginLaws (ram_plugin 1048576 can_fua).
Proof. apply ram_plugin_laws. unfold INT64_MAX. lia. Qed.

Lemma backend_zero_zeroes_witness :
  wp (backend_zero (ram_backend 1048576) 4096 512 NBDKIT_FLAG_FUA 0) (fun '(r, _) s' =>
    r <> -1 -> forall x, s_world s' x = zeroed (fun _ => 7) 4096 512 x)
    (witness_state (fun _ => 7)).
Proof.
  apply (backend_zero_zeroes (ram_backend 1048576) (fun w => w) 4096 512 NBDKIT_FLAG_FUA
    (witness_state (fun _ => 7)) witness_context []);
    [reflexivity|apply witness_primed|lia|unfold UINT32_MAX; lia| |reflexivity].
  repeat split; simpl; (reflexivity || lia || discriminate).
Defined.

Lemma fua_write_durable_witness :
  wp (backend_pwrite (plugin_functions (ram_plugin 1048576 1)) [1; 2; 3] 3 100 NBDKIT_FLAG_FUA 0)
    (fun '(r, _) s' => r <> -1 ->
      (forall x, ram_disk (s_world s') x = written (fun _ => 7) [1; 2; 3] 3 100 x) /\
      (forall x, 100 <= x < 100 + 3 ->
         ram_stable (s_world s') x = nth (Z.to_nat (x - 100)) [1; 2; 3] 0))
    (witness_state (Ram (fun _ => 7) (fun _ => 0))).
Proof.
  assert (PluginLaws (ram_plugin 1048576 1)) by (apply ram_plugin_laws_1M; unfold quad; lia).
  eapply (fua_write_durable (ram_plugin 1048576 1) ram_disk ram_stable _ _ eq_refl eq_refl
    [1; 2; 3] 3 100 NBDKIT_FLAG_FUA 0 (witness_state (Ram (fun _ => 7) (fun _ => 0)))
    witness_context []); [reflexivity|apply witness_primed|apply err_ok_0|reflexivity| |reflexivity].
  repeat split; simpl; (reflexivity || lia).
Defined.

Definition native_zero_context : context := ctx_can_zero 2 witness_context.

Lemma native_zero_primed : primed native_zero_context.
Proof. split; simpl; limits; (done || lia || auto). Qed.

Lemma plugin_zero_fallback_correct_witness :
  wp (plugin_zero (ram_plugin 1048576 2) (plugin_caps (ram_plugin 1048576 2)) 100 50 0 0)
    (fun '(r, _) s' => r <> -1 -> forall x, ram_disk (s_world s') x = zeroed (fun _ => 7) 100 50 x)
    (set_ctx [native_zero_context] (witness_state (Ram (fun _ => 7) (fun _ => 0)))).
Proof.
  assert (PluginLaws (ram_plugin 1048576 2)) by (apply ram_plugin_laws_1M; unfold quad; lia).
  eapply (plugin_zero_fallback_correct (ram_plugin 1048576 2) ram_disk ram_stable _ _
    eq_refl eq_refl _ _ 100 50 0 (set_ctx [native_zero_context]
      (witness_state (Ram (fun _ => 7) (fun _ => 0)))) native_zero_context []);
    [reflexivity|by eexists|reflexivity|apply native_zero_primed|reflexivity| |reflexivity].
  unfold MAX_REQUEST_SIZE. lia.
Defined.

Lemma plugin_zero_fallback_incomplete_witness :
  wp (plugin_zero (ram_plugin 1048576 2) (plugin_caps (ram_plugin 1048576 2))
        (2 * MAX_REQUEST_SIZE) 0 0 0)
    (fun '(r, _) s' => r <> -1 -> forall x, 0 + MAX_REQUEST_SIZE <= x ->
      ram_disk (s_world s') x = 7)
    (set_ctx [native_zero_context] (witness_state (Ram (fun _ => 7) (fun _ => 0)))).
Proof.
  assert (PluginLaws (ram_plugin 1048576 2)) by (apply ram_plugin_laws_1M; unfold quad; lia).
  eapply (plugin_zero_fallback_incomplete (ram_plugin 1048576 2) ram_disk ram_stable _ _
    eq_refl eq_refl _ _ (2 * MAX_REQUEST_SIZE) 0 0 (set_ctx [native_zero_context]
      (witness_state (Ram (fun _ => 7) (fun _ => 0)))) native_zero_context []);
    [reflexivity|by eexists|reflexivity|apply native_zero_primed|reflexivity| |reflexivity].
  unfold MAX_REQUEST_SIZE, UINT32_MAX. lia.
Defined.
