(* ===== verification/Filter.v ===== *)
(** * Filters

    Models [server/filters.c]: a filter is a backend that sits on top of
    another one.  Each of its callbacks is optional; an omitted one passes
    the request on to the next layer with the corresponding [backend_*]
    function.  The filter is a parameter: [nbdkit_filter] is its table of
    callbacks, which receive the operations of the next layer
    ([struct nbdkit_next_ops]).

    Theorems: a filter without callbacks is transparent for data requests,
    and a stack of layers is prepared from the plugin outwards, finalized
    and closed from the outermost layer inwards. *)

From S2P Require Import Prelude NbdProtocol Extents Exports Server Connections Backend.

(** ** [struct nbdkit_next_ops], for the next layer of the current context *)

Record nbdkit_next {W : Type} : Type := NextOps {
  n_prepare : M W Z;
  n_finalize : M W Z;
  n_export_description : M W (option (list Z));
  n_get_size : M W Z;
  n_block_size : M W (Z * (Z * Z * Z));
  n_can_write : M W Z;
  n_can_flush : M W Z;
  n_is_rotational : M W Z;
  n_can_trim : M W Z;
  n_can_zero : M W Z;
  n_can_fast_zero : M W Z;
  n_can_extents : M W Z;
  n_can_fua : M W Z;
  n_can_multi_conn : M W Z;
  n_can_cache : M W Z;
  n_pread : Z -> Z -> Z -> Z -> M W (Z * Z * list Z);
  n_pwrite : list Z -> Z -> Z -> Z -> Z -> M W (Z * Z);
  n_flush : Z -> Z -> M W (Z * Z);
  n_trim : Z -> Z -> Z -> Z -> M W (Z * Z);
  n_zero : Z -> Z -> Z -> Z -> M W (Z * Z);
  n_extents : Z -> Z -> Z -> nbdkit_extents -> Z -> M W (Z * Z * nbdkit_extents);
  n_cache : Z -> Z -> Z -> Z -> M W (Z * Z);
}.
Arguments nbdkit_next : clear implicits.
Arguments NextOps {W}.

Definition next_ops {W} (b : backend W) (rest : list (backend W)) : nbdkit_next W :=
  NextOps (on_next (backend_prepare (b :: rest))) (on_next (backend_finalize (b :: rest)))
    (on_next (backend_export_description b)) (on_next (backend_get_size b))
    (on_next (backend_block_size b)) (on_next (backend_can_write b))
    (on_next (backend_can_flush b)) (on_next (backend_is_rotational b))
    (on_next (backend_can_trim b)) (on_next (backend_can_zero b))
    (on_next (backend_can_fast_zero b)) (on_next (backend_can_extents b))
    (on_next (backend_can_fua b)) (on_next (backend_can_multi_conn b))
    (on_next (backend_can_cache b))
    (fun count offset flags err => on_next (backend_pread b count offset flags err))
    (fun buf count offset flags err => on_next (backend_pwrite b buf count offset flags err))
    (fun flags err => on_next (backend_flush b flags err))
    (fun count offset flags err => on_next (backend_trim b count offset flags err))
    (fun count offset flags err => on_next (backend_zero b count offset flags err))
    (fun count offset flags exts err => on_next (backend_extents b count offset flags exts err))
    (fun count offset flags err => on_next (backend_cache b count offset flags err)).

(** ** [struct nbdkit_filter] *)

Record nbdkit_filter {W : Type} : Type := Filter {
  f_thread_model : option Z;
  f_list_exports : option ((bool -> nbdkit_exports -> M W (Z * nbdkit_exports)) ->
    bool -> bool -> nbdkit_exports -> M W (Z * nbdkit_exports));
  f_default_export : option ((bool -> M W (option (list Z))) ->
    bool -> bool -> M W (option (list Z)));
  f_open : option ((bool -> list Z -> M W Z) -> bool -> list Z -> bool -> M W Z);
  f_close : option (Z -> M W unit);
  f_prepare : option (nbdkit_next W -> Z -> bool -> M W Z);
  f_finalize : option (nbdkit_next W -> Z -> M W Z);
  f_export_description : option (nbdkit_next W -> Z -> M W (option (list Z)));
  f_get_size : option (nbdkit_next W -> Z -> M W Z);
  f_block_size : option (nbdkit_next W -> Z -> M W (Z * (Z * Z * Z)));
  f_can_write : option (nbdkit_next W -> Z -> M W Z);
  f_can_flush : option (nbdkit_next W -> Z -> M W Z);
  f_is_rotational : option (nbdkit_next W -> Z -> M W Z);
  f_can_trim : option (nbdkit_next W -> Z -> M W Z);
  f_can_zero : option (nbdkit_next W -> Z -> M W Z);
  f_can_fast_zero : option (nbdkit_next W -> Z -> M W Z);
  f_can_extents : option (nbdkit_next W -> Z -> M W Z);
  f_can_fua : option (nbdkit_next W -> Z -> M W Z);
  f_can_multi_conn : option (nbdkit_next W -> Z -> M W Z);
  f_can_cache : option (nbdkit_next W -> Z -> M W Z);
  f_pread : option (nbdkit_next W -> Z -> Z -> Z -> Z -> Z -> M W (Z * Z * list Z));
  f_pwrite : option (nbdkit_next W -> Z -> list Z -> Z -> Z -> Z -> Z -> M W (Z * Z));
  f_flush : option (nbdkit_next W -> Z -> Z -> Z -> M W (Z * Z));
  f_trim : option (nbdkit_next W -> Z -> Z -> Z -> Z -> Z -> M W (Z * Z));
  f_zero : option (nbdkit_next W -> Z -> Z -> Z -> Z -> Z -> M W (Z * Z));
  f_extents : option (nbdkit_next W -> Z -> Z -> Z -> Z -> nbdkit_extents -> Z ->
    M W (Z * Z * nbdkit_extents));
  f_cache : option (nbdkit_next W -> Z -> Z -> Z -> Z -> Z -> M W (Z * Z));
}.
Arguments nbdkit_filter : clear implicits.
Arguments Filter {W}.

(** [NBDKIT_HANDLE_NOT_NEEDED]: some non-NULL pointer. *)
Definition HANDLE_NOT_NEEDED : Z := 1.

Section Filter.
Context {W : Type} (f : nbdkit_filter W).
(* b->next and the layers below it *)
Context (b : backend W) (rest : list (backend W)).

Definition next : nbdkit_next W := next_ops b rest.

(** Call a callback with [c_next] and [c->handle], or pass on. *)
Definition layer {A} (cb : option (nbdkit_next W -> Z -> M W A)) (pass : M W A) : M W A :=
  match cb with
  | Some g => c ← cur; g next (c_handle c)
  | None => pass
  end.

Definition filter_thread_model (model : Z) : Z :=
  let fm := match f_thread_model f with
            | Some m => m
            | None => NBDKIT_THREAD_MODEL_PARALLEL
            end in
  if fm <? model then fm else model.

Definition filter_list_exports (readonly is_tls : bool) (exps : nbdkit_exports)
    : M W (Z * nbdkit_exports) :=
  match f_list_exports f with
  | Some g => g (backend_list_exports b) readonly is_tls exps
  | None => backend_list_exports b readonly exps
  end.

Definition filter_default_export (readonly is_tls : bool) : M W (option (list Z)) :=
  match f_default_export f with
  | Some g => g (backend_default_export b) readonly is_tls
  | None => backend_default_export b readonly
  end.

(** [next_open]: open the next layer and hang its context behind ours. *)
Definition next_open (readonly : bool) (exportname : list Z) : M W Z :=
  c ← cur;
  old ← has_next;
  ok ← backend_open (b :: rest) readonly exportname;
  if ok : bool then
    modify (fun s => set_ctx (c :: s_ctx s) s);;
    cassert (negb old);;
    mret 0
  else
    modify (set_ctx [c]);; mret (-1).

Definition filter_open (readonly : bool) (exportname : list Z) (is_tls : bool) : M W Z :=
  match f_open f with
  | Some g => g next_open readonly exportname is_tls
  | None =>
      r ← next_open readonly exportname;
      mret (if r =? -1 then 0 else HANDLE_NOT_NEEDED)
  end.

Definition filter_close : M W unit :=
  c ← cur;
  cassert (negb (c_handle c =? 0));;
  match f_close f with Some g => g (c_handle c) | None => mret tt end.

Definition filter_prepare (readonly : bool) : M W Z :=
  match f_prepare f with
  | Some g => c ← cur; r ← g next (c_handle c) readonly; mret (if r =? -1 then -1 else 0)
  | None => mret 0
  end.

Definition filter_finalize : M W Z :=
  match f_finalize f with
  | Some g => c ← cur; r ← g next (c_handle c); mret (if r =? -1 then -1 else 0)
  | None => mret 0
  end.

Definition filter_export_description : M W (option (list Z)) :=
  layer (f_export_description f) (n_export_description next).
Definition filter_get_size : M W Z := layer (f_get_size f) (n_get_size next).
Definition filter_block_size : M W (Z * (Z * Z * Z)) :=
  layer (f_block_size f) (n_block_size next).
Definition filter_can_write : M W Z := layer (f_can_write f) (n_can_write next).
Definition filter_can_flush : M W Z := layer (f_can_flush f) (n_can_flush next).
Definition filter_is_rotational : M W Z := layer (f_is_rotational f) (n_is_rotational next).
Definition filter_can_trim : M W Z := layer (f_can_trim f) (n_can_trim next).
Definition filter_can_zero : M W Z := layer (f_can_zero f) (n_can_zero next).
Definition filter_can_fast_zero : M W Z := layer (f_can_fast_zero f) (n_can_fast_zero next).
Definition filter_can_extents : M W Z := layer (f_can_extents f) (n_can_extents next).
Definition filter_can_fua : M W Z := layer (f_can_fua f) (n_can_fua next).
Definition filter_can_multi_conn : M W Z := layer (f_can_multi_conn f) (n_can_multi_conn next).
Definition filter_can_cache : M W Z := layer (f_can_cache f) (n_can_cache next).

Definition filter_pread (count offset flags err : Z) : M W (Z * Z * list Z) :=
  match f_pread f with
  | Some g => c ← cur; g next (c_handle c) count offset flags err
  | None => n_pread next count offset flags err
  end.

Definition filter_pwrite (buf : list Z) (count offset flags err : Z) : M W (Z * Z) :=
  match f_pwrite f with
  | Some g => c ← cur; g next (c_handle c) buf count offset flags err
  | None => n_pwrite next buf count offset flags err
  end.

Definition filter_flush (flags err : Z) : M W (Z * Z) :=
  match f_flush f with
  | Some g => c ← cur; g next (c_handle c) flags err
  | None => n_flush next flags err
  end.

Definition filter_trim (count offset flags err : Z) : M W (Z * Z) :=
  match f_trim f with
  | Some g => c ← cur; g next (c_handle c) count offset flags err
  | None => n_trim next count offset flags err
  end.

Definition filter_zero (count offset flags err : Z) : M W (Z * Z) :=
  match f_zero f with
  | Some g => c ← cur; g next (c_handle c) count offset flags err
  | None => n_zero next count offset flags err
  end.

Definition filter_extents (count offset flags : Z) (extents : nbdkit_extents) (err : Z)
    : M W (Z * Z * nbdkit_extents) :=
  match f_extents f with
  | Some g => c ← cur; g next (c_handle c) count offset flags extents err
  | None => n_extents next count offset flags extents err
  end.

Definition filter_cache (count offset flags err : Z) : M W (Z * Z) :=
  match f_cache f with
  | Some g => c ← cur; g next (c_handle c) count offset flags err
  | None => n_cache next count offset flags err
  end.

(** [filter_functions], registered at index [b->next->i + 1]. *)
Definition filter_functions : backend W :=
  Backend (b_i b + 1) filter_list_exports filter_default_export filter_open filter_prepare
    filter_finalize filter_close filter_export_description filter_get_size
    filter_block_size filter_can_write filter_can_flush filter_is_rotational
    filter_can_trim filter_can_zero filter_can_fast_zero filter_can_extents filter_can_fua
    filter_can_multi_conn filter_can_cache filter_pread filter_pwrite filter_flush
    filter_trim filter_zero filter_extents filter_cache.
End Filter.

(** The filter that has no callbacks. *)
Definition nop_filter {W} : nbdkit_filter W :=
  Filter None None None None None None None None None None None None None None None None
    None None None None None None None None None None None.

(** ** Transparency *)

(** Partial correctness of the result, whatever the state. *)
Definition ensures {W A} (m : M W A) (P : A -> Prop) : Prop :=
  forall s a s', m s = Ok (a, s') -> P a.

(** A failure comes with an error number. *)
Definition has_errno (r err : Z) : Prop := r = -1 -> err <> 0.

Section Ensures.
Context {W : Type}.

Lemma ensures_bind {A B} (m : M W A) (k : A -> M W B) P :
  (forall a, ensures (k a) P) -> ensures (m ≫= k) P.
Proof.
  intros Hk s b s'. unfold mbind, M_bind. destruct (m s) as [[a s1]|]; [|done]. apply Hk.
Qed.

Lemma ensures_ret {A} (a : A) (P : A -> Prop) : P a -> ensures (W:=W) (mret a) P.
Proof. intros H s a' s'. by intros [= <- <-]. Qed.

Lemma ensures_assert_err re :
  ensures (assert_err (W:=W) re) (fun '(r, e) => has_errno r e).
Proof.
  destruct re as [r e]. intros s [r' e'] s'. unfold assert_err. unfold_m.
  destruct (Z.eqb_spec r (-1)) as [->|Hr].
  - destruct (Z.eqb_spec e 0); simpl; [done|]. intros [= <- <- <-]. by intros _.
  - intros [= <- <- <-]. by intros ?.
Qed.

Lemma ensures_assert_err_with {A} re (a : A) :
  ensures (W:=W) ('(r, e) ← assert_err re; mret (r, e, a)) (fun '(r, e, _) => has_errno r e).
Proof.
  intros s [[r e] a'] s'. unfold mbind, M_bind.
  pose proof (ensures_assert_err re s) as H.
  destruct (assert_err re s) as [[[r1 e1] s1]|]; [|done]. intros [= <- <- <- <-].
  by apply (H (r1, e1) s1).
Qed.
End Ensures.

(** Every data request that fails has an error number, also when the
    context of the layer is in an arbitrary state. *)
Section Failures.
Context {W : Type} (b : backend W).

Lemma backend_pread_fails count offset flags err :
  ensures (backend_pread b count offset flags err) (fun '(r, e, _) => has_errno r e).
Proof.
  unfold backend_pread. do 4 (apply ensures_bind; intros ?).
  apply ensures_bind. intros [[r e] buf]. apply ensures_assert_err_with.
Qed.

Lemma backend_pwrite_fails buf count offset flags err :
  ensures (backend_pwrite b buf count offset flags err) (fun '(r, e) => has_errno r e).
Proof.
  unfold backend_pwrite. do 7 (apply ensures_bind; intros ?). apply ensures_assert_err.
Qed.

Lemma backend_flush_fails flags err :
  ensures (backend_flush b flags err) (fun '(r, e) => has_errno r e).
Proof.
  unfold backend_flush. do 4 (apply ensures_bind; intros ?). apply ensures_assert_err.
Qed.

Lemma backend_trim_fails count offset flags err :
  ensures (backend_trim b count offset flags err) (fun '(r, e) => has_errno r e).
Proof.
  unfold backend_trim. do 8 (apply ensures_bind; intros ?). apply ensures_assert_err.
Qed.

Lemma backend_cache_loop_fails fuel count offset flags err :
  ensures (backend_cache_loop b fuel count offset flags err)
    (fun '(r, e) => has_errno r e).
Proof.
  revert count offset err. induction fuel as [|fuel IH]; intros count offset err s [r' e'] s';
    cbn [backend_cache_loop]; (destruct (Z.eqb_spec count 0); [by intros [= <- <- <-]|]);
    [done|].
  unfold mbind, M_bind.
  pose proof (backend_pread_fails (Z.min count MAX_REQUEST_SIZE) offset flags err s) as Hp.
  destruct (backend_pread _ _ _ _ _ s) as [[[[r e] buf] s1]|]; [|done].
  specialize (Hp _ _ eq_refl). simpl in Hp. destruct (Z.eqb_spec r (-1)) as [->|].
  - by intros [= <- <- <-].
  - apply IH.
Qed.

Lemma backend_cache_fails count offset flags err :
  ensures (backend_cache b count offset flags err) (fun '(r, e) => has_errno r e).
Proof.
  unfold backend_cache. apply ensures_bind. intros c.
  do 4 (apply ensures_bind; intros ?). case_match; [apply backend_cache_loop_fails|].
  apply ensures_bind. intros ?. apply ensures_assert_err.
Qed.
End Failures.

Section Transparent.
Context {W : Type} (b : backend W) (rest : list (backend W)).
Implicit Types (s : st W) (c : context).

Definition top : backend W := filter_functions nop_filter b rest.

(** The check of [assert_err] is a no-op on what the next layer returns. *)
Lemma pass_assert_err (m : M W (Z * Z)) s :
  ensures m (fun '(r, e) => has_errno r e) ->
  (re ← on_next m; assert_err re) s = on_next m s.
Proof.
  intros Hm. unfold mbind, M_bind, on_next. destruct (s_ctx s) as [|c [|c' cs]]; try done.
  destruct (m _) as [[[r e] s1]|] eqn:E; [|done]. specialize (Hm _ _ _ E). simpl in Hm.
  unfold assert_err. unfold_m. destruct (Z.eqb_spec r (-1)) as [->|]; [|done].
  by rewrite (proj2 (Z.eqb_neq e 0) (Hm eq_refl)).
Qed.

Lemma pass_assert_err_with {A} (m : M W (Z * Z * A)) s :
  ensures m (fun '(r, e, _) => has_errno r e) ->
  ('(r, e, a) ← on_next m; '(r, e) ← assert_err (r, e); mret (r, e, a)) s = on_next m s.
Proof.
  intros Hm. unfold mbind, M_bind, on_next. destruct (s_ctx s) as [|c [|c' cs]]; try done.
  destruct (m _) as [[[[r e] a] s1]|] eqn:E; [|done]. specialize (Hm _ _ _ E). simpl in Hm.
  unfold assert_err. unfold_m. destruct (Z.eqb_spec r (-1)) as [->|]; [|done].
  by rewrite (proj2 (Z.eqb_neq e 0) (Hm eq_refl)).
Qed.

(** A filter without callbacks is transparent: on an open stack every
    read, write, flush, trim and (native) cache request through the filter
    has exactly the outcome, the result and the effects of the same
    request on the layer below. *)
Lemma nop_filter_transparent s c cs :
  s_ctx s = c :: cs -> primed c ->
  (forall count offset err, valid_range c offset count = true ->
     backend_pread top count offset 0 err s = on_next (backend_pread b count offset 0 err) s) /\
  (forall buf count offset flags err, may_write c offset count flags ->
     backend_pwrite top buf count offset flags err s =
     on_next (backend_pwrite b buf count offset flags err) s) /\
  (forall err, c_can_flush c = 1 ->
     backend_flush top 0 err s = on_next (backend_flush b 0 err) s) /\
  (forall count offset flags err, may_write c offset count flags -> c_can_trim c = 1 ->
     backend_trim top count offset flags err s =
     on_next (backend_trim b count offset flags err) s) /\
  (forall count offset err, valid_range c offset count = true ->
     c_can_cache c = NBDKIT_CACHE_NATIVE ->
     backend_cache top count offset 0 err s = on_next (backend_cache b count offset 0 err) s).
Proof.
  intros Hs Hp. pose proof (check_connected_primed s c cs Hs Hp) as Hcc.
  pose proof (fun o n => valid_range_primed s c cs o n Hs Hp) as Hvr.
  repeat split.
  - intros count offset err Hv. unfold backend_pread at 1.
    rewrite (bind_run _ _ _ _ _ Hcc), (bind_run _ _ _ _ _ (Hvr _ _)), !bind_assert by done.
    apply pass_assert_err_with, backend_pread_fails.
  - intros buf count offset flags err (Hw & Hv & Hfl & Hfua). unfold backend_pwrite at 1.
    rewrite (bind_run _ _ _ _ _ Hcc), bind_assert by (by apply Z.eqb_eq).
    rewrite (bind_run _ _ _ _ _ (Hvr _ _)), !bind_assert;
      [|by apply fua_assertion|by apply Z.eqb_eq|done].
    apply pass_assert_err, backend_pwrite_fails.
  - intros err Hf. unfold backend_flush at 1.
    rewrite (bind_run _ _ _ _ _ Hcc), !bind_assert by (done || by apply Z.eqb_eq).
    apply pass_assert_err, backend_flush_fails.
  - intros count offset flags err (Hw & Hv & Hfl & Hfua) Ht. unfold backend_trim at 1.
    rewrite (bind_run _ _ _ _ _ Hcc), !bind_assert by (by apply Z.eqb_eq).
    rewrite (bind_run _ _ _ _ _ (Hvr _ _)), !bind_assert;
      [|by apply fua_assertion|by apply Z.eqb_eq|done].
    apply pass_assert_err, backend_trim_fails.
  - intros count offset err Hv Hc. unfold backend_cache at 1.
    rewrite (bind_run _ _ _ _ _ Hcc), bind_assert by (by rewrite Hc).
    rewrite (bind_run _ _ _ _ _ (Hvr _ _)), !bind_assert by done.
    rewrite Hc. apply pass_assert_err, backend_cache_fails.
Qed.
End Transparent.

Lemma nop_filter_transparent_witness :
  backend_pwrite (top (ram_backend 1048576) []) [1; 2] 2 10 0 0
    (set_ctx [witness_context; witness_context] (witness_state (fun _ => 0))) =
  on_next (backend_pwrite (ram_backend 1048576) [1; 2] 2 10 0 0)
    (set_ctx [witness_context; witness_context] (witness_state (fun _ => 0))).
Proof.
  destruct (nop_filter_transparent (ram_backend 1048576) []
    (set_ctx [witness_context; witness_context] (witness_state (fun _ => 0)))
    witness_context [witness_context]) as (_ & H & _);
    [reflexivity|apply witness_primed|].
  apply H. repeat split; simpl; (reflexivity || discriminate).
Defined.

(** ** The life cycle of a stack

    Layers that record their calls, over the log as the world. *)

Inductive event : Type := Prepared (i : Z) | Finalized (i : Z) | Closed (i : Z).

Definition record (e : event) : M (list event) unit :=
  modify (fun s => set_world (s_world s ++ [e]) s).

Record recording (b : backend (list event)) : Prop := Recording {
  rec_prepare ro : b_prepare b ro = (record (Prepared (b_i b));; mret 0);
  rec_finalize : b_finalize b = (record (Finalized (b_i b));; mret 0);
  rec_close : b_close b = record (Closed (b_i b));
}.

(** The plugin has index 0, each filter one more than the layer below. *)
Fixpoint indexed (bs : list (backend (list event))) : Prop :=
  match bs with
  | [] => True
  | b :: bs' => b_i b = Z.of_nat (length bs') /\ recording b /\ indexed bs'
  end.

Definition opened (c : context) : Prop := c_handle c <> 0 /\ c_state c = HANDLE_OPEN.

Definition connect (c : context) : context := ctx_state (Z.lor (c_state c) HANDLE_CONNECTED) c.

Lemma opened_check c : opened c ->
  negb (c_handle c =? 0) = true /\ has (c_state c) HANDLE_OPEN = true /\
  has (c_state c) HANDLE_CONNECTED = false.
Proof. intros [Hh ->]. by rewrite (proj2 (Z.eqb_neq _ _) Hh). Qed.

Lemma connect_check c : opened c ->
  has (c_state (connect c)) HANDLE_FAILED = false /\
  has (c_state (connect c)) HANDLE_CONNECTED = true /\
  has (c_state (connect c)) HANDLE_OPEN && negb (c_handle (connect c) =? 0) = true.
Proof. intros [Hh Hs]. unfold connect. simpl. rewrite Hs. by rewrite (proj2 (Z.eqb_neq _ _) Hh). Qed.

Section Lifecycle.
Implicit Types (bs : list (backend (list event))) (cs : list context).

Lemma seqZ_snoc n : 0 <= n -> seqZ 0 (n + 1) = seqZ 0 n ++ [n].
Proof. intros Hn. rewrite seqZ_app by lia. done. Qed.

Lemma prepare_stack bs cs t w k :
  bs <> [] -> indexed bs -> length cs = length bs -> Forall opened cs ->
  backend_prepare bs (St t w k cs) =
  Ok (0, St t (w ++ (Prepared <$> seqZ 0 (Z.of_nat (length bs)))) k (connect <$> cs)).
Proof.
  revert cs w. induction bs as [|b bs IH]; [done|].
  intros [|c cs] w _ (Hi & Hr & Hix) Hl Ho; [done|]. inversion Ho as [|?? Hoc Ho']; subst.
  destruct (opened_check c Hoc) as (E1 & E2 & E3).
  cbn [backend_prepare]. unfold cur, has_next. unfold_m. cbn [s_ctx]. rewrite E1, E2, E3.
  cbn [length] in *. rewrite Nat2Z.inj_succ, <- Z.add_1_r, seqZ_snoc, fmap_app by lia.
  destruct bs as [|b' bs].
  - destruct cs; [|done]. simpl in Hi. rewrite Hi. simpl. rewrite (rec_prepare _ Hr).
    unfold record, upd. unfold_m. simpl. by rewrite Hi.
  - destruct cs as [|c' cs]; [done|]. rewrite (proj2 (Z.eqb_neq (b_i b) 0)) by (cbn [length] in *; lia).
    unfold on_next, mret, M_ret. cbn [s_ctx set_ctx s_thread s_world s_conn negb andb].
    change (set_ctx (c' :: cs) (St t w k (c :: c' :: cs))) with (St t w k (c' :: cs)).
    rewrite (IH (c' :: cs) w); [|done..|cbn [length] in *; lia|done]. simpl.
    rewrite (rec_prepare _ Hr). unfold record, upd. unfold_m. simpl.
    rewrite <- app_assoc, Hi. done.
Qed.

Lemma finalize_stack bs cs t w k :
  bs <> [] -> indexed bs -> length cs = length bs -> Forall opened cs ->
  backend_finalize bs (St t w k (connect <$> cs)) =
  Ok (0, St t (w ++ (Finalized <$> reverse (seqZ 0 (Z.of_nat (length bs))))) k (connect <$> cs)).
Proof.
  revert cs w. induction bs as [|b bs IH]; [done|].
  intros [|c cs] w _ (Hi & Hr & Hix) Hl Ho; [done|]. inversion Ho as [|?? Hoc Ho']; subst.
  destruct (connect_check c Hoc) as (E1 & E2 & E3).
  cbn [backend_finalize]. unfold cur, has_next. unfold_m. cbn [s_ctx fmap list_fmap].
  rewrite E1, E2, E3. rewrite (rec_finalize _ Hr). unfold record. unfold_m. simpl.
  cbn [length] in *. rewrite Nat2Z.inj_succ, <- Z.add_1_r, seqZ_snoc, reverse_app by lia.
  destruct bs as [|b' bs].
  - destruct cs; [|done]. simpl in Hi. rewrite Hi. done.
  - destruct cs as [|c' cs]; [done|]. rewrite (proj2 (Z.eqb_neq (b_i b) 0)) by (cbn [length] in *; lia).
    unfold on_next, mret, M_ret. cbn [s_ctx set_ctx s_world s_thread s_conn set_world negb andb].
    specialize (IH (c' :: cs) (w ++ [Finalized (b_i b)])). cbn [fmap list_fmap] in IH.
    cbn [fmap list_fmap s_ctx set_world].
    change (set_ctx (connect c' :: (connect <$> cs)) (set_world (w ++ [Finalized (b_i b)])
      (St t w k (connect c :: connect c' :: (connect <$> cs)))))
      with (St t (w ++ [Finalized (b_i b)]) k (connect c' :: (connect <$> cs))).
    rewrite IH; [|done..|cbn [length] in *; lia|done]. simpl. by rewrite <- app_assoc, Hi.
Qed.

Lemma close_stack bs cs t w k :
  bs <> [] -> indexed bs -> length cs = length bs -> Forall opened cs ->
  backend_close bs (St t w k (connect <$> cs)) =
  Ok (tt, St t (w ++ (Closed <$> reverse (seqZ 0 (Z.of_nat (length bs))))) k []).
Proof.
  revert cs w. induction bs as [|b bs IH]; [done|].
  intros [|c cs] w _ (Hi & Hr & Hix) Hl Ho; [done|]. inversion Ho as [|?? Hoc Ho']; subst.
  destruct (connect_check c Hoc) as (_ & _ & E3). apply andb_true_iff in E3 as [E3 E4].
  cbn [backend_close]. unfold cur, has_next. unfold_m. cbn [s_ctx fmap list_fmap].
  rewrite E3, E4. rewrite (rec_close _ Hr). unfold record. unfold_m. simpl.
  cbn [length] in *. rewrite Nat2Z.inj_succ, <- Z.add_1_r, seqZ_snoc, reverse_app by lia.
  destruct bs as [|b' bs].
  - destruct cs; [|done]. simpl in Hi. by rewrite Hi.
  - destruct cs as [|c' cs]; [done|].
    etrans; [apply (IH (c' :: cs) (w ++ [Closed (b_i b)]));
      [done..|cbn [length] in *; lia|done]|].
    simpl. by rewrite <- app_assoc, Hi.
Qed.

(** C30: The life cycle of a stack of layers: [backend_prepare] reaches the
    plugin first and the outermost filter last, and [backend_finalize] and
    [backend_close] go the other way; every layer is called exactly once
    in each phase, and no context is left. *)
Theorem lifecycle_order bs cs t w k :
  bs <> [] -> indexed bs -> length cs = length bs -> Forall opened cs ->
  let n := Z.of_nat (length bs) in
  (r ← backend_prepare bs; r' ← backend_finalize bs; backend_close bs;; mret (r, r'))
    (St t w k cs) =
  Ok ((0, 0), St t (w ++ (Prepared <$> seqZ 0 n) ++ (Finalized <$> reverse (seqZ 0 n)) ++
                    (Closed <$> reverse (seqZ 0 n))) k []).
Proof.
  intros Hne Hix Hl Ho n. rewrite (bind_run _ _ _ _ _ (prepare_stack bs cs t w k Hne Hix Hl Ho)).
  rewrite (bind_run _ _ _ _ _ (finalize_stack bs cs t _ k Hne Hix Hl Ho)).
  rewrite (bind_run _ _ _ _ _ (close_stack bs cs t _ k Hne Hix Hl Ho)).
  unfold mret, M_ret. by rewrite <- !app_assoc.
Qed.
End Lifecycle.

(** A layer that only records. *)
Definition recorder (i : Z) : backend (list event) :=
  Backend i (fun _ _ exps => mret (0, exps)) (fun _ _ => mret (Some [])) (fun _ _ _ => mret 1)
    (fun _ => record (Prepared i);; mret 0) (record (Finalized i);; mret 0) (record (Closed i))
    (mret None) (mret 0) (mret (0, (0, 0, 0))) (mret 0) (mret 0) (mret 0) (mret 0) (mret 0)
    (mret 0) (mret 0) (mret 0) (mret 0) (mret 0)
    (fun _ _ _ err => mret (0, err, [])) (fun _ _ _ _ err => mret (0, err))
    (fun _ err => mret (0, err)) (fun _ _ _ err => mret (0, err))
    (fun _ _ _ err => mret (0, err)) (fun _ _ _ exts err => mret (0, err, exts))
    (fun _ _ _ err => mret (0, err)).

Lemma lifecycle_order_witness :
  (r ← backend_prepare [recorder 1; recorder 0]; r' ← backend_finalize [recorder 1; recorder 0];
   backend_close [recorder 1; recorder 0];; mret (r, r'))
    (St witness_thread [] witness_conn
       [ctx_state 1 witness_context; ctx_state 1 witness_context]) =
  Ok ((0, 0), St witness_thread
    [Prepared 0; Prepared 1; Finalized 1; Finalized 0; Closed 1; Closed 0] witness_conn []).
Proof.
  apply (lifecycle_order [recorder 1; recorder 0]
    [ctx_state 1 witness_context; ctx_state 1 witness_context] witness_thread [] witness_conn).
  - discriminate.
  - repeat split.
  - reflexivity.
  - repeat constructor; simpl; lia.
Defined.
