(* ===== verification/Protocol.v ===== *)
(** * The transmission phase

    Models [server/protocol.c]: receiving one request, validating it,
    executing it through the backend, and sending the reply.  Every worker
    thread of a connection runs [protocol_recv_request_send_reply] in a
    loop; the read, request and write locks make its three parts atomic,
    and the model is one such step. *)

From S2P Require Import Prelude NbdProtocol Extents Exports Server Connections Backend.

(** [base_allocation_id], the identifier of the only metadata context. *)
Definition base_allocation_id : Z := 1.

Definition BUFSIZ : Z := 8192.

(** ** Validation *)

(** [flags & ~mask], used as a condition. *)
Definition has_other (flags mask : Z) : bool := negb (clear flags mask =? 0).

Definition NBD_CMD_FLAG_ALL : Z :=
  Z.lor NBD_CMD_FLAG_FUA (Z.lor NBD_CMD_FLAG_NO_HOLE (Z.lor NBD_CMD_FLAG_DF
    (Z.lor NBD_CMD_FLAG_REQ_ONE NBD_CMD_FLAG_FAST_ZERO))).

Definition is_write_cmd (cmd : Z) : bool :=
  ((cmd =? NBD_CMD_WRITE) || (cmd =? NBD_CMD_TRIM) || (cmd =? NBD_CMD_WRITE_ZEROES))%bool.

Definition is_range_cmd (cmd : Z) : bool :=
  ((cmd =? NBD_CMD_READ) || (cmd =? NBD_CMD_CACHE) || (cmd =? NBD_CMD_WRITE) ||
   (cmd =? NBD_CMD_TRIM) || (cmd =? NBD_CMD_WRITE_ZEROES) ||
   (cmd =? NBD_CMD_BLOCK_STATUS))%bool.

Section Protocol.
Context {W : Type} (b : backend W).

(** [nbdkit_error (msg); *error = e; return false;] *)
Definition invalid (msg : String.string) (e : Z) : M W (option Z) :=
  nbdkit_error msg;; mret (Some e).

(** The checks on the flags and on what was negotiated: the second half of
    [validate_request].  [None] is true, [Some e] is false with the error. *)
Definition validate_flags (cmd flags count : Z) : M W (option Z) :=
  k ← gets s_conn;
  if has_other flags NBD_CMD_FLAG_ALL then
    invalid "invalid request: unknown flag"%string EINVAL
  else if (has flags NBD_CMD_FLAG_NO_HOLE && negb (cmd =? NBD_CMD_WRITE_ZEROES))%bool then
    invalid "invalid request: NO_HOLE flag needs WRITE_ZEROES request"%string EINVAL
  else if (has flags NBD_CMD_FLAG_FAST_ZERO && negb (cmd =? NBD_CMD_WRITE_ZEROES))%bool then
    invalid "invalid request: FAST_ZERO flag needs WRITE_ZEROES request"%string EINVAL
  else if (has flags NBD_CMD_FLAG_DF && negb (cmd =? NBD_CMD_READ))%bool then
    invalid "invalid request: DF flag needs READ request"%string EINVAL
  else if (has flags NBD_CMD_FLAG_DF && negb (k_structured_replies k))%bool then
    invalid "invalid request: structured replies was not negotiated"%string EINVAL
  else if (has flags NBD_CMD_FLAG_REQ_ONE && negb (cmd =? NBD_CMD_BLOCK_STATUS))%bool then
    invalid "invalid request: REQ_ONE flag needs BLOCK_STATUS request"%string EINVAL
  else if (has flags NBD_CMD_FLAG_FUA && negb (has (k_eflags k) NBD_FLAG_SEND_FUA))%bool then
    invalid "invalid request: FUA flag not supported"%string EINVAL
  else if (((cmd =? NBD_CMD_WRITE) || (cmd =? NBD_CMD_READ)) && (MAX_REQUEST_SIZE <? count))%bool
  then invalid "invalid request: data request is too large"%string ENOMEM
  else if ((cmd =? NBD_CMD_FLUSH) && negb (has (k_eflags k) NBD_FLAG_SEND_FLUSH))%bool then
    invalid "invalid request: flush operation not supported"%string EINVAL
  else if ((cmd =? NBD_CMD_TRIM) && negb (has (k_eflags k) NBD_FLAG_SEND_TRIM))%bool then
    invalid "invalid request: trim operation not supported"%string EINVAL
  else if ((cmd =? NBD_CMD_WRITE_ZEROES) &&
           negb (has (k_eflags k) NBD_FLAG_SEND_WRITE_ZEROES))%bool then
    invalid "invalid request: write zeroes operation not supported"%string EINVAL
  else if ((cmd =? NBD_CMD_CACHE) && negb (has (k_eflags k) NBD_FLAG_SEND_CACHE))%bool then
    invalid "invalid request: cache operation not supported"%string EINVAL
  else if ((cmd =? NBD_CMD_BLOCK_STATUS) && negb (k_structured_replies k))%bool then
    invalid "invalid request: structured replies was not negotiated"%string EINVAL
  else if ((cmd =? NBD_CMD_BLOCK_STATUS) && negb (k_meta_context_base_allocation k))%bool then
    invalid "invalid request: base:allocation was not negotiated"%string EINVAL
  else mret None.

Definition validate_request (cmd flags offset count : Z) : M W (option Z) :=
  k ← gets s_conn;
  if (has (k_eflags k) NBD_FLAG_READ_ONLY && is_write_cmd cmd)%bool then
    invalid "invalid request: write request on readonly connection"%string EROFS
  else if is_range_cmd cmd then
    v ← backend_valid_range offset count;
    if negb v then
      invalid "invalid request: offset and count are out of range"%string
        (if ((cmd =? NBD_CMD_WRITE) || (cmd =? NBD_CMD_WRITE_ZEROES))%bool
         then ENOSPC else EINVAL)
    else validate_flags cmd flags count
  else if cmd =? NBD_CMD_FLUSH then
    if (negb (offset =? 0) || negb (count =? 0))%bool then
      invalid "invalid request: expecting offset and count = 0"%string EINVAL
    else validate_flags cmd flags count
  else invalid "invalid request: unknown command ignored"%string EINVAL.

(** ** Execution *)

(** The result is the error (0 for success), the data buffer and the
    extents. *)
Definition handle_request (cmd flags offset count : Z) (buf : list Z) (extents : nbdkit_extents)
    : M W (Z * list Z * nbdkit_extents) :=
  threadlocal_set_errno 0;;
  threadlocal_clear_last_error;;
  (* if (backend_xxx (...) == -1) return err; ... return 0; *)
  let finish (re : Z * Z) : M W (Z * list Z * nbdkit_extents) :=
    mret (if re.1 =? -1 then u32 re.2 else 0, buf, extents) in
  if cmd =? NBD_CMD_READ then
    '(r, err, buf') ← backend_pread b count offset 0 0;
    mret (if r =? -1 then u32 err else 0, buf', extents)
  else if cmd =? NBD_CMD_WRITE then
    let f := set_if (has flags NBD_CMD_FLAG_FUA) 0 NBDKIT_FLAG_FUA in
    re ← backend_pwrite b buf count offset f 0; finish re
  else if cmd =? NBD_CMD_FLUSH then
    re ← backend_flush b 0 0; finish re
  else if cmd =? NBD_CMD_TRIM then
    let f := set_if (has flags NBD_CMD_FLAG_FUA) 0 NBDKIT_FLAG_FUA in
    re ← backend_trim b count offset f 0; finish re
  else if cmd =? NBD_CMD_CACHE then
    re ← backend_cache b count offset 0 0; finish re
  else if cmd =? NBD_CMD_WRITE_ZEROES then
    let f := set_if (negb (has flags NBD_CMD_FLAG_NO_HOLE)) 0 NBDKIT_FLAG_MAY_TRIM in
    let f := set_if (has flags NBD_CMD_FLAG_FUA) f NBDKIT_FLAG_FUA in
    let f := set_if (has flags NBD_CMD_FLAG_FAST_ZERO) f NBDKIT_FLAG_FAST_ZERO in
    re ← backend_zero b count offset f 0; finish re
  else if cmd =? NBD_CMD_BLOCK_STATUS then
    let f := set_if (has flags NBD_CMD_FLAG_REQ_ONE) 0 NBDKIT_FLAG_REQ_ONE in
    '(r, err, extents') ← backend_extents b count offset f extents 0;
    mret (if r =? -1 then u32 err else 0, buf, extents')
  else fail AssertFailed. (* abort () *)

(** ** Skipping the payload of a rejected write *)

(** The loop of [skip_over_write_buffer] over the results of [read(2)]:
    the errno of a failure ([None] for success), and what is left.  Every
    iteration reads at least one byte, so [count] iterations are enough. *)
Fixpoint skip_loop (fuel : nat) (count : Z) (evs : list read_event)
    : option (option Z) * list read_event :=
  if count <=? 0 then (None, evs)
  else match fuel with
  | O => (Some None, evs)
  | S fuel =>
      let limit := Z.to_nat (if BUFSIZ <? count then BUFSIZ else count) in
      match evs with
      | [] => (Some (Some EBADMSG), [])
      | RErr e :: evs' => (Some (Some e), evs')
      | RData [] :: _ => (Some (Some EBADMSG), [])
      | RData bs :: evs' =>
          if Nat.ltb limit (length bs)
          then skip_loop fuel (count - Z.of_nat limit) (RData (drop limit bs) :: evs')
          else skip_loop fuel (count - Z.of_nat (length bs)) evs'
      end
  end.

(** 0 or -1. *)
Definition skip_over_write_buffer (count : Z) : M W Z :=
  if MAX_REQUEST_SIZE * 2 <? count then
    nbdkit_error "write request too large to skip"%string;; mret (-1)
  else
    k ← gets s_conn;
    let '(r, evs) := skip_loop (Z.to_nat count) count (k_sockin k) in
    modify (set_conn (with_sockin evs));;
    match r with
    | None => mret 0
    | Some (Some e) => nbdkit_error "skipping write buffer"%string;; set_errno e;; mret (-1)
    | Some None => fail OutOfFuel
    end.

(** ** Replies *)

Definition nbd_errno (error flags : Z) : Z :=
  if error =? 0 then NBD_SUCCESS
  else if ((error =? EROFS) || (error =? EPERM))%bool then NBD_EPERM
  else if error =? EIO then NBD_EIO
  else if error =? ENOMEM then NBD_ENOMEM
  else if ((error =? EDQUOT) || (error =? EFBIG) || (error =? ENOSPC))%bool then NBD_ENOSPC
  else if error =? ESHUTDOWN then NBD_ESHUTDOWN
  else if ((error =? ENOTSUP) || (error =? EOPNOTSUPP))%bool then
    if has flags NBD_CMD_FLAG_FAST_ZERO then NBD_ENOTSUP else NBD_EINVAL
  else if error =? EOVERFLOW then
    if has flags NBD_CMD_FLAG_DF then NBD_EOVERFLOW else NBD_EINVAL
  else NBD_EINVAL.

(** Send the buffers one after the other; the first failure ends the
    connection.  The result tells the caller whether to shut down. *)
Fixpoint send_all (msg : String.string) (bufs : list (list Z)) : M W bool :=
  match bufs with
  | [] => mret false
  | buf :: bufs' =>
      r ← raw_send_socket buf;
      if r =? -1 then nbdkit_error msg;; connection_set_status STATUS_DEAD
      else send_all msg bufs'
  end.

Definition send_simple_reply (cookie : list Z) (cmd flags : Z) (buf : list Z) (error : Z)
    : M W bool :=
  send_all "write reply"%string
    (nbd_simple_reply NBD_SIMPLE_REPLY_MAGIC (nbd_errno error flags) cookie ::
     (if ((cmd =? NBD_CMD_READ) && (error =? 0))%bool then [buf] else [])).

Definition send_structured_reply_read (cookie : list Z) (cmd : Z) (buf : list Z)
    (count offset : Z) : M W bool :=
  cassert (cmd =? NBD_CMD_READ);;
  send_all "write reply"%string
    [nbd_structured_reply NBD_STRUCTURED_REPLY_MAGIC NBD_REPLY_FLAG_DONE
       NBD_REPLY_TYPE_OFFSET_DATA cookie (u32 (count + 8));
     be 8 offset; buf].

(** *** Block status *)

Definition descriptor (length type : Z) : nbd_block_descriptor_32 :=
  BlockDescriptor length (Z.land type 3).

(** The loop over the extents: [first] is [i == 0].  [None] is a failed
    assertion. *)
Fixpoint descriptor_loop (l : list nbdkit_extent) (first : bool) (pos offset count : Z)
    : option (list nbd_block_descriptor_32) :=
  match l with
  | [] => Some []
  | e :: l' =>
      if (first && negb (e_offset e =? offset))%bool then None
      else
        let length := Z.min (e_length e) UINT32_MAX in
        let d := descriptor length (e_type e) in
        let pos := u64 (pos + length) in
        if u64 (offset + count) <? pos then Some [d]
        else if negb (e_length e <=? length) then None
        else match descriptor_loop l' false pos offset count with
             | Some ds => Some (d :: ds)
             | None => None
             end
  end.

Definition extents_to_block_descriptors (extents : nbdkit_extents) (flags count offset : Z)
    : option (list nbd_block_descriptor_32) :=
  if negb (1 <=? nbdkit_extents_count extents) then None
  else if has flags NBD_CMD_FLAG_REQ_ONE then
    match nbdkit_get_extent extents 0 with
    | Some e =>
        if negb (0 <? e_length e) then None
        else Some [descriptor (Z.min (e_length e) count) (e_type e)]
    | None => None
    end
  else descriptor_loop (x_extents extents) true offset offset count.

Definition send_structured_reply_block_status (cookie : list Z) (cmd flags count offset : Z)
    (extents : nbdkit_extents) : M W bool :=
  k ← gets s_conn;
  cassert (k_meta_context_base_allocation k);;
  cassert (cmd =? NBD_CMD_BLOCK_STATUS);;
  match extents_to_block_descriptors extents flags count offset with
  | None => fail AssertFailed
  | Some blocks =>
      send_all "write reply"%string
        (nbd_structured_reply NBD_STRUCTURED_REPLY_MAGIC NBD_REPLY_FLAG_DONE
           NBD_REPLY_TYPE_BLOCK_STATUS cookie (u32 (4 + Z.of_nat (length blocks) * 8)) ::
         be 4 base_allocation_id :: (encode_block_descriptor <$> blocks))
  end.

Definition send_structured_reply_error (cookie : list Z) (flags error : Z) : M W bool :=
  send_all "write error reply"%string
    [nbd_structured_reply NBD_STRUCTURED_REPLY_MAGIC NBD_REPLY_FLAG_DONE
       NBD_REPLY_TYPE_ERROR cookie 6;
     nbd_chunk_error (nbd_errno error flags) 0].

(** The code at the label [send_reply]. *)
Definition send_reply (cookie : list Z) (cmd flags count offset : Z) (buf : list Z)
    (extents : nbdkit_extents) (error : Z) : M W bool :=
  cs ← connection_get_status;
  if status_val cs <? status_val STATUS_CLIENT_DONE then mret false
  else
    k ← gets s_conn;
    if (negb (k_structured_replies k) ||
        (negb (cmd =? NBD_CMD_READ) && negb (cmd =? NBD_CMD_BLOCK_STATUS)))%bool
    then send_simple_reply cookie cmd flags buf error
    else if negb (error =? 0) then send_structured_reply_error cookie flags error
    else if cmd =? NBD_CMD_READ then send_structured_reply_read cookie cmd buf count offset
    else send_structured_reply_block_status cookie cmd flags count offset extents.

(** ** One request *)

(** What the reading part of [protocol_recv_request_send_reply] decides:
    return at once, send a reply ([goto send_reply], with the error), or
    perform the request. *)
Inductive received : Type :=
| Return (shutdown : bool)
| Reply (rq : nbd_request) (error : Z)
| Perform (rq : nbd_request) (cs : conn_status) (buf : list Z) (extents : nbdkit_extents).

Definition no_extents : nbdkit_extents := Extents [] 0 0 (-1).

(** [connection_set_status (v)] as the result of the function. *)
Definition return_status (v : conn_status) : M W received :=
  r ← connection_set_status v; mret (Return r).

(** [error = e; skip the payload of a write; goto send_reply;] *)
Definition reject (rq : nbd_request) (e : Z) : M W received :=
  if rq_type rq =? NBD_CMD_WRITE then
    r ← skip_over_write_buffer (rq_count rq);
    if r <? 0 then return_status STATUS_DEAD else mret (Reply rq e)
  else mret (Reply rq e).

(** The part that holds the read lock, after the request was decoded and
    found valid.  [buffer_ok] is whether [threadlocal_buffer] succeeds. *)
Definition receive_data (buffer_ok : bool) (rq : nbd_request) (cs : conn_status)
    : M W received :=
  let cmd := rq_type rq in
  if (((cmd =? NBD_CMD_READ) || (cmd =? NBD_CMD_WRITE)) && negb buffer_ok)%bool
  then reject rq ENOMEM
  else
    extents ← (if cmd =? NBD_CMD_BLOCK_STATUS then
                 size ← backend_get_size b;
                 mret (match nbdkit_extents_new (rq_offset rq) (u64 size) with
                       | inl _ => None
                       | inr x => Some x
                       end)
               else mret (Some no_extents));
    match extents with
    | None => mret (Reply rq ENOMEM)
    | Some extents =>
        if cmd =? NBD_CMD_WRITE then
          '(r, buf) ← raw_recv (rq_count rq);
          if r =? 1 then mret (Perform rq cs buf extents)
          else
            (if r =? 0 then set_errno EBADMSG else mret tt);;
            nbdkit_error "read data"%string;;
            return_status STATUS_DEAD
        else mret (Perform rq cs [] extents)
    end.

Definition recv_request (buffer_ok : bool) : M W received :=
  '(r, bs) ← raw_recv (Z.of_nat sizeof_request);
  cs ← connection_get_status;
  if status_val cs <=? status_val STATUS_CLIENT_DONE then mret (Return false)
  else if r =? -1 then
    nbdkit_error "read request"%string;; return_status STATUS_DEAD
  else if r =? 0 then return_status STATUS_CLIENT_DONE
  else
    let rq := decode_request bs in
    if negb (rq_magic rq =? NBD_REQUEST_MAGIC) then
      nbdkit_error "invalid request: 'magic' field is incorrect"%string;;
      return_status STATUS_DEAD
    else if rq_type rq =? NBD_CMD_DISC then return_status STATUS_CLIENT_DONE
    else
      v ← validate_request (rq_type rq) (rq_flags rq) (rq_offset rq) (rq_count rq);
      match v with
      | Some e => reject rq e
      | None => receive_data buffer_ok rq cs
      end.

Definition protocol_recv_request_send_reply (quit buffer_ok : bool) : M W bool :=
  rc ← recv_request buffer_ok;
  match rc with
  | Return shutdown => mret shutdown
  | Reply rq error =>
      send_reply (rq_cookie rq) (rq_type rq) (rq_flags rq) (rq_count rq) (rq_offset rq)
        [] no_extents error
  | Perform rq cs buf extents =>
      '(error, buf, extents) ←
        (if (quit || (status_val cs <? status_val STATUS_ACTIVE))%bool
         then mret (ESHUTDOWN, buf, extents)
         else
           '(error, buf, extents) ←
             handle_request (rq_type rq) (rq_flags rq) (rq_offset rq) (rq_count rq) buf extents;
           cassert (0 <=? i32 error);;
           mret (error, buf, extents));
      send_reply (rq_cookie rq) (rq_type rq) (rq_flags rq) (rq_count rq) (rq_offset rq)
        buf extents error
  end.
End Protocol.

(** ** Validation: what is accepted *)

(** The flag and negotiation rules of the protocol. *)
Record flags_valid (k : connection) (cmd flags count : Z) : Prop := FlagsValid {
  fv_known : clear flags NBD_CMD_FLAG_ALL = 0;
  fv_no_hole : has flags NBD_CMD_FLAG_NO_HOLE = true -> cmd = NBD_CMD_WRITE_ZEROES;
  fv_fast_zero : has flags NBD_CMD_FLAG_FAST_ZERO = true -> cmd = NBD_CMD_WRITE_ZEROES;
  fv_df : has flags NBD_CMD_FLAG_DF = true ->
    cmd = NBD_CMD_READ /\ k_structured_replies k = true;
  fv_req_one : has flags NBD_CMD_FLAG_REQ_ONE = true -> cmd = NBD_CMD_BLOCK_STATUS;
  fv_fua : has flags NBD_CMD_FLAG_FUA = true -> has (k_eflags k) NBD_FLAG_SEND_FUA = true;
  fv_size : cmd = NBD_CMD_WRITE \/ cmd = NBD_CMD_READ -> count <= MAX_REQUEST_SIZE;
  fv_flush : cmd = NBD_CMD_FLUSH -> has (k_eflags k) NBD_FLAG_SEND_FLUSH = true;
  fv_trim : cmd = NBD_CMD_TRIM -> has (k_eflags k) NBD_FLAG_SEND_TRIM = true;
  fv_zero : cmd = NBD_CMD_WRITE_ZEROES ->
    has (k_eflags k) NBD_FLAG_SEND_WRITE_ZEROES = true;
  fv_cache : cmd = NBD_CMD_CACHE -> has (k_eflags k) NBD_FLAG_SEND_CACHE = true;
  fv_block_status : cmd = NBD_CMD_BLOCK_STATUS ->
    k_structured_replies k = true /\ k_meta_context_base_allocation k = true;
}.

(** A request the server has to execute. *)
Record request_valid (k : connection) (size cmd flags offset count : Z) : Prop := RequestValid {
  rv_readonly : has (k_eflags k) NBD_FLAG_READ_ONLY = true -> is_write_cmd cmd = false;
  rv_cmd : (is_range_cmd cmd = true /\ 0 < count /\ offset + count <= size) \/
           (cmd = NBD_CMD_FLUSH /\ offset = 0 /\ count = 0);
  rv_flags : flags_valid k cmd flags count;
}.

(** A step that only changes the thread's error fields. *)
Definition thread_step {W} (s s' : st W) : Prop :=
  s_world s' = s_world s /\ s_conn s' = s_conn s /\ s_ctx s' = s_ctx s.

Section Validation.
Context {W : Type}.
Implicit Types (s : st W).

Lemma wp_invalid (P : option Z -> st W -> Prop) msg e s :
  (forall s', thread_step s s' -> P (Some e) s') -> wp (invalid msg e) P s.
Proof. intros H. unfold invalid. apply wp_bind, wp_modify, wp_ret, H. done. Qed.

Lemma guard_false (x y : bool) : (x && negb y)%bool = false -> x = true -> y = true.
Proof. by destruct x, y. Qed.

(** One rejecting check, of which [H : flags_valid] says the opposite. *)
Ltac rejects :=
  apply wp_invalid; intros ? Hstep; split; [exact Hstep|];
  split; [intros ? [= <-]; by vm_compute|];
  split; [done|]; intros [];
  repeat match goal with
  | H : (_ && _)%bool = true |- _ => apply andb_true_iff in H as [??]
  | H : (_ || _)%bool = true |- _ => apply orb_true_iff in H
  | H : negb _ = true |- _ => apply negb_true_iff in H
  | H : (_ =? _) = true |- _ => apply Z.eqb_eq in H
  | H : (_ =? _) = false |- _ => apply Z.eqb_neq in H
  | H : (_ <? _) = true |- _ => apply Z.ltb_lt in H
  end;
  repeat match goal with
  | H : has ?f ?m = true, H' : has ?f ?m = true -> _ |- _ => specialize (H' H)
  | H : ?c = _, H' : ?c = _ -> _ |- _ => specialize (H' H)
  end;
  intuition (congruence || lia).

Lemma wp_validate_flags cmd flags count s :
  wp (validate_flags cmd flags count) (fun v s' =>
    thread_step s s' /\ (forall e, v = Some e -> 0 < e <= INT32_MAX) /\
    (v = None <-> flags_valid (s_conn s) cmd flags count)) s.
Proof.
  unfold validate_flags. apply wp_bind, wp_gets.
  destruct (has_other _ _) eqn:E0; [unfold has_other in *; rejects|].
  apply negb_false_iff, Z.eqb_eq in E0.
  repeat match goal with
  | |- wp (if ?x then _ else _) _ _ => destruct x eqn:?; [rejects|]
  end.
  apply wp_ret. split; [done|]. split; [done|]. split; [intros _|done].
  split; [done|..];
    try (intros H; rewrite <- ?Z.eqb_eq in *; rewrite <- ?Z.eqb_eq; repeat split;
         by eauto using guard_false).
  intros H. apply Z.leb_le. rewrite Z.leb_antisym. apply negb_true_iff.
  rewrite <- !Z.eqb_eq, <- orb_true_iff in H.
  match goal with E : (_ && (MAX_REQUEST_SIZE <? count))%bool = false |- _ =>
    by rewrite H in E end.
Qed.

Lemma wp_validate_request cmd flags offset count s c cs :
  s_ctx s = c :: cs -> 0 <= c_exportsize c <= INT64_MAX ->
  0 <= offset <= UINT64_MAX -> 0 <= count <= UINT32_MAX ->
  wp (validate_request cmd flags offset count) (fun v s' =>
    thread_step s s' /\ (forall e, v = Some e -> 0 < e <= INT32_MAX) /\
    (v = None <-> request_valid (s_conn s) (c_exportsize c) cmd flags offset count)) s.
Proof.
  intros Hs Hsz Ho Hc. unfold validate_request. apply wp_bind, wp_gets.
  assert (Hrej : forall msg e, 0 < e <= INT32_MAX ->
    ~ request_valid (s_conn s) (c_exportsize c) cmd flags offset count ->
    wp (invalid msg e) (fun v s' => thread_step s s' /\
      (forall e, v = Some e -> 0 < e <= INT32_MAX) /\
      (v = None <-> request_valid (s_conn s) (c_exportsize c) cmd flags offset count)) s).
  { intros msg e He Hn. apply wp_invalid. intros s' Hst. split; [done|].
    split; [by intros ? [= <-]|]. by split. }
  assert (Hflags : (has (k_eflags (s_conn s)) NBD_FLAG_READ_ONLY && is_write_cmd cmd)%bool = false ->
    ((is_range_cmd cmd = true /\ 0 < count /\ offset + count <= c_exportsize c) \/
     (cmd = NBD_CMD_FLUSH /\ offset = 0 /\ count = 0)) ->
    wp (validate_flags cmd flags count) (fun v s' => thread_step s s' /\
      (forall e, v = Some e -> 0 < e <= INT32_MAX) /\
      (v = None <-> request_valid (s_conn s) (c_exportsize c) cmd flags offset count)) s).
  { intros Hro Hcmd. eapply wp_mono; [apply wp_validate_flags|]. intros v s' (Hst & He & Hv).
    split; [done|]. split; [done|]. rewrite Hv. split; [|by intros []]. intros Hf.
    split; [|done..]. intros Hr. by rewrite Hr in Hro. }
  destruct (_ && _)%bool eqn:Hro.
  { apply Hrej; [by vm_compute|]. apply andb_true_iff in Hro as [Hr Hw]. intros [Hv _ _].
    rewrite (Hv Hr) in Hw. done. }
  assert (Hvr : wp (backend_valid_range offset count) (fun v s' => s' = s /\
    (v = true <-> 0 < count /\ offset + count <= c_exportsize c)) s).
  { unfold backend_valid_range. apply wp_bind. eapply wp_cur; [done|].
    apply wp_bind, wp_assert. split; [apply Z.leb_le; lia|]. apply wp_ret.
    split; [done|]. by apply valid_range_iff. }
  destruct (is_range_cmd cmd) eqn:Hrc.
  - apply wp_bind. eapply wp_mono; [exact Hvr|]. intros [] s' [-> Hv]; simpl.
    + apply Hflags; [done|]. left. split; [done|]. by apply Hv.
    + apply Hrej; [destruct (_ || _)%bool; by vm_compute|]. intros [_ [Hr|Hf] _].
      * destruct Hr as [_ Hr]. by apply Hv in Hr.
      * destruct Hf as [-> _]. done.
  - destruct (Z.eqb_spec cmd NBD_CMD_FLUSH) as [->|Hne].
    + destruct (Z.eqb_spec offset 0), (Z.eqb_spec count 0); simpl;
        try (apply Hrej; [by vm_compute|]; intros [_ [[? _]|(_ & ? & ?)] _]; (done || lia)).
      apply Hflags; [done|]. auto.
    + apply Hrej; [by vm_compute|]. intros [_ [[? _]|[? _]] _]; congruence.
Qed.
End Validation.

(** C24: [validate_request] accepts exactly the requests the negotiation
    allows: a known command, an offset and count inside the export (no
    64-bit wrap-around), known flags each on the command it belongs to, FUA,
    flush, trim, zero, cache and block status only as advertised, no write
    to a read-only export, and no read or write above [MAX_REQUEST_SIZE].
    A rejection always carries a positive error number, and validation
    changes nothing but the thread's error fields. *)
Theorem validate_request_exact {W} (s : st W) c cs cmd flags offset count :
  s_ctx s = c :: cs -> 0 <= c_exportsize c <= INT64_MAX ->
  0 <= offset <= UINT64_MAX -> 0 <= count <= UINT32_MAX ->
  exists v s', validate_request cmd flags offset count s = Ok (v, s') /\
    thread_step s s' /\ (forall e, v = Some e -> 0 < e <= INT32_MAX) /\
    (v = None <-> request_valid (s_conn s) (c_exportsize c) cmd flags offset count).
Proof. intros Hs Hsz Ho Hc. by eapply wp_ok, wp_validate_request. Qed.

Lemma validate_request_exact_witness :
  exists v s', validate_request NBD_CMD_READ 0 UINT64_MAX 2 (witness_state tt) = Ok (v, s') /\
    thread_step (witness_state tt) s' /\ (forall e, v = Some e -> 0 < e <= INT32_MAX) /\
    (v = None <-> request_valid witness_conn 1048576 NBD_CMD_READ 0 UINT64_MAX 2).
Proof.
  apply (validate_request_exact (witness_state tt) witness_context []);
    [reflexivity|unfold INT64_MAX, UINT64_MAX, UINT32_MAX; simpl; lia..].
Defined.

(** ** Execution: validated requests are safe *)

(** The advertised flags promise no more than the context can do. *)
Record eflags_match (k : connection) (c : context) : Prop := EflagsMatch {
  em_write : has (k_eflags k) NBD_FLAG_READ_ONLY = false -> c_can_write c = 1;
  em_flush : has (k_eflags k) NBD_FLAG_SEND_FLUSH = true -> c_can_flush c = 1;
  em_fua : has (k_eflags k) NBD_FLAG_SEND_FUA = true -> 0 < c_can_fua c;
  em_trim : has (k_eflags k) NBD_FLAG_SEND_TRIM = true -> c_can_trim c = 1;
  em_zero : has (k_eflags k) NBD_FLAG_SEND_WRITE_ZEROES = true -> 0 < c_can_zero c;
  em_cache : has (k_eflags k) NBD_FLAG_SEND_CACHE = true -> 0 < c_can_cache c;
}.

(** A connection in the transmission phase. *)
Record session {W} (s : st W) (c : context) : Prop := Session {
  ss_ctx : head (s_ctx s) = Some c;
  ss_primed : primed c;
  ss_eflags : eflags_match (s_conn s) c;
}.

Lemma session_ctx {W} (s : st W) c : session s c -> exists cs, s_ctx s = c :: cs.
Proof.
  intros [H _ _]. destruct (s_ctx s) as [|c' cs]; [done|]. exists cs. by simplify_eq/=.
Qed.

Section Execution.
Context {W : Type} (b : backend W) `{!DataContract b}.
Implicit Types (s : st W) (c : context).

Lemma set_if_flag (x : bool) (m : Z) :
  0 < m -> let f := set_if x 0 m in clear f m = 0 /\ (has f m = true -> x = true).
Proof.
  intros Hm. destruct x; simpl.
  - split; [|done]. unfold clear. by rewrite Z.lor_0_l, Z.ldiff_diag.
  - split; [done|]. unfold has. by rewrite Z.land_0_l.
Qed.

(** The flags of a zero request as passed to the backend. *)
Definition zero_flags (flags : Z) : Z :=
  set_if (has flags NBD_CMD_FLAG_FAST_ZERO)
    (set_if (has flags NBD_CMD_FLAG_FUA)
       (set_if (negb (has flags NBD_CMD_FLAG_NO_HOLE)) 0 NBDKIT_FLAG_MAY_TRIM)
       NBDKIT_FLAG_FUA) NBDKIT_FLAG_FAST_ZERO.

Lemma zero_flags_spec flags :
  clear (zero_flags flags) (Z.lor NBDKIT_FLAG_MAY_TRIM
    (Z.lor NBDKIT_FLAG_FUA NBDKIT_FLAG_FAST_ZERO)) = 0 /\
  has (zero_flags flags) NBDKIT_FLAG_FUA = has flags NBD_CMD_FLAG_FUA /\
  has (zero_flags flags) NBDKIT_FLAG_FAST_ZERO = has flags NBD_CMD_FLAG_FAST_ZERO.
Proof.
  unfold zero_flags.
  destruct (has flags NBD_CMD_FLAG_FAST_ZERO), (has flags NBD_CMD_FLAG_FUA),
    (has flags NBD_CMD_FLAG_NO_HOLE); by vm_compute.
Qed.

(** How a request ends: an error number in [int], and on success a full
    buffer for a read and a usable list for block status. *)
Definition request_done (cmd offset count : Z) (c : context) (s : st W)
    (res : Z * list Z * nbdkit_extents) (s' : st W) : Prop :=
  let '(error, buf', exts') := res in
  frame s s' /\ 0 <= error <= INT32_MAX /\
  (cmd = NBD_CMD_READ -> error = 0 -> length buf' = Z.to_nat count) /\
  (cmd = NBD_CMD_BLOCK_STATUS -> error = 0 ->
   extents_answer (Extents [] offset (c_exportsize c) (-1)) exts').

(** [if (backend_xxx (...) == -1) return err;] *)
Lemma error_result r err : fails_with_errno r err -> 0 <= (if r =? -1 then u32 err else 0) <= INT32_MAX.
Proof.
  intros [Hok _]. unfold err_ok in Hok. destruct (r =? -1); [|limits; lia].
  rewrite u32_small by (limits; lia). lia.
Qed.

Lemma no_error r err :
  fails_with_errno r err -> (if r =? -1 then u32 err else 0) = 0 -> r <> -1.
Proof.
  intros [Hok He] Hz ->. unfold err_ok in Hok. simpl in Hz.
  rewrite u32_small in Hz by (limits; lia). by apply He.
Qed.

(** What a valid request may rely on. *)
Lemma request_allowed cmd flags offset count s c :
  session s c -> 0 <= offset <= UINT64_MAX -> 0 <= count <= UINT32_MAX ->
  request_valid (s_conn s) (c_exportsize c) cmd flags offset count ->
  (is_write_cmd cmd = true -> c_can_write c = 1) /\
  (is_range_cmd cmd = true -> valid_range c offset count = true) /\
  (has flags NBD_CMD_FLAG_FUA = true -> 0 < c_can_fua c).
Proof.
  intros [_ Hp Hem] Ho Hc [Hro Hcmd Hfl]. split; [|split].
  - intros Hw. apply (em_write _ _ Hem).
    destruct (has (k_eflags (s_conn s)) NBD_FLAG_READ_ONLY); [|done]. by rewrite Hro in Hw.
  - intros Hr. apply valid_range_iff; [done..|apply Hp|]. by destruct Hcmd as [[_ ?]|[-> _]].
  - intros H. by apply (em_fua _ _ Hem), (fv_fua _ _ _ _ Hfl).
Qed.

(** A request that returns neither data nor extents. *)
Lemma wp_finish_request cmd offset count buf exts c s s1 (m : M W (Z * Z)) :
  cmd <> NBD_CMD_READ -> cmd <> NBD_CMD_BLOCK_STATUS -> frame s s1 ->
  wp m (fun '(r, e) s' => frame s1 s' /\ fails_with_errno r e) s1 ->
  wp (re ← m; mret (if re.1 =? -1 then u32 re.2 else 0, buf, exts))
    (request_done cmd offset count c s) s1.
Proof.
  intros Hn1 Hn2 Hfr Hm. apply wp_bind. eapply wp_mono; [exact Hm|]. intros [r e] s' [Hf He].
  apply wp_ret. split; [by etrans|]. split; [by apply error_result|done].
Qed.

Lemma wp_handle_request cmd flags offset count buf exts s c :
  session s c -> 0 <= offset <= UINT64_MAX -> 0 <= count <= UINT32_MAX ->
  request_valid (s_conn s) (c_exportsize c) cmd flags offset count ->
  (has flags NBD_CMD_FLAG_FAST_ZERO = true -> c_can_fast_zero c = 1) ->
  (cmd = NBD_CMD_BLOCK_STATUS -> exts = Extents [] offset (c_exportsize c) (-1)) ->
  wp (handle_request b cmd flags offset count buf exts) (request_done cmd offset count c s) s.
Proof.
  intros Hss Ho Hc Hrv Hfast Hexts. destruct (session_ctx _ _ Hss) as [cs Hs].
  destruct (request_allowed _ _ _ _ _ _ Hss Ho Hc Hrv) as (Hwr & Hvr & Hfua).
  destruct Hss as [_ Hp Hem], Hrv as [Hro Hcmd Hfl].
  unfold handle_request. apply wp_bind, wp_modify, wp_bind, wp_modify.
  set (s1 := set_thread _ (set_thread _ s)).
  assert (Hs1 : s_ctx s1 = c :: cs) by done.
  assert (Hfr : frame s s1) by done.
  destruct (Z.eqb_spec cmd NBD_CMD_READ) as [->|N1].
  { apply wp_bind. eapply wp_mono; [eapply (wp_backend_pread b); eauto with nbdkit|].
    intros [[r e] buf'] s' (Hf & He & Hl). apply wp_ret. split; [by etrans|].
    split; [by apply error_result|]. split; [|done]. intros _ Hz. by eapply Hl, no_error. }
  destruct (Z.eqb_spec cmd NBD_CMD_WRITE) as [->|N2].
  { destruct (set_if_flag (has flags NBD_CMD_FLAG_FUA) NBDKIT_FLAG_FUA) as [Hcl Hha]; [done|].
    apply wp_finish_request; [done..|]. eapply (wp_backend_pwrite b); [done..|apply err_ok_0|].
    split; [by apply Hwr|]. split; [by apply Hvr|]. auto. }
  destruct (Z.eqb_spec cmd NBD_CMD_FLUSH) as [->|N3].
  { apply wp_finish_request; [done..|]. eapply (wp_backend_flush b); [done..|apply err_ok_0|].
    by apply (em_flush _ _ Hem), (fv_flush _ _ _ _ Hfl). }
  destruct (Z.eqb_spec cmd NBD_CMD_TRIM) as [->|N4].
  { destruct (set_if_flag (has flags NBD_CMD_FLAG_FUA) NBDKIT_FLAG_FUA) as [Hcl Hha]; [done|].
    apply wp_finish_request; [done..|]. eapply (wp_backend_trim b); [done..|apply err_ok_0| |].
    - split; [by apply Hwr|]. split; [by apply Hvr|]. auto.
    - by apply (em_trim _ _ Hem), (fv_trim _ _ _ _ Hfl). }
  destruct (Z.eqb_spec cmd NBD_CMD_CACHE) as [->|N5].
  { apply wp_finish_request; [done..|]. eapply (wp_backend_cache b); [done..|apply err_ok_0|lia|done| |by apply Hvr].
    by apply (em_cache _ _ Hem), (fv_cache _ _ _ _ Hfl). }
  destruct (Z.eqb_spec cmd NBD_CMD_WRITE_ZEROES) as [->|N6].
  { apply wp_finish_request; [done..|]. destruct (zero_flags_spec flags) as (Hcl & Hz1 & Hz2).
    eapply (wp_backend_zero b _ _ (zero_flags flags)); [done..|lia|done| |done].
    split; [by apply Hwr|]. split; [by apply (em_zero _ _ Hem), (fv_zero _ _ _ _ Hfl)|].
    split; [by apply Hvr|]. split; [done|]. rewrite Hz1, Hz2. auto. }
  destruct (Z.eqb_spec cmd NBD_CMD_BLOCK_STATUS) as [->|N7].
  { destruct (set_if_flag (has flags NBD_CMD_FLAG_REQ_ONE) NBDKIT_FLAG_REQ_ONE) as [Hcl _]; [done|].
    rewrite (Hexts eq_refl). apply wp_bind.
    eapply wp_mono; [eapply (wp_backend_extents b _ _ _ _ s1 c cs);
      [done..|apply err_ok_0|lia|done|by apply Hvr|done|]|].
    - destruct Hcmd as [(_ & ? & ?)|[? _]]; [|done]. destruct (pr_size _ Hp). lia.
    - intros [[r e] exts'] s' (Hf & He & Hx). apply wp_ret. split; [by etrans|].
      split; [by apply error_result|]. split; [done|]. intros _ Hz. by eapply Hx, no_error. }
  exfalso. destruct Hcmd as [[Hr _]|[? _]]; [|done]. unfold is_range_cmd in Hr.
  repeat match goal with N : cmd <> _ |- _ => rewrite (proj2 (Z.eqb_neq _ _) N) in Hr; clear N end.
  done.
Qed.
End Execution.

(** ** Block status descriptors *)

(** The status the descriptors give for byte [x], the first one starting at
    [pos]. *)
Fixpoint status_at (pos : Z) (ds : list nbd_block_descriptor_32) (x : Z) : option Z :=
  match ds with
  | [] => None
  | d :: ds' =>
      if ((pos <=? x) && (x <? pos + bd_length d))%bool then Some (bd_status_flags d)
      else status_at (pos + bd_length d) ds' x
  end.

Definition total (ds : list nbd_block_descriptor_32) : Z :=
  foldr (fun d n => bd_length d + n) 0 ds.

(** The loop, at position [p] of a contiguous list. *)
Record described (offset count p : Z) (l : list nbdkit_extent)
    (ds : list nbd_block_descriptor_32) : Prop := Described {
  de_status : forall x, is_Some (status_at p ds x) ->
    status_at p ds x = (fun t => Z.land t 3) <$> type_at l x;
  de_lengths : Forall (fun d => 0 < bd_length d <= UINT32_MAX) ds;
  de_cover : offset + count < p + total ds \/ p + total ds = chain_end p l;
}.

Lemma status_at_range p ds x :
  Forall (fun d => 0 < bd_length d <= UINT32_MAX) ds ->
  is_Some (status_at p ds x) <-> p <= x < p + total ds.
Proof.
  intros Hd. revert p. induction Hd as [|d ds Hl Hd IH]; intros p; simpl.
  - rewrite is_Some_alt. lia.
  - assert (0 <= total ds) by (clear IH; induction Hd; simpl; lia).
    fold (total ds) in *.
    destruct (Z.leb_spec p x), (Z.ltb_spec x (p + bd_length d)); simpl;
      rewrite ?IH; try lia. split; [lia|eauto].
Qed.

Lemma type_at_tail p e l x :
  chain p (e :: l) -> p + e_length e <= x -> type_at (e :: l) x = type_at l x.
Proof.
  intros (He & Hl & _) Hx. simpl. rewrite He.
  destruct (Z.leb_spec p x), (Z.ltb_spec x (p + e_length e)); simpl; (done || lia).
Qed.

Lemma type_at_head p e l x :
  chain p (e :: l) -> p <= x < p + e_length e -> type_at (e :: l) x = Some (e_type e).
Proof.
  intros (He & Hl & _) Hx. simpl. rewrite He.
  destruct (Z.leb_spec p x), (Z.ltb_spec x (p + e_length e)); simpl; (done || lia).
Qed.

(** The last descriptor, possibly shorter than its extent. *)
Lemma described_last offset count p e l n :
  chain p (e :: l) -> 0 < n <= UINT32_MAX -> n <= e_length e ->
  offset + count < p + n ->
  described offset count p (e :: l) [descriptor n (e_type e)].
Proof.
  intros Hc Hn Hle Hcov. split.
  - intros x Hx. apply status_at_range in Hx; [|by repeat constructor; simpl; lia].
    simpl in Hx. rewrite (type_at_head p) by (done || lia). simpl.
    destruct (Z.leb_spec p x), (Z.ltb_spec x (p + n)); simpl; (done || lia).
  - repeat constructor; simpl; lia.
  - left. simpl. lia.
Qed.

(** One more descriptor, for a whole extent. *)
Lemma described_cons offset count p e l ds :
  chain p (e :: l) -> e_length e <= UINT32_MAX ->
  described offset count (p + e_length e) l ds ->
  described offset count p (e :: l) (descriptor (e_length e) (e_type e) :: ds).
Proof.
  intros Hc Hle [Hst Hl Hcov]. pose proof Hc as (He & Hlen & Hc'). split.
  - intros x Hx. simpl in Hx |- *.
    destruct (Z.leb_spec p x), (Z.ltb_spec x (p + e_length e)); simpl in Hx |- *.
    + by rewrite He, (proj2 (Z.leb_le _ _)), (proj2 (Z.ltb_lt _ _)) by lia.
    + rewrite Hst by done. by rewrite He, (proj2 (Z.leb_le _ _)), (proj2 (Z.ltb_ge _ _)) by lia.
    + apply status_at_range in Hx; [lia|done].
    + lia.
  - constructor; [simpl; lia|done].
  - simpl. destruct Hcov; [left; lia|right; lia].
Qed.

Lemma descriptor_loop_spec l first p offset count :
  chain p l -> 0 <= offset -> 0 < count <= UINT32_MAX -> chain_end p l <= INT64_MAX ->
  offset <= p <= offset + count -> (if first : bool then p = offset else offset < p) ->
  match descriptor_loop l first p offset count with
  | Some ds => described offset count p l ds
  | None => first = true /\ count = UINT32_MAX /\
      exists e l', l = e :: l' /\ UINT32_MAX < e_length e
  end.
Proof.
  revert first p. induction l as [|e l IH]; intros first p Hc Ho Hn Hend Hp Hf.
  { split; simpl; [by intros x []|constructor|right; lia]. }
  pose proof Hc as (He & Hl & Hc'). cbn [descriptor_loop].
  assert ((first && negb (e_offset e =? offset))%bool = false) as ->.
  { destruct first; [|done]. rewrite He, Hf, Z.eqb_refl. done. }
  pose proof (chain_end_le _ _ Hc'). simpl in Hend.
  set (n := Z.min (e_length e) UINT32_MAX).
  assert (Hnn : 0 < n <= UINT32_MAX /\ n <= e_length e) by (unfold n; limits; lia).
  rewrite (u64_small (p + n)), (u64_small (offset + count)) by (limits; lia).
  destruct (Z.ltb_spec (offset + count) (p + n)).
  { apply described_last; (done || lia). }
  destruct (Z.leb_spec (e_length e) n) as [Hle|Hgt]; simpl.
  - assert (Hne : n = e_length e) by lia. clearbody n. subst n.
    specialize (IH false (p + e_length e) Hc' Ho Hn ltac:(lia) ltac:(lia) ltac:(simpl; lia)).
    destruct (descriptor_loop l false _ _ _) as [ds|].
    + apply described_cons; (done || lia).
    + by destruct IH.
  - assert (n = UINT32_MAX) by (unfold n in *; lia).
    destruct first; [|lia]. split; [done|]. split; [lia|]. exists e, l. split; [done|]. lia.
Qed.

(** C26: Block status replies are correct: whatever extents the plugin
    returned, each byte the descriptors cover gets the two status bits of
    its extent; every length fits its 32-bit field and is positive; with
    [REQ_ONE] there is exactly one descriptor, no longer than the request;
    without it the descriptors reach past the end of the request or to the
    end of what the plugin described. *)
Theorem block_descriptors_correct exts flags count offset ds :
  exts_wf exts -> x_start exts = offset -> 0 < count <= UINT32_MAX ->
  extents_to_block_descriptors exts flags count offset = Some ds ->
  (forall x, is_Some (status_at offset ds x) ->
     status_at offset ds x = (fun t => Z.land t 3) <$> type_at (x_extents exts) x) /\
  Forall (fun d => 0 < bd_length d <= UINT32_MAX) ds /\ ds <> [] /\
  (if has flags NBD_CMD_FLAG_REQ_ONE then length ds = 1%nat /\ total ds <= count
   else offset + count < offset + total ds \/
        offset + total ds = chain_end offset (x_extents exts)).
Proof.
  intros Hwf Hst Hc. pose proof Hwf as [Hs He Hnx Hch _ _ Hfill]. rewrite Hst in *.
  unfold extents_to_block_descriptors.
  destruct (x_extents exts) as [|e l] eqn:Hx.
  { unfold nbdkit_extents_count. by rewrite Hx. }
  assert ((1 <=? nbdkit_extents_count exts) = true) as ->.
  { unfold nbdkit_extents_count. rewrite Hx. apply Z.leb_le. simpl length. lia. }
  destruct (has flags NBD_CMD_FLAG_REQ_ONE).
  - assert (nbdkit_get_extent exts 0 = Some e) as -> by (unfold nbdkit_get_extent; by rewrite Hx).
    pose proof Hch as (Heo & Hel & _). rewrite (proj2 (Z.ltb_lt 0 (e_length e))) by done.
    simpl negb. cbv iota. intros H%(inj Some). subst ds.
    set (n := Z.min (e_length e) count).
    assert (Hn : 0 < n <= UINT32_MAX /\ n <= e_length e /\ n <= count) by (unfold n; lia).
    destruct (described_last (offset + n - 1 - count) count offset e l n)
      as [H1 H2 _]; [done|lia..|].
    split; [done|]. split; [done|]. split; [done|]. simpl. lia.
  - intros Hd. pose proof (Hfill ltac:(done)) as (_ & Hend & _).
    pose proof (descriptor_loop_spec (e :: l) true offset offset count Hch) as Hl.
    cbn [negb] in Hd. rewrite Hd in Hl. destruct Hl as [H1 H2 H3]; [lia..|].
    split; [done|]. split; [done|]. split; [|done]. intros ->. simpl in H3.
    pose proof (chain_end_lt _ _ Hch ltac:(done)) as Hlt. simpl in Hlt. lia.
Qed.

Lemma descriptors_none_iff exts flags count offset :
  exts_wf exts -> x_start exts = offset -> x_extents exts <> [] -> 0 < count <= UINT32_MAX ->
  extents_to_block_descriptors exts flags count offset = None <->
  has flags NBD_CMD_FLAG_REQ_ONE = false /\ count = UINT32_MAX /\
  exists e l, x_extents exts = e :: l /\ UINT32_MAX < e_length e.
Proof.
  intros Hwf Hst Hne Hc. pose proof Hwf as [Hs He Hnx Hch _ _ Hfill]. rewrite Hst in *.
  destruct (Hfill Hne) as (_ & Hend & _). unfold extents_to_block_descriptors.
  destruct (x_extents exts) as [|e l] eqn:Hx; [done|].
  assert ((1 <=? nbdkit_extents_count exts) = true) as ->.
  { unfold nbdkit_extents_count. rewrite Hx. apply Z.leb_le. simpl length. lia. }
  destruct (has flags NBD_CMD_FLAG_REQ_ONE).
  - assert (nbdkit_get_extent exts 0 = Some e) as -> by (unfold nbdkit_get_extent; by rewrite Hx).
    pose proof Hch as (Heo & Hel & _). rewrite (proj2 (Z.ltb_lt 0 (e_length e))) by done.
    split; [done|]. by intros [? _].
  - cbn [negb].
    pose proof (descriptor_loop_spec (e :: l) true offset offset count Hch) as Hl.
    destruct (descriptor_loop (e :: l) true offset offset count) as [ds|] eqn:Hd.
    + split; [done|]. intros (_ & -> & e' & l' & [= <- <-] & Hlong). exfalso.
      pose proof Hch as (Heo & _). cbn [descriptor_loop] in Hd.
      rewrite Heo, Z.eqb_refl, Z.min_r in Hd by lia. simpl in Hend.
      pose proof (chain_end_le _ _ (proj2 (proj2 Hch))).
      rewrite (u64_small (offset + UINT32_MAX)), Z.ltb_irrefl in Hd by (limits; lia).
      by rewrite (proj2 (Z.leb_gt _ _) Hlong) in Hd.
    + split; [|done]. intros _. destruct Hl as (_ & ? & ?); [lia..|]. done.
Qed.

(** The assertion inside [extents_to_block_descriptors] can fail, and
    exactly in one case: a request of [UINT32_MAX] bytes without [REQ_ONE]
    whose first extent is longer than [UINT32_MAX].  A client can send such
    a request, and the server then aborts. *)
Lemma block_descriptors_abort exts flags count offset :
  exts_wf exts -> x_start exts = offset -> x_extents exts <> [] -> 0 < count <= UINT32_MAX ->
  extents_to_block_descriptors exts flags count offset = None <->
  has flags NBD_CMD_FLAG_REQ_ONE = false /\ count = UINT32_MAX /\
  exists e l, x_extents exts = e :: l /\ UINT32_MAX < e_length e.
Proof. apply descriptors_none_iff. Qed.

Definition long_extents : nbdkit_extents := Extents [Extent 0 5000000000 0] 0 6000000000 5000000000.

Lemma long_extents_wf : exts_wf long_extents.
Proof.
  split; simpl; unfold INT64_MAX, nbdkit_extents_count, MAX_EXTENTS; simpl; (done || lia).
Qed.

Lemma block_descriptors_correct_witness :
  (forall x, is_Some (status_at 0 [BlockDescriptor 4294967295 0] x) ->
     status_at 0 [BlockDescriptor 4294967295 0] x =
     (fun t => Z.land t 3) <$> type_at (x_extents long_extents) x) /\
  Forall (fun d => 0 < bd_length d <= UINT32_MAX) [BlockDescriptor 4294967295 0] /\
  [BlockDescriptor 4294967295 0] <> [] /\
  (if has 0 NBD_CMD_FLAG_REQ_ONE then length [BlockDescriptor 4294967295 0] = 1%nat /\
      total [BlockDescriptor 4294967295 0] <= 65536
   else 0 + 65536 < 0 + total [BlockDescriptor 4294967295 0] \/
        0 + total [BlockDescriptor 4294967295 0] = chain_end 0 (x_extents long_extents)).
Proof.
  apply (block_descriptors_correct long_extents 0 65536 0 [BlockDescriptor 4294967295 0]);
    [apply long_extents_wf|reflexivity|unfold UINT32_MAX; lia|reflexivity].
Defined.

Lemma block_descriptors_abort_witness :
  extents_to_block_descriptors long_extents 0 UINT32_MAX 0 = None.
Proof.
  apply (block_descriptors_abort long_extents 0 UINT32_MAX 0);
    [apply long_extents_wf|reflexivity|discriminate|unfold UINT32_MAX; lia|].
  split; [reflexivity|]. split; [reflexivity|]. exists (Extent 0 5000000000 0), [].
  split; [reflexivity|]. unfold UINT32_MAX. simpl. lia.
Defined.

(** ** Error numbers on the wire *)

(** Every error is reported to the client as one of the error codes of
    the NBD protocol, success as 0 and only success as 0; [EOVERFLOW] is sent
    only for a request with the DF flag, [ENOTSUP] only for one with
    [FAST_ZERO]. *)
Theorem nbd_errno_protocol error flags :
  (nbd_errno error flags = NBD_SUCCESS <-> error = 0) /\
  nbd_errno error flags ∈ [NBD_SUCCESS; NBD_EPERM; NBD_EIO; NBD_ENOMEM; NBD_EINVAL;
    NBD_ENOSPC; NBD_EOVERFLOW; NBD_ENOTSUP; NBD_ESHUTDOWN] /\
  (nbd_errno error flags = NBD_EOVERFLOW -> has flags NBD_CMD_FLAG_DF = true) /\
  (nbd_errno error flags = NBD_ENOTSUP -> has flags NBD_CMD_FLAG_FAST_ZERO = true).
Proof.
  unfold nbd_errno. destruct (Z.eqb_spec error 0) as [->|Hne].
  { split; [done|]. split; [by apply (bool_decide_unpack _)|]. done. }
  assert (Hcase : forall v, v <> NBD_SUCCESS ->
    v ∈ [NBD_SUCCESS; NBD_EPERM; NBD_EIO; NBD_ENOMEM; NBD_EINVAL;
      NBD_ENOSPC; NBD_EOVERFLOW; NBD_ENOTSUP; NBD_ESHUTDOWN] ->
    (v = NBD_EOVERFLOW -> has flags NBD_CMD_FLAG_DF = true) ->
    (v = NBD_ENOTSUP -> has flags NBD_CMD_FLAG_FAST_ZERO = true) ->
    (v = NBD_SUCCESS <-> error = 0) /\
    v ∈ [NBD_SUCCESS; NBD_EPERM; NBD_EIO; NBD_ENOMEM; NBD_EINVAL;
      NBD_ENOSPC; NBD_EOVERFLOW; NBD_ENOTSUP; NBD_ESHUTDOWN] /\
    (v = NBD_EOVERFLOW -> has flags NBD_CMD_FLAG_DF = true) /\
    (v = NBD_ENOTSUP -> has flags NBD_CMD_FLAG_FAST_ZERO = true)) by tauto.
  repeat case_match; apply Hcase; (done || by apply (bool_decide_unpack _)).
Qed.

(** ** An assertion a client can trip *)

Section FastZero.
Context {W : Type} (b : backend W).
Implicit Types (s : st W).

(** C38: [validate_request] does not compare the [FAST_ZERO] flag with the
    advertised [NBD_FLAG_SEND_FAST_ZERO]: on an export that can zero but has
    no fast zero, a request that passes validation runs into the assertion
    of [backend_zero], and the server aborts. *)
Theorem fast_zero_unadvertised_abort flags offset count buf exts s c :
  session s c -> 0 <= offset <= UINT64_MAX -> 0 <= count <= UINT32_MAX ->
  request_valid (s_conn s) (c_exportsize c) NBD_CMD_WRITE_ZEROES flags offset count ->
  has flags NBD_CMD_FLAG_FAST_ZERO = true -> c_can_fast_zero c = 0 ->
  handle_request b NBD_CMD_WRITE_ZEROES flags offset count buf exts s = Crash AssertFailed.
Proof.
  intros Hss Ho Hc [Hro Hcmd Hfl] Hf Hcf. destruct (session_ctx _ _ Hss) as [cs Hs].
  destruct Hss as [_ Hp Hem]. destruct (zero_flags_spec flags) as (Hcl & Hz1 & Hz2).
  assert (Hv : valid_range c offset count = true).
  { apply valid_range_iff; [done..|apply Hp|]. by destruct Hcmd as [[_ ?]|[? _]]. }
  assert (Hw : c_can_write c = 1).
  { apply (em_write _ _ Hem). destruct (has (k_eflags (s_conn s)) _); [|done].
    by specialize (Hro eq_refl). }
  pose proof (em_zero _ _ Hem (fv_zero _ _ _ _ Hfl eq_refl)) as Hz.
  assert (Hfua : has (zero_flags flags) NBDKIT_FLAG_FUA = true -> 0 < c_can_fua c)
    by (rewrite Hz1; intros H; by apply (em_fua _ _ Hem), (fv_fua _ _ _ _ Hfl)).
  unfold handle_request. do 2 (erewrite bind_run; [|done]).
  set (s1 := set_thread _ (set_thread _ s)).
  assert (Hs1 : s_ctx s1 = c :: cs) by done. fold (zero_flags flags).
  assert (backend_zero b count offset (zero_flags flags) 0 s1 = Crash AssertFailed) as Hcrash.
  { unfold backend_zero. rewrite (bind_run _ _ _ _ _ (check_connected_primed s1 c cs Hs1 Hp)).
    rewrite bind_assert by (by apply Z.eqb_eq). rewrite bind_assert by (by apply Z.ltb_lt).
    rewrite (bind_run _ _ _ _ _ (valid_range_primed s1 c cs offset count Hs1 Hp)), Hv.
    rewrite bind_assert by done. rewrite bind_assert by (by apply Z.eqb_eq).
    rewrite bind_assert by (by apply fua_assertion). by rewrite Hz2, Hf, Hcf. }
  change ((re ← backend_zero b count offset (zero_flags flags) 0;
           mret (if re.1 =? -1 then u32 re.2 else 0, buf, exts)) s1 = Crash AssertFailed).
  unfold mbind, M_bind. by rewrite Hcrash.
Qed.
End FastZero.

Lemma witness_session {W} (w : W) : session (witness_state w) witness_context.
Proof.
  split; [done|apply witness_primed|]. split; simpl; intros; (done || lia).
Qed.

Lemma fast_zero_unadvertised_abort_witness :
  handle_request (ram_backend 1048576) NBD_CMD_WRITE_ZEROES NBD_CMD_FLAG_FAST_ZERO 0 4096 []
    no_extents (witness_state (fun _ => 0)) = Crash AssertFailed.
Proof.
  apply (fast_zero_unadvertised_abort _ _ _ _ _ _ _ witness_context);
    [apply witness_session|unfold UINT64_MAX; lia|unfold UINT32_MAX; lia| |reflexivity|reflexivity].
  split; [done| |].
  - left. simpl. split; [reflexivity|lia].
  - split; simpl; (done || intros [?|?]; done).
Defined.

(** ** One step of the transmission phase *)

(** What the steps of a connection preserve. *)
Record keeps_session {W} (s s' : st W) : Prop := KeepsSession {
  ks_ctx : head (s_ctx s') = head (s_ctx s);
  ks_eflags : k_eflags (s_conn s') = k_eflags (s_conn s);
  ks_structured : k_structured_replies (s_conn s') = k_structured_replies (s_conn s);
  ks_meta : k_meta_context_base_allocation (s_conn s') =
    k_meta_context_base_allocation (s_conn s);
  ks_input : input_wf (s_conn s) -> input_wf (s_conn s');
  ks_size : (input_size (s_conn s') <= input_size (s_conn s))%nat;
  ks_handles : handles (s_ctx s') = handles (s_ctx s);
  ks_top : k_top_context (s_conn s') = k_top_context (s_conn s);
}.

#[global] Instance keeps_session_preorder {W} : PreOrder (@keeps_session W).
Proof.
  split; [by intros s|]. intros s1 s2 s3 [] []. split; try congruence; [auto|lia].
Qed.

Lemma keeps_session_session {W} (s s' : st W) c :
  keeps_session s s' -> session s c -> session s' c.
Proof.
  intros [Hc He _ _ _ _ _ _] [Hh Hp [Hw Hf Hfua Ht Hz Hca]]. split; [congruence|done|].
  split; rewrite He; done.
Qed.

Lemma io_keeps {W} (s s' : st W) : io_step s s' -> keeps_session s s'.
Proof. intros [_ Hc Hn Hi Hz]. unfold negotiated in Hn. simplify_eq. split; congruence || done. Qed.

Lemma thread_keeps {W} (s s' : st W) : thread_step s s' -> keeps_session s s'.
Proof. intros (_ & Hk & Hc). split; rewrite ?Hk, ?Hc; done. Qed.

Lemma frame_keeps {W} (s s' : st W) : frame s s' -> keeps_session s s'.
Proof. intros (Hc & Hh & Hk). split; rewrite ?Hk; done. Qed.

Section Step.
Context {W : Type} (b : backend W).
Implicit Types (s : st W) (c : context).

Lemma wp_set_status v (Q : bool -> st W -> Prop) s :
  (forall r s', keeps_session s s' -> Q r s') -> wp (connection_set_status v) Q s.
Proof.
  intros HQ. unfold connection_set_status. apply wp_bind, wp_gets.
  destruct (set_status _ _ _) as [[new notify] ret]. apply wp_bind, wp_modify, wp_ret.
  apply HQ. by destruct notify.
Qed.

(** Lowering the status lowers it. *)
Lemma wp_set_status_down v (Q : bool -> st W -> Prop) s :
  (forall r s', keeps_session s s' -> status_val (k_status (s_conn s')) <= status_val v -> Q r s') ->
  wp (connection_set_status v) Q s.
Proof.
  intros HQ. unfold connection_set_status. apply wp_bind, wp_gets.
  pose proof (set_status_down (negb (k_nworkers (s_conn s) =? 0)) (k_status (s_conn s)) v) as H.
  destruct (set_status _ _ _) as [[new notify] ret]. apply wp_bind, wp_modify, wp_ret.
  apply HQ; [by destruct notify|]. simpl in *. lia.
Qed.

Lemma wp_send_all msg bufs (Q : bool -> st W -> Prop) s :
  (forall r s', keeps_session s s' -> Q r s') -> wp (send_all msg bufs) Q s.
Proof.
  revert s. induction bufs as [|buf bufs IH]; intros s HQ; simpl; [by apply wp_ret, HQ|].
  apply wp_bind, wp_send. intros r s1 Hio%io_keeps _. destruct (r =? -1).
  - apply wp_bind, wp_modify, wp_set_status. intros r2 s2 Hk. apply HQ.
    etrans; [exact Hio|]. by etrans; [apply thread_keeps|exact Hk].
  - apply IH. intros r2 s2 Hk. apply HQ. by etrans.
Qed.

(** Sending the reply never fails an assertion when a successful block
    status request has a non-empty list of extents of at most 4 GiB. *)
Lemma wp_send_reply cookie cmd flags count offset buf exts error (Q : bool -> st W -> Prop) s :
  (cmd = NBD_CMD_BLOCK_STATUS -> k_structured_replies (s_conn s) = true -> error = 0 ->
   k_meta_context_base_allocation (s_conn s) = true /\
   extents_to_block_descriptors exts flags count offset <> None) ->
  (forall r s', keeps_session s s' -> Q r s') ->
  wp (send_reply cookie cmd flags count offset buf exts error) Q s.
Proof.
  intros Hbs HQ. unfold send_reply. apply wp_bind, wp_gets.
  destruct (status_val _ <? status_val _); [by apply wp_ret, HQ|]. apply wp_bind, wp_gets.
  destruct (k_structured_replies (s_conn s)) eqn:Hsr; simpl; [|by apply wp_send_all].
  destruct (Z.eqb_spec cmd NBD_CMD_READ) as [->|Hr]; simpl.
  { destruct (negb (error =? 0)); [by apply wp_send_all|].
    unfold send_structured_reply_read. apply wp_bind, wp_assert. split; [done|].
    by apply wp_send_all. }
  destruct (Z.eqb_spec cmd NBD_CMD_BLOCK_STATUS) as [->|Hb]; simpl; [|by apply wp_send_all].
  destruct (Z.eqb_spec error 0) as [->|]; simpl; [|by apply wp_send_all].
  destruct (Hbs eq_refl eq_refl eq_refl) as [Hm Hd].
  unfold send_structured_reply_block_status. apply wp_bind, wp_gets.
  apply wp_bind, wp_assert. split; [done|]. apply wp_bind, wp_assert. split; [done|].
  destruct (extents_to_block_descriptors _ _ _ _); [|done]. by apply wp_send_all.
Qed.

(** The skip loop always terminates, and keeps the rest of the input. *)
Lemma skip_loop_wf fuel count evs :
  (Z.to_nat count <= fuel)%nat ->
  let wf := Forall (fun ev => match ev with RData bs => Forall is_byte bs | RErr _ => True end) in
  let '(r, evs') := skip_loop fuel count evs in
  r <> Some None /\ (wf evs -> wf evs') /\ (events_size evs' <= events_size evs)%nat.
Proof.
  unfold events_size.
  revert count evs. induction fuel as [|fuel IH]; intros count evs Hfuel; cbn [skip_loop];
    (destruct (Z.leb_spec count 0); [done|]); [lia|].
  set (limit := Z.to_nat _).
  assert (Hl : (0 < limit)%nat) by (unfold limit, BUFSIZ; case_match; lia).
  destruct evs as [|[[|x bs]|e] evs]; [by split; [|split; simpl; try lia]..| |].
  - destruct (Nat.ltb_spec limit (length (x :: bs))).
    + specialize (IH (count - Z.of_nat limit) (RData (drop limit (x :: bs)) :: evs) ltac:(lia)).
      destruct (skip_loop _ _ _) as [r evs']. destruct IH as (? & IH & Hz). split; [done|].
      split; [|cbn [sum_list_with event_size] in *; rewrite length_drop in Hz; lia].
      intros Hw. inversion Hw; subst. apply IH. constructor; [by apply Forall_drop|done].
    + specialize (IH (count - Z.of_nat (length (x :: bs))) evs ltac:(simpl; lia)).
      destruct (skip_loop _ _ _) as [r evs']. destruct IH as (? & IH & Hz). split; [done|].
      split; [|simpl in *; lia]. intros Hw. inversion Hw; subst. by apply IH.
  - split; [done|]. split; [|simpl; lia]. intros Hw. by inversion Hw.
Qed.

Lemma wp_skip count (Q : Z -> st W -> Prop) s :
  (forall r s', keeps_session s s' -> Q r s') -> wp (skip_over_write_buffer count) Q s.
Proof.
  intros HQ. unfold skip_over_write_buffer. destruct (_ <? count).
  { apply wp_bind, wp_modify, wp_ret, HQ. done. }
  apply wp_bind, wp_gets.
  pose proof (skip_loop_wf (Z.to_nat count) count (k_sockin (s_conn s)) ltac:(lia)) as H.
  destruct (skip_loop _ _ _) as [r evs]. destruct H as (Hr & Hw & Hz). apply wp_bind, wp_modify.
  destruct r as [[e|]|]; [|done|].
  - apply wp_bind, wp_modify, wp_bind, wp_modify, wp_ret, HQ. by split.
  - apply wp_ret, HQ. by split.
Qed.

(** The connection is going down, or some input has been consumed. *)
Definition advances (s s' : st W) : Prop :=
  status_val (k_status (s_conn s')) <= status_val STATUS_CLIENT_DONE \/
  (input_size (s_conn s') < input_size (s_conn s))%nat.

(** What the receiving part guarantees of a request to be performed. *)
Definition received_ok (c : context) (s : st W) (rc : received) (s' : st W) : Prop :=
  keeps_session s s' /\
  match rc with
  | Return _ => advances s s'
  | _ => (input_size (s_conn s') < input_size (s_conn s))%nat
  end /\
  match rc with
  | Return _ => True
  | Reply rq error => 0 < error <= INT32_MAX
  | Perform rq cs buf exts =>
      0 <= rq_offset rq <= UINT64_MAX /\ 0 <= rq_count rq <= UINT32_MAX /\
      request_valid (s_conn s) (c_exportsize c) (rq_type rq) (rq_flags rq) (rq_offset rq)
        (rq_count rq) /\
      (rq_type rq = NBD_CMD_BLOCK_STATUS -> exts = Extents [] (rq_offset rq) (c_exportsize c) (-1))
  end.

Lemma wp_return_status v c s0 s :
  status_val v <= status_val STATUS_CLIENT_DONE ->
  keeps_session s0 s -> wp (return_status v) (received_ok c s0) s.
Proof.
  intros Hv Hk. unfold return_status. apply wp_bind, wp_set_status_down. intros r s' Hk' Hs'.
  apply wp_ret. split; [by etrans|]. split; [left; lia|done].
Qed.

Lemma wp_reject rq e c s0 s :
  keeps_session s0 s -> (input_size (s_conn s) < input_size (s_conn s0))%nat ->
  0 < e <= INT32_MAX -> wp (reject rq e) (received_ok c s0) s.
Proof.
  intros Hk Hz He. unfold reject. destruct (rq_type rq =? NBD_CMD_WRITE); [|by apply wp_ret].
  apply wp_bind, wp_skip. intros r s' Hk'. destruct (r <? 0).
  - apply wp_return_status; [done|]. by etrans.
  - apply wp_ret. split; [by etrans|]. split; [|done]. pose proof (ks_size _ _ Hk'). lia.
Qed.

(** [backend_get_size] on a primed context. *)
Lemma known_get_size s c cs :
  s_ctx s = c :: cs -> primed c -> backend_get_size b s = Ok (c_exportsize c, s).
Proof.
  intros Hs Hp. pose proof (pr_size _ Hp). unfold backend_get_size.
  rewrite (bind_run _ _ _ _ _ (check_connected_primed s c cs Hs Hp)).
  rewrite (proj2 (Z.eqb_neq (c_exportsize c) UINT64_MAX)) by (limits; lia).
  unfold cur. unfold_m. rewrite Hs, i64_small by lia. done.
Qed.

Lemma wp_receive_data buffer_ok rq cs0 s0 s c :
  keeps_session s0 s -> (input_size (s_conn s) < input_size (s_conn s0))%nat -> session s0 c ->
  0 <= rq_offset rq <= UINT64_MAX -> 0 <= rq_count rq <= UINT32_MAX ->
  request_valid (s_conn s0) (c_exportsize c) (rq_type rq) (rq_flags rq) (rq_offset rq)
    (rq_count rq) ->
  wp (receive_data b buffer_ok rq cs0) (received_ok c s0) s.
Proof.
  intros Hk Hz Hss Ho Hc Hrv. unfold receive_data.
  destruct (_ && _)%bool; [apply wp_reject; [done|done|by vm_compute]|]. apply wp_bind.
  pose proof (keeps_session_session _ _ _ Hk Hss) as Hss1.
  destruct (session_ctx _ _ Hss1) as [cs Hs]. pose proof (ss_primed _ _ Hss1) as Hp.
  assert (Hend : forall exts, (rq_type rq = NBD_CMD_BLOCK_STATUS ->
      exts = Extents [] (rq_offset rq) (c_exportsize c) (-1)) ->
    wp (if rq_type rq =? NBD_CMD_WRITE then
          '(r, buf) ← raw_recv (rq_count rq);
          if r =? 1 then mret (Perform rq cs0 buf exts)
          else
            (if r =? 0 then set_errno EBADMSG else mret tt);;
            nbdkit_error "read data"%string;;
            return_status STATUS_DEAD
        else mret (Perform rq cs0 [] exts)) (received_ok c s0) s).
  { intros exts Hx. destruct (rq_type rq =? NBD_CMD_WRITE); [|by apply wp_ret].
    apply wp_bind, wp_recv. intros r d s1 Hio%io_keeps _ _ _.
    destruct (r =? 1).
    { apply wp_ret. split; [by etrans|]. split; [|done]. pose proof (ks_size _ _ Hio). lia. }
    apply wp_bind. destruct (r =? 0).
    - apply wp_modify, wp_bind, wp_modify, wp_return_status; [done|].
      etrans; [exact Hk|]. by etrans; [exact Hio|apply thread_keeps].
    - apply wp_ret, wp_bind, wp_modify, wp_return_status; [done|].
      etrans; [exact Hk|]. by etrans; [exact Hio|apply thread_keeps]. }
  destruct (Z.eqb_spec (rq_type rq) NBD_CMD_BLOCK_STATUS) as [Et|Et].
  - apply wp_bind. eapply wp_intro; [by eapply known_get_size|]. apply wp_ret.
    pose proof (pr_size _ Hp). rewrite u64_small by (limits; lia).
    unfold nbdkit_extents_new. destruct Hrv as [_ [(_ & ? & ?)|[Ef _]] _]; [|by rewrite Et in Ef].
    rewrite (proj2 (Z.ltb_ge INT64_MAX (rq_offset rq))), (proj2 (Z.ltb_ge INT64_MAX _)) by lia.
    simpl. rewrite (proj2 (Z.ltb_ge _ _)) by lia. by apply Hend.
  - by apply wp_ret, Hend.
Qed.

Lemma wp_recv_request buffer_ok s c :
  session s c -> input_wf (s_conn s) ->
  wp (recv_request b buffer_ok) (received_ok c s) s.
Proof.
  intros Hss Hin. unfold recv_request. apply wp_bind, wp_recv_progress.
  intros r d s1 Hio Hr _ Hb Hz. specialize (Hb Hin). apply io_keeps in Hio.
  apply wp_bind, wp_gets. destruct (Z.leb_spec (status_val (k_status (s_conn s1)))
    (status_val STATUS_CLIENT_DONE)) as [Hdown|_].
  { apply wp_ret. split; [done|]. split; [by left|done]. }
  assert (Hbad : forall msg, wp (nbdkit_error msg;; return_status STATUS_DEAD) (received_ok c s) s1).
  { intros msg. apply wp_bind, wp_modify, wp_return_status; [done|].
    etrans; [exact Hio|by apply thread_keeps]. }
  destruct (Z.eqb_spec r (-1)); [apply Hbad|].
  destruct (Z.eqb_spec r 0); [by apply wp_return_status|].
  assert (Hless : (input_size (s_conn s1) < input_size (s_conn s))%nat) by (apply Hz; [lia|done]).
  destruct (negb (rq_magic (decode_request d) =? NBD_REQUEST_MAGIC)); [apply Hbad|].
  destruct (rq_type (decode_request d) =? NBD_CMD_DISC); [by apply wp_return_status|].
  pose proof (keeps_session_session _ _ _ Hio Hss) as Hss1.
  destruct (session_ctx _ _ Hss1) as [cs Hs]. pose proof (pr_size _ (ss_primed _ _ Hss1)) as Hsz.
  assert (Ho : 0 <= rq_offset (decode_request d) <= UINT64_MAX).
  { pose proof (field_bound 16 8 d Hb). limits. simpl in *. lia. }
  assert (Hc : 0 <= rq_count (decode_request d) <= UINT32_MAX).
  { pose proof (field_bound 24 4 d Hb). limits. simpl in *. lia. }
  apply wp_bind. eapply wp_mono; [by eapply wp_validate_request|].
  intros v s2 (Hst & He & Hv).
  pose proof (thread_keeps _ _ Hst) as Hk12. pose proof (ks_size _ _ Hk12) as Hz2.
  assert (Hk2 : keeps_session s s2) by (by etrans).
  destruct v as [e|].
  - apply wp_reject; [done|lia|]. by apply He.
  - apply wp_receive_data; [done|lia|done..|].
    destruct (proj1 Hv eq_refl) as [Hv1 Hv2 [? ? ? Hdf ? Hfua ? Hfl Ht Hzr Hca Hbs]].
    destruct Hio as [_ Heq Hsr Hm _ _ _ _]. rewrite ?Heq, ?Hsr, ?Hm in *. by split.
Qed.

Context `{!DataContract b}.

Lemma advanced s s1 s2 :
  keeps_session s s1 -> (input_size (s_conn s1) < input_size (s_conn s))%nat ->
  keeps_session s1 s2 -> keeps_session s s2 /\ advances s s2.
Proof.
  intros Hk Hz Hk2. split; [by etrans|]. right. pose proof (ks_size _ _ Hk2). lia.
Qed.

Lemma wp_request quit buffer_ok s c :
  session s c -> input_wf (s_conn s) ->
  c_exportsize c <= UINT32_MAX -> (0 < c_can_zero c -> c_can_fast_zero c = 1) ->
  wp (protocol_recv_request_send_reply b quit buffer_ok) (fun _ s' =>
    keeps_session s s' /\ advances s s') s.
Proof.
  intros Hss Hin Hsize Hfz.
  unfold protocol_recv_request_send_reply. apply wp_bind.
  eapply wp_mono; [by apply (wp_recv_request _ _ c)|].
  intros [r|rq error|rq cs buf exts] s1 (Hk & Hadv & Hrc); [by apply wp_ret|..].
  { apply wp_send_reply; [lia|]. intros r s2 Hk2. by apply (advanced s s1 s2). }
  destruct Hrc as (Ho & Hc & Hrv & Hx). pose proof (keeps_session_session _ _ _ Hk Hss) as Hss1.
  apply wp_bind. destruct (_ || _)%bool.
  { apply wp_ret, wp_send_reply; [done|]. intros r s2 Hk2. by apply (advanced s s1 s2). }
  pose proof Hk as [_ Heq Hsr Hm _ _ _ _].
  assert (Hrv1 : request_valid (s_conn s1) (c_exportsize c) (rq_type rq) (rq_flags rq)
    (rq_offset rq) (rq_count rq)).
  { destruct Hrv as [Hv1 Hv2 []]. split; [by rewrite Heq|done|].
    split; rewrite ?Heq, ?Hsr, ?Hm; done. }
  apply wp_bind. eapply wp_mono; [apply (wp_handle_request b); try done|].
  { intros Hf. pose proof (rv_flags _ _ _ _ _ _ Hrv1) as Hfl.
    apply Hfz, (em_zero _ _ (ss_eflags _ _ Hss1)), (fv_zero _ _ _ _ Hfl).
    by apply (fv_fast_zero _ _ _ _ Hfl). }
  intros [[error buf'] exts'] s2 (Hfr & He & _ & Hans). apply wp_bind, wp_assert.
  split. { apply Z.leb_le. unfold i32. rewrite u32_small by (limits; lia).
    rewrite (proj2 (Z.leb_le _ _)); lia. }
  apply wp_ret, wp_send_reply.
  - intros Et _ Hz. pose proof (frame_keeps _ _ Hfr) as Hk2.
    split. { rewrite (ks_meta _ _ Hk2).
      apply (fv_block_status _ _ _ _ (rv_flags _ _ _ _ _ _ Hrv1) Et). }
    destruct (Hans Et Hz) as (Hwf & Hst & Hen & Hne). simpl in Hst, Hen.
    destruct (rv_cmd _ _ _ _ _ _ Hrv1) as [(_ & Hpos & _)|[Ef _]]; [|by rewrite Et in Ef].
    rewrite descriptors_none_iff by (done || lia). intros (_ & _ & e & l & Hl & Hlong).
    destruct (wf_filled _ Hwf Hne) as (_ & Hend & _). pose proof (wf_chain _ Hwf) as Hch.
    rewrite Hl in Hend, Hch. simpl in Hend. pose proof (chain_end_le _ _ (proj2 (proj2 Hch))). lia.
  - intros r s3 Hk3. apply (advanced s s1 s3); [done..|]. by etrans; [apply frame_keeps|].
Qed.

(** C4: No client can crash the transmission phase: whatever bytes arrive,
    however they are fragmented or cut off, whatever the backend answers
    and whether or not a send fails, handling a request runs into no
    failed assertion, no NULL context and no unbounded loop, and leaves the
    connection ready for the next request; it either takes the connection
    down or consumes input.  The export must be at most
    [UINT32_MAX] bytes, and have fast zero if it can zero: without these two
    conditions the aborts of [block_descriptors_abort] and
    [fast_zero_unadvertised_abort] are reachable. *)
Theorem request_never_aborts quit buffer_ok s c :
  session s c -> input_wf (s_conn s) ->
  c_exportsize c <= UINT32_MAX -> (0 < c_can_zero c -> c_can_fast_zero c = 1) ->
  wp (protocol_recv_request_send_reply b quit buffer_ok) (fun _ s' =>
    keeps_session s s' /\ session s' c /\ input_wf (s_conn s') /\ advances s s') s.
Proof.
  intros Hss Hin Hsize Hfz. eapply wp_mono; [by apply (wp_request _ _ s c)|].
  intros r s' [Hk Ha]. split; [done|]. split; [by eapply keeps_session_session|].
  split; [by apply Hk|done].
Qed.
End Step.

Lemma request_never_aborts_witness :
  wp (protocol_recv_request_send_reply (ram_backend 1048576) false true) (fun _ s' =>
    keeps_session (set_ctx [ctx_can_fast_zero 1 witness_context]
      (set_conn (with_sockin [RData [1; 2; 3]]) (witness_state (fun _ => 0)))) s' /\
    session s' (ctx_can_fast_zero 1 witness_context) /\ input_wf (s_conn s') /\
    advances (set_ctx [ctx_can_fast_zero 1 witness_context]
      (set_conn (with_sockin [RData [1; 2; 3]]) (witness_state (fun _ => 0)))) s')
    (set_ctx [ctx_can_fast_zero 1 witness_context]
      (set_conn (with_sockin [RData [1; 2; 3]]) (witness_state (fun _ => 0)))).
Proof.
  apply (request_never_aborts (ram_backend 1048576)).
  - split; [reflexivity|split; simpl; unfold INT64_MAX; (done || lia || auto)|].
    split; simpl; intros; (done || lia).
  - repeat constructor; unfold is_byte; lia.
  - unfold UINT32_MAX. simpl. lia.
  - done.
Defined.

(** ** One request, one reply

    The client side as a byte stream: every [read(2)] delivers some bytes,
    and every [send(2)] accepts all of them. *)

Definition all_data (evs : list read_event) : Prop :=
  Forall (fun ev => match ev with RData bs => bs <> [] | RErr _ => False end) evs.

Fixpoint flat (evs : list read_event) : list Z :=
  match evs with
  | [] => []
  | RData bs :: evs' => bs ++ flat evs'
  | RErr _ :: evs' => flat evs'
  end.

Lemma raw_recv_loop_data evs len first :
  all_data evs -> (len <= length (flat evs))%nat ->
  exists evs', raw_recv_loop evs len first = (1, take len (flat evs), evs', None) /\
    all_data evs' /\ flat evs' = drop len (flat evs).
Proof.
  intros Ha. revert len first. induction Ha as [|[bs|] evs Hb Ha IH]; intros len first Hl; [| |done].
  { destruct len; [|simpl in Hl; lia]. exists []. by repeat constructor. }
  destruct len as [|len]; [exists (RData bs :: evs); split; [done|]; split; [by constructor|done]|].
  destruct bs as [|b bs]; [done|]. cbn [raw_recv_loop flat] in *.
  destruct (Nat.ltb_spec (S len) (length (b :: bs))) as [Hlt|Hge].
  - eexists. split; [by rewrite take_app_le by lia|]. split.
    + constructor; [|done]. intros Hd. apply (f_equal length) in Hd.
      rewrite length_drop in Hd. simpl in *. lia.
    + cbn [flat]. by rewrite drop_app_le by lia.
  - rewrite length_app in Hl.
    destruct (IH (S len - length (b :: bs))%nat false) as (evs' & -> & Ha' & Hf); [lia|].
    exists evs'. split; [by rewrite take_app_ge by lia|]. split; [done|].
    by rewrite drop_app_ge by lia.
Qed.

Lemma skip_loop_data fuel count evs :
  all_data evs -> (Z.to_nat count <= fuel)%nat -> 0 <= count <= Z.of_nat (length (flat evs)) ->
  exists evs', skip_loop fuel count evs = (None, evs') /\ all_data evs' /\
    flat evs' = drop (Z.to_nat count) (flat evs).
Proof.
  revert count evs. induction fuel as [|fuel IH]; intros count evs Ha Hfuel Hc; cbn [skip_loop].
  { replace count with 0 by lia. exists evs. by rewrite drop_0. }
  destruct (Z.leb_spec count 0) as [Hz|Hz].
  { replace count with 0 by lia. exists evs. by rewrite drop_0. }
  assert (Hlim : exists limit, (if BUFSIZ <? count then BUFSIZ else count) = Z.of_nat limit /\
    (0 < limit)%nat /\ Z.of_nat limit <= count).
  { exists (Z.to_nat (if BUFSIZ <? count then BUFSIZ else count)). unfold BUFSIZ.
    destruct (Z.ltb_spec 8192 count); lia. }
  destruct Hlim as (limit & -> & Hl0 & Hlc). rewrite Nat2Z.id.
  destruct evs as [|[bs|] evs]; [simpl in Hc; lia| |by inversion Ha].
  inversion Ha as [|? ? Hb Ha']; subst. destruct bs as [|x bs]; [done|].
  cbn [flat] in *. rewrite length_app in Hc.
  destruct (Nat.ltb_spec limit (length (x :: bs))) as [Hlt|Hge].
  - destruct (IH (count - Z.of_nat limit) (RData (drop limit (x :: bs)) :: evs))
      as (evs' & -> & Ha2 & Hf).
    + constructor; [|done]. intros Hd. apply (f_equal length) in Hd. rewrite length_drop in Hd.
      simpl in *. lia.
    + lia.
    + cbn [flat]. rewrite length_app, length_drop. lia.
    + exists evs'. split; [done|]. split; [done|]. rewrite Hf. cbn [flat].
      rewrite <- drop_app_le, drop_drop by lia. f_equal. lia.
  - destruct (IH (count - Z.of_nat (length (x :: bs))) evs) as (evs' & -> & Ha2 & Hf);
      [done|simpl in *; lia|lia|].
    exists evs'. split; [done|]. split; [done|]. rewrite Hf.
    rewrite (drop_app_ge (x :: bs)) by lia. f_equal. lia.
Qed.

Section OneReply.
Context {W : Type} (b : backend W).
Implicit Types (s : st W) (c : context).

(** Sending on a socket that accepts everything. *)
Lemma send_all_open msg bufs s :
  k_sockout_open (s_conn s) = true -> k_sockout (s_conn s) = [] ->
  exists s', send_all msg bufs s = Ok (false, s') /\
    k_sent (s_conn s') = k_sent (s_conn s) ++ concat bufs /\
    k_sockin (s_conn s') = k_sockin (s_conn s).
Proof.
  revert s. induction bufs as [|buf bufs IH]; intros s Ho Hs; simpl.
  - exists s. by rewrite app_nil_r.
  - unfold raw_send_socket. unfold_m. rewrite Ho, Hs. cbn [negb].
    assert (raw_send_loop [] buf = (0, buf, [], None)) as -> by (by destruct buf).
    unfold opt_errno. unfold_m. simpl.
    destruct (IH (set_conn (with_sockout true [] (k_sent (s_conn s) ++ buf)) s)) as (s' & -> & Hsent & Hin);
      [done..|].
    exists s'. split; [done|]. split; [|done]. rewrite Hsent. simpl. by rewrite app_assoc.
Qed.

(** The simple reply to a request, with its data. *)
Definition simple_reply (rq : nbd_request) (error : Z) (data : list Z) : list Z :=
  nbd_simple_reply NBD_SIMPLE_REPLY_MAGIC (nbd_errno error (rq_flags rq)) (rq_cookie rq) ++
  (if ((rq_type rq =? NBD_CMD_READ) && (error =? 0))%bool then data else []).

Lemma send_reply_simple rq buf exts error s :
  k_status (s_conn s) = STATUS_ACTIVE -> k_structured_replies (s_conn s) = false ->
  k_sockout_open (s_conn s) = true -> k_sockout (s_conn s) = [] ->
  exists s', send_reply (rq_cookie rq) (rq_type rq) (rq_flags rq) (rq_count rq) (rq_offset rq)
      buf exts error s = Ok (false, s') /\
    k_sent (s_conn s') = k_sent (s_conn s) ++ simple_reply rq error buf /\
    k_sockin (s_conn s') = k_sockin (s_conn s).
Proof.
  intros Hst Hsr Ho Hs. unfold send_reply, connection_get_status. unfold_m.
  rewrite Hst. change (status_val STATUS_ACTIVE <? status_val STATUS_CLIENT_DONE) with false.
  cbv beta iota. rewrite Hsr. cbn [negb orb]. unfold send_simple_reply.
  destruct (send_all_open "write reply"%string
    (nbd_simple_reply NBD_SIMPLE_REPLY_MAGIC (nbd_errno error (rq_flags rq)) (rq_cookie rq) ::
     (if ((rq_type rq =? NBD_CMD_READ) && (error =? 0))%bool then [buf] else [])) s Ho Hs)
    as (s' & Hrun & Hsent & Hin).
  exists s'. split; [exact Hrun|]. split; [|done]. rewrite Hsent. unfold simple_reply. f_equal.
  simpl. f_equal. destruct (_ && _)%bool; simpl; [by rewrite app_nil_r|done].
Qed.

(** A connection that only answers: active, simple replies, and a client
    that keeps reading and writing. *)
Record answering (k : connection) : Prop := Answering {
  an_status : k_status k = STATUS_ACTIVE;
  an_simple : k_structured_replies k = false;
  an_open : k_sockout_open k = true;
  an_accepts : k_sockout k = [];
  an_data : all_data (k_sockin k);
}.

(** The bytes that follow the request itself. *)
Definition payload_length (rq : nbd_request) : nat :=
  if rq_type rq =? NBD_CMD_WRITE then Z.to_nat (rq_count rq) else 0.

Lemma raw_recv_run len s :
  all_data (k_sockin (s_conn s)) -> (Z.to_nat len <= length (flat (k_sockin (s_conn s))))%nat ->
  exists evs, raw_recv len s =
      Ok ((1, take (Z.to_nat len) (flat (k_sockin (s_conn s)))), set_conn (with_sockin evs) s) /\
    all_data evs /\ flat evs = drop (Z.to_nat len) (flat (k_sockin (s_conn s))).
Proof.
  intros Ha Hl. destruct (raw_recv_loop_data _ _ true Ha Hl) as (evs & E & Ha' & Hf).
  exists evs. unfold raw_recv. unfold_m. by rewrite E.
Qed.

Lemma skip_run count s :
  all_data (k_sockin (s_conn s)) ->
  0 <= count <= Z.of_nat (length (flat (k_sockin (s_conn s)))) -> count <= MAX_REQUEST_SIZE * 2 ->
  exists evs, skip_over_write_buffer count s = Ok (0, set_conn (with_sockin evs) s) /\
    all_data evs /\ flat evs = drop (Z.to_nat count) (flat (k_sockin (s_conn s))).
Proof.
  intros Ha Hc Hm. destruct (skip_loop_data (Z.to_nat count) count _ Ha) as (evs & E & Ha' & Hf);
    [lia|done|].
  exists evs. unfold skip_over_write_buffer. rewrite (proj2 (Z.ltb_ge _ _)) by done.
  unfold_m. by rewrite E.
Qed.

(** What validation looks at. *)
Definition agreed (k : connection) :=
  (k_eflags k, k_structured_replies k, k_meta_context_base_allocation k).

Lemma request_valid_agreed k k' size cmd flags offset count :
  agreed k' = agreed k -> request_valid k size cmd flags offset count ->
  request_valid k' size cmd flags offset count.
Proof.
  unfold agreed. intros [=E1 E2 E3] [Hro Hcmd []].
  split; [by rewrite E1|done|]. split; rewrite ?E1, ?E2, ?E3; done.
Qed.

(** The state of the connection when the reply is sent. *)
Definition ready (rest : list Z) (k0 k : connection) : Prop :=
  answering k /\ flat (k_sockin k) = rest /\ k_sent k = k_sent k0 /\ agreed k = agreed k0.

Definition answered (rq : nbd_request) (rest : list Z) (size : Z) (k0 : connection)
    (r : bool) (s' : st W) : Prop :=
  r = false /\ exists error data,
    k_sent (s_conn s') = k_sent k0 ++ simple_reply rq error data /\
    all_data (k_sockin (s_conn s')) /\ flat (k_sockin (s_conn s')) = rest /\
    (error = 0 -> request_valid k0 size (rq_type rq) (rq_flags rq) (rq_offset rq) (rq_count rq)) /\
    (rq_type rq = NBD_CMD_READ -> error = 0 -> length data = Z.to_nat (rq_count rq)).

Lemma wp_answer rq rest size k0 buf exts error s :
  ready rest k0 (s_conn s) ->
  (error = 0 -> request_valid k0 size (rq_type rq) (rq_flags rq) (rq_offset rq) (rq_count rq)) ->
  (rq_type rq = NBD_CMD_READ -> error = 0 -> length buf = Z.to_nat (rq_count rq)) ->
  wp (send_reply (rq_cookie rq) (rq_type rq) (rq_flags rq) (rq_count rq) (rq_offset rq)
      buf exts error) (answered rq rest size k0) s.
Proof.
  intros ([Hst Hsr Ho Hs Ha] & Hf & Hse & _) Hv Hl.
  destruct (send_reply_simple rq buf exts error s Hst Hsr Ho Hs) as (s' & Hrun & Hsent & Hin).
  eapply wp_intro; [exact Hrun|]. split; [done|]. exists error, buf.
  rewrite Hsent, Hin, Hse. auto.
Qed.

(** How the rest of the function goes on from a decision to reply. *)
Definition replies (rq : nbd_request) (rest : list Z) (c : context) (k0 : connection)
    (rc : received) (s' : st W) : Prop :=
  ready rest k0 (s_conn s') /\ session s' c /\
  match rc with
  | Return _ => False
  | Reply rq' error => rq' = rq /\ 0 < error
  | Perform rq' cs buf exts => rq' = rq /\ cs = STATUS_ACTIVE /\
      request_valid k0 (c_exportsize c) (rq_type rq) (rq_flags rq) (rq_offset rq) (rq_count rq)
  end.

Lemma session_sockin evs s c : session s c -> session (set_conn (with_sockin evs) s) c.
Proof. intros [? ? []]. by split. Qed.

(** Having read [evs], the state is ready. *)
Lemma ready_sockin evs rest k0 s :
  answering (s_conn s) -> k_sent (s_conn s) = k_sent k0 -> agreed (s_conn s) = agreed k0 ->
  all_data evs -> flat evs = rest -> ready rest k0 (s_conn (set_conn (with_sockin evs) s)).
Proof. intros [] Hse Hag Ha Hf. by split. Qed.

Section Receive.
Context (rq : nbd_request) (rest : list Z) (c : context) (k0 : connection) (s : st W).
Hypothesis Hss : session s c.
Hypothesis Han : answering (s_conn s).
Hypothesis Hse : k_sent (s_conn s) = k_sent k0.
Hypothesis Hag : agreed (s_conn s) = agreed k0.
Hypothesis Hc : 0 <= rq_count rq.
Hypothesis Hd : drop (payload_length rq) (flat (k_sockin (s_conn s))) = rest.
Hypothesis Hl : (payload_length rq <= length (flat (k_sockin (s_conn s))))%nat.

Lemma wp_reject_ready e :
  0 < e -> (rq_type rq = NBD_CMD_WRITE -> rq_count rq <= MAX_REQUEST_SIZE * 2) ->
  wp (reject rq e) (replies rq rest c k0) s.
Proof.
  intros He Hm. unfold reject, payload_length in *.
  destruct (Z.eqb_spec (rq_type rq) NBD_CMD_WRITE) as [Et|Et].
  - destruct (skip_run (rq_count rq) s) as (evs & Hrun & Ha & Hf); [apply Han|lia|auto|].
    apply wp_bind. eapply wp_intro; [exact Hrun|]. apply wp_ret.
    split; [apply ready_sockin; congruence|]. split; [by apply session_sockin|done].
  - apply wp_ret. rewrite drop_0 in Hd. split; [by split|]. split; [done|]. auto.
Qed.

Lemma wp_receive_ready :
  request_valid k0 (c_exportsize c) (rq_type rq) (rq_flags rq) (rq_offset rq) (rq_count rq) ->
  rq_type rq <> NBD_CMD_BLOCK_STATUS ->
  wp (receive_data b true rq STATUS_ACTIVE) (replies rq rest c k0) s.
Proof.
  intros Hv Hbs. unfold receive_data, payload_length in *.
  rewrite andb_false_r, (proj2 (Z.eqb_neq _ _) Hbs). apply wp_bind, wp_ret.
  destruct (Z.eqb_spec (rq_type rq) NBD_CMD_WRITE) as [Et|Et].
  - destruct (raw_recv_run (rq_count rq) s) as (evs & Hrun & Ha & Hf); [apply Han|done|].
    apply wp_bind. eapply wp_intro; [exact Hrun|]. apply wp_ret.
    split; [apply ready_sockin; congruence|]. split; [by apply session_sockin|done].
  - apply wp_ret. rewrite drop_0 in Hd. split; [by split|]. split; [done|]. auto.
Qed.
End Receive.

(** The request the client sent, and what follows it. *)
Record sends (s : st W) (rq : nbd_request) (payload rest : list Z) : Prop := Sends {
  sn_stream : flat (k_sockin (s_conn s)) = encode_request rq ++ payload ++ rest;
  sn_wf : request_wf rq;
  sn_magic : rq_magic rq = NBD_REQUEST_MAGIC;
  sn_disc : rq_type rq <> NBD_CMD_DISC;
  sn_payload : length payload = payload_length rq;
  sn_skippable : rq_type rq = NBD_CMD_WRITE -> rq_count rq <= MAX_REQUEST_SIZE * 2;
}.

Lemma wp_recv_ready rq payload rest s c :
  session s c -> answering (s_conn s) -> sends s rq payload rest ->
  wp (recv_request b true) (replies rq rest c (s_conn s)) s.
Proof.
  intros Hss Han [Hst Hwf Hmag Hdis Hpl Hsk].
  pose proof Hwf as (_ & _ & _ & Hck & Hwo & Hwc).
  pose proof (length_encode_request rq Hck) as Hlen.
  destruct (raw_recv_run (Z.of_nat sizeof_request) s) as (evs & Hrun & Ha & Hf).
  { apply Han. }
  { rewrite Nat2Z.id, Hst, length_app, Hlen. lia. }
  rewrite Nat2Z.id, Hst in Hrun, Hf. rewrite take_app_length' in Hrun by done.
  rewrite drop_app_length' in Hf by done.
  set (s1 := set_conn (with_sockin evs) s) in *.
  pose proof (session_sockin evs s c Hss : session s1 c) as Hss1.
  destruct (session_ctx _ _ Hss1) as [cs Hs1].
  assert (Han1 : answering (s_conn s1)) by (by destruct Han).
  unfold recv_request. apply wp_bind. eapply wp_intro; [exact Hrun|]. cbv beta iota.
  apply wp_bind, wp_gets. rewrite (an_status _ Han1).
  change (status_val STATUS_ACTIVE <=? status_val STATUS_CLIENT_DONE) with false.
  change (1 =? -1) with false. change (1 =? 0) with false. cbv beta iota zeta.
  rewrite (decode_encode_request rq Hwf), Hmag, Z.eqb_refl, (proj2 (Z.eqb_neq _ _) Hdis).
  cbn [negb]. apply wp_bind. eapply wp_mono.
  { eapply wp_validate_request; [exact Hs1|apply (ss_primed _ _ Hss1)|done..]. }
  intros v s2 ((Hw2 & Hk2 & Hc2) & He & Hv).
  assert (Hss2 : session s2 c).
  { destruct Hss1 as [? ? ?]. split; [by rewrite Hc2|done|by rewrite Hk2]. }
  assert (Hd : drop (payload_length rq) (flat (k_sockin (s_conn s2))) = rest).
  { rewrite Hk2. simpl. rewrite Hf, <- Hpl. apply drop_app_length. }
  assert (Hl : (payload_length rq <= length (flat (k_sockin (s_conn s2))))%nat).
  { rewrite Hk2. simpl. rewrite Hf, <- Hpl, length_app. lia. }
  destruct v as [e|].
  - apply wp_reject_ready; rewrite ?Hk2; try (done || lia); [by rewrite <- Hk2..|].
    by apply He.
  - pose proof (proj1 Hv eq_refl) as Hrv.
    apply wp_receive_ready; rewrite ?Hk2; try (done || lia); [by rewrite <- Hk2..| |].
    { eapply (request_valid_agreed (s_conn s1)); [done|]. exact Hrv. }
    intros Ebs. destruct (fv_block_status _ _ _ _ (rv_flags _ _ _ _ _ _ Hrv) Ebs) as [Hsr _].
    by rewrite (an_simple _ Han1) in Hsr.
Qed.

Context `{!DataContract b}.

(** C5: One request, one reply: a client that sends a request (any command
    but NBD_CMD_DISC, valid or not, with its payload if it is a write) over a
    connection with simple replies receives exactly one reply, which carries
    the cookie of the request and its translated error, and for a successful
    read is followed by exactly [count] bytes.  Only valid requests succeed,
    and the server's read position is then exactly after the request and its
    payload, also when a write was rejected.

    Two kinds of requests are left out: those with FAST_ZERO on an export
    that does not have it, which can abort the server
    ([fast_zero_unadvertised_abort]), and writes of more than
    [2 * MAX_REQUEST_SIZE] bytes ([sends]), for which the server disconnects
    instead of reading the payload. *)
Theorem one_request_one_reply rq payload rest s c :
  session s c -> answering (s_conn s) -> sends s rq payload rest ->
  (has (rq_flags rq) NBD_CMD_FLAG_FAST_ZERO = true -> c_can_fast_zero c = 1) ->
  wp (protocol_recv_request_send_reply b false true)
    (answered rq rest (c_exportsize c) (s_conn s)) s.
Proof.
  intros Hss Han Hsn Hfz. unfold protocol_recv_request_send_reply. apply wp_bind.
  eapply wp_mono; [by apply (wp_recv_ready rq payload rest s c)|].
  intros [r|rq' error|rq' cs buf exts] s1 (Hr & Hss1 & Hrc); [done|..].
  { destruct Hrc as [-> He]. apply wp_answer; [done|lia..]. }
  destruct Hrc as (-> & -> & Hrv). destruct (sn_wf _ _ _ _ Hsn) as (_ & _ & _ & _ & Ho & Hc).
  apply wp_bind. change (false || (status_val STATUS_ACTIVE <? status_val STATUS_ACTIVE))%bool
    with false. cbv iota. apply wp_bind.
  destruct (decide (rq_type rq = NBD_CMD_BLOCK_STATUS)) as [Ebs|Hnbs].
  { destruct (fv_block_status _ _ _ _ (rv_flags _ _ _ _ _ _ Hrv) Ebs) as [Hsr _].
    by rewrite (an_simple _ Han) in Hsr. }
  eapply wp_mono.
  { apply (wp_handle_request b _ _ _ _ _ _ s1 c); try done.
    eapply request_valid_agreed; [apply Hr|done]. }
  intros [[error buf'] exts'] s2 (Hfr & He & Hlen & _). apply wp_bind, wp_assert.
  split. { apply Z.leb_le. unfold i32. rewrite u32_small by (limits; lia).
    rewrite (proj2 (Z.leb_le _ _)); lia. }
  apply wp_ret, wp_answer; [|done..]. by destruct Hfr as (_ & _ & ->).
Qed.
End OneReply.

Definition witness_request : nbd_request :=
  NbdRequest NBD_REQUEST_MAGIC 0 NBD_CMD_READ [1; 2; 3; 4; 5; 6; 7; 8] 16 4.

Definition answering_state : st (Z -> Z) :=
  set_conn (fun k => with_structured_replies false
    (with_sockin [RData (encode_request witness_request)] k)) (witness_state (fun x => x)).

Lemma one_request_one_reply_witness :
  wp (protocol_recv_request_send_reply (ram_backend 1048576) false true)
    (answered witness_request [] 1048576 (s_conn answering_state)) answering_state.
Proof.
  apply (one_request_one_reply (ram_backend 1048576) witness_request [] [] answering_state
    witness_context).
  - split; [reflexivity|apply witness_primed|]. split; simpl; intros; (done || lia).
  - split; try reflexivity. repeat constructor. discriminate.
  - split; try reflexivity; try discriminate.
    unfold request_wf, witness_request, UINT16_MAX, UINT32_MAX, UINT64_MAX, NBD_REQUEST_MAGIC,
      NBD_CMD_READ. simpl. lia.
  - discriminate.
Defined.

(** The bytes of that reply. *)
Example read_reply_bytes :
  match protocol_recv_request_send_reply (ram_backend 1048576) false true answering_state with
  | Ok (_, s') => k_sent (s_conn s')
  | Crash _ => []
  end = [0x67; 0x44; 0x66; 0x98; 0; 0; 0; 0; 1; 2; 3; 4; 5; 6; 7; 8; 16; 17; 18; 19].
Proof. vm_compute. reflexivity. Qed.
