(* ===== verification/Handshake.v ===== *)
(** * The handshake

    Models [server/protocol-handshake.c], [protocol-handshake-oldstyle.c]
    and [protocol-handshake-newstyle.c]: opening the export and computing
    the export flags, the oldstyle handshake, and the newstyle option
    haggling.

    The server's command-line settings are the record [config].  What is
    not in these files is a parameter: [crypto_negotiate_tls], and
    [render], the text [nbdkit_error] makes of a format.  After a successful
    STARTTLS the byte streams of the connection are the plaintext of the
    TLS session. *)

From S2P Require Import Prelude NbdProtocol Extents Exports Server Connections Backend Protocol.

Record config : Type := Config {
  cf_tls : Z;                  (* 0 off, 1 on, 2 require *)
  cf_read_only : bool;
  cf_newstyle : bool;
  cf_no_sr : bool;
  cf_no_mc : bool;
  cf_mask_handshake : Z;
  cf_thread_model : Z;
  cf_no_tls_reply : Z;         (* NO_TLS_REPLY, depends on the build *)
}.

(** Upper bound on the number of options the server reads; listing the
    exports raises it. *)
Definition MAX_NR_OPTIONS : Z := 32.

Section Handshake.
Context {W : Type} (cf : config).
(* the layers, the outermost first *)
Context (top : backend W) (rest : list (backend W)).
Context (crypto_negotiate_tls : M W Z).
Context (render : String.string -> list Z).

Definition layers : list (backend W) := top :: rest.

(** ** Opening an export *)

(** [fl = backend_can_xxx (c); if (fl == -1) return -1;] *)
Definition ask (m : M W Z) (k : Z -> M W (option (Z * Z))) : M W (option (Z * Z)) :=
  fl ← m; if fl =? -1 then mret None else k fl.

(** The export size and flags, or [None] for -1. *)
Definition protocol_common_open (exportname : list Z) : M W (option (Z * Z)) :=
  ok ← backend_open layers (cf_read_only cf) exportname;
  modify (set_conn (with_top_context ok));;
  if negb ok then mret None
  else
    r ← backend_prepare layers;
    if r =? -1 then mret None
    else
      size ← backend_get_size top;
      if size =? -1 then mret None
      else if size <? 0 then
        nbdkit_error ".get_size function returned invalid value"%string;; mret None
      else
        ask (backend_can_write top) (fun fl =>
        let eflags := set_if (fl =? 0) NBD_FLAG_HAS_FLAGS NBD_FLAG_READ_ONLY in
        ask (backend_can_zero top) (fun fl =>
        let eflags := set_if (negb (fl =? 0)) eflags NBD_FLAG_SEND_WRITE_ZEROES in
        ask (backend_can_fast_zero top) (fun fl =>
        let eflags := set_if (negb (fl =? 0)) eflags NBD_FLAG_SEND_FAST_ZERO in
        ask (backend_can_trim top) (fun fl =>
        let eflags := set_if (negb (fl =? 0)) eflags NBD_FLAG_SEND_TRIM in
        ask (backend_can_fua top) (fun fl =>
        let eflags := set_if (negb (fl =? 0)) eflags NBD_FLAG_SEND_FUA in
        ask (backend_can_flush top) (fun fl =>
        let eflags := set_if (negb (fl =? 0)) eflags NBD_FLAG_SEND_FLUSH in
        ask (backend_is_rotational top) (fun fl =>
        let eflags := set_if (negb (fl =? 0)) eflags NBD_FLAG_ROTATIONAL in
        ask (backend_can_multi_conn top) (fun fl =>
        let eflags := set_if (negb (fl =? 0) &&
            (NBDKIT_THREAD_MODEL_SERIALIZE_CONNECTIONS <? cf_thread_model cf))%bool
            eflags NBD_FLAG_CAN_MULTI_CONN in
        ask (backend_can_cache top) (fun fl =>
        let eflags := set_if (negb (fl =? 0)) eflags NBD_FLAG_SEND_CACHE in
        ask (backend_can_extents top) (fun fl =>
        k ← gets s_conn;
        let eflags := set_if (k_structured_replies k) eflags NBD_FLAG_SEND_DF in
        mret (Some (size, eflags)))))))))))).

(** ** Oldstyle *)

Definition protocol_handshake_oldstyle : M W Z :=
  cassert (negb (cf_tls cf =? 2));;
  o ← protocol_common_open [];
  match o with
  | None => mret (-1)
  | Some (exportsize, eflags) =>
      r ← raw_send_socket (nbd_old_handshake NBD_MAGIC NBD_OLD_VERSION exportsize 0 eflags);
      if r =? -1 then nbdkit_error "write"%string;; mret (-1) else mret 0
  end.

(** ** Newstyle: sending replies *)

(** Send the buffers up to the first failure; 0 or -1. *)
Fixpoint send_bufs (bufs : list (list Z)) : M W Z :=
  match bufs with
  | [] => mret 0
  | buf :: bufs' =>
      r ← raw_send_socket buf;
      if r =? -1 then mret (-1) else send_bufs bufs'
  end.

(** ... and report the failure. *)
Definition send_or_error (bufs : list (list Z)) : M W Z :=
  r ← send_bufs bufs;
  if r =? -1 then nbdkit_error "write"%string;; mret (-1) else mret 0.

Definition send_newstyle_option_reply (option reply : Z) : M W Z :=
  last_error ← (if NBD_REP_IS_ERR reply then threadlocal_get_last_error else mret None);
  let msg := match last_error with
             | Some e => if strlen (render e) <=? NBD_MAX_STRING then render e else []
             | None => []
             end in
  r ← send_bufs (nbd_fixed_new_option_reply NBD_REP_MAGIC option reply (strlen msg) ::
                 (if 0 <? strlen msg then [msg] else []));
  if r =? -1 then
    (if option =? NBD_OPT_ABORT then mret tt else nbdkit_error "write"%string);;
    mret (-1)
  else mret 0.

(** The replies for one export of the list. *)
Definition export_reply (option : Z) (e : nbdkit_export) : list (list Z) :=
  let desc := match ex_description e with Some d => d | None => [] end in
  [nbd_fixed_new_option_reply NBD_REP_MAGIC option NBD_REP_SERVER
     (u32 (strlen (ex_name e) + 4 + strlen desc));
   be 4 (strlen (ex_name e)); ex_name e; desc].

Fixpoint send_exports (option : Z) (l : list nbdkit_export) : M W Z :=
  match l with
  | [] => mret 0
  | e :: l' =>
      r ← send_or_error (export_reply option e);
      if r =? -1 then mret (-1) else send_exports option l'
  end.

(** The result, and the new [nr_options]. *)
Definition send_newstyle_option_reply_exportnames (option nr_options : Z) : M W (Z * Z) :=
  '(r, exps) ← backend_list_exports top (cf_read_only cf) nbdkit_exports_new;
  if r =? -1 then
    r ← send_newstyle_option_reply option NBD_REP_ERR_PLATFORM; mret (r, nr_options)
  else
    let nr_options := nr_options + MAX_NR_OPTIONS * nbdkit_exports_count exps in
    r ← send_exports option (xs_exports exps);
    if r =? -1 then mret (-1, nr_options)
    else r ← send_newstyle_option_reply option NBD_REP_ACK; mret (r, nr_options).

Definition send_newstyle_option_reply_info_export (option reply info exportsize : Z) : M W Z :=
  k ← gets s_conn;
  send_or_error
    [nbd_fixed_new_option_reply NBD_REP_MAGIC option reply 12;
     nbd_fixed_new_option_reply_info_export info exportsize (k_eflags k)].

Definition send_newstyle_option_reply_info_str (option reply info : Z) (str : list Z) : M W Z :=
  cassert (strlen str <=? NBD_MAX_STRING);;
  send_or_error
    [nbd_fixed_new_option_reply NBD_REP_MAGIC option reply (2 + strlen str); be 2 info; str].

Definition send_newstyle_option_reply_info_block_size
    (option reply info minimum preferred maximum : Z) : M W Z :=
  send_or_error
    [nbd_fixed_new_option_reply NBD_REP_MAGIC option reply 14;
     nbd_fixed_new_option_reply_info_block_size info minimum preferred maximum].

(** "base:allocation" and its prefix "base:". *)
Definition base_allocation : list Z :=
  [98; 97; 115; 101; 58; 97; 108; 108; 111; 99; 97; 116; 105; 111; 110].
Definition base_prefix : list Z := [98; 97; 115; 101; 58].

Definition send_newstyle_option_reply_meta_context (option reply context_id : Z) (name : list Z)
    : M W Z :=
  send_or_error
    [nbd_fixed_new_option_reply NBD_REP_MAGIC option reply (4 + strlen name);
     be 4 context_id; name].

(** ** Newstyle: receiving *)

(** 1 and the bytes, or -1. *)
Definition conn_recv_full (len : Z) (msg : String.string) : M W (Z * list Z) :=
  '(r, d) ← raw_recv len;
  if r =? -1 then nbdkit_error msg;; mret (-1, [])
  else if r =? 0 then mret (-1, [])
  else mret (r, d).

(** [memcpy (&x, &data[off], n)] and the conversion from big-endian; reading
    past the end of the option data is a crash. *)
Definition data_field (off n : Z) (data : list Z) : M W Z :=
  if ((0 <=? off) && (off + n <=? strlen data))%bool
  then mret (field (Z.to_nat off) (Z.to_nat n) data)
  else fail OutOfBounds.

(** The string of [len] bytes at [&data[off]]. *)
Definition data_string (off len : Z) (data : list Z) : M W (list Z) :=
  if ((0 <=? off) && (off + len <=? strlen data))%bool
  then mret (take (Z.to_nat len) (drop (Z.to_nat off) data))
  else fail OutOfBounds.

(** The string if it is acceptable, [None] for -1.  The length is checked
    before the bytes are looked at. *)
Definition check_string (data : list Z) (off len maxlen : Z) (msg : String.string)
    : M W (option (list Z)) :=
  if ((NBD_MAX_STRING <? len) || (maxlen <? len))%bool then
    nbdkit_error (String.append msg " too long"%string);; mret None
  else
    str ← data_string off len data;
    if existsb (fun x => x =? 0) str then
      nbdkit_error (String.append msg " may not include NUL bytes"%string);; mret None
    else mret (Some str).

Definition check_export_name (data : list Z) (off len maxlen : Z) : M W (option (list Z)) :=
  check_string data off len maxlen "export name"%string.

Definition finish_newstyle_options (exportname : list Z) : M W (option Z) :=
  k ← gets s_conn;
  (match k_exportname_from_set_meta_context k with
   | Some n => if bool_decide (n = exportname) then mret tt
               else modify (set_conn (with_base_allocation false))
   | None => mret tt
   end);;
  o ← protocol_common_open exportname;
  match o with
  | None => mret None
  | Some (exportsize, eflags) =>
      modify (set_conn (with_eflags eflags));; mret (Some exportsize)
  end.

(** ** Newstyle: the options

    How the code for one option ends: [return -1], [continue] with the next
    option, or [break] out of the switch. *)
Inductive opt_end : Type := ReturnError | Continue | Break.

(** [if (send_newstyle_option_reply (option, reply) == -1) return -1;] *)
Definition reply_then (option reply : Z) (e : opt_end) : M W opt_end :=
  r ← send_newstyle_option_reply option reply;
  mret (if r =? -1 then ReturnError else e).

(** An option that must not have a payload has one: reply, then skip it. *)
Definition unexpected_payload (option optlen : Z) : M W opt_end :=
  e ← reply_then option NBD_REP_ERR_INVALID Continue;
  match e with
  | Continue =>
      '(r, _) ← conn_recv_full optlen "read"%string;
      mret (if r =? -1 then ReturnError else Continue)
  | _ => mret e
  end.

Definition opt_export_name (option optlen : Z) : M W opt_end :=
  '(r, data) ← conn_recv_full optlen "read"%string;
  if r =? -1 then mret ReturnError
  else
    name ← check_export_name data 0 optlen optlen;
    match name with
    | None => mret ReturnError
    | Some name =>
        o ← finish_newstyle_options name;
        match o with
        | None => mret ReturnError
        | Some exportsize =>
            k ← gets s_conn;
            let handshake_finish := nbd_export_name_option_reply exportsize (k_eflags k) in
            r ← raw_send_socket
                  (if has (k_cflags k) NBD_FLAG_NO_ZEROES
                   then take 10 handshake_finish else handshake_finish);
            if r =? -1 then nbdkit_error "write"%string;; mret ReturnError else mret Break
        end
    end.

Definition opt_abort (option : Z) : M W opt_end := reply_then option NBD_REP_ACK ReturnError.

(** Also the new [nr_options] and [list_seen]. *)
Definition opt_list (option optlen nr_options : Z) (list_seen : bool) : M W (opt_end * Z * bool) :=
  if negb (optlen =? 0) then
    e ← unexpected_payload option optlen; mret (e, nr_options, list_seen)
  else if list_seen then
    e ← reply_then option NBD_REP_ERR_INVALID Continue; mret (e, nr_options, list_seen)
  else
    '(r, nr_options) ← send_newstyle_option_reply_exportnames option nr_options;
    if r =? -1 then mret (ReturnError, nr_options, list_seen)
    else mret (Break, nr_options, true).

Definition opt_starttls (option optlen : Z) : M W opt_end :=
  if negb (optlen =? 0) then unexpected_payload option optlen
  else if cf_tls cf =? 0 then reply_then option (cf_no_tls_reply cf) Break
  else
    k ← gets s_conn;
    if k_using_tls k then reply_then option NBD_REP_ERR_INVALID Continue
    else
      e ← reply_then option NBD_REP_ACK Break;
      match e with
      | Break =>
          r ← crypto_negotiate_tls;
          if r =? -1 then mret ReturnError
          else
            modify (set_conn (with_using_tls true));;
            modify (set_conn (with_structured_replies false));;
            modify (set_conn (with_set_meta_exportname None));;
            modify (set_conn (with_base_allocation false));;
            modify (set_conn (fun k => with_default_exportname
              ((fun _ => None) <$> k_default_exportname k) k));;
            mret Break
      | _ => mret e
      end.

(** One NBD_INFO_* request of NBD_OPT_INFO or NBD_OPT_GO, false for -1. *)
Definition info_request (option info : Z) (name : list Z) : M W bool :=
  if info =? NBD_INFO_EXPORT then mret true
  else if info =? NBD_INFO_NAME then
    n ← (match name with
         | [] => backend_default_export top (cf_read_only cf)
         | _ => mret (Some name)
         end);
    match n with
    | None => mret true
    | Some n =>
        r ← send_newstyle_option_reply_info_str option NBD_REP_INFO NBD_INFO_NAME n;
        mret (negb (r =? -1))
    end
  else if info =? NBD_INFO_DESCRIPTION then
    d ← backend_export_description top;
    match d with
    | None => mret true
    | Some d =>
        r ← send_newstyle_option_reply_info_str option NBD_REP_INFO NBD_INFO_DESCRIPTION d;
        mret (negb (r =? -1))
    end
  else if info =? NBD_INFO_BLOCK_SIZE then
    '(r, (minimum, preferred, maximum)) ← backend_block_size top;
    if r =? -1 then mret false
    else if minimum =? 0 then mret true
    else
      r ← send_newstyle_option_reply_info_block_size option NBD_REP_INFO NBD_INFO_BLOCK_SIZE
            minimum preferred maximum;
      mret (negb (r =? -1))
  else mret true.

(** [n] requests, the first one at [&data[off]]. *)
Fixpoint info_loop (option : Z) (data name : list Z) (n : nat) (off : Z) : M W bool :=
  match n with
  | O => mret true
  | S n =>
      info ← data_field off 2 data;
      ok ← info_request option info name;
      if ok : bool then info_loop option data name n (off + 2) else mret false
  end.

(** [backend_finalize], [backend_close], [top_context = NULL]; false for -1. *)
Definition close_top : M W bool :=
  r ← backend_finalize layers;
  if r =? -1 then mret false
  else
    backend_close layers;;
    modify (set_conn (with_top_context false));;
    mret true.

(** The replies once the export is open. *)
Definition info_go_replies (option exportsize : Z) (data name : list Z) (nrinfos : Z)
    : M W opt_end :=
  k ← gets s_conn;
  cassert (k_top_context k);;
  r ← send_newstyle_option_reply_info_export option NBD_REP_INFO NBD_INFO_EXPORT exportsize;
  if r =? -1 then mret ReturnError
  else
    ok ← info_loop option data name (Z.to_nat nrinfos) (4 + strlen name + 2);
    if negb ok then mret ReturnError
    else
      e ← reply_then option NBD_REP_ACK Break;
      match e with
      | Break =>
          if option =? NBD_OPT_INFO then
            ok ← close_top; mret (if ok : bool then Break else ReturnError)
          else mret Break
      | _ => mret e
      end.

Definition opt_info_go (option optlen : Z) : M W opt_end :=
  '(r, data) ← conn_recv_full optlen "read"%string;
  if r =? -1 then mret ReturnError
  else if optlen <? 6 then reply_then option NBD_REP_ERR_INVALID Continue
  else
    exportnamelen ← data_field 0 4 data;
    if optlen - 6 <? exportnamelen then reply_then option NBD_REP_ERR_INVALID Continue
    else
      nrinfos ← data_field (exportnamelen + 4) 2 data;
      if negb (optlen =? u32 (4 + exportnamelen + 2 + 2 * nrinfos))
      then reply_then option NBD_REP_ERR_INVALID Continue
      else
        o ← check_export_name data 4 exportnamelen (optlen - 6);
        match o with
        | None => reply_then option NBD_REP_ERR_INVALID Continue
        | Some name =>
            o ← finish_newstyle_options name;
            match o with
            | None =>
                k ← gets s_conn;
                ok ← (if k_top_context k then close_top else mret true);
                if negb ok then mret ReturnError
                else reply_then option NBD_REP_ERR_UNKNOWN Continue
            | Some exportsize => info_go_replies option exportsize data name nrinfos
            end
        end.

Definition opt_structured_reply (option optlen : Z) : M W opt_end :=
  if negb (optlen =? 0) then unexpected_payload option optlen
  else if cf_no_sr cf then reply_then option NBD_REP_ERR_UNSUP Break
  else
    k ← gets s_conn;
    if k_structured_replies k then reply_then option NBD_REP_ERR_INVALID Break
    else
      e ← reply_then option NBD_REP_ACK Break;
      match e with
      | Break => modify (set_conn (with_structured_replies true));; mret Break
      | _ => mret e
      end.

(** The queries of a meta context option: [goto opt_meta_invalid_option_len],
    [return -1], or all answered. *)
Inductive query_end : Type := QueryInvalid | QueryError | QueryDone.

Definition answer_query (option : Z) (query : list Z) : M W query_end :=
  if ((option =? NBD_OPT_LIST_META_CONTEXT) && bool_decide (query = base_prefix))%bool then
    r ← send_newstyle_option_reply_meta_context option NBD_REP_META_CONTEXT 0 base_allocation;
    mret (if r =? -1 then QueryError else QueryDone)
  else if bool_decide (query = base_allocation) then
    r ← send_newstyle_option_reply_meta_context option NBD_REP_META_CONTEXT
          (if option =? NBD_OPT_SET_META_CONTEXT then base_allocation_id else 0) base_allocation;
    if r =? -1 then mret QueryError
    else
      (if option =? NBD_OPT_SET_META_CONTEXT
       then modify (set_conn (with_base_allocation true)) else mret tt);;
      mret QueryDone
  else mret QueryDone.

Fixpoint query_loop (fuel : nat) (option optlen : Z) (data : list Z) (nr_queries opt_index : Z)
    : M W query_end :=
  if nr_queries =? 0 then mret QueryDone
  else match fuel with
  | O => fail OutOfFuel
  | S fuel =>
      if optlen <? u32 (opt_index + 4) then mret QueryInvalid
      else
        querylen ← data_field opt_index 4 data;
        let opt_index := u32 (opt_index + 4) in
        o ← check_string data opt_index querylen (u32 (optlen - opt_index))
              "meta context query"%string;
        match o with
        | None => mret QueryInvalid
        | Some query =>
            e ← answer_query option query;
            match e with
            | QueryDone =>
                query_loop fuel option optlen data (nr_queries - 1) (u32 (opt_index + querylen))
            | _ => mret e
            end
        end
  end.

(** The part after the export name, at [&data[opt_index]].  Every query
    takes at least 4 bytes of [data], so as many iterations are enough. *)
Definition meta_queries (option optlen : Z) (data : list Z) (opt_index : Z) : M W query_end :=
  if optlen <? u32 (opt_index + 4) then mret QueryInvalid
  else
    nr_queries ← data_field opt_index 4 data;
    let opt_index := u32 (opt_index + 4) in
    (if option =? NBD_OPT_SET_META_CONTEXT
     then modify (set_conn (with_base_allocation false)) else mret tt);;
    e ← (if nr_queries =? 0 then
           if option =? NBD_OPT_LIST_META_CONTEXT then
             r ← send_newstyle_option_reply_meta_context option NBD_REP_META_CONTEXT 0
                   base_allocation;
             mret (if r =? -1 then QueryError else QueryDone)
           else mret QueryDone
         else query_loop (S (length data)) option optlen data nr_queries opt_index);
    match e with
    | QueryDone =>
        r ← send_newstyle_option_reply option NBD_REP_ACK;
        mret (if r =? -1 then QueryError else QueryDone)
    | _ => mret e
    end.

Definition opt_meta_context (option optlen : Z) : M W opt_end :=
  '(r, data) ← conn_recv_full optlen "read"%string;
  if r =? -1 then mret ReturnError
  else if cf_no_mc cf then reply_then option NBD_REP_ERR_UNSUP Continue
  else
    k ← gets s_conn;
    if ((option =? NBD_OPT_SET_META_CONTEXT) && negb (k_structured_replies k))%bool
    then reply_then option NBD_REP_ERR_INVALID Continue
    else if optlen <? 8 then reply_then option NBD_REP_ERR_INVALID Continue
    else
      exportnamelen ← data_field 0 4 data;
      o ← check_export_name data 4 exportnamelen (optlen - 8);
      match o with
      | None => reply_then option NBD_REP_ERR_INVALID Continue
      | Some name =>
          (if option =? NBD_OPT_SET_META_CONTEXT
           then modify (set_conn (with_set_meta_exportname (Some name))) else mret tt);;
          e ← meta_queries option optlen data (u32 (4 + exportnamelen));
          match e with
          | QueryInvalid => reply_then option NBD_REP_ERR_INVALID Continue
          | QueryError => mret ReturnError
          | QueryDone => mret Break
          end
      end.

Definition opt_unknown (option optlen : Z) : M W opt_end :=
  e ← reply_then option NBD_REP_ERR_UNSUP Break;
  match e with
  | Break =>
      '(r, _) ← conn_recv_full optlen "reading unknown option data"%string;
      mret (if r =? -1 then ReturnError else Break)
  | _ => mret e
  end.

(** The switch on the option. *)
Definition opt_switch (option optlen nr_options : Z) (list_seen : bool)
    : M W (opt_end * Z * bool) :=
  let other (m : M W opt_end) : M W (opt_end * Z * bool) :=
    e ← m; mret (e, nr_options, list_seen) in
  if option =? NBD_OPT_EXPORT_NAME then other (opt_export_name option optlen)
  else if option =? NBD_OPT_ABORT then other (opt_abort option)
  else if option =? NBD_OPT_LIST then opt_list option optlen nr_options list_seen
  else if option =? NBD_OPT_STARTTLS then other (opt_starttls option optlen)
  else if ((option =? NBD_OPT_INFO) || (option =? NBD_OPT_GO))%bool
  then other (opt_info_go option optlen)
  else if option =? NBD_OPT_STRUCTURED_REPLY then other (opt_structured_reply option optlen)
  else if ((option =? NBD_OPT_LIST_META_CONTEXT) || (option =? NBD_OPT_SET_META_CONTEXT))%bool
  then other (opt_meta_context option optlen)
  else other (opt_unknown option optlen).

(** In --tls=require mode, before TLS is negotiated, for an option other
    than NBD_OPT_ABORT and NBD_OPT_STARTTLS. *)
Definition tls_required (option optlen : Z) : M W opt_end :=
  if option =? NBD_OPT_EXPORT_NAME then mret ReturnError
  else
    e ← reply_then option NBD_REP_ERR_TLS_REQD Continue;
    match e with
    | Continue =>
        '(r, _) ← conn_recv_full optlen "waiting for starttls"%string;
        mret (if r =? -1 then ReturnError else Continue)
    | _ => mret e
    end.

(** How an iteration of the options loop ends: [return -1], the next
    iteration, or out of the loop. *)
Inductive iteration : Type := IterError | IterNext | IterDone.

Definition after_switch (option : Z) (e : opt_end) : iteration :=
  match e with
  | ReturnError => IterError
  | Continue => IterNext
  | Break =>
      if ((option =? NBD_OPT_EXPORT_NAME) || (option =? NBD_OPT_GO))%bool
      then IterDone else IterNext
  end.

(** The body of the options loop. *)
Definition negotiate_option (nr_options : Z) (list_seen : bool) : M W (iteration * Z * bool) :=
  let early (m : M W opt_end) (option : Z) : M W (iteration * Z * bool) :=
    e ← m; mret (after_switch option e, nr_options, list_seen) in
  '(r, d) ← conn_recv_full (Z.of_nat sizeof_new_option) "reading option"%string;
  if r =? -1 then mret (IterError, nr_options, list_seen)
  else
    let new_option := decode_new_option d in
    if negb (no_version new_option =? NBD_NEW_VERSION) then
      nbdkit_error "unknown option version"%string;; mret (IterError, nr_options, list_seen)
    else
      let optlen := no_optlen new_option in
      if MAX_REQUEST_SIZE <? optlen then
        nbdkit_error "client option data too long"%string;; mret (IterError, nr_options, list_seen)
      else
        let option := no_option new_option in
        k ← gets s_conn;
        if (negb (has (k_cflags k) NBD_FLAG_FIXED_NEWSTYLE) &&
            negb (option =? NBD_OPT_EXPORT_NAME))%bool
        then early (reply_then option NBD_REP_ERR_INVALID Continue) option
        else if ((cf_tls cf =? 2) && negb (k_using_tls k) &&
                 negb ((option =? NBD_OPT_ABORT) || (option =? NBD_OPT_STARTTLS)))%bool
        then early (tls_required option optlen) option
        else
          '(e, nr_options, list_seen) ← opt_switch option optlen nr_options list_seen;
          mret (after_switch option e, nr_options, list_seen).

(** The options loop.  [nr_options] starts at [MAX_NR_OPTIONS], and one
    listing of at most [MAX_EXPORTS] exports raises it. *)
Fixpoint options_loop (fuel : nat) (nr_options : Z) (list_seen : bool) : M W (option Z) :=
  if nr_options =? 0 then mret (Some 0)
  else match fuel with
  | O => fail OutOfFuel
  | S fuel =>
      '(e, nr_options, list_seen) ← negotiate_option nr_options list_seen;
      match e with
      | IterError => mret None
      | IterNext => options_loop fuel (nr_options - 1) list_seen
      | IterDone => mret (Some nr_options)
      end
  end.

Definition max_options : nat := Z.to_nat (MAX_NR_OPTIONS + MAX_NR_OPTIONS * MAX_EXPORTS).

Definition negotiate_handshake_newstyle_options : M W Z :=
  o ← options_loop max_options MAX_NR_OPTIONS false;
  match o with
  | None => mret (-1)
  | Some nr_options =>
      if nr_options =? 0 then
        nbdkit_error "client spent too much time negotiating"%string;; mret (-1)
      else
        k ← gets s_conn;
        if ((cf_tls cf =? 2) && negb (k_using_tls k))%bool then
          nbdkit_error "non-TLS client tried to connect in --tls=require mode"%string;;
          mret (-1)
        else mret 0
  end.

Definition protocol_handshake_newstyle : M W Z :=
  let gflags :=
    Z.land (Z.lor NBD_FLAG_FIXED_NEWSTYLE NBD_FLAG_NO_ZEROES) (cf_mask_handshake cf) in
  r ← raw_send_socket (nbd_new_handshake NBD_MAGIC NBD_NEW_VERSION gflags);
  if r =? -1 then nbdkit_error "write"%string;; mret (-1)
  else
    '(r, d) ← conn_recv_full 4 "reading initial client flags"%string;
    if r =? -1 then mret (-1)
    else
      modify (set_conn (with_cflags (field 0 4 d)));;
      k ← gets s_conn;
      if negb (clear (k_cflags k) gflags =? 0) then
        nbdkit_error "client requested unexpected flags"%string;; mret (-1)
      else
        r ← negotiate_handshake_newstyle_options;
        mret (if r =? -1 then -1 else 0).

(** The lock taken around the handshake is not modelled. *)
Definition protocol_handshake : M W Z :=
  if negb (cf_newstyle cf) then protocol_handshake_oldstyle else protocol_handshake_newstyle.
End Handshake.
