(* ===== verification/Negotiation.v ===== *)
(** * Properties of the handshake

    [StackContract] states what the handshake relies on when it opens,
    prepares, finalizes and closes the layers; a lone plugin meets it.
    Against it: the export flags that are computed say exactly what the
    export can do, no client can crash the negotiation or keep it going
    forever, and a negotiation that succeeds leaves the connection in the
    state the transmission phase ([Protocol]) starts from. *)

From S2P Require Import Prelude NbdProtocol Extents Exports Server Connections Backend Plugin Protocol Handshake.

(** ** The contract of the layers *)

(** What a backend callback leaves alone in the connection: everything but
    the export names. *)
Definition wire (k : connection) :=
  (k_status k, k_nworkers k, k_status_pipe k, k_top_context k, k_cflags k, k_eflags k,
   k_handshake_complete k, k_using_tls k, k_structured_replies k,
   k_meta_context_base_allocation k, k_exportname_from_set_meta_context k, k_sockin k,
   k_sockout_open k, k_sockout k, k_sent k).

(** The cached default export names fit into a reply. *)
Definition defaults_ok (k : connection) : Prop :=
  Forall (fun o => forall n, o = Some n -> strlen n <= NBD_MAX_STRING) (k_default_exportname k).

Record callback_conn (k k' : connection) : Prop := CallbackConn {
  cb_wire : wire k' = wire k;
  cb_defaults : length (k_default_exportname k') = length (k_default_exportname k);
  cb_defaults_ok : defaults_ok k -> defaults_ok k';
}.

#[global] Instance callback_conn_preorder : PreOrder callback_conn.
Proof.
  split; [by intros k|]. intros k1 k2 k3 [] []. split; [congruence..|auto].
Qed.

(** No layer is open. *)
Definition closed {W} (s : st W) : Prop := s_ctx s = [] /\ k_exportname (s_conn s) = None.

(** All layers are open. *)
Definition opened {W} (layers : list (backend W)) (s : st W) : Prop :=
  length (s_ctx s) = length layers /\
  Forall (fun '(h, state) => h <> 0 /\ has state HANDLE_OPEN = true) (handles (s_ctx s)).

(** The current context, once it is connected, has its capabilities in
    range. *)
Definition preparable {W} (s : st W) : Prop :=
  exists c cs, s_ctx s = c :: cs /\
  cap_ok (ctx_state (Z.lor (c_state c) HANDLE_CONNECTED) c).

Definition connected {W} (s : st W) : Prop :=
  exists c cs, s_ctx s = c :: cs /\ cap_ok c.

(** The default export name of a layer is known. *)
Definition default_known {W} (b : backend W) (k : connection) : Prop :=
  exists n, k_default_exportname k !! Z.to_nat (b_i b) = Some (Some n).

Class StackContract {W} (top : backend W) (rest : list (backend W)) : Prop := {
  sc_open readonly name s :
    closed s -> k_top_context (s_conn s) = false ->
    length (k_default_exportname (s_conn s)) = length (top :: rest) ->
    wp (backend_open (top :: rest) readonly name) (fun ok s' =>
      callback_conn (s_conn s) (s_conn s') /\
      if ok : bool
      then opened (top :: rest) s' /\ preparable s' /\ (name = [] -> default_known top (s_conn s'))
      else closed s') s;
  sc_prepare s : opened (top :: rest) s -> preparable s ->
    wp (backend_prepare (top :: rest)) (fun r s' =>
      callback_conn (s_conn s) (s_conn s') /\ opened (top :: rest) s' /\
      k_default_exportname (s_conn s') = k_default_exportname (s_conn s) /\
      (r <> -1 -> connected s')) s;
  sc_finalize s : opened (top :: rest) s ->
    wp (backend_finalize (top :: rest)) (fun _ s' =>
      callback_conn (s_conn s) (s_conn s') /\ opened (top :: rest) s') s;
  sc_close s : opened (top :: rest) s ->
    wp (backend_close (top :: rest)) (fun _ s' =>
      callback_conn (s_conn s) (s_conn s') /\ closed s') s;
  sc_list_exports readonly s :
    closed s -> k_top_context (s_conn s) = false ->
    length (k_default_exportname (s_conn s)) = length (top :: rest) ->
    wp (backend_list_exports top readonly nbdkit_exports_new) (fun '(_, exps) s' =>
      callback_conn (s_conn s) (s_conn s') /\ closed s' /\ exports_wf exps) s;
}.

(** ** A lone plugin meets it *)

(** [.list_exports] only changes the list with [nbdkit_add_export] and
    [nbdkit_use_default_export], which keep it within its limits. *)
Definition lists_exports {W} (p : nbdkit_plugin W) : Prop :=
  forall f readonly tls exps, p_list_exports p = Some f -> exports_wf exps ->
    cb_answers (f readonly tls exps) (fun '(_, exps') => exports_wf exps').

Section PluginStack.
Context {W : Type} (p : nbdkit_plugin W) `{!PluginLaws p} (Hlist : lists_exports p).
Implicit Types (s : st W).
#[local] Abbreviation b := (plugin_functions p).

Lemma callback_exportname v k : callback_conn k (with_exportname v k).
Proof. by split. Qed.

Lemma callback_default i n k :
  strlen n <= NBD_MAX_STRING ->
  callback_conn k (with_default_exportname (<[i := Some n]> (k_default_exportname k)) k).
Proof.
  intros Hn. split; [done|by apply length_insert|]. intros Hk. unfold defaults_ok. simpl.
  apply Forall_insert; [done|]. by intros ? [= <-].
Qed.

(** [backend_default_export] when no layer is connected. *)
Lemma wp_default_export readonly s :
  k_top_context (s_conn s) = false -> length (k_default_exportname (s_conn s)) = 1%nat ->
  wp (backend_default_export b readonly) (fun o s' =>
    callback_conn (s_conn s) (s_conn s') /\ s_ctx s' = s_ctx s /\
    k_exportname (s_conn s') = k_exportname (s_conn s) /\
    (o <> None -> default_known b (s_conn s'))) s.
Proof.
  intros Ht Hl. unfold backend_default_export. apply wp_bind, wp_gets. simpl.
  destruct (k_default_exportname (s_conn s)) as [|[n|] []] eqn:Hd; try done; simpl.
  { apply wp_ret. split; [done|]. repeat split; try done.
    intros _. exists n. by rewrite Hd. }
  apply wp_bind, wp_assert. rewrite Ht. split; [done|]. apply wp_bind.
  eapply wp_mono with (P := fun _ s' => frame s s' /\ s_ctx s' = s_ctx s).
  { unfold plugin_default_export. destruct (p_default_export p) eqn:E; [|by apply wp_ret].
    eapply wp_call; [by eapply pl_default_export|]. intros a t w _ _. split; [apply frame_call|done]. }
  intros o s1 [(_ & _ & Hk) Hc].
  destruct o as [n|]; [destruct (Z.ltb_spec NBD_MAX_STRING (strlen n))|];
    [by apply wp_ret; rewrite Hk| |by apply wp_ret; rewrite Hk].
  apply wp_bind, wp_modify, wp_ret. simpl. rewrite Hk. split; [by apply callback_default|].
  split; [done|]. split; [done|]. intros _. exists n. simpl. by rewrite Hd.
Qed.

Lemma new_context_preparable readonly h :
  h <> 0 ->
  cap_ok (ctx_state 3 (ctx_handle h (new_context readonly))).
Proof.
  intros Hh. split; simpl; try done; unfold tri, quad; destruct readonly; limits; auto; lia.
Qed.

Lemma wp_plugin_open readonly name s :
  s_ctx s = [new_context readonly] -> k_exportname (s_conn s) = None ->
  wp (plugin_open p readonly name (k_using_tls (s_conn s))) (fun h s' =>
    callback_conn (s_conn s) (s_conn s') /\ s_ctx s' = s_ctx s /\
    k_default_exportname (s_conn s') = k_default_exportname (s_conn s) /\
    (h = 0 -> k_exportname (s_conn s') = None)) s.
Proof.
  intros Hc He. unfold plugin_open. apply wp_bind, wp_gets, wp_bind, wp_assert.
  rewrite He. split; [done|]. apply wp_bind, wp_modify, wp_bind.
  eapply wp_call; [apply pl_open|]. intros h t w _ _. apply wp_bind. destruct (Z.eqb_spec h 0).
  - apply wp_modify, wp_ret. simpl. by repeat split.
  - apply wp_ret, wp_ret. simpl. by repeat split.
Qed.

Lemma plugin_sc_open readonly name s :
  closed s -> k_top_context (s_conn s) = false ->
  length (k_default_exportname (s_conn s)) = length [b] ->
  wp (backend_open [b] readonly name) (fun ok s' =>
    callback_conn (s_conn s) (s_conn s') /\
    if ok : bool
    then opened [b] s' /\ preparable s' /\ (name = [] -> default_known b (s_conn s'))
    else closed s') s.
Proof.
  intros [Hc He] Ht Hl. cbn [backend_open]. apply wp_bind, wp_gets, wp_bind, wp_modify, wp_bind.
  set (s1 := set_ctx _ s).
  eapply wp_mono with (P := fun o s' => callback_conn (s_conn s) (s_conn s') /\
    s_ctx s' = [new_context readonly] /\ k_exportname (s_conn s') = None /\
    (o <> None -> name = [] -> default_known b (s_conn s'))).
  { destruct name; [|by apply wp_ret].
    eapply wp_mono; [by apply (wp_default_export readonly s1)|].
    intros o s2 (Hk & Hc2 & He2 & Hd). split; [done|]. split; [done|].
    split; [by rewrite He2|]. auto. }
  intros [n|] s2 (Hk & Hc2 & He2 & Hd); last first.
  { apply wp_bind, wp_modify, wp_bind, wp_modify, wp_ret.
    split; [exact Hk|by split]. }
  assert (Htls : k_using_tls (s_conn s) = k_using_tls (s_conn s2)).
  { pose proof (cb_wire _ _ Hk) as Hw. unfold wire in Hw. congruence. }
  rewrite Htls. apply wp_bind. eapply wp_mono; [by apply wp_plugin_open|].
  intros h s3 (Hk3 & Hc3 & Hd3 & He3). rewrite Hc2 in Hc3.
  destruct (Z.eqb_spec h 0) as [Hz|Hz].
  - apply wp_bind, wp_gets. rewrite Hc3. simpl. apply wp_bind, wp_ret, wp_bind, wp_modify, wp_ret.
    split; [by etrans|]. split; [done|by apply He3].
  - apply wp_bind. eapply wp_upd; [done|]. apply wp_ret. split; [by etrans|].
    split; [split; [done|]; by repeat constructor|].
    split; [by eexists _, _; split; [done|]; apply new_context_preparable|].
    intros Hn. destruct (Hd (ltac:(done)) Hn) as [m Hm]. exists m. simpl. by rewrite Hd3.
Qed.

Lemma plugin_single s : opened [b] s ->
  exists c, s_ctx s = [c] /\ c_handle c <> 0 /\ has (c_state c) HANDLE_OPEN = true /\
    forall c', c_handle c' = c_handle c -> has (c_state c') HANDLE_OPEN = true ->
      opened [b] (set_ctx [c'] s).
Proof.
  intros [Hne Hall]. destruct (s_ctx s) as [|c []] eqn:Hc; try done. simpl in Hall.
  apply Forall_cons in Hall as [[Hh Hs] Hr]. exists c. split; [done|]. split; [done|].
  split; [done|]. intros c' Hh' Hs'. split; [done|]. simpl. constructor; [|done].
  split; congruence.
Qed.

Lemma has_lor_open state m : has state HANDLE_OPEN = true -> has (Z.lor state m) HANDLE_OPEN = true.
Proof. intros H. rewrite has_lor, H. done. Qed.

Lemma plugin_sc_prepare s : opened [b] s -> preparable s ->
  wp (backend_prepare [b]) (fun r s' =>
    callback_conn (s_conn s) (s_conn s') /\ opened [b] s' /\
    k_default_exportname (s_conn s') = k_default_exportname (s_conn s) /\
    (r <> -1 -> connected s')) s.
Proof.
  intros Ho (c' & cs' & Hc' & Hcap).
  destruct (plugin_single s Ho) as (c & Hc & Hh & Hs & Hupd).
  rewrite Hc in Hc'. simplify_eq. cbn [backend_prepare].
  apply wp_bind. eapply wp_cur; [done|]. apply wp_bind, wp_assert.
  split; [by apply negb_true_iff, Z.eqb_neq|]. apply wp_bind, wp_assert. split; [done|].
  destruct (has (c_state c') HANDLE_CONNECTED) eqn:Hcon.
  - apply wp_ret. split; [done|]. split; [done|]. split; [done|]. intros _. exists c', [].
    split; [done|]. destruct Hcap. by split.
  - apply wp_bind, wp_gets, wp_bind. simpl. apply wp_ret. simpl. apply wp_bind, wp_ret. simpl.
    apply wp_bind. eapply wp_upd; [done|]. apply wp_ret. split; [done|].
    split; [by apply Hupd; [done|apply has_lor_open]|]. split; [done|]. intros _. by eexists _, _.
Qed.

Lemma plugin_sc_finalize s : opened [b] s ->
  wp (backend_finalize [b]) (fun _ s' => callback_conn (s_conn s) (s_conn s') /\ opened [b] s') s.
Proof.
  intros Ho. destruct (plugin_single s Ho) as (c & Hc & Hh & Hs & Hupd).
  cbn [backend_finalize]. apply wp_bind. eapply wp_cur; [done|].
  destruct (has _ HANDLE_FAILED); [by apply wp_ret|]. apply wp_bind.
  destruct (has _ HANDLE_CONNECTED).
  - apply wp_bind, wp_assert. rewrite Hs. split; [by apply negb_true_iff, Z.eqb_neq|].
    apply wp_bind, wp_ret, wp_bind, wp_ret, wp_ret, wp_bind, wp_gets. by apply wp_ret.
  - apply wp_ret, wp_bind, wp_gets. by apply wp_ret.
Qed.

Lemma plugin_sc_close s : opened [b] s ->
  wp (backend_close [b]) (fun _ s' => callback_conn (s_conn s) (s_conn s') /\ closed s') s.
Proof.
  intros Ho. destruct (plugin_single s Ho) as (c & Hc & Hh & Hs & Hupd).
  cbn [backend_close]. apply wp_bind. eapply wp_cur; [done|]. apply wp_bind, wp_gets.
  rewrite Hc. apply wp_bind, wp_assert. split; [by apply negb_true_iff, Z.eqb_neq|].
  apply wp_bind, wp_assert. split; [done|]. apply wp_bind.
  eapply wp_mono with (P := fun _ s' => callback_conn (s_conn s) (s_conn s') /\
    s_ctx s' = [c] /\ k_exportname (s_conn s') = None).
  { simpl. unfold plugin_close. apply wp_bind. eapply wp_handle; [done|].
    apply wp_bind, wp_assert. split; [by apply negb_true_iff, Z.eqb_neq|]. apply wp_bind.
    destruct (p_close p) eqn:E.
    - eapply wp_call; [by eapply pl_close|]. intros _ t w _ _. by apply wp_modify.
    - by apply wp_ret, wp_modify. }
  intros _ s1 (Hk & Hc1 & He). apply wp_bind, wp_modify, wp_ret. simpl. rewrite Hc1.
  split; [done|]. by split.
Qed.

Lemma exports_wf_new : exports_wf nbdkit_exports_new.
Proof. split; [by vm_compute|constructor]. Qed.

Lemma exports_wf_use_default exps v :
  exports_wf exps -> exports_wf (Exports (xs_exports exps) v).
Proof. done. Qed.

Lemma exports_wf_add exps name description :
  exports_wf exps -> exports_wf (nbdkit_add_export exps name description).2.
Proof.
  intros [Hc Hall]. destruct (add_export_cases exps name description)
    as [(-> & Hn & Hl & Hd)|(-> & _)]; [|done].
  split; simpl.
  - unfold nbdkit_exports_count in *. simpl. rewrite length_app. simpl. lia.
  - apply Forall_app. split; [done|]. by repeat constructor.
Qed.

Lemma plugin_sc_list_exports readonly s :
  closed s -> k_top_context (s_conn s) = false ->
  length (k_default_exportname (s_conn s)) = length [b] ->
  wp (backend_list_exports b readonly nbdkit_exports_new) (fun '(_, exps) s' =>
    callback_conn (s_conn s) (s_conn s') /\ closed s' /\ exports_wf exps) s.
Proof.
  intros [Hc He] Ht Hl. unfold backend_list_exports. apply wp_bind, wp_gets, wp_bind, wp_assert.
  rewrite Ht. split; [done|]. apply wp_bind.
  eapply wp_mono with (P := fun '(_, exps) s' => s_conn s' = s_conn s /\ s_ctx s' = [] /\
    exports_wf exps).
  { simpl. unfold plugin_list_exports. destruct (p_list_exports p) as [f|] eqn:Hf.
    - eapply wp_call; [by apply (Hlist f), exports_wf_new|]. intros [r exps] t w _ Ha. done.
    - apply wp_ret. by repeat split; try constructor; vm_compute. }
  intros [r exps] s1 (Hk & Hc1 & Hwf). rewrite <- Hk in Ht, Hl, He |- *.
  destruct (r =? -1); [by apply wp_ret|]. apply wp_bind.
  unfold exports_resolve_default. apply wp_bind.
  eapply wp_mono with (P := fun _ s' => callback_conn (s_conn s1) (s_conn s') /\ closed s').
  { destruct (xs_use_default exps); [|by apply wp_ret].
    eapply wp_mono; [by apply wp_default_export|]. intros o s2 (Hk2 & Hc2 & He2 & _).
    split; [done|]. split; congruence. }
  intros o s2 [Hk2 Hcl]. unfold exports_resolve_default_with.
  destruct (xs_use_default exps); [destruct o as [n|]|].
  - pose proof (exports_wf_add (Exports (xs_exports exps) false) n None Hwf) as Ha.
    destruct (nbdkit_add_export _ _ _) as [r' exps']. by apply wp_ret, wp_ret.
  - by apply wp_ret, wp_ret.
  - by apply wp_ret, wp_ret.
Qed.

Lemma plugin_stack_contract : StackContract b [].
Proof.
  split; [exact plugin_sc_open|exact plugin_sc_prepare|exact plugin_sc_finalize|
    exact plugin_sc_close|exact plugin_sc_list_exports].
Qed.
End PluginStack.

(** ** Opening an export *)

(** The flags say exactly what the context can do. *)
Record eflags_exact (cf : config) (structured : bool) (c : context) (eflags : Z) : Prop := EflagsExact {
  ee_has_flags : has eflags NBD_FLAG_HAS_FLAGS = true;
  ee_read_only : has eflags NBD_FLAG_READ_ONLY = (c_can_write c =? 0);
  ee_flush : has eflags NBD_FLAG_SEND_FLUSH = negb (c_can_flush c =? 0);
  ee_fua : has eflags NBD_FLAG_SEND_FUA = negb (c_can_fua c =? 0);
  ee_rotational : has eflags NBD_FLAG_ROTATIONAL = negb (c_is_rotational c =? 0);
  ee_trim : has eflags NBD_FLAG_SEND_TRIM = negb (c_can_trim c =? 0);
  ee_zero : has eflags NBD_FLAG_SEND_WRITE_ZEROES = negb (c_can_zero c =? 0);
  ee_fast_zero : has eflags NBD_FLAG_SEND_FAST_ZERO = negb (c_can_fast_zero c =? 0);
  ee_cache : has eflags NBD_FLAG_SEND_CACHE = negb (c_can_cache c =? 0);
  ee_df : has eflags NBD_FLAG_SEND_DF = structured;
  ee_multi_conn : has eflags NBD_FLAG_CAN_MULTI_CONN =
    (negb (c_can_multi_conn c =? 0) &&
     (NBDKIT_THREAD_MODEL_SERIALIZE_CONNECTIONS <? cf_thread_model cf))%bool;
}.

(** Capabilities that have been answered, with the field they are kept in. *)
Definition known (c : context) (fr : (context -> Z) * Z) : Prop :=
  fr.2 <> -1 /\ fr.1 c = fr.2 /\ forall c1 c2, extends c1 c2 -> keeps (-1) fr.1 c1 c2.

Definition asking {W} (s0 : st W) (size : Z) (kn : list ((context -> Z) * Z)) (s : st W) : Prop :=
  grows s0 s /\ exists c cs, s_ctx s = c :: cs /\ cap_ok c /\ c_exportsize c = size /\
    Forall (known c) kn.

(** Every capability has been answered. *)
Record answered_all (c : context) : Prop := AnsweredAll {
  aa_primed : primed c;
  aa_rotational : c_is_rotational c <> -1;
  aa_multi_conn : c_can_multi_conn c <> -1;
}.

Lemma keeps_eq {A} (u : A) f c c' : keeps u f c c' -> f c <> u -> f c' = f c.
Proof. by intros [|]. Qed.

(** A context that knows everything does not change any more. *)
Lemma extends_answered c c' :
  answered_all c -> extends c c' ->
  answered_all c' /\ forall cf sr eflags, eflags_exact cf sr c eflags -> eflags_exact cf sr c' eflags.
Proof.
  intros [[] Hr Hm] []. limits.
  repeat match goal with
  | H : keeps _ ?f c c' |- _ => apply keeps_eq in H; [|lia]
  end.
  split.
  - split; [|congruence..]. split; limits; congruence.
  - intros cf sr eflags []. split; congruence.
Qed.

Lemma has_set_if x f m n : has (set_if x f m) n = (has f n || (x && has m n))%bool.
Proof. destruct x; simpl; [apply has_lor|by rewrite orb_false_r]. Qed.

Lemma opened_handles {W} (layers : list (backend W)) (s s' : st W) :
  handles (s_ctx s') = handles (s_ctx s) -> opened layers s -> opened layers s'.
Proof.
  intros Hh [Hl Hall]. split; [|by rewrite Hh].
  assert (length (handles (s_ctx s')) = length (handles (s_ctx s))) by congruence.
  unfold handles in *. rewrite !length_fmap in *. congruence.
Qed.

Lemma opened_grows {W} (layers : list (backend W)) (s s' : st W) :
  grows s s' -> opened layers s -> opened layers s'.
Proof. intros (_ & Hh & _). by apply opened_handles. Qed.

Section Open.
Context {W : Type} (cf : config) (top : backend W) (rest : list (backend W)).
Context `{!CapContract top} `{!StackContract top rest}.
Implicit Types (s : st W).

Lemma wp_ask_cap (f : context -> Z) m k (Q : option (Z * Z) -> st W -> Prop) s0 size kn s :
  (forall s c cs, s_ctx s = c :: cs -> cap_ok c -> wp m (asked f s) s) ->
  (forall c1 c2, extends c1 c2 -> keeps (-1) f c1 c2) ->
  size <> UINT64_MAX -> asking s0 size kn s ->
  (forall s', grows s0 s' -> Q None s') ->
  (forall r s', asking s0 size ((f, r) :: kn) s' -> wp (k r) Q s') ->
  wp (ask m k) Q s.
Proof.
  intros Hm Hkeep Hsz (Hg & c & cs & Hs & Hc & Hsize & Hkn) HNone Hk.
  unfold ask. apply wp_bind. eapply wp_mono; [by eapply Hm|].
  intros r s1 (Hg1 & c1 & cs1 & Hs1 & Hr).
  destruct (proj2 (proj2 Hg1) _ _ Hs Hc) as (c1' & cs1' & Hs1' & He & Hc1).
  rewrite Hs1 in Hs1'. simplify_eq.
  destruct (Z.eqb_spec r (-1)); [apply wp_ret, HNone; by etrans|].
  apply Hk. split; [by etrans|]. exists c1', cs1'. split; [done|]. split; [done|].
  split; [destruct (ex_size _ _ He); done|]. constructor.
  - split; [done|]. split; [by destruct Hr|done].
  - eapply Forall_impl; [exact Hkn|]. intros [g v] (Hv & Hgv & Hgk). simpl in *.
    split; [done|]. split; [|done]. simpl. destruct (Hgk _ _ He); congruence.
Qed.

(** What [protocol_common_open] leaves behind. *)
Definition common_opened (name : list Z) s (o : option (Z * Z)) s' : Prop :=
  exists t, callback_conn (with_top_context t (s_conn s)) (s_conn s') /\
  match o with
  | None => if t : bool then opened (top :: rest) s' else closed s'
  | Some (size, eflags) =>
      t = true /\ opened (top :: rest) s' /\ (name = [] -> default_known top (s_conn s')) /\
      exists c cs, s_ctx s' = c :: cs /\ answered_all c /\ cap_ok c /\ size = c_exportsize c /\
        eflags_exact cf (k_structured_replies (s_conn s)) c eflags
  end.

Lemma i64_size e : 0 <= e <= UINT64_MAX -> 0 <= i64 e -> i64 e = e /\ e <= INT64_MAX.
Proof.
  intros He. unfold i64. rewrite u64_small by (limits; lia).
  destruct (Z.leb_spec e INT64_MAX); limits; lia.
Qed.

Lemma tri_known r : tri r -> r <> -1 -> r = 0 \/ r = 1.
Proof. unfold tri. tauto. Qed.

Lemma quad_known r : quad r -> r <> -1 -> 0 <= r <= 2.
Proof. unfold quad. lia. Qed.

Lemma asked_all (s0 s : st W) size cw cz cfz ct cfu cfl ro mc ca ex :
  0 <= size <= INT64_MAX ->
  asking s0 size [(c_can_extents, ex); (c_can_cache, ca); (c_can_multi_conn, mc);
    (c_is_rotational, ro); (c_can_flush, cfl); (c_can_fua, cfu); (c_can_trim, ct);
    (c_can_fast_zero, cfz); (c_can_zero, cz); (c_can_write, cw)] s ->
  exists c cs, s_ctx s = c :: cs /\ cap_ok c /\ answered_all c /\ c_exportsize c = size /\
    c_can_extents c = ex /\ c_can_cache c = ca /\ c_can_multi_conn c = mc /\
    c_is_rotational c = ro /\ c_can_flush c = cfl /\ c_can_fua c = cfu /\ c_can_trim c = ct /\
    c_can_fast_zero c = cfz /\ c_can_zero c = cz /\ c_can_write c = cw.
Proof.
  intros Hsz (_ & c & cs & Hs & Hc & Hsize & Hkn). exists c, cs.
  repeat (apply Forall_cons in Hkn as [[? [? _]] Hkn]). simpl in *. subst.
  split; [done|]. split; [done|]. split; [|done].
  destruct Hc. split; [split; auto using tri_known, quad_known|done..].
Qed.

(** A meta context is only ever selected on top of structured replies, and
    for an export whose name is remembered. *)
Definition meta_ok (k : connection) : Prop :=
  k_meta_context_base_allocation k = true ->
  k_structured_replies k = true /\ k_exportname_from_set_meta_context k <> None.

(** The handshake before an export has been chosen. *)
Record negotiating s : Prop := Negotiating {
  ng_closed : closed s;
  ng_top : k_top_context (s_conn s) = false;
  ng_length : length (k_default_exportname (s_conn s)) = length (top :: rest);
  ng_defaults : defaults_ok (s_conn s);
  ng_input : input_wf (s_conn s);
  ng_meta : meta_ok (s_conn s);
}.

Lemma grows_common_none name s s1 s2 :
  callback_conn (with_top_context true (s_conn s)) (s_conn s1) -> opened (top :: rest) s1 ->
  grows s1 s2 -> common_opened name s None s2.
Proof.
  intros Hk Ho Hg. exists true. pose proof Hg as (Hk2 & _). rewrite Hk2.
  split; [done|by eapply opened_grows].
Qed.

(** One question of the chain in [protocol_common_open]. *)
Ltac ask_cap s1 size f lem :=
  eapply (wp_ask_cap f _ _ _ s1 size); [apply lem|apply _ + (intros ? ? []; assumption)|
    limits; lia|eassumption|assumption|];
  let r := fresh "r" in let s' := fresh "s'" in let H := fresh "Hasking" in
  intros r s' H.

Lemma wp_flags name s s1 s2 size :
  callback_conn (with_top_context true (s_conn s)) (s_conn s1) -> opened (top :: rest) s1 ->
  (name = [] -> default_known top (s_conn s1)) ->
  0 <= size <= INT64_MAX -> asking s1 size [] s2 ->
  forall size', size' = size ->
  wp (ask (backend_can_write top) (fun fl =>
      let eflags := set_if (fl =? 0) NBD_FLAG_HAS_FLAGS NBD_FLAG_READ_ONLY in
      ask (backend_can_zero top) (fun fl =>
      let eflags := set_if (negb (fl =? 0)) eflags NBD_FLAG_SEND_WRITE_ZEROES in
      ask (backend_can_fast_zero top) (fun fl =>
      let eflags := set_if (negb (fl =? 0)) eflags NBD_FLAG_SEND_FAST_ZERO in
      ask (backend_can_trim top) (fun fl =>
      let eflags := set_if (negb (fl =? 0)) eflags NBD_FLAG_SEND_TRIM in
      ask (backend_can_fua top) (fun fl =>
      let eflags := set_if (negb (fl =? 0)) eflags NBD_FLAG_SEND_FUA in
      ask (backend_can_flush top) (fun fl =>
      let eflags := set_if (negb (fl =? 0)) eflags NBD_FLAG_SEND_FLUSH in
      ask (backend_is_rotational top) (fun fl =>
      let eflags := set_if (negb (fl =? 0)) eflags NBD_FLAG_ROTATIONAL in
      ask (backend_can_multi_conn top) (fun fl =>
      let eflags := set_if (negb (fl =? 0) &&
          (NBDKIT_THREAD_MODEL_SERIALIZE_CONNECTIONS <? cf_thread_model cf))%bool
          eflags NBD_FLAG_CAN_MULTI_CONN in
      ask (backend_can_cache top) (fun fl =>
      let eflags := set_if (negb (fl =? 0)) eflags NBD_FLAG_SEND_CACHE in
      ask (backend_can_extents top) (fun fl =>
      k ← gets s_conn;
      let eflags := set_if (k_structured_replies k) eflags NBD_FLAG_SEND_DF in
      mret (Some (size', eflags)))))))))))))
    (common_opened name s) s2.
Proof.
  intros Hk Ho Hd Hsz Hask size' ->.
  assert (HNone : forall s', grows s1 s' -> common_opened name s None s')
    by (intros; by eapply grows_common_none).
  ask_cap s1 size c_can_write (wp_backend_can_write top).
  ask_cap s1 size c_can_zero (wp_backend_can_zero top).
  ask_cap s1 size c_can_fast_zero (wp_backend_can_fast_zero top).
  ask_cap s1 size c_can_trim (wp_backend_can_trim top).
  ask_cap s1 size c_can_fua (wp_backend_can_fua top).
  ask_cap s1 size c_can_flush (wp_backend_can_flush top).
  ask_cap s1 size c_is_rotational (wp_backend_is_rotational top).
  ask_cap s1 size c_can_multi_conn (wp_backend_can_multi_conn top).
  ask_cap s1 size c_can_cache (wp_backend_can_cache top).
  ask_cap s1 size c_can_extents (wp_backend_can_extents top).
  apply wp_bind, wp_gets, wp_ret.
  pose proof (proj1 (proj1 Hasking8)) as Hk8.
  destruct (asked_all s1 _ size _ _ _ _ _ _ _ _ _ _ Hsz Hasking8)
    as (c & cs & Hs & Hcap & Hp & Hes & <- & <- & <- & <- & <- & <- & <- & <- & <- & <-).
  assert (Hsr : k_structured_replies (s_conn s'8) = k_structured_replies (s_conn s)).
  { rewrite Hk8. pose proof (cb_wire _ _ Hk) as Hw. unfold wire in Hw. simpl in Hw. congruence. }
  exists true. rewrite Hk8. split; [done|]. split; [done|].
  split; [eapply opened_grows; [apply (proj1 Hasking8)|done]|]. split; [done|].
  exists c, cs. split; [done|]. split; [done|]. split; [done|]. split; [done|].
  rewrite Hk8 in Hsr. rewrite Hsr. clear.
  split; rewrite !has_set_if; repeat match goal with
    | |- context [has ?a ?m] =>
        let v := eval vm_compute in (has a m) in change (has a m) with v
    end; rewrite ?andb_false_r, ?andb_true_r, ?orb_false_r; done.
Qed.

Lemma with_top_context_id k : k_top_context k = false -> with_top_context false k = k.
Proof. intros <-. by destruct k. Qed.

Lemma callback_top t k k' :
  callback_conn k k' -> callback_conn (with_top_context t k) (with_top_context t k').
Proof.
  intros [Hw Hl Hd]. split; simpl; [|done..]. unfold wire in *. simpl. congruence.
Qed.

Lemma wp_common_open name s :
  negotiating s -> wp (protocol_common_open cf top rest name) (common_opened name s) s.
Proof.
  intros [Hcl Ht Hl Hd _ _]. unfold protocol_common_open. apply wp_bind.
  eapply wp_mono; [by apply (sc_open (top:=top) (rest:=rest))|].
  intros ok s1 (Hk1 & Hok). apply wp_bind, wp_modify. apply (callback_top ok) in Hk1.
  destruct ok; simpl; last first.
  { apply wp_ret. exists false. by split. }
  destruct Hok as (Ho & Hp & Hdef). set (s1' := set_conn _ s1).
  apply wp_bind. eapply wp_mono; [by apply (sc_prepare (top:=top) (rest:=rest) s1')|].
  intros r s2 (Hk2 & Ho2 & Hd2 & Hcon).
  assert (Hk12 : callback_conn (with_top_context true (s_conn s)) (s_conn s2)) by (by etrans).
  destruct (Z.eqb_spec r (-1)); [apply wp_ret; by eapply grows_common_none|].
  destruct (Hcon n) as (c & cs & Hs2 & Hc2). apply wp_bind.
  eapply wp_mono; [by apply (wp_backend_get_size top s2 c cs)|].
  intros size s3 (Hg & c3 & cs3 & Hs3 & ->).
  destruct (proj2 (proj2 Hg) _ _ Hs2 Hc2) as (c3' & cs3' & Hs3' & _ & Hc3).
  rewrite Hs3 in Hs3'. simplify_eq.
  destruct (Z.eqb_spec (i64 (c_exportsize c3')) (-1));
    [apply wp_ret; by eapply grows_common_none|].
  destruct (Z.ltb_spec (i64 (c_exportsize c3')) 0) as [Hneg|Hpos].
  { apply wp_bind, wp_modify, wp_ret. exists true. pose proof Hg as (Hk3 & _). simpl.
    rewrite Hk3. split; [done|]. by eapply opened_grows. }
  destruct (i64_size (c_exportsize c3')) as [Hi Hmax]; [apply Hc3|done|].
  eapply (wp_flags name s s2 s3 (c_exportsize c3')); try done.
  - intros Hn. destruct (Hdef Hn) as [m Hm]. exists m. by rewrite Hd2.
  - split; [apply Hc3|done].
  - split; [done|]. by exists c3', cs3'.
Qed.
End Open.

(** ** Messages

    Sending and receiving only changes the sockets and the error fields. *)

Definition io_only {W A} (m : M W A) (P : A -> Prop) : Prop :=
  forall s (Q : A -> st W -> Prop), (forall a s', io_step s s' -> P a -> Q a s') -> wp m Q s.

Section Messages.
Context {W : Type} (render : String.string -> list Z).
Implicit Types (s : st W).

Lemma io_ret {A} (a : A) (P : A -> Prop) : P a -> io_only (W:=W) (mret a) P.
Proof. intros HP s Q HQ. by apply wp_ret, HQ. Qed.

Lemma io_bind {A B} (m : M W A) (k : A -> M W B) P P' :
  io_only m P -> (forall a, P a -> io_only (k a) P') -> io_only (m ≫= k) P'.
Proof.
  intros Hm Hk s Q HQ. apply wp_bind, Hm. intros a s1 H1 HP. apply (Hk a HP).
  intros b s2 H2 HP'. apply HQ; [by etrans|done].
Qed.

Lemma io_mono {A} (m : M W A) (P P' : A -> Prop) :
  io_only m P -> (forall a, P a -> P' a) -> io_only m P'.
Proof. intros Hm HP s Q HQ. apply Hm. auto. Qed.

Lemma io_error msg : io_only (W:=W) (nbdkit_error msg) (fun _ => True).
Proof. intros s Q HQ. apply wp_modify, HQ; [by split|done]. Qed.

Definition zero_or_error (r : Z) : Prop := r = 0 \/ r = -1.

Lemma io_send buf : io_only (W:=W) (raw_send_socket buf) zero_or_error.
Proof. intros s Q HQ. by apply wp_send. Qed.

Lemma io_send_bufs bufs : io_only (W:=W) (send_bufs bufs) zero_or_error.
Proof.
  induction bufs as [|buf bufs IH]; [by apply io_ret; left|].
  eapply io_bind; [apply io_send|]. intros r _. destruct (r =? -1); [by apply io_ret; right|done].
Qed.

Lemma io_send_or_error bufs : io_only (W:=W) (send_or_error bufs) zero_or_error.
Proof.
  eapply io_bind; [apply io_send_bufs|]. intros r _.
  destruct (r =? -1); [|by apply io_ret; left].
  eapply io_bind; [apply io_error|]. intros _ _. by apply io_ret; right.
Qed.

Lemma io_reply option reply :
  io_only (W:=W) (send_newstyle_option_reply render option reply) zero_or_error.
Proof.
  eapply (io_bind _ _ (fun _ => True)).
  { intros s Q HQ. destruct (NBD_REP_IS_ERR reply); [|by apply wp_ret, HQ].
    apply wp_gets. by apply HQ. }
  intros e _. eapply io_bind; [apply io_send_bufs|]. intros r _.
  destruct (r =? -1); [|by apply io_ret; left].
  eapply (io_bind _ _ (fun _ => True)).
  { destruct (option =? NBD_OPT_ABORT); [by apply io_ret|apply io_error]. }
  intros _ _. by apply io_ret; right.
Qed.

Lemma io_reply_then option reply e :
  io_only (W:=W) (reply_then render option reply e) (fun e' => e' = e \/ e' = ReturnError).
Proof.
  eapply io_bind; [apply io_reply|]. intros r _. apply io_ret. destruct (r =? -1); auto.
Qed.

Lemma io_recv len msg :
  io_only (W:=W) (conn_recv_full len msg) (fun '(r, d) =>
    r = -1 \/ (r = 1 /\ length d = Z.to_nat len)).
Proof.
  eapply (io_bind _ _ (fun '(r, d) =>
    (r = 1 \/ r = 0 \/ r = -1) /\ (r = 1 -> length d = Z.to_nat len))).
  { intros s Q HQ. apply wp_recv. intros r d s' Hio Hr Hl _. by apply HQ. }
  intros [r d] [Hr Hl]. destruct (Z.eqb_spec r (-1)).
  { eapply io_bind; [apply io_error|]. intros _ _. by apply io_ret; left. }
  destruct (Z.eqb_spec r 0); [by apply io_ret; left|]. apply io_ret. right.
  destruct Hr as [->|[|]]; [auto|done..].
Qed.

(** ... and the bytes are bytes. *)
Lemma wp_recv_bytes len msg s (Q : Z * list Z -> st W -> Prop) :
  input_wf (s_conn s) ->
  (forall r d s', io_step s s' ->
     r = -1 \/ (r = 1 /\ length d = Z.to_nat len /\ Forall is_byte d) -> Q (r, d) s') ->
  wp (conn_recv_full len msg) Q s.
Proof.
  intros Hin HQ. unfold conn_recv_full. apply wp_bind, wp_recv.
  intros r d s1 Hio Hr Hl Hb. destruct (Z.eqb_spec r (-1)).
  { apply wp_bind, io_error. intros _ s2 Hio2 _. apply wp_ret, HQ; [by etrans|auto]. }
  destruct (Z.eqb_spec r 0); [apply wp_ret, HQ; auto|]. apply wp_ret, HQ; [done|].
  right. destruct Hr as [->|[|]]; [auto|done..].
Qed.

(** Read the payload and throw it away. *)
Lemma io_skip e optlen msg :
  io_only (W:=W) ('(r, _) ← conn_recv_full optlen msg; mret (if r =? -1 then ReturnError else e))
    (fun e' => e' = e \/ e' = ReturnError).
Proof.
  eapply io_bind; [apply io_recv|]. intros [r d] _. apply io_ret. destruct (r =? -1); auto.
Qed.

Lemma io_unexpected_payload option optlen :
  io_only (W:=W) (unexpected_payload render option optlen)
    (fun e => e = Continue \/ e = ReturnError).
Proof.
  eapply io_bind; [apply io_reply_then|]. intros x [->| ->]; [apply io_skip|by apply io_ret; right].
Qed.

Lemma io_unknown option optlen :
  io_only (W:=W) (opt_unknown render option optlen) (fun e => e = Break \/ e = ReturnError).
Proof.
  eapply io_bind; [apply io_reply_then|]. intros x [->| ->]; [apply io_skip|by apply io_ret; right].
Qed.

Lemma io_tls_required option optlen :
  io_only (W:=W) (tls_required render option optlen) (fun e => e = Continue \/ e = ReturnError).
Proof.
  unfold tls_required. destruct (option =? _); [by apply io_ret; right|].
  eapply io_bind; [apply io_reply_then|]. intros x [->| ->]; [apply io_skip|by apply io_ret; right].
Qed.

Lemma io_info_str option reply info str :
  strlen str <= NBD_MAX_STRING ->
  io_only (W:=W) (send_newstyle_option_reply_info_str option reply info str) zero_or_error.
Proof.
  intros Hl. eapply (io_bind _ _ (fun _ => True)); [|intros _ _; apply io_send_or_error].
  intros s Q HQ. apply wp_assert. split; [by apply Z.leb_le|by apply HQ].
Qed.

(** ** Option data *)

Lemma wp_data_field off n data s (Q : Z -> st W -> Prop) :
  0 <= off -> 0 <= n -> off + n <= strlen data -> Forall is_byte data ->
  (forall v, 0 <= v < 256 ^ n -> Q v s) -> wp (data_field off n data) Q s.
Proof.
  intros Ho Hn Hl Hb HQ. unfold data_field.
  rewrite (proj2 (Z.leb_le 0 off)), (proj2 (Z.leb_le _ _)) by done. apply wp_ret, HQ.
  pose proof (field_bound (Z.to_nat off) (Z.to_nat n) data Hb). rewrite Z2Nat.id in *; auto.
Qed.

Lemma io_check_string data off len maxlen msg :
  0 <= off -> 0 <= len -> off + maxlen <= strlen data ->
  io_only (W:=W) (check_string data off len maxlen msg) (fun o =>
    forall str, o = Some str -> strlen str = len /\ len <= maxlen /\ len <= NBD_MAX_STRING).
Proof.
  intros Ho Hl Hm. unfold check_string.
  assert (Herr : forall m, io_only (W:=W) (nbdkit_error m;; mret None) (fun o : option (list Z) =>
    forall str, o = Some str -> strlen str = len /\ len <= maxlen /\ len <= NBD_MAX_STRING)).
  { intros m. eapply io_bind; [apply io_error|]. intros _ _. by apply io_ret. }
  destruct (Z.ltb_spec NBD_MAX_STRING len); [apply Herr|].
  destruct (Z.ltb_spec maxlen len); [apply Herr|]. simpl. unfold data_string.
  rewrite (proj2 (Z.leb_le 0 off)), (proj2 (Z.leb_le _ _)) by lia. simpl.
  eapply (io_bind _ _ (fun str => str = take (Z.to_nat len) (drop (Z.to_nat off) data)));
    [by apply io_ret|]. intros str ->. destruct (existsb _ _); [apply Herr|].
  apply io_ret. intros str [= <-]. unfold strlen in *. rewrite length_take, length_drop.
  split; lia.
Qed.
End Messages.

(** ** The options *)

(** Use the fields of the connection that a step has left alone. *)
Ltac same_fields :=
  repeat match goal with
  | E : ?f (s_conn ?s') = ?f (s_conn ?s) |- context [?f (s_conn ?s')] => rewrite E
  end.

Section Negotiate.
Context {W : Type} (cf : config) (top : backend W) (rest : list (backend W)).
Context (crypto_negotiate_tls : M W Z) (render : String.string -> list Z).
Context `{!CapContract top} `{!StackContract top rest}.
(* the TLS handshake only touches the sockets *)
Context (Hcrypto : io_only crypto_negotiate_tls (fun _ => True)).
Implicit Types (s : st W).
#[local] Abbreviation negotiating := (negotiating top rest).

(** The run itself is known to whoever reasons about its result. *)
Lemma wp_with_run {A} (m : M W A) Q s : wp m Q s -> wp m (fun a s' => Q a s' /\ m s = Ok (a, s')) s.
Proof. unfold wp. by destruct (m s) as [[a s']|]. Qed.

(** The export that [s] serves was opened under [name]: [protocol_common_open]
    ran with this name while no layer was open, and what followed is socket
    I/O and cached capability queries, which keep the handles, the export name
    the plugin recorded and the announced flags. *)
Definition opened_as (name : list Z) s : Prop :=
  exists s0 size eflags s1,
    negotiating s0 /\ protocol_common_open cf top rest name s0 = Ok (Some (size, eflags), s1) /\
    rtc (fun s2 s3 => io_step s2 s3 \/ grows s2 s3) (set_conn (with_eflags eflags) s1) s.

Lemma opened_as_step name s s' :
  io_step s s' \/ grows s s' -> opened_as name s -> opened_as name s'.
Proof.
  intros Hstep (s0 & size & eflags & s1 & Hs0 & Hrun & Hsteps).
  exists s0, size, eflags, s1. split; [done|]. split; [done|]. by eapply rtc_r.
Qed.

Lemma opened_as_keeps name s : opened_as name s -> exists s0 size s1,
  negotiating s0 /\
  protocol_common_open cf top rest name s0 = Ok (Some (size, k_eflags (s_conn s)), s1) /\
  handles (s_ctx s) = handles (s_ctx s1) /\ k_exportname (s_conn s) = k_exportname (s_conn s1).
Proof.
  intros (s0 & size & eflags & s1 & Hs0 & Hrun & Hsteps).
  assert (handles (s_ctx s) = handles (s_ctx s1) /\
    negotiated (s_conn s) = negotiated (with_eflags eflags (s_conn s1))) as [Hh Hn].
  { change (negotiated (with_eflags _ _)) with
      (negotiated (s_conn (set_conn (with_eflags eflags) s1))).
    change (handles (s_ctx s1)) with (handles (s_ctx (set_conn (with_eflags eflags) s1))).
    clear Hrun. induction Hsteps as [|s2 s3 s4 [[_ Hc Hn _ _]|(Hc & Hh & _)] _ [IH1 IH2]]; [done|..].
    - by rewrite <- Hc, <- Hn.
    - by rewrite <- Hh, <- Hc. }
  unfold negotiated in Hn. simpl in Hn. injection Hn as. exists s0, size, s1.
  split; [done|]. split; [congruence|]. split; [done|congruence].
Qed.

(** The export called [name] has been opened and announced. *)
Record chosen (name : list Z) s : Prop := Chosen {
  ch_top : k_top_context (s_conn s) = true;
  ch_opened : opened (top :: rest) s;
  ch_length : length (k_default_exportname (s_conn s)) = length (top :: rest);
  ch_defaults : defaults_ok (s_conn s);
  ch_input : input_wf (s_conn s);
  ch_meta : meta_ok (s_conn s);
  ch_meta_name : k_meta_context_base_allocation (s_conn s) = true ->
    k_exportname_from_set_meta_context (s_conn s) = Some name;
  ch_default : name = [] -> default_known top (s_conn s);
  ch_name : opened_as name s;
  ch_ctx : exists c cs, s_ctx s = c :: cs /\ answered_all c /\ cap_ok c /\
    eflags_exact cf (k_structured_replies (s_conn s)) c (k_eflags (s_conn s));
}.

Lemma negotiating_io s s' : io_step s s' -> negotiating s -> negotiating s'.
Proof.
  intros [_ Hc Hn Hi _] [[Hcl He] Ht Hl Hd Hin Hm]. unfold negotiated in Hn. simplify_eq.
  split; unfold closed, defaults_ok, meta_ok in *; rewrite ?Hc; same_fields; auto.
Qed.

Lemma chosen_io name s s' : io_step s s' -> chosen name s -> chosen name s'.
Proof.
  intros Hio []. pose proof Hio as [_ Hc Hn Hi _].
  pose proof (opened_as_step name s s' (or_introl Hio)). unfold negotiated in Hn. simplify_eq.
  split; unfold opened, default_known, defaults_ok, meta_ok in *; rewrite ?Hc; same_fields; auto.
Qed.

Lemma chosen_grows name s s' : grows s s' -> chosen name s -> chosen name s'.
Proof.
  intros Hg []. pose proof Hg as (Hk & _ & Hext). split; rewrite ?Hk; try done.
  - by eapply opened_grows.
  - eapply opened_as_step; [by right|done].
  - destruct ch_ctx0 as (c & cs & Hs & Ha & Hc & He).
    destruct (Hext _ _ Hs Hc) as (c' & cs' & Hs' & Hx & Hc').
    destruct (extends_answered _ _ Ha Hx) as [Ha' He']. exists c', cs'. auto.
Qed.

(** The negotiation has failed; the layers may still be open. *)
Record stopped s : Prop := Stopped {
  sp_layers : if k_top_context (s_conn s) then opened (top :: rest) s else closed s;
  sp_length : length (k_default_exportname (s_conn s)) = length (top :: rest);
  sp_defaults : defaults_ok (s_conn s);
  sp_input : input_wf (s_conn s);
  sp_meta : meta_ok (s_conn s);
}.

Lemma chosen_stopped name s : chosen name s -> stopped s.
Proof. intros [Ht]. split; try done. by rewrite Ht. Qed.

Lemma negotiating_stopped s : negotiating s -> stopped s.
Proof. intros [Hcl Ht]. split; try done. by rewrite Ht. Qed.

Lemma stopped_io s s' : io_step s s' -> stopped s -> stopped s'.
Proof.
  intros [_ Hc Hn Hi _] [Hl]. unfold negotiated in Hn. simplify_eq.
  split; unfold opened, closed, defaults_ok, meta_ok in *; rewrite ?Hc; same_fields; auto.
Qed.

#[local] Hint Resolve negotiating_stopped chosen_stopped negotiating_io chosen_io stopped_io : nbdkit.

(** How an option may end. *)
Definition settled (option : Z) (e : opt_end) s' : Prop :=
  match e with
  | ReturnError => stopped s'
  | Continue => negotiating s'
  | Break =>
      if ((option =? NBD_OPT_EXPORT_NAME) || (option =? NBD_OPT_GO))%bool
      then exists name, chosen name s' else negotiating s'
  end.

Lemma settled_io option (m : M W opt_end) P s :
  io_only m P -> negotiating s ->
  (forall e, P e -> e = ReturnError \/ e = Continue \/
     e = Break /\ ((option =? NBD_OPT_EXPORT_NAME) || (option =? NBD_OPT_GO))%bool = false) ->
  wp m (settled option) s.
Proof.
  intros Hm Hs HP. apply Hm. intros e s' Hio He. pose proof (negotiating_io _ _ Hio Hs).
  destruct (HP e He) as [->|[->|[-> E]]]; simpl; [auto with nbdkit|done|by rewrite E].
Qed.

Lemma settled_reply option reply s :
  negotiating s -> wp (reply_then render option reply Continue) (settled option) s.
Proof. intros Hs. eapply settled_io; [apply io_reply_then|done|]. intros e [|]; auto. Qed.

(** *** Choosing an export *)

Lemma callback_fields t s s' :
  callback_conn (with_top_context t (s_conn s)) (s_conn s') ->
  k_top_context (s_conn s') = t /\
  k_structured_replies (s_conn s') = k_structured_replies (s_conn s) /\
  k_meta_context_base_allocation (s_conn s') = k_meta_context_base_allocation (s_conn s) /\
  k_exportname_from_set_meta_context (s_conn s') =
    k_exportname_from_set_meta_context (s_conn s) /\
  k_eflags (s_conn s') = k_eflags (s_conn s) /\ k_using_tls (s_conn s') = k_using_tls (s_conn s) /\
  k_sockin (s_conn s') = k_sockin (s_conn s) /\
  length (k_default_exportname (s_conn s')) = length (k_default_exportname (s_conn s)) /\
  (defaults_ok (s_conn s) -> defaults_ok (s_conn s')).
Proof. intros [Hw Hl Hd]. unfold wire in Hw. simpl in Hw. simplify_eq. by repeat split. Qed.

Lemma wp_finish name s :
  negotiating s ->
  wp (finish_newstyle_options cf top rest name) (fun o s' =>
    match o with None => stopped s' | Some _ => chosen name s' end) s.
Proof.
  intros Hs. unfold finish_newstyle_options. apply wp_bind, wp_gets, wp_bind.
  eapply wp_mono with (P := fun _ s1 => negotiating s1 /\
    (k_meta_context_base_allocation (s_conn s1) = true ->
     k_exportname_from_set_meta_context (s_conn s1) = Some name)).
  { destruct Hs as [Hcl Ht Hl Hd Hi Hm].
    destruct (k_exportname_from_set_meta_context (s_conn s)) as [n|] eqn:E.
    - case_bool_decide; [apply wp_ret; split; [done|by subst]|].
      apply wp_modify. split; [|done]. by split.
    - apply wp_ret. split; [done|]. intros Hb. by destruct (Hm Hb). }
  intros _ s1 [[Hcl Ht Hl Hd Hi Hm] Hname]. apply wp_bind.
  eapply wp_mono; [by apply wp_with_run, (wp_common_open cf top rest)|].
  intros o s2 [(t & Hk & Ho) Hrun].
  destruct (callback_fields _ _ _ Hk) as (Ht2 & Hsr & Hba & Hfrom & He & Htls & Hsk & Hl2 & Hd2).
  destruct o as [[size eflags]|].
  - destruct Ho as (-> & Hop & Hdef & c & cs & Hc & Ha & Hcap & _ & Hee).
    apply wp_bind, wp_modify, wp_ret.
    split; unfold input_wf, meta_ok in *; simpl; same_fields; try done;
      [by rewrite Hl2|by auto| |by exists c, cs].
    by exists s1, size, eflags, s2.
  - apply wp_ret. rewrite <- Ht2 in Ho.
    split; unfold input_wf, meta_ok in *; same_fields; (done || by rewrite ?Hl2; auto).
Qed.

Lemma with_top_context_same k : with_top_context (k_top_context k) k = k.
Proof. by destruct k. Qed.

(** A callback on the way down. *)
Lemma stopped_callback s s' :
  callback_conn (s_conn s) (s_conn s') -> stopped s ->
  (if k_top_context (s_conn s) then opened (top :: rest) s' else closed s') -> stopped s'.
Proof.
  intros Hk [_ Hl Hd Hi Hm] Hly. rewrite <- (with_top_context_same (s_conn s)) in Hk.
  destruct (callback_fields _ _ _ Hk) as (Ht2 & Hsr & Hba & Hfrom & He & Htls & Hsk & Hl2 & Hd2).
  split; unfold input_wf, meta_ok in *; same_fields; (done || by rewrite ?Hl2; auto).
Qed.

(** Closing the layers goes back to negotiating. *)
Lemma wp_close_top s :
  opened (top :: rest) s -> k_top_context (s_conn s) = true -> stopped s ->
  wp (close_top top rest) (fun ok s' => if ok : bool then negotiating s' else stopped s') s.
Proof.
  intros Ho Ht Hst. unfold close_top, layers. apply wp_bind.
  eapply wp_mono; [by apply (sc_finalize (top:=top) (rest:=rest))|]. intros r s1 [Hk1 Ho1].
  destruct (r =? -1); [apply wp_ret; apply (stopped_callback s); [done|done|by rewrite Ht]|].
  apply wp_bind. eapply wp_mono; [by apply (sc_close (top:=top) (rest:=rest))|].
  intros _ s2 [Hk2 Hcl].
  assert (Hk : callback_conn (with_top_context true (s_conn s)) (s_conn s2)).
  { rewrite <- Ht, with_top_context_same. by etrans. }
  apply wp_bind, wp_modify, wp_ret. destruct Hst as [_ Hl Hd Hi Hm].
  destruct (callback_fields _ _ _ Hk) as (Ht2 & Hsr & Hba & Hfrom & He & Htls & Hsk & Hl2 & Hd2).
  split; unfold input_wf, meta_ok in *; simpl; same_fields; (done || by rewrite ?Hl2; auto).
Qed.

Lemma stopped_closed s : k_top_context (s_conn s) = false -> stopped s -> negotiating s.
Proof. intros Ht [Hl]. rewrite Ht in Hl. by split. Qed.

Lemma strlen_recv (d : list Z) len : 0 <= len -> length d = Z.to_nat len -> strlen d = len.
Proof. unfold strlen. lia. Qed.

Lemma wp_opt_export_name optlen s :
  negotiating s -> 0 <= optlen ->
  wp (opt_export_name cf top rest NBD_OPT_EXPORT_NAME optlen) (settled NBD_OPT_EXPORT_NAME) s.
Proof.
  intros Hs Hl. unfold opt_export_name. apply wp_bind, io_recv.
  intros [r d] s1 Hio [->|[-> Hd]]; [by apply wp_ret; simpl; eauto with nbdkit|].
  apply (strlen_recv _ _ Hl) in Hd.
  pose proof (negotiating_io _ _ Hio Hs) as Hs1. simpl. apply wp_bind, io_check_string; [lia..|].
  intros [name|] s2 Hio2 _; [|by apply wp_ret; simpl; eauto with nbdkit].
  pose proof (negotiating_io _ _ Hio2 Hs1) as Hs2. apply wp_bind.
  eapply wp_mono; [by apply wp_finish|]. intros [size|] s3 Hch; [|by apply wp_ret].
  apply wp_bind, wp_gets, wp_bind, io_send. intros r s4 Hio4 _.
  pose proof (chosen_io _ _ _ Hio4 Hch) as Hs4. destruct (r =? -1); [|by apply wp_ret; exists name].
  apply wp_bind, io_error. intros _ s5 Hio5 _. apply wp_ret. simpl. eauto with nbdkit.
Qed.

(** *** NBD_OPT_LIST *)

Lemma io_send_exports option l : io_only (W:=W) (send_exports option l) zero_or_error.
Proof.
  induction l as [|e l IH]; [by apply io_ret; left|].
  eapply io_bind; [apply io_send_or_error|]. intros r _.
  destruct (r =? -1); [by apply io_ret; right|done].
Qed.

(** The number of options still accepted, and what one listing may add. *)
Definition budget (nr_options : Z) (list_seen : bool) : Z :=
  nr_options + (if list_seen then 0 else MAX_NR_OPTIONS * MAX_EXPORTS).

Definition within_budget (nr_options : Z) (list_seen : bool) (nr' : Z) (seen' : bool) : Prop :=
  0 < nr' /\ budget nr' seen' <= budget nr_options list_seen.

Lemma within_refl nr seen : 0 < nr -> within_budget nr seen nr seen.
Proof. by split. Qed.

Lemma wp_exportnames option nr_options s :
  negotiating s -> 0 < nr_options ->
  wp (send_newstyle_option_reply_exportnames cf top render option nr_options) (fun '(r, nr') s' =>
    negotiating s' /\ within_budget nr_options false nr' true) s.
Proof.
  intros Hs Hnr. pose proof Hs as [Hcl Ht Hl Hd Hi Hm].
  unfold send_newstyle_option_reply_exportnames. apply wp_bind.
  eapply wp_mono; [by apply (sc_list_exports (top:=top) (rest:=rest))|].
  intros [r exps] s1 (Hk & Hcl1 & [Hcount _]).
  assert (Hs1 : negotiating s1).
  { rewrite <- (with_top_context_id _ Ht) in Hk.
    destruct (callback_fields _ _ _ Hk) as (Ht2 & Hsr & Hba & Hfrom & He & Htls & Hsk & Hl2 & Hd2).
    split; unfold input_wf, meta_ok in *; same_fields; (done || by rewrite ?Hl2; auto). }
  unfold within_budget, budget. unfold nbdkit_exports_count, MAX_EXPORTS in *.
  destruct (r =? -1).
  { apply wp_bind, io_reply. intros r2 s2 Hio _. apply wp_ret.
    split; [by eapply negotiating_io|unfold MAX_NR_OPTIONS; lia]. }
  apply wp_bind, io_send_exports. intros r2 s2 Hio _.
  pose proof (negotiating_io _ _ Hio Hs1) as Hs2.
  destruct (r2 =? -1); [apply wp_ret; split; [done|unfold MAX_NR_OPTIONS; lia]|].
  apply wp_bind, io_reply. intros r3 s3 Hio3 _. apply wp_ret.
  split; [by eapply negotiating_io|unfold MAX_NR_OPTIONS; lia].
Qed.

Definition settled_list (option nr_options : Z) (list_seen : bool) (x : opt_end * Z * bool) s' : Prop :=
  let '(e, nr', seen') := x in
  settled option e s' /\ (e <> ReturnError -> within_budget nr_options list_seen nr' seen').

Lemma wp_opt_list optlen nr_options list_seen s :
  negotiating s -> 0 < nr_options ->
  wp (opt_list cf top render NBD_OPT_LIST optlen nr_options list_seen)
    (settled_list NBD_OPT_LIST nr_options list_seen) s.
Proof.
  intros Hs Hnr. unfold opt_list, settled_list. destruct (negb (optlen =? 0)).
  { apply wp_bind. eapply wp_mono.
    - eapply (settled_io NBD_OPT_LIST); [apply io_unexpected_payload|done|]. intros e [|]; auto.
    - intros e s1 H1. apply wp_ret. split; [done|].
      intros _. by apply within_refl. }
  destruct list_seen.
  { apply wp_bind. eapply wp_mono; [by apply settled_reply|].
    intros e s1 H1. apply wp_ret. split; [done|].
      intros _. by apply within_refl. }
  apply wp_bind. eapply wp_mono; [by apply wp_exportnames|]. intros [r nr'] s1 [Hs1 Hb].
  destruct (r =? -1); apply wp_ret; (split; [simpl; auto with nbdkit|done]).
Qed.

(** *** NBD_OPT_STARTTLS, NBD_OPT_STRUCTURED_REPLY *)

Lemma wp_opt_starttls optlen s :
  negotiating s ->
  wp (opt_starttls cf crypto_negotiate_tls render NBD_OPT_STARTTLS optlen)
    (settled NBD_OPT_STARTTLS) s.
Proof.
  intros Hs. unfold opt_starttls. destruct (negb (optlen =? 0)).
  { eapply settled_io; [apply io_unexpected_payload|done|]. intros e [|]; auto. }
  destruct (cf_tls cf =? 0).
  { eapply settled_io; [apply io_reply_then|done|]. intros e [->| ->]; auto. }
  apply wp_bind, wp_gets. destruct (k_using_tls (s_conn s)); [by apply settled_reply|].
  apply wp_bind, io_reply_then. intros e s1 Hio [->| ->];
    [|apply wp_ret; simpl; eauto with nbdkit].
  pose proof (negotiating_io _ _ Hio Hs) as Hs1. apply wp_bind, Hcrypto. intros r s2 Hio2 _.
  pose proof (negotiating_io _ _ Hio2 Hs1) as Hs2.
  destruct (r =? -1); [apply wp_ret; simpl; auto with nbdkit|].
  destruct Hs2 as [Hcl Ht Hl Hd Hi Hm]. do 5 apply wp_bind, wp_modify. apply wp_ret.
  split; simpl; try done.
  - by rewrite length_fmap.
  - unfold defaults_ok. simpl. apply Forall_fmap, Forall_true. done.
Qed.

Lemma wp_opt_structured_reply optlen s :
  negotiating s ->
  wp (opt_structured_reply cf render NBD_OPT_STRUCTURED_REPLY optlen)
    (settled NBD_OPT_STRUCTURED_REPLY) s.
Proof.
  intros Hs. unfold opt_structured_reply. destruct (negb (optlen =? 0)).
  { eapply settled_io; [apply io_unexpected_payload|done|]. intros e [|]; auto. }
  assert (Hrep : forall reply, wp (reply_then render NBD_OPT_STRUCTURED_REPLY reply Break)
    (settled NBD_OPT_STRUCTURED_REPLY) s).
  { intros reply. eapply settled_io; [apply io_reply_then|done|]. intros e [->| ->]; auto. }
  destruct (cf_no_sr cf); [apply Hrep|]. apply wp_bind, wp_gets.
  destruct (k_structured_replies (s_conn s)); [apply Hrep|].
  apply wp_bind, io_reply_then. intros e s1 Hio [->| ->];
    [|apply wp_ret; simpl; eauto with nbdkit].
  pose proof (negotiating_io _ _ Hio Hs) as [Hcl Ht Hl Hd Hi Hm].
  apply wp_bind, wp_modify, wp_ret. split; simpl; try done. intros Hb. split; [done|by apply Hm].
Qed.

(** *** NBD_OPT_INFO and NBD_OPT_GO *)

Lemma wp_info_request option info name s :
  strlen name <= NBD_MAX_STRING -> chosen name s ->
  wp (info_request cf top option info name) (fun _ s' => chosen name s') s.
Proof.
  intros Hn Hs. pose proof (ch_ctx _ _ Hs) as (c & cs & Hc & _ & Hcap & _).
  unfold info_request. destruct (info =? NBD_INFO_EXPORT); [by apply wp_ret|].
  assert (Hstr : forall inf str s1, strlen str <= NBD_MAX_STRING -> chosen name s1 ->
    wp (r ← send_newstyle_option_reply_info_str option NBD_REP_INFO inf str; mret (negb (r =? -1)))
      (fun _ s' => chosen name s') s1).
  { intros inf str s1 Hl Hs1. apply wp_bind, io_info_str; [done|]. intros r s2 Hio _.
    apply wp_ret. by eapply chosen_io. }
  destruct (info =? NBD_INFO_NAME).
  { apply wp_bind. destruct name as [|x name]; [|by apply wp_ret, Hstr].
    destruct (ch_default _ _ Hs eq_refl) as [n Hd]. unfold backend_default_export.
    apply wp_bind, wp_gets. rewrite Hd. apply wp_ret, Hstr; [|done].
    pose proof (ch_defaults _ _ Hs) as Ha. eapply Forall_lookup_1 in Ha; [|exact Hd]. by apply Ha. }
  destruct (info =? NBD_INFO_DESCRIPTION).
  { apply wp_bind. eapply wp_mono; [by apply (wp_backend_export_description top s c cs)|].
    intros d s1 [Hg Hd]. pose proof (chosen_grows _ _ _ Hg Hs) as Hs1.
    destruct d as [d|]; [apply Hstr; auto|by apply wp_ret]. }
  destruct (info =? NBD_INFO_BLOCK_SIZE); [|by apply wp_ret].
  apply wp_bind. eapply wp_mono; [by apply (wp_backend_block_size top s c cs)|].
  intros [r [[mi pr] ma]] s1 Hg. pose proof (chosen_grows _ _ _ Hg Hs) as Hs1.
  destruct (r =? -1); [by apply wp_ret|]. destruct (mi =? 0); [by apply wp_ret|].
  apply wp_bind, io_send_or_error. intros r2 s2 Hio _. apply wp_ret. by eapply chosen_io.
Qed.

Lemma wp_info_loop option data name n off s :
  strlen name <= NBD_MAX_STRING -> Forall is_byte data -> 0 <= off ->
  off + 2 * Z.of_nat n <= strlen data -> chosen name s ->
  wp (info_loop cf top option data name n off) (fun _ s' => chosen name s') s.
Proof.
  intros Hn Hb. revert off s. induction n as [|n IH]; intros off s Ho Hl Hs; [by apply wp_ret|].
  cbn [info_loop]. apply wp_bind, wp_data_field; [lia..|done|]. intros info _.
  apply wp_bind. eapply wp_mono; [by apply wp_info_request|]. intros ok s1 Hs1.
  destruct ok; [|by apply wp_ret]. apply IH; [lia..|done].
Qed.

(** GO chooses the export; INFO closes it again. *)
Lemma wp_info_go_replies option size data name nrinfos s :
  option = NBD_OPT_INFO \/ option = NBD_OPT_GO ->
  strlen name <= NBD_MAX_STRING -> Forall is_byte data -> 0 <= nrinfos ->
  4 + strlen name + 2 + 2 * nrinfos <= strlen data -> chosen name s ->
  wp (info_go_replies cf top rest render option size data name nrinfos) (settled option) s.
Proof.
  intros Hopt Hn Hb Hnr Hl Hs. unfold info_go_replies. apply wp_bind, wp_gets, wp_bind, wp_assert.
  split; [apply Hs|]. apply wp_bind, wp_bind, wp_gets, io_send_or_error. intros r s1 Hio _.
  pose proof (chosen_io _ _ _ Hio Hs) as Hs1.
  destruct (r =? -1); [apply wp_ret; simpl; eauto with nbdkit|].
  apply wp_bind. eapply wp_mono; [apply (wp_info_loop _ _ name); try done; unfold strlen in *; lia|].
  intros ok s2 Hs2. destruct ok; simpl; [|apply wp_ret; simpl; eauto with nbdkit].
  apply wp_bind, io_reply_then. intros e s3 Hio3 [->| ->];
    [|apply wp_ret; simpl; eauto with nbdkit].
  pose proof (chosen_io _ _ _ Hio3 Hs2) as Hs3. destruct Hopt as [-> | ->]; simpl.
  - apply wp_bind. eapply wp_mono.
    + apply wp_close_top; [apply Hs3|apply Hs3|by eapply chosen_stopped].
    + intros [] s4 H4; by apply wp_ret.
  - apply wp_ret. by exists name.
Qed.

Lemma wp_opt_info_go option optlen s :
  option = NBD_OPT_INFO \/ option = NBD_OPT_GO -> 0 <= optlen <= MAX_REQUEST_SIZE ->
  negotiating s -> wp (opt_info_go cf top rest render option optlen) (settled option) s.
Proof.
  intros Hopt Hlen Hs. unfold opt_info_go. apply wp_bind, wp_recv_bytes; [apply Hs|].
  intros r d s1 Hio [->|(-> & Hd & Hb)]; [apply wp_ret; simpl; eauto with nbdkit|].
  apply strlen_recv in Hd; [|lia].
  pose proof (negotiating_io _ _ Hio Hs) as Hs1. simpl.
  destruct (Z.ltb_spec optlen 6); [by apply settled_reply|].
  apply wp_bind, wp_data_field; [lia..|done|]. intros namelen Hnl.
  destruct (Z.ltb_spec (optlen - 6) namelen); [by apply settled_reply|].
  apply wp_bind, wp_data_field; [lia..|done|]. intros nrinfos Hnr.
  unfold MAX_REQUEST_SIZE in *. rewrite u32_small by (limits; lia).
  destruct (Z.eqb_spec optlen (4 + namelen + 2 + 2 * nrinfos)); simpl; [|by apply settled_reply].
  apply wp_bind, io_check_string; [lia..|]. intros o s2 Hio2 Ho.
  pose proof (negotiating_io _ _ Hio2 Hs1) as Hs2.
  destruct o as [name|]; [|by apply settled_reply]. destruct (Ho name eq_refl) as (Hsl & _ & Hmax).
  apply wp_bind. eapply wp_mono; [by apply wp_finish|]. intros [size|] s3 Hs3.
  { apply wp_info_go_replies; (done || lia). }
  apply wp_bind, wp_gets, wp_bind.
  eapply wp_mono with (P := fun ok s' => if ok : bool then negotiating s' else stopped s').
  { pose proof (sp_layers _ Hs3) as Hly. destruct (k_top_context (s_conn s3)) eqn:Ht.
    - by apply wp_close_top.
    - apply wp_ret. by apply stopped_closed. }
  intros [] s4 Hs4; simpl; [by apply settled_reply|by apply wp_ret].
Qed.

(** *** NBD_OPT_LIST_META_CONTEXT and NBD_OPT_SET_META_CONTEXT *)

(** A meta context may be selected. *)
Definition selecting (option : Z) s : Prop :=
  negotiating s /\ (option = NBD_OPT_SET_META_CONTEXT ->
    k_structured_replies (s_conn s) = true /\ k_exportname_from_set_meta_context (s_conn s) <> None).

Lemma selecting_io option s s' : io_step s s' -> selecting option s -> selecting option s'.
Proof.
  intros Hio [Hs Hsel]. split; [by eapply negotiating_io|]. destruct Hio as [_ _ Hn _ _].
  unfold negotiated in Hn. simplify_eq. by same_fields.
Qed.

Lemma selecting_base option v s :
  option = NBD_OPT_SET_META_CONTEXT -> selecting option s ->
  selecting option (set_conn (with_base_allocation v) s).
Proof.
  intros E [[Hcl Ht Hl Hd Hi Hm] Hsel]. split; [|done]. split; try done. intros _. by apply Hsel.
Qed.

Lemma wp_answer_query option query s :
  selecting option s -> wp (answer_query option query) (fun _ s' => selecting option s') s.
Proof.
  intros Hs. unfold answer_query. destruct (_ && _)%bool.
  { apply wp_bind, io_send_or_error. intros r s1 Hio _. apply wp_ret. by eapply selecting_io. }
  case_bool_decide; [|by apply wp_ret].
  apply wp_bind, io_send_or_error. intros r s1 Hio _.
  pose proof (selecting_io _ _ _ Hio Hs) as Hs1. destruct (r =? -1); [by apply wp_ret|].
  apply wp_bind. destruct (Z.eqb_spec option NBD_OPT_SET_META_CONTEXT).
  - apply wp_modify, wp_ret. by apply selecting_base.
  - by apply wp_ret, wp_ret.
Qed.

Lemma wp_query_loop fuel option optlen data nr_queries opt_index s :
  strlen data = optlen -> optlen <= MAX_REQUEST_SIZE -> Forall is_byte data ->
  0 <= nr_queries -> 0 <= opt_index <= optlen -> optlen - opt_index < Z.of_nat fuel ->
  selecting option s ->
  wp (query_loop fuel option optlen data nr_queries opt_index)
    (fun _ s' => selecting option s') s.
Proof.
  intros Hd Hmax Hb. unfold MAX_REQUEST_SIZE in *. revert nr_queries opt_index s.
  induction fuel as [|fuel IH]; intros nr idx s Hnr Hidx Hf Hs; [lia|]. cbn [query_loop].
  destruct (Z.eqb_spec nr 0); [by apply wp_ret|].
  rewrite (u32_small (idx + 4)) by (limits; lia).
  destruct (Z.ltb_spec optlen (idx + 4)); [by apply wp_ret|].
  apply wp_bind, wp_data_field; [lia..|done|]. intros querylen Hq.
  rewrite (u32_small (optlen - (idx + 4))) by (limits; lia).
  apply wp_bind, io_check_string; [lia..|]. intros o s1 Hio Ho.
  pose proof (selecting_io _ _ _ Hio Hs) as Hs1.
  destruct o as [query|]; [|by apply wp_ret]. destruct (Ho query eq_refl) as (_ & Hle & _).
  apply wp_bind. eapply wp_mono; [by apply wp_answer_query|]. intros e s2 Hs2.
  destruct e; [by apply wp_ret..|]. rewrite u32_small by (limits; lia). apply IH; [lia..|done].
Qed.

Lemma wp_meta_queries option optlen data opt_index s :
  strlen data = optlen -> optlen <= MAX_REQUEST_SIZE -> Forall is_byte data ->
  0 <= opt_index <= optlen -> selecting option s ->
  wp (meta_queries render option optlen data opt_index) (fun _ s' => selecting option s') s.
Proof.
  intros Hd Hmax Hb Hidx Hs. unfold meta_queries. unfold MAX_REQUEST_SIZE in Hmax.
  rewrite (u32_small (opt_index + 4)) by (limits; lia).
  destruct (Z.ltb_spec optlen (opt_index + 4)); [by apply wp_ret|].
  apply wp_bind, wp_data_field; [lia..|done|]. intros nr Hnr. apply wp_bind.
  eapply wp_mono with (P := fun _ s' => selecting option s').
  { destruct (Z.eqb_spec option NBD_OPT_SET_META_CONTEXT).
    - apply wp_modify. by apply selecting_base.
    - by apply wp_ret. }
  intros _ s1 Hs1. apply wp_bind. eapply wp_mono with (P := fun _ s' => selecting option s').
  { destruct (nr =? 0).
    - destruct (option =? NBD_OPT_LIST_META_CONTEXT); [|by apply wp_ret].
      apply wp_bind, io_send_or_error. intros r s2 Hio _. apply wp_ret. by eapply selecting_io.
    - apply wp_query_loop; try done; unfold MAX_REQUEST_SIZE, strlen in *; lia. }
  intros e s2 Hs2. destruct e; [by apply wp_ret..|]. apply wp_bind, io_reply. intros r s3 Hio _.
  apply wp_ret. by eapply selecting_io.
Qed.

Lemma wp_opt_meta_context option optlen s :
  option = NBD_OPT_LIST_META_CONTEXT \/ option = NBD_OPT_SET_META_CONTEXT ->
  0 <= optlen <= MAX_REQUEST_SIZE -> negotiating s ->
  wp (opt_meta_context cf render option optlen) (settled option) s.
Proof.
  intros Hopt Hlen Hs. unfold opt_meta_context. apply wp_bind, wp_recv_bytes; [apply Hs|].
  intros r d s1 Hio [->|(-> & Hd & Hb)]; [apply wp_ret; simpl; eauto with nbdkit|].
  apply strlen_recv in Hd; [|lia].
  pose proof (negotiating_io _ _ Hio Hs) as Hs1. simpl.
  destruct (cf_no_mc cf); [by apply settled_reply|]. apply wp_bind, wp_gets.
  destruct (_ && _)%bool eqn:Hsr; [by apply settled_reply|].
  destruct (Z.ltb_spec optlen 8); [by apply settled_reply|].
  apply wp_bind, wp_data_field; [lia..|done|]. intros namelen Hnl.
  apply wp_bind, io_check_string; [lia..|]. intros o s2 Hio2 Ho.
  pose proof (negotiating_io _ _ Hio2 Hs1) as Hs2.
  destruct o as [name|]; [|by apply settled_reply]. destruct (Ho name eq_refl) as (Hsl & Hle & Hmax).
  apply wp_bind. eapply wp_mono with (P := fun _ s' => selecting option s').
  { destruct (Z.eqb_spec option NBD_OPT_SET_META_CONTEXT) as [E|E]; [|by apply wp_ret].
    apply wp_modify. simpl in Hsr. apply negb_false_iff in Hsr. destruct Hio2 as [_ _ Hn _ _].
    unfold negotiated in Hn. simplify_eq. destruct Hs2 as [Hcl Ht Hl Hdf Hi Hm].
    assert (Hsr2 : k_structured_replies (s_conn s2) = true) by congruence.
    split; [split; try done|]; by repeat split. }
  intros _ s3 Hs3. unfold MAX_REQUEST_SIZE in *. rewrite u32_small by (limits; lia).
  apply wp_bind. eapply wp_mono; [apply wp_meta_queries; try done; unfold MAX_REQUEST_SIZE; lia|].
  intros e s4 [Hs4 _]. destruct e; [by apply settled_reply|apply wp_ret; simpl; auto with nbdkit|].
  apply wp_ret. by destruct Hopt as [-> | ->].
Qed.

(** *** The loop *)

Lemma wp_opt_switch option optlen nr_options list_seen s :
  0 <= optlen <= MAX_REQUEST_SIZE -> 0 < nr_options -> negotiating s ->
  wp (opt_switch cf top rest crypto_negotiate_tls render option optlen nr_options list_seen)
    (settled_list option nr_options list_seen) s.
Proof.
  intros Hlen Hnr Hs. unfold opt_switch.
  assert (Hother : forall m, wp m (settled option) s ->
    wp (e ← m; mret (e, nr_options, list_seen)) (settled_list option nr_options list_seen) s).
  { intros m Hm. apply wp_bind. eapply wp_mono; [exact Hm|]. intros e s' He. apply wp_ret.
    split; [done|]. intros _. by apply within_refl. }
  destruct (Z.eqb_spec option NBD_OPT_EXPORT_NAME) as [->|N1].
  { apply Hother. apply wp_opt_export_name; [done|lia]. }
  destruct (Z.eqb_spec option NBD_OPT_ABORT) as [->|N2].
  { apply Hother. eapply settled_io; [apply io_reply_then|done|]. intros e [->| ->]; auto. }
  destruct (Z.eqb_spec option NBD_OPT_LIST) as [->|N3]; [by apply wp_opt_list|].
  destruct (Z.eqb_spec option NBD_OPT_STARTTLS) as [->|N4]; [by apply Hother, wp_opt_starttls|].
  destruct (Z.eqb_spec option NBD_OPT_INFO) as [->|N5]; simpl;
    [by apply Hother, wp_opt_info_go; [left|..]|].
  destruct (Z.eqb_spec option NBD_OPT_GO) as [->|N6];
    [by apply Hother, wp_opt_info_go; [right|..]|].
  destruct (Z.eqb_spec option NBD_OPT_STRUCTURED_REPLY) as [->|N7];
    [by apply Hother, wp_opt_structured_reply|].
  destruct (Z.eqb_spec option NBD_OPT_LIST_META_CONTEXT) as [->|N8]; simpl;
    [by apply Hother, wp_opt_meta_context; [left|..]|].
  destruct (Z.eqb_spec option NBD_OPT_SET_META_CONTEXT) as [->|N9];
    [by apply Hother, wp_opt_meta_context; [right|..]|].
  apply Hother. eapply settled_io; [apply io_unknown|done|].
  apply Z.eqb_neq in N1, N6. intros e [->| ->]; [|auto]. rewrite N1, N6. auto.
Qed.

(** What an iteration of the options loop establishes. *)
Definition iterated (nr_options : Z) (list_seen : bool) (x : iteration * Z * bool) s' : Prop :=
  let '(it, nr', seen') := x in
  (it <> IterError -> within_budget nr_options list_seen nr' seen') /\
  match it with
  | IterError => stopped s'
  | IterNext => negotiating s'
  | IterDone => exists name, chosen name s'
  end.

Lemma settled_iterated option e nr' seen' nr_options list_seen s' :
  settled option e s' -> (e <> ReturnError -> within_budget nr_options list_seen nr' seen') ->
  iterated nr_options list_seen (after_switch option e, nr', seen') s'.
Proof.
  intros He Hb. destruct e; simpl in *; [done|by split; [intros _; apply Hb|]|].
  destruct (_ || _)%bool; (split; [intros _; by apply Hb|done]).
Qed.

Lemma wp_negotiate_option nr_options list_seen s :
  0 < nr_options -> negotiating s ->
  wp (negotiate_option cf top rest crypto_negotiate_tls render nr_options list_seen)
    (iterated nr_options list_seen) s.
Proof.
  intros Hnr Hs. unfold negotiate_option. apply wp_bind, wp_recv_bytes; [apply Hs|].
  intros r d s1 Hio [->|(-> & _ & Hb)];
    [apply wp_ret; split; [done|eauto with nbdkit]|].
  pose proof (negotiating_io _ _ Hio Hs) as Hs1.
  assert (Herr : forall msg, wp (nbdkit_error msg;; mret (IterError, nr_options, list_seen))
    (iterated nr_options list_seen) s1).
  { intros msg. apply wp_bind, io_error. intros _ s2 Hio2 _. apply wp_ret.
    split; [done|eauto with nbdkit]. }
  assert (Hlen : 0 <= no_optlen (decode_new_option d)) by (apply (field_bound _ 4 d Hb)).
  destruct (decode_new_option d) as [version option optlen] eqn:E. clear E. simpl in *.
  destruct (negb _); [apply Herr|].
  destruct (Z.ltb_spec MAX_REQUEST_SIZE optlen); [apply Herr|].
  assert (Hearly : forall m, io_only (W:=W) m (fun e => e = Continue \/ e = ReturnError) ->
    wp (e ← m; mret (after_switch option e, nr_options, list_seen))
      (iterated nr_options list_seen) s1).
  { intros m Hm. apply wp_bind. eapply wp_mono.
    - eapply (settled_io option); [exact Hm|done|]. intros e [|]; auto.
    - intros e s2 He. apply wp_ret, settled_iterated; [done|]. intros _. by apply within_refl. }
  apply wp_bind, wp_gets. destruct (_ && _)%bool; [apply Hearly, io_reply_then|].
  destruct (_ && _)%bool; [apply Hearly, io_tls_required|].
  apply wp_bind. eapply wp_mono; [by apply wp_opt_switch|].
  intros [[e nr'] seen'] s2 [He Hw]. by apply wp_ret, settled_iterated.
Qed.

Lemma wp_options_loop fuel nr_options list_seen s :
  0 <= nr_options -> budget nr_options list_seen <= Z.of_nat fuel -> negotiating s ->
  wp (options_loop cf top rest crypto_negotiate_tls render fuel nr_options list_seen)
    (fun o s' => match o with
                 | None => stopped s'
                 | Some nr => if nr =? 0 then stopped s' else exists name, chosen name s'
                 end) s.
Proof.
  revert nr_options list_seen s.
  induction fuel as [|fuel IH]; intros nr seen s Hnr Hb Hs; cbn [options_loop];
    (destruct (Z.eqb_spec nr 0) as [->|]; [apply wp_ret; simpl; auto with nbdkit|]).
  { unfold budget, MAX_NR_OPTIONS, MAX_EXPORTS in Hb. destruct seen; lia. }
  apply wp_bind. eapply wp_mono; [apply wp_negotiate_option; [lia|done]|].
  intros [[it nr'] seen'] s1 [Hw Hit]. destruct it; [by apply wp_ret|..];
    destruct (Hw ltac:(done)) as [Hpos Hle];
    [|apply wp_ret; by rewrite (proj2 (Z.eqb_neq nr' 0)) by lia].
  apply IH; [lia| |done]. unfold budget in *. lia.
Qed.

(** How the whole handshake may end. *)
Definition handshaken (r : Z) s' : Prop :=
  (r = -1 /\ stopped s') \/
  (r = 0 /\ (cf_tls cf = 2 -> k_using_tls (s_conn s') = true) /\ exists name, chosen name s').

Lemma wp_failed msg s :
  stopped s -> wp (nbdkit_error msg;; mret (-1)) handshaken s.
Proof.
  intros Hs. apply wp_bind, io_error. intros _ s1 Hio _. apply wp_ret. left.
  split; [done|eauto with nbdkit].
Qed.

Lemma wp_negotiate s :
  negotiating s ->
  wp (negotiate_handshake_newstyle_options cf top rest crypto_negotiate_tls render) handshaken s.
Proof.
  intros Hs. unfold negotiate_handshake_newstyle_options. apply wp_bind.
  eapply wp_mono; [apply wp_options_loop; [done| |done]|].
  { unfold max_options, budget. rewrite Z2Nat.id; [lia|]. by vm_compute. }
  intros [nr|] s1 H1; [|by apply wp_ret; left]. destruct (nr =? 0); [by apply wp_failed|].
  apply wp_bind, wp_gets. destruct H1 as [name Hch].
  destruct (Z.eqb_spec (cf_tls cf) 2) as [E|E]; simpl.
  - destruct (k_using_tls (s_conn s1)) eqn:Htls; simpl; [|apply wp_failed; eauto with nbdkit].
    apply wp_ret. right. split; [done|]. split; [done|by exists name].
  - apply wp_ret. right. split; [done|]. split; [done|by exists name].
Qed.

Lemma wp_newstyle s :
  negotiating s ->
  wp (protocol_handshake_newstyle cf top rest crypto_negotiate_tls render) handshaken s.
Proof.
  intros Hs. unfold protocol_handshake_newstyle. apply wp_bind, io_send. intros r s1 Hio _.
  pose proof (negotiating_io _ _ Hio Hs) as Hs1.
  destruct (r =? -1); [apply wp_failed; auto with nbdkit|].
  apply wp_bind, wp_recv_bytes; [apply Hs1|].
  intros r2 d s2 Hio2 Hr. pose proof (negotiating_io _ _ Hio2 Hs1) as Hs2.
  destruct (r2 =? -1); [apply wp_ret; left; auto with nbdkit|]. apply wp_bind, wp_modify.
  assert (Hs3 : negotiating (set_conn (with_cflags (field 0 4 d)) s2)) by (by destruct Hs2; split).
  apply wp_bind, wp_gets. destruct (negb _); [apply wp_failed; auto with nbdkit|].
  apply wp_bind. eapply wp_mono; [by apply wp_negotiate|].
  intros r3 s4 [[-> Hst]|[-> Hch]]; apply wp_ret; [by left|by right].
Qed.
End Negotiate.

(** ** Properties *)

Lemma eflags_exact_match cf sr c k :
  answered_all c -> eflags_exact cf sr c (k_eflags k) -> eflags_match k c.
Proof.
  intros [[] _ _] []. split; intros Hf; rewrite Hf in *;
    repeat match goal with
    | H : _ = negb (?x =? 0) |- _ => destruct (Z.eqb_spec x 0); [done|clear H]
    | H : _ = (?x =? 0) |- _ => destruct (Z.eqb_spec x 0); [done|clear H]
    end; clear Hf; lia.
Qed.

Section Properties.
Context {W : Type} (cf : config) (top : backend W) (rest : list (backend W)).
Context (crypto_negotiate_tls : M W Z) (render : String.string -> list Z).
Implicit Types (s : st W).

Lemma chosen_session name s :
  chosen cf top rest name s -> exists c, session s c /\
    eflags_exact cf (k_structured_replies (s_conn s)) c (k_eflags (s_conn s)).
Proof.
  intros Hs. destruct (ch_ctx _ _ _ _ _ Hs) as (c & cs & Hc & Ha & _ & He). exists c.
  split; [|done]. split; [by rewrite Hc|apply Ha|by eapply eflags_exact_match].
Qed.

(** C27: Opening an export: when [protocol_common_open] succeeds, all layers
    are open, the size is the export's and fits [int64_t], and each of the
    flags is set exactly when the export has the capability it stands for
    (CAN_MULTI_CONN only if the thread model allows parallel connections,
    DF only with structured replies); when it fails, either no layer is
    open or all are. *)
Theorem export_flags_exact name s `{!CapContract top} `{!StackContract top rest} :
  negotiating top rest s ->
  wp (protocol_common_open cf top rest name) (fun o s' =>
    match o with
    | Some (size, eflags) =>
        k_top_context (s_conn s') = true /\ opened (top :: rest) s' /\
        0 <= size <= INT64_MAX /\
        exists c cs, s_ctx s' = c :: cs /\ primed c /\ c_exportsize c = size /\
          eflags_exact cf (k_structured_replies (s_conn s')) c eflags
    | None =>
        if k_top_context (s_conn s') then opened (top :: rest) s' else closed s'
    end) s.
Proof.
  intros Hs. eapply wp_mono; [by apply wp_common_open|]. intros o s' (t & Hk & Ho).
  destruct (callback_fields _ _ _ Hk) as (Ht & Hsr & _). rewrite Ht.
  destruct o as [[size eflags]|]; [|done].
  destruct Ho as (-> & Hop & _ & c & cs & Hc & Ha & _ & -> & He). split; [done|].
  split; [done|]. split; [apply (pr_size c), Ha|]. exists c, cs. rewrite Hsr.
  split; [done|]. split; [apply Ha|done].
Qed.

(** C6: The newstyle handshake is safe against any client: whatever bytes
    the client sends, fragmented or cut off in any way, no assertion fails,
    no option data is read out of bounds, no NULL context is used, and the
    loops over options, info requests and queries end.  If it succeeds, an
    export is open under some name ([opened_as]), the flags announced for it
    are exactly its capabilities, the transmission phase can start
    ([session]), TLS is in use if it was required, and a selected meta
    context was selected for the same name, with structured replies. *)
Theorem newstyle_handshake_safe s `{!CapContract top} `{!StackContract top rest} :
  io_only crypto_negotiate_tls (fun _ => True) -> negotiating top rest s ->
  wp (protocol_handshake_newstyle cf top rest crypto_negotiate_tls render) (fun r s' =>
    (r = -1 \/ r = 0) /\
    (r = 0 ->
       (cf_tls cf = 2 -> k_using_tls (s_conn s') = true) /\ input_wf (s_conn s') /\
       opened (top :: rest) s' /\
       exists name c, opened_as cf top rest name s' /\ session s' c /\
         eflags_exact cf (k_structured_replies (s_conn s')) c (k_eflags (s_conn s')) /\
         (k_meta_context_base_allocation (s_conn s') = true ->
            k_structured_replies (s_conn s') = true /\
            k_exportname_from_set_meta_context (s_conn s') = Some name))) s.
Proof.
  intros Hcr Hs. eapply wp_mono; [by apply wp_newstyle|].
  intros r s' [[-> _]|(-> & Htls & name & Hch)]; [by split; [left|]|].
  split; [by right|]. intros _. split; [done|]. split; [apply Hch|]. split; [apply Hch|].
  destruct (chosen_session _ _ Hch) as (c & Hss & He). exists name, c.
  split; [by apply (ch_name _ _ _ _ _ Hch)|]. split; [done|].
  split; [done|]. intros Hb. split; [by apply (ch_meta _ _ _ _ _ Hch Hb)|].
  by apply (ch_meta_name _ _ _ _ _ Hch).
Qed.

(** *** TLS *)

Lemma io_starttls optlen s :
  io_only crypto_negotiate_tls (fun _ => True) -> k_using_tls (s_conn s) = false ->
  wp (opt_starttls cf crypto_negotiate_tls render NBD_OPT_STARTTLS optlen) (fun _ s' =>
    s_world s' = s_world s /\ s_ctx s' = s_ctx s /\
    (k_using_tls (s_conn s') = true \/ negotiated (s_conn s') = negotiated (s_conn s))) s.
Proof.
  intros Hcr Htls. unfold opt_starttls.
  assert (Hio : forall (m : M W opt_end) P, io_only m P -> wp m (fun _ s' =>
    s_world s' = s_world s /\ s_ctx s' = s_ctx s /\
    (k_using_tls (s_conn s') = true \/ negotiated (s_conn s') = negotiated (s_conn s))) s).
  { intros m P Hm. apply Hm. intros e s' [] _. auto. }
  destruct (negb _); [eapply Hio, io_unexpected_payload|].
  destruct (_ =? 0); [eapply Hio, io_reply_then|]. apply wp_bind, wp_gets. rewrite Htls.
  apply wp_bind, io_reply_then. intros e s1 [Hw Hc Hn _ _] [->| ->]; [|by apply wp_ret; auto].
  apply wp_bind, Hcr. intros r s2 [Hw2 Hc2 Hn2 _ _] _. rewrite Hw, Hc, Hn in *.
  destruct (r =? -1); [by apply wp_ret; auto|]. do 5 apply wp_bind, wp_modify. apply wp_ret.
  simpl. auto.
Qed.

(** C28: With --tls=require, an unencrypted client gets nowhere: until TLS
    has been negotiated, no option reaches the plugin or a filter (their
    state and contexts are untouched), none changes what has been
    negotiated, and none ends the negotiation successfully. *)
Theorem tls_required_first nr_options list_seen s :
  cf_tls cf = 2 -> k_using_tls (s_conn s) = false ->
  io_only crypto_negotiate_tls (fun _ => True) ->
  wp (negotiate_option cf top rest crypto_negotiate_tls render nr_options list_seen)
    (fun '(it, nr', seen') s' =>
       it <> IterDone /\ nr' = nr_options /\ seen' = list_seen /\
       s_world s' = s_world s /\ s_ctx s' = s_ctx s /\
       (k_using_tls (s_conn s') = true \/ negotiated (s_conn s') = negotiated (s_conn s))) s.
Proof.
  intros Hreq Htls Hcr. unfold negotiate_option. apply wp_bind, io_recv.
  intros [r d] s1 Hio _. pose proof Hio as [Hw Hc Hn _ _]. rewrite <- Hw, <- Hc, <- Hn.
  assert (Htls1 : k_using_tls (s_conn s1) = false).
  { unfold negotiated in Hn. congruence. }
  destruct (r =? -1); [by apply wp_ret; auto 8|].
  destruct (decode_new_option d) as [version option optlen]. simpl.
  destruct (negb _); [by apply wp_bind, wp_modify, wp_ret; auto 8|].
  destruct (_ <? optlen); [by apply wp_bind, wp_modify, wp_ret; auto 8|].
  assert (Hearly : forall m, io_only (W:=W) m (fun e => e = Continue \/ e = ReturnError) ->
    wp (e ← m; mret (after_switch option e, nr_options, list_seen)) (fun '(it, nr', seen') s' =>
       it <> IterDone /\ nr' = nr_options /\ seen' = list_seen /\
       s_world s' = s_world s1 /\ s_ctx s' = s_ctx s1 /\
       (k_using_tls (s_conn s') = true \/ negotiated (s_conn s') = negotiated (s_conn s1))) s1).
  { intros m Hm. apply wp_bind, Hm. intros e s2 [] [->| ->]; apply wp_ret; simpl; auto 8. }
  apply wp_bind, wp_gets. destruct (_ && _)%bool; [apply Hearly, io_reply_then|].
  rewrite Hreq, Htls1. simpl. destruct (negb _) eqn:Hopt; [apply Hearly, io_tls_required|].
  apply negb_false_iff, orb_true_iff in Hopt as [->%Z.eqb_eq| ->%Z.eqb_eq];
    unfold opt_switch; simpl; apply wp_bind, wp_bind.
  - apply io_reply_then. intros e s2 [] [->| ->]; apply wp_ret, wp_ret; simpl; auto 8.
  - eapply wp_mono; [by apply io_starttls|]. intros e s2 (? & ? & ?). apply wp_ret, wp_ret.
    split; [by destruct e|auto 8].
Qed.

(** *** Oldstyle *)

Lemma wp_oldstyle s `{!CapContract top} `{!StackContract top rest} :
  cf_tls cf <> 2 -> negotiating top rest s ->
  wp (protocol_handshake_oldstyle cf top rest) (fun r s' =>
    (r = -1 /\ stopped top rest s') \/
    (r = 0 /\ k_eflags (s_conn s') = k_eflags (s_conn s) /\ opened (top :: rest) s' /\
     exists c cs, s_ctx s' = c :: cs /\ answered_all c)) s.
Proof.
  intros Htls Hs. unfold protocol_handshake_oldstyle. apply wp_bind, wp_assert.
  split; [by apply negb_true_iff, Z.eqb_neq|]. apply wp_bind.
  eapply wp_mono; [by apply (wp_common_open cf top rest)|]. intros o s1 (t & Hk & Ho).
  destruct (callback_fields _ _ _ Hk) as (Ht & Hsr & Hba & Hfrom & He & _ & Hsk & Hl2 & Hd2).
  assert (Hstop : (if t then opened (top :: rest) s1 else closed s1) -> stopped top rest s1).
  { intros Hly. destruct Hs as [Hcl Ht0 Hl Hd Hi Hm].
    split; unfold input_wf, meta_ok in *; same_fields; rewrite ?Ht; (done || by rewrite ?Hl2; auto). }
  destruct o as [[size eflags]|]; [|by apply wp_ret; left; auto].
  destruct Ho as (-> & Hop & _ & c & cs & Hc & Ha & _). apply wp_bind, io_send.
  intros r s2 Hio _. pose proof Hio as [_ Hc2 Hn _ _]. unfold negotiated in Hn. simplify_eq.
  destruct (r =? -1).
  - apply wp_bind, io_error. intros _ s3 Hio3 _. apply wp_ret. left. split; [done|].
    eapply stopped_io; [exact Hio3|]. eapply stopped_io; [exact Hio|auto].
  - apply wp_ret. right. split; [done|]. split; [congruence|]. unfold opened. rewrite Hc2.
    split; [done|]. by exists c, cs.
Qed.

(** Executing a write on an export that cannot be written. *)
Lemma readonly_write_aborts offset count buf exts s c cs :
  s_ctx s = c :: cs -> primed c -> c_can_write c = 0 ->
  handle_request top NBD_CMD_WRITE 0 offset count buf exts s = Crash AssertFailed.
Proof.
  intros Hs Hp Hw. unfold handle_request. do 2 (erewrite bind_run; [|done]).
  set (s1 := set_thread _ (set_thread _ s)). assert (Hs1 : s_ctx s1 = c :: cs) by done.
  assert (backend_pwrite top buf count offset 0 0 s1 = Crash AssertFailed) as Hcrash.
  { unfold backend_pwrite. rewrite (bind_run _ _ _ _ _ (check_connected_primed s1 c cs Hs1 Hp)).
    by rewrite Hw. }
  change ((re ← backend_pwrite top buf count offset 0 0;
           mret (if re.1 =? -1 then u32 re.2 else 0, buf, exts)) s1 = Crash AssertFailed).
  unfold mbind, M_bind. by rewrite Hcrash.
Qed.

(** C37: The oldstyle handshake computes the export flags and sends them, but
    does not store them in the connection, whose flags stay 0: on a
    read-only export a client that ignores the READ_ONLY flag gets its
    write past [validate_request], and the server aborts in
    [backend_pwrite]. *)
Theorem oldstyle_readonly_write_aborts s `{!CapContract top} `{!StackContract top rest} :
  cf_tls cf <> 2 -> negotiating top rest s -> k_eflags (s_conn s) = 0 ->
  wp (protocol_handshake_oldstyle cf top rest) (fun r s' =>
    r = 0 -> exists c cs, s_ctx s' = c :: cs /\ primed c /\ k_eflags (s_conn s') = 0 /\
      forall offset count buf exts, c_can_write c = 0 ->
        0 < count <= MAX_REQUEST_SIZE -> offset + count <= c_exportsize c ->
        request_valid (s_conn s') (c_exportsize c) NBD_CMD_WRITE 0 offset count /\
        handle_request top NBD_CMD_WRITE 0 offset count buf exts s' = Crash AssertFailed) s.
Proof.
  intros Htls Hs Hz. eapply wp_mono; [by apply wp_oldstyle|].
  intros r s' [[-> _]|(-> & He & _ & c & cs & Hc & Ha)]; [done|]. intros _. exists c, cs.
  rewrite Hz in He. split; [done|]. split; [apply Ha|]. split; [done|].
  intros offset count buf exts Hw Hcount Hend.
  split; [|eapply readonly_write_aborts; [done|apply Ha|done]].
  split; [by rewrite He|left; split; [done|lia]|]. split; try done. lia.
Qed.
End Properties.

(** ** Witnesses: the RAM disk plugin *)

Definition fresh_conn (input : list Z) : connection :=
  Connection STATUS_ACTIVE 0 0 false [None] 0 0 false false false false None None
    [RData input] true [] [].

Definition fresh_state (input : list Z) : st ram :=
  St witness_thread (Ram (fun _ => 0) (fun _ => 0)) (fresh_conn input) [].

Definition ram_stack : backend ram := plugin_functions (ram_plugin 1048576 2).

Definition no_tls : M ram Z := mret (-1).

Definition server_config (tls : Z) (read_only newstyle : bool) : config :=
  Config tls read_only newstyle false false 3 NBDKIT_THREAD_MODEL_PARALLEL NBD_REP_ERR_POLICY.

Lemma ram_stack_laws : PluginLaws (ram_plugin 1048576 2).
Proof. apply ram_plugin_laws; unfold quad, INT64_MAX; lia. Qed.

Lemma ram_stack_caps : CapContract ram_stack.
Proof. pose proof ram_stack_laws. apply _. Qed.

Lemma ram_stack_contract : StackContract ram_stack [].
Proof. pose proof ram_stack_laws. by apply plugin_stack_contract. Qed.

Lemma no_tls_io : io_only no_tls (fun _ => True).
Proof. by apply io_ret. Qed.

Lemma fresh_negotiating (b : backend ram) input :
  Forall is_byte input -> negotiating b [] (fresh_state input).
Proof. intros Hb. split; try done; by repeat constructor. Qed.

(** The client flags, then NBD_OPT_GO for the default export. *)
Definition go_bytes : list Z :=
  be 4 3 ++ encode_new_option (NbdNewOption NBD_NEW_VERSION NBD_OPT_GO 6) ++ be 4 0 ++ be 2 0.

Lemma go_bytes_ok : Forall is_byte go_bytes.
Proof. repeat (apply Forall_app; split); apply be_bytes. Qed.

(** The server greets, announces the export, and acknowledges. *)
Lemma go_run : exists s',
  protocol_handshake_newstyle (server_config 0 false true) ram_stack [] no_tls (fun _ => [])
    (fresh_state go_bytes) = Ok (0, s') /\
  length (k_sent (s_conn s')) = (18 + (20 + 12) + 20)%nat.
Proof. eexists. split; [vm_compute; reflexivity|]. reflexivity. Qed.

Lemma oldstyle_run : exists s' c,
  protocol_handshake_oldstyle (server_config 0 true false) ram_stack [] (fresh_state [])
    = Ok (0, s') /\
  s_ctx s' = [c] /\ c_can_write c = 0 /\ c_exportsize c = 1048576.
Proof. eexists _, _. split; [vm_compute; reflexivity|]. repeat split. Qed.

Lemma export_flags_exact_witness :
  wp (protocol_common_open (server_config 0 false true) ram_stack [] []) (fun o s' =>
    match o with
    | Some (size, eflags) =>
        k_top_context (s_conn s') = true /\ opened [ram_stack] s' /\ 0 <= size <= INT64_MAX /\
        exists c cs, s_ctx s' = c :: cs /\ primed c /\ c_exportsize c = size /\
          eflags_exact (server_config 0 false true) (k_structured_replies (s_conn s')) c eflags
    | None => if k_top_context (s_conn s') then opened [ram_stack] s' else closed s'
    end) (fresh_state []).
Proof.
  pose proof ram_stack_caps. pose proof ram_stack_contract.
  apply (export_flags_exact (server_config 0 false true) ram_stack []); [assumption..|].
  apply fresh_negotiating. constructor.
Defined.

Lemma newstyle_handshake_safe_witness :
  exists s' name c,
    protocol_handshake_newstyle (server_config 0 false true) ram_stack [] no_tls (fun _ => [])
      (fresh_state go_bytes) = Ok (0, s') /\
    opened_as (server_config 0 false true) ram_stack [] name s' /\ session s' c /\
    (k_meta_context_base_allocation (s_conn s') = true ->
       k_exportname_from_set_meta_context (s_conn s') = Some name).
Proof.
  pose proof ram_stack_caps. pose proof ram_stack_contract.
  destruct go_run as (s' & E & _).
  destruct (wp_run _ _ _ _ _ (newstyle_handshake_safe (server_config 0 false true) ram_stack []
    no_tls (fun _ => []) (fresh_state go_bytes) no_tls_io
    (fresh_negotiating _ go_bytes go_bytes_ok)) E) as [_ Hs].
  destruct (Hs eq_refl) as (_ & _ & _ & name & c & Hn & Hss & _ & Hm).
  exists s', name, c. split; [exact E|]. split; [exact Hn|]. split; [exact Hss|]. intros Hb. apply Hm, Hb.
Defined.

Lemma tls_required_first_witness :
  wp (negotiate_option (server_config 2 false true) ram_stack [] no_tls (fun _ => []) 32 false)
    (fun '(it, nr', seen') s' =>
       it <> IterDone /\ nr' = 32 /\ seen' = false /\
       s_world s' = s_world (fresh_state (drop 4 go_bytes)) /\
       s_ctx s' = s_ctx (fresh_state (drop 4 go_bytes)) /\
       (k_using_tls (s_conn s') = true \/
        negotiated (s_conn s') = negotiated (s_conn (fresh_state (drop 4 go_bytes)))))
    (fresh_state (drop 4 go_bytes)).
Proof.
  apply (tls_required_first (server_config 2 false true) ram_stack []);
    [reflexivity|reflexivity|apply no_tls_io].
Defined.

Lemma oldstyle_readonly_write_aborts_witness :
  exists s' c cs,
    protocol_handshake_oldstyle (server_config 0 true false) ram_stack [] (fresh_state [])
      = Ok (0, s') /\
    s_ctx s' = c :: cs /\
    request_valid (s_conn s') (c_exportsize c) NBD_CMD_WRITE 0 0 512 /\
    handle_request ram_stack NBD_CMD_WRITE 0 0 512 (zeroes 512) no_extents s' = Crash AssertFailed.
Proof.
  pose proof ram_stack_caps. pose proof ram_stack_contract.
  destruct oldstyle_run as (s' & c0 & E & Hc0 & Hw & Hsz).
  destruct (wp_run _ _ _ _ _ (oldstyle_readonly_write_aborts (server_config 0 true false)
    ram_stack [] (fresh_state []) ltac:(discriminate) (fresh_negotiating _ [] (Forall_nil_2 _))
    eq_refl) E eq_refl) as (c & cs & Hc & _ & _ & Hab).
  rewrite Hc0 in Hc. injection Hc as <- <-. exists s', c0, []. split; [exact E|].
  split; [exact Hc0|]. apply Hab; [exact Hw|unfold MAX_REQUEST_SIZE; lia|rewrite Hsz; lia].
Defined.
