(* ===== verification/Service.v ===== *)
(** * Serving a connection

    Models [handle_single_connection] and [free_connection] of
    [server/connections.c] for a connection whose requests are processed
    serially ([nworkers] is 0: every thread model but the parallel one, or
    one thread), from accepting the client to closing the layers.

    The flag [quit], which a signal handler sets, and the success of
    [threadlocal_buffer] are inputs: [env] gives their values at every
    iteration.  [preconnect] is the backend's [.preconnect].  Locks and the
    handshake timeout are not modelled. *)

From S2P Require Import Prelude NbdProtocol Extents Exports Server Connections Backend Plugin Protocol Handshake Negotiation.

(** What an iteration of the request loop finds. *)
Record moment : Type := Moment {
  m_quit_loop : bool;     (* quit, in the loop condition *)
  m_quit_request : bool;  (* quit, when the request is about to be run *)
  m_buffer_ok : bool;     (* threadlocal_buffer succeeds *)
}.

Section Service.
Context {W : Type} (cf : config) (top : backend W) (rest : list (backend W)).
Context (crypto_negotiate_tls : M W Z) (render : String.string -> list Z).
Context (preconnect : M W Z) (env : nat -> moment) (quit_at_end : bool).

(** The loop over the requests; [i] counts the iterations. *)
Fixpoint request_loop (fuel i : nat) : M W unit :=
  status ← connection_get_status;
  if (m_quit_loop (env i) ||
      (status_val status <=? status_val STATUS_CLIENT_DONE))%bool then mret tt
  else match fuel with
  | O => fail OutOfFuel
  | S fuel =>
      shutdown ← protocol_recv_request_send_reply top (m_quit_request (env i))
                   (m_buffer_ok (env i));
      (if shutdown : bool then raw_close_wr else mret tt);;
      request_loop fuel (S i)
  end.

(** [conn->close (SHUT_RDWR)] *)
Definition raw_close_rdwr : M W unit :=
  modify (set_conn (fun k => with_sockin [] (with_sockout false (k_sockout k) (k_sent k) k))).

Definition free_connection : M W unit :=
  raw_close_rdwr;;
  if quit_at_end then mret tt
  else
    k ← gets s_conn;
    if k_top_context k then
      backend_close (top :: rest);;
      modify (set_conn (with_top_context false))
    else mret tt.

(** From [preconnect] on, with the new connection in the state.  An
    iteration of the request loop takes the connection down or consumes
    input, so there are at most as many as there is input, and one more. *)
Definition handle_single_connection : M W unit :=
  r ← preconnect;
  if r =? -1 then free_connection
  else
    r ← protocol_handshake cf top rest crypto_negotiate_tls render;
    if r =? -1 then free_connection
    else
      modify (set_conn (with_handshake_complete true));;
      k ← gets s_conn;
      request_loop (S (input_size k)) 0;;
      backend_finalize (top :: rest);;
      free_connection.
End Service.

(** ** Properties *)

Section Safety.
Context {W : Type} (cf : config) (top : backend W) (rest : list (backend W)).
Context (crypto_negotiate_tls : M W Z) (render : String.string -> list Z).
Context (preconnect : M W Z) (env : nat -> moment) (quit_at_end : bool).
Context `{!DataContract top} `{!CapContract top} `{!StackContract top rest}.
Implicit Types (s : st W).

Lemma wp_close_wr s (Q : unit -> st W -> Prop) :
  (forall s', keeps_session s s' -> k_status (s_conn s') = k_status (s_conn s) -> Q tt s') ->
  wp (raw_close_wr (W:=W)) Q s.
Proof. intros HQ. apply wp_modify, HQ; [by split|done]. Qed.

Lemma wp_request_loop fuel i s c :
  session s c -> input_wf (s_conn s) ->
  c_exportsize c <= UINT32_MAX -> (0 < c_can_zero c -> c_can_fast_zero c = 1) ->
  (status_val (k_status (s_conn s)) <= status_val STATUS_CLIENT_DONE \/
   (input_size (s_conn s) < fuel)%nat) ->
  wp (request_loop top env fuel i) (fun _ s' => keeps_session s s') s.
Proof.
  intros Hss Hin Hsz Hfz. revert i s Hss Hin.
  induction fuel as [|fuel IH]; intros i s Hss Hin Hf; cbn [request_loop];
    apply wp_bind, wp_gets;
    (destruct (m_quit_loop (env i)); simpl; [by apply wp_ret|]);
    (destruct (Z.leb_spec (status_val (k_status (s_conn s))) 1); [by apply wp_ret|]);
    simpl in Hf; [lia|].
  apply wp_bind. eapply wp_mono; [by apply (wp_request top _ _ s c)|].
  intros shutdown s1 [Hk Ha]. apply wp_bind.
  eapply wp_mono with (P := fun _ s2 => keeps_session s1 s2 /\
    k_status (s_conn s2) = k_status (s_conn s1)).
  { destruct shutdown; [by apply wp_close_wr|by apply wp_ret]. }
  intros _ s2 [Hk2 Hst]. assert (Hk02 : keeps_session s s2) by (by etrans).
  eapply wp_mono; [apply IH|].
  - by eapply keeps_session_session.
  - by apply Hk02.
  - rewrite Hst. pose proof (ks_size _ _ Hk2). destruct Ha as [?|?]; [by left|right; lia].
  - intros ? s3 Hk3. by etrans.
Qed.

(** Everything is closed, unless the server is quitting. *)
Definition released s : Prop :=
  quit_at_end = false -> closed s /\ k_top_context (s_conn s) = false.

Lemma wp_free_connection s :
  (if k_top_context (s_conn s) then opened (top :: rest) s else closed s) ->
  wp (free_connection top rest quit_at_end) (fun _ s' => released s') s.
Proof.
  intros Hly. unfold free_connection, released. apply wp_bind, wp_modify.
  destruct quit_at_end; [by apply wp_ret|]. apply wp_bind, wp_gets. simpl.
  destruct (k_top_context (s_conn s)) eqn:Ht; [|by apply wp_ret].
  apply wp_bind. eapply wp_mono; [by apply (sc_close (top:=top) (rest:=rest))|].
  intros _ s1 [_ [Hc He]]. apply wp_modify. by repeat split.
Qed.

(** C3: A whole connection is safe: for any plugin that keeps its contract
    and any bytes from the client, the server accepts the connection,
    negotiates (newstyle), serves requests until the client leaves, breaks
    off or violates the protocol, or the server quits, and frees the
    connection, without failing an assertion; the request loop ends once
    the client's input does; and unless the server is quitting, which leaves
    the layers to the main thread, those opened for the connection have all
    been closed.  The export must be at most [UINT32_MAX] bytes and
    must have fast zero if it can zero (see [request_never_aborts]): on other
    exports a client can abort the server. *)
Theorem connection_served s :
  cf_newstyle cf = true -> io_only crypto_negotiate_tls (fun _ => True) ->
  (forall s1, wp preconnect (fun _ s2 => s_conn s2 = s_conn s1 /\ s_ctx s2 = s_ctx s1) s1) ->
  negotiating top rest s ->
  (forall s1 s2 c, s_conn s1 = s_conn s ->
     protocol_handshake cf top rest crypto_negotiate_tls render s1 = Ok (0, s2) ->
     head (s_ctx s2) = Some c ->
     c_exportsize c <= UINT32_MAX /\ (0 < c_can_zero c -> c_can_fast_zero c = 1)) ->
  wp (handle_single_connection cf top rest crypto_negotiate_tls render preconnect env quit_at_end)
    (fun _ s' => quit_at_end = false -> closed s' /\ k_top_context (s_conn s') = false) s.
Proof.
  intros Hnew Hcr Hpre Hs Hsmall. unfold handle_single_connection. apply wp_bind.
  eapply wp_mono; [apply Hpre|]. intros r s1 [Hk1 Hc1].
  assert (Hs1 : negotiating top rest s1).
  { destruct Hs as [[Hcl He] Ht Hl Hd Hi Hm]. split; [split|..]; rewrite ?Hk1; (done || congruence). }
  destruct (r =? -1).
  { apply wp_free_connection. rewrite (ng_top _ _ _ Hs1). apply Hs1. }
  apply wp_bind. specialize (Hsmall s1). unfold protocol_handshake in *. rewrite Hnew in *.
  simpl in *. destruct (wp_ok _ _ _ (wp_newstyle cf top rest crypto_negotiate_tls render Hcr s1 Hs1))
    as (r2 & s2 & E & Hend). eapply wp_intro; [exact E|].
  destruct Hend as [[-> Hst]|(-> & _ & name & Hch)]; simpl.
  { apply wp_free_connection, Hst. }
  destruct (chosen_session _ _ _ _ _ Hch) as (c & Hss & _).
  destruct (Hsmall s2 c Hk1 E (ss_ctx _ _ Hss)) as [Hsz Hfz].
  apply wp_bind, wp_modify, wp_bind, wp_gets, wp_bind.
  set (s3 := set_conn _ s2). assert (Hss3 : session s3 c) by (by destruct Hss as [? ? []]).
  eapply wp_mono; [apply (wp_request_loop (S (input_size (s_conn s3))) 0 s3 c Hss3);
    (done || apply Hch || (right; lia))|].
  intros ? s4 Hk. assert (Ho4 : opened (top :: rest) s4).
  { eapply (opened_handles _ s3); [apply Hk|apply Hch]. }
  apply wp_bind. eapply wp_mono; [by apply (sc_finalize (top:=top) (rest:=rest))|].
  intros _ s5 [Hk5 Ho5]. apply wp_free_connection.
  pose proof (cb_wire _ _ Hk5) as Hw. unfold wire in Hw.
  assert (k_top_context (s_conn s5) = true) as ->; [|done].
  rewrite <- (ch_top _ _ _ _ _ Hch). change (k_top_context (s_conn s2)) with (k_top_context (s_conn s3)).
  rewrite <- (ks_top _ _ Hk). congruence.
Qed.
End Safety.

(** ** Witness: a RAM disk that leaves zeroing to the server *)

Definition plain_plugin : nbdkit_plugin ram :=
  Plugin 2 0 None None (fun _ t w => Ok (1, t, w)) None None (fun _ t w => Ok (1048576, t, w))
    None None None None None None None None
    (Some (fun _ t w => Ok (2, t, w))) None None
    (Some (fun _ count offset _ t w => Ok ((0, ram_read (ram_disk w) count offset), t, w))) None
    (Some ram_pwrite) None
    (Some (fun _ _ t w => Ok (0, t, Ram (ram_disk w) (ram_disk w)))) None
    None None None None None None.

Definition plain_stack : backend ram := plugin_functions plain_plugin.

Lemma plain_plugin_laws : PluginLaws plain_plugin.
Proof.
  split; try done; simpl; intros; try (by set_solver); simplify_eq; intros t w; simpl; try done.
  unfold ram_read. by rewrite length_fmap, length_seqZ.
Qed.

(** A session: choose the default export, write, and disconnect. *)
Definition session_bytes : list Z :=
  go_bytes ++
  encode_request (NbdRequest NBD_REQUEST_MAGIC 0 NBD_CMD_WRITE (be 8 7) 512 4) ++ [1; 2; 3; 4] ++
  encode_request (NbdRequest NBD_REQUEST_MAGIC 0 NBD_CMD_DISC (be 8 8) 0 0).

Definition always : nat -> moment := fun _ => Moment false false true.

Lemma plain_handshake (t : thread) (w : ram) cs : exists s2 c,
  protocol_handshake (server_config 0 false true) plain_stack [] no_tls (fun _ => [])
    (St t w (fresh_conn session_bytes) cs) = Ok (0, s2) /\
  s_ctx s2 = [c] /\ c_exportsize c = 1048576 /\ c_can_fast_zero c = 1.
Proof. eexists _, _. split; [vm_compute; reflexivity|]. by repeat split. Qed.

Lemma session_bytes_ok : Forall is_byte session_bytes.
Proof.
  apply (bool_decide_unpack (Forall (fun x => 0 <= x <= 255) session_bytes)). by vm_compute.
Qed.

(** The written bytes have reached the disk, and the reply the client. *)
Example session_writes :
  match handle_single_connection (server_config 0 false true) plain_stack [] no_tls (fun _ => [])
          (mret 0) always false (fresh_state session_bytes) with
  | Ok (_, s') => ram_disk (s_world s') 514 = 3 /\
      length (k_sent (s_conn s')) = (18 + (20 + 12) + 20 + 16)%nat /\ s_ctx s' = []
  | Crash _ => False
  end.
Proof. vm_compute. auto. Qed.

Lemma connection_served_witness :
  wp (handle_single_connection (server_config 0 false true) plain_stack [] no_tls (fun _ => [])
        (mret 0) always false)
    (fun _ s' => false = false -> closed s' /\ k_top_context (s_conn s') = false)
    (fresh_state session_bytes).
Proof.
  pose proof plain_plugin_laws as Hlaws.
  assert (Hst : StackContract plain_stack []) by (pose proof plain_plugin_laws; by apply plugin_stack_contract).
  apply (connection_served (server_config 0 false true) plain_stack [] no_tls (fun _ => [])
    (mret 0) always false).
  - reflexivity.
  - apply no_tls_io.
  - intros s1. apply wp_ret. split; reflexivity.
  - apply fresh_negotiating, session_bytes_ok.
  - intros [t w k cs] s2 c Hk E Hc. simpl in Hk. subst k.
    destruct (plain_handshake t w cs) as (s2' & c' & E' & Hc' & Hsz & Hfz).
    rewrite E in E'. injection E' as <-. rewrite Hc' in Hc. injection Hc as <-.
    rewrite Hsz, Hfz. split; [unfold UINT32_MAX; lia|reflexivity].
Defined.
