(* ===== verification/ExtentsQuery.v ===== *)
(** * Extent queries of filters

    Models [nbdkit_extents_full] and [nbdkit_extents_aligned] of
    [server/extents.c], with which a filter gets the extents of a range from
    the layer below: all of them, however few that layer reports per call,
    or rounded to a block size.  The current context is the [next_c] of the
    C functions. *)

From S2P Require Import Prelude NbdProtocol Extents Exports Server Connections Backend Plugin.

Section Query.
Context {W : Type} (b : backend W).

(** The inner loop: add the extents of one answer to [ret].  [inl] is
    [goto error1] with the errno; otherwise [ret], [count] and [offset]. *)
Fixpoint copy_extents (l : list nbdkit_extent) (ret : nbdkit_extents) (count offset : Z)
    : M W (Z + nbdkit_extents * Z * Z) :=
  match l with
  | [] => mret (inr (ret, count, offset))
  | e :: l' =>
      let '(r, ret) := nbdkit_add_extent ret (e_offset e) (e_length e) (e_type e) in
      match r with
      | Some errno => mret (inl errno)
      | None =>
          cassert (e_length e <=? count);;
          copy_extents l' ret (u32 (count - e_length e)) (u64 (offset + e_length e))
      end
  end.

(** The outer loop; NULL is [None], with the error. *)
Fixpoint full_loop (fuel : nat) (ret : nbdkit_extents) (count offset flags err : Z)
    : M W (option nbdkit_extents * Z) :=
  if count =? 0 then mret (Some ret, err)
  else match fuel with
  | O => fail OutOfFuel
  | S fuel =>
      match nbdkit_extents_new offset (u64 (offset + count)) with
      | inl errno => mret (None, errno)
      | inr t =>
          '(r, err, t) ← backend_extents b count offset flags t err;
          if r =? -1 then mret (None, err)
          else
            o ← copy_extents (x_extents t) ret count offset;
            match o with
            | inl errno => mret (None, errno)
            | inr (ret, count', offset') =>
                cassert (offset <? offset');;
                full_loop fuel ret count' offset' flags err
            end
      end
  end.

(** Every iteration makes progress, so [count] iterations are enough. *)
Definition nbdkit_extents_full (count offset flags err : Z) : M W (option nbdkit_extents * Z) :=
  let flags := clear flags NBDKIT_FLAG_REQ_ONE in
  match nbdkit_extents_new offset (u64 (offset + count)) with
  | inl _ => mret (None, err)
  | inr ret => full_loop (Z.to_nat count) ret count offset flags err
  end.

Definition IS_ALIGNED (size align : Z) : M W bool :=
  cassert (is_power_of_2 align);;
  mret (Z.land size (align - 1) =? 0).

(** At type [uint64_t]. *)
Definition ROUND_DOWN (i n : Z) : M W Z :=
  cassert (is_power_of_2 n);;
  mret (Z.land i (u64 (- n))).

(** The inner loop of [nbdkit_extents_aligned]: [l] is the array of extents
    and [e] points to its first element.  The result has -1 or 0, the error
    and the array. *)
Fixpoint coalesce_loop (fuel : nat) (l : list nbdkit_extent) (offset flags align err : Z)
    : M W (Z * Z * list nbdkit_extent) :=
  match l with
  | [] => fail OutOfBounds
  | e :: rest =>
      if align <=? e_length e then mret (0, err, l)
      else match fuel with
      | O => fail OutOfFuel
      | S fuel =>
          match rest with
          | e1 :: rest =>
              let e := Extent (e_offset e) (u64 (e_length e + e_length e1))
                         (Z.land (e_type e) (e_type e1)) in
              coalesce_loop fuel (e :: rest) offset flags align err
          | [] =>
              match nbdkit_extents_new (u64 (e_offset e + e_length e)) (u64 (offset + align)) with
              | inl errno => mret (-1, errno, l)
              | inr extents2 =>
                  '(r, err, extents2) ← backend_extents b (u32 (align - e_length e))
                     (u64 (offset + e_length e)) (clear flags NBDKIT_FLAG_REQ_ONE) extents2 err;
                  if r =? -1 then mret (-1, err, l)
                  else match x_extents extents2 with
                  | [] => fail OutOfBounds
                  | e2 :: rest2 =>
                      cassert (e_offset e2 =? u64 (e_offset e + e_length e));;
                      let e2 := Extent (e_offset e) (u64 (e_length e2 + e_length e))
                                  (Z.land (e_type e2) (e_type e)) in
                      coalesce_loop fuel (e2 :: rest2) offset flags align err
                  end
              end
          end
      end
  end.

(** The scan for the first unaligned extent: [before] are the extents
    already seen.  Every round of the inner loop adds at least a byte. *)
Fixpoint aligned_scan (before after : list nbdkit_extent) (offset flags align : Z)
    (exts : nbdkit_extents) (err : Z) : M W (Z * Z * nbdkit_extents) :=
  match after with
  | [] => mret (0, err, exts)
  | e :: after' =>
      a ← IS_ALIGNED (e_length e) align;
      if (a : bool) then aligned_scan (before ++ [e]) after' offset flags align exts err
      else if u64 (offset + align) <? u64 (e_offset e + e_length e) then
        n ← ROUND_DOWN (e_length e) align;
        let e := Extent (e_offset e) n (e_type e) in
        mret (0, err, Extents (before ++ (if n =? 0 then [] else [e]))
                        (x_start exts) (x_end exts) (i64 (e_offset e + n)))
      else
        cassert (match before with [] => true | _ => false end);;
        '(r, err, l) ← coalesce_loop (Z.to_nat align) (e :: after') offset flags align err;
        if r =? -1 then mret (-1, err, Extents l (x_start exts) (x_end exts) (x_next exts))
        else match l with
        | [] => fail OutOfBounds
        | e :: _ =>
            mret (0, err, Extents [Extent (e_offset e) align (e_type e)]
                            (x_start exts) (x_end exts) (i64 (e_offset e + align)))
        end
  end.

Definition nbdkit_extents_aligned (count offset flags align : Z) (exts : nbdkit_extents)
    (err : Z) : M W (Z * Z * nbdkit_extents) :=
  a ← IS_ALIGNED (Z.lor count offset) align;
  cassert a;;
  '(r, err, exts) ← backend_extents b count offset flags exts err;
  if r =? -1 then mret (-1, err, exts)
  else aligned_scan [] (x_extents exts) offset flags align exts err.
End Query.

(** What the layer [b] answers about a range can be relied on. *)
Definition answers_sound (k : Z) (P : Z -> Prop) {W} (b : backend W) : Prop :=
  forall count offset flags exts err s r err' exts' s',
    x_extents exts = [] -> backend_extents b count offset flags exts err s = Ok (r, err', exts', s') ->
    r <> -1 -> types_sound k P (x_extents exts').

(** ** Arithmetic of alignments *)

Lemma power_of_2 align : 0 <= align <= UINT32_MAX -> is_power_of_2 align = true ->
  exists n, 0 <= n <= 32 /\ align = 2 ^ n.
Proof.
  intros Ha Hp. apply is_power_of_2_spec in Hp as (n & Hn & ->); [|lia].
  exists n. split; [|done]. split; [done|]. destruct (Z.le_gt_cases n 32) as [|Hgt]; [done|].
  pose proof (Z.pow_lt_mono_r 2 32 n ltac:(lia) ltac:(lia) Hgt).
  change (2 ^ 32) with 4294967296 in *. unfold UINT32_MAX in Ha. lia.
Qed.

Lemma extents_new_ok start end_ :
  0 <= start <= end_ -> end_ <= INT64_MAX ->
  nbdkit_extents_new start end_ = inr (Extents [] start end_ (-1)).
Proof.
  intros Hs He. unfold nbdkit_extents_new.
  by rewrite (proj2 (Z.ltb_ge INT64_MAX start)), (proj2 (Z.ltb_ge INT64_MAX end_)),
    (proj2 (Z.ltb_ge end_ start)) by lia.
Qed.

(** ** Properties of [nbdkit_extents_full] *)

Section Properties.
Context {W : Type} (b : backend W) `{!DataContract b}.
Context (k : Z) (P : Z -> Prop) (Hsound : answers_sound k P b).
Implicit Types (s : st W) (ret : nbdkit_extents).

(** A query of the layer below, for an empty list of extents. *)
Lemma wp_query count offset flags err s c cs end_ :
  s_ctx s = c :: cs -> primed c -> err_ok err -> 0 <= offset -> 0 <= count <= UINT32_MAX ->
  valid_range c offset count = true -> clear flags NBDKIT_FLAG_REQ_ONE = 0 ->
  offset + count <= end_ <= INT64_MAX ->
  wp (backend_extents b count offset flags (Extents [] offset end_ (-1)) err)
    (fun '(r, err', exts') s' =>
      frame s s' /\ fails_with_errno r err' /\
      (r <> -1 -> extents_answer (Extents [] offset end_ (-1)) exts' /\
                  types_sound k P (x_extents exts'))) s.
Proof.
  intros. pose proof (wp_backend_extents b count offset flags err s c cs end_) as Hwp.
  unfold wp in *. destruct (backend_extents _ _ _ _ _ _ _) as [[[[r e] x] s']|] eqn:E; [|auto].
  destruct Hwp as (Hfr & He & Hans); [done..|]. split; [done|]. split; [done|].
  intros Hr. split; [auto|]. by eapply Hsound; [|exact E|].
Qed.

Lemma wp_copy_extents l start end_ ret count offset s :
  collected k P start end_ offset ret -> offset + count = end_ -> 0 <= count <= UINT32_MAX ->
  chain offset l -> chain_end offset l <= end_ -> 0 <= start -> end_ <= INT64_MAX ->
  types_sound k P l ->
  wp (copy_extents l ret count offset) (fun o s' => s' = s /\ exists ret',
    o = inr (ret', end_ - chain_end offset l, chain_end offset l) /\
    collected k P start end_ (chain_end offset l) ret') s.
Proof.
  intros Hcl Hsum Hc Hch Hce Hs Hmax Hsnd. revert ret count offset Hcl Hsum Hc Hch Hce Hsnd.
  induction l as [|e l IH]; intros ret count offset Hcl Hsum Hc Hch Hce Hsnd; simpl in *.
  { apply wp_ret. split; [done|]. exists ret. split; [|done]. do 3 f_equal. lia. }
  apply (types_sound_cons k P offset) in Hsnd as [Het Hsnd]; [|done].
  destruct Hch as (<- & Hpos & Hch). pose proof (chain_end_le _ _ Hch).
  destruct (collected_add _ _ _ _ (e_length e) (e_type e) Hcl) as (ret' & -> & Hcl'); [lia..|done|].
  apply wp_bind, wp_assert. split; [apply Z.leb_le; lia|].
  pose proof (cl_offset _ _ _ _ Hcl).
  rewrite u32_small, u64_small by (limits; lia). apply IH; (done || lia).
Qed.

Lemma wp_full_loop fuel start end_ ret count offset err s c cs :
  s_ctx s = c :: cs -> primed c -> err_ok err -> 0 <= start -> end_ <= c_exportsize c ->
  collected k P start end_ offset ret -> offset + count = end_ -> 0 <= count <= UINT32_MAX ->
  count <= Z.of_nat fuel ->
  wp (full_loop b fuel ret count offset 0 err) (fun '(o, err') s' =>
    frame s s' /\ match o with
                  | Some ret' => collected k P start end_ end_ ret'
                  | None => err' <> 0
                  end) s.
Proof.
  intros Hs Hp Herr Hst Hend. pose proof (pr_size _ Hp) as Hsize.
  revert ret count offset err s cs Hs Herr.
  induction fuel as [|fuel IH]; intros ret count offset err s cs Hs Herr Hcl Hsum Hc Hf;
    cbn [full_loop]; pose proof (cl_offset _ _ _ _ Hcl) as Hoff;
    (destruct (Z.eqb_spec count 0);
       [apply wp_ret; split; [done|]; by replace end_ with offset at 2 by lia|]); [lia|].
  rewrite u64_small by (limits; lia). rewrite extents_new_ok by lia. apply wp_bind.
  eapply wp_mono; [apply (wp_query count offset 0 err s c cs); try done; [lia| |lia]|].
  { apply valid_range_iff; limits; lia. }
  intros [[r e] t] s1 (Hfr & [Hok He] & Hans). destruct (Z.eqb_spec r (-1)).
  { apply wp_ret. auto. }
  destruct (Hans n0) as ((Hwf & Hts & Hte & Hne) & Hsnd). simpl in Hts, Hte.
  pose proof (wf_chain _ Hwf) as Hch. rewrite Hts in Hch.
  destruct (wf_filled _ Hwf Hne) as (_ & Hle & _). rewrite Hts, Hte in Hle.
  pose proof (chain_end_lt _ _ Hch Hne).
  apply wp_bind. eapply wp_mono; [apply (wp_copy_extents _ start end_); try done; lia|].
  intros o s2 (-> & ret' & -> & Hcl'). apply wp_bind, wp_assert.
  split; [by apply Z.ltb_lt|]. destruct (frame_ctx _ _ _ _ Hfr Hs) as [cs1 Hs1].
  eapply wp_mono; [apply (IH _ _ _ _ _ cs1); (done || lia)|].
  intros [o e'] s' [Hfr' Ho]. split; [by etrans|done].
Qed.

(** [nbdkit_extents_full] keeps its promise to filters: on any valid
    range of the layer below it ends, without failing an assertion, either
    with an error number or with well-formed extents which describe every
    byte of the range and no other, however small the pieces that layer
    reports (unless there are more than [MAX_EXTENTS] of them, where the
    list stops growing), and which promise nothing of a byte that the layer
    below did not promise. *)
Lemma extents_full_covers count offset flags err s c cs :
  s_ctx s = c :: cs -> primed c -> err_ok err -> clear flags NBDKIT_FLAG_REQ_ONE = 0 ->
  0 <= offset -> 0 <= count <= UINT32_MAX -> valid_range c offset count = true ->
  wp (nbdkit_extents_full b count offset flags err) (fun '(o, err') s' =>
    frame s s' /\
    match o with
    | None => err' <> 0
    | Some exts =>
        exts_wf exts /\ x_start exts = offset /\ x_end exts = offset + count /\
        types_sound k P (x_extents exts) /\
        (nbdkit_extents_count exts < MAX_EXTENTS ->
         forall x, is_Some (type_at (x_extents exts) x) <-> offset <= x < offset + count)
    end) s.
Proof.
  intros Hs Hp Herr Hfl Ho Hc Hv. pose proof (pr_size _ Hp) as Hsize.
  destruct (valid_range_bounds c offset count Ho Hc (proj2 Hsize) Hv) as [Hpos Hend].
  unfold nbdkit_extents_full. rewrite Hfl, u64_small by (limits; lia).
  destruct (extents_new_wf offset (offset + count) (Extents [] offset (offset + count) (-1)) Ho)
    as (Hwf & _); [apply extents_new_ok; lia|]. rewrite extents_new_ok by lia.
  assert (Hcl : collected k P offset (offset + count) offset (Extents [] offset (offset + count) (-1)))
    by (split; simpl; (done || lia || auto)).
  eapply wp_mono; [apply (wp_full_loop _ offset (offset + count) _ _ _ _ _ c cs); (done || lia)|].
  intros [[exts|] e] s' [Hfr H]; (split; [done|]); [|done].
  destruct H as [Hwf' Hs' He' _ Hn Hf Hsnd]. do 4 (split; [done|]).
  intros Hcnt x. assert (Hne : x_extents exts <> []) by (apply Hf; lia).
  destruct (wf_filled _ Hwf' Hne) as (Hnn & _ & Hfull). specialize (Hfull Hcnt).
  rewrite Hs', He' in Hfull. rewrite (chain_domain offset); [|rewrite <- Hs'; apply Hwf'].
  rewrite Hfull. lia.
Qed.

(** ** Properties of [nbdkit_extents_aligned] *)

Lemma wp_IS_ALIGNED size n (Q : bool -> st W -> Prop) s :
  0 <= n -> Q (size mod 2 ^ n =? 0) s -> wp (IS_ALIGNED size (2 ^ n)) Q s.
Proof.
  intros Hn HQ. apply wp_bind, wp_assert. split; [apply is_power_of_2_spec; [|by exists n]; lia|].
  apply wp_ret. by rewrite land_pred_pow2.
Qed.

Lemma wp_ROUND_DOWN i n (Q : Z -> st W -> Prop) s :
  0 <= n <= 32 -> 0 <= i <= UINT64_MAX -> Q (i - i mod 2 ^ n) s -> wp (ROUND_DOWN i (2 ^ n)) Q s.
Proof.
  intros Hn Hi HQ. apply wp_bind, wp_assert.
  split; [apply is_power_of_2_spec; [|exists n; split; [lia|done]]; lia|].
  apply wp_ret. by rewrite land_neg_pow2 by lia.
Qed.

(** The array after merging: its first extent has at least [align] bytes. *)
Definition merged (offset align : Z) (l : list nbdkit_extent) : Prop :=
  chain offset l /\ types_sound k P l /\ exists e rest, l = e :: rest /\ align <= e_length e.

(** The answer to the query for the bytes after [e]. *)
Lemma answer_after e offset end_ x :
  chain offset [e] -> types_sound k P [e] ->
  extents_answer (Extents [] (offset + e_length e) end_ (-1)) x ->
  types_sound k P (x_extents x) ->
  exists e1 l, x_extents x = e1 :: l /\ chain offset (e :: e1 :: l) /\
    chain_end offset (e :: e1 :: l) <= end_ /\ types_sound k P (e :: e1 :: l).
Proof.
  intros Hch Hsnd (Hwf & Hxs & Hxe & Hne) Hsnd2. simpl in Hxs, Hxe.
  pose proof (wf_chain _ Hwf) as Hch2. rewrite Hxs in Hch2.
  destruct (wf_filled _ Hwf Hne) as (_ & Hxl & _). rewrite Hxs, Hxe in Hxl.
  apply (types_sound_cons k P offset) in Hsnd as [Het _]; [|done].
  destruct Hch as (Heo & Hpos & _). destruct (x_extents x) as [|e1 l]; [done|].
  exists e1, l. split; [done|]. split; [done|]. split; [simpl in *; lia|].
  by apply (types_sound_cons k P offset).
Qed.

Lemma wp_coalesce_loop fuel e l offset flags align err s c cs :
  s_ctx s = c :: cs -> primed c -> err_ok err -> 0 <= offset -> 0 < align <= UINT32_MAX ->
  offset + align <= c_exportsize c -> clear flags NBDKIT_FLAG_REQ_ONE = 0 ->
  chain offset (e :: l) -> chain_end offset (e :: l) <= INT64_MAX -> types_sound k P (e :: l) ->
  align - e_length e <= Z.of_nat fuel ->
  wp (coalesce_loop b fuel (e :: l) offset flags align err) (fun '(r, err', l') s' =>
    frame s s' /\ fails_with_errno r err' /\ (r <> -1 -> merged offset align l')) s.
Proof.
  intros Hs Hp Herr Ho Ha Hend Hfl. pose proof (pr_size _ Hp) as Hsize.
  revert e l err s cs Hs Herr.
  induction fuel as [|fuel IH]; intros e l err s cs Hs Herr Hch Hce Hsnd Hfuel;
    cbn [coalesce_loop];
    (destruct (Z.leb_spec align (e_length e)) as [Hle|Hlt];
       [apply wp_ret; split; [done|]; split; [auto with nbdkit|];
        intros _; split; [done|]; split; [done|]; eauto|]); [lia|].
  assert (Hnext : forall e1 l1 err1 s1, frame s s1 -> err_ok err1 -> chain offset (e :: e1 :: l1) ->
    chain_end offset (e :: e1 :: l1) <= INT64_MAX -> types_sound k P (e :: e1 :: l1) ->
    wp (coalesce_loop b fuel (Extent (e_offset e) (u64 (e_length e + e_length e1))
          (Z.land (e_type e) (e_type e1)) :: l1) offset flags align err1)
      (fun '(r, err', l') s' =>
        frame s s' /\ fails_with_errno r err' /\ (r <> -1 -> merged offset align l')) s1).
  { intros e1 l1 err1 s1 Hfr Herr1 Hch1 Hce1 Hsnd1.
    destruct (frame_ctx _ _ _ _ Hfr Hs) as [cs1 Hs1].
    destruct (types_sound_merge k P offset e e1 l1 _ _ Hch1 eq_refl eq_refl Hsnd1) as [Hchm Hsm].
    destruct Hch1 as (_ & Hpos & _ & Hpos1 & Hch1). simpl in Hce1.
    pose proof (chain_end_le _ _ Hch1). rewrite u64_small by (limits; lia).
    eapply wp_mono; [apply (IH _ _ _ _ cs1); try done; simpl; rewrite ?Z.add_assoc; lia|].
    intros [[r err'] l'] s' (Hfr' & H'). split; [by etrans|done]. }
  destruct l as [|e1 l]; [|by apply Hnext].
  pose proof Hch as (Heo & Hpos & _). rewrite Heo in Hnext |- *.
  rewrite !u64_small, u32_small by (limits; lia). rewrite extents_new_ok by lia.
  apply wp_bind. rewrite Hfl.
  eapply wp_mono; [apply (wp_query (align - e_length e) _ 0 err s c cs); try done; try lia|].
  { apply valid_range_iff; limits; lia. }
  intros [[r err'] x] s1 (Hfr & He & Hans). destruct (Z.eqb_spec r (-1)) as [->|Hr].
  { by apply wp_ret. }
  destruct (Hans Hr) as [Hx Hxs].
  destruct (answer_after _ _ _ _ Hch Hsnd Hx Hxs) as (e1 & l1 & -> & Hch1 & Hce1 & Hsnd1).
  pose proof Hch1 as (_ & _ & -> & _). apply wp_bind, wp_assert.
  split; [by apply Z.eqb_eq|]. rewrite (Z.add_comm (e_length e1)), (Z.land_comm (e_type e1)).
  apply Hnext; try done; [apply He|lia].
Qed.

(** Cutting a list of extents inside the extent [e]. *)
Lemma exts_wf_cut x before e after m :
  exts_wf x -> x_extents x = before ++ e :: after -> 0 <= m <= e_length e ->
  exts_wf (Extents (before ++ (if m =? 0 then [] else [Extent (e_offset e) m (e_type e)]))
             (x_start x) (x_end x) (e_offset e + m)).
Proof.
  intros Hwf Hx Hm. pose proof (wf_chain _ Hwf) as Hch. pose proof (wf_coalesced _ Hwf) as Hco.
  pose proof (wf_count _ Hwf) as Hcnt. destruct (wf_filled _ Hwf) as (Hn & Hce & _).
  { rewrite Hx. by destruct before. }
  pose proof (wf_start _ Hwf). pose proof (wf_end _ Hwf).
  rewrite Hx in Hch, Hco, Hce. rewrite chain_end_app in Hce. simpl in Hce.
  apply chain_app in Hch as (Hchb & Heo & Hpos & Hcha).
  pose proof (chain_end_le _ _ Hcha). pose proof (chain_end_le _ _ Hchb).
  assert (Hend : chain_end (x_start x) (before ++ (if m =? 0 then [] else
    [Extent (e_offset e) m (e_type e)])) = e_offset e + m).
  { rewrite chain_end_app, Heo. destruct (Z.eqb_spec m 0); simpl; lia. }
  split; unfold nbdkit_extents_count in *; cbn [x_start x_end x_next x_extents]; try lia.
  - destruct (Z.eqb_spec m 0); [by rewrite app_nil_r|]. apply chain_app.
    split; [done|]. simpl. split; [done|]. split; [lia|done].
  - apply (coalesced_app_l _ (e :: after)) in Hco as Hcb.
    rewrite (app_assoc before [e] after : before ++ e :: after = _) in Hco.
    apply coalesced_app_l in Hco. destruct (m =? 0); [by rewrite app_nil_r|].
    by apply (coalesced_replace_last before e).
  - rewrite Hx in Hcnt. rewrite length_app in *. destruct (m =? 0); simpl in *; lia.
Qed.

Definition all_aligned (align : Z) (l : list nbdkit_extent) : Prop :=
  Forall (fun e => e_offset e mod align = 0 /\ e_length e mod align = 0) l.

(** What a filter gets: extents like those of any layer, and aligned. *)
Definition aligned_answer (align : Z) (exts0 exts : nbdkit_extents) : Prop :=
  extents_answer exts0 exts /\ all_aligned align (x_extents exts) /\
  types_sound k P (x_extents exts).

Lemma next_multiple a x y : 0 < a -> x mod a = 0 -> y mod a = 0 -> x < y -> x + a <= y.
Proof.
  intros Ha Hx Hy Hlt. apply Z.mod_divide in Hx as [p ->]; [|lia].
  apply Z.mod_divide in Hy as [q ->]; [|lia].
  assert (p + 1 <= q) by (apply Z.mul_lt_mono_pos_r in Hlt; lia). nia.
Qed.

Lemma sub_mod_aligned a x : 0 < a -> (x - x mod a) mod a = 0.
Proof. intros Ha. rewrite Zminus_mod, Zmod_mod, Z.sub_diag. apply Zmod_0_l. Qed.

Lemma add_aligned a x y : x mod a = 0 -> y mod a = 0 -> (x + y) mod a = 0.
Proof. intros Hx Hy. rewrite Zplus_mod, Hx, Hy. apply Zmod_0_l. Qed.

(** The answer when the first unaligned extent is cut. *)
Lemma cut_answer align x before e after :
  0 < align -> exts_wf x -> x_extents x = before ++ e :: after ->
  all_aligned align before -> chain_end (x_start x) before mod align = 0 ->
  x_start x + align < e_offset e + e_length e -> types_sound k P (x_extents x) ->
  aligned_answer align x
    (let m := e_length e - e_length e mod align in
     Extents (before ++ (if m =? 0 then [] else [Extent (e_offset e) m (e_type e)]))
       (x_start x) (x_end x) (e_offset e + m)).
Proof.
  intros Ha Hwf Hx Hal Hce Hlt Hsnd. set (m := e_length e - e_length e mod align).
  pose proof (wf_chain _ Hwf) as Hch. rewrite Hx in Hch, Hsnd.
  apply chain_app in Hch as (_ & Hche). pose proof Hche as (Heo & Hel & _).
  pose proof (Z.mod_pos_bound (e_length e) align Ha).
  pose proof (Z.mod_le (e_length e) align ltac:(lia) Ha).
  assert (Hm : 0 <= m <= e_length e) by lia. simpl. split; [|split].
  - split; [by eapply exts_wf_cut|]. split; [done|]. split; [done|]. simpl.
    destruct before; [|done]. simpl in *. destruct (Z.eqb_spec m 0); [lia|done].
  - simpl. apply Forall_app. split; [done|]. destruct (m =? 0); [done|].
    constructor; [|done]. simpl. rewrite Heo. split; [done|]. by apply sub_mod_aligned.
  - simpl. destruct (m =? 0); [rewrite app_nil_r; by eapply types_sound_app_l|].
    by apply (types_sound_cut k P (x_start x) _ _ after).
Qed.

(** The answer when extents are merged up to the alignment. *)
Lemma merged_answer align x e rest :
  0 < align -> exts_wf x -> x_start x + align <= x_end x -> x_start x mod align = 0 ->
  merged (x_start x) align (e :: rest) ->
  aligned_answer align x (Extents [Extent (e_offset e) align (e_type e)]
                            (x_start x) (x_end x) (e_offset e + align)).
Proof.
  intros Ha Hwf Hend Hst (Hch & Hsnd & e' & rest' & [= <- <-] & Hle).
  pose proof Hch as (Heo & _ & _). pose proof (wf_start _ Hwf). pose proof (wf_end _ Hwf).
  split; [|split].
  - split; [|done]. split; unfold nbdkit_extents_count, MAX_EXTENTS; simpl; try (done || lia).
  - constructor; [|done]. simpl. rewrite Heo. split; [done|]. apply Z_mod_same_full.
  - simpl. eapply types_sound_shorten; [done|lia|done].
Qed.

Lemma wp_aligned_scan after before exts flags n err s c cs :
  s_ctx s = c :: cs -> primed c -> err_ok err -> 0 <= n <= 32 -> 2 ^ n <= UINT32_MAX ->
  clear flags NBDKIT_FLAG_REQ_ONE = 0 -> exts_wf exts -> x_extents exts = before ++ after ->
  x_start exts + 2 ^ n <= Z.min (x_end exts) (c_exportsize c) -> x_start exts mod 2 ^ n = 0 ->
  x_extents exts <> [] -> types_sound k P (x_extents exts) -> all_aligned (2 ^ n) before ->
  chain_end (x_start exts) before mod 2 ^ n = 0 ->
  wp (aligned_scan b before after (x_start exts) flags (2 ^ n) exts err)
    (fun '(r, err', exts') s' =>
      frame s s' /\ fails_with_errno r err' /\ (r <> -1 -> aligned_answer (2 ^ n) exts exts')) s.
Proof.
  intros Hs Hp Herr Hn Hmax Hfl Hwf Hx Hend Hst Hne Hsnd Hal Hce.
  pose proof (Z.pow_pos_nonneg 2 n ltac:(lia) (proj1 Hn)) as Hpos.
  revert before Hx Hal Hce. induction after as [|e after IH]; intros before Hx Hal Hce;
    cbn [aligned_scan].
  { apply wp_ret. split; [done|]. split; [auto with nbdkit|]. intros _.
    rewrite app_nil_r in Hx. split; [done|]. split; [by rewrite Hx|done]. }
  pose proof (wf_chain _ Hwf) as Hch. destruct (wf_filled _ Hwf Hne) as (_ & Hle & _).
  pose proof (wf_start _ Hwf). pose proof (wf_end _ Hwf).
  rewrite Hx in Hch, Hle. rewrite chain_end_app in Hle. simpl in Hle.
  apply chain_app in Hch as (Hchb & Hche). pose proof Hche as (Heo & Hel & Hcha).
  pose proof (chain_end_le _ _ Hchb). pose proof (chain_end_le _ _ Hcha).
  apply wp_bind, wp_IS_ALIGNED; [lia|].
  destruct (Z.eqb_spec (e_length e mod 2 ^ n) 0) as [Hea|Hea].
  { apply IH.
    - by rewrite <- app_assoc.
    - apply Forall_app. split; [done|]. constructor; [|done]. by rewrite Heo.
    - rewrite chain_end_app. simpl. by apply add_aligned. }
  pose proof (Z.mod_pos_bound (e_length e) (2 ^ n) Hpos) as Hmod.
  pose proof (Z.mod_le (e_length e) (2 ^ n) ltac:(lia) Hpos) as Hmle.
  rewrite !u64_small by (limits; lia).
  destruct (Z.ltb_spec (x_start exts + 2 ^ n) (e_offset e + e_length e)) as [Hlt|Hge].
  - apply wp_bind, wp_ROUND_DOWN; [lia|limits; lia|].
    apply wp_ret. split; [done|]. split; [auto with nbdkit|]. intros _. simpl.
    rewrite i64_small by lia. by apply (cut_answer _ _ _ _ after).
  - destruct before as [|e0 before].
    2: { pose proof (chain_end_lt _ _ Hchb ltac:(done)).
         pose proof (next_multiple (2 ^ n) _ _ Hpos Hst Hce ltac:(done)). lia. }
    apply wp_bind, wp_assert. split; [done|]. simpl in *. apply wp_bind.
    eapply wp_mono; [apply (wp_coalesce_loop _ _ _ _ _ _ _ _ c cs); try done; try (simpl; lia)|].
    { by rewrite <- Hx. }
    intros [[r err'] l'] s' (Hfr & He & Hm). destruct (Z.eqb_spec r (-1)) as [->|Hr].
    { by apply wp_ret. }
    pose proof (Hm Hr) as Hmg. pose proof Hmg as (Hchm & _ & e1 & rest & -> & _).
    apply wp_ret. split; [done|]. split; [split; [apply He|done]|]. intros _.
    rewrite i64_small by (destruct Hchm as (-> & _); lia). apply (merged_answer _ _ _ rest); (done || lia).
Qed.

(** [nbdkit_extents_aligned] gives filters what it says: asked for an
    aligned range of the layer below, with an alignment that is a power of
    two, it ends without failing an assertion, either with an error number
    or with a non-empty, well-formed list in which every extent starts and
    ends at a multiple of the alignment, whatever the extents of the layer
    below look like.  Merging and cutting extents never makes a promise
    about a byte that the layer below did not make. *)
Lemma extents_aligned_correct count offset flags align end_ err s c cs :
  s_ctx s = c :: cs -> primed c -> err_ok err -> clear flags NBDKIT_FLAG_REQ_ONE = 0 ->
  0 <= offset -> 0 <= count <= UINT32_MAX -> valid_range c offset count = true ->
  0 <= align <= UINT32_MAX -> is_power_of_2 align = true ->
  count mod align = 0 -> offset mod align = 0 -> offset + count <= end_ <= INT64_MAX ->
  wp (nbdkit_extents_aligned b count offset flags align (Extents [] offset end_ (-1)) err)
    (fun '(r, err', exts) s' =>
      frame s s' /\ fails_with_errno r err' /\
      (r <> -1 -> aligned_answer align (Extents [] offset end_ (-1)) exts)) s.
Proof.
  intros Hs Hp Herr Hfl Ho Hc Hv Ha Hpow Hca Hoa Hend. pose proof (pr_size _ Hp) as Hsize.
  destruct (valid_range_bounds c offset count Ho Hc (proj2 Hsize) Hv) as [Hpos Hexp].
  apply power_of_2 in Hpow as (n & Hn & ->); [|done].
  pose proof (Z.pow_pos_nonneg 2 n ltac:(lia) (proj1 Hn)) as Hap.
  pose proof (next_multiple (2 ^ n) 0 count Hap (Zmod_0_l _) Hca Hpos) as Hge.
  apply wp_bind, wp_IS_ALIGNED; [lia|]. apply wp_bind, wp_assert. split.
  { rewrite <- Z.land_ones, Z.land_lor_distr_l, !Z.land_ones by lia. by rewrite Hca, Hoa. }
  apply wp_bind. eapply wp_mono; [by apply (wp_query count offset flags err s c cs)|].
  intros [[r err'] x] s1 (Hfr & He & Hans). destruct (Z.eqb_spec r (-1)) as [->|Hr].
  { by apply wp_ret. }
  destruct (Hans Hr) as ((Hwf & Hxs & Hxe & Hne) & Hsnd). simpl in Hxs, Hxe.
  destruct (frame_ctx _ _ _ _ Hfr Hs) as [cs1 Hs1]. rewrite <- Hxs at 1.
  eapply wp_mono; [apply (wp_aligned_scan _ [] _ _ _ _ _ c cs1); try done;
    [apply He|rewrite ?Hxs, ?Hxe; (done || lia || by constructor)..]|].
  intros [[r' e'] x'] s' (Hfr' & He' & Hx'). split; [by etrans|]. split; [done|].
  intros Hr'. destruct (Hx' Hr') as ((Hwf' & Hs' & He2 & Hne') & Hal').
  split; [|done]. split; [done|]. simpl. split; [congruence|]. split; [congruence|done].
Qed.
End Properties.

(** The RAM disk promises nothing: all its bytes are allocated data. *)
Lemma ram_answers_sound size k : 0 <= k -> answers_sound k (fun _ => False) (ram_backend size).
Proof.
  intros Hk count offset flags exts err s r err' exts' s' Hnil Hrun Hr.
  assert (Hadd : types_sound k (fun _ => False)
    (x_extents (nbdkit_add_extent exts offset count 0).2)).
  { intros x t. unfold nbdkit_add_extent, add_or_extend. rewrite Hnil. simpl.
    repeat (case_match; simpl; rewrite ?Hnil; simpl; try done);
      intros [= <-]; by rewrite Z.bits_0. }
  revert Hrun. unfold backend_extents, mbind, M_bind.
  destruct (check_connected s) as [[c s1]|]; [|done]. unfold cassert.
  destruct (0 <=? _); [|done]. simpl.
  destruct (backend_valid_range offset count s1) as [[v s2]|]; [|done].
  destruct v; [|done]. simpl. destruct (_ =? 0); [|done]. simpl.
  destruct (nbdkit_add_extent exts offset count 0) as [r0 x0]. simpl in Hadd.
  destruct (c_can_extents c =? 0).
  - destruct r0; [intros [= <- <- <- <-]; done|]. by intros [= <- <- <- <-].
  - simpl. destruct (x_extents x0) eqn:E; [by intros [= <- _ _ _]|].
    intros [= _ _ <- _]. by rewrite E.
Qed.

Lemma extents_full_covers_witness :
  wp (nbdkit_extents_full (ram_backend 1048576) 4096 512 NBDKIT_FLAG_REQ_ONE 0) (fun '(o, err') s' =>
    frame (witness_state (fun _ => 0)) s' /\
    match o with
    | None => err' <> 0
    | Some exts =>
        exts_wf exts /\ x_start exts = 512 /\ x_end exts = 512 + 4096 /\
        types_sound 1 (fun _ => False) (x_extents exts) /\
        (nbdkit_extents_count exts < MAX_EXTENTS ->
         forall x, is_Some (type_at (x_extents exts) x) <-> 512 <= x < 512 + 4096)
    end) (witness_state (fun _ => 0)).
Proof.
  apply (extents_full_covers (ram_backend 1048576) 1 (fun _ => False)
    (ram_answers_sound 1048576 1 ltac:(lia)) 4096 512 NBDKIT_FLAG_REQ_ONE 0
    (witness_state (fun _ => 0)) witness_context []);
    [reflexivity|apply witness_primed|apply err_ok_0|reflexivity|lia|
     unfold UINT32_MAX; lia|reflexivity].
Defined.

Lemma extents_aligned_correct_witness :
  wp (nbdkit_extents_aligned (ram_backend 1048576) 4096 512 0 512 (Extents [] 512 4608 (-1)) 0)
    (fun '(r, err', exts) s' =>
      frame (witness_state (fun _ => 0)) s' /\ fails_with_errno r err' /\
      (r <> -1 -> aligned_answer 1 (fun _ => False) 512 (Extents [] 512 4608 (-1)) exts))
    (witness_state (fun _ => 0)).
Proof.
  apply (extents_aligned_correct (ram_backend 1048576) 1 (fun _ => False)
    (ram_answers_sound 1048576 1 ltac:(lia)) 4096 512 0 512 4608 0
    (witness_state (fun _ => 0)) witness_context []);
    [reflexivity|apply witness_primed|apply err_ok_0|reflexivity|lia|
     unfold UINT32_MAX; lia|reflexivity|unfold UINT32_MAX; lia|reflexivity|reflexivity|
     reflexivity|unfold INT64_MAX; lia].
Defined.
