(* ===== verification/Locks.v ===== *)
(** * Locks and threads

    Models [server/locks.c] and the locks of a connection ([read_lock],
    [write_lock], [status_lock]) with the threads that use them: connections
    and their workers ([server/connections.c]), receiving a request and
    sending its reply ([server/protocol.c]), the handshake and request
    sections with what a callback may do to the connection
    ([nbdkit_disconnect], [nbdkit_nanosleep] in [server/public.c]), unloading
    ([server/backend.c]) and the handshake timeout ([server/timeout.c]).  A
    thread is the sequence of its lock operations; what it does in between is
    marked by [Begin] and [End_].  The threads run interleaved, one operation
    at a time.  It is the program as compiled where [pipe2] and [accept4]
    exist; the mutex around the count of connections in [sockets.c], which no
    other lock is taken under, and locks inside of plugins and filters are
    not included. *)

From S2P Require Import Prelude NbdProtocol.

(** ** Operations *)

Inductive mutex : Type :=
| connection_lock
| all_requests_lock
| request_lock (conn : nat)
| read_lock (conn : nat)
| write_lock (conn : nat)
| status_lock (conn : nat).

(** A mutex, or [unload_prevention_lock] for reading or writing. *)
Inductive lock : Type :=
| Mutex (m : mutex)
| Rd
| Wr.

(** What a thread can be in the middle of: [Receiving] a request from the
    client, [Sending] to it or closing the socket for sending. *)
Inductive activity : Type :=
| Connection (conn : nat)
| Request (conn : option nat)
| Receiving (conn : nat)
| Sending (conn : nat)
| Unload
| Timeout (conn : nat).

(** The creation and the end of worker [w] of a connection. *)
Inductive event : Type :=
| Started (conn w : nat)
| Finished (conn w : nat).

Inductive instr : Type :=
| Acquire (l : lock)
| Release (l : lock)
| Begin (a : activity)
| End_ (a : activity)
| Post (e : event)
| Await (e : event).

#[global] Instance mutex_eq_dec : EqDecision mutex.
Proof. solve_decision. Defined.
#[global] Instance lock_eq_dec : EqDecision lock.
Proof. solve_decision. Defined.
#[global] Instance activity_eq_dec : EqDecision activity.
Proof. solve_decision. Defined.
#[global] Instance event_eq_dec : EqDecision event.
Proof. solve_decision. Defined.

Section Model.
Context (thread_model : Z).

Definition lock_connection : list instr :=
  if thread_model <=? NBDKIT_THREAD_MODEL_SERIALIZE_CONNECTIONS
  then [Acquire (Mutex connection_lock)] else [].

Definition unlock_connection : list instr :=
  if thread_model <=? NBDKIT_THREAD_MODEL_SERIALIZE_CONNECTIONS
  then [Release (Mutex connection_lock)] else [].

(** [conn] is what [threadlocal_get_conn] returns. *)
Definition lock_request (conn : option nat) : list instr :=
  (if thread_model <=? NBDKIT_THREAD_MODEL_SERIALIZE_ALL_REQUESTS
   then [Acquire (Mutex all_requests_lock)] else []) ++
  (match conn with
   | Some c => if thread_model <=? NBDKIT_THREAD_MODEL_SERIALIZE_REQUESTS
               then [Acquire (Mutex (request_lock c))] else []
   | None => []
   end) ++
  [Acquire Rd].

Definition unlock_request (conn : option nat) : list instr :=
  [Release Rd] ++
  (match conn with
   | Some c => if thread_model <=? NBDKIT_THREAD_MODEL_SERIALIZE_REQUESTS
               then [Release (Mutex (request_lock c))] else []
   | None => []
   end) ++
  (if thread_model <=? NBDKIT_THREAD_MODEL_SERIALIZE_ALL_REQUESTS
   then [Release (Mutex all_requests_lock)] else []).

Definition lock_unload : list instr := [Acquire Wr].
Definition unlock_unload : list instr := [Release Wr].

(** ** The threads *)

(** The status of a connection is locked only if it has workers
    ([conn->nworkers]). *)
Definition get_status_locks (workers : bool) (c : nat) : list instr :=
  if workers then [Acquire (Mutex (status_lock c)); Release (Mutex (status_lock c))] else [].

Definition set_status_locks (workers : bool) (c : nat) : list instr :=
  if workers then [Acquire (Mutex (status_lock c)); Release (Mutex (status_lock c))] else [].

(** [conn->close (SHUT_WR)] under the write lock. *)
Definition close_write (c : nat) : list instr :=
  [Acquire (Mutex (write_lock c)); Begin (Sending c); End_ (Sending c); Release (Mutex (write_lock c))].

(** What a callback may do to the connection: [nbdkit_nanosleep] looks at the
    status, [nbdkit_disconnect] lowers it and, when that says so, closes the
    socket. *)
Inductive callback_call : Type :=
| calls_nanosleep
| calls_disconnect (closes : bool).

Definition callback_locks (workers : bool) (c : nat) (call : callback_call) : list instr :=
  match call with
  | calls_nanosleep => get_status_locks workers c
  | calls_disconnect closes => set_status_locks workers c ++ (if closes then close_write c else [])
  end.

(** Without a connection these calls do nothing. *)
Definition callbacks (workers : bool) (conn : option nat) (calls : list callback_call) : list instr :=
  match conn with
  | Some c => concat (callback_locks workers c <$> calls)
  | None => []
  end.

(** Calls into the layers with the request lock: [protocol_handshake],
    [handle_request], [backend_finalize] and [backend_close] are made in this
    way. *)
Definition request_section (workers : bool) (conn : option nat) (calls : list callback_call) : list instr :=
  lock_request conn ++ [Begin (Request conn)] ++ callbacks workers conn calls ++ [End_ (Request conn)] ++
  unlock_request conn.

(** How receiving a request ends: the connection is closing, or receiving
    failed or the client is done (which lowers the status), or there is a
    reply, without calling the layers or after calling them. *)
Inductive receipt : Type :=
| rc_closing
| rc_ended
| rc_refused
| rc_performed (calls : list callback_call).

(** [rr_reply]: whether there is a reply (not when the status says that nobody
    waits for it), and whether sending it fails.  [rr_shutdown]: the result of
    the function, by which the caller closes the socket. *)
Record request_run : Type := RequestRun {
  rr_receipt : receipt;
  rr_reply : option bool;
  rr_shutdown : bool;
}.

(** The four functions that send a reply. *)
Definition send_reply_locks (workers : bool) (c : nat) (failed : bool) : list instr :=
  [Acquire (Mutex (write_lock c)); Begin (Sending c)] ++
  (if failed then set_status_locks workers c else []) ++
  [End_ (Sending c); Release (Mutex (write_lock c))].

Definition reply_locks (workers : bool) (c : nat) (run : request_run) : list instr :=
  get_status_locks workers c ++
  match rr_reply run with
  | Some failed => send_reply_locks workers c failed
  | None => []
  end.

Definition recv_request_send_reply_locks (workers : bool) (c : nat) (run : request_run) : list instr :=
  ([Acquire (Mutex (read_lock c)); Begin (Receiving c)] ++
   get_status_locks workers c ++
   (match rr_receipt run with rc_ended => set_status_locks workers c | _ => [] end) ++
   [End_ (Receiving c); Release (Mutex (read_lock c))]) ++
  match rr_receipt run with
  | rc_closing | rc_ended => []
  | rc_refused => reply_locks workers c run
  | rc_performed calls => request_section workers (Some c) calls ++ reply_locks workers c run
  end.

(** A loop that handles requests.  It ends when [quit] is set or, otherwise,
    by the status.  Only a worker takes the write lock to close the socket. *)
Record worker_run : Type := WorkerRun {
  wr_requests : list request_run;
  wr_quit : bool;
}.

Definition requests (workers : bool) (c : nat) (run : worker_run) : list instr :=
  concat ((fun r => get_status_locks workers c ++ recv_request_send_reply_locks workers c r ++
                    (if (rr_shutdown r && workers)%bool then close_write c else [])) <$> wr_requests run) ++
  (if wr_quit run then [] else get_status_locks workers c).

(** Worker [w] of connection [c]. *)
Definition connection_worker (c w : nat) (run : worker_run) : list instr :=
  [Await (Started c w)] ++ requests true c run ++ [Post (Finished c w)].

(** What happens to a connection: whether [top] is still there, whether
    [new_connection], [preconnect] with [start_timeout], and the handshake
    succeed, whether the array of workers is allocated, what each worker does
    (the workers that could be created), whether creating a worker failed, what
    the callbacks do to the connection ([preconnect], in the handshake, at its
    end and when it is freed), and whether [quit] is set when the connection is
    freed. *)
Record connection_run : Type := ConnectionRun {
  run_top : bool;
  run_new : bool;
  run_preconnect : bool;
  run_handshake : bool;
  run_workers : bool;
  run_requests : list worker_run;
  run_failed : bool;
  run_preconnect_calls : list callback_call;
  run_handshake_calls : list callback_call;
  run_finalize_calls : list callback_call;
  run_close_calls : list callback_call;
  run_quit : bool;
}.

Definition free_connection_locks (workers : bool) (c : nat) (run : connection_run) : list instr :=
  if run_quit run then [] else request_section workers (Some c) (run_close_calls run).

Definition DEFAULT_PARALLEL_REQUESTS : Z := 16.

(** Whether the connection has workers; [threads] is the [--threads] option. *)
Definition nworkers (threads : Z) : bool :=
  negb ((thread_model <? NBDKIT_THREAD_MODEL_PARALLEL) ||
        ((if threads =? 0 then DEFAULT_PARALLEL_REQUESTS else threads) =? 1))%bool.

Definition serve_requests (threads : Z) (c : nat) (run : connection_run) : list instr :=
  if nworkers threads then
    ((fun w => Post (Started c w)) <$> seq 0 (length (run_requests run))) ++
    (if run_failed run then set_status_locks true c else []) ++
    ((fun w => Await (Finished c w)) <$> reverse (seq 0 (length (run_requests run))))
  else concat (requests false c <$> run_requests run).

Definition handle_single_connection_locks (threads : Z) (c : nat) (run : connection_run)
    : list instr :=
  let workers := nworkers threads in
  lock_connection ++ [Begin (Connection c)] ++
  (if (run_top run && run_new run)%bool then
     callbacks workers (Some c) (run_preconnect_calls run) ++
     (if run_preconnect run then
        request_section workers (Some c) (run_handshake_calls run) ++
        (if (run_handshake run && (negb workers || run_workers run))%bool
         then serve_requests threads c run ++ request_section workers (Some c) (run_finalize_calls run)
         else [])
      else []) ++
     free_connection_locks workers c run
   else []) ++
  [End_ (Connection c)] ++ unlock_connection.

(** A connection with the workers it creates. *)
Definition connection_threads (threads : Z) (c : nat) (run : connection_run) : list (list instr) :=
  handle_single_connection_locks threads c run ::
  (if (run_top run && run_new run && run_preconnect run && run_handshake run &&
       (nworkers threads && run_workers run))%bool
   then imap (connection_worker c) (run_requests run) else []).

Definition connection_timeout (c : nat) : list instr :=
  lock_connection ++ [Begin (Timeout c); End_ (Timeout c)] ++ unlock_connection.

Definition backend_unload : list instr :=
  lock_unload ++ [Begin Unload; End_ Unload] ++ unlock_unload.

(** The whole server: its connections, the timeouts that have expired, and
    the thread that unloads [layers] layers. *)
Definition server_threads (threads : Z) (runs : list connection_run) (timeouts : list nat)
    (layers : nat) : list (list instr) :=
  concat (imap (connection_threads threads) runs) ++
  (connection_timeout <$> timeouts) ++
  [concat (replicate layers backend_unload)].

(** ** Interleaved execution *)

Record thread : Type := Thread {
  t_prog : list instr;
  t_held : list lock;
  t_acts : list activity;
}.

Record state : Type := State {
  s_threads : list thread;
  s_events : list event;
}.

Definition holds (l : lock) (t : thread) : bool := bool_decide (l ∈ t_held t).

(** Whether the implementation lets waiting writers go first is open. *)
Context (prefer_writers : bool).

Definition waits_for_writing (t : thread) : bool :=
  match t_prog t with Acquire Wr :: _ => true | _ => false end.

Definition available (s : state) (l : lock) : bool :=
  match l with
  | Mutex m => negb (existsb (holds (Mutex m)) (s_threads s))
  | Wr => negb (existsb (fun t => holds Rd t || holds Wr t) (s_threads s))
  | Rd => negb (existsb (holds Wr) (s_threads s)) &&
          negb (prefer_writers && existsb waits_for_writing (s_threads s))
  end.

(** The outcome of one operation of a thread: it has finished or waits,
    the server calls [abort ()], or it goes on. *)
Inductive outcome : Type :=
| Blocked
| Aborts
| Continues (t : thread) (events : list event).

Definition step_thread (s : state) (t : thread) : outcome :=
  match t_prog t with
  | [] => Blocked
  | Acquire l :: p =>
      if available s l then Continues (Thread p (l :: t_held t) (t_acts t)) (s_events s) else Blocked
  | Release l :: p =>
      if holds l t
      then Continues (Thread p (filter (fun l' => l' <> l) (t_held t)) (t_acts t)) (s_events s)
      else Aborts
  | Begin a :: p => Continues (Thread p (t_held t) (a :: t_acts t)) (s_events s)
  | End_ a :: p =>
      Continues (Thread p (t_held t) (filter (fun a' => a' <> a) (t_acts t))) (s_events s)
  | Post e :: p => Continues (Thread p (t_held t) (t_acts t)) (e :: s_events s)
  | Await e :: p =>
      if bool_decide (e ∈ s_events s) then Continues (Thread p (t_held t) (t_acts t)) (s_events s)
      else Blocked
  end.

(** Thread number [i] makes a step. *)
Inductive step : state -> state -> Prop :=
| Step i t t' events s :
    s_threads s !! i = Some t -> step_thread s t = Continues t' events ->
    step s (State (<[i := t']> (s_threads s)) events).

Definition aborts (s : state) : Prop :=
  exists i t, s_threads s !! i = Some t /\ step_thread s t = Aborts.

Definition start (progs : list (list instr)) : state :=
  State ((fun p => Thread p [] []) <$> progs) [].

Definition finished (s : state) : Prop :=
  Forall (fun t => t_prog t = [] /\ t_held t = [] /\ t_acts t = []) (s_threads s).

(** Some thread is in the middle of [a]. *)
Definition active (s : state) (i : nat) (a : activity) : Prop :=
  exists t, s_threads s !! i = Some t /\ a ∈ t_acts t.

(** ** The discipline

    Locks are taken in the order of their rank (for the locks of a connection,
    the precedence that [struct connection] documents) and released in the
    reverse order, an activity is entered with the locks it needs, and a thread that
    waits for an event holds nothing. *)

Definition rank (l : lock) : nat :=
  match l with
  | Mutex connection_lock => 0
  | Mutex all_requests_lock => 1
  | Mutex (request_lock _) => 2
  | Rd | Wr => 3
  | Mutex (read_lock _) => 4
  | Mutex (write_lock _) => 5
  | Mutex (status_lock _) => 6
  end.

Definition required (a : activity) : list lock :=
  match a with
  | Connection _ | Timeout _ =>
      if thread_model <=? NBDKIT_THREAD_MODEL_SERIALIZE_CONNECTIONS then [Mutex connection_lock] else []
  | Request conn =>
      (if thread_model <=? NBDKIT_THREAD_MODEL_SERIALIZE_ALL_REQUESTS
       then [Mutex all_requests_lock] else []) ++
      (match conn with
       | Some c => if thread_model <=? NBDKIT_THREAD_MODEL_SERIALIZE_REQUESTS
                   then [Mutex (request_lock c)] else []
       | None => []
       end) ++ [Rd]
  | Receiving c => [Mutex (read_lock c)]
  | Sending c => [Mutex (write_lock c)]
  | Unload => [Wr]
  end.

(** The locks held and the activities after an operation. *)
Definition track1 (st : list lock * list activity) (i : instr) : option (list lock * list activity) :=
  let '(held, acts) := st in
  match i with
  | Acquire l => if forallb (fun l' => rank l' <? rank l)%nat held then Some (l :: held, acts) else None
  | Release l =>
      match held with
      | l' :: held' =>
          if (bool_decide (l' = l) && forallb (fun a => bool_decide (l ∉ required a)) acts)%bool
          then Some (held', acts) else None
      | [] => None
      end
  | Begin a =>
      if (forallb (fun l => bool_decide (l ∈ held)) (required a) && bool_decide (a ∉ acts))%bool
      then Some (held, a :: acts) else None
  | End_ a =>
      match acts with
      | a' :: acts' => if bool_decide (a' = a) then Some (held, acts') else None
      | [] => None
      end
  | Post _ => Some st
  | Await _ => match held with [] => Some st | _ => None end
  end.

Fixpoint track (st : list lock * list activity) (p : list instr) : option (list lock * list activity) :=
  match p with
  | [] => Some st
  | i :: p => st' ← track1 st i; track st' p
  end.

Lemma track_app st p1 p2 : track st (p1 ++ p2) = st' ← track st p1; track st' p2.
Proof.
  revert st. induction p1 as [|i p1 IH]; intros st; [done|]. simpl.
  destruct (track1 st i); simpl; [apply IH|done].
Qed.

Lemma track_then st st1 p1 p2 : track st p1 = Some st1 -> track st (p1 ++ p2) = track st1 p2.
Proof. intros H. by rewrite track_app, H. Qed.

(** A section that leaves the locks and activities as it found them. *)
Definition balanced (st : list lock * list activity) (p : list instr) : Prop := track st p = Some st.

Lemma balanced_app st p1 p2 : balanced st p1 -> balanced st p2 -> balanced st (p1 ++ p2).
Proof. unfold balanced. intros H1 H2. by rewrite track_app, H1. Qed.

Lemma balanced_concat st ps : Forall (balanced st) ps -> balanced st (concat ps).
Proof. induction 1; [done|]. simpl. by apply balanced_app. Qed.

(** Where the events are in a program: nothing that is awaited comes before
    the event that makes others wait for it. *)
Definition level (e : event) : nat := match e with Started _ _ => 0 | Finished _ _ => 1 end.

Fixpoint ordered (p : list instr) : Prop :=
  match p with
  | [] => True
  | Await e :: p => (forall e', Post e' ∈ p -> (level e < level e')%nat) /\ ordered p
  | _ :: p => ordered p
  end.

Record thread_ok (t : thread) : Prop := {
  ok_track : track (t_held t, t_acts t) (t_prog t) = Some ([], []);
  ok_held : NoDup (t_held t);
  ok_acts : NoDup (t_acts t);
  ok_required : forall a l, a ∈ t_acts t -> l ∈ required a -> l ∈ t_held t;
  ok_ordered : ordered (t_prog t);
}.

Definition compatible (l l' : lock) : bool :=
  match l, l' with
  | Mutex m, Mutex m' => negb (bool_decide (m = m'))
  | Rd, Wr | Wr, Rd | Wr, Wr => false
  | _, _ => true
  end.

Record inv (s : state) : Prop := {
  inv_threads : forall i t, s_threads s !! i = Some t -> thread_ok t;
  inv_exclusive : forall i j t t' l l', i <> j ->
    s_threads s !! i = Some t -> s_threads s !! j = Some t' ->
    l ∈ t_held t -> l' ∈ t_held t' -> compatible l l' = true;
  inv_events : forall i t e, s_threads s !! i = Some t -> Await e ∈ t_prog t ->
    e ∈ s_events s \/ exists j t', s_threads s !! j = Some t' /\ Post e ∈ t_prog t';
}.

(** ** Preservation *)

Lemma forallb_bool_decide {A} (P : A -> Prop) `{!forall x, Decision (P x)} (l : list A) :
  forallb (fun x => bool_decide (P x)) l = true <-> forall x, x ∈ l -> P x.
Proof.
  rewrite forallb_forall. setoid_rewrite <- list_elem_of_In. setoid_rewrite bool_decide_eq_true. done.
Qed.

Lemma compatible_sym l l' : compatible l l' = compatible l' l.
Proof.
  destruct l, l'; simpl; try done. f_equal.
  by apply bool_decide_ext.
Qed.

Lemma available_compatible s l i t l' :
  available s l = true -> s_threads s !! i = Some t -> l' ∈ t_held t -> compatible l l' = true.
Proof.
  intros Ha Hi Hl'. apply list_elem_of_lookup_2, list_elem_of_In in Hi.
  assert (Hno : forall f, negb (existsb f (s_threads s)) = true -> f t = false).
  { intros f Hf. apply negb_true_iff in Hf. destruct (f t) eqn:E; [|done].
    assert (existsb f (s_threads s) = true) by (apply existsb_exists; eauto). congruence. }
  assert (Hh : holds l' t = true) by (by apply bool_decide_eq_true).
  destruct l as [m| |]; simpl in Ha.
  - apply Hno in Ha. destruct l' as [m'| |]; simpl; try done.
    apply negb_true_iff, bool_decide_eq_false. intros ->. congruence.
  - apply andb_true_iff in Ha as [Ha _]. apply Hno in Ha. destruct l'; simpl; try done. congruence.
  - apply Hno in Ha. apply orb_false_iff in Ha as [H1 H2]. destruct l'; simpl; try done; congruence.
Qed.

Lemma filter_top {A} `{EqDecision A} (x : A) l :
  NoDup (x :: l) -> filter (fun y => y <> x) (x :: l) = l.
Proof.
  intros [Hx Hl]%NoDup_cons. rewrite filter_cons_False by (intros H; by apply H).
  clear Hl. induction l as [|y l IH]; [done|]. apply not_elem_of_cons in Hx as [Hy Hx].
  rewrite filter_cons_True by done. f_equal. auto.
Qed.

Lemma ordered_tail i p : ordered (i :: p) -> ordered p.
Proof. destruct i; simpl; tauto. Qed.

(** What a thread's own step does to it. *)
Lemma step_thread_ok s t :
  thread_ok t -> step_thread s t <> Aborts /\
  forall t' events, step_thread s t = Continues t' events ->
    thread_ok t' /\
    (forall l, l ∈ t_held t' -> l ∈ t_held t \/ available s l = true) /\
    (exists i, t_prog t = i :: t_prog t' /\
       (forall e, i = Post e -> e ∈ events) /\ (forall e, e ∈ s_events s -> e ∈ events) /\
       (forall e, i = Await e -> e ∈ s_events s)).
Proof.
  intros [Htr Hh Ha Hreq Hord]. unfold step_thread.
  destruct t as [[|i p] held acts]; cbn [t_prog t_held t_acts track] in *; [by split|].
  pose proof (ordered_tail _ _ Hord) as Hord'.
  destruct (track1 (held, acts) i) as [[held' acts']|] eqn:E; simpl in Htr; [|done].
  destruct i as [l|l|a|a|e|e]; simpl in E.
  - destruct (forallb _ held) eqn:Hr; simplify_eq. destruct (available s l) eqn:Hav; [|by split].
    split; [done|]. intros t' events [= <- <-]. rewrite forallb_forall in Hr.
    split; [split; simpl; try done|split].
    + apply NoDup_cons. split; [|done]. intros Hin%list_elem_of_In%Hr. apply Nat.ltb_lt in Hin. lia.
    + intros a l' H1 H2. right. eauto.
    + simpl. intros l' [->|?]%elem_of_cons; auto.
    + exists (Acquire l). naive_solver.
  - destruct held as [|l' held]; [done|].
    destruct (bool_decide (l' = l)) eqn:Hl; [|done]. apply bool_decide_eq_true in Hl as ->. simpl in E.
    destruct (forallb _ acts) eqn:Hn; simplify_eq. rewrite forallb_bool_decide in Hn.
    unfold holds. simpl. rewrite bool_decide_eq_true_2 by left. split; [done|].
    intros t' events [= <- <-]. rewrite filter_top by done.
    split; [split; simpl; try done|split].
    + by apply NoDup_cons in Hh as [_ ?].
    + intros a l' H1 H2. specialize (Hreq a l' H1 H2). apply elem_of_cons in Hreq as [->|?]; [|done].
      by apply Hn in H1.
    + simpl. intros l' ?. left. by right.
    + exists (Release l). naive_solver.
  - destruct (_ && _)%bool eqn:Hb; simplify_eq. apply andb_true_iff in Hb as [H1 H2].
    rewrite forallb_bool_decide in H1. apply bool_decide_eq_true in H2.
    split; [done|]. intros t' events [= <- <-].
    split; [split; simpl; try done|split; [naive_solver|exists (Begin a); naive_solver]].
    + by apply NoDup_cons.
    + intros a' l [-> |?]%elem_of_cons; eauto.
  - destruct acts as [|a' acts]; [done|].
    destruct (bool_decide (a' = a)) eqn:Hl; [|done]. apply bool_decide_eq_true in Hl as ->. simplify_eq.
    split; [done|]. intros t' events [= <- <-]. rewrite filter_top by done.
    split; [split; simpl; try done|split; [naive_solver|exists (End_ a); naive_solver]].
    + by apply NoDup_cons in Ha as [_ ?].
    + intros a' l H1 H2. apply (Hreq a' l); [by right|done].
  - simplify_eq. split; [done|]. intros t' events [= <- <-].
    split; [split; simpl; done|split; [naive_solver|]].
    exists (Post e). repeat split; [intros e' [= ->]; left|intros; by right|done].
  - destruct held; simplify_eq. case_bool_decide; [|by split]. split; [done|].
    intros t' events [= <- <-]. split; [split; simpl; done|split; [naive_solver|]].
    exists (Await e). naive_solver.
Qed.

Lemma inv_step s s' : inv s -> step s s' -> inv s'.
Proof.
  intros [Hok Hex Hev] Hstep. destruct Hstep as [i t t' events s Hi Hst].
  destruct (step_thread_ok s t (Hok i t Hi)) as [_ H].
  destruct (H _ _ Hst) as (Hok' & Hheld & (ins & Hprog & Hpost & Hkeep & _)). clear H.
  assert (Hlen : (i < length (s_threads s))%nat) by (by eapply lookup_lt_Some).
  assert (Hcomp : forall j u l l', i <> j -> s_threads s !! j = Some u ->
    l ∈ t_held t' -> l' ∈ t_held u -> compatible l l' = true).
  { intros j u l l' Hij Hj Hl Hl'. destruct (Hheld l Hl) as [?|Hav].
    - by apply (Hex i j t u l l').
    - by eapply available_compatible. }
  split; simpl.
  - intros j u. rewrite list_lookup_insert_Some. naive_solver.
  - intros j k u v l l' Hjk. rewrite !list_lookup_insert_Some.
    intros [(-> & <- & _)|[Hne Hj]] [(-> & <- & _)|[Hne' Hk]] Hl Hl'; [done|by eapply (Hcomp k)| |].
    + rewrite compatible_sym. by eapply (Hcomp j).
    + by eapply (Hex j k).
  - intros j u e. rewrite list_lookup_insert_Some. intros Hj He.
    assert (exists j u, s_threads s !! j = Some u /\ Await e ∈ t_prog u) as (j' & u' & Hj' & He').
    { destruct Hj as [(-> & <- & _)|[_ Hj]]; [|eauto]. exists j, t. split; [done|]. rewrite Hprog. by right. }
    destruct (Hev j' u' e Hj' He') as [?|(k & v & Hk & Hp)]; [left; auto|].
    destruct (decide (k = i)) as [->|Hne].
    + rewrite Hi in Hk. simplify_eq. rewrite Hprog in Hp. apply elem_of_cons in Hp as [<-|Hp]; [left; auto|].
      right. exists i, t'. split; [|done]. apply list_lookup_insert_eq. lia.
    + right. exists k, v. split; [|done]. by rewrite list_lookup_insert_ne.
Qed.

(** ** Progress *)

Lemma blocked_cases s t :
  thread_ok t -> step_thread s t = Blocked ->
  (t_prog t = [] /\ t_held t = [] /\ t_acts t = []) \/
  (exists l p, t_prog t = Acquire l :: p /\ available s l = false /\
     forall l', l' ∈ t_held t -> (rank l' < rank l)%nat) \/
  (exists e p, t_prog t = Await e :: p /\ t_held t = [] /\ e ∉ s_events s).
Proof.
  intros Hok Hb. destruct Hok as [Htr _ _ _ _]. unfold step_thread in Hb.
  destruct t as [[|[l|l|a|a|e|e] p] held acts]; cbn [t_prog t_held t_acts] in *; simpl in Htr; try done.
  - left. by simplify_eq.
  - right; left. destruct (available s l) eqn:Hav; [done|]. exists l, p. do 2 (split; [done|]).
    intros l' Hl'. destruct (forallb _ held) eqn:Hr; [|done]. rewrite forallb_forall in Hr.
    apply list_elem_of_In, Hr, Nat.ltb_lt in Hl'. done.
  - by destruct (holds _ _).
  - right; right. case_bool_decide as He; [done|]. destruct held; [|done]. by exists e, p.
Qed.

Lemma existsb_lookup {A} (f : A -> bool) l :
  existsb f l = true -> exists i x, l !! i = Some x /\ f x = true.
Proof.
  intros (x & Hx & Hf)%existsb_exists. apply list_elem_of_In, list_elem_of_lookup_1 in Hx as [i Hi]. eauto.
Qed.

Lemma unavailable_held s l :
  available s l = false ->
  (exists j t l', s_threads s !! j = Some t /\ l' ∈ t_held t /\ rank l' = rank l) \/
  (l = Rd /\ exists j t p, s_threads s !! j = Some t /\ t_prog t = Acquire Wr :: p).
Proof.
  unfold available. destruct l as [m| |]; intros Hav.
  - apply negb_false_iff, existsb_lookup in Hav as (j & t & Hj & Hh%bool_decide_eq_true). left; eauto 6.
  - apply andb_false_iff in Hav as [Hav|Hav]; apply negb_false_iff in Hav.
    + apply existsb_lookup in Hav as (j & t & Hj & Hh%bool_decide_eq_true). left. by exists j, t, Wr.
    + apply andb_true_iff in Hav as [_ (j & t & Hj & Hw)%existsb_lookup]. right. split; [done|].
      unfold waits_for_writing in Hw. exists j, t. destruct (t_prog t) as [|[[]| | | | |] p]; try done. eauto.
  - apply negb_false_iff, existsb_lookup in Hav as (j & t & Hj & Hh). left.
    apply orb_true_iff in Hh as [Hh|Hh]; apply bool_decide_eq_true in Hh.
    + by exists j, t, Rd.
    + by exists j, t, Wr.
Qed.

Section Stuck.
Context (s : state).
Context (Hinv : inv s).
Context (Hstuck : forall i t, s_threads s !! i = Some t -> step_thread s t = Blocked).

(** A thread that holds a lock waits for a lock of higher rank. *)
Lemma holder_waits i t l :
  s_threads s !! i = Some t -> l ∈ t_held t ->
  exists l' p, t_prog t = Acquire l' :: p /\ available s l' = false /\ (rank l < rank l')%nat.
Proof.
  intros Hi Hl. destruct (blocked_cases s t (inv_threads s Hinv i t Hi) (Hstuck i t Hi))
    as [(_ & Hh & _)|[(l' & p & Hp & Hav & Hr)|(e & p & _ & Hh & _)]].
  - rewrite Hh in Hl. by apply not_elem_of_nil in Hl.
  - exists l', p. auto.
  - rewrite Hh in Hl. by apply not_elem_of_nil in Hl.
Qed.

(** A lock that is not available is held, also where readers wait for a
    writer that waits. *)
Lemma stuck_holder l :
  available s l = false ->
  exists j t l', s_threads s !! j = Some t /\ l' ∈ t_held t /\ rank l' = rank l.
Proof.
  intros Hav. destruct (unavailable_held s l Hav) as [?|[-> (j & u & q & Hj & Hq)]]; [done|].
  destruct (blocked_cases s u (inv_threads s Hinv j u Hj) (Hstuck j u Hj))
    as [(H & _)|[(l' & q' & H & Hav' & _)|(e & q' & H & _)]]; rewrite Hq in H; simplify_eq.
  by destruct (unavailable_held s Wr Hav') as [?|[? _]].
Qed.

Lemma stuck_no_acquire n : forall i t l p,
  s_threads s !! i = Some t -> t_prog t = Acquire l :: p -> (6 - rank l < n)%nat ->
  available s l = true.
Proof.
  induction n as [|n IH]; intros i t l p Hi Hp Hn; [lia|].
  apply not_false_iff_true. intros Hav.
  destruct (stuck_holder l Hav) as (j & u & l' & Hj & Hl' & Hr).
  destruct (holder_waits j u l' Hj Hl') as (l2 & p2 & Hp2 & Hav2 & Hr2).
  assert (rank l2 <= 6)%nat by (destruct l2 as [[]| |]; simpl; lia).
  rewrite (IH j u l2 p2) in Hav2; [done|done|done|lia].
Qed.

Lemma stuck_no_await n : forall i t e p,
  s_threads s !! i = Some t -> t_prog t = Await e :: p -> (level e < n)%nat -> e ∈ s_events s.
Proof.
  induction n as [|n IH]; intros i t e p Hi Hp Hn; [lia|].
  destruct (inv_events s Hinv i t e Hi) as [?|(j & u & Hj & Hpost)]; [rewrite Hp; left|done|].
  pose proof (inv_threads s Hinv j u Hj) as Hok.
  destruct (blocked_cases s u Hok (Hstuck j u Hj))
    as [(Hn' & _)|[(l & q & Hq & Hav & _)|(e' & q & Hq & _ & Hne)]].
  - rewrite Hn' in Hpost. by apply not_elem_of_nil in Hpost.
  - rewrite (stuck_no_acquire 7 j u l q) in Hav; [done|done|done|lia].
  - destruct Hne. apply (IH j u e' q Hj Hq). pose proof (ok_ordered u Hok) as Hord.
    rewrite Hq in Hord, Hpost. apply elem_of_cons in Hpost as [?|Hpost]; [done|].
    destruct Hord as [Hord _]. specialize (Hord e Hpost). lia.
Qed.

Lemma stuck_finished : finished s.
Proof.
  apply Forall_lookup. intros i t Hi.
  destruct (blocked_cases s t (inv_threads s Hinv i t Hi) (Hstuck i t Hi))
    as [?|[(l & q & Hq & Hav & _)|(e & q & Hq & _ & Hne)]]; [done| |].
  - rewrite (stuck_no_acquire 7 i t l q) in Hav; [done|done|done|lia].
  - destruct Hne. by apply (stuck_no_await 2 i t e q); [| |destruct e; simpl; lia].
Qed.
End Stuck.

Definition continues (o : outcome) : bool := match o with Continues _ _ => true | _ => false end.

Lemma progress s : inv s -> finished s \/ exists s', step s s'.
Proof.
  intros Hinv. destruct (existsb (fun t => continues (step_thread s t)) (s_threads s)) eqn:Hex.
  - right. apply existsb_lookup in Hex as (i & t & Hi & Ht).
    destruct (step_thread s t) as [| |t' events] eqn:E; [done|done|]. eexists. by econstructor.
  - left. apply stuck_finished; [done|]. intros i t Hi.
    destruct (step_thread s t) as [| |t' events] eqn:E; [done| |].
    + by destruct (step_thread_ok s t (inv_threads s Hinv i t Hi)).
    + apply not_true_iff_false in Hex. destruct Hex. apply existsb_exists. exists t.
      split; [by eapply list_elem_of_In, list_elem_of_lookup_2|]. by rewrite E.
Qed.

(** Every step consumes an operation. *)
Definition remaining (s : state) : nat := sum_list_with (fun t => length (t_prog t)) (s_threads s).

Lemma sum_list_with_insert {A} (f : A -> nat) l i x y :
  l !! i = Some x -> (sum_list_with f (<[i := y]> l) + f x = sum_list_with f l + f y)%nat.
Proof.
  revert i. induction l as [|z l IH]; intros [|i]; simpl; intros H; simplify_eq; [lia|].
  apply IH in H. lia.
Qed.

Lemma step_remaining s s' : inv s -> step s s' -> (remaining s = Datatypes.S (remaining s'))%nat.
Proof.
  intros Hinv Hstep. destruct Hstep as [i t t' events s Hi Hst].
  destruct (step_thread_ok s t (inv_threads s Hinv i t Hi)) as [_ H].
  destruct (H _ _ Hst) as (_ & _ & (ins & Hprog & _)). unfold remaining. simpl.
  pose proof (sum_list_with_insert (fun t => length (t_prog t)) _ i t t' Hi) as Hs. simpl in Hs.
  rewrite Hprog in Hs. simpl in Hs. lia.
Qed.

Lemma inv_runs s s' n : inv s -> nsteps step n s s' -> inv s' /\ (remaining s = n + remaining s')%nat.
Proof.
  intros Hinv Hn. induction Hn as [|n s s1 s' Hs Hn IH]; [done|].
  pose proof (step_remaining _ _ Hinv Hs). apply inv_step in Hs; [|done].
  destruct (IH Hs) as [? ?]. split; [done|lia].
Qed.

(** ** The server's threads *)

Lemma inv_start progs :
  Forall (fun p => track ([], []) p = Some ([], []) /\ ordered p) progs ->
  (forall p e, p ∈ progs -> Await e ∈ p -> exists p', p' ∈ progs /\ Post e ∈ p') ->
  inv (start progs).
Proof.
  intros Hok Hev. rewrite Forall_forall in Hok.
  assert (Hl : forall i t, s_threads (start progs) !! i = Some t ->
    exists p, progs !! i = Some p /\ t = Thread p [] []).
  { intros i t. simpl. rewrite list_lookup_fmap, fmap_Some. naive_solver. }
  split.
  - intros i t (p & Hp & ->)%Hl. destruct (Hok p (list_elem_of_lookup_2 _ _ _ Hp)). split; simpl; try done.
    + constructor.
    + constructor.
    + intros a l Ha. by apply not_elem_of_nil in Ha.
  - intros i j t t' l l' _ (p & _ & ->)%Hl _ Hin. simpl in Hin. by apply not_elem_of_nil in Hin.
  - intros i t e (p & Hp & ->)%Hl He. simpl in *. right.
    destruct (Hev p e (list_elem_of_lookup_2 _ _ _ Hp) He) as (p' & [j Hj]%list_elem_of_lookup_1 & Hp').
    exists j, (Thread p' [] []). split; [|done]. rewrite list_lookup_fmap, Hj. done.
Qed.

(** The state of a thread inside and outside of a connection. *)
Definition in_connection (c : nat) : list lock * list activity :=
  (if thread_model <=? NBDKIT_THREAD_MODEL_SERIALIZE_CONNECTIONS then [Mutex connection_lock] else [],
   [Connection c]).

Definition outside : list lock * list activity := ([], []).

Ltac evaluate :=
  repeat (simpl;
    first [ progress unfold NBDKIT_THREAD_MODEL_SERIALIZE_CONNECTIONS,
              NBDKIT_THREAD_MODEL_SERIALIZE_ALL_REQUESTS, NBDKIT_THREAD_MODEL_SERIALIZE_REQUESTS in *
          | rewrite (proj2 (Z.leb_le _ _)) by lia | rewrite (proj2 (Z.leb_gt _ _)) by lia
          | rewrite bool_decide_eq_true_2 by set_solver ]).

Lemma thread_model_cases :
  thread_model <= 0 \/ thread_model = 1 \/ thread_model = 2 \/ 3 <= thread_model.
Proof. lia. Qed.

(** A section under a mutex, *)
Lemma balanced_mutex held acts m p :
  (forall l, l ∈ held -> (rank l < rank (Mutex m))%nat) -> (forall a, a ∈ acts -> Mutex m ∉ required a) ->
  balanced (Mutex m :: held, acts) p -> balanced (held, acts) ([Acquire (Mutex m)] ++ p ++ [Release (Mutex m)]).
Proof.
  intros Hr Ha Hp. unfold balanced. cbn [app track track1].
  rewrite (proj2 (forallb_forall _ _)).
  2: { intros l Hl%list_elem_of_In. by apply Nat.ltb_lt, Hr. }
  cbn [mbind option_bind]. rewrite (track_then _ _ _ _ Hp). cbn [track track1].
  rewrite bool_decide_eq_true_2 by done. simpl. by rewrite (proj2 (forallb_bool_decide _ _) Ha).
Qed.

(** and an activity. *)
Lemma balanced_activity held acts a p :
  (forall l, l ∈ required a -> l ∈ held) -> a ∉ acts ->
  balanced (held, a :: acts) p -> balanced (held, acts) ([Begin a] ++ p ++ [End_ a]).
Proof.
  intros Hr Ha Hp. unfold balanced. cbn [app track track1].
  rewrite (proj2 (forallb_bool_decide _ _) Hr), (bool_decide_eq_true_2 (a ∉ acts)) by done. cbn [andb mbind option_bind].
  rewrite (track_then _ _ _ _ Hp). cbn [track track1]. by rewrite bool_decide_eq_true_2 by done.
Qed.

(** Where the connection's own locks may be taken: nothing of their rank is
    held, and no message is being received or sent. *)
Definition calm (n : nat) (c : nat) (st : list lock * list activity) : Prop :=
  (forall l, l ∈ st.1 -> (rank l < n)%nat) /\ Sending c ∉ st.2 /\ Receiving c ∉ st.2.

Lemma connection_lock_required a c :
  Mutex (status_lock c) ∉ required a /\ (Mutex (write_lock c) ∈ required a -> a = Sending c) /\
  (Mutex (read_lock c) ∈ required a -> a = Receiving c).
Proof.
  destruct a as [|[]| | | |]; simpl; repeat case_match; rewrite ?elem_of_app, ?elem_of_cons, ?elem_of_nil; naive_solver.
Qed.

Lemma balanced_status workers c st : (forall l, l ∈ st.1 -> (rank l < 6)%nat) ->
  balanced st (get_status_locks workers c) /\ balanced st (set_status_locks workers c).
Proof.
  destruct st as [held acts]. intros Hr. unfold get_status_locks, set_status_locks. destruct workers; [|done].
  split; (apply (balanced_mutex held acts (status_lock c) []); [done| |done]; intros a _; apply connection_lock_required).
Qed.

(** The write lock around something, while the client is written to. *)
Lemma balanced_write c st p : calm 5 c st ->
  (forall held acts, (forall l, l ∈ held -> (rank l < 6)%nat) -> balanced (held, acts) p) ->
  balanced st ([Acquire (Mutex (write_lock c)); Begin (Sending c)] ++ p ++ [End_ (Sending c); Release (Mutex (write_lock c))]).
Proof.
  destruct st as [held acts]. intros (Hr & Hs & _) Hp. cbn [fst snd] in Hr, Hs.
  assert (E : forall (i1 i2 i3 i4 : instr), [i1; i2] ++ p ++ [i3; i4] = [i1] ++ ([i2] ++ p ++ [i3]) ++ [i4])
    by (intros; simpl; by rewrite <- app_assoc).
  rewrite E. apply balanced_mutex; [done| |].
  - intros a Ha Hq. apply connection_lock_required in Hq as ->. done.
  - apply (balanced_activity _ _ (Sending c) p); [intros l Hl%list_elem_of_singleton; subst; left|done|].
    apply Hp. intros l [->|Hl]%elem_of_cons; [simpl; lia|]. specialize (Hr l Hl). simpl in Hr. lia.
Qed.

Lemma calm_status n c st : calm n c st -> (n <= 6)%nat -> forall l, l ∈ st.1 -> (rank l < 6)%nat.
Proof. intros [H _] Hn l Hl. specialize (H l Hl). lia. Qed.

Lemma balanced_close_write c st : calm 5 c st -> balanced st (close_write c).
Proof. intros Hc. by apply (balanced_write c st []). Qed.

Lemma balanced_callbacks workers c calls st : calm 5 c st -> balanced st (callbacks workers (Some c) calls).
Proof.
  intros Hc. apply balanced_concat, Forall_fmap, Forall_true. intros call. simpl.
  destruct (balanced_status workers c st) as [Hg Hs]; [eapply calm_status; [done|lia]|].
  destruct call as [|closes]; simpl; [done|]. apply balanced_app; [done|]. destruct closes; [by apply balanced_close_write|done].
Qed.

(** The state inside of a request section. *)
Definition in_request (conn : option nat) (st : list lock * list activity) : list lock * list activity :=
  (Rd :: (match conn with
          | Some c => if thread_model <=? NBDKIT_THREAD_MODEL_SERIALIZE_REQUESTS then [Mutex (request_lock c)] else []
          | None => []
          end) ++
   (if thread_model <=? NBDKIT_THREAD_MODEL_SERIALIZE_ALL_REQUESTS then [Mutex all_requests_lock] else []) ++ st.1,
   Request conn :: st.2).

Lemma enter_request conn st c : st = in_connection c \/ st = outside ->
  track st (lock_request conn ++ [Begin (Request conn)]) = Some (in_request conn st) /\
  track (in_request conn st) ([End_ (Request conn)] ++ unlock_request conn) = Some st.
Proof.
  unfold lock_request, unlock_request, in_request, in_connection, outside.
  intros [-> | ->]; destruct thread_model_cases as [H|[H|[H|H]]], conn as [k|]; evaluate; done.
Qed.

Lemma calm_in_connection c st : st = in_connection c \/ st = outside -> calm 1 c st.
Proof.
  intros [-> | ->]; unfold calm, in_connection, outside; simpl; [destruct (_ <=? _)|];
    (split; [intros l; rewrite ?elem_of_cons, ?elem_of_nil; naive_solver lia|]); set_solver.
Qed.

Lemma calm_mono n n' c st : (n <= n')%nat -> calm n c st -> calm n' c st.
Proof. intros Hn [H ?]. split; [|done]. intros l Hl. specialize (H l Hl). lia. Qed.

Lemma calm_in_request c st : calm 1 c st -> calm 5 c (in_request (Some c) st).
Proof.
  intros (Hr & Hs & Hv). unfold in_request, calm. simpl. split; [|set_solver].
  intros l. rewrite !elem_of_cons, !elem_of_app.
  intros [->|[Hl|[Hl|Hl]]]; [simpl; lia| | |specialize (Hr l Hl); lia];
    (destruct (_ <=? _); [apply list_elem_of_singleton in Hl as ->; simpl; lia|by apply elem_of_nil in Hl]).
Qed.

Lemma balanced_request_section workers c calls st : st = in_connection c \/ st = outside ->
  balanced st (request_section workers (Some c) calls).
Proof.
  intros Hst. destruct (enter_request (Some c) st c Hst) as [H1 H2]. unfold balanced, request_section.
  rewrite app_assoc, (track_then _ _ _ _ H1). rewrite (track_then _ (in_request (Some c) st)); [exact H2|].
  by apply balanced_callbacks, calm_in_request, calm_in_connection.
Qed.

Lemma balanced_reply workers c run st : calm 5 c st -> balanced st (reply_locks workers c run).
Proof.
  intros Hc. apply balanced_app; [apply balanced_status; eapply calm_status; [done|lia]|].
  destruct (rr_reply run) as [failed|]; [|done]. apply balanced_write; [done|]. intros held acts Hr.
  destruct failed; [by apply balanced_status|done].
Qed.

Lemma balanced_receive workers c run st : calm 1 c st ->
  balanced st ([Acquire (Mutex (read_lock c)); Begin (Receiving c)] ++ get_status_locks workers c ++
    (match rr_receipt run with rc_ended => set_status_locks workers c | _ => [] end) ++
    [End_ (Receiving c); Release (Mutex (read_lock c))]).
Proof.
  destruct st as [held acts]. intros (Hr & _ & Hv). cbn [fst snd] in Hr, Hv.
  assert (E : forall p1 p2 (i1 i2 i3 i4 : instr),
    [i1; i2] ++ p1 ++ p2 ++ [i3; i4] = [i1] ++ ([i2] ++ (p1 ++ p2) ++ [i3]) ++ [i4])
    by (intros; simpl; by rewrite <- !app_assoc).
  rewrite E. apply balanced_mutex; [intros l Hl; specialize (Hr l Hl); simpl; lia| |].
  - intros a Ha Hq. apply connection_lock_required in Hq as ->. done.
  - apply (balanced_activity _ _ (Receiving c)); [intros l Hl%list_elem_of_singleton; subst; left|done|].
    assert (H6 : forall l, l ∈ Mutex (read_lock c) :: held -> (rank l < 6)%nat).
    { intros l [->|Hl]%elem_of_cons; [simpl; lia|]. specialize (Hr l Hl). lia. }
    apply balanced_app; [by apply balanced_status|]. destruct (rr_receipt run); (done || by apply balanced_status).
Qed.

Lemma balanced_recv_request_send_reply workers c run st : st = in_connection c \/ st = outside ->
  balanced st (recv_request_send_reply_locks workers c run).
Proof.
  intros Hst. pose proof (calm_in_connection c st Hst) as Hc. apply balanced_app; [by apply balanced_receive|].
  assert (Hre : balanced st (reply_locks workers c run)) by (apply balanced_reply; eapply calm_mono; [|done]; lia).
  destruct (rr_receipt run); [done..|]. apply balanced_app; [by apply balanced_request_section|done].
Qed.

Lemma balanced_requests workers c run st : st = in_connection c \/ st = outside -> balanced st (requests workers c run).
Proof.
  intros Hst. pose proof (calm_in_connection c st Hst) as Hc.
  assert (Hg : balanced st (get_status_locks workers c)) by (apply balanced_status; eapply calm_status; [done|lia]).
  apply balanced_app; [|by destruct (wr_quit run)].
  apply balanced_concat, Forall_fmap, Forall_true. intros r. cbn beta. apply balanced_app; [done|].
  apply balanced_app; [by apply balanced_recv_request_send_reply|].
  destruct (_ && _)%bool; [|done]. apply balanced_close_write. eapply calm_mono; [|done]. lia.
Qed.

Lemma enter_connection c :
  track outside (lock_connection ++ [Begin (Connection c)]) = Some (in_connection c) /\
  track (in_connection c) ([End_ (Connection c)] ++ unlock_connection) = Some outside.
Proof.
  unfold lock_connection, unlock_connection, in_connection, outside.
  destruct thread_model_cases as [H|[H|[H|H]]]; evaluate; done.
Qed.

Lemma nworkers_parallel threads : nworkers threads = true -> NBDKIT_THREAD_MODEL_PARALLEL <= thread_model.
Proof.
  unfold nworkers. rewrite negb_true_iff, orb_false_iff, Z.ltb_ge. tauto.
Qed.

Lemma balanced_serve_requests threads c run : balanced (in_connection c) (serve_requests threads c run).
Proof.
  unfold serve_requests. destruct (nworkers threads) eqn:Hw.
  - apply nworkers_parallel in Hw. unfold NBDKIT_THREAD_MODEL_PARALLEL in Hw.
    assert (in_connection c = ([], [Connection c])) as ->.
    { unfold in_connection. evaluate. done. }
    assert (Hc : calm 1 c ([], [Connection c])).
    { split; [by intros l ?%elem_of_nil|]. set_solver. }
    apply balanced_app; [|apply balanced_app]; unfold balanced.
    + induction (seq 0 _) as [|w ws IH]; done.
    + destruct (run_failed run); [|done]. apply balanced_status. eapply calm_status; [done|lia].
    + induction (reverse _) as [|w ws IH]; done.
  - apply balanced_concat, Forall_fmap, Forall_true. intros n. apply balanced_requests. by left.
Qed.

Lemma track_handle_single_connection threads c run :
  track outside (handle_single_connection_locks threads c run) = Some outside.
Proof.
  unfold handle_single_connection_locks. destruct (enter_connection c) as [H1 H2].
  rewrite app_assoc, (track_then _ _ _ _ H1).
  match goal with |- track _ (?p ++ _) = _ => assert (Hb : balanced (in_connection c) p) end.
  { assert (Hs : forall calls, balanced (in_connection c) (request_section (nworkers threads) (Some c) calls))
      by (intros calls; apply balanced_request_section; by left).
    unfold free_connection_locks.
    destruct (_ && _)%bool; [|done]. apply balanced_app.
    { apply balanced_callbacks. eapply calm_mono; [|apply calm_in_connection; by left]. lia. }
    apply balanced_app; [|by destruct (run_quit run)].
    destruct (run_preconnect run); [|done]. apply balanced_app; [done|].
    destruct (_ && _)%bool; [|done]. apply balanced_app; [|done]. apply balanced_serve_requests. }
  rewrite (track_then _ _ _ _ Hb). exact H2.
Qed.

(** *** Events *)

Definition is_event (i : instr) : bool := match i with Post _ | Await _ => true | _ => false end.

Lemma ordered_app p1 p2 :
  ordered p1 -> ordered p2 ->
  (forall e e', Await e ∈ p1 -> Post e' ∈ p2 -> (level e < level e')%nat) -> ordered (p1 ++ p2).
Proof.
  intros H1 H2 H12. induction p1 as [|i p1 IH]; [done|].
  assert (Hrec : ordered (p1 ++ p2)).
  { apply IH; [by eapply ordered_tail|]. intros e e' He. apply H12. by right. }
  destruct i; try done. simpl. split; [|done]. intros e' [He'|He']%elem_of_app.
  - by apply H1.
  - apply H12; [left|done].
Qed.

Definition quiet (p : list instr) : Prop := forall i, i ∈ p -> is_event i = false.

Lemma quiet_app p1 p2 : quiet p1 -> quiet p2 -> quiet (p1 ++ p2).
Proof. intros H1 H2 i [?|?]%elem_of_app; auto. Qed.

Lemma quiet_concat ps : Forall quiet ps -> quiet (concat ps).
Proof. induction 1; [by intros i ?%elem_of_nil|]. by apply quiet_app. Qed.

Lemma quiet_ordered p : quiet p -> ordered p.
Proof.
  intros Hq. induction p as [|i p IH]; [done|].
  assert (ordered p) by (apply IH; intros j Hj; apply Hq; by right).
  specialize (Hq i ltac:(left)). by destruct i.
Qed.

(** A program without events before and after one that is ordered. *)
Lemma ordered_quiet p1 p p2 : quiet p1 -> quiet p2 -> ordered p -> ordered (p1 ++ p ++ p2).
Proof.
  intros H1 H2 Hp. apply ordered_app; [by apply quiet_ordered| |].
  - apply ordered_app; [done|by apply quiet_ordered|]. by intros e e' _ ?%H2.
  - by intros e e' ?%H1.
Qed.

Lemma quiet_lock_connection : quiet lock_connection /\ quiet unlock_connection.
Proof.
  unfold lock_connection, unlock_connection.
  destruct (_ <=? _); split; intros i; rewrite ?elem_of_cons, elem_of_nil; naive_solver.
Qed.

Lemma quiet_locks workers c :
  quiet (get_status_locks workers c) /\ quiet (set_status_locks workers c) /\ quiet (close_write c).
Proof.
  unfold get_status_locks, set_status_locks, close_write. destruct workers; (split; [|split]); intros i;
    rewrite ?elem_of_cons, elem_of_nil; naive_solver.
Qed.

Lemma quiet_callbacks workers conn calls : quiet (callbacks workers conn calls).
Proof.
  destruct conn as [c|]; [|by intros i ?%elem_of_nil]. apply quiet_concat, Forall_fmap, Forall_true. intros call.
  destruct (quiet_locks workers c) as (Hg & Hs & Hw). destruct call as [|[]]; simpl; [done|by apply quiet_app|].
  apply quiet_app; [done|]. by intros i ?%elem_of_nil.
Qed.

Lemma quiet_request_section workers conn calls : quiet (request_section workers conn calls).
Proof.
  unfold request_section. apply quiet_app; [|apply quiet_app; [|apply quiet_app; [apply quiet_callbacks|apply quiet_app]]].
  - unfold lock_request. intros i.
    destruct conn, (thread_model <=? NBDKIT_THREAD_MODEL_SERIALIZE_ALL_REQUESTS),
      (thread_model <=? NBDKIT_THREAD_MODEL_SERIALIZE_REQUESTS); simpl; rewrite ?elem_of_cons, elem_of_nil; naive_solver.
  - by intros i ->%list_elem_of_singleton.
  - by intros i ->%list_elem_of_singleton.
  - unfold unlock_request. intros i.
    destruct conn, (thread_model <=? NBDKIT_THREAD_MODEL_SERIALIZE_ALL_REQUESTS),
      (thread_model <=? NBDKIT_THREAD_MODEL_SERIALIZE_REQUESTS); simpl; rewrite ?elem_of_cons, elem_of_nil; naive_solver.
Qed.

Lemma quiet_reply workers c run : quiet (reply_locks workers c run).
Proof.
  destruct (quiet_locks workers c) as (Hg & Hs & _). apply quiet_app; [done|].
  destruct (rr_reply run) as [[]|]; [| |by intros i ?%elem_of_nil]; unfold send_reply_locks; intros i;
    rewrite !elem_of_app, !elem_of_cons, !elem_of_nil; naive_solver.
Qed.

Lemma quiet_requests workers c run : quiet (requests workers c run).
Proof.
  destruct (quiet_locks workers c) as (Hg & Hs & Hw). assert (Hnil : quiet []) by by intros i ?%elem_of_nil.
  apply quiet_app; [|by destruct (wr_quit run)]. apply quiet_concat, Forall_fmap, Forall_true. intros r. cbn beta.
  apply quiet_app; [done|]. apply quiet_app; [|by destruct (_ && _)%bool]. apply quiet_app.
  - intros i. rewrite !elem_of_app, !elem_of_cons, !elem_of_nil. destruct (rr_receipt r); naive_solver.
  - pose proof (quiet_reply workers c r). destruct (rr_receipt r); [done..|].
    apply quiet_app; [apply quiet_request_section|done].
Qed.

Lemma quiet_balanced_unload n :
  quiet (concat (replicate n backend_unload)) /\ balanced outside (concat (replicate n backend_unload)).
Proof.
  split.
  - apply quiet_concat, Forall_replicate. intros i.
    unfold backend_unload, lock_unload, unlock_unload. simpl. rewrite ?elem_of_cons, elem_of_nil. naive_solver.
  - apply balanced_concat, Forall_replicate. unfold balanced, outside, backend_unload. by evaluate.
Qed.

Lemma connection_timeout_ok c :
  quiet (connection_timeout c) /\ balanced outside (connection_timeout c).
Proof.
  unfold connection_timeout. split.
  - apply quiet_app; [apply quiet_lock_connection|]. apply quiet_app; [|apply quiet_lock_connection].
    intros i. rewrite ?elem_of_cons, elem_of_nil. naive_solver.
  - unfold balanced, lock_connection, unlock_connection, outside.
    destruct thread_model_cases as [H|[H|[H|H]]]; evaluate; done.
Qed.

Lemma connection_worker_ok c w run :
  balanced outside (connection_worker c w run) /\ ordered (connection_worker c w run).
Proof.
  unfold connection_worker. split.
  - apply balanced_app; [done|]. by apply balanced_app; [apply balanced_requests; right|].
  - apply ordered_app; [simpl; split; [|done]; by intros e' ?%elem_of_nil| |].
    + apply ordered_app; [apply quiet_ordered, quiet_requests|done|]. by intros e e' ?%quiet_requests.
    + intros e e' He [?%quiet_requests|Hp]%elem_of_app; [done|].
      apply list_elem_of_singleton in He, Hp. simplify_eq. simpl. lia.
Qed.

Lemma ordered_serve_requests threads c run : ordered (serve_requests threads c run).
Proof.
  unfold serve_requests. destruct (nworkers threads).
  - assert (Hf : quiet (if run_failed run then set_status_locks true c else [])).
    { destruct (run_failed run); [apply quiet_locks|by intros i ?%elem_of_nil]. }
    apply ordered_app; [|apply ordered_app|].
    + by induction (seq 0 _).
    + by apply quiet_ordered.
    + induction (reverse _) as [|w ws IH]; [done|]. simpl. split; [|done].
      intros e' (? & ? & _)%list_elem_of_fmap. done.
    + by intros e e' ?%Hf.
    + intros e e' (? & ? & _)%list_elem_of_fmap. done.
  - apply quiet_ordered, quiet_concat, Forall_fmap, Forall_true. intros n. apply quiet_requests.
Qed.

(** A connection up to the requests, the requests, and the rest. *)
Lemma handle_single_connection_split threads c run :
  exists p1 p2, quiet p1 /\ quiet p2 /\
    handle_single_connection_locks threads c run =
      p1 ++ (if (run_top run && run_new run && run_preconnect run &&
                 (run_handshake run && (negb (nworkers threads) || run_workers run)))%bool
             then serve_requests threads c run else []) ++ p2.
Proof.
  destruct quiet_lock_connection as [Hl Hu].
  assert (Hs : forall calls, quiet (request_section (nworkers threads) (Some c) calls)) by (intros; apply quiet_request_section).
  assert (Hb : forall a, quiet [Begin a] /\ quiet [End_ a]).
  { intros a. split; intros i; rewrite elem_of_cons, elem_of_nil; naive_solver. }
  assert (Hfree : quiet (free_connection_locks (nworkers threads) c run)).
  { unfold free_connection_locks. destruct (run_quit run); [by intros i ?%elem_of_nil|done]. }
  assert (Hopen : quiet (lock_connection ++ [Begin (Connection c)])) by (by apply quiet_app; [|apply Hb]).
  assert (Hclose : quiet ([End_ (Connection c)] ++ unlock_connection)) by (by apply quiet_app; [apply Hb|]).
  pose proof (quiet_callbacks (nworkers threads) (Some c) (run_preconnect_calls run)) as Hc.
  unfold handle_single_connection_locks. cbv zeta. rewrite app_assoc.
  set (op := lock_connection ++ _) in *. set (cl := _ ++ unlock_connection) in *.
  set (fr := free_connection_locks _ _ _) in *. set (cb := callbacks _ _ _) in *. specialize (Hs (run_handshake_calls run)) as Hh.
  specialize (Hs (run_finalize_calls run)). set (hs := request_section _ _ (run_handshake_calls run)) in *.
  set (fi := request_section _ _ (run_finalize_calls run)) in *.
  destruct (run_top run && run_new run)%bool; cbn [andb]; [|by exists op, cl].
  destruct (run_preconnect run); cbn [andb].
  2: { exists (op ++ cb), (fr ++ cl). split; [by apply quiet_app|]. split; [by apply quiet_app|]. by rewrite <- !app_assoc. }
  destruct (run_handshake run && _)%bool.
  - exists (op ++ cb ++ hs), (fi ++ fr ++ cl). split; [by apply quiet_app; [|apply quiet_app]|]. split; [by apply quiet_app; [|apply quiet_app]|].
    by rewrite <- !app_assoc.
  - exists (op ++ cb ++ hs), (fr ++ cl). split; [by apply quiet_app; [|apply quiet_app]|]. split; [by apply quiet_app|].
    by rewrite app_nil_r, <- !app_assoc.
Qed.

(** All threads of a connection keep to the discipline, and every event that
    one of them awaits is posted by another. *)
Lemma connection_threads_ok threads c run :
  Forall (fun p => balanced outside p /\ ordered p) (connection_threads threads c run) /\
  (forall p e, p ∈ connection_threads threads c run -> Await e ∈ p ->
     exists p', p' ∈ connection_threads threads c run /\ Post e ∈ p').
Proof.
  destruct (handle_single_connection_split threads c run) as (p1 & p2 & Hp1 & Hp2 & Heq).
  pose proof (ordered_serve_requests threads c run) as Hserve.
  assert (Hmain : forall i, i ∈ handle_single_connection_locks threads c run -> is_event i = true ->
    (run_top run && run_new run && run_preconnect run &&
      (run_handshake run && (negb (nworkers threads) || run_workers run)))%bool = true /\
    i ∈ serve_requests threads c run).
  { intros i Hi Hev. rewrite Heq in Hi. rewrite !elem_of_app in Hi.
    destruct Hi as [?%Hp1|[Hi|?%Hp2]]; [congruence| |congruence].
    destruct (_ && _)%bool; [done|]. by apply elem_of_nil in Hi. }
  unfold connection_threads. split.
  - constructor.
    + split; [apply track_handle_single_connection|]. rewrite Heq.
      apply ordered_quiet; [done|done|]. by destruct (_ && _)%bool.
    + match goal with |- Forall _ (if ?b then _ else _) => destruct b end; [|by constructor].
      apply Forall_lookup. intros w p.
      rewrite list_lookup_imap. intros (n & _ & ->)%fmap_Some. apply connection_worker_ok.
  - intros p e [->|Hp]%elem_of_cons He.
    + destruct (Hmain _ He eq_refl) as [Hrun Hin]. unfold serve_requests in Hin.
      destruct (nworkers threads) eqn:Hw.
      2: { pose proof (quiet_concat (requests false c <$> run_requests run)) as Hq. exfalso.
           assert (is_event (Await e) = false); [|done]. apply Hq; [|done].
           apply Forall_fmap, Forall_true. intros n. apply quiet_requests. }
      simpl in Hrun. rewrite !andb_true_iff in Hrun. destruct Hrun as (((-> & ->) & ->) & -> & ->). simpl.
      rewrite !elem_of_app, !list_elem_of_fmap in Hin. destruct Hin as [(? & ? & _)|[Hin|(w & [= ->] & Hin)]]; [done| |].
      { exfalso. destruct (run_failed run); [by apply quiet_locks in Hin|by apply elem_of_nil in Hin]. }
      rewrite elem_of_reverse, elem_of_seq in Hin.
      destruct (lookup_lt_is_Some_2 (run_requests run) w ltac:(lia)) as [n Hn].
      exists (connection_worker c w n). split.
      * right. apply list_elem_of_lookup_2 with w. by rewrite list_lookup_imap, Hn.
      * unfold connection_worker. rewrite !elem_of_app. right; right. left.
    + match type of Hp with _ ∈ (if ?b then _ else _) => destruct b eqn:Hrun end;
        [|by apply elem_of_nil in Hp].
      apply list_elem_of_lookup_1 in Hp as [w Hp]. rewrite list_lookup_imap in Hp.
      apply fmap_Some in Hp as (n & Hn & ->). unfold connection_worker in He. rewrite !elem_of_app in He.
      destruct He as [He|[?%quiet_requests|He]]; [|done|apply list_elem_of_singleton in He; done].
      apply list_elem_of_singleton in He as [= ->].
      rewrite !andb_true_iff in Hrun. destruct Hrun as ((((H1 & H2) & H3) & H4) & H5 & H6).
      exists (handle_single_connection_locks threads c run). split; [left|].
      rewrite Heq, H1, H2, H3, H4, H5, H6. simpl. rewrite !elem_of_app. right; left.
      unfold serve_requests. rewrite H5, elem_of_app, !list_elem_of_fmap. left. exists w. split; [done|].
      rewrite elem_of_seq. apply lookup_lt_Some in Hn. lia.
Qed.

Lemma inv_server threads runs timeouts layers : inv (start (server_threads threads runs timeouts layers)).
Proof.
  assert (Hconn : forall p, p ∈ concat (imap (connection_threads threads) runs) ->
    exists c run, p ∈ connection_threads threads c run /\
      forall p', p' ∈ connection_threads threads c run ->
        p' ∈ concat (imap (connection_threads threads) runs)).
  { intros p Hp. apply list_elem_of_In, in_concat in Hp as (ps & Hps & Hp).
    apply list_elem_of_In, list_elem_of_lookup_1 in Hps as [c Hc]. rewrite list_lookup_imap in Hc.
    apply fmap_Some in Hc as (run & Hrun & ->). exists c, run. rewrite list_elem_of_In. split; [done|].
    intros p' Hp'. apply list_elem_of_In, in_concat. exists (connection_threads threads c run).
    rewrite <- !list_elem_of_In. split; [|done]. apply list_elem_of_lookup_2 with c.
    by rewrite list_lookup_imap, Hrun. }
  destruct (quiet_balanced_unload layers) as [Hqu Hbu]. unfold server_threads. apply inv_start.
  - apply Forall_forall. intros p. rewrite !elem_of_app.
    intros [(c & run & Hp & _)%Hconn|[(c & -> & _)%list_elem_of_fmap| ->%list_elem_of_singleton]].
    + destruct (connection_threads_ok threads c run) as [Hok _]. rewrite Forall_forall in Hok. by apply Hok.
    + destruct (connection_timeout_ok c). split; [done|]. by apply quiet_ordered.
    + split; [done|]. by apply quiet_ordered.
  - intros p e. rewrite !elem_of_app.
    intros [(c & run & Hp & Hall)%Hconn|[(c & -> & _)%list_elem_of_fmap| ->%list_elem_of_singleton]] He.
    + destruct (connection_threads_ok threads c run) as [_ Hev].
      destruct (Hev p e Hp He) as (p' & Hp' & Hpost). exists p'. rewrite !elem_of_app. auto.
    + by apply (connection_timeout_ok c) in He.
    + by apply Hqu in He.
Qed.

(** ** What the locks guarantee *)

(** Activities of two threads that the thread model allows together. *)
Definition allowed (a b : activity) : Prop :=
  match a, b with
  | (Connection _ | Timeout _), (Connection _ | Timeout _) =>
      NBDKIT_THREAD_MODEL_SERIALIZE_CONNECTIONS < thread_model
  | Request c, Request c' =>
      NBDKIT_THREAD_MODEL_SERIALIZE_ALL_REQUESTS < thread_model /\
      (c = c' -> c <> None -> NBDKIT_THREAD_MODEL_SERIALIZE_REQUESTS < thread_model)
  | Receiving c, Receiving c' | Sending c, Sending c' => c <> c'
  | Request _, Unload | Unload, Request _ | Unload, Unload => False
  | _, _ => True
  end.

Lemma required_allowed a b :
  (forall l l', l ∈ required a -> l' ∈ required b -> compatible l l' = true) -> allowed a b.
Proof.
  intros H.
  assert (Hno : forall m, Mutex m ∈ required a -> Mutex m ∈ required b -> False).
  { intros m Ha Hb. specialize (H _ _ Ha Hb). simpl in H. by rewrite bool_decide_eq_true_2 in H. }
  unfold NBDKIT_THREAD_MODEL_SERIALIZE_CONNECTIONS, NBDKIT_THREAD_MODEL_SERIALIZE_ALL_REQUESTS,
    NBDKIT_THREAD_MODEL_SERIALIZE_REQUESTS in *.
  destruct a as [c|c|c|c| |c], b as [c'|c'|c'|c'| |c']; simpl in *; try done.
  all: try (intros <-; eapply Hno; left).
  all: try (apply Z.nle_gt; intros Hm; apply (Hno connection_lock); rewrite (proj2 (Z.leb_le _ _)) by done; left).
  - split.
    + apply Z.nle_gt. intros Hm. apply (Hno all_requests_lock); rewrite (proj2 (Z.leb_le _ 1)) by done; left.
    + intros <- Hc. destruct c as [c|]; [|done]. apply Z.nle_gt. intros Hm.
      apply (Hno (request_lock c)); rewrite (proj2 (Z.leb_le _ 2)) by done;
        rewrite !elem_of_app; right; left; left.
  - by specialize (H Rd Wr ltac:(rewrite !elem_of_app; right; right; left) ltac:(left)).
  - by specialize (H Wr Rd ltac:(left) ltac:(rewrite !elem_of_app; right; right; left)).
  - by specialize (H Wr Wr ltac:(left) ltac:(left)).
Qed.

(** C7: The thread model is respected.  However the server's threads
    (connections, their workers, expired timeouts and the unloading of the
    layers) interleave, no lock operation fails, two connections are in
    progress at the same time only above SERIALIZE_CONNECTIONS, two requests
    only above SERIALIZE_ALL_REQUESTS, two requests of the same connection
    only above SERIALIZE_REQUESTS, no request runs while a layer is unloaded
    and no two layers are unloaded at the same time (but connections that are
    not in a request, and timeouts, may go on meanwhile), and of the workers
    of a connection at most one receives a request and at most one sends a
    reply or closes the socket at a time. *)
Theorem thread_model_respected threads runs timeouts layers s :
  rtc step (start (server_threads threads runs timeouts layers)) s ->
  ~ aborts s /\
  forall i j a b, i <> j -> active s i a -> active s j b -> allowed a b.
Proof.
  intros [n Hn]%rtc_nsteps. destruct (inv_runs _ _ _ (inv_server threads runs timeouts layers) Hn) as [Hinv _].
  split.
  - intros (i & t & Hi & Hab). by destruct (step_thread_ok s t (inv_threads s Hinv i t Hi)).
  - intros i j a b Hij (t & Hi & Ha) (t' & Hj & Hb). apply required_allowed. intros l l' Hl Hl'.
    apply (inv_exclusive s Hinv i j t t'); try done.
    + by apply (ok_required t (inv_threads s Hinv i t Hi) a).
    + by apply (ok_required t' (inv_threads s Hinv j t' Hj) b).
Qed.

(** C8: The server's threads cannot deadlock on the locks of [locks.c] and of
    the connections, including those that a callback takes when it calls
    [nbdkit_disconnect] or [nbdkit_nanosleep].  As long as callbacks, system
    calls and the client let them go on, however the threads are scheduled
    and whether or not waiting writers block readers, a state that cannot go
    on is one in which every thread has finished and holds nothing, and it is
    reached after a bounded number of steps: every connection, worker and
    timeout completes. *)
Theorem threads_complete threads runs timeouts layers n s :
  nsteps step n (start (server_threads threads runs timeouts layers)) s ->
  (n <= remaining (start (server_threads threads runs timeouts layers)))%nat /\
  (finished s \/ exists s', step s s').
Proof.
  intros Hn. destruct (inv_runs _ _ _ (inv_server threads runs timeouts layers) Hn) as [Hinv Hr].
  split; [lia|]. by apply progress.
Qed.

(** With SERIALIZE_CONNECTIONS the handshake timeout does not work.  The
    connection holds the connection lock from before its handshake to its
    end, so as long as any connection is in progress an expired timer waits
    for that lock and can close nothing. *)
Lemma timeout_waits_for_connection threads runs timeouts layers s i c j c' :
  thread_model <= NBDKIT_THREAD_MODEL_SERIALIZE_CONNECTIONS ->
  rtc step (start (server_threads threads runs timeouts layers)) s ->
  active s i (Connection c) ->
  s_threads s !! j = Some (Thread (connection_timeout c') [] []) ->
  step_thread s (Thread (connection_timeout c') [] []) = Blocked.
Proof.
  intros Hm [n Hn]%rtc_nsteps (t & Hi & Ha) Hj.
  destruct (inv_runs _ _ _ (inv_server threads runs timeouts layers) Hn) as [Hinv _].
  assert (Hheld : Mutex connection_lock ∈ t_held t).
  { apply (ok_required t (inv_threads s Hinv i t Hi) (Connection c)); [done|]. simpl.
    rewrite (proj2 (Z.leb_le _ _)) by done. left. }
  unfold step_thread, connection_timeout, lock_connection. rewrite (proj2 (Z.leb_le _ _)) by done.
  simpl. destruct (existsb _ _) eqn:E; [done|]. apply not_true_iff_false in E. destruct E.
  apply existsb_exists. exists t. split; [by eapply list_elem_of_In, list_elem_of_lookup_2|].
  by apply bool_decide_eq_true.
Qed.

(** A schedule: the numbers of the threads that make the steps. *)
Fixpoint run_schedule (s : state) (sched : list nat) : option state :=
  match sched with
  | [] => Some s
  | i :: sched =>
      t ← s_threads s !! i;
      match step_thread s t with
      | Continues t' events => run_schedule (State (<[i := t']> (s_threads s)) events) sched
      | _ => None
      end
  end.

Lemma run_schedule_steps sched : forall s s',
  run_schedule s sched = Some s' -> nsteps step (length sched) s s'.
Proof.
  induction sched as [|i sched IH]; intros s s' H; simpl in H; [simplify_eq; constructor|].
  destruct (s_threads s !! i) as [t|] eqn:Hi; [|done]. simpl in H.
  destruct (step_thread s t) as [| |t' events] eqn:Hst; [done|done|].
  eapply nsteps_l; [by econstructor|by apply IH].
Qed.

Lemma run_schedule_rtc sched s s' : run_schedule s sched = Some s' -> rtc step s s'.
Proof. intros H. apply rtc_nsteps. eexists. by apply run_schedule_steps. Qed.

End Model.

(** *** Examples

    A connection that handles one request on each of its workers; a callback
    of the second disconnects the client. *)
Definition example_worker (calls : list callback_call) : worker_run :=
  WorkerRun [RequestRun (rc_performed calls) (Some false) false] false.

Definition example_run : connection_run :=
  ConnectionRun true true true true true [example_worker []; example_worker [calls_disconnect true]] false [] [] [] [] false.

(** Two parallel workers of one connection are inside the plugin at the same
    time (threads 1 and 2), while the unloading thread (3) waits. *)
Definition example_schedule : list nat := replicate 7 0%nat ++ replicate 11 1%nat ++ replicate 11 2%nat.

Definition example_state : state :=
  default (State [] [])
    (run_schedule false (start (server_threads 3 0 [example_run] [] 1)) example_schedule).

Lemma thread_model_respected_witness :
  active example_state 1 (Request (Some 0%nat)) /\ active example_state 2 (Request (Some 0%nat)) /\
  allowed 3 (Request (Some 0%nat)) (Request (Some 0%nat)).
Proof.
  assert (H1 : active example_state 1 (Request (Some 0%nat))).
  { eexists. split; [vm_compute; reflexivity|left]. }
  assert (H2 : active example_state 2 (Request (Some 0%nat))).
  { eexists. split; [vm_compute; reflexivity|left]. }
  split; [exact H1|]. split; [exact H2|].
  refine (proj2 (thread_model_respected 3 false 0 [example_run] [] 1 example_state _)
            1%nat 2%nat _ _ _ H1 H2); [|done].
  apply (run_schedule_rtc false example_schedule). vm_compute; reflexivity.
Defined.

Lemma threads_complete_witness :
  (29 <= remaining (start (server_threads 3 0 [example_run] [] 1)))%nat /\
  (finished example_state \/ exists s', step false example_state s').
Proof.
  apply (threads_complete 3 false 0 [example_run] [] 1).
  apply (run_schedule_steps false example_schedule). vm_compute; reflexivity.
Defined.

(** The connection has taken its lock and is in its handshake; its timeout
    has expired. *)
Definition timeout_state : state :=
  default (State [] [])
    (run_schedule false (start (server_threads 0 0 [example_run] [0%nat] 0)) [0; 0; 0; 0; 0; 0]%nat).

Lemma timeout_waits_for_connection_witness :
  active timeout_state 0 (Request (Some 0%nat)) /\
  step_thread false timeout_state (Thread (connection_timeout 0 0) [] []) = Blocked.
Proof.
  split; [eexists; split; [vm_compute; reflexivity|left]|].
  apply (timeout_waits_for_connection 0 false 0 [example_run] [0%nat] 0 timeout_state 0 0 1 0).
  - done.
  - apply (run_schedule_rtc false [0; 0; 0; 0; 0; 0]%nat). vm_compute; reflexivity.
  - eexists. split; [vm_compute; reflexivity|right; left].
  - vm_compute; reflexivity.
Defined.
