(* ===== verification/Parse.v ===== *)
(** * Parsing of numbers, sizes and booleans

    Models the [nbdkit_parse_*] functions of [server/public.c] for integers,
    sizes and booleans, with [common/include/human-size.h],
    [common/include/ascii-ctype.h] and [common/include/ascii-string.h].  A
    string is the list of its characters without the terminating NUL; [strtol]
    and its relatives are modelled from the C standard, for the C locale and
    64-bit [long]. *)

From S2P Require Import Prelude.

#[local] Open Scope bool_scope.
#[local] Open Scope Z_scope.

(** ** Characters *)

Implicit Types (c : Z) (str : list Z).

Definition ascii_isdigit c : bool := (48 <=? c) && (c <=? 57).
Definition ascii_isupper c : bool := (65 <=? c) && (c <=? 90).
Definition ascii_islower c : bool := (97 <=? c) && (c <=? 122).
Definition ascii_isalpha c : bool := ((97 <=? c) && (c <=? 122)) || ((65 <=? c) && (c <=? 90)).
Definition ascii_isalnum c : bool := ascii_isalpha c || ascii_isdigit c.
Definition ascii_isspace c : bool := (c =? 9) || (c =? 10) || (c =? 12) || (c =? 13) || (c =? 32).
Definition ascii_isprint c : bool := (32 <=? c) && (c <=? 126).
Definition ascii_isxdigit c : bool :=
  (ascii_isdigit c || ((97 <=? c) && (c <=? 102)) || ((65 <=? c) && (c <=? 70))).
Definition ascii_tolower c : Z := if ascii_isupper c then c + 32 else c.
Definition ascii_toupper c : Z := if ascii_islower c then c - 32 else c.

(** [common/include/hexdigit.h] *)
Definition hexdigit (c : Z) : Z :=
  if ((48 <=? c) && (c <=? 57)) then c - 48
  else if ((97 <=? c) && (c <=? 102)) then c - 97 + 10
  else c - 65 + 10.
Definition hexbyte (x0 x1 : Z) : Z := Z.lor (Z.land (Z.shiftl (hexdigit x0) 4) 255) (hexdigit x1).

(** [*str]: the character at a pointer, NUL at the end. *)
Definition deref str : Z := match str with [] => 0 | c :: _ => c end.

(** [ascii_strcasecmp] of strings without a NUL inside. *)
Fixpoint ascii_strcasecmp (s1 s2 : list Z) : Z :=
  if ascii_tolower (deref s1) =? ascii_tolower (deref s2) then
    match s1, s2 with
    | [], _ => 0
    | _ :: s1', [] => 0
    | _ :: s1', _ :: s2' => ascii_strcasecmp s1' s2'
    end
  else ascii_tolower (deref s1) - ascii_tolower (deref s2).

(** ** The C library *)

(** [isspace] in the C locale. *)
Definition isspace c : bool := ((9 <=? c) && (c <=? 13)) || (c =? 32).

Fixpoint skip_spaces (f : Z -> bool) str : list Z :=
  match str with
  | c :: str' => if f c then skip_spaces f str' else str
  | [] => []
  end.

(** The value of a digit or letter. *)
Definition digit_value c : option Z :=
  if ascii_isdigit c then Some (c - 48)
  else if ascii_islower c then Some (c - 97 + 10)
  else if ascii_isupper c then Some (c - 65 + 10)
  else None.

Definition is_digit (base c : Z) : bool :=
  match digit_value c with Some d => d <? base | None => false end.

(** Digits are consumed as long as they belong to the base. *)
Fixpoint digits (base acc : Z) str : Z * list Z :=
  match str with
  | c :: str' =>
      match digit_value c with
      | Some d => if d <? base then digits base (acc * base + d) str' else (acc, str)
      | None => (acc, str)
      end
  | [] => (acc, [])
  end.

(** The subject sequence after the sign: base 0 looks at the prefix. *)
Definition magnitude (base : Z) str : option (Z * list Z) :=
  let hex := match str with
             | a :: b :: d :: _ => (a =? 48) && ((b =? 120) || (b =? 88)) && is_digit 16 d
             | _ => false
             end in
  if (base =? 0) && hex then Some (digits 16 0 (drop 2 str))
  else
    let base := if base =? 0 then (if deref str =? 48 then 8 else 10) else base in
    if is_digit base (deref str) then Some (digits base 0 str) else None.

(** Sign, magnitude and the rest; [None] when there is no number. *)
Definition strto (base : Z) str : option (bool * Z * list Z) :=
  let s := skip_spaces isspace str in
  let '(neg, s) := match s with
                   | c :: s' => if c =? 45 then (true, s') else if c =? 43 then (false, s') else (false, s)
                   | [] => (false, s)
                   end in
  '(m, rest) ← magnitude base s; Some (neg, m, rest).

(** What the caller sees: the value, [end] ([None] is [str] itself) and
    whether [errno] was set to [ERANGE]. *)
Record strto_result : Type := StrTo {
  st_value : Z;
  st_end : option (list Z);
  st_erange : bool;
}.

Definition INT64_MIN : Z := -9223372036854775808.
Definition INT_MIN : Z := -2147483648.
Definition INT_MAX : Z := 2147483647.

Definition strtol str (base : Z) : strto_result :=
  match strto base str with
  | None => StrTo 0 None false
  | Some (neg, m, rest) =>
      let v := if neg : bool then - m else m in
      if v <? INT64_MIN then StrTo INT64_MIN (Some rest) true
      else if INT64_MAX <? v then StrTo INT64_MAX (Some rest) true
      else StrTo v (Some rest) false
  end.

Definition strtoul str (base : Z) : strto_result :=
  match strto base str with
  | None => StrTo 0 None false
  | Some (neg, m, rest) =>
      if UINT64_MAX <? m then StrTo UINT64_MAX (Some rest) true
      else StrTo (if neg : bool then u64 (- m) else m) (Some rest) false
  end.

(** [long long], [unsigned long long] and [intmax_t] have 64 bits too. *)
Definition strtoll := strtol.
Definition strtoull := strtoul.
Definition strtoimax := strtol.

(** ** Integers *)

Inductive parse_error : Type :=
| could_not_parse
| empty_string
| trailing_garbage
| negative_not_allowed.

(** Returns 0 and stores the value, or reports the error and returns -1. *)
Inductive parsed : Type :=
| Value (r : Z)
| ParseError (e : parse_error).

(** [errno_set] is [errno != 0]. *)
Definition PARSE_COMMON_TAIL (errno_set : bool) (r : strto_result) : parsed :=
  if errno_set then ParseError could_not_parse
  else
    match st_end r with
    | None => ParseError empty_string
    | Some rest => if deref rest =? 0 then Value (st_value r) else ParseError trailing_garbage
    end.

Definition nbdkit_parse_int str : parsed :=
  let r := strtol str 0 in
  PARSE_COMMON_TAIL (st_erange r || ((st_value r <? INT_MIN) || (INT_MAX <? st_value r))) r.

Definition nbdkit_parse_int8_t str : parsed :=
  let r := strtol str 0 in
  PARSE_COMMON_TAIL (st_erange r || ((st_value r <? -128) || (127 <? st_value r))) r.

Definition nbdkit_parse_int16_t str : parsed :=
  let r := strtol str 0 in
  PARSE_COMMON_TAIL (st_erange r || ((st_value r <? -32768) || (32767 <? st_value r))) r.

Definition nbdkit_parse_int32_t str : parsed :=
  let r := strtol str 0 in
  PARSE_COMMON_TAIL (st_erange r || ((st_value r <? INT_MIN) || (INT32_MAX <? st_value r))) r.

Definition nbdkit_parse_int64_t str : parsed :=
  let r := strtoll str 0 in
  PARSE_COMMON_TAIL (st_erange r || ((st_value r <? INT64_MIN) || (INT64_MAX <? st_value r))) r.

(** Continues with the string after the white space. *)
Definition PARSE_ERROR_IF_NEGATIVE str (k : list Z -> parsed) : parsed :=
  let str := skip_spaces ascii_isspace str in
  if deref str =? 45 then ParseError negative_not_allowed else k str.

Definition nbdkit_parse_unsigned str : parsed :=
  PARSE_ERROR_IF_NEGATIVE str (fun str =>
    let r := strtoul str 0 in
    PARSE_COMMON_TAIL (st_erange r || (UINT32_MAX <? st_value r)) r).

Definition nbdkit_parse_uint8_t str : parsed :=
  PARSE_ERROR_IF_NEGATIVE str (fun str =>
    let r := strtoul str 0 in
    PARSE_COMMON_TAIL (st_erange r || (255 <? st_value r)) r).

Definition nbdkit_parse_uint16_t str : parsed :=
  PARSE_ERROR_IF_NEGATIVE str (fun str =>
    let r := strtoul str 0 in
    PARSE_COMMON_TAIL (st_erange r || (UINT16_MAX <? st_value r)) r).

Definition nbdkit_parse_uint32_t str : parsed :=
  PARSE_ERROR_IF_NEGATIVE str (fun str =>
    let r := strtoul str 0 in
    PARSE_COMMON_TAIL (st_erange r || (UINT32_MAX <? st_value r)) r).

Definition nbdkit_parse_uint64_t str : parsed :=
  PARSE_ERROR_IF_NEGATIVE str (fun str =>
    let r := strtoull str 0 in
    PARSE_COMMON_TAIL (st_erange r || (UINT64_MAX <? st_value r)) r).

(** ** Sizes *)

(** The scaling suffix; [None] is the default of the switch. *)
Definition scale_of c : option Z :=
  let c := ascii_tolower c in
  if c =? 101 then Some (1024 * 1024 * 1024 * 1024 * 1024 * 1024)
  else if c =? 112 then Some (1024 * 1024 * 1024 * 1024 * 1024)
  else if c =? 116 then Some (1024 * 1024 * 1024 * 1024)
  else if c =? 103 then Some (1024 * 1024 * 1024)
  else if c =? 109 then Some (1024 * 1024)
  else if c =? 107 then Some 1024
  else if c =? 98 then Some 1
  else if c =? 115 then Some 512
  else None.

Inductive size_error : Type :=
| size_could_not_parse
| size_negative
| size_exceeds_maximum
| size_unknown_suffix
| size_scale_overflows.

Definition human_size_parse str : Z * option size_error :=
  let r := strtoimax str 10 in
  match st_end r with
  | None => (-1, Some size_could_not_parse)
  | Some rest =>
      if st_value r <? 0 then (-1, Some size_negative)
      else if st_erange r then (-1, Some size_exceeds_maximum)
      else
        match rest with
        | [] => (st_value r, None)
        | suffix :: more =>
            match scale_of suffix with
            | None => (-1, Some size_unknown_suffix)
            | Some scale =>
                if negb (deref more =? 0) then (-1, Some size_unknown_suffix)
                else if INT64_MAX / scale <? st_value r then (-1, Some size_scale_overflows)
                else (i64 (u64 (st_value r * scale)), None)
            end
        end
  end.

Definition nbdkit_parse_size str : Z := (human_size_parse str).1.

(** ** Booleans *)

Definition strcmp_eq (s1 s2 : list Z) : bool := bool_decide (s1 = s2).
Definition strcasecmp_eq (s1 s2 : list Z) : bool := ascii_strcasecmp s1 s2 =? 0.

Definition nbdkit_parse_bool str : Z :=
  if strcmp_eq str [49] || strcasecmp_eq str [116; 114; 117; 101] || strcasecmp_eq str [116] ||
     strcasecmp_eq str [121; 101; 115] || strcasecmp_eq str [121] || strcasecmp_eq str [111; 110]
  then 1
  else if strcmp_eq str [48] || strcasecmp_eq str [102; 97; 108; 115; 101] || strcasecmp_eq str [102] ||
     strcasecmp_eq str [110; 111] || strcasecmp_eq str [110] || strcasecmp_eq str [111; 102; 102]
  then 0
  else -1.

(** ** Printed numbers *)

Definition digit_char (d : Z) : Z := if d <? 10 then 48 + d else 97 + (d - 10).

(** The digits of a number, most significant first. *)
Fixpoint to_digits (fuel : nat) (base n : Z) (acc : list Z) : list Z :=
  match fuel with
  | O => acc
  | Datatypes.S fuel =>
      if n <? base then n :: acc else to_digits fuel base (n / base) (n mod base :: acc)
  end.

(** What [printf] prints for an unsigned number in base 10 or 16, and for a
    signed number. *)
Definition print_unsigned (base n : Z) : list Z :=
  digit_char <$> to_digits (Datatypes.S (Z.to_nat (Z.log2 n))) base n [].

Definition print_signed (n : Z) : list Z :=
  if n <? 0 then 45 :: print_unsigned 10 (- n) else print_unsigned 10 n.

Definition value_of (base : Z) (ds : list Z) (acc : Z) : Z := fold_left (fun a d => a * base + d) ds acc.

Lemma to_digits_value fuel base n acc :
  2 <= base -> 0 <= n < base ^ Z.of_nat fuel ->
  value_of base (to_digits fuel base n acc) 0 = value_of base acc n.
Proof.
  intros Hb. revert n acc. induction fuel as [|fuel IH]; intros n acc Hn.
  - change (base ^ Z.of_nat 0) with 1 in Hn. assert (n = 0) as -> by lia. done.
  - cbn [to_digits]. destruct (Z.ltb_spec n base); [done|].
    rewrite Nat2Z.inj_succ, Z.pow_succ_r in Hn by lia. rewrite IH.
    + unfold value_of. simpl. f_equal. pose proof (Z.div_mod n base). lia.
    + split; [apply Z.div_pos; lia|]. apply Z.div_lt_upper_bound; lia.
Qed.

Lemma to_digits_range fuel base n acc :
  2 <= base -> 0 <= n -> Forall (fun d => 0 <= d < base) acc ->
  Forall (fun d => 0 <= d < base) (to_digits fuel base n acc).
Proof.
  intros Hb. revert n acc. induction fuel as [|fuel IH]; intros n acc Hn Hacc; [done|].
  cbn [to_digits]. destruct (Z.ltb_spec n base); [by constructor; [lia|]|].
  apply IH; [apply Z.div_pos; lia|]. constructor; [|done]. apply Z.mod_pos_bound. lia.
Qed.

Lemma to_digits_head fuel base n acc :
  2 <= base -> 0 <= n < base ^ Z.of_nat fuel -> (0 < fuel)%nat ->
  exists d ds, to_digits fuel base n acc = d :: ds /\ (n <> 0 -> d <> 0).
Proof.
  intros Hb. revert n acc. induction fuel as [|fuel IH]; intros n acc Hn Hf; [lia|].
  cbn [to_digits]. destruct (Z.ltb_spec n base); [eauto|].
  rewrite Nat2Z.inj_succ, Z.pow_succ_r in Hn by lia.
  assert (Hq : 0 < n / base) by (apply Z.div_str_pos; lia).
  destruct (IH (n / base) (n mod base :: acc)) as (d & ds & -> & Hd).
  - split; [lia|]. apply Z.div_lt_upper_bound; lia.
  - destruct fuel; [|lia]. change (base ^ Z.of_nat 0) with 1 in Hn. lia.
  - exists d, ds. split; [done|]. intros _. apply Hd. lia.
Qed.

Lemma log2_fuel base n :
  2 <= base -> 0 <= n -> n < base ^ Z.of_nat (Datatypes.S (Z.to_nat (Z.log2 n))).
Proof.
  intros Hb Hn. pose proof (Z.log2_nonneg n).
  apply Z.lt_le_trans with (2 ^ Z.succ (Z.log2 n)).
  - destruct (Z.eq_dec n 0) as [-> |]; [done|]. apply Z.log2_spec. lia.
  - rewrite Nat2Z.inj_succ, Z2Nat.id by done. apply Z.pow_le_mono_l. lia.
Qed.

Lemma digit_value_char d : 0 <= d < 36 -> digit_value (digit_char d) = Some d.
Proof.
  intros Hd. unfold digit_value, digit_char, ascii_isdigit, ascii_islower.
  destruct (Z.ltb_spec d 10).
  - rewrite (proj2 (Z.leb_le 48 _)), (proj2 (Z.leb_le _ 57)) by lia. simpl. f_equal. lia.
  - rewrite (proj2 (Z.leb_gt _ 57)) by lia. rewrite andb_false_r.
    rewrite (proj2 (Z.leb_le 97 _)), (proj2 (Z.leb_le _ 122)) by lia. simpl. f_equal. lia.
Qed.

(** Text that does not continue a number. *)
Definition stops (base : Z) (rest : list Z) : Prop := is_digit base (deref rest) = false.

Lemma digits_value base ds rest acc :
  2 <= base <= 36 -> Forall (fun d => 0 <= d < base) ds -> stops base rest ->
  digits base acc ((digit_char <$> ds) ++ rest) = (value_of base ds acc, rest).
Proof.
  intros Hb Hds Hstop. revert acc. induction Hds as [|d ds Hd Hds IH]; intros acc; simpl.
  - destruct rest as [|c rest]; [done|]. unfold stops, is_digit in Hstop. simpl in *.
    destruct (digit_value c) as [d|]; [|done]. by rewrite Hstop.
  - rewrite digit_value_char by lia. rewrite (proj2 (Z.ltb_lt _ _)) by lia. apply IH.
Qed.

(** A printed number is read back up to its end. *)
Lemma digits_print base n rest :
  2 <= base <= 36 -> 0 <= n -> stops base rest ->
  digits base 0 (print_unsigned base n ++ rest) = (n, rest).
Proof.
  intros Hb Hn Hstop. unfold print_unsigned. pose proof (log2_fuel base n ltac:(lia) Hn).
  rewrite digits_value; [|lia|by apply to_digits_range; [lia| |constructor]|done].
  rewrite to_digits_value; [done|lia|]. split; [lia|done].
Qed.

Lemma print_unsigned_head base n :
  2 <= base <= 36 -> 0 <= n ->
  exists d ds, print_unsigned base n = digit_char d :: ds /\ 0 <= d < base /\ (n <> 0 -> d <> 0).
Proof.
  intros Hb Hn. pose proof (log2_fuel base n ltac:(lia) Hn) as Hf. unfold print_unsigned.
  destruct (to_digits_head (Datatypes.S (Z.to_nat (Z.log2 n))) base n []) as (d & ds & Heq & Hd); [lia..|].
  pose proof (to_digits_range (Datatypes.S (Z.to_nat (Z.log2 n))) base n [] ltac:(lia) Hn ltac:(constructor)) as Hr.
  rewrite Heq in *. apply Forall_cons in Hr as [Hr _]. exists d, (digit_char <$> ds). auto.
Qed.

Lemma is_digit_char base d : 0 <= d < base -> base <= 36 -> is_digit base (digit_char d) = true.
Proof. intros Hd Hb. unfold is_digit. rewrite digit_value_char by lia. apply Z.ltb_lt; lia. Qed.

Lemma stops_8_10 rest : stops 10 rest -> stops 8 rest.
Proof.
  unfold stops, is_digit. destruct (digit_value _) as [d|]; [|done]. rewrite !Z.ltb_ge. lia.
Qed.

Lemma magnitude_decimal base n rest :
  base = 0 \/ base = 10 -> 0 <= n -> stops 10 rest ->
  (base = 0 -> n = 0 -> ~ is_Some (digit_value (deref rest))) ->
  magnitude base (print_unsigned 10 n ++ rest) = Some (n, rest).
Proof.
  intros Hbase Hn Hstop Hzero. destruct (print_unsigned_head 10 n) as (d & ds & Heq & Hd & Hnz); [lia..|].
  assert (Hch : digit_char d = 48 + d) by (unfold digit_char; by rewrite (proj2 (Z.ltb_lt d 10)) by lia).
  unfold magnitude. destruct Hbase as [-> | ->].
  2: { simpl. rewrite Heq. simpl. rewrite (is_digit_char 10 d) by lia.
       rewrite <- (digits_print 10 n rest) by (lia || done). by rewrite Heq. }
  cbn [Z.eqb andb]. destruct (decide (n = 0)) as [-> |Hn0].
  - change (print_unsigned 10 0) with [48]. simpl.
    assert (Hhex : match rest with
      | b :: d0 :: _ => ((b =? 120) || (b =? 88)) && is_digit 16 d0 | _ => false end = false).
    { specialize (Hzero eq_refl eq_refl). destruct rest as [|b [|d0 rest]]; [done..|]. simpl in Hzero.
      destruct (Z.eqb_spec b 120) as [-> |]; [by destruct Hzero; eexists|].
      destruct (Z.eqb_spec b 88) as [-> |]; [by destruct Hzero; eexists|]. done. }
    destruct rest as [|b [|d0 rest]]; [done| |].
    + apply stops_8_10 in Hstop. unfold stops, is_digit in Hstop. simpl in *.
      destruct (digit_value b); [|done]. by rewrite Hstop.
    + rewrite Hhex. simpl. apply stops_8_10 in Hstop. unfold stops, is_digit in Hstop. simpl in *.
      destruct (digit_value b); [|done]. by rewrite Hstop.
  - assert (Hne : digit_char d =? 48 = false) by (apply Z.eqb_neq; specialize (Hnz Hn0); lia).
    rewrite <- (digits_print 10 n rest) by (lia || done). rewrite Heq. simpl deref.
    replace (match (digit_char d :: ds) ++ rest with
      | a :: b :: d0 :: _ => (a =? 48) && ((b =? 120) || (b =? 88)) && is_digit 16 d0 | _ => false end)
      with false.
    + rewrite Hne. by rewrite (is_digit_char 10 d) by lia.
    + simpl. destruct (ds ++ rest) as [|b [|d0 l]]; [done..|]. by rewrite Hne.
Qed.

Lemma magnitude_hex n :
  0 <= n -> magnitude 0 (48 :: 120 :: print_unsigned 16 n) = Some (n, []).
Proof.
  intros Hn. destruct (print_unsigned_head 16 n) as (d & ds & Heq & Hd & _); [lia..|].
  pose proof (digits_print 16 n [] ltac:(lia) Hn eq_refl) as Hdig. rewrite app_nil_r in Hdig.
  unfold magnitude. rewrite Heq in *. cbn -[digits is_digit]. rewrite is_digit_char by lia. cbn -[digits].
  by rewrite Hdig.
Qed.

(** What follows the sign when there is no white space. *)
Lemma skip_spaces_digit f d l :
  0 <= d < 10 -> (forall c, 48 <= c <= 57 -> f c = false) ->
  skip_spaces f (digit_char d :: l) = digit_char d :: l /\ 48 <= digit_char d <= 57.
Proof.
  intros Hd Hf. assert (Hch : digit_char d = 48 + d) by (unfold digit_char; by rewrite (proj2 (Z.ltb_lt d 10)) by lia).
  split; [|lia]. simpl. by rewrite Hf by lia.
Qed.

Lemma isspace_digit c : 48 <= c <= 57 -> isspace c = false.
Proof.
  intros Hc. unfold isspace. rewrite (proj2 (Z.leb_gt _ 13)), (proj2 (Z.eqb_neq _ 32)) by lia.
  by rewrite andb_false_r.
Qed.

Lemma ascii_isspace_digit c : 48 <= c <= 57 -> ascii_isspace c = false.
Proof. intros Hc. unfold ascii_isspace. by rewrite !(proj2 (Z.eqb_neq c _)) by lia. Qed.

(** A number, after an optional minus sign. *)
Lemma strto_decimal base n rest (neg : bool) :
  base = 0 \/ base = 10 -> 0 <= n -> stops 10 rest ->
  (base = 0 -> n = 0 -> ~ is_Some (digit_value (deref rest))) ->
  strto base ((if neg then [45] else []) ++ print_unsigned 10 n ++ rest) = Some (neg, n, rest).
Proof.
  intros Hbase Hn Hstop Hzero. unfold strto.
  destruct neg; [simpl; by rewrite magnitude_decimal|].
  destruct (print_unsigned_head 10 n) as (d & ds & Heq & Hd & _); [lia..|].
  destruct (skip_spaces_digit isspace d (ds ++ rest) ltac:(lia) isspace_digit) as [Hs Hc].
  cbn [app]. replace (skip_spaces isspace (print_unsigned 10 n ++ rest)) with (print_unsigned 10 n ++ rest)
    by (rewrite Heq; symmetry; exact Hs).
  rewrite Heq at 1. cbn [app]. rewrite (proj2 (Z.eqb_neq _ 45)), (proj2 (Z.eqb_neq _ 43)) by lia.
  by rewrite magnitude_decimal.
Qed.

Lemma no_digit_nil : stops 10 [] /\ ~ is_Some (digit_value (deref [])).
Proof. split; [done|]. by intros [? ?]. Qed.

(** White space before the number is skipped before the sign is looked at. *)
Lemma parse_not_negative n k :
  0 <= n -> PARSE_ERROR_IF_NEGATIVE (print_unsigned 10 n) k = k (print_unsigned 10 n).
Proof.
  intros Hn. unfold PARSE_ERROR_IF_NEGATIVE.
  destruct (print_unsigned_head 10 n) as (d & ds & -> & Hd & _); [lia..|].
  destruct (skip_spaces_digit ascii_isspace d ds ltac:(lia) ascii_isspace_digit) as [-> Hc].
  simpl. by rewrite (proj2 (Z.eqb_neq _ 45)) by lia.
Qed.

Lemma strtol_signed n :
  INT64_MIN <= n <= INT64_MAX -> strtol (print_signed n) 0 = StrTo n (Some []) false.
Proof.
  intros Hn. destruct no_digit_nil as [Hs Hz].
  assert (strto 0 (print_signed n) = Some (n <? 0, Z.abs n, [])) as E.
  { unfold print_signed. destruct (Z.ltb_spec n 0).
    - pose proof (strto_decimal 0 (- n) [] true) as H'. rewrite app_nil_r in H'. simpl in H'.
      rewrite H' by (auto || lia). do 3 f_equal. lia.
    - pose proof (strto_decimal 0 n [] false) as H'. rewrite app_nil_r in H'. simpl in H'.
      rewrite H' by (auto || lia). do 3 f_equal. lia. }
  unfold strtol. rewrite E. replace (if n <? 0 then - Z.abs n else Z.abs n) with n
    by (destruct (Z.ltb_spec n 0); lia).
  by rewrite (proj2 (Z.ltb_ge n INT64_MIN)), (proj2 (Z.ltb_ge INT64_MAX n)) by lia.
Qed.

Lemma strtoul_unsigned n :
  0 <= n <= UINT64_MAX ->
  strtoul (print_unsigned 10 n) 0 = StrTo n (Some []) false /\
  strtoul (48 :: 120 :: print_unsigned 16 n) 0 = StrTo n (Some []) false.
Proof.
  intros Hn. destruct no_digit_nil as [Hs Hz]. unfold strtoul. split.
  - pose proof (strto_decimal 0 n [] false) as H'. rewrite app_nil_r in H'. simpl in H'.
    rewrite H' by (auto || lia). by rewrite (proj2 (Z.ltb_ge _ _)) by lia.
  - unfold strto. cbn -[magnitude print_unsigned]. rewrite magnitude_hex by lia. simpl.
    by rewrite (proj2 (Z.ltb_ge _ _)) by lia.
Qed.

(** The tail of the parsers with two range checks, one for a wider type. *)
Lemma tail_narrow (wide narrow : bool) r v :
  (st_value r = v -> narrow = false -> wide = false) ->
  PARSE_COMMON_TAIL (st_erange r || narrow) r = Value v <->
  PARSE_COMMON_TAIL (st_erange r || wide) r = Value v /\ (st_value r = v -> narrow = false).
Proof.
  intros Hw. unfold PARSE_COMMON_TAIL. destruct (st_erange r); [naive_solver|]. simpl.
  destruct (st_end r) as [rest|]; [|destruct wide, narrow; naive_solver].
  destruct (Z.eqb_spec (deref rest) 0); [|destruct wide, narrow; naive_solver].
  destruct wide, narrow; split; intros H; try naive_solver.
Qed.

Lemma tail_narrow_signed lo hi r v :
  INT64_MIN <= lo -> hi <= INT64_MAX ->
  PARSE_COMMON_TAIL (st_erange r || ((st_value r <? lo) || (hi <? st_value r))) r = Value v <->
  PARSE_COMMON_TAIL (st_erange r || ((st_value r <? INT64_MIN) || (INT64_MAX <? st_value r))) r = Value v /\
  lo <= v <= hi.
Proof.
  intros Hlo Hhi. rewrite (tail_narrow ((st_value r <? INT64_MIN) || (INT64_MAX <? st_value r))).
  - split; intros [H1 H2]; (split; [done|]).
    + assert (Hv : st_value r = v).
      { unfold PARSE_COMMON_TAIL in H1. repeat case_match; naive_solver. }
      specialize (H2 Hv). rewrite orb_false_iff, !Z.ltb_ge in H2. lia.
    + intros <-. rewrite orb_false_iff, !Z.ltb_ge. lia.
  - intros _. rewrite !orb_false_iff, !Z.ltb_ge. lia.
Qed.

Lemma tail_narrow_unsigned hi str v :
  hi <= UINT64_MAX ->
  PARSE_ERROR_IF_NEGATIVE str (fun str => let r := strtoul str 0 in
    PARSE_COMMON_TAIL (st_erange r || (hi <? st_value r)) r) = Value v <->
  nbdkit_parse_uint64_t str = Value v /\ v <= hi.
Proof.
  intros Hhi. unfold nbdkit_parse_uint64_t, PARSE_ERROR_IF_NEGATIVE, strtoull.
  destruct (deref _ =? 45); [naive_solver|]. set (r := strtoul _ 0). cbv zeta.
  rewrite (tail_narrow (UINT64_MAX <? st_value r)).
  - split; intros [H1 H2]; (split; [done|]).
    + assert (Hv : st_value r = v).
      { unfold PARSE_COMMON_TAIL in H1. repeat case_match; naive_solver. }
      specialize (H2 Hv). rewrite Z.ltb_ge in H2. lia.
    + intros <-. by rewrite Z.ltb_ge.
  - intros _. rewrite !Z.ltb_ge. lia.
Qed.

(** A size as it is written on the command line. *)
Definition size_text (n : Z) (suffix : option Z) : list Z :=
  print_unsigned 10 n ++ match suffix with Some c => [c] | None => [] end.

Lemma human_size_parse_text n suffix scale :
  0 <= n -> match suffix with Some c => scale_of c | None => Some 1 end = Some scale ->
  human_size_parse (size_text n suffix) =
    if n * scale <=? INT64_MAX then (n * scale, None)
    else (-1, Some (if n <=? INT64_MAX then size_scale_overflows else size_exceeds_maximum)).
Proof.
  intros Hn Hscale. set (rest := match suffix with Some c => [c] | None => [] end).
  assert (Hs : 1 <= scale /\ stops 10 rest).
  { subst rest. destruct suffix as [c|]; [|simplify_eq; by split]. change (scale_of c = Some scale) in Hscale.
    unfold scale_of in Hscale. cbv zeta in Hscale.
    assert (Hlow : ascii_isdigit (deref [c]) = true -> ascii_tolower c = c /\ 48 <= c <= 57).
    { unfold ascii_isdigit, ascii_tolower, ascii_isupper. simpl.
      rewrite andb_true_iff, !Z.leb_le. intros ?. rewrite (proj2 (Z.leb_gt 65 c)) by lia. auto. }
    revert Hscale. repeat match goal with
    | |- context [ascii_tolower c =? ?k] =>
        destruct (Z.eqb_spec (ascii_tolower c) k) as [Hk|_]; [intros [= <-]; split; [lia|]|]
    end; [..|done].
    all: unfold stops, is_digit, digit_value;
      destruct (ascii_isdigit (deref [c])) eqn:E; [destruct (Hlow eq_refl); lia|].
    all: simpl; destruct (ascii_islower c) eqn:E1; [apply Z.ltb_ge; unfold ascii_islower in E1;
      rewrite andb_true_iff, !Z.leb_le in E1; lia|].
    all: destruct (ascii_isupper c) eqn:E2; [apply Z.ltb_ge; unfold ascii_isupper in E2;
      rewrite andb_true_iff, !Z.leb_le in E2; lia|done]. }
  destruct Hs as [Hs1 Hstop].
  pose proof (strto_decimal 10 n rest false (or_intror eq_refl) Hn Hstop ltac:(lia)) as E. simpl in E.
  unfold human_size_parse, strtoimax, strtol, size_text. fold rest. rewrite E.
  rewrite (proj2 (Z.ltb_ge n INT64_MIN)) by (unfold INT64_MIN; lia).
  destruct (Z.ltb_spec INT64_MAX n).
  { cbn [st_end st_value st_erange]. rewrite (proj2 (Z.ltb_ge _ 0)) by (limits; lia).
    rewrite (proj2 (Z.leb_gt (n * scale) _)), (proj2 (Z.leb_gt n _)) by nia. done. }
  cbn [st_end st_value st_erange]. rewrite (proj2 (Z.ltb_ge n 0)) by lia.
  subst rest. destruct suffix as [c|].
  - rewrite Hscale. cbn [deref]. cbn -[Z.mul Z.leb Z.ltb Z.div].
    destruct (Z.ltb_spec (INT64_MAX / scale) n) as [Hlt|Hge].
    + pose proof (Z.mul_succ_div_gt INT64_MAX scale ltac:(lia)).
      by rewrite (proj2 (Z.leb_gt (n * scale) _)), (proj2 (Z.leb_le n _)) by nia.
    + assert (n * scale <= INT64_MAX).
      { pose proof (Z.mul_div_le INT64_MAX scale ltac:(lia)). nia. }
      rewrite (proj2 (Z.leb_le _ _)) by done. by rewrite u64_small, i64_small by (limits; nia).
  - simplify_eq. rewrite Z.mul_1_r, (proj2 (Z.leb_le _ _)) by lia. done.
Qed.

(** Numbers survive printing and parsing: [nbdkit_parse_int64_t] returns
    every 64-bit signed number from its decimal text, [nbdkit_parse_uint64_t]
    every 64-bit unsigned number from its decimal and its hexadecimal text,
    and [nbdkit_parse_size] every size; and the parsers of the narrower types
    accept exactly the numbers of these that are in their range. *)
Lemma parse_print_roundtrip :
  (forall n, INT64_MIN <= n <= INT64_MAX -> nbdkit_parse_int64_t (print_signed n) = Value n) /\
  (forall n, 0 <= n <= UINT64_MAX ->
     nbdkit_parse_uint64_t (print_unsigned 10 n) = Value n /\
     nbdkit_parse_uint64_t (48 :: 120 :: print_unsigned 16 n) = Value n) /\
  (forall n, 0 <= n <= INT64_MAX -> nbdkit_parse_size (print_unsigned 10 n) = n) /\
  (forall str r,
     (nbdkit_parse_int str = Value r <-> nbdkit_parse_int64_t str = Value r /\ INT_MIN <= r <= INT_MAX) /\
     (nbdkit_parse_int8_t str = Value r <-> nbdkit_parse_int64_t str = Value r /\ -128 <= r <= 127) /\
     (nbdkit_parse_int16_t str = Value r <-> nbdkit_parse_int64_t str = Value r /\ -32768 <= r <= 32767) /\
     (nbdkit_parse_int32_t str = Value r <-> nbdkit_parse_int64_t str = Value r /\ INT_MIN <= r <= INT32_MAX) /\
     (nbdkit_parse_unsigned str = Value r <-> nbdkit_parse_uint64_t str = Value r /\ r <= UINT32_MAX) /\
     (nbdkit_parse_uint8_t str = Value r <-> nbdkit_parse_uint64_t str = Value r /\ r <= 255) /\
     (nbdkit_parse_uint16_t str = Value r <-> nbdkit_parse_uint64_t str = Value r /\ r <= UINT16_MAX) /\
     (nbdkit_parse_uint32_t str = Value r <-> nbdkit_parse_uint64_t str = Value r /\ r <= UINT32_MAX)).
Proof.
  split; [|split; [|split]].
  - intros n Hn. unfold nbdkit_parse_int64_t, strtoll. rewrite strtol_signed by done. simpl.
    by rewrite (proj2 (Z.ltb_ge n _)), (proj2 (Z.ltb_ge _ n)) by lia.
  - intros n Hn. destruct (strtoul_unsigned n Hn) as [Hd Hx]. unfold nbdkit_parse_uint64_t, strtoull. split.
    + rewrite parse_not_negative, Hd by lia. simpl. by rewrite (proj2 (Z.ltb_ge _ n)) by lia.
    + unfold PARSE_ERROR_IF_NEGATIVE. cbn -[strtoul print_unsigned]. rewrite Hx. simpl.
      by rewrite (proj2 (Z.ltb_ge _ n)) by lia.
  - intros n Hn. pose proof (human_size_parse_text n None 1 ltac:(lia) eq_refl) as H.
    unfold size_text in H. rewrite app_nil_r, Z.mul_1_r, (proj2 (Z.leb_le _ _)) in H by lia.
    unfold nbdkit_parse_size. by rewrite H.
  - intros str r.
    do 4 (split; [apply tail_narrow_signed; unfold INT64_MIN, INT_MIN, INT_MAX; limits; lia|]).
    do 3 (split; [apply tail_narrow_unsigned; limits; lia|]). apply tail_narrow_unsigned; limits; lia.
Qed.

(** C31: A size is parsed without overflow: a decimal number of any length
    with an optional suffix gives exactly the number times the power of 1024
    (or 512 for sectors) when that is at most INT64_MAX and -1 otherwise, and
    no text at all gives anything but -1 or a number from 0 to INT64_MAX. *)
Theorem parse_size_exact n suffix scale str :
  0 <= n -> match suffix with Some c => scale_of c | None => Some 1 end = Some scale ->
  nbdkit_parse_size (size_text n suffix) = (if n * scale <=? INT64_MAX then n * scale else -1) /\
  (nbdkit_parse_size str = -1 \/ 0 <= nbdkit_parse_size str <= INT64_MAX).
Proof.
  intros Hn Hscale. unfold nbdkit_parse_size. split.
  - rewrite (human_size_parse_text n suffix scale) by done. by destruct (_ <=? _).
  - unfold human_size_parse. destruct (st_end _) as [rest|] eqn:E; [|by left].
    destruct (Z.ltb_spec (st_value (strtoimax str 10)) 0); [by left|].
    destruct (st_erange _); [by left|].
    assert (Hle : st_value (strtoimax str 10) <= INT64_MAX).
    { unfold strtoimax, strtol in *. destruct (strto 10 str) as [[[neg m] r]|]; [|done].
      destruct (_ <? _); [done|]. destruct (Z.ltb_spec INT64_MAX (if neg then - m else m)); [done|]. done. }
    destruct rest as [|c more]; [by right|].
    destruct (scale_of c) as [sc|] eqn:Hsc; [|by left]. destruct (negb _); [by left|].
    destruct (Z.ltb_spec (INT64_MAX / sc) (st_value (strtoimax str 10))) as [|Hq]; [by left|]. right. simpl.
    assert (Hpos : 1 <= sc).
    { unfold scale_of in Hsc. cbv zeta in Hsc. repeat case_match; simplify_eq; lia. }
    pose proof (Z.mul_div_le INT64_MAX sc ltac:(lia)).
    rewrite u64_small by (limits; nia). rewrite i64_small by (limits; nia). nia.
Qed.

Lemma parse_size_exact_witness :
  nbdkit_parse_size (size_text 3 (Some 77)) = 3145728 /\
  nbdkit_parse_size (size_text 8 (Some 101)) = -1.
Proof.
  split; [apply (parse_size_exact 3 (Some 77) 1048576 [])|apply (parse_size_exact 8 (Some 101) (1024 ^ 6) [])];
    vm_compute; done.
Defined.

(** The parsers of unsigned numbers are not protected from every negative
    number: [PARSE_ERROR_IF_NEGATIVE] does not skip a vertical tab but
    [strtoull] does, so a minus sign after one is accepted and the number
    wraps around. *)
Lemma parse_uint64_accepts_negative m :
  1 <= m <= UINT64_MAX ->
  nbdkit_parse_uint64_t (11 :: 45 :: print_unsigned 10 m) = Value (18446744073709551616 - m).
Proof.
  intros Hm. destruct no_digit_nil as [Hs Hz].
  pose proof (strto_decimal 0 m [] true (or_introl eq_refl) ltac:(lia) Hs ltac:(lia)) as E.
  rewrite app_nil_r in E. simpl in E.
  unfold nbdkit_parse_uint64_t, PARSE_ERROR_IF_NEGATIVE, strtoull, strtoul.
  cbn -[strto print_unsigned]. change (strto 0 (11 :: 45 :: print_unsigned 10 m)) with
    (strto 0 (45 :: print_unsigned 10 m)). rewrite E.
  rewrite (proj2 (Z.ltb_ge UINT64_MAX m)) by lia. simpl.
  assert (u64 (- m) = 18446744073709551616 - m) as ->.
  { unfold u64. rewrite <- (Z_mod_plus_full (- m) 1). rewrite Z.mod_small; limits; lia. }
  by rewrite (proj2 (Z.ltb_ge UINT64_MAX _)) by (limits; lia).
Qed.

Lemma parse_uint64_accepts_negative_witness :
  nbdkit_parse_uint64_t (11 :: 45 :: print_unsigned 10 1) = Value (18446744073709551616 - 1).
Proof. apply (parse_uint64_accepts_negative 1). limits. lia. Defined.

(** ** Booleans *)

(** Strings that differ only in the case of their letters. *)
Lemma ascii_strcasecmp_eq s1 s2 :
  Forall (fun c => 0 < c) s1 -> Forall (fun c => 0 < c) s2 ->
  ascii_strcasecmp s1 s2 = 0 <-> ascii_tolower <$> s1 = ascii_tolower <$> s2.
Proof.
  assert (Hlow : forall c, 0 < c -> 0 < ascii_tolower c).
  { intros c Hc. unfold ascii_tolower. destruct (ascii_isupper c); lia. }
  intros H1. revert s2. induction H1 as [|c s1 Hc H1 IH]; intros [|c' s2] H2; cbn -[ascii_tolower Z.eqb Z.sub].
  - done.
  - apply Forall_cons in H2 as [Hc' H2]. specialize (Hlow c' Hc').
    change (ascii_tolower 0) with 0. rewrite (proj2 (Z.eqb_neq 0 _)) by lia. split; [lia|done].
  - specialize (Hlow c Hc). change (ascii_tolower 0) with 0. rewrite (proj2 (Z.eqb_neq _ 0)) by lia.
    split; [lia|done].
  - apply Forall_cons in H2 as [Hc' H2]. destruct (Z.eqb_spec (ascii_tolower c) (ascii_tolower c')) as [E|E].
    + rewrite IH by done. rewrite E. split; [by intros ->|by intros [= ->]].
    + split; [lia|]. intros [= ? ?]. lia.
Qed.

(** The answer does not depend on the case of the letters. *)
Lemma parse_bool_case str str' :
  Forall (fun c => 0 < c) str -> Forall (fun c => 0 < c) str' ->
  ascii_tolower <$> str = ascii_tolower <$> str' -> nbdkit_parse_bool str = nbdkit_parse_bool str'.
Proof.
  intros Hs Hs' Heq.
  assert (Hcase : forall w, Forall (fun c => 0 < c) w -> strcasecmp_eq str w = strcasecmp_eq str' w).
  { intros w Hw. unfold strcasecmp_eq. apply eq_true_iff_eq. rewrite !Z.eqb_eq.
    by rewrite !ascii_strcasecmp_eq, Heq. }
  assert (Hone : forall c, ascii_isdigit c = true -> strcmp_eq str [c] = strcmp_eq str' [c]).
  { intros c Hd. unfold strcmp_eq. apply bool_decide_ext.
    assert (Hinv : forall a, ascii_tolower a = ascii_tolower c <-> a = c).
    { intros a. unfold ascii_tolower, ascii_isupper, ascii_isdigit in *.
      apply andb_true_iff in Hd as [? ?]. rewrite (proj2 (Z.leb_gt 65 c)) by lia. simpl.
      destruct (Z.leb_spec 65 a), (Z.leb_spec a 90); simpl; lia. }
    destruct str as [|a [|? ?]], str' as [|b [|? ?]]; try done; simpl in Heq; simplify_eq; naive_solver. }
  unfold nbdkit_parse_bool. rewrite (Hone 49), (Hone 48) by done.
  by rewrite !Hcase by (repeat constructor; lia).
Qed.
