(* ===== verification/Bytes.v ===== *)
(** * Buffers, byte arrays and allocation

    What the data structures under [common/] share: reading and writing
    parts of a byte array, the abstract array (a function from offsets to
    bytes) they are compared with, [is_zero] and [next_non_zero] of
    [common/include], and the monad [AM] of code that allocates memory. *)

From S2P Require Import Prelude Server.

(** ** Abstract byte arrays *)

Definition slice (d : Z -> Z) (offset count : Z) : list Z := d <$> seqZ offset count.

(** [d] with the bytes of [buf] at [offset]. *)
Definition overwrite (d : Z -> Z) (buf : list Z) (offset : Z) : Z -> Z := fun x =>
  if decide (offset <= x < offset + Z.of_nat (length buf))
  then nth (Z.to_nat (x - offset)) buf 0 else d x.

(** [d] with [count] bytes [c] at [offset]. *)
Definition fill (d : Z -> Z) (c count offset : Z) : Z -> Z := fun x =>
  if decide (offset <= x < offset + count) then c else d x.

(** [memset]: a buffer of [n] bytes [c]. *)
Definition memset (c n : Z) : list Z := replicate (Z.to_nat n) c.

Lemma length_slice d offset count : length (slice d offset count) = Z.to_nat count.
Proof. unfold slice. by rewrite length_fmap, length_seqZ. Qed.

Lemma length_memset c n : length (memset c n) = Z.to_nat n.
Proof. apply length_replicate. Qed.

Lemma slice_app d offset n m :
  0 <= n -> 0 <= m -> slice d offset (n + m) = slice d offset n ++ slice d (offset + n) m.
Proof. intros. unfold slice. by rewrite seqZ_app, fmap_app by done. Qed.

Lemma slice_ext d d' offset count :
  (forall x, offset <= x < offset + count -> d x = d' x) ->
  slice d offset count = slice d' offset count.
Proof.
  intros H. unfold slice. apply list_fmap_ext. intros i x Hx.
  apply lookup_seqZ in Hx as [-> ?]. apply H. lia.
Qed.

Lemma slice_nil d offset : slice d offset 0 = [].
Proof. done. Qed.

Lemma slice_const d c offset count :
  (forall x, offset <= x < offset + count -> d x = c) -> slice d offset count = memset c count.
Proof.
  intros H. rewrite (slice_ext d (fun _ => c)) by done. unfold slice, memset.
  apply list_eq. intros i. rewrite list_lookup_fmap.
  destruct (decide (i < Z.to_nat count)%nat) as [Hi|Hi].
  - rewrite lookup_replicate_2 by done. rewrite (lookup_seqZ_lt offset count) by lia. done.
  - rewrite (lookup_seqZ_ge offset count) by lia. symmetry. apply lookup_replicate_None. lia.
Qed.

(** A slice seen element by element. *)
Lemma lookup_slice d offset count i :
  0 <= i < count -> slice d offset count !! Z.to_nat i = Some (d (offset + i)).
Proof.
  intros Hi. unfold slice. rewrite list_lookup_fmap, lookup_seqZ_lt by lia. simpl.
  by rewrite Z2Nat.id by lia.
Qed.

Lemma nth_slice d offset count i :
  0 <= i < count -> nth (Z.to_nat i) (slice d offset count) 0 = d (offset + i).
Proof. intros Hi. apply nth_lookup_Some. by apply lookup_slice. Qed.

Lemma slice_of_list (l : list Z) d offset :
  (forall i, 0 <= i < Z.of_nat (length l) -> d (offset + i) = nth (Z.to_nat i) l 0) ->
  slice d offset (Z.of_nat (length l)) = l.
Proof.
  intros H. apply list_eq. intros i. destruct (decide (i < length l)%nat) as [Hi|Hi].
  - rewrite <- (Nat2Z.id i), lookup_slice by lia. rewrite H by lia. rewrite Nat2Z.id.
    destruct (nth_lookup_or_length l i 0) as [->|]; [done|lia].
  - rewrite !lookup_ge_None_2; [done|lia|]. rewrite length_slice. lia.
Qed.

Lemma overwrite_out d buf offset x :
  ~ (offset <= x < offset + Z.of_nat (length buf)) -> overwrite d buf offset x = d x.
Proof. intros. unfold overwrite. by rewrite decide_False. Qed.

Lemma overwrite_in d buf offset x :
  offset <= x < offset + Z.of_nat (length buf) ->
  overwrite d buf offset x = nth (Z.to_nat (x - offset)) buf 0.
Proof. intros. unfold overwrite. by rewrite decide_True. Qed.

Lemma overwrite_nil d offset x : overwrite d [] offset x = d x.
Proof. apply overwrite_out. simpl. lia. Qed.

Lemma overwrite_ext d d' buf offset x :
  d x = d' x -> overwrite d buf offset x = overwrite d' buf offset x.
Proof. intros H. unfold overwrite. by destruct (decide _). Qed.

Lemma overwrite_app d b1 b2 offset x :
  overwrite d (b1 ++ b2) offset x =
  overwrite (overwrite d b1 offset) b2 (offset + Z.of_nat (length b1)) x.
Proof.
  unfold overwrite at 1 2. rewrite length_app, Nat2Z.inj_add.
  destruct (decide (offset + Z.of_nat (length b1) <= x <
                    offset + Z.of_nat (length b1) + Z.of_nat (length b2))).
  - rewrite decide_True by lia. rewrite app_nth2 by lia. f_equal. lia.
  - unfold overwrite. destruct (decide (offset <= x < offset + Z.of_nat (length b1))).
    + rewrite decide_True by lia. by rewrite app_nth1 by lia.
    + by rewrite decide_False by lia.
Qed.

Lemma nth_memset c n i : 0 <= i < n -> nth (Z.to_nat i) (memset c n) 0 = c.
Proof.
  intros Hi. apply nth_lookup_Some. apply lookup_replicate_2. lia.
Qed.

Lemma overwrite_memset d c n offset x :
  overwrite d (memset c n) offset x = fill d c n offset x.
Proof.
  unfold overwrite, fill. rewrite length_memset.
  destruct (decide (offset <= x < offset + n)).
  - rewrite decide_True by lia. apply nth_memset. lia.
  - by rewrite decide_False by lia.
Qed.

(** Reading back what was written. *)
Lemma slice_overwrite d buf offset :
  slice (overwrite d buf offset) offset (Z.of_nat (length buf)) = buf.
Proof.
  apply slice_of_list. intros i Hi. rewrite overwrite_in by lia. do 2 f_equal. lia.
Qed.

(** ** Parts of a buffer *)

(** [count] bytes of [l] from [offset] on. *)
Definition sub (l : list Z) (offset count : Z) : list Z :=
  take (Z.to_nat count) (drop (Z.to_nat offset) l).

(** [memcpy (l + offset, buf, ...)], inside [l]. *)
Definition splice (l buf : list Z) (offset : Z) : list Z :=
  take (Z.to_nat offset) l ++ buf ++ drop (Z.to_nat offset + length buf) l.

Lemma length_sub l offset count :
  0 <= offset -> 0 <= count -> offset + count <= Z.of_nat (length l) ->
  length (sub l offset count) = Z.to_nat count.
Proof. intros. unfold sub. rewrite length_take, length_drop. lia. Qed.

Lemma nth_sub l offset count i :
  0 <= offset -> 0 <= i < count -> offset + count <= Z.of_nat (length l) ->
  nth (Z.to_nat i) (sub l offset count) 0 = nth (Z.to_nat (offset + i)) l 0.
Proof.
  intros. unfold sub. destruct (lookup_lt_is_Some_2 l (Z.to_nat (offset + i))) as [b Hb]; [lia|].
  transitivity b; [|symmetry; by apply nth_lookup_Some]. apply nth_lookup_Some.
  rewrite lookup_take_lt by lia. rewrite lookup_drop. rewrite <- Hb. f_equal. lia.
Qed.

Lemma length_splice l buf offset :
  0 <= offset -> offset + Z.of_nat (length buf) <= Z.of_nat (length l) ->
  length (splice l buf offset) = length l.
Proof.
  intros. unfold splice. rewrite !length_app, length_take, length_drop. lia.
Qed.

Lemma nth_splice l buf offset i :
  0 <= offset -> offset + Z.of_nat (length buf) <= Z.of_nat (length l) -> 0 <= i ->
  nth (Z.to_nat i) (splice l buf offset) 0 =
  if decide (offset <= i < offset + Z.of_nat (length buf))
  then nth (Z.to_nat (i - offset)) buf 0 else nth (Z.to_nat i) l 0.
Proof.
  intros Ho Hl Hi. rewrite !nth_lookup. unfold splice.
  destruct (decide _) as [Hin|Hout].
  - rewrite lookup_app_r by (rewrite length_take; lia). rewrite length_take.
    rewrite lookup_app_l by lia. do 2 f_equal. lia.
  - destruct (decide (i < offset)).
    + rewrite lookup_app_l by (rewrite length_take; lia). by rewrite lookup_take_lt by lia.
    + rewrite lookup_app_r by (rewrite length_take; lia). rewrite length_take.
      rewrite lookup_app_r by lia. rewrite lookup_drop. do 2 f_equal. lia.
Qed.

Lemma sub_slice d offset count i n :
  0 <= i -> 0 <= n -> i + n <= count -> sub (slice d offset count) i n = slice d (offset + i) n.
Proof.
  intros Hi Hn Hle. unfold sub. replace count with (i + (n + (count - i - n))) by lia.
  rewrite !slice_app by lia. rewrite drop_app_length' by (rewrite length_slice; lia).
  by rewrite take_app_length' by (rewrite length_slice; lia).
Qed.

Lemma drop_slice d o n m : 0 <= n -> 0 <= m -> drop (Z.to_nat n) (slice d o (n + m)) = slice d (o + n) m.
Proof. intros Hn Hm. rewrite slice_app by lia. by rewrite drop_app_length' by (rewrite length_slice; lia). Qed.

Lemma take_slice d offset count n : 0 <= n <= count -> take (Z.to_nat n) (slice d offset count) = slice d offset n.
Proof. intros Hn. pose proof (sub_slice d offset count 0 n ltac:(lia) ltac:(lia) ltac:(lia)) as H. by rewrite Z.add_0_r in H. Qed.

(** ** [common/include/iszero.h] and [nextnonzero.h] *)

(** The reference: all bytes are zero. *)
Definition all_zero (l : list Z) : bool := forallb (fun b => b =? 0) l.

(** [memcmp] of the first [n] bytes, as equality. *)
Definition memeq (l l' : list Z) (n : Z) : bool :=
  bool_decide (take (Z.to_nat n) l = take (Z.to_nat n) l').

Definition is_zero (buffer : list Z) (size : Z) : bool :=
  let limit := if size <? 16 then size else 16 in
  if negb (all_zero (take (Z.to_nat limit) buffer)) then false
  else if negb (size =? limit) then memeq buffer (drop 16 buffer) (size - 16)
  else true.

Fixpoint next_non_zero (buffer : list Z) : option nat :=
  match buffer with
  | [] => None
  | b :: buffer' => if b =? 0 then S <$> next_non_zero buffer' else Some O
  end.

Lemma all_zero_spec l : all_zero l = true <-> Forall (fun b => b = 0) l.
Proof.
  unfold all_zero. rewrite forallb_forall, Forall_forall.
  split; intros H x Hx; apply Z.eqb_eq, H; by apply list_elem_of_In.
Qed.

Lemma all_zero_nth l : all_zero l = true <-> forall i, nth i l 0 = 0.
Proof.
  rewrite all_zero_spec, Forall_lookup. split; intros H i.
  - rewrite nth_lookup. destruct (l !! i) eqn:E; [by apply (H i)|done].
  - intros x Hx. rewrite <- (H i). symmetry. by apply nth_lookup_Some.
Qed.

Lemma lookup_nth (l : list Z) i : (i < length l)%nat -> l !! i = Some (nth i l 0).
Proof. intros Hi. destruct (nth_lookup_or_length l i 0); [done|lia]. Qed.

(** The overlapping comparison says that the zeroes repeat. *)
Lemma is_zero_all_zero l : is_zero l (Z.of_nat (length l)) = all_zero l.
Proof.
  unfold is_zero, memeq. destruct (Z.ltb_spec (Z.of_nat (length l)) 16).
  { rewrite Z.eqb_refl, Nat2Z.id, take_ge by lia. by destruct (all_zero l). }
  change (Z.to_nat 16) with 16%nat. apply eq_true_iff_eq.
  assert (Hall : all_zero l = true <-> all_zero (take 16 l) = true /\
    take (length l - 16) l = drop 16 l).
  { rewrite !all_zero_nth. split.
    - intros Hz. split; [intros i; rewrite nth_lookup|].
      + destruct (decide (i < 16)%nat);
          [by rewrite lookup_take_lt, <- nth_lookup by done|by rewrite lookup_take_ge by lia].
      + apply list_eq. intros i. rewrite lookup_drop.
        destruct (decide (i < length l - 16)%nat).
        * rewrite lookup_take_lt by done.
          rewrite (lookup_nth l i), (lookup_nth l (16 + i)) by lia.
          by rewrite !Hz.
        * rewrite lookup_take_ge, lookup_ge_None_2 by lia. done.
    - intros [Hz Hsh] i. induction (lt_wf i) as [i _ IH].
      destruct (decide (i < 16)%nat).
      + specialize (Hz i). by rewrite nth_lookup, lookup_take_lt, <- nth_lookup in Hz by done.
      + destruct (decide (i < length l)%nat); [|by rewrite nth_overflow by lia].
        transitivity (nth (i - 16) l 0); [|apply IH; lia]. rewrite !nth_lookup.
        replace i with (16 + (i - 16))%nat at 1 by lia. rewrite <- lookup_drop, <- Hsh.
        by rewrite lookup_take_lt by lia. }
  rewrite Hall. replace (Z.to_nat (Z.of_nat (length l) - 16)) with (length l - 16)%nat by lia.
  rewrite (take_ge (drop 16 l)) by (rewrite length_drop; lia).
  destruct (all_zero (take 16 l)); simpl; [|intuition done].
  destruct (Z.eqb_spec (Z.of_nat (length l)) 16); simpl.
  - replace (length l) with 16%nat by lia. rewrite drop_ge by lia. intuition done.
  - rewrite bool_decide_eq_true. intuition done.
Qed.

Lemma next_non_zero_Some l i :
  next_non_zero l = Some i <->
  (i < length l)%nat /\ nth i l 0 <> 0 /\ forall j, (j < i)%nat -> nth j l 0 = 0.
Proof.
  revert i. induction l as [|b l IH]; intros i; simpl; [split; [done|lia]|].
  destruct (Z.eqb_spec b 0) as [->|Hb].
  - rewrite fmap_Some. split.
    + intros (j & Hj & ->). apply IH in Hj as (Hl & Hn & Hz). split; [lia|]. split; [done|].
      intros [|k] Hk; [done|]. apply Hz. lia.
    + intros (Hl & Hn & Hz). destruct i as [|i]; [done|]. exists i. split; [|done].
      apply IH. split; [lia|]. split; [done|]. intros j Hj. apply (Hz (S j)). lia.
  - split.
    + intros [= <-]. split; [lia|]. split; [done|]. lia.
    + intros (Hl & Hn & Hz). destruct i as [|i]; [done|]. by specialize (Hz O ltac:(lia)).
Qed.

Lemma next_non_zero_None l : next_non_zero l = None <-> all_zero l = true.
Proof.
  unfold all_zero. induction l as [|b l IH]; simpl; [done|].
  destruct (b =? 0); simpl; [|done]. rewrite <- IH. by destruct (next_non_zero l).
Qed.

(** ** Allocation

    The monad of code that allocates: it reads whether each coming
    allocation succeeds ([malloc], [calloc], [realloc]; all of them once the
    list is exhausted), and can crash like [M]. *)
Definition AM (A : Type) : Type := list bool -> outcome (A * list bool).

#[global] Instance AM_ret : MRet AM := fun A a mem => Ok (a, mem).
#[global] Instance AM_bind : MBind AM := fun A B k m mem =>
  match m mem with
  | Ok (a, mem') => k a mem'
  | Crash c => Crash c
  end.

Definition hfail {A} (c : crash) : AM A := fun _ => Crash c.
Definition hassert (b : bool) : AM unit := if b then mret tt else hfail AssertFailed.

(** Does the next allocation succeed? *)
Definition allocate : AM bool := fun mem =>
  match mem with
  | [] => Ok (true, [])
  | ok :: mem => Ok (ok, mem)
  end.

(** Total correctness, as [wp]. *)
Definition hwp {A} (m : AM A) (Q : A -> list bool -> Prop) (mem : list bool) : Prop :=
  match m mem with
  | Ok (a, mem') => Q a mem'
  | Crash _ => False
  end.

Section Hwp.
Implicit Types (mem : list bool).

Lemma hwp_ret {A} (a : A) Q mem : hwp (mret a : AM A) Q mem <-> Q a mem.
Proof. done. Qed.

Lemma hwp_bind {A B} (m : AM A) (k : A -> AM B) Q mem :
  hwp (m ≫= k) Q mem <-> hwp m (fun a mem' => hwp (k a) Q mem') mem.
Proof. unfold hwp, mbind, AM_bind. destruct (m mem) as [[a mem']|]; done. Qed.

Lemma hwp_mono {A} (m : AM A) (P Q : A -> list bool -> Prop) mem :
  hwp m P mem -> (forall a mem', P a mem' -> Q a mem') -> hwp m Q mem.
Proof. unfold hwp. destruct (m mem) as [[a mem']|]; auto. Qed.

Lemma hwp_assert b (Q : unit -> list bool -> Prop) mem :
  hwp (hassert b) Q mem <-> b = true /\ Q tt mem.
Proof. unfold hassert, hwp. destruct b; simpl; [tauto|]. split; [done|by intros [? _]]. Qed.

(** Allocations that cannot fail stay so. *)
Lemma hwp_allocate Q mem :
  (forall ok mem', (mem = [] -> ok = true /\ mem' = []) -> Q ok mem') -> hwp allocate Q mem.
Proof. intros HQ. unfold hwp, allocate. destruct mem; by apply HQ. Qed.

Lemma hwp_ok {A} (m : AM A) Q mem :
  hwp m Q mem -> exists a mem', m mem = Ok (a, mem') /\ Q a mem'.
Proof. unfold hwp. destruct (m mem) as [[a mem']|]; [eauto|done]. Qed.

Lemma hwp_intro {A} (m : AM A) (Q : A -> list bool -> Prop) mem a mem' :
  m mem = Ok (a, mem') -> Q a mem' -> hwp m Q mem.
Proof. unfold hwp. by intros ->. Qed.
End Hwp.

#[global] Arguments hwp : simpl never.
#[global] Arguments slice : simpl never.
#[global] Arguments memset : simpl never.
