(* ===== verification/Io.v ===== *)
(** * Files

    Files as the operating system provides them to plugins and filters:
    [pread] and [pwrite] transfer all of a request, a part of it, or fail.
    Models the loops of [common/utils/full-rw.c] on top of them. *)

From S2P Require Import Prelude NbdProtocol Server Bytes.

(** What a system call on a file does: everything, at most [n + 1]
    bytes, or fail.  When the list is exhausted, everything. *)
Inductive io_event : Type :=
| IoAll
| IoShort (n : nat)
| IoErr (errno : Z).

Record os_file : Type := OsFile {
  of_data : Z -> Z;       (* a sparse file: zeroes where nothing was written *)
  of_size : Z;
  of_io : list io_event;
}.

Definition pop_io (ov : os_file) : io_event * os_file :=
  match of_io ov with
  | [] => (IoAll, ov)
  | e :: io => (e, OsFile (of_data ov) (of_size ov) io)
  end.

(** [pwrite]: the number of bytes, or the error number. *)
Definition of_pwrite (ov : os_file) (buf : list Z) (count offset : Z) : (Z + Z) * os_file :=
  let '(e, ov) := pop_io ov in
  let written n :=
    (inr n, OsFile (overwrite (of_data ov) (take (Z.to_nat n) buf) offset)
              (Z.max (of_size ov) (offset + n)) (of_io ov)) in
  match e with
  | IoAll => written count
  | IoShort n => written (Z.min count (Z.of_nat (S n)))
  | IoErr errno => (inl errno, ov)
  end.

(** [pread]: the bytes, or the error number. *)
Definition of_pread (ov : os_file) (count offset : Z) : (Z + list Z) * os_file :=
  let '(e, ov) := pop_io ov in
  let available := Z.max 0 (Z.min count (of_size ov - offset)) in
  match e with
  | IoAll => (inr (slice (of_data ov) offset available), ov)
  | IoShort n => (inr (slice (of_data ov) offset (Z.min available (Z.of_nat (S n)))), ov)
  | IoErr errno => (inl errno, ov)
  end.

(** The loops of [full-rw.c].  Neither of them advances [buf]: after a short
    transfer the next one starts again at the beginning of the buffer.  The
    result is the error number, or the buffer; every iteration transfers at
    least a byte. *)
Fixpoint full_pwrite (fuel : nat) (ov : os_file) (buf : list Z) (count offset : Z)
    : outcome (option Z * os_file) :=
  if 0 <? count then
    match fuel with
    | O => Crash OutOfFuel
    | S fuel =>
        match of_pwrite ov buf count offset with
        | (inl errno, ov) => Ok (Some errno, ov)
        | (inr r, ov) => full_pwrite fuel ov buf (count - r) (offset + r)
        end
    end
  else Ok (None, ov).

Fixpoint full_pread (fuel : nat) (ov : os_file) (buf : list Z) (count offset : Z)
    : outcome ((Z + list Z) * os_file) :=
  if 0 <? count then
    match fuel with
    | O => Crash OutOfFuel
    | S fuel =>
        match of_pread ov count offset with
        | (inl errno, ov) => Ok (inl errno, ov)
        | (inr [], ov) => Ok (inl EIO, ov)
        | (inr data, ov) =>
            let r := Z.of_nat (length data) in
            full_pread fuel ov (splice buf data 0) (count - r) (offset + r)
        end
    end
  else Ok (inr buf, ov).
