(* ===== verification/Vector.v ===== *)
(** * Vectors

    Models [common/utils/vector.c] and [vector.h] with the overflow checks
    of [common/include/checked-overflow.h]: growable arrays with their
    capacity, insertion and removal, and the binary search of the C library
    which [name##_search] calls. *)

From S2P Require Import Prelude NbdProtocol Server Bytes.

(** ** Overflow checks, at [size_t] and [uintmax_t] (64 bits) *)

(** [__builtin_add_overflow] and [__builtin_mul_overflow]: did it overflow,
    and the wrapped result. *)
Definition ADD_OVERFLOW (a b : Z) : bool * Z := (UINT64_MAX <? a + b, u64 (a + b)).
Definition MUL_OVERFLOW (a b : Z) : bool * Z := (UINT64_MAX <? a * b, u64 (a * b)).

(** The functions used where the compiler has no such builtins. *)
Definition check_add_overflow (a b max : Z) : bool * Z :=
  let r := u64 (a + b) in
  let in_range := ((a <=? UINT64_MAX - b) && (r <=? max))%bool in
  (negb in_range, r).

Definition check_mul_overflow (a b max : Z) : bool * Z :=
  let r := u64 (a * b) in
  let in_range := ((b =? 0) || ((a <=? UINT64_MAX / b) && (r <=? max)))%bool in
  (negb in_range, r).

(** ** Capacity *)

(** [None] is -1 with [errno = ENOMEM]; otherwise [newcap] and [newbytes]. *)
Definition calculate_capacity (cap n itemsize : Z) (exactly : bool) : option (Z * Z) :=
  let '(o1, reqcap) := ADD_OVERFLOW cap n in
  let '(o2, reqbytes) := MUL_OVERFLOW reqcap itemsize in
  if (o1 || o2)%bool then None
  else
    let '(o3, t) := ADD_OVERFLOW cap 1 in
    let '(o4, newcap) := ADD_OVERFLOW cap (t / 2) in
    let '(o5, newbytes) := MUL_OVERFLOW newcap itemsize in
    if (exactly || o3 || o4 || o5 || (newbytes <? reqbytes))%bool
    then Some (reqcap, reqbytes)
    else Some (newcap, newbytes).

(** [ptr[0]] to [ptr[len-1]], and the capacity. *)
Record vector {A : Type} : Type := Vec {
  v_items : list A;
  v_cap : Z;
}.
Arguments vector : clear implicits.
Arguments Vec {A}.

Definition empty_vector {A} : vector A := Vec [] 0.

Definition v_len {A} (v : vector A) : Z := Z.of_nat (length (v_items v)).

Section Vector.
Context {A : Type} (itemsize : Z).
Implicit Types (v : vector A).

(** The result is 0 or -1. *)
Definition generic_vector_reserve v (n : Z) (exactly : bool) : AM (Z * vector A) :=
  match calculate_capacity (v_cap v) n itemsize exactly with
  | None => mret (-1, v)
  | Some (newcap, _) =>
      ok ← allocate;
      if ok : bool then mret (0, Vec (v_items v) newcap) else mret (-1, v)
  end.

Definition vector_insert v (elem : A) (i : Z) : AM (Z * vector A) :=
  hassert (i <=? v_len v);;
  '(r, v) ← (if v_cap v <=? v_len v then generic_vector_reserve v 1 false else mret (0, v));
  if r =? -1 then mret (-1, v)
  else mret (0, Vec (take (Z.to_nat i) (v_items v) ++ elem :: drop (Z.to_nat i) (v_items v))
                  (v_cap v)).

Definition vector_append v (elem : A) : AM (Z * vector A) := vector_insert v elem (v_len v).

Definition vector_remove v (i : Z) : AM (vector A) :=
  hassert (i <? v_len v);;
  mret (Vec (take (Z.to_nat i) (v_items v) ++ drop (S (Z.to_nat i)) (v_items v)) (v_cap v)).

(** [bsearch]: the index of an element that compares equal. *)
Fixpoint bsearch_loop (fuel : nat) (compare : A -> Z) (items : list A) (l u : nat)
    : option nat :=
  if (l <? u)%nat then
    match fuel with
    | O => None
    | S fuel =>
        let idx := ((l + u) / 2)%nat in
        match items !! idx with
        | None => None
        | Some p =>
            if compare p <? 0 then bsearch_loop fuel compare items l idx
            else if 0 <? compare p then bsearch_loop fuel compare items (S idx) u
            else Some idx
        end
    end
  else None.

Definition vector_search v (compare : A -> Z) : option nat :=
  bsearch_loop (length (v_items v)) compare (v_items v) 0 (length (v_items v)).
End Vector.

(** ** Properties *)

Lemma check_add_overflow_builtin a b :
  0 <= a <= UINT64_MAX -> 0 <= b <= UINT64_MAX ->
  check_add_overflow a b UINT64_MAX = ADD_OVERFLOW a b.
Proof.
  intros Ha Hb. unfold check_add_overflow, ADD_OVERFLOW. f_equal.
  pose proof (u64_range (a + b)). rewrite (proj2 (Z.leb_le (u64 _) _)), andb_true_r by lia.
  destruct (Z.leb_spec a (UINT64_MAX - b)), (Z.ltb_spec UINT64_MAX (a + b)); (done || lia).
Qed.

Lemma check_mul_overflow_builtin a b :
  0 <= a <= UINT64_MAX -> 0 <= b <= UINT64_MAX ->
  check_mul_overflow a b UINT64_MAX = MUL_OVERFLOW a b.
Proof.
  intros Ha Hb. unfold check_mul_overflow, MUL_OVERFLOW. f_equal.
  pose proof (u64_range (a * b)). rewrite (proj2 (Z.leb_le (u64 _) _)), andb_true_r by lia.
  destruct (Z.eqb_spec b 0) as [->|]; simpl; [by rewrite Z.mul_0_r|].
  destruct (Z.leb_spec a (UINT64_MAX / b)) as [Hle|Hgt];
    destruct (Z.ltb_spec UINT64_MAX (a * b)); try done; exfalso.
  - apply Z.lt_nge in H0. apply H0. transitivity (UINT64_MAX / b * b); [nia|].
    rewrite Z.mul_comm. apply Z.mul_div_le. lia.
  - apply Z.lt_nge in Hgt. apply Hgt. apply Z.div_le_lower_bound; lia.
Qed.

(** The new capacity is at least what was asked for, and exactly that when
    asked exactly. *)
Lemma calculate_capacity_spec cap n itemsize exactly newcap newbytes :
  0 <= cap <= UINT64_MAX -> 0 <= n <= UINT64_MAX -> 0 < itemsize <= UINT64_MAX ->
  calculate_capacity cap n itemsize exactly = Some (newcap, newbytes) ->
  cap + n <= newcap <= UINT64_MAX /\ newbytes = newcap * itemsize /\ newbytes <= UINT64_MAX /\
  (exactly = true -> newcap = cap + n) /\ newcap <= Z.max (cap + n) (cap + (cap + 1) / 2).
Proof.
  intros Hc Hn Hi. unfold calculate_capacity, ADD_OVERFLOW, MUL_OVERFLOW.
  destruct (Z.ltb_spec UINT64_MAX (cap + n)) as [|H1]; simpl; [done|].
  rewrite (u64_small (cap + n)) by lia.
  destruct (Z.ltb_spec UINT64_MAX ((cap + n) * itemsize)) as [|H2]; simpl; [done|].
  rewrite (u64_small ((cap + n) * itemsize)) by nia.
  assert (Hreq : forall b, Some (cap + n, (cap + n) * itemsize) = Some (newcap, newbytes) ->
    cap + n <= newcap <= UINT64_MAX /\ newbytes = newcap * itemsize /\ newbytes <= UINT64_MAX /\
    (b = true -> newcap = cap + n) /\ newcap <= Z.max (cap + n) (cap + (cap + 1) / 2)).
  { intros b [= <- <-]. do 3 (split; [lia|]). split; [done|lia]. }
  destruct exactly; simpl; [apply Hreq|].
  destruct (Z.ltb_spec UINT64_MAX (cap + 1)) as [|H3]; simpl; [apply Hreq|].
  rewrite (u64_small (cap + 1)) by lia.
  assert (0 <= (cap + 1) / 2) by (apply Z.div_pos; lia).
  destruct (Z.ltb_spec UINT64_MAX (cap + (cap + 1) / 2)) as [|H4]; simpl; [apply Hreq|].
  rewrite (u64_small (cap + (cap + 1) / 2)) by lia.
  destruct (Z.ltb_spec UINT64_MAX ((cap + (cap + 1) / 2) * itemsize)) as [|H5]; simpl; [apply Hreq|].
  rewrite u64_small by nia.
  destruct (Z.ltb_spec ((cap + (cap + 1) / 2) * itemsize) ((cap + n) * itemsize)) as [|H6];
    [apply Hreq|].
  intros [= <- <-]. split; [nia|]. do 2 (split; [lia|]). split; [done|lia].
Qed.

Lemma calculate_capacity_None cap n itemsize exactly :
  0 <= cap -> 0 <= n -> 0 < itemsize -> calculate_capacity cap n itemsize exactly = None ->
  UINT64_MAX < (cap + n) * itemsize.
Proof.
  intros Hc Hn Hi. unfold calculate_capacity, ADD_OVERFLOW, MUL_OVERFLOW.
  destruct (Z.ltb_spec UINT64_MAX (cap + n)) as [|H1]; simpl; [nia|].
  rewrite (u64_small (cap + n)) by lia.
  destruct (Z.ltb_spec UINT64_MAX ((cap + n) * itemsize)) as [|H2]; simpl; [done|].
  by case_match.
Qed.

Section VectorProperties.
Context {A : Type} (itemsize : Z).
Implicit Types (v : vector A).

Definition vector_wf v : Prop := v_len v <= v_cap v <= UINT64_MAX.

(** Reserving changes the capacity only, and can fail only for lack of
    memory. *)
Lemma hwp_reserve v n exactly mem :
  vector_wf v -> 0 <= n <= UINT64_MAX -> 0 < itemsize <= UINT64_MAX ->
  hwp (generic_vector_reserve itemsize v n exactly) (fun '(r, v') mem' =>
    vector_wf v' /\ v_items v' = v_items v /\
    v_cap v' <= Z.max (v_cap v + n) (v_cap v + (v_cap v + 1) / 2) /\
    ((r = -1 /\ v' = v) \/ (r = 0 /\ v_cap v + n <= v_cap v')) /\
    (mem = [] -> (v_cap v + n) * itemsize <= UINT64_MAX -> r = 0 /\ mem' = [])) mem.
Proof.
  intros Hwf Hn Hi. unfold generic_vector_reserve, vector_wf, v_len in *.
  assert (0 <= (v_cap v + 1) / 2) by (apply Z.div_pos; lia).
  destruct (calculate_capacity _ _ _ _) as [[newcap newbytes]|] eqn:E.
  - apply calculate_capacity_spec in E; [|lia..]. apply hwp_bind, hwp_allocate.
    intros ok mem' Hok. destruct ok; apply hwp_ret; simpl.
    + split; [lia|]. split; [done|]. split; [lia|]. split; [right; lia|].
      intros Hmem. by destruct (Hok Hmem).
    + split; [lia|]. split; [done|]. split; [lia|]. split; [by left|].
      intros Hmem. by destruct (Hok Hmem).
  - apply hwp_ret. split; [lia|]. split; [done|]. split; [lia|]. split; [by left|].
    intros _ Hsz. apply calculate_capacity_None in E; nia.
Qed.

Lemma hwp_insert v elem i mem :
  vector_wf v -> 0 <= i <= v_len v -> 0 < itemsize <= UINT64_MAX ->
  hwp (vector_insert itemsize v elem i) (fun '(r, v') mem' => vector_wf v' /\
    v_cap v' <= Z.max (v_cap v) (2 * (v_len v + 1)) /\
    ((r = -1 /\ v' = v) \/
     (r = 0 /\ v_items v' = take (Z.to_nat i) (v_items v) ++ elem :: drop (Z.to_nat i) (v_items v))) /\
    (mem = [] -> (v_cap v + 1) * itemsize <= UINT64_MAX -> r = 0 /\ mem' = [])) mem.
Proof.
  intros Hwf Hi Hs. unfold vector_insert. apply hwp_bind, hwp_assert.
  split; [apply Z.leb_le; lia|]. apply hwp_bind.
  assert (Hgrow : hwp (if v_cap v <=? v_len v then generic_vector_reserve itemsize v 1 false
                       else mret (0, v))
    (fun '(r, v') mem' => vector_wf v' /\ v_items v' = v_items v /\
       v_cap v' <= Z.max (v_cap v) (2 * (v_len v + 1)) /\
       ((r = -1 /\ v' = v) \/ (r = 0 /\ v_len v < v_cap v')) /\
       (mem = [] -> (v_cap v + 1) * itemsize <= UINT64_MAX -> r = 0 /\ mem' = [])) mem).
  { unfold vector_wf in Hwf. destruct (Z.leb_spec (v_cap v) (v_len v)).
    - eapply hwp_mono; [apply hwp_reserve; (done || limits; lia)|].
      intros [r v'] mem' (Hwf' & Hit & Hcap & Hr & Hm). split; [done|]. split; [done|].
      split; [|split; [|done]].
      + assert ((v_cap v + 1) / 2 <= v_cap v + 1) by (apply Z.div_le_upper_bound; lia). lia.
      + destruct Hr as [|[]]; [by left|right]. lia.
    - apply hwp_ret. split; [done|]. split; [done|]. split; [lia|]. split; [by right|done]. }
  eapply hwp_mono; [exact Hgrow|]. intros [r v'] mem' (Hwf' & Hit & Hcapm & Hr & Hm).
  destruct Hr as [[-> ->]|[-> Hcap]]; apply hwp_ret.
  - split; [done|]. split; [done|]. split; [by left|done].
  - simpl. rewrite Hit. split; [|split; [done|auto]].
    unfold vector_wf, v_len in *. simpl. rewrite length_app, length_take. simpl.
    rewrite length_drop. lia.
Qed.

(** ** Binary search

    The items are ordered for the key: the comparison goes from positive
    over zero to negative along the array. *)
Definition ordered_for (compare : A -> Z) (items : list A) : Prop :=
  forall i j x y, (i < j)%nat -> items !! i = Some x -> items !! j = Some y ->
    (compare x < 0 -> compare y < 0) /\ (0 < compare y -> 0 < compare x).

Lemma bsearch_loop_spec compare items fuel l u :
  ordered_for compare items -> (u <= length items)%nat -> (u - l <= fuel)%nat ->
  (forall i x, items !! i = Some x -> compare x = 0 -> (l <= i < u)%nat) ->
  match bsearch_loop fuel compare items l u with
  | Some i => exists x, items !! i = Some x /\ compare x = 0
  | None => forall i x, items !! i = Some x -> compare x <> 0
  end.
Proof.
  intros Hord. revert l u. induction fuel as [|fuel IH]; intros l u Hu Hf Hin; cbn [bsearch_loop].
  { destruct (Nat.ltb_spec l u); [lia|]. intros i x Hx Hc. specialize (Hin i x Hx Hc). lia. }
  destruct (Nat.ltb_spec l u) as [Hlu|]; [|intros i x Hx Hc; specialize (Hin i x Hx Hc); lia].
  set (idx := ((l + u) / 2)%nat) in *.
  assert (Hidx : (l <= idx < u)%nat).
  { unfold idx. split; [apply Nat.div_le_lower_bound; lia|apply Nat.Div0.div_lt_upper_bound; lia]. }
  destruct (lookup_lt_is_Some_2 items idx ltac:(lia)) as [p Hp]. rewrite Hp.
  destruct (Z.ltb_spec (compare p) 0) as [Hneg|Hnn].
  { apply IH; [lia..|]. intros i x Hx Hc. specialize (Hin i x Hx Hc).
    destruct (decide (i < idx)%nat); [lia|]. destruct (decide (i = idx)) as [->|]; [simplify_eq; lia|].
    pose proof (proj1 (Hord idx i p x ltac:(lia) Hp Hx) Hneg). lia. }
  destruct (Z.ltb_spec 0 (compare p)) as [Hpos|Hnp].
  { apply IH; [lia..|]. intros i x Hx Hc. specialize (Hin i x Hx Hc).
    destruct (decide (idx < i)%nat); [lia|]. destruct (decide (i = idx)) as [->|]; [simplify_eq; lia|].
    pose proof (proj2 (Hord i idx x p ltac:(lia) Hx Hp) Hpos). lia. }
  exists p. split; [done|lia].
Qed.

(** The search finds an element that compares equal whenever there is one. *)
Lemma vector_search_spec compare v :
  ordered_for compare (v_items v) ->
  match vector_search v compare with
  | Some i => exists x, v_items v !! i = Some x /\ compare x = 0
  | None => forall i x, v_items v !! i = Some x -> compare x <> 0
  end.
Proof.
  intros Hord. apply bsearch_loop_spec; [done|lia..|].
  intros i x Hx _. apply lookup_lt_Some in Hx. lia.
Qed.
End VectorProperties.
