(* ===== verification/Allocators.v ===== *)
(** * Allocators

    The interface of [common/allocators/allocator.h] through which plugins
    keep a disk in memory: its operations as a record, its contract as the
    class [AllocatorSpec] (the operations are those of a flat array of bytes
    that is initially zero), and what follows for any sequence of requests. *)

From S2P Require Import Prelude NbdProtocol Extents Server Bytes.

(** [struct allocator_functions] over the state [S] of an allocator.
    [af_blit] gets the [read] function of the source allocator. *)
Record allocator_functions {S : Type} : Type := AllocatorFunctions {
  af_type : String.string;
  af_preferred : Z;
  af_set_size_hint : S -> Z -> AM (Z * S);
  af_read : S -> Z -> Z -> AM (Z * list Z);
  af_write : S -> list Z -> Z -> Z -> AM (Z * S);
  af_fill : S -> Z -> Z -> Z -> AM (Z * S);
  af_zero : S -> Z -> Z -> AM (Z * S);
  af_blit : (Z -> Z -> AM (Z * list Z)) -> S -> Z -> Z -> Z -> AM (Z * S);
  af_extents : S -> Z -> Z -> nbdkit_extents -> AM (Z * nbdkit_extents);
}.
Arguments allocator_functions : clear implicits.
Arguments AllocatorFunctions {S}.

(** ** The contract *)

(** A request for part of a disk of [size] bytes. *)
Definition in_range (size count offset : Z) : Prop :=
  0 <= offset /\ 0 <= count /\ offset + count <= size.

(** What a modification with result [r] does to the bytes [d], if it is
    meant to turn them into [new]: all of it, or, on failure, some of it. *)
Definition modifies (r : Z) (d new d' : Z -> Z) : Prop :=
  (r = 0 /\ forall x, d' x = new x) \/ (r = -1 /\ forall x, d' x = d x \/ d' x = new x).

(** [inv] is the invariant of the state, [view] the disk it stands for;
    requests are inside [size] bytes.  Where no allocation fails, requests
    succeed. *)
Class AllocatorSpec {S} (f : allocator_functions S) (inv : S -> Prop) (view : S -> Z -> Z)
    (size : Z) : Prop := {
  as_read a count offset mem : inv a -> in_range size count offset ->
    hwp (af_read f a count offset) (fun '(r, buf) mem' => length buf = Z.to_nat count /\
      (r = -1 \/ (r = 0 /\ buf = slice (view a) offset count)) /\
      (mem = [] -> r = 0 /\ mem' = [])) mem;
  as_write a buf count offset mem : inv a -> in_range size count offset ->
    length buf = Z.to_nat count ->
    hwp (af_write f a buf count offset) (fun '(r, a') mem' =>
      inv a' /\ modifies r (view a) (overwrite (view a) buf offset) (view a') /\
      (mem = [] -> r = 0 /\ mem' = [])) mem;
  as_fill a c count offset mem : inv a -> in_range size count offset ->
    hwp (af_fill f a c count offset) (fun '(r, a') mem' =>
      inv a' /\ modifies r (view a) (fill (view a) c count offset) (view a') /\
      (mem = [] -> r = 0 /\ mem' = [])) mem;
  as_zero a count offset mem : inv a -> in_range size count offset ->
    hwp (af_zero f a count offset) (fun '(r, a') mem' =>
      inv a' /\ modifies r (view a) (fill (view a) 0 count offset) (view a') /\
      (mem = [] -> r = 0 /\ mem' = [])) mem;
  (* copying from an array [src] that the source allocator can read *)
  as_blit read1 src a count offset1 offset2 mem : inv a -> in_range size count offset2 ->
    0 <= offset1 -> offset1 + count <= INT64_MAX ->
    (forall n o mem, 0 <= o - offset1 -> 0 <= n -> o + n <= offset1 + count ->
       hwp (read1 n o) (fun '(r, buf) mem' => length buf = Z.to_nat n /\
         (r = -1 \/ (r = 0 /\ buf = slice src o n)) /\ (mem = [] -> r = 0 /\ mem' = [])) mem) ->
    hwp (af_blit f read1 a count offset1 offset2) (fun '(r, a') mem' =>
      inv a' /\
      (r = 0 -> forall x, view a' x = overwrite (view a) (slice src offset1 count) offset2 x) /\
      (forall x, ~ (offset2 <= x < offset2 + count) -> view a' x = view a x) /\
      (r = 0 \/ r = -1) /\ (mem = [] -> r = 0 /\ mem' = [])) mem;
}.

(** A smaller disk is part of a larger one. *)
Lemma spec_smaller {S} (f : allocator_functions S) inv view size size' :
  size' <= size -> AllocatorSpec f inv view size -> AllocatorSpec f inv view size'.
Proof.
  intros Hle Hspec. assert (Hin : forall count offset, in_range size' count offset -> in_range size count offset)
    by (unfold in_range; lia).
  split; intros; [apply as_read|apply as_write|apply as_fill|apply as_zero|by apply as_blit; auto]; auto.
Qed.

(** ** Sequences of requests *)

Inductive request : Type :=
| Read (count offset : Z)
| Write (buf : list Z) (offset : Z)
| Fill (c count offset : Z)
| Zero (count offset : Z).

Definition request_ok (size : Z) (q : request) : Prop :=
  match q with
  | Read count offset => in_range size count offset
  | Write buf offset => in_range size (Z.of_nat (length buf)) offset
  | Fill _ count offset => in_range size count offset
  | Zero count offset => in_range size count offset
  end.

(** The results and the bytes read by a flat array. *)
Fixpoint flat_run (d : Z -> Z) (qs : list request) : list (Z * list Z) :=
  match qs with
  | [] => []
  | Read count offset :: qs => (0, slice d offset count) :: flat_run d qs
  | Write buf offset :: qs => (0, []) :: flat_run (overwrite d buf offset) qs
  | Fill c count offset :: qs => (0, []) :: flat_run (fill d c count offset) qs
  | Zero count offset :: qs => (0, []) :: flat_run (fill d 0 count offset) qs
  end.

Section Run.
Context {S : Type} (f : allocator_functions S).

Definition run_request (a : S) (q : request) : AM (Z * list Z * S) :=
  match q with
  | Read count offset => '(r, buf) ← af_read f a count offset; mret (r, buf, a)
  | Write buf offset =>
      '(r, a) ← af_write f a buf (Z.of_nat (length buf)) offset; mret (r, [], a)
  | Fill c count offset => '(r, a) ← af_fill f a c count offset; mret (r, [], a)
  | Zero count offset => '(r, a) ← af_zero f a count offset; mret (r, [], a)
  end.

Fixpoint run (a : S) (qs : list request) : AM (list (Z * list Z)) :=
  match qs with
  | [] => mret []
  | q :: qs =>
      '(r, buf, a) ← run_request a q;
      rs ← run a qs;
      mret ((r, buf) :: rs)
  end.

Lemma flat_run_ext d d' qs : (forall x, d x = d' x) -> flat_run d qs = flat_run d' qs.
Proof.
  revert d d'. induction qs as [|q qs IH]; intros d d' Hd; [done|].
  destruct q; simpl; f_equal; try (apply IH; intros x; unfold overwrite, fill; by destruct (decide _)).
  - f_equal. by apply slice_ext.
  - by apply IH.
Qed.

(** Only the bytes of the disk matter. *)
Lemma flat_run_range size d d' qs :
  Forall (request_ok size) qs -> (forall x, 0 <= x < size -> d x = d' x) ->
  flat_run d qs = flat_run d' qs.
Proof.
  intros Hqs. revert d d'. induction Hqs as [|q qs Hq _ IH]; intros d d' Hd; [done|].
  destruct q; simpl in *; f_equal;
    try (apply IH; intros x Hx; unfold overwrite, fill; destruct (decide _); auto; done).
  - f_equal. apply slice_ext. intros x Hx. apply Hd. unfold in_range in Hq. lia.
  - by apply IH.
Qed.

Lemma modifies_ok r d new d' : modifies r d new d' -> r = 0 -> forall x, d' x = new x.
Proof. intros [[_ H]|[-> _]]; [done|lia]. Qed.

(** An allocator that keeps its contract cannot be told from a flat array. *)
Lemma run_flat inv view size `{!AllocatorSpec f inv view size} a qs :
  inv a -> Forall (request_ok size) qs -> run a qs [] = Ok (flat_run (view a) qs, []).
Proof.
  intros Ha Hqs. revert a Ha. induction Hqs as [|q qs Hq Hqs IH]; intros a Ha; [done|].
  assert (Hnext : forall a', inv a' -> forall d', (forall x, view a' x = d' x) ->
    run a' qs [] = Ok (flat_run d' qs, [])).
  { intros a' Ha' d' Hd'. rewrite IH by done. by rewrite (flat_run_ext _ d'). }
  cbn [run]. unfold mbind, AM_bind.
  destruct q as [count offset|buf offset|c count offset|count offset]; simpl in Hq |- *;
    unfold mbind, AM_bind.
  - destruct (hwp_ok _ _ _ (as_read a count offset [] Ha Hq)) as ([r buf] & mem' & -> & _ & Hr & Hmem).
    destruct (Hmem eq_refl) as [-> ->]. destruct Hr as [|[_ ->]]; [done|]. simpl.
    by rewrite IH.
  - destruct (hwp_ok _ _ _ (as_write a buf (Z.of_nat (length buf)) offset [] Ha Hq ltac:(lia)))
      as ([r a'] & mem' & -> & Ha' & Hm & Hmem). destruct (Hmem eq_refl) as [-> ->].
    simpl. by rewrite (Hnext a' Ha' _ (modifies_ok _ _ _ _ Hm eq_refl)).
  - destruct (hwp_ok _ _ _ (as_fill a c count offset [] Ha Hq))
      as ([r a'] & mem' & -> & Ha' & Hm & Hmem). destruct (Hmem eq_refl) as [-> ->].
    simpl. by rewrite (Hnext a' Ha' _ (modifies_ok _ _ _ _ Hm eq_refl)).
  - destruct (hwp_ok _ _ _ (as_zero a count offset [] Ha Hq))
      as ([r a'] & mem' & -> & Ha' & Hm & Hmem). destruct (Hmem eq_refl) as [-> ->].
    simpl. by rewrite (Hnext a' Ha' _ (modifies_ok _ _ _ _ Hm eq_refl)).
Qed.
End Run.
