(* ===== verification/Sparse.v ===== *)
(** * The sparse array allocator

    Models [common/allocators/sparse.c]: a two level directory of pages.
    An L1 entry covers 128 MB and has a directory of 4096 pages of 32 KB,
    absent until written.  Locks are not modelled, but the restart of a
    request with the exclusive lock is.

    An array [l2_dir] of page pointers is the map of its non-NULL elements.
    A pointer into a page is the index of the L1 entry, the index in its
    directory and the offset in the page.

    The theorem is the contract [AllocatorSpec] of the allocators. *)

From Stdlib Require Import Sorted.
From stdpp Require Import gmap sorting.
From S2P Require Import Prelude NbdProtocol Extents Server Bytes Vector Allocators.

Definition SPARSE_PAGE : Z := 32768.
Definition L2_SIZE : Z := 4096.

Record l1_entry : Type := L1Entry {
  l1_offset : Z;
  l1_l2_dir : gmap Z (list Z);
}.

(** [sizeof (struct l1_entry)] *)
Definition sizeof_l1_entry : Z := 16.

Record sparse_array : Type := SparseArray {
  sa_l1_dir : vector l1_entry;
}.

(** [&l2_dir[o]] of the [l1]-th entry, and an address in its page. *)
Record l2_ptr : Type := L2Ptr { l2_l1 : nat; l2_index : Z }.
Record page_ptr : Type := PagePtr { pp_l2 : l2_ptr; pp_offset : Z }.

Implicit Types (sa : sparse_array) (e : l1_entry) (p : page_ptr).

(** ** Memory accesses through pointers *)

Definition sa_items sa : list l1_entry := v_items (sa_l1_dir sa).

Definition get_page sa (q : l2_ptr) : option (list Z) :=
  e ← sa_items sa !! l2_l1 q; l1_l2_dir e !! l2_index q.

Definition map_l2_dir sa (i : nat) (g : gmap Z (list Z) -> gmap Z (list Z)) : sparse_array :=
  SparseArray (Vec (alter (fun e => L1Entry (l1_offset e) (g (l1_l2_dir e))) i (sa_items sa))
                 (v_cap (sa_l1_dir sa))).

(** [l2_dir[o].page = page] and [l2_dir[o].page = NULL] *)
Definition set_page sa (q : l2_ptr) (page : list Z) : sparse_array :=
  map_l2_dir sa (l2_l1 q) (insert (l2_index q) page).
Definition free_page sa (q : l2_ptr) : sparse_array :=
  map_l2_dir sa (l2_l1 q) (delete (l2_index q)).

(** Reading [n] bytes at [p]. *)
Definition load sa p (n : Z) : AM (list Z) :=
  match get_page sa (pp_l2 p) with
  | Some page =>
      if pp_offset p + n <=? Z.of_nat (length page) then mret (sub page (pp_offset p) n)
      else hfail OutOfBounds
  | None => hfail NullPointer
  end.

(** Writing [buf] at [p]. *)
Definition store sa p (buf : list Z) : AM sparse_array :=
  match get_page sa (pp_l2 p) with
  | Some page =>
      if pp_offset p + Z.of_nat (length buf) <=? Z.of_nat (length page)
      then mret (set_page sa (pp_l2 p) (splice page buf (pp_offset p)))
      else hfail OutOfBounds
  | None => hfail NullPointer
  end.

(** ** The directories *)

Definition sparse_array_set_size_hint sa (size : Z) : AM (Z * sparse_array) := mret (0, sa).

Definition compare_l1_offsets (offset : Z) e : Z :=
  if offset <? l1_offset e then -1
  else if u64 (l1_offset e + SPARSE_PAGE * L2_SIZE) <=? offset then 1
  else 0.

(** The scan for the place of a new entry: [None] is the end. *)
Fixpoint insert_scan (l : list l1_entry) (offset i : Z) : AM (option Z) :=
  match l with
  | [] => mret None
  | e :: l' =>
      if offset <? l1_offset e then mret (Some i)
      else hassert (negb (offset =? l1_offset e));; insert_scan l' offset (i + 1)
  end.

Definition insert_l1_entry sa (entry : l1_entry) : AM (Z * sparse_array) :=
  at_ ← insert_scan (sa_items sa) (l1_offset entry) 0;
  '(r, dir) ← match at_ with
              | Some i => vector_insert sizeof_l1_entry (sa_l1_dir sa) entry i
              | None => vector_append sizeof_l1_entry (sa_l1_dir sa) entry
              end;
  mret (r, SparseArray dir).

(** The part of [lookup] from [again:] on.  A new entry is found in the
    second round. *)
Fixpoint lookup_again (fuel : nat) sa (offset : Z) (create : bool)
    : AM (option page_ptr * option l2_ptr * sparse_array) :=
  match fuel with
  | O => hfail OutOfFuel
  | S fuel =>
      match vector_search (sa_l1_dir sa) (compare_l1_offsets offset) with
      | Some i =>
          match sa_items sa !! i with
          | None => hfail OutOfBounds
          | Some entry =>
              let o := u64 (offset - l1_offset entry) / SPARSE_PAGE in
              let q := L2Ptr i o in
              let p := PagePtr q (Z.land offset (SPARSE_PAGE - 1)) in
              if L2_SIZE <=? o then hfail OutOfBounds
              else match l1_l2_dir entry !! o with
              | Some _ => mret (Some p, Some q, sa)
              | None =>
                  if create then
                    ok ← allocate;
                    if ok : bool
                    then mret (Some p, Some q, set_page sa q (memset 0 SPARSE_PAGE))
                    else mret (None, Some q, sa)
                  else mret (None, Some q, sa)
              end
          end
      | None =>
          if create then
            let new_offset := Z.land offset (u64 (Z.lnot (SPARSE_PAGE * L2_SIZE - 1))) in
            ok ← allocate;
            if ok : bool then
              '(r, sa) ← insert_l1_entry sa (L1Entry new_offset ∅);
              if r =? -1 then mret (None, None, sa)
              else lookup_again fuel sa offset create
            else mret (None, None, sa)
          else mret (None, None, sa)
      end
  end.

(** [lookup]: the address, the bytes to the end of the page, the L2 entry. *)
Definition lookup sa (offset : Z) (create : bool)
    : AM (option page_ptr * Z * option l2_ptr * sparse_array) :=
  let remaining := SPARSE_PAGE - Z.land offset (SPARSE_PAGE - 1) in
  '(p, q, sa) ← lookup_again 2 sa offset create;
  mret (p, remaining, q, sa).

(** ** Requests

    A request of [count] bytes touches at most [pages count] pages. *)
Definition pages (count : Z) : nat := Z.to_nat (count / SPARSE_PAGE + 2).

Fixpoint read_loop (fuel : nat) sa (count offset : Z) : AM (list Z) :=
  if count =? 0 then mret []
  else match fuel with
  | O => hfail OutOfFuel
  | S fuel =>
      '(p, n, _, sa) ← lookup sa offset false;
      let n := if count <? n then count else n in
      part ← match p with None => mret (memset 0 n) | Some p => load sa p n end;
      rest ← read_loop fuel sa (u64 (count - n)) (u64 (offset + n));
      mret (part ++ rest)
  end.

Definition sparse_array_read sa (count offset : Z) : AM (Z * list Z) :=
  buf ← read_loop (pages count) sa count offset; mret (0, buf).

Definition RESTART_EXCLUSIVE : Z := -2.

Fixpoint do_write (fuel : nat) (exclusive : bool) sa (buf : list Z) (count offset : Z)
    : AM (Z * sparse_array) :=
  if count =? 0 then mret (0, sa)
  else match fuel with
  | O => hfail OutOfFuel
  | S fuel =>
      '(p, n, _, sa) ← lookup sa offset exclusive;
      match p with
      | None => mret (if exclusive then -1 else RESTART_EXCLUSIVE, sa)
      | Some p =>
          let n := if count <? n then count else n in
          sa ← store sa p (take (Z.to_nat n) buf);
          do_write fuel exclusive sa (drop (Z.to_nat n) buf) (u64 (count - n)) (u64 (offset + n))
      end
  end.

Definition sparse_array_write sa (buf : list Z) (count offset : Z) : AM (Z * sparse_array) :=
  '(r, sa) ← do_write (pages count) false sa buf count offset;
  if r =? RESTART_EXCLUSIVE then do_write (pages count) true sa buf count offset
  else mret (r, sa).

Fixpoint do_zero (fuel : nat) (exclusive : bool) sa (count offset : Z) : AM (Z * sparse_array) :=
  if count =? 0 then mret (0, sa)
  else match fuel with
  | O => hfail OutOfFuel
  | S fuel =>
      '(p, n, q, sa) ← lookup sa offset false;
      let n := if count <? n then count else n in
      match p, q with
      | Some p, Some q =>
          sa ← (if n <? SPARSE_PAGE then store sa p (memset 0 n)
                else hassert (pp_offset p =? 0);; mret sa);
          page ← load sa (PagePtr q 0) SPARSE_PAGE;
          if ((SPARSE_PAGE <=? n) || is_zero page SPARSE_PAGE)%bool then
            if exclusive
            then do_zero fuel exclusive (free_page sa q) (u64 (count - n)) (u64 (offset + n))
            else mret (RESTART_EXCLUSIVE, sa)
          else do_zero fuel exclusive sa (u64 (count - n)) (u64 (offset + n))
      | Some _, None => hfail NullPointer
      | None, _ => do_zero fuel exclusive sa (u64 (count - n)) (u64 (offset + n))
      end
  end.

Definition sparse_array_zero sa (count offset : Z) : AM (Z * sparse_array) :=
  '(r, sa) ← do_zero (pages count) false sa count offset;
  if r =? RESTART_EXCLUSIVE then do_zero (pages count) true sa count offset
  else mret (r, sa).

Fixpoint fill_loop (fuel : nat) sa (c count offset : Z) : AM (Z * sparse_array) :=
  if count =? 0 then mret (0, sa)
  else match fuel with
  | O => hfail OutOfFuel
  | S fuel =>
      '(p, n, _, sa) ← lookup sa offset true;
      match p with
      | None => mret (-1, sa)
      | Some p =>
          let n := if count <? n then count else n in
          sa ← store sa p (memset c n);
          fill_loop fuel sa c (u64 (count - n)) (u64 (offset + n))
      end
  end.

Definition sparse_array_fill sa (c count offset : Z) : AM (Z * sparse_array) :=
  if c =? 0 then sparse_array_zero sa count offset
  else fill_loop (pages count) sa c count offset.

Fixpoint blit_loop (fuel : nat) (read1 : Z -> Z -> AM (Z * list Z)) sa (count offset1 offset2 : Z)
    : AM (Z * sparse_array) :=
  if count =? 0 then mret (0, sa)
  else match fuel with
  | O => hfail OutOfFuel
  | S fuel =>
      '(p, n, q, sa) ← lookup sa offset2 true;
      match p, q with
      | None, _ => mret (-1, sa)
      | Some p, None => hfail NullPointer
      | Some p, Some q =>
          let n := if count <? n then count else n in
          '(r, buf) ← read1 n offset1;
          sa ← store sa p buf;
          if r =? -1 then mret (-1, sa)
          else
            page ← load sa (PagePtr q 0) SPARSE_PAGE;
            let sa := if is_zero page SPARSE_PAGE then free_page sa q else sa in
            blit_loop fuel read1 sa (u64 (count - n)) (u64 (offset1 + n)) (u64 (offset2 + n))
      end
  end.

(** The assertions that the source is another allocator and the
    destination a sparse array hold by the types of the model. *)
Definition sparse_array_blit (read1 : Z -> Z -> AM (Z * list Z)) sa (count offset1 offset2 : Z)
    : AM (Z * sparse_array) :=
  blit_loop (pages count) read1 sa count offset1 offset2.

Fixpoint extents_loop (fuel : nat) sa (count offset : Z) (extents : nbdkit_extents)
    : AM (Z * nbdkit_extents) :=
  if count =? 0 then mret (0, extents)
  else match fuel with
  | O => hfail OutOfFuel
  | S fuel =>
      '(p, n, _, sa) ← lookup sa offset false;
      type ← match p with
             | None => mret (Z.lor NBDKIT_EXTENT_HOLE NBDKIT_EXTENT_ZERO)
             | Some p =>
                 part ← load sa p n;
                 mret (if is_zero part n then NBDKIT_EXTENT_ZERO else 0)
             end;
      let '(r, extents) := nbdkit_add_extent extents offset n type in
      match r with
      | Some _ => mret (-1, extents)
      | None =>
          let n := if count <? n then count else n in
          extents_loop fuel sa (u64 (count - n)) (u64 (offset + n)) extents
      end
  end.

Definition sparse_array_extents sa (count offset : Z) (extents : nbdkit_extents)
    : AM (Z * nbdkit_extents) :=
  extents_loop (pages count) sa count offset extents.

(** [None] is NULL. *)
Definition sparse_array_create (nparams : Z) : AM (option sparse_array) :=
  if 0 <? nparams then mret None
  else
    ok ← allocate;
    mret (if ok : bool then Some (SparseArray empty_vector) else None).

Definition sparse_functions : allocator_functions sparse_array :=
  AllocatorFunctions "sparse"%string SPARSE_PAGE sparse_array_set_size_hint sparse_array_read
    sparse_array_write sparse_array_fill sparse_array_zero sparse_array_blit
    sparse_array_extents.

(** ** The disk a sparse array stands for *)

Definition SPAN : Z := 134217728.

Definition in_entry e (x : Z) : bool :=
  ((l1_offset e <=? x) && (x <? l1_offset e + SPAN))%bool.

Definition entry_view e (x : Z) : Z :=
  match l1_l2_dir e !! ((x - l1_offset e) / SPARSE_PAGE) with
  | Some page => nth (Z.to_nat (x mod SPARSE_PAGE)) page 0
  | None => 0
  end.

Fixpoint dir_view (l : list l1_entry) (x : Z) : Z :=
  match l with
  | [] => 0
  | e :: l' => if in_entry e x then entry_view e x else dir_view l' x
  end.

Definition sa_view sa : Z -> Z := dir_view (sa_items sa).

(** ** Invariant *)

Definition page_ok (o : Z) (page : list Z) : Prop :=
  0 <= o < L2_SIZE /\ length page = Z.to_nat SPARSE_PAGE.

Record entry_wf e : Prop := EntryWf {
  ew_range : 0 <= l1_offset e <= INT64_MAX;
  ew_aligned : l1_offset e mod SPAN = 0;
  ew_pages : map_Forall page_ok (l1_l2_dir e);
}.

Record sa_wf sa : Prop := SaWf {
  sw_vector : vector_wf (sa_l1_dir sa);
  sw_cap : v_cap (sa_l1_dir sa) <= 2 * v_len (sa_l1_dir sa);
  sw_sorted : StronglySorted Z.lt (l1_offset <$> sa_items sa);
  sw_entries : Forall entry_wf (sa_items sa);
}.

(** An L1 entry is found by the first byte of its 128 MB. *)
Lemma in_entry_spec e x :
  l1_offset e mod SPAN = 0 -> in_entry e x = true <-> l1_offset e = x - x mod SPAN.
Proof.
  unfold in_entry, SPAN. rewrite andb_true_iff, Z.leb_le, Z.ltb_lt. intros Ha.
  pose proof (Z.mod_pos_bound x 134217728 ltac:(lia)).
  pose proof (Z.div_mod x 134217728 ltac:(lia)).
  pose proof (Z.div_mod (l1_offset e) 134217728 ltac:(lia)). split; lia.
Qed.

Lemma sorted_lookup (l : list l1_entry) i j e e' :
  StronglySorted Z.lt (l1_offset <$> l) -> l !! i = Some e -> l !! j = Some e' -> (i < j)%nat ->
  l1_offset e < l1_offset e'.
Proof.
  intros Hs Hi Hj Hij. revert i j Hi Hj Hij. induction l as [|e0 l IH]; [done|].
  simpl in Hs. inversion Hs as [|? ? Hs' Hall]; subst. intros [|i] [|j] Hi Hj Hij; try lia.
  - simplify_eq/=. rewrite Forall_fmap in Hall. exact (Forall_lookup_1 _ _ _ _ Hall Hj).
  - apply (IH Hs' i j); [done..|lia].
Qed.

Lemma dir_view_in l i e x :
  Forall entry_wf l -> StronglySorted Z.lt (l1_offset <$> l) -> l !! i = Some e ->
  in_entry e x = true -> dir_view l x = entry_view e x.
Proof.
  revert i. induction l as [|e0 l IH]; [done|]. intros [|i] Hwf Hs Hi Hin.
  - simplify_eq/=. by rewrite Hin.
  - simpl. inversion Hwf as [|? ? He0 Hwf']; subst.
    destruct (in_entry e0 x) eqn:E0.
    + exfalso. pose proof (sorted_lookup (e0 :: l) 0 (S i) e0 e Hs eq_refl Hi ltac:(lia)).
      apply in_entry_spec in E0; [|apply He0]. apply in_entry_spec in Hin; [lia|].
      apply ew_aligned, (Forall_lookup_1 _ _ i _ Hwf' Hi).
    + apply (IH i); try done. by inversion Hs.
Qed.

Lemma dir_view_out l x :
  (forall i e, l !! i = Some e -> in_entry e x = false) -> dir_view l x = 0.
Proof.
  induction l as [|e l IH]; intros Hout; [done|]. simpl. rewrite (Hout O e eq_refl).
  apply IH. intros i e' Hi. by apply (Hout (S i)).
Qed.

(** ** Pages *)

(** The L2 entry [q] is the one for byte [x]. *)
Definition points sa (q : l2_ptr) (x : Z) : Prop :=
  exists e, sa_items sa !! l2_l1 q = Some e /\ in_entry e x = true /\
    l2_index q = (x - l1_offset e) / SPARSE_PAGE.

(** Two bytes in the same page. *)
Definition same_page (x y : Z) : Prop := x / SPARSE_PAGE = y / SPARSE_PAGE.

(** Offsets of entries are multiples of the page size. *)
Lemma page_index o x : o mod SPAN = 0 -> (x - o) / SPARSE_PAGE = x / SPARSE_PAGE - o / SPARSE_PAGE.
Proof.
  unfold SPAN, SPARSE_PAGE. intros Ho.
  pose proof (Z.div_mod o 134217728 ltac:(lia)) as E. rewrite Ho, Z.add_0_r in E.
  set (k := o / 134217728) in *. rewrite E.
  replace (134217728 * k) with (4096 * k * 32768) by lia.
  rewrite Z.div_mul by lia. replace (x - 4096 * k * 32768) with (x + (- (4096 * k)) * 32768) by lia.
  rewrite Z.div_add by lia. lia.
Qed.

Lemma same_page_entry e x y :
  l1_offset e mod SPAN = 0 -> same_page x y -> in_entry e x = true -> in_entry e y = true.
Proof.
  intros Ha Hp. rewrite !in_entry_spec by done. intros ->.
  assert (Hd : forall z, z / SPAN = (z / SPARSE_PAGE) / 4096).
  { intros z. unfold SPAN, SPARSE_PAGE. by rewrite Z.div_div by lia. }
  rewrite !Z.mod_eq by done. unfold same_page in Hp. rewrite !Hd, Hp. lia.
Qed.

Section Wf.
Context sa (Hwf : sa_wf sa).

Lemma entry_at i e : sa_items sa !! i = Some e -> entry_wf e.
Proof. apply (Forall_lookup_1 _ _ _ _ (sw_entries _ Hwf)). Qed.

Lemma points_same_page q x y : points sa q x -> same_page x y -> points sa q y.
Proof.
  intros (e & He & Hin & Hi) Hp. exists e. pose proof (ew_aligned _ (entry_at _ _ He)) as Ha.
  split; [done|]. split; [by eapply same_page_entry|].
  rewrite Hi, !page_index by done. unfold same_page in Hp. lia.
Qed.

Lemma view_points q x :
  points sa q x ->
  sa_view sa x = match get_page sa q with
                 | Some page => nth (Z.to_nat (x mod SPARSE_PAGE)) page 0
                 | None => 0
                 end.
Proof.
  intros (e & He & Hin & Hi). unfold sa_view, get_page. rewrite He. simpl.
  rewrite (dir_view_in _ _ e x (sw_entries _ Hwf) (sw_sorted _ Hwf) He Hin).
  unfold entry_view. by rewrite <- Hi.
Qed.

Lemma points_index q x : points sa q x -> 0 <= l2_index q < L2_SIZE.
Proof.
  intros (e & He & Hin & ->). unfold in_entry in Hin.
  rewrite andb_true_iff, Z.leb_le, Z.ltb_lt in Hin. unfold SPARSE_PAGE, L2_SIZE, SPAN in *.
  split; [apply Z.div_pos; lia|apply Z.div_lt_upper_bound; lia].
Qed.

Lemma get_page_length q page : get_page sa q = Some page -> length page = Z.to_nat SPARSE_PAGE.
Proof.
  unfold get_page. destruct (sa_items sa !! l2_l1 q) as [e|] eqn:He; [|done]. simpl. intros Hp.
  apply (ew_pages _ (entry_at _ _ He) _ _ Hp).
Qed.

(** Changing the directory of one entry at one page. *)
Lemma map_l2_dir_wf q x g :
  points sa q x ->
  (forall d, map_Forall page_ok d -> map_Forall page_ok (g d)) ->
  sa_wf (map_l2_dir sa (l2_l1 q) g).
Proof.
  intros (e & He & Hin & Hi) Hg. destruct Hwf as [Hv Hc Hs Hes].
  assert (Hoff : l1_offset <$> sa_items (map_l2_dir sa (l2_l1 q) g) = l1_offset <$> sa_items sa).
  { unfold sa_items at 1, map_l2_dir. simpl. apply list_eq. intros i.
    rewrite !list_lookup_fmap. destruct (decide (i = l2_l1 q)) as [->|].
    - rewrite list_lookup_alter_eq, He. done.
    - by rewrite list_lookup_alter_ne by done. }
  assert (Hlen : v_len (sa_l1_dir (map_l2_dir sa (l2_l1 q) g)) = v_len (sa_l1_dir sa)).
  { unfold v_len, map_l2_dir. simpl. by rewrite length_alter. }
  split.
  - unfold vector_wf in *. rewrite Hlen. done.
  - rewrite Hlen. done.
  - by rewrite Hoff.
  - unfold sa_items, map_l2_dir. simpl. apply Forall_alter; [done|].
    intros e' He' [Hr Ha Hp]. split; simpl; auto.
Qed.

Lemma map_l2_dir_points q x g :
  points sa q x -> points (map_l2_dir sa (l2_l1 q) g) q x.
Proof.
  intros (e & He & Hin & Hi). exists (L1Entry (l1_offset e) (g (l1_l2_dir e))).
  split; [|done]. unfold sa_items, map_l2_dir. simpl. by rewrite list_lookup_alter_eq, He.
Qed.
End Wf.

Lemma dir_view_alter_out l i e x g :
  l !! i = Some e -> in_entry e x = false ->
  dir_view (alter (fun e => L1Entry (l1_offset e) (g (l1_l2_dir e))) i l) x = dir_view l x.
Proof.
  revert i. induction l as [|e0 l IH]; [done|]. intros [|i] Hi Hout; simpl.
  - simplify_eq/=. unfold in_entry in *. simpl. by rewrite Hout.
  - destruct (in_entry e0 x); [done|]. by apply IH.
Qed.

(** What replacing the page of byte [x] does to all bytes. *)
Lemma map_l2_dir_view sa q x g v :
  sa_wf sa -> points sa q x -> sa_wf (map_l2_dir sa (l2_l1 q) g) ->
  (forall d, g d !! l2_index q = v) ->
  (forall d o, o <> l2_index q -> g d !! o = d !! o) ->
  get_page (map_l2_dir sa (l2_l1 q) g) q = v /\
  forall y, sa_view (map_l2_dir sa (l2_l1 q) g) y =
    if decide (x / SPARSE_PAGE = y / SPARSE_PAGE)
    then match v with Some page => nth (Z.to_nat (y mod SPARSE_PAGE)) page 0 | None => 0 end
    else sa_view sa y.
Proof.
  intros Hwf Hpt Hwf' Hv Hne. set (sa' := map_l2_dir sa (l2_l1 q) g) in *.
  pose proof (map_l2_dir_points sa q x g Hpt) as Hpt'.
  destruct Hpt as (e & He & Hin & Hi).
  assert (He' : sa_items sa' !! l2_l1 q = Some (L1Entry (l1_offset e) (g (l1_l2_dir e)))).
  { unfold sa', sa_items, map_l2_dir. simpl. by rewrite list_lookup_alter_eq, He. }
  assert (Hget : get_page sa' q = v) by (unfold get_page; rewrite He'; simpl; apply Hv).
  split; [done|]. intros y. destruct (decide _) as [Hp|Hp].
  - rewrite (view_points sa' Hwf' q y) by (by apply (points_same_page sa' Hwf' q x)).
    by rewrite Hget.
  - pose proof (ew_aligned _ (entry_at _ Hwf _ _ He)) as Ha.
    destruct (in_entry e y) eqn:Ey.
    + unfold sa_view. rewrite (dir_view_in _ _ _ y (sw_entries _ Hwf) (sw_sorted _ Hwf) He Ey).
      rewrite (dir_view_in _ _ _ y (sw_entries _ Hwf') (sw_sorted _ Hwf') He') by done.
      unfold entry_view. simpl. rewrite Hne; [done|].
      rewrite Hi, !page_index by done. lia.
    + by apply (dir_view_alter_out _ _ e).
Qed.

Lemma set_page_spec sa q x page :
  sa_wf sa -> points sa q x -> length page = Z.to_nat SPARSE_PAGE ->
  sa_wf (set_page sa q page) /\ points (set_page sa q page) q x /\
  get_page (set_page sa q page) q = Some page /\
  forall y, sa_view (set_page sa q page) y =
    if decide (x / SPARSE_PAGE = y / SPARSE_PAGE)
    then nth (Z.to_nat (y mod SPARSE_PAGE)) page 0 else sa_view sa y.
Proof.
  intros Hwf Hpt Hl. assert (Hwf' : sa_wf (set_page sa q page)).
  { eapply map_l2_dir_wf; [done|done|]. intros d Hd. apply map_Forall_insert_2; [|done].
    split; [by eapply points_index|done]. }
  destruct (map_l2_dir_view sa q x (insert (l2_index q) page) (Some page) Hwf Hpt Hwf') as [Hg Hv].
  - intros d. apply lookup_insert_eq.
  - intros d o Ho. by apply lookup_insert_ne.
  - split; [done|]. split; [by apply map_l2_dir_points|]. split; [done|exact Hv].
Qed.

Lemma free_page_spec sa q x :
  sa_wf sa -> points sa q x ->
  sa_wf (free_page sa q) /\
  forall y, sa_view (free_page sa q) y =
    if decide (x / SPARSE_PAGE = y / SPARSE_PAGE) then 0 else sa_view sa y.
Proof.
  intros Hwf Hpt. assert (Hwf' : sa_wf (free_page sa q)).
  { eapply map_l2_dir_wf; [done|done|]. intros d Hd. by apply map_Forall_delete. }
  destruct (map_l2_dir_view sa q x (delete (l2_index q)) None Hwf Hpt Hwf') as [Hg Hv].
  - intros d. apply lookup_delete_eq.
  - intros d o Ho. by apply lookup_delete_ne.
  - split; [done|exact Hv].
Qed.

(** ** Searching and extending the L1 directory *)

Lemma compare_l1_offsets_0 e x :
  entry_wf e -> compare_l1_offsets x e = 0 <-> in_entry e x = true.
Proof.
  intros [Hr _ _]. unfold compare_l1_offsets, in_entry.
  change (SPARSE_PAGE * L2_SIZE) with SPAN.
  rewrite u64_small by (unfold SPAN; limits; lia).
  destruct (Z.ltb_spec x (l1_offset e)), (Z.leb_spec (l1_offset e + SPAN) x);
    rewrite andb_true_iff, Z.leb_le, Z.ltb_lt; split; intros; try lia; done.
Qed.

Lemma search_spec sa x :
  sa_wf sa ->
  match vector_search (sa_l1_dir sa) (compare_l1_offsets x) with
  | Some i => exists e, sa_items sa !! i = Some e /\ in_entry e x = true
  | None => forall i e, sa_items sa !! i = Some e -> in_entry e x = false
  end.
Proof.
  intros Hwf.
  pose proof (vector_search_spec (compare_l1_offsets x) (sa_l1_dir sa)) as Hs.
  fold (sa_items sa) in Hs.
  assert (Hord : ordered_for (compare_l1_offsets x) (sa_items sa)).
  { intros i j e e' Hij Hi Hj.
    pose proof (sorted_lookup _ _ _ _ _ (sw_sorted _ Hwf) Hi Hj Hij) as Hlt.
    destruct (entry_at _ Hwf _ _ Hi) as [Hr1 Ha1 _], (entry_at _ Hwf _ _ Hj) as [Hr2 Ha2 _].
    unfold compare_l1_offsets. change (SPARSE_PAGE * L2_SIZE) with SPAN.
    rewrite !u64_small by (unfold SPAN; limits; lia).
    destruct (Z.ltb_spec x (l1_offset e)), (Z.leb_spec (l1_offset e + SPAN) x),
      (Z.ltb_spec x (l1_offset e')), (Z.leb_spec (l1_offset e' + SPAN) x); lia. }
  specialize (Hs Hord). destruct (vector_search _ _) as [i|].
  - destruct Hs as (e & He & Hc). exists e. split; [done|].
    apply compare_l1_offsets_0; [by eapply entry_at|done].
  - intros i e He. specialize (Hs i e He). destruct (in_entry e x) eqn:E; [|done].
    apply compare_l1_offsets_0 in E; [done|by eapply entry_at].
Qed.

(** The scan finds the place that keeps the directory sorted. *)
Lemma hwp_insert_scan l offset i mem :
  StronglySorted Z.lt (l1_offset <$> l) -> Forall (fun e => l1_offset e <> offset) l ->
  hwp (insert_scan l offset i) (fun r mem' => mem' = mem /\ exists n : nat,
    (n <= length l)%nat /\ match r with Some k => k = i + Z.of_nat n | None => n = length l end /\
    Forall (fun e => l1_offset e < offset) (take n l) /\
    Forall (fun e => offset < l1_offset e) (drop n l)) mem.
Proof.
  revert i. induction l as [|e l IH]; intros i Hs Hne; simpl.
  { apply hwp_ret. split; [done|]. exists O. by rewrite take_nil, drop_nil. }
  simpl in Hs. apply StronglySorted_cons in Hs as [Hall Hs]. rewrite Forall_fmap in Hall.
  apply Forall_cons in Hne as [He Hne]. destruct (Z.ltb_spec offset (l1_offset e)).
  - apply hwp_ret. split; [done|]. exists O. split; [lia|]. split; [lia|].
    rewrite take_0, drop_0. split; [done|]. apply Forall_cons. split; [done|].
    eapply Forall_impl; [exact Hall|]. simpl. lia.
  - apply hwp_bind, hwp_assert. split; [apply negb_true_iff, Z.eqb_neq; lia|].
    eapply hwp_mono; [by apply IH|]. intros r mem' (-> & n & Hn & Hr & Hlt & Hgt).
    split; [done|]. exists (S n). split; [simpl; lia|]. split; [destruct r; simpl; lia|].
    simpl. split; [|done]. apply Forall_cons. split; [lia|done].
Qed.

(** There are few L1 entries: their offsets are distinct multiples of 128 MB. *)
Lemma entries_bound l lo :
  StronglySorted Z.lt (l1_offset <$> l) -> Forall entry_wf l ->
  Forall (fun e => lo <= l1_offset e) l -> lo <= INT64_MAX + SPAN ->
  lo + SPAN * Z.of_nat (length l) <= INT64_MAX + SPAN.
Proof.
  revert lo. induction l as [|e l IH]; intros lo Hs Hwf Hlo Hle; simpl; [lia|].
  simpl in Hs. apply StronglySorted_cons in Hs as [Hall Hs]. rewrite Forall_fmap in Hall.
  apply Forall_cons in Hwf as [He Hwf]. apply Forall_cons in Hlo as [Helo Hlo].
  destruct He as [Hr Ha _]. specialize (IH (l1_offset e + SPAN) Hs Hwf).
  assert (Hnext : Forall (fun e' => l1_offset e + SPAN <= l1_offset e') l).
  { apply Forall_forall. intros e' He'. rewrite Forall_forall in Hall, Hwf.
    specialize (Hall e' He'). destruct (Hwf e' He') as [_ Ha' _]. simpl in Hall.
    unfold SPAN in *. pose proof (Z.div_mod (l1_offset e) 134217728 ltac:(lia)).
    pose proof (Z.div_mod (l1_offset e') 134217728 ltac:(lia)). lia. }
  specialize (IH Hnext ltac:(lia)). lia.
Qed.

Lemma dir_view_insert l1 l2 off x :
  dir_view (l1 ++ L1Entry off ∅ :: l2) x = dir_view (l1 ++ l2) x \/
  in_entry (L1Entry off ∅) x = true /\ dir_view (l1 ++ L1Entry off ∅ :: l2) x = dir_view l1 x.
Proof.
  induction l1 as [|e l1 IH]; simpl.
  - destruct (in_entry _ x) eqn:E; [right; split; [done|]|by left].
    unfold entry_view. simpl. by rewrite lookup_empty.
  - destruct (in_entry e x); [by left|exact IH].
Qed.

Lemma insert_entry_wf sa dir' n off :
  sa_wf sa -> 0 <= off <= INT64_MAX -> off mod SPAN = 0 ->
  Forall (fun e => l1_offset e < off) (take n (sa_items sa)) ->
  Forall (fun e => off < l1_offset e) (drop n (sa_items sa)) ->
  v_items dir' = take n (sa_items sa) ++ L1Entry off ∅ :: drop n (sa_items sa) ->
  vector_wf dir' -> v_cap dir' <= Z.max (v_cap (sa_l1_dir sa)) (2 * (v_len (sa_l1_dir sa) + 1)) ->
  sa_wf (SparseArray dir').
Proof.
  intros [Hv Hc Hs He] Hoff Hal Hlt Hgt Hit Hv' Hc'.
  assert (Hlen : v_len dir' = v_len (sa_l1_dir sa) + 1).
  { unfold v_len. rewrite Hit, length_app. simpl. rewrite length_take, length_drop.
    unfold sa_items. lia. }
  split; simpl; [done|lia| |].
  - unfold sa_items at 1. simpl. rewrite Hit, fmap_app. simpl.
    rewrite <- (take_drop n (sa_items sa)), fmap_app in Hs.
    apply StronglySorted_app in Hs as (Hx & Hs1 & Hs2).
    apply StronglySorted_app. split; [|split; [done|]].
    + intros x1 x2 H1 H2. apply elem_of_cons in H2 as [->|H2]; [|by apply Hx].
      apply list_elem_of_fmap in H1 as (e & -> & H1). rewrite Forall_forall in Hlt. by apply Hlt.
    + apply StronglySorted_cons. split; [|done]. apply Forall_fmap. exact Hgt.
  - unfold sa_items. simpl. rewrite Hit. rewrite <- (take_drop n (sa_items sa)) in He.
    apply Forall_app in He as [He1 He2]. apply Forall_app. split; [done|].
    apply Forall_cons. split; [|done]. split; simpl; [done|done|]. apply map_Forall_empty.
Qed.

(** Inserting an empty entry where there was none. *)
Lemma hwp_insert_l1_entry sa off mem :
  sa_wf sa -> 0 <= off <= INT64_MAX -> off mod SPAN = 0 ->
  Forall (fun e => l1_offset e <> off) (sa_items sa) ->
  hwp (insert_l1_entry sa (L1Entry off ∅)) (fun '(r, sa') mem' =>
    sa_wf sa' /\ (forall x, sa_view sa' x = sa_view sa x) /\
    (r = -1 \/ (r = 0 /\ exists i, sa_items sa' !! i = Some (L1Entry off ∅))) /\
    (mem = [] -> r = 0 /\ mem' = [])) mem.
Proof.
  intros Hwf Hoff Hal Hne. unfold insert_l1_entry. apply hwp_bind.
  eapply hwp_mono; [apply hwp_insert_scan; [apply Hwf|done]|].
  intros at_ mem' (-> & n & Hn & Hat & Hlt & Hgt). apply hwp_bind.
  set (dir := sa_l1_dir sa) in *.
  assert (Hins : hwp (match at_ with
                      | Some i => vector_insert sizeof_l1_entry dir (L1Entry off ∅) i
                      | None => vector_append sizeof_l1_entry dir (L1Entry off ∅)
                      end) (fun '(r, v') mem' => vector_wf v' /\
    v_cap v' <= Z.max (v_cap dir) (2 * (v_len dir + 1)) /\
    ((r = -1 /\ v' = dir) \/
     (r = 0 /\ v_items v' = take n (v_items dir) ++ L1Entry off ∅ :: drop n (v_items dir))) /\
    (mem = [] -> (v_cap dir + 1) * sizeof_l1_entry <= UINT64_MAX -> r = 0 /\ mem' = [])) mem).
  { pose proof (sw_vector _ Hwf) as Hv. fold dir in Hv.
    pose proof (hwp_insert sizeof_l1_entry dir (L1Entry off ∅) (Z.of_nat n) mem Hv) as Hi.
    rewrite Nat2Z.id in Hi. unfold sa_items in Hn. fold dir in Hn.
    specialize (Hi ltac:(unfold v_len; lia) ltac:(unfold sizeof_l1_entry; limits; lia)).
    destruct at_ as [i|]; [replace i with (Z.of_nat n) by lia; exact Hi|].
    unfold vector_append. unfold v_len at 1. unfold sa_items in Hat. fold dir in Hat.
    rewrite <- Hat. exact Hi. }
  eapply hwp_mono; [exact Hins|]. intros [r dir'] mem' (Hv' & Hc' & Hr & Hm).
  apply hwp_ret. pose proof (entries_bound (sa_items sa) 0 (sw_sorted _ Hwf) (sw_entries _ Hwf)) as Hb.
  assert (Hcap : (v_cap dir + 1) * sizeof_l1_entry <= UINT64_MAX).
  { pose proof (sw_cap _ Hwf) as Hc. fold dir in Hc.
    assert (Hpos : Forall (fun e => 0 <= l1_offset e) (sa_items sa)).
    { eapply Forall_impl; [apply (sw_entries _ Hwf)|]. intros e []. lia. }
    specialize (Hb Hpos). unfold v_len, sa_items, sizeof_l1_entry, SPAN in *. fold dir in Hb.
    limits. lia. }
  destruct Hr as [[-> ->]|[-> Hit]].
  { replace (SparseArray dir) with sa by (unfold dir; by destruct sa).
    split; [done|]. split; [done|]. split; [by left|auto]. }
  split; [by eapply insert_entry_wf|]. split; [|split; [right; split; [done|]|auto]].
  - intros x. unfold sa_view at 1, sa_items. simpl. rewrite Hit.
    destruct (dir_view_insert (take n (v_items dir)) (drop n (v_items dir)) off x) as [->|[Hin ->]];
      [by rewrite take_drop|].
    assert (Hout : forall i e, sa_items sa !! i = Some e -> in_entry e x = false).
    { intros i e He. destruct (in_entry e x) eqn:E; [|done]. exfalso.
      rewrite Forall_lookup in Hne. apply (Hne i e He).
      apply in_entry_spec in E; [|by apply (entry_at _ Hwf i)].
      apply in_entry_spec in Hin; [|done]. simpl in Hin. lia. }
    rewrite dir_view_out; [symmetry; by apply dir_view_out|].
    intros i e He. apply (Hout i). apply lookup_take_Some in He as [He _]. exact He.
  - exists (length (take n (v_items dir))). unfold sa_items. simpl. rewrite Hit.
    by rewrite list_lookup_middle.
Qed.

(** ** [lookup] *)

Definition lookup_post sa (offset : Z) (create : bool) (mem : list bool)
    (res : option page_ptr * option l2_ptr * sparse_array) (mem' : list bool) : Prop :=
  let '(p, q, sa') := res in
  sa_wf sa' /\ (forall x, sa_view sa' x = sa_view sa x) /\
  (create = false -> sa' = sa /\ mem' = mem) /\ (mem = [] -> mem' = []) /\
  match p with
  | Some p =>
      q = Some (pp_l2 p) /\ points sa' (pp_l2 p) offset /\
      pp_offset p = offset mod SPARSE_PAGE /\ is_Some (get_page sa' (pp_l2 p))
  | None =>
      (create = false -> forall y, same_page offset y -> sa_view sa y = 0) /\
      (create = true -> mem <> [])
  end.

Lemma nth_zero_page i : nth i (memset 0 SPARSE_PAGE) 0 = 0.
Proof.
  destruct (decide (i < Z.to_nat SPARSE_PAGE)%nat).
  - rewrite <- (Nat2Z.id i). apply nth_memset. lia.
  - apply nth_overflow. rewrite length_memset. lia.
Qed.

Lemma land_page x : Z.land x (SPARSE_PAGE - 1) = x mod SPARSE_PAGE.
Proof. apply (land_pred_pow2 x 15). lia. Qed.

(** The entry exists. *)
Lemma hwp_lookup_hit fuel sa offset create i e mem :
  sa_wf sa -> 0 <= offset <= INT64_MAX ->
  vector_search (sa_l1_dir sa) (compare_l1_offsets offset) = Some i ->
  sa_items sa !! i = Some e -> in_entry e offset = true ->
  hwp (lookup_again (S fuel) sa offset create) (lookup_post sa offset create mem) mem.
Proof.
  intros Hwf Ho Hsearch He Hin. cbn [lookup_again]. rewrite Hsearch, He.
  destruct (entry_at _ Hwf _ _ He) as [Hr Ha Hp].
  assert (Hle : l1_offset e <= offset).
  { unfold in_entry in Hin. rewrite andb_true_iff, Z.leb_le in Hin. lia. }
  rewrite u64_small by (limits; lia). set (o := (offset - l1_offset e) / SPARSE_PAGE).
  assert (Hpt : points sa (L2Ptr i o) offset) by (exists e; done).
  pose proof (points_index _ _ _ Hpt) as Hidx. simpl in Hidx.
  rewrite (proj2 (Z.leb_gt L2_SIZE o)) by lia.
  assert (Hget : get_page sa (L2Ptr i o) = l1_l2_dir e !! o).
  { unfold get_page. simpl. by rewrite He. }
  destruct (l1_l2_dir e !! o) as [page|] eqn:Hpage.
  { apply hwp_ret. split; [done|]. split; [done|]. split; [done|]. split; [done|].
    simpl. split; [done|]. split; [done|]. split; [apply land_page|]. rewrite Hget. eauto. }
  assert (Hzero : forall y, same_page offset y -> sa_view sa y = 0).
  { intros y Hy. rewrite (view_points sa Hwf (L2Ptr i o)); [by rewrite Hget|].
    by apply (points_same_page sa Hwf _ offset). }
  destruct create; [|apply hwp_ret; do 4 (split; [done|]); split; [by intros _|done]].
  apply hwp_bind, hwp_allocate. intros ok mem' Hok. destruct ok; apply hwp_ret.
  - destruct (set_page_spec sa (L2Ptr i o) offset (memset 0 SPARSE_PAGE) Hwf Hpt) as
      (Hwf' & Hpt' & Hg' & Hv'); [apply length_memset|].
    split; [done|]. split; [|split; [done|split; [tauto|]]].
    + intros y. rewrite Hv'. destruct (decide _) as [E|]; [|done].
      rewrite nth_zero_page. symmetry. by apply Hzero.
    + simpl. split; [done|]. split; [done|]. split; [apply land_page|]. rewrite Hg'. eauto.
  - split; [done|]. split; [done|]. split; [done|]. split; [tauto|].
    split; [done|]. intros _ Hm. destruct (Hok Hm). done.
Qed.

Lemma hwp_lookup_again sa offset create mem :
  sa_wf sa -> 0 <= offset <= INT64_MAX ->
  hwp (lookup_again 2 sa offset create) (lookup_post sa offset create mem) mem.
Proof.
  intros Hwf Ho. pose proof (search_spec sa offset Hwf) as Hsearch.
  destruct (vector_search _ _) as [i|] eqn:Hs.
  { destruct Hsearch as (e & He & Hin). by eapply hwp_lookup_hit. }
  change 2%nat with (S 1). remember 1%nat as fuel1 eqn:Hfuel1. cbn [lookup_again].
  rewrite Hs. destruct create.
  2: { apply hwp_ret. split; [done|]. split; [done|]. split; [done|]. split; [done|].
       split; [|done]. intros _ y Hy. apply dir_view_out. intros i e He.
       destruct (in_entry e y) eqn:E; [|done]. rewrite <- (Hsearch i e He). symmetry.
       apply (same_page_entry e y offset); [by apply (entry_at _ Hwf i)|done|done]. }
  pose proof (Z.mod_pos_bound offset SPAN ltac:(done)) as Hmod.
  pose proof (Z.mod_le offset SPAN ltac:(lia) ltac:(done)) as Hmle.
  assert (Hnew : Z.land offset (u64 (Z.lnot (SPARSE_PAGE * L2_SIZE - 1))) = offset - offset mod SPAN).
  { change (Z.lnot (SPARSE_PAGE * L2_SIZE - 1)) with (- 2 ^ 27).
    rewrite land_neg_pow2 by (limits; lia). done. }
  rewrite Hnew. set (off := offset - offset mod SPAN) in *.
  assert (Hal : off mod SPAN = 0).
  { unfold off. rewrite Zminus_mod, Zmod_mod, Z.sub_diag. done. }
  apply hwp_bind, hwp_allocate. intros ok mem' Hok. destruct ok.
  2: { apply hwp_ret. split; [done|]. split; [done|]. split; [done|]. split; [tauto|].
       split; [done|]. intros _ Hm. destruct (Hok Hm). done. }
  apply hwp_bind. eapply hwp_mono; [apply (hwp_insert_l1_entry sa off mem' Hwf); [lia|done|]|].
  { apply Forall_lookup. intros i e He E. pose proof (Hsearch i e He) as Hf.
    assert (in_entry e offset = true) by (apply in_entry_spec; [by apply (entry_at _ Hwf i)|done]).
    congruence. }
  intros [r sa1] mem1 (Hwf1 & Hv1 & Hr & Hm1). destruct Hr as [->|[-> (i1 & Hi1)]].
  - apply hwp_ret. split; [done|]. split; [done|]. split; [done|]. split; [tauto|].
    split; [done|]. intros _ Hm. destruct (Hok Hm) as [_ ->]. by destruct (Hm1 eq_refl).
  - pose proof (search_spec sa1 offset Hwf1) as Hsearch1.
    assert (Hin1 : in_entry (L1Entry off ∅) offset = true) by (by apply in_entry_spec).
    destruct (vector_search (sa_l1_dir sa1) _) as [i|] eqn:Hs1;
      [|by rewrite (Hsearch1 i1 _ Hi1) in Hin1].
    destruct Hsearch1 as (e & He & Hin). change (0 =? -1) with false. cbn iota.
    subst fuel1. eapply hwp_mono; [by eapply (hwp_lookup_hit 0)|].
    intros [[p q] sa2] mem2 (Hwf2 & Hv2 & _ & Hm2 & Hp). split; [done|].
    assert (Hmm : mem = [] -> mem1 = []) by tauto.
    split; [intros x; by rewrite Hv2|]. split; [done|]. split; [auto|].
    destruct p; [done|]. split; [done|]. intros _ Hm. by apply Hp, Hmm.
Qed.

(** ** Accesses to a page *)

Lemma page_arith x i :
  0 <= i -> x mod SPARSE_PAGE + i < SPARSE_PAGE ->
  (x + i) / SPARSE_PAGE = x / SPARSE_PAGE /\ (x + i) mod SPARSE_PAGE = x mod SPARSE_PAGE + i.
Proof.
  unfold SPARSE_PAGE. intros Hi Hlt. pose proof (Z.mod_pos_bound x 32768 ltac:(lia)).
  pose proof (Z.div_mod x 32768 ltac:(lia)).
  pose proof (Z.mod_pos_bound (x + i) 32768 ltac:(lia)).
  pose proof (Z.div_mod (x + i) 32768 ltac:(lia)). lia.
Qed.

(** A valid pointer to byte [x]. *)
Record valid_ptr sa p (x : Z) : Prop := ValidPtr {
  vp_points : points sa (pp_l2 p) x;
  vp_offset : pp_offset p = x mod SPARSE_PAGE;
  vp_page : is_Some (get_page sa (pp_l2 p));
}.

Lemma hwp_load sa p x n mem :
  sa_wf sa -> valid_ptr sa p x -> 0 <= n <= SPARSE_PAGE - x mod SPARSE_PAGE ->
  hwp (load sa p n) (fun buf mem' => mem' = mem /\ buf = slice (sa_view sa) x n) mem.
Proof.
  intros Hwf [Hpt Hoff [page Hpage]] Hn. unfold load. rewrite Hpage, Hoff.
  pose proof (get_page_length _ Hwf _ _ Hpage) as Hlen.
  pose proof (Z.mod_pos_bound x SPARSE_PAGE ltac:(done)).
  rewrite (proj2 (Z.leb_le _ _)) by (rewrite Hlen; unfold SPARSE_PAGE in *; lia).
  apply hwp_ret. split; [done|].
  assert (Hsub : length (sub page (x mod SPARSE_PAGE) n) = Z.to_nat n).
  { apply length_sub; [lia..|]. rewrite Hlen. unfold SPARSE_PAGE in *. lia. }
  rewrite <- (slice_of_list (sub _ _ _) (sa_view sa) x); [f_equal; lia|].
  intros i Hi. rewrite Hsub in Hi. destruct (page_arith x i) as [Hd Hm]; [lia..|].
  rewrite (view_points sa Hwf (pp_l2 p)) by
    (apply (points_same_page sa Hwf _ x); [done|symmetry; exact Hd]).
  rewrite Hpage, Hm. rewrite nth_sub; [done|lia..|]. rewrite Hlen. unfold SPARSE_PAGE in *. lia.
Qed.

Lemma hwp_store sa p x buf mem :
  sa_wf sa -> valid_ptr sa p x -> Z.of_nat (length buf) <= SPARSE_PAGE - x mod SPARSE_PAGE ->
  hwp (store sa p buf) (fun sa' mem' => mem' = mem /\ sa_wf sa' /\ valid_ptr sa' p x /\
    forall y, sa_view sa' y = overwrite (sa_view sa) buf x y) mem.
Proof.
  intros Hwf [Hpt Hoff [page Hpage]] Hn. unfold store. rewrite Hpage, Hoff.
  pose proof (get_page_length _ Hwf _ _ Hpage) as Hlen.
  pose proof (Z.mod_pos_bound x SPARSE_PAGE ltac:(done)) as Hmod.
  assert (Hfit : x mod SPARSE_PAGE + Z.of_nat (length buf) <= Z.of_nat (length page))
    by (rewrite Hlen; unfold SPARSE_PAGE in *; lia).
  rewrite (proj2 (Z.leb_le _ _)) by done. apply hwp_ret. split; [done|].
  destruct (set_page_spec sa (pp_l2 p) x (splice page buf (x mod SPARSE_PAGE)) Hwf Hpt)
    as (Hwf' & Hpt' & Hg' & Hv'); [rewrite length_splice; lia|].
  split; [done|]. split; [split; [done|done|rewrite Hg'; eauto]|].
  intros y. rewrite Hv'. destruct (decide _) as [Hd|Hd].
  - pose proof (Z.div_mod x SPARSE_PAGE ltac:(done)). pose proof (Z.div_mod y SPARSE_PAGE ltac:(done)).
    pose proof (Z.mod_pos_bound y SPARSE_PAGE ltac:(done)).
    rewrite nth_splice by lia. unfold overwrite.
    destruct (decide (x <= y < _)).
    + rewrite decide_True by lia. do 2 f_equal. lia.
    + rewrite decide_False by lia.
      rewrite (view_points sa Hwf (pp_l2 p)) by (by apply (points_same_page sa Hwf _ x)).
      by rewrite Hpage.
  - rewrite overwrite_out; [done|]. intros Hy. apply Hd. symmetry.
    replace y with (x + (y - x)) by lia. apply page_arith; lia.
Qed.

(** Reading the whole page of byte [x]. *)
Lemma hwp_load_page sa p x mem :
  sa_wf sa -> valid_ptr sa p x ->
  hwp (load sa (PagePtr (pp_l2 p) 0) SPARSE_PAGE) (fun buf mem' => mem' = mem /\
    buf = slice (sa_view sa) (x - x mod SPARSE_PAGE) SPARSE_PAGE) mem.
Proof.
  intros Hwf [Hpt Hoff Hpage].
  assert (Hd : (x - x mod SPARSE_PAGE) / SPARSE_PAGE = x / SPARSE_PAGE /\
               (x - x mod SPARSE_PAGE) mod SPARSE_PAGE = 0).
  { rewrite Z.mod_eq by done. replace (x - (x - SPARSE_PAGE * (x / SPARSE_PAGE)))
      with (x / SPARSE_PAGE * SPARSE_PAGE) by lia.
    by rewrite Z.div_mul, Z.mod_mul by done. }
  destruct Hd as [Hd Hm].
  apply hwp_load; [done| |rewrite Hm; unfold SPARSE_PAGE; lia].
  split; simpl; [|by rewrite Hm|done]. apply (points_same_page sa Hwf _ x); [done|].
  symmetry. exact Hd.
Qed.

(** Freeing the page of byte [x] zeroes it; if it was zero nothing changes. *)
Lemma free_zero_page sa p x :
  sa_wf sa -> valid_ptr sa p x ->
  is_zero (slice (sa_view sa) (x - x mod SPARSE_PAGE) SPARSE_PAGE) SPARSE_PAGE = true ->
  sa_wf (free_page sa (pp_l2 p)) /\ forall y, sa_view (free_page sa (pp_l2 p)) y = sa_view sa y.
Proof.
  intros Hwf [Hpt _ _] Hz. destruct (free_page_spec sa (pp_l2 p) x Hwf Hpt) as [Hwf' Hv].
  split; [done|]. intros y. rewrite Hv. destruct (decide _) as [Hd|]; [|done].
  set (page := slice _ _ _) in Hz.
  replace SPARSE_PAGE with (Z.of_nat (length page)) in Hz at 1
    by (unfold page; rewrite length_slice; done).
  rewrite is_zero_all_zero, all_zero_nth in Hz.
  pose proof (Z.div_mod x SPARSE_PAGE ltac:(done)). pose proof (Z.div_mod y SPARSE_PAGE ltac:(done)).
  pose proof (Z.mod_pos_bound y SPARSE_PAGE ltac:(done)) as Hy.
  rewrite <- (Hz (Z.to_nat (y mod SPARSE_PAGE))). unfold page. rewrite nth_slice by lia.
  f_equal. lia.
Qed.

(** ** Loops over the pages of a request *)

(** Enough rounds for [count] bytes from [offset] on. *)
Definition enough (fuel : nat) (count offset : Z) : Prop :=
  count = 0 \/ count + offset mod SPARSE_PAGE <= Z.of_nat fuel * SPARSE_PAGE.

Lemma enough_pages count offset : 0 <= count -> enough (pages count) count offset.
Proof.
  intros Hc. right. unfold pages. pose proof (Z.div_pos count SPARSE_PAGE Hc ltac:(done)).
  rewrite Z2Nat.id by lia. pose proof (Z.mod_pos_bound offset SPARSE_PAGE ltac:(done)).
  pose proof (Z.div_mod count SPARSE_PAGE ltac:(done)).
  pose proof (Z.mod_pos_bound count SPARSE_PAGE ltac:(done)). lia.
Qed.

Lemma not_enough count offset : 0 < count -> ~ enough 0 count offset.
Proof.
  intros Hc [->|He]; [lia|]. pose proof (Z.mod_pos_bound offset SPARSE_PAGE ltac:(done)). lia.
Qed.

(** One round handles [n] bytes, to the end of the page or the request. *)
Definition chunk (count offset : Z) : Z :=
  if count <? SPARSE_PAGE - offset mod SPARSE_PAGE then count
  else SPARSE_PAGE - offset mod SPARSE_PAGE.

Lemma chunk_spec fuel count offset :
  0 < count -> enough (S fuel) count offset ->
  0 < chunk count offset <= count /\
  chunk count offset <= SPARSE_PAGE - offset mod SPARSE_PAGE /\
  enough fuel (count - chunk count offset) (offset + chunk count offset).
Proof.
  intros Hc [->|He]; [lia|]. unfold chunk.
  pose proof (Z.mod_pos_bound offset SPARSE_PAGE ltac:(done)).
  destruct (Z.ltb_spec count (SPARSE_PAGE - offset mod SPARSE_PAGE)).
  - split; [lia|]. split; [lia|]. left. lia.
  - split; [lia|]. split; [lia|]. right.
    assert (Hz : (offset + (SPARSE_PAGE - offset mod SPARSE_PAGE)) mod SPARSE_PAGE = 0).
    { rewrite (Z.mod_eq offset) by done.
      replace (offset + (SPARSE_PAGE - (offset - SPARSE_PAGE * (offset / SPARSE_PAGE))))
        with ((offset / SPARSE_PAGE + 1) * SPARSE_PAGE) by lia. by rewrite Z.mod_mul. }
    rewrite Hz. lia.
Qed.

Lemma hwp_lookup sa offset create mem :
  sa_wf sa -> 0 <= offset <= INT64_MAX ->
  hwp (lookup sa offset create) (fun '(p, n, q, sa') mem' =>
    n = SPARSE_PAGE - offset mod SPARSE_PAGE /\
    lookup_post sa offset create mem (p, q, sa') mem') mem.
Proof.
  intros Hwf Ho. unfold lookup. rewrite land_page. apply hwp_bind.
  eapply hwp_mono; [by apply hwp_lookup_again|]. intros [[p q] sa'] mem' Hpost. by apply hwp_ret.
Qed.

Lemma hwp_read_loop fuel sa count offset mem :
  sa_wf sa -> 0 <= count -> 0 <= offset -> offset + count <= INT64_MAX ->
  enough fuel count offset ->
  hwp (read_loop fuel sa count offset) (fun buf mem' =>
    mem' = mem /\ buf = slice (sa_view sa) offset count) mem.
Proof.
  intros Hwf. revert count offset. induction fuel as [|fuel IH]; intros count offset Hc Ho Hend Hen;
    cbn [read_loop]; (destruct (Z.eqb_spec count 0) as [->|Hne]; [by apply hwp_ret|]).
  { by apply not_enough in Hen; [|lia]. }
  apply hwp_bind. eapply hwp_mono; [apply hwp_lookup; [done|lia]|].
  intros [[[p n] q] sa'] mem' (-> & _ & _ & Hfr & _ & Hp). destruct (Hfr eq_refl) as [-> ->].
  fold (chunk count offset). destruct (chunk_spec fuel count offset ltac:(lia) Hen) as (Hch & Hpg & Hen').
  set (n := chunk count offset) in *. apply hwp_bind.
  eapply hwp_mono with (P := fun part mem' => mem' = mem /\ part = slice (sa_view sa) offset n).
  { destruct p as [p|].
    - destruct Hp as (_ & Hpt & Hoff & Hpage). apply hwp_load; [done|by split|lia].
    - apply hwp_ret. split; [done|]. symmetry. apply slice_const. intros x Hx.
      apply (proj1 Hp eq_refl). unfold same_page. replace x with (offset + (x - offset)) by lia.
      symmetry. apply page_arith; lia. }
  intros part mem' [-> ->]. apply hwp_bind. rewrite !u64_small by (limits; lia).
  eapply hwp_mono; [apply IH; (done || lia)|]. intros rest mem' [-> ->]. apply hwp_ret.
  split; [done|]. rewrite <- slice_app by lia. f_equal. lia.
Qed.

(** ** Writing *)

(** Some of the bytes are new already. *)
Definition partial (d new d' : Z -> Z) : Prop := forall x, d' x = d x \/ d' x = new x.

Lemma overwrite_take d buf n offset x :
  0 <= n <= Z.of_nat (length buf) ->
  overwrite d buf offset x =
  overwrite (overwrite d (take (Z.to_nat n) buf) offset) (drop (Z.to_nat n) buf) (offset + n) x.
Proof.
  intros Hn. rewrite <- (take_drop (Z.to_nat n) buf) at 1. rewrite overwrite_app, length_take.
  do 2 f_equal. lia.
Qed.

(** Writing on after [n] bytes have been written. *)
Lemma partial_overwrite d buf n offset d1 d' :
  0 <= n <= Z.of_nat (length buf) ->
  (forall x, d1 x = overwrite d (take (Z.to_nat n) buf) offset x) ->
  partial d1 (overwrite d1 (drop (Z.to_nat n) buf) (offset + n)) d' ->
  partial d (overwrite d buf offset) d'.
Proof.
  intros Hn Hd1 Hp x. rewrite (overwrite_take d buf n) by done.
  rewrite <- (overwrite_ext d1 _ _ _ _ (Hd1 x)). destruct (Hp x) as [-> | ->]; [|by right].
  unfold overwrite at 1. rewrite length_drop. destruct (decide _) as [Hin|Hout].
  - left. rewrite Hd1. apply overwrite_out. rewrite length_take. lia.
  - by right.
Qed.

(** The exclusive lock allows allocation, which can fail. *)
Definition write_result (exclusive : bool) (r : Z) (d new d' : Z -> Z) (mem mem' : list bool) : Prop :=
  (r = 0 /\ forall x, d' x = new x) /\ (mem = [] -> mem' = []) \/
  r = (if exclusive then -1 else RESTART_EXCLUSIVE) /\ partial d new d' /\
  (exclusive = true -> mem <> []) /\ (exclusive = false -> mem' = mem).

Lemma hwp_do_write fuel exclusive sa buf count offset mem :
  sa_wf sa -> 0 <= count -> 0 <= offset -> offset + count <= INT64_MAX ->
  length buf = Z.to_nat count -> enough fuel count offset ->
  hwp (do_write fuel exclusive sa buf count offset) (fun '(r, sa') mem' =>
    sa_wf sa' /\ write_result exclusive r (sa_view sa) (overwrite (sa_view sa) buf offset) (sa_view sa')
      mem mem') mem.
Proof.
  revert sa buf count offset mem.
  induction fuel as [|fuel IH]; intros sa buf count offset mem Hwf Hc Ho Hend Hlen Hen;
    cbn [do_write]; (destruct (Z.eqb_spec count 0) as [->|Hne]).
  1, 3: apply hwp_ret; destruct buf; [|done]; split; [done|]; left; split; [|done];
    split; [done|]; intros x; symmetry; apply overwrite_nil.
  { by apply not_enough in Hen; [|lia]. }
  apply hwp_bind. eapply hwp_mono; [apply hwp_lookup; [done|lia]|].
  intros [[[p n] q] sa1] mem1 (-> & Hwf1 & Hv1 & Hfr & Hm & Hp). destruct p as [p|].
  2: { apply hwp_ret. split; [done|]. right. destruct Hp as [Hp1 Hp2]. split; [done|].
       split; [intros x; left; apply Hv1|]. split; [done|]. intros ->. by destruct (Hfr eq_refl). }
  fold (chunk count offset). destruct (chunk_spec fuel count offset ltac:(lia) Hen) as (Hch & Hpg & Hen').
  set (n := chunk count offset) in *. destruct Hp as (_ & Hpt & Hoff & Hpage).
  apply hwp_bind. eapply hwp_mono; [apply (hwp_store sa1 p offset); [done|by split|]|].
  { rewrite length_take. lia. }
  intros sa2 mem2 (-> & Hwf2 & _ & Hv2). rewrite !u64_small by (limits; lia).
  eapply hwp_mono; [apply IH; (done || rewrite ?length_drop; lia)|].
  intros [r sa3] mem3 (Hwf3 & Hres). split; [done|].
  assert (Hd1 : forall x, sa_view sa2 x = overwrite (sa_view sa) (take (Z.to_nat n) buf) offset x).
  { intros x. rewrite Hv2. by apply overwrite_ext. }
  destruct Hres as [[[-> Hv3] Hm3]|(-> & Hpar & Hex & Hsh)]; [left|right].
  - split; [split; [done|]|auto]. intros x. rewrite Hv3, (overwrite_take _ buf n) by lia.
    by apply overwrite_ext.
  - split; [done|]. split; [by apply (partial_overwrite _ _ n _ (sa_view sa2)); [lia|..]|].
    split; [intros -> Hmem; by apply Hex, Hm|].
    intros ->. rewrite Hsh by done. by destruct (Hfr eq_refl).
Qed.

(** Doing a request again after a part of it was done. *)
Lemma overwrite_partial d buf offset d1 :
  partial d (overwrite d buf offset) d1 ->
  forall x, overwrite d1 buf offset x = overwrite d buf offset x.
Proof.
  intros Hp x. unfold overwrite at 1. destruct (decide _) as [Hin|Hout].
  - by rewrite overwrite_in.
  - rewrite overwrite_out by done. destruct (Hp x) as [-> | ->]; [done|by rewrite overwrite_out].
Qed.

Lemma write_result_modifies r d new d' mem mem' :
  write_result true r d new d' mem mem' ->
  modifies r d new d' /\ (mem = [] -> r = 0 /\ mem' = []).
Proof.
  intros [[[-> Hv] Hm]|(-> & Hpar & Hex & _)].
  - split; [by left|auto].
  - split; [by right|]. intros Hmem. by destruct (Hex eq_refl).
Qed.

(** The result of the second attempt, from the state the first one left. *)
Lemma write_result_restart r d new d1 new1 d' mem mem' :
  partial d new d1 -> (forall x, new1 x = new x) ->
  write_result true r d1 new1 d' mem mem' -> write_result true r d new d' mem mem'.
Proof.
  intros Hp1 Hnew [[[-> Hv] Hm]|(-> & Hpar & Hex & Hsh)]; [left|right].
  - split; [|done]. split; [done|]. intros x. by rewrite Hv.
  - split; [done|]. split; [|done]. intros x.
    destruct (Hpar x) as [-> | ->]; [apply Hp1|right; apply Hnew].
Qed.

Lemma hwp_sparse_array_write sa buf count offset mem :
  sa_wf sa -> 0 <= count -> 0 <= offset -> offset + count <= INT64_MAX ->
  length buf = Z.to_nat count ->
  hwp (sparse_array_write sa buf count offset) (fun '(r, sa') mem' =>
    sa_wf sa' /\ write_result true r (sa_view sa) (overwrite (sa_view sa) buf offset) (sa_view sa')
      mem mem') mem.
Proof.
  intros Hwf Hc Ho Hend Hlen. unfold sparse_array_write. apply hwp_bind.
  pose proof (enough_pages count offset Hc) as Hen.
  eapply hwp_mono; [by apply hwp_do_write|].
  intros [r sa1] mem1 (Hwf1 & [[[-> Hv] Hm]|(-> & Hpar & _ & Hm)]).
  - apply hwp_ret. split; [done|]. by left.
  - rewrite Z.eqb_refl, (Hm eq_refl). eapply hwp_mono; [by apply hwp_do_write|].
    intros [r sa2] mem2 [Hwf2 Hres]. split; [done|].
    eapply write_result_restart; [exact Hpar| |exact Hres]. by apply overwrite_partial.
Qed.

(** ** Zeroing *)

Lemma fill_split d d1 c n count offset x :
  0 <= n <= count -> (forall x, d1 x = fill d c n offset x) ->
  fill d1 c (count - n) (offset + n) x = fill d c count offset x.
Proof.
  intros Hn Hd1. unfold fill in *. destruct (decide _).
  - by rewrite decide_True by lia.
  - rewrite Hd1. destruct (decide _); [by rewrite decide_True by lia|by rewrite decide_False by lia].
Qed.

Lemma partial_fill d d1 c n count offset d' :
  0 <= n <= count -> (forall x, d1 x = fill d c n offset x) ->
  partial d1 (fill d1 c (count - n) (offset + n)) d' -> partial d (fill d c count offset) d'.
Proof.
  intros Hn Hd1 Hp x. rewrite <- (fill_split d d1 c n) by done.
  destruct (Hp x) as [-> | ->]; [|by right]. unfold fill at 1.
  destruct (decide _); [left|by right]. rewrite Hd1. unfold fill. by rewrite decide_False by lia.
Qed.

(** One round: [n] bytes are zero afterwards, and the page is freed when it
    is zero and the lock allows it. *)
Definition zero_page (exclusive : bool) sa p (q : l2_ptr) (n : Z) : AM (bool * sparse_array) :=
  sa ← (if n <? SPARSE_PAGE then store sa p (memset 0 n)
        else hassert (pp_offset p =? 0);; mret sa);
  page ← load sa (PagePtr q 0) SPARSE_PAGE;
  if ((SPARSE_PAGE <=? n) || is_zero page SPARSE_PAGE)%bool
  then mret (exclusive, if exclusive then free_page sa q else sa)
  else mret (true, sa).

Lemma hwp_zero_page exclusive sa p offset n mem :
  sa_wf sa -> valid_ptr sa p offset -> 0 < n <= SPARSE_PAGE - offset mod SPARSE_PAGE ->
  hwp (zero_page exclusive sa p (pp_l2 p) n) (fun '(done, sa') mem' => mem' = mem /\ sa_wf sa' /\
    if done : bool then forall x, sa_view sa' x = fill (sa_view sa) 0 n offset x
    else exclusive = false /\ partial (sa_view sa) (fill (sa_view sa) 0 n offset) (sa_view sa')) mem.
Proof.
  intros Hwf Hvp Hn. pose proof (Z.mod_pos_bound offset SPARSE_PAGE ltac:(done)) as Hmod.
  unfold zero_page. apply hwp_bind. destruct (Z.ltb_spec n SPARSE_PAGE) as [Hlt|Hge].
  - eapply hwp_mono; [apply (hwp_store sa p offset); [done..|rewrite length_memset; lia]|].
    intros sa1 mem1 (-> & Hwf1 & Hvp1 & Hv1). apply hwp_bind.
    eapply hwp_mono; [by apply (hwp_load_page sa1 p offset)|]. intros page mem2 [-> ->].
    rewrite (proj2 (Z.leb_gt SPARSE_PAGE n)) by lia. simpl.
    destruct (is_zero _ _) eqn:Hz.
    + destruct (free_zero_page sa1 p offset Hwf1 Hvp1 Hz) as [Hwf2 Hv2]. apply hwp_ret.
      split; [done|]. destruct exclusive; (split; [done|]).
      * intros x. by rewrite Hv2, Hv1, overwrite_memset.
      * split; [done|]. intros x. right. by rewrite Hv1, overwrite_memset.
    + apply hwp_ret. split; [done|]. split; [done|]. intros x. by rewrite Hv1, overwrite_memset.
  - assert (Hoff : offset mod SPARSE_PAGE = 0) by lia. assert (n = SPARSE_PAGE) as -> by lia.
    apply hwp_bind, hwp_assert. split; [apply Z.eqb_eq; by rewrite (vp_offset _ _ _ Hvp)|].
    apply hwp_ret, hwp_bind. eapply hwp_mono; [by apply (hwp_load_page sa p offset)|].
    intros page mem2 [-> ->]. rewrite Z.leb_refl. simpl. apply hwp_ret. split; [done|].
    destruct (free_page_spec sa (pp_l2 p) offset Hwf (vp_points _ _ _ Hvp)) as [Hwf2 Hv2].
    destruct exclusive; (split; [done|]).
    + intros x. rewrite Hv2. unfold fill.
      pose proof (Z.div_mod offset SPARSE_PAGE ltac:(done)). pose proof (Z.div_mod x SPARSE_PAGE ltac:(done)).
      pose proof (Z.mod_pos_bound x SPARSE_PAGE ltac:(done)).
      destruct (decide _), (decide _); (done || lia || idtac); exfalso; nia.
    + split; [done|]. by left.
Qed.

Lemma hwp_do_zero fuel exclusive sa count offset mem :
  sa_wf sa -> 0 <= count -> 0 <= offset -> offset + count <= INT64_MAX ->
  enough fuel count offset ->
  hwp (do_zero fuel exclusive sa count offset) (fun '(r, sa') mem' => mem' = mem /\ sa_wf sa' /\
    ((r = 0 /\ forall x, sa_view sa' x = fill (sa_view sa) 0 count offset x) \/
     (exclusive = false /\ r = RESTART_EXCLUSIVE /\
      partial (sa_view sa) (fill (sa_view sa) 0 count offset) (sa_view sa')))) mem.
Proof.
  revert sa count offset. induction fuel as [|fuel IH]; intros sa count offset Hwf Hc Ho Hend Hen;
    cbn [do_zero]; (destruct (Z.eqb_spec count 0) as [->|Hne]).
  1, 3: apply hwp_ret; split; [done|]; split; [done|]; left; split; [done|]; intros x;
    unfold fill; by rewrite decide_False by lia.
  { by apply not_enough in Hen; [|lia]. }
  apply hwp_bind. eapply hwp_mono; [apply hwp_lookup; [done|lia]|].
  intros [[[p n] q] sa1] mem1 (-> & _ & _ & Hfr & _ & Hp). destruct (Hfr eq_refl) as [-> ->].
  fold (chunk count offset). destruct (chunk_spec fuel count offset ltac:(lia) Hen) as (Hch & Hpg & Hen').
  set (n := chunk count offset) in *. rewrite !u64_small by (limits; lia).
  (* the rest of the request, from a state in which [n] bytes are done *)
  assert (Hrest : forall sa2, sa_wf sa2 ->
    (forall x, sa_view sa2 x = fill (sa_view sa) 0 n offset x) ->
    hwp (do_zero fuel exclusive sa2 (count - n) (offset + n)) (fun '(r, sa') mem' =>
      mem' = mem /\ sa_wf sa' /\
      ((r = 0 /\ forall x, sa_view sa' x = fill (sa_view sa) 0 count offset x) \/
       (exclusive = false /\ r = RESTART_EXCLUSIVE /\
        partial (sa_view sa) (fill (sa_view sa) 0 count offset) (sa_view sa')))) mem).
  { intros sa2 Hwf2 Hv2. eapply hwp_mono; [apply IH; (done || lia)|].
    intros [r sa3] mem3 (-> & Hwf3 & Hr). split; [done|]. split; [done|].
    destruct Hr as [[-> Hv3]|(-> & -> & Hpar)]; [left|right].
    - split; [done|]. intros x. rewrite Hv3. apply fill_split; (done || lia).
    - split; [done|]. split; [done|]. eapply partial_fill; [|exact Hv2|exact Hpar]. lia. }
  destruct p as [p|].
  2: { apply Hrest; [done|]. intros x. unfold fill. destruct (decide _); [|done].
       apply (proj1 Hp eq_refl). unfold same_page. replace x with (offset + (x - offset)) by lia.
       symmetry. apply page_arith; lia. }
  destruct Hp as (-> & Hpt & Hoff & Hpage).
  pose proof (hwp_zero_page exclusive sa p offset n mem Hwf (ValidPtr _ _ _ Hpt Hoff Hpage)) as Hz.
  specialize (Hz ltac:(lia)). unfold zero_page in Hz. rewrite hwp_bind in Hz. apply hwp_bind.
  eapply hwp_mono; [exact Hz|]. intros sa2 mem2 Hz2. rewrite hwp_bind in Hz2. apply hwp_bind.
  eapply hwp_mono; [exact Hz2|]. intros page mem3. cbv beta.
  destruct ((SPARSE_PAGE <=? n) || is_zero page SPARSE_PAGE)%bool; intros Hz3;
    apply (proj1 (hwp_ret _ _ _)) in Hz3.
  - destruct exclusive; destruct Hz3 as (-> & Hwf3 & Hv3).
    + by apply Hrest.
    + apply hwp_ret. split; [done|]. split; [done|]. right. split; [done|]. split; [done|].
      intros x. destruct (proj2 Hv3 x) as [-> | ->]; [by left|]. unfold fill.
      destruct (decide (offset <= x < offset + n)); [right; by rewrite decide_True by lia|by left].
  - destruct Hz3 as (-> & Hwf3 & Hv3). by apply Hrest.
Qed.

Lemma fill_partial d c count offset d1 :
  partial d (fill d c count offset) d1 ->
  forall x, fill d1 c count offset x = fill d c count offset x.
Proof.
  intros Hp x. unfold fill at 1. destruct (decide _) as [Hin|Hout].
  - unfold fill. by rewrite decide_True.
  - destruct (Hp x) as [-> | ->]; unfold fill; by rewrite decide_False.
Qed.

Lemma hwp_sparse_array_zero sa count offset mem :
  sa_wf sa -> 0 <= count -> 0 <= offset -> offset + count <= INT64_MAX ->
  hwp (sparse_array_zero sa count offset) (fun '(r, sa') mem' => mem' = mem /\ sa_wf sa' /\
    r = 0 /\ forall x, sa_view sa' x = fill (sa_view sa) 0 count offset x) mem.
Proof.
  intros Hwf Hc Ho Hend. unfold sparse_array_zero. apply hwp_bind.
  pose proof (enough_pages count offset Hc) as Hen.
  eapply hwp_mono; [by apply hwp_do_zero|]. intros [r sa1] mem1 (-> & Hwf1 & Hr).
  destruct Hr as [[-> Hv]|(_ & -> & Hpar)]; [by apply hwp_ret|].
  rewrite Z.eqb_refl. eapply hwp_mono; [by apply hwp_do_zero|].
  intros [r sa2] mem2 (-> & Hwf2 & [[-> Hv2]|[? _]]); [|done].
  split; [done|]. split; [done|]. split; [done|]. intros x. rewrite Hv2. by apply fill_partial.
Qed.

(** ** Filling and copying *)

Lemma take_memset c n m : 0 <= n <= m -> take (Z.to_nat n) (memset c m) = memset c n.
Proof. intros. unfold memset. rewrite take_replicate. f_equal. lia. Qed.

Lemma drop_memset c n m : 0 <= n <= m -> drop (Z.to_nat n) (memset c m) = memset c (m - n).
Proof. intros. unfold memset. rewrite drop_replicate. f_equal. lia. Qed.

(** Filling is writing a constant buffer. *)
Lemma fill_loop_do_write fuel sa c count offset mem :
  0 <= count <= UINT64_MAX ->
  fill_loop fuel sa c count offset mem = do_write fuel true sa (memset c count) count offset mem.
Proof.
  revert sa count offset mem. induction fuel as [|fuel IH]; intros sa count offset mem Hc;
    cbn [fill_loop do_write]; (destruct (Z.eqb_spec count 0) as [|Hne]; [done|]); [done|].
  unfold mbind, AM_bind. unfold lookup, mbind, AM_bind.
  destruct (lookup_again 2 sa offset true mem) as [[[[p q] sa1] mem1]|]; [|done]. simpl.
  destruct p as [p|]; [|done]. rewrite land_page.
  pose proof (Z.mod_pos_bound offset SPARSE_PAGE ltac:(done)).
  set (n := if count <? _ then _ else _).
  assert (Hn : 0 <= n <= count).
  { unfold n. destruct (Z.ltb_spec count (SPARSE_PAGE - offset mod SPARSE_PAGE)); lia. }
  rewrite take_memset, drop_memset by lia.
  destruct (store sa1 p (memset c n) mem1) as [[sa2 mem2]|]; [|done].
  rewrite (u64_small (count - n)) by lia. apply IH. lia.
Qed.

Lemma hwp_sparse_array_fill sa c count offset mem :
  sa_wf sa -> 0 <= count -> 0 <= offset -> offset + count <= INT64_MAX ->
  hwp (sparse_array_fill sa c count offset) (fun '(r, sa') mem' =>
    sa_wf sa' /\ write_result true r (sa_view sa) (fill (sa_view sa) c count offset) (sa_view sa')
      mem mem') mem.
Proof.
  intros Hwf Hc Ho Hend. unfold sparse_array_fill. destruct (Z.eqb_spec c 0) as [->|].
  - eapply hwp_mono; [by apply hwp_sparse_array_zero|].
    intros [r sa'] mem' (-> & Hwf' & -> & Hv). split; [done|]. by left.
  - unfold hwp. rewrite fill_loop_do_write by (limits; lia).
    change (hwp (do_write (pages count) true sa (memset c count) count offset) (fun '(r, sa') mem' =>
      sa_wf sa' /\ write_result true r (sa_view sa) (fill (sa_view sa) c count offset) (sa_view sa')
      mem mem') mem).
    eapply hwp_mono; [apply hwp_do_write; try done; [apply length_memset|by apply enough_pages]|].
    intros [r sa'] mem' [Hwf' Hres]. split; [done|].
    eapply write_result_restart; [by left| |exact Hres]. intros x. apply overwrite_memset.
Qed.

Section Blit.
Context (read1 : Z -> Z -> AM (Z * list Z)) (src : Z -> Z).

(** The source allocator reads [src] between [lo] and [hi]. *)
Definition reads (lo hi : Z) : Prop :=
  forall n o mem, lo <= o -> 0 <= n -> o + n <= hi ->
    hwp (read1 n o) (fun '(r, buf) mem' => length buf = Z.to_nat n /\
      (r = -1 \/ (r = 0 /\ buf = slice src o n)) /\ (mem = [] -> r = 0 /\ mem' = [])) mem.

Lemma hwp_blit_loop fuel sa count offset1 offset2 mem :
  sa_wf sa -> 0 <= count -> 0 <= offset1 -> offset1 + count <= INT64_MAX ->
  0 <= offset2 -> offset2 + count <= INT64_MAX -> enough fuel count offset2 ->
  reads offset1 (offset1 + count) ->
  hwp (blit_loop fuel read1 sa count offset1 offset2) (fun '(r, sa') mem' => sa_wf sa' /\
    (r = 0 -> forall x, sa_view sa' x =
       overwrite (sa_view sa) (slice src offset1 count) offset2 x) /\
    (forall x, ~ (offset2 <= x < offset2 + count) -> sa_view sa' x = sa_view sa x) /\
    (r = 0 \/ r = -1) /\ (mem = [] -> r = 0 /\ mem' = [])) mem.
Proof.
  revert sa count offset1 offset2 mem.
  induction fuel as [|fuel IH]; intros sa count offset1 offset2 mem Hwf Hc Ho1 He1 Ho2 He2 Hen Hrd;
    cbn [blit_loop]; (destruct (Z.eqb_spec count 0) as [->|Hne]).
  1, 3: apply hwp_ret; split; [done|]; split; [intros _ x; symmetry; apply overwrite_nil|]; auto.
  { by apply not_enough in Hen; [|lia]. }
  apply hwp_bind. eapply hwp_mono; [apply hwp_lookup; [done|lia]|].
  intros [[[p n] q] sa1] mem1 (-> & Hwf1 & Hv1 & _ & Hm1 & Hp). destruct p as [p|].
  2: { apply hwp_ret. split; [done|]. split; [done|]. split; [auto|]. split; [by right|].
       intros Hm. by destruct (proj2 Hp eq_refl). }
  destruct Hp as (-> & Hpt & Hoff & Hpage). fold (chunk count offset2).
  destruct (chunk_spec fuel count offset2 ltac:(lia) Hen) as (Hch & Hpg & Hen').
  set (n := chunk count offset2) in *. apply hwp_bind.
  eapply hwp_mono; [apply Hrd; lia|]. intros [r buf] mem2 (Hlen & Hr & Hm2). apply hwp_bind.
  eapply hwp_mono; [apply (hwp_store sa1 p offset2); [done|by split|lia]|].
  intros sa2 mem3 (-> & Hwf2 & Hvp2 & Hv2).
  assert (Hout : forall x, ~ (offset2 <= x < offset2 + n) -> sa_view sa2 x = sa_view sa x).
  { intros x Hx. rewrite Hv2, overwrite_out by lia. apply Hv1. }
  destruct Hr as [->|[-> Hbuf]].
  { apply hwp_ret. split; [done|]. split; [done|]. split; [intros x Hx; apply Hout; lia|].
    split; [by right|]. intros Hm. by destruct (Hm2 (Hm1 Hm)). }
  cbn iota. change (0 =? -1) with false. cbn iota. apply hwp_bind.
  eapply hwp_mono; [by apply (hwp_load_page sa2 p offset2)|]. intros page mem4 [-> ->].
  set (sa3 := if is_zero _ _ then free_page sa2 (pp_l2 p) else sa2).
  assert (Hsa3 : sa_wf sa3 /\ forall x, sa_view sa3 x = sa_view sa2 x).
  { unfold sa3. destruct (is_zero _ _) eqn:Hz; [by apply (free_zero_page sa2 p offset2)|done]. }
  destruct Hsa3 as [Hwf3 Hv3]. rewrite !u64_small by (limits; lia).
  eapply hwp_mono; [apply IH; try (done || lia)|].
  { intros n' o' mem' ? ? ?. apply Hrd; lia. }
  intros [r sa4] mem5 (Hwf4 & Hv4 & Hout4 & Hr4 & Hm4). split; [done|]. split; [|split; [|split; [done|]]].
  - intros Hr0 x. rewrite (Hv4 Hr0). replace count with (n + (count - n)) at 2 by lia.
    rewrite slice_app, overwrite_app, length_slice, Z2Nat.id, <- Hbuf by lia.
    apply overwrite_ext. rewrite Hv3, Hv2. by apply overwrite_ext.
  - intros x Hx. rewrite Hout4, Hv3, Hout by lia. done.
  - intros Hm. apply Hm4. by destruct (Hm2 (Hm1 Hm)).
Qed.
End Blit.

(** ** Theorem *)

Lemma sparse_spec : AllocatorSpec sparse_functions sa_wf sa_view INT64_MAX.
Proof.
  split; simpl.
  - intros sa count offset mem Hwf (Ho & Hc & Hend). unfold sparse_array_read. apply hwp_bind.
    eapply hwp_mono; [apply hwp_read_loop; try done; by apply enough_pages|].
    intros buf mem' [-> ->]. apply hwp_ret. rewrite length_slice. auto.
  - intros sa buf count offset mem Hwf (Ho & Hc & Hend) Hlen.
    eapply hwp_mono; [by apply hwp_sparse_array_write|]. intros [r sa'] mem' [Hwf' Hres].
    split; [done|]. by apply write_result_modifies.
  - intros sa c count offset mem Hwf (Ho & Hc & Hend).
    eapply hwp_mono; [by apply hwp_sparse_array_fill|]. intros [r sa'] mem' [Hwf' Hres].
    split; [done|]. by apply write_result_modifies.
  - intros sa count offset mem Hwf (Ho & Hc & Hend).
    eapply hwp_mono; [by apply hwp_sparse_array_zero|]. intros [r sa'] mem' (-> & Hwf' & -> & Hv).
    split; [done|]. split; [by left|done].
  - intros read1 src sa count offset1 offset2 mem Hwf (Ho & Hc & Hend) Ho1 He1 Hrd.
    unfold sparse_array_blit. apply (hwp_blit_loop read1 src); try done; [by apply enough_pages|].
    intros n o mem' ? ? ?. apply Hrd; lia.
Qed.

(** C18: The sparse array is a disk of any size up to [INT64_MAX].  Every
    operation, on every request in range and whichever allocations fail,
    ends without failing an assertion or touching memory outside a page,
    keeps the two level directory sorted, aligned and made of whole pages,
    and does to the disk what it would do to a flat array of bytes; on
    failure the bytes of the request are old or new and no other byte
    changes.  Pages that become zero are freed, and a request that is
    restarted with the exclusive lock has the effect of one that is not.
    Without allocation failures every request succeeds. *)
Theorem sparse_array_refines_flat : AllocatorSpec sparse_functions sa_wf sa_view INT64_MAX.
Proof. apply sparse_spec. Qed.

(** The array starts out as a disk of zeroes. *)
Lemma sparse_array_fresh :
  sa_wf (SparseArray empty_vector) /\ forall x, sa_view (SparseArray empty_vector) x = 0.
Proof.
  split; [|done]. split; simpl; [|done|constructor|constructor].
  unfold vector_wf, v_len. simpl. limits. lia.
Qed.

(** ** Extents *)

(** A promise that a range reads as zeroes is kept. *)
Definition reads_zero sa : list nbdkit_extent -> Prop :=
  types_sound 1 (fun x => sa_view sa x = 0).

Lemma slice_is_zero d offset n :
  0 <= n -> is_zero (slice d offset n) n = true -> forall x, offset <= x < offset + n -> d x = 0.
Proof.
  intros Hn Hz x Hx. pose proof (length_slice d offset n) as Hl.
  replace n with (Z.of_nat (length (slice d offset n))) in Hz at 2 by lia.
  rewrite is_zero_all_zero, all_zero_nth in Hz. rewrite <- (Hz (Z.to_nat (x - offset))).
  rewrite nth_slice by lia. f_equal. lia.
Qed.

(** The type of the rest of the page of [offset]. *)
Lemma hwp_page_type sa (op : option page_ptr) offset mem :
  sa_wf sa -> 0 <= offset ->
  match op with
  | Some p => valid_ptr sa p offset
  | None => forall y, same_page offset y -> sa_view sa y = 0
  end ->
  let n := SPARSE_PAGE - offset mod SPARSE_PAGE in
  hwp (match op with
       | None => mret (Z.lor NBDKIT_EXTENT_HOLE NBDKIT_EXTENT_ZERO)
       | Some p => part ← load sa p n; mret (if is_zero part n then NBDKIT_EXTENT_ZERO else 0)
       end) (fun type mem' => mem' = mem /\
    (Z.testbit type 1 = true -> forall x, offset <= x < offset + n -> sa_view sa x = 0)) mem.
Proof.
  intros Hwf Ho Hp n. pose proof (Z.mod_pos_bound offset SPARSE_PAGE ltac:(done)).
  destruct op as [p|].
  - apply hwp_bind. eapply hwp_mono; [apply (hwp_load sa p offset); [done..|unfold n; lia]|].
    intros part mem' [-> ->]. apply hwp_ret. split; [done|]. destruct (is_zero _ _) eqn:Hz.
    + intros _. apply slice_is_zero; [unfold n; lia|done].
    + done.
  - apply hwp_ret. split; [done|]. intros _ x Hx. apply Hp. unfold same_page.
    replace x with (offset + (x - offset)) by lia. symmetry. apply page_arith; unfold n in *; lia.
Qed.

Lemma hwp_extents_loop fuel sa start end_ count offset exts mem :
  sa_wf sa -> 0 <= count -> 0 <= offset -> offset + count + SPARSE_PAGE <= INT64_MAX ->
  enough fuel count offset -> 0 <= start -> offset + count <= end_ -> start < offset + count ->
  collected 1 (fun x => sa_view sa x = 0) start end_ offset exts ->
  hwp (extents_loop fuel sa count offset exts) (fun '(r, exts') mem' => mem' = mem /\ r = 0 /\
    exts_wf exts' /\ x_start exts' = start /\ x_end exts' = end_ /\ x_extents exts' <> [] /\
    offset + count <= x_next exts' /\ reads_zero sa (x_extents exts')) mem.
Proof.
  intros Hwf. assert (Hpage : 0 < SPARSE_PAGE) by done. revert count offset exts mem.
  induction fuel as [|fuel IH]; intros count offset exts mem Hc Ho Hmax Hen Hst Hend Hlt Hcl;
    cbn [extents_loop]; (destruct (Z.eqb_spec count 0) as [->|Hne]).
  1, 3: apply hwp_ret; rewrite Z.add_0_r in *; destruct Hcl as [? ? ? ? Hn Hf ?];
    specialize (Hf Hlt); do 6 (split; [done|]); split; [destruct Hn as [->|[]]; lia|done].
  { by apply not_enough in Hen; [|lia]. }
  apply hwp_bind. eapply hwp_mono; [apply hwp_lookup; [done|lia]|].
  intros [[[p n] q] sa1] mem1 (-> & _ & _ & Hfr & _ & Hp). destruct (Hfr eq_refl) as [-> ->].
  pose proof (Z.mod_pos_bound offset SPARSE_PAGE ltac:(done)).
  apply hwp_bind. eapply hwp_mono; [apply hwp_page_type; [done..|]|].
  { destruct p; [by destruct Hp as (_ & ? & ? & ?)|by apply Hp]. }
  intros type mem2 [-> Htype].
  destruct (collected_extend _ _ _ _ (SPARSE_PAGE - offset mod SPARSE_PAGE) type Hcl)
    as (exts1 & -> & Hwf1 & Hs1 & He1 & Hn1 & Hne1 & Hsnd1); [lia..|done|].
  fold (chunk count offset). destruct (chunk_spec fuel count offset ltac:(lia) Hen) as (Hch & Hpg & Hen').
  destruct (decide (chunk count offset = count)) as [Heq|Hmore].
  - rewrite Heq, Z.sub_diag. change (u64 0) with 0. destruct fuel; cbn [extents_loop];
      apply hwp_ret; repeat (split; [done|]); (split; [lia|done]).
  - assert (Hn : chunk count offset = SPARSE_PAGE - offset mod SPARSE_PAGE).
    { unfold chunk in *. by destruct (_ <? _). }
    set (n := chunk count offset) in *. rewrite !u64_small by (limits; lia).
    eapply hwp_mono; [apply IH; try (done || lia)|].
    + pose proof (cl_offset _ _ _ _ Hcl). split; (done || lia).
    + intros [r exts2] mem2 (-> & -> & Hp2). split; [done|]. split; [done|].
      by replace (offset + count) with (offset + n + (count - n)) by lia.
Qed.

(** The extents of a sparse array are complete and honest: for every
    range the allocator answers with a well-formed list that describes all
    of the range (unless [MAX_EXTENTS] is reached), and a byte that is
    reported to read as zero does read as zero. *)
Lemma sparse_extents_honest sa count offset mem :
  sa_wf sa -> 0 < count -> 0 <= offset -> offset + count + SPARSE_PAGE <= INT64_MAX ->
  hwp (sparse_array_extents sa count offset (Extents [] offset (offset + count) (-1)))
    (fun '(r, exts) mem' => mem' = mem /\ r = 0 /\ exts_wf exts /\ reads_zero sa (x_extents exts) /\
      (nbdkit_extents_count exts < MAX_EXTENTS ->
       forall x, is_Some (type_at (x_extents exts) x) <-> offset <= x < offset + count)) mem.
Proof.
  intros Hwf Hc Ho Hmax. unfold sparse_array_extents.
  eapply hwp_mono; [apply (hwp_extents_loop _ _ offset (offset + count)); try done; try lia|].
  - apply enough_pages. lia.
  - apply collected_new; unfold SPARSE_PAGE in *; lia.
  - intros [r exts] mem' (-> & -> & Hwf' & Hs & He & Hne & Hn & Hz).
    do 3 (split; [done|]). split; [done|]. intros Hcnt x.
    destruct (wf_filled _ Hwf' Hne) as (_ & _ & Hfull). specialize (Hfull Hcnt).
    rewrite Hs, He in Hfull. rewrite (chain_domain offset); [|rewrite <- Hs; apply Hwf'].
    rewrite Hfull. lia.
Qed.

Lemma sparse_extents_honest_witness :
  hwp (sparse_array_extents (SparseArray empty_vector) 4096 512 (Extents [] 512 (512 + 4096) (-1)))
    (fun '(r, exts) mem' => mem' = [] /\ r = 0 /\ exts_wf exts /\
      reads_zero (SparseArray empty_vector) (x_extents exts) /\
      (nbdkit_extents_count exts < MAX_EXTENTS ->
       forall x, is_Some (type_at (x_extents exts) x) <-> 512 <= x < 512 + 4096)) [].
Proof.
  apply sparse_extents_honest;
    [apply sparse_array_fresh|lia|lia|unfold SPARSE_PAGE, INT64_MAX; lia].
Defined.
