(* ===== verification/Malloc.v ===== *)
(** * The malloc allocator

    Models [common/allocators/malloc.c]: a disk in one block of memory that
    grows when it is written beyond its end.  What [realloc] and
    [posix_memalign] leave in new memory is a parameter ([junk]).

    Within the size it was told in advance ([set_size_hint]) the allocator
    keeps the contract [AllocatorSpec], so it cannot be told from the sparse
    array.  When it grows by itself the vector allocates more than was asked
    for and the rest is not cleared. *)

From S2P Require Import Prelude NbdProtocol Extents Server Bytes Vector Allocators Sparse.

(** [ma_ba] is the memory behind [ba.ptr], [ba.cap] bytes of it. *)
Record m_alloc : Type := MAlloc {
  ma_use_mlock : bool;
  ma_ba : list Z;
}.

Implicit Types (ma : m_alloc).

Definition ba_cap ma : Z := Z.of_nat (length (ma_ba ma)).

Section Malloc.
Context (junk : Z -> Z).
(* [sysconf (_SC_PAGESIZE)] *)
Context (pagesize : Z).

(** The block resized to [newcap] bytes. *)
Definition grow ma (newcap : Z) : m_alloc :=
  MAlloc (ma_use_mlock ma) (ma_ba ma ++ slice junk (ba_cap ma) (newcap - ba_cap ma)).

(** [memset] and [memcpy] to [ba.ptr + offset]. *)
Definition ba_store ma (buf : list Z) (offset : Z) : AM m_alloc :=
  if ((0 <=? offset) && (offset + Z.of_nat (length buf) <=? ba_cap ma))%bool
  then mret (MAlloc (ma_use_mlock ma) (splice (ma_ba ma) buf offset))
  else hfail OutOfBounds.

Definition ba_load ma (count offset : Z) : AM (list Z) :=
  if ((0 <=? offset) && (offset + count <=? ba_cap ma))%bool
  then mret (sub (ma_ba ma) offset count)
  else hfail OutOfBounds.

Definition bytearray_reserve ma (n : Z) : AM (Z * m_alloc) :=
  match calculate_capacity (ba_cap ma) n 1 false with
  | None => mret (-1, ma)
  | Some (newcap, _) =>
      ok ← allocate;
      if ok : bool then mret (0, grow ma newcap) else mret (-1, ma)
  end.

(** [generic_vector_reserve_page_aligned] for items of one byte. *)
Definition bytearray_reserve_page_aligned ma (n : Z) : AM (Z * m_alloc) :=
  hassert (1 <? pagesize);;
  match calculate_capacity (ba_cap ma) n 1 true with
  | None => mret (-1, ma)
  | Some (newcap, newbytes) =>
      let extra := Z.land newbytes (pagesize - 1) in
      let extra_items := pagesize - extra in
      let '(o1, cap1) := ADD_OVERFLOW newcap extra_items in
      let '(o2, _) := ADD_OVERFLOW newbytes extra_items in
      if ((0 <? extra) && (o1 || o2))%bool then mret (-1, ma)
      else
        ok ← allocate;
        if ok : bool then mret (0, grow ma (if 0 <? extra then cap1 else newcap))
        else mret (-1, ma)
  end.

Definition extend_without_mlock ma (new_size : Z) : AM (Z * m_alloc) :=
  if ba_cap ma <? new_size then
    let old_size := ba_cap ma in
    let n := u64 (new_size - ba_cap ma) in
    '(r, ma) ← bytearray_reserve ma n;
    if r =? -1 then mret (-1, ma)
    else
      ma ← ba_store ma (memset 0 n) old_size;
      mret (0, ma)
  else mret (0, ma).

(** [mlock] can fail like an allocation; [munlock] changes nothing here. *)
Definition extend_with_mlock ma (new_size : Z) : AM (Z * m_alloc) :=
  if ba_cap ma <? new_size then
    let old_size := ba_cap ma in
    let n := u64 (new_size - ba_cap ma) in
    '(r, ma) ← bytearray_reserve_page_aligned ma n;
    if r =? -1 then mret (-1, ma)
    else
      ma ← ba_store ma (memset 0 n) old_size;
      locked ← allocate;
      mret (if locked : bool then 0 else -1, ma)
  else mret (0, ma).

Definition extend ma (new_size : Z) : AM (Z * m_alloc) :=
  if ma_use_mlock ma then extend_with_mlock ma new_size else extend_without_mlock ma new_size.

Definition m_alloc_set_size_hint ma (size_hint : Z) : AM (Z * m_alloc) := extend ma size_hint.

Definition m_alloc_read ma (count offset : Z) : AM (Z * list Z) :=
  if ba_cap ma <=? offset then mret (0, memset 0 count)
  else if ba_cap ma <? u64 (offset + count) then
    part ← ba_load ma (ba_cap ma - offset) offset;
    mret (0, part ++ memset 0 (u64 (offset + count) - ba_cap ma))
  else
    buf ← ba_load ma count offset;
    mret (0, buf).

Definition m_alloc_write ma (buf : list Z) (count offset : Z) : AM (Z * m_alloc) :=
  '(r, ma) ← extend ma (u64 (offset + count));
  if r =? -1 then mret (-1, ma)
  else
    ma ← ba_store ma (take (Z.to_nat count) buf) offset;
    mret (0, ma).

Definition m_alloc_fill ma (c count offset : Z) : AM (Z * m_alloc) :=
  '(r, ma) ← extend ma (u64 (offset + count));
  if r =? -1 then mret (-1, ma)
  else
    ma ← ba_store ma (memset c count) offset;
    mret (0, ma).

Definition m_alloc_zero ma (count offset : Z) : AM (Z * m_alloc) :=
  if offset <? ba_cap ma then
    ma ← ba_store ma
           (memset 0 (if ba_cap ma <? u64 (offset + count) then ba_cap ma - offset else count))
           offset;
    mret (0, ma)
  else mret (0, ma).

Definition m_alloc_blit (read1 : Z -> Z -> AM (Z * list Z)) ma (count offset1 offset2 : Z)
    : AM (Z * m_alloc) :=
  '(r, ma) ← extend ma (u64 (offset2 + count));
  if r =? -1 then mret (-1, ma)
  else
    '(r, buf) ← read1 count offset1;
    ma ← ba_store ma buf offset2;
    mret (r, ma).

Definition m_alloc_extents ma (count offset : Z) (extents : nbdkit_extents)
    : AM (Z * nbdkit_extents) :=
  let '(r, extents) := nbdkit_add_extent extents offset count 0 in
  mret (match r with None => 0 | Some _ => -1 end, extents).

(** The parsed [mlock] parameter; [None] is NULL. *)
Definition m_alloc_create (use_mlock : bool) : AM (option m_alloc) :=
  ok ← allocate;
  mret (if ok : bool then Some (MAlloc use_mlock []) else None).

Definition malloc_functions : allocator_functions m_alloc :=
  AllocatorFunctions "malloc"%string 512 m_alloc_set_size_hint m_alloc_read m_alloc_write
    m_alloc_fill m_alloc_zero m_alloc_blit m_alloc_extents.

(** ** The disk *)

Definition ma_view ma : Z -> Z := fun x =>
  if decide (0 <= x) then nth (Z.to_nat x) (ma_ba ma) 0 else 0.

Lemma hwp_ba_store ma buf offset mem :
  0 <= offset -> offset + Z.of_nat (length buf) <= ba_cap ma ->
  hwp (ba_store ma buf offset) (fun ma' mem' => mem' = mem /\ ba_cap ma' = ba_cap ma /\
    forall x, ma_view ma' x = overwrite (ma_view ma) buf offset x) mem.
Proof.
  intros Ho Hend. unfold ba_store. rewrite (proj2 (Z.leb_le 0 offset)), (proj2 (Z.leb_le _ _)) by done.
  apply hwp_ret. unfold ba_cap in *. simpl. split; [done|]. split; [by rewrite length_splice|].
  intros x. unfold ma_view. simpl. destruct (decide (0 <= x)).
  - rewrite nth_splice by done. unfold overwrite. destruct (decide _); [done|].
    by rewrite decide_True.
  - rewrite overwrite_out by lia. by rewrite decide_False.
Qed.

Lemma hwp_ba_load ma count offset mem :
  0 <= offset -> 0 <= count -> offset + count <= ba_cap ma ->
  hwp (ba_load ma count offset) (fun buf mem' => mem' = mem /\
    buf = slice (ma_view ma) offset count) mem.
Proof.
  intros Ho Hc Hend. unfold ba_load. rewrite (proj2 (Z.leb_le 0 offset)), (proj2 (Z.leb_le _ _)) by done.
  apply hwp_ret. split; [done|]. unfold ba_cap in *.
  assert (Hl : length (sub (ma_ba ma) offset count) = Z.to_nat count) by (by apply length_sub).
  rewrite <- (slice_of_list (sub _ _ _) (ma_view ma) offset); [f_equal; lia|].
  intros i Hi. unfold ma_view. rewrite decide_True by lia. by rewrite nth_sub by lia.
Qed.

(** Nothing is extended inside the block. *)
Lemma extend_enough ma n mem : n <= ba_cap ma -> extend ma n mem = Ok (0, ma, mem).
Proof.
  intros Hn. unfold extend, extend_with_mlock, extend_without_mlock.
  rewrite (proj2 (Z.ltb_ge _ _)) by lia. by destruct (ma_use_mlock ma).
Qed.

Lemma hwp_extend_enough ma n (Q : Z * m_alloc -> list bool -> Prop) mem :
  n <= ba_cap ma -> Q (0, ma) mem -> hwp (extend ma n) Q mem.
Proof. intros Hn HQ. eapply hwp_intro; [by apply extend_enough|done]. Qed.

(** The invariant: the block is as large as the disk. *)
Definition ma_holds (size : Z) ma : Prop := size <= ba_cap ma.

Lemma malloc_spec size :
  size <= INT64_MAX -> AllocatorSpec malloc_functions (ma_holds size) ma_view size.
Proof.
  intros Hsize. unfold ma_holds. split; simpl.
  - intros ma count offset mem Hinv (Ho & Hc & Hend). unfold m_alloc_read.
    rewrite u64_small by (limits; lia). destruct (Z.leb_spec (ba_cap ma) offset).
    + assert (count = 0) as -> by lia. apply hwp_ret. split; [done|]. split; [by right|done].
    + rewrite (proj2 (Z.ltb_ge _ _)) by lia. apply hwp_bind.
      eapply hwp_mono; [apply hwp_ba_load; lia|]. intros buf mem' [-> ->]. apply hwp_ret. rewrite length_slice. auto.
  - intros ma buf count offset mem Hinv (Ho & Hc & Hend) Hlen. unfold m_alloc_write.
    rewrite u64_small by (limits; lia). apply hwp_bind, hwp_extend_enough; [lia|].
    cbn iota. change (0 =? -1) with false. cbn iota. rewrite take_ge by lia.
    apply hwp_bind. eapply hwp_mono; [apply hwp_ba_store; lia|].
    intros ma' mem' (-> & Hcap & Hv). apply hwp_ret. split; [lia|]. split; [by left|done].
  - intros ma c count offset mem Hinv (Ho & Hc & Hend). unfold m_alloc_fill.
    rewrite u64_small by (limits; lia). apply hwp_bind, hwp_extend_enough; [lia|].
    cbn iota. change (0 =? -1) with false. cbn iota.
    apply hwp_bind. eapply hwp_mono; [apply hwp_ba_store; rewrite ?length_memset; lia|].
    intros ma' mem' (-> & Hcap & Hv). apply hwp_ret. split; [lia|]. split; [|done]. left.
    split; [done|]. intros x. by rewrite Hv, overwrite_memset.
  - intros ma count offset mem Hinv (Ho & Hc & Hend). unfold m_alloc_zero.
    destruct (Z.ltb_spec offset (ba_cap ma)).
    + rewrite u64_small by (limits; lia). rewrite (proj2 (Z.ltb_ge _ _)) by lia. apply hwp_bind.
      eapply hwp_mono; [apply hwp_ba_store; rewrite ?length_memset; lia|].
      intros ma' mem' (-> & Hcap & Hv). apply hwp_ret. split; [lia|]. split; [|done]. left.
      split; [done|]. intros x. by rewrite Hv, overwrite_memset.
    + apply hwp_ret. split; [done|]. split; [|done]. left. split; [done|]. intros x.
      unfold fill. by rewrite decide_False by lia.
  - intros read1 src ma count offset1 offset2 mem Hinv (Ho & Hc & Hend) Ho1 He1 Hrd.
    unfold m_alloc_blit. rewrite u64_small by (limits; lia).
    apply hwp_bind, hwp_extend_enough; [lia|]. cbn iota. change (0 =? -1) with false. cbn iota.
    apply hwp_bind. eapply hwp_mono; [apply Hrd; lia|].
    intros [r buf] mem' (Hlen & Hr & Hm). apply hwp_bind.
    eapply hwp_mono; [apply hwp_ba_store; lia|]. intros ma' mem'' (-> & Hcap & Hv). apply hwp_ret.
    split; [lia|]. split; [|split; [|split; [destruct Hr as [|[]]; auto|done]]].
    + intros Hr0 x. destruct Hr as [|[_ ->]]; [lia|]. apply Hv.
    + intros x Hx. rewrite Hv, overwrite_out by lia. done.
Qed.

(** ** The size hint *)

Lemma ba_cap_grow ma newcap : ba_cap ma <= newcap -> ba_cap (grow ma newcap) = newcap.
Proof. intros H. unfold grow, ba_cap in *. simpl. rewrite length_app, length_slice. lia. Qed.

Lemma view_grow ma newcap x : x < ba_cap ma -> ma_view (grow ma newcap) x = ma_view ma x.
Proof.
  intros Hx. unfold ma_view, grow. simpl. destruct (decide _); [|done].
  unfold ba_cap in Hx. by rewrite app_nth1 by lia.
Qed.

Lemma calculate_capacity_ok cap n exactly :
  0 <= cap -> 0 <= n -> cap + n <= UINT64_MAX ->
  exists newcap, calculate_capacity cap n 1 exactly = Some (newcap, newcap) /\
    cap + n <= newcap <= UINT64_MAX /\ (exactly = true \/ cap = 0 -> newcap = cap + n).
Proof.
  intros Hc Hn Hmax.
  destruct (calculate_capacity cap n 1 exactly) as [[newcap newbytes]|] eqn:E.
  - apply calculate_capacity_spec in E as (Hle & -> & Hb & Hex & Hup); [|lia..|limits; lia].
    exists newcap. rewrite Z.mul_1_r in *. split; [done|]. split; [lia|].
    intros [->| ->]; [auto|]. change ((0 + 1) / 2) with 0 in Hup. lia.
  - apply calculate_capacity_None in E; lia.
Qed.

(** Reserving in an empty array of pages. *)
Lemma hwp_extend_fresh use_mlock size k :
  pagesize = 2 ^ k -> 1 <= k <= 31 -> 0 <= size <= INT64_MAX ->
  hwp (m_alloc_set_size_hint (MAlloc use_mlock []) size) (fun '(r, ma) mem' =>
    r = 0 /\ mem' = [] /\ ma_holds size ma /\ forall x, 0 <= x < size -> ma_view ma x = 0) [].
Proof.
  intros Hpage Hk Hsize. unfold m_alloc_set_size_hint, extend. simpl.
  set (ma0 := MAlloc use_mlock []). assert (H0 : ba_cap ma0 = 0) by done.
  assert (Hstore : forall newcap, size <= newcap ->
    hwp (ba_store (grow ma0 newcap) (memset 0 size) 0) (fun ma mem' =>
      mem' = [] /\ ma_holds size ma /\ forall x, 0 <= x < size -> ma_view ma x = 0) []).
  { intros newcap Hle. eapply hwp_mono.
    - apply hwp_ba_store; [lia|]. rewrite length_memset, ba_cap_grow; lia.
    - intros ma mem' (-> & Hcap & Hv). split; [done|]. unfold ma_holds. rewrite Hcap, ba_cap_grow by lia.
      split; [lia|]. intros x Hx. rewrite Hv, overwrite_memset. unfold fill. by rewrite decide_True by lia. }
  destruct (calculate_capacity_ok 0 size use_mlock) as (newcap & Hcalc & Hnc & Heq); [limits; lia..|].
  specialize (Heq (or_intror eq_refl)). simpl in Heq. subst newcap.
  destruct use_mlock; unfold extend_with_mlock, extend_without_mlock; fold ma0; rewrite H0;
    (destruct (Z.ltb_spec 0 size); [|apply hwp_ret; unfold ma_holds; repeat (split; [lia || done|]); lia]);
    rewrite Z.sub_0_r, u64_small by (limits; lia); apply hwp_bind.
  - unfold bytearray_reserve_page_aligned. apply hwp_bind, hwp_assert.
    assert (Hgt : 1 < 2 ^ k) by (apply Z.pow_gt_1; lia).
    split; [apply Z.ltb_lt; lia|]. rewrite H0, Hcalc. rewrite Z.add_0_l. unfold ADD_OVERFLOW.
    rewrite Hpage, land_pred_pow2 in * by lia.
    pose proof (Z.pow_le_mono_r 2 k 31 ltac:(lia) ltac:(lia)) as Hp31.
    pose proof (Z.mod_pos_bound size (2 ^ k) ltac:(lia)).
    rewrite !(proj2 (Z.ltb_ge UINT64_MAX _)) by (limits; lia). rewrite andb_false_r.
    apply hwp_bind, hwp_allocate. intros ok mem' Hok. destruct (Hok eq_refl) as [-> ->].
    apply hwp_ret. change (0 =? -1) with false. cbn iota. apply hwp_bind.
    eapply hwp_mono; [apply Hstore|].
    + destruct (Z.ltb_spec 0 (size mod 2 ^ k)); [|lia].
      rewrite u64_small; [lia|]. limits. lia.
    + intros ma mem' (-> & Hh & Hv). apply hwp_bind, hwp_allocate. intros ok mem' Hok'.
      destruct (Hok' eq_refl) as [-> ->]. apply hwp_ret. auto.
  - unfold bytearray_reserve. rewrite H0, Hcalc. apply hwp_bind, hwp_allocate.
    intros ok mem' Hok. destruct (Hok eq_refl) as [-> ->]. apply hwp_ret.
    change (0 =? -1) with false. cbn iota. apply hwp_bind. eapply hwp_mono; [apply Hstore; lia|].
    intros ma mem' (-> & Hh & Hv). apply hwp_ret. auto.
Qed.

(** The two allocators cannot be told apart: on a disk whose size was
    announced, any sequence of reads, writes, fills and zeroes inside the
    disk gives the same results and the same bytes from the malloc allocator
    (with or without [mlock]) as from the sparse array. *)
Lemma allocators_equivalent use_mlock size qs k :
  pagesize = 2 ^ k -> 1 <= k <= 31 -> 0 <= size <= INT64_MAX -> Forall (request_ok size) qs ->
  ('(_, ma) ← m_alloc_set_size_hint (MAlloc use_mlock []) size; run malloc_functions ma qs) [] =
  run sparse_functions (SparseArray empty_vector) qs [].
Proof.
  intros Hpage Hk Hsize Hqs.
  destruct (hwp_ok _ _ _ (hwp_extend_fresh use_mlock size k Hpage Hk Hsize))
    as ([r ma] & mem' & Heq & -> & -> & Hh & Hz). unfold mbind, AM_bind. rewrite Heq.
  pose proof (malloc_spec size (proj2 Hsize)) as Hm.
  rewrite (run_flat malloc_functions (ma_holds size) ma_view size) by done.
  destruct sparse_array_fresh as [Hwf Hzero]. pose proof sparse_array_refines_flat as Hs.
  rewrite (run_flat sparse_functions sa_wf sa_view INT64_MAX); [|done|].
  - do 2 f_equal. apply (flat_run_range size); [done|]. intros x Hx. rewrite Hz by done. done.
  - eapply Forall_impl; [exact Hqs|]. intros [] Hq; unfold request_ok, in_range in *; lia.
Qed.

(** ** Growing beyond the hint *)

Lemma calculate_capacity_scaled cap :
  2 <= cap <= UINT32_MAX ->
  calculate_capacity cap 1 1 false = Some (cap + (cap + 1) / 2, cap + (cap + 1) / 2).
Proof.
  intros Hc. unfold calculate_capacity, ADD_OVERFLOW, MUL_OVERFLOW. rewrite !Z.mul_1_r.
  assert (1 <= (cap + 1) / 2 <= cap) by (split; [apply Z.div_le_lower_bound|apply Z.div_le_upper_bound]; lia).
  rewrite !(proj2 (Z.ltb_ge UINT64_MAX _)) by (limits; lia). simpl.
  rewrite !(u64_small (cap + 1)) by (limits; lia). rewrite !(u64_small (cap + _)) by (limits; lia).
  rewrite !(proj2 (Z.ltb_ge UINT64_MAX _)) by (limits; lia). simpl.
  by rewrite (proj2 (Z.ltb_ge _ _)) by lia.
Qed.

Lemma view_grow_new ma newcap x :
  ba_cap ma <= x < newcap -> ma_view (grow ma newcap) x = junk x.
Proof.
  intros Hx. unfold ma_view, grow. simpl. unfold ba_cap in *. rewrite decide_True by lia.
  rewrite app_nth2 by lia.
  replace (Z.to_nat x - length (ma_ba ma))%nat with (Z.to_nat (x - Z.of_nat (length (ma_ba ma)))) by lia.
  rewrite nth_slice by lia. f_equal. lia.
Qed.

(** One byte more than a block of [cap] bytes. *)
Lemma hwp_extend_scaled ma :
  ma_use_mlock ma = false -> 4 <= ba_cap ma <= UINT32_MAX ->
  hwp (extend ma (ba_cap ma + 1)) (fun '(r, ma') mem' => r = 0 /\ mem' = [] /\
    ba_cap ma' = ba_cap ma + (ba_cap ma + 1) / 2 /\
    forall x, ba_cap ma < x < ba_cap ma' -> ma_view ma' x = junk x) [].
Proof.
  intros Hm Hc. unfold extend, extend_without_mlock. rewrite Hm, (proj2 (Z.ltb_lt _ _)) by lia.
  replace (ba_cap ma + 1 - ba_cap ma) with 1 by lia. rewrite u64_small by (limits; lia).
  unfold bytearray_reserve. rewrite calculate_capacity_scaled by lia.
  assert (2 <= (ba_cap ma + 1) / 2) by (apply Z.div_le_lower_bound; lia).
  apply hwp_bind, hwp_bind, hwp_allocate. intros ok mem' Hok. destruct (Hok eq_refl) as [-> ->].
  apply hwp_ret. change (0 =? -1) with false. cbn iota. apply hwp_bind.
  eapply hwp_mono; [apply hwp_ba_store; rewrite ?length_memset, ?ba_cap_grow; unfold ba_cap in *; lia|].
  intros ma' mem' (-> & Hcap & Hv). apply hwp_ret. rewrite Hcap, ba_cap_grow by lia.
  repeat (split; [done|]). intros x Hx. rewrite Hv, overwrite_out by (rewrite length_memset; lia).
  apply view_grow_new. lia.
Qed.

(** Memory is not cleared when the array grows by itself.  A block of at
    least four bytes that is written one byte beyond its end is extended by
    half its size, and all but the written byte of that is what [realloc]
    left there: bytes that were never written do not read as zeroes. *)
Lemma malloc_growth_not_cleared ma b x :
  ma_use_mlock ma = false -> 4 <= ba_cap ma <= UINT32_MAX ->
  ba_cap ma < x < ba_cap ma + (ba_cap ma + 1) / 2 ->
  ('(_, ma) ← m_alloc_write ma [b] 1 (ba_cap ma); m_alloc_read ma 1 x) [] = Ok (0, [junk x], []).
Proof.
  intros Hm Hc Hx. assert ((ba_cap ma + 1) / 2 <= ba_cap ma) by (apply Z.div_le_upper_bound; lia).
  assert (Hwp : hwp ('(_, ma) ← m_alloc_write ma [b] 1 (ba_cap ma); m_alloc_read ma 1 x)
    (fun res mem' => res = (0, [junk x]) /\ mem' = []) []).
  { unfold m_alloc_write. rewrite u64_small by (limits; lia). apply hwp_bind, hwp_bind.
    eapply hwp_mono; [by apply hwp_extend_scaled|].
    intros [r ma1] mem' (-> & -> & Hcap & Hv). change (0 =? -1) with false. cbn iota.
    apply hwp_bind. eapply hwp_mono; [apply hwp_ba_store; simpl; lia|].
    intros ma2 mem' (-> & Hcap2 & Hv2). apply hwp_ret. unfold m_alloc_read.
    rewrite (proj2 (Z.leb_gt _ _)), (proj2 (Z.ltb_ge _ _)) by (rewrite ?u64_small by (limits; lia); lia).
    apply hwp_bind. eapply hwp_mono; [apply hwp_ba_load; lia|]. intros buf mem' [-> ->].
    apply hwp_ret. split; [|done]. f_equal. rewrite (slice_const _ (junk x)); [done|].
    intros y Hy. assert (y = x) as -> by lia. rewrite Hv2, overwrite_out by (simpl; lia). by rewrite Hv by lia. }
  destruct (hwp_ok _ _ _ Hwp) as (res & mem' & Heq & -> & ->). exact Heq.
Qed.
End Malloc.

Lemma malloc_growth_not_cleared_witness :
  ba_cap (MAlloc false [0; 0; 0; 0]) = 4 /\
  ('(_, ma) ← m_alloc_write (fun _ => 42) 4096 (MAlloc false [0; 0; 0; 0]) [1] 1
                (ba_cap (MAlloc false [0; 0; 0; 0]));
   m_alloc_read ma 1 5) [] = Ok (0, [42], []).
Proof.
  split; [done|].
  apply (malloc_growth_not_cleared (fun _ => 42) 4096 (MAlloc false [0; 0; 0; 0]) 1 5);
    [done|by vm_compute..].
Defined.

Lemma allocators_equivalent_witness :
  ('(_, ma) ← m_alloc_set_size_hint (fun _ => 42) 4096 (MAlloc true []) 8;
   run (malloc_functions (fun _ => 42) 4096) ma [Write [7; 8] 3; Zero 1 4; Read 5 1]) [] =
  run sparse_functions (SparseArray empty_vector) [Write [7; 8] 3; Zero 1 4; Read 5 1] [].
Proof.
  apply (allocators_equivalent (fun _ => 42) 4096 true 8 _ 12); [done|lia|limits; lia|].
  repeat constructor; simpl; unfold request_ok, in_range; simpl; lia.
Defined.
