(* ===== verification/Layer.v ===== *)
(** * Layers as disks

    What a layer of the stack promises to the filter above it about the
    contents of the disk: [DiskLayer] states, for the operations a filter
    calls ([struct nbdkit_next_ops]), the bytes that reads return, what
    writing requests change and what is in stable storage, for requests that
    respect the layer's block size.  A filter is verified by deriving the
    promises of its own operations from those of the next layer, so the
    results compose to stacks. *)

From S2P Require Import Prelude NbdProtocol Extents Exports Server Connections Backend Plugin Filter Bytes ExtentsQuery.

(** The size of a layer, its block size constraints and its FUA mode. *)
Record layer_limits : Type := LayerLimits {
  l_size : Z;
  l_minimum : Z;
  l_maximum : Z;
  l_can_fua : Z;
  l_can_fast_zero : bool;
}.

Implicit Types (k : layer_limits).

(** A non-empty part of the disk that is aligned to the minimum block size. *)
Definition aligned_range k (count offset : Z) : Prop :=
  0 <= offset /\ 0 < count <= UINT32_MAX /\ offset + count <= l_size k /\
  (l_minimum k | offset) /\ (l_minimum k | count).

(** The flags of a write, trim or zero request. *)
Definition write_flags k (flags : Z) : Prop :=
  clear flags NBDKIT_FLAG_FUA = 0 /\ (has flags NBDKIT_FLAG_FUA = true -> l_can_fua k <> NBDKIT_FUA_NONE).

Definition zero_flags k (flags : Z) : Prop :=
  clear flags (Z.lor (Z.lor NBDKIT_FLAG_MAY_TRIM NBDKIT_FLAG_FUA) NBDKIT_FLAG_FAST_ZERO) = 0 /\
  (has flags NBDKIT_FLAG_FUA = true -> l_can_fua k <> NBDKIT_FUA_NONE) /\
  (has flags NBDKIT_FLAG_FAST_ZERO = true -> l_can_fast_zero k = true).

Definition in_request (count offset x : Z) : Prop := offset <= x < offset + count.

#[global] Instance in_request_dec count offset x : Decision (in_request count offset x).
Proof. unfold in_request. apply _. Defined.

(** The error number of a request.  [ENOTSUP] is only for a zero request that
    is refused because it would not be fast: [backend_zero] asserts that no
    other request ends with it. *)
Definition errno_ok (err : Z) : Prop := err_ok err /\ err <> ENOTSUP.

Definition fails_errno (r err : Z) : Prop := errno_ok err /\ (r = -1 -> err <> 0).

(** Counts a refused fast zero request as a failure like any other. *)
Definition zero_err (flags r err : Z) : Z :=
  if ((r =? -1) && has flags NBDKIT_FLAG_FAST_ZERO && (err =? ENOTSUP))%bool then EIO else err.

Lemma errno_ok_0 : errno_ok 0.
Proof. split; [apply err_ok_0|done]. Qed.

Lemma succeeds_errno_ok r err : r <> -1 -> errno_ok err -> fails_errno r err.
Proof. by split. Qed.

Lemma fails_errno_const r err :
  ((0 <? err) && (err <=? INT32_MAX) && negb (err =? ENOTSUP))%bool = true -> fails_errno r err.
Proof. unfold fails_errno, errno_ok, err_ok. lia. Qed.

Lemma zero_err_ok flags r err : r <> -1 -> zero_err flags r err = err.
Proof. intros Hr. unfold zero_err. by rewrite (proj2 (Z.eqb_neq r (-1)) Hr). Qed.

Lemma zero_err_slow flags r err : has flags NBDKIT_FLAG_FAST_ZERO = false -> zero_err flags r err = err.
Proof. intros Hf. unfold zero_err. by rewrite Hf, andb_false_r. Qed.

Lemma zero_err_fast flags : has flags NBDKIT_FLAG_FAST_ZERO = true -> zero_err flags (-1) ENOTSUP = EIO.
Proof. intros Hf. unfold zero_err. by rewrite Hf. Qed.

Lemma zero_err_errno_ok flags r err : errno_ok err -> zero_err flags r err = err.
Proof.
  intros [_ H]. unfold zero_err. rewrite (proj2 (Z.eqb_neq err ENOTSUP) H), andb_false_r. done.
Qed.

#[export] Hint Resolve errno_ok_0 succeeds_errno_ok : nbdkit.

Section DiskLayer.
Context {W : Type}.
(* When a request may be made, what the layer contains, and whether a byte
   would survive a crash as it is. *)
Context (inv : st W -> Prop) (disk : st W -> Z -> Z) (settled : st W -> Z -> Prop).
Implicit Types (s : st W) (nx : nbdkit_next W).

(** Nothing changed where [P] holds. *)
Definition unchanged (P : Z -> Prop) s s' : Prop :=
  inv s' /\ forall x, P x -> disk s' x = disk s x /\ (settled s x -> settled s' x).

Definition same_disk : st W -> st W -> Prop := unchanged (fun _ => True).

(** A request that wrote the bytes [d'] to a range, with FUA or not.  Also
    when it fails it changes nothing outside of its range, and nothing where
    the byte was the same already. *)
Definition wrote (d' : Z -> Z) (count offset : Z) (fua : bool) (r err' : Z) s s' : Prop :=
  unchanged (fun x => in_request count offset x -> d' x = disk s x) s s' /\
  fails_errno r err' /\
  (r <> -1 -> forall x, in_request count offset x -> disk s' x = d' x /\ (fua = true -> settled s' x)).

(** A trim: the contents of the range are undefined; with FUA, what was
    stable still is. *)
Definition trimmed (count offset : Z) (fua : bool) (r err' : Z) s s' : Prop :=
  unchanged (fun x => ~ in_request count offset x) s s' /\ fails_errno r err' /\
  (r <> -1 -> fua = true -> forall x, settled s x -> settled s' x).

(** A layer that can be read. *)
Class ReadLayer nx k : Prop := {
  dl_pread count offset err s :
    inv s -> errno_ok err -> aligned_range k count offset -> count <= l_maximum k ->
    wp (n_pread nx count offset 0 err) (fun '(r, err', buf) s' =>
      same_disk s s' /\ fails_errno r err' /\ (r <> -1 -> buf = slice (disk s) offset count)) s;
  dl_cache count offset err s :
    inv s -> errno_ok err -> aligned_range k count offset -> count <= l_maximum k ->
    wp (n_cache nx count offset 0 err) (fun '(r, err') s' =>
      same_disk s s' /\ fails_errno r err') s;
  dl_can_cache s :
    inv s -> wp (n_can_cache nx) (fun r s' =>
      (r = NBDKIT_CACHE_NONE \/ r = NBDKIT_CACHE_EMULATE \/ r = NBDKIT_CACHE_NATIVE) /\ same_disk s s') s;
  dl_get_size s :
    inv s -> wp (n_get_size nx) (fun r s' => (r = l_size k \/ r = -1) /\ same_disk s s') s;
}.

(** A layer that can also be written. *)
Class DiskLayer nx k : Prop := {
  #[global] dl_read :: ReadLayer nx k;
  dl_pwrite buf count offset flags err s :
    inv s -> errno_ok err -> aligned_range k count offset -> count <= l_maximum k ->
    write_flags k flags -> length buf = Z.to_nat count ->
    wp (n_pwrite nx buf count offset flags err) (fun '(r, err') s' =>
      wrote (overwrite (disk s) buf offset) count offset (has flags NBDKIT_FLAG_FUA) r err' s s') s;
  dl_zero count offset flags err s :
    inv s -> errno_ok err -> aligned_range k count offset -> zero_flags k flags ->
    wp (n_zero nx count offset flags err) (fun '(r, err') s' =>
      wrote (fun _ => 0) count offset (has flags NBDKIT_FLAG_FUA) r (zero_err flags r err') s s') s;
  dl_trim count offset flags err s :
    inv s -> errno_ok err -> aligned_range k count offset -> write_flags k flags ->
    wp (n_trim nx count offset flags err) (fun '(r, err') s' =>
      trimmed count offset (has flags NBDKIT_FLAG_FUA) r err' s s') s;
  dl_flush err s :
    inv s -> errno_ok err ->
    wp (n_flush nx 0 err) (fun '(r, err') s' =>
      same_disk s s' /\ fails_errno r err' /\ (r <> -1 -> forall x, settled s' x)) s;
  dl_can_fua s :
    inv s -> wp (n_can_fua nx) (fun r s' => r = l_can_fua k /\ same_disk s s') s;
  dl_can_fast_zero s :
    inv s -> wp (n_can_fast_zero nx) (fun r s' => r = Z.b2z (l_can_fast_zero k) /\ same_disk s s') s;
}.

(** ** Composing requests *)

Lemma unchanged_refl P s : inv s -> unchanged P s s.
Proof. by split. Qed.

Lemma unchanged_trans (P P1 P2 : Z -> Prop) s1 s2 s3 :
  (forall x, P x -> P1 x) -> (forall x, P x -> disk s2 x = disk s1 x -> P2 x) ->
  unchanged P1 s1 s2 -> unchanged P2 s2 s3 -> unchanged P s1 s3.
Proof.
  intros H1 H2 [_ Hs2] [Hi3 Hs3]. split; [done|]. intros x Hx.
  destruct (Hs2 x (H1 x Hx)) as [Hd2 Hst2]. destruct (Hs3 x (H2 x Hx Hd2)) as [Hd3 Hst3].
  split; [congruence|auto].
Qed.

Lemma unchanged_mono (P P' : Z -> Prop) s s' :
  (forall x, P x -> P' x) -> unchanged P' s s' -> unchanged P s s'.
Proof. intros H [Hi Hs]. split; auto. Qed.

Lemma same_disk_unchanged P s s' : same_disk s s' -> unchanged P s s'.
Proof. by apply unchanged_mono. Qed.

Lemma same_disk_trans s1 s2 s3 : same_disk s1 s2 -> same_disk s2 s3 -> same_disk s1 s3.
Proof. by apply unchanged_trans. Qed.

Lemma same_disk_slice s s' offset count : same_disk s s' -> slice (disk s') offset count = slice (disk s) offset count.
Proof. intros [_ H]. apply slice_ext. intros x _. by apply H. Qed.

(** What is written only matters inside the range. *)
Lemma wrote_ext d d' count offset fua r err s s' :
  (forall x, in_request count offset x -> d x = d' x) ->
  wrote d count offset fua r err s s' -> wrote d' count offset fua r err s s'.
Proof.
  intros Hd (Hu & He & Hw). split; [|split; [done|]].
  - eapply unchanged_mono; [|exact Hu]. intros x Hx Hin. rewrite Hd by done. auto.
  - intros Hr x Hx. rewrite <- Hd by done. auto.
Qed.

(** Bytes at the ends of a request that are written back as they were do not
    count. *)
Lemma wrote_shrink d' count offset c o fua r err s s' :
  (forall x, in_request c o x -> in_request count offset x) ->
  (forall x, in_request count offset x -> ~ in_request c o x -> d' x = disk s x) ->
  wrote d' count offset fua r err s s' -> wrote d' c o fua r err s s'.
Proof.
  intros Hin Hout (Hu & He & Hw). split; [|split; [done|auto]].
  eapply unchanged_mono; [|exact Hu]. intros x Hx Hr.
  destruct (decide (in_request c o x)) as [Hc|Hc]; auto.
Qed.

(** A part of a request failed. *)
Lemma wrote_failed d' fua c1 c2 offset r1 err1 err s1 s2 s3 :
  0 <= c1 -> 0 <= c2 ->
  wrote d' c1 offset fua r1 err1 s1 s2 -> wrote d' c2 (offset + c1) fua (-1) err s2 s3 ->
  wrote d' (c1 + c2) offset fua (-1) err s1 s3.
Proof.
  intros Hc1 Hc2 (Hu1 & _ & _) (Hu2 & He & _). split; [|split; [done|by intros []]].
  eapply unchanged_trans; [..|exact Hu1|exact Hu2]; simpl.
  - intros x Hx Hr. apply Hx. unfold in_request in *. lia.
  - intros x Hx Hd Hr. rewrite Hd. apply Hx. unfold in_request in *. lia.
Qed.

(** Two parts of a request, one after the other. *)
Lemma wrote_app d' fua c1 c2 offset err1 r1 r err s1 s2 s3 :
  0 <= c1 -> 0 <= c2 -> r1 <> -1 ->
  wrote d' c1 offset fua r1 err1 s1 s2 -> wrote d' c2 (offset + c1) fua r err s2 s3 ->
  wrote d' (c1 + c2) offset fua r err s1 s3.
Proof.
  intros Hc1 Hc2 Hr1 H1 H2. destruct (decide (r = -1)) as [-> |Hr].
  { by eapply wrote_failed. }
  destruct H1 as (Hu1 & He1 & Hw1), H2 as (Hu2 & He & Hw2). split; [|split; [done|]].
  - eapply unchanged_trans; [..|exact Hu1|exact Hu2]; simpl.
    + intros x Hx Hin. apply Hx. unfold in_request in *. lia.
    + intros x Hx Hd Hin. rewrite Hd. apply Hx. unfold in_request in *. lia.
  - intros _ x Hx. unfold in_request in Hx. destruct (decide (offset + c1 <= x)).
    + apply Hw2; unfold in_request; [done|lia].
    + destruct Hu2 as [_ Hu2]. destruct (Hu2 x) as [Hd Hst]; [unfold in_request; lia|].
      destruct (Hw1 Hr1 x) as [Hd1 Hst1]; [unfold in_request; lia|]. split; [congruence|auto].
Qed.

(** The head, the body and the tail of a request. *)
Lemma wrote_three D fua count offs keep mid tail r1 e1 r2 e2 r3 e3 s1 s2 s3 s4 :
  0 <= keep -> 0 <= mid -> 0 <= tail -> keep + mid + tail = count -> r1 <> -1 -> r2 <> -1 ->
  wrote D keep offs fua r1 e1 s1 s2 -> wrote D mid (offs + keep) fua r2 e2 s2 s3 ->
  wrote D tail (offs + keep + mid) fua r3 e3 s3 s4 -> wrote D count offs fua r3 e3 s1 s4.
Proof.
  intros Hk Hm Ht <- Hr1 Hr2 H1 H2 H3. rewrite <- Z.add_assoc.
  eapply wrote_app; [lia|lia|exact Hr1|exact H1|]. eapply wrote_app; [lia|lia|exact Hr2|exact H2|exact H3].
Qed.

(** Nothing to do. *)
Lemma wrote_nothing d' offset fua r err s : inv s -> errno_ok err -> r <> -1 -> wrote d' 0 offset fua r err s s.
Proof.
  intros Hi He Hr. split; [by apply unchanged_refl|]. split; [done|].
  unfold in_request. intros _ x Hx. lia.
Qed.

(** A flush at the end makes what was written stable. *)
Lemma wrote_flushed d' fua count offset r1 err1 r2 err2 s1 s2 s3 :
  r1 <> -1 -> wrote d' count offset fua r1 err1 s1 s2 ->
  same_disk s2 s3 -> fails_errno r2 err2 -> (r2 <> -1 -> forall x, settled s3 x) ->
  wrote d' count offset true r2 err2 s1 s3.
Proof.
  intros Hr1 (Hu & _ & Hw) Hsd He Hall. split; [|split; [done|]].
  - eapply (unchanged_trans _ _ (fun _ => True)); [..|exact Hu|exact Hsd]; simpl; auto.
  - intros Hr2 x Hx. destruct Hsd as [_ Hd]. destruct (Hd x I) as [-> _]. split; [by apply Hw|]. auto.
Qed.

(** The number that is returned does not matter unless it is -1. *)
Lemma wrote_result d' count offset fua r r' err s s' :
  r <> -1 -> r' <> -1 -> wrote d' count offset fua r err s s' -> wrote d' count offset fua r' err s s'.
Proof. intros Hr Hr' (Hu & [He _] & Hw). split; [done|]. split; [by split|]. auto. Qed.

Lemma wrote_error d' count offset fua fua' err s s' :
  wrote d' count offset fua (-1) err s s' -> wrote d' count offset fua' (-1) err s s'.
Proof. intros (Hu & He & _). split; [done|]. split; [done|by intros []]. Qed.

(** The error number that a write ends with is also one that zeroing may end
    with. *)
Lemma wrote_zero_err flags d' count offset fua r err s s' :
  wrote d' count offset fua r err s s' -> wrote d' count offset fua r (zero_err flags r err) s s'.
Proof. intros H. rewrite zero_err_errno_ok; [done|]. by destruct H as (_ & [He _] & _). Qed.

(** A failure before anything was written. *)
Lemma wrote_unchanged d' count offset fua err s s' :
  same_disk s s' -> fails_errno (-1) err -> wrote d' count offset fua (-1) err s s'.
Proof. intros Hsd He. split; [by apply same_disk_unchanged|]. split; [done|by intros []]. Qed.

(** A failed request as part of a larger one. *)
Lemma wrote_widen d' c o count offset fua err s s' :
  (forall x, in_request c o x -> in_request count offset x) ->
  wrote d' c o fua (-1) err s s' -> wrote d' count offset fua (-1) err s s'.
Proof.
  intros Hin (Hu & He & _). split; [|split; [done|by intros []]].
  eapply unchanged_mono; [|exact Hu]. simpl. auto.
Qed.

Lemma trimmed_app fua c1 c2 offset err1 r1 r err s1 s2 s3 :
  0 <= c1 -> 0 <= c2 -> r1 <> -1 ->
  trimmed c1 offset fua r1 err1 s1 s2 -> trimmed c2 (offset + c1) fua r err s2 s3 ->
  trimmed (c1 + c2) offset fua r err s1 s3.
Proof.
  intros Hc1 Hc2 Hr1 (Hu1 & _ & Hw1) (Hu2 & He & Hw2). split; [|split; [done|auto]].
  eapply unchanged_trans; [..|exact Hu1|exact Hu2]; simpl; unfold in_request; lia.
Qed.

Lemma trimmed_widen fua c o count offset r err s s' :
  (forall x, in_request c o x -> in_request count offset x) ->
  trimmed c o fua r err s s' -> trimmed count offset fua r err s s'.
Proof.
  intros Hin (Hu & He & Hw). split; [|done]. eapply unchanged_mono; [|exact Hu]. simpl. auto.
Qed.

Lemma trimmed_nothing offset fua r err s : inv s -> errno_ok err -> r <> -1 -> trimmed 0 offset fua r err s s.
Proof. intros Hi He Hr. split; [by apply unchanged_refl|]. split; [done|auto]. Qed.

Lemma trimmed_flushed fua count offset r1 err1 r2 err2 s1 s2 s3 :
  trimmed count offset fua r1 err1 s1 s2 ->
  same_disk s2 s3 -> fails_errno r2 err2 -> (r2 <> -1 -> forall x, settled s3 x) ->
  trimmed count offset true r2 err2 s1 s3.
Proof.
  intros (Hu & _ & _) Hsd He Hall. split; [|split; [done|auto]].
  eapply (unchanged_trans _ _ (fun _ => True)); [..|exact Hu|exact Hsd]; simpl; auto.
Qed.

(** Requests before which or after which nothing changes. *)
Lemma trimmed_same_l count offset fua r err s1 s2 s3 :
  same_disk s1 s2 -> trimmed count offset fua r err s2 s3 -> trimmed count offset fua r err s1 s3.
Proof.
  intros Hsd (Hu & He & Hw). split; [|split; [done|]].
  - eapply unchanged_trans; [..|exact Hsd|exact Hu]; simpl; auto.
  - intros Hr Hf x Hx. apply Hw; [done..|]. by apply Hsd.
Qed.

Lemma wrote_same_l d' count offset fua r err s1 s2 s3 :
  same_disk s1 s2 -> wrote d' count offset fua r err s2 s3 -> wrote d' count offset fua r err s1 s3.
Proof.
  intros Hsd (Hu & He & Hw). split; [|split; done].
  eapply unchanged_trans; [..|exact Hsd|exact Hu]; simpl; [done|]. intros x Hx Hd Hr. rewrite Hd. auto.
Qed.
End DiskLayer.

#[global] Arguments dl_pread {_ _ _ _ _ _ _}.
#[global] Arguments dl_pwrite {_ _ _ _ _ _ _}.
#[global] Arguments dl_zero {_ _ _ _ _ _ _}.
#[global] Arguments dl_trim {_ _ _ _ _ _ _}.
#[global] Arguments dl_cache {_ _ _ _ _ _ _}.
#[global] Arguments dl_flush {_ _ _ _ _ _ _}.
#[global] Arguments dl_can_fua {_ _ _ _ _ _ _}.
#[global] Arguments dl_can_cache {_ _ _ _ _ _ _}.
#[global] Arguments dl_can_fast_zero {_ _ _ _ _ _ _}.
#[global] Arguments dl_get_size {_ _ _ _ _ _ _}.

(** *** Flags *)

Lemma write_flags_0 k : write_flags k 0.
Proof. by split. Qed.

Lemma has_clear_other flags m m' : Z.land m m' = 0 -> has (clear flags m) m' = has flags m'.
Proof.
  intros Hm. unfold has, clear. do 2 f_equal. apply Z.bits_inj'. intros i Hi.
  rewrite !Z.land_spec, Z.ldiff_spec.
  assert (Hb : (Z.testbit m i && Z.testbit m' i)%bool = false) by (by rewrite <- Z.land_spec, Hm, Z.bits_0).
  destruct (Z.testbit flags i), (Z.testbit m i), (Z.testbit m' i); done.
Qed.

Lemma has_clear_same flags m : has (clear flags m) m = false.
Proof.
  unfold has, clear. apply negb_false_iff, Z.eqb_eq, Z.bits_inj'. intros i Hi.
  rewrite Z.land_spec, Z.ldiff_spec, Z.bits_0. by destruct (Z.testbit flags i), (Z.testbit m i).
Qed.

Lemma clear_0_mono flags m m' : clear flags m = 0 -> clear (clear flags m') m = 0.
Proof.
  unfold clear. intros H. apply Z.bits_inj'. intros i Hi. rewrite !Z.ldiff_spec, Z.bits_0.
  assert (Hb : (Z.testbit flags i && negb (Z.testbit m i))%bool = false) by (by rewrite <- Z.ldiff_spec, H, Z.bits_0).
  destruct (Z.testbit flags i), (Z.testbit m i), (Z.testbit m' i); done.
Qed.

Lemma write_flags_clear k flags m : write_flags k flags -> write_flags k (clear flags m).
Proof.
  intros [H1 H2]. split; [by apply clear_0_mono|]. intros Hf. apply H2. clear H2.
  unfold has, clear in *. apply negb_true_iff, Z.eqb_neq in Hf. apply negb_true_iff, Z.eqb_neq.
  intros E. apply Hf. apply Z.bits_inj'. intros i Hi. rewrite Z.land_spec, Z.ldiff_spec, Z.bits_0.
  assert (Hb : (Z.testbit flags i && Z.testbit NBDKIT_FLAG_FUA i)%bool = false)
    by (by rewrite <- Z.land_spec, E, Z.bits_0).
  destruct (Z.testbit flags i), (Z.testbit m i), (Z.testbit NBDKIT_FLAG_FUA i); done.
Qed.

Lemma zero_flags_clear_fua k flags : zero_flags k flags -> zero_flags k (clear flags NBDKIT_FLAG_FUA).
Proof.
  intros (H1 & H2 & H3). split; [by apply clear_0_mono|]. split.
  - by rewrite has_clear_same.
  - by rewrite has_clear_other.
Qed.

(** Without [FAST_ZERO] the flags of a zero request are, but for [MAY_TRIM],
    flags of a write. *)
Lemma zero_write_flags k flags :
  zero_flags k flags -> has flags NBDKIT_FLAG_FAST_ZERO = false ->
  write_flags k (clear flags NBDKIT_FLAG_MAY_TRIM) /\
  has (clear flags NBDKIT_FLAG_MAY_TRIM) NBDKIT_FLAG_FUA = has flags NBDKIT_FLAG_FUA.
Proof.
  intros (H1 & H2 & _) Hfast. rewrite has_clear_other by done. split; [|done].
  split; [|by rewrite has_clear_other].
  unfold has, clear in *. apply negb_false_iff, Z.eqb_eq in Hfast.
  apply Z.bits_inj'. intros i Hi. rewrite !Z.ldiff_spec, Z.bits_0.
  assert (Hb : (Z.testbit flags i && Z.testbit NBDKIT_FLAG_FAST_ZERO i)%bool = false)
    by (by rewrite <- Z.land_spec, Hfast, Z.bits_0).
  assert (Hc : (Z.testbit flags i && negb ((Z.testbit NBDKIT_FLAG_MAY_TRIM i || Z.testbit NBDKIT_FLAG_FUA i) ||
    Z.testbit NBDKIT_FLAG_FAST_ZERO i))%bool = false)
    by (by rewrite <- !Z.lor_spec, <- Z.ldiff_spec, H1, Z.bits_0).
  destruct (Z.testbit flags i), (Z.testbit NBDKIT_FLAG_MAY_TRIM i), (Z.testbit NBDKIT_FLAG_FUA i),
    (Z.testbit NBDKIT_FLAG_FAST_ZERO i); done.
Qed.

(** ** Copying extents

    Filters ask the next layer into a list of their own, and then add what
    was answered to the caller's list. *)

Fixpoint add_extents (l : list nbdkit_extent) (extents : nbdkit_extents) (err : Z)
    : Z * Z * nbdkit_extents :=
  match l with
  | [] => (0, err, extents)
  | e :: l =>
      match nbdkit_add_extent extents (e_offset e) (e_length e) (e_type e) with
      | (Some errno, extents) => (-1, errno, extents)
      | (None, extents) => add_extents l extents err
      end
  end.

(** Before the next extent of [l], which starts at [pos], is added. *)
Definition copying (exts : nbdkit_extents) (pos : Z) : Prop :=
  exts_wf exts /\ (x_next exts = -1 \/ x_next exts = pos) /\
  (x_extents exts = [] -> pos = x_start exts \/ x_end exts <= pos).

Lemma copying_add exts pos length type :
  copying exts pos -> 0 <= pos -> 0 < length -> pos + length <= INT64_MAX ->
  nbdkit_extents_count exts < MAX_EXTENTS ->
  exists exts', nbdkit_add_extent exts pos length type = (None, exts') /\ copying exts' (pos + length) /\
    x_start exts' = x_start exts /\ x_end exts' = x_end exts /\
    nbdkit_extents_count exts' <= nbdkit_extents_count exts + 1 /\
    forall x, type_at (x_extents exts') x =
      if decide (pos <= x < pos + length /\ x < x_end exts) then Some type else type_at (x_extents exts) x.
Proof.
  intros (Hwf & Hn & Hne) Hpos Hl Hmax Hc.
  assert (Hok : add_ok pos length) by (unfold add_ok; lia).
  pose proof (nbdkit_add_extent_spec exts pos length type Hwf Hok) as Hsp.
  pose proof (add_spec_wf _ _ _ _ _ _ Hwf Hok Hsp) as Hwf'. pose proof (wf_start _ Hwf) as Hst.
  destruct (nbdkit_add_extent exts pos length type) as [r exts']. simpl in *.
  inversion Hsp as [? ?|? ? Hnil ?|Hcont Hwhy|l' lo hi Hcont Hlo Hhi Hlt Hcnt Hap]; subst; simpl in *.
  - lia.
  - exfalso. destruct (Hne Hnil); lia.
  - eexists. split; [done|]. simpl. assert (Hend : x_end exts <= pos).
    { destruct Hwhy as [?|[?|[?|[Hnil ?]]]]; [lia..|]. destruct (Hne Hnil); lia. }
    split; [split; [done|]; split; [by right|]; simpl; lia|]. split; [done|]. split; [done|].
    split; [unfold nbdkit_extents_count; simpl; lia|]. intros x. rewrite decide_False by lia. done.
  - eexists. split; [done|]. simpl. pose proof (ap_count _ _ _ _ _ _ Hap).
    split; [split; [done|]; split; [by right|]; simpl; intros Hnil; by destruct (ap_nonempty _ _ _ _ _ _ Hap)|].
    split; [done|]. split; [done|]. split; [unfold nbdkit_extents_count; simpl; lia|].
    assert (Hps : x_start exts <= pos).
    { destruct (x_extents exts) as [|e l] eqn:El; [destruct (Hne eq_refl); lia|].
      destruct (wf_filled _ Hwf) as (H0 & Hle & _); [by rewrite El|].
      pose proof (chain_end_le _ _ (wf_chain _ Hwf)). rewrite El in *. lia. }
    intros x. rewrite (ap_type _ _ _ _ _ _ Hap). repeat case_decide; (done || lia).
Qed.

(** The copy says the same as the answer, up to the end of the caller's
    range. *)
Lemma add_extents_copy l : forall exts err pos,
  copying exts pos -> 0 <= pos -> chain pos l -> chain_end pos l <= INT64_MAX ->
  nbdkit_extents_count exts + Z.of_nat (length l) <= MAX_EXTENTS ->
  exists exts', add_extents l exts err = (0, err, exts') /\ exts_wf exts' /\
    x_start exts' = x_start exts /\ x_end exts' = x_end exts /\
    forall x, type_at (x_extents exts') x =
      match type_at l x with
      | Some t => if decide (x < x_end exts) then Some t else type_at (x_extents exts) x
      | None => type_at (x_extents exts) x
      end.
Proof.
  induction l as [|e l IH]; intros exts err pos Hcp Hpos Hch Hmax Hc; cbn [add_extents].
  { exists exts. destruct Hcp. done. }
  destruct Hch as (<- & Hl & Hch). simpl in Hmax, Hc. pose proof (chain_end_le _ _ Hch).
  destruct (copying_add exts (e_offset e) (e_length e) (e_type e)) as (x1 & -> & Hcp1 & Hs1 & He1 & Hc1 & Ht1);
    [done|lia..|]. 
  destruct (IH x1 err (e_offset e + e_length e)) as (x2 & -> & Hwf2 & Hs2 & He2 & Ht2); [done|lia|done|lia..|].
  exists x2. split; [done|]. split; [done|]. split; [congruence|]. split; [congruence|].
  intros x. rewrite Ht2, He1. simpl.
  destruct (Z.leb_spec (e_offset e) x), (Z.ltb_spec x (e_offset e + e_length e)); cbn [andb].
  - rewrite (chain_outside _ l x) by (done || lia). rewrite Ht1. repeat case_decide; (done || lia).
  - rewrite Ht1. rewrite (decide_False (P := _ /\ _)) by lia. done.
  - rewrite Ht1. rewrite (decide_False (P := _ /\ _)) by lia. done.
  - lia.
Qed.

(** ** Rounding ([common/include/rounding.h]) *)

Section Rounding.
Context {W : Type}.

(** [ROUND_DOWN] and [ROUND_UP] at the types [uint32_t] and [uint64_t]. *)
Definition ROUND_DOWN32 (i n : Z) : M W Z :=
  cassert (is_power_of_2 n);; mret (Z.land i (u32 (- n))).
Definition ROUND_UP32 (i n : Z) : M W Z :=
  cassert (is_power_of_2 n);; mret (Z.land (u32 (i + n - 1)) (u32 (- n))).
Definition ROUND_UP64 (i n : Z) : M W Z :=
  cassert (is_power_of_2 n);; mret (Z.land (u64 (i + n - 1)) (u64 (- n))).
End Rounding.

Lemma wp_ROUND_UP64 {W} i n (Q : Z -> st W -> Prop) s :
  0 <= n <= 32 -> 0 <= i -> i + 2 ^ n <= UINT64_MAX ->
  Q (i + 2 ^ n - 1 - (i + 2 ^ n - 1) mod 2 ^ n) s -> wp (ROUND_UP64 i (2 ^ n)) Q s.
Proof.
  intros Hn Hi Hmax HQ. pose proof (Z.pow_pos_nonneg 2 n ltac:(lia) ltac:(lia)).
  unfold ROUND_UP64. apply wp_bind, wp_assert. split; [apply is_power_of_2_pow; lia|]. apply wp_ret.
  rewrite u64_small by (limits; lia). by rewrite land_neg_pow2 by lia.
Qed.

(** ** The reference layer

    A disk that is a function from offsets to bytes, kept in a part of the
    world; every write is stable at once. *)

Section Flat.
Context {W : Type} (get : W -> Z -> Z) (set : (Z -> Z) -> W -> W).

Definition flat_write (f : (Z -> Z) -> Z -> Z) (err : Z) : M W (Z * Z) :=
  modify (fun s => set_world (set (f (get (s_world s))) (s_world s)) s);; mret (0, err).

Definition flat_next_in (size : Z) : nbdkit_next W :=
  NextOps (mret 0) (mret 0) (mret None) (mret size) (mret (0, (0, 0, 0)))
    (mret 1) (mret 1) (mret 0) (mret 1) (mret NBDKIT_ZERO_NATIVE) (mret 1) (mret 1)
    (mret NBDKIT_FUA_NATIVE) (mret 1) (mret NBDKIT_CACHE_NATIVE)
    (fun count offset _ err => d ← gets (fun s => get (s_world s)); mret (0, err, slice d offset count))
    (fun buf _ offset _ err => flat_write (fun d => overwrite d buf offset) err)
    (fun _ err => mret (0, err))
    (fun _ _ _ err => mret (0, err))
    (fun count offset _ err => flat_write (fun d => fill d 0 count offset) err)
    (fun _ _ _ exts err => mret (0, err, exts))
    (fun _ _ _ err => mret (0, err)).

(** [inv] does not depend on the disk. *)
Context (inv : st W -> Prop) (get_set : forall d w, get (set d w) = d)
  (inv_set : forall d s, inv s -> inv (set_world (set d (s_world s)) s)).

Lemma flat_layer_in size minimum maximum :
  DiskLayer inv (fun s => get (s_world s)) (fun _ _ => True) (flat_next_in size)
    (LayerLimits size minimum maximum NBDKIT_FUA_NATIVE true).
Proof.
  assert (Hok : forall err, errno_ok err -> fails_errno 0 err) by (intros err He; split; [done|lia]).
  assert (Hsame : forall s, inv s -> same_disk inv (fun s => get (s_world s)) (fun _ _ => True) s s) by done.
  split; [split|..]; simpl.
  - intros count offset err s Hi He _ _. apply wp_bind, wp_gets, wp_ret. auto.
  - intros count offset err s Hi He _ _. apply wp_ret. auto.
  - intros s Hi. apply wp_ret. auto.
  - intros s Hi. apply wp_ret. auto.
  - intros buf count offset flags err s Hi He (Ho & Hc & _) _ _ Hlen. apply wp_bind, wp_modify, wp_ret.
    assert (Hout : forall x, ~ in_request count offset x -> overwrite (get (s_world s)) buf offset x = get (s_world s) x).
    { unfold in_request. intros x Hx. apply overwrite_out. lia. }
    split; [|split; [auto|]; intros _ x Hx; simpl; by rewrite get_set].
    split; [auto|]. intros x Hx. split; [|done]. simpl. rewrite get_set.
    destruct (decide (in_request count offset x)); auto.
  - intros count offset flags err s Hi He _ _. apply wp_bind, wp_modify, wp_ret.
    split; [split; [auto|]|split; [auto|intros _]]; simpl; intros x Hx; rewrite get_set; unfold in_request, fill in *.
    + case_decide; auto.
    + by rewrite decide_True.
  - intros count offset flags err s Hi He _ _. apply wp_ret. split; [by apply unchanged_refl|]. auto.
  - intros err s Hi He. apply wp_ret. auto.
  - intros s Hi. apply wp_ret. auto.
  - intros s Hi. apply wp_ret. auto.
Qed.
End Flat.

(** The world is the disk. *)
Definition flat_next : Z -> nbdkit_next (Z -> Z) := flat_next_in (fun d => d) (fun d _ => d).

#[global] Instance flat_layer size minimum maximum :
  DiskLayer (fun _ => True) s_world (fun _ _ => True) (flat_next size)
    (LayerLimits size minimum maximum NBDKIT_FUA_NATIVE true).
Proof. by apply (flat_layer_in (fun d => d) (fun d _ => d) (fun _ => True)). Qed.
