(* ===== verification/Blocksize.v ===== *)
(** * The blocksize filter

    Models [filters/blocksize/blocksize.c], which lets clients make requests
    of any alignment and size on top of a plugin that only takes aligned
    requests of limited size: unaligned ends are read into a bounce buffer
    and written back, the rest is split.

    The lock around the bounce buffer makes each use of it atomic; as every
    use fills the buffer first, its old contents are not part of the state. *)

From S2P Require Import Prelude NbdProtocol Extents Exports Server Connections Backend Plugin Filter Bytes Parse Layer ExtentsQuery.

Definition BLOCKSIZE_MIN_LIMIT : Z := 65536.

(** The three settings; 0 is unset. *)
Record blocksize_handle : Type := BlocksizeHandle {
  h_minblock : Z;
  h_maxdata : Z;
  h_maxlen : Z;
}.

Implicit Types (h : blocksize_handle).

(** ** Configuration *)

Definition blocksize_parse (s : list Z) : option Z :=
  let size := nbdkit_parse_size s in
  if size <? 0 then None
  else if size =? 0 then None
  else if UINT32_MAX <? size then None
  else Some (u32 size).

(** The keys [minblock], [maxdata] and [maxlen]; any other key is passed on
    ([None] of the outer option). *)
Inductive blocksize_key : Type := minblock_key | maxdata_key | maxlen_key | other_key.

Definition blocksize_config h (key : blocksize_key) (value : list Z) : option (option blocksize_handle) :=
  match key with
  | minblock_key => Some (v ← blocksize_parse value; Some (BlocksizeHandle v (h_maxdata h) (h_maxlen h)))
  | maxdata_key => Some (v ← blocksize_parse value; Some (BlocksizeHandle (h_minblock h) v (h_maxlen h)))
  | maxlen_key => Some (v ← blocksize_parse value; Some (BlocksizeHandle (h_minblock h) (h_maxdata h) v))
  | other_key => None
  end.

(** 0, or -1 after an error message; [next] is not modelled. *)
Definition blocksize_config_complete h : Z :=
  if (negb (h_minblock h =? 0) && negb (is_power_of_2 (h_minblock h)))%bool then -1
  else if (negb (h_minblock h =? 0) && (BLOCKSIZE_MIN_LIMIT <? h_minblock h))%bool then -1
  else if (negb (h_maxdata h =? 0) && negb (h_minblock h =? 0) &&
           negb (Z.land (h_maxdata h) (h_minblock h - 1) =? 0))%bool then -1
  else if (negb (h_maxlen h =? 0) && negb (h_minblock h =? 0) &&
           negb (Z.land (h_maxlen h) (h_minblock h - 1) =? 0))%bool then -1
  else 0.

Section Blocksize.
Context {W : Type}.
Implicit Types (nx : nbdkit_next W).

(** NULL is [None]; [next] opens the layer below. *)
Definition blocksize_open (next : bool -> list Z -> M W Z) (config : blocksize_handle)
    (readonly : bool) (exportname : list Z) : M W (option blocksize_handle) :=
  r ← next readonly exportname;
  mret (if r =? -1 then None else Some config).

Definition blocksize_prepare nx h : M W (Z * blocksize_handle) :=
  '(r, (minimum, preferred, maximum)) ← n_block_size nx;
  if r =? -1 then mret (-1, h)
  else
    let minblock := Z.max (Z.max (h_minblock h) 1) minimum in
    let maxdata :=
      if h_maxdata h =? 0 then
        if negb (h_maxlen h =? 0) then Z.min (h_maxlen h) (64 * 1024 * 1024) else 64 * 1024 * 1024
      else h_maxdata h in
    let maxdata := if negb (maximum =? 0) then Z.min maxdata maximum else maxdata in
    maxdata ← ROUND_DOWN32 maxdata minblock;
    maxlen ← (if h_maxlen h =? 0 then mret (u32 (- minblock)) else ROUND_DOWN32 (h_maxlen h) minblock);
    mret (0, BlocksizeHandle minblock maxdata maxlen).

(** At type [int64_t]. *)
Definition blocksize_get_size nx h : M W Z :=
  size ← n_get_size nx;
  if size =? -1 then mret (-1)
  else cassert (is_power_of_2 (h_minblock h));; mret (Z.land size (- h_minblock h)).

Definition blocksize_block_size nx h : M W (Z * (Z * Z * Z)) :=
  '(r, (minimum, preferred, maximum)) ← n_block_size nx;
  if r =? -1 then mret (-1, (minimum, preferred, maximum))
  else mret (0, (1, Z.max (Z.max preferred 4096) (h_minblock h), 4294967295)).

(** [next->pread (next, bounce, h->minblock, ...)]: the static buffer has
    [BLOCKSIZE_MIN_LIMIT] bytes. *)
Definition read_bounce nx h (offs flags err : Z) : M W (Z * Z * list Z) :=
  if h_minblock h <=? BLOCKSIZE_MIN_LIMIT then n_pread nx (h_minblock h) offs flags err
  else fail OutOfBounds.

(** Reads: the result with the bytes copied to [buf]. *)
Fixpoint pread_body (fuel : nat) nx h (buf : list Z) (count offs flags err : Z)
    : M W (Z * Z * list Z * Z * Z) :=
  if h_minblock h <=? count then
    match fuel with
    | O => fail OutOfFuel
    | S fuel =>
        n ← ROUND_DOWN32 count (h_minblock h);
        let keep := Z.min (h_maxdata h) n in
        '(r, err, b) ← n_pread nx keep offs flags err;
        if r =? -1 then mret (-1, err, buf, count, offs)
        else pread_body fuel nx h (buf ++ b) (u32 (count - keep)) (u64 (offs + keep)) flags err
    end
  else mret (0, err, buf, count, offs).

(** The unaligned head. *)
Definition pread_head nx h (count offs flags err : Z) : M W (Z * Z * list Z * Z * Z) :=
  let drp := Z.land offs (h_minblock h - 1) in
  if negb (drp =? 0) then
    let keep := Z.min (h_minblock h - drp) count in
    '(r, err, bounce) ← read_bounce nx h (u64 (offs - drp)) flags err;
    if r =? -1 then mret (-1, err, [], count, offs)
    else mret (0, err, sub bounce drp keep, u32 (count - keep), u64 (offs + keep))
  else mret (0, err, [], count, offs).

Definition blocksize_pread nx h (count offs flags err : Z) : M W (Z * Z * list Z) :=
  '(r, err, buf, count, offs) ← pread_head nx h count offs flags err;
  if r =? -1 then mret (-1, err, buf)
  else
    (* Aligned body *)
    '(r, err, buf, count, offs) ← pread_body (Z.to_nat count) nx h buf count offs flags err;
    if r =? -1 then mret (-1, err, buf)
    else if negb (count =? 0) then
      (* Unaligned tail *)
      '(r, err, bounce) ← read_bounce nx h offs flags err;
      if r =? -1 then mret (-1, err, buf)
      else mret (0, err, buf ++ sub bounce 0 count)
    else mret (0, err, buf).

(** [if ((flags & FUA) && next->can_fua (next) == NBDKIT_FUA_EMULATE)]: the
    flags to use, and [need_flush]. *)
Definition blocksize_fua nx (flags : Z) : M W (Z * bool) :=
  if has flags NBDKIT_FLAG_FUA then
    f ← n_can_fua nx;
    if f =? NBDKIT_FUA_EMULATE then mret (clear flags NBDKIT_FLAG_FUA, true)
    else mret (flags, false)
  else mret (flags, false).

(** Read-modify-write of one block: [keep] bytes of [new] at [drp]. *)
Definition modify_block nx h (new : list Z) (drp keep offs wflags err : Z) : M W (Z * Z) :=
  '(r, err, bounce) ← read_bounce nx h offs 0 err;
  if r =? -1 then mret (-1, err)
  else n_pwrite nx (splice bounce (take (Z.to_nat keep) new) drp) (h_minblock h) offs wflags err.

(** [buf] is what is still to be written. *)
Fixpoint pwrite_body (fuel : nat) nx h (buf : list Z) (count offs flags err : Z)
    : M W (Z * Z * list Z * Z * Z) :=
  if h_minblock h <=? count then
    match fuel with
    | O => fail OutOfFuel
    | S fuel =>
        n ← ROUND_DOWN32 count (h_minblock h);
        let keep := Z.min (h_maxdata h) n in
        '(r, err) ← n_pwrite nx (take (Z.to_nat keep) buf) keep offs flags err;
        if r =? -1 then mret (-1, err, buf, count, offs)
        else pwrite_body fuel nx h (drop (Z.to_nat keep) buf) (u32 (count - keep)) (u64 (offs + keep))
               flags err
    end
  else mret (0, err, buf, count, offs).

(** The unaligned head. *)
Definition pwrite_head nx h (buf : list Z) (count offs flags err : Z) : M W (Z * Z * list Z * Z * Z) :=
  let drp := Z.land offs (h_minblock h - 1) in
  if negb (drp =? 0) then
    let keep := Z.min (h_minblock h - drp) count in
    '(r, err) ← modify_block nx h buf drp keep (u64 (offs - drp)) flags err;
    if r =? -1 then mret (-1, err, buf, count, offs)
    else mret (0, err, drop (Z.to_nat keep) buf, u32 (count - keep), u64 (offs + keep))
  else mret (0, err, buf, count, offs).

Definition blocksize_pwrite nx h (buf : list Z) (count offs flags err : Z) : M W (Z * Z) :=
  '(flags, need_flush) ← blocksize_fua nx flags;
  '(r, err, buf, count, offs) ← pwrite_head nx h buf count offs flags err;
  if r =? -1 then mret (-1, err)
  else
    (* Aligned body *)
    '(r, err, buf, count, offs) ← pwrite_body (Z.to_nat count) nx h buf count offs flags err;
    if r =? -1 then mret (-1, err)
    else
      (* Unaligned tail *)
      '(r, err) ← (if negb (count =? 0) then modify_block nx h buf 0 count offs flags err
                   else mret (0, err));
      if r =? -1 then mret (-1, err)
      else if need_flush : bool then n_flush nx 0 err
      else mret (0, err).

Fixpoint trim_body (fuel : nat) nx h (count offs flags err : Z) : M W (Z * Z) :=
  if count =? 0 then mret (0, err)
  else match fuel with
  | O => fail OutOfFuel
  | S fuel =>
      let keep := Z.min (h_maxlen h) count in
      '(r, err) ← n_trim nx keep offs flags err;
      if r =? -1 then mret (-1, err)
      else trim_body fuel nx h (u32 (count - keep)) (u64 (offs + keep)) flags err
  end.

Definition blocksize_trim nx h (count offs flags err : Z) : M W (Z * Z) :=
  '(flags, need_flush) ← blocksize_fua nx flags;
  let drp := Z.land offs (h_minblock h - 1) in
  let keep := if negb (drp =? 0) then Z.min (h_minblock h - drp) count else 0 in
  let offs := u64 (offs + keep) in
  let count := u32 (count - keep) in
  count ← ROUND_DOWN32 count (h_minblock h);
  '(r, err) ← trim_body (Z.to_nat count) nx h count offs flags err;
  if r =? -1 then mret (-1, err)
  else if need_flush : bool then n_flush nx 0 err
  else mret (0, err).

Fixpoint zero_body (fuel : nat) nx h (count offs flags err : Z) : M W (Z * Z * Z * Z) :=
  if h_minblock h <=? count then
    match fuel with
    | O => fail OutOfFuel
    | S fuel =>
        n ← ROUND_DOWN32 count (h_minblock h);
        let keep := Z.min (h_maxlen h) n in
        '(r, err) ← n_zero nx keep offs flags err;
        if r =? -1 then mret (-1, err, count, offs)
        else zero_body fuel nx h (u32 (count - keep)) (u64 (offs + keep)) flags err
    end
  else mret (0, err, count, offs).

(** The unaligned head. *)
Definition zero_head nx h (count offs wflags err : Z) : M W (Z * Z * Z * Z) :=
  let drp := Z.land offs (h_minblock h - 1) in
  if negb (drp =? 0) then
    let keep := Z.min (h_minblock h - drp) count in
    '(r, err) ← modify_block nx h (memset 0 keep) drp keep (u64 (offs - drp)) wflags err;
    if r =? -1 then mret (-1, err, count, offs)
    else mret (0, err, u32 (count - keep), u64 (offs + keep))
  else mret (0, err, count, offs).

Definition blocksize_zero nx h (count offs flags err : Z) : M W (Z * Z) :=
  if (has flags NBDKIT_FLAG_FAST_ZERO &&
      (negb (Z.land (Z.lor offs count) (h_minblock h - 1) =? 0) || (h_maxlen h <? count)))%bool
  then mret (-1, ENOTSUP)
  else
    '(flags, need_flush) ← blocksize_fua nx flags;
    let wflags := clear flags NBDKIT_FLAG_MAY_TRIM in
    '(r, err, count, offs) ← zero_head nx h count offs wflags err;
    if r =? -1 then mret (-1, err)
    else
      (* Aligned body *)
      '(r, err, count, offs) ← zero_body (Z.to_nat count) nx h count offs flags err;
      if r =? -1 then mret (-1, err)
      else
        (* Unaligned tail *)
        '(r, err) ← (if negb (count =? 0) then modify_block nx h (memset 0 count) 0 count offs wflags err
                     else mret (0, err));
        if r =? -1 then mret (-1, err)
        else if need_flush : bool then n_flush nx 0 err
        else mret (0, err).

Fixpoint cache_body (fuel : nat) nx h (remaining offs flags err : Z) : M W (Z * Z) :=
  if remaining =? 0 then mret (0, err)
  else match fuel with
  | O => fail OutOfFuel
  | S fuel =>
      let limit := Z.min (h_maxdata h) remaining in
      '(r, err) ← n_cache nx limit offs flags err;
      if r =? -1 then mret (-1, err)
      else cache_body fuel nx h (u64 (remaining - limit)) (u64 (offs + limit)) flags err
  end.

Definition blocksize_cache nx h (count offs flags err : Z) : M W (Z * Z) :=
  let limit := Z.land offs (h_minblock h - 1) in
  remaining ← ROUND_UP64 (u64 (count + limit)) (h_minblock h);
  cache_body (Z.to_nat remaining) nx h remaining (u64 (offs - limit)) flags err.

(** [b] is the next layer, for [nbdkit_extents_aligned]. *)
Definition blocksize_extents (b : backend W) h (count offset flags : Z) (extents : nbdkit_extents)
    (err : Z) : M W (Z * Z * nbdkit_extents) :=
  start ← ROUND_DOWN offset (h_minblock h);
  end_ ← ROUND_UP64 (u64 (offset + count)) (h_minblock h);
  match nbdkit_extents_new start end_ with
  | inl errno => mret (-1, errno, extents)
  | inr extents2 =>
      n ← ROUND_UP32 count (h_minblock h);
      '(r, err, extents2) ← on_next (nbdkit_extents_aligned b (Z.min n (h_maxlen h)) start flags
                                      (h_minblock h) extents2 err);
      if r =? -1 then mret (-1, err, extents)
      else mret (add_extents (x_extents extents2) extents err)
  end.

(** The operations of the layer that the filter makes out of the next one. *)
Definition blocksize_next (b : backend W) nx h : nbdkit_next W :=
  NextOps (n_prepare nx) (n_finalize nx) (n_export_description nx) (blocksize_get_size nx h)
    (blocksize_block_size nx h) (n_can_write nx) (n_can_flush nx) (n_is_rotational nx) (n_can_trim nx)
    (n_can_zero nx) (n_can_fast_zero nx) (n_can_extents nx) (n_can_fua nx) (n_can_multi_conn nx)
    (n_can_cache nx) (blocksize_pread nx h) (blocksize_pwrite nx h) (n_flush nx) (blocksize_trim nx h)
    (blocksize_zero nx h) (blocksize_extents b h) (blocksize_cache nx h).
End Blocksize.

(** ** Correctness *)

(** A handle that suits the next layer. *)
Record handle_ok h (k : layer_limits) : Prop := {
  ho_pow : exists n, 0 <= n <= 16 /\ h_minblock h = 2 ^ n;
  ho_min : (l_minimum k | h_minblock h);
  ho_maxdata : 0 < h_maxdata h <= UINT32_MAX;
  ho_maxdata_div : (h_minblock h | h_maxdata h);
  ho_maximum : h_maxdata h <= l_maximum k;
  ho_maxlen : 0 < h_maxlen h <= UINT32_MAX;
  ho_maxlen_div : (h_minblock h | h_maxlen h);
  ho_size : 0 <= l_size k <= INT64_MAX;
}.

(** What the filter offers: any alignment and size. *)
Definition blocksize_limits h (k : layer_limits) : layer_limits :=
  LayerLimits (l_size k - l_size k mod h_minblock h) 1 UINT32_MAX (l_can_fua k) (l_can_fast_zero k).

Section Correct.
Context {W : Type} (inv : st W -> Prop) (disk : st W -> Z -> Z) (settled : st W -> Z -> Prop).
Context (nx : nbdkit_next W) (k : layer_limits) `{!DiskLayer inv disk settled nx k}.
Context (h : blocksize_handle) (Hh : handle_ok h k).
Implicit Types (s : st W).

Notation m := (h_minblock h).
Notation same := (same_disk inv disk settled).
Notation wrote := (wrote inv disk settled).
Notation trimmed := (trimmed inv disk settled).

(** The size that is offered. *)
Notation rsize := (l_size (blocksize_limits h k)).

Lemma minblock_bounds : 1 <= m <= BLOCKSIZE_MIN_LIMIT /\ is_power_of_2 m = true /\ m <= h_maxdata h.
Proof.
  destruct (ho_pow h k Hh) as (n & Hn & E). pose proof (Z.pow_le_mono_r 2 n 16 ltac:(lia) ltac:(lia)) as H16.
  pose proof (Z.pow_le_mono_r 2 0 n ltac:(lia) ltac:(lia)) as H0. change (2 ^ 16) with 65536 in H16.
  change (2 ^ 0) with 1 in H0. split; [rewrite E; unfold BLOCKSIZE_MIN_LIMIT; lia|].
  split; [rewrite E; apply is_power_of_2_pow; lia|]. pose proof (ho_maxdata h k Hh).
  apply Z.divide_pos_le; [lia|]. apply (ho_maxdata_div h k Hh).
Qed.

Lemma rsize_bounds : 0 <= rsize <= l_size k /\ (m | rsize).
Proof.
  simpl. pose proof (ho_size h k Hh). destruct minblock_bounds as [Hm _].
  pose proof (Z.mod_pos_bound (l_size k) m ltac:(lia)). pose proof (Z.mod_le (l_size k) m ltac:(lia) ltac:(lia)).
  split; [lia|]. apply divide_sub_mod. lia.
Qed.

Lemma aligned_block c o :
  0 <= o -> 0 < c <= UINT32_MAX -> (m | o) -> (m | c) -> o + c <= rsize -> aligned_range k c o.
Proof.
  intros Ho Hc Hmo Hmc Hle. pose proof rsize_bounds as [Hr _].
  split; [done|]. split; [done|]. split; [lia|].
  split; (eapply Z.divide_trans; [apply (ho_min h k Hh)|done]).
Qed.

(** The offset inside a block. *)
Lemma land_minblock o : Z.land o (m - 1) = o mod m.
Proof. destruct (ho_pow h k Hh) as (n & Hn & ->). apply land_pred_pow2. lia. Qed.

Lemma wp_ROUND_DOWN32 i (Q : Z -> st W -> Prop) s :
  0 <= i <= UINT32_MAX -> Q (i - i mod m) s -> wp (ROUND_DOWN32 i m) Q s.
Proof.
  intros Hi HQ. unfold ROUND_DOWN32. apply wp_bind, wp_assert. split; [apply minblock_bounds|].
  apply wp_ret. destruct (ho_pow h k Hh) as (n & Hn & E). rewrite E in *. by rewrite land_neg_pow2_32.
Qed.

(** The block around an unaligned offset. *)
Lemma head_block count offs :
  0 <= offs -> 0 < count -> offs + count <= rsize ->
  0 <= offs - offs mod m /\ (m | offs - offs mod m) /\ offs - offs mod m + m <= rsize.
Proof.
  intros Ho Hc Hle. destruct minblock_bounds as [Hm _]. destruct rsize_bounds as [_ Hd].
  pose proof (Z.mod_le offs m ltac:(lia) ltac:(lia)). pose proof (Z.mod_pos_bound offs m ltac:(lia)).
  split; [lia|]. split; [apply divide_sub_mod; lia|]. apply divide_next; [lia|apply divide_sub_mod; lia|done|lia].
Qed.

(** How much of an aligned range a round of a loop handles. *)
Lemma body_chunk limit count offs :
  0 < limit -> (m | limit) -> 0 <= offs -> m <= count <= UINT32_MAX -> (m | offs) -> offs + count <= rsize ->
  let keep := Z.min limit (count - count mod m) in
  aligned_range k keep offs /\ 0 < keep <= count /\ (m | keep) /\
  (count - keep) mod m = count mod m /\ (m | offs + keep).
Proof.
  intros Hl Hld Ho Hc Hmo Hle keep. destruct minblock_bounds as [Hm _].
  pose proof (Z.mod_pos_bound count m ltac:(lia)) as Hb.
  assert (Hkd : (m | keep)).
  { subst keep. destruct (Z.min_spec limit (count - count mod m)) as [[_ ->]|[_ ->]]; [done|].
    apply divide_sub_mod. lia. }
  assert (Hk : 0 < keep <= count) by (subst keep; lia).
  split; [apply aligned_block; (done || lia)|]. split; [done|]. split; [done|].
  split; [|by apply Z.divide_add_r].
  destruct Hkd as [q Hq]. replace (count - keep) with (count + - q * m) by lia. apply Z.mod_add. lia.
Qed.

(** ** Reading *)

Lemma wp_read_bounce offs err s :
  inv s -> errno_ok err -> 0 <= offs -> (m | offs) -> offs + m <= rsize ->
  wp (read_bounce nx h offs 0 err) (fun '(r, err', buf) s' =>
    same s s' /\ fails_errno r err' /\ (r <> -1 -> buf = slice (disk s) offs m)) s.
Proof.
  intros Hi He Ho Hd Hle. destruct minblock_bounds as (Hm & _ & Hmax).
  unfold read_bounce. rewrite (proj2 (Z.leb_le _ _)) by lia. apply (dl_pread m offs err s Hi He).
  - apply aligned_block; (done || unfold BLOCKSIZE_MIN_LIMIT in *; limits; lia).
  - pose proof (ho_maximum h k Hh). lia.
Qed.

Lemma wp_pread_body fuel : forall buf count offs err s,
  inv s -> errno_ok err -> 0 <= offs -> 0 <= count <= UINT32_MAX -> offs + count <= rsize ->
  (m <= count -> (m | offs)) -> count <= Z.of_nat fuel ->
  wp (pread_body fuel nx h buf count offs 0 err) (fun '(r, err', buf', count', offs') s' =>
    same s s' /\ fails_errno r err' /\
    (r <> -1 -> count' = count mod m /\ offs' = offs + (count - count mod m) /\
       buf' = buf ++ slice (disk s) offs (count - count mod m))) s.
Proof.
  destruct minblock_bounds as (Hm & _ & _). destruct rsize_bounds as [Hr _]. pose proof (ho_size h k Hh).
  induction fuel as [|fuel IH]; intros buf count offs err s Hi He Ho Hc Hle Hd Hf; cbn [pread_body];
    (destruct (Z.leb_spec m count) as [Hge|Hlt];
      [|apply wp_ret; rewrite Z.mod_small, Z.sub_diag, Z.add_0_r, slice_nil, app_nil_r by lia;
        split; [by apply unchanged_refl|]; split; [split; [done|lia]|done]]).
  { lia. }
  destruct (body_chunk (h_maxdata h) count offs) as (Hal & Hk & Hkd & Hmod & Hoff); try done; try lia.
  { apply (ho_maxdata h k Hh). } { apply (ho_maxdata_div h k Hh). } { auto. }
  set (keep := Z.min (h_maxdata h) (count - count mod m)) in *.
  apply wp_bind, wp_ROUND_DOWN32; [lia|]. fold keep. apply wp_bind. eapply wp_mono.
  { apply (dl_pread keep offs err s Hi He Hal). pose proof (ho_maximum h k Hh). lia. }
  intros [[r1 e1] b1] s1 (Hsd & He1 & Hb1). destruct (Z.eqb_spec r1 (-1)) as [->|Hr1].
  { apply wp_ret. split; [done|]. split; [done|]. by intros []. }
  rewrite u32_small, u64_small by (limits; lia). eapply wp_mono.
  { apply (IH (buf ++ b1) (count - keep) (offs + keep) e1 s1); try lia; try done.
    - apply Hsd. - apply He1. }
  intros [[[[r2 e2] b2] c2] o2] s2 (Hsd2 & He2 & Hp2). split; [by eapply same_disk_trans|].
  split; [done|]. intros Hr2. destruct (Hp2 Hr2) as (-> & -> & ->). rewrite Hmod.
  split; [done|]. split; [lia|]. rewrite (Hb1 Hr1), <- app_assoc. f_equal.
  rewrite (same_disk_slice inv disk settled s s1) by done.
  pose proof (Z.mod_pos_bound count m ltac:(lia)).
  assert (keep <= count - count mod m) by (subst keep; lia).
  rewrite <- slice_app by lia. f_equal. lia.
Qed.

(** What is left of a request after the unaligned head. *)
Definition after_head (count offs count' offs' keep : Z) : Prop :=
  0 <= keep <= count /\ count' = count - keep /\ offs' = offs + keep /\ (0 < count' -> (m | offs')).

Lemma after_head_aligned count offs : offs mod m = 0 -> 0 <= count -> after_head count offs count offs 0.
Proof.
  intros E Hc. destruct minblock_bounds as (Hm & _ & _). split; [lia|]. split; [lia|]. split; [lia|].
  intros _. apply Z.mod_divide; lia.
Qed.

Lemma after_head_unaligned count offs :
  0 < count -> let keep := Z.min (m - offs mod m) count in
  after_head count offs (count - keep) (offs + keep) keep.
Proof.
  intros Hc keep. destruct minblock_bounds as (Hm & _ & _). pose proof (Z.mod_pos_bound offs m ltac:(lia)).
  split; [subst keep; lia|]. split; [done|]. split; [done|]. intros Hpos. subst keep. rewrite Z.min_l by lia.
  replace (offs + (m - offs mod m)) with (offs - offs mod m + m) by lia.
  apply Z.divide_add_r; [apply divide_sub_mod; lia|apply Z.divide_refl].
Qed.

(** The aligned start of the tail. *)
Lemma tail_block count offs count' offs' keep :
  0 <= offs -> offs + count <= rsize -> after_head count offs count' offs' keep -> count' mod m <> 0 ->
  0 <= offs' + (count' - count' mod m) /\ (m | offs' + (count' - count' mod m)) /\
  offs' + (count' - count' mod m) + m <= rsize /\ 0 < count' mod m < m.
Proof.
  intros Ho Hle (Hk & -> & -> & Hd) E. destruct minblock_bounds as (Hm & _ & _).
  destruct rsize_bounds as [_ Hrd]. set (c := count - keep) in *.
  pose proof (Z.mod_pos_bound c m ltac:(lia)). pose proof (Z.mod_le c m ltac:(lia) ltac:(lia)).
  assert (Hod : (m | offs + keep + (c - c mod m))).
  { apply Z.divide_add_r; [apply Hd; lia|]. apply divide_sub_mod. lia. }
  split; [lia|]. split; [done|]. split; [|lia]. apply divide_next; [lia|done|done|]. subst c. lia.
Qed.

Lemma wp_pread_head count offs err s :
  inv s -> errno_ok err -> 0 <= offs -> 0 < count <= UINT32_MAX -> offs + count <= rsize ->
  wp (pread_head nx h count offs 0 err) (fun '(r, err', buf, count', offs') s' =>
    same s s' /\ fails_errno r err' /\ (r <> -1 -> exists keep,
      after_head count offs count' offs' keep /\ buf = slice (disk s) offs keep)) s.
Proof.
  intros Hi He Ho Hc Hle. destruct minblock_bounds as (Hm & _ & _). destruct rsize_bounds as [Hr _].
  pose proof (ho_size h k Hh). pose proof (Z.mod_pos_bound offs m ltac:(lia)) as Hob.
  unfold pread_head. rewrite land_minblock. destruct (Z.eqb_spec (offs mod m) 0) as [E|E]; cbn [negb].
  - apply wp_ret. split; [by apply unchanged_refl|]. split; [split; [done|lia]|]. intros _.
    exists 0. split; [apply after_head_aligned; (done || lia)|done].
  - destruct (head_block count offs) as (Hb0 & Hbd & Hbe); [lia..|].
    rewrite (u64_small (offs - offs mod m)) by (limits; lia).
    pose proof (after_head_unaligned count offs ltac:(lia)) as Hah. cbv zeta in Hah.
    set (keep := Z.min (m - offs mod m) count) in *. apply wp_bind. eapply wp_mono; [by apply wp_read_bounce|].
    intros [[r1 e1] b1] s1 (Hsd & He1 & Hb1). destruct (Z.eqb_spec r1 (-1)) as [-> |Hr1].
    { apply wp_ret. split; [done|]. split; [done|]. by intros []. }
    apply wp_ret. split; [done|]. split; [split; [apply He1|lia]|]. intros _. exists keep.
    destruct Hah as (Hk & Hah). rewrite u32_small, u64_small by (limits; lia). split; [by split|].
    rewrite (Hb1 Hr1), sub_slice by (subst keep; lia). f_equal. lia.
Qed.

Lemma blocksize_pread_correct count offs err s :
  inv s -> errno_ok err -> aligned_range (blocksize_limits h k) count offs ->
  wp (blocksize_pread nx h count offs 0 err) (fun '(r, err', buf) s' =>
    same s s' /\ fails_errno r err' /\ (r <> -1 -> buf = slice (disk s) offs count)) s.
Proof.
  intros Hi He (Ho & Hc & Hle & _). destruct minblock_bounds as (Hm & _ & _).
  unfold blocksize_pread. apply wp_bind. eapply wp_mono; [by apply wp_pread_head|].
  intros [[[[r1 e1] b1] c1] o1] s1 (Hsd1 & He1 & Hp1). destruct (Z.eqb_spec r1 (-1)) as [-> |Hr1].
  { apply wp_ret. split; [done|]. split; [done|]. by intros []. }
  destruct (Hp1 Hr1) as (keep & Hah & ->). destruct (Hah) as (Hk & Hc1 & Ho1 & Hd1).
  (* the body *)
  apply wp_bind. eapply wp_mono.
  { apply (wp_pread_body _ _ c1 o1 e1 s1); try lia; try done.
    - apply Hsd1. - apply He1. - intros Hge. apply Hd1. lia. }
  intros [[[[r2 e2] b2] c2] o2] s2 (Hsd2 & He2 & Hp2). destruct (Z.eqb_spec r2 (-1)) as [-> |Hr2].
  { apply wp_ret. split; [by eapply same_disk_trans|]. split; [done|]. by intros []. }
  destruct (Hp2 Hr2) as (-> & -> & ->). pose proof (same_disk_trans _ _ _ _ _ _ Hsd1 Hsd2) as Hsd12.
  pose proof (Z.mod_pos_bound c1 m ltac:(lia)) as Hcb. pose proof (Z.mod_le c1 m ltac:(lia) ltac:(lia)) as Hcle.
  subst o1. rewrite (same_disk_slice inv disk settled s s1) by done. rewrite <- slice_app by lia.
  (* the tail *)
  destruct (Z.eqb_spec (c1 mod m) 0) as [E|E]; cbn [negb].
  - apply wp_ret. split; [done|]. split; [split; [apply He2|lia]|]. intros _. f_equal. lia.
  - destruct (tail_block count offs c1 (offs + keep) keep) as (Ht0 & Htd & Hte & Htc); try done.
    apply wp_bind. eapply wp_mono.
    { apply (wp_read_bounce (offs + keep + (c1 - c1 mod m)) e2 s2); try done; [apply Hsd2|apply He2]. }
    intros [[r3 e3] b3] s3 (Hsd3 & He3 & Hb3). destruct (Z.eqb_spec r3 (-1)) as [-> |Hr3].
    { apply wp_ret. split; [by eapply same_disk_trans|]. split; [done|]. by intros []. }
    apply wp_ret. split; [by eapply same_disk_trans|]. split; [split; [apply He3|lia]|]. intros _.
    rewrite (Hb3 Hr3), sub_slice by lia. rewrite (same_disk_slice inv disk settled s s2) by done.
    replace (offs + keep + (c1 - c1 mod m) + 0) with (offs + (keep + (c1 - c1 mod m))) by lia.
    rewrite <- slice_app by lia. f_equal. lia.
Qed.

(** ** Writing *)

(** The buffer [buf] as contents from [offs] on. *)
Definition from_buffer (buf : list Z) (offs : Z) : Z -> Z := fun x => nth (Z.to_nat (x - offs)) buf 0.

Lemma from_buffer_drop buf offs n :
  0 <= n -> forall x, offs + n <= x ->
  from_buffer (drop (Z.to_nat n) buf) (offs + n) x = from_buffer buf offs x.
Proof.
  intros Hn x Hx. unfold from_buffer. rewrite !nth_lookup, lookup_drop. do 2 f_equal. lia.
Qed.

Lemma from_buffer_take buf offs n :
  forall x, in_request n offs x -> from_buffer (take (Z.to_nat n) buf) offs x = from_buffer buf offs x.
Proof.
  unfold in_request. intros x Hx. unfold from_buffer. rewrite !nth_lookup, lookup_take_lt by lia. done.
Qed.

Lemma overwrite_from_buffer d buf offs x :
  in_request (Z.of_nat (length buf)) offs x -> overwrite d buf offs x = from_buffer buf offs x.
Proof. unfold in_request. intros Hx. by rewrite overwrite_in. Qed.

Lemma wp_modify_block D new drp keep offs wflags err s :
  inv s -> errno_ok err -> 0 <= offs -> (m | offs) -> offs + m <= rsize ->
  0 <= drp -> 0 < keep -> drp + keep <= m -> keep <= Z.of_nat (length new) -> write_flags k wflags ->
  (forall x, in_request keep (offs + drp) x -> D x = from_buffer new (offs + drp) x) ->
  wp (modify_block nx h new drp keep offs wflags err) (fun '(r, err') s' =>
    wrote D keep (offs + drp) (has wflags NBDKIT_FLAG_FUA) r err' s s') s.
Proof.
  intros Hi He Ho Hd Hle Hdrp Hk Hdk Hlen Hfl HD. destruct minblock_bounds as (Hm & _ & Hmax).
  unfold modify_block. apply wp_bind. eapply wp_mono; [by apply wp_read_bounce|].
  intros [[r1 e1] b1] s1 (Hsd & He1 & Hb1). destruct (Z.eqb_spec r1 (-1)) as [-> |Hr1].
  { apply wp_ret. by apply wrote_unchanged. }
  rewrite (Hb1 Hr1). set (new' := take (Z.to_nat keep) new).
  assert (Hl : length new' = Z.to_nat keep) by (subst new'; rewrite length_take; lia).
  assert (Hls : length (splice (slice (disk s) offs m) new' drp) = Z.to_nat m)
    by (rewrite length_splice; rewrite ?length_slice; lia).
  eapply wp_mono.
  { apply (dl_pwrite _ m offs wflags e1 s1); try done.
    - apply Hsd. - apply He1.
    - apply aligned_block; (done || unfold BLOCKSIZE_MIN_LIMIT in *; limits; lia).
    - pose proof (ho_maximum h k Hh). lia. }
  intros [r e] s' Hw. eapply wrote_same_l; [exact Hsd|].
  assert (Hd1 : forall x, disk s1 x = disk s x) by (intros x; by apply Hsd).
  set (D' := fun x => if decide (in_request keep (offs + drp) x) then D x else disk s1 x).
  eapply (wrote_ext inv disk settled D'); [subst D'; intros x Hx; cbv beta; by rewrite decide_True|].
  eapply wrote_shrink; [| |eapply (wrote_ext inv disk settled _ D'); [|exact Hw]].
  - unfold in_request. lia.
  - intros x _ Hout. subst D'. simpl. by rewrite decide_False.
  - unfold in_request. intros x Hx. rewrite overwrite_in by lia.
    rewrite nth_splice by (rewrite ?length_slice; lia). subst D'. simpl.
    destruct (decide (in_request keep (offs + drp) x)) as [Hin|Hout]; unfold in_request in *.
    + rewrite decide_True by lia. rewrite HD by done. subst new'.
      rewrite <- (from_buffer_take new (offs + drp) keep x) by done. unfold from_buffer. f_equal. lia.
    + rewrite decide_False by lia. rewrite Hd1, nth_slice by lia. f_equal. lia.
Qed.

Lemma wp_pwrite_body flags fuel : forall buf count offs err s,
  inv s -> errno_ok err -> 0 <= offs -> 0 <= count <= UINT32_MAX -> offs + count <= rsize ->
  (m <= count -> (m | offs)) -> count <= Z.of_nat fuel -> write_flags k flags ->
  count <= Z.of_nat (length buf) ->
  wp (pwrite_body fuel nx h buf count offs flags err) (fun '(r, err', buf', count', offs') s' =>
    wrote (from_buffer buf offs) (if decide (r = -1) then count else count - count mod m) offs
      (has flags NBDKIT_FLAG_FUA) r err' s s' /\
    (r <> -1 -> count' = count mod m /\ offs' = offs + (count - count mod m) /\
       buf' = drop (Z.to_nat (count - count mod m)) buf)) s.
Proof.
  destruct minblock_bounds as (Hm & _ & _). destruct rsize_bounds as [Hr _]. pose proof (ho_size h k Hh).
  induction fuel as [|fuel IH]; intros buf count offs err s Hi He Ho Hc Hle Hd Hf Hfl Hlen; cbn [pwrite_body];
    (destruct (Z.leb_spec m count) as [Hge|Hlt];
      [|apply wp_ret; rewrite Z.mod_small, Z.sub_diag, Z.add_0_r by lia;
        split; [by apply wrote_nothing|]; intros _; split; [done|]; split; [done|by rewrite drop_0]]).
  { lia. }
  destruct (body_chunk (h_maxdata h) count offs) as (Hal & Hk & Hkd & Hmod & Hoff); try done; try lia.
  { apply (ho_maxdata h k Hh). } { apply (ho_maxdata_div h k Hh). } { auto. }
  set (keep := Z.min (h_maxdata h) (count - count mod m)) in *.
  apply wp_bind, wp_ROUND_DOWN32; [lia|]. fold keep. apply wp_bind.
  assert (Hlk : length (take (Z.to_nat keep) buf) = Z.to_nat keep) by (rewrite length_take; lia).
  eapply wp_mono.
  { apply (dl_pwrite (take (Z.to_nat keep) buf) keep offs flags err s Hi He Hal); try done.
    pose proof (ho_maximum h k Hh). lia. }
  intros [r1 e1] s1 Hw1.
  assert (Hw1' : wrote (from_buffer buf offs) keep offs (has flags NBDKIT_FLAG_FUA) r1 e1 s s1).
  { eapply wrote_ext; [|exact Hw1]. intros x Hx. rewrite overwrite_from_buffer.
    - by apply from_buffer_take.
    - rewrite Hlk. unfold in_request in *. lia. }
  destruct (Z.eqb_spec r1 (-1)) as [-> |Hr1].
  { apply wp_ret. rewrite decide_True by done. split; [|by intros []].
    eapply wrote_widen; [|exact Hw1']. unfold in_request. lia. }
  rewrite u32_small, u64_small by (limits; lia). eapply wp_mono.
  { apply (IH (drop (Z.to_nat keep) buf) (count - keep) (offs + keep) e1 s1); try lia; try done.
    - apply Hw1'. - apply Hw1'. - rewrite length_drop. lia. }
  intros [[[[r2 e2] b2] c2] o2] s2 (Hw2 & Hp2).
  pose proof (Z.mod_pos_bound count m ltac:(lia)).
  assert (Hkm : keep <= count - count mod m) by (subst keep; lia). rewrite Hmod in *. split.
  - assert (Hw2' := wrote_ext inv disk settled _ (from_buffer buf offs) _ _ _ _ _ _ _
      (fun x Hx => from_buffer_drop buf offs keep ltac:(lia) x (proj1 Hx)) Hw2).
    destruct (decide (r2 = -1)).
    + replace count with (keep + (count - keep)) by lia.
      eapply wrote_app; [lia|lia|exact Hr1|exact Hw1'|exact Hw2'].
    + replace (count - count mod m) with (keep + (count - keep - count mod m)) by lia.
      eapply wrote_app; [lia|lia|exact Hr1|exact Hw1'|exact Hw2'].
  - intros Hr2. destruct (Hp2 Hr2) as (-> & -> & ->). split; [done|]. split; [lia|].
    rewrite drop_drop. f_equal. lia.
Qed.

Lemma wp_blocksize_fua flags s :
  inv s ->
  wp (blocksize_fua nx flags) (fun '(fl, nf) s' => same s s' /\
    ((nf = false /\ fl = flags) \/
     (nf = true /\ has flags NBDKIT_FLAG_FUA = true /\ fl = clear flags NBDKIT_FLAG_FUA))) s.
Proof.
  intros Hi. unfold blocksize_fua. destruct (has flags NBDKIT_FLAG_FUA) eqn:Hf.
  - apply wp_bind. eapply wp_mono; [by apply dl_can_fua|]. intros r s' [_ Hsd].
    destruct (r =? NBDKIT_FUA_EMULATE); apply wp_ret; auto 6.
  - apply wp_ret. split; [by apply unchanged_refl|auto].
Qed.

(** The end of a writing request: emulate FUA with a flush. *)
Lemma wp_finish_write D fl nf flags count offs r err s1 s2 :
  (nf = false /\ fl = flags) \/
    (nf = true /\ has flags NBDKIT_FLAG_FUA = true /\ fl = clear flags NBDKIT_FLAG_FUA) ->
  wrote D count offs (has fl NBDKIT_FLAG_FUA) r err s1 s2 ->
  wp (if r =? -1 then mret (-1, err) else if nf : bool then n_flush nx 0 err else mret (0, err))
    (fun '(r, err') s' => wrote D count offs (has flags NBDKIT_FLAG_FUA) r err' s1 s') s2.
Proof.
  intros Hfl Hw. destruct (Z.eqb_spec r (-1)) as [-> |Hr].
  { apply wp_ret. by eapply wrote_error. }
  destruct Hfl as [[-> ->]|(-> & Hf & ->)].
  - apply wp_ret. by eapply wrote_result.
  - eapply wp_mono; [apply dl_flush; apply Hw|]. intros [r2 e2] s3 (Hsd & He2 & Hall). rewrite Hf.
    by eapply wrote_flushed.
Qed.

Lemma wp_finish_zero D fl nf flags count offs r err s1 s2 :
  (nf = false /\ fl = flags) \/
    (nf = true /\ has flags NBDKIT_FLAG_FUA = true /\ fl = clear flags NBDKIT_FLAG_FUA) ->
  wrote D count offs (has fl NBDKIT_FLAG_FUA) r err s1 s2 ->
  wp (if r =? -1 then mret (-1, err) else if nf : bool then n_flush nx 0 err else mret (0, err))
    (fun '(r, err') s' => wrote D count offs (has flags NBDKIT_FLAG_FUA) r (zero_err flags r err') s1 s') s2.
Proof.
  intros Hfl Hw. eapply wp_mono; [by eapply wp_finish_write|].
  intros [r' e'] s3 H. by apply wrote_zero_err.
Qed.

(** Head, body and tail of a writing request, one after the other. *)
Lemma wp_pwrite_head buf count offs fl err s :
  inv s -> errno_ok err -> 0 <= offs -> 0 < count <= UINT32_MAX -> offs + count <= rsize ->
  write_flags k fl -> length buf = Z.to_nat count ->
  wp (pwrite_head nx h buf count offs fl err) (fun '(r, err', buf', count', offs') s' => exists keep,
    wrote (from_buffer buf offs) (if decide (r = -1) then count else keep) offs
      (has fl NBDKIT_FLAG_FUA) r err' s s' /\
    (r <> -1 -> after_head count offs count' offs' keep /\ buf' = drop (Z.to_nat keep) buf)) s.
Proof.
  intros Hi He Ho Hc Hle Hfl Hlen. destruct minblock_bounds as (Hm & _ & _). destruct rsize_bounds as [Hr _].
  pose proof (ho_size h k Hh). pose proof (Z.mod_pos_bound offs m ltac:(lia)) as Hob.
  unfold pwrite_head. rewrite land_minblock. destruct (Z.eqb_spec (offs mod m) 0) as [E|E]; cbn [negb].
  - apply wp_ret. exists 0. split; [by apply wrote_nothing|].
    intros _; split; [apply after_head_aligned; (done || lia)|done].
  - destruct (head_block count offs) as (Hb0 & Hbd & Hbe); [lia..|].
    rewrite (u64_small (offs - offs mod m)) by (limits; lia).
    pose proof (after_head_unaligned count offs ltac:(lia)) as Hah. cbv zeta in Hah.
    set (keep := Z.min (m - offs mod m) count) in *. apply wp_bind. eapply wp_mono.
    { apply (wp_modify_block (from_buffer buf offs) buf (offs mod m) keep); try done; try lia.
      intros x Hx. f_equal. lia. }
    intros [r1 e1] s1 Hw1. replace (offs - offs mod m + offs mod m) with offs in Hw1 by lia.
    destruct (Z.eqb_spec r1 (-1)) as [-> |Hr1]; apply wp_ret; exists keep.
    { rewrite decide_True by done. split; [|by intros []]. eapply wrote_widen; [|exact Hw1].
      destruct Hah as [? _]. unfold in_request. lia. }
    rewrite decide_False by lia. destruct Hah as (Hk & Hah). rewrite u32_small, u64_small by (limits; lia).
    split; [by eapply wrote_result|done].
Qed.

Lemma blocksize_pwrite_correct buf count offs flags err s :
  inv s -> errno_ok err -> aligned_range (blocksize_limits h k) count offs ->
  write_flags k flags -> length buf = Z.to_nat count ->
  wp (blocksize_pwrite nx h buf count offs flags err) (fun '(r, err') s' =>
    wrote (from_buffer buf offs) count offs (has flags NBDKIT_FLAG_FUA) r err' s s') s.
Proof.
  intros Hi He (Ho & Hc & Hle & _) Hfl Hlen. destruct minblock_bounds as (Hm & _ & _).
  unfold blocksize_pwrite. apply wp_bind. eapply wp_mono; [by apply wp_blocksize_fua|].
  intros [fl nf] s0 [Hsd0 Hnf].
  assert (Hfl' : write_flags k fl) by (destruct Hnf as [[_ ->]|(_ & _ & ->)]; [done|by apply write_flags_clear]).
  set (D := from_buffer buf offs).
  apply wp_bind. eapply wp_mono; [apply wp_pwrite_head; try done; apply Hsd0|]. fold D.
  intros [[[[r1 e1] b1] c1] o1] s1 (keep & Hw1 & Hp1).
  eapply wrote_same_l in Hw1; [|exact Hsd0]. destruct (Z.eqb_spec r1 (-1)) as [-> |Hr1].
  { apply wp_ret. rewrite decide_True in Hw1 by done. by eapply wrote_error. }
  rewrite decide_False in Hw1 by done. destruct (Hp1 Hr1) as [Hah ->].
  destruct (Hah) as (Hk & Hc1 & Ho1 & Hd1).
  (* the body *)
  apply wp_bind. eapply wp_mono.
  { apply (wp_pwrite_body fl _ _ c1 o1 e1 s1); try lia; try done.
    - apply Hw1. - apply Hw1. - intros Hge. apply Hd1. lia. - rewrite length_drop. lia. }
  intros [[[[r2 e2] b2] c2] o2] s2 (Hw2 & Hp2). rewrite Ho1 in Hw2.
  assert (Hw2' := wrote_ext inv disk settled _ D _ _ _ _ _ _ _
    (fun x Hx => from_buffer_drop buf offs keep ltac:(lia) x (proj1 Hx)) Hw2). clear Hw2.
  destruct (Z.eqb_spec r2 (-1)) as [-> |Hr2].
  { apply wp_ret. rewrite decide_True in Hw2' by done.
    assert (Hw : wrote D count offs (has fl NBDKIT_FLAG_FUA) (-1) e2 s s2).
    { replace count with (keep + c1) by lia. eapply wrote_app; [lia|lia|exact Hr1|exact Hw1|exact Hw2']. }
    by eapply wrote_error. }
  rewrite decide_False in Hw2' by done. destruct (Hp2 Hr2) as (-> & -> & ->).
  pose proof (Z.mod_pos_bound c1 m ltac:(lia)) as Hcb. pose proof (Z.mod_le c1 m ltac:(lia) ltac:(lia)) as Hcle.
  (* the tail *)
  apply wp_bind. destruct (Z.eqb_spec (c1 mod m) 0) as [E|E]; cbn [negb].
  - apply wp_ret. apply (wp_finish_write D fl nf flags count offs 0 e2 s s2 Hnf).
    replace count with (keep + (c1 - c1 mod m)) by lia.
    eapply wrote_app; [lia|lia|exact Hr1|exact Hw1|by eapply wrote_result].
  - destruct (tail_block count offs c1 o1 keep) as (Ht0 & Htd & Hte & Htc); try done.
    eapply wp_mono.
    { apply (wp_modify_block D _ 0 (c1 mod m) _ fl e2 s2); try done; try lia.
      - apply Hw2'. - apply Hw2'.
      - rewrite !length_drop. lia.
      - intros x Hx. subst D. rewrite Z.add_0_r, Ho1, drop_drop.
        unfold in_request in Hx. rewrite Z.add_0_r, Ho1 in Hx.
        rewrite <- (from_buffer_drop buf offs (keep + (c1 - c1 mod m))) by lia. f_equal; [|lia].
        f_equal. lia. }
    intros [r3 e3] s3 Hw3. rewrite Z.add_0_r, Ho1 in Hw3.
    apply (wp_finish_write D fl nf flags count offs r3 e3 s s3 Hnf).
    eapply (wrote_three _ _ _ D _ count offs keep (c1 - c1 mod m) (c1 mod m)); [lia|lia|lia|lia|exact Hr1|exact Hr2|exact Hw1|exact Hw2'|exact Hw3].
Qed.

(** ** Zeroing *)

Lemma from_buffer_zero n offs x : in_request n offs x -> 0 = from_buffer (memset 0 n) offs x.
Proof. unfold in_request, from_buffer. intros Hx. symmetry. apply nth_memset. lia. Qed.

Lemma wp_zero_head count offs wflags err s :
  inv s -> errno_ok err -> 0 <= offs -> 0 < count <= UINT32_MAX -> offs + count <= rsize ->
  (offs mod m <> 0 -> write_flags k wflags) ->
  wp (zero_head nx h count offs wflags err) (fun '(r, err', count', offs') s' => exists keep,
    wrote (fun _ => 0) (if decide (r = -1) then count else keep) offs
      (has wflags NBDKIT_FLAG_FUA) r err' s s' /\
    (r <> -1 -> after_head count offs count' offs' keep /\ (offs mod m = 0 -> keep = 0))) s.
Proof.
  intros Hi He Ho Hc Hle Hfl. destruct minblock_bounds as (Hm & _ & _). destruct rsize_bounds as [Hr _].
  pose proof (ho_size h k Hh). pose proof (Z.mod_pos_bound offs m ltac:(lia)) as Hob.
  unfold zero_head. rewrite land_minblock. destruct (Z.eqb_spec (offs mod m) 0) as [E|E]; cbn [negb].
  - apply wp_ret. exists 0. split; [by apply wrote_nothing|].
    intros _; split; [apply after_head_aligned; (done || lia)|done].
  - destruct (head_block count offs) as (Hb0 & Hbd & Hbe); [lia..|].
    rewrite (u64_small (offs - offs mod m)) by (limits; lia).
    pose proof (after_head_unaligned count offs ltac:(lia)) as Hah. cbv zeta in Hah.
    set (keep := Z.min (m - offs mod m) count) in *. apply wp_bind. eapply wp_mono.
    { apply (wp_modify_block (fun _ => 0) (memset 0 keep) (offs mod m) keep); try done; try lia;
        [rewrite length_memset; lia|auto|intros x Hx; by apply from_buffer_zero]. }
    intros [r1 e1] s1 Hw1. replace (offs - offs mod m + offs mod m) with offs in Hw1 by lia.
    destruct (Z.eqb_spec r1 (-1)) as [-> |Hr1]; apply wp_ret; exists keep.
    { rewrite decide_True by done. split; [|by intros []]. eapply wrote_widen; [|exact Hw1].
      destruct Hah as [? _]. unfold in_request. lia. }
    rewrite decide_False by lia. destruct Hah as (Hk & Hah). rewrite u32_small, u64_small by (limits; lia).
    split; [by eapply wrote_result|done].
Qed.

Lemma wp_zero_body flags fuel : forall count offs err s,
  inv s -> errno_ok err -> 0 <= offs -> 0 <= count <= UINT32_MAX -> offs + count <= rsize ->
  (m <= count -> (m | offs)) -> count <= Z.of_nat fuel -> zero_flags k flags ->
  wp (zero_body fuel nx h count offs flags err) (fun '(r, err', count', offs') s' =>
    wrote (fun _ => 0) (if decide (r = -1) then count else count - count mod m) offs
      (has flags NBDKIT_FLAG_FUA) r (zero_err flags r err') s s' /\
    (r <> -1 -> count' = count mod m /\ offs' = offs + (count - count mod m))) s.
Proof.
  destruct minblock_bounds as (Hm & _ & _). destruct rsize_bounds as [Hr _]. pose proof (ho_size h k Hh).
  induction fuel as [|fuel IH]; intros count offs err s Hi He Ho Hc Hle Hd Hf Hfl; cbn [zero_body];
    (destruct (Z.leb_spec m count) as [Hge|Hlt];
      [|apply wp_ret; rewrite Z.mod_small, Z.sub_diag, Z.add_0_r by lia;
        split; [by apply wrote_nothing|done]]).
  { lia. }
  destruct (body_chunk (h_maxlen h) count offs) as (Hal & Hk & Hkd & Hmod & Hoff); try done; try lia.
  { apply (ho_maxlen h k Hh). } { apply (ho_maxlen_div h k Hh). } { auto. }
  set (keep := Z.min (h_maxlen h) (count - count mod m)) in *.
  apply wp_bind, wp_ROUND_DOWN32; [lia|]. fold keep. apply wp_bind.
  eapply wp_mono; [by apply (dl_zero keep offs flags err s Hi He Hal)|].
  intros [r1 e1] s1 Hw1. destruct (Z.eqb_spec r1 (-1)) as [-> |Hr1].
  { apply wp_ret. rewrite decide_True by done. split; [|by intros []].
    eapply wrote_widen; [|exact Hw1]. unfold in_request. lia. }
  rewrite zero_err_ok in Hw1 by done.
  rewrite u32_small, u64_small by (limits; lia). eapply wp_mono.
  { apply (IH (count - keep) (offs + keep) e1 s1); try lia; try done; apply Hw1. }
  intros [[[r2 e2] c2] o2] s2 (Hw2 & Hp2).
  pose proof (Z.mod_pos_bound count m ltac:(lia)).
  assert (Hkm : keep <= count - count mod m) by (subst keep; lia). rewrite Hmod in *. split.
  - destruct (decide (r2 = -1)).
    + replace count with (keep + (count - keep)) by lia.
      eapply wrote_app; [lia|lia|exact Hr1|exact Hw1|exact Hw2].
    + replace (count - count mod m) with (keep + (count - keep - count mod m)) by lia.
      eapply wrote_app; [lia|lia|exact Hr1|exact Hw1|exact Hw2].
  - intros Hr2. destruct (Hp2 Hr2) as (-> & ->). split; [done|]. lia.
Qed.

(** A fast zero that is not refused is aligned. *)
Lemma fast_zero_aligned count offs :
  Z.land (Z.lor offs count) (m - 1) = 0 -> offs mod m = 0 /\ count mod m = 0.
Proof.
  rewrite Z.land_lor_distr_l, !land_minblock. apply Z.lor_eq_0_iff.
Qed.

Lemma blocksize_zero_correct count offs flags err s :
  inv s -> errno_ok err -> aligned_range (blocksize_limits h k) count offs -> zero_flags k flags ->
  wp (blocksize_zero nx h count offs flags err) (fun '(r, err') s' =>
    wrote (fun _ => 0) count offs (has flags NBDKIT_FLAG_FUA) r (zero_err flags r err') s s') s.
Proof.
  intros Hi He (Ho & Hc & Hle & _) Hfl. destruct minblock_bounds as (Hm & _ & _).
  unfold blocksize_zero. destruct (has flags NBDKIT_FLAG_FAST_ZERO && _)%bool eqn:Hfast.
  { apply andb_prop in Hfast as [Hfast _]. apply wp_ret. rewrite zero_err_fast by done.
    apply wrote_unchanged; [by apply unchanged_refl|]. by apply fails_errno_const. }
  assert (Hal : has flags NBDKIT_FLAG_FAST_ZERO = true -> offs mod m = 0 /\ count mod m = 0).
  { intros Hf. rewrite Hf in Hfast. simpl in Hfast. apply orb_false_iff in Hfast as [Hfast _].
    apply negb_false_iff, Z.eqb_eq in Hfast. by apply fast_zero_aligned. }
  apply wp_bind. eapply wp_mono; [by apply wp_blocksize_fua|]. intros [fl nf] s0 [Hsd0 Hnf].
  assert (Hfl' : zero_flags k fl /\ has fl NBDKIT_FLAG_FAST_ZERO = has flags NBDKIT_FLAG_FAST_ZERO).
  { destruct Hnf as [[_ ->]|(_ & _ & ->)]; [done|]. split; [by apply zero_flags_clear_fua|].
    by apply has_clear_other. }
  destruct Hfl' as [Hzf Hff]. assert (Hze : forall r e, zero_err flags r e = zero_err fl r e)
    by (intros r e; unfold zero_err; by rewrite Hff). rewrite <- Hff in Hal.
  assert (Hwf : offs mod m <> 0 \/ count mod m <> 0 -> write_flags k (clear fl NBDKIT_FLAG_MAY_TRIM)).
  { intros Hor. apply zero_write_flags; [done|]. destruct (has fl NBDKIT_FLAG_FAST_ZERO); [|done].
    destruct Hal; [done|]. destruct Hor; done. }
  assert (Hfua : has (clear fl NBDKIT_FLAG_MAY_TRIM) NBDKIT_FLAG_FUA = has fl NBDKIT_FLAG_FUA)
    by (by apply has_clear_other).
  apply wp_bind. eapply wp_mono; [apply wp_zero_head; try done; [apply Hsd0|auto]|]. rewrite Hfua.
  intros [[[r1 e1] c1] o1] s1 (keep & Hw1 & Hp1). eapply wrote_same_l in Hw1; [|exact Hsd0].
  destruct (Z.eqb_spec r1 (-1)) as [-> |Hr1].
  { apply wp_ret. rewrite decide_True in Hw1 by done. apply wrote_zero_err. by eapply wrote_error. }
  rewrite decide_False in Hw1 by done. destruct (Hp1 Hr1) as [Hah Hk0].
  destruct (Hah) as (Hk & Hc1 & Ho1 & Hd1).
  apply wp_bind. eapply wp_mono.
  { apply (wp_zero_body fl _ c1 o1 e1 s1); try lia; try done; try apply Hw1. intros Hge. apply Hd1. lia. }
  intros [[[r2 e2] c2] o2] s2 (Hw2 & Hp2). rewrite Ho1 in Hw2. destruct (Z.eqb_spec r2 (-1)) as [-> |Hr2].
  { apply wp_ret. rewrite decide_True in Hw2 by done. rewrite Hze. eapply wrote_error.
    replace count with (keep + c1) by lia. eapply wrote_app; [lia|lia|exact Hr1|exact Hw1|exact Hw2]. }
  rewrite decide_False, zero_err_ok in Hw2 by done. destruct (Hp2 Hr2) as (-> & ->).
  pose proof (Z.mod_pos_bound c1 m ltac:(lia)) as Hcb. pose proof (Z.mod_le c1 m ltac:(lia) ltac:(lia)) as Hcle.
  apply wp_bind. destruct (Z.eqb_spec (c1 mod m) 0) as [E|E]; cbn [negb].
  - apply wp_ret. apply (wp_finish_zero _ fl nf flags count offs 0 e2 s s2 Hnf).
    replace count with (keep + (c1 - c1 mod m)) by lia.
    eapply wrote_app; [lia|lia|exact Hr1|exact Hw1|by eapply wrote_result].
  - destruct (tail_block count offs c1 o1 keep) as (Ht0 & Htd & Hte & Htc); try done.
    assert (Hwf' : write_flags k (clear fl NBDKIT_FLAG_MAY_TRIM)).
    { apply Hwf. destruct (decide (offs mod m = 0)) as [E0|]; [|auto]. right.
      rewrite Hk0, Z.sub_0_r in Hc1 by done. congruence. }
    eapply wp_mono.
    { apply (wp_modify_block (fun _ => 0) (memset 0 (c1 mod m)) 0 (c1 mod m) _ _ e2 s2); try done; try lia;
        try apply Hw2. - rewrite length_memset. lia. - intros x Hx. by apply from_buffer_zero. }
    rewrite Hfua. intros [r3 e3] s3 Hw3. rewrite Z.add_0_r, Ho1 in Hw3.
    apply (wp_finish_zero _ fl nf flags count offs r3 e3 s s3 Hnf).
    eapply (wrote_three _ _ _ _ _ count offs keep (c1 - c1 mod m) (c1 mod m));
      [lia|lia|lia|lia|exact Hr1|exact Hr2|exact Hw1|exact Hw2|exact Hw3].
Qed.

(** ** Trimming and caching *)

Lemma wp_trim_body flags fuel : forall count offs err s,
  inv s -> errno_ok err -> 0 <= offs -> 0 <= count <= UINT32_MAX -> offs + count <= rsize ->
  (m | offs) -> (m | count) -> count <= Z.of_nat fuel -> write_flags k flags ->
  wp (trim_body fuel nx h count offs flags err) (fun '(r, err') s' =>
    trimmed count offs (has flags NBDKIT_FLAG_FUA) r err' s s') s.
Proof.
  destruct minblock_bounds as (Hm & _ & _). destruct rsize_bounds as [Hr _]. pose proof (ho_size h k Hh).
  pose proof (ho_maxlen h k Hh). pose proof (ho_maxlen_div h k Hh).
  induction fuel as [|fuel IH]; intros count offs err s Hi He Ho Hc Hle Hd Hcd Hf Hfl; cbn [trim_body];
    (destruct (Z.eqb_spec count 0) as [-> |Hne]; [apply wp_ret; by apply trimmed_nothing|]).
  { lia. }
  set (keep := Z.min (h_maxlen h) count).
  assert (Hkd : (m | keep)) by (subst keep; destruct (Z.min_spec (h_maxlen h) count) as [[_ ->]|[_ ->]]; done).
  assert (Hk : 0 < keep <= count) by (subst keep; lia). apply wp_bind. eapply wp_mono.
  { apply (dl_trim keep offs flags err s Hi He); [|done]. apply aligned_block; (done || lia). }
  intros [r1 e1] s1 Hw1. destruct (Z.eqb_spec r1 (-1)) as [-> |Hr1].
  { apply wp_ret. eapply trimmed_widen; [|exact Hw1]. unfold in_request. lia. }
  rewrite u32_small, u64_small by (limits; lia). eapply wp_mono.
  { apply (IH (count - keep) (offs + keep) e1 s1); try lia; try done; try apply Hw1.
    - by apply Z.divide_add_r. - by apply Z.divide_sub_r. }
  intros [r2 e2] s2 Hw2. replace count with (keep + (count - keep)) by lia.
  eapply trimmed_app; [lia|lia|exact Hr1|exact Hw1|exact Hw2].
Qed.

Lemma blocksize_trim_correct count offs flags err s :
  inv s -> errno_ok err -> aligned_range (blocksize_limits h k) count offs -> write_flags k flags ->
  wp (blocksize_trim nx h count offs flags err) (fun '(r, err') s' =>
    trimmed count offs (has flags NBDKIT_FLAG_FUA) r err' s s') s.
Proof.
  intros Hi He (Ho & Hc & Hle & _) Hfl. destruct minblock_bounds as (Hm & _ & _).
  destruct rsize_bounds as [Hr _]. pose proof (ho_size h k Hh).
  pose proof (Z.mod_pos_bound offs m ltac:(lia)) as Hob.
  unfold blocksize_trim. apply wp_bind. eapply wp_mono; [by apply wp_blocksize_fua|].
  intros [fl nf] s0 [Hsd0 Hnf]. rewrite land_minblock.
  assert (Hfl' : write_flags k fl) by (destruct Hnf as [[_ ->]|(_ & _ & ->)]; [done|by apply write_flags_clear]).
  set (keep := if negb (offs mod m =? 0) then Z.min (m - offs mod m) count else 0).
  assert (Hah : after_head count offs (count - keep) (offs + keep) keep).
  { subst keep. destruct (Z.eqb_spec (offs mod m) 0) as [E|E]; cbn [negb].
    - rewrite Z.sub_0_r, Z.add_0_r. apply after_head_aligned; (done || lia).
    - apply after_head_unaligned. lia. }
  destruct Hah as (Hk & _ & _ & Hd). rewrite u64_small, u32_small by (limits; lia).
  pose proof (Z.mod_pos_bound (count - keep) m ltac:(lia)).
  pose proof (Z.mod_le (count - keep) m ltac:(lia) ltac:(lia)).
  apply wp_bind, wp_ROUND_DOWN32; [lia|]. apply wp_bind. eapply (wp_mono _ (fun '(r, err') s' =>
    trimmed count offs (has fl NBDKIT_FLAG_FUA) r err' s s')).
  { set (c := count - keep - (count - keep) mod m) in *. destruct (decide (c = 0)) as [-> |Hc0].
    - apply wp_ret. eapply trimmed_same_l; [exact Hsd0|]. eapply (trimmed_widen _ _ _ _ 0 offs);
        [unfold in_request; lia|]. by apply trimmed_nothing; [apply Hsd0| |].
    - eapply wp_mono.
      { apply (wp_trim_body fl); try done; try lia; [apply Hsd0|apply Hd; lia|apply divide_sub_mod; lia]. }
      intros [r e] s1 Hw. eapply trimmed_same_l; [exact Hsd0|]. eapply trimmed_widen; [|exact Hw].
      unfold in_request. lia. }
  intros [r1 e1] s1 Hw1. destruct (Z.eqb_spec r1 (-1)) as [-> |Hr1].
  { apply wp_ret. destruct Hw1 as (Hu & He1 & _). split; [done|]. split; [done|by intros []]. }
  destruct Hnf as [[-> ->]|(-> & Hf & ->)].
  - apply wp_ret. destruct Hw1 as (Hu & [He1 _] & Hw1). split; [done|]. split; [split; [done|lia]|]. auto.
  - eapply wp_mono; [apply dl_flush; apply Hw1|]. intros [r2 e2] s3 (Hsd & He2 & Hall). rewrite Hf.
    by eapply trimmed_flushed.
Qed.

Lemma wp_cache_body fuel : forall remaining offs err s,
  inv s -> errno_ok err -> 0 <= offs -> 0 <= remaining -> offs + remaining <= rsize ->
  (m | offs) -> (m | remaining) -> remaining <= Z.of_nat fuel ->
  wp (cache_body fuel nx h remaining offs 0 err) (fun '(r, err') s' =>
    same s s' /\ fails_errno r err') s.
Proof.
  destruct minblock_bounds as (Hm & _ & _). destruct rsize_bounds as [Hr _]. pose proof (ho_size h k Hh).
  pose proof (ho_maxdata h k Hh). pose proof (ho_maxdata_div h k Hh).
  induction fuel as [|fuel IH]; intros remaining offs err s Hi He Ho Hc Hle Hd Hcd Hf; cbn [cache_body];
    (destruct (Z.eqb_spec remaining 0) as [-> |Hne];
      [apply wp_ret; split; [by apply unchanged_refl|]; split; [done|lia]|]).
  { lia. }
  set (limit := Z.min (h_maxdata h) remaining).
  assert (Hkd : (m | limit)) by (subst limit; destruct (Z.min_spec (h_maxdata h) remaining) as [[_ ->]|[_ ->]]; done).
  assert (Hk : 0 < limit <= remaining) by (subst limit; lia). apply wp_bind. eapply wp_mono.
  { apply (dl_cache limit offs err s Hi He).
    - apply aligned_block; (done || subst limit; lia).
    - pose proof (ho_maximum h k Hh). subst limit. lia. }
  intros [r1 e1] s1 [Hsd1 He1]. destruct (Z.eqb_spec r1 (-1)) as [-> |Hr1]; [by apply wp_ret|].
  rewrite !u64_small by (limits; lia). eapply wp_mono.
  { apply (IH (remaining - limit) (offs + limit) e1 s1); try lia; try apply Hsd1; try apply He1.
    - by apply Z.divide_add_r. - by apply Z.divide_sub_r. }
  intros [r2 e2] s2 [Hsd2 He2]. split; [by eapply same_disk_trans|done].
Qed.

Lemma blocksize_cache_correct count offs err s :
  inv s -> errno_ok err -> aligned_range (blocksize_limits h k) count offs ->
  wp (blocksize_cache nx h count offs 0 err) (fun '(r, err') s' => same s s' /\ fails_errno r err') s.
Proof.
  intros Hi He (Ho & Hc & Hle & _). destruct minblock_bounds as (Hm & Hp2 & _).
  destruct rsize_bounds as [Hr Hrd]. pose proof (ho_size h k Hh).
  pose proof (Z.mod_pos_bound offs m ltac:(lia)) as Hob. pose proof (Z.mod_le offs m ltac:(lia) ltac:(lia)).
  unfold blocksize_cache. rewrite land_minblock. unfold BLOCKSIZE_MIN_LIMIT in Hm.
  rewrite !u64_small by (limits; lia). unfold ROUND_UP64.
  apply wp_bind, wp_bind, wp_assert. split; [done|]. apply wp_ret.
  rewrite u64_small by (limits; lia). set (n := count + offs mod m + m - 1).
  assert (Hup : Z.land n (u64 (- m)) = n - n mod m).
  { destruct (ho_pow h k Hh) as (e & Hen & E). replace (u64 (- m)) with (u64 (- 2 ^ e)) by (by rewrite E).
    rewrite land_neg_pow2; [by rewrite E|lia|]. subst n. limits. lia. }
  rewrite Hup. pose proof (Z.mod_pos_bound n m ltac:(lia)).
  assert (Hod : (m | offs - offs mod m)) by (apply divide_sub_mod; lia).
  assert (Hnd : (m | n - n mod m)) by (apply divide_sub_mod; lia).
  apply wp_cache_body; try done; try lia.
  assert (offs - offs mod m + (n - n mod m) < rsize + m) by (subst n; lia).
  assert (offs - offs mod m + (n - n mod m) + m <= rsize + m); [|lia].
  apply divide_next; [lia|by apply Z.divide_add_r|apply Z.divide_add_r; [done|apply Z.divide_refl]|done].
Qed.

Lemma blocksize_get_size_correct s :
  inv s -> wp (blocksize_get_size nx h) (fun r s' =>
    (r = l_size (blocksize_limits h k) \/ r = -1) /\ same s s') s.
Proof.
  intros Hi. unfold blocksize_get_size. apply wp_bind. eapply wp_mono; [by apply dl_get_size|].
  intros r s' [Hr Hsd]. destruct (Z.eqb_spec r (-1)) as [-> |Hne]; [apply wp_ret; auto|].
  apply wp_bind, wp_assert. split; [apply minblock_bounds|]. apply wp_ret. split; [|done]. left.
  destruct Hr as [-> |]; [|done]. pose proof (ho_size h k Hh). simpl.
  destruct (ho_pow h k Hh) as (n & Hn & ->). apply land_neg_pow2_signed; lia.
Qed.

Lemma blocksize_layer b :
  DiskLayer inv disk settled (blocksize_next b nx h) (blocksize_limits h k).
Proof.
  split; [split|..]; simpl.
  - intros count offset err s Hi He Hr _. by apply blocksize_pread_correct.
  - intros count offset err s Hi He Hr _. by apply blocksize_cache_correct.
  - intros s Hi. by apply dl_can_cache.
  - intros s Hi. by apply blocksize_get_size_correct.
  - intros buf count offset flags err s Hi He Hr _ Hfl Hlen.
    eapply wp_mono; [by apply blocksize_pwrite_correct|]. intros [r e] s' Hw.
    eapply wrote_ext; [|exact Hw]. intros x Hx. symmetry. apply overwrite_from_buffer.
    rewrite Hlen. unfold in_request in *. lia.
  - intros count offset flags err s Hi He Hr Hfl. by apply blocksize_zero_correct.
  - intros count offset flags err s Hi He Hr Hfl. by apply blocksize_trim_correct.
  - intros err s Hi He. by apply dl_flush.
  - intros s Hi. by apply dl_can_fua.
  - intros s Hi. by apply dl_can_fast_zero.
Qed.

(** C12: The blocksize filter makes a disk without constraints out of one
    with block size constraints: if the next layer handles aligned requests
    up to its maximum, then the filter's operations handle every request
    inside the disk (rounded down to whole blocks), whatever its alignment
    and size.  Reads return the bytes of the disk; writes and zeroes change
    exactly the requested bytes, also when they fail half-way; trims touch
    nothing outside of the request; a write with FUA is in stable storage
    when it succeeds; no loop runs forever and the bounce buffer is never
    overrun.  The sizes of the handle are those that [blocksize_prepare]
    settles on when they are at least a block ([handle_ok]). *)
Theorem blocksize_presents_disk b :
  DiskLayer inv disk settled (blocksize_next b nx h) (blocksize_limits h k).
Proof. apply blocksize_layer. Qed.
End Correct.

(** ** Preparing the handle *)

(** Positive multiples of a block. *)
Lemma round_down_ok n v : 0 <= n <= 16 -> 2 ^ n <= v <= UINT32_MAX ->
  0 < v - v mod 2 ^ n <= v /\ (2 ^ n | v - v mod 2 ^ n).
Proof.
  intros Hn Hv. pose proof (Z.pow_pos_nonneg 2 n ltac:(lia) ltac:(lia)).
  pose proof (Z.mod_pos_bound v (2 ^ n) ltac:(lia)). split; [|apply divide_sub_mod; lia].
  assert (v - v mod 2 ^ n <> 0); [|lia]. intros E.
  assert (v = v mod 2 ^ n) by lia. lia.
Qed.

(** The handle that [blocksize_prepare] makes suits the layer below if
    [maxdata] and [maxlen] are at least a block, after clamping. *)
Lemma blocksize_prepare_ok {W} (nx : nbdkit_next W) h k minimum preferred n (s : st W) :
  n_block_size nx s = Ok (0, (minimum, preferred, l_maximum k), s) ->
  0 <= n <= 16 -> Z.max (Z.max (h_minblock h) 1) minimum = 2 ^ n -> (l_minimum k | 2 ^ n) ->
  0 <= l_size k <= INT64_MAX ->
  2 ^ n <= l_maximum k <= UINT32_MAX ->
  (h_maxdata h = 0 \/ 2 ^ n <= h_maxdata h <= UINT32_MAX) ->
  (h_maxlen h = 0 \/ 2 ^ n <= h_maxlen h <= UINT32_MAX) ->
  wp (blocksize_prepare nx h) (fun '(r, h') s' => r = 0 /\ s' = s /\ handle_ok h' k) s.
Proof.
  intros Hbs Hn Hm Hdiv Hsize Hmax Hd Hl.
  pose proof (Z.pow_pos_nonneg 2 n ltac:(lia) ltac:(lia)) as Hpos.
  pose proof (Z.pow_le_mono_r 2 n 16 ltac:(lia) ltac:(lia)) as H16. change (2 ^ 16) with 65536 in H16.
  unfold blocksize_prepare. apply wp_bind. eapply wp_intro; [exact Hbs|].
  change (0 =? -1) with false. cbv iota. rewrite Hm. rewrite (proj2 (Z.eqb_neq (l_maximum k) 0)) by lia.
  cbn [negb]. set (md := Z.min (if h_maxdata h =? 0 then _ else h_maxdata h) (l_maximum k)).
  assert (Hmd : 2 ^ n <= md <= UINT32_MAX /\ md <= l_maximum k).
  { subst md. destruct (Z.eqb_spec (h_maxdata h) 0); [|lia].
    destruct (Z.eqb_spec (h_maxlen h) 0); simpl; limits; lia. }
  unfold ROUND_DOWN32. do 2 apply wp_bind. apply wp_assert.
  split; [apply is_power_of_2_pow; lia|]. apply wp_ret. rewrite land_neg_pow2_32 by lia.
  destruct (round_down_ok n md) as [Hmd1 Hmd2]; [lia..|].
  assert (Hend : forall ml, 0 < ml <= UINT32_MAX -> (2 ^ n | ml) ->
    handle_ok (BlocksizeHandle (2 ^ n) (md - md mod 2 ^ n) ml) k).
  { intros ml Hml Hmld. split; simpl; try done; try lia. eauto. }
  apply wp_bind. destruct (Z.eqb_spec (h_maxlen h) 0).
  - do 2 apply wp_ret. split; [done|]. split; [done|].
    assert (Hneg : u32 (- 2 ^ n) = 4294967296 - 2 ^ n).
    { unfold u32. rewrite <- (Z_mod_plus_full (- 2 ^ n) 1). rewrite Z.mod_small; lia. }
    rewrite Hneg. apply Hend; [limits; lia|]. apply Z.divide_sub_r; [|apply Z.divide_refl].
    change 4294967296 with (2 ^ 32). exists (2 ^ (32 - n)). rewrite <- Z.pow_add_r by lia. f_equal. lia.
  - apply wp_bind, wp_assert. split; [apply is_power_of_2_pow; lia|]. do 2 apply wp_ret.
    split; [done|]. split; [done|]. rewrite land_neg_pow2_32 by lia.
    destruct (round_down_ok n (h_maxlen h)) as [H1 H2]; [lia..|]. apply Hend; [lia|done].
Qed.

(** When it is smaller, [maxdata] is rounded down to 0, and a read makes
    requests of no bytes. *)
Lemma blocksize_maxdata_zero {W} (nx : nbdkit_next W) h count offs flags err (s : st W) :
  h_maxdata h = 0 -> h_minblock h = 4096 -> 4096 <= count <= UINT32_MAX -> offs mod 4096 = 0 ->
  n_pread nx 0 offs flags err s = Crash AssertFailed ->
  blocksize_pread nx h count offs flags err s = Crash AssertFailed.
Proof.
  intros Hd Hm Hc Ho Hcrash. unfold blocksize_pread, pread_head. rewrite Hm.
  change (4096 - 1) with (2 ^ 12 - 1). rewrite land_pred_pow2 by lia. change (2 ^ 12) with 4096. rewrite Ho.
  unfold_m. simpl. destruct (Z.to_nat count) as [|fuel] eqn:E; [lia|]. cbn [pread_body].
  rewrite Hm, (proj2 (Z.leb_le 4096 count)), Hd by lia. unfold ROUND_DOWN32. unfold_m.
  change (is_power_of_2 4096) with true. cbv iota.
  replace (Z.land count (u32 (- (4096)))) with (count - count mod 2 ^ 12)
    by (symmetry; apply (land_neg_pow2_32 count 12); lia).
  pose proof (Z.mod_le count (2 ^ 12) ltac:(lia) ltac:(lia)).
  unfold mret, M_ret. cbv iota beta. rewrite Z.min_l by lia. by rewrite Hcrash.
Qed.

Lemma blocksize_presents_disk_witness :
  DiskLayer (fun _ => True) s_world (fun _ _ => True)
    (blocksize_next (ram_backend 10000) (flat_next 10000) (BlocksizeHandle 4096 8192 4294963200))
    (LayerLimits (10000 - 10000 mod 4096) 1 UINT32_MAX NBDKIT_FUA_NATIVE true).
Proof.
  apply (blocksize_presents_disk (fun _ => True) s_world (fun _ _ => True) (flat_next 10000)
           (LayerLimits 10000 512 1048576 NBDKIT_FUA_NATIVE true) (BlocksizeHandle 4096 8192 4294963200)).
  split; simpl; try (limits; lia).
  - exists 12. done.
  - by exists 8.
  - by exists 2.
  - by exists 1048575.
Defined.

(** Three bytes across the border of two blocks. *)
Example blocksize_example :
  match blocksize_pwrite (flat_next 8192) (BlocksizeHandle 4096 8192 4294963200) [1; 2; 3] 3 4095 0 0
          (witness_state (fun _ => 9)) with
  | Ok (r, e, s) => (r, slice (s_world s) 4094 5) = (0, [9; 1; 2; 3; 9])
  | Crash _ => False
  end.
Proof. vm_compute. reflexivity. Qed.

(** ** Extents of very large requests *)

(** A client can abort a server that uses the blocksize filter: the
    length of a block status request is rounded up at 32 bits, so a length
    within a block of 4G becomes 0, and the assertion of [backend_extents]
    that requests are not empty fails. *)
Lemma blocksize_extents_aborts {W} (b : backend W) h n count offset flags exts err (s : st W) c c' cs :
  s_ctx s = c :: c' :: cs -> primed c' ->
  h_minblock h = 2 ^ n -> 1 <= n <= 16 -> h_maxlen h <= UINT32_MAX ->
  4294967296 - h_minblock h < count <= UINT32_MAX -> 0 <= offset -> offset + count <= INT64_MAX - 65536 ->
  0 <= h_maxlen h ->
  blocksize_extents b h count offset flags exts err s = Crash AssertFailed.
Proof.
  intros Hs Hp Hm Hn Hml Hc Ho Hend Hml0.
  pose proof (Z.pow_pos_nonneg 2 n ltac:(lia) ltac:(lia)) as Hpos.
  pose proof (Z.pow_le_mono_r 2 n 16 ltac:(lia) ltac:(lia)) as H16. change (2 ^ 16) with 65536 in H16.
  unfold blocksize_extents. rewrite Hm in *. pose proof (is_power_of_2_pow n ltac:(lia)) as Hp2.
  assert (Hrd : forall x, 0 <= x <= UINT64_MAX -> ROUND_DOWN (W:=W) x (2 ^ n) s = Ok (x - x mod 2 ^ n, s)).
  { intros x Hx. unfold ROUND_DOWN. unfold_m. rewrite Hp2. by rewrite land_neg_pow2 by lia. }
  rewrite (bind_run _ _ _ _ _ (Hrd offset ltac:(limits; lia))). unfold ROUND_UP64.
  rewrite (u64_small (offset + count)) by (limits; lia). set (e := offset + count + 2 ^ n - 1).
  assert (Hru : (cassert (is_power_of_2 (2 ^ n));; mret (Z.land (u64 e) (u64 (- 2 ^ n))) : M W Z) s =
    Ok (e - e mod 2 ^ n, s)).
  { unfold_m. rewrite Hp2. subst e. rewrite (u64_small (offset + count + 2 ^ n - 1)) by (limits; lia).
    by rewrite land_neg_pow2 by (limits; lia). }
  rewrite (bind_run _ _ _ _ _ Hru). pose proof (Z.mod_pos_bound e (2 ^ n) ltac:(lia)).
  pose proof (Z.mod_pos_bound offset (2 ^ n) ltac:(lia)).
  pose proof (Z.mod_le offset (2 ^ n) ltac:(lia) ltac:(lia)).
  rewrite extents_new_ok by (subst e; limits; lia).
  assert (Hzero : ROUND_UP32 (W:=W) count (2 ^ n) s = Ok (0, s)).
  { unfold ROUND_UP32. unfold_m. rewrite Hp2. do 2 f_equal.
    assert (Hu : u32 (count + 2 ^ n - 1) = count + 2 ^ n - 1 - 4294967296).
    { unfold u32. rewrite <- (Z_mod_plus_full _ (-1)). rewrite Z.mod_small; limits; lia. }
    rewrite Hu, land_neg_pow2_32 by (limits; lia). rewrite Z.mod_small by (limits; lia). f_equal. lia. }
  rewrite (bind_run _ _ _ _ _ Hzero). rewrite Z.min_l by lia.
  set (start := offset - offset mod 2 ^ n) in *.
  assert (Hal : nbdkit_extents_aligned b 0 start flags (2 ^ n) (Extents [] start (e - e mod 2 ^ n) (-1)) err
    (set_ctx (c' :: cs) s) = Crash AssertFailed).
  { unfold nbdkit_extents_aligned, IS_ALIGNED. unfold_m. rewrite Hp2, Z.lor_0_l.
    rewrite land_pred_pow2 by lia.
    assert (start mod 2 ^ n = 0) as ->.
    { apply Z.mod_divide; [lia|]. subst start. apply divide_sub_mod. lia. }
    simpl. unfold backend_extents. unfold_m.
    rewrite (check_connected_primed (set_ctx (c' :: cs) s) c' cs eq_refl Hp).
    pose proof (pr_can_extents _ Hp). rewrite (proj2 (Z.leb_le 0 _)) by lia. unfold mret, M_ret. cbv iota beta.
    rewrite (valid_range_primed (set_ctx (c' :: cs) s) c' cs _ _ eq_refl Hp).
    unfold valid_range. by rewrite (proj2 (Z.ltb_ge 0 0)). }
  unfold mbind, M_bind, on_next. rewrite Hs, Hal. done.
Qed.

Lemma blocksize_extents_aborts_witness :
  blocksize_extents (ram_backend 1048576) (BlocksizeHandle 512 1048576 4294966784) UINT32_MAX 0 0
    (Extents [] 0 UINT32_MAX (-1)) 0
    (set_ctx [witness_context; witness_context] (witness_state (fun _ => 0))) = Crash AssertFailed.
Proof.
  apply (blocksize_extents_aborts _ _ 9 _ _ _ _ _ _ witness_context witness_context []);
    try done; simpl; limits; try lia. apply witness_primed.
Defined.
