(* ===== verification/Offset.v ===== *)
(** * The offset filter

    Models [filters/offset/offset.c], which serves a part of the disk below.
    The filter's layer is the window of the disk that starts at [o_offset]:
    [windowed d o] below, in which every request is shifted. *)

From S2P Require Import Prelude NbdProtocol Extents Exports Server Connections Backend Plugin Filter Bytes Parse Layer ExtentsQuery.

(** The settings [offset] and [range]. *)
Record offset_config_state : Type := OffsetConfig {
  o_offset : Z;
  o_range : Z;
}.

Definition offset_defaults : offset_config_state := OffsetConfig 0 (-1).

Inductive offset_key : Type := offset_offset | offset_range | offset_other.

(** 0 or -1 and the settings; any other key is passed on ([None]).  A value
    that does not parse is stored all the same. *)
Definition offset_config (g : offset_config_state) (key : offset_key) (value : list Z)
    : option (Z * offset_config_state) :=
  match key with
  | offset_offset =>
      let v := nbdkit_parse_size value in
      Some (if v =? -1 then -1 else 0, OffsetConfig v (o_range g))
  | offset_range =>
      let v := nbdkit_parse_size value in
      Some (if v =? -1 then -1 else 0, OffsetConfig (o_offset g) v)
  | offset_other => None
  end.

(** The loop of [offset_extents] that adds the answer, shifted back. *)
Fixpoint offset_add_extents (offset : Z) (l : list nbdkit_extent) (extents : nbdkit_extents) (err : Z)
    : Z * Z * nbdkit_extents :=
  match l with
  | [] => (0, err, extents)
  | e :: l =>
      match nbdkit_add_extent extents (u64 (e_offset e - offset)) (e_length e) (e_type e) with
      | (Some errno, extents) => (-1, errno, extents)
      | (None, extents) => offset_add_extents offset l extents err
      end
  end.

Section Offset.
Context {W : Type}.
Implicit Types (nx : nbdkit_next W) (g : offset_config_state).

Definition offset_get_size nx g : M W Z :=
  real_size ← n_get_size nx;
  if real_size =? -1 then mret (-1)
  else if 0 <=? o_range g then
    if i64 (real_size - o_range g) <? o_offset g then mret (-1) else mret (o_range g)
  else if real_size <? o_offset g then mret (-1)
  else mret (real_size - o_offset g).

Definition offset_pread nx g (count offs flags err : Z) : M W (Z * Z * list Z) :=
  n_pread nx count (u64 (offs + o_offset g)) flags err.

Definition offset_pwrite nx g (buf : list Z) (count offs flags err : Z) : M W (Z * Z) :=
  n_pwrite nx buf count (u64 (offs + o_offset g)) flags err.

Definition offset_trim nx g (count offs flags err : Z) : M W (Z * Z) :=
  n_trim nx count (u64 (offs + o_offset g)) flags err.

Definition offset_zero nx g (count offs flags err : Z) : M W (Z * Z) :=
  n_zero nx count (u64 (offs + o_offset g)) flags err.

Definition offset_cache nx g (count offs flags err : Z) : M W (Z * Z) :=
  n_cache nx count (u64 (offs + o_offset g)) flags err.

Definition offset_extents nx g (count offs flags : Z) (extents : nbdkit_extents) (err : Z)
    : M W (Z * Z * nbdkit_extents) :=
  end_ ← (if 0 <=? o_range g then mret (o_offset g + o_range g) else n_get_size nx);
  match nbdkit_extents_new (u64 (offs + o_offset g)) (u64 end_) with
  | inl errno => mret (-1, errno, extents)
  | inr extents2 =>
      '(r, err, extents2) ← n_extents nx count (u64 (offs + o_offset g)) flags extents2 err;
      if r =? -1 then mret (-1, err, extents)
      else mret (offset_add_extents (o_offset g) (x_extents extents2) extents err)
  end.

(** The filter's operations; the others are the next layer's. *)
Definition offset_next nx g : nbdkit_next W :=
  NextOps (n_prepare nx) (n_finalize nx) (n_export_description nx) (offset_get_size nx g)
    (n_block_size nx) (n_can_write nx) (n_can_flush nx) (n_is_rotational nx) (n_can_trim nx)
    (n_can_zero nx) (n_can_fast_zero nx) (n_can_extents nx) (n_can_fua nx) (n_can_multi_conn nx)
    (n_can_cache nx) (offset_pread nx g) (offset_pwrite nx g) (n_flush nx) (offset_trim nx g)
    (offset_zero nx g) (offset_extents nx g) (offset_cache nx g).
End Offset.

(** ** Windows *)

Definition windowed {A} (d : Z -> A) (o : Z) : Z -> A := fun x => d (x + o).

Lemma slice_windowed d o offset count : slice (windowed d o) offset count = slice d (offset + o) count.
Proof.
  unfold slice, windowed. rewrite (Z.add_comm offset o), <- (fmap_add_seqZ o), <- list_fmap_compose.
  apply list_fmap_ext. intros i x _. simpl. f_equal. lia.
Qed.

Lemma overwrite_windowed d buf o offset x :
  overwrite d buf (offset + o) (x + o) = overwrite (windowed d o) buf offset x.
Proof. unfold overwrite, windowed. repeat case_decide; try lia. f_equal. lia. Qed.

Definition window_limits g (k : layer_limits) : layer_limits :=
  LayerLimits (if 0 <=? o_range g then o_range g else l_size k - o_offset g)
    (l_minimum k) (l_maximum k) (l_can_fua k) (l_can_fast_zero k).

(** Settings that suit the disk below. *)
Record window_ok g (k : layer_limits) : Prop := WindowOk {
  wo_size : 0 <= l_size k <= INT64_MAX;
  wo_offset : 0 <= o_offset g <= l_size k;
  wo_range : -1 <= o_range g;
  wo_fits : o_offset g + o_range g <= l_size k;
  wo_minimum : (l_minimum k | o_offset g);
}.

Section Correct.
Context {W : Type} (inv : st W -> Prop) (disk : st W -> Z -> Z) (settled : st W -> Z -> Prop).
Context (nx : nbdkit_next W) (k : layer_limits).
Context (g : offset_config_state) (Hg : window_ok g k).

Notation o := (o_offset g).
Notation wdisk := (fun s => windowed (disk s) o).
Notation wsettled := (fun s => windowed (settled s) o).

Lemma window_size : 0 <= l_size (window_limits g k) /\ o + l_size (window_limits g k) <= l_size k.
Proof.
  pose proof (wo_offset _ _ Hg). pose proof (wo_fits _ _ Hg). simpl. destruct (Z.leb_spec 0 (o_range g)); lia.
Qed.

Lemma window_range count offs : aligned_range (window_limits g k) count offs ->
  u64 (offs + o) = offs + o /\ aligned_range k count (offs + o).
Proof.
  intros (Ho & Hc & Hle & Hd & Hcd). destruct window_size. pose proof (wo_size _ _ Hg). pose proof (wo_offset _ _ Hg).
  split; [apply u64_small; limits; lia|]. repeat split; try done; try lia.
  apply Z.divide_add_r; [done|apply Hg].
Qed.

Lemma unchanged_windowed (P P' : Z -> Prop) s s' :
  (forall x, P x -> P' (x + o)) ->
  unchanged inv disk settled P' s s' -> unchanged inv wdisk wsettled P s s'.
Proof. intros HP [Hi Hu]. split; [done|]. intros x Hx. apply Hu. auto. Qed.

Lemma wrote_windowed (D D' : Z -> Z) count offs fua r err s s' :
  (forall x, D (x + o) = D' x) ->
  wrote inv disk settled D count (offs + o) fua r err s s' ->
  wrote inv wdisk wsettled D' count offs fua r err s s'.
Proof.
  intros HD (Hu & He & Hw). split; [|split; [done|]].
  - eapply unchanged_windowed; [|exact Hu]. simpl. intros x Hx Hin. rewrite HD. apply Hx.
    unfold in_request in *. lia.
  - intros Hr x Hx. rewrite <- HD. apply Hw; [done|]. unfold in_request in *. lia.
Qed.

Lemma offset_read_layer `{!ReadLayer inv disk settled nx k} :
  ReadLayer inv wdisk wsettled (offset_next nx g) (window_limits g k).
Proof.
  assert (Hsame : forall s s', same_disk inv disk settled s s' -> same_disk inv wdisk wsettled s s')
    by (intros s s'; by apply unchanged_windowed).
    split; simpl.
  - intros count offs err s Hi He Hr Hmax. destruct (window_range _ _ Hr) as [E Hr'].
    unfold offset_pread. rewrite E. eapply wp_mono; [by apply dl_pread|].
    intros [[r e] buf] s' (Hsd & He' & Hb). rewrite slice_windowed. auto.
  - intros count offs err s Hi He Hr Hmax. destruct (window_range _ _ Hr) as [E Hr'].
    unfold offset_cache. rewrite E. eapply wp_mono; [by apply dl_cache|]. intros [r e] s' [Hsd He']. auto.
  - intros s Hi. eapply wp_mono; [by apply dl_can_cache|]. intros r s' [Hr Hsd]. auto.
  - intros s Hi. unfold offset_get_size. apply wp_bind. eapply wp_mono; [by apply dl_get_size|].
    intros r s' [Hr Hsd]. destruct (Z.eqb_spec r (-1)) as [-> |Hne]; [apply wp_ret; auto|].
    destruct Hr as [-> |]; [|done]. pose proof (wo_size _ _ Hg). pose proof (wo_offset _ _ Hg).
    pose proof (wo_fits _ _ Hg). destruct (Z.leb_spec 0 (o_range g)).
    + rewrite i64_small, (proj2 (Z.ltb_ge _ _)) by lia. apply wp_ret. auto.
    + rewrite (proj2 (Z.ltb_ge _ _)) by lia. apply wp_ret. auto.
Qed.

Lemma offset_layer `{!DiskLayer inv disk settled nx k} :
  DiskLayer inv wdisk wsettled (offset_next nx g) (window_limits g k).
Proof.
  assert (Hsame : forall s s', same_disk inv disk settled s s' -> same_disk inv wdisk wsettled s s')
    by (intros s s'; by apply unchanged_windowed).
    split; simpl; [apply offset_read_layer; apply _|..].
  - intros buf count offs flags err s Hi He Hr Hmax Hfl Hlen. destruct (window_range _ _ Hr) as [E Hr'].
    unfold offset_pwrite. rewrite E. eapply wp_mono; [by apply dl_pwrite|].
    intros [r e] s' Hw. eapply wrote_windowed; [|exact Hw]. intros x. apply overwrite_windowed.
  - intros count offs flags err s Hi He Hr Hfl. destruct (window_range _ _ Hr) as [E Hr'].
    unfold offset_zero. rewrite E. eapply wp_mono; [by apply dl_zero|].
    intros [r e] s' Hw. by eapply wrote_windowed; [|exact Hw].
  - intros count offs flags err s Hi He Hr Hfl. destruct (window_range _ _ Hr) as [E Hr'].
    unfold offset_trim. rewrite E. eapply wp_mono; [by apply dl_trim|].
    intros [r e] s' (Hu & He' & Hw). split; [|split; [done|]].
    + eapply unchanged_windowed; [|exact Hu]. simpl. unfold in_request. lia.
    + intros Hr0 Hf x. by apply Hw.
  - intros err s Hi He. eapply wp_mono; [by apply dl_flush|]. intros [r e] s' (Hsd & He' & Hall).
    split; [auto|]. split; [done|]. intros Hr x. by apply Hall.
  - intros s Hi. eapply wp_mono; [by apply dl_can_fua|]. intros r s' [Hr Hsd]. auto.
  - intros s Hi. eapply wp_mono; [by apply dl_can_fast_zero|]. intros r s' [Hr Hsd]. auto.
Qed.

(** The offset filter presents exactly the window of the disk below that
    starts at [offset] and has the length [range] (or reaches to the end):
    reads return the bytes of the window, writes, zeroes and trims change
    the requested bytes of the window and nothing inside or outside of it
    besides, with the durability that the layer below promises. *)
Lemma offset_presents_window `{!DiskLayer inv disk settled nx k} :
  DiskLayer inv wdisk wsettled (offset_next nx g) (window_limits g k).
Proof. apply offset_layer. Qed.
End Correct.

(** Settings that do not fit the disk are refused. *)
Lemma offset_get_size_checked {W} (nx : nbdkit_next W) g real_size (s : st W) :
  n_get_size nx s = Ok (real_size, s) -> 0 <= real_size <= INT64_MAX -> 0 <= o_offset g -> -1 <= o_range g <= INT64_MAX ->
  offset_get_size nx g s = Ok (if decide (o_offset g + Z.max 0 (o_range g) <= real_size)
                               then if 0 <=? o_range g then o_range g else real_size - o_offset g else -1, s).
Proof.
  intros Hn Hs Ho Hr. unfold offset_get_size. rewrite (bind_run _ _ _ _ _ Hn).
  rewrite (proj2 (Z.eqb_neq real_size (-1))) by lia. destruct (Z.leb_spec 0 (o_range g)).
  - assert (E : i64 (real_size - o_range g) = real_size - o_range g).
    { destruct (decide (0 <= real_size - o_range g)); [apply i64_small; limits; lia|].
      unfold i64, u64. rewrite <- (Z_mod_plus_full _ 1), Z.mod_small by (limits; lia).
      rewrite (proj2 (Z.leb_gt _ _)) by (limits; lia). lia. }
    rewrite E. destruct (Z.ltb_spec (real_size - o_range g) (o_offset g)); case_decide; (done || lia).
  - destruct (Z.ltb_spec real_size (o_offset g)); case_decide; (done || lia).
Qed.

(** ** Extents *)

Definition shift_extent (o : Z) (e : nbdkit_extent) : nbdkit_extent :=
  Extent (e_offset e - o) (e_length e) (e_type e).

Lemma chain_shift o l : forall s, chain s l -> chain (s - o) (shift_extent o <$> l).
Proof.
  induction l as [|e l IH]; intros s; simpl; [done|]. intros (-> & Hl & Hch). split; [done|]. split; [done|].
  replace (s - o + e_length e) with (s + e_length e - o) by lia. by apply IH.
Qed.

Lemma chain_end_shift o l : forall s, chain_end (s - o) (shift_extent o <$> l) = chain_end s l - o.
Proof.
  induction l as [|e l IH]; intros s; simpl; [done|]. rewrite <- IH. f_equal. lia.
Qed.

Lemma type_at_shift o l x : type_at (shift_extent o <$> l) x = type_at l (x + o).
Proof.
  induction l as [|e l IH]; [done|]. rewrite fmap_cons. cbn [type_at]. rewrite IH. simpl.
  destruct (Z.leb_spec (e_offset e - o) x), (Z.leb_spec (e_offset e) (x + o)),
    (Z.ltb_spec x (e_offset e - o + e_length e)), (Z.ltb_spec (x + o) (e_offset e + e_length e)); (done || lia).
Qed.

(** Inside the 64-bit range the loop copies the shifted extents. *)
Lemma offset_add_extents_shift o l extents err : forall s,
  chain s l -> 0 <= o <= s -> chain_end s l <= INT64_MAX ->
  offset_add_extents o l extents err = add_extents (shift_extent o <$> l) extents err.
Proof.
  revert extents. induction l as [|e l IH]; intros extents s; [done|].
  intros (<- & Hl & Hch) Ho Hmax. pose proof (chain_end_le _ _ Hch). simpl in Hmax |- *.
  rewrite u64_small by (limits; lia).
  destruct (nbdkit_add_extent extents _ _ _) as [[errno|] exts']; [done|]. apply (IH _ _ Hch); lia.
Qed.

(** What the offset filter answers about the extents of a range is what
    the layer below answers about the shifted range: the answer is
    well-formed, it starts at the byte that was asked for, and every byte of
    the window has the type of the byte below. *)
Lemma offset_extents_correct {W} (nx : nbdkit_next W) g k count offs flags exts err (s s' : st W) err' exts2 :
  window_ok g k -> n_get_size nx s = Ok (l_size k, s) ->
  exts_wf exts -> x_extents exts = [] -> x_next exts = -1 -> x_start exts = offs ->
  offs < x_end exts <= l_size (window_limits g k) ->
  let end2 := o_offset g + l_size (window_limits g k) in
  n_extents nx count (offs + o_offset g) flags (Extents [] (offs + o_offset g) end2 (-1)) err s =
    Ok (0, err', exts2, s') ->
  extents_answer (Extents [] (offs + o_offset g) end2 (-1)) exts2 ->
  exists exts', offset_extents nx g count offs flags exts err s = Ok (0, err', exts', s') /\
    extents_answer exts exts' /\
    forall x, offs <= x < x_end exts -> type_at (x_extents exts') x = type_at (x_extents exts2) (x + o_offset g).
Proof.
  intros Hg Hsize Hwf Hnil Hn Hst Hend end2 Hnext (Hwf2 & Hs2 & He2 & Hne2). simpl in Hs2, He2.
  pose proof (wo_size _ _ Hg). pose proof (wo_offset _ _ Hg). pose proof (wo_fits _ _ Hg).
  pose proof (wf_start _ Hwf) as Hws. pose proof (window_size k g Hg) as Hwin.
  unfold offset_extents. rewrite u64_small by (limits; lia).
  assert (Hend2 : (if 0 <=? o_range g then mret (o_offset g + o_range g) else n_get_size nx) s = Ok (end2, s) \/
    (o_range g = -1 /\ (if 0 <=? o_range g then mret (o_offset g + o_range g) else n_get_size nx) s = Ok (l_size k, s))).
  { subst end2. simpl. destruct (Z.leb_spec 0 (o_range g)); [by left|right]. split; [|done].
    pose proof (wo_range _ _ Hg). lia. }
  assert (E : (if 0 <=? o_range g then mret (o_offset g + o_range g) else n_get_size nx) s = Ok (end2, s)).
  { destruct Hend2 as [?|[Hr ->]]; [done|]. subst end2. simpl. rewrite Hr. simpl. do 2 f_equal. lia. }
  rewrite (bind_run _ _ _ _ _ E). rewrite u64_small by (subst end2; limits; lia).
  rewrite extents_new_ok by (subst end2; limits; lia). rewrite (bind_run _ _ _ _ _ Hnext).
  change (0 =? -1) with false. cbv iota.
  pose proof (wf_chain _ Hwf2) as Hch2. destruct (wf_filled _ Hwf2 Hne2) as (_ & Hle2 & _). rewrite Hs2, He2 in *.
  rewrite (offset_add_extents_shift _ _ _ _ _ Hch2) by (subst end2; limits; lia).
  destruct (add_extents_copy (shift_extent (o_offset g) <$> x_extents exts2) exts err' offs)
    as (exts' & -> & Hwf' & Hs' & He' & Ht').
  - split; [done|]. split; [by left|]. intros _. by left.
  - lia.
  - replace offs with (offs + o_offset g - o_offset g) by lia. by apply chain_shift.
  - replace offs with (offs + o_offset g - o_offset g) at 1 by lia. rewrite chain_end_shift. subst end2. limits. lia.
  - rewrite length_fmap. pose proof (wf_count _ Hwf2). unfold nbdkit_extents_count in *. rewrite Hnil. simpl. lia.
  - exists exts'. split; [done|].
    assert (Hall : forall x, offs <= x < x_end exts -> type_at (x_extents exts') x = type_at (x_extents exts2) (x + o_offset g)).
    { intros x Hx. rewrite Ht', type_at_shift, Hnil.
      destruct (type_at _ _); [by rewrite decide_True by lia|done]. }
    split; [|done]. split; [done|]. split; [done|]. split; [done|]. intros Hnil'.
    specialize (Hall offs ltac:(lia)). rewrite Hnil' in Hall. simpl in Hall.
    pose proof (chain_end_lt _ _ Hch2 Hne2).
    assert (Hd : is_Some (type_at (x_extents exts2) (offs + o_offset g))) by (apply (chain_domain _ _ _ Hch2); lia).
    rewrite <- Hall in Hd. by destruct Hd.
Qed.

(** ** Concrete windows *)

Definition window_512 : offset_config_state := OffsetConfig 512 1024.

Lemma window_512_ok : window_ok window_512 (LayerLimits 8192 512 1048576 NBDKIT_FUA_NATIVE true).
Proof. split; simpl; [limits; lia|lia|lia|lia|by exists 1]. Qed.

Lemma offset_presents_window_witness :
  DiskLayer (fun _ => True) (fun s => windowed (s_world s) 512) (fun _ => windowed (fun _ => True) 512)
    (offset_next (flat_next 8192) window_512) (LayerLimits 1024 512 1048576 NBDKIT_FUA_NATIVE true).
Proof.
  apply (offset_presents_window (fun _ => True) s_world (fun _ _ => True) (flat_next 8192)
           (LayerLimits 8192 512 1048576 NBDKIT_FUA_NATIVE true) window_512 window_512_ok).
Defined.

(** A layer whose first 1024 bytes are data and whose other bytes are a hole. *)
Definition half_hole (size : Z) : nbdkit_next (Z -> Z) :=
  NextOps (mret 0) (mret 0) (mret None) (mret size) (mret (0, (0, 0, 0)))
    (mret 1) (mret 1) (mret 0) (mret 1) (mret NBDKIT_ZERO_NATIVE) (mret 1) (mret 1)
    (mret NBDKIT_FUA_NATIVE) (mret 1) (mret NBDKIT_CACHE_NATIVE)
    (fun count offset _ err => d ← gets s_world; mret (0, err, slice d offset count))
    (fun _ _ _ _ err => mret (0, err)) (fun _ err => mret (0, err)) (fun _ _ _ err => mret (0, err))
    (fun _ _ _ err => mret (0, err))
    (fun _ _ _ exts err => mret (add_extents [Extent 0 1024 0; Extent 1024 (size - 1024) 3] exts err))
    (fun _ _ _ err => mret (0, err)).

Lemma offset_extents_correct_witness :
  exists exts', offset_extents (half_hole 8192) window_512 100 200 0 (Extents [] 200 300 (-1)) 0
    (witness_state (fun _ => 0)) = Ok (0, 0, exts', witness_state (fun _ => 0)) /\
    extents_answer (Extents [] 200 300 (-1)) exts'.
Proof.
  destruct (offset_extents_correct (half_hole 8192) window_512 (LayerLimits 8192 512 1048576 NBDKIT_FUA_NATIVE true)
    100 200 0 (Extents [] 200 300 (-1)) 0 (witness_state (fun _ => 0)) (witness_state (fun _ => 0)) 0
    (Extents [Extent 712 312 0; Extent 1024 512 3] 712 1536 8192)) as (exts' & E & Ha & _).
  - exact window_512_ok.
  - reflexivity.
  - split; simpl; unfold nbdkit_extents_count, MAX_EXTENTS; simpl; limits; (done || lia).
  - reflexivity.
  - reflexivity.
  - reflexivity.
  - simpl. lia.
  - vm_compute. reflexivity.
  - split; [|done]. split; simpl; unfold nbdkit_extents_count, MAX_EXTENTS; simpl; limits; (done || lia).
  - exists exts'. split; [exact E|exact Ha].
Defined.
