(* ===== verification/Truncate.v ===== *)
(** * The truncate filter

    Models [filters/truncate/truncate.c], which makes the disk below smaller
    or larger: reads beyond the real end return zeroes, and only zeroes can be
    written there.  [malloc] is taken to succeed. *)

From S2P Require Import Prelude NbdProtocol Extents Exports Server Connections Backend Plugin Filter Protocol Bytes Parse Layer ExtentsQuery.

Definition UINT_MAX : Z := 4294967295.

(** The settings [truncate], [round-up] and [round-down]. *)
Record truncate_settings : Type := TruncateSettings {
  t_truncate_size : Z;
  t_round_up : Z;
  t_round_down : Z;
}.

Definition truncate_defaults : truncate_settings := TruncateSettings (-1) 0 0.

(** [struct handle] *)
Record truncate_handle : Type := TruncateHandle {
  h_real_size : Z;
  h_size : Z;
}.

Implicit Types (g : truncate_settings) (h : truncate_handle).

(** ** Configuration *)

(** -1 is [None]. *)
Definition parse_round_param (value : list Z) : option Z :=
  let r := nbdkit_parse_size value in
  if r =? -1 then None
  else if r =? 0 then None
  else if UINT_MAX <? r then None
  else if negb (is_power_of_2 (u32 r)) then None
  else Some (u32 r).

Inductive truncate_key : Type := truncate_truncate | truncate_round_up | truncate_round_down | truncate_other.

(** 0 or -1 and the settings; any other key is passed on ([None]). *)
Definition truncate_config g (key : truncate_key) (value : list Z) : option (Z * truncate_settings) :=
  match key with
  | truncate_truncate =>
      let v := nbdkit_parse_size value in
      Some (if v =? -1 then -1 else 0, TruncateSettings v (t_round_up g) (t_round_down g))
  | truncate_round_up =>
      Some match parse_round_param value with
           | Some u => (0, TruncateSettings (t_truncate_size g) u (t_round_down g))
           | None => (-1, g)
           end
  | truncate_round_down =>
      Some match parse_round_param value with
           | Some u => (0, TruncateSettings (t_truncate_size g) (t_round_up g) u)
           | None => (-1, g)
           end
  | truncate_other => None
  end.

Section Truncate.
Context {W : Type}.
Implicit Types (nx : nbdkit_next W).

(** NULL is [None]; the handle is filled by [truncate_prepare]. *)
Definition truncate_open (next : bool -> list Z -> M W Z) (readonly : bool) (exportname : list Z)
    : M W (option truncate_handle) :=
  r ← next readonly exportname;
  mret (if r =? -1 then None else Some (TruncateHandle 0 0)).

Definition truncate_prepare nx g h : M W (Z * truncate_handle) :=
  r ← n_get_size nx;
  if r =? -1 then mret (-1, h)
  else
    let size := if 0 <=? t_truncate_size g then t_truncate_size g else r in
    o ← (if 0 <? t_round_up g then
           up ← ROUND_UP64 size (t_round_up g);
           if INT64_MAX <? up then mret None
           else up ← ROUND_UP64 size (t_round_up g); mret (Some up)
         else mret (Some size));
    match o with
    | None => mret (-1, TruncateHandle r size)
    | Some size =>
        size ← (if 0 <? t_round_down g then ROUND_DOWN size (t_round_down g) else mret size);
        mret (if 0 <=? r then 0 else -1, TruncateHandle r size)
    end.

Definition truncate_get_size h : M W Z := mret (h_size h).

Definition truncate_can_extents nx : M W Z :=
  r ← n_can_extents nx;
  mret (if r =? -1 then -1 else 1).

Definition truncate_can_fast_zero nx : M W Z :=
  r ← n_can_fast_zero nx;
  mret (if r =? -1 then -1 else 1).

(** The part of a request that is inside the real disk. *)
Definition inside_real h (count offset : Z) : Z :=
  if u64 (offset + count) <=? h_real_size h then count else u32 (h_real_size h - offset).

Definition truncate_pread nx h (count offset flags err : Z) : M W (Z * Z * list Z) :=
  '(r, err, buf, count) ←
    (if offset <? h_real_size h then
       let n := inside_real h count offset in
       '(r, err, buf) ← n_pread nx n offset flags err;
       mret (r, err, buf, u32 (count - n))
     else mret (0, err, [], count));
  if r =? -1 then mret (-1, err, buf)
  else mret (0, err, buf ++ memset 0 count).

Definition truncate_pwrite nx h (buf : list Z) (count offset flags err : Z) : M W (Z * Z) :=
  '(r, err, buf, count) ←
    (if offset <? h_real_size h then
       let n := inside_real h count offset in
       '(r, err) ← n_pwrite nx (take (Z.to_nat n) buf) n offset flags err;
       mret (r, err, drop (Z.to_nat n) buf, u32 (count - n))
     else mret (0, err, buf, count));
  if r =? -1 then mret (-1, err)
  else if ((0 <? count) && negb (is_zero buf count))%bool then mret (-1, ENOSPC)
  else mret (0, err).

Definition truncate_trim nx h (count offset flags err : Z) : M W (Z * Z) :=
  if offset <? h_real_size h then n_trim nx (inside_real h count offset) offset flags err
  else mret (0, err).

Definition truncate_zero nx h (count offset flags err : Z) : M W (Z * Z) :=
  if offset <? h_real_size h then
    slow ← (if has flags NBDKIT_FLAG_FAST_ZERO then
              r ← n_can_fast_zero nx; mret (r =? 0)
            else mret false);
    if (slow : bool) then mret (-1, ENOTSUP)
    else n_zero nx (inside_real h count offset) offset flags err
  else mret (0, err).

Definition truncate_extents nx g h (count offset flags : Z) (extents : nbdkit_extents) (err : Z)
    : M W (Z * Z * nbdkit_extents) :=
  if h_real_size h <=? offset then
    match nbdkit_add_extent extents (h_real_size h) (u64 (t_truncate_size g - h_real_size h))
            (Z.lor NBDKIT_EXTENT_ZERO NBDKIT_EXTENT_HOLE) with
    | (Some errno, extents) => mret (-1, errno, extents)
    | (None, extents) => mret (0, err, extents)
    end
  else
    match nbdkit_extents_new offset (h_real_size h) with
    | inl errno => mret (-1, errno, extents)
    | inr extents2 =>
        '(r, err, extents2) ← n_extents nx (inside_real h count offset) offset flags extents2 err;
        if r =? -1 then mret (-1, err, extents)
        else mret (add_extents (x_extents extents2) extents err)
    end.

Definition truncate_cache nx h (count offset flags err : Z) : M W (Z * Z) :=
  if offset <? h_real_size h then
    '(r, err) ← n_cache nx (inside_real h count offset) offset flags err;
    mret (if r =? -1 then -1 else 0, err)
  else mret (0, err).

(** The filter's operations; the others are the next layer's. *)
Definition truncate_next nx g h : nbdkit_next W :=
  NextOps (n_prepare nx) (n_finalize nx) (n_export_description nx) (truncate_get_size h)
    (n_block_size nx) (n_can_write nx) (n_can_flush nx) (n_is_rotational nx) (n_can_trim nx)
    (n_can_zero nx) (truncate_can_fast_zero nx) (truncate_can_extents nx) (n_can_fua nx) (n_can_multi_conn nx)
    (n_can_cache nx) (truncate_pread nx h) (truncate_pwrite nx h) (n_flush nx) (truncate_trim nx h)
    (truncate_zero nx h) (truncate_extents nx g h) (truncate_cache nx h).
End Truncate.

(** ** The disk that the filter presents *)

(** [d] up to [real], zeroes after that. *)
Definition resized (real : Z) (d : Z -> Z) : Z -> Z := fun x => if decide (x < real) then d x else 0.
Definition resized_settled (real : Z) (p : Z -> Prop) : Z -> Prop := fun x => x < real -> p x.

Definition truncate_limits h (k : layer_limits) : layer_limits :=
  LayerLimits (h_size h) (l_minimum k) (l_maximum k) (l_can_fua k) true.

Record truncate_ok h (k : layer_limits) : Prop := TruncateOk {
  to_real : h_real_size h = l_size k;
  to_real_bounds : 0 <= h_real_size h <= INT64_MAX;
  to_size : 0 <= h_size h <= INT64_MAX;
  to_minimum : (l_minimum k | h_real_size h);
}.

Lemma resized_slice_in real d offset count :
  offset + count <= real -> slice (resized real d) offset count = slice d offset count.
Proof. intros H. apply slice_ext. intros x Hx. unfold resized. by rewrite decide_True by lia. Qed.

Lemma resized_slice_out real d offset count :
  real <= offset -> slice (resized real d) offset count = memset 0 count.
Proof. intros H. apply slice_const. intros x Hx. unfold resized. by rewrite decide_False by lia. Qed.

Section Correct.
Context {W : Type} (inv : st W -> Prop) (disk : st W -> Z -> Z) (settled : st W -> Z -> Prop).
Context (nx : nbdkit_next W) (k : layer_limits).
Context (h : truncate_handle) (Hh : truncate_ok h k).

Notation real := (h_real_size h).
Notation tdisk := (fun s => resized real (disk s)).
Notation tsettled := (fun s => resized_settled real (settled s)).
Notation wrote' := (wrote inv tdisk tsettled).

(** The part of a request in the real disk is a valid request to it. *)
Lemma inside_real_range count offs :
  aligned_range (truncate_limits h k) count offs -> offs < real ->
  let n := inside_real h count offs in
  n = Z.min count (real - offs) /\ 0 < n <= count /\ u32 (count - n) = count - n /\ aligned_range k n offs.
Proof.
  intros (Ho & Hc & Hle & Hd & Hcd) Hlt. simpl in Hle, Hd, Hcd. pose proof (to_real_bounds _ _ Hh).
  pose proof (to_size _ _ Hh). unfold inside_real. rewrite u64_small by (limits; lia).
  destruct (Z.leb_spec (offs + count) real); [|rewrite (u32_small (real - offs)) by (limits; lia)];
    (split; [lia|]; split; [lia|]; split; [apply u32_small; limits; lia|]); rewrite (to_real _ _ Hh) in *;
    repeat split; try done; try (limits; lia).
  apply Z.divide_sub_r; [|done]. rewrite <- (to_real _ _ Hh). apply Hh.
Qed.

Lemma same_resized s s' : same_disk inv disk settled s s' -> same_disk inv tdisk tsettled s s'.
Proof.
  intros [Hi Hu]. split; [done|]. intros x _. destruct (Hu x I) as [Hd Hs]. unfold resized, resized_settled.
  split; [by rewrite Hd|auto].
Qed.

(** A write to the real part as a part of a write: what was to be written
    after the end is zero if the write succeeds. *)
Lemma wrote_resized D n count offs fua r err s s' :
  n <= count -> (forall x, in_request count offs x -> x < real -> in_request n offs x) ->
  (r <> -1 -> forall x, in_request count offs x -> real <= x -> D x = 0) ->
  wrote inv disk settled D n offs fua r err s s' -> wrote' D count offs fua r err s s'.
Proof.
  intros Hn Hin Hz (Hu & He & Hw). split; [|split; [done|]].
  - destruct Hu as [Hi Hu]. split; [done|]. intros x Hx. unfold resized, resized_settled in *.
    destruct (decide (x < real)) as [Hlt|]; [|split; [done|]; intros; lia].
    destruct (Hu x) as [Hd Hs]; [|auto]. intros Hreq. apply Hx. unfold in_request in *. lia.
  - intros Hr x Hx. unfold resized, resized_settled. destruct (decide (x < real)).
    + destruct (Hw Hr x) as [Hd Hs]; auto.
    + split; [symmetry; apply Hz; [done..|lia]|]. intros _ Hlt. lia.
Qed.

(** A write outside of the real disk. *)
Lemma wrote_beyond D count offs fua r err s :
  inv s -> fails_errno r err -> real <= offs -> (r <> -1 -> forall x, in_request count offs x -> D x = 0) ->
  wrote' D count offs fua r err s s.
Proof.
  intros Hi He Ho HD. split; [split; [done|]; auto|]. split; [done|]. intros Hr x Hx.
  unfold resized, resized_settled. rewrite decide_False by (unfold in_request in *; lia).
  split; [symmetry; auto|]. unfold in_request in *. lia.
Qed.

(** The first bytes of a buffer. *)
Lemma overwrite_prefix d d' buf n offs x :
  in_request n offs x -> n <= Z.of_nat (length buf) ->
  overwrite d (take (Z.to_nat n) buf) offs x = overwrite d' buf offs x.
Proof.
  unfold in_request. intros Hx Hn. rewrite !overwrite_in by (rewrite ?length_take; lia).
  by rewrite !nth_lookup, lookup_take_lt by lia.
Qed.

(** A zero buffer. *)
Lemma is_zero_overwrite d buf offs x :
  is_zero buf (Z.of_nat (length buf)) = true -> in_request (Z.of_nat (length buf)) offs x ->
  overwrite d buf offs x = 0.
Proof.
  rewrite is_zero_all_zero, all_zero_nth. intros Hz Hx. by rewrite overwrite_in by apply Hx.
Qed.

Lemma truncate_pread_correct `{!ReadLayer inv disk settled nx k} count offs err s :
  inv s -> errno_ok err -> aligned_range (truncate_limits h k) count offs -> count <= l_maximum k ->
  wp (truncate_pread nx h count offs 0 err) (fun '(r, err', buf) s' =>
    same_disk inv tdisk tsettled s s' /\ fails_errno r err' /\
    (r <> -1 -> buf = slice (resized real (disk s)) offs count)) s.
Proof.
  intros Hi He Hr Hmax. pose proof Hr as (Ho & Hc & _). unfold truncate_pread. apply wp_bind.
  destruct (Z.ltb_spec offs real) as [Hlt|Hge].
  - destruct (inside_real_range _ _ Hr Hlt) as (Hn & Hnc & Hu & Hr'). set (n := inside_real h count offs) in *.
    apply wp_bind. eapply wp_mono; [apply dl_pread; (done || lia)|]. intros [[r e] buf] s' (Hsd & [He' Hne] & Hb).
    apply wp_ret. rewrite Hu. destruct (Z.eqb_spec r (-1)) as [-> |Hrn]; apply wp_ret.
    { split; [by apply same_resized|]. done. }
    split; [by apply same_resized|]. split; [by split|]. intros _. rewrite Hb by done.
    assert (Hsp : slice (resized real (disk s)) offs count =
      slice (resized real (disk s)) offs n ++ slice (resized real (disk s)) (offs + n) (count - n)).
    { rewrite <- slice_app by lia. f_equal. lia. }
    rewrite Hsp, resized_slice_in by lia. f_equal. destruct (decide (count = n)) as [E|E].
    + by replace (count - n) with 0 by lia.
    + symmetry. apply resized_slice_out. lia.
  - apply wp_ret. change (0 =? -1) with false. cbv iota. apply wp_ret. simpl.
    split; [by apply unchanged_refl|]. split; [split; [done|lia]|]. intros _. symmetry. by apply resized_slice_out.
Qed.

Lemma truncate_pwrite_correct `{!DiskLayer inv disk settled nx k} buf count offs flags err s :
  inv s -> errno_ok err -> aligned_range (truncate_limits h k) count offs -> count <= l_maximum k ->
  write_flags (truncate_limits h k) flags -> length buf = Z.to_nat count ->
  wp (truncate_pwrite nx h buf count offs flags err) (fun '(r, err') s' =>
    wrote' (overwrite (resized real (disk s)) buf offs) count offs (has flags NBDKIT_FLAG_FUA) r err' s s') s.
Proof.
  intros Hi He Hr Hmax Hfl Hlen. pose proof Hr as (Ho & Hc & _). unfold truncate_pwrite. apply wp_bind.
  destruct (Z.ltb_spec offs real) as [Hlt|Hge].
  - destruct (inside_real_range _ _ Hr Hlt) as (Hn & Hnc & Hu & Hr'). set (n := inside_real h count offs) in *.
    apply wp_bind. eapply wp_mono.
    { apply (dl_pwrite (take (Z.to_nat n) buf)); try done; [lia|]. rewrite length_take. lia. }
    intros [r e] s' Hw. apply wp_ret. rewrite Hu.
    assert (Hw' : forall r' e', (r' <> -1 -> r <> -1 /\ e' = e) -> fails_errno r' e' ->
      (r' <> -1 -> is_zero (drop (Z.to_nat n) buf) (Z.of_nat (length (drop (Z.to_nat n) buf))) = true \/ count = n) ->
      wrote' (overwrite (resized real (disk s)) buf offs) count offs (has flags NBDKIT_FLAG_FUA) r' e' s s').
    { intros r' e' Hr1 He1 Hz. apply (wrote_resized _ n); [lia|unfold in_request; lia| |].
      - intros Hr2 x Hx Hxr. destruct (Hz Hr2) as [Hz'|E]; [|unfold in_request in *; lia].
        rewrite <- (take_drop (Z.to_nat n) buf), overwrite_app. apply is_zero_overwrite; [done|].
        rewrite length_take, length_drop. unfold in_request in *. lia.
      - destruct Hw as (Hun & He2 & Hw).
        assert (Hov : forall x, in_request n offs x ->
          overwrite (disk s) (take (Z.to_nat n) buf) offs x = overwrite (resized real (disk s)) buf offs x).
        { intros x Hx. apply overwrite_prefix; [done|]. lia. }
        split; [|split; [done|]].
        + eapply unchanged_mono; [|exact Hun]. simpl. intros x Hx Hin. rewrite Hov by done. auto.
        + intros Hr2 x Hx. rewrite <- Hov by done. apply Hw; [|done]. by apply Hr1. }
    pose proof Hw as (_ & [Hok Hne] & _).
    destruct (Z.eqb_spec r (-1)) as [-> |Hrn]; [apply wp_ret; apply Hw'; [done|by split|done]|].
    destruct (Z.ltb_spec 0 (count - n)); cbn [andb];
      [|apply wp_ret; apply Hw'; [done|by split|right; lia]].
    destruct (is_zero (drop (Z.to_nat n) buf) (count - n)) eqn:Ez; cbn [negb]; apply wp_ret; apply Hw'; try done.
    intros _. left. rewrite length_drop. by replace (Z.of_nat (length buf - Z.to_nat n)) with (count - n) by lia.
  - apply wp_ret. change (0 =? -1) with false. cbv iota.
    destruct ((0 <? count) && _)%bool eqn:Ez; apply wp_ret; apply wrote_beyond; try done.
    intros _ x Hx. apply andb_false_iff in Ez as [Ez|Ez]; [apply Z.ltb_ge in Ez; lia|].
    apply negb_false_iff in Ez. apply is_zero_overwrite; replace (Z.of_nat (length buf)) with count by lia; done.
Qed.

Lemma truncate_zero_correct `{!DiskLayer inv disk settled nx k} count offs flags err s :
  inv s -> errno_ok err -> aligned_range (truncate_limits h k) count offs -> zero_flags (truncate_limits h k) flags ->
  wp (truncate_zero nx h count offs flags err) (fun '(r, err') s' =>
    wrote' (fun _ => 0) count offs (has flags NBDKIT_FLAG_FUA) r (zero_err flags r err') s s') s.
Proof.
  intros Hi He Hr (Hf1 & Hf2 & _). pose proof Hr as (Ho & Hc & _). unfold truncate_zero.
  destruct (Z.ltb_spec offs real) as [Hlt|Hge].
  2: { apply wp_ret, wrote_zero_err, wrote_beyond; try done; split; (done || lia). }
  destruct (inside_real_range _ _ Hr Hlt) as (Hn & Hnc & _ & Hr').
  assert (Hzero : forall s1, same_disk inv disk settled s s1 ->
    (has flags NBDKIT_FLAG_FAST_ZERO = true -> l_can_fast_zero k = true) ->
    wp (n_zero nx (inside_real h count offs) offs flags err) (fun '(r, err') s' =>
      wrote' (fun _ => 0) count offs (has flags NBDKIT_FLAG_FUA) r (zero_err flags r err') s s') s1).
  { intros s1 Hsd Hf3. eapply wp_mono; [apply dl_zero; try done; apply Hsd|]. intros [r e] s' Hw.
    eapply wrote_same_l; [by apply same_resized|].
    eapply wrote_resized; [..|exact Hw]; unfold in_request; try done; lia. }
  apply wp_bind. destruct (has flags NBDKIT_FLAG_FAST_ZERO) eqn:Hfast.
  - apply wp_bind. eapply wp_mono; [by apply dl_can_fast_zero|]. intros r s1 [-> Hsd]. apply wp_ret.
    destruct (l_can_fast_zero k) eqn:Hcf; simpl.
    + by apply Hzero.
    + apply wp_ret. rewrite zero_err_fast by done. apply wrote_unchanged; [by apply same_resized|]. by apply fails_errno_const.
  - apply wp_ret. by apply Hzero.
Qed.

Lemma truncate_trim_correct `{!DiskLayer inv disk settled nx k} count offs flags err s :
  inv s -> errno_ok err -> aligned_range (truncate_limits h k) count offs -> write_flags (truncate_limits h k) flags ->
  wp (truncate_trim nx h count offs flags err) (fun '(r, err') s' =>
    trimmed inv tdisk tsettled count offs (has flags NBDKIT_FLAG_FUA) r err' s s') s.
Proof.
  intros Hi He Hr Hfl. unfold truncate_trim. destruct (Z.ltb_spec offs real) as [Hlt|Hge].
  2: { apply wp_ret. split; [by apply unchanged_refl|]. split; [split; (done || lia)|auto]. }
  destruct (inside_real_range _ _ Hr Hlt) as (Hn & Hnc & _ & Hr').
  eapply wp_mono; [by apply dl_trim|]. intros [r e] s' ([Hi' Hu] & He' & Hw).
  split; [|split; [done|]].
  - split; [done|]. intros x Hx. destruct (Hu x) as [Hd Hs]; [unfold in_request in *; lia|].
    unfold resized, resized_settled. split; [by rewrite Hd|auto].
  - intros Hr0 Hf x Hx. unfold resized_settled in *. auto.
Qed.

Lemma truncate_cache_correct `{!ReadLayer inv disk settled nx k} count offs err s :
  inv s -> errno_ok err -> aligned_range (truncate_limits h k) count offs -> count <= l_maximum k ->
  wp (truncate_cache nx h count offs 0 err) (fun '(r, err') s' =>
    same_disk inv tdisk tsettled s s' /\ fails_errno r err') s.
Proof.
  intros Hi He Hr Hmax. unfold truncate_cache. destruct (Z.ltb_spec offs real) as [Hlt|Hge].
  2: { apply wp_ret. split; [by apply unchanged_refl|]. split; (done || lia). }
  destruct (inside_real_range _ _ Hr Hlt) as (Hn & Hnc & _ & Hr'). apply wp_bind.
  eapply wp_mono; [apply dl_cache; (done || lia)|]. intros [r e] s' [Hsd [Hok Hne]]. apply wp_ret.
  split; [by apply same_resized|]. split; [done|]. destruct (Z.eqb_spec r (-1)); [auto|lia].
Qed.

Lemma truncate_read_layer `{!ReadLayer inv disk settled nx k} g :
  ReadLayer inv tdisk tsettled (truncate_next nx g h) (truncate_limits h k).
Proof.
    split; simpl.
  - intros count offs err s Hi He Hr Hmax. by apply truncate_pread_correct.
  - intros count offs err s Hi He Hr Hmax. by apply truncate_cache_correct.
  - intros s Hi. eapply wp_mono; [by apply dl_can_cache|]. intros r s' [Hr Hsd]. split; [done|by apply same_resized].
  - intros s Hi. apply wp_ret. split; [by left|by apply unchanged_refl].
Qed.

Lemma truncate_layer `{!DiskLayer inv disk settled nx k} g :
  DiskLayer inv tdisk tsettled (truncate_next nx g h) (truncate_limits h k).
Proof.
    split; simpl; [apply truncate_read_layer; apply _|..].
  - intros buf count offs flags err s Hi He Hr Hmax Hfl Hlen. by apply truncate_pwrite_correct.
  - intros count offs flags err s Hi He Hr Hfl. by apply truncate_zero_correct.
  - intros count offs flags err s Hi He Hr Hfl. by apply truncate_trim_correct.
  - intros err s Hi He. eapply wp_mono; [by apply dl_flush|]. intros [r e] s' (Hsd & He' & Hall).
    split; [by apply same_resized|]. split; [done|]. intros Hr x Hx. by apply Hall.
  - intros s Hi. eapply wp_mono; [by apply dl_can_fua|]. intros r s' [Hr Hsd]. split; [done|by apply same_resized].
  - intros s Hi. apply wp_bind. eapply wp_mono; [by apply dl_can_fast_zero|]. intros r s' [-> Hsd]. apply wp_ret.
    split; [by destruct (l_can_fast_zero k)|by apply same_resized].
Qed.

(** C33: The truncate filter presents a disk of the chosen size that has the
    bytes of the disk below up to its real end and zeroes after that: reads
    return them, also across the end; writes and zeroes change exactly the
    requested bytes, and writing anything else than zeroes beyond the end is
    an error ([ENOSPC]), never lost silently; trims and cache requests stay
    inside the real disk; fast zeroing is offered and refused with [ENOTSUP]
    where the layer below cannot do it. *)
Theorem truncate_presents_disk `{!DiskLayer inv disk settled nx k} g :
  DiskLayer inv tdisk tsettled (truncate_next nx g h) (truncate_limits h k).
Proof. apply truncate_layer. Qed.
End Correct.

(** ** The size *)

(** The size that the settings ask for. *)
Definition rounded_up g (size : Z) : Z :=
  if 0 <? t_round_up g then (size + t_round_up g - 1) / t_round_up g * t_round_up g else size.
Definition rounded_down g (size : Z) : Z :=
  if 0 <? t_round_down g then size / t_round_down g * t_round_down g else size.
Definition asked_size g (real : Z) : Z := if 0 <=? t_truncate_size g then t_truncate_size g else real.

(** What the configuration accepts. *)
Record settings_ok g : Prop := SettingsOk {
  so_truncate : -1 <= t_truncate_size g <= INT64_MAX;
  so_up : t_round_up g = 0 \/ exists n, 0 <= n <= 31 /\ t_round_up g = 2 ^ n;
  so_down : t_round_down g = 0 \/ exists n, 0 <= n <= 31 /\ t_round_down g = 2 ^ n;
}.

Lemma sub_mod_div a n : 0 < n -> a - a mod n = a / n * n.
Proof. intros Hn. rewrite Z.mod_eq by lia. lia. Qed.

(** The size of the truncate filter is the one that was asked for:
    [truncate] replaces the real size, then [round-up] rounds up and
    [round-down] rounds down; it fits [int64_t], and the connection is
    refused exactly when rounding up would exceed that. *)
Lemma truncate_prepare_size {W} (nx : nbdkit_next W) g h real (s : st W) :
  settings_ok g -> n_get_size nx s = Ok (real, s) -> 0 <= real <= INT64_MAX ->
  exists r h', truncate_prepare nx g h s = Ok (r, h', s) /\ h_real_size h' = real /\
    (r = -1 <-> INT64_MAX < rounded_up g (asked_size g real)) /\
    (r <> -1 -> r = 0 /\ h_size h' = rounded_down g (rounded_up g (asked_size g real)) /\
       0 <= h_size h' <= INT64_MAX).
Proof.
  intros [Ht Hu Hd] Hsize Hr.
  assert (Hwp : wp (truncate_prepare nx g h) (fun '(r, h') s' => s' = s /\ h_real_size h' = real /\
    (r = -1 <-> INT64_MAX < rounded_up g (asked_size g real)) /\
    (r <> -1 -> r = 0 /\ h_size h' = rounded_down g (rounded_up g (asked_size g real)) /\
       0 <= h_size h' <= INT64_MAX)) s).
  2: { unfold wp in Hwp. destruct (truncate_prepare nx g h s) as [[[r h'] s']|]; [|done].
       destruct Hwp as (-> & Hwp). eauto. }
  unfold truncate_prepare. apply wp_bind. eapply wp_intro; [exact Hsize|].
  rewrite (proj2 (Z.eqb_neq real (-1))) by lia. fold (asked_size g real).
  assert (Ha : 0 <= asked_size g real <= INT64_MAX).
  { unfold asked_size. destruct (Z.leb_spec 0 (t_truncate_size g)); lia. }
  set (a := asked_size g real) in *. set (up := rounded_up g a).
  assert (Hend : 0 <= up <= INT64_MAX -> wp (
    size ← (if 0 <? t_round_down g then ROUND_DOWN up (t_round_down g) else mret up);
    mret (if 0 <=? real then 0 else -1, TruncateHandle real size)) (fun '(r, h') s' =>
      s' = s /\ h_real_size h' = real /\ (r = -1 <-> INT64_MAX < up) /\
      (r <> -1 -> r = 0 /\ h_size h' = rounded_down g up /\ 0 <= h_size h' <= INT64_MAX)) s).
  { intros Hup. apply wp_bind. rewrite (proj2 (Z.leb_le 0 real)) by lia. unfold rounded_down.
    destruct (Z.ltb_spec 0 (t_round_down g)) as [Hpos|Hpos].
    - destruct Hd as [Hd|(n & Hn & Hd)]; [lia|]. rewrite Hd in *. apply wp_ROUND_DOWN; [lia|limits; lia|].
      apply wp_ret. simpl. rewrite sub_mod_div by lia. split; [done|]. split; [done|]. split; [lia|].
      intros _. split; [done|]. split; [done|]. pose proof (Z.mod_le up (2 ^ n) ltac:(lia) ltac:(lia)).
      pose proof (Z.mod_pos_bound up (2 ^ n) ltac:(lia)). rewrite <- sub_mod_div by lia. lia.
    - do 2 apply wp_ret. simpl. split; [done|]. split; [done|]. split; [lia|]. done. }
  apply wp_bind. subst up. unfold rounded_up in *. destruct (Z.ltb_spec 0 (t_round_up g)) as [Hpos|Hpos].
  - destruct Hu as [Hu|(n & Hn & Hu)]; [lia|]. rewrite Hu in *.
    pose proof (Z.pow_le_mono_r 2 n 31 ltac:(lia) ltac:(lia)) as H31. change (2 ^ 31) with 2147483648 in H31.
    apply wp_bind, wp_ROUND_UP64; [lia|lia|limits; lia|]. rewrite sub_mod_div in * by lia.
    destruct (Z.ltb_spec INT64_MAX ((a + 2 ^ n - 1) / 2 ^ n * 2 ^ n)) as [Hbig|Hsmall].
    + do 2 apply wp_ret. simpl. split; [done|]. split; [done|]. split; [done|]. done.
    + apply wp_bind, wp_ROUND_UP64; [lia|lia|limits; lia|]. apply wp_ret. rewrite sub_mod_div by lia.
      apply Hend. split; [|lia]. pose proof (Z.div_pos (a + 2 ^ n - 1) (2 ^ n) ltac:(lia) ltac:(lia)). nia.
  - apply wp_ret. by apply Hend.
Qed.

(** So the handle suits the layer below. *)
Lemma truncate_prepare_ok {W} (nx : nbdkit_next W) g h k (s s' : st W) h' :
  settings_ok g -> n_get_size nx s = Ok (l_size k, s) -> 0 <= l_size k <= INT64_MAX ->
  (l_minimum k | l_size k) -> truncate_prepare nx g h s = Ok (0, h', s') -> truncate_ok h' k.
Proof.
  intros Hg Hs Hk Hd Hp. pose proof (truncate_prepare_size nx g h (l_size k) s Hg Hs Hk) as (r & h1 & E & Hr & _ & Hok).
  rewrite E in Hp. injection Hp as -> -> ->. destruct (Hok ltac:(lia)) as (_ & _ & Hb).
  split; [done|by rewrite Hr|done|by rewrite Hr].
Qed.

(** ** Extents *)

(** Beyond the real end, a hole up to the end of the range if the settings
    are [round-up] alone, or [truncate] alone with a larger size. *)
Lemma truncate_extents_hole {W} (nx : nbdkit_next W) g h count offs end_ flags err (s : st W) :
  0 <= h_real_size h <= offs -> offs < end_ <= INT64_MAX ->
  t_truncate_size g = -1 \/ end_ <= t_truncate_size g <= INT64_MAX ->
  exists exts', truncate_extents nx g h count offs flags (Extents [] offs end_ (-1)) err s = Ok (0, err, exts', s) /\
    x_extents exts' = [Extent offs (end_ - offs) (Z.lor NBDKIT_EXTENT_ZERO NBDKIT_EXTENT_HOLE)].
Proof.
  intros Hr He Ht. unfold truncate_extents. rewrite (proj2 (Z.leb_le _ _)) by lia.
  set (real := h_real_size h) in *. set (len := u64 (t_truncate_size g - real)).
  assert (Hlen : 0 < len /\ end_ <= real + len <= UINT64_MAX /\ len <= UINT64_MAX).
  { subst len. destruct Ht as [-> |Ht]; [|rewrite u64_small by (limits; lia); limits; lia].
    unfold u64. rewrite <- (Z_mod_plus_full _ 1), Z.mod_small by (limits; lia). limits. lia. }
  unfold nbdkit_add_extent, nbdkit_extents_count. cbn [x_next x_end x_extents x_start length Z.of_nat].
  rewrite (proj2 (Z.leb_gt 0 (-1))), (proj2 (Z.eqb_neq len 0)), (proj2 (Z.leb_gt end_ real)) by lia. cbn [andb orb].
  change (MAX_EXTENTS <=? 0) with false. cbv iota. change (0 =? 0) with true. cbv iota.
  rewrite (u64_small (real + len)) by (limits; lia). set (len' := if end_ <? real + len then _ else len).
  assert (Hlen' : len' = end_ - real).
  { subst len'. destruct (Z.ltb_spec end_ (real + len)); [|lia].
    rewrite (u64_small (real + len - end_)), u64_small by (limits; lia). lia. }
  rewrite Hlen', (u64_small (real + (end_ - real))) by (limits; lia).
  rewrite (proj2 (Z.leb_gt (real + (end_ - real)) offs)), (proj2 (Z.ltb_ge offs real)) by lia.
  rewrite (u64_small (offs - real)), !u64_small by (limits; lia). eexists. split; [done|]. simpl. do 2 f_equal; lia.
Qed.

(** Before the real end, what the layer below answers. *)
Lemma truncate_extents_data {W} (nx : nbdkit_next W) g h count offs end_ flags err (s s' : st W) err' exts2 :
  0 <= offs < h_real_size h -> h_real_size h <= INT64_MAX -> offs < end_ <= INT64_MAX ->
  n_extents nx (inside_real h count offs) offs flags (Extents [] offs (h_real_size h) (-1)) err s =
    Ok (0, err', exts2, s') ->
  extents_answer (Extents [] offs (h_real_size h) (-1)) exts2 ->
  exists exts', truncate_extents nx g h count offs flags (Extents [] offs end_ (-1)) err s = Ok (0, err', exts', s') /\
    extents_answer (Extents [] offs end_ (-1)) exts' /\
    forall x, x < end_ -> type_at (x_extents exts') x = type_at (x_extents exts2) x.
Proof.
  intros Hr Hmax He Hnext (Hwf2 & Hs2 & He2 & Hne2). simpl in Hs2, He2.
  unfold truncate_extents. rewrite (proj2 (Z.leb_gt _ _)) by lia. rewrite extents_new_ok by lia.
  rewrite (bind_run _ _ _ _ _ Hnext). change (0 =? -1) with false. cbv iota.
  pose proof (wf_chain _ Hwf2) as Hch2. destruct (wf_filled _ Hwf2 Hne2) as (_ & Hle2 & _). rewrite Hs2, He2 in *.
  pose proof (chain_end_lt _ _ Hch2 Hne2).
  destruct (extents_new_wf offs end_ (Extents [] offs end_ (-1))) as (Hwf & _); [lia|apply extents_new_ok; lia|].
  destruct (add_extents_copy (x_extents exts2) (Extents [] offs end_ (-1)) err' offs) as (exts' & -> & Hwf' & Hs' & He' & Ht').
  - split; [done|]. split; [by left|]. intros _. by left.
  - lia.
  - done.
  - lia.
  - pose proof (wf_count _ Hwf2). unfold nbdkit_extents_count in *. simpl. lia.
  - exists exts'. split; [done|].
    assert (Hall : forall x, x < end_ -> type_at (x_extents exts') x = type_at (x_extents exts2) x).
    { intros x Hx. rewrite Ht'. simpl. destruct (type_at _ _); [by rewrite decide_True by lia|done]. }
    split; [|done]. split; [done|]. split; [done|]. split; [done|]. intros Hnil.
    specialize (Hall offs ltac:(lia)). rewrite Hnil in Hall.
    assert (Hd : is_Some (type_at (x_extents exts2) offs)) by (apply (chain_domain _ _ _ Hch2); lia).
    rewrite <- Hall in Hd. by destruct Hd.
Qed.

(** With [truncate] and [round-up] together, a client can abort the
    server: for a block status request beyond both the real size and the
    [truncate] size (but inside the disk, which was rounded up) the filter
    answers without any extent, because it computes the hole from
    [truncate_size] instead of the size of the disk, and the server asserts
    that an answer has at least one. *)
Lemma truncate_extents_aborts {W} (nx : nbdkit_next W) g h count offs end_ flags req err (s : st W) :
  0 <= h_real_size h <= offs -> 0 <= t_truncate_size g <= offs -> offs < end_ <= INT64_MAX ->
  exists exts', truncate_extents nx g h count offs flags (Extents [] offs end_ (-1)) err s = Ok (0, err, exts', s) /\
    extents_to_block_descriptors exts' req count offs = None.
Proof.
  intros Hr Ht He. unfold truncate_extents. rewrite (proj2 (Z.leb_le _ _)) by lia.
  set (real := h_real_size h) in *. set (len := u64 (t_truncate_size g - real)).
  assert (Hsum : u64 (real + len) = t_truncate_size g).
  { subst len. unfold u64. rewrite Zplus_mod_idemp_r. replace (real + (t_truncate_size g - real)) with (t_truncate_size g) by lia.
    apply Z.mod_small. limits. lia. }
  unfold nbdkit_add_extent, nbdkit_extents_count. cbn [x_next x_end x_extents x_start length Z.of_nat].
  rewrite (proj2 (Z.leb_gt 0 (-1))), (proj2 (Z.leb_gt end_ real)) by lia. cbn [andb orb].
  change (MAX_EXTENTS <=? 0) with false. cbv iota. change (0 =? 0) with true. cbv iota. rewrite Hsum.
  destruct (len =? 0); [by eexists|]. rewrite (proj2 (Z.ltb_ge end_ _)) by lia. rewrite Hsum.
  rewrite (proj2 (Z.leb_le (t_truncate_size g) offs)) by lia. by eexists.
Qed.

(** ** Concrete disks *)

Lemma truncate_presents_disk_witness :
  DiskLayer (fun _ => True) (fun s => resized 600 (s_world s)) (fun _ => resized_settled 600 (fun _ => True))
    (truncate_next (flat_next 600) truncate_defaults (TruncateHandle 600 1024))
    (LayerLimits 1024 1 1048576 NBDKIT_FUA_NATIVE true).
Proof.
  assert (Hok : truncate_ok (TruncateHandle 600 1024) (LayerLimits 600 1 1048576 NBDKIT_FUA_NATIVE true)).
  { split; simpl; [done|limits; lia|limits; lia|by exists 600]. }
  exact (truncate_presents_disk (fun _ => True) s_world (fun _ _ => True) (flat_next 600) _ _ Hok truncate_defaults).
Defined.

(** [truncate=600 round-up=1024] on a disk of 600 bytes. *)
Definition round_settings : truncate_settings := TruncateSettings 600 1024 0.

Lemma truncate_extents_aborts_witness :
  truncate_prepare (flat_next 600) round_settings (TruncateHandle 0 0) (witness_state (fun _ => 0)) =
    Ok (0, TruncateHandle 600 1024, witness_state (fun _ => 0)) /\
  exists exts', truncate_extents (flat_next 600) round_settings (TruncateHandle 600 1024) 100 700 0
    (Extents [] 700 1024 (-1)) 0 (witness_state (fun _ => 0)) = Ok (0, 0, exts', witness_state (fun _ => 0)) /\
    extents_to_block_descriptors exts' 0 100 700 = None.
Proof.
  split; [reflexivity|].
  apply (truncate_extents_aborts (flat_next 600) round_settings (TruncateHandle 600 1024) 100 700 1024 0 0 0);
    simpl; limits; lia.
Defined.
