(* ===== verification/Bitmap.v ===== *)
(** * Bitmaps

    Models [common/bitmap/bitmap.c] and [bitmap.h]: 1, 2, 4 or 8 bits for
    every block of a virtual disk.  The abstract view is the function
    [entry] from block numbers to values. *)

From S2P Require Import Prelude Server Plugin Bytes.

(** ** Data and operations *)

(** [b_bitmap] is the allocated array, so [size] is its length. *)
Record bitmap : Type := Bitmap {
  b_blksize : Z;
  b_bpb : Z;
  b_bitshift : Z;
  b_ibpb : Z;
  b_bitmap : list Z;
}.

Implicit Types (bm : bitmap).

Definition b_size bm : Z := Z.of_nat (length (b_bitmap bm)).

Definition set_bitmap (l : list Z) bm : bitmap :=
  Bitmap (b_blksize bm) (b_bpb bm) (b_bitshift bm) (b_ibpb bm) l.

Definition bitmap_init (blocksize bpb : Z) : outcome bitmap :=
  if is_power_of_2 blocksize then
    let init bitshift := Ok (Bitmap blocksize bpb bitshift (8 / bpb) []) in
    if bpb =? 1 then init 0
    else if bpb =? 2 then init 1
    else if bpb =? 4 then init 2
    else if bpb =? 8 then init 3
    else Crash AssertFailed (* abort *)
  else Crash AssertFailed.

(** [DIV_ROUND_UP], at type [uint64_t]. *)
Definition DIV_ROUND_UP (i n : Z) : Z := u64 (i + n - 1) / n.

(** [mem] says whether [realloc] succeeds.  On a 64-bit machine the size
    always fits a [size_t]. *)
Definition bitmap_resize (mem : bool) bm (new_size : Z) : Z * bitmap :=
  let new_bm_size := DIV_ROUND_UP new_size (u64 (b_blksize bm * 8) / b_bpb bm) in
  if UINT64_MAX <? new_bm_size then (-1, bm)
  else if (0 <? new_bm_size) && negb mem then (-1, bm)
  else (0, set_bitmap (take (Z.to_nat new_bm_size) (b_bitmap bm) ++
                       memset 0 (new_bm_size - b_size bm)) bm).

Definition bitmap_clear bm : bitmap := set_bitmap (memset 0 (b_size bm)) bm.

(** The macro [BITMAP_OFFSET_BIT_MASK]. *)
Definition blk_offset bm (blk : Z) : Z := Z.shiftr blk (3 - b_bitshift bm).
Definition blk_bit bm (blk : Z) : Z := b_bpb bm * Z.land blk (b_ibpb bm - 1).
Definition blk_mask bm (blk : Z) : Z := Z.shiftl (Z.shiftl 1 (b_bpb bm) - 1) (blk_bit bm blk).

Definition bitmap_get_blk bm (blk default : Z) : Z :=
  if b_size bm <=? blk_offset bm blk then default
  else Z.shiftr (Z.land (nth (Z.to_nat (blk_offset bm blk)) (b_bitmap bm) 0) (blk_mask bm blk))
         (blk_bit bm blk).

Definition bitmap_get bm (offset default : Z) : Z :=
  bitmap_get_blk bm (offset / b_blksize bm) default.

(** The bytes are [uint8_t]; [v] is an [unsigned]. *)
Definition bitmap_set_blk bm (blk v : Z) : bitmap :=
  if b_size bm <=? blk_offset bm blk then bm
  else
    let i := Z.to_nat (blk_offset bm blk) in
    let b := nth i (b_bitmap bm) 0 in
    let b := Z.land (Z.ldiff b (blk_mask bm blk)) 255 in
    let b := Z.land (Z.lor b (u32 (Z.shiftl v (blk_bit bm blk)))) 255 in
    set_bitmap (<[i := b]> (b_bitmap bm)) bm.

Definition bitmap_set bm (offset v : Z) : bitmap := bitmap_set_blk bm (offset / b_blksize bm) v.

(** The loops of [bitmap_next] scan the blocks of one byte.  The result is
    the block that was found, or the block at which the loop ended. *)
Fixpoint align_loop (fuel : nat) bm (limit blk : Z) : outcome (Z + Z) :=
  if ((blk <? limit) && negb (Z.land blk (b_ibpb bm - 1) =? 0))%bool then
    match fuel with
    | O => Crash OutOfFuel
    | S fuel =>
        if negb (bitmap_get_blk bm blk 0 =? 0) then Ok (inl blk)
        else align_loop fuel bm limit (blk + 1)
    end
  else Ok (inr blk).

Fixpoint bit_loop (fuel : nat) bm (limit blk : Z) : outcome Z :=
  if blk <? limit then
    match fuel with
    | O => Crash OutOfFuel
    | S fuel =>
        if negb (bitmap_get_blk bm blk 0 =? 0) then Ok blk else bit_loop fuel bm limit (blk + 1)
    end
  else Crash AssertFailed. (* abort: should never be reached *)

(** The number of bytes to scan is a [size_t]: past the end of the array
    it is huge. *)
Definition bitmap_next bm (blk : Z) : outcome Z :=
  let limit := b_size bm * b_ibpb bm in
  match align_loop 8 bm limit blk with
  | Crash c => Crash c
  | Ok (inl blk) => Ok blk
  | Ok (inr blk) =>
      if blk =? limit then Ok (-1)
      else
        let p := blk_offset bm blk in
        if b_size bm <? p then Crash OutOfBounds
        else
          match next_non_zero (drop (Z.to_nat p) (b_bitmap bm)) with
          | None => Ok (-1)
          | Some i => bit_loop 8 bm limit (Z.shiftl (p + Z.of_nat i) (3 - b_bitshift bm))
          end
  end.

(** ** Well-formed bitmaps *)

Record bitmap_wf bm : Prop := {
  bw_shift : 0 <= b_bitshift bm <= 3;
  bw_bpb : b_bpb bm = 2 ^ b_bitshift bm;
  bw_ibpb : b_ibpb bm = 2 ^ (3 - b_bitshift bm);
  bw_blksize : exists n, 0 <= n < 32 /\ b_blksize bm = 2 ^ n;
  bw_bytes : Forall (fun b => 0 <= b <= 255) (b_bitmap bm);
}.

(** The number of blocks. *)
Definition b_limit bm : Z := b_size bm * b_ibpb bm.

(** The value of a block; 0 outside of the bitmap. *)
Definition entry bm (blk : Z) : Z :=
  (nth (Z.to_nat (blk / b_ibpb bm)) (b_bitmap bm) 0 / 2 ^ (b_bpb bm * (blk mod b_ibpb bm))) mod 2 ^ b_bpb bm.

(** ** Slots of a byte *)

Lemma slot_testbit x k n i : 0 <= k -> 0 <= n -> 0 <= i ->
  Z.testbit ((x / 2 ^ k) mod 2 ^ n) i = ((i <? n) && Z.testbit x (i + k))%bool.
Proof.
  intros Hk Hn Hi. rewrite Z.testbit_mod_pow2 by done. f_equal. by rewrite Z.div_pow2_bits by lia.
Qed.

Lemma slot_get b k n : 0 <= k -> 0 <= n ->
  Z.shiftr (Z.land b (Z.shiftl (Z.shiftl 1 n - 1) k)) k = (b / 2 ^ k) mod 2 ^ n.
Proof.
  intros Hk Hn. rewrite Z.shiftl_1_l, Z.shiftr_land, Z.shiftr_shiftl_l, Z.sub_diag, Z.shiftl_0_r by done.
  rewrite land_pred_pow2 by done. by rewrite Z.shiftr_div_pow2.
Qed.

(** The byte that [bitmap_set_blk] stores. *)
Definition set_slot (b k n v : Z) : Z :=
  Z.land (Z.lor (Z.land (Z.ldiff b (Z.shiftl (Z.shiftl 1 n - 1) k)) 255) (u32 (Z.shiftl v k))) 255.

Lemma testbit_255 i : 0 <= i -> Z.testbit 255 i = (i <? 8).
Proof. intros. change 255 with (Z.ones 8). by apply Z.testbit_ones_nonneg. Qed.

Lemma set_slot_testbit b k n v i : 0 <= k -> 0 <= n -> k + n <= 8 -> 0 <= v < 2 ^ n -> 0 <= i < 8 ->
  Z.testbit (set_slot b k n v) i =
  if ((k <=? i) && (i <? k + n))%bool then Z.testbit v (i - k) else Z.testbit b i.
Proof.
  intros Hk Hn Hkn Hv Hi. unfold set_slot, u32. change 4294967296 with (2 ^ 32).
  rewrite Z.land_spec, Z.lor_spec, Z.land_spec, Z.ldiff_spec, testbit_255 by lia.
  rewrite Z.testbit_mod_pow2 by lia. rewrite !Z.shiftl_spec by lia.
  rewrite (proj2 (Z.ltb_lt i 8)), (proj2 (Z.ltb_lt i 32)), !andb_true_r by lia.
  rewrite Z.shiftl_1_l. simpl.
  destruct (Z.leb_spec k i) as [H|H]; simpl.
  - replace (2 ^ n - 1) with (Z.ones n) by (rewrite Z.ones_equiv; lia).
    rewrite Z.testbit_ones_nonneg by lia.
    destruct (Z.ltb_spec (i - k) n), (Z.ltb_spec i (k + n)); try lia; simpl.
    + by rewrite andb_false_r.
    + rewrite andb_true_r. replace (Z.testbit v (i - k)) with false; [by rewrite orb_false_r|].
      symmetry. rewrite <- (Z.mod_small v (2 ^ n)) by done. apply Z.mod_pow2_bits_high. lia.
  - rewrite !(Z.testbit_neg_r _ (i - k)) by lia. simpl. by rewrite andb_true_r, orb_false_r.
Qed.

Lemma set_slot_range b k n v : 0 <= set_slot b k n v <= 255.
Proof.
  unfold set_slot. set (x := Z.lor _ _). change (Z.land x 255) with (Z.land x (Z.ones 8)).
  rewrite Z.land_ones by lia. pose proof (Z.mod_pos_bound x (2 ^ 8) ltac:(lia)). lia.
Qed.

Lemma set_slot_same b k n v : 0 <= k -> 0 <= n -> k + n <= 8 -> 0 <= v < 2 ^ n ->
  (set_slot b k n v / 2 ^ k) mod 2 ^ n = v.
Proof.
  intros Hk Hn Hkn Hv. apply Z.bits_inj'. intros i Hi. rewrite slot_testbit by done.
  destruct (Z.ltb_spec i n); simpl.
  - rewrite set_slot_testbit by lia. rewrite (proj2 (Z.leb_le _ _)), (proj2 (Z.ltb_lt _ _)) by lia. simpl.
    f_equal. lia.
  - symmetry. rewrite <- (Z.mod_small v (2 ^ n)) by done. apply Z.mod_pow2_bits_high. lia.
Qed.

Lemma set_slot_other b k n v k' : 0 <= k -> 0 <= n -> k + n <= 8 -> 0 <= v < 2 ^ n ->
  0 <= k' -> k' + n <= 8 -> k' + n <= k \/ k + n <= k' ->
  (set_slot b k n v / 2 ^ k') mod 2 ^ n = (b / 2 ^ k') mod 2 ^ n.
Proof.
  intros Hk Hn Hkn Hv Hk' Hkn' Hd. apply Z.bits_inj'. intros i Hi. rewrite !slot_testbit by done.
  destruct (Z.ltb_spec i n); simpl; [|done]. rewrite set_slot_testbit by lia.
  destruct (Z.leb_spec k (i + k')), (Z.ltb_spec (i + k') (k + n)); simpl; (done || lia).
Qed.

(** ** The operations on entries *)

Section Wf.
Context (bm : bitmap) (Hwf : bitmap_wf bm).

Lemma bpb_ibpb : b_bpb bm * b_ibpb bm = 8 /\ 1 <= b_bpb bm <= 8 /\ 1 <= b_ibpb bm <= 8.
Proof.
  rewrite (bw_bpb _ Hwf), (bw_ibpb _ Hwf). pose proof (bw_shift _ Hwf) as Hs.
  assert (H : b_bitshift bm = 0 \/ b_bitshift bm = 1 \/ b_bitshift bm = 2 \/ b_bitshift bm = 3) by lia.
  destruct H as [-> |[-> |[-> | ->]]]; simpl; lia.
Qed.

Lemma blk_offset_div blk : blk_offset bm blk = blk / b_ibpb bm.
Proof. unfold blk_offset. rewrite (bw_ibpb _ Hwf). apply Z.shiftr_div_pow2. pose proof (bw_shift _ Hwf). lia. Qed.

Lemma land_ibpb blk : Z.land blk (b_ibpb bm - 1) = blk mod b_ibpb bm.
Proof. rewrite (bw_ibpb _ Hwf). apply land_pred_pow2. pose proof (bw_shift _ Hwf). lia. Qed.

Lemma slot_bounds blk : 0 <= b_bpb bm * (blk mod b_ibpb bm) /\ b_bpb bm * (blk mod b_ibpb bm) + b_bpb bm <= 8.
Proof.
  destruct bpb_ibpb as (He & Hb & Hi). pose proof (Z.mod_pos_bound blk (b_ibpb bm) ltac:(lia)). nia.
Qed.

(** Inside the bitmap. *)
Lemma blk_inside blk : blk / b_ibpb bm < b_size bm <-> blk < b_limit bm.
Proof.
  destruct bpb_ibpb as (_ & _ & Hi). unfold b_limit.
  pose proof (Z.div_mod blk (b_ibpb bm) ltac:(lia)). pose proof (Z.mod_pos_bound blk (b_ibpb bm) ltac:(lia)).
  split; nia.
Qed.

Lemma bitmap_get_blk_entry blk default :
  bitmap_get_blk bm blk default = if b_limit bm <=? blk then default else entry bm blk.
Proof.
  unfold bitmap_get_blk. rewrite blk_offset_div. pose proof (blk_inside blk) as Hin.
  destruct (Z.leb_spec (b_size bm) (blk / b_ibpb bm)), (Z.leb_spec (b_limit bm) blk); try lia.
  destruct bpb_ibpb as (_ & Hb & _). pose proof (slot_bounds blk).
  unfold blk_mask, blk_bit, entry. rewrite land_ibpb. apply slot_get; lia.
Qed.

Lemma entry_outside blk : 0 <= blk -> b_limit bm <= blk -> entry bm blk = 0.
Proof.
  intros H0 H. destruct bpb_ibpb as (_ & Hb & Hi). pose proof (slot_bounds blk) as [Hk _].
  pose proof (blk_inside blk) as Hin. pose proof (Z.div_pos blk (b_ibpb bm) H0 ltac:(lia)).
  unfold entry. rewrite nth_overflow by (unfold b_size in *; lia).
  rewrite Z.div_0_l by (apply Z.pow_nonzero; lia). by rewrite Z.mod_0_l by (apply Z.pow_nonzero; lia).
Qed.

Lemma entry_range blk : 0 <= entry bm blk < 2 ^ b_bpb bm.
Proof. unfold entry. apply Z.mod_pos_bound, Z.pow_pos_nonneg; [lia|]. destruct bpb_ibpb. lia. Qed.
End Wf.

Lemma bitmap_init_wf n bpb : 0 <= n < 32 -> bpb ∈ [1; 2; 4; 8] ->
  exists bm, bitmap_init (2 ^ n) bpb = Ok bm /\ bitmap_wf bm /\ b_limit bm = 0 /\
    b_blksize bm = 2 ^ n /\ b_bpb bm = bpb.
Proof.
  intros Hn Hb. unfold bitmap_init. rewrite is_power_of_2_pow by lia.
  assert (H : forall sh, 0 <= sh <= 3 -> bpb = 2 ^ sh ->
    bitmap_wf (Bitmap (2 ^ n) bpb sh (8 / bpb) [])).
  { intros sh Hsh ->. split; simpl; [done|done| |eauto|done]. rewrite Z.pow_sub_r by lia. done. }
  rewrite !elem_of_cons in Hb. destruct Hb as [-> |[-> |[-> |[-> |Hb]]]]; simpl.
  - eexists. split; [done|]. split; [by apply H|done].
  - eexists. split; [done|]. split; [by apply H|done].
  - eexists. split; [done|]. split; [by apply H|done].
  - eexists. split; [done|]. split; [by apply H|done].
  - by apply not_elem_of_nil in Hb.
Qed.

(** Changing the array. *)
Lemma set_bitmap_wf l bm :
  bitmap_wf bm -> Forall (fun b => 0 <= b <= 255) l -> bitmap_wf (set_bitmap l bm).
Proof. intros [H1 H2 H3 H4 H5] Hl. by split. Qed.

Lemma set_blk_slot bm blk v : bitmap_wf bm ->
  bitmap_set_blk bm blk v =
  if b_limit bm <=? blk then bm
  else set_bitmap (<[Z.to_nat (blk / b_ibpb bm) :=
    set_slot (nth (Z.to_nat (blk / b_ibpb bm)) (b_bitmap bm) 0) (b_bpb bm * (blk mod b_ibpb bm)) (b_bpb bm) v]>
    (b_bitmap bm)) bm.
Proof.
  intros Hwf. unfold bitmap_set_blk. rewrite (blk_offset_div _ Hwf).
  pose proof (blk_inside _ Hwf blk). unfold blk_mask, blk_bit. rewrite (land_ibpb _ Hwf).
  destruct (Z.leb_spec (b_size bm) (blk / b_ibpb bm)), (Z.leb_spec (b_limit bm) blk); (done || lia).
Qed.

Lemma set_blk_wf bm blk v : bitmap_wf bm ->
  bitmap_wf (bitmap_set_blk bm blk v) /\ b_limit (bitmap_set_blk bm blk v) = b_limit bm /\
  b_blksize (bitmap_set_blk bm blk v) = b_blksize bm /\ b_bpb (bitmap_set_blk bm blk v) = b_bpb bm.
Proof.
  intros Hwf. rewrite set_blk_slot by done. destruct (b_limit bm <=? blk); [done|]. split.
  - apply set_bitmap_wf; [done|]. apply Forall_insert; [apply Hwf|apply set_slot_range].
  - split; [|done]. unfold b_limit, b_size. simpl. by rewrite length_insert.
Qed.

(** Two blocks of the same byte have different slots. *)
Lemma slots_disjoint bm x y : bitmap_wf bm -> x <> y -> x / b_ibpb bm = y / b_ibpb bm ->
  b_bpb bm * (x mod b_ibpb bm) + b_bpb bm <= b_bpb bm * (y mod b_ibpb bm) \/
  b_bpb bm * (y mod b_ibpb bm) + b_bpb bm <= b_bpb bm * (x mod b_ibpb bm).
Proof.
  intros Hwf Hne E. destruct (bpb_ibpb _ Hwf) as (_ & Hb & Hi).
  pose proof (Z.div_mod x (b_ibpb bm) ltac:(lia)). pose proof (Z.div_mod y (b_ibpb bm) ltac:(lia)).
  assert (x mod b_ibpb bm <> y mod b_ibpb bm) by congruence. nia.
Qed.

Lemma entry_set_blk bm blk v x : bitmap_wf bm -> 0 <= blk < b_limit bm -> 0 <= v < 2 ^ b_bpb bm -> 0 <= x ->
  entry (bitmap_set_blk bm blk v) x = if decide (x = blk) then v else entry bm x.
Proof.
  intros Hwf Hblk Hv Hx. destruct (bpb_ibpb _ Hwf) as (_ & Hb & Hi).
  pose proof (slot_bounds _ Hwf blk). pose proof (slot_bounds _ Hwf x).
  rewrite set_blk_slot by done. rewrite (proj2 (Z.leb_gt _ _)) by lia. unfold entry. simpl.
  pose proof (proj2 (blk_inside _ Hwf blk) ltac:(lia)) as Hin. unfold b_size in Hin.
  pose proof (Z.div_pos blk (b_ibpb bm) ltac:(lia) ltac:(lia)).
  pose proof (Z.div_pos x (b_ibpb bm) ltac:(lia) ltac:(lia)).
  destruct (decide (x / b_ibpb bm = blk / b_ibpb bm)) as [E|E].
  - rewrite E. rewrite (nth_lookup (<[_:=_]> _)), list_lookup_insert_eq by lia. simpl.
    destruct (decide (x = blk)) as [-> |Hne]; [apply set_slot_same; lia|].
    apply set_slot_other; try lia. by destruct (slots_disjoint bm x blk); [..|lia|lia].
  - destruct (decide (x = blk)) as [-> |Hne]; [done|].
    rewrite nth_lookup, list_lookup_insert_ne, <- nth_lookup; [done|]. intros E'. apply E. lia.
Qed.

(** A bitmap is an array of values: setting the bits of a block changes
    what is read for this block and for no other, also when they share a
    byte; blocks outside of the bitmap are ignored and read as the default. *)
Lemma bitmap_set_get bm blk v :
  bitmap_wf bm -> 0 <= blk -> 0 <= v < 2 ^ b_bpb bm ->
  bitmap_wf (bitmap_set_blk bm blk v) /\
  forall x default, 0 <= x ->
    bitmap_get_blk (bitmap_set_blk bm blk v) x default =
    if decide (x = blk /\ blk < b_limit bm) then v else bitmap_get_blk bm x default.
Proof.
  intros Hwf Hblk Hv. destruct (set_blk_wf bm blk v Hwf) as (Hwf' & Hl & _). split; [done|].
  intros x default Hx. rewrite !bitmap_get_blk_entry, Hl by done. destruct (decide (blk < b_limit bm)).
  - rewrite entry_set_blk by (done || lia). repeat case_decide; destruct (Z.leb_spec (b_limit bm) x); (done || lia).
  - rewrite decide_False by lia. rewrite set_blk_slot by done. by rewrite (proj2 (Z.leb_le (b_limit bm) blk)) by lia.
Qed.

(** ** Resizing *)

Lemma bytes_per_unit bm : bitmap_wf bm ->
  u64 (b_blksize bm * 8) / b_bpb bm = b_blksize bm * b_ibpb bm /\ 1 <= b_blksize bm <= 2 ^ 31.
Proof.
  intros Hwf. destruct (bpb_ibpb _ Hwf) as (He & Hb & Hi). destruct (bw_blksize _ Hwf) as (n & Hn & ->).
  pose proof (Z.pow_pos_nonneg 2 n ltac:(lia) ltac:(lia)).
  pose proof (Z.pow_le_mono_r 2 n 31 ltac:(lia) ltac:(lia)). change (2 ^ 31) with 2147483648 in *.
  rewrite u64_small by (limits; lia). split; [|lia]. rewrite <- He.
  replace (2 ^ n * (b_bpb bm * b_ibpb bm)) with (2 ^ n * b_ibpb bm * b_bpb bm) by lia. by apply Z.div_mul; lia.
Qed.

(** [bitmap_resize] makes a bitmap that covers the new size of the disk,
    keeps the values of all blocks it had, and clears the others; it fails
    only when memory runs out, and then changes nothing. *)
Lemma bitmap_resize_correct mem bm new_size :
  bitmap_wf bm -> 0 <= new_size <= INT64_MAX ->
  let '(r, bm') := bitmap_resize mem bm new_size in
  bitmap_wf bm' /\ (mem = true -> r = 0) /\ (r = -1 -> bm' = bm) /\
  (r <> -1 ->
   r = 0 /\ new_size <= b_blksize bm * b_limit bm' < new_size + b_blksize bm * b_ibpb bm /\
   b_blksize bm' = b_blksize bm /\ b_bpb bm' = b_bpb bm /\
   forall blk, 0 <= blk ->
     entry bm' blk = if decide (blk < b_limit bm /\ blk < b_limit bm') then entry bm blk else 0).
Proof.
  intros Hwf Hs. destruct (bpb_ibpb _ Hwf) as (He & Hb & Hi). destruct (bytes_per_unit _ Hwf) as [Hu Hbs].
  unfold bitmap_resize. rewrite Hu. unfold DIV_ROUND_UP. set (unit := b_blksize bm * b_ibpb bm) in *.
  assert (Hun : 1 <= unit <= 2 ^ 34) by (subst unit; nia). change (2 ^ 34) with 17179869184 in Hun.
  rewrite u64_small by (limits; lia). set (n := (new_size + unit - 1) / unit).
  assert (Hn : new_size <= n * unit < new_size + unit /\ 0 <= n).
  { subst n. pose proof (Z.div_mod (new_size + unit - 1) unit ltac:(lia)).
    pose proof (Z.mod_pos_bound (new_size + unit - 1) unit ltac:(lia)).
    pose proof (Z.div_pos (new_size + unit - 1) unit ltac:(lia) ltac:(lia)). nia. }
  rewrite (proj2 (Z.ltb_ge _ _)) by (limits; nia). destruct ((0 <? n) && negb mem)%bool eqn:Hmem.
  { split; [done|]. split; [|done]. intros ->. by rewrite andb_false_r in Hmem. }
  set (l := take _ _ ++ _).
  assert (Hlen : b_size (set_bitmap l bm) = n).
  { unfold b_size. subst l. simpl. rewrite length_app, length_take, length_memset. unfold b_size. lia. }
  split; [apply set_bitmap_wf; [done|]; apply Forall_app; split|].
  { apply Forall_take, Hwf. }
  { apply Forall_replicate. lia. }
  split; [done|]. split; [done|]. intros _. split; [done|].
  assert (Hwf' : bitmap_wf (set_bitmap l bm)).
  { apply set_bitmap_wf; [done|]. apply Forall_app. split; [apply Forall_take, Hwf|apply Forall_replicate; lia]. }
  split; [unfold b_limit; rewrite Hlen; subst unit; simpl; nia|]. split; [done|]. split; [done|].
  intros blk Hblk. pose proof (blk_inside _ Hwf blk) as Hin. pose proof (blk_inside _ Hwf' blk) as Hin'.
  pose proof (Z.div_pos blk (b_ibpb bm) ltac:(lia) ltac:(lia)) as Hq. rewrite Hlen in Hin'. simpl in Hin'.
  destruct (decide (blk < b_limit (set_bitmap l bm))).
  2: { rewrite decide_False by lia. apply entry_outside; (done || lia). }
  unfold entry. cbn [set_bitmap b_bitmap b_bpb b_ibpb]. unfold b_size in *.
  rewrite (nth_lookup l). subst l. destruct (decide (blk < b_limit bm)) as [Hin2|Hin2].
  - rewrite decide_True by done. rewrite lookup_app_l by (rewrite length_take; lia).
    by rewrite lookup_take_lt, <- nth_lookup by lia.
  - rewrite decide_False by lia. rewrite lookup_app_r by (rewrite length_take; lia).
    rewrite <- nth_lookup. replace (nth _ _ 0) with 0.
    { rewrite Z.div_0_l by (apply Z.pow_nonzero; lia || apply slot_bounds, Hwf).
      by rewrite Z.mod_0_l by (apply Z.pow_nonzero; lia). }
    symmetry. unfold memset. rewrite nth_lookup. destruct (_ !! _) as [z|] eqn:E; [|done].
    by apply lookup_replicate in E as [-> _].
Qed.

(** ** Finding the next block *)

(** Blocks [lo, hi) are all zero. *)
Definition zero_entries bm (lo hi : Z) : Prop := forall blk, lo <= blk < hi -> entry bm blk = 0.

Section Next.
Context (bm : bitmap) (Hwf : bitmap_wf bm).
Notation ib := (b_ibpb bm).
Notation limit := (b_limit bm).

Lemma limit_divide : (ib | limit).
Proof. exists (b_size bm). done. Qed.

Lemma get_inside blk : 0 <= blk < limit -> bitmap_get_blk bm blk 0 = entry bm blk.
Proof. intros H. rewrite bitmap_get_blk_entry by done. by rewrite (proj2 (Z.leb_gt _ _)) by lia. Qed.

(** The first loop stops at a set block, or at the end of the byte. *)
Lemma align_loop_spec fuel : forall blk, 0 <= blk <= limit -> (-blk) mod ib <= Z.of_nat fuel ->
  match align_loop fuel bm limit blk with
  | Ok (inl x) => blk <= x < limit /\ zero_entries bm blk x /\ entry bm x <> 0
  | Ok (inr x) => blk <= x <= limit /\ zero_entries bm blk x /\ (ib | x)
  | Crash _ => False
  end.
Proof.
  destruct (bpb_ibpb _ Hwf) as (_ & _ & Hi). pose proof limit_divide as Hld.
  induction fuel as [|fuel IH]; intros blk Hb Hf; cbn [align_loop]; rewrite (land_ibpb _ Hwf);
    pose proof (Z.mod_pos_bound (- blk) ib ltac:(lia));
    (destruct (Z.ltb_spec blk limit); cbn [andb];
      [|split; [lia|]; split; [intros ? ?; lia|]; by replace blk with limit by lia]);
    (destruct (Z.eqb_spec (blk mod ib) 0) as [E|E]; cbn [negb];
      [split; [lia|]; split; [intros ? ?; lia|]; by apply Z.mod_divide; [lia|]|]).
  { apply E. rewrite <- (Z.opp_involutive blk). apply Z_mod_zero_opp_full. lia. }
  rewrite get_inside by lia. destruct (Z.eqb_spec (entry bm blk) 0) as [Hz|Hz]; cbn [negb].
  2: { split; [lia|]. split; [intros ? ?; lia|done]. }
  assert (Hnz : (- blk) mod ib <> 0).
  { intros E0. apply E. rewrite <- (Z.opp_involutive blk). by apply Z_mod_zero_opp_full. }
  assert (Hd : (- (blk + 1)) mod ib = (- blk) mod ib - 1).
  { replace (- (blk + 1)) with (- blk - 1) by lia. symmetry. apply (Z.mod_unique _ _ ((- blk) / ib)); [lia|].
    pose proof (Z.div_mod (- blk) ib ltac:(lia)). lia. }
  specialize (IH (blk + 1) ltac:(lia) ltac:(lia)).
  assert (Hext : forall x, zero_entries bm (blk + 1) x -> zero_entries bm blk x).
  { intros x Hx y Hy. destruct (decide (y = blk)) as [-> |]; [done|]. apply Hx. lia. }
  destruct (align_loop fuel bm limit (blk + 1)) as [[x|x]|c]; [..|done].
  - destruct IH as (Hx & Hze & Hne). split; [lia|]. auto.
  - destruct IH as (Hx & Hze & Hdv). split; [lia|]. auto.
Qed.

(** The second loop finds the set block of a byte that is not zero. *)
Lemma bit_loop_spec fuel : forall blk x, 0 <= blk <= x -> x < limit -> x - blk < Z.of_nat fuel -> entry bm x <> 0 ->
  exists y, bit_loop fuel bm limit blk = Ok y /\ blk <= y <= x /\ zero_entries bm blk y /\ entry bm y <> 0.
Proof.
  induction fuel as [|fuel IH]; intros blk x Hb Hx Hf Hne; [lia|]. cbn [bit_loop].
  rewrite (proj2 (Z.ltb_lt blk limit)), get_inside by lia.
  destruct (Z.eqb_spec (entry bm blk) 0) as [Hz|Hz]; cbn [negb].
  - assert (blk <> x) by congruence. destruct (IH (blk + 1) x) as (y & -> & Hy & Hze & Hny); [lia..|done|].
    exists y. split; [done|]. split; [lia|]. split; [|done].
    intros z Hzz. destruct (decide (z = blk)) as [-> |]; [done|]. apply Hze. lia.
  - exists blk. split; [done|]. split; [lia|]. split; [|done]. intros ? ?. lia.
Qed.

(** A byte is zero exactly if its entries are. *)
Lemma byte_zero i : 0 <= i < b_size bm ->
  nth (Z.to_nat i) (b_bitmap bm) 0 = 0 <-> zero_entries bm (i * ib) (i * ib + ib).
Proof.
  intros Hi. destruct (bpb_ibpb _ Hwf) as (He & Hb & Hib). split.
  - intros Hz blk Hblk. unfold entry.
    replace (blk / ib) with i by (apply (Z.div_unique _ _ _ (blk - i * ib)); lia).
    rewrite Hz, Z.div_0_l, Z.mod_0_l; [done|apply Z.pow_nonzero; [lia|]..]; [lia|].
    apply slot_bounds, Hwf.
  - intros Hz. assert (Hby : 0 <= nth (Z.to_nat i) (b_bitmap bm) 0 <= 255).
    { pose proof (bw_bytes _ Hwf) as Hall. rewrite Forall_lookup in Hall. apply (Hall (Z.to_nat i)).
      apply lookup_nth. unfold b_size in Hi. lia. }
    apply Z.bits_inj'. intros j Hj. rewrite Z.bits_0. destruct (decide (j < 8)).
    2: { rewrite <- (Z.mod_small (nth _ _ _) (2 ^ 8)) by lia. apply Z.mod_pow2_bits_high. lia. }
    pose proof (Z.div_mod j (b_bpb bm) ltac:(lia)) as Hdm. pose proof (Z.mod_pos_bound j (b_bpb bm) ltac:(lia)) as Hm.
    set (q := j / b_bpb bm) in *. assert (Hq : 0 <= q < ib) by nia.
    assert (Hslot : entry bm (i * ib + q) = 0) by (apply Hz; lia).
    unfold entry in Hslot.
    replace ((i * ib + q) / ib) with i in Hslot by (apply (Z.div_unique _ _ _ q); lia).
    replace ((i * ib + q) mod ib) with q in Hslot by (apply (Z.mod_unique _ _ i); lia).
    apply (f_equal (fun z => Z.testbit z (j mod b_bpb bm))) in Hslot.
    rewrite Z.bits_0, slot_testbit in Hslot by nia. rewrite (proj2 (Z.ltb_lt _ _)) in Hslot by lia. simpl in Hslot.
    rewrite <- Hslot. f_equal. lia.
Qed.

(** A byte that is not zero has an entry that is not. *)
Lemma byte_nonzero i : 0 <= i < b_size bm -> nth (Z.to_nat i) (b_bitmap bm) 0 <> 0 ->
  exists blk, i * ib <= blk < i * ib + ib /\ entry bm blk <> 0.
Proof.
  intros Hi Hne.
  assert (Hex : Exists (not ∘ (fun blk => entry bm blk = 0)) (seqZ (i * ib) ib)).
  { apply not_Forall_Exists; [apply _|]. intros Hall. apply Hne, byte_zero; [done|]. intros blk Hblk.
    rewrite Forall_forall in Hall. apply Hall, elem_of_seqZ. lia. }
  apply Exists_exists in Hex as (blk & Hin & Hb). apply elem_of_seqZ in Hin. eauto.
Qed.
End Next.

Lemma bitmap_next_spec bm blk :
  bitmap_wf bm -> 0 <= blk <= b_limit bm ->
  exists r, bitmap_next bm blk = Ok r /\
    ((r = -1 /\ zero_entries bm blk (b_limit bm)) \/
     (blk <= r < b_limit bm /\ zero_entries bm blk r /\ entry bm r <> 0)).
Proof.
  intros Hwf Hb. destruct (bpb_ibpb _ Hwf) as (_ & _ & Hi). unfold bitmap_next.
  change (b_size bm * b_ibpb bm) with (b_limit bm).
  pose proof (align_loop_spec bm Hwf 8 blk Hb) as Hal. specialize (Hal ltac:(pose proof (Z.mod_pos_bound (- blk) (b_ibpb bm) ltac:(lia)); lia)).
  destruct (align_loop 8 bm (b_limit bm) blk) as [[x|x]|c]; [..|done].
  { exists x. split; [done|]. right. tauto. }
  destruct Hal as (Hx & Hz & q & ->). destruct (Z.eqb_spec (q * b_ibpb bm) (b_limit bm)) as [E|E].
  { exists (-1). split; [done|]. left. by rewrite <- E. }
  rewrite (blk_offset_div _ Hwf), Z.div_mul by lia.
  assert (Hq : 0 <= q < b_size bm) by (unfold b_limit in *; nia).
  rewrite (proj2 (Z.ltb_ge _ _)) by lia.
  assert (Hskip : forall k, (forall j, (j < k)%nat -> nth j (drop (Z.to_nat q) (b_bitmap bm)) 0 = 0) ->
    q + Z.of_nat k <= b_size bm -> zero_entries bm blk ((q + Z.of_nat k) * b_ibpb bm)).
  { intros k Hk Hle y Hy. destruct (decide (y < q * b_ibpb bm)); [apply Hz; lia|].
    assert (Hd : y / b_ibpb bm < q + Z.of_nat k) by (apply Z.div_lt_upper_bound; lia).
    assert (Hd' : q <= y / b_ibpb bm) by (apply Z.div_le_lower_bound; lia).
    pose proof (Z.div_mod y (b_ibpb bm) ltac:(lia)). pose proof (Z.mod_pos_bound y (b_ibpb bm) ltac:(lia)).
    apply (byte_zero bm Hwf (y / b_ibpb bm)); [lia| |nia].
    specialize (Hk (Z.to_nat (y / b_ibpb bm - q)) ltac:(lia)).
    rewrite nth_lookup, lookup_drop, <- nth_lookup in Hk. etransitivity; [|exact Hk]. f_equal. lia. }
  destruct (next_non_zero _) as [i|] eqn:En.
  - apply next_non_zero_Some in En as (Hl & Hn & Hj). rewrite length_drop in Hl.
    rewrite nth_lookup, lookup_drop, <- nth_lookup in Hn. unfold b_size in *.
    replace (Z.to_nat q + i)%nat with (Z.to_nat (q + Z.of_nat i)) in Hn by lia.
    destruct (byte_nonzero bm Hwf (q + Z.of_nat i)) as (y & Hy & Hey); [unfold b_size; lia|done|].
    rewrite Z.shiftl_mul_pow2, <- (bw_ibpb _ Hwf) by (pose proof (bw_shift _ Hwf); lia).
    destruct (bit_loop_spec bm Hwf 8 ((q + Z.of_nat i) * b_ibpb bm) y) as (r & Hr & Hry & Hrz & Hre);
      [nia|unfold b_limit, b_size; nia|lia|exact Hey|].
    exists r. split; [done|]. right. split; [|split; [|done]].
    + assert (q * b_ibpb bm <= (q + Z.of_nat i) * b_ibpb bm) by nia.
      assert (y < b_limit bm) by (unfold b_limit, b_size; nia). lia.
    + intros z Hzz. destruct (decide (z < (q + Z.of_nat i) * b_ibpb bm)); [|apply Hrz; lia].
      apply (Hskip i); [done|lia..].
  - apply next_non_zero_None in En. rewrite all_zero_nth in En. exists (-1). split; [done|]. left.
    unfold b_limit. replace (b_size bm) with (q + Z.of_nat (Z.to_nat (b_size bm - q))) at 1 by lia.
    split; [done|]. apply Hskip; [auto|lia].
Qed.

(** C32: [bitmap_next] is the reference search: from a block inside the
    bitmap or at its end it returns the first block at or after it whose
    value is not 0, and -1 exactly if there is none; it never reads outside
    of the bitmap and does not reach [abort]. *)
Theorem bitmap_next_first bm blk :
  bitmap_wf bm -> 0 <= blk <= b_limit bm ->
  exists r, bitmap_next bm blk = Ok r /\
    ((r = -1 /\ zero_entries bm blk (b_limit bm)) \/
     (blk <= r < b_limit bm /\ zero_entries bm blk r /\ entry bm r <> 0)).
Proof. apply bitmap_next_spec. Qed.

(** Unlike [bitmap_get_blk] and [bitmap_set_blk], [bitmap_next] does not
    check that the block is inside the bitmap. *)
Lemma bitmap_next_out_of_bounds bm blk :
  bitmap_wf bm -> blk mod b_ibpb bm = 0 -> b_limit bm + b_ibpb bm <= blk ->
  bitmap_next bm blk = Crash OutOfBounds.
Proof.
  intros Hwf Ha Hb. destruct (bpb_ibpb _ Hwf) as (_ & _ & Hi). unfold bitmap_next.
  change (b_size bm * b_ibpb bm) with (b_limit bm). cbn [align_loop].
  rewrite (proj2 (Z.ltb_ge _ _)) by lia. cbn [andb]. rewrite (proj2 (Z.eqb_neq _ _)) by lia.
  rewrite (blk_offset_div _ Hwf). rewrite (proj2 (Z.ltb_lt _ _)); [done|].
  assert (b_size bm + 1 <= blk / b_ibpb bm); [|lia].
  apply Z.div_le_lower_bound; [lia|]. unfold b_limit in Hb. lia.
Qed.

(** ** Concrete bitmaps *)

(** Two bits per block, 11 blocks. *)
Definition witness_bitmap : bitmap := Bitmap 4096 2 1 4 [0; 27; 192].

Lemma witness_bitmap_wf : bitmap_wf witness_bitmap.
Proof. split; simpl; [lia|done|done|by exists 12|]. repeat constructor; lia. Qed.

Lemma bitmap_set_get_witness :
  bitmap_get_blk (bitmap_set_blk witness_bitmap 5 1) 5 0 = 1 /\
  bitmap_get_blk (bitmap_set_blk witness_bitmap 5 1) 6 0 = bitmap_get_blk witness_bitmap 6 0.
Proof.
  destruct (bitmap_set_get witness_bitmap 5 1 witness_bitmap_wf ltac:(lia) ltac:(simpl; lia)) as [_ H].
  rewrite !H by lia. split; reflexivity.
Defined.

Lemma bitmap_resize_correct_witness :
  entry (snd (bitmap_resize true witness_bitmap 65537)) 4 = entry witness_bitmap 4 /\
  entry (snd (bitmap_resize true witness_bitmap 65537)) 15 = 0.
Proof.
  pose proof (bitmap_resize_correct true witness_bitmap 65537 witness_bitmap_wf ltac:(limits; lia)) as H.
  destruct (bitmap_resize true witness_bitmap 65537) as [r bm'] eqn:E. destruct H as (_ & Hr & _ & H).
  rewrite (Hr eq_refl) in H. destruct (H ltac:(lia)) as (_ & Hl & _ & _ & He). simpl in Hl |- *.
  change (b_limit witness_bitmap) with 12 in He. rewrite !He by lia.
  rewrite decide_True by lia. by rewrite decide_False by lia.
Defined.

Lemma bitmap_next_first_witness : exists r, bitmap_next witness_bitmap 8 = Ok r /\ 8 <= r < 12.
Proof.
  destruct (bitmap_next_first witness_bitmap 8 witness_bitmap_wf ltac:(vm_compute; done)) as (r & Hr & H).
  exists r. split; [done|]. destruct H as [[_ H]|[H _]]; [|exact H].
  specialize (H 11 ltac:(vm_compute; done)). discriminate.
Defined.

Example bitmap_next_example : (bitmap_next witness_bitmap 1, bitmap_next witness_bitmap 8) = (Ok 4, Ok 11).
Proof. vm_compute. reflexivity. Qed.
