(* ===== verification/Blocks.v ===== *)
(** * Requests in blocks

    [filters/cow/cow.c] and [filters/cache/cache.c] split requests in the same
    way: an unaligned head, whole blocks, and an unaligned tail, where the
    ends go through a bounce buffer of one block.  They differ in what reads
    and writes blocks ([blk.c] of the filter), which is a parameter here. *)

From S2P Require Import Prelude NbdProtocol Extents Exports Server Connections Backend Plugin Filter Bytes Io Parse Layer ExtentsQuery Bitmap.

(** [enum cor_mode]: whether reads copy blocks into the filter's file; with
    [COR_PATH], whenever a path exists. *)
Inductive cor_mode : Type := COR_OFF | COR_ON | COR_PATH.

(** [bitmap_set_blk] for [n] blocks. *)
Fixpoint set_run (n : nat) (bm : bitmap) (blk v : Z) : bitmap :=
  match n with
  | O => bm
  | S n => set_run n (bitmap_set_blk bm blk v) (blk + 1) v
  end.

Section Requests.
Context {W : Type} (blksize : Z) (malloc : M W bool).
(* [blk_read]: the result, the error number and the block; the same for a
   number of blocks; [blk_write] *)
Context (read : Z -> Z -> M W (Z * Z * list Z)).
Context (read_multiple : Z -> Z -> Z -> M W (Z * Z * list Z)).
Context (write : Z -> list Z -> Z -> M W (Z * Z)).

(** The bounce buffer: allocated, not needed, or a failed allocation. *)
Definition alloc_block (needed : bool) : M W (option bool) :=
  if needed then ok ← malloc; mret (if (ok : bool) then Some true else None)
  else mret (Some false).

Definition is_unaligned (count offset : Z) : M W bool :=
  a ← IS_ALIGNED (Z.lor count offset) blksize;
  mret (negb a).

(** The start of a request that needs the buffer unless it is aligned. *)
Definition with_block {A} (count offset : Z) (failed : A) (request : bool -> M W A) : M W A :=
  unaligned ← is_unaligned count offset;
  block ← alloc_block unaligned;
  match block with None => mret failed | Some block => request block end.

Definition pread_request (block : bool) (count offset err : Z) : M W (Z * Z * list Z) :=
  let blknum := offset / blksize in
  let blkoffs := offset mod blksize in
  (* Unaligned head *)
  '(r, err, buf, count, blknum) ←
    (if negb (blkoffs =? 0) then
       let n := Z.min (blksize - blkoffs) count in
       cassert block;;
       '(r, err, b) ← read blknum err;
       mret (r, err, sub b blkoffs n, u32 (count - n), blknum + 1)
     else mret (0, err, [], count, blknum));
  if r =? -1 then mret (-1, err, [])
  else
    (* Aligned body *)
    let nrblocks := count / blksize in
    '(r, err, buf, count, blknum) ←
      (if 0 <? nrblocks then
         '(r, err, b) ← read_multiple blknum nrblocks err;
         mret (r, err, buf ++ b, u32 (count - nrblocks * blksize), blknum + nrblocks)
       else mret (0, err, buf, count, blknum));
    if r =? -1 then mret (-1, err, [])
    (* Unaligned tail *)
    else if negb (count =? 0) then
      cassert block;;
      '(r, err, b) ← read blknum err;
      if r =? -1 then mret (-1, err, [])
      else mret (0, err, buf ++ sub b 0 count)
    else mret (0, err, buf).

(** Read-modify-write of a block, under a lock. *)
Definition rmw (new : list Z) (blkoffs blknum err : Z) : M W (Z * Z) :=
  '(r, err, b) ← read blknum err;
  if r =? -1 then mret (-1, err)
  else write blknum (splice b new blkoffs) err.

Fixpoint pwrite_blocks (fuel : nat) (buf : list Z) (count blknum err : Z) : M W (Z * Z * list Z * Z * Z) :=
  if blksize <=? count then
    match fuel with
    | O => fail OutOfFuel
    | S fuel =>
        '(r, err) ← write blknum (take (Z.to_nat blksize) buf) err;
        if r =? -1 then mret (-1, err, buf, count, blknum)
        else pwrite_blocks fuel (drop (Z.to_nat blksize) buf) (u32 (count - blksize)) (blknum + 1) err
    end
  else mret (0, err, buf, count, blknum).

(** The head, body and tail of a write. *)
Definition pwrite_request (block : bool) (buf : list Z) (count offset err : Z) : M W (Z * Z) :=
  let blknum := offset / blksize in
  let blkoffs := offset mod blksize in
  '(r, err, buf, count, blknum) ←
    (if negb (blkoffs =? 0) then
       let n := Z.min (blksize - blkoffs) count in
       cassert block;;
       '(r, err) ← rmw (take (Z.to_nat n) buf) blkoffs blknum err;
       mret (r, err, drop (Z.to_nat n) buf, u32 (count - n), blknum + 1)
     else mret (0, err, buf, count, blknum));
  if r =? -1 then mret (-1, err)
  else
    '(r, err, buf, count, blknum) ← pwrite_blocks (Z.to_nat count) buf count blknum err;
    if r =? -1 then mret (-1, err)
    else if negb (count =? 0) then
      cassert block;;
      '(r, err) ← rmw (take (Z.to_nat count) buf) 0 blknum err;
      mret (if r =? -1 then -1 else 0, err)
    else mret (0, err).

(** The loop over whole blocks of a request without data. *)
Fixpoint for_blocks (fuel : nat) (op : Z -> Z -> M W (Z * Z)) (count blknum err : Z) : M W (Z * Z * Z * Z) :=
  if blksize <=? count then
    match fuel with
    | O => fail OutOfFuel
    | S fuel =>
        '(r, err) ← op blknum err;
        if r =? -1 then mret (-1, err, count, blknum)
        else for_blocks fuel op (u32 (count - blksize)) (blknum + 1) err
    end
  else mret (0, err, count, blknum).

(** Zeroing and trimming: the unaligned ends are overwritten with zeroes,
    [op] is done to whole blocks. *)
Definition zero_request (block : bool) (op : Z -> Z -> M W (Z * Z)) (count offset err : Z) : M W (Z * Z) :=
  let blknum := offset / blksize in
  let blkoffs := offset mod blksize in
  '(r, err, count, blknum) ←
    (if negb (blkoffs =? 0) then
       let n := Z.min (blksize - blkoffs) count in
       if negb block then fail NullPointer
       else
         '(r, err) ← rmw (memset 0 n) blkoffs blknum err;
         mret (r, err, u32 (count - n), blknum + 1)
     else mret (0, err, count, blknum));
  if r =? -1 then mret (-1, err)
  else
    '(r, err, count, blknum) ← for_blocks (Z.to_nat count) op count blknum err;
    if r =? -1 then mret (-1, err)
    else if negb (count =? 0) then
      if negb block then fail NullPointer
      else
        '(r, err) ← rmw (memset 0 count) 0 blknum err;
        mret (if r =? -1 then -1 else 0, err)
    else mret (0, err).
End Requests.

(** ** Correctness *)

Section Correct.
Context {W : Type} (inv : st W -> Prop) (disk : st W -> Z -> Z) (settled : st W -> Z -> Prop) (bs size max_read : Z).
Context (Hbs : exists n, 0 <= n <= 31 /\ bs = 2 ^ n) (Hsize : 0 <= size <= INT64_MAX).

Notation same := (same_disk inv disk settled).
Notation wrote' := (wrote inv disk settled).

Lemma bs_pos : 1 <= bs <= 2147483648.
Proof.
  destruct Hbs as (n & Hn & ->). pose proof (Z.pow_pos_nonneg 2 n ltac:(lia) ltac:(lia)).
  pose proof (Z.pow_le_mono_r 2 n 31 ltac:(lia) ltac:(lia)). lia.
Qed.

(** [data] are the bytes of the disk from [start] on, as far as it goes. *)
Definition agrees (s : st W) (start : Z) (data : list Z) : Prop :=
  forall x, start <= x < start + Z.of_nat (length data) -> x < size ->
    nth (Z.to_nat (x - start)) data 0 = disk s x.

Lemma agrees_same s s' start data : same s s' -> agrees s start data -> agrees s' start data.
Proof. intros [_ Hu] Ha x Hx Hs. destruct (Hu x I) as [-> _]. auto. Qed.

Lemma agrees_app s start d1 d2 :
  agrees s start d1 -> agrees s (start + Z.of_nat (length d1)) d2 -> agrees s start (d1 ++ d2).
Proof.
  intros H1 H2 x Hx Hs. rewrite length_app in Hx. destruct (decide (x < start + Z.of_nat (length d1))).
  - rewrite app_nth1 by lia. apply H1; lia.
  - rewrite app_nth2 by lia. rewrite <- (H2 x) by lia. f_equal. lia.
Qed.

Lemma agrees_sub s start data o n :
  agrees s start data -> 0 <= o -> 0 <= n -> o + n <= Z.of_nat (length data) -> start + o + n <= size ->
  sub data o n = slice (disk s) (start + o) n.
Proof.
  intros Ha Ho Hn Hl Hs. symmetry.
  assert (E : Z.of_nat (length (sub data o n)) = n) by (rewrite length_sub; lia).
  rewrite <- E at 1. apply slice_of_list. rewrite length_sub by lia. intros i Hi. rewrite nth_sub by lia.
  rewrite <- (Ha (start + o + i)) by lia. f_equal. lia.
Qed.

(** What the parameters do. *)
Definition block_read_ok (start n : Z) (s : st W) (m : M W (Z * Z * list Z)) : Prop :=
  wp m (fun '(r, err', data) s' =>
    same s s' /\ fails_errno r err' /\ (r <> -1 -> Z.of_nat (length data) = n * bs /\ agrees s' start data)) s.

Definition reads (read : Z -> Z -> M W (Z * Z * list Z)) : Prop := forall blk err s,
  inv s -> errno_ok err -> 0 <= blk -> blk * bs < size -> block_read_ok (blk * bs) 1 s (read blk err).

Definition reads_multiple (read_multiple : Z -> Z -> Z -> M W (Z * Z * list Z)) : Prop := forall blk n err s,
  inv s -> errno_ok err -> 0 <= blk -> 1 <= n -> (blk + n - 1) * bs < size -> n * bs <= UINT32_MAX -> n * bs <= max_read ->
  block_read_ok (blk * bs) n s (read_multiple blk n err).

(** A block that is written, as far as the disk goes. *)
Definition writes (fua : bool) (write : Z -> list Z -> Z -> M W (Z * Z)) : Prop := forall blk data err s,
  inv s -> errno_ok err -> 0 <= blk -> blk * bs < size -> Z.of_nat (length data) = bs ->
  wp (write blk data err) (fun '(r, err') s' =>
    wrote' (fun x => nth (Z.to_nat (x - blk * bs)) data 0) (Z.min bs (size - blk * bs)) (blk * bs) fua r err' s s') s.

Definition allocates (malloc : M W bool) : Prop := forall s, inv s -> wp malloc (fun _ s' => same s s') s.

Context (malloc : M W bool) (Hmalloc : allocates malloc).
Context (read : Z -> Z -> M W (Z * Z * list Z)) (Hread : reads read).

Lemma wp_alloc_block needed s : inv s ->
  wp (alloc_block malloc needed) (fun o s' => same s s' /\ (o = None \/ o = Some needed)) s.
Proof.
  intros Hi. unfold alloc_block. destruct needed.
  - apply wp_bind. eapply wp_mono; [by apply Hmalloc|]. intros [] s' Hs; apply wp_ret; auto.
  - apply wp_ret. split; [by apply unchanged_refl|auto].
Qed.

Lemma wp_is_unaligned count offs (Q : bool -> st W -> Prop) s :
  (forall u, (u = false -> offs mod bs = 0 /\ count mod bs = 0) -> Q u s) -> wp (is_unaligned bs count offs) Q s.
Proof.
  intros HQ. unfold is_unaligned. apply wp_bind. destruct Hbs as (n & Hn & E). rewrite E in *.
  apply wp_IS_ALIGNED; [lia|]. apply wp_ret, HQ. intros Hu. apply negb_false_iff, Z.eqb_eq in Hu.
  rewrite <- !land_pred_pow2 in * by lia. rewrite Z.land_lor_distr_l in Hu.
  apply Z.lor_eq_0_iff in Hu. tauto.
Qed.

(** The bounce buffer is there when it is needed. *)
Definition buffer_ok (block : bool) (count offs : Z) : Prop :=
  block = false -> offs mod bs = 0 /\ count mod bs = 0.

Lemma wp_with_block {A} count offs (failed : A) (request : bool -> M W A) (Q : A -> st W -> Prop) s :
  inv s -> (forall s', same s s' -> Q failed s') ->
  (forall block s', same s s' -> buffer_ok block count offs -> wp (request block) Q s') ->
  wp (with_block bs malloc count offs failed request) Q s.
Proof.
  intros Hi Hfail Hk. apply wp_bind, wp_is_unaligned. intros u Hu. apply wp_bind.
  eapply wp_mono; [by apply wp_alloc_block|]. intros o s' [Hsd [-> | ->]]; [apply wp_ret; auto|]. auto.
Qed.

Lemma buffer_needed block count offs : buffer_ok block count offs -> offs mod bs <> 0 -> block = true.
Proof. intros Hb Ho. destruct block; [done|]. by destruct (Hb eq_refl). Qed.

Lemma buffer_tail block count offs keep : buffer_ok block count offs ->
  (offs mod bs = 0 -> keep = 0) -> (count - keep) mod bs <> 0 -> block = true.
Proof.
  intros Hb Hk Ht. destruct block; [done|]. destruct (Hb eq_refl) as [Eo Ec]. rewrite Hk, Z.sub_0_r in Ht; done.
Qed.

(** Where the next block of a request starts, if there is one. *)
Definition at_block (count o blk : Z) : Prop := 0 <= blk /\ (0 < count -> o = blk * bs).

Lemma at_block_head count offs : 0 <= offs -> 0 < count ->
  let o := offs mod bs in
  let keep := Z.min (bs - o) count in
  0 < keep <= count /\ at_block (count - keep) (offs + keep) (offs / bs + 1) /\
  offs = offs / bs * bs + o /\ 0 <= o < bs /\ 0 <= offs / bs.
Proof.
  intros Ho Hc o keep. pose proof bs_pos. pose proof (Z.div_mod offs bs ltac:(lia)).
  pose proof (Z.mod_pos_bound offs bs ltac:(lia)). pose proof (Z.div_pos offs bs Ho ltac:(lia)).
  unfold at_block. subst o keep. lia.
Qed.

Lemma at_block_aligned count offs : 0 <= offs -> offs mod bs = 0 -> at_block count offs (offs / bs).
Proof.
  intros Ho E. pose proof bs_pos. pose proof (Z.div_mod offs bs ltac:(lia)).
  pose proof (Z.div_pos offs bs Ho ltac:(lia)). unfold at_block. lia.
Qed.

Lemma pread_request_correct read_multiple (Hmulti : reads_multiple read_multiple) block count offs err s :
  inv s -> errno_ok err -> 0 <= offs -> 0 < count <= UINT32_MAX -> offs + count <= size -> count <= max_read ->
  buffer_ok block count offs ->
  wp (pread_request bs read read_multiple block count offs err) (fun '(r, err', buf) s' =>
    same s s' /\ fails_errno r err' /\ (r <> -1 -> buf = slice (disk s) offs count)) s.
Proof.
  intros Hi He Ho Hc Hle Hmax Hblock. pose proof bs_pos. unfold pread_request.
  destruct (at_block_head count offs Ho ltac:(lia)) as (Hk & Hat & Hoffs & Hob & Hb0).
  set (o := offs mod bs) in *. set (keep := if negb (o =? 0) then Z.min (bs - o) count else 0).
  (* head *)
  apply wp_bind. eapply (wp_mono _ (fun '(r, e, buf, count1, blk1) s1 =>
    same s s1 /\ fails_errno r e /\ (r <> -1 -> buf = slice (disk s) offs keep /\ count1 = count - keep /\
      at_block (count - keep) (offs + keep) blk1 /\ 0 <= keep <= count))).
  { subst keep. destruct (Z.eqb_spec o 0) as [E|E]; cbn [negb].
    - apply wp_ret. split; [by apply unchanged_refl|]. split; [split; [done|lia]|]. intros _. rewrite Z.sub_0_r, Z.add_0_r.
      split; [done|]. split; [done|]. split; [by apply at_block_aligned|]. lia.
    - apply wp_bind, wp_assert. split; [by apply (buffer_needed _ _ _ Hblock)|]. apply wp_bind.
      eapply wp_mono; [apply Hread; [done|done|done|lia]|].
      intros [[r e] data] s2 (Hsd2 & Hf & Hdata). apply wp_ret. set (n := Z.min (bs - o) count) in *.
      split; [exact Hsd2|]. split; [done|]. intros Hr. destruct (Hdata Hr) as [Hlen Hag].
      rewrite u32_small by (limits; lia). split; [|split; [done|]; split; [done|]; lia].
      rewrite (agrees_sub s2 _ data o n Hag) by lia. rewrite (same_disk_slice inv disk settled s s2) by done. f_equal. lia. }
  intros [[[[r1 e1] buf1] count1] blk1] s1 (Hsd1 & Hf1 & Hp1).
  destruct (Z.eqb_spec r1 (-1)) as [-> |Hr1]; [by apply wp_ret|].
  destruct (Hp1 Hr1) as (-> & -> & [Hb1 Hat1] & Hkk). clear Hp1. set (c1 := count - keep) in *.
  pose proof (Z.div_mod c1 bs ltac:(lia)) as Hdm. pose proof (Z.mod_pos_bound c1 bs ltac:(lia)) as Hmb.
  pose proof (Z.div_pos c1 bs ltac:(lia) ltac:(lia)) as Hq. set (q := c1 / bs) in *.
  (* body *)
  apply wp_bind. eapply (wp_mono _ (fun '(r, e, buf, count2, blk2) s2 =>
    same s s2 /\ fails_errno r e /\ (r <> -1 -> buf = slice (disk s) offs (keep + q * bs) /\
      count2 = c1 mod bs /\ blk2 = blk1 + q))).
  { destruct (Z.ltb_spec 0 q) as [Hpos|Hz].
    - apply wp_bind. specialize (Hat1 ltac:(nia)). eapply wp_mono.
      { apply Hmulti; [apply Hsd1|apply Hf1|done|lia|nia|limits; nia|nia]. }
      intros [[r e] data] s3 (Hsd3 & Hf & Hdata). apply wp_ret.
      assert (Hs3 : same s s3) by (eapply same_disk_trans; [exact Hsd1|exact Hsd3]).
      split; [exact Hs3|]. split; [done|]. intros Hr. destruct (Hdata Hr) as [Hlen Hag].
      rewrite u32_small by (limits; nia). split; [|split; [lia|done]].
      rewrite slice_app by nia. f_equal. rewrite Hat1, <- (same_disk_slice inv disk settled s s3) by done.
      rewrite <- (Z.add_0_r (blk1 * bs)), <- (agrees_sub s3 _ data 0 (q * bs) Hag) by nia.
      unfold sub. change (Z.to_nat 0) with O. by rewrite drop_0, take_ge by (rewrite <- Hlen; lia).
    - apply wp_ret. split; [done|]. split; [split; [apply Hf1|lia]|]. intros _. replace q with 0 by lia.
      rewrite Z.mul_0_l, Z.add_0_r. split; [done|]. split; [|lia]. lia. }
  intros [[[[r2 e2] buf2] count2] blk2] s2 (Hsd2 & Hf2 & Hp2).
  destruct (Z.eqb_spec r2 (-1)) as [-> |Hr2]; [by apply wp_ret|].
  destruct (Hp2 Hr2) as (-> & -> & ->). clear Hp2.
  (* tail *)
  destruct (Z.eqb_spec (c1 mod bs) 0) as [Et|Et]; cbn [negb].
  { apply wp_ret. split; [done|]. split; [split; [apply Hf2|lia]|]. intros _. f_equal. lia. }
  specialize (Hat1 ltac:(nia)). apply wp_bind, wp_assert.
  split; [eapply (buffer_tail block count offs keep Hblock); [|done]; subst keep o; by intros ->|].
  apply wp_bind. eapply wp_mono; [apply Hread; [apply Hsd2|apply Hf2|lia|nia]|].
  intros [[r e] data] s4 (Hsd4 & Hf & Hdata).
  assert (Hs4 : same s s4) by (eapply same_disk_trans; [exact Hsd2|exact Hsd4]).
  destruct (Z.eqb_spec r (-1)) as [-> |Hr]; [by apply wp_ret|]. apply wp_ret.
  split; [exact Hs4|]. split; [split; [apply Hf|lia]|]. intros _. destruct (Hdata Hr) as [Hlen Hag].
  rewrite (agrees_sub s4 _ data 0 (c1 mod bs) Hag) by nia. rewrite (same_disk_slice inv disk settled s s4) by done.
  assert (Hcount : count = keep + q * bs + c1 mod bs) by (subst c1; lia).
  rewrite Hcount at 1. rewrite (slice_app _ offs (keep + q * bs)) by nia. do 2 f_equal. nia.
Qed.

(** ** Writing *)

Context (write : Z -> list Z -> Z -> M W (Z * Z)) (fua : bool) (Hwrite : writes fua write).

(** A written block as a part of a write of [D']. *)
Lemma wp_block_write D' data blk o n err s :
  inv s -> errno_ok err -> 0 <= blk -> blk * bs <= o -> 0 < n -> o + n <= (blk + 1) * bs -> o + n <= size ->
  Z.of_nat (length data) = bs ->
  (forall x, in_request n o x -> nth (Z.to_nat (x - blk * bs)) data 0 = D' x) ->
  (forall x, blk * bs <= x < (blk + 1) * bs -> x < size -> ~ in_request n o x ->
     nth (Z.to_nat (x - blk * bs)) data 0 = disk s x) ->
  wp (write blk data err) (fun '(r, err') s' => wrote' D' n o fua r err' s s') s.
Proof.
  intros Hi He Hb Ho Hn Hend Hsz Hlen Hin Hout. eapply wp_mono; [apply Hwrite; (done || lia)|]. intros [r e] s' Hw.
  eapply (wrote_shrink _ _ _ _ _ _ n o) in Hw.
  - eapply wrote_ext; [|exact Hw]. simpl. auto.
  - unfold in_request. intros x Hx. lia.
  - unfold in_request. intros x Hx Hx'. apply Hout; [lia|lia|done].
Qed.

Lemma wp_rmw D' new o blk err s :
  inv s -> errno_ok err -> 0 <= blk -> 0 <= o -> o + Z.of_nat (length new) <= bs ->
  new <> [] -> blk * bs + o + Z.of_nat (length new) <= size ->
  (forall x, in_request (Z.of_nat (length new)) (blk * bs + o) x -> nth (Z.to_nat (x - (blk * bs + o))) new 0 = D' x) ->
  wp (rmw read write new o blk err) (fun '(r, err') s' =>
    wrote' D' (Z.of_nat (length new)) (blk * bs + o) fua r err' s s') s.
Proof.
  intros Hi He Hb Ho Hle Hne Hsz HD. pose proof bs_pos. assert (0 < Z.of_nat (length new)) by (destruct new; simpl; [done|lia]).
  unfold rmw. apply wp_bind. eapply wp_mono; [apply Hread; [done|done|done|lia]|].
  intros [[r e] data] s2 (Hsd2 & Hf & Hdata). destruct (Z.eqb_spec r (-1)) as [-> |Hr].
  { by apply wp_ret, wrote_unchanged. }
  destruct (Hdata Hr) as [Hlen Hag]. eapply wp_mono.
  { apply (wp_block_write D' (splice data new o) blk (blk * bs + o) (Z.of_nat (length new))); try done; try lia; [apply Hsd2|apply Hf|..].
    - rewrite length_splice by lia. lia.
    - intros x Hx. unfold in_request in Hx. rewrite nth_splice by lia. rewrite decide_True by lia.
      rewrite <- HD by done. f_equal. lia.
    - intros x Hx Hxs Hout. unfold in_request in Hout. rewrite nth_splice by lia. rewrite decide_False by lia.
      apply Hag; lia. }
  intros [r3 e3] s3 Hw. by eapply wrote_same_l.
Qed.

(** The whole blocks of a request, one after the other. *)
Lemma wp_pwrite_blocks D' fuel : forall buf count o blk err s,
  inv s -> errno_ok err -> at_block count o blk -> 0 <= count <= UINT32_MAX -> o + count <= size ->
  count <= Z.of_nat fuel -> Z.of_nat (length buf) = count ->
  (forall x, in_request count o x -> nth (Z.to_nat (x - o)) buf 0 = D' x) ->
  wp (pwrite_blocks bs write fuel buf count blk err) (fun '(r, err', buf', count', blk') s' =>
    wrote' D' (count - count mod bs) o fua r err' s s' /\
    (r <> -1 -> buf' = drop (Z.to_nat (count - count mod bs)) buf /\ count' = count mod bs /\
       at_block (count mod bs) (o + (count - count mod bs)) blk')) s.
Proof.
  pose proof bs_pos.
  induction fuel as [|fuel IH]; intros buf count o blk err s Hi He [Hb Hat] Hc Hle Hf Hlen HD; cbn [pwrite_blocks];
    (destruct (Z.leb_spec bs count) as [Hge|Hlt];
      [|apply wp_ret; rewrite Z.mod_small, Z.sub_diag by lia;
        split; [by apply wrote_nothing|]; intros _; rewrite Z.add_0_r; done]).
  { lia. }
  specialize (Hat ltac:(lia)). pose proof (Z.mod_pos_bound count bs ltac:(lia)).
  assert (Hmod : (count - bs) mod bs = count mod bs).
  { rewrite <- (Z_mod_plus_full (count - bs) 1 bs). f_equal. lia. }
  pose proof (Z.mod_le (count - bs) bs ltac:(lia) ltac:(lia)).
  assert (Hl1 : Z.of_nat (length (take (Z.to_nat bs) buf)) = bs) by (rewrite length_take; lia).
  apply wp_bind. eapply wp_mono.
  { apply (wp_block_write D' (take (Z.to_nat bs) buf) blk o bs); try done; try lia.
    - intros x Hx. unfold in_request in Hx. rewrite <- HD by (unfold in_request; lia).
      rewrite !nth_lookup, lookup_take_lt by lia. do 3 f_equal. lia.
    - intros x Hx Hxs Hout. destruct Hout. unfold in_request. lia. }
  intros [r1 e1] s1 Hwr. pose proof Hwr as ([Hi1 _] & Hf1 & _).
  destruct (Z.eqb_spec r1 (-1)) as [-> |Hr1].
  { apply wp_ret. split; [|done]. eapply wrote_widen; [|exact Hwr]. unfold in_request. lia. }
  rewrite u32_small by (limits; lia). eapply wp_mono.
  { apply (IH (drop (Z.to_nat bs) buf) (count - bs) (o + bs) (blk + 1) e1 s1); try done; try lia.
    - apply Hf1. - split; lia. - rewrite length_drop. lia.
    - intros x Hx. unfold in_request in Hx. rewrite <- HD by (unfold in_request; lia).
      rewrite !nth_lookup, lookup_drop. do 2 f_equal. lia. }
  intros [[[[r2 e2] buf2] count2] blk2] s2 (Hw2 & Hp2). rewrite Hmod in *. split.
  - replace (count - count mod bs) with (bs + (count - bs - count mod bs)) by lia.
    eapply wrote_app; [lia|lia|exact Hr1|exact Hwr|exact Hw2].
  - intros Hr2. destruct (Hp2 Hr2) as (-> & -> & Hat2). split; [|split; [done|]].
    + rewrite drop_drop. f_equal. lia.
    + replace (o + (count - count mod bs)) with (o + bs + (count - bs - count mod bs)) by lia. done.
Qed.

(** The end of a request that is done in three parts. *)
Lemma finish_three D' count offs keep c1 r1 e1 r2 e2 r3 e3 r e s1 s2 s3 s4 :
  c1 = count - keep -> 0 <= keep -> 0 <= c1 -> r1 <> -1 -> r2 <> -1 -> (r3 = -1 <-> r = -1) -> e3 = e ->
  wrote' D' keep offs fua r1 e1 s1 s2 -> wrote' D' (c1 - c1 mod bs) (offs + keep) fua r2 e2 s2 s3 ->
  wrote' D' (c1 mod bs) (offs + keep + (c1 - c1 mod bs)) fua r3 e3 s3 s4 ->
  wrote' D' count offs fua r e s1 s4.
Proof.
  intros -> Hk Hc Hr1 Hr2 Hr <- H1 H2 H3. pose proof bs_pos. set (c1 := count - keep) in *. assert (Hc1 : c1 = count - keep) by done.
  pose proof (Z.mod_pos_bound c1 bs ltac:(lia)). pose proof (Z.mod_le c1 bs ltac:(lia) ltac:(lia)).
  assert (Hw : wrote' D' count offs fua r3 e3 s1 s4).
  { eapply (wrote_three _ _ _ _ _ count offs keep (c1 - c1 mod bs) (c1 mod bs));
      [lia|lia|lia|subst c1; lia|exact Hr1|exact Hr2|exact H1|exact H2|exact H3]. }
  destruct (decide (r3 = -1)) as [E|E].
  - rewrite E in Hw. by rewrite (proj1 Hr E).
  - eapply wrote_result; [exact E| |exact Hw]. intros E'. by apply E, Hr.
Qed.

Lemma pwrite_request_correct block buf count offs err s :
  inv s -> errno_ok err -> 0 <= offs -> 0 < count <= UINT32_MAX -> offs + count <= size ->
  length buf = Z.to_nat count -> buffer_ok block count offs ->
  wp (pwrite_request bs read write block buf count offs err) (fun '(r, err') s' =>
    wrote' (overwrite (disk s) buf offs) count offs fua r err' s s') s.
Proof.
  intros Hi He Ho Hc Hle Hlen Hblock. pose proof bs_pos. unfold pwrite_request.
  destruct (at_block_head count offs Ho ltac:(lia)) as (Hk & Hat & Hoffs & Hob & Hb0).
  set (o := offs mod bs) in *. set (keep := if negb (o =? 0) then Z.min (bs - o) count else 0).
  set (D' := overwrite (disk s) buf offs).
  assert (HD : forall x, in_request count offs x -> nth (Z.to_nat (x - offs)) buf 0 = D' x).
  { intros x Hx. unfold in_request in Hx. subst D'. by rewrite overwrite_in by lia. }
  apply wp_bind. eapply (wp_mono _ (fun '(r, e, buf1, count1, blk1) s1 =>
    wrote' D' keep offs fua r e s s1 /\ fails_errno r e /\
    (r <> -1 -> buf1 = drop (Z.to_nat keep) buf /\ count1 = count - keep /\
      at_block (count - keep) (offs + keep) blk1 /\ 0 <= keep <= count))).
  { subst keep. destruct (Z.eqb_spec o 0) as [E|E]; cbn [negb].
    - apply wp_ret. split; [by apply wrote_nothing|].
      split; [split; [done|lia]|]. intros _. rewrite Z.sub_0_r, Z.add_0_r.
      split; [done|]. split; [done|]. split; [by apply at_block_aligned|]. lia.
    - apply wp_bind, wp_assert. split; [by apply (buffer_needed _ _ _ Hblock)|]. apply wp_bind.
      set (n := Z.min (bs - o) count) in *.
      assert (Hl : Z.of_nat (length (take (Z.to_nat n) buf)) = n) by (rewrite length_take; lia).
      eapply wp_mono.
      { apply (wp_rmw D' (take (Z.to_nat n) buf) o (offs / bs) err s); try lia; try done.
        - intros E0. rewrite E0 in Hl. simpl in Hl. lia.
        - rewrite Hl, <- Hoffs. intros x Hx. unfold in_request in Hx. rewrite <- HD by (unfold in_request; lia).
          by rewrite !nth_lookup, lookup_take_lt by lia. }
      intros [r e] s2 Hw. rewrite Hl, <- Hoffs in Hw. apply wp_ret.
      split; [exact Hw|]. split; [apply Hw|]. intros Hr.
      rewrite u32_small by (limits; lia). split; [done|]. split; [done|]. split; [done|]. lia. }
  intros [[[[r1 e1] buf1] count1] blk1] s1 (Hw1 & Hf1 & Hp1).
  destruct (Z.eqb_spec r1 (-1)) as [-> |Hr1].
  { apply wp_ret. eapply wrote_widen; [|exact Hw1]. subst keep. unfold in_request. destruct (negb _); lia. }
  destruct (Hp1 Hr1) as (-> & -> & Hat1 & Hkk). clear Hp1. set (c1 := count - keep) in *. assert (Hc1 : c1 = count - keep) by done.
  pose proof (Z.mod_pos_bound c1 bs ltac:(lia)) as Hmb. pose proof (Z.mod_le c1 bs ltac:(lia) ltac:(lia)) as Hml.
  apply wp_bind. eapply wp_mono.
  { apply (wp_pwrite_blocks D' _ (drop (Z.to_nat keep) buf) c1 (offs + keep)); try done; try lia; [apply Hw1|apply Hf1| |].
    - rewrite length_drop. lia.
    - intros x Hx. unfold in_request in Hx. rewrite <- HD by (unfold in_request; lia).
      rewrite !nth_lookup, lookup_drop. do 2 f_equal. lia. }
  intros [[[[r2 e2] buf2] count2] blk2] s2 (Hw2 & Hp2). destruct (Z.eqb_spec r2 (-1)) as [-> |Hr2].
  { apply wp_ret. eapply wrote_widen with (c := keep + (c1 - c1 mod bs)) (o := offs); [unfold in_request; lia|].
    eapply wrote_app; [lia|lia|exact Hr1|exact Hw1|exact Hw2]. }
  destruct (Hp2 Hr2) as (-> & -> & [Hb2 Hat2]). clear Hp2. pose proof Hw2 as (Hu2 & Hf2 & _).
  destruct (Z.eqb_spec (c1 mod bs) 0) as [Et|Et]; cbn [negb].
  { apply wp_ret. eapply (finish_three D' count offs keep c1 r1 e1 r2 e2 0 e2 0 e2 s s1 s2 s2); try done; try lia.
    rewrite Et. apply wrote_nothing; [apply Hu2|apply Hf2|lia]. }
  specialize (Hat2 ltac:(lia)). apply wp_bind, wp_assert.
  split; [eapply (buffer_tail block count offs keep Hblock); [|done]; subst keep o; by intros ->|].
  apply wp_bind. set (tl := take (Z.to_nat (c1 mod bs)) (drop (Z.to_nat (c1 - c1 mod bs)) (drop (Z.to_nat keep) buf))).
  assert (Hl : Z.of_nat (length tl) = c1 mod bs) by (subst tl; rewrite length_take, !length_drop; lia).
  eapply wp_mono.
  { apply (wp_rmw D' tl 0 blk2 e2 s2); try lia; [apply Hu2|apply Hf2| |].
    - intros E0. rewrite E0 in Hl. simpl in Hl. lia.
    - rewrite Hl, Z.add_0_r, <- Hat2. intros x Hx. unfold in_request in Hx. rewrite <- HD by (unfold in_request; lia).
      subst tl. rewrite !nth_lookup, lookup_take_lt, !lookup_drop by lia. do 2 f_equal. lia. }
  intros [r3 e3] s3 Hw3. rewrite Hl, Z.add_0_r, <- Hat2 in Hw3. apply wp_ret.
  eapply (finish_three D' count offs keep c1 r1 e1 r2 e2 r3 e3 _ e3 s s1 s2 s3); try done; try lia.
  destruct (Z.eqb_spec r3 (-1)); lia.
Qed.

(** Zeroing and trimming. *)
Lemma wp_for_blocks D' op fuel :
  (forall blk err s, inv s -> errno_ok err -> 0 <= blk -> (blk + 1) * bs <= size ->
     wp (op blk err) (fun '(r, err') s' => wrote' D' bs (blk * bs) fua r err' s s') s) ->
  forall count o blk err s,
  inv s -> errno_ok err -> at_block count o blk -> 0 <= count <= UINT32_MAX -> o + count <= size ->
  count <= Z.of_nat fuel ->
  wp (for_blocks bs fuel op count blk err) (fun '(r, err', count', blk') s' =>
    wrote' D' (count - count mod bs) o fua r err' s s' /\
    (r <> -1 -> count' = count mod bs /\ at_block (count mod bs) (o + (count - count mod bs)) blk')) s.
Proof.
  intros Hop. pose proof bs_pos.
  induction fuel as [|fuel IH]; intros count o blk err s Hi He [Hb Hat] Hc Hle Hf; cbn [for_blocks];
    (destruct (Z.leb_spec bs count) as [Hge|Hlt];
      [|apply wp_ret; rewrite Z.mod_small, Z.sub_diag by lia;
        split; [by apply wrote_nothing|]; intros _; rewrite Z.add_0_r; done]).
  { lia. }
  specialize (Hat ltac:(lia)). subst o. pose proof (Z.mod_pos_bound count bs ltac:(lia)).
  assert (Hmod : (count - bs) mod bs = count mod bs).
  { rewrite <- (Z_mod_plus_full (count - bs) 1 bs). f_equal. lia. }
  pose proof (Z.mod_le (count - bs) bs ltac:(lia) ltac:(lia)).
  apply wp_bind. eapply wp_mono; [apply Hop; (done || lia)|]. intros [r1 e1] s1 Hwr.
  destruct (Z.eqb_spec r1 (-1)) as [-> |Hr1].
  { apply wp_ret. split; [|done]. eapply wrote_widen; [|exact Hwr]. unfold in_request. lia. }
  rewrite u32_small by (limits; lia). pose proof Hwr as (Hu1 & Hf1 & _). eapply wp_mono.
  { apply (IH (count - bs) (blk * bs + bs) (blk + 1) e1 s1); try lia; [apply Hu1|apply Hf1|split; lia]. }
  intros [[[r2 e2] count2] blk2] s2 (Hw2 & Hp2). rewrite Hmod in *. split.
  - replace (count - count mod bs) with (bs + (count - bs - count mod bs)) by lia.
    eapply wrote_app; [lia|lia|exact Hr1|exact Hwr|exact Hw2].
  - intros Hr2. destruct (Hp2 Hr2) as (-> & Hat2). split; [done|].
    replace (blk * bs + (count - count mod bs)) with (blk * bs + bs + (count - bs - count mod bs)) by lia. done.
Qed.

Lemma zero_request_correct block op count offs err s :
  inv s -> errno_ok err -> 0 <= offs -> 0 < count <= UINT32_MAX -> offs + count <= size ->
  (block = true \/ buffer_ok block count offs) ->
  (forall blk err s, inv s -> errno_ok err -> 0 <= blk -> (blk + 1) * bs <= size ->
     wp (op blk err) (fun '(r, err') s' => wrote' (fun _ => 0) bs (blk * bs) fua r err' s s') s) ->
  wp (zero_request bs read write block op count offs err) (fun '(r, err') s' =>
    wrote' (fun _ => 0) count offs fua r err' s s') s.
Proof.
  intros Hi He Ho Hc Hle Hblock Hop. pose proof bs_pos. unfold zero_request.
  destruct (at_block_head count offs Ho ltac:(lia)) as (Hk & Hat & Hoffs & Hob & Hb0).
  set (o := offs mod bs) in *. set (keep := if negb (o =? 0) then Z.min (bs - o) count else 0).
  apply wp_bind. eapply (wp_mono _ (fun '(r, e, count1, blk1) s1 =>
    wrote' (fun _ => 0) keep offs fua r e s s1 /\ fails_errno r e /\
    (r <> -1 -> count1 = count - keep /\ at_block (count - keep) (offs + keep) blk1 /\ 0 <= keep <= count))).
  { subst keep. destruct (Z.eqb_spec o 0) as [E|E]; cbn [negb].
    - apply wp_ret. split; [by apply wrote_nothing|]. split; [split; [done|lia]|]. intros _.
      rewrite Z.sub_0_r, Z.add_0_r. split; [done|]. split; [by apply at_block_aligned|]. lia.
    - assert (block = true) as -> by (destruct Hblock as [?|Hblock]; [done|by apply (buffer_needed _ _ _ Hblock)]).
      cbn [negb]. apply wp_bind. set (n := Z.min (bs - o) count) in *.
      assert (Hl : Z.of_nat (length (memset 0 n)) = n) by (rewrite length_memset; lia).
      eapply wp_mono.
      { apply (wp_rmw (fun _ => 0) (memset 0 n) o (offs / bs) err s); try lia; try done.
        - intros E0. rewrite E0 in Hl. simpl in Hl. lia.
        - rewrite Hl, <- Hoffs. intros x Hx. unfold in_request in Hx. apply nth_memset. lia. }
      intros [r e] s2 Hw. rewrite Hl, <- Hoffs in Hw. apply wp_ret. split; [done|]. split; [apply Hw|]. intros Hr.
      rewrite u32_small by (limits; lia). split; [done|]. split; [done|]. lia. }
  intros [[[r1 e1] count1] blk1] s1 (Hw1 & Hf1 & Hp1).
  destruct (Z.eqb_spec r1 (-1)) as [-> |Hr1].
  { apply wp_ret. eapply wrote_widen; [|exact Hw1]. subst keep. unfold in_request. destruct (negb _); lia. }
  destruct (Hp1 Hr1) as (-> & Hat1 & Hkk). clear Hp1. set (c1 := count - keep) in *. assert (Hc1 : c1 = count - keep) by done.
  pose proof (Z.mod_pos_bound c1 bs ltac:(lia)) as Hmb. pose proof (Z.mod_le c1 bs ltac:(lia) ltac:(lia)) as Hml.
  apply wp_bind. eapply wp_mono.
  { apply (wp_for_blocks (fun _ => 0) op _ Hop c1 (offs + keep)); try done; try lia; [apply Hw1|apply Hf1]. }
  intros [[[r2 e2] count2] blk2] s2 (Hw2 & Hp2). destruct (Z.eqb_spec r2 (-1)) as [-> |Hr2].
  { apply wp_ret. eapply wrote_widen with (c := keep + (c1 - c1 mod bs)) (o := offs); [unfold in_request; lia|].
    eapply wrote_app; [lia|lia|exact Hr1|exact Hw1|exact Hw2]. }
  destruct (Hp2 Hr2) as (-> & [Hb2 Hat2]). clear Hp2. pose proof Hw2 as (Hu2 & Hf2 & _).
  destruct (Z.eqb_spec (c1 mod bs) 0) as [Et|Et]; cbn [negb].
  { apply wp_ret. eapply (finish_three (fun _ => 0) count offs keep c1 r1 e1 r2 e2 0 e2 0 e2 s s1 s2 s2); try done; try lia.
    rewrite Et. apply wrote_nothing; [apply Hu2|apply Hf2|lia]. }
  specialize (Hat2 ltac:(lia)).
  assert (block = true) as ->.
  { destruct Hblock as [?|Hblock]; [done|].
    eapply (buffer_tail block count offs keep Hblock); [|done]; subst keep o; by intros ->. }
  cbn [negb]. apply wp_bind.
  assert (Hl : Z.of_nat (length (memset 0 (c1 mod bs))) = c1 mod bs) by (rewrite length_memset; lia).
  eapply wp_mono.
  { apply (wp_rmw (fun _ => 0) (memset 0 (c1 mod bs)) 0 blk2 e2 s2); try lia; [apply Hu2|apply Hf2| |].
    - intros E0. rewrite E0 in Hl. simpl in Hl. lia.
    - rewrite Hl, Z.add_0_r, <- Hat2. intros x Hx. unfold in_request in Hx. apply nth_memset. lia. }
  intros [r3 e3] s3 Hw3. rewrite Hl, Z.add_0_r, <- Hat2 in Hw3. apply wp_ret.
  eapply (finish_three (fun _ => 0) count offs keep c1 r1 e1 r2 e2 r3 e3 _ e3 s s1 s2 s3); try done; try lia.
  destruct (Z.eqb_spec r3 (-1)); lia.
Qed.

(** Zeroing writes blocks of zeroes. *)
Lemma zero_blocks blk err s : inv s -> errno_ok err -> 0 <= blk -> (blk + 1) * bs <= size ->
  wp (write blk (memset 0 bs) err) (fun '(r, err') s' => wrote' (fun _ => 0) bs (blk * bs) fua r err' s s') s.
Proof.
  intros Hi He Hb Hs. pose proof bs_pos.
  apply wp_block_write; try done; try lia; [rewrite length_memset; lia|..]; unfold in_request.
  - intros x Hx. apply nth_memset. lia.
  - intros x Hx _ Hout. lia.
Qed.

(** [ROUND_UP] to a block. *)
Lemma wp_round_up i (Q : Z -> st W -> Prop) s :
  0 <= i <= UINT64_MAX - bs -> Q (i + bs - 1 - (i + bs - 1) mod bs) s -> wp (ROUND_UP64 i bs) Q s.
Proof using Hbs. intros Hi. destruct Hbs as (n & Hn & E). rewrite E in *. intros HQ. apply wp_ROUND_UP64; (done || lia). Qed.
End Correct.

(** ** Runs of blocks *)

Lemma set_run_spec n v : forall bm blk,
  bitmap_wf bm -> 0 <= blk -> blk + Z.of_nat n <= b_limit bm -> 0 <= v < 2 ^ b_bpb bm ->
  bitmap_wf (set_run n bm blk v) /\ b_limit (set_run n bm blk v) = b_limit bm /\
  b_blksize (set_run n bm blk v) = b_blksize bm /\ b_bpb (set_run n bm blk v) = b_bpb bm /\
  forall x, 0 <= x -> entry (set_run n bm blk v) x = if decide (blk <= x < blk + Z.of_nat n) then v else entry bm x.
Proof.
  induction n as [|n IH]; intros bm blk Hwf Hb Hl Hv; cbn [set_run].
  { do 4 (split; [done|]). intros x Hx. by rewrite decide_False by lia. }
  destruct (set_blk_wf bm blk v Hwf) as (Hwf1 & Hl1 & Hbs1 & Hbp1).
  destruct (IH (bitmap_set_blk bm blk v) (blk + 1)) as (Hwf2 & Hl2 & Hbs2 & Hbp2 & He2);
    [done|lia|lia|by rewrite Hbp1|].
  split; [done|]. split; [congruence|]. split; [congruence|]. split; [congruence|].
  intros x Hx. rewrite He2, entry_set_blk by (done || lia). repeat case_decide; (done || lia).
Qed.

(** ** Files

    The file of the filter, when transfers are complete or fail; see
    [full_pwrite_short_wrong] in [CowDisk]. *)

Definition io_good (e : io_event) : Prop :=
  match e with
  | IoAll => True
  | IoShort _ => False
  | IoErr errno => errno <> 0 /\ errno_ok errno
  end.

Lemma pop_io_good ov e ov' : pop_io ov = (e, ov') -> Forall io_good (of_io ov) ->
  io_good e /\ Forall io_good (of_io ov') /\ of_data ov' = of_data ov /\ of_size ov' = of_size ov.
Proof.
  unfold pop_io. destruct (of_io ov) as [|e' io] eqn:E; intros [= <- <-].
  - rewrite E. done.
  - intros H. apply Forall_cons in H as [??]. done.
Qed.

Lemma full_pwrite_good ov buf count offset :
  Forall io_good (of_io ov) -> 0 < count -> Z.of_nat (length buf) = count ->
  exists o ov', full_pwrite (Z.to_nat count) ov buf count offset = Ok (o, ov') /\
    Forall io_good (of_io ov') /\ of_size ov <= of_size ov' /\
    match o with
    | Some e => e <> 0 /\ errno_ok e /\ of_data ov' = of_data ov
    | None => of_data ov' = overwrite (of_data ov) buf offset
    end.
Proof.
  intros Hio Hc Hlen. destruct (Z.to_nat count) as [|fuel] eqn:Ef; [lia|]. cbn [full_pwrite].
  rewrite (proj2 (Z.ltb_lt 0 count)) by lia. unfold of_pwrite.
  destruct (pop_io ov) as [e ov1] eqn:Ep. destruct (pop_io_good _ _ _ Ep Hio) as (He & Hio1 & Hd & Hz).
  destruct e as [|n|errno]; [|done|].
  - rewrite Z.sub_diag. destruct fuel; simpl; (do 2 eexists; split; [done|]; simpl; split; [done|];
      split; [lia|]; rewrite Hd, take_ge by lia; done).
  - destruct He. do 2 eexists. split; [done|]. rewrite Hz. simpl. done.
Qed.

Lemma full_pread_good ov count offset :
  Forall io_good (of_io ov) -> 0 < count -> offset + count <= of_size ov ->
  exists o ov', full_pread (Z.to_nat count) ov (memset 0 count) count offset = Ok (o, ov') /\
    Forall io_good (of_io ov') /\ of_data ov' = of_data ov /\ of_size ov' = of_size ov /\
    match o with
    | inl e => e <> 0 /\ errno_ok e
    | inr data => data = slice (of_data ov) offset count
    end.
Proof.
  intros Hio Hc Hsz. destruct (Z.to_nat count) as [|fuel] eqn:Ef; [lia|]. cbn [full_pread].
  rewrite (proj2 (Z.ltb_lt 0 count)) by lia. unfold of_pread.
  destruct (pop_io ov) as [e ov1] eqn:Ep. destruct (pop_io_good _ _ _ Ep Hio) as (He & Hio1 & Hd & Hz).
  destruct e as [|n|errno]; [|done|].
  - rewrite Hz, Hd. replace (Z.max 0 _) with count by lia. set (data := slice (of_data ov) offset count).
    assert (Hlen : length data = Z.to_nat count) by apply length_slice.
    destruct data as [|d0 data'] eqn:Edata; [simpl in Hlen; lia|]. rewrite <- Edata in *.
    replace (count - _) with 0 by (rewrite Hlen; lia).
    assert (Hspl : splice (memset 0 count) data 0 = data).
    { unfold splice. rewrite drop_ge by (rewrite length_memset; simpl; lia). simpl. by rewrite app_nil_r. }
    rewrite Hspl. destruct fuel; simpl; eauto 10.
  - destruct He. do 2 eexists. split; [done|]. done.
Qed.

(** ** Blocks of the disk

    What [blk.c] of both filters computes. *)
Definition beyond_end (size offset n : Z) : Z :=
  if size <? u64 (offset + n) then u32 (offset + n - size) else 0.

Section Geometry.
Context (bs : Z) (k : layer_limits) (Hbs : 1 <= bs <= 2147483648) (Hsize : 0 <= l_size k <= INT64_MAX).
Notation size := (l_size k).

Lemma div_block blk n x : 0 <= blk -> blk * bs <= x < (blk + n) * bs -> blk <= x / bs < blk + n.
Proof.
  intros Hb Hx. split; [apply Z.div_le_lower_bound; lia|].
  apply Z.div_lt_upper_bound; lia.
Qed.

Lemma beyond_end_spec offset n : 0 <= offset < size -> 0 < n <= UINT32_MAX ->
  beyond_end size offset n = Z.max 0 (offset + n - size) /\
  u32 (n - beyond_end size offset n) = Z.min n (size - offset).
Proof.
  intros Ho Hn. unfold beyond_end. rewrite u64_small by (limits; lia).
  destruct (Z.ltb_spec size (offset + n)).
  - rewrite !u32_small by (rewrite ?u32_small; limits; lia). lia.
  - rewrite u32_small by lia. lia.
Qed.

(** The blocks of a request to the layer below. *)
Lemma next_range blk n : (l_minimum k | bs) -> (l_minimum k | size) -> 0 <= blk -> 1 <= n -> blk * bs < size -> n * bs <= UINT32_MAX ->
  aligned_range k (Z.min (n * bs) (size - blk * bs)) (blk * bs).
Proof.
  intros Hmin Hmins Hb Hn Hs Hmax. split; [nia|]. split; [nia|]. split; [lia|].
  split; [by apply Z.divide_mul_r|].
  destruct (Z.min_spec (n * bs) (size - blk * bs)) as [[_ ->]|[_ ->]]; [by apply Z.divide_mul_r|].
  apply Z.divide_sub_r; [done|]. by apply Z.divide_mul_r.
Qed.

(** Resizing the file covers the last block. *)
Lemma file_covers : let z := size + bs - 1 - (size + bs - 1) mod bs in
  size <= z /\ forall blk, blk * bs < size -> (blk + 1) * bs <= z.
Proof.
  intros z. pose proof (Z.mod_pos_bound (size + bs - 1) bs ltac:(lia)).
  split; [subst z; lia|]. intros blk Hblk. assert (blk * bs + bs <= z); [|lia].
  apply divide_next; [lia|apply Z.divide_factor_r|apply divide_sub_mod; lia|]. subst z. lia.
Qed.
End Geometry.
