(* ===== verification/Lru.v ===== *)
(** * The recently used blocks

    Models [filters/cache/lru.c]: two bitmaps that remember, approximately,
    the last [N] distinct blocks that were accessed.  When the first one has
    [N/2] bits set it replaces the second one.  [lru_set_size] allocates and
    is in [Cache]. *)

From stdpp Require Import gmap.
From S2P Require Import Prelude Server Plugin Bytes Bitmap.


(** [bm], [c0], [c1] and [N] *)
Record lru : Type := Lru {
  lru_bm0 : bitmap;
  lru_bm1 : bitmap;
  lru_c0 : Z;
  lru_c1 : Z;
  lru_N : Z;
}.

Implicit Types (l : lru).

Definition lru_init (blksize : Z) : outcome lru :=
  match bitmap_init blksize 1 with
  | Ok bm => Ok (Lru bm bm 0 0 100)
  | Crash c => Crash c
  end.

Definition lru_set_recently_accessed l (blknum : Z) : lru :=
  if negb (bitmap_get_blk (lru_bm0 l) blknum 0 =? 0) then l
  else
    let bm0 := bitmap_set_blk (lru_bm0 l) blknum 1 in
    let c0 := u32 (lru_c0 l + 1) in
    if lru_N l / 2 <=? c0 then Lru (bitmap_clear (lru_bm1 l)) bm0 0 c0 (lru_N l)
    else Lru bm0 (lru_bm1 l) c0 (lru_c1 l) (lru_N l).

Definition lru_has_been_recently_accessed l (blknum : Z) : bool :=
  negb (bitmap_get_blk (lru_bm0 l) blknum 0 =? 0) || negb (bitmap_get_blk (lru_bm1 l) blknum 0 =? 0).

(** The accesses to a run of [n] blocks. *)
Fixpoint lru_access_run (n : nat) l (blknum : Z) : lru :=
  match n with
  | O => l
  | S n => lru_access_run n (lru_set_recently_accessed l blknum) (blknum + 1)
  end.

(** ** The window *)

(** The blocks whose bits are set. *)
Definition set_blocks (bm : bitmap) : gset Z :=
  list_to_set (filter (fun x => entry bm x <> 0) (seqZ 0 (b_limit bm))).

Record bits_wf (limit : Z) (bm : bitmap) : Prop := {
  bits_bitmap : bitmap_wf bm;
  bits_bpb : b_bpb bm = 1;
  bits_limit : b_limit bm = limit;
}.

(** Two bitmaps for the same blocks. *)
Record lru_wf (limit : Z) l : Prop := {
  lw_bm0 : bits_wf limit (lru_bm0 l);
  lw_bm1 : bits_wf limit (lru_bm1 l);
  lw_N : 0 <= lru_N l <= UINT32_MAX;
}.

Lemma elem_of_set_blocks bm x : x ∈ set_blocks bm <-> 0 <= x < b_limit bm /\ entry bm x <> 0.
Proof.
  unfold set_blocks. rewrite elem_of_list_to_set, list_elem_of_filter, elem_of_seqZ, Z.add_0_l. tauto.
Qed.

Section Bits.
Context (limit : Z).

Lemma bits_get bm x default : bits_wf limit bm -> 0 <= x < limit -> bitmap_get_blk bm x default = entry bm x.
Proof.
  intros [Hwf _ Hl] Hx. rewrite bitmap_get_blk_entry by done. by rewrite (proj2 (Z.leb_gt _ _)) by lia.
Qed.

Lemma bits_set bm x : bits_wf limit bm -> 0 <= x < limit ->
  bits_wf limit (bitmap_set_blk bm x 1) /\ set_blocks (bitmap_set_blk bm x 1) = {[x]} ∪ set_blocks bm.
Proof.
  intros [Hwf Hb Hl] Hx. destruct (set_blk_wf bm x 1 Hwf) as (Hwf' & Hl' & _ & Hb').
  split; [split; congruence|]. apply set_eq. intros y.
  rewrite elem_of_union, elem_of_singleton, !elem_of_set_blocks, Hl'. split.
  - intros [Hy He]. rewrite entry_set_blk in He by (rewrite ?Hb; done || lia). case_decide; [by left|by right].
  - intros [-> |[Hy He]]; (split; [lia|]); rewrite entry_set_blk by (rewrite ?Hb; done || lia); by case_decide.
Qed.

Lemma entry_clear bm x : bitmap_wf bm -> entry (bitmap_clear bm) x = 0.
Proof.
  intros Hwf. unfold entry, bitmap_clear. cbn [b_bitmap b_ibpb b_bpb set_bitmap].
  replace (nth _ _ 0) with 0.
  2: { unfold memset. rewrite nth_lookup. destruct (_ !! _) as [z|] eqn:E; [|done]. by apply lookup_replicate in E as [-> _]. }
  destruct (bpb_ibpb _ Hwf) as (_ & Hb & Hi). pose proof (slot_bounds _ Hwf x).
  rewrite Z.div_0_l, Z.mod_0_l; [done|apply Z.pow_nonzero; lia..].
Qed.

Lemma bits_clear bm : bits_wf limit bm -> bits_wf limit (bitmap_clear bm) /\ set_blocks (bitmap_clear bm) = ∅.
Proof.
  intros [Hwf Hb Hl].
  assert (Hs : b_size (bitmap_clear bm) = b_size bm).
  { unfold b_size, bitmap_clear. cbn [b_bitmap set_bitmap]. rewrite length_memset. unfold b_size. lia. }
  split.
  - split; [|done|].
    + apply set_bitmap_wf; [done|]. unfold memset. apply Forall_replicate. lia.
    + unfold b_limit in *. by rewrite Hs.
  - apply set_eq. intros x. rewrite elem_of_set_blocks, entry_clear by done. set_solver.
Qed.

Lemma lru_access_wf l x : lru_wf limit l -> 0 <= x < limit -> lru_wf limit (lru_set_recently_accessed l x).
Proof.
  intros [H0 H1 HN] Hx. unfold lru_set_recently_accessed. destruct (negb _); [done|].
  destruct (bits_set _ x H0 Hx) as [H0' _]. destruct (bits_clear _ H1) as [H1' _].
  destruct (_ <=? _); by split.
Qed.

(** What is known about a block that was accessed before the blocks [acc]. *)
Definition remembered (x : Z) (acc : gset Z) l : Prop :=
  x ∈ set_blocks (lru_bm0 l) \/
  (x ∈ set_blocks (lru_bm1 l) /\ set_blocks (lru_bm0 l) ⊆ acc /\ lru_c0 l = Z.of_nat (size (set_blocks (lru_bm0 l)))).

Lemma remembered_first l x : lru_wf limit l -> 0 <= x < limit -> remembered x ∅ (lru_set_recently_accessed l x).
Proof.
  intros [H0 H1 _] Hx. unfold lru_set_recently_accessed. rewrite bits_get by done.
  destruct (Z.eqb_spec (entry (lru_bm0 l) x) 0) as [E|E]; cbn [negb].
  - destruct (bits_set _ x H0 Hx) as [_ Hs]. destruct (bits_clear _ H1) as [_ Hc]. destruct (_ <=? _).
    + right. cbn [lru_bm0 lru_bm1 lru_c0]. rewrite Hs, Hc, size_empty. split; [set_solver|]. done.
    + left. cbn [lru_bm0]. rewrite Hs. set_solver.
  - left. rewrite elem_of_set_blocks. destruct H0 as [_ _ ->]. done.
Qed.

(** The bitmaps are not swapped twice before [N/2] other blocks were
    accessed. *)
Lemma remembered_step l x acc y : lru_wf limit l -> remembered x acc l -> 0 <= y < limit ->
  Z.of_nat (size ({[y]} ∪ acc)) < lru_N l / 2 -> remembered x ({[y]} ∪ acc) (lru_set_recently_accessed l y).
Proof.
  intros [H0 H1 HN] Hr Hy Hsz. unfold lru_set_recently_accessed. rewrite bits_get by done.
  destruct (Z.eqb_spec (entry (lru_bm0 l) y) 0) as [E|E]; cbn [negb].
  2: { destruct Hr as [Hr|(Hr & Hs & Hc)]; [by left|right]. split; [done|]. split; [set_solver|done]. }
  destruct (bits_set _ y H0 Hy) as [_ Hs0]. destruct (bits_clear _ H1) as [_ Hc1].
  assert (Hny : y ∉ set_blocks (lru_bm0 l)) by (rewrite elem_of_set_blocks; tauto).
  destruct Hr as [Hr|(Hr & Hs & Hc)].
  - destruct (_ <=? _); [right|left]; cbn [lru_bm0 lru_bm1 lru_c0]; rewrite Hs0, ?Hc1, ?size_empty; set_solver.
  - assert (Hn : Z.of_nat (size (set_blocks (bitmap_set_blk (lru_bm0 l) y 1))) = lru_c0 l + 1).
    { rewrite Hs0, size_union, size_singleton by set_solver. lia. }
    assert (Hle : (size (set_blocks (bitmap_set_blk (lru_bm0 l) y 1)) <= size ({[y]} ∪ acc))%nat).
    { apply subseteq_size. rewrite Hs0. set_solver. }
    assert (lru_N l / 2 <= lru_N l) by (apply Z.div_le_upper_bound; lia).
    rewrite u32_small by (limits; lia). rewrite (proj2 (Z.leb_gt _ _)) by lia. right. cbn [lru_bm0 lru_bm1 lru_c0].
    split; [done|]. split; [|lia]. rewrite Hs0. set_solver.
Qed.

Lemma remembered_has l x acc : lru_wf limit l -> 0 <= x < limit -> remembered x acc l ->
  lru_has_been_recently_accessed l x = true.
Proof.
  intros [H0 H1 _] Hx Hr. unfold lru_has_been_recently_accessed. rewrite !bits_get by done.
  destruct Hr as [Hr|[Hr _]]; apply elem_of_set_blocks in Hr as [_ Hr]; rewrite (proj2 (Z.eqb_neq _ _) Hr); simpl;
    by rewrite ?orb_true_r.
Qed.
End Bits.

(** A block is recently accessed as long as fewer than [N/2] distinct
    blocks were accessed after it, in whatever order and how often, and
    whatever was accessed before. *)
Lemma lru_remembers limit l x xs :
  lru_wf limit l -> 0 <= x < limit -> Forall (fun y => 0 <= y < limit) xs ->
  Z.of_nat (size (list_to_set xs : gset Z)) < lru_N l / 2 ->
  lru_has_been_recently_accessed (fold_left lru_set_recently_accessed xs (lru_set_recently_accessed l x)) x = true.
Proof.
  intros Hwf Hx Hxs Hsz.
  assert (HN : forall l y, lru_N (lru_set_recently_accessed l y) = lru_N l).
  { intros l' y. unfold lru_set_recently_accessed. destruct (negb _); [done|]. by destruct (_ <=? _). }
  pose proof (remembered_first limit l x Hwf Hx) as Hr. pose proof (lru_access_wf limit l x Hwf Hx) as Hwf'.
  rewrite <- (HN l x) in Hsz. set (l0 := lru_set_recently_accessed l x) in *. clearbody l0.
  rewrite <- (left_id_L ∅ (∪) (list_to_set xs)) in Hsz.
  assert (Hgen : forall acc l0, lru_wf limit l0 -> remembered x acc l0 ->
    Z.of_nat (size (acc ∪ list_to_set xs)) < lru_N l0 / 2 ->
    lru_has_been_recently_accessed (fold_left lru_set_recently_accessed xs l0) x = true); [|by apply (Hgen ∅)].
  clear - Hx Hxs HN. induction Hxs as [|y xs Hy Hxs IH]; intros acc l0 Hwf Hr Hsz; cbn [fold_left].
  { by apply (remembered_has limit l0 x acc). }
  rewrite list_to_set_cons, (assoc_L (∪)), (comm_L (∪) acc) in Hsz. apply (IH ({[y]} ∪ acc)).
  - by apply lru_access_wf.
  - apply (remembered_step limit); [done..|]. eapply Z.le_lt_trans; [|exact Hsz]. apply Nat2Z.inj_le, subseteq_size. set_solver.
  - by rewrite HN.
Qed.

(** 64 blocks, and room for four: block 5 is recent until two other blocks
    were accessed. *)
Definition lru_64 : lru := Lru (Bitmap 4096 1 0 8 (memset 0 8)) (Bitmap 4096 1 0 8 (memset 0 8)) 0 0 6.

Lemma lru_64_wf : lru_wf 64 lru_64.
Proof.
  assert (Hb : bits_wf 64 (Bitmap 4096 1 0 8 (memset 0 8))).
  { split; [split; simpl; [lia|done|done|by exists 12|]|done|done]. repeat constructor; lia. }
  split; [done|done|]. simpl. limits. lia.
Qed.

Lemma lru_remembers_witness :
  lru_has_been_recently_accessed (fold_left lru_set_recently_accessed [7; 9; 7; 9; 7] (lru_set_recently_accessed lru_64 5)) 5 = true.
Proof.
  apply (lru_remembers 64 lru_64 5 [7; 9; 7; 9; 7] lru_64_wf); [lia|repeat constructor; lia|].
  apply Z.ltb_lt. vm_compute. reflexivity.
Defined.

Example lru_forgets :
  let l := fold_left lru_set_recently_accessed [5; 7; 9; 11; 13; 15] lru_64 in
  map (lru_has_been_recently_accessed l) [5; 11; 15] = [false; true; true].
Proof. vm_compute. reflexivity. Qed.
