(* ===== verification/Cache.v ===== *)
(** * The cache filter

    Models [filters/cache/cache.c], [blk.c] and [reclaim.c]; [lru.c] is in
    [Lru].  Blocks are stored in a temporary file.  A bitmap with two bits
    per block says which blocks are in the file, and which of them differ
    from the layer below because they still have to be written ("dirty").

    The file, the bitmaps and what the operating system will answer are the
    filter's state, a part of the world that is read and replaced with
    [get_cache] and [set_cache].  The filter's lock is held around each use of
    the blocks.  [CacheDisk] has the theorems. *)

From S2P Require Import Prelude NbdProtocol Extents Exports Server Connections Backend Plugin Filter Bytes Io Parse Layer ExtentsQuery Bitmap Blocks Lru.
From Stdlib Require Import String.

(** ** State *)

(** [enum bm_entry] *)
Definition BLOCK_NOT_CACHED : Z := 0.
Definition BLOCK_CLEAN : Z := 1.
Definition BLOCK_DIRTY : Z := 3.

(** [enum cache_mode] *)
Inductive caching_mode : Type := CACHE_MODE_WRITEBACK | CACHE_MODE_WRITETHROUGH | CACHE_MODE_UNSAFE.

Inductive reclaim_state : Type := NOT_RECLAIMING | RECLAIMING_LRU | RECLAIMING_ANY.

Record cache_settings : Type := CacheSettings {
  q_min_block_size : Z;
  q_mode : caching_mode;
  q_max_size : Z;
  q_hi_thresh : Z;
  q_lo_thresh : Z;
  q_cor_mode : cor_mode;
}.

Definition cache_defaults : cache_settings :=
  CacheSettings 65536 CACHE_MODE_WRITEBACK (-1) 95 80 COR_OFF.

(** What the operating system answers to the calls of each kind. *)
Record cache_os : Type := CacheOs {
  o_mem : list bool;             (* whether allocations succeed; yes at the end *)
  o_access : list bool;          (* whether the path of [COR_PATH] exists *)
  o_fadvise : list Z;            (* [posix_fadvise]; 0 at the end *)
  o_fstat : list (option Z);     (* [st_blocks]; [fstat] fails at the end *)
  o_fallocate : list Z;          (* the error number, or 0 *)
}.

Record cache_state : Type := CacheState {
  ca_bm : bitmap;
  ca_size : Z;
  ca_file : os_file;
  ca_lru : lru;
  ca_reclaiming : reclaim_state;
  ca_reclaim_blk : Z;
  ca_os : cache_os;
}.

Definition ca_with_bm (bm : bitmap) (c : cache_state) : cache_state :=
  CacheState bm (ca_size c) (ca_file c) (ca_lru c) (ca_reclaiming c) (ca_reclaim_blk c) (ca_os c).
Definition ca_with_size (z : Z) (c : cache_state) : cache_state :=
  CacheState (ca_bm c) z (ca_file c) (ca_lru c) (ca_reclaiming c) (ca_reclaim_blk c) (ca_os c).
Definition ca_with_file (f : os_file) (c : cache_state) : cache_state :=
  CacheState (ca_bm c) (ca_size c) f (ca_lru c) (ca_reclaiming c) (ca_reclaim_blk c) (ca_os c).
Definition ca_with_lru (l : lru) (c : cache_state) : cache_state :=
  CacheState (ca_bm c) (ca_size c) (ca_file c) l (ca_reclaiming c) (ca_reclaim_blk c) (ca_os c).
Definition ca_with_reclaim (r : reclaim_state) (blk : Z) (c : cache_state) : cache_state :=
  CacheState (ca_bm c) (ca_size c) (ca_file c) (ca_lru c) r blk (ca_os c).
Definition ca_with_os (o : cache_os) (c : cache_state) : cache_state :=
  CacheState (ca_bm c) (ca_size c) (ca_file c) (ca_lru c) (ca_reclaiming c) (ca_reclaim_blk c) o.

Definition os_malloc (o : cache_os) : bool * cache_os :=
  match o_mem o with
  | [] => (true, o)
  | ok :: l => (ok, CacheOs l (o_access o) (o_fadvise o) (o_fstat o) (o_fallocate o))
  end.
Definition os_access (o : cache_os) : bool * cache_os :=
  match o_access o with
  | [] => (false, o)
  | ok :: l => (ok, CacheOs (o_mem o) l (o_fadvise o) (o_fstat o) (o_fallocate o))
  end.
Definition os_fadvise (o : cache_os) : Z * cache_os :=
  match o_fadvise o with
  | [] => (0, o)
  | r :: l => (r, CacheOs (o_mem o) (o_access o) l (o_fstat o) (o_fallocate o))
  end.
Definition os_fstat (o : cache_os) : option Z * cache_os :=
  match o_fstat o with
  | [] => (None, o)
  | r :: l => (r, CacheOs (o_mem o) (o_access o) (o_fadvise o) l (o_fallocate o))
  end.
Definition os_fallocate (o : cache_os) : Z * cache_os :=
  match o_fallocate o with
  | [] => (0, o)
  | r :: l => (r, CacheOs (o_mem o) (o_access o) (o_fadvise o) (o_fstat o) l)
  end.

(** ** Configuration *)

Inductive cache_key : Type :=
| cache_mode_key | cache_min_block_size_key | cache_max_size_key | cache_high_threshold_key
| cache_low_threshold_key | cache_on_read_key | cache_other_key.

(** The string as the bytes of a parameter. *)
Definition bytes_of (s : string) : list Z :=
  map (fun c => Z.of_nat (Ascii.nat_of_ascii c)) (String.list_ascii_of_string s).

(** 0 or -1 and the settings; any other key is passed on ([None]).  A
    threshold of 0 is stored before it is refused. *)
Definition cache_config (g : cache_settings) (key : cache_key) (value : list Z) : option (Z * cache_settings) :=
  let set_mode m := CacheSettings (q_min_block_size g) m (q_max_size g) (q_hi_thresh g) (q_lo_thresh g) (q_cor_mode g) in
  let set_cor m := CacheSettings (q_min_block_size g) (q_mode g) (q_max_size g) (q_hi_thresh g) (q_lo_thresh g) m in
  let set_hi t := CacheSettings (q_min_block_size g) (q_mode g) (q_max_size g) t (q_lo_thresh g) (q_cor_mode g) in
  let set_lo t := CacheSettings (q_min_block_size g) (q_mode g) (q_max_size g) (q_hi_thresh g) t (q_cor_mode g) in
  match key with
  | cache_mode_key =>
      Some (if decide (value = bytes_of "writeback") then (0, set_mode CACHE_MODE_WRITEBACK)
            else if decide (value = bytes_of "writethrough") then (0, set_mode CACHE_MODE_WRITETHROUGH)
            else if decide (value = bytes_of "unsafe") then (0, set_mode CACHE_MODE_UNSAFE)
            else (-1, g))
  | cache_min_block_size_key =>
      let r := nbdkit_parse_size value in
      Some (if r =? -1 then (-1, g)
            else if ((r <? 4096) || negb (is_power_of_2 r) || (UINT32_MAX <? r))%bool then (-1, g)
            else (0, CacheSettings r (q_mode g) (q_max_size g) (q_hi_thresh g) (q_lo_thresh g) (q_cor_mode g)))
  | cache_max_size_key =>
      let r := nbdkit_parse_size value in
      Some (if r =? -1 then (-1, g)
            else if r <? 1024 * 1024 then (-1, g)
            else (0, CacheSettings (q_min_block_size g) (q_mode g) r (q_hi_thresh g) (q_lo_thresh g) (q_cor_mode g)))
  | cache_high_threshold_key =>
      Some match nbdkit_parse_unsigned value with
           | ParseError _ => (-1, g)
           | Value t => (if t =? 0 then -1 else 0, set_hi t)
           end
  | cache_low_threshold_key =>
      Some match nbdkit_parse_unsigned value with
           | ParseError _ => (-1, g)
           | Value t => (if t =? 0 then -1 else 0, set_lo t)
           end
  | cache_on_read_key =>
      Some (if nth 0 value 0 =? 47 then (0, set_cor COR_PATH)
            else
              let r := nbdkit_parse_bool value in
              if r =? -1 then (-1, g) else (0, set_cor (if r =? 0 then COR_OFF else COR_ON)))
  | cache_other_key => None
  end.

(** -1, or the call is passed on ([None]). *)
Definition cache_config_complete (g : cache_settings) : option Z :=
  if negb (q_max_size g =? -1) && (q_hi_thresh g <=? q_lo_thresh g) then Some (-1) else None.

(** [blk_init]: the block size and the state; [f_bsize] is the block size of
    the file system.  Creating the temporary file is taken to succeed. *)
Definition cache_blk_init (g : cache_settings) (f_bsize : Z) (io : list io_event) (os : cache_os)
    : outcome (Z * cache_state) :=
  let blksize := u32 (Z.max (q_min_block_size g) f_bsize) in
  match bitmap_init blksize 2, lru_init blksize with
  | Ok bm, Ok l => Ok (blksize, CacheState bm 0 (OsFile (fun _ => 0) 0 io) l NOT_RECLAIMING 0 os)
  | Crash c, _ | _, Crash c => Crash c
  end.

Definition is_cached (bm : bitmap) (blk : Z) : bool := negb (bitmap_get_blk bm blk BLOCK_NOT_CACHED =? BLOCK_NOT_CACHED).

(** Consecutive blocks that are cached like the first one; [n] may follow. *)
Fixpoint cached_run (n : nat) (bm : bitmap) (cached : bool) (blk : Z) : Z :=
  match n with
  | O => 0
  | S n => if Bool.eqb cached (is_cached bm blk) then 1 + cached_run n bm cached (blk + 1) else 0
  end.

Section Cache.
Context {W : Type} (get_cache : W -> cache_state) (set_cache : cache_state -> W -> W).
Context (g : cache_settings) (blksize : Z).
Implicit Types (nx : nbdkit_next W).

Definition ca_gets {A} (f : cache_state -> A) : M W A := gets (fun s => f (get_cache (s_world s))).
Definition ca_modify (f : cache_state -> cache_state) : M W unit :=
  modify (fun s => set_world (set_cache (f (get_cache (s_world s))) (s_world s)) s).

Definition on_os {A} (f : cache_os -> A * cache_os) : M W A :=
  o ← ca_gets ca_os;
  ca_modify (ca_with_os (snd (f o)));;
  mret (fst (f o)).

Definition on_file {A} (f : os_file -> outcome (A * os_file)) : M W A :=
  file ← ca_gets ca_file;
  match f file with
  | Ok (a, file) => ca_modify (ca_with_file file);; mret a
  | Crash c => fail c
  end.

(** [full_pwrite] and [full_pread] on the file. *)
Definition file_write (buf : list Z) (count offset : Z) : M W (option Z) :=
  on_file (fun f => full_pwrite (Z.to_nat count) f buf count offset).
Definition file_read (count offset : Z) : M W (Z + list Z) :=
  on_file (fun f => full_pread (Z.to_nat count) f (memset 0 count) count offset).

Definition access_run (n blknum : Z) : M W unit :=
  ca_modify (fun c => ca_with_lru (lru_access_run (Z.to_nat n) (ca_lru c) blknum) c).

(** ** [reclaim.c] *)

(** The error of a failed [fallocate] is only logged. *)
Definition reclaim_block : M W unit :=
  blk ← ca_gets ca_reclaim_blk;
  if blk =? -1 then mret tt
  else
    errno ← on_os os_fallocate;
    if negb (errno =? 0) then mret tt
    else
      let punched f := OsFile (fill (of_data f) 0 blksize (blk * blksize)) (of_size f) (of_io f) in
      ca_modify (fun c => ca_with_bm (bitmap_set_blk (ca_bm c) blk BLOCK_NOT_CACHED)
                            (ca_with_file (punched (ca_file c)) c)).

(** [reclaim_blk = bitmap_next (bm, blk)] *)
Definition reclaim_next (blk : Z) : M W Z :=
  bm ← ca_gets ca_bm;
  match bitmap_next bm blk with
  | Ok r => ca_modify (fun c => ca_with_reclaim (ca_reclaiming c) r c);; mret r
  | Crash c => fail c
  end.

(** The next block, or the first one. *)
Definition reclaim_next_wrap : M W Z :=
  blk ← ca_gets ca_reclaim_blk;
  r ← reclaim_next (blk + 1);
  if r =? -1 then reclaim_next 0 else mret r.

Definition reclaim_any : M W unit :=
  reclaim_next_wrap;;
  reclaim_block.

(** The loop of [reclaim_lru]: whether it reclaimed a block. *)
Fixpoint reclaim_lru_loop (fuel : nat) (old_reclaim_blk : Z) : M W bool :=
  match fuel with
  | O => fail OutOfFuel
  | S fuel =>
      recent ← ca_gets (fun c => lru_has_been_recently_accessed (ca_lru c) (u64 (ca_reclaim_blk c)));
      if negb recent then reclaim_block;; mret true
      else
        r ← reclaim_next_wrap;
        if ((0 <=? r) && negb (old_reclaim_blk =? r))%bool then reclaim_lru_loop fuel old_reclaim_blk
        else mret false
  end.

Definition reclaim_lru : M W unit :=
  blk ← ca_gets ca_reclaim_blk;
  old_reclaim_blk ← reclaim_next (blk + 1);
  bm ← ca_gets ca_bm;
  found ← reclaim_lru_loop (Z.to_nat (b_limit bm + 1)) old_reclaim_blk;
  if (found : bool) then mret tt
  else
    r ← ca_gets ca_reclaim_blk;
    if old_reclaim_blk =? r then
      ca_modify (fun c => ca_with_reclaim RECLAIMING_ANY (ca_reclaim_blk c) c);;
      reclaim_any
    else mret tt.

Definition reclaim_one : M W unit :=
  r ← ca_gets ca_reclaiming;
  match r with
  | NOT_RECLAIMING => fail AssertFailed
  | RECLAIMING_LRU => reclaim_lru
  | RECLAIMING_ANY => reclaim_any
  end.

(** [max_size * thresh / 100] in signed arithmetic. *)
Definition threshold (thresh : Z) : M W Z :=
  if INT64_MAX <? q_max_size g * thresh then fail Undefined
  else mret (q_max_size g * thresh / 100).

Definition reclaim : M W unit :=
  if q_max_size g =? -1 then mret tt
  else
    st_blocks ← on_os os_fstat;
    match st_blocks with
    | None => mret tt
    | Some st_blocks =>
        let cache_allocated := u64 (st_blocks * 512) in
        r ← ca_gets ca_reclaiming;
        go ← match r with
             | NOT_RECLAIMING =>
                 hi ← threshold (q_hi_thresh g);
                 if cache_allocated <? hi then mret false
                 else
                   ca_modify (fun c => ca_with_reclaim RECLAIMING_LRU (ca_reclaim_blk c) c);;
                   mret true
             | _ =>
                 lo ← threshold (q_lo_thresh g);
                 if cache_allocated <? lo then
                   ca_modify (fun c => ca_with_reclaim NOT_RECLAIMING (ca_reclaim_blk c) c);;
                   mret false
                 else mret true
             end;
        if (go : bool) then reclaim_one;; reclaim_one else mret tt
    end.

(** ** [blk.c] *)

(** [lru_set_size], in [lru.c]: a failure leaves the second bitmap and [N]
    as they were. *)
Definition lru_set_size (new_size : Z) : M W Z :=
  mem ← on_os os_malloc;
  l ← ca_gets ca_lru;
  let '(r, bm0) := bitmap_resize mem (lru_bm0 l) new_size in
  ca_modify (ca_with_lru (Lru bm0 (lru_bm1 l) (lru_c0 l) (lru_c1 l) (lru_N l)));;
  if r =? -1 then mret (-1)
  else
    mem ← on_os os_malloc;
    let '(r, bm1) := bitmap_resize mem (lru_bm1 l) new_size in
    ca_modify (ca_with_lru (Lru bm0 bm1 (lru_c0 l) (lru_c1 l) (lru_N l)));;
    if r =? -1 then mret (-1)
    else
      let N := u32 (Z.max ((if negb (q_max_size g =? -1) then q_max_size g else new_size) / blksize / 4) 100) in
      ca_modify (ca_with_lru (Lru bm0 bm1 (lru_c0 l) (lru_c1 l) N));;
      mret 0.

(** [mem] says whether the bitmap can be reallocated; [ftruncate] is taken
    to succeed. *)
Definition cache_blk_set_size (new_size : Z) : M W Z :=
  ca_modify (ca_with_size new_size);;
  mem ← on_os os_malloc;
  bm ← ca_gets ca_bm;
  let '(r, bm) := bitmap_resize mem bm new_size in
  ca_modify (ca_with_bm bm);;
  if r =? -1 then mret (-1)
  else
    z ← ROUND_UP64 new_size blksize;
    ca_modify (fun c => ca_with_file
      (OsFile (fun x => if x <? z then of_data (ca_file c) x else 0) z (of_io (ca_file c))) c);;
    r ← lru_set_size new_size;
    mret (if r =? -1 then -1 else 0).

Definition cache_on_read : M W bool :=
  match q_cor_mode g with
  | COR_ON => mret true
  | COR_OFF => mret false
  | COR_PATH => on_os os_access
  end.

(** Part of the layer below as [n] bytes of blocks; what is past its end is
    zero. *)
Definition read_plugin nx (n offset err : Z) : M W (Z * Z * list Z) :=
  size ← ca_gets ca_size;
  let tail := beyond_end size offset n in
  '(r, err, data) ← n_pread nx (u32 (n - tail)) offset 0 err;
  mret (r, err, data ++ memset 0 tail).

(** Blocks are copied to the file and are then clean. *)
Definition store_clean (block : list Z) (blknum n err : Z) : M W (Z * Z) :=
  w ← file_write block (blksize * n) (i64 (blknum * blksize));
  match w with
  | Some errno => mret (-1, errno)
  | None =>
      ca_modify (fun c => ca_with_bm (set_run (Z.to_nat n) (ca_bm c) blknum BLOCK_CLEAN) c);;
      access_run n blknum;;
      mret (0, err)
  end.

(** One run of blocks: its length, the result and the bytes. *)
Definition cache_read_run nx (blknum nrblocks err : Z) : M W (Z * (Z * Z * list Z)) :=
  let offset := i64 (blknum * blksize) in
  bm ← ca_gets ca_bm;
  let cached := is_cached bm blknum in
  cassert (0 <? nrblocks);;
  let runblocks := 1 + cached_run (Z.to_nat (nrblocks - 1)) bm cached (blknum + 1) in
  if negb cached then
    cassert (blksize * runblocks <=? UINT32_MAX);;
    '(r, err, block) ← read_plugin nx (blksize * runblocks) offset err;
    if r =? -1 then mret (runblocks, (-1, err, []))
    else
      cor ← cache_on_read;
      if (cor : bool) then
        '(r, err) ← store_clean block blknum runblocks err;
        mret (runblocks, (r, err, block))
      else mret (runblocks, (0, err, block))
  else
    d ← file_read (blksize * runblocks) offset;
    match d with
    | inl errno => mret (runblocks, (-1, errno, []))
    | inr block => access_run runblocks blknum;; mret (runblocks, (0, err, block))
    end.

(** The recursion ends when no block is left; every run has a block. *)
Fixpoint _blk_read_multiple (fuel : nat) nx (blknum nrblocks err : Z) : M W (Z * Z * list Z) :=
  match fuel with
  | O => fail OutOfFuel
  | S fuel =>
      '(runblocks, (r, err, block)) ← cache_read_run nx blknum nrblocks err;
      if r =? -1 then mret (-1, err, [])
      else if runblocks =? nrblocks then mret (0, err, block)
      else
        '(r, err, rest) ← _blk_read_multiple fuel nx (blknum + runblocks) (nrblocks - runblocks) err;
        mret (r, err, block ++ rest)
  end.

Definition cache_blk_read_multiple nx (blknum nrblocks err : Z) : M W (Z * Z * list Z) :=
  reclaim;;
  _blk_read_multiple (Z.to_nat nrblocks) nx blknum nrblocks err.

Definition cache_blk_read nx (blknum err : Z) : M W (Z * Z * list Z) :=
  cache_blk_read_multiple nx blknum 1 err.

(** A failing [posix_fadvise] leaves [*err] as it is. *)
Definition cache_blk_cache nx (blknum err : Z) : M W (Z * Z) :=
  let offset := i64 (blknum * blksize) in
  state ← ca_gets (fun c => bitmap_get_blk (ca_bm c) blknum BLOCK_NOT_CACHED);
  reclaim;;
  if state =? BLOCK_NOT_CACHED then
    '(r, err, block) ← read_plugin nx blksize offset err;
    if r =? -1 then mret (-1, err)
    else store_clean block blknum 1 err
  else
    r ← on_os os_fadvise;
    if negb (r =? 0) then mret (-1, err)
    else
      access_run 1 blknum;;
      mret (0, err).

Definition blk_writethrough nx (blknum : Z) (block : list Z) (flags err : Z) : M W (Z * Z) :=
  let offset := i64 (blknum * blksize) in
  size ← ca_gets ca_size;
  let n := u32 (blksize - beyond_end size offset blksize) in
  reclaim;;
  w ← file_write block blksize offset;
  match w with
  | Some errno => mret (-1, errno)
  | None =>
      '(r, err) ← n_pwrite nx (take (Z.to_nat n) block) n offset flags err;
      if r =? -1 then mret (-1, err)
      else
        ca_modify (fun c => ca_with_bm (bitmap_set_blk (ca_bm c) blknum BLOCK_CLEAN) c);;
        access_run 1 blknum;;
        mret (0, err)
  end.

Definition cache_blk_write nx (flags blknum : Z) (block : list Z) (err : Z) : M W (Z * Z) :=
  let through :=
    match q_mode g with
    | CACHE_MODE_WRITETHROUGH => true
    | CACHE_MODE_WRITEBACK => has flags NBDKIT_FLAG_FUA
    | CACHE_MODE_UNSAFE => false
    end in
  if through then blk_writethrough nx blknum block flags err
  else
    reclaim;;
    w ← file_write block blksize (i64 (blknum * blksize));
    match w with
    | Some errno => mret (-1, errno)
    | None =>
        ca_modify (fun c => ca_with_bm (bitmap_set_blk (ca_bm c) blknum BLOCK_DIRTY) c);;
        access_run 1 blknum;;
        mret (0, err)
    end.

(** [f] returns 0 or -1 and the callback's data; [bitmap_for] looks at the
    size of the bitmap in each iteration. *)
Fixpoint for_each_dirty_block {A} (fuel : nat) (f : Z -> A -> M W (Z * A)) (blknum : Z) (vp : A) : M W (Z * A) :=
  bm ← ca_gets ca_bm;
  if blknum <? b_size bm * b_ibpb bm then
    match fuel with
    | O => fail OutOfFuel
    | S fuel =>
        '(r, vp) ← (if bitmap_get_blk bm blknum BLOCK_NOT_CACHED =? BLOCK_DIRTY then f blknum vp
                    else mret (0, vp));
        if r =? -1 then mret (-1, vp) else for_each_dirty_block fuel f (blknum + 1) vp
    end
  else mret (0, vp).

(** ** [cache.c] *)

Definition cache_get_size nx : M W Z :=
  size ← n_get_size nx;
  if size =? -1 then mret (-1)
  else
    r ← cache_blk_set_size size;
    mret (if r =? -1 then -1 else size).

Definition cache_block_size nx : M W (Z * (Z * Z * Z)) :=
  '(r, (minimum, preferred, maximum)) ← n_block_size nx;
  if r =? -1 then mret (-1, (minimum, preferred, maximum))
  else if minimum =? 0 then mret (0, (1, blksize, 4294967295))
  else mret (0, (minimum, if blksize <=? maximum then Z.max preferred blksize else preferred, maximum)).

Definition cache_prepare nx : M W Z :=
  r ← cache_get_size nx;
  mret (if r <? 0 then -1 else 0).

Definition cache_can_flush nx : M W Z :=
  match q_mode g with CACHE_MODE_UNSAFE => mret 1 | _ => n_can_flush nx end.

Definition cache_can_fua nx : M W Z :=
  match q_mode g with CACHE_MODE_UNSAFE => mret NBDKIT_FUA_NATIVE | _ => n_can_fua nx end.

Definition cache_can_multi_conn nx : M W Z :=
  match q_mode g with CACHE_MODE_WRITETHROUGH => n_can_multi_conn nx | _ => mret 1 end.

Definition cache_pread nx (count offset flags err : Z) : M W (Z * Z * list Z) :=
  cassert (flags =? 0);;
  with_block blksize (on_os os_malloc) count offset (-1, ENOMEM, [])
    (fun block => pread_request blksize (cache_blk_read nx) (cache_blk_read_multiple nx) block count offset err).

(** The data of [flush_dirty_block]: [errors] is unsigned, and [first_errno]
    is passed on as [err] until there is an error. *)
Record flush_data : Type := FlushData { fd_errors : Z; fd_first_errno : Z }.

Definition fd_err (d : flush_data) : Z := if fd_errors d =? 0 then fd_first_errno d else 0.

(** After a call that was given [fd_err]. *)
Definition fd_after (d : flush_data) (r err : Z) : flush_data :=
  FlushData (if r =? -1 then u32 (fd_errors d + 1) else fd_errors d)
    (if fd_errors d =? 0 then err else fd_first_errno d).

Definition flush_dirty_block nx (blknum : Z) (data : flush_data) : M W (Z * flush_data) :=
  '(r, err, block) ← cache_blk_read nx blknum (fd_err data);
  let data := fd_after data r err in
  if r =? -1 then mret (0, data)
  else
    '(r, err) ← blk_writethrough nx blknum block 0 (fd_err data);
    mret (0, fd_after data r err).

(** The dirty blocks are written, and the layer below is flushed. *)
Definition flush_all nx (flags err : Z) : M W (Z * Z) :=
  cassert (flags =? 0);;
  ok ← on_os os_malloc;
  if negb ok then mret (-1, ENOMEM)
  else
    bm ← ca_gets ca_bm;
    '(_, data) ← for_each_dirty_block (Z.to_nat (b_limit bm)) (flush_dirty_block nx) 0 (FlushData 0 0);
    '(r, e) ← n_flush nx 0 (fd_err data);
    let data := fd_after data r e in
    mret (if 0 <? fd_errors data then (-1, fd_first_errno data) else (0, err)).

Definition cache_flush nx (flags err : Z) : M W (Z * Z) :=
  match q_mode g with CACHE_MODE_UNSAFE => mret (0, err) | _ => flush_all nx flags err end.

(** The flags of the writes of a request, and whether it ends with a
    flush. *)
Definition cache_fua nx (flags : Z) : M W (Z * bool) :=
  if has flags NBDKIT_FLAG_FUA then
    emulate ← match q_mode g with
              | CACHE_MODE_UNSAFE => mret true
              | _ => r ← n_can_fua nx; mret (r =? NBDKIT_FUA_EMULATE)
              end;
    mret (if (emulate : bool) then (clear flags NBDKIT_FLAG_FUA, true) else (flags, false))
  else mret (flags, false).

(** A request that writes, and the flush after it. *)
Definition with_flush nx (flags : Z) (request : Z -> M W (Z * Z)) : M W (Z * Z) :=
  '(flags, need_flush) ← cache_fua nx flags;
  '(r, err) ← request flags;
  if r =? -1 then mret (-1, err)
  else if (need_flush : bool) then cache_flush nx 0 err
  else mret (0, err).

Definition cache_pwrite nx (buf : list Z) (count offset flags err : Z) : M W (Z * Z) :=
  with_block blksize (on_os os_malloc) count offset (-1, ENOMEM)
    (fun block => with_flush nx flags (fun flags =>
       pwrite_request blksize (cache_blk_read nx) (cache_blk_write nx flags) block buf count offset err)).

Definition cache_zero nx (count offset flags err : Z) : M W (Z * Z) :=
  if has flags NBDKIT_FLAG_FAST_ZERO then mret (-1, ENOTSUP)
  else
    ok ← on_os os_malloc;
    if negb ok then mret (-1, ENOMEM)
    else
      with_flush nx (clear flags NBDKIT_FLAG_MAY_TRIM) (fun flags =>
        zero_request blksize (cache_blk_read nx) (cache_blk_write nx flags) true
          (fun blknum err => cache_blk_write nx flags blknum (memset 0 blksize) err) count offset err).

Fixpoint blk_cache_loop (fuel : nat) nx (remaining blknum err : Z) : M W (Z * Z) :=
  if remaining =? 0 then mret (0, err)
  else match fuel with
  | O => fail OutOfFuel
  | S fuel =>
      '(r, err) ← cache_blk_cache nx blknum err;
      if r =? -1 then mret (-1, err)
      else blk_cache_loop fuel nx (u64 (remaining - blksize)) (blknum + 1) err
  end.

Definition cache_cache nx (count offset flags err : Z) : M W (Z * Z) :=
  cassert (flags =? 0);;
  ok ← on_os os_malloc;
  if negb ok then mret (-1, ENOMEM)
  else
    let blknum := offset / blksize in
    let blkoffs := offset mod blksize in
    remaining ← ROUND_UP64 (count + blkoffs) blksize;
    blk_cache_loop (Z.to_nat remaining) nx remaining blknum err.

(** [struct nbdkit_filter] *)
Definition cache_filter : nbdkit_filter W :=
  Filter None None None None None (Some (fun nx _ _ => cache_prepare nx)) None None
    (Some (fun nx _ => cache_get_size nx)) (Some (fun nx _ => cache_block_size nx)) None
    (Some (fun nx _ => cache_can_flush nx)) None None None (Some (fun _ _ => mret 1)) None
    (Some (fun nx _ => cache_can_fua nx)) (Some (fun nx _ => cache_can_multi_conn nx))
    (Some (fun _ _ => mret NBDKIT_CACHE_NATIVE)) (Some (fun nx _ => cache_pread nx))
    (Some (fun nx _ => cache_pwrite nx)) (Some (fun nx _ => cache_flush nx)) None
    (Some (fun nx _ => cache_zero nx)) None (Some (fun nx _ => cache_cache nx)).

(** The operations of the filter's layer: [cache_can_cache] is native,
    [cache_can_fast_zero] returns 1, and what the filter does not define is
    done by the layer below. *)
Definition cache_next nx : nbdkit_next W :=
  NextOps (cache_prepare nx) (n_finalize nx) (n_export_description nx) (cache_get_size nx)
    (cache_block_size nx) (n_can_write nx) (cache_can_flush nx) (n_is_rotational nx) (n_can_trim nx)
    (n_can_zero nx) (mret 1) (n_can_extents nx) (cache_can_fua nx) (cache_can_multi_conn nx)
    (mret NBDKIT_CACHE_NATIVE) (cache_pread nx) (cache_pwrite nx) (cache_flush nx) (n_trim nx)
    (cache_zero nx) (n_extents nx) (cache_cache nx).
End Cache.
