(* ===== verification/Cow.v ===== *)
(** * The copy-on-write filter

    Models [filters/cow/blk.c] and [cow.c] with [common/utils/full-rw.c]:
    writes go to an overlay file, a bitmap with two bits per block says which
    blocks are in the overlay, and the layer below is only read.

    The overlay, the bitmap and what the operating system will answer are the
    filter's state, a part of the world that is read and replaced with
    [get_cow] and [set_cow].  Each use of the bitmap, and each
    read-modify-write, is atomic because of the locks around it.
    [CowDisk] has the theorems. *)

From S2P Require Import Prelude NbdProtocol Extents Exports Server Connections Backend Plugin Filter Bytes Io Parse Layer ExtentsQuery Bitmap Blocks.

(** ** State *)

(** [enum bm_entry] *)
Definition BLOCK_NOT_ALLOCATED : Z := 0.
Definition BLOCK_ALLOCATED : Z := 1.
Definition BLOCK_TRIMMED : Z := 3.

Inductive cache_mode : Type := BLK_CACHE_IGNORE | BLK_CACHE_PASSTHROUGH | BLK_CACHE_READ | BLK_CACHE_COW.

Record cow_settings : Type := CowSettings {
  g_blksize : Z;
  g_on_cache : bool;
  g_cor_mode : cor_mode;
}.

Definition cow_defaults : cow_settings := CowSettings 65536 false COR_OFF.

Record cow_state : Type := CowState {
  c_bm : bitmap;
  c_size : Z;
  c_overlay : os_file;
  c_mem : list bool;       (* whether allocations succeed *)
  c_access : list bool;    (* for [COR_PATH]: whether the path exists, at each look *)
  c_fadvise : list Z;      (* what [posix_fadvise] returns; 0 at the end *)
}.

Definition with_bm (bm : bitmap) (c : cow_state) : cow_state :=
  CowState bm (c_size c) (c_overlay c) (c_mem c) (c_access c) (c_fadvise c).
Definition with_size (z : Z) (c : cow_state) : cow_state :=
  CowState (c_bm c) z (c_overlay c) (c_mem c) (c_access c) (c_fadvise c).
Definition with_overlay (ov : os_file) (c : cow_state) : cow_state :=
  CowState (c_bm c) (c_size c) ov (c_mem c) (c_access c) (c_fadvise c).
Definition with_mem (mem : list bool) (c : cow_state) : cow_state :=
  CowState (c_bm c) (c_size c) (c_overlay c) mem (c_access c) (c_fadvise c).
Definition with_access (l : list bool) (c : cow_state) : cow_state :=
  CowState (c_bm c) (c_size c) (c_overlay c) (c_mem c) l (c_fadvise c).
Definition with_fadvise (l : list Z) (c : cow_state) : cow_state :=
  CowState (c_bm c) (c_size c) (c_overlay c) (c_mem c) (c_access c) l.

(** ** Configuration *)

Inductive cow_key : Type := cow_block_size_key | cow_on_cache_key | cow_on_read_key | cow_other_key.

(** 0 or -1 and the settings; any other key is passed on ([None]).  A value
    of [cow-on-read] that starts with a slash (47) is a path. *)
Definition cow_config (g : cow_settings) (key : cow_key) (value : list Z) : option (Z * cow_settings) :=
  match key with
  | cow_block_size_key =>
      let r := nbdkit_parse_size value in
      Some (if r =? -1 then (-1, g)
            else if ((r <? 4096) || (UINT32_MAX <? r) || negb (is_power_of_2 r))%bool then (-1, g)
            else (0, CowSettings r (g_on_cache g) (g_cor_mode g)))
  | cow_on_cache_key =>
      let r := nbdkit_parse_bool value in
      Some (if r =? -1 then (-1, g) else (0, CowSettings (g_blksize g) (negb (r =? 0)) (g_cor_mode g)))
  | cow_on_read_key =>
      if nth 0 value 0 =? 47 then Some (0, CowSettings (g_blksize g) (g_on_cache g) COR_PATH)
      else
        let r := nbdkit_parse_bool value in
        Some (if r =? -1 then (-1, g)
              else (0, CowSettings (g_blksize g) (g_on_cache g) (if r =? 0 then COR_OFF else COR_ON)))
  | cow_other_key => None
  end.

(** [blk_init]: the empty bitmap and overlay; creating the temporary file is
    taken to succeed. *)
Definition blk_init (g : cow_settings) (io : list io_event) (mem access : list bool) (fadvise : list Z)
    : outcome cow_state :=
  match bitmap_init (g_blksize g) 2 with
  | Ok bm => Ok (CowState bm 0 (OsFile (fun _ => 0) 0 io) mem access fadvise)
  | Crash c => Crash c
  end.

(** Consecutive blocks in the same state as the first one; [n] blocks may
    follow. *)
Fixpoint count_run (n : nat) (bm : bitmap) (state blk : Z) : Z :=
  match n with
  | O => 0
  | S n =>
      if bitmap_get_blk bm blk BLOCK_NOT_ALLOCATED =? state then 1 + count_run n bm state (blk + 1) else 0
  end.

Section Cow.
Context {W : Type} (get_cow : W -> cow_state) (set_cow : cow_state -> W -> W).
Context (g : cow_settings).
Implicit Types (nx : nbdkit_next W).

Notation blksize := (g_blksize g).

Definition cow_gets {A} (f : cow_state -> A) : M W A := gets (fun s => f (get_cow (s_world s))).
Definition cow_modify (f : cow_state -> cow_state) : M W unit :=
  modify (fun s => set_world (set_cow (f (get_cow (s_world s))) (s_world s)) s).

Definition cow_malloc : M W bool :=
  mem ← cow_gets c_mem;
  match mem with
  | [] => mret true
  | ok :: mem => cow_modify (with_mem mem);; mret ok
  end.

Definition on_overlay {A} (f : os_file -> outcome (A * os_file)) : M W A :=
  ov ← cow_gets c_overlay;
  match f ov with
  | Ok (a, ov) => cow_modify (with_overlay ov);; mret a
  | Crash c => fail c
  end.

(** [full_pwrite] and [full_pread] on the overlay. *)
Definition overlay_write (buf : list Z) (count offset : Z) : M W (option Z) :=
  on_overlay (fun ov => full_pwrite (Z.to_nat count) ov buf count offset).
Definition overlay_read (count offset : Z) : M W (Z + list Z) :=
  on_overlay (fun ov => full_pread (Z.to_nat count) ov (memset 0 count) count offset).

(** ** [blk.c] *)

(** [mem] says whether the bitmap can be reallocated; [ftruncate] is taken
    to succeed. *)
Definition blk_set_size (new_size : Z) : M W Z :=
  cow_modify (with_size new_size);;
  mem ← cow_malloc;
  bm ← cow_gets c_bm;
  let '(r, bm) := bitmap_resize mem bm new_size in
  cow_modify (with_bm bm);;
  if r =? -1 then mret (-1)
  else
    z ← ROUND_UP64 new_size blksize;
    cow_modify (fun c => with_overlay
      (OsFile (fun x => if x <? z then of_data (c_overlay c) x else 0) z (of_io (c_overlay c))) c);;
    mret 0.

(** [present] and [trimmed] *)
Definition blk_status (blknum : Z) : M W (bool * bool) :=
  state ← cow_gets (fun c => bitmap_get_blk (c_bm c) blknum BLOCK_NOT_ALLOCATED);
  mret (negb (state =? BLOCK_NOT_ALLOCATED), state =? BLOCK_TRIMMED).

(** One run of blocks: its length, the result and the bytes. *)
Definition blk_read_run nx (blknum nrblocks : Z) (cow_on_read : bool) (err : Z)
    : M W (Z * (Z * Z * list Z)) :=
  let offset := i64 (blknum * blksize) in
  bm ← cow_gets c_bm;
  let state := bitmap_get_blk bm blknum BLOCK_NOT_ALLOCATED in
  let runblocks := 1 + count_run (Z.to_nat (nrblocks - 1)) bm state (blknum + 1) in
  if state =? BLOCK_NOT_ALLOCATED then
    cassert (blksize * runblocks <=? UINT32_MAX);;
    size ← cow_gets c_size;
    let n := blksize * runblocks in
    let tail := beyond_end size offset n in
    let n := u32 (n - tail) in
    '(r, err, data) ← n_pread nx n offset 0 err;
    if r =? -1 then mret (runblocks, (-1, err, []))
    else
      let block := data ++ memset 0 tail in
      if cow_on_read then
        w ← overlay_write block (blksize * runblocks) offset;
        match w with
        | Some errno => mret (runblocks, (-1, errno, []))
        | None =>
            cow_modify (fun c => with_bm (set_run (Z.to_nat runblocks) (c_bm c) blknum BLOCK_ALLOCATED) c);;
            mret (runblocks, (0, err, block))
        end
      else mret (runblocks, (0, err, block))
  else if state =? BLOCK_ALLOCATED then
    d ← overlay_read (blksize * runblocks) offset;
    match d with
    | inl errno => mret (runblocks, (-1, errno, []))
    | inr block => mret (runblocks, (0, err, block))
    end
  else mret (runblocks, (0, err, memset 0 (blksize * runblocks))).

(** The recursion ends when no block is left; every run has a block. *)
Fixpoint blk_read_multiple (fuel : nat) nx (blknum nrblocks : Z) (cow_on_read : bool) (err : Z)
    : M W (Z * Z * list Z) :=
  match fuel with
  | O => fail OutOfFuel
  | S fuel =>
      '(runblocks, (r, err, block)) ← blk_read_run nx blknum nrblocks cow_on_read err;
      if r =? -1 then mret (-1, err, [])
      else if runblocks =? nrblocks then mret (0, err, block)
      else
        '(r, err, rest) ← blk_read_multiple fuel nx (blknum + runblocks) (nrblocks - runblocks) cow_on_read err;
        mret (r, err, block ++ rest)
  end.

Definition blk_read nx (blknum : Z) (cow_on_read : bool) (err : Z) : M W (Z * Z * list Z) :=
  blk_read_multiple 1 nx blknum 1 cow_on_read err.

(** A failing [posix_fadvise] leaves [*err] as it is. *)
Definition blk_cache nx (blknum : Z) (mode : cache_mode) (err : Z) : M W (Z * Z) :=
  let offset := i64 (blknum * blksize) in
  state ← cow_gets (fun c => bitmap_get_blk (c_bm c) blknum BLOCK_NOT_ALLOCATED);
  size ← cow_gets c_size;
  let tail := beyond_end size offset blksize in
  let n := u32 (blksize - tail) in
  if state =? BLOCK_ALLOCATED then
    l ← cow_gets c_fadvise;
    match l with
    | [] => mret (0, err)
    | r :: l => cow_modify (with_fadvise l);; mret (if r =? 0 then 0 else -1, err)
    end
  else if state =? BLOCK_TRIMMED then mret (0, err)
  else
    let read :=
      '(r, err, data) ← n_pread nx n offset 0 err;
      mret (r, err, data ++ memset 0 tail) in
    match mode with
    | BLK_CACHE_IGNORE => mret (0, err)
    | BLK_CACHE_PASSTHROUGH => n_cache nx n offset 0 err
    | BLK_CACHE_READ =>
        '(r, err, _) ← read;
        mret (if r =? -1 then -1 else 0, err)
    | BLK_CACHE_COW =>
        '(r, err, block) ← read;
        if r =? -1 then mret (-1, err)
        else
          w ← overlay_write block blksize offset;
          match w with
          | Some errno => mret (-1, errno)
          | None =>
              cow_modify (fun c => with_bm (bitmap_set_blk (c_bm c) blknum BLOCK_ALLOCATED) c);;
              mret (0, err)
          end
    end.

Definition blk_write (blknum : Z) (block : list Z) (err : Z) : M W (Z * Z) :=
  w ← overlay_write block blksize (i64 (blknum * blksize));
  match w with
  | Some errno => mret (-1, errno)
  | None =>
      cow_modify (fun c => with_bm (bitmap_set_blk (c_bm c) blknum BLOCK_ALLOCATED) c);;
      mret (0, err)
  end.

Definition blk_trim (blknum err : Z) : M W (Z * Z) :=
  cow_modify (fun c => with_bm (bitmap_set_blk (c_bm c) blknum BLOCK_TRIMMED) c);;
  mret (0, err).

(** ** [cow.c] *)

Definition cow_on_read : M W bool :=
  match g_cor_mode g with
  | COR_ON => mret true
  | COR_OFF => mret false
  | COR_PATH =>
      l ← cow_gets c_access;
      match l with
      | [] => mret false
      | exists_ :: l => cow_modify (with_access l);; mret exists_
      end
  end.

(** NULL is [None]; the layer below is opened read-only. *)
Definition cow_open (next : bool -> list Z -> M W Z) (readonly : bool) (exportname : list Z) : M W (option unit) :=
  r ← next true exportname;
  mret (if r =? -1 then None else Some tt).

Definition cow_get_size nx : M W Z :=
  size ← n_get_size nx;
  if size =? -1 then mret (-1)
  else
    r ← blk_set_size size;
    mret (if r =? -1 then -1 else size).

Definition cow_block_size nx : M W (Z * (Z * Z * Z)) :=
  '(r, (minimum, preferred, maximum)) ← n_block_size nx;
  if r =? -1 then mret (-1, (minimum, preferred, maximum))
  else if minimum =? 0 then mret (0, (1, blksize, 4294967295))
  else mret (0, (minimum, if blksize <=? maximum then Z.max preferred blksize else preferred, maximum)).

Definition cow_prepare nx : M W Z :=
  r ← cow_get_size nx;
  mret (if 0 <=? r then 0 else -1).

Definition cow_can_cache nx : M W Z :=
  r ← n_can_cache nx;
  mret (if r =? -1 then -1 else NBDKIT_CACHE_NATIVE).

(** [blk_read] and [blk_read_multiple], as the requests use them. *)
Definition cow_read nx (blknum err : Z) : M W (Z * Z * list Z) :=
  cor ← cow_on_read;
  blk_read nx blknum cor err.

Definition cow_read_multiple nx (blknum nrblocks err : Z) : M W (Z * Z * list Z) :=
  cor ← cow_on_read;
  blk_read_multiple (Z.to_nat nrblocks) nx blknum nrblocks cor err.

Definition cow_pread nx (count offset flags err : Z) : M W (Z * Z * list Z) :=
  with_block blksize cow_malloc count offset (-1, ENOMEM, [])
    (fun block => pread_request blksize (cow_read nx) (cow_read_multiple nx) block count offset err).

Definition cow_pwrite nx (buf : list Z) (count offset flags err : Z) : M W (Z * Z) :=
  with_block blksize cow_malloc count offset (-1, ENOMEM)
    (fun block => pwrite_request blksize (cow_read nx) blk_write block buf count offset err).

Definition cow_zero nx (count offset flags err : Z) : M W (Z * Z) :=
  if has flags NBDKIT_FLAG_FAST_ZERO then mret (-1, ENOTSUP)
  else
    ok ← cow_malloc;
    if negb ok then mret (-1, ENOMEM)
    else
      zero_request blksize (cow_read nx) blk_write true (fun blknum err => blk_write blknum (memset 0 blksize) err)
        count offset err.

Definition cow_trim nx (count offset flags err : Z) : M W (Z * Z) :=
  with_block blksize cow_malloc count offset (-1, ENOMEM)
    (fun block => zero_request blksize (cow_read nx) blk_write block blk_trim count offset err).

Definition cow_flush (flags err : Z) : M W (Z * Z) := mret (0, err).

Fixpoint cache_blocks (fuel : nat) nx (mode : cache_mode) (remaining blknum err : Z) : M W (Z * Z) :=
  if remaining =? 0 then mret (0, err)
  else match fuel with
  | O => fail OutOfFuel
  | S fuel =>
      '(r, err) ← blk_cache nx blknum mode err;
      if r =? -1 then mret (-1, err)
      else cache_blocks fuel nx mode (u64 (remaining - blksize)) (blknum + 1) err
  end.

Definition cow_cache nx (count offset flags err : Z) : M W (Z * Z) :=
  r ← n_can_cache nx;
  mode ← (if r =? NBDKIT_CACHE_NONE then mret BLK_CACHE_IGNORE
          else if r =? NBDKIT_CACHE_EMULATE then mret BLK_CACHE_READ
          else if r =? NBDKIT_CACHE_NATIVE then mret BLK_CACHE_PASSTHROUGH
          else fail AssertFailed);
  let mode := if g_on_cache g then BLK_CACHE_COW else mode in
  cassert (flags =? 0);;
  ok ← cow_malloc;
  if negb ok then mret (-1, ENOMEM)
  else
    let blknum := offset / blksize in
    let blkoffs := offset mod blksize in
    remaining ← ROUND_UP64 (count + blkoffs) blksize;
    cache_blocks (Z.to_nat remaining) nx mode remaining blknum err.

(** The inner loop of [cow_extents], which looks for the blocks that the
    plugin can be asked about in one go; one block was taken already.  The
    result is the number of blocks. *)
Fixpoint range_blocks (fuel : nat) (bm : bitmap) (count blknum range_count : Z) : Z :=
  match fuel with
  | O => 0
  | S fuel =>
      if UINT32_MAX - blksize + 1 <=? range_count then 0
      else
        let count := count - blksize in
        if count =? 0 then 1
        else if negb (bitmap_get_blk bm (blknum + 1) BLOCK_NOT_ALLOCATED =? BLOCK_NOT_ALLOCATED) then 1
        else 1 + range_blocks fuel bm count (blknum + 1) (range_count + blksize)
  end.

(** The loop; [b] is the next layer, for [nbdkit_extents_full]. *)
Fixpoint cow_extents_loop (fuel : nat) (b : backend W) nx (can_extents req_one : bool) (count offset flags : Z)
    (extents : nbdkit_extents) (err : Z) : M W (Z * Z * nbdkit_extents) :=
  if 0 <? count then
    match fuel with
    | O => fail OutOfFuel
    | S fuel =>
        let blknum := offset / blksize in
        let add offset length type :=
          match nbdkit_add_extent extents offset length type with
          | (Some errno, extents) => (-1, errno, extents)
          | (None, extents) => (0, err, extents)
          end in
        '(present, trimmed) ← blk_status blknum;
        '(r, err, extents, blocks) ←
          (if (present : bool) then
             mret (add offset blksize
                     (if (trimmed : bool) then Z.lor NBDKIT_EXTENT_HOLE NBDKIT_EXTENT_ZERO else 0), 1)
           else if (can_extents : bool) then
             bm ← cow_gets c_bm;
             let blocks := range_blocks (Z.to_nat (count / blksize)) bm count blknum 0 in
             let range_count := blocks * blksize in
             size ← n_get_size nx;
             if size =? -1 then mret (-1, err, extents, blocks)
             else
               let range_count :=
                 if size <? offset + range_count then u32 (range_count - u32 (offset + range_count - size))
                 else range_count in
               '(o, err) ← on_next (nbdkit_extents_full b range_count offset flags err);
               match o with
               | None => mret (-1, err, extents, blocks)
               | Some extents2 => mret (add_extents (x_extents extents2) extents err, blocks)
               end
           else mret (add offset blksize 0, 1));
        if r =? -1 then mret (-1, err, extents)
        else if (req_one && (0 <? nbdkit_extents_count extents))%bool then mret (0, err, extents)
        else cow_extents_loop fuel b nx can_extents req_one (u64 (count - blocks * blksize))
               (u64 (offset + blocks * blksize)) flags extents err
    end
  else mret (0, err, extents).

Definition cow_extents (b : backend W) nx (count32 offset flags : Z) (extents : nbdkit_extents) (err : Z)
    : M W (Z * Z * nbdkit_extents) :=
  r ← n_can_extents nx;
  let can_extents := negb (r =? 0) in
  let req_one := has flags NBDKIT_FLAG_REQ_ONE in
  let end_ := u64 (offset + count32) in
  offset ← ROUND_DOWN offset blksize;
  end_ ← ROUND_UP64 end_ blksize;
  let count := u64 (end_ - offset) in
  a ← IS_ALIGNED offset blksize;
  cassert a;;
  a ← IS_ALIGNED count blksize;
  cassert a;;
  cassert (0 <? count);;
  cow_extents_loop (Z.to_nat (count / blksize)) b nx can_extents req_one count offset flags extents err.

(** The operations of the filter's layer: [cow_can_write], [cow_can_trim],
    [cow_can_extents], [cow_can_flush], [cow_can_multi_conn] and
    [cow_can_fast_zero] return 1, [cow_can_fua] is native. *)
Definition cow_next (b : backend W) nx : nbdkit_next W :=
  NextOps (cow_prepare nx) (n_finalize nx) (n_export_description nx) (cow_get_size nx)
    (cow_block_size nx) (mret 1) (mret 1) (n_is_rotational nx) (mret 1)
    (n_can_zero nx) (mret 1) (mret 1) (mret NBDKIT_FUA_NATIVE) (mret 1)
    (cow_can_cache nx) (cow_pread nx) (cow_pwrite nx) cow_flush (cow_trim nx)
    (cow_zero nx) (cow_extents b nx) (cow_cache nx).
End Cow.
