(* ===== verification/CowDisk.v ===== *)
(** * The copy-on-write filter as a disk

    The filter of [Cow], on top of a layer that can be read, presents a disk
    that can be written, and never changes the layer below.

    The theorems are for an overlay file whose transfers are complete or
    fail; [full_pwrite_short_wrong] shows what a short one does. *)

From S2P Require Import Prelude NbdProtocol Extents Exports Server Connections Backend Plugin Filter Bytes Io Parse Layer ExtentsQuery Bitmap Blocks Cow.

(** ** The overlay file *)

(** A short transfer writes the beginning of the buffer twice: here the
    third byte of the file becomes 1 instead of 3. *)
Lemma full_pwrite_short_wrong :
  full_pwrite 4 (OsFile (fun _ => 0) 4 [IoShort 1]) [1; 2; 3; 4] 4 0 =
  Ok (None, OsFile (overwrite (overwrite (fun _ => 0) [1; 2] 0) [1; 2] 2) 4 []).
Proof. reflexivity. Qed.

(** ** Runs of blocks *)

Lemma count_run_spec n bm state : forall blk,
  0 <= count_run n bm state blk <= Z.of_nat n /\
  forall y, blk <= y < blk + count_run n bm state blk -> bitmap_get_blk bm y BLOCK_NOT_ALLOCATED = state.
Proof.
  induction n as [|n IH]; intros blk; cbn [count_run]; [split; lia|].
  destruct (Z.eqb_spec (bitmap_get_blk bm blk BLOCK_NOT_ALLOCATED) state) as [E|]; [|split; lia].
  destruct (IH (blk + 1)) as [Hb Hall]. split; [lia|]. intros y Hy.
  destruct (decide (y = blk)) as [-> |]; [done|]. apply Hall. lia.
Qed.

(** ** What the filter presents *)

Section Correct.
Context {W : Type} (get_cow : W -> cow_state) (set_cow : cow_state -> W -> W) (g : cow_settings).
Context (inv : st W -> Prop) (disk : st W -> Z -> Z) (settled : st W -> Z -> Prop).
Context (nx : nbdkit_next W) (k : layer_limits) (b : backend W).

Definition cow_of (s : st W) : cow_state := get_cow (s_world s).
Definition put_cow (c : cow_state) (s : st W) : st W := set_world (set_cow c (s_world s)) s.

(** The filter's state is its own, the layer below does not depend on it. *)
Record cow_separate : Prop := CowSeparate {
  cs_get_set : forall c w, get_cow (set_cow c w) = c;
  cs_inv : forall c s, inv s -> inv (put_cow c s);
  cs_disk : forall c s x, disk (put_cow c s) x = disk s x;
  cs_next : forall c, ReadLayer (fun s => inv s /\ cow_of s = c) disk settled nx k;
}.

(** Block size and disk size. *)
Record cow_fits : Prop := CowFits {
  cf_blksize : exists n, 0 <= n <= 31 /\ g_blksize g = 2 ^ n;
  cf_size : 0 <= l_size k <= INT64_MAX;
  cf_blksize_min : (l_minimum k | g_blksize g);
  cf_size_min : (l_minimum k | l_size k);
  cf_max : g_blksize g <= l_maximum k;
}.

Context (Hsep : cow_separate) (Hfit : cow_fits).
Notation bs := (g_blksize g).
Notation size := (l_size k).

(** The state after [blk_set_size]. *)
Record cow_ok (c : cow_state) : Prop := CowOk {
  co_wf : bitmap_wf (c_bm c);
  co_bpb : b_bpb (c_bm c) = 2;
  co_blksize : b_blksize (c_bm c) = bs;
  co_size : c_size c = size;
  co_limit : size <= bs * b_limit (c_bm c);
  co_overlay : forall blk, blk * bs < size -> (blk + 1) * bs <= of_size (c_overlay c);
  co_io : Forall io_good (of_io (c_overlay c));
  co_fadvise : Forall (fun r => r = 0) (c_fadvise c);
  co_states : forall blk, 0 <= blk -> entry (c_bm c) blk = BLOCK_NOT_ALLOCATED \/
    entry (c_bm c) blk = BLOCK_ALLOCATED \/ entry (c_bm c) blk = BLOCK_TRIMMED;
}.

(** The contents: what is in the overlay, over [D]. *)
Definition view (D : Z -> Z) (c : cow_state) (x : Z) : Z :=
  if decide (0 <= x < size) then
    let e := entry (c_bm c) (x / bs) in
    if e =? BLOCK_NOT_ALLOCATED then D x
    else if e =? BLOCK_ALLOCATED then of_data (c_overlay c) x
    else 0
  else 0.

Context (D : Z -> Z).

(** In every state the layer below contains [D]. *)
Definition cow_inv (s : st W) : Prop := inv s /\ cow_ok (cow_of s) /\ forall x, disk s x = D x.
Definition cow_disk (s : st W) : Z -> Z := view D (cow_of s).
Definition cow_settled (s : st W) (x : Z) : Prop := True.

Notation same := (same_disk cow_inv cow_disk cow_settled).
Notation agrees' := (agrees cow_disk size).
Notation bs_ok := (bs_pos bs (cf_blksize Hfit)).
Notation wrote' := (wrote cow_inv cow_disk cow_settled).

Lemma cow_of_put c s : cow_of (put_cow c s) = c.
Proof. apply Hsep. Qed.

Lemma cow_inv_put c s : cow_inv s -> cow_ok c -> cow_inv (put_cow c s).
Proof.
  intros (Hi & _ & Hd) Hc. split; [by apply Hsep|]. split; [by rewrite cow_of_put|].
  intros x. rewrite (cs_disk Hsep). apply Hd.
Qed.

(** Changes of the filter's state that do not concern the contents. *)
Lemma same_put s c : cow_inv s -> cow_ok c -> (forall x, view D c x = cow_disk s x) -> same s (put_cow c s).
Proof.
  intros Hi Hc Hv. split; [by apply cow_inv_put|]. intros x _. unfold cow_disk. rewrite cow_of_put. auto.
Qed.

(** What the layer below does is invisible if it only reads. *)
Lemma same_next s s' : cow_inv s ->
  same_disk (fun s' => inv s' /\ cow_of s' = cow_of s) disk settled s s' -> same s s' /\ cow_of s' = cow_of s.
Proof.
  intros (Hi & Hc & Hd) [[Hi' E] Hs]. split; [|done]. split.
  - split; [done|]. split; [by rewrite E|]. intros x. destruct (Hs x I) as [-> _]. apply Hd.
  - intros x _. unfold cow_disk. by rewrite E.
Qed.

Lemma wp_cow_gets {A} (f : cow_state -> A) Q s : Q (f (cow_of s)) s -> wp (cow_gets get_cow f) Q s.
Proof. intros HQ. by apply wp_gets. Qed.

Lemma wp_cow_modify f (Q : unit -> st W -> Prop) s :
  Q tt (put_cow (f (cow_of s)) s) -> wp (cow_modify get_cow set_cow f) Q s.
Proof. intros HQ. by apply wp_modify. Qed.

Lemma wp_cow_malloc s : cow_inv s -> wp (cow_malloc get_cow set_cow) (fun ok s' => same s s') s.
Proof.
  intros Hi. unfold cow_malloc. apply wp_bind, wp_cow_gets. destruct (c_mem (cow_of s)) as [|ok mem].
  - apply wp_ret. by apply unchanged_refl.
  - apply wp_bind, wp_cow_modify, wp_ret. apply same_put; [done| |done].
    destruct Hi as (_ & [] & _). by split.
Qed.

Lemma wp_cow_on_read s : cow_inv s -> wp (cow_on_read get_cow set_cow g) (fun cor s' => same s s') s.
Proof.
  intros Hi. unfold cow_on_read. destruct (g_cor_mode g); [apply wp_ret; by apply unchanged_refl..|].
  apply wp_bind, wp_cow_gets. destruct (c_access (cow_of s)) as [|ok l].
  - apply wp_ret. by apply unchanged_refl.
  - apply wp_bind, wp_cow_modify, wp_ret. apply same_put; [done| |done].
    destruct Hi as (_ & [] & _). by split.
Qed.

Lemma wp_overlay_write buf count offset s :
  cow_inv s -> 0 < count -> Z.of_nat (length buf) = count ->
  wp (overlay_write get_cow set_cow buf count offset) (fun o s' =>
    exists ov', s' = put_cow (with_overlay ov' (cow_of s)) s /\ cow_ok (with_overlay ov' (cow_of s)) /\
    match o with
    | Some e => e <> 0 /\ errno_ok e /\ of_data ov' = of_data (c_overlay (cow_of s))
    | None => of_data ov' = overwrite (of_data (c_overlay (cow_of s))) buf offset
    end) s.
Proof.
  intros (Hi & Hc & Hd) Hpos Hlen. unfold overlay_write, on_overlay. apply wp_bind, wp_cow_gets.
  destruct (full_pwrite_good (c_overlay (cow_of s)) buf count offset (co_io _ Hc) Hpos Hlen)
    as (o & ov' & -> & Hio & Hsz & Ho).
  apply wp_bind, wp_cow_modify, wp_ret. exists ov'. split; [done|]. split; [|done].
  destruct Hc as [H1 H2 H3 H4 H5 H6 H7 H8 H9]. split; try done. intros blk Hblk. simpl. pose proof (H6 blk Hblk). lia.
Qed.

Lemma wp_overlay_read count offset s :
  cow_inv s -> 0 < count -> offset + count <= of_size (c_overlay (cow_of s)) ->
  wp (overlay_read get_cow set_cow count offset) (fun o s' =>
    same s s' /\ match o with
    | inl e => e <> 0 /\ errno_ok e
    | inr data => data = slice (of_data (c_overlay (cow_of s))) offset count
    end) s.
Proof.
  intros Hinv Hpos Hsz. pose proof Hinv as (Hi & Hc & Hd). unfold overlay_read, on_overlay. apply wp_bind, wp_cow_gets.
  destruct (full_pread_good (c_overlay (cow_of s)) count offset (co_io _ Hc) Hpos Hsz)
    as (o & ov' & -> & Hio & Hdata & Hsz' & Ho).
  apply wp_bind, wp_cow_modify, wp_ret. split; [|done]. apply same_put; [done| |].
  - destruct Hc as [H1 H2 H3 H4 H5 H6 H7 H8 H9]. split; try done. intros blk Hblk. simpl. rewrite Hsz'. auto.
  - intros x. unfold cow_disk, view. simpl. by rewrite Hdata.
Qed.

(** ** Blocks *)

(** A block that starts inside the disk. *)
Lemma block_inside s blk : cow_inv s -> 0 <= blk -> blk * bs < size ->
  blk < b_limit (c_bm (cow_of s)) /\ i64 (blk * bs) = blk * bs /\
  bitmap_get_blk (c_bm (cow_of s)) blk BLOCK_NOT_ALLOCATED = entry (c_bm (cow_of s)) blk.
Proof.
  intros (_ & Hc & _) Hb Hs. pose proof bs_ok. pose proof (cf_size Hfit). pose proof (co_limit _ Hc).
  assert (blk < b_limit (c_bm (cow_of s))) by nia. split; [done|].
  split; [apply i64_small; nia|]. rewrite bitmap_get_blk_entry by apply Hc.
  by rewrite (proj2 (Z.leb_gt _ _)) by lia.
Qed.

(** Blocks stored in the overlay. *)
Lemma view_stored c ov data blk n :
  cow_ok c -> 0 <= blk -> 1 <= n -> (blk + n - 1) * bs < size -> Z.of_nat (length data) = n * bs ->
  of_data ov = overwrite (of_data (c_overlay c)) data (blk * bs) ->
  cow_ok (with_overlay ov c) ->
  let c' := with_bm (set_run (Z.to_nat n) (c_bm c) blk BLOCK_ALLOCATED) (with_overlay ov c) in
  cow_ok c' /\ forall x, view D c' x =
    if decide (blk * bs <= x < (blk + n) * bs /\ x < size) then nth (Z.to_nat (x - blk * bs)) data 0 else view D c x.
Proof.
  intros Hc Hb Hn Hs Hlen Hdata Hc1 c'. pose proof bs_ok. pose proof (co_limit _ Hc) as Hlim.
  assert (Hend : blk + n <= b_limit (c_bm c)) by nia.
  destruct (set_run_spec (Z.to_nat n) BLOCK_ALLOCATED (c_bm c) blk) as (Hwf & Hl & Hbs & Hbp & He);
    [apply Hc|done|lia|rewrite (co_bpb _ Hc); done|].
  split.
  { destruct Hc1 as [H1 H2 H3 H4 H5 H6 H7 H8 H9]. split; simpl in *; try done; [congruence..| |].
    - by rewrite Hl.
    - intros y Hy. rewrite He by done. case_decide; auto. }
  intros x. unfold view. subst c'. cbn [c_bm c_overlay with_bm with_overlay]. destruct (decide (0 <= x < size)) as [Hx|Hx].
  2: { rewrite decide_False by nia. done. }
  rewrite He by (apply Z.div_pos; lia). destruct (decide (blk * bs <= x < (blk + n) * bs)) as [Hin|Hout].
  - rewrite decide_True by (pose proof (div_block bs bs_ok blk n x Hb Hin); lia). rewrite decide_True by lia.
    cbn [Z.eqb BLOCK_ALLOCATED BLOCK_NOT_ALLOCATED]. rewrite Hdata, overwrite_in by lia. done.
  - rewrite decide_False.
    2: { intros Hq. apply Hout. pose proof (Z.div_mod x bs ltac:(lia)). pose proof (Z.mod_pos_bound x bs ltac:(lia)). nia. }
    rewrite decide_False by lia. rewrite Hdata, overwrite_out by lia. done.
Qed.

(** The same, as the last steps of a write of blocks. *)
Lemma wp_store data blk n fuel_n s (Q : unit -> st W -> Prop) ov :
  cow_inv s -> 0 <= blk -> 1 <= n -> (blk + n - 1) * bs < size -> Z.of_nat (length data) = n * bs ->
  of_data ov = overwrite (of_data (c_overlay (cow_of s))) data (blk * bs) ->
  cow_ok (with_overlay ov (cow_of s)) -> fuel_n = Z.to_nat n ->
  (forall s', cow_inv s' ->
     (forall x, cow_disk s' x = if decide (blk * bs <= x < (blk + n) * bs /\ x < size)
                                then nth (Z.to_nat (x - blk * bs)) data 0 else cow_disk s x) -> Q tt s') ->
  wp (cow_modify get_cow set_cow (fun c => with_bm (set_run fuel_n (c_bm c) blk BLOCK_ALLOCATED) c)) Q
    (put_cow (with_overlay ov (cow_of s)) s).
Proof.
  intros Hi Hb Hn Hs Hlen Hdata Hok -> HQ. apply wp_cow_modify. rewrite cow_of_put.
  destruct (view_stored (cow_of s) ov data blk n) as [Hc' Hv]; try done; [apply Hi|].
  apply HQ.
  - apply cow_inv_put; [|done]. by apply cow_inv_put.
  - intros x. unfold cow_disk at 1. rewrite cow_of_put. apply Hv.
Qed.

(** Reading unallocated blocks from the layer below. *)
Lemma wp_read_below blk n err s :
  cow_inv s -> errno_ok err -> 0 <= blk -> 1 <= n -> (blk + n - 1) * bs < size -> n * bs <= UINT32_MAX ->
  n * bs <= l_maximum k -> (forall y, blk <= y < blk + n -> entry (c_bm (cow_of s)) y = BLOCK_NOT_ALLOCATED) ->
  wp (n_pread nx (u32 (n * bs - beyond_end size (blk * bs) (n * bs))) (blk * bs) 0 err) (fun '(r, err', data) s' =>
    same s s' /\ cow_of s' = cow_of s /\ fails_errno r err' /\
    (r <> -1 -> let block := data ++ memset 0 (beyond_end size (blk * bs) (n * bs)) in
       Z.of_nat (length block) = n * bs /\ agrees' s' (blk * bs) block)) s.
Proof.
  intros Hi He Hb Hn Hs Hu Hmax Hst. pose proof bs_ok.
  assert (Hs0 : 0 <= blk * bs < size) by nia.
  destruct (beyond_end_spec k (cf_size Hfit) (blk * bs) (n * bs)) as [Hbe ->]; [done|nia|].
  pose proof (next_range bs k bs_ok blk n (cf_blksize_min Hfit) (cf_size_min Hfit) Hb Hn ltac:(nia) Hu) as Hr.
  pose proof (dl_pread (ReadLayer:=cs_next Hsep (cow_of s)) (Z.min (n * bs) (size - blk * bs)) (blk * bs) err s) as Hwp.
  eapply wp_mono; [apply Hwp; [split; [apply Hi|done]|done|done|lia]|].
  intros [[r e] data] s' (Hsd & He' & Hdata). destruct (same_next s s' Hi Hsd) as [Hsame Hc].
  split; [done|]. split; [done|]. split; [done|]. intros Hr1 block.
  assert (Hlen : Z.of_nat (length data) = Z.min (n * bs) (size - blk * bs)) by (rewrite Hdata, length_slice by done; lia).
  split; [subst block; rewrite length_app, length_memset, Hbe; lia|].
  intros x Hx Hxs. subst block. destruct Hsame as [_ Hv]. destruct (Hv x I) as [-> _].
  rewrite length_app, length_memset in Hx. rewrite app_nth1 by lia. rewrite Hdata, nth_slice by (done || lia).
  unfold cow_disk, view. rewrite decide_True by lia. rewrite Hst.
  - simpl. replace (blk * bs + (x - blk * bs)) with x by lia. apply Hi.
  - apply (div_block bs bs_ok); [done|]. lia.
Qed.

Lemma store_same data blk n s s' :
  agrees' s (blk * bs) data -> Z.of_nat (length data) = n * bs -> cow_inv s' ->
  (forall x, cow_disk s' x = if decide (blk * bs <= x < (blk + n) * bs /\ x < size)
                             then nth (Z.to_nat (x - blk * bs)) data 0 else cow_disk s x) -> same s s'.
Proof.
  intros Ha Hlen Hi Hv. split; [done|]. intros x _. split; [|done]. rewrite Hv.
  case_decide; [apply Ha; lia|done].
Qed.

Lemma wp_blk_read_run blk n cor err s :
  cow_inv s -> errno_ok err -> 0 <= blk -> 1 <= n -> (blk + n - 1) * bs < size -> n * bs <= UINT32_MAX ->
  n * bs <= l_maximum k ->
  wp (blk_read_run get_cow set_cow g nx blk n cor err) (fun '(runblocks, (r, err', data)) s' =>
    same s s' /\ 1 <= runblocks <= n /\ fails_errno r err' /\
    (r <> -1 -> Z.of_nat (length data) = runblocks * bs /\ agrees' s' (blk * bs) data)) s.
Proof.
  intros Hi He Hb Hn Hs Hu Hmax. pose proof bs_ok.
  destruct (block_inside s blk Hi Hb ltac:(nia)) as (Hlt & Hoff & Hget).
  unfold blk_read_run. rewrite Hoff. apply wp_bind, wp_cow_gets. rewrite Hget.
  set (e := entry (c_bm (cow_of s)) blk).
  destruct (count_run_spec (Z.to_nat (n - 1)) (c_bm (cow_of s)) e (blk + 1)) as [Hrun Hall].
  set (run := 1 + count_run (Z.to_nat (n - 1)) (c_bm (cow_of s)) e (blk + 1)).
  assert (Hrb : 1 <= run <= n) by lia.
  assert (Hst : forall y, blk <= y < blk + run -> entry (c_bm (cow_of s)) y = e).
  { intros y Hy. destruct (decide (y = blk)) as [-> |]; [done|].
    destruct (block_inside s y Hi) as (_ & _ & <-); [lia|nia|]. apply Hall. lia. }
  assert (Hfail : forall errno s', same s s' -> errno <> 0 -> errno_ok errno ->
    wp (mret (run, (-1, errno, [] : list Z)) : M W _) (fun '(runblocks, (r, err', data)) s' =>
      same s s' /\ 1 <= runblocks <= n /\ fails_errno r err' /\
      (r <> -1 -> Z.of_nat (length data) = runblocks * bs /\ agrees' s' (blk * bs) data)) s').
  { intros errno s' Hsd Hne Hok. apply wp_ret. split; [done|]. split; [done|]. split; [by split|]. done. }
  destruct (Z.eqb_spec e BLOCK_NOT_ALLOCATED) as [E0|E0].
  - apply wp_bind, wp_assert. split; [apply Z.leb_le; nia|]. apply wp_bind, wp_cow_gets.
    rewrite (co_size _ (proj1 (proj2 Hi))), (Z.mul_comm bs run). apply wp_bind.
    eapply wp_mono; [apply (wp_read_below blk run err s); try done; try nia; intros y Hy; by rewrite Hst|].
    intros [[r e1] data] s1 (Hsd & Hcow & Hf & Hdata). destruct (Z.eqb_spec r (-1)) as [-> |Hr].
    { apply wp_ret. split; [done|]. split; [done|]. split; [done|]. done. }
    destruct (Hdata Hr) as [Hlen Hag]. set (block := data ++ _) in *.
    destruct cor; [|apply wp_ret; split; [done|]; split; [done|]; split; [split; [apply Hf|lia]|done]].
    apply wp_bind. eapply wp_mono; [apply (wp_overlay_write block _ _ s1); [apply Hsd|nia|done]|].
    intros o s2 (ov & -> & Hok & Ho). destruct o as [errno|].
    { apply Hfail; [|tauto..]. eapply same_disk_trans; [exact Hsd|]. apply same_put; [apply Hsd|done|].
      intros x. unfold cow_disk, view. simpl. by rewrite (proj2 (proj2 Ho)). }
    apply wp_bind. eapply (wp_store block blk run _ s1); try done; try apply Hsd; try nia.
    intros s3 Hi3 Hv3. apply wp_ret. pose proof (store_same block blk run s1 s3 Hag Hlen Hi3 Hv3) as Hsd3.
    split; [by eapply same_disk_trans|]. split; [done|]. split; [split; [apply Hf|lia]|]. intros _.
    split; [done|]. by eapply (agrees_same cow_inv cow_disk cow_settled).
  - destruct (Z.eqb_spec e BLOCK_ALLOCATED) as [E1|E1].
    + apply wp_bind. eapply wp_mono.
      { apply wp_overlay_read; [done|nia|].
        pose proof (co_overlay _ (proj1 (proj2 Hi)) (blk + run - 1) ltac:(nia)). nia. }
      intros o s1 [Hsd Ho]. destruct o as [errno|data]; [by apply Hfail; [|tauto..]|].
      apply wp_ret. split; [done|]. split; [done|]. split; [split; [done|lia]|]. intros _.
      split; [rewrite Ho, length_slice; nia|]. apply (agrees_same cow_inv cow_disk cow_settled size s); [done|]. intros x Hx Hxs.
      rewrite Ho, length_slice in Hx. rewrite Ho, nth_slice by lia.
      unfold cow_disk, view. rewrite decide_True by nia.
      rewrite Hst by (apply (div_block bs bs_ok); [done|nia]). rewrite E1. simpl. f_equal. lia.
    + apply wp_ret. split; [by apply unchanged_refl|]. split; [done|]. split; [split; [done|lia]|]. intros _.
      split; [rewrite length_memset; nia|]. intros x Hx Hxs. rewrite length_memset in Hx.
      rewrite nth_memset by lia. unfold cow_disk, view. rewrite decide_True by nia.
      rewrite Hst by (apply (div_block bs bs_ok); [done|nia]).
      by rewrite (proj2 (Z.eqb_neq _ _) E0), (proj2 (Z.eqb_neq _ _) E1).
Qed.

Lemma wp_blk_read_multiple fuel : forall blk n cor err s,
  cow_inv s -> errno_ok err -> 0 <= blk -> 1 <= n <= Z.of_nat fuel -> (blk + n - 1) * bs < size -> n * bs <= UINT32_MAX ->
  n * bs <= l_maximum k ->
  wp (blk_read_multiple get_cow set_cow g fuel nx blk n cor err) (fun '(r, err', data) s' =>
    same s s' /\ fails_errno r err' /\
    (r <> -1 -> Z.of_nat (length data) = n * bs /\ agrees' s' (blk * bs) data)) s.
Proof.
  pose proof bs_ok. induction fuel as [|fuel IH]; intros blk n cor err s Hi He Hb Hn Hs Hu Hmax; [lia|].
  cbn [blk_read_multiple]. apply wp_bind. eapply wp_mono; [apply wp_blk_read_run; (done || lia)|].
  intros [run [[r e] data]] s1 (Hsd & Hrun & Hf & Hdata). destruct (Z.eqb_spec r (-1)) as [-> |Hr].
  { apply wp_ret. split; [done|]. split; done. }
  destruct (Hdata Hr) as [Hlen Hag]. destruct (Z.eqb_spec run n) as [-> |Hne].
  { apply wp_ret. split; [done|]. split; [split; [apply Hf|lia]|]. done. }
  apply wp_bind. eapply wp_mono.
  { apply (IH (blk + run) (n - run) cor e s1); try lia; try nia; [apply Hsd|apply Hf]. }
  intros [[r2 e2] rest] s2 (Hsd2 & Hf2 & Hrest). apply wp_ret. split; [by eapply same_disk_trans|].
  split; [done|]. intros Hr2. destruct (Hrest Hr2) as [Hlen2 Hag2]. rewrite length_app.
  split; [lia|]. apply agrees_app; [by eapply (agrees_same cow_inv cow_disk cow_settled)|].
  replace (blk * bs + Z.of_nat (length data)) with ((blk + run) * bs) by lia. done.
Qed.

Lemma wp_blk_read blk cor err s :
  cow_inv s -> errno_ok err -> 0 <= blk -> blk * bs < size ->
  wp (blk_read get_cow set_cow g nx blk cor err) (fun '(r, err', data) s' =>
    same s s' /\ fails_errno r err' /\
    (r <> -1 -> Z.of_nat (length data) = bs /\ agrees' s' (blk * bs) data)) s.
Proof.
  intros Hi He Hb Hs. pose proof bs_ok. pose proof (cf_max Hfit).
  eapply wp_mono; [apply wp_blk_read_multiple; try done; try (limits; lia)|].
  intros [[r e] data] s' (H1 & H2 & H3). by rewrite Z.mul_1_l in H3.
Qed.

(** Writing a block changes its bytes inside the disk, or fails and changes
    nothing. *)
Lemma wp_blk_write blk data err s :
  cow_inv s -> errno_ok err -> 0 <= blk -> blk * bs < size -> Z.of_nat (length data) = bs ->
  wp (blk_write get_cow set_cow g blk data err) (fun '(r, err') s' =>
    cow_inv s' /\ fails_errno r err' /\
    (r = -1 -> same s s') /\
    (r <> -1 -> forall x, cow_disk s' x = if decide (blk * bs <= x < (blk + 1) * bs /\ x < size)
                  then nth (Z.to_nat (x - blk * bs)) data 0 else cow_disk s x)) s.
Proof.
  intros Hi He Hb Hs Hlen. pose proof bs_ok. destruct (block_inside s blk Hi Hb Hs) as (_ & Hoff & _).
  unfold blk_write. rewrite Hoff. apply wp_bind.
  eapply wp_mono; [apply (wp_overlay_write data _ _ s); [done|lia|done]|].
  intros o s1 (ov & -> & Hok & Ho). destruct o as [errno|].
  - apply wp_ret. assert (Hsd : same s (put_cow (with_overlay ov (cow_of s)) s)).
    { apply same_put; [done|done|]. intros x. unfold cow_disk, view. simpl. by rewrite (proj2 (proj2 Ho)). }
    split; [apply Hsd|]. split; [split; [tauto|]; intros _; tauto|]. done.
  - apply wp_bind. by apply (wp_store data blk 1 1 s _ ov); try lia.
Qed.

Lemma wp_blk_trim blk err s :
  cow_inv s -> errno_ok err -> 0 <= blk -> blk * bs < size ->
  wp (blk_trim get_cow set_cow blk err) (fun '(r, err') s' =>
    cow_inv s' /\ r = 0 /\ err' = err /\
    forall x, cow_disk s' x = if decide (blk * bs <= x < (blk + 1) * bs) then 0 else cow_disk s x) s.
Proof.
  intros Hi He Hb Hs. pose proof bs_ok. pose proof (cf_size Hfit).
  destruct (block_inside s blk Hi Hb Hs) as (Hlt & _ & _). unfold blk_trim.
  apply wp_bind, wp_cow_modify, wp_ret. destruct Hi as (Hi & Hc & Hd).
  destruct (set_blk_wf (c_bm (cow_of s)) blk BLOCK_TRIMMED (co_wf _ Hc)) as (Hwf' & Hl' & Hbs' & Hbp').
  assert (Hc' : cow_ok (with_bm (bitmap_set_blk (c_bm (cow_of s)) blk BLOCK_TRIMMED) (cow_of s))).
  { destruct Hc as [H1 H2 H3 H4 H5 H6 H7 H8 H9]. split; simpl; try done; [congruence..| |].
    - by rewrite Hl'.
    - intros y Hy. rewrite entry_set_blk; [|done|lia|by rewrite H2|done]. case_decide; auto. }
  split; [by apply cow_inv_put|]. split; [done|]. split; [done|]. intros x.
  unfold cow_disk. rewrite cow_of_put. unfold view. cbn [c_bm c_overlay with_bm].
  destruct (decide (0 <= x < size)) as [Hx|Hx]; [|by case_decide].
  rewrite entry_set_blk; [|apply Hc|lia|rewrite (co_bpb _ Hc); done|apply Z.div_pos; lia].
  destruct (decide (blk * bs <= x < (blk + 1) * bs)) as [Hin|Hout].
  - by rewrite decide_True by (pose proof (div_block bs bs_ok blk 1 x Hb Hin); lia).
  - rewrite decide_False; [done|]. intros Hq. apply Hout.
    pose proof (Z.div_mod x bs ltac:(lia)). pose proof (Z.mod_pos_bound x bs ltac:(lia)). nia.
Qed.
(** Caching does not change the contents. *)
Lemma wp_blk_cache blk mode err s :
  cow_inv s -> errno_ok err -> 0 <= blk -> blk * bs < size ->
  wp (blk_cache get_cow set_cow g nx blk mode err) (fun '(r, err') s' => same s s' /\ fails_errno r err') s.
Proof.
  intros Hi He Hb Hs. pose proof bs_ok. pose proof (cf_max Hfit).
  destruct (block_inside s blk Hi Hb Hs) as (Hlt & Hoff & Hget).
  assert (Hok : forall s' e, same s s' -> errno_ok e ->
    wp (mret (0, e) : M W _) (fun '(r, err') s' => same s s' /\ fails_errno r err') s').
  { intros s' e Hsd Hoke. apply wp_ret. split; [done|]. split; [done|lia]. }
  unfold blk_cache. rewrite Hoff. apply wp_bind, wp_cow_gets. rewrite Hget. apply wp_bind, wp_cow_gets.
  rewrite (co_size _ (proj1 (proj2 Hi))).
  destruct (Z.eqb_spec (entry (c_bm (cow_of s)) blk) BLOCK_ALLOCATED) as [E1|E1].
  { apply wp_bind, wp_cow_gets. pose proof (co_fadvise _ (proj1 (proj2 Hi))) as Hfad.
    destruct (c_fadvise (cow_of s)) as [|r l] eqn:El; [apply Hok; [by apply unchanged_refl|done]|].
    apply Forall_cons in Hfad as [-> Hfad]. apply wp_bind, wp_cow_modify. apply Hok; [|done].
    apply same_put; [done| |done]. destruct Hi as (_ & [] & _). by split. }
  destruct (Z.eqb_spec (entry (c_bm (cow_of s)) blk) BLOCK_TRIMMED) as [E3|E3];
    [apply Hok; [by apply unchanged_refl|done]|].
  assert (E0 : forall y, blk <= y < blk + 1 -> entry (c_bm (cow_of s)) y = BLOCK_NOT_ALLOCATED).
  { intros y Hy. replace y with blk by lia. destruct (co_states _ (proj1 (proj2 Hi)) blk Hb) as [?|[?|?]]; done. }
  pose proof (wp_read_below blk 1 err s Hi He Hb ltac:(lia) ltac:(lia) ltac:(limits; lia) ltac:(lia) E0) as Hrd.
  rewrite Z.mul_1_l in Hrd.
  assert (Hread : forall Q : Z * Z * list Z -> st W -> Prop,
    (forall r e block s', same s s' -> cow_of s' = cow_of s -> fails_errno r e ->
       (r <> -1 -> Z.of_nat (length block) = bs /\ agrees' s' (blk * bs) block) -> Q (r, e, block) s') ->
    wp ('(r, err, data) ← n_pread nx (u32 (bs - beyond_end size (blk * bs) bs)) (blk * bs) 0 err;
        mret (r, err, data ++ memset 0 (beyond_end size (blk * bs) bs))) Q s).
  { intros Q HQ. apply wp_bind. eapply wp_mono; [exact Hrd|]. intros [[r e] data] s' (H1 & H2 & H3 & H4).
    apply wp_ret. by apply HQ. }
  destruct mode.
  - apply Hok; [by apply unchanged_refl|done].
  - destruct (beyond_end_spec k (cf_size Hfit) (blk * bs) bs) as [_ ->]; [nia|limits; lia|].
    pose proof (next_range bs k bs_ok blk 1 (cf_blksize_min Hfit) (cf_size_min Hfit) Hb ltac:(lia) Hs ltac:(limits; lia)) as Hr. rewrite Z.mul_1_l in Hr.
    eapply wp_mono.
    { apply (dl_cache (ReadLayer:=cs_next Hsep (cow_of s))); [split; [apply Hi|done]|done|done|lia]. }
    intros [r e] s' [Hsd Hf]. split; [|done]. by apply same_next.
  - apply wp_bind, Hread. intros r e block s' Hsd _ [Hoke Hne] _. apply wp_ret. split; [done|].
    split; [done|]. destruct (Z.eqb_spec r (-1)); [auto|lia].
  - apply wp_bind, Hread. intros r e block s' Hsd Hcow [Hoke Hne] Hblock.
    destruct (Z.eqb_spec r (-1)) as [-> |Hr]; [apply wp_ret; split; [done|]; by split|].
    destruct (Hblock Hr) as [Hlen Hag]. apply wp_bind.
    eapply wp_mono; [apply (wp_overlay_write block _ _ s'); [apply Hsd|lia|done]|].
    intros o s2 (ov & -> & Hcok & Ho). destruct o as [errno|].
    + apply wp_ret. split; [|split; [tauto|]; intros _; tauto]. eapply same_disk_trans; [exact Hsd|].
      apply same_put; [apply Hsd|done|]. intros x. unfold cow_disk, view. simpl. by rewrite (proj2 (proj2 Ho)).
    + apply wp_bind. apply (wp_store block blk 1 1 s' _ ov); try done; try apply Hsd; try lia.
      intros s3 Hi3 Hv3. apply wp_ret. split; [|split; [done|lia]].
      eapply same_disk_trans; [exact Hsd|]. apply (store_same block blk 1); (done || lia).
Qed.

(** ** Requests *)

Lemma cow_allocates : allocates cow_inv cow_disk cow_settled (cow_malloc get_cow set_cow).
Proof. intros s Hi. by apply wp_cow_malloc. Qed.

Lemma cow_reads : reads cow_inv cow_disk cow_settled bs size (cow_read get_cow set_cow g nx).
Proof.
  intros blk err s Hi He Hb Hs. unfold cow_read. apply wp_bind. eapply wp_mono; [by apply wp_cow_on_read|].
  intros cor s1 Hsd1. eapply wp_mono; [apply wp_blk_read; [apply Hsd1|done..]|].
  intros [[r e] data] s2 (Hsd2 & Hf & Hdata). rewrite Z.mul_1_l. split; [eapply same_disk_trans; [exact Hsd1|exact Hsd2]|done].
Qed.

Lemma cow_reads_multiple :
  reads_multiple cow_inv cow_disk cow_settled bs size (l_maximum k) (cow_read_multiple get_cow set_cow g nx).
Proof.
  intros blk n err s Hi He Hb Hn Hs Hu Hmax. unfold cow_read_multiple. apply wp_bind. eapply wp_mono; [by apply wp_cow_on_read|].
  intros cor s1 Hsd1. eapply wp_mono; [apply wp_blk_read_multiple; [apply Hsd1|done|done|lia|done..]|].
  intros [[r e] data] s2 (Hsd2 & Hf & Hdata). split; [eapply same_disk_trans; [exact Hsd1|exact Hsd2]|done].
Qed.

(** Whether a write is to be stable makes no difference. *)
Lemma cow_writes fua : writes cow_inv cow_disk cow_settled bs size fua (blk_write get_cow set_cow g).
Proof.
  intros blk data err s Hi He Hb Hs Hlen. pose proof bs_ok. eapply wp_mono; [by apply wp_blk_write|].
  intros [r e] s' (Hi' & Hf & Hfail & Hw). destruct (decide (r = -1)) as [-> |Hr].
  { apply wrote_unchanged; [by apply Hfail|done]. }
  specialize (Hw Hr). split; [|split; [done|]].
  - split; [done|]. intros x Hx. split; [|done]. rewrite Hw. case_decide as Hc; [|done]. apply Hx. unfold in_request. lia.
  - unfold in_request. intros _ x Hx. split; [|done]. by rewrite Hw, decide_True by lia.
Qed.

Lemma cow_pread_correct count offs flags err s :
  cow_inv s -> errno_ok err -> 0 <= offs -> 0 < count <= UINT32_MAX -> offs + count <= size -> count <= l_maximum k ->
  wp (cow_pread get_cow set_cow g nx count offs flags err) (fun '(r, err', buf) s' =>
    same s s' /\ fails_errno r err' /\ (r <> -1 -> buf = slice (cow_disk s) offs count)) s.
Proof.
  intros Hi He Ho Hc Hle Hmax. unfold cow_pread.
  apply (wp_with_block cow_inv cow_disk cow_settled bs size (cf_blksize Hfit) (cf_size Hfit) _ cow_allocates); [done|..].
  { intros s' Hsd. split; [done|]. split; [by apply fails_errno_const|done]. }
  intros block s0 Hsd0 Hblock. eapply wp_mono.
  { apply (pread_request_correct _ _ _ bs size _ (cf_blksize Hfit) (cf_size Hfit) _ cow_reads _ cow_reads_multiple); try done. apply Hsd0. }
  intros [[r e] buf] s' (Hsd & Hf & Hbuf). split; [eapply same_disk_trans; [exact Hsd0|exact Hsd]|]. split; [done|].
  intros Hr. rewrite Hbuf by done. by apply (same_disk_slice cow_inv cow_disk cow_settled).
Qed.

Lemma cow_pwrite_correct buf count offs flags fua err s :
  cow_inv s -> errno_ok err -> 0 <= offs -> 0 < count <= UINT32_MAX -> offs + count <= size ->
  length buf = Z.to_nat count ->
  wp (cow_pwrite get_cow set_cow g nx buf count offs flags err) (fun '(r, err') s' =>
    wrote' (overwrite (cow_disk s) buf offs) count offs fua r err' s s') s.
Proof.
  intros Hi He Ho Hc Hle Hlen. unfold cow_pwrite.
  apply (wp_with_block cow_inv cow_disk cow_settled bs size (cf_blksize Hfit) (cf_size Hfit) _ cow_allocates); [done|..].
  { intros s' Hsd. apply wrote_unchanged; [done|by apply fails_errno_const]. }
  intros block s0 Hsd0 Hblock. eapply wp_mono.
  { apply (pwrite_request_correct _ _ _ bs size (cf_blksize Hfit) _ cow_reads _ fua (cow_writes fua)); try done. apply Hsd0. }
  intros [r e] s' Hw. eapply wrote_same_l; [exact Hsd0|]. eapply wrote_ext; [|exact Hw].
  intros x _. apply overwrite_ext. by apply Hsd0.
Qed.

Lemma cow_zero_correct count offs flags fua err s :
  cow_inv s -> errno_ok err -> 0 <= offs -> 0 < count <= UINT32_MAX -> offs + count <= size ->
  wp (cow_zero get_cow set_cow g nx count offs flags err) (fun '(r, err') s' =>
    wrote' (fun _ => 0) count offs fua r (zero_err flags r err') s s') s.
Proof.
  intros Hi He Ho Hc Hle. unfold cow_zero. destruct (has flags NBDKIT_FLAG_FAST_ZERO) eqn:Hfast.
  { apply wp_ret. rewrite zero_err_fast by done. apply wrote_unchanged; [by apply unchanged_refl|by apply fails_errno_const]. }
  apply wp_bind. eapply wp_mono; [by apply wp_cow_malloc|]. intros [] s0 Hsd0; cbn [negb].
  2: { apply wp_ret, wrote_zero_err, wrote_unchanged; [done|by apply fails_errno_const]. }
  eapply wp_mono.
  { apply (zero_request_correct _ _ _ bs size (cf_blksize Hfit) _ cow_reads _ fua (cow_writes fua)); try done; [apply Hsd0|by left|].
    by apply zero_blocks, cow_writes; apply Hfit. }
  intros [r e] s' Hw. apply wrote_zero_err. by eapply wrote_same_l.
Qed.

Lemma cow_trim_correct count offs flags fua err s :
  cow_inv s -> errno_ok err -> 0 <= offs -> 0 < count <= UINT32_MAX -> offs + count <= size ->
  wp (cow_trim get_cow set_cow g nx count offs flags err) (fun '(r, err') s' =>
    wrote' (fun _ => 0) count offs fua r err' s s') s.
Proof.
  intros Hi He Ho Hc Hle. unfold cow_trim. pose proof bs_ok.
  apply (wp_with_block cow_inv cow_disk cow_settled bs size (cf_blksize Hfit) (cf_size Hfit) _ cow_allocates); [done|..].
  { intros s' Hsd. apply wrote_unchanged; [done|by apply fails_errno_const]. }
  intros block s0 Hsd0 Hblock. eapply wp_mono.
  { apply (zero_request_correct _ _ _ bs size (cf_blksize Hfit) _ cow_reads _ fua (cow_writes fua)); try done; [apply Hsd0|by right|].
    intros blk e s1 Hi1 He1 Hb1 Hs1. eapply wp_mono; [apply wp_blk_trim; (done || lia)|].
    intros [r e2] s2 (Hi2 & -> & -> & Hw2). split; [split; [done|]|].
    - intros x Hx. split; [|done]. rewrite Hw2. case_decide; [|done]. apply Hx. unfold in_request. lia.
    - split; [split; [done|lia]|]. intros _ x Hx. split; [|done]. rewrite Hw2.
      unfold in_request in Hx. by rewrite decide_True by lia. }
  intros [r e] s' Hw. by eapply wrote_same_l.
Qed.

Lemma wp_cache_blocks mode fuel : forall remaining blk err s,
  cow_inv s -> errno_ok err -> 0 <= blk -> 0 <= remaining <= Z.of_nat fuel -> (bs | remaining) ->
  blk * bs + remaining < size + bs ->
  wp (cache_blocks get_cow set_cow g fuel nx mode remaining blk err) (fun '(r, err') s' =>
    same s s' /\ fails_errno r err') s.
Proof.
  pose proof bs_ok. pose proof (cf_size Hfit).
  induction fuel as [|fuel IH]; intros remaining blk err s Hi He Hb Hr Hd Hle; cbn [cache_blocks];
    (destruct (Z.eqb_spec remaining 0) as [E|E];
      [apply wp_ret; split; [by apply unchanged_refl|]; split; [done|lia]|]).
  { lia. }
  assert (bs <= remaining) by (apply Z.divide_pos_le; [lia|done]).
  apply wp_bind. eapply wp_mono; [apply wp_blk_cache; (done || lia)|]. intros [r1 e1] s1 [Hsd1 Hf1].
  destruct (Z.eqb_spec r1 (-1)) as [-> |Hr1]; [by apply wp_ret|].
  rewrite u64_small by (limits; nia). eapply wp_mono.
  { apply (IH (remaining - bs) (blk + 1) e1 s1); try lia; [apply Hsd1|apply Hf1|].
    apply Z.divide_sub_r; [done|apply Z.divide_refl]. }
  intros [r2 e2] s2 [Hsd2 Hf2]. split; [|done]. eapply same_disk_trans; [exact Hsd1|exact Hsd2].
Qed.

Lemma cow_cache_correct count offs err s :
  cow_inv s -> errno_ok err -> 0 <= offs -> 0 < count <= UINT32_MAX -> offs + count <= size ->
  wp (cow_cache get_cow set_cow g nx count offs 0 err) (fun '(r, err') s' => same s s' /\ fails_errno r err') s.
Proof.
  intros Hi He Ho Hc Hle. pose proof bs_ok. pose proof (cf_size Hfit). unfold cow_cache. apply wp_bind.
  eapply wp_mono; [apply (dl_can_cache (ReadLayer:=cs_next Hsep (cow_of s))); split; [apply Hi|done]|].
  intros r s0 [Hr Hsd0]. destruct (same_next s s0 Hi Hsd0) as [Hs0 _].
  apply wp_bind. eapply (wp_mono _ (fun _ s' => s' = s0)).
  { destruct Hr as [-> |[-> | ->]]; by apply wp_ret. }
  intros mode s0' ->. apply wp_bind, wp_assert. split; [done|]. apply wp_bind.
  eapply wp_mono; [apply wp_cow_malloc, Hs0|]. intros ok s1 Hsd1.
  assert (Hs1 : same s s1) by (eapply same_disk_trans; [exact Hs0|exact Hsd1]).
  destruct ok; cbn [negb]; [|apply wp_ret; split; [done|by apply fails_errno_const]].
  pose proof (Z.div_mod offs bs ltac:(lia)). pose proof (Z.mod_pos_bound offs bs ltac:(lia)).
  pose proof (Z.div_pos offs bs Ho ltac:(lia)). apply wp_bind.
  apply (wp_round_up bs (cf_blksize Hfit)); [limits; lia|]. set (up := count + offs mod bs + bs - 1).
  pose proof (Z.mod_pos_bound up bs ltac:(lia)). assert (Hup : up = count + offs mod bs + bs - 1) by done.
  pose proof (Z.mod_le up bs ltac:(lia) ltac:(lia)).
  eapply wp_mono; [apply wp_cache_blocks; [apply Hs1|done|lia|lia|apply divide_sub_mod; lia|lia]|].
  - intros [r2 e2] s2 [Hsd2 Hf2]. split; [|done]. eapply same_disk_trans; [exact Hs1|exact Hsd2].
Qed.

(** Asking for the size again resizes to the same size. *)
Lemma wp_blk_set_size s : cow_inv s ->
  wp (blk_set_size get_cow set_cow g size) (fun r s' => same s s' /\ (r = 0 \/ r = -1)) s.
Proof.
  intros Hi. pose proof bs_ok. pose proof (cf_size Hfit) as Hsz. unfold blk_set_size.
  assert (Hs1 : same s (put_cow (with_size size (cow_of s)) s)).
  { apply same_put; [done| |done]. destruct Hi as (_ & [] & _). by split. }
  apply wp_bind, wp_cow_modify, wp_bind. eapply wp_mono; [apply wp_cow_malloc, Hs1|]. intros mem s2 Hsd2.
  apply wp_bind, wp_cow_gets. pose proof (proj1 Hsd2) as (Hi2 & Hc2 & Hd2).
  pose proof (bitmap_resize_correct mem (c_bm (cow_of s2)) size (co_wf _ Hc2) Hsz) as Hres.
  destruct (bitmap_resize mem (c_bm (cow_of s2)) size) as [r bm]. destruct Hres as (Hwf & _ & Hfail & Hok).
  apply wp_bind, wp_cow_modify. set (s3 := put_cow _ s2).
  assert (Hview : r <> -1 -> forall x, 0 <= x < size -> entry bm (x / bs) = entry (c_bm (cow_of s2)) (x / bs)).
  { intros Hr x Hx. destruct (Hok Hr) as (_ & Hl & _ & _ & He). rewrite He by (apply Z.div_pos; lia).
    rewrite (co_blksize _ Hc2) in Hl. pose proof (co_limit _ Hc2).
    rewrite decide_True; [done|]. split; apply Z.div_lt_upper_bound; lia. }
  assert (Hs3 : same s2 s3).
  { destruct (decide (r = -1)) as [Er|Er].
    - subst s3. rewrite (Hfail Er). apply same_put; [apply Hsd2| |done]. destruct Hc2. by split.
    - destruct (Hok Er) as (-> & Hl & Hbs & Hbp & He). apply same_put; [apply Hsd2| |].
      + destruct Hc2 as [H1 H2 H3 H4 H5 H6 H7 H8 H9]. split; simpl; try done; [congruence|congruence| |].
        * rewrite H3 in Hl. lia.
        * intros blk Hblk. rewrite He by done. case_decide; auto.
      + intros x. unfold cow_disk, view. cbn [c_bm c_overlay with_bm]. case_decide as Hx; [|done].
        by rewrite Hview. }
  assert (Hs : same s s3).
  { eapply same_disk_trans; [exact Hs1|]. eapply same_disk_trans; [exact Hsd2|exact Hs3]. }
  destruct (Z.eqb_spec r (-1)); [apply wp_ret; auto|]. apply wp_bind.
  apply (wp_round_up bs (cf_blksize Hfit)); [limits; lia|]. set (z := size + bs - 1 - (size + bs - 1) mod bs).
  pose proof (file_covers bs k bs_ok) as [Hz Hcov]. fold z in Hz, Hcov. apply wp_bind, wp_cow_modify, wp_ret. split; [|by left]. eapply same_disk_trans; [exact Hs|].
  apply same_put; [apply Hs| |].
  - destruct Hs as [(_ & [H1 H2 H3 H4 H5 H6 H7 H8 H9] & _) _]. split; try done.
  - intros x. unfold cow_disk, view. simpl. case_decide; [|done]. by rewrite (proj2 (Z.ltb_lt x z)) by lia.
Qed.

Lemma cow_get_size_correct s : cow_inv s ->
  wp (cow_get_size get_cow set_cow g nx) (fun r s' => (r = size \/ r = -1) /\ same s s') s.
Proof.
  intros Hi. unfold cow_get_size. apply wp_bind.
  eapply wp_mono; [apply (dl_get_size (ReadLayer:=cs_next Hsep (cow_of s))); split; [apply Hi|done]|].
  intros r s1 [Hr Hsd1]. destruct (same_next s s1 Hi Hsd1) as [Hs1 _].
  destruct (Z.eqb_spec r (-1)) as [-> |Hne]; [apply wp_ret; auto|]. destruct Hr as [-> |]; [|done].
  apply wp_bind. eapply wp_mono; [apply wp_blk_set_size, Hs1|]. intros r s2 [Hsd2 Hr]. apply wp_ret.
  split; [destruct Hr as [-> | ->]; auto|]. eapply same_disk_trans; [exact Hs1|exact Hsd2].
Qed.

Definition cow_limits : layer_limits :=
  LayerLimits size (l_minimum k) (l_maximum k) NBDKIT_FUA_NATIVE true.

Lemma cow_layer :
  DiskLayer cow_inv cow_disk cow_settled (cow_next get_cow set_cow g b nx) cow_limits.
Proof.
  split; [split|..]; simpl.
  - intros count offs err s Hi He (Ho & Hc & Hle & _) Hmax. by apply cow_pread_correct.
  - intros count offs err s Hi He (Ho & Hc & Hle & _) _. by apply cow_cache_correct.
  - intros s Hi. apply wp_bind. eapply wp_mono.
    { apply (dl_can_cache (ReadLayer:=cs_next Hsep (cow_of s))). split; [apply Hi|done]. }
    intros r s' [Hr Hsd]. apply wp_ret. split; [|by apply same_next].
    destruct Hr as [-> |[-> | ->]]; auto.
  - intros s Hi. by apply cow_get_size_correct.
  - intros buf count offs flags err s Hi He (Ho & Hc & Hle & _) _ _ Hlen. by apply cow_pwrite_correct.
  - intros count offs flags err s Hi He (Ho & Hc & Hle & _) _. by apply cow_zero_correct.
  - intros count offs flags err s Hi He (Ho & Hc & Hle & _) _. eapply wp_mono.
    { by apply (cow_trim_correct count offs flags (has flags NBDKIT_FLAG_FUA)). }
    intros [r e] s' ([Hi' Hu] & Hf & Hw). split; [|split; [done|by intros]]. split; [done|].
    intros x Hx. apply Hu. intros Hin. by destruct Hx.
  - intros err s Hi He. apply wp_ret. split; [by apply unchanged_refl|]. split; [split; [done|lia]|]. done.
  - intros s Hi. apply wp_ret. split; [done|by apply unchanged_refl].
  - intros s Hi. apply wp_ret. split; [done|by apply unchanged_refl].
Qed.

(** C17: The cow filter makes a writable disk out of a layer that it only
    reads: on top of any layer with a block size that suits, reads return
    what was last written and the bytes [D] of the layer below elsewhere;
    writes, zeroes and trims change exactly the requested bytes, also when
    the disk does not end at a block, when they fail half-way, or when reads
    and cache requests copy blocks to the overlay; and throughout, whatever
    succeeds or fails, the layer below still contains [D].  Reads and writes
    of the overlay are whole or fail, but are never short ([co_io]; see
    [full_pwrite_short_wrong]), and [posix_fadvise] does not fail
    ([co_fadvise]; see [blk_cache_error_lost]). *)
Theorem cow_presents_disk :
  DiskLayer cow_inv cow_disk cow_settled (cow_next get_cow set_cow g b nx) cow_limits.
Proof. apply cow_layer. Qed.
(** ** The first connection *)

(** The state that [blk_init] makes: nothing is in the overlay. *)
Lemma blk_init_state io mem access fadvise :
  exists bm, blk_init g io mem access fadvise = Ok (CowState bm 0 (OsFile (fun _ => 0) 0 io) mem access fadvise) /\
    bitmap_wf bm /\ b_limit bm = 0 /\ b_blksize bm = bs /\ b_bpb bm = 2.
Proof.
  destruct (cf_blksize Hfit) as (n & Hn & E). destruct (bitmap_init_wf n 2) as (bm & Hb & Hwf & Hl & Hbs & Hbp);
    [lia|set_solver|]. exists bm. unfold blk_init. rewrite E, Hb. done.
Qed.

(** [cow_prepare] on the fresh state: if memory suffices, the filter is
    ready and shows the layer below. *)
Lemma cow_prepare_fresh io mem access fadvise s bm :
  Forall io_good io -> Forall (fun r => r = 0) fadvise -> inv s -> (forall x, disk s x = D x) ->
  bitmap_wf bm -> b_limit bm = 0 -> b_blksize bm = bs -> b_bpb bm = 2 ->
  cow_of s = CowState bm 0 (OsFile (fun _ => 0) 0 io) mem access fadvise ->
  wp (cow_prepare get_cow set_cow g nx) (fun r s' =>
    (r = 0 -> cow_inv s' /\ forall x, 0 <= x < size -> cow_disk s' x = D x)) s.
Proof.
  intros Hio Hfad Hi Hd Hwf Hl Hbs Hbp Hcow. pose proof bs_ok. pose proof (cf_size Hfit) as Hsz.
  unfold cow_prepare, cow_get_size. do 2 apply wp_bind.
  eapply wp_mono; [apply (dl_get_size (ReadLayer:=cs_next Hsep (cow_of s))); split; [apply Hi|done]|].
  intros r s1 [Hr [[Hi1 E1] Hu1]]. assert (Hd1 : forall x, disk s1 x = D x).
  { intros x. destruct (Hu1 x I) as [-> _]. apply Hd. }
  destruct (Z.eqb_spec r (-1)) as [-> |Hne]; [by do 2 apply wp_ret|]. destruct Hr as [-> |]; [|done].
  apply wp_bind. unfold blk_set_size. apply wp_bind, wp_cow_modify, wp_bind.
  set (c1 := CowState bm size (OsFile (fun _ => 0) 0 io) mem access fadvise).
  assert (Hc1 : with_size size (cow_of s1) = c1) by (by rewrite E1, Hcow). rewrite Hc1.
  (* the allocation *)
  eapply (wp_mono _ (fun ok s2 => inv s2 /\ (forall x, disk s2 x = D x) /\ exists mem', cow_of s2 = with_mem mem' c1)).
  { unfold cow_malloc. apply wp_bind, wp_cow_gets. rewrite cow_of_put. cbn [c_mem c1].
    destruct mem as [|ok mem'].
    - apply wp_ret. split; [by apply Hsep|]. split; [intros x; rewrite (cs_disk Hsep); auto|]. exists []. by rewrite cow_of_put.
    - apply wp_bind, wp_cow_modify, wp_ret. split; [by do 2 apply Hsep|].
      split; [intros x; rewrite !(cs_disk Hsep); auto|]. exists mem'. by rewrite !cow_of_put. }
  intros ok s2 (Hi2 & Hd2 & mem' & Ec2). apply wp_bind, wp_cow_gets. rewrite Ec2. cbn [c_bm with_mem c1].
  pose proof (bitmap_resize_correct ok bm size Hwf Hsz) as Hres.
  destruct (bitmap_resize ok bm size) as [r bm']. destruct Hres as (Hwf' & _ & _ & Hok).
  apply wp_bind, wp_cow_modify. destruct (Z.eqb_spec r (-1)) as [-> |Hrn]; [by do 2 apply wp_ret|].
  destruct (Hok Hrn) as (_ & Hl' & Hbs' & Hbp' & He). apply wp_bind, (wp_round_up bs (cf_blksize Hfit)); [limits; lia|].
  apply wp_bind, wp_cow_modify, wp_ret. set (z := size + bs - 1 - _). pose proof (file_covers bs k bs_ok) as [Hz Hcov]. fold z in Hz, Hcov.
  set (s3 := put_cow _ s2). set (s4 := put_cow _ s3).
  assert (Hz0 : forall blk, 0 <= blk -> entry bm' blk = BLOCK_NOT_ALLOCATED).
  { intros blk Hblk. rewrite He by done. by rewrite decide_False by lia. }
  assert (Ec : cow_of s4 = CowState bm' size (OsFile (fun x => if x <? z then 0 else 0) z io) mem' access fadvise).
  { subst s4 s3. rewrite !cow_of_put, Ec2. done. }
  assert (Hinv4 : cow_inv s4).
  { split; [subst s4 s3; by do 2 apply Hsep|]. split; [|intros x; subst s4 s3; rewrite !(cs_disk Hsep); auto].
    rewrite Ec. split; simpl; try done; [congruence|congruence| |].
    - rewrite Hbs in Hl'. lia.
    - intros blk Hblk. left. auto. }
  destruct (Z.eqb_spec size (-1)); [lia|]. destruct (Z.eqb_spec r (-1)); [done|]. apply wp_ret. intros _.
  split; [done|]. intros x Hx. unfold cow_disk. rewrite Ec. unfold view. cbn [c_bm]. rewrite decide_True by done.
  by rewrite Hz0 by (apply Z.div_pos; lia).
Qed.

(** A failing [posix_fadvise] is reported without an error number: [*err] is
    what it was, which is 0 where the server calls the filter, and the server
    asserts that a failing request has set it. *)
Lemma blk_cache_error_lost blk mode err r l s :
  cow_inv s -> 0 <= blk -> blk * bs < size -> entry (c_bm (cow_of s)) blk = BLOCK_ALLOCATED ->
  exists s', blk_cache get_cow set_cow g nx blk mode err (put_cow (with_fadvise (r :: l) (cow_of s)) s) =
    Ok (if r =? 0 then 0 else -1, err, s').
Proof.
  intros Hi Hb Hs He. destruct (block_inside s blk Hi Hb Hs) as (_ & _ & Hget).
  unfold blk_cache, cow_gets, cow_modify. unfold_m. fold cow_of.
  assert (Hbm : forall s0, c_bm (get_cow (s_world (put_cow (with_fadvise (r :: l) (cow_of s)) s0))) = c_bm (cow_of s) /\
    c_fadvise (get_cow (s_world (put_cow (with_fadvise (r :: l) (cow_of s)) s0))) = r :: l).
  { intros s0. change (get_cow (s_world (put_cow ?c ?s))) with (cow_of (put_cow c s)). by rewrite cow_of_put. }
  destruct (Hbm s) as [E1 E2]. rewrite E1, Hget, He. change (BLOCK_ALLOCATED =? BLOCK_ALLOCATED) with true.
  cbv iota beta. rewrite E2. by eexists.
Qed.
End Correct.

(** ** A concrete stack *)

Definition cow_world : Type := cow_state * (Z -> Z).
Definition below (size : Z) : nbdkit_next cow_world := flat_next_in snd (fun d w => (w.1, d)) size.
Definition below_backend (size : Z) : backend cow_world :=
  Backend 0 (fun _ _ exps => mret (0, nbdkit_use_default_export exps)) (fun _ _ => mret (Some []))
    (fun _ _ _ => mret 1) (fun _ => mret 0) (mret 0) (mret tt)
    (mret None) (mret size) (mret (0, (0, 0, 0)))
    (mret 0) (mret 0) (mret 0) (mret 0) (mret NBDKIT_ZERO_NONE) (mret 0)
    (mret 0) (mret NBDKIT_FUA_NONE) (mret 1) (mret NBDKIT_CACHE_NONE)
    (fun count offset _ err => d ← gets (fun s => snd (s_world s)); mret (0, err, slice d offset count))
    (fun _ _ _ _ err => mret (-1, EROFS)) (fun _ err => mret (0, err)) (fun _ _ _ err => mret (-1, EROFS))
    (fun _ _ _ err => mret (-1, EROFS)) (fun _ _ _ exts err => mret (-1, ENOTSUP, exts))
    (fun _ _ _ err => mret (0, err)).
Definition cow_4k : cow_settings := CowSettings 4096 true COR_OFF.
Definition below_limits (size : Z) : layer_limits := LayerLimits size 512 1048576 NBDKIT_FUA_NATIVE true.

Lemma below_separate size :
  cow_separate fst (fun c w => (c, w.2)) (fun _ => True) (fun s => snd (s_world s)) (fun _ _ => True) (below size)
    (below_limits size).
Proof.
  split; try done. intros c.
  apply (flat_layer_in snd (fun d (w : cow_world) => (w.1, d)) (fun s => True /\ cow_of fst s = c)); [done|].
  intros d s [_ Hs]. by split.
Qed.

Lemma cow_4k_fits : cow_fits cow_4k (below_limits 10240).
Proof. split; simpl; [by exists 12|limits; lia|by exists 8|by exists 20|lia]. Qed.

Lemma cow_presents_disk_witness :
  DiskLayer (cow_inv fst cow_4k (fun _ => True) (fun s => snd (s_world s)) (below_limits 10240) (fun x => x mod 256))
    (cow_disk fst cow_4k (below_limits 10240) (fun x => x mod 256)) cow_settled
    (cow_next fst (fun c w => (c, w.2)) cow_4k (below_backend 10240) (below 10240))
    (LayerLimits 10240 512 1048576 NBDKIT_FUA_NATIVE true).
Proof.
  exact (cow_presents_disk fst (fun c w => (c, w.2)) cow_4k (fun _ => True) (fun s => snd (s_world s)) (fun _ _ => True)
    (below 10240) (below_limits 10240) (below_backend 10240) (below_separate 10240) cow_4k_fits (fun x => x mod 256)).
Defined.

(** Prepare, write across a block border, trim, read: the layer below keeps
    its sevens.  The blocks have 16 bytes here. *)
Example cow_example :
  let g := CowSettings 16 true COR_OFF in
  match blk_init g [] [] [] [] with
  | Crash _ => False
  | Ok c =>
      let nx := cow_next fst (fun c w => (c, w.2)) g (below_backend 40) (below 40) in
      match (n_prepare nx;; n_pwrite nx [1; 2; 3] 3 15 0 0;; n_trim nx 7 33 0 0;;
             '(r, err, data) ← n_pread nx 8 12 0 0; '(r', err', data') ← n_pread nx 4 31 0 0;
             mret (r, data, r', data')) (witness_state (c, fun _ => 7)) with
      | Ok (res, s) => res = (0, [7; 7; 7; 1; 2; 3; 7; 7], 0, [7; 7; 0; 0]) /\ snd (s_world s) 15 = 7
      | Crash _ => False
      end
  end.
Proof. vm_compute. done. Qed.
