(* ===== verification/Stack.v ===== *)
(** * A stack of filters

    The promises of the filters' layers compose: [DiskLayer] of a layer is
    what the filter above it needs. *)

From S2P Require Import Prelude NbdProtocol Extents Exports Server Connections Backend Plugin Filter Bytes Parse Layer ExtentsQuery Blocksize Offset Truncate Bitmap Cow CowDisk.

Section Stack.
Context {W : Type} (get_cow : W -> cow_state) (set_cow : cow_state -> W -> W).
Context (inv : st W -> Prop) (disk : st W -> Z -> Z) (settled : st W -> Z -> Prop).
Context (nx : nbdkit_next W) (k : layer_limits) (b : backend W).
Context (Hsep : cow_separate get_cow set_cow inv disk settled nx k).

(** The filters below a cow filter leave its state alone. *)
Lemma offset_separate gw : window_ok gw k ->
  cow_separate get_cow set_cow inv (fun s => windowed (disk s) (o_offset gw))
    (fun s => windowed (settled s) (o_offset gw)) (offset_next nx gw) (window_limits gw k).
Proof.
  intros Hw. destruct Hsep as [H1 H2 H3 H4]. split; [done|done| |].
  - intros c s x. unfold windowed. apply H3.
  - intros c. by apply offset_read_layer.
Qed.

Lemma truncate_separate gt h : truncate_ok h k ->
  cow_separate get_cow set_cow inv (fun s => resized (h_real_size h) (disk s))
    (fun s => resized_settled (h_real_size h) (settled s)) (truncate_next nx gt h) (truncate_limits h k).
Proof.
  intros Ht. destruct Hsep as [H1 H2 H3 H4]. split; [done|done| |].
  - intros c s x. unfold resized. case_decide; [apply H3|done].
  - intros c. by apply truncate_read_layer.
Qed.
End Stack.

(** The settings of [--filter=blocksize --filter=cow --filter=truncate
    --filter=offset], from the layer below upwards. *)
Record stack_settings : Type := StackSettings {
  ss_offset : offset_config_state;
  ss_truncate : truncate_settings;
  ss_truncate_handle : truncate_handle;
  ss_cow : cow_settings;
  ss_blocksize : blocksize_handle;
}.

Definition below_cow (t : stack_settings) (k : layer_limits) : layer_limits :=
  truncate_limits (ss_truncate_handle t) (window_limits (ss_offset t) k).

(** Each filter's settings suit the layer below it. *)
Record stack_ok (t : stack_settings) (k : layer_limits) : Prop := StackOk {
  sk_offset : window_ok (ss_offset t) k;
  sk_truncate : truncate_ok (ss_truncate_handle t) (window_limits (ss_offset t) k);
  sk_cow : cow_fits (ss_cow t) (below_cow t k);
  sk_blocksize : handle_ok (ss_blocksize t) (cow_limits (below_cow t k));
}.

Section Composition.
Context {W : Type} (get_cow : W -> cow_state) (set_cow : cow_state -> W -> W).
Context (inv : st W -> Prop) (disk : st W -> Z -> Z) (settled : st W -> Z -> Prop).
Context (nx : nbdkit_next W) (k : layer_limits) (b b' : backend W) (t : stack_settings).

(** The contents below the cow filter: the window, resized. *)
Definition stack_below (s : st W) : Z -> Z :=
  resized (h_real_size (ss_truncate_handle t)) (windowed (disk s) (o_offset (ss_offset t))).

Definition stack_next : nbdkit_next W :=
  blocksize_next b'
    (cow_next get_cow set_cow (ss_cow t) b
       (truncate_next (offset_next nx (ss_offset t)) (ss_truncate t) (ss_truncate_handle t)))
    (ss_blocksize t).

(** The filters compose.  With [--filter=blocksize --filter=cow
    --filter=truncate --filter=offset] on top of a disk, a client may make
    requests of any alignment; it reads the window of the disk that the
    offset filter cuts out, resized by the truncate filter, with its own
    writes on top, and every byte of the window stays on the disk below as it
    was, whatever requests are made and however they fail. *)
Lemma stack_presents_disk D :
  cow_separate get_cow set_cow inv disk settled nx k -> stack_ok t k ->
  DiskLayer (cow_inv get_cow (ss_cow t) inv stack_below (below_cow t k) D)
    (cow_disk get_cow (ss_cow t) (below_cow t k) D) cow_settled
    stack_next (blocksize_limits (ss_blocksize t) (cow_limits (below_cow t k))).
Proof.
  intros Hsep [Ho Ht Hc Hb]. apply blocksize_layer; [|done]. 
  eapply cow_layer; [|done]. apply truncate_separate; [|done]. by apply offset_separate.
Qed.
End Composition.

(** A window of 9216 bytes, enlarged to 10240, with blocks of 4096 bytes in
    the overlay and unaligned requests. *)
Definition example_stack : stack_settings :=
  StackSettings (OffsetConfig 512 9216) (TruncateSettings 10240 0 0) (TruncateHandle 9216 10240) cow_4k
    (BlocksizeHandle 512 1048576 4294966784).

Lemma example_stack_ok : stack_ok example_stack (below_limits 16384).
Proof.
  split; simpl.
  - split; simpl; [limits; lia|lia|lia|lia|by exists 1].
  - split; simpl; [done|limits; lia|limits; lia|by exists 18].
  - split; simpl; [by exists 12|limits; lia|by exists 8|by exists 20|lia].
  - split; simpl; try (limits; lia); [by exists 9|by exists 1|by exists 2048|by exists 8388607].
Qed.

Lemma stack_presents_disk_witness :
  DiskLayer (cow_inv fst cow_4k (fun _ => True) (stack_below (fun s => snd (s_world s)) example_stack)
               (below_cow example_stack (below_limits 16384)) (fun x => x))
    (cow_disk fst cow_4k (below_cow example_stack (below_limits 16384)) (fun x => x)) cow_settled
    (stack_next fst (fun c w => (c, w.2)) (below 16384) (below_backend 16384) (below_backend 16384) example_stack)
    (LayerLimits 10240 1 UINT32_MAX NBDKIT_FUA_NATIVE true).
Proof.
  apply (stack_presents_disk fst (fun c w => (c, w.2)) (fun _ => True) (fun s => snd (s_world s)) (fun _ _ => True)
    (below 16384) (below_limits 16384) (below_backend 16384) (below_backend 16384) example_stack (fun x => x)).
  - apply below_separate.
  - apply example_stack_ok.
Defined.
