(* ===== verification/Serve.v ===== *)
(** * The server on top of a disk

    How [server/backend.c] and [server/filters.c] preserve what a layer
    promises about the contents of the disk ([Layer.DiskLayer]).  A stack is
    verified from the plugin upwards:
    - if the callbacks of a backend implement a disk, so do the [backend_*]
      functions that check their preconditions and emulate what the backend
      cannot do, on a connection whose capabilities have been negotiated
      ([backend_layer]);
    - then so does the [struct nbdkit_next_ops] that a filter on top is given
      ([next_layer]);
    - and the callbacks of a filter that implements a disk over its next
      layer are those of a backend again ([filter_layer]).
    At the top, [handle_request] of [server/protocol.c] answers a client's
    requests as the disk does. *)

From S2P Require Import Prelude NbdProtocol Extents Exports Server Connections Backend Plugin Filter Bytes Protocol Layer.

(** ** Operations *)

Section Operations.
Context {W : Type}.
Implicit Types (b : backend W).

(** The callbacks of a backend, before [backend.c] is involved. *)
Definition callback_ops b : nbdkit_next W :=
  NextOps (b_prepare b false) (b_finalize b) (b_export_description b) (b_get_size b)
    (b_block_size b) (b_can_write b) (b_can_flush b) (b_is_rotational b) (b_can_trim b)
    (b_can_zero b) (b_can_fast_zero b) (b_can_extents b) (b_can_fua b) (b_can_multi_conn b)
    (b_can_cache b) (b_pread b) (b_pwrite b) (b_flush b) (b_trim b) (b_zero b) (b_extents b)
    (b_cache b).

(** What the protocol code calls. *)
Definition backend_ops b (rest : list (backend W)) : nbdkit_next W :=
  NextOps (backend_prepare (b :: rest)) (backend_finalize (b :: rest))
    (backend_export_description b) (backend_get_size b) (backend_block_size b)
    (backend_can_write b) (backend_can_flush b) (backend_is_rotational b) (backend_can_trim b)
    (backend_can_zero b) (backend_can_fast_zero b) (backend_can_extents b) (backend_can_fua b)
    (backend_can_multi_conn b) (backend_can_cache b) (backend_pread b) (backend_pwrite b)
    (backend_flush b) (backend_trim b) (backend_zero b) (backend_extents b) (backend_cache b).
End Operations.

(** ** Negotiated contexts *)

(** The context of a layer with the limits [k], when everything has been
    asked for.  Emulated requests are made in chunks of [MAX_REQUEST_SIZE],
    so the layer has to take these. *)
Definition takes_chunks (k : layer_limits) : Prop :=
  MAX_REQUEST_SIZE <= l_maximum k /\ (l_minimum k | MAX_REQUEST_SIZE).

Record readable (k : layer_limits) (c : context) : Prop := Readable {
  rd_primed : primed c;
  rd_size : c_exportsize c = l_size k;
  rd_cache : c_can_cache c = NBDKIT_CACHE_EMULATE \/ c_can_cache c = NBDKIT_CACHE_NATIVE;
  rd_chunks : c_can_cache c = NBDKIT_CACHE_EMULATE -> takes_chunks k;
}.

Record serves (k : layer_limits) (c : context) : Prop := Serves {
  sv_read : readable k c;
  sv_write : c_can_write c = 1;
  sv_flush : c_can_flush c = 1;
  sv_trim : c_can_trim c = 1;
  sv_zero : c_can_zero c = NBDKIT_ZERO_EMULATE \/ c_can_zero c = NBDKIT_ZERO_NATIVE;
  sv_fast_zero : c_can_fast_zero c = Z.b2z (l_can_fast_zero k);
  sv_fua : c_can_fua c = l_can_fua k;
  sv_chunks : c_can_zero c = NBDKIT_ZERO_EMULATE -> takes_chunks k;
}.

Lemma readable_range k c count offset :
  readable k c -> aligned_range k count offset -> valid_range c offset count = true.
Proof.
  intros [Hp E _ _] (Ho & Hc & Hle & _). pose proof (pr_size c Hp).
  apply valid_range_iff; limits; lia.
Qed.

Lemma readable_size k c : readable k c -> 0 <= l_size k <= INT64_MAX.
Proof. intros [Hp <- _ _]. apply (pr_size c Hp). Qed.

Lemma serves_write k c count offset flags :
  serves k c -> aligned_range k count offset -> write_flags k flags -> may_write c offset count flags.
Proof.
  intros Hk Hr [Hf1 Hf2]. split; [by eapply sv_write|].
  split; [by eapply readable_range; [apply sv_read|]|]. split; [done|].
  intros Hf. pose proof (pr_can_fua c (rd_primed k c (sv_read k c Hk))). specialize (Hf2 Hf).
  pose proof (sv_fua k c Hk). unfold NBDKIT_FUA_NONE in Hf2. lia.
Qed.

(** ** [backend.c] *)

Lemma fails_assert r err : fails_errno r err -> fails_with_errno r err.
Proof. intros [[He _] Hr]. by split. Qed.

Lemma chunk_range k count offset :
  takes_chunks k -> l_size k <= INT64_MAX ->
  aligned_range k count offset ->
  let n := Z.min count MAX_REQUEST_SIZE in
  aligned_range k n offset /\ 0 < n <= count /\ n <= l_maximum k /\
  (n <> count -> aligned_range k (count - n) (offset + n) /\ u64 (offset + n) = offset + n).
Proof.
  intros [Hm Hd] Hsz (Ho & Hc & Hle & Hdo & Hdc). assert (HM : 0 < MAX_REQUEST_SIZE) by done. intros n.
  assert (Hn : 0 < n <= count) by (unfold n; lia).
  assert (Hdn : (l_minimum k | n)) by (unfold n; by destruct (Z.min_spec count MAX_REQUEST_SIZE) as [[_ ->]|[_ ->]]).
  split; [repeat split; (done || lia)|]. split; [done|]. split; [unfold n; lia|]. intros Hne.
  split; [|apply u64_small; limits; lia].
  repeat split; try lia; [by apply Z.divide_add_r|by apply Z.divide_sub_r].
Qed.

Section BackendRead.
Context {W : Type} (inv : st W -> Prop) (disk : st W -> Z -> Z) (settled : st W -> Z -> Prop).
Context (b : backend W) (rest : list (backend W)) (k : layer_limits).
Context `{!ReadLayer inv disk settled (callback_ops b) k}.
Context (Hctx : forall s, inv s -> exists c cs, s_ctx s = c :: cs /\ readable k c).

Notation same := (same_disk inv disk settled).

Lemma wp_backend_pread_disk count offset err s :
  inv s -> errno_ok err -> aligned_range k count offset -> count <= l_maximum k ->
  wp (backend_pread b count offset 0 err) (fun '(r, err', buf) s' =>
    same s s' /\ fails_errno r err' /\ (r <> -1 -> buf = slice (disk s) offset count)) s.
Proof.
  intros Hi He Hr Hm. destruct (Hctx s Hi) as (c & cs & Hs & Hk). pose proof (rd_primed k c Hk) as Hp.
  unfold backend_pread. apply wp_bind. eapply wp_check_connected; [done..|].
  apply wp_bind. eapply wp_valid_range; [done..|]. rewrite (readable_range k c) by done.
  apply wp_bind, wp_assert. split; [done|]. apply wp_bind, wp_assert. split; [done|].
  apply wp_bind. eapply wp_mono; [by apply (dl_pread (nx := callback_ops b) count offset err s)|].
  intros [[r e] buf] s' (Hsd & Hf & Hb). apply wp_bind, wp_assert_err; [by apply fails_assert|].
  by apply wp_ret.
Qed.

Lemma wp_cache_loop_disk fuel : forall count offset err s,
  inv s -> errno_ok err -> aligned_range k count offset ->
  takes_chunks k -> count <= Z.of_nat fuel * MAX_REQUEST_SIZE ->
  wp (backend_cache_loop b fuel count offset 0 err) (fun '(r, err') s' => same s s' /\ fails_errno r err') s.
Proof.
  induction fuel as [|fuel IH]; intros count offset err s Hi He Hr Hm Hfuel;
    pose proof Hr as (Ho & Hc & _); [simpl in Hfuel; lia|].
  cbn [backend_cache_loop]. destruct (Z.eqb_spec count 0) as [|_]; [lia|].
  destruct (Hctx s Hi) as (c & cs & Hs & Hk). pose proof (readable_size k c Hk) as [_ Hsz].
  destruct (chunk_range k count offset Hm Hsz Hr) as (Hr1 & Hn & Hnm & Hrest).
  set (n := Z.min count MAX_REQUEST_SIZE) in *.
  apply wp_bind. eapply wp_mono; [by apply wp_backend_pread_disk|].
  intros [[r e] buf] s1 (Hsd & Hf & _). destruct (Z.eqb_spec r (-1)) as [-> |Hr']; [by apply wp_ret|].
  assert (He1 : errno_ok e) by apply Hf.
  destruct (decide (n = count)) as [E|E].
  - rewrite E, Z.sub_diag. assert (Hend : forall f, backend_cache_loop b f 0 (u64 (offset + count)) 0 e s1 = Ok ((0, e), s1))
      by (by intros []).
    eapply wp_intro; [apply Hend|]. split; [done|]. by apply succeeds_errno_ok.
  - destruct (Hrest E) as [Hr2 Hu]. rewrite Hu. eapply wp_mono.
    { apply (IH (count - n) (offset + n) e s1); try done; try apply Hsd; lia. }
    intros [r2 e2] s2 [Hsd2 Hf2]. split; [by eapply same_disk_trans|done].
Qed.

Lemma wp_backend_cache_disk count offset err s :
  inv s -> errno_ok err -> aligned_range k count offset -> count <= l_maximum k ->
  wp (backend_cache b count offset 0 err) (fun '(r, err') s' => same s s' /\ fails_errno r err') s.
Proof.
  intros Hi He Hr Hm. destruct (Hctx s Hi) as (c & cs & Hs & Hk). pose proof (rd_primed k c Hk) as Hp.
  unfold backend_cache. apply wp_bind. eapply wp_check_connected; [done..|].
  apply wp_bind, wp_assert. split; [by destruct (rd_cache k c Hk) as [-> | ->]|].
  apply wp_bind. eapply wp_valid_range; [done..|]. rewrite (readable_range k c) by done.
  apply wp_bind, wp_assert. split; [done|]. apply wp_bind, wp_assert. split; [done|].
  destruct (Z.eqb_spec (c_can_cache c) NBDKIT_CACHE_EMULATE) as [E|E].
  - apply wp_cache_loop_disk; try done; [by eapply rd_chunks|].
    destruct Hr as (_ & Hc & _). unfold max_chunks, MAX_REQUEST_SIZE. limits. lia.
  - apply wp_bind. eapply wp_mono; [by apply (dl_cache (nx := callback_ops b) count offset err s)|].
    intros [r e] s' (Hsd & Hf). apply wp_assert_err; [by apply fails_assert|done].
Qed.

(** Negotiated capabilities are answered from the context. *)
Lemma serve_size s c cs : s_ctx s = c :: cs -> readable k c -> backend_get_size b s = Ok (l_size k, s).
Proof.
  intros Hs Hk. pose proof (check_connected_primed s c cs Hs (rd_primed k c Hk)) as Hc.
  pose proof (readable_size k c Hk). pose proof (rd_size k c Hk) as Es.
  assert (Hcur : cur s = Ok (c, s)) by (unfold cur; by rewrite Hs).
  unfold backend_get_size. rewrite (bind_run _ _ _ _ _ Hc).
  rewrite (proj2 (Z.eqb_neq (c_exportsize c) UINT64_MAX)) by (limits; lia).
  rewrite (bind_run _ _ s tt s) by done. rewrite (bind_run _ _ _ _ _ Hcur). unfold mret, M_ret.
  by rewrite Es, i64_small by (limits; lia).
Qed.

Lemma serve_can_cache s c cs : s_ctx s = c :: cs -> readable k c -> backend_can_cache b s = Ok (c_can_cache c, s).
Proof.
  intros Hs Hk. pose proof (check_connected_primed s c cs Hs (rd_primed k c Hk)) as Hc.
  assert (Hcur : cur s = Ok (c, s)) by (unfold cur; by rewrite Hs).
  unfold backend_can_cache. rewrite (bind_run _ _ _ _ _ Hc).
  assert (Hn : c_can_cache c <> -1) by (destruct (rd_cache k c Hk) as [-> | ->]; done).
  rewrite (proj2 (Z.eqb_neq _ _) Hn).
  rewrite (bind_run _ _ s tt s) by done. by rewrite (bind_run _ _ _ _ _ Hcur).
Qed.

(** If the callbacks of a backend read a disk, so do the [backend_*]
    functions, on a connection that negotiated the backend's limits. *)
Lemma backend_read_layer : ReadLayer inv disk settled (backend_ops b rest) k.
Proof.
  split; simpl.
  - intros. by apply wp_backend_pread_disk.
  - intros. by apply wp_backend_cache_disk.
  - intros s Hi. destruct (Hctx s Hi) as (c & cs & Hs & Hk).
    eapply wp_intro; [by eapply serve_can_cache|]. split; [|by apply unchanged_refl].
    destruct (rd_cache k c Hk) as [-> | ->]; auto.
  - intros s Hi. destruct (Hctx s Hi) as (c & cs & Hs & Hk).
    eapply wp_intro; [by eapply serve_size|]. split; [by left|by apply unchanged_refl].
Qed.
End BackendRead.

Section BackendLayer.
Context {W : Type} (inv : st W -> Prop) (disk : st W -> Z -> Z) (settled : st W -> Z -> Prop).
Context (b : backend W) (rest : list (backend W)) (k : layer_limits).
Context `{!DiskLayer inv disk settled (callback_ops b) k}.
Context (Hctx : forall s, inv s -> exists c cs, s_ctx s = c :: cs /\ serves k c).
(* a flush is what stands in for FUA *)
Context (Hemulate : l_can_fua k = NBDKIT_FUA_EMULATE -> forall buf count offset flags err s,
  inv s -> errno_ok err -> aligned_range k count offset -> count <= l_maximum k ->
  write_flags k flags -> length buf = Z.to_nat count -> has flags NBDKIT_FLAG_FUA = true ->
  wp (b_pwrite b buf count offset flags err) (fun '(r, _) s' => r <> -1 -> forall x, settled s' x) s).

Notation same := (same_disk inv disk settled).
Notation wrote := (wrote inv disk settled).
Notation trimmed := (trimmed inv disk settled).

(** [backend_pwrite] does what [.pwrite] does. *)
Lemma wp_backend_pwrite_layer R buf count offset flags err s :
  inv s -> errno_ok err -> aligned_range k count offset -> count <= l_maximum k ->
  write_flags k flags -> length buf = Z.to_nat count ->
  wp (b_pwrite b buf count offset flags err) (fun '(r, err') s' => R r err' s') s ->
  wp (backend_pwrite b buf count offset flags err) (fun '(r, err') s' =>
    wrote (overwrite (disk s) buf offset) count offset (has flags NBDKIT_FLAG_FUA) r err' s s' /\ R r err' s') s.
Proof.
  intros Hi He Hr Hm Hf Hl HR. destruct (Hctx s Hi) as (c & cs & Hs & Hk). pose proof (rd_primed k c (sv_read k c Hk)) as Hp.
  destruct (serves_write k c count offset flags Hk Hr Hf) as (Hw & Hv & Hcl & Hfua).
  unfold backend_pwrite. apply wp_bind. eapply wp_check_connected; [done..|].
  apply wp_bind, wp_assert. split; [by apply Z.eqb_eq|].
  apply wp_bind. eapply wp_valid_range; [done..|].
  apply wp_bind, wp_assert. split; [done|]. apply wp_bind, wp_assert. split; [by apply Z.eqb_eq|].
  apply wp_bind, wp_assert. split; [by apply fua_assertion|].
  apply wp_bind. eapply wp_mono; [apply wp_and; [by apply (dl_pwrite (nx := callback_ops b) buf count offset flags err s)|exact HR]|].
  intros [r e] s' [H1 H2]. apply wp_assert_err; [|done]. destruct H1 as (_ & He' & _). by apply fails_assert.
Qed.

Lemma wp_backend_pwrite_disk buf count offset flags err s :
  inv s -> errno_ok err -> aligned_range k count offset -> count <= l_maximum k ->
  write_flags k flags -> length buf = Z.to_nat count ->
  wp (backend_pwrite b buf count offset flags err) (fun '(r, err') s' =>
    wrote (overwrite (disk s) buf offset) count offset (has flags NBDKIT_FLAG_FUA) r err' s s') s.
Proof.
  intros Hi He Hr Hm Hf Hl. eapply wp_mono.
  { apply (wp_backend_pwrite_layer (fun _ _ _ => True)); try done.
    eapply wp_mono; [by apply (dl_pwrite (nx := callback_ops b) buf count offset flags err s)|]. by intros [r e] s' _. }
  by intros [r e] s' [H _].
Qed.

Lemma wp_backend_flush_disk err s :
  inv s -> errno_ok err ->
  wp (backend_flush b 0 err) (fun '(r, err') s' =>
    same s s' /\ fails_errno r err' /\ (r <> -1 -> forall x, settled s' x)) s.
Proof.
  intros Hi He. destruct (Hctx s Hi) as (c & cs & Hs & Hk). pose proof (rd_primed k c (sv_read k c Hk)) as Hp.
  unfold backend_flush. apply wp_bind. eapply wp_check_connected; [done..|].
  apply wp_bind, wp_assert. split; [by apply Z.eqb_eq; eapply sv_flush|].
  apply wp_bind, wp_assert. split; [done|].
  apply wp_bind. eapply wp_mono; [by apply (dl_flush (nx := callback_ops b) err s)|].
  intros [r e] s' (Hsd & Hf & Ha). apply wp_assert_err; [by apply fails_assert|done].
Qed.

Lemma wp_backend_trim_disk count offset flags err s :
  inv s -> errno_ok err -> aligned_range k count offset -> write_flags k flags ->
  wp (backend_trim b count offset flags err) (fun '(r, err') s' =>
    trimmed count offset (has flags NBDKIT_FLAG_FUA) r err' s s') s.
Proof.
  intros Hi He Hr Hf. destruct (Hctx s Hi) as (c & cs & Hs & Hk). pose proof (rd_primed k c (sv_read k c Hk)) as Hp.
  destruct (serves_write k c count offset flags Hk Hr Hf) as (Hw & Hv & Hcl & Hfua).
  unfold backend_trim. apply wp_bind. eapply wp_check_connected; [done..|].
  apply wp_bind, wp_assert. split; [by apply Z.eqb_eq|].
  apply wp_bind, wp_assert. split; [by apply Z.eqb_eq; eapply sv_trim|].
  apply wp_bind. eapply wp_valid_range; [done..|].
  apply wp_bind, wp_assert. split; [done|]. apply wp_bind, wp_assert. split; [by apply Z.eqb_eq|].
  apply wp_bind, wp_assert. split; [by apply fua_assertion|].
  apply wp_bind. eapply wp_mono; [by apply (dl_trim (nx := callback_ops b) count offset flags err s)|].
  intros [r e] s' H. apply wp_assert_err; [|done]. destruct H as (_ & He' & _). by apply fails_assert.
Qed.

(** *** Emulation in chunks *)

(** How the FUA flag of an emulated zero request is passed on: not at all,
    to every chunk, or to the last one, which then flushes. *)
Definition fua_plan (fua : bool) (writeflags : Z) (need_flush : bool) : Prop :=
  (fua = false /\ writeflags = 0 /\ need_flush = false) \/
  (fua = true /\ writeflags = NBDKIT_FLAG_FUA /\ need_flush = false) \/
  (fua = true /\ writeflags = 0 /\ need_flush = true /\ l_can_fua k = NBDKIT_FUA_EMULATE).

Lemma wp_zero_loop_disk fua nf fuel : forall count offset wf err s,
  inv s -> errno_ok err -> aligned_range k count offset ->
  takes_chunks k -> count <= Z.of_nat fuel * MAX_REQUEST_SIZE ->
  fua_plan fua wf nf -> (fua = true -> l_can_fua k <> NBDKIT_FUA_NONE) ->
  wp (backend_zero_loop b fuel count offset wf nf err) (fun '(r, err') s' =>
    wrote (fun _ => 0) count offset fua r err' s s' /\
    (nf = true -> r <> -1 -> forall x, settled s' x)) s.
Proof.
  induction fuel as [|fuel IH]; intros count offset wf err s Hi He Hr Hm Hfuel Hplan Hcan;
    pose proof Hr as (Ho & Hc & _); [simpl in Hfuel; lia|].
  cbn [backend_zero_loop]. destruct (Z.eqb_spec count 0) as [|_]; [lia|].
  destruct (Hctx s Hi) as (c & cs & Hs & Hk). pose proof (readable_size k c (sv_read k c Hk)) as [_ Hsz].
  destruct (chunk_range k count offset Hm Hsz Hr) as (Hr1 & Hn & Hnm & Hrest).
  set (n := Z.min count MAX_REQUEST_SIZE) in *.
  set (fl := if ((n =? count) && nf)%bool then NBDKIT_FLAG_FUA else wf).
  assert (Hfl : write_flags k fl).
  { unfold fl, write_flags. destruct Hplan as [(-> & -> & ->)|[(-> & -> & ->)|(-> & -> & -> & _)]];
      rewrite ?andb_false_r; [by split|split; [done|auto]|]. destruct (_ && _)%bool; [split; [done|auto]|by split]. }
  apply wp_bind. eapply wp_mono.
  { apply (wp_backend_pwrite_layer (fun r _ s' => has fl NBDKIT_FLAG_FUA = true -> l_can_fua k = NBDKIT_FUA_EMULATE ->
      r <> -1 -> forall x, settled s' x)); try done; [apply length_replicate|].
    destruct (decide (has fl NBDKIT_FLAG_FUA = true /\ l_can_fua k = NBDKIT_FUA_EMULATE)) as [[Hf E]|Hno].
    - eapply wp_mono; [apply (Hemulate E); try done; apply length_replicate|]. intros [r e] s'. auto.
    - eapply wp_mono; [apply (dl_pwrite (nx := callback_ops b)); try done; apply length_replicate|]. intros [r e] s' _. tauto. }
  intros [r e] s1 [Hw1 Hall]. apply (wrote_ext _ _ _ _ (fun _ => 0)) in Hw1.
  2: { intros x Hx. unfold zeroes. fold (memset 0 n). rewrite overwrite_memset. unfold fill.
       rewrite decide_True; [done|]. exact Hx. }
  destruct (Z.eqb_spec r (-1)) as [-> |Hr'].
  { apply wp_ret. split; [|by intros _ []]. eapply wrote_error, wrote_widen; [|exact Hw1]. unfold in_request. lia. }
  destruct (decide (n = count)) as [E|E].
  - rewrite E, Z.sub_diag. assert (Hend : forall f, backend_zero_loop b f 0 (u64 (offset + count)) fl nf e s1 = Ok ((0, e), s1))
      by (by intros []).
    eapply wp_intro; [apply Hend|]. rewrite E in Hw1. unfold fl in *. rewrite E, Z.eqb_refl in Hw1, Hall.
    destruct Hplan as [(-> & -> & ->)|[(-> & -> & ->)|(-> & -> & -> & Ek)]]; simpl in *.
    + split; [by eapply wrote_result|done].
    + split; [by eapply wrote_result|done].
    + split; [by eapply wrote_result|]. auto.
  - assert (Efl : fl = wf) by (unfold fl; by rewrite (proj2 (Z.eqb_neq n count) E)).
    rewrite Efl in Hw1 |- *. destruct (Hrest E) as [Hr2 Hu]. rewrite Hu. eapply wp_mono.
    { apply (IH (count - n) (offset + n) wf e s1); try done; try apply Hw1; lia. }
    intros [r2 e2] s2 [Hw2 Hall2]. split; [|done].
    replace count with (n + (count - n)) by lia.
    destruct Hplan as [(-> & -> & ->)|[(-> & -> & ->)|(-> & -> & -> & _)]].
    + eapply wrote_app; [lia|lia|exact Hr'|exact Hw1|exact Hw2].
    + eapply wrote_app; [lia|lia|exact Hr'|exact Hw1|exact Hw2].
    + assert (Hw : wrote (fun _ => 0) (n + (count - n)) offset false r2 e2 s s2).
      { eapply wrote_app; [lia|lia|exact Hr'|exact Hw1|]. destruct Hw2 as (Hu2 & He2 & Hw2). split; [done|].
        split; [done|]. intros H x Hx. split; [by apply Hw2|done]. }
      destruct Hw as (Hu3 & He3 & Hw3). split; [done|]. split; [done|]. intros H x Hx. split; [by apply Hw3|auto].
Qed.

Lemma wp_backend_zero_disk count offset flags err s :
  inv s -> errno_ok err -> aligned_range k count offset -> zero_flags k flags ->
  wp (backend_zero b count offset flags err) (fun '(r, err') s' =>
    wrote (fun _ => 0) count offset (has flags NBDKIT_FLAG_FUA) r (zero_err flags r err') s s') s.
Proof.
  intros Hi He Hr (Hf1 & Hf2 & Hf3). destruct (Hctx s Hi) as (c & cs & Hs & Hk).
  pose proof (rd_primed k c (sv_read k c Hk)) as Hp. pose proof (pr_can_fua c Hp).
  assert (Hfua : has flags NBDKIT_FLAG_FUA = true -> 0 < c_can_fua c).
  { intros Hf. specialize (Hf2 Hf). pose proof (sv_fua k c Hk). unfold NBDKIT_FUA_NONE in Hf2. lia. }
  assert (Hz : 0 < c_can_zero c) by (destruct (sv_zero k c Hk) as [-> | ->]; done).
  unfold backend_zero. apply wp_bind. eapply wp_check_connected; [done..|].
  apply wp_bind, wp_assert. split; [by apply Z.eqb_eq; eapply sv_write|].
  apply wp_bind, wp_assert. split; [by apply Z.ltb_lt|].
  apply wp_bind. eapply wp_valid_range; [done..|]. rewrite (readable_range k c) by (done || apply (sv_read k c Hk)).
  apply wp_bind, wp_assert. split; [done|].
  apply wp_bind, wp_assert. split; [apply Z.eqb_eq; rewrite <- Hf1; f_equal|].
  apply wp_bind, wp_assert. split; [by apply fua_assertion|].
  apply wp_bind, wp_assert.
  split; [destruct (has flags NBDKIT_FLAG_FAST_ZERO); [|done]; by rewrite (sv_fast_zero k c Hk), Hf3|].
  destruct (c_can_zero c =? NBDKIT_ZERO_NATIVE) eqn:En.
  - apply wp_bind. eapply wp_mono; [by apply (dl_zero (nx := callback_ops b) count offset flags err s)|].
    intros [r e] s' Hw. apply wp_bind. destruct (Z.eqb_spec r (-1)) as [-> |]; [|by apply wp_ret].
    destruct Hw as (Hu & [[Heo Hen] Hne] & Hw'). specialize (Hne eq_refl).
    assert (Hn0 : e <> 0 /\ (has flags NBDKIT_FLAG_FAST_ZERO = false -> e <> ENOTSUP)).
    { destruct (has flags NBDKIT_FLAG_FAST_ZERO) eqn:Ef.
      - split; [|done]. intros ->. by rewrite zero_err_errno_ok in Hne.
      - rewrite zero_err_slow in Hne, Hen by done. auto. }
    apply wp_bind, wp_assert. split; [by apply negb_true_iff, Z.eqb_neq, Hn0|]. apply wp_assert.
    split; [|by apply wp_ret]. destruct (has flags NBDKIT_FLAG_FAST_ZERO); [done|]. simpl.
    change EOPNOTSUPP with ENOTSUP. rewrite andb_diag. apply negb_true_iff, Z.eqb_neq. by apply Hn0.
  - destruct (has flags NBDKIT_FLAG_FAST_ZERO) eqn:Ef.
    { apply wp_ret. rewrite zero_err_fast by done. apply wrote_unchanged; [by apply unchanged_refl|]. by apply fails_errno_const. }
    assert (Hm : takes_chunks k).
    { apply (sv_chunks k c Hk). destruct (sv_zero k c Hk) as [|E]; [done|]. by rewrite E in En. }
    eapply wp_mono.
    { apply (wp_zero_loop_disk (has flags NBDKIT_FLAG_FUA)); try done.
      - destruct Hr as (_ & Hc & _). unfold max_chunks, MAX_REQUEST_SIZE. limits. lia.
      - unfold fua_plan. rewrite (sv_fua k c Hk). destruct (has flags NBDKIT_FLAG_FUA); simpl; [|auto].
        destruct (Z.eqb_spec (l_can_fua k) NBDKIT_FUA_EMULATE); simpl; auto 6. }
    intros [r e] s' [Hw _]. by apply wrote_zero_err.
Qed.

Lemma serve_can_fua s c cs : s_ctx s = c :: cs -> serves k c -> backend_can_fua b s = Ok (l_can_fua k, s).
Proof.
  intros Hs Hk. pose proof (rd_primed k c (sv_read k c Hk)) as Hp.
  pose proof (check_connected_primed s c cs Hs Hp) as Hc. pose proof (pr_can_fua c Hp).
  unfold backend_can_fua. rewrite (bind_run _ _ _ _ _ Hc).
  rewrite (proj2 (Z.eqb_neq (c_can_fua c) (-1))) by lia. by rewrite (sv_fua k c Hk).
Qed.

Lemma serve_can_fast_zero s c cs : s_ctx s = c :: cs -> serves k c ->
  backend_can_fast_zero b s = Ok (Z.b2z (l_can_fast_zero k), s).
Proof.
  intros Hs Hk. pose proof (rd_primed k c (sv_read k c Hk)) as Hp.
  pose proof (check_connected_primed s c cs Hs Hp) as Hc. pose proof (sv_fast_zero k c Hk) as Ef.
  unfold backend_can_fast_zero. rewrite (bind_run _ _ _ _ _ Hc).
  rewrite (proj2 (Z.eqb_neq (c_can_fast_zero c) (-1))) by (rewrite Ef; by destruct (l_can_fast_zero k)).
  by rewrite Ef.
Qed.

(** The same for backends that can be written. *)
Lemma backend_layer : DiskLayer inv disk settled (backend_ops b rest) k.
Proof.
  split; simpl.
  - apply backend_read_layer; [apply _|]. intros s Hi. destruct (Hctx s Hi) as (c & cs & Hs & Hk).
    exists c, cs. split; [done|by apply sv_read].
  - intros. by apply wp_backend_pwrite_disk.
  - intros. by apply wp_backend_zero_disk.
  - intros. by apply wp_backend_trim_disk.
  - intros. by apply wp_backend_flush_disk.
  - intros s Hi. destruct (Hctx s Hi) as (c & cs & Hs & Hk).
    eapply wp_intro; [by eapply serve_can_fua|]. split; [done|by apply unchanged_refl].
  - intros s Hi. destruct (Hctx s Hi) as (c & cs & Hs & Hk).
    eapply wp_intro; [by eapply serve_can_fast_zero|]. split; [done|by apply unchanged_refl].
Qed.
End BackendLayer.

(** ** The next layer of a filter

    The contexts of the layers below are behind the filter's own. *)

Definition lower {W} (s : st W) : st W := set_ctx (tail (s_ctx s)) s.
Definition raise {W} (c : context) (s : st W) : st W := set_ctx (c :: s_ctx s) s.
Definition below {W A} (f : st W -> A) (s : st W) : A := f (lower s).

(** The filter's own context is [c], and there is a layer below. *)
Definition inv_below {W} (c : context) (inv : st W -> Prop) (s : st W) : Prop :=
  exists c' cs, s_ctx s = c :: c' :: cs /\ below inv s.

Lemma lower_raise {W} c (s : st W) : lower (raise c s) = s.
Proof. by destruct s. Qed.

Section NextLayer.
Context {W : Type} (inv : st W -> Prop) (disk : st W -> Z -> Z) (settled : st W -> Z -> Prop).
Context (b : backend W) (rest : list (backend W)) (k : layer_limits).
Context (c : context) (Hctx : forall s, inv s -> s_ctx s <> []).

Notation linv := (inv_below c inv).
Notation ldisk := (below disk).
Notation lsettled := (below settled).

Lemma wp_on_next {A} (m : M W A) (Q : A -> st W -> Prop) s :
  linv s -> wp m (fun a s' => Q a (raise c s')) (lower s) -> wp (on_next m) Q s.
Proof.
  intros (c' & cs & Hs & _) Hm. unfold wp, on_next, lower in *. rewrite Hs in *. simpl in Hm.
  by destruct (m _) as [[a s']|].
Qed.

Lemma unchanged_raise P s s' :
  unchanged inv disk settled P (lower s) s' -> unchanged linv ldisk lsettled P s (raise c s').
Proof.
  intros [Hi H]. unfold below. split; [|by rewrite lower_raise].
  pose proof (Hctx s' Hi) as Hne. unfold inv_below. simpl.
  destruct (s_ctx s') as [|c1 cs1] eqn:E; [done|]. exists c1, cs1. split; [done|].
  unfold below. by rewrite lower_raise.
Qed.

Lemma wrote_raise d count offset fua r err s s' :
  wrote inv disk settled d count offset fua r err (lower s) s' ->
  wrote linv ldisk lsettled d count offset fua r err s (raise c s').
Proof.
  intros (Hu & He & Hw). split; [|split; [done|]].
  - apply unchanged_raise in Hu. exact Hu.
  - unfold below. by rewrite lower_raise.
Qed.

Lemma trimmed_raise count offset fua r err s s' :
  trimmed inv disk settled count offset fua r err (lower s) s' ->
  trimmed linv ldisk lsettled count offset fua r err s (raise c s').
Proof.
  intros (Hu & He & Hw). split; [by apply unchanged_raise|]. split; [done|]. unfold below. by rewrite lower_raise.
Qed.

Lemma lower_inv s : linv s -> inv (lower s).
Proof. by intros (? & ? & _ & H). Qed.

(** So the operations that a filter is given read the same disk, *)
Lemma next_read_layer `{!ReadLayer inv disk settled (backend_ops b rest) k} :
  ReadLayer linv ldisk lsettled (next_ops b rest) k.
Proof.
  split; simpl.
  - intros count offset err s Hi He Hr Hm. apply wp_on_next; [done|].
    eapply wp_mono; [apply (dl_pread (nx := backend_ops b rest) count offset err); (done || by apply lower_inv)|].
    intros [[r e] buf] s' (Hsd & Hf & Hb). split; [by apply unchanged_raise|done].
  - intros count offset err s Hi He Hr Hm. apply wp_on_next; [done|].
    eapply wp_mono; [apply (dl_cache (nx := backend_ops b rest) count offset err); (done || by apply lower_inv)|].
    intros [r e] s' (Hsd & Hf). split; [by apply unchanged_raise|done].
  - intros s Hi. apply wp_on_next; [done|].
    eapply wp_mono; [apply (dl_can_cache (nx := backend_ops b rest)); by apply lower_inv|].
    intros r s' (Hr & Hsd). split; [done|by apply unchanged_raise].
  - intros s Hi. apply wp_on_next; [done|].
    eapply wp_mono; [apply (dl_get_size (nx := backend_ops b rest)); by apply lower_inv|].
    intros r s' (Hr & Hsd). split; [done|by apply unchanged_raise].
Qed.

(** and implement it. *)
Lemma next_layer `{!DiskLayer inv disk settled (backend_ops b rest) k} :
  DiskLayer linv ldisk lsettled (next_ops b rest) k.
Proof.
  split; simpl.
  - apply next_read_layer.
  - intros buf count offset flags err s Hi He Hr Hm Hf Hl. apply wp_on_next; [done|].
    eapply wp_mono; [apply (dl_pwrite (nx := backend_ops b rest)); (done || by apply lower_inv)|].
    intros [r e] s' Hw. by apply wrote_raise.
  - intros count offset flags err s Hi He Hr Hf. apply wp_on_next; [done|].
    eapply wp_mono; [apply (dl_zero (nx := backend_ops b rest)); (done || by apply lower_inv)|].
    intros [r e] s' Hw. by apply wrote_raise.
  - intros count offset flags err s Hi He Hr Hf. apply wp_on_next; [done|].
    eapply wp_mono; [apply (dl_trim (nx := backend_ops b rest)); (done || by apply lower_inv)|].
    intros [r e] s' Hw. by apply trimmed_raise.
  - intros err s Hi He. apply wp_on_next; [done|].
    eapply wp_mono; [apply (dl_flush (nx := backend_ops b rest)); (done || by apply lower_inv)|].
    intros [r e] s' (Hsd & Hf & Ha). split; [by apply unchanged_raise|]. split; [done|].
    intros Hr x. unfold below. rewrite lower_raise. auto.
  - intros s Hi. apply wp_on_next; [done|].
    eapply wp_mono; [apply (dl_can_fua (nx := backend_ops b rest)); by apply lower_inv|].
    intros r s' (Hr & Hsd). split; [done|by apply unchanged_raise].
  - intros s Hi. apply wp_on_next; [done|].
    eapply wp_mono; [apply (dl_can_fast_zero (nx := backend_ops b rest)); by apply lower_inv|].
    intros r s' (Hr & Hsd). split; [done|by apply unchanged_raise].
Qed.
End NextLayer.

(** ** [filters.c] *)

(** The callbacks of a filter with the handle [h], over the operations of
    its next layer; the ones that are left out pass the request on. *)
Definition filter_ops {W} (f : nbdkit_filter W) (nx : nbdkit_next W) (h : Z) : nbdkit_next W :=
  let or {A} (cb : option (nbdkit_next W -> Z -> A)) (pass : A) : A :=
    match cb with Some g => g nx h | None => pass end in
  NextOps
    (match f_prepare f with Some g => r ← g nx h false; mret (if r =? -1 then -1 else 0) | None => mret 0 end)
    (match f_finalize f with Some g => r ← g nx h; mret (if r =? -1 then -1 else 0) | None => mret 0 end)
    (or (f_export_description f) (n_export_description nx)) (or (f_get_size f) (n_get_size nx))
    (or (f_block_size f) (n_block_size nx)) (or (f_can_write f) (n_can_write nx))
    (or (f_can_flush f) (n_can_flush nx)) (or (f_is_rotational f) (n_is_rotational nx))
    (or (f_can_trim f) (n_can_trim nx)) (or (f_can_zero f) (n_can_zero nx))
    (or (f_can_fast_zero f) (n_can_fast_zero nx)) (or (f_can_extents f) (n_can_extents nx))
    (or (f_can_fua f) (n_can_fua nx)) (or (f_can_multi_conn f) (n_can_multi_conn nx))
    (or (f_can_cache f) (n_can_cache nx)) (or (f_pread f) (n_pread nx)) (or (f_pwrite f) (n_pwrite nx))
    (or (f_flush f) (n_flush nx)) (or (f_trim f) (n_trim nx)) (or (f_zero f) (n_zero nx))
    (or (f_extents f) (n_extents nx)) (or (f_cache f) (n_cache nx)).

Section FilterLayer.
Context {W : Type} (f : nbdkit_filter W) (b : backend W) (rest : list (backend W)).
Context (inv : st W -> Prop) (disk : st W -> Z -> Z) (settled : st W -> Z -> Prop).
Context (k : layer_limits) (h : Z).

Lemma wp_layer_handle {A} (m : Z -> M W A) (Q : A -> st W -> Prop) s :
  (exists c cs, s_ctx s = c :: cs /\ c_handle c = h) -> wp (m h) Q s -> wp (c ← cur; m (c_handle c)) Q s.
Proof. intros (c & cs & Hs & <-) H. apply wp_bind. by eapply wp_cur. Qed.

(** A backend made of a filter that reads a disk through its next layer
    reads that disk, *)
Lemma filter_read_layer :
  (forall s, inv s -> exists c cs, s_ctx s = c :: cs /\ c_handle c = h) ->
  ReadLayer inv disk settled (filter_ops f (next_ops b rest) h) k ->
  ReadLayer inv disk settled (callback_ops (filter_functions f b rest)) k.
Proof.
  intros Hh HL.
  pose proof (dl_pread (nx := filter_ops f (next_ops b rest) h)) as H1.
  pose proof (dl_cache (nx := filter_ops f (next_ops b rest) h)) as H2.
  pose proof (dl_can_cache (nx := filter_ops f (next_ops b rest) h)) as H3.
  pose proof (dl_get_size (nx := filter_ops f (next_ops b rest) h)) as H4.
  split; simpl in *; intros.
  - unfold filter_pread. destruct (f_pread f) as [g|]; [|by apply H1].
    apply (wp_layer_handle (fun h => g (next b rest) h _ _ _ _)); [auto|by apply H1].
  - unfold filter_cache. destruct (f_cache f) as [g|]; [|by apply H2].
    apply (wp_layer_handle (fun h => g (next b rest) h _ _ _ _)); [auto|by apply H2].
  - unfold filter_can_cache, layer. destruct (f_can_cache f) as [g|]; [|by apply H3].
    apply (wp_layer_handle (fun h => g (next b rest) h)); [auto|by apply H3].
  - unfold filter_get_size, layer. destruct (f_get_size f) as [g|]; [|by apply H4].
    apply (wp_layer_handle (fun h => g (next b rest) h)); [auto|by apply H4].
Qed.

(** and one that implements a disk implements that disk. *)
Lemma filter_layer :
  (forall s, inv s -> exists c cs, s_ctx s = c :: cs /\ c_handle c = h) ->
  DiskLayer inv disk settled (filter_ops f (next_ops b rest) h) k ->
  DiskLayer inv disk settled (callback_ops (filter_functions f b rest)) k.
Proof.
  intros Hh HL.
  pose proof (dl_pwrite (nx := filter_ops f (next_ops b rest) h)) as H5.
  pose proof (dl_zero (nx := filter_ops f (next_ops b rest) h)) as H6.
  pose proof (dl_trim (nx := filter_ops f (next_ops b rest) h)) as H7.
  pose proof (dl_flush (nx := filter_ops f (next_ops b rest) h)) as H8.
  pose proof (dl_can_fua (nx := filter_ops f (next_ops b rest) h)) as H9.
  pose proof (dl_can_fast_zero (nx := filter_ops f (next_ops b rest) h)) as H10.
  split; simpl in *; intros; [by apply filter_read_layer; [|apply _]|..].
  - unfold filter_pwrite. destruct (f_pwrite f) as [g|]; [|by apply H5].
    apply (wp_layer_handle (fun h => g (next b rest) h _ _ _ _ _)); [auto|by apply H5].
  - unfold filter_zero. destruct (f_zero f) as [g|]; [|by apply H6].
    apply (wp_layer_handle (fun h => g (next b rest) h _ _ _ _)); [auto|by apply H6].
  - unfold filter_trim. destruct (f_trim f) as [g|]; [|by apply H7].
    apply (wp_layer_handle (fun h => g (next b rest) h _ _ _ _)); [auto|by apply H7].
  - unfold filter_flush. destruct (f_flush f) as [g|]; [|by apply H8].
    apply (wp_layer_handle (fun h => g (next b rest) h _ _)); [auto|by apply H8].
  - unfold filter_can_fua, layer. destruct (f_can_fua f) as [g|]; [|by apply H9].
    apply (wp_layer_handle (fun h => g (next b rest) h)); [auto|by apply H9].
  - unfold filter_can_fast_zero, layer. destruct (f_can_fast_zero f) as [g|]; [|by apply H10].
    apply (wp_layer_handle (fun h => g (next b rest) h)); [auto|by apply H10].
Qed.
End FilterLayer.

(** ** [plugins.c]

    What is asked of the callbacks of a plugin that keeps a disk in its part
    of the world and takes FUA itself. *)

Section PluginLayer.
Context {W : Type} (p : nbdkit_plugin W).
Context (inv : st W -> Prop) (disk : st W -> Z -> Z) (settled : st W -> Z -> Prop) (k : layer_limits).
Implicit Types (s : st W).

Notation same := (same_disk inv disk settled).

(** A failed callback has left an error number for [get_errno]. *)
Definition cb_failed s : Prop := exists e, get_errno p s = Ok (e, s) /\ errno_ok e /\ e <> 0.

(** The callback that [plugin_pread] calls. *)
Definition pread_callback h count offset : option (cb W (Z * list Z)) :=
  match p_pread p, p_pread_v1 p with
  | Some f, _ => Some (f h count offset 0)
  | None, Some f => Some (f h count offset)
  | None, None => None
  end.

Class ReadPlugin : Prop := {
  rp_pread h count offset s :
    inv s -> aligned_range k count offset -> count <= l_maximum k ->
    exists m, pread_callback h count offset = Some m /\
    wp (call m) (fun '(r, buf) s' =>
      same s s' /\ (r = -1 -> cb_failed s') /\ (r <> -1 -> buf = slice (disk s) offset count)) s;
  rp_cache : p_cache p = None;
  rp_can_cache h s f : inv s -> p_can_cache p = Some f ->
    wp (call (f h)) (fun r s' => 0 <= r <= 2 /\ same s s') s;
  rp_get_size h s : inv s -> wp (call (p_get_size p h)) (fun r s' => (r = l_size k \/ r = -1) /\ same s s') s;
}.

(** The result of a writing callback. *)
Definition cb_wrote (d' : Z -> Z) (count offset : Z) (fua : bool) (r : Z) s s' : Prop :=
  unchanged inv disk settled (fun x => in_request count offset x -> d' x = disk s x) s s' /\
  (r = -1 -> cb_failed s') /\
  (r <> -1 -> forall x, in_request count offset x -> disk s' x = d' x /\ (fua = true -> settled s' x)).

Lemma cb_wrote_ext d d' count offset fua r s s' :
  (forall x, in_request count offset x -> d x = d' x) ->
  cb_wrote d count offset fua r s s' -> cb_wrote d' count offset fua r s s'.
Proof.
  intros Hd ([Hi Hu] & Hf & Hw). split; [|split; [done|]].
  - split; [done|]. intros x Hx. apply Hu. intros Hin. rewrite Hd by done. auto.
  - intros Hr x Hx. rewrite <- Hd by done. auto.
Qed.

Class DiskPlugin : Prop := {
  #[global] dp_read :: ReadPlugin;
  dp_can_fua h s : inv s -> exists f, p_can_fua p = Some f /\ 2 <= p_api_version p /\
    wp (call (f h)) (fun r s' => r = NBDKIT_FUA_NATIVE /\ same s s') s;
  dp_can_fast_zero h s : inv s -> exists f, p_can_fast_zero p = Some f /\
    wp (call (f h)) (fun r s' => r = Z.b2z (l_can_fast_zero k) /\ same s s') s;
  dp_pwrite h buf count offset flags s :
    inv s -> aligned_range k count offset -> count <= l_maximum k -> write_flags k flags ->
    length buf = Z.to_nat count ->
    exists f, p_pwrite p = Some f /\
    wp (call (f h buf count offset flags)) (fun r s' =>
      cb_wrote (overwrite (disk s) buf offset) count offset (has flags NBDKIT_FLAG_FUA) r s s') s;
  dp_zero h count offset flags s :
    inv s -> aligned_range k count offset -> zero_flags k flags ->
    exists f, p_zero p = Some f /\
    wp (call (f h count offset flags)) (fun r s' => (r = 0 \/ r = -1) /\
      cb_wrote (fun _ => 0) count offset (has flags NBDKIT_FLAG_FUA) r s s') s;
  dp_trim h count offset flags s :
    inv s -> aligned_range k count offset -> write_flags k flags ->
    exists f, p_trim p = Some f /\
    wp (call (f h count offset flags)) (fun r s' =>
      unchanged inv disk settled (fun x => ~ in_request count offset x) s s' /\ (r = -1 -> cb_failed s') /\
      (r <> -1 -> has flags NBDKIT_FLAG_FUA = true -> forall x, settled s x -> settled s' x)) s;
  dp_flush h s :
    inv s -> exists f, p_flush p = Some f /\
    wp (call (f h 0)) (fun r s' =>
      same s s' /\ (r = -1 -> cb_failed s') /\ (r <> -1 -> forall x, settled s' x)) s;
  (* the server clears errno before it calls .zero *)
  dp_errno s : inv s -> same s (set_thread (with_errno 0) s);
}.

Lemma wp_failed_err r err s (Q : Z -> st W -> Prop) :
  errno_ok err -> (r = -1 -> cb_failed s) ->
  (forall e, fails_errno r e -> (r <> -1 -> e = err) -> Q e s) ->
  wp (set_err_if_failed p r err) Q s.
Proof.
  intros He Hf HQ. unfold set_err_if_failed. destruct (Z.eqb_spec r (-1)) as [-> |Hr].
  - destruct (Hf eq_refl) as (e & E & Hok & Hne). eapply wp_intro; [exact E|]. apply HQ; [by split|done].
  - apply wp_ret, HQ; [by apply succeeds_errno_ok|done].
Qed.

Context (Hctx : forall s, inv s -> exists c cs, s_ctx s = c :: cs /\ readable k c).

Lemma wp_plugin_handle s (Q : Z -> st W -> Prop) :
  inv s -> (forall h, Q h s) -> wp (handle (W := W)) Q s.
Proof. intros Hi HQ. destruct (Hctx s Hi) as (c & cs & Hs & _). eapply wp_handle; [exact Hs|auto]. Qed.

(** A plugin that can be read is a layer that can be read, *)
Lemma plugin_read_layer `{!ReadPlugin} : ReadLayer inv disk settled (callback_ops (plugin_functions p)) k.
Proof.
  split; simpl.
  - intros count offset err s Hi He Hr Hm. unfold plugin_pread. apply wp_bind, wp_plugin_handle; [done|]. intros h.
    apply wp_bind. destruct (rp_pread h count offset s Hi Hr Hm) as (m & E & Hf).
    assert (Hcall : wp (match p_pread p, p_pread_v1 p with
        | Some f, _ => call (f h count offset 0)
        | None, Some f => call (f h count offset)
        | None, None => fail AssertFailed
        end) (fun '(r, buf) s' => same s s' /\ (r = -1 -> cb_failed s') /\ (r <> -1 -> buf = slice (disk s) offset count)) s).
    { unfold pread_callback in E. by destruct (p_pread p), (p_pread_v1 p); simplify_eq. }
    eapply wp_mono; [exact Hcall|]. intros [r buf] s' (Hsd & Hfail & Hb). apply wp_bind.
    apply wp_failed_err; [done|done|]. intros e Hfe _. by apply wp_ret.
  - intros count offset err s Hi He Hr Hm. unfold plugin_cache. rewrite rp_cache. apply wp_ret.
    split; [by apply unchanged_refl|]. by apply succeeds_errno_ok.
  - intros s Hi. unfold plugin_can_cache. rewrite rp_cache. destruct (p_can_cache p) as [f|] eqn:E; simpl.
    + unfold call_handle. apply wp_bind, wp_plugin_handle; [done|]. intros h.
      eapply wp_mono; [by eapply rp_can_cache|]. intros r s' [Hr Hsd]. split; [|done].
      unfold NBDKIT_CACHE_NONE, NBDKIT_CACHE_EMULATE, NBDKIT_CACHE_NATIVE. lia.
    + apply wp_ret. split; [by left|by apply unchanged_refl].
  - intros s Hi. unfold plugin_get_size, call_handle. apply wp_bind, wp_plugin_handle; [done|]. intros h.
    by apply rp_get_size.
Qed.

Context `{!DiskPlugin}.
Context (Hnative : forall s, inv s -> exists c cs, s_ctx s = c :: cs /\
  c_can_fua c = NBDKIT_FUA_NATIVE /\ c_can_zero c = NBDKIT_ZERO_NATIVE).
Context (Hfua : l_can_fua k = NBDKIT_FUA_NATIVE).

(** With native FUA the flag is passed to the callback. *)
Lemma wp_native_fua b flags s (Q : Z * bool -> st W -> Prop) :
  inv s -> Q (flags, false) s -> wp (emulate_fua b flags) Q s.
Proof.
  intros Hi HQ. destruct (Hnative s Hi) as (c & cs & Hs & E & _).
  destruct (Hctx s Hi) as (c' & cs' & Hs' & Hk). simplify_eq/=. rewrite Hs in Hs'. simplify_eq.
  eapply wp_emulate_fua; [exact Hs|by eapply rd_primed|]. by rewrite E, Z.eqb_refl, andb_false_r.
Qed.

Lemma wp_unset_err r err s (Q : Z * Z -> st W -> Prop) :
  errno_ok err -> (r = -1 -> cb_failed s) -> (forall e, fails_errno r e -> Q (r, e) s) ->
  wp (flush_and_return p false r err) Q s.
Proof.
  intros He Hf HQ. unfold flush_and_return. rewrite andb_false_r. apply wp_bind, wp_ret, wp_bind.
  unfold set_err_if_unset. destruct (Z.eqb_spec r (-1)) as [-> |Hr]; simpl.
  - destruct (Z.eqb_spec err 0) as [-> |Hne].
    + destruct (Hf eq_refl) as (e & E & Hok & Hne). eapply wp_intro; [exact E|]. apply wp_ret, HQ. by split.
    + apply wp_ret, wp_ret, HQ. by split.
  - apply wp_ret, wp_ret, HQ. by apply succeeds_errno_ok.
Qed.

Lemma wp_plugin_zero_layer b count offset flags err s :
  inv s -> errno_ok err -> aligned_range k count offset -> zero_flags k flags ->
  wp (plugin_zero p b count offset flags err) (fun '(r, err') s' =>
    wrote inv disk settled (fun _ => 0) count offset (has flags NBDKIT_FLAG_FUA) r (zero_err flags r err') s s') s.
Proof.
  intros Hi He Hr Hf. unfold plugin_zero. apply wp_bind, wp_native_fua; [done|].
  pose proof Hr as (_ & Hc & _). rewrite (proj2 (Z.eqb_neq count 0)) by lia.
  destruct (Hnative s Hi) as (c & cs & Hs & _ & Ez).
  destruct (Hctx s Hi) as (c' & cs' & Hs' & Hk). rewrite Hs in Hs'. simplify_eq.
  apply wp_bind. eapply wp_intro; [eapply known_can_zero; [exact Hs|by eapply rd_primed]|].
  rewrite Ez, Z.eqb_refl. unfold plugin_zero_native.
  apply wp_bind, wp_bind, wp_modify, wp_bind. pose proof (dp_errno s Hi) as Hsd.
  apply wp_plugin_handle; [apply Hsd|]. intros h.
  destruct (dp_zero h count offset flags _ (proj1 Hsd) Hr Hf) as (f & -> & Hz).
  apply wp_bind. eapply wp_mono; [exact Hz|]. intros r s1 (Hr0 & Hu & Hfail & Hw). apply wp_bind.
  assert (Hend : forall e, fails_errno r e -> wrote inv disk settled (fun _ => 0) count offset
      (has flags NBDKIT_FLAG_FUA) r e s s1).
  { intros e Hfe. eapply wrote_same_l; [exact Hsd|]. by split. }
  destruct Hr0 as [-> | ->]; simpl.
  - apply wp_ret, wp_ret. apply wp_unset_err; [done|done|]. intros e Hfe. by apply wrote_zero_err, Hend.
  - destruct (Hfail eq_refl) as (e & E & [Hok Hns] & Hne). eapply wp_intro; [exact E|]. apply wp_ret.
    change EOPNOTSUPP with ENOTSUP. rewrite andb_diag, (proj2 (Z.eqb_neq e ENOTSUP) Hns). simpl.
    apply wp_unset_err; [done|done|]. intros e' Hfe. by apply wrote_zero_err, Hend.
Qed.

(** and one that keeps a disk is a disk. *)
Lemma plugin_layer : DiskLayer inv disk settled (callback_ops (plugin_functions p)) k.
Proof.
  split; simpl.
  - apply plugin_read_layer.
  - intros buf count offset flags err s Hi He Hr Hm Hf Hl. unfold plugin_pwrite.
    apply wp_bind, wp_native_fua; [done|]. apply wp_bind, wp_plugin_handle; [done|]. intros h.
    destruct (dp_pwrite h buf count offset flags s Hi Hr Hm Hf Hl) as (f & -> & Hw).
    apply wp_bind. eapply wp_mono; [exact Hw|]. intros r s1 (Hu & Hfail & Hd).
    apply wp_unset_err; [done|done|]. by intros e Hfe.
  - intros. by apply wp_plugin_zero_layer.
  - intros count offset flags err s Hi He Hr Hf. unfold plugin_trim.
    apply wp_bind, wp_native_fua; [done|]. apply wp_bind, wp_plugin_handle; [done|]. intros h.
    destruct (dp_trim h count offset flags s Hi Hr Hf) as (f & -> & Hw).
    apply wp_bind. eapply wp_mono; [exact Hw|]. intros r s1 (Hu & Hfail & Hd).
    apply wp_unset_err; [done|done|]. by intros e Hfe.
  - intros err s Hi He. unfold plugin_flush. apply wp_bind, wp_plugin_handle; [done|]. intros h.
    destruct (dp_flush h s Hi) as (f & -> & Hw). apply wp_bind. eapply wp_mono; [exact Hw|].
    intros r s1 (Hsd & Hfail & Ha). apply wp_bind. apply wp_failed_err; [done|done|]. intros e Hfe _. by apply wp_ret.
  - intros s Hi. unfold plugin_can_fua. destruct (Hctx s Hi) as (c & _).
    destruct (dp_can_fua (c_handle c) s Hi) as (f & E & Hv & _). rewrite E. unfold call_handle. apply wp_bind.
    apply wp_bind, wp_plugin_handle; [done|]. intros h. destruct (dp_can_fua h s Hi) as (f' & E' & _ & Hw).
    rewrite E in E'. simplify_eq. eapply wp_mono; [exact Hw|]. intros r s' [-> Hsd]. apply wp_ret.
    rewrite (proj2 (Z.eqb_neq (p_api_version p) 1)), andb_false_r by lia. by rewrite Hfua.
  - intros s Hi. unfold plugin_can_fast_zero. destruct (Hctx s Hi) as (c & _).
    destruct (dp_can_fast_zero (c_handle c) s Hi) as (f & E & _). rewrite E. unfold call_handle. apply wp_bind.
    apply wp_bind, wp_plugin_handle; [done|]. intros h. destruct (dp_can_fast_zero h s Hi) as (f' & E' & Hw).
    rewrite E in E'. simplify_eq. eapply wp_mono; [exact Hw|]. intros r s' [-> Hsd]. apply wp_ret.
    split; [|done]. by destruct (l_can_fast_zero k).
Qed.
End PluginLayer.

(** ** [handle_request]

    A disk as its clients know it: its bytes, and which of them would
    survive a crash. *)

Record disk_state : Type := DiskState {
  d_bytes : Z -> Z;
  d_stable : Z -> Prop;
}.

(** Where [P] holds the bytes are the same and those that were stable still
    are. *)
Definition kept (P : Z -> Prop) (d d' : disk_state) : Prop :=
  forall x, P x -> d_bytes d' x = d_bytes d x /\ (d_stable d x -> d_stable d' x).

(** A request that should store [new] in its range: what it does when it
    fails is bounded by that, too. *)
Definition stored (new : Z -> Z) (count offset : Z) (fua : bool) (error : Z) (d d' : disk_state) : Prop :=
  kept (fun x => in_request count offset x -> new x = d_bytes d x) d d' /\
  (error = 0 -> forall x, in_request count offset x -> d_bytes d' x = new x /\ (fua = true -> d_stable d' x)).

(** What a request with the answer [(error, buf')] has done to the disk.
    With FUA a write is stable when it is answered, and a flush makes
    everything stable; trimmed bytes have no defined contents. *)
Definition disk_step (rq : nbd_request) (buf : list Z) (answer : Z * list Z) (d d' : disk_state) : Prop :=
  let '(error, buf') := answer in
  let fua := has (rq_flags rq) NBD_CMD_FLAG_FUA in
  0 <= error <= INT32_MAX /\
  (if rq_type rq =? NBD_CMD_READ then
     kept (fun _ => True) d d' /\ (error = 0 -> buf' = slice (d_bytes d) (rq_offset rq) (rq_count rq))
   else if rq_type rq =? NBD_CMD_WRITE then
     stored (overwrite (d_bytes d) buf (rq_offset rq)) (rq_count rq) (rq_offset rq) fua error d d'
   else if rq_type rq =? NBD_CMD_WRITE_ZEROES then
     stored (fun _ => 0) (rq_count rq) (rq_offset rq) fua error d d'
   else if rq_type rq =? NBD_CMD_TRIM then
     kept (fun x => ~ in_request (rq_count rq) (rq_offset rq) x) d d' /\
     (error = 0 -> fua = true -> forall x, d_stable d x -> d_stable d' x)
   else if rq_type rq =? NBD_CMD_FLUSH then
     kept (fun _ => True) d d' /\ (error = 0 -> forall x, d_stable d' x)
   else kept (fun _ => True) d d').

Inductive disk_run : list (nbd_request * list Z) -> list (Z * list Z) -> disk_state -> disk_state -> Prop :=
| run_nil d : disk_run [] [] d d
| run_cons rq buf rqs answer answers d d1 d2 :
    disk_step rq buf answer d d1 -> disk_run rqs answers d1 d2 ->
    disk_run ((rq, buf) :: rqs) (answer :: answers) d d2.

(** The requests that a layer with the limits [k] serves: all but block
    status, which says nothing about the contents. *)
Record request_fits (k : layer_limits) (rq : nbd_request) (buf : list Z) : Prop := RequestFits {
  rf_cmd : (is_range_cmd (rq_type rq) = true /\ rq_type rq <> NBD_CMD_BLOCK_STATUS /\
            aligned_range k (rq_count rq) (rq_offset rq)) \/ rq_type rq = NBD_CMD_FLUSH;
  rf_max : rq_type rq = NBD_CMD_READ \/ rq_type rq = NBD_CMD_WRITE \/ rq_type rq = NBD_CMD_CACHE ->
    rq_count rq <= l_maximum k;
  rf_buf : rq_type rq = NBD_CMD_WRITE -> length buf = Z.to_nat (rq_count rq);
  rf_fua : has (rq_flags rq) NBD_CMD_FLAG_FUA = true -> l_can_fua k <> NBDKIT_FUA_NONE;
  rf_fast : has (rq_flags rq) NBD_CMD_FLAG_FAST_ZERO = true -> l_can_fast_zero k = true;
}.

(** A layer that takes requests of any alignment and size serves every
    request that [validate_request] accepts. *)
Lemma valid_fits conn k c rq buf :
  l_minimum k = 1 -> l_maximum k = UINT32_MAX -> serves k c -> eflags_match conn c ->
  0 <= rq_offset rq -> 0 <= rq_count rq <= UINT32_MAX ->
  request_valid conn (l_size k) (rq_type rq) (rq_flags rq) (rq_offset rq) (rq_count rq) ->
  rq_type rq <> NBD_CMD_BLOCK_STATUS ->
  (has (rq_flags rq) NBD_CMD_FLAG_FAST_ZERO = true -> l_can_fast_zero k = true) ->
  (rq_type rq = NBD_CMD_WRITE -> length buf = Z.to_nat (rq_count rq)) ->
  request_fits k rq buf.
Proof.
  intros Hmin Hmax Hk Hem Ho Hc [_ Hcmd Hfl] Hn Hfast Hl. split; [|rewrite Hmax; lia|done| |done].
  - destruct Hcmd as [(Hr & Hc0 & Hle)|(? & _)]; [left|by right]. split; [done|]. split; [done|].
    unfold aligned_range. rewrite Hmin. pose proof (Z.divide_1_l (rq_offset rq)). pose proof (Z.divide_1_l (rq_count rq)).
    repeat split; (done || lia).
  - intros Hf. pose proof (em_fua _ _ Hem (fv_fua _ _ _ _ Hfl Hf)) as H. rewrite (sv_fua k c Hk) in H.
    unfold NBDKIT_FUA_NONE. lia.
Qed.

Section Requests.
Context {W : Type} (inv : st W -> Prop) (disk : st W -> Z -> Z) (settled : st W -> Z -> Prop).
Context (b : backend W) (rest : list (backend W)) (k : layer_limits).
Context `{!DiskLayer inv disk settled (backend_ops b rest) k}.
(* the error fields of the thread are reset before every request *)
Context (Hreset : forall s, inv s ->
  same_disk inv disk settled s (set_thread (with_last_error None) (set_thread (with_err 0) s))).
Implicit Types (s : st W).

Definition disk_of s : disk_state := DiskState (disk s) (settled s).

Lemma kept_unchanged P s s' : unchanged inv disk settled P s s' -> kept P (disk_of s) (disk_of s').
Proof. by intros [_ H]. Qed.

Lemma error_answer r err : fails_errno r err ->
  0 <= (if r =? -1 then u32 err else 0) <= INT32_MAX /\ ((if r =? -1 then u32 err else 0) = 0 -> r <> -1).
Proof.
  intros Hf%fails_assert. split; [by apply error_result|by apply no_error].
Qed.

(** The answer to a zero request that is refused because it is not fast. *)
Lemma zero_answer flags r err : fails_errno r (zero_err flags r err) -> fails_with_errno r err.
Proof.
  unfold zero_err, fails_errno, errno_ok, fails_with_errno.
  destruct (r =? -1) eqn:E; simpl; [|tauto]. destruct (has flags NBDKIT_FLAG_FAST_ZERO); simpl; [|tauto].
  destruct (Z.eqb_spec err ENOTSUP) as [-> |]; [|tauto]. intros _. split; [by vm_compute|done].
Qed.

Definition rq_flags_zero (rq : nbd_request) : Z := Protocol.zero_flags (rq_flags rq).

Lemma fits_write_flags rq buf : request_fits k rq buf ->
  let f := set_if (has (rq_flags rq) NBD_CMD_FLAG_FUA) 0 NBDKIT_FLAG_FUA in
  write_flags k f /\ has f NBDKIT_FLAG_FUA = has (rq_flags rq) NBD_CMD_FLAG_FUA.
Proof.
  intros Hq. pose proof (rf_fua _ _ _ Hq) as Hf.
  destruct (has (rq_flags rq) NBD_CMD_FLAG_FUA); (split; [|done]); split; auto.
Qed.

Lemma fits_zero_flags rq buf : request_fits k rq buf ->
  Layer.zero_flags k (rq_flags_zero rq) /\
  has (rq_flags_zero rq) NBDKIT_FLAG_FUA = has (rq_flags rq) NBD_CMD_FLAG_FUA.
Proof.
  intros [_ _ _ Hf Hfast]. unfold rq_flags_zero. destruct (zero_flags_spec (rq_flags rq)) as (H1 & H2 & H3).
  split; [|done]. split; [|rewrite H2, H3; auto]. rewrite <- H1. f_equal.
Qed.

(** How the requests without data in their answers end. *)
Lemma wp_request_store (g : Z -> Z -> Z) new new' count offset fua (m : M W (Z * Z)) buf (exts : nbdkit_extents) s s0 :
  same_disk inv disk settled s s0 -> (forall r e, fails_errno r (g r e) -> fails_with_errno r e) ->
  (forall x, new' x = new x) ->
  wp m (fun '(r, e) s' => wrote inv disk settled new' count offset fua r (g r e) s0 s') s0 ->
  wp (re ← m; (mret (if re.1 =? -1 then u32 re.2 else 0, buf, exts) : M W (Z * list Z * nbdkit_extents)))
    (fun '(error, _, _) s' => inv s' /\ 0 <= error <= INT32_MAX /\
      stored new count offset fua error (disk_of s) (disk_of s')) s0.
Proof.
  intros Hsd Hg Hnew Hm. apply wp_bind. eapply wp_mono; [exact Hm|]. intros [r e] s' Hw. apply wp_ret.
  apply (wrote_ext _ _ _ _ new) in Hw; [|auto].
  apply (wrote_same_l _ _ _ _ _ _ _ _ _ _ _ _ Hsd) in Hw. destruct Hw as (Hu & Hf%Hg & Hw).
  split; [apply Hu|]. split; [by apply error_result|]. split; [by apply kept_unchanged|].
  intros Hz. by eapply Hw, no_error.
Qed.

Lemma wp_request_keep P Q (m : M W (Z * Z)) buf (exts : nbdkit_extents) s s0 :
  same_disk inv disk settled s s0 ->
  wp m (fun '(r, e) s' => unchanged inv disk settled P s0 s' /\ fails_errno r e /\ (r <> -1 -> Q s')) s0 ->
  wp (re ← m; (mret (if re.1 =? -1 then u32 re.2 else 0, buf, exts) : M W (Z * list Z * nbdkit_extents)))
    (fun '(error, _, _) s' => inv s' /\ 0 <= error <= INT32_MAX /\
      kept P (disk_of s) (disk_of s') /\ (error = 0 -> Q s')) s0.
Proof.
  intros Hsd Hm. apply wp_bind. eapply wp_mono; [exact Hm|]. intros [r e] s' (Hu & Hf & Hq). apply wp_ret.
  destruct (error_answer r e Hf) as [Hok H0]. split; [apply Hu|]. split; [done|]. split; [|auto].
  apply kept_unchanged. by eapply unchanged_trans; [..|exact Hsd|exact Hu].
Qed.

(** [handle_request] does to the disk what the request says. *)
Lemma wp_handle_disk rq buf exts s :
  inv s -> request_fits k rq buf ->
  wp (handle_request b (rq_type rq) (rq_flags rq) (rq_offset rq) (rq_count rq) buf exts)
    (fun '(error, buf', _) s' => inv s' /\ disk_step rq buf (error, buf') (disk_of s) (disk_of s')) s.
Proof.
  intros Hi0 Hq. pose proof (fits_write_flags _ _ Hq) as [Hwf Hwfua]. pose proof (fits_zero_flags _ _ Hq) as [Hzf Hzfua].
  pose proof Hq as [Hcmd Hmax Hbuf _ _]. pose proof (Hreset s Hi0) as Hsd0.
  assert (Hr : rq_type rq <> NBD_CMD_FLUSH -> aligned_range k (rq_count rq) (rq_offset rq)) by (intros; tauto).
  unfold handle_request. apply wp_bind, wp_modify, wp_bind, wp_modify.
  set (s0 := set_thread _ (set_thread _ s)) in *. pose proof (proj1 Hsd0) as Hi. unfold disk_step.
  destruct (Z.eqb_spec (rq_type rq) NBD_CMD_READ) as [E1|N1].
  { apply wp_bind. eapply wp_mono.
    { apply (dl_pread (nx := backend_ops b rest) (rq_count rq) (rq_offset rq) 0 s0 Hi errno_ok_0);
        [apply Hr; by rewrite E1|auto]. }
    intros [[r e] buf'] s' (Hsd & Hf & Hb). apply wp_ret. destruct (error_answer r e Hf) as [Hok H0].
    assert (Hs : same_disk inv disk settled s s') by (by eapply same_disk_trans).
    split; [apply Hs|]. split; [done|]. split; [by apply kept_unchanged|]. intros Hz. rewrite Hb by auto.
    apply slice_ext. intros x _. by apply Hsd0. }
  destruct (Z.eqb_spec (rq_type rq) NBD_CMD_WRITE) as [E2|N2].
  { eapply wp_mono; [eapply (wp_request_store (fun _ e => e) (overwrite (disk s) buf (rq_offset rq)) (overwrite (disk s0) buf (rq_offset rq))); [exact Hsd0|by apply fails_assert| |]|].
    2: { apply (dl_pwrite (nx := backend_ops b rest)); [done|apply errno_ok_0|apply Hr; by rewrite E2|auto|done|auto]. }
    { intros x. apply overwrite_ext. by apply Hsd0. }
    rewrite Hwfua. by intros [[e d] x] s'. }
  destruct (Z.eqb_spec (rq_type rq) NBD_CMD_FLUSH) as [E3|N3].
  { rewrite E3. simpl. eapply wp_mono; [apply (wp_request_keep (fun _ => True) (fun s' => forall x, settled s' x)); [exact Hsd0|]|].
    { by apply (dl_flush (nx := backend_ops b rest)). }
    by intros [[e d] x] s'. }
  specialize (Hr N3).
  destruct (Z.eqb_spec (rq_type rq) NBD_CMD_TRIM) as [E4|N4].
  { rewrite E4. simpl. eapply wp_mono.
    { apply (wp_request_keep (fun x => ~ in_request (rq_count rq) (rq_offset rq) x)
        (fun s' => has (rq_flags rq) NBD_CMD_FLAG_FUA = true -> forall x, settled s0 x -> settled s' x)); [exact Hsd0|].
      eapply wp_mono; [by apply (dl_trim (nx := backend_ops b rest)); [|apply errno_ok_0| |exact Hwf]|].
      intros [r e] s'. unfold trimmed. by rewrite Hwfua. }
    intros [[e d] x] s' (Hi' & Hok & Hk & Hst). split; [done|]. split; [done|]. split; [done|].
    intros Hz Hf y Hy. apply Hst; [done..|]. by apply Hsd0. }
  destruct (Z.eqb_spec (rq_type rq) NBD_CMD_CACHE) as [E5|N5].
  { rewrite E5. simpl. eapply wp_mono; [apply (wp_request_keep (fun _ => True) (fun _ => True)); [exact Hsd0|]|].
    { eapply wp_mono; [apply (dl_cache (nx := backend_ops b rest)); (done || auto using errno_ok_0)|].
      by intros [r e] s' [? ?]. }
    intros [[e d] x] s'. tauto. }
  destruct (Z.eqb_spec (rq_type rq) NBD_CMD_WRITE_ZEROES) as [E6|N6].
  { eapply wp_mono; [eapply (wp_request_store (zero_err (rq_flags_zero rq)) (fun _ => 0) (fun _ => 0)); [exact Hsd0|by apply zero_answer| |]|].
    2: { by apply (dl_zero (nx := backend_ops b rest)); [|apply errno_ok_0| |]. }
    { done. }
    rewrite Hzfua. by intros [[e d] x] s'. }
  exfalso. destruct Hcmd as [(Hr' & Hb & _)|?]; [|done]. unfold is_range_cmd in Hr'.
  repeat match goal with N : rq_type rq <> _ |- _ => rewrite (proj2 (Z.eqb_neq _ _) N) in Hr'; clear N end.
  done.
Qed.

(** A sequence of requests, each handled when the one before is answered. *)
Fixpoint handle_requests (rqs : list (nbd_request * list Z)) : M W (list (Z * list Z)) :=
  match rqs with
  | [] => mret []
  | (rq, buf) :: rqs =>
      '(error, buf', _) ← handle_request b (rq_type rq) (rq_flags rq) (rq_offset rq) (rq_count rq) buf no_extents;
      answers ← handle_requests rqs;
      mret ((error, buf') :: answers)
  end.

(** Its answers are those of a disk. *)
Lemma wp_handle_requests rqs s :
  inv s -> Forall (fun '(rq, buf) => request_fits k rq buf) rqs ->
  wp (handle_requests rqs) (fun answers s' => inv s' /\ disk_run rqs answers (disk_of s) (disk_of s')) s.
Proof.
  intros Hi Hqs. revert s Hi. induction Hqs as [|[rq buf] rqs Hq _ IH]; intros s Hi; simpl.
  { apply wp_ret. split; [done|constructor]. }
  apply wp_bind. eapply wp_mono; [by apply wp_handle_disk|]. intros [[error buf'] exts] s1 [Hi1 Hst].
  apply wp_bind. eapply wp_mono; [by apply IH|]. intros answers s2 [Hi2 Hrun]. apply wp_ret.
  split; [done|]. by econstructor.
Qed.
End Requests.
