(* ===== verification/Fua.v ===== *)
(** * The fua filter

    Models [filters/fua/fua.c], which changes how the FUA flag and flush
    requests are handled.  In the modes that keep the promises of flushes
    (none, emulate, native, pass) the filter's layer is the disk below; mode
    force keeps everything that was written in stable storage, and mode
    discard keeps the contents only. *)

From S2P Require Import Prelude NbdProtocol Extents Exports Server Connections Backend Plugin Filter Bytes Protocol Parse Layer Serve.

Inductive FuaMode : Type := NONE | EMULATE | NATIVE | FORCE | PASS | DISCARD.
#[global] Instance FuaMode_eq_dec : EqDecision FuaMode.
Proof. solve_decision. Defined.

(** A static variable without an initializer. *)
Definition fua_default : FuaMode := NONE.

(* "none", "emulate", "native", "force", "pass", "discard"; "fuamode" *)
Definition text_none : list Z := [110; 111; 110; 101].
Definition text_emulate : list Z := [101; 109; 117; 108; 97; 116; 101].
Definition text_native : list Z := [110; 97; 116; 105; 118; 101].
Definition text_force : list Z := [102; 111; 114; 99; 101].
Definition text_pass : list Z := [112; 97; 115; 115].
Definition text_discard : list Z := [100; 105; 115; 99; 97; 114; 100].
Definition key_fuamode : list Z := [102; 117; 97; 109; 111; 100; 101].

(** 0 or -1 and the mode; any other key is passed on ([None]).  There is no
    [else] after the first comparison. *)
Definition fua_config (fuamode : FuaMode) (key value : list Z) : option (Z * FuaMode) :=
  if strcmp_eq key key_fuamode then
    let fuamode := if strcmp_eq value text_none then NONE else fuamode in
    Some
      (if strcmp_eq value text_emulate then (0, EMULATE)
       else if strcmp_eq value text_native then (0, NATIVE)
       else if strcmp_eq value text_force then (0, FORCE)
       else if strcmp_eq value text_pass then (0, PASS)
       else if strcmp_eq value text_discard then (0, DISCARD)
       else (-1, fuamode))
  else None.

Section Fua.
Context {W : Type}.
Implicit Types (nx : nbdkit_next W) (fuamode : FuaMode).

Definition fua_prepare nx fuamode (readonly : bool) : M W Z :=
  if readonly then mret 0
  else
    match fuamode with
    | NONE | PASS | DISCARD => mret 0
    | EMULATE =>
        r ← n_can_flush nx;
        if r =? -1 then mret (-1) else if r =? 0 then mret (-1) else mret 0
    | NATIVE | FORCE =>
        r ← n_can_fua nx;
        if r =? -1 then mret (-1) else if r =? NBDKIT_FUA_NONE then mret (-1) else mret 0
    end.

Definition fua_can_flush nx fuamode : M W Z :=
  match fuamode with
  | FORCE | DISCARD => mret 1
  | NONE | EMULATE | NATIVE | PASS => n_can_flush nx
  end.

Definition fua_can_fua nx fuamode : M W Z :=
  match fuamode with
  | NONE => mret NBDKIT_FUA_NONE
  | EMULATE => mret NBDKIT_FUA_EMULATE
  | NATIVE | FORCE | DISCARD => mret NBDKIT_FUA_NATIVE
  | PASS => n_can_fua nx
  end.

(** The switch with which [fua_pwrite], [fua_trim] and [fua_zero] begin:
    [need_flush] and the new [flags]. *)
Definition fua_switch fuamode (flags : Z) : M W (bool * Z) :=
  match fuamode with
  | NONE => cassert (negb (has flags NBDKIT_FLAG_FUA));; mret (false, flags)
  | EMULATE =>
      if has flags NBDKIT_FLAG_FUA then mret (true, clear flags NBDKIT_FLAG_FUA) else mret (false, flags)
  | NATIVE | PASS => mret (false, flags)
  | FORCE => mret (false, Z.lor flags NBDKIT_FLAG_FUA)
  | DISCARD => mret (false, clear flags NBDKIT_FLAG_FUA)
  end.

(** Their last lines. *)
Definition fua_end nx (need_flush : bool) (r err : Z) : M W (Z * Z) :=
  if negb (r =? -1) && need_flush then n_flush nx 0 err else mret (r, err).

Definition fua_pwrite nx fuamode (buf : list Z) (count offs flags err : Z) : M W (Z * Z) :=
  '(need_flush, flags) ← fua_switch fuamode flags;
  '(r, err) ← n_pwrite nx buf count offs flags err;
  fua_end nx need_flush r err.

Definition fua_flush nx fuamode (flags err : Z) : M W (Z * Z) :=
  match fuamode with
  | FORCE | DISCARD => mret (0, err)
  | NONE | EMULATE | NATIVE | PASS => n_flush nx flags err
  end.

Definition fua_trim nx fuamode (count offs flags err : Z) : M W (Z * Z) :=
  '(need_flush, flags) ← fua_switch fuamode flags;
  '(r, err) ← n_trim nx count offs flags err;
  fua_end nx need_flush r err.

Definition fua_zero nx fuamode (count offs flags err : Z) : M W (Z * Z) :=
  '(need_flush, flags) ← fua_switch fuamode flags;
  '(r, err) ← n_zero nx count offs flags err;
  fua_end nx need_flush r err.

(** [struct nbdkit_filter filter]; the other operations are those of the layer
    below. *)
Definition fua_filter fuamode : nbdkit_filter W :=
  Filter None None None None None (Some (fun nx _ => fua_prepare nx fuamode)) None None None None None
    (Some (fun nx _ => fua_can_flush nx fuamode)) None None None None None
    (Some (fun nx _ => fua_can_fua nx fuamode)) None None None
    (Some (fun nx _ => fua_pwrite nx fuamode)) (Some (fun nx _ => fua_flush nx fuamode))
    (Some (fun nx _ => fua_trim nx fuamode)) (Some (fun nx _ => fua_zero nx fuamode)) None None.
End Fua.

(** *** Definitions of the proofs *)

(** What the layer above sees. *)
Definition fua_limits (fuamode : FuaMode) (k : layer_limits) : layer_limits :=
  LayerLimits (l_size k) (l_minimum k) (l_maximum k)
    (match fuamode with
     | NONE => NBDKIT_FUA_NONE
     | EMULATE => NBDKIT_FUA_EMULATE
     | NATIVE | FORCE | DISCARD => NBDKIT_FUA_NATIVE
     | PASS => l_can_fua k
     end) (l_can_fast_zero k).

(** What [fua_prepare] checked. *)
Definition fua_supported (fuamode : FuaMode) (k : layer_limits) : Prop :=
  fuamode = NATIVE \/ fuamode = FORCE -> l_can_fua k <> NBDKIT_FUA_NONE.

(** How the flags that are passed on relate to those of the request. *)
Record switched (fuamode : FuaMode) (flags : Z) (need_flush : bool) (flags' : Z) : Prop := Switched {
  sd_fua : fuamode <> DISCARD -> has flags NBDKIT_FLAG_FUA = true ->
           need_flush = true \/ has flags' NBDKIT_FLAG_FUA = true;
  sd_force : fuamode = FORCE -> has flags' NBDKIT_FLAG_FUA = true;
  sd_flush : fuamode = FORCE \/ fuamode = DISCARD -> need_flush = false;
  sd_fast : has flags' NBDKIT_FLAG_FAST_ZERO = has flags NBDKIT_FLAG_FAST_ZERO;
}.

(** Nothing is said about stable storage. *)
Definition volatile {W} : st W -> Z -> Prop := fun _ _ => True.

(** *** Flags *)

Lemma has_lor_same flags m : m <> 0 -> has (Z.lor flags m) m = true.
Proof.
  intros Hm. unfold has. apply negb_true_iff, Z.eqb_neq. intros E. apply Hm, Z.bits_inj'. intros i Hi.
  assert (Hb : ((Z.testbit flags i || Z.testbit m i) && Z.testbit m i)%bool = false)
    by (by rewrite <- Z.lor_spec, <- Z.land_spec, E, Z.bits_0).
  rewrite Z.bits_0. by destruct (Z.testbit flags i), (Z.testbit m i).
Qed.

Lemma clear_lor_0 flags m m' : clear flags m = 0 -> clear m' m = 0 -> clear (Z.lor flags m') m = 0.
Proof.
  unfold clear. intros H H'. apply Z.bits_inj'. intros i Hi. rewrite Z.ldiff_spec, Z.lor_spec, Z.bits_0.
  assert (E : (Z.testbit flags i && negb (Z.testbit m i))%bool = false) by (by rewrite <- Z.ldiff_spec, H, Z.bits_0).
  assert (E' : (Z.testbit m' i && negb (Z.testbit m i))%bool = false) by (by rewrite <- Z.ldiff_spec, H', Z.bits_0).
  destruct (Z.testbit flags i), (Z.testbit m i), (Z.testbit m' i); done.
Qed.

Lemma has_lor_other flags m m' : Z.land m m' = 0 -> has (Z.lor flags m) m' = has flags m'.
Proof. intros Hm. rewrite has_lor. unfold has at 2. by rewrite Hm, orb_false_r. Qed.

(** The flags of a write or trim request, or of a zero request. *)
Definition request_flags (zero : bool) k (flags : Z) : Prop := if zero then zero_flags k flags else write_flags k flags.

Lemma request_flags_fua zero k flags :
  request_flags zero k flags -> has flags NBDKIT_FLAG_FUA = true -> l_can_fua k <> NBDKIT_FUA_NONE.
Proof. destruct zero; [by intros (_ & H & _)|by intros [_ H]]. Qed.

Lemma request_flags_clear zero k flags :
  request_flags zero k flags -> request_flags zero k (clear flags NBDKIT_FLAG_FUA).
Proof. destruct zero; [apply zero_flags_clear_fua|apply write_flags_clear]. Qed.

Lemma request_flags_set zero k flags :
  request_flags zero k flags -> l_can_fua k <> NBDKIT_FUA_NONE -> request_flags zero k (Z.lor flags NBDKIT_FLAG_FUA).
Proof.
  destruct zero.
  - intros (H & _ & Hz) Hk. split; [by apply clear_lor_0|]. split; [done|]. by rewrite has_lor_other.
  - intros [H _] Hk. split; [by apply clear_lor_0|done].
Qed.

(** The same flags on a layer with another FUA mode. *)
Lemma request_flags_limits zero k k' flags :
  request_flags zero k flags -> l_can_fast_zero k' = l_can_fast_zero k ->
  (has flags NBDKIT_FLAG_FUA = true -> l_can_fua k' <> NBDKIT_FUA_NONE) -> request_flags zero k' flags.
Proof. destruct zero; [intros (H & _ & Hz) E Hf|intros [H _] E Hf]; repeat split; try done. by rewrite E. Qed.

(** Requests with flags that the filter offers can be passed on. *)
Lemma wp_fua_switch {W} zero fuamode k flags (s : st W) :
  fua_supported fuamode k -> request_flags zero (fua_limits fuamode k) flags ->
  wp (fua_switch fuamode flags) (fun '(need_flush, flags') s' =>
    s' = s /\ request_flags zero k flags' /\ switched fuamode flags need_flush flags') s.
Proof.
  intros Hsup Hfl. pose proof (request_flags_fua _ _ _ Hfl) as Hfua.
  assert (Hfast : has (clear flags NBDKIT_FLAG_FUA) NBDKIT_FLAG_FAST_ZERO = has flags NBDKIT_FLAG_FAST_ZERO)
    by by rewrite has_clear_other.
  assert (Hlim := fun H => request_flags_limits zero (fua_limits fuamode k) k flags Hfl eq_refl H).
  unfold fua_switch. destruct fuamode; simpl in *.
  - apply wp_bind, wp_assert. assert (E : has flags NBDKIT_FLAG_FUA = false)
      by (destruct (has flags NBDKIT_FLAG_FUA); [by destruct (Hfua eq_refl)|done]).
    split; [by rewrite E|]. apply wp_ret. split; [done|]. split; [by apply Hlim; rewrite E|]. split; (done || (by rewrite E) || by intros []).

  - destruct (has flags NBDKIT_FLAG_FUA) eqn:E; apply wp_ret; (split; [done|]).
    + split; [|split; (done || auto || by intros [])]. apply (request_flags_limits zero (fua_limits EMULATE k)); [by apply request_flags_clear|done|].
      by rewrite has_clear_same.
    + split; [by apply Hlim|]. split; (done || (by rewrite E) || by intros []).
  - apply wp_ret. split; [done|]. split; [apply Hlim; intros _; apply Hsup; auto|]. split; (done || auto || by intros []).
  - apply wp_ret. split; [done|]. split; [|split; (done || auto using has_lor_same)].
    + apply request_flags_set; [apply Hlim; intros _|]; apply Hsup; auto.
    + by rewrite has_lor_other.
  - apply wp_ret. split; [done|]. split; [by apply Hlim|]. split; (done || auto || by intros []).
  - apply wp_ret. split; [done|]. split; [|split; (done || auto || by intros [])].
    apply (request_flags_limits zero (fua_limits DISCARD k)); [by apply request_flags_clear|done|]. by rewrite has_clear_same.
Qed.

(** ** The layer *)

Section Correct.
Context {W : Type} (inv : st W -> Prop) (disk : st W -> Z -> Z) (settled : st W -> Z -> Prop).
Context (nx : nbdkit_next W) (k : layer_limits) `{!DiskLayer inv disk settled nx k}.
Context (fuamode : FuaMode) (h : Z).
Implicit Types (s : st W).

Notation wrote := (wrote inv disk settled).
Notation trimmed := (trimmed inv disk settled).

(** Stable storage as the modes treat it. *)
Definition fua_settled : st W -> Z -> Prop :=
  match fuamode with FORCE | DISCARD => volatile | _ => settled end.

Lemma unchanged_volatile P s s' : unchanged inv disk settled P s s' -> unchanged inv disk fua_settled P s s'.
Proof. intros [Hi H]. unfold fua_settled. split; [done|]. intros x Hx. destruct (H x Hx). by destruct fuamode. Qed.

Lemma wrote_volatile d' count offset fua fua' r err s s' :
  (fuamode <> FORCE -> fuamode <> DISCARD -> fua' = true -> fua = true) ->
  wrote d' count offset fua r err s s' -> Layer.wrote inv disk fua_settled d' count offset fua' r err s s'.
Proof.
  intros Hf (Hu & He & Hd). split; [by apply unchanged_volatile|]. split; [done|]. intros Hr x Hx.
  destruct (Hd Hr x Hx) as [? Hs]. split; [done|]. unfold fua_settled. destruct fuamode; auto; done.
Qed.

Lemma trimmed_volatile count offset fua fua' r err s s' :
  (fuamode <> FORCE -> fuamode <> DISCARD -> fua' = true -> fua = true) ->
  trimmed count offset fua r err s s' -> Layer.trimmed inv disk fua_settled count offset fua' r err s s'.
Proof.
  intros Hf (Hu & He & Hd). split; [by apply unchanged_volatile|]. split; [done|]. intros Hr E x.
  unfold fua_settled. destruct fuamode; (done || (apply Hd; auto; done)).
Qed.

Context (Hsup : fua_supported fuamode k).

(** The last lines of a write, *)
Lemma wp_fua_end_wrote d' count offset fua fua' need_flush r err s1 s2 :
  (fua = true -> need_flush = true \/ fua' = true) ->
  wrote d' count offset fua' r err s1 s2 ->
  wp (fua_end nx need_flush r err) (fun '(r', err') s3 => wrote d' count offset fua r' err' s1 s3) s2.
Proof.
  intros Hfua Hw. unfold fua_end. assert (Hi : inv s2) by (by destruct Hw as [[? _] _]).
  assert (He : errno_ok err) by (by destruct Hw as (_ & [? _] & _)).
  destruct (Z.eqb_spec r (-1)) as [-> |Hr]; [apply wp_ret; by eapply wrote_error|].
  destruct need_flush; simpl.
  - eapply wp_mono; [by apply dl_flush|]. intros [r' err'] s3 (Hsd & He' & Hall).
    pose proof (wrote_flushed _ _ _ _ _ _ _ _ _ _ _ _ _ _ Hr Hw Hsd He' Hall) as (Hu & Hf & Hd).
    split; [done|]. split; [done|]. intros Hr' x Hx. destruct (Hd Hr' x Hx). auto.
  - apply wp_ret. destruct Hw as (Hu & Hf & Hd). split; [done|]. split; [done|]. intros Hr' x Hx.
    destruct (Hd Hr' x Hx) as [Hdx Hsx]. split; [done|]. intros E. apply Hsx. by destruct (Hfua E).
Qed.

(** and of a trim. *)
Lemma wp_fua_end_trimmed count offset fua fua' need_flush r err s1 s2 :
  (fua = true -> need_flush = true \/ fua' = true) ->
  trimmed count offset fua' r err s1 s2 ->
  wp (fua_end nx need_flush r err) (fun '(r', err') s3 => trimmed count offset fua r' err' s1 s3) s2.
Proof.
  intros Hfua Hw. unfold fua_end. assert (Hi : inv s2) by (by destruct Hw as [[? _] _]).
  assert (He : errno_ok err) by (by destruct Hw as (_ & [? _] & _)).
  destruct (Z.eqb_spec r (-1)) as [-> |Hr];
    [apply wp_ret; destruct Hw as (Hu & Hf & _); split; [done|]; split; [done|by intros []]|].
  destruct need_flush; simpl.
  - eapply wp_mono; [by apply dl_flush|]. intros [r' err'] s3 (Hsd & He' & Hall).
    pose proof (trimmed_flushed _ _ _ _ _ _ _ _ _ _ _ _ _ Hw Hsd He' Hall) as (Hu & Hf & Hd).
    split; [done|]. split; [done|]. auto.
  - apply wp_ret. destruct Hw as (Hu & Hf & Hd). split; [done|]. split; [done|]. intros Hr' E.
    apply Hd; [done|]. by destruct (Hfua E).
Qed.

(** What is asked of a request with the FUA flag, in the modes that pass it on
    in one form or the other. *)
Notation asks_fua flags fua := (fua = true -> fuamode <> DISCARD /\ has flags NBDKIT_FLAG_FUA = true \/ fuamode = FORCE).

Lemma switched_asks flags need_flush flags' fua : switched fuamode flags need_flush flags' -> asks_fua flags fua ->
  fua = true -> need_flush = true \/ has flags' NBDKIT_FLAG_FUA = true.
Proof. intros [H1 H2 _ _] Ha E. destruct (Ha E) as [[? ?]|?]; auto. Qed.

Lemma wp_fua_pwrite buf count offset flags err fua s :
  inv s -> errno_ok err -> aligned_range k count offset -> count <= l_maximum k ->
  write_flags (fua_limits fuamode k) flags -> length buf = Z.to_nat count -> asks_fua flags fua ->
  wp (fua_pwrite nx fuamode buf count offset flags err) (fun '(r, err') s' =>
    wrote (overwrite (disk s) buf offset) count offset fua r err' s s') s.
Proof.
  intros Hi He Hr Hm Hfl Hlen Ha. unfold fua_pwrite. apply wp_bind.
  eapply wp_mono; [by apply (wp_fua_switch false fuamode k)|]. intros [need flags'] s' (-> & Hfl' & Hsw).
  apply wp_bind. eapply wp_mono; [by apply dl_pwrite|]. intros [r e] s' Hw.
  eapply wp_fua_end_wrote; [by eapply switched_asks|done].
Qed.

Lemma wp_fua_trim count offset flags err fua s :
  inv s -> errno_ok err -> aligned_range k count offset -> write_flags (fua_limits fuamode k) flags -> asks_fua flags fua ->
  wp (fua_trim nx fuamode count offset flags err) (fun '(r, err') s' => trimmed count offset fua r err' s s') s.
Proof.
  intros Hi He Hr Hfl Ha. unfold fua_trim. apply wp_bind.
  eapply wp_mono; [by apply (wp_fua_switch false fuamode k)|]. intros [need flags'] s' (-> & Hfl' & Hsw).
  apply wp_bind. eapply wp_mono; [by apply dl_trim|]. intros [r e] s' Hw.
  eapply wp_fua_end_trimmed; [by eapply switched_asks|done].
Qed.

Lemma wp_fua_zero count offset flags err fua s :
  inv s -> errno_ok err -> aligned_range k count offset -> zero_flags (fua_limits fuamode k) flags -> asks_fua flags fua ->
  wp (fua_zero nx fuamode count offset flags err) (fun '(r, err') s' =>
    wrote (fun _ => 0) count offset fua r (zero_err flags r err') s s') s.
Proof.
  intros Hi He Hr Hfl Ha. unfold fua_zero. apply wp_bind.
  eapply wp_mono; [by apply (wp_fua_switch true fuamode k)|]. intros [need flags'] s' (-> & Hfl' & Hsw).
  apply wp_bind. eapply wp_mono; [by apply dl_zero|]. intros [r e] s' Hw.
  assert (E : forall r e, zero_err flags' r e = zero_err flags r e)
    by (intros; unfold zero_err; by rewrite (sd_fast _ _ _ _ Hsw)).
  rewrite E in Hw. destruct (decide (r = -1)) as [-> |Hne].
  - unfold fua_end. simpl. apply wp_ret. by eapply wrote_error.
  - rewrite zero_err_ok in Hw by done. eapply wp_mono; [by eapply wp_fua_end_wrote; [by eapply switched_asks|]|].
    intros [r' e'] s3 Hw3. by apply wrote_zero_err.
Qed.

(** A flag that the request does not have, or that the mode does not care
    about, asks for nothing. *)
Definition kept (flags : Z) : bool := has flags NBDKIT_FLAG_FUA && negb (bool_decide (fuamode = DISCARD)).

Lemma kept_asks flags : asks_fua flags (kept flags).
Proof. unfold kept. intros [? E]%andb_prop. left. split; [|done]. intros Hm. by rewrite bool_decide_true in E. Qed.

Lemma kept_fua flags : fuamode <> DISCARD -> has flags NBDKIT_FLAG_FUA = true -> kept flags = true.
Proof. intros Hm Hf. unfold kept. by rewrite Hf, bool_decide_false. Qed.

Lemma fua_layer : DiskLayer inv disk fua_settled (filter_ops (fua_filter fuamode) nx h) (fua_limits fuamode k).
Proof.
  split; [split|..]; simpl.
  - intros count offset err s Hi He Hr Hm. eapply wp_mono; [by apply dl_pread|].
    intros [[r e] buf] s' [Hsd Hrest]. split; [by apply unchanged_volatile|done].
  - intros count offset err s Hi He Hr Hm. eapply wp_mono; [by apply dl_cache|].
    intros [r e] s' [Hsd Hrest]. split; [by apply unchanged_volatile|done].
  - intros s Hi. eapply wp_mono; [by apply dl_can_cache|]. intros r s' [Hr Hsd]. split; [done|by apply unchanged_volatile].
  - intros s Hi. eapply wp_mono; [by apply dl_get_size|]. intros r s' [Hr Hsd]. split; [done|by apply unchanged_volatile].
  - intros buf count offset flags err s Hi He Hr Hm Hfl Hlen.
    eapply wp_mono; [by apply wp_fua_pwrite with (fua := kept flags); auto using kept_asks|].
    intros [r e] s' Hw. by eapply wrote_volatile; [|exact Hw]; auto using kept_fua.
  - intros count offset flags err s Hi He Hr Hfl.
    eapply wp_mono; [by apply wp_fua_zero with (fua := kept flags); auto using kept_asks|].
    intros [r e] s' Hw. by eapply wrote_volatile; [|exact Hw]; auto using kept_fua.
  - intros count offset flags err s Hi He Hr Hfl.
    eapply wp_mono; [by apply wp_fua_trim with (fua := kept flags); auto using kept_asks|].
    intros [r e] s' Hw. by eapply trimmed_volatile; [|exact Hw]; auto using kept_fua.
  - intros err s Hi He. assert (Hsame : same_disk inv disk volatile s s) by by apply unchanged_refl.
    assert (H0 : fails_errno 0 err) by by apply succeeds_errno_ok.
    unfold fua_flush, fua_settled. destruct fuamode; (by apply dl_flush) || by apply wp_ret.
  - intros s Hi. unfold fua_can_fua. destruct fuamode eqn:Em; simpl;
      try (apply wp_ret; split; [done|by apply unchanged_refl]).
    eapply wp_mono; [by apply dl_can_fua|]. intros r s' [Hr Hsd]. split; [done|by apply unchanged_volatile].
  - intros s Hi. eapply wp_mono; [by apply dl_can_fast_zero|]. intros r s' [Hr Hsd]. split; [done|by apply unchanged_volatile].
Qed.
End Correct.

(** ** Properties *)

Lemma fua_prepare_supported {W} inv disk settled (nx : nbdkit_next W) k `{!DiskLayer inv disk settled nx k} fuamode s s' :
  inv s -> fua_prepare nx fuamode false s = Ok (0, s') -> fua_supported fuamode k.
Proof.
  intros Hi Hp Hm Hk. destruct (wp_ok _ _ _ (dl_can_fua (nx := nx) s Hi)) as (r & s1 & Hr & -> & _).
  unfold fua_prepare in Hp. rewrite Hk in Hr.
  destruct Hm as [-> | ->]; by rewrite (bind_run _ _ _ _ _ Hr) in Hp.
Qed.

(** C16: Once [fua_prepare] has accepted the layer below, the filter presents
    the disk below in every mode: reads return its bytes, and writes, zeroes
    and trims change the requested bytes and no others.  In the modes none,
    emulate, native and pass it also keeps every promise about stable storage
    (a request with the FUA flag, where the mode offers it, is stable when it
    succeeds, and so is everything after a flush), without ever passing on a
    flag that the layer below did not offer. *)
Theorem fua_presents_disk {W} inv disk settled (nx : nbdkit_next W) k `{!DiskLayer inv disk settled nx k} fuamode h s s' :
  inv s -> fua_prepare nx fuamode false s = Ok (0, s') ->
  DiskLayer inv disk (match fuamode with FORCE | DISCARD => volatile | _ => settled end)
    (filter_ops (fua_filter fuamode) nx h) (fua_limits fuamode k).
Proof. intros Hi Hp. apply (fua_layer inv disk settled nx k fuamode h). by eapply fua_prepare_supported. Qed.

(** Flushes at this layer do nothing in mode force, and need not do more: *)
Lemma fua_force_write_through {W} inv disk settled (nx : nbdkit_next W) k `{!DiskLayer inv disk settled nx k} buf count offset flags err s :
  l_can_fua k <> NBDKIT_FUA_NONE -> inv s -> errno_ok err -> aligned_range k count offset ->
  (forall x, settled s x) ->
  (count <= l_maximum k -> length buf = Z.to_nat count -> write_flags (fua_limits FORCE k) flags ->
   wp (fua_pwrite nx FORCE buf count offset flags err) (fun '(r, _) s' => r <> -1 -> forall x, settled s' x) s) /\
  (zero_flags (fua_limits FORCE k) flags ->
   wp (fua_zero nx FORCE count offset flags err) (fun '(r, _) s' => r <> -1 -> forall x, settled s' x) s) /\
  (write_flags (fua_limits FORCE k) flags ->
   wp (fua_trim nx FORCE count offset flags err) (fun '(r, _) s' => r <> -1 -> forall x, settled s' x) s).
Proof.
  intros Hk Hi He Hr Hall.
  assert (Hstable : forall d' r e s', wrote inv disk settled d' count offset true r e s s' -> r <> -1 -> forall x, settled s' x).
  { intros d' r e s' ([_ Hu] & _ & Hw) Hr0 x. destruct (decide (in_request count offset x)) as [Hx|Hx].
    - by apply Hw.
    - by apply Hu. }
  assert (Hsup : fua_supported FORCE k) by (intros _; exact Hk). split; [|split]; intros.
  - eapply wp_mono; [by apply (wp_fua_pwrite inv disk settled nx k FORCE) with (fua := true); auto|].
    intros [r e] s'. apply Hstable.
  - eapply wp_mono; [by apply (wp_fua_zero inv disk settled nx k FORCE) with (fua := true); auto|].
    intros [r e] s'. apply Hstable.
  - eapply wp_mono; [by apply (wp_fua_trim inv disk settled nx k FORCE) with (fua := true); auto|].
    intros [r e] s' (_ & _ & Hw) Hr0 x. by apply Hw.
Qed.

(** The default cannot be asked for: [fuamode=none] is an error. *)
Lemma fuamode_none_refused fuamode : fua_config fuamode key_fuamode text_none = Some (-1, NONE).
Proof. done. Qed.

Lemma fua_presents_disk_witness :
  fua_prepare (flat_next 4096) EMULATE false (witness_state (fun _ => 0)) =
    Ok (0, witness_state (fun _ => 0)) /\
  DiskLayer (fun _ => True) s_world (fun _ _ => True)
    (filter_ops (fua_filter EMULATE) (flat_next 4096) 1)
    (fua_limits EMULATE (LayerLimits 4096 1 4096 NBDKIT_FUA_NATIVE true)).
Proof.
  split; [reflexivity|].
  apply (fua_presents_disk (fun _ => True) s_world (fun _ _ => True) (flat_next 4096)
    (LayerLimits 4096 1 4096 NBDKIT_FUA_NATIVE true) EMULATE 1 (witness_state (fun _ => 0)) _ I eq_refl).
Defined.
