(* ===== verification/CacheDisk.v ===== *)
(** * The cache filter as a disk

    The filter of [Cache], on top of a layer that is a disk, is a disk: what
    is in the cache file comes before what is in the layer below, and a
    flush, or a write that must be stable, brings the layer below up to date.
    The defects at the end say where it is not. *)

From S2P Require Import Prelude NbdProtocol Extents Exports Server Connections Backend Plugin Filter Bytes Io Parse Layer ExtentsQuery Bitmap Blocks Lru Cache.

(** ** Runs of blocks *)

Lemma cached_run_spec n bm cached : forall blk,
  0 <= cached_run n bm cached blk <= Z.of_nat n /\
  forall y, blk <= y < blk + cached_run n bm cached blk -> is_cached bm y = cached.
Proof.
  induction n as [|n IH]; intros blk; cbn [cached_run]; [split; lia|].
  destruct (Bool.eqb cached (is_cached bm blk)) eqn:E; [|split; lia]. apply Bool.eqb_prop in E.
  destruct (IH (blk + 1)) as [Hb Hall]. split; [lia|]. intros y Hy.
  destruct (decide (y = blk)) as [-> |]; [done|]. apply Hall. lia.
Qed.

(** ** The bitmaps of [lru.c] *)

(** Bitmaps that end before the block number that -1 is as a [uint64_t]. *)
Definition lru_small (l : lru) : Prop :=
  (bitmap_wf (lru_bm0 l) /\ b_limit (lru_bm0 l) < UINT64_MAX) /\
  (bitmap_wf (lru_bm1 l) /\ b_limit (lru_bm1 l) < UINT64_MAX).

Lemma clear_small bm : bitmap_wf bm -> bitmap_wf (bitmap_clear bm) /\ b_limit (bitmap_clear bm) = b_limit bm.
Proof.
  intros Hwf. split.
  - apply set_bitmap_wf; [done|]. unfold memset. apply Forall_replicate. lia.
  - unfold b_limit, b_size, bitmap_clear. cbn [b_bitmap b_ibpb set_bitmap]. rewrite length_memset. unfold b_size. f_equal. lia.
Qed.

Lemma lru_access_small n : forall l blk, lru_small l -> lru_small (lru_access_run n l blk).
Proof.
  induction n as [|n IH]; intros l blk H; cbn [lru_access_run]; [done|]. apply IH.
  destruct H as [[H0 H0'] [H1 H1']]. unfold lru_set_recently_accessed. destruct (negb _); [done|].
  destruct (set_blk_wf (lru_bm0 l) blk 1 H0) as (Hw & Hl & _). destruct (clear_small _ H1) as [Hcw Hcl].
  destruct (_ <=? _); unfold lru_small; cbn [lru_bm0 lru_bm1]; rewrite ?Hl, ?Hcl; done.
Qed.

Lemma lru_not_recent l : lru_small l -> lru_has_been_recently_accessed l (u64 (-1)) = false.
Proof.
  change (u64 (-1)) with UINT64_MAX.
  intros [[H0 H0'] [H1 H1']]. unfold lru_has_been_recently_accessed. rewrite !bitmap_get_blk_entry by done.
  by rewrite !(proj2 (Z.leb_le _ _)) by lia.
Qed.

(** ** What the filter presents *)

Section Correct.
Context {W : Type} (get_cache : W -> cache_state) (set_cache : cache_state -> W -> W) (g : cache_settings) (bs : Z).
Context (inv : st W -> Prop) (disk : st W -> Z -> Z) (settled : st W -> Z -> Prop).
Context (nx : nbdkit_next W) (k : layer_limits).

Definition cache_of (s : st W) : cache_state := get_cache (s_world s).
Definition put_cache (c : cache_state) (s : st W) : st W := set_world (set_cache c (s_world s)) s.

(** The filter's state is its own, the layer below does not depend on it;
    and the layer below keeps its contents when it is trimmed. *)
Record cache_separate : Prop := CacheSeparate {
  cc_get_set : forall c w, get_cache (set_cache c w) = c;
  cc_inv : forall c s, inv s -> inv (put_cache c s);
  cc_disk : forall c s x, disk (put_cache c s) x = disk s x;
  cc_settled : forall c s x, settled (put_cache c s) x <-> settled s x;
  cc_next : forall c, DiskLayer (fun s => inv s /\ cache_of s = c) disk settled nx k;
  cc_trim : forall c count offset flags err s,
    inv s -> cache_of s = c -> errno_ok err -> aligned_range k count offset -> write_flags k flags ->
    wp (n_trim nx count offset flags err) (fun '(r, err') s' =>
      same_disk (fun s => inv s /\ cache_of s = c) disk settled s s' /\ fails_errno r err') s;
}.

Definition writes_succeed : Prop := forall buf count offset flags err s,
  inv s -> errno_ok err -> aligned_range k count offset -> write_flags k flags -> length buf = Z.to_nat count ->
  wp (n_pwrite nx buf count offset flags err) (fun '(r, _) _ => r <> -1) s.

(** The mode in which a client's write is written through, and may have to be
    stable. *)
Definition through_fua : Prop := l_can_fua k <> NBDKIT_FUA_NONE /\ l_can_fua k <> NBDKIT_FUA_EMULATE.

(** Block size, disk size and settings.  The size of the cache may only be
    limited in the mode where no block is dirty. *)
Record cache_fits : Prop := CacheFits {
  cb_blksize : exists n, 0 <= n <= 31 /\ bs = 2 ^ n;
  cb_size : 0 <= l_size k <= INT64_MAX;
  cb_blksize_min : (l_minimum k | bs);
  cb_size_min : (l_minimum k | l_size k);
  cb_max : bs <= l_maximum k;
  cb_blocks : l_size k <= bs * 2147483648;
  cb_reclaim : q_max_size g = -1 \/
    (q_mode g = CACHE_MODE_WRITETHROUGH /\ q_max_size g * q_hi_thresh g <= INT64_MAX /\
     q_max_size g * q_lo_thresh g <= INT64_MAX);
  cb_writes : q_mode g = CACHE_MODE_WRITETHROUGH \/ (q_mode g = CACHE_MODE_WRITEBACK /\ through_fua) -> writes_succeed;
  cb_unsafe : q_mode g = CACHE_MODE_UNSAFE -> l_can_fua k <> NBDKIT_FUA_NONE;
}.

Context (Hsep : cache_separate) (Hfit : cache_fits).
Notation size := (l_size k).

(** The number of blocks that the bitmap has. *)
Definition blocks_limit : Z := (size + bs * 4 - 1) / (bs * 4) * 4.

(** The state after [blk_set_size]. *)
Record cache_ok (c : cache_state) : Prop := CacheOk {
  ck_wf : bitmap_wf (ca_bm c);
  ck_bpb : b_bpb (ca_bm c) = 2;
  ck_blksize : b_blksize (ca_bm c) = bs;
  ck_limit : b_limit (ca_bm c) = blocks_limit;
  ck_size : ca_size c = size;
  ck_file : forall blk, blk * bs < size -> (blk + 1) * bs <= of_size (ca_file c);
  ck_io : Forall io_good (of_io (ca_file c));
  ck_fadvise : Forall (fun r => r = 0) (o_fadvise (ca_os c));
  ck_lru : lru_small (ca_lru c);
  ck_reclaim : -1 <= ca_reclaim_blk c < Z.max 1 blocks_limit;
  ck_states : forall blk, 0 <= blk -> entry (ca_bm c) blk = BLOCK_NOT_CACHED \/
    entry (ca_bm c) blk = BLOCK_CLEAN \/ entry (ca_bm c) blk = BLOCK_DIRTY;
  ck_beyond : forall blk, 0 <= blk -> size <= blk * bs -> entry (ca_bm c) blk = BLOCK_NOT_CACHED;
  ck_through : q_mode g = CACHE_MODE_WRITETHROUGH -> forall blk, 0 <= blk -> entry (ca_bm c) blk <> BLOCK_DIRTY;
}.

(** The contents: what is cached, over the layer below. *)
Definition cache_view (c : cache_state) (D : Z -> Z) (x : Z) : Z :=
  if decide (0 <= x < size) then
    if entry (ca_bm c) (x / bs) =? BLOCK_NOT_CACHED then D x else of_data (ca_file c) x
  else 0.

(** Clean blocks are what the layer below contains. *)
Definition clean_ok (c : cache_state) (D : Z -> Z) : Prop := forall x,
  0 <= x < size -> entry (ca_bm c) (x / bs) = BLOCK_CLEAN -> of_data (ca_file c) x = D x.

Definition cache_inv (s : st W) : Prop := inv s /\ cache_ok (cache_of s) /\ clean_ok (cache_of s) (disk s).
Definition cache_disk (s : st W) : Z -> Z := cache_view (cache_of s) (disk s).

(** A byte survives a crash if the layer below has it and would keep it.
    [cache=unsafe] promises nothing. *)
Definition cache_settled (s : st W) (x : Z) : Prop :=
  q_mode g = CACHE_MODE_UNSAFE \/ ~ 0 <= x < size \/ (disk s x = cache_disk s x /\ settled s x).

Notation same := (same_disk cache_inv cache_disk cache_settled).
Notation wrote' := (wrote cache_inv cache_disk cache_settled).
Notation bs_ok := (bs_pos bs (cb_blksize Hfit)).

(** Nothing changes, not even below. *)
Definition quiet (s s' : st W) : Prop := same s s' /\ forall x, disk s' x = disk s x.

Lemma quiet_refl s : cache_inv s -> quiet s s.
Proof. intros Hi. split; [by apply unchanged_refl|done]. Qed.

Lemma quiet_trans s1 s2 s3 : quiet s1 s2 -> quiet s2 s3 -> quiet s1 s3.
Proof.
  intros [H1 D1] [H2 D2]. split; [by eapply same_disk_trans|]. intros x. by rewrite D2.
Qed.

Lemma cache_of_put c s : cache_of (put_cache c s) = c.
Proof. apply Hsep. Qed.

Lemma limit_bounds : 0 <= blocks_limit <= 2147483652 /\ size <= bs * blocks_limit < size + bs * 4.
Proof.
  pose proof bs_ok. pose proof (cb_size Hfit). pose proof (cb_blocks Hfit). unfold blocks_limit.
  pose proof (Z.div_mod (size + bs * 4 - 1) (bs * 4) ltac:(lia)).
  pose proof (Z.mod_pos_bound (size + bs * 4 - 1) (bs * 4) ltac:(lia)).
  set (q := (size + bs * 4 - 1) / (bs * 4)) in *. nia.
Qed.

Lemma limit_unique l : (4 | l) -> size <= bs * l < size + bs * 4 -> l = blocks_limit.
Proof.
  intros [q ->] Hl. pose proof bs_ok. unfold blocks_limit. f_equal.
  apply (Z.div_unique_pos _ _ _ (size + bs * 4 - 1 - bs * 4 * q)); lia.
Qed.

(** A change of the filter's state that does not concern the contents. *)
Lemma quiet_put s c : cache_inv s -> cache_ok c ->
  (forall x, cache_view c (disk s) x = cache_disk s x) -> clean_ok c (disk s) -> quiet s (put_cache c s).
Proof.
  intros Hi Hc Hv Hcl. assert (Hv' : forall x, cache_disk (put_cache c s) x = cache_disk s x).
  { intros x. rewrite <- Hv. unfold cache_disk, cache_view. rewrite cache_of_put, (cc_disk Hsep). done. }
  split; [split|intros x; apply Hsep].
  - split; [apply Hsep, Hi|]. rewrite cache_of_put. split; [done|]. intros x Hx He. rewrite (cc_disk Hsep). auto.
  - intros x _. split; [done|]. unfold cache_settled. rewrite (cc_disk Hsep), (cc_settled Hsep), Hv'. done.
Qed.

(** The same for changes that concern neither the bitmap nor the file. *)
Lemma quiet_put_other s c : cache_inv s -> cache_ok c -> ca_bm c = ca_bm (cache_of s) ->
  of_data (ca_file c) = of_data (ca_file (cache_of s)) -> quiet s (put_cache c s).
Proof.
  intros Hi Hc Hb Hf. apply quiet_put; [done|done|..].
  - intros x. unfold cache_disk, cache_view. by rewrite Hb, Hf.
  - intros x. rewrite Hb, Hf. by apply Hi.
Qed.

(** What the layer below does is invisible if it only reads. *)
Lemma quiet_next s s' : cache_inv s ->
  same_disk (fun s' => inv s' /\ cache_of s' = cache_of s) disk settled s s' ->
  quiet s s' /\ cache_of s' = cache_of s.
Proof.
  intros (Hi & Hc & Hcl) [[Hi' E] Hs]. split; [|done].
  assert (Hd : forall x, disk s' x = disk s x) by (intros x; by apply Hs).
  assert (Hv : forall x, cache_disk s' x = cache_disk s x) by (intros x; unfold cache_disk, cache_view; by rewrite E, Hd).
  split; [split|done].
  - split; [done|]. rewrite E. split; [done|]. intros x Hx He. rewrite Hd. auto.
  - intros x _. split; [done|]. unfold cache_settled. rewrite Hv, Hd.
    destruct (Hs x I) as [_ Hst]. tauto.
Qed.

Lemma wp_ca_gets {A} (f : cache_state -> A) Q s : Q (f (cache_of s)) s -> wp (ca_gets get_cache f) Q s.
Proof. intros HQ. by apply wp_gets. Qed.

Lemma wp_ca_modify f (Q : unit -> st W -> Prop) s :
  Q tt (put_cache (f (cache_of s)) s) -> wp (ca_modify get_cache set_cache f) Q s.
Proof. intros HQ. by apply wp_modify. Qed.

Lemma wp_on_os {A} (f : cache_os -> A * cache_os) s : cache_inv s ->
  (forall o, Forall (fun r => r = 0) (o_fadvise o) -> Forall (fun r => r = 0) (o_fadvise (snd (f o)))) ->
  wp (on_os get_cache set_cache f) (fun a s' => a = fst (f (ca_os (cache_of s))) /\ quiet s s' /\
    exists o, cache_of s' = ca_with_os o (cache_of s)) s.
Proof.
  intros Hi Hf. unfold on_os. apply wp_bind, wp_ca_gets, wp_bind, wp_ca_modify, wp_ret. split; [done|].
  split; [|rewrite cache_of_put; eauto]. apply quiet_put_other; [done| |done..].
  destruct Hi as (_ & [] & _). split; try done. by apply Hf.
Qed.

(** The calls keep that [posix_fadvise] succeeds. *)
Lemma os_calls_ok o : Forall (fun r => r = 0) (o_fadvise o) ->
  Forall (fun r => r = 0) (o_fadvise (snd (os_malloc o))) /\ Forall (fun r => r = 0) (o_fadvise (snd (os_access o))) /\
  Forall (fun r => r = 0) (o_fadvise (snd (os_fstat o))) /\ Forall (fun r => r = 0) (o_fadvise (snd (os_fallocate o))) /\
  (Forall (fun r => r = 0) (o_fadvise (snd (os_fadvise o))) /\ fst (os_fadvise o) = 0).
Proof.
  intros H. unfold os_malloc, os_access, os_fstat, os_fallocate, os_fadvise.
  split; [by destruct (o_mem o)|]. split; [by destruct (o_access o)|]. split; [by destruct (o_fstat o)|].
  split; [by destruct (o_fallocate o)|]. destruct (o_fadvise o) as [|r rs] eqn:E; simpl; [by rewrite E|].
  by apply Forall_cons in H as [-> H].
Qed.

Lemma wp_malloc s : cache_inv s -> wp (on_os get_cache set_cache os_malloc) (fun _ s' => quiet s s') s.
Proof.
  intros Hi. eapply wp_mono; [apply wp_on_os; [done|]|by intros ? ? (_ & ? & _)]. intros o Ho. by apply os_calls_ok.
Qed.

Lemma wp_access_run n blk s : cache_inv s ->
  wp (access_run get_cache set_cache n blk) (fun _ s' => quiet s s') s.
Proof.
  intros Hi. apply wp_ca_modify, quiet_put_other; [done| |done..].
  destruct Hi as (_ & [] & _). split; try done. by apply lru_access_small.
Qed.

(** ** The file *)

Lemma wp_file_write buf count offset s :
  cache_inv s -> 0 < count -> Z.of_nat (length buf) = count ->
  wp (file_write get_cache set_cache buf count offset) (fun o s' =>
    exists f, s' = put_cache (ca_with_file f (cache_of s)) s /\ cache_ok (ca_with_file f (cache_of s)) /\
    match o with
    | Some e => e <> 0 /\ errno_ok e /\ quiet s s'
    | None => of_data f = overwrite (of_data (ca_file (cache_of s))) buf offset
    end) s.
Proof.
  intros Hinv Hpos Hlen. pose proof Hinv as (Hi & Hc & Hcl). unfold file_write, on_file. apply wp_bind, wp_ca_gets.
  destruct (full_pwrite_good (ca_file (cache_of s)) buf count offset (ck_io _ Hc) Hpos Hlen)
    as (o & f & -> & Hio & Hsz & Ho).
  assert (Hok : cache_ok (ca_with_file f (cache_of s))).
  { destruct Hc. split; try done. intros blk Hblk. simpl. pose proof (ck_file0 blk Hblk). lia. }
  apply wp_bind, wp_ca_modify, wp_ret. exists f. split; [done|]. split; [done|]. destruct o; [|done].
  split; [tauto|]. split; [tauto|]. apply quiet_put_other; try done. simpl. tauto.
Qed.

Lemma wp_file_read count offset s :
  cache_inv s -> 0 < count -> offset + count <= of_size (ca_file (cache_of s)) ->
  wp (file_read get_cache set_cache count offset) (fun o s' =>
    quiet s s' /\ match o with
    | inl e => e <> 0 /\ errno_ok e
    | inr data => data = slice (of_data (ca_file (cache_of s))) offset count
    end) s.
Proof.
  intros Hinv Hpos Hsz. pose proof Hinv as (Hi & Hc & Hcl). unfold file_read, on_file. apply wp_bind, wp_ca_gets.
  destruct (full_pread_good (ca_file (cache_of s)) count offset (ck_io _ Hc) Hpos Hsz)
    as (o & f & -> & Hio & Hdata & Hsz' & Ho).
  apply wp_bind, wp_ca_modify, wp_ret. split; [|done]. apply quiet_put_other; [done| |done..].
  destruct Hc. split; try done. intros blk Hblk. simpl. rewrite Hsz'. auto.
Qed.

(** ** Blocks *)

(** A block that starts inside the disk. *)
Lemma cached_block_inside s blk : cache_inv s -> 0 <= blk -> blk * bs < size ->
  blk < blocks_limit /\ i64 (blk * bs) = blk * bs /\
  bitmap_get_blk (ca_bm (cache_of s)) blk BLOCK_NOT_CACHED = entry (ca_bm (cache_of s)) blk.
Proof.
  intros (_ & Hc & _) Hb Hs. pose proof bs_ok. pose proof (cb_size Hfit). pose proof limit_bounds.
  assert (blk < blocks_limit) by nia. split; [done|].
  split; [apply i64_small; nia|]. rewrite bitmap_get_blk_entry by apply Hc.
  by rewrite (proj2 (Z.leb_gt _ _)) by (rewrite (ck_limit _ Hc); lia).
Qed.

(** A block that is not dirty is what the layer below contains. *)
Lemma not_dirty_sync s x : cache_inv s -> 0 <= x < size -> entry (ca_bm (cache_of s)) (x / bs) <> BLOCK_DIRTY ->
  cache_disk s x = disk s x.
Proof.
  intros (_ & Hc & Hcl) Hx He. pose proof bs_ok. unfold cache_disk, cache_view. rewrite decide_True by done.
  destruct (ck_states _ Hc (x / bs)) as [E|[E|E]]; [apply Z.div_pos; lia| | |done]; rewrite E; [done|].
  change (BLOCK_CLEAN =? BLOCK_NOT_CACHED) with false. by apply Hcl.
Qed.

(** A byte of a run of blocks. *)
Lemma in_blocks x blk n : 0 <= blk -> 0 <= x -> blk <= x / bs < blk + n <-> blk * bs <= x < (blk + n) * bs.
Proof.
  intros Hb Hx. pose proof bs_ok. split; [|by apply div_block].
  pose proof (Z.div_mod x bs ltac:(lia)). pose proof (Z.mod_pos_bound x bs ltac:(lia)). nia.
Qed.

(** Setting the state of blocks that start inside the disk. *)
Lemma set_run_ok c n blk v : cache_ok c -> 0 <= blk -> 1 <= n -> (blk + n - 1) * bs < size ->
  v = BLOCK_CLEAN \/ (v = BLOCK_DIRTY /\ q_mode g <> CACHE_MODE_WRITETHROUGH) ->
  cache_ok (ca_with_bm (set_run (Z.to_nat n) (ca_bm c) blk v) c) /\
  forall x, 0 <= x -> entry (set_run (Z.to_nat n) (ca_bm c) blk v) (x / bs) =
    if decide (blk * bs <= x < (blk + n) * bs) then v else entry (ca_bm c) (x / bs).
Proof.
  intros Hc Hb Hn Hs Hv. pose proof bs_ok. pose proof limit_bounds.
  assert (Hend : blk + n <= blocks_limit) by nia.
  destruct (set_run_spec (Z.to_nat n) v (ca_bm c) blk) as (Hwf & Hl & Hbs & Hbp & He);
    [apply Hc|done|rewrite (ck_limit _ Hc); lia|rewrite (ck_bpb _ Hc); destruct Hv as [-> |[-> _]]; done|].
  assert (Hdec : forall y, 0 <= y -> blk <= y < blk + Z.of_nat (Z.to_nat n) -> y * bs < size) by nia.
  split.
  - destruct Hc. split; simpl; try done; [congruence..| | |]; intros.
    + rewrite He by done. case_decide; auto. destruct Hv as [-> |[-> _]]; auto.
    + rewrite He by done. case_decide as Hy; auto. specialize (Hdec _ ltac:(eassumption) Hy). lia.
    + rewrite He by done. case_decide; auto. by destruct Hv as [-> |[_ Hv]].
  - intros x Hx. rewrite He by (apply Z.div_pos; lia). rewrite Z2Nat.id by lia.
    pose proof (in_blocks x blk n Hb Hx). repeat case_decide; (done || tauto).
Qed.

(** Storing blocks in the file, where they are what the layer below
    contains. *)
Lemma wp_store_clean block blk n err s :
  cache_inv s -> errno_ok err -> 0 <= blk -> 1 <= n -> (blk + n - 1) * bs < size -> Z.of_nat (length block) = n * bs ->
  agrees disk size s (blk * bs) block -> agrees cache_disk size s (blk * bs) block ->
  wp (store_clean get_cache set_cache bs block blk n err) (fun '(r, err') s' => quiet s s' /\ fails_errno r err') s.
Proof.
  intros Hi He Hb Hn Hs Hlen Hd Ha. pose proof bs_ok. destruct (cached_block_inside s blk Hi Hb ltac:(nia)) as (_ & Hoff & _).
  unfold store_clean. rewrite Hoff, (Z.mul_comm bs n). apply wp_bind.
  eapply wp_mono; [apply (wp_file_write block _ _ s); [done|nia|done]|]. intros o s1 (f & -> & Hok & Ho).
  destruct o as [errno|]; [apply wp_ret; split; [tauto|]; split; tauto|].
  apply wp_bind, wp_ca_modify. rewrite cache_of_put.
  destruct (set_run_ok _ n blk BLOCK_CLEAN Hok Hb Hn Hs) as [Hok' Hent]; [by left|].
  set (c' := ca_with_bm _ _) in *.
  change (put_cache c' (put_cache ?c s)) with (set_world (set_cache c' (set_cache c (s_world s))) s).
  assert (Hin : forall x, blk * bs <= x < (blk + n) * bs -> of_data f x = nth (Z.to_nat (x - blk * bs)) block 0).
  { intros x Hx. rewrite Ho, overwrite_in by lia. done. }
  assert (Hout : forall x, ~ blk * bs <= x < (blk + n) * bs -> of_data f x = of_data (ca_file (cache_of s)) x).
  { intros x Hx. rewrite Ho, overwrite_out by lia. done. }
  set (s2 := set_world _ s).
  assert (Hof : cache_of s2 = c') by (unfold s2, cache_of; apply (cc_get_set Hsep)).
  assert (Hq : quiet s s2).
  { assert (Hd2 : forall x, disk s2 x = disk s x).
    { intros x. change (disk (put_cache c' (put_cache (ca_with_file f (cache_of s)) s)) x = disk s x).
      by rewrite !(cc_disk Hsep). }
    assert (Hv2 : forall x, cache_disk s2 x = cache_disk s x).
    { intros x. unfold cache_disk at 1. rewrite Hof. unfold cache_view. subst c'. cbn [ca_bm ca_file ca_with_bm ca_with_file] in *.
      destruct (decide (0 <= x < size)) as [Hx|Hx].
      2: { unfold cache_disk, cache_view. by rewrite decide_False. }
      rewrite Hent by lia. destruct (decide (blk * bs <= x < (blk + n) * bs)) as [Hi2|Ho2].
      - change (BLOCK_CLEAN =? BLOCK_NOT_CACHED) with false. cbv iota. rewrite Hin by done. apply Ha; lia.
      - rewrite Hout, Hd2 by done. unfold cache_disk, cache_view. by rewrite decide_True. }
    split; [split|done].
    - split; [change (inv (put_cache c' (put_cache (ca_with_file f (cache_of s)) s))); by do 2 apply Hsep; apply Hi|].
      rewrite Hof. split; [done|]. subst c'. intros x Hx. cbn [ca_bm ca_file ca_with_bm ca_with_file] in *.
      rewrite Hent, Hd2 by lia. destruct (decide (blk * bs <= x < (blk + n) * bs)) as [Hi2|Ho2].
      + intros _. rewrite Hin by done. apply Hd; lia.
      + rewrite Hout by done. by apply Hi.
    - intros x _. split; [done|]. unfold cache_settled. rewrite Hv2, Hd2.
      change (settled s2 x) with (settled (put_cache c' (put_cache (ca_with_file f (cache_of s)) s)) x).
      by rewrite !(cc_settled Hsep). }
  apply wp_bind. eapply wp_mono; [apply wp_access_run, Hq|]. intros [] s3 Hq3. apply wp_ret.
  split; [by eapply quiet_trans|]. split; [done|lia].
Qed.

(** ** Reclaiming blocks

    Only reached in writethrough mode, where no block is dirty. *)

(** Moving [reclaim_blk] and changing the state of the reclaiming. *)
Lemma quiet_put_reclaim s r blk : cache_inv s -> -1 <= blk < Z.max 1 blocks_limit ->
  quiet s (put_cache (ca_with_reclaim r blk (cache_of s)) s).
Proof.
  intros Hi Hb. apply quiet_put_other; [done| |done..]. destruct Hi as (_ & [] & _). by split.
Qed.

Lemma wp_reclaim_block s : cache_inv s -> q_mode g = CACHE_MODE_WRITETHROUGH ->
  wp (reclaim_block get_cache set_cache bs) (fun _ s' =>
    quiet s s' /\ ca_reclaiming (cache_of s') = ca_reclaiming (cache_of s)) s.
Proof.
  intros Hi Hm. pose proof bs_ok. unfold reclaim_block. apply wp_bind, wp_ca_gets.
  destruct (Z.eqb_spec (ca_reclaim_blk (cache_of s)) (-1)) as [E|E]; [apply wp_ret; split; [by apply quiet_refl|done]|].
  apply wp_bind. eapply wp_mono; [apply wp_on_os; [done|]; intros o Ho; by apply os_calls_ok|].
  intros errno s1 (_ & Hq1 & o & Ec1). pose proof Hq1 as [[Hi1 _] _].
  assert (Er : ca_reclaiming (cache_of s1) = ca_reclaiming (cache_of s)) by (by rewrite Ec1).
  destruct (negb (errno =? 0)); [by apply wp_ret|]. apply wp_ca_modify. rewrite cache_of_put. split; [|done].
  eapply quiet_trans; [exact Hq1|]. set (blk := ca_reclaim_blk (cache_of s)) in *. pose proof Hi1 as (_ & Hc & Hcl).
  assert (Hblk : 0 <= blk < Z.max 1 blocks_limit).
  { pose proof (ck_reclaim _ (proj1 (proj2 Hi))). fold blk in H0. lia. }
  destruct (set_blk_wf (ca_bm (cache_of s1)) blk BLOCK_NOT_CACHED (ck_wf _ Hc)) as (Hwf & Hl & Hbs & Hbp).
  assert (Hent : forall x, 0 <= x -> entry (bitmap_set_blk (ca_bm (cache_of s1)) blk BLOCK_NOT_CACHED) x =
    if decide (x = blk) then BLOCK_NOT_CACHED else entry (ca_bm (cache_of s1)) x).
  { intros x Hx. destruct (decide (blk < blocks_limit)) as [Hlt|Hge].
    - apply entry_set_blk; [apply Hc|rewrite (ck_limit _ Hc); lia|rewrite (ck_bpb _ Hc); done|done].
    - rewrite set_blk_slot, (proj2 (Z.leb_le _ _)) by (rewrite ?(ck_limit _ Hc); (apply Hc || lia)).
      case_decide as Ex; [|done]. subst x. rewrite entry_outside; [done|apply Hc|done|rewrite (ck_limit _ Hc); lia]. }
  apply quiet_put; [done|..].
  - destruct Hc. split; cbn [ca_bm ca_size ca_file ca_lru ca_reclaim_blk ca_os ca_with_bm ca_with_file of_size of_io];
      try done; [congruence..| | |]; intros; rewrite Hent by done; case_decide; auto.
  - intros x. unfold cache_view. cbn [ca_bm ca_file ca_with_bm ca_with_file of_data].
    destruct (decide (0 <= x < size)) as [Hx|Hx]; [|unfold cache_disk, cache_view; by rewrite decide_False].
    rewrite Hent by (apply Z.div_pos; lia). case_decide as Ex.
    + change (BLOCK_NOT_CACHED =? BLOCK_NOT_CACHED) with true. symmetry. apply not_dirty_sync; [done|done|].
      apply (ck_through _ Hc Hm). apply Z.div_pos; lia.
    + unfold cache_disk, cache_view. rewrite decide_True by done. unfold fill. rewrite decide_False; [done|].
      intros Hin. apply Ex. pose proof (in_blocks x blk 1 ltac:(lia) ltac:(lia)). lia.
  - intros x Hx He. cbn [ca_bm ca_file ca_with_bm ca_with_file of_data] in *. rewrite Hent in He by (apply Z.div_pos; lia).
    case_decide as Ex; [done|]. unfold fill. rewrite decide_False; [by apply Hcl|].
    intros Hin. apply Ex. pose proof (in_blocks x blk 1 ltac:(lia) ltac:(lia)). lia.
Qed.

(** Whether [r] is what [bitmap_next] returns for [blk]. *)
Definition next_cached (bm : bitmap) (blk r : Z) : Prop :=
  (r = -1 /\ zero_entries bm blk blocks_limit) \/ (blk <= r < blocks_limit /\ zero_entries bm blk r /\ entry bm r <> 0).

Lemma wp_reclaim_next blk s : cache_inv s -> 0 <= blk <= blocks_limit ->
  wp (reclaim_next get_cache set_cache blk) (fun r s' =>
    quiet s s' /\ cache_of s' = ca_with_reclaim (ca_reclaiming (cache_of s)) r (cache_of s) /\
    next_cached (ca_bm (cache_of s)) blk r) s.
Proof.
  intros Hi Hb. unfold reclaim_next. apply wp_bind, wp_ca_gets. pose proof Hi as (_ & Hc & _).
  destruct (bitmap_next_spec (ca_bm (cache_of s)) blk (ck_wf _ Hc)) as (r & -> & Hr); [rewrite (ck_limit _ Hc); lia|].
  rewrite (ck_limit _ Hc) in Hr. apply wp_bind, wp_ca_modify, wp_ret. rewrite cache_of_put.
  split; [|by split]. apply quiet_put_reclaim; [done|]. destruct Hr as [[-> _]|[Hr _]]; lia.
Qed.

Lemma wp_reclaim_next_wrap s : cache_inv s -> 0 < size ->
  wp (reclaim_next_wrap get_cache set_cache) (fun r s' =>
    quiet s s' /\ cache_of s' = ca_with_reclaim (ca_reclaiming (cache_of s)) r (cache_of s) /\
    (next_cached (ca_bm (cache_of s)) (ca_reclaim_blk (cache_of s) + 1) r /\ r <> -1 \/
     next_cached (ca_bm (cache_of s)) 0 r /\ zero_entries (ca_bm (cache_of s)) (ca_reclaim_blk (cache_of s) + 1) blocks_limit)) s.
Proof.
  intros Hi Hsz. pose proof bs_ok. pose proof limit_bounds. pose proof (ck_reclaim _ (proj1 (proj2 Hi))).
  assert (1 <= blocks_limit) by nia. unfold reclaim_next_wrap. apply wp_bind, wp_ca_gets, wp_bind.
  eapply wp_mono; [apply wp_reclaim_next; [done|lia]|]. intros r s1 (Hq1 & Ec1 & Hr1).
  destruct (Z.eqb_spec r (-1)) as [-> |Hne].
  - eapply wp_mono; [apply wp_reclaim_next; [apply Hq1|lia]|]. intros r s2 (Hq2 & Ec2 & Hr2).
    split; [by eapply quiet_trans|]. rewrite Ec1 in Ec2, Hr2. split; [done|]. right. split; [done|].
    destruct Hr1 as [[_ Hz]|[? _]]; [done|lia].
  - apply wp_ret. split; [done|]. split; [done|]. left. done.
Qed.

Lemma wp_reclaim_any s : cache_inv s -> 0 < size -> q_mode g = CACHE_MODE_WRITETHROUGH ->
  wp (reclaim_any get_cache set_cache bs) (fun _ s' =>
    quiet s s' /\ ca_reclaiming (cache_of s') = ca_reclaiming (cache_of s)) s.
Proof.
  intros Hi Hsz Hm. apply wp_bind. eapply wp_mono; [by apply wp_reclaim_next_wrap|]. intros r s1 (Hq1 & Ec1 & _).
  eapply wp_mono; [apply wp_reclaim_block; [apply Hq1|done]|]. intros [] s2 [Hq2 E2].
  split; [by eapply quiet_trans|]. by rewrite E2, Ec1.
Qed.

(** How far [r] is before [old] on the way around the bitmap. *)
Definition distance (old r : Z) : Z := if decide (old <= r) then blocks_limit - r + old else old - r.

(** The loop ends: it stops at [old], which is cached, at the latest. *)
Lemma wp_reclaim_lru_loop fuel : forall s old,
  cache_inv s -> 0 < size -> q_mode g = CACHE_MODE_WRITETHROUGH ->
  let r := ca_reclaim_blk (cache_of s) in
  (old = -1 /\ r = -1) \/ (0 <= old < blocks_limit /\ entry (ca_bm (cache_of s)) old <> 0 /\ 0 <= r < blocks_limit) ->
  (old <> -1 -> distance old r < Z.of_nat fuel) -> (1 <= fuel)%nat ->
  wp (reclaim_lru_loop get_cache set_cache bs fuel old) (fun _ s' =>
    quiet s s' /\ ca_reclaiming (cache_of s') = ca_reclaiming (cache_of s)) s.
Proof.
  induction fuel as [|fuel IH]; intros s old Hi Hsz Hm r Hold Hd Hf; [lia|]. cbn [reclaim_lru_loop].
  apply wp_bind, wp_ca_gets. fold r.
  destruct (lru_has_been_recently_accessed (ca_lru (cache_of s)) (u64 r)) eqn:Hrec; cbn [negb].
  2: { apply wp_bind. eapply wp_mono; [by apply wp_reclaim_block|]. intros [] s1 Hq1. by apply wp_ret. }
  destruct Hold as [[-> Er]|(Ho & Hoe & Hr)].
  { rewrite Er, lru_not_recent in Hrec by apply Hi. done. }
  apply wp_bind. eapply wp_mono; [by apply wp_reclaim_next_wrap|]. intros r' s1 (Hq1 & Ec1 & Hr'). fold r in Hr'.
  assert (Er : ca_reclaiming (cache_of s1) = ca_reclaiming (cache_of s)) by (by rewrite Ec1).
  destruct (Z.leb_spec 0 r') as [H0|H0]; [|by apply wp_ret].
  destruct (Z.eqb_spec old r') as [E|E]; cbn [andb negb]; [by apply wp_ret|].
  assert (Hlt : 0 <= r' < blocks_limit /\ distance old r' < distance old r).
  { assert (Hle : forall b, zero_entries (ca_bm (cache_of s)) b r' -> b <= old -> r' <= old).
    { intros b Hz Hb. destruct (decide (r' <= old)); [done|]. exfalso. apply Hoe, Hz. lia. }
    unfold distance. destruct Hr' as [[[[? _]|(Hb & Hz & _)] _]|[[[? _]|(Hb & Hz & _)] Hz2]]; try lia.
    - split; [lia|]. pose proof (Hle _ Hz). repeat case_decide; lia.
    - split; [lia|]. pose proof (Hle _ Hz ltac:(lia)).
      assert (old <= r); [|repeat case_decide; lia].
      destruct (decide (old <= r)); [done|]. exfalso. apply Hoe, Hz2. lia. }
  specialize (Hd ltac:(lia)).
  assert (0 <= distance old r') by (unfold distance; case_decide; lia).
  eapply wp_mono; [apply (IH s1 old); [apply Hq1|done|done| | |lia]; rewrite Ec1; simpl|].
  - right. split; [lia|]. split; [done|lia].
  - intros _. lia.
  - intros b s2 [Hq2 E2]. split; [by eapply quiet_trans|]. by rewrite E2.
Qed.

Lemma wp_reclaim_lru s : cache_inv s -> 0 < size -> q_mode g = CACHE_MODE_WRITETHROUGH ->
  ca_reclaiming (cache_of s) <> NOT_RECLAIMING ->
  wp (reclaim_lru get_cache set_cache bs) (fun _ s' => quiet s s' /\ ca_reclaiming (cache_of s') <> NOT_RECLAIMING) s.
Proof.
  intros Hi Hsz Hm Hn. pose proof bs_ok. pose proof limit_bounds. pose proof (ck_reclaim _ (proj1 (proj2 Hi))).
  assert (1 <= blocks_limit) by nia. unfold reclaim_lru. apply wp_bind, wp_ca_gets, wp_bind.
  eapply wp_mono; [apply wp_reclaim_next; [done|lia]|]. intros old s1 (Hq1 & Ec1 & Hr1).
  apply wp_bind, wp_ca_gets. rewrite (ck_limit _ (proj1 (proj2 (proj1 (proj1 Hq1))))). apply wp_bind.
  eapply wp_mono.
  { apply (wp_reclaim_lru_loop _ s1 old); [apply Hq1|done|done| |..]; rewrite ?Ec1; simpl.
    - destruct Hr1 as [[-> _]|(? & _ & ?)]; [by left|right]. split; [lia|]. split; [done|lia].
    - intros Ho. destruct Hr1 as [[-> _]|(? & _ & ?)]; [done|]. unfold distance. rewrite decide_True by lia. lia.
    - lia. }
  intros found s2 [Hq2 E2]. assert (Hq : quiet s s2) by (by eapply quiet_trans).
  assert (Hn2 : ca_reclaiming (cache_of s2) <> NOT_RECLAIMING) by (by rewrite E2, Ec1).
  destruct found; [by apply wp_ret|]. apply wp_bind, wp_ca_gets. destruct (old =? _); [|by apply wp_ret].
  apply wp_bind, wp_ca_modify. set (s3 := put_cache _ s2).
  assert (Hq3 : quiet s2 s3) by (apply quiet_put_reclaim; [apply Hq2|apply (ck_reclaim (cache_of s2)), Hq2]).
  eapply wp_mono; [apply wp_reclaim_any; [apply Hq3|done|done]|]. intros [] s4 [Hq4 E4].
  split; [eapply quiet_trans; [exact Hq|]; by eapply quiet_trans|]. rewrite E4. subst s3. by rewrite cache_of_put.
Qed.

Lemma wp_reclaim_one s : cache_inv s -> 0 < size -> q_mode g = CACHE_MODE_WRITETHROUGH ->
  ca_reclaiming (cache_of s) <> NOT_RECLAIMING ->
  wp (reclaim_one get_cache set_cache bs) (fun _ s' => quiet s s' /\ ca_reclaiming (cache_of s') <> NOT_RECLAIMING) s.
Proof.
  intros Hi Hsz Hm Hn. unfold reclaim_one. apply wp_bind, wp_ca_gets.
  destruct (ca_reclaiming (cache_of s)) eqn:E; [done|by apply wp_reclaim_lru; rewrite ?E|].
  eapply wp_mono; [by apply wp_reclaim_any|]. intros [] s1 [Hq E1]. split; [done|]. by rewrite E1, E.
Qed.

(** Reclaiming does not crash, ends, and changes nothing that can be
    seen. *)
Lemma wp_reclaim s : cache_inv s -> 0 < size ->
  wp (reclaim get_cache set_cache g bs) (fun _ s' => quiet s s') s.
Proof.
  intros Hi Hsz. unfold reclaim. destruct (Z.eqb_spec (q_max_size g) (-1)) as [|Hmax]; [by apply wp_ret, quiet_refl|].
  destruct (cb_reclaim Hfit) as [|(Hm & Hhi & Hlo)]; [done|]. apply wp_bind.
  eapply wp_mono; [apply wp_on_os; [done|]; intros o Ho; by apply os_calls_ok|].
  intros st s1 (_ & Hq1 & _). destruct st as [n|]; [|by apply wp_ret]. pose proof Hq1 as [[Hi1 _] _].
  assert (Hth : forall t (Q : Z -> st W -> Prop) s, q_max_size g * t <= INT64_MAX -> (forall z, Q z s) -> wp (threshold g t) Q s).
  { intros t Q s' Ht HQ. unfold threshold. rewrite (proj2 (Z.ltb_ge _ _)) by lia. by apply wp_ret. }
  apply wp_bind, wp_ca_gets, wp_bind.
  assert (Hgo : forall r, wp (ca_modify get_cache set_cache (fun c => ca_with_reclaim r (ca_reclaim_blk c) c))
    (fun _ s' => quiet s s' /\ ca_reclaiming (cache_of s') = r) s1).
  { intros r. apply wp_ca_modify. rewrite cache_of_put. split; [|done]. eapply quiet_trans; [exact Hq1|].
    apply quiet_put_reclaim; [done|]. apply (ck_reclaim (cache_of s1)), Hi1. }
  eapply (wp_mono _ (fun (go : bool) s' => quiet s s' /\ (go = true -> ca_reclaiming (cache_of s') <> NOT_RECLAIMING))).
  { destruct (ca_reclaiming (cache_of s1)) eqn:E; apply wp_bind, Hth; try done; intros z;
      (destruct (_ <? _); [|try (apply wp_ret; split; [done|by rewrite E])]); try (by apply wp_ret);
      apply wp_bind; (eapply wp_mono; [apply Hgo|]); intros [] s2 [Hq2 E2]; apply wp_ret; (split; [done|by rewrite E2]). }
  intros [] s2 [Hq2 Hn2]; [|by apply wp_ret]. specialize (Hn2 eq_refl). apply wp_bind.
  eapply wp_mono; [apply wp_reclaim_one; [apply Hq2|done..]|]. intros [] s3 [Hq3 Hn3].
  eapply wp_mono; [apply wp_reclaim_one; [apply Hq3|done..]|]. intros [] s4 [Hq4 _].
  eapply quiet_trans; [exact Hq2|]. by eapply quiet_trans.
Qed.

(** ** Reading *)

Notation agrees' := (agrees cache_disk size).

Lemma agrees_quiet s s' start data : quiet s s' -> agrees' s start data -> agrees' s' start data.
Proof. intros [Hs _]. by apply (agrees_same cache_inv cache_disk cache_settled). Qed.

(** Blocks of the layer below. *)
Lemma wp_read_plugin blk n err s :
  cache_inv s -> errno_ok err -> 0 <= blk -> 1 <= n -> (blk + n - 1) * bs < size -> n * bs <= UINT32_MAX ->
  n * bs <= l_maximum k ->
  wp (read_plugin get_cache nx (n * bs) (blk * bs) err) (fun '(r, err', block) s' =>
    quiet s s' /\ cache_of s' = cache_of s /\ fails_errno r err' /\
    (r <> -1 -> Z.of_nat (length block) = n * bs /\ agrees disk size s' (blk * bs) block)) s.
Proof.
  intros Hi He Hb Hn Hs Hu Hmax. pose proof bs_ok.
  assert (Hs0 : 0 <= blk * bs < size) by nia. unfold read_plugin. apply wp_bind, wp_ca_gets.
  rewrite (ck_size _ (proj1 (proj2 Hi))).
  destruct (beyond_end_spec k (cb_size Hfit) (blk * bs) (n * bs)) as [Hbe ->]; [done|nia|].
  pose proof (next_range bs k bs_ok blk n (cb_blksize_min Hfit) (cb_size_min Hfit) Hb Hn ltac:(nia) Hu) as Hr.
  apply wp_bind. eapply wp_mono.
  { apply (dl_pread (ReadLayer:=@dl_read _ _ _ _ _ _ (cc_next Hsep (cache_of s)))); [split; [apply Hi|done]|done|done|lia]. }
  intros [[r e] data] s' (Hsd & He' & Hdata). apply wp_ret. destruct (quiet_next s s' Hi Hsd) as [Hq Hc].
  split; [done|]. split; [done|]. split; [done|]. intros Hr1. specialize (Hdata Hr1).
  assert (Hlen : Z.of_nat (length data) = Z.min (n * bs) (size - blk * bs)) by (rewrite Hdata, length_slice by done; lia).
  split; [rewrite length_app, length_memset, Hbe; lia|].
  intros x Hx Hxs. rewrite length_app, length_memset in Hx. rewrite app_nth1 by lia. rewrite Hdata, nth_slice by (done || lia).
  rewrite (proj2 Hq). f_equal. lia.
Qed.

(** Where no block is dirty, both are the same. *)
Lemma agrees_below s start data :
  agrees disk size s start data -> (forall x, start <= x < start + Z.of_nat (length data) -> x < size -> cache_disk s x = disk s x) ->
  agrees' s start data.
Proof. intros Ha Hs x Hx Hxs. rewrite Hs by done. auto. Qed.

Lemma wp_cache_on_read s : cache_inv s -> wp (cache_on_read get_cache set_cache g) (fun _ s' => quiet s s') s.
Proof.
  intros Hi. unfold cache_on_read. destruct (q_cor_mode g); [by apply wp_ret, quiet_refl..|].
  eapply wp_mono; [apply wp_on_os; [done|]|by intros ? ? (_ & ? & _)]. intros o Ho. by apply os_calls_ok.
Qed.

Lemma quiet_settle s s' : cache_inv s -> quiet s s' -> forall x, cache_disk s x = disk s x -> cache_disk s' x = disk s' x.
Proof. intros Hi [[_ Hv] Hd] x E. destruct (Hv x I) as [-> _]. by rewrite Hd. Qed.

Lemma wp_cache_read_run blk n err s :
  cache_inv s -> errno_ok err -> 0 <= blk -> 1 <= n -> (blk + n - 1) * bs < size -> n * bs <= UINT32_MAX ->
  n * bs <= l_maximum k ->
  wp (cache_read_run get_cache set_cache g bs nx blk n err) (fun '(runblocks, (r, err', data)) s' =>
    quiet s s' /\ 1 <= runblocks <= n /\ fails_errno r err' /\
    (r <> -1 -> Z.of_nat (length data) = runblocks * bs /\ agrees' s' (blk * bs) data)) s.
Proof.
  intros Hi He Hb Hn Hs Hu Hmax. pose proof bs_ok.
  destruct (cached_block_inside s blk Hi Hb ltac:(nia)) as (Hlt & Hoff & Hget).
  unfold cache_read_run. rewrite Hoff. apply wp_bind, wp_ca_gets, wp_bind, wp_assert. split; [by apply Z.ltb_lt; lia|].
  set (cached := is_cached (ca_bm (cache_of s)) blk).
  destruct (cached_run_spec (Z.to_nat (n - 1)) (ca_bm (cache_of s)) cached (blk + 1)) as [Hrun Hall].
  set (run := 1 + cached_run (Z.to_nat (n - 1)) (ca_bm (cache_of s)) cached (blk + 1)).
  assert (Hrb : 1 <= run <= n) by lia.
  assert (Hst : forall y, blk <= y < blk + run -> negb (entry (ca_bm (cache_of s)) y =? BLOCK_NOT_CACHED) = cached).
  { intros y Hy. destruct (cached_block_inside s y Hi) as (_ & _ & <-); [lia|nia|].
    destruct (decide (y = blk)) as [-> |]; [done|]. apply Hall. lia. }
  rewrite (Z.mul_comm bs run). destruct cached eqn:Ecached; cbn [negb].
  - apply wp_bind. eapply wp_mono.
    { apply wp_file_read; [done|nia|].
      pose proof (ck_file _ (proj1 (proj2 Hi)) (blk + run - 1) ltac:(nia)). nia. }
    intros o s1 [Hq Ho]. destruct o as [errno|data].
    { apply wp_ret. split; [done|]. split; [done|]. split; [split; tauto|done]. }
    apply wp_bind. eapply wp_mono; [apply wp_access_run, Hq|]. intros [] s2 Hq2. apply wp_ret.
    assert (Hq' : quiet s s2) by (by eapply quiet_trans).
    split; [done|]. split; [done|]. split; [split; [done|lia]|]. intros _.
    split; [rewrite Ho, length_slice; nia|]. apply (agrees_quiet s); [done|]. intros x Hx Hxs.
    rewrite Ho, length_slice in Hx. rewrite Ho, nth_slice by lia.
    unfold cache_disk, cache_view. rewrite decide_True by nia.
    specialize (Hst (x / bs) ltac:(apply in_blocks; lia)). destruct (_ =? _); [done|]. f_equal. lia.
  - apply wp_bind, wp_assert. split; [apply Z.leb_le; nia|]. apply wp_bind.
    eapply wp_mono; [apply (wp_read_plugin blk run err s); (done || nia)|].
    intros [[r e1] data] s1 (Hq & Hcow & Hf & Hdata). destruct (Z.eqb_spec r (-1)) as [-> |Hr].
    { apply wp_ret. split; [done|]. split; [done|]. split; [done|]. done. }
    destruct (Hdata Hr) as [Hlen Hbelow].
    assert (Hag : agrees' s1 (blk * bs) data).
    { apply agrees_below; [done|]. intros x Hx Hxs. apply (quiet_settle s); [done|done|].
      apply not_dirty_sync; [done|nia|]. specialize (Hst (x / bs) ltac:(apply in_blocks; nia)).
      destruct (Z.eqb_spec (entry (ca_bm (cache_of s)) (x / bs)) BLOCK_NOT_CACHED) as [-> |]; done. }
    apply wp_bind. eapply wp_mono; [apply wp_cache_on_read, Hq|]. intros cor s2 Hq2.
    assert (Hq' : quiet s s2) by (by eapply quiet_trans).
    assert (Hag2 : agrees' s2 (blk * bs) data) by (by apply (agrees_quiet s1)).
    destruct cor; [|apply wp_ret; split; [done|]; split; [done|]; split; [split; [apply Hf|lia]|done]].
    apply wp_bind. eapply wp_mono.
    { apply (wp_store_clean data blk run e1 s2); try done; try nia; [apply Hq'|apply Hf|].
      intros x Hx Hxs. rewrite (proj2 Hq2). by apply Hbelow. }
    intros [r2 e2] s3 [Hq3 Hf3]. apply wp_ret. split; [by eapply quiet_trans|]. split; [done|]. split; [done|].
    intros _. split; [done|]. by apply (agrees_quiet s2).
Qed.

Lemma wp_blk_read_multiple_loop fuel : forall blk n err s,
  cache_inv s -> errno_ok err -> 0 <= blk -> 1 <= n <= Z.of_nat fuel -> (blk + n - 1) * bs < size -> n * bs <= UINT32_MAX ->
  n * bs <= l_maximum k ->
  wp (_blk_read_multiple get_cache set_cache g bs fuel nx blk n err) (fun '(r, err', data) s' =>
    quiet s s' /\ fails_errno r err' /\
    (r <> -1 -> Z.of_nat (length data) = n * bs /\ agrees' s' (blk * bs) data)) s.
Proof.
  pose proof bs_ok. induction fuel as [|fuel IH]; intros blk n err s Hi He Hb Hn Hs Hu Hmax; [lia|].
  cbn [_blk_read_multiple]. apply wp_bind. eapply wp_mono; [apply wp_cache_read_run; (done || lia)|].
  intros [run [[r e] data]] s1 (Hq & Hrun & Hf & Hdata). destruct (Z.eqb_spec r (-1)) as [-> |Hr].
  { apply wp_ret. split; [done|]. split; done. }
  destruct (Hdata Hr) as [Hlen Hag]. destruct (Z.eqb_spec run n) as [-> |Hne].
  { apply wp_ret. split; [done|]. split; [split; [apply Hf|lia]|]. done. }
  apply wp_bind. eapply wp_mono.
  { apply (IH (blk + run) (n - run) e s1); try lia; try nia; [apply Hq|apply Hf]. }
  intros [[r2 e2] rest] s2 (Hq2 & Hf2 & Hrest). apply wp_ret. split; [by eapply quiet_trans|].
  split; [done|]. intros Hr2. destruct (Hrest Hr2) as [Hlen2 Hag2]. rewrite length_app.
  split; [lia|]. apply agrees_app; [by apply (agrees_quiet s1)|].
  replace (blk * bs + Z.of_nat (length data)) with ((blk + run) * bs) by lia. done.
Qed.

Lemma wp_cache_blk_read_multiple blk n err s :
  cache_inv s -> errno_ok err -> 0 <= blk -> 1 <= n -> (blk + n - 1) * bs < size -> n * bs <= UINT32_MAX ->
  n * bs <= l_maximum k ->
  wp (cache_blk_read_multiple get_cache set_cache g bs nx blk n err) (fun '(r, err', data) s' =>
    quiet s s' /\ fails_errno r err' /\
    (r <> -1 -> Z.of_nat (length data) = n * bs /\ agrees' s' (blk * bs) data)) s.
Proof.
  intros Hi He Hb Hn Hs Hu Hmax. pose proof bs_ok. apply wp_bind. eapply wp_mono; [apply wp_reclaim; [done|nia]|].
  intros [] s1 Hq1. eapply wp_mono; [apply wp_blk_read_multiple_loop; (done || lia || apply Hq1)|].
  intros [[r e] data] s2 (Hq2 & Hf & Hdata). split; [by eapply quiet_trans|done].
Qed.

Lemma wp_cache_blk_read blk err s :
  cache_inv s -> errno_ok err -> 0 <= blk -> blk * bs < size ->
  wp (cache_blk_read get_cache set_cache g bs nx blk err) (fun '(r, err', data) s' =>
    quiet s s' /\ fails_errno r err' /\
    (r <> -1 -> Z.of_nat (length data) = 1 * bs /\ agrees' s' (blk * bs) data)) s.
Proof.
  intros Hi He Hb Hs. pose proof bs_ok. pose proof (cb_max Hfit). apply wp_cache_blk_read_multiple; (done || limits; lia).
Qed.

(** Caching does not change the contents. *)
Lemma wp_cache_blk_cache blk err s :
  cache_inv s -> errno_ok err -> 0 <= blk -> blk * bs < size ->
  wp (cache_blk_cache get_cache set_cache g bs nx blk err) (fun '(r, err') s' => quiet s s' /\ fails_errno r err') s.
Proof.
  intros Hi He Hb Hs. pose proof bs_ok. pose proof (cb_max Hfit).
  destruct (cached_block_inside s blk Hi Hb Hs) as (Hlt & Hoff & Hget).
  unfold cache_blk_cache. rewrite Hoff. apply wp_bind, wp_ca_gets. rewrite Hget. apply wp_bind.
  eapply wp_mono; [apply wp_reclaim; [done|nia]|]. intros [] s1 Hq1.
  destruct (Z.eqb_spec (entry (ca_bm (cache_of s)) blk) BLOCK_NOT_CACHED) as [E|E].
  - apply wp_bind. replace bs with (1 * bs) at 1 by lia.
    eapply wp_mono; [apply wp_read_plugin; (done || limits; lia || apply Hq1)|].
    intros [[r e] data] s2 (Hq2 & _ & Hf & Hdata). assert (Hq : quiet s s2) by (by eapply quiet_trans).
    destruct (Z.eqb_spec r (-1)) as [-> |Hr]; [by apply wp_ret|]. destruct (Hdata Hr) as [Hlen Hbelow].
    eapply wp_mono.
    { apply (wp_store_clean data blk 1 e s2); try done; try lia; [apply Hq|apply Hf|].
      apply agrees_below; [done|]. intros x Hx Hxs. apply (quiet_settle s); [done|done|].
      apply not_dirty_sync; [done|nia|]. replace (x / bs) with blk; [by rewrite E|].
      pose proof (proj2 (in_blocks x blk 1 Hb ltac:(lia)) ltac:(lia)). lia. }
    intros [r2 e2] s3 [Hq3 Hf3]. split; [by eapply quiet_trans|done].
  - apply wp_bind. eapply wp_mono; [apply wp_on_os; [apply Hq1|]; intros o Ho; by apply os_calls_ok|].
    intros r s2 (-> & Hq2 & _). rewrite (proj2 (proj2 (proj2 (proj2 (proj2 (os_calls_ok _ (ck_fadvise _ (proj1 (proj2 (proj1 (proj1 Hq1))))))))))).
    cbn [negb Z.eqb]. apply wp_bind. eapply wp_mono; [apply wp_access_run, Hq2|]. intros [] s3 Hq3. apply wp_ret.
    split; [|split; [done|lia]]. eapply quiet_trans; [exact Hq1|]. by eapply quiet_trans.
Qed.

(** ** Writing *)

Lemma wrote_quiet d count offs fua r e s1 s2 s3 :
  wrote' d count offs fua r e s1 s2 -> quiet s2 s3 -> wrote' d count offs fua r e s1 s3.
Proof.
  intros (Hu & He & Hw) [Hsd _]. split; [|split; [done|]].
  - eapply (unchanged_trans _ _ _ _ _ (fun _ => True)); [..|exact Hu|exact Hsd]; simpl; auto.
  - intros Hr x Hx. destruct (Hw Hr x Hx) as [E Hst]. destruct Hsd as [_ Hsd]. destruct (Hsd x I) as [-> Hst'].
    split; [done|]. auto.
Qed.

(** A block that was stored in the file, and below in case it is marked as
    clean. *)
Lemma stored_block data blk v s s2 f fua err :
  let d x := nth (Z.to_nat (x - blk * bs)) data 0 in
  let n := Z.min bs (size - blk * bs) in
  cache_inv s -> errno_ok err -> 0 <= blk -> blk * bs < size -> Z.of_nat (length data) = bs ->
  v = BLOCK_CLEAN \/ (v = BLOCK_DIRTY /\ q_mode g <> CACHE_MODE_WRITETHROUGH) ->
  of_data f = overwrite (of_data (ca_file (cache_of s))) data (blk * bs) -> cache_ok (ca_with_file f (cache_of s)) ->
  inv s2 -> cache_of s2 = ca_with_bm (bitmap_set_blk (ca_bm (cache_of s)) blk v) (ca_with_file f (cache_of s)) ->
  (forall x, (in_request n (blk * bs) x -> d x = disk s x) -> disk s2 x = disk s x /\ (settled s x -> settled s2 x)) ->
  (v = BLOCK_CLEAN -> forall x, in_request n (blk * bs) x -> disk s2 x = d x) ->
  (forall x, v <> BLOCK_CLEAN -> disk s2 x = disk s x /\ (settled s x -> settled s2 x)) ->
  (fua = true -> v = BLOCK_CLEAN /\ forall x, in_request n (blk * bs) x -> settled s2 x) ->
  wrote' d n (blk * bs) fua 0 err s s2.
Proof.
  intros d n Hi He Hb Hs Hlen Hv Hf Hok Hi2 Hc2 Hun Hclean Hdirty Hfua. pose proof bs_ok.
  destruct (set_run_ok _ 1 blk v Hok Hb ltac:(lia) ltac:(lia) Hv) as [Hok' Hent].
  cbn [ca_bm ca_with_file Z.to_nat Pos.to_nat Pos.iter_op set_run] in Hok', Hent.
  change (Z.to_nat 1) with 1%nat in *. cbn [set_run] in *. rewrite <- Hc2 in Hok'.
  assert (Hbm : ca_bm (cache_of s2) = bitmap_set_blk (ca_bm (cache_of s)) blk v) by (by rewrite Hc2).
  assert (Hfl : forall x, of_data (ca_file (cache_of s2)) x =
    if decide (blk * bs <= x < (blk + 1) * bs) then d x else of_data (ca_file (cache_of s)) x).
  { intros x. rewrite Hc2. cbn [ca_file ca_with_bm ca_with_file]. rewrite Hf. case_decide.
    - by rewrite overwrite_in by lia.
    - by rewrite overwrite_out by lia. }
  assert (Hreq : forall x, x < size -> (in_request n (blk * bs) x <-> blk * bs <= x < (blk + 1) * bs)).
  { intros x Hx. unfold in_request. subst n. lia. }
  assert (Hv2 : forall x, cache_disk s2 x = if decide (in_request n (blk * bs) x) then d x else cache_disk s x).
  { intros x. unfold cache_disk at 1, cache_view. rewrite Hbm. destruct (decide (0 <= x < size)) as [Hx|Hx].
    2: { rewrite decide_False by (unfold in_request; subst n; nia). unfold cache_disk, cache_view. by rewrite decide_False. }
    rewrite Hent, Hfl by lia. pose proof (Hreq x ltac:(lia)) as Hr.
    destruct (decide (blk * bs <= x < (blk + 1) * bs)) as [Hin|Hout].
    - rewrite decide_True by tauto. by destruct Hv as [-> |[-> _]].
    - rewrite decide_False by tauto. unfold cache_disk, cache_view. rewrite decide_True by done.
      destruct (Hun x) as [-> _]; [tauto|]. done. }
  assert (Hinv2 : cache_inv s2).
  { split; [done|]. split; [done|]. intros x Hx. rewrite Hbm, Hent, Hfl by lia. pose proof (Hreq x ltac:(lia)) as Hr.
    destruct (decide (blk * bs <= x < (blk + 1) * bs)) as [Hin|Hout].
    - intros E. symmetry. apply Hclean; tauto.
    - destruct (Hun x) as [-> _]; [tauto|]. by apply Hi. }
  assert (Hsettled : forall x, (in_request n (blk * bs) x -> d x = cache_disk s x) -> cache_settled s x -> cache_settled s2 x).
  { intros x Hx [Hst|[Hst|[Hd Hst]]]; [by left|right; by left|right; right]. rewrite Hv2.
    destruct (Hun x) as [Ed Hst2]; [intros Hr; by rewrite (Hx Hr)|]. rewrite Ed. split; [|auto].
    case_decide as Hr; [|done]. by rewrite (Hx Hr). }
  split; [|split; [split; [done|lia]|]].
  - split; [done|]. intros x Hx. split; [|auto]. rewrite Hv2. case_decide as Hr; [by rewrite (Hx Hr)|done].
  - intros _ x Hx. rewrite Hv2, decide_True by done. split; [done|]. intros Hfu. destruct (Hfua Hfu) as [Ev Hst].
    right. right. rewrite Hv2, decide_True by done. split; [by apply Hclean|by apply Hst].
Qed.

(** Writing to the file only. *)
Lemma wp_write_back data blk fua err s :
  cache_inv s -> errno_ok err -> 0 <= blk -> blk * bs < size -> Z.of_nat (length data) = bs ->
  q_mode g <> CACHE_MODE_WRITETHROUGH -> fua = false ->
  wp (w ← file_write get_cache set_cache data bs (blk * bs);
      match w with
      | Some errno => mret (-1, errno)
      | None =>
          ca_modify get_cache set_cache (fun c => ca_with_bm (bitmap_set_blk (ca_bm c) blk BLOCK_DIRTY) c);;
          access_run get_cache set_cache 1 blk;;
          mret (0, err)
      end) (fun '(r, err') s' =>
    wrote' (fun x => nth (Z.to_nat (x - blk * bs)) data 0) (Z.min bs (size - blk * bs)) (blk * bs) fua r err' s s') s.
Proof.
  intros Hi He Hb Hs Hlen Hm ->. pose proof bs_ok. apply wp_bind.
  eapply wp_mono; [apply (wp_file_write data _ _ s); [done|lia|done]|]. intros o s1 (f & -> & Hok & Ho).
  destruct o as [errno|].
  { apply wp_ret, wrote_unchanged; [apply Ho|]. split; tauto. }
  apply wp_bind, wp_ca_modify. rewrite cache_of_put. cbn [ca_bm ca_with_file].
  set (s2 := put_cache _ _). apply wp_bind.
  assert (Hd : forall x, disk s2 x = disk s x /\ (settled s x -> settled s2 x)).
  { intros x. subst s2. rewrite !(cc_disk Hsep). by rewrite !(cc_settled Hsep). }
  assert (Hw : wrote' (fun x => nth (Z.to_nat (x - blk * bs)) data 0) (Z.min bs (size - blk * bs)) (blk * bs) false 0 err s s2).
  { apply (stored_block data blk BLOCK_DIRTY s s2 f); try done; try (by intros x _; apply Hd).
    - by right.
    - subst s2. do 2 apply Hsep. apply Hi.
    - subst s2. by rewrite cache_of_put. }
  eapply wp_mono; [apply wp_access_run, Hw|]. intros [] s3 Hq3. apply wp_ret. by eapply wrote_quiet.
Qed.

(** A block that was stored in the file, but that the layer below failed to
    store; the disk had the data already. *)
Lemma store_failed data blk s s2 f fua err :
  let d x := nth (Z.to_nat (x - blk * bs)) data 0 in
  let n := Z.min bs (size - blk * bs) in
  cache_inv s -> fails_errno (-1) err -> 0 <= blk -> Z.of_nat (length data) = bs -> agrees' s (blk * bs) data ->
  of_data f = overwrite (of_data (ca_file (cache_of s))) data (blk * bs) -> cache_ok (ca_with_file f (cache_of s)) ->
  inv s2 -> cache_of s2 = ca_with_file f (cache_of s) ->
  (forall x, (in_request n (blk * bs) x -> d x = disk s x) -> disk s2 x = disk s x /\ (settled s x -> settled s2 x)) ->
  wrote' d n (blk * bs) fua (-1) err s s2.
Proof.
  intros d n Hi He Hb Hlen Hagree Ho Hok Hi2 Hc2 Hun. pose proof bs_ok.
  assert (Hfile : forall x, 0 <= x < size -> of_data f x =
    if decide (in_request n (blk * bs) x) then d x else of_data (ca_file (cache_of s)) x).
  { intros x Hx. rewrite Ho. unfold in_request. subst n. case_decide.
    - by rewrite overwrite_in by lia.
    - by rewrite overwrite_out by lia. }
  assert (Hag : forall x, 0 <= x < size -> in_request n (blk * bs) x -> d x = cache_disk s x).
  { intros x Hx Hin. apply Hagree; [|lia]. unfold in_request in Hin. subst n. lia. }
  (* bytes that are not dirty stay as they are below *)
  assert (Hsame : forall x, 0 <= x < size -> cache_disk s x = disk s x -> disk s2 x = disk s x).
  { intros x Hx E. apply Hun. intros Hin. rewrite <- E. by apply Hag. }
  assert (Hv2 : forall x, cache_disk s2 x = cache_disk s x).
  { intros x. unfold cache_disk at 1, cache_view. rewrite Hc2. cbn [ca_bm ca_file ca_with_file].
    destruct (decide (0 <= x < size)) as [Hx|Hx]; [|unfold cache_disk, cache_view; by rewrite decide_False].
    rewrite Hfile by done. destruct (Z.eqb_spec (entry (ca_bm (cache_of s)) (x / bs)) BLOCK_NOT_CACHED) as [E|E].
    - assert (Hv : cache_disk s x = disk s x) by (apply not_dirty_sync; [done|done|by rewrite E]).
      rewrite Hv. by apply Hsame.
    - case_decide; [by apply Hag|]. unfold cache_disk, cache_view. rewrite decide_True by done.
      by rewrite (proj2 (Z.eqb_neq _ _) E). }
  split; [split|split; [done|done]].
  - split; [done|]. rewrite Hc2. split; [done|]. intros x Hx E. cbn [ca_bm ca_file ca_with_file] in *.
    assert (Hv : cache_disk s x = disk s x) by (apply not_dirty_sync; [done|done|by rewrite E]).
    rewrite Hfile, Hsame by done. case_decide; [by rewrite Hag|by apply Hi].
  - intros x Hx. split; [done|]. intros [Hst|[Hst|[E Hst]]]; [by left|right; by left|right; right].
    rewrite Hv2. destruct (Hun x) as [E2 Hst2]; [intros Hin; rewrite E; by apply Hx|]. rewrite E2. auto.
Qed.

(** Writing through.  Unless writes to the layer below succeed, this is for
    data that the disk has already. *)
Lemma wp_blk_writethrough data blk flags err s :
  let d x := nth (Z.to_nat (x - blk * bs)) data 0 in
  let n := Z.min bs (size - blk * bs) in
  cache_inv s -> errno_ok err -> 0 <= blk -> blk * bs < size -> Z.of_nat (length data) = bs -> write_flags k flags ->
  writes_succeed \/ agrees' s (blk * bs) data ->
  wp (blk_writethrough get_cache set_cache g bs nx blk data flags err) (fun '(r, err') s' =>
    wrote' d n (blk * bs) (has flags NBDKIT_FLAG_FUA) r err' s s' /\
    (forall x, (in_request n (blk * bs) x -> d x = disk s x) -> disk s' x = disk s x) /\
    (r <> -1 -> forall x, in_request n (blk * bs) x -> disk s' x = d x)) s.
Proof.
  intros d n Hi He Hb Hs Hlen Hfl Hsucc. pose proof bs_ok.
  destruct (cached_block_inside s blk Hi Hb Hs) as (_ & Hoff & _).
  unfold blk_writethrough. rewrite Hoff. apply wp_bind, wp_ca_gets. rewrite (ck_size _ (proj1 (proj2 Hi))).
  destruct (beyond_end_spec k (cb_size Hfit) (blk * bs) bs) as [_ Hn]; [lia|limits; lia|]. rewrite Hn. fold n.
  pose proof (next_range bs k bs_ok blk 1 (cb_blksize_min Hfit) (cb_size_min Hfit) Hb ltac:(lia) Hs ltac:(limits; lia)) as Hrange.
  rewrite Z.mul_1_l in Hrange. fold n in Hrange.
  apply wp_bind. eapply wp_mono; [apply wp_reclaim; [done|nia]|]. intros [] s1 Hq1.
  assert (Hi1 : cache_inv s1) by apply Hq1. apply wp_bind.
  eapply wp_mono; [apply (wp_file_write data _ _ s1); [done|lia|done]|]. intros o s2 (f & -> & Hok & Ho).
  destruct o as [errno|].
  { destruct Ho as (Hne & Hoke & Hq2). assert (Hq : quiet s (put_cache (ca_with_file f (cache_of s1)) s1)) by (by eapply quiet_trans).
    apply wp_ret. split; [apply wrote_unchanged; [apply Hq|by split]|]. split; [|done]. intros x _. by rewrite (proj2 Hq). }
  set (c1 := ca_with_file f (cache_of s1)) in *. set (s2 := put_cache c1 s1).
  assert (Hs2 : inv s2 /\ cache_of s2 = c1) by (split; [apply Hsep, Hi1|apply cache_of_put]).
  assert (Hd2 : forall x, disk s2 x = disk s x) by (intros x; subst s2; rewrite (cc_disk Hsep); by apply Hq1).
  assert (Hst2 : forall x, settled s2 x <-> settled s1 x) by (intros x; apply Hsep).
  assert (Htake : forall x, in_request n (blk * bs) x -> overwrite (disk s2) (take (Z.to_nat n) data) (blk * bs) x = d x).
  { intros x Hx. unfold in_request in Hx. subst n. rewrite overwrite_in by (rewrite length_take; lia).
    subst d. cbv beta. rewrite !nth_lookup, lookup_take_lt by lia. done. }
  assert (Hlt : length (take (Z.to_nat n) data) = Z.to_nat n) by (rewrite length_take; subst n; lia).
  assert (Hmax : n <= l_maximum k) by (pose proof (cb_max Hfit); subst n; lia).
  apply wp_bind. eapply (wp_mono _ (fun '(r, err') s' =>
    (wrote (fun s => inv s /\ cache_of s = c1) disk settled (overwrite (disk s2) (take (Z.to_nat n) data) (blk * bs))
      n (blk * bs) (has flags NBDKIT_FLAG_FUA) r err' s2 s') /\ (r = -1 -> agrees' s (blk * bs) data))).
  { destruct Hsucc as [Hsucc|Hag].
    - eapply wp_mono; [apply wp_and; [apply (dl_pwrite (DiskLayer:=cc_next Hsep c1)); done|by apply Hsucc; try apply Hs2]|].
      intros [r e] s3 [Hw Hne]. split; [done|]. by intros ->.
    - eapply wp_mono; [apply (dl_pwrite (DiskLayer:=cc_next Hsep c1)); done|]. intros [r e] s3 Hw. by split. }
  intros [r e] s3 [([[Hi3 Hc3] Hu3] & Hf3 & Hw3) Hfail].
  assert (Hun : forall x, (in_request n (blk * bs) x -> d x = disk s x) -> disk s3 x = disk s x /\ (settled s1 x -> settled s3 x)).
  { intros x Hx. destruct (Hu3 x) as [E Hst]; [intros Hr; rewrite Htake, Hd2 by done; auto|].
    rewrite E, Hd2. split; [done|]. rewrite Hst2 in Hst. done. }
  assert (Hd1 : forall x, disk s1 x = disk s x) by (intros x; by apply Hq1).
  destruct (Z.eqb_spec r (-1)) as [-> |Hr].
  - apply wp_ret. specialize (Hfail eq_refl). split; [|split; [intros x Hx; by apply Hun|done]].
    apply (wrote_same_l _ _ _ _ _ _ _ _ _ s s1 s3); [apply Hq1|].
    apply (store_failed data blk s1 s3 f); try done; [by apply (agrees_quiet s)|].
    intros x Hx. destruct (Hun x) as [E Hst]; [by setoid_rewrite <- Hd1|]. by rewrite E, Hd1.
  - apply wp_bind, wp_ca_modify. rewrite Hc3. set (s4 := put_cache _ s3).
    assert (Hd4 : forall x, disk s4 x = disk s3 x) by (intros x; apply Hsep).
    assert (Hw : wrote' d n (blk * bs) (has flags NBDKIT_FLAG_FUA) 0 e s1 s4).
    { apply (stored_block data blk BLOCK_CLEAN s1 s4 f); try done.
      - apply Hf3.
      - by left.
      - apply Hsep, Hi3.
      - subst s4. by rewrite cache_of_put.
      - intros x Hx. rewrite Hd4, Hd1. destruct (Hun x) as [E3 Hst3]; [by setoid_rewrite <- Hd1|].
        split; [done|]. intros Hst. apply Hsep. auto.
      - intros _ x Hx. change (disk s4 x = d x). rewrite Hd4, <- (Htake x Hx). by apply Hw3.
      - intros Hfu. split; [done|]. intros x Hx. apply Hsep. by apply Hw3. }
    apply wp_bind. eapply wp_mono; [apply wp_access_run, Hw|]. intros [] s5 Hq5. apply wp_ret.
    split; [|split].
    + eapply wrote_same_l; [apply Hq1|]. by eapply wrote_quiet.
    + intros x Hx. rewrite (proj2 Hq5), Hd4. by apply Hun.
    + intros _ x Hx. rewrite (proj2 Hq5), Hd4, <- (Htake x Hx). by apply Hw3.
Qed.

(** The flags of the writes of blocks: without FUA, if the request ends with
    a flush. *)
Definition block_flags (flags : Z) : Prop :=
  write_flags k flags /\ (has flags NBDKIT_FLAG_FUA = true -> q_mode g <> CACHE_MODE_UNSAFE /\ through_fua).

Lemma cache_writes flags : block_flags flags ->
  writes cache_inv cache_disk cache_settled bs size (has flags NBDKIT_FLAG_FUA) (cache_blk_write get_cache set_cache g bs nx flags).
Proof.
  intros [Hfl Hfua] blk data err s Hi He Hb Hs Hlen. unfold cache_blk_write. pose proof bs_ok.
  destruct (cached_block_inside s blk Hi Hb Hs) as (_ & -> & _).
  assert (Hthrough : writes_succeed -> wp (blk_writethrough get_cache set_cache g bs nx blk data flags err) (fun '(r, err') s' =>
    wrote' (fun x => nth (Z.to_nat (x - blk * bs)) data 0) (Z.min bs (size - blk * bs)) (blk * bs)
      (has flags NBDKIT_FLAG_FUA) r err' s s') s).
  { intros Hw. eapply wp_mono; [apply (wp_blk_writethrough data blk flags err s); auto|]. intros [r e] s' [Hw' _]. done. }
  destruct (q_mode g) eqn:Hm; [destruct (has flags NBDKIT_FLAG_FUA) eqn:Hf| |destruct (has flags NBDKIT_FLAG_FUA) eqn:Hf].
  - apply Hthrough, (cb_writes Hfit). right. split; [done|]. by apply Hfua.
  - apply wp_bind. eapply wp_mono; [apply wp_reclaim; [done|nia]|]. intros [] s1 Hq1.
    eapply wp_mono; [apply (wp_write_back data blk false); try done; [apply Hq1|by rewrite Hm]|]. intros [r e] s2 Hw.
    eapply wrote_same_l; [apply Hq1|done].
  - apply Hthrough, (cb_writes Hfit). by left.
  - by destruct (Hfua eq_refl).
  - apply wp_bind. eapply wp_mono; [apply wp_reclaim; [done|nia]|]. intros [] s1 Hq1.
    eapply wp_mono; [apply (wp_write_back data blk false); try done; [apply Hq1|by rewrite Hm]|]. intros [r e] s2 Hw.
    eapply wrote_same_l; [apply Hq1|done].
Qed.

Lemma cache_reads : reads cache_inv cache_disk cache_settled bs size (cache_blk_read get_cache set_cache g bs nx).
Proof.
  intros blk err s Hi He Hb Hs. eapply wp_mono; [by apply wp_cache_blk_read|].
  intros [[r e] data] s' ([Hq Hd] & Hf & Hdata). done.
Qed.

Lemma cache_reads_multiple :
  reads_multiple cache_inv cache_disk cache_settled bs size (l_maximum k) (cache_blk_read_multiple get_cache set_cache g bs nx).
Proof.
  intros blk n err s Hi He Hb Hn Hs Hu Hmax. eapply wp_mono; [by apply wp_cache_blk_read_multiple|].
  intros [[r e] data] s' ([Hq Hd] & Hf & Hdata). done.
Qed.

Lemma cache_allocates : allocates cache_inv cache_disk cache_settled (on_os get_cache set_cache os_malloc).
Proof. intros s Hi. eapply wp_mono; [by apply wp_malloc|]. intros b s' Hq. apply Hq. Qed.

(** ** Flushing *)

(** Before block [b]: as long as there was no error, the blocks before it
    are what the layer below contains. *)
Record flushing (s0 : st W) (b : Z) (d : flush_data) (s : st W) : Prop := Flushing {
  fl_same : same s0 s;
  fl_errors : 0 <= fd_errors d <= b;
  fl_errno : errno_ok (fd_first_errno d);
  fl_first : fd_errors d <> 0 -> fd_first_errno d <> 0;
  fl_synced : fd_errors d = 0 -> forall x, 0 <= x < size -> x < b * bs -> cache_disk s x = disk s x;
}.

Lemma flushing_after s0 b b' d s s' r err :
  flushing s0 b d s -> fails_errno r err -> b <= b' -> (r = -1 -> b < b') -> b' <= UINT32_MAX -> same s s' ->
  (fd_errors d = 0 -> r <> -1 -> forall x, 0 <= x < size -> x < b' * bs -> cache_disk s' x = disk s' x) ->
  flushing s0 b' (fd_after d r err) s'.
Proof.
  intros [Hsd He Hok Hf Hs] [Hoke Hne] Hb Hb' Hmax Hsd' Hs'. unfold fd_after.
  destruct (Z.eqb_spec r (-1)) as [-> |Hr], (Z.eqb_spec (fd_errors d) 0) as [E|E];
    split; simpl; rewrite ?u32_small by (limits; lia); try done; try lia; auto; by eapply same_disk_trans.
Qed.

Lemma fd_err_ok s0 b d s : flushing s0 b d s -> errno_ok (fd_err d).
Proof. intros [_ _ Hok _ _]. unfold fd_err. destruct (_ =? _); [done|apply errno_ok_0]. Qed.

(** Writing what the disk has already. *)
Lemma wrote_same d count offs fua r err s s' :
  wrote' d count offs fua r err s s' -> (forall x, in_request count offs x -> d x = cache_disk s x) -> same s s'.
Proof. intros (Hu & _ & _) Hd. eapply unchanged_mono; [|exact Hu]. simpl. auto. Qed.

Lemma wp_flush_dirty_block s0 b d s :
  flushing s0 b d s -> cache_inv s -> 0 <= b -> b * bs < size ->
  wp (flush_dirty_block get_cache set_cache g bs nx b d) (fun '(r, d') s' => r = 0 /\ flushing s0 (b + 1) d' s') s.
Proof.
  intros Hfl Hi Hb Hs. pose proof bs_ok. pose proof limit_bounds. destruct (cached_block_inside s b Hi Hb Hs) as (Hlt & _ & _).
  unfold flush_dirty_block. apply wp_bind.
  eapply wp_mono; [apply wp_cache_blk_read; [done|by eapply fd_err_ok|done..]|].
  intros [[r e] data] s1 (Hq1 & Hf1 & Hdata). destruct (Z.eqb_spec r (-1)) as [-> |Hr].
  { apply wp_ret. split; [done|]. apply (flushing_after s0 b (b + 1) d s s1); try done; try (limits; lia). apply Hq1. }
  destruct (Hdata Hr) as [Hlen Hag]. rewrite Z.mul_1_l in Hlen.
  assert (Hfl1 : flushing s0 b (fd_after d r e) s1).
  { apply (flushing_after s0 b b d s s1); try done; try (limits; lia); [apply Hq1|]. intros E _ x Hx Hxb.
    apply (quiet_settle s); [done|done|]. by apply (fl_synced _ _ _ _ Hfl). }
  set (d1 := fd_after d r e) in *. apply wp_bind.
  eapply wp_mono; [apply (wp_blk_writethrough data b 0); [apply Hq1|by eapply fd_err_ok|done..|apply write_flags_0|by right]|].
  intros [r2 e2] s2 (Hw & Hout & Hin). apply wp_ret. split; [done|].
  assert (Hag' : forall x, in_request (Z.min bs (size - b * bs)) (b * bs) x -> nth (Z.to_nat (x - b * bs)) data 0 = cache_disk s1 x).
  { intros x Hx. unfold in_request in Hx. apply Hag; lia. }
  assert (Hsd : same s1 s2) by (by eapply wrote_same).
  apply (flushing_after s0 b (b + 1) d1 s1 s2); try done; try (limits; lia); [apply Hw|].
  intros E Hr2 x Hx Hxb. destruct (proj2 Hsd x I) as [Ev _]. rewrite Ev.
  destruct (decide (in_request (Z.min bs (size - b * bs)) (b * bs) x)) as [Hi'|Hi'].
  - rewrite (Hin Hr2 x Hi'). symmetry. by apply Hag'.
  - rewrite (Hout x) by tauto. apply (fl_synced _ _ _ _ Hfl1 E); [done|]. unfold in_request in Hi'. lia.
Qed.

Lemma wp_flush_blocks fuel : forall s0 b d s,
  flushing s0 b d s -> 0 <= b <= blocks_limit -> blocks_limit - b <= Z.of_nat fuel ->
  wp (for_each_dirty_block get_cache fuel (flush_dirty_block get_cache set_cache g bs nx) b d)
    (fun '(_, d') s' => flushing s0 blocks_limit d' s') s.
Proof.
  pose proof bs_ok. induction fuel as [|fuel IH]; intros s0 b d s Hfl Hb Hf; cbn [for_each_dirty_block];
    pose proof (proj1 (fl_same _ _ _ _ Hfl)) as Hi; pose proof (proj1 (proj2 Hi)) as Hc; apply wp_bind, wp_ca_gets;
    change (b_size (ca_bm (cache_of s)) * b_ibpb (ca_bm (cache_of s))) with (b_limit (ca_bm (cache_of s)));
    rewrite (ck_limit _ Hc);
    (destruct (Z.ltb_spec b blocks_limit); [|apply wp_ret; by replace blocks_limit with b by lia]); [lia|].
  apply wp_bind. rewrite bitmap_get_blk_entry, (proj2 (Z.leb_gt _ _)) by (rewrite ?(ck_limit _ Hc); (apply Hc || lia)).
  eapply (wp_mono _ (fun '(r, d') s' => r = 0 /\ flushing s0 (b + 1) d' s')).
  { destruct (Z.eqb_spec (entry (ca_bm (cache_of s)) b) BLOCK_DIRTY) as [E|E].
    - apply wp_flush_dirty_block; [done|done|lia|]. destruct (decide (b * bs < size)) as [|Hn]; [done|].
      rewrite (ck_beyond _ Hc) in E by lia. done.
    - apply wp_ret. split; [done|]. destruct Hfl as [H1 H2 H3 H4 H5]. split; try done; [lia|].
      intros E0 x Hx Hxb. destruct (decide (x < b * bs)); [by apply H5|]. apply not_dirty_sync; [done|done|].
      replace (x / bs) with b; [done|]. pose proof (proj2 (in_blocks x b 1 ltac:(lia) ltac:(lia)) ltac:(lia)). lia. }
  intros [r d'] s' [-> Hfl']. cbn [Z.eqb]. apply (IH s0 (b + 1)); (done || lia).
Qed.

Lemma wp_flush_all err s : cache_inv s -> errno_ok err ->
  wp (flush_all get_cache set_cache g bs nx 0 err) (fun '(r, err') s' =>
    same s s' /\ fails_errno r err' /\ (r <> -1 -> forall x, cache_settled s' x)) s.
Proof.
  intros Hi He. pose proof bs_ok. pose proof limit_bounds. unfold flush_all. apply wp_bind, wp_assert. split; [done|].
  apply wp_bind. eapply wp_mono; [by apply wp_malloc|]. intros [] s1 Hq1; cbn [negb].
  2: { apply wp_ret. split; [apply Hq1|]. split; [by apply fails_errno_const|done]. }
  apply wp_bind, wp_ca_gets. rewrite (ck_limit _ (proj1 (proj2 (proj1 (proj1 Hq1))))). apply wp_bind.
  eapply wp_mono.
  { apply (wp_flush_blocks _ s 0 (FlushData 0 0) s1); [|lia..]. split; simpl; try done; [apply Hq1|lia]. }
  intros [? d] s2 Hfl. apply wp_bind. pose proof (proj1 (fl_same _ _ _ _ Hfl)) as Hi2. eapply wp_mono.
  { apply (dl_flush (DiskLayer:=cc_next Hsep (cache_of s2))); [split; [apply Hi2|done]|by eapply fd_err_ok]. }
  intros [r e] s3 (Hsd3 & Hf3 & Hst3). destruct (quiet_next s2 s3 Hi2 Hsd3) as [Hq3 _].
  assert (Hend : flushing s (blocks_limit + 1) (fd_after d r e) s3).
  { apply (flushing_after s blocks_limit _ d s2); try done; try (limits; lia); [apply Hq3|].
    intros E _ x Hx _. apply (quiet_settle s2); [done|done|]. apply (fl_synced _ _ _ _ Hfl E); [done|lia]. }
  apply wp_ret. pose proof (fl_errors _ _ _ _ Hend). destruct (Z.ltb_spec 0 (fd_errors (fd_after d r e))) as [Hp|Hz].
  { split; [apply Hend|]. split; [split; [apply Hend|]; intros _; apply Hend; lia|done]. }
  split; [apply Hend|]. split; [split; [done|lia]|]. intros _ x. right.
  destruct (decide (0 <= x < size)) as [Hx|Hx]; [right|by left].
  split; [symmetry; apply (fl_synced _ _ _ _ Hend); [lia|done|lia]|]. apply Hst3. intros ->.
  unfold fd_after in *. cbn [Z.eqb Pos.eqb fd_errors] in *. pose proof (fl_errors _ _ _ _ Hfl).
  rewrite u32_small in * by (limits; lia). lia.
Qed.

Lemma wp_cache_flush err s : cache_inv s -> errno_ok err ->
  wp (cache_flush get_cache set_cache g bs nx 0 err) (fun '(r, err') s' =>
    same s s' /\ fails_errno r err' /\ (r <> -1 -> forall x, cache_settled s' x)) s.
Proof.
  intros Hi He. unfold cache_flush. destruct (q_mode g) eqn:Hm; [by apply wp_flush_all..|].
  apply wp_ret. split; [by apply unchanged_refl|]. split; [split; [done|lia]|]. intros _ x. by left.
Qed.

(** ** Requests *)

Definition cache_limits : layer_limits :=
  LayerLimits size (l_minimum k) (l_maximum k)
    (match q_mode g with CACHE_MODE_UNSAFE => NBDKIT_FUA_NATIVE | _ => l_can_fua k end) true.

(** With [cache=unsafe] more flags are accepted than below. *)
Lemma cache_write_flags flags : write_flags cache_limits flags -> write_flags k flags.
Proof.
  intros [H1 H2]. split; [done|]. intros Hf. specialize (H2 Hf). unfold cache_limits in H2. cbn [l_can_fua] in H2.
  destruct (q_mode g) eqn:Hm; [done|done|]. by apply (cb_unsafe Hfit).
Qed.

Lemma wp_cache_can_fua s : cache_inv s ->
  wp (cache_can_fua g nx) (fun r s' => r = l_can_fua cache_limits /\ quiet s s') s.
Proof.
  intros Hi. unfold cache_can_fua, cache_limits. cbn [l_can_fua].
  destruct (q_mode g); [| |apply wp_ret; split; [done|by apply quiet_refl]];
    (eapply wp_mono; [apply (dl_can_fua (DiskLayer:=cc_next Hsep (cache_of s))); split; [apply Hi|done]|]);
    intros r s' [-> Hsd]; (split; [done|]); by apply quiet_next.
Qed.

Lemma wp_cache_fua flags s : cache_inv s -> write_flags k flags ->
  wp (cache_fua g nx flags) (fun '(flags', need_flush) s' =>
    quiet s s' /\ block_flags flags' /\ (need_flush = false -> has flags' NBDKIT_FLAG_FUA = has flags NBDKIT_FLAG_FUA)) s.
Proof.
  intros Hi Hfl. unfold cache_fua. destruct (has flags NBDKIT_FLAG_FUA) eqn:Hf.
  2: { apply wp_ret. split; [by apply quiet_refl|]. split; [split; [done|by rewrite Hf]|done]. }
  apply wp_bind. eapply (wp_mono _ (fun (emulate : bool) s' => quiet s s' /\
    (emulate = false -> q_mode g <> CACHE_MODE_UNSAFE /\ l_can_fua k <> NBDKIT_FUA_EMULATE))).
  { destruct (q_mode g); [| |apply wp_ret; split; [by apply quiet_refl|done]]; apply wp_bind;
      (eapply wp_mono; [apply (dl_can_fua (DiskLayer:=cc_next Hsep (cache_of s))); split; [apply Hi|done]|]);
      intros r s' [-> Hsd]; apply wp_ret; (split; [by apply quiet_next|]); intros E; apply Z.eqb_neq in E; done. }
  intros [] s' [Hq Hm]; apply wp_ret; (split; [done|]).
  - split; [split; [by apply write_flags_clear|by rewrite has_clear_same]|done].
  - specialize (Hm eq_refl) as [Hm He]. split; [split; [done|]|done]. intros _. split; [done|]. split; [|done].
    by apply (proj2 Hfl).
Qed.

(** A request that writes, and the flush after it. *)
Lemma wp_with_flush D count offs flags request s :
  cache_inv s -> write_flags k flags ->
  (forall flags' s', quiet s s' -> block_flags flags' ->
     wp (request flags') (fun '(r, err') s'' => wrote' D count offs (has flags' NBDKIT_FLAG_FUA) r err' s' s'') s') ->
  wp (with_flush get_cache set_cache g bs nx flags request) (fun '(r, err') s' =>
    wrote' D count offs (has flags NBDKIT_FLAG_FUA) r err' s s') s.
Proof.
  intros Hi Hfl Hreq. apply wp_bind. eapply wp_mono; [by apply wp_cache_fua|].
  intros [flags' need] s1 (Hq1 & Hb & Hneed). apply wp_bind. eapply wp_mono; [by apply Hreq|].
  intros [r e] s2 Hw. apply (wrote_same_l _ _ _ _ _ _ _ _ _ s) in Hw; [|apply Hq1].
  destruct (Z.eqb_spec r (-1)) as [-> |Hr]; [apply wp_ret; by eapply wrote_error|].
  destruct need; [|apply wp_ret; rewrite <- (Hneed eq_refl); by eapply wrote_result].
  eapply wp_mono; [apply wp_cache_flush; apply Hw|]. intros [r3 e3] s3 (Hsd3 & Hf3 & Hall3).
  assert (Hw3 : wrote' D count offs true r3 e3 s s3) by (by eapply wrote_flushed).
  destruct (has flags NBDKIT_FLAG_FUA); [done|]. destruct Hw3 as (Hu & Hf & Hd). split; [done|]. split; [done|].
  intros Hr3 x Hx. split; [by apply Hd|done].
Qed.

Lemma cache_pread_correct count offs err s :
  cache_inv s -> errno_ok err -> 0 <= offs -> 0 < count <= UINT32_MAX -> offs + count <= size -> count <= l_maximum k ->
  wp (cache_pread get_cache set_cache g bs nx count offs 0 err) (fun '(r, err', buf) s' =>
    same s s' /\ fails_errno r err' /\ (r <> -1 -> buf = slice (cache_disk s) offs count)) s.
Proof.
  intros Hi He Ho Hc Hle Hmax. unfold cache_pread. apply wp_bind, wp_assert. split; [done|].
  apply (wp_with_block cache_inv cache_disk cache_settled bs size (cb_blksize Hfit) (cb_size Hfit) _ cache_allocates); [done|..].
  { intros s' Hsd. split; [done|]. split; [by apply fails_errno_const|done]. }
  intros block s0 Hsd0 Hblock. eapply wp_mono.
  { apply (pread_request_correct _ _ _ bs size _ (cb_blksize Hfit) (cb_size Hfit) _ cache_reads _ cache_reads_multiple); try done. apply Hsd0. }
  intros [[r e] buf] s' (Hsd & Hf & Hbuf). split; [eapply same_disk_trans; [exact Hsd0|exact Hsd]|]. split; [done|].
  intros Hr. rewrite Hbuf by done. by apply (same_disk_slice cache_inv cache_disk cache_settled).
Qed.

Lemma cache_pwrite_correct buf count offs flags err s :
  cache_inv s -> errno_ok err -> 0 <= offs -> 0 < count <= UINT32_MAX -> offs + count <= size ->
  length buf = Z.to_nat count -> write_flags k flags ->
  wp (cache_pwrite get_cache set_cache g bs nx buf count offs flags err) (fun '(r, err') s' =>
    wrote' (overwrite (cache_disk s) buf offs) count offs (has flags NBDKIT_FLAG_FUA) r err' s s') s.
Proof.
  intros Hi He Ho Hc Hle Hlen Hfl. unfold cache_pwrite.
  apply (wp_with_block cache_inv cache_disk cache_settled bs size (cb_blksize Hfit) (cb_size Hfit) _ cache_allocates); [done|..].
  { intros s' Hsd. apply wrote_unchanged; [done|by apply fails_errno_const]. }
  intros block s0 Hsd0 Hblock. eapply (wp_mono _ (fun '(r, err') s' =>
    wrote' (overwrite (cache_disk s) buf offs) count offs (has flags NBDKIT_FLAG_FUA) r err' s0 s')).
  2: { intros [r e] s' Hw. by eapply wrote_same_l. }
  apply wp_with_flush; [apply Hsd0|done|]. intros flags' s1 Hq1 Hb. eapply wp_mono.
  { apply (pwrite_request_correct _ _ _ bs size (cb_blksize Hfit) _ cache_reads _ _ (cache_writes flags' Hb)); try done. apply Hq1. }
  intros [r e] s' Hw. eapply wrote_ext; [|exact Hw]. intros x _. apply overwrite_ext.
  destruct (proj2 (proj1 Hq1) x I) as [-> _]. by apply Hsd0.
Qed.

Lemma cache_zero_correct count offs flags err s :
  cache_inv s -> errno_ok err -> 0 <= offs -> 0 < count <= UINT32_MAX -> offs + count <= size ->
  zero_flags cache_limits flags ->
  wp (cache_zero get_cache set_cache g bs nx count offs flags err) (fun '(r, err') s' =>
    wrote' (fun _ => 0) count offs (has flags NBDKIT_FLAG_FUA) r (zero_err flags r err') s s') s.
Proof.
  intros Hi He Ho Hc Hle Hfl. unfold cache_zero. destruct (has flags NBDKIT_FLAG_FAST_ZERO) eqn:Hfast.
  { apply wp_ret. rewrite zero_err_fast by done. apply wrote_unchanged; [by apply unchanged_refl|by apply fails_errno_const]. }
  destruct (zero_write_flags _ _ Hfl Hfast) as [Hwf Hsame]. apply cache_write_flags in Hwf. rewrite <- Hsame.
  apply wp_bind. eapply wp_mono; [by apply wp_malloc|]. intros [] s0 Hq0; cbn [negb].
  2: { apply wp_ret, wrote_zero_err, wrote_unchanged; [apply Hq0|by apply fails_errno_const]. }
  eapply (wp_mono _ (fun '(r, err') s' =>
    wrote' (fun _ => 0) count offs (has (clear flags NBDKIT_FLAG_MAY_TRIM) NBDKIT_FLAG_FUA) r err' s0 s')).
  2: { intros [r e] s' Hw. apply wrote_zero_err. eapply wrote_same_l; [apply Hq0|done]. }
  apply wp_with_flush; [apply Hq0|done|]. intros flags' s1 Hq1 Hb.
  apply (zero_request_correct _ _ _ bs size (cb_blksize Hfit) _ cache_reads _ _ (cache_writes flags' Hb)); try done; [apply Hq1|by left|].
  apply zero_blocks; [apply Hfit|by apply cache_writes].
Qed.

Lemma wp_blk_cache_loop fuel : forall remaining blk err s,
  cache_inv s -> errno_ok err -> 0 <= blk -> 0 <= remaining <= Z.of_nat fuel -> (bs | remaining) ->
  blk * bs + remaining < size + bs ->
  wp (blk_cache_loop get_cache set_cache g bs fuel nx remaining blk err) (fun '(r, err') s' =>
    quiet s s' /\ fails_errno r err') s.
Proof.
  pose proof bs_ok. pose proof (cb_size Hfit).
  induction fuel as [|fuel IH]; intros remaining blk err s Hi He Hb Hr Hd Hle; cbn [blk_cache_loop];
    (destruct (Z.eqb_spec remaining 0) as [E|E];
      [apply wp_ret; split; [by apply quiet_refl|]; split; [done|lia]|]); [lia|].
  assert (bs <= remaining) by (apply Z.divide_pos_le; [lia|done]).
  apply wp_bind. eapply wp_mono; [apply wp_cache_blk_cache; (done || lia)|]. intros [r1 e1] s1 [Hq1 Hf1].
  destruct (Z.eqb_spec r1 (-1)) as [-> |Hr1]; [by apply wp_ret|].
  rewrite u64_small by (limits; nia). eapply wp_mono.
  { apply (IH (remaining - bs) (blk + 1) e1 s1); try lia; [apply Hq1|apply Hf1|].
    apply Z.divide_sub_r; [done|apply Z.divide_refl]. }
  intros [r2 e2] s2 [Hq2 Hf2]. split; [by eapply quiet_trans|done].
Qed.

Lemma cache_cache_correct count offs err s :
  cache_inv s -> errno_ok err -> 0 <= offs -> 0 < count <= UINT32_MAX -> offs + count <= size ->
  wp (cache_cache get_cache set_cache g bs nx count offs 0 err) (fun '(r, err') s' => same s s' /\ fails_errno r err') s.
Proof.
  intros Hi He Ho Hc Hle. pose proof bs_ok. pose proof (cb_size Hfit). unfold cache_cache.
  apply wp_bind, wp_assert. split; [done|]. apply wp_bind. eapply wp_mono; [by apply wp_malloc|].
  intros ok s1 Hq1. destruct ok; cbn [negb]; [|apply wp_ret; split; [apply Hq1|by apply fails_errno_const]].
  pose proof (Z.div_mod offs bs ltac:(lia)). pose proof (Z.mod_pos_bound offs bs ltac:(lia)).
  pose proof (Z.div_pos offs bs Ho ltac:(lia)). apply wp_bind.
  apply (wp_round_up bs (cb_blksize Hfit)); [limits; lia|]. set (up := count + offs mod bs + bs - 1).
  pose proof (Z.mod_pos_bound up bs ltac:(lia)). assert (Hup : up = count + offs mod bs + bs - 1) by done.
  pose proof (Z.mod_le up bs ltac:(lia) ltac:(lia)).
  eapply wp_mono; [apply wp_blk_cache_loop; [apply Hq1|done|lia|lia|apply divide_sub_mod; lia|lia]|].
  intros [r2 e2] s2 [[Hsd2 _] Hf2]. split; [|done]. eapply same_disk_trans; [apply Hq1|exact Hsd2].
Qed.

(** ** The size *)

(** Only the filter's state changed. *)
Definition own (s s' : st W) : Prop :=
  (inv s -> inv s') /\ forall x, disk s' x = disk s x /\ (settled s' x <-> settled s x).

Lemma own_put c s : own s (put_cache c s).
Proof. split; [apply Hsep|]. intros x. split; apply Hsep. Qed.

Lemma own_trans s1 s2 s3 : own s1 s2 -> own s2 s3 -> own s1 s3.
Proof.
  intros [H1 D1] [H2 D2]. split; [auto|]. intros x. destruct (D1 x) as [E1 S1], (D2 x) as [E2 S2].
  split; [congruence|tauto].
Qed.

Lemma own_quiet s s' : cache_inv s -> own s s' -> cache_ok (cache_of s') ->
  (forall x, 0 <= x < size -> entry (ca_bm (cache_of s')) (x / bs) = entry (ca_bm (cache_of s)) (x / bs) /\
     of_data (ca_file (cache_of s')) x = of_data (ca_file (cache_of s)) x) -> quiet s s'.
Proof.
  intros (Hi & Hc & Hcl) [Hi' Hd] Hc' He.
  assert (Hv : forall x, cache_disk s' x = cache_disk s x).
  { intros x. unfold cache_disk, cache_view. destruct (decide (0 <= x < size)) as [Hx|Hx]; [|done].
    destruct (He x Hx) as [-> ->], (Hd x) as [-> _]. done. }
  split; [split|intros x; apply Hd].
  - split; [auto|]. split; [done|]. intros x Hx E. destruct (He x Hx) as [E1 ->], (Hd x) as [-> _].
    rewrite E1 in E. by apply Hcl.
  - intros x _. split; [done|]. unfold cache_settled. rewrite Hv. destruct (Hd x) as [-> Hst]. tauto.
Qed.

Lemma wp_own_malloc s : wp (on_os get_cache set_cache os_malloc) (fun _ s' => own s s' /\
  exists o, cache_of s' = ca_with_os o (cache_of s) /\
    (Forall (fun r => r = 0) (o_fadvise (ca_os (cache_of s))) -> Forall (fun r => r = 0) (o_fadvise o))) s.
Proof.
  unfold on_os. apply wp_bind, wp_ca_gets, wp_bind, wp_ca_modify, wp_ret. split; [apply own_put|].
  eexists. split; [apply cache_of_put|]. intros Ho. by apply os_calls_ok.
Qed.

Lemma resize_small mem bm new_size : 0 <= new_size <= INT64_MAX -> bitmap_wf bm /\ b_limit bm < UINT64_MAX ->
  bitmap_wf (bitmap_resize mem bm new_size).2 /\ b_limit (bitmap_resize mem bm new_size).2 < UINT64_MAX.
Proof.
  intros Hs [Hwf Hl]. pose proof (bitmap_resize_correct mem bm new_size Hwf Hs) as H.
  destruct (bitmap_resize mem bm new_size) as [r bm']. destruct H as (Hwf' & _ & Hfail & Hok). simpl. split; [done|].
  destruct (decide (r = -1)) as [E|E]; [by rewrite (Hfail E)|]. destruct (Hok E) as (_ & Hlim & _).
  destruct (bpb_ibpb _ Hwf) as (_ & _ & Hib). destruct (bytes_per_unit _ Hwf) as [_ Hb]. change (2 ^ 31) with 2147483648 in Hb.
  limits. nia.
Qed.

Lemma wp_lru_set_size s : lru_small (ca_lru (cache_of s)) ->
  wp (lru_set_size get_cache set_cache g bs size) (fun r s' => own s s' /\ (r = 0 \/ r = -1) /\
    exists l o, cache_of s' = ca_with_os o (ca_with_lru l (cache_of s)) /\ lru_small l /\
      (Forall (fun r => r = 0) (o_fadvise (ca_os (cache_of s))) -> Forall (fun r => r = 0) (o_fadvise o))) s.
Proof.
  intros [H0 H1]. unfold lru_set_size. apply wp_bind. eapply wp_mono; [apply wp_own_malloc|].
  intros mem s1 (Ho1 & o1 & E1 & Hf1). apply wp_bind, wp_ca_gets. rewrite E1. cbn [ca_lru ca_with_os].
  set (l := ca_lru (cache_of s)) in *. pose proof (resize_small mem (lru_bm0 l) size (cb_size Hfit) H0) as Hr0.
  destruct (bitmap_resize mem (lru_bm0 l) size) as [r bm0]. cbn [snd] in Hr0. apply wp_bind, wp_ca_modify. rewrite E1.
  set (l1 := Lru bm0 (lru_bm1 l) (lru_c0 l) (lru_c1 l) (lru_N l)). set (s2 := put_cache _ s1).
  assert (Ho2 : own s s2) by (eapply own_trans; [exact Ho1|apply own_put]).
  assert (E2 : cache_of s2 = ca_with_os o1 (ca_with_lru l1 (cache_of s))) by (subst s2; by rewrite cache_of_put).
  destruct (r =? -1).
  { apply wp_ret. split; [done|]. split; [by right|]. by exists l1, o1. }
  apply wp_bind. eapply wp_mono; [apply wp_own_malloc|]. intros mem2 s3 (Ho3 & o3 & E3 & Hf3).
  pose proof (resize_small mem2 (lru_bm1 l) size (cb_size Hfit) H1) as Hr1.
  destruct (bitmap_resize mem2 (lru_bm1 l) size) as [r2 bm1]. cbn [snd] in Hr1. apply wp_bind, wp_ca_modify.
  rewrite E3, E2. set (l2 := Lru bm0 bm1 (lru_c0 l) (lru_c1 l) (lru_N l)). set (s4 := put_cache _ s3).
  assert (Ho4 : own s s4) by (eapply own_trans; [exact Ho2|]; eapply own_trans; [exact Ho3|apply own_put]).
  assert (E4 : cache_of s4 = ca_with_os o3 (ca_with_lru l2 (cache_of s))) by (subst s4; by rewrite cache_of_put).
  assert (Hf4 : Forall (fun r => r = 0) (o_fadvise (ca_os (cache_of s))) -> Forall (fun r => r = 0) (o_fadvise o3)).
  { intros Hf. apply Hf3. rewrite E2. by apply Hf1. }
  destruct (r2 =? -1).
  { apply wp_ret. split; [done|]. split; [by right|]. by exists l2, o3. }
  apply wp_bind, wp_ca_modify, wp_ret. split; [eapply own_trans; [exact Ho4|apply own_put]|]. split; [by left|].
  rewrite cache_of_put, E4. by eexists (Lru bm0 bm1 _ _ _), o3.
Qed.

(** Before and between calls of [blk_set_size]: the empty bitmap, or one
    for this size. *)
Record cache_start (c : cache_state) : Prop := CacheStart {
  cs_wf : bitmap_wf (ca_bm c);
  cs_bpb : b_bpb (ca_bm c) = 2;
  cs_blksize : b_blksize (ca_bm c) = bs;
  cs_limit : b_limit (ca_bm c) = 0 \/ b_limit (ca_bm c) = blocks_limit;
  cs_io : Forall io_good (of_io (ca_file c));
  cs_fadvise : Forall (fun r => r = 0) (o_fadvise (ca_os c));
  cs_lru : lru_small (ca_lru c);
  cs_reclaim : -1 <= ca_reclaim_blk c < Z.max 1 blocks_limit;
  cs_states : forall blk, 0 <= blk -> entry (ca_bm c) blk = BLOCK_NOT_CACHED \/
    entry (ca_bm c) blk = BLOCK_CLEAN \/ entry (ca_bm c) blk = BLOCK_DIRTY;
  cs_beyond : forall blk, 0 <= blk -> size <= blk * bs -> entry (ca_bm c) blk = BLOCK_NOT_CACHED;
  cs_through : q_mode g = CACHE_MODE_WRITETHROUGH -> forall blk, 0 <= blk -> entry (ca_bm c) blk <> BLOCK_DIRTY;
}.

Lemma cache_ok_start c : cache_ok c -> cache_start c.
Proof. intros []. split; auto. Qed.

Lemma wp_cache_blk_set_size s : cache_start (cache_of s) ->
  wp (cache_blk_set_size get_cache set_cache g bs size) (fun r s' =>
    own s s' /\ (r = 0 \/ r = -1) /\ (r = 0 \/ cache_ok (cache_of s) -> cache_ok (cache_of s')) /\
    forall x, 0 <= x < size -> entry (ca_bm (cache_of s')) (x / bs) = entry (ca_bm (cache_of s)) (x / bs) /\
      of_data (ca_file (cache_of s')) x = of_data (ca_file (cache_of s)) x) s.
Proof.
  intros Hst. pose proof bs_ok. pose proof (cb_size Hfit) as Hsz. pose proof limit_bounds as [_ Hlim].
  unfold cache_blk_set_size. apply wp_bind, wp_ca_modify, wp_bind. eapply wp_mono; [apply wp_own_malloc|].
  intros mem s2 (Ho2 & o & E2 & Hf2). rewrite cache_of_put in E2, Hf2. specialize (Hf2 (cs_fadvise _ Hst)).
  apply (own_trans s) in Ho2; [|apply own_put]. set (c := cache_of s) in *.
  apply wp_bind, wp_ca_gets. rewrite E2. cbn [ca_bm ca_with_os ca_with_size].
  pose proof (bitmap_resize_correct mem (ca_bm c) size (cs_wf _ Hst) Hsz) as Hres.
  destruct (bitmap_resize mem (ca_bm c) size) as [r bm]. destruct Hres as (Hwf & _ & Hfail & Hok).
  apply wp_bind, wp_ca_modify. rewrite E2. set (s3 := put_cache _ s2).
  assert (Ho3 : own s s3) by (eapply own_trans; [exact Ho2|apply own_put]).
  assert (E3 : cache_of s3 = ca_with_bm bm (ca_with_os o (ca_with_size size c))) by (subst s3; by rewrite cache_of_put).
  destruct (Z.eqb_spec r (-1)) as [Er|Er].
  { apply wp_ret. rewrite E3, (Hfail Er). split; [done|]. split; [by right|]. split; [|done].
    intros [?|[]]; [done|]. split; done. }
  destruct (Hok Er) as (-> & Hl & Hbs & Hbp & He). apply wp_bind, (wp_round_up bs (cb_blksize Hfit)); [limits; lia|].
  apply wp_bind, wp_ca_modify. rewrite E3. set (z := size + bs - 1 - (size + bs - 1) mod bs). set (c4 := ca_with_file _ _).
  pose proof (file_covers bs k bs_ok) as [Hz Hcov]. fold z in Hz, Hcov.
  assert (Hlimit : b_limit bm = blocks_limit).
  { destruct (bpb_ibpb _ (cs_wf _ Hst)) as (Hib & _ & _). rewrite (cs_bpb _ Hst) in Hib. rewrite (cs_blksize _ Hst) in Hl, Hbs.
    apply limit_unique; [|lia]. destruct (bpb_ibpb _ Hwf) as (Hib' & _ & _). rewrite Hbp, (cs_bpb _ Hst) in Hib'.
    unfold b_limit. replace (b_ibpb bm) with 4 by lia. apply Z.divide_factor_r. }
  assert (Hent : forall blk, 0 <= blk -> entry bm blk = entry (ca_bm c) blk).
  { intros blk Hb. rewrite He, Hlimit by done. case_decide as Hd; [done|].
    destruct (cs_limit _ Hst) as [El|El]; rewrite El in Hd; [|symmetry; apply entry_outside; [apply Hst|done|lia]].
    symmetry. apply entry_outside; [apply Hst|done|lia]. }
  assert (Hc4 : cache_ok c4).
  { destruct Hst. split; try done; subst c4; cbn [ca_bm ca_with_file ca_with_bm]; try congruence;
      intros; rewrite Hent by done; auto. }
  set (s4 := put_cache c4 s3). assert (E4 : cache_of s4 = c4) by apply cache_of_put.
  assert (Ho4 : own s s4) by (eapply own_trans; [exact Ho3|apply own_put]).
  apply wp_bind. eapply wp_mono; [apply wp_lru_set_size; rewrite E4; apply Hc4|].
  intros r2 s5 (Ho5 & Hr2 & l & o5 & E5 & Hl5 & Hf5). rewrite E4 in E5, Hf5. apply wp_ret.
  split; [by eapply own_trans|]. split; [destruct Hr2 as [-> | ->]; auto|]. rewrite E5. split.
  - intros _. destruct Hc4. split; try done. by apply Hf5.
  - intros x Hx. subst c4. cbn [ca_bm ca_file ca_with_file ca_with_bm ca_with_os ca_with_lru of_data].
    rewrite Hent by (apply Z.div_pos; lia). by rewrite (proj2 (Z.ltb_lt x z)) by lia.
Qed.

Lemma cache_get_size_correct s : cache_inv s ->
  wp (cache_get_size get_cache set_cache g bs nx) (fun r s' => (r = size \/ r = -1) /\ same s s') s.
Proof.
  intros Hi. unfold cache_get_size. apply wp_bind. eapply wp_mono.
  { apply (dl_get_size (ReadLayer:=@dl_read _ _ _ _ _ _ (cc_next Hsep (cache_of s)))). split; [apply Hi|done]. }
  intros r s1 [Hr Hsd1]. destruct (quiet_next s s1 Hi Hsd1) as [Hq1 _].
  destruct (Z.eqb_spec r (-1)) as [-> |Hne]; [apply wp_ret; split; [auto|apply Hq1]|]. destruct Hr as [-> |]; [|done].
  pose proof Hq1 as [[Hi1 _] _]. apply wp_bind.
  eapply wp_mono; [apply wp_cache_blk_set_size, cache_ok_start, Hi1|]. intros r s2 (Ho & Hr & Hc & He). apply wp_ret.
  split; [destruct Hr as [-> | ->]; auto|]. eapply same_disk_trans; [apply Hq1|].
  apply own_quiet; [done|done|apply Hc; right; apply Hi1|done].
Qed.

(** [cache_prepare] on the state that [blk_init] makes: if memory suffices,
    the filter is ready and shows the layer below. *)
Lemma cache_prepare_fresh s : inv s -> cache_start (cache_of s) -> b_limit (ca_bm (cache_of s)) = 0 ->
  wp (cache_prepare get_cache set_cache g bs nx) (fun r s' =>
    (r = 0 -> cache_inv s' /\ forall x, 0 <= x < size -> cache_disk s' x = disk s x)) s.
Proof.
  intros Hi Hst Hl. pose proof bs_ok. unfold cache_prepare, cache_get_size. do 2 apply wp_bind. eapply wp_mono.
  { apply (dl_get_size (ReadLayer:=@dl_read _ _ _ _ _ _ (cc_next Hsep (cache_of s)))). split; [apply Hi|done]. }
  intros r s1 [Hr [[Hi1 E1] Hu1]]. destruct (Z.eqb_spec r (-1)) as [-> |Hne]; [by do 2 apply wp_ret|].
  destruct Hr as [-> |]; [|done]. apply wp_bind.
  eapply wp_mono; [apply wp_cache_blk_set_size; by rewrite E1|]. intros r s2 ([Hi2 Hd2] & Hr & Hc & He).
  apply wp_ret, wp_ret. pose proof (cb_size Hfit). destruct Hr as [-> | ->]; [|done]. cbn [Z.eqb].
  rewrite (proj2 (Z.ltb_ge _ _)) by lia. intros _. specialize (Hc ltac:(by left)).
  assert (Hz : forall x, 0 <= x < size -> entry (ca_bm (cache_of s2)) (x / bs) = BLOCK_NOT_CACHED).
  { intros x Hx. destruct (He x Hx) as [-> _]. rewrite E1.
    apply entry_outside; [apply Hst|apply Z.div_pos; lia|]. rewrite Hl. apply Z.div_pos; lia. }
  split; [split; [auto|]; split; [done|]; intros x Hx; by rewrite Hz|].
  intros x Hx. unfold cache_disk, cache_view. rewrite decide_True by done. rewrite Hz by done.
  change (BLOCK_NOT_CACHED =? BLOCK_NOT_CACHED) with true. cbv iota. destruct (Hd2 x) as [-> _]. by apply Hu1.
Qed.

(** ** The layer *)

Lemma cache_layer : DiskLayer cache_inv cache_disk cache_settled (cache_next get_cache set_cache g bs nx) cache_limits.
Proof.
  split; [split|..]; simpl.
  - intros count offs err s Hi He (Ho & Hc & Hle & _) Hmax. by apply cache_pread_correct.
  - intros count offs err s Hi He (Ho & Hc & Hle & _) _. by apply cache_cache_correct.
  - intros s Hi. apply wp_ret. split; [by right; right|by apply unchanged_refl].
  - intros s Hi. by apply cache_get_size_correct.
  - intros buf count offs flags err s Hi He (Ho & Hc & Hle & _) _ Hfl Hlen.
    apply cache_pwrite_correct; try done. by apply cache_write_flags.
  - intros count offs flags err s Hi He (Ho & Hc & Hle & _) Hfl. by apply cache_zero_correct.
  - intros count offs flags err s Hi He Hr Hfl. apply cache_write_flags in Hfl. eapply wp_mono.
    { by apply (cc_trim Hsep (cache_of s)); try apply Hi. }
    intros [r e] s' [Hsd Hf]. destruct (quiet_next s s' Hi Hsd) as [[Hsame _] _].
    split; [eapply unchanged_mono; [|exact Hsame]; done|]. split; [done|]. intros _ _ x. by apply Hsame.
  - intros err s Hi He. by apply wp_cache_flush.
  - intros s Hi. eapply wp_mono; [by apply wp_cache_can_fua|]. intros r s' [-> Hq]. split; [done|apply Hq].
  - intros s Hi. apply wp_ret. split; [done|by apply unchanged_refl].
Qed.

(** C13: The cache filter is a disk on top of a disk: reads return what was
    last written, wherever it is, requests change exactly their range, also
    with blocks that are only partly inside, when they fail half-way, or when
    reading and caching copy blocks to the file; a flush that succeeds, and a
    write with FUA, leave what they cover in the stable storage of the layer
    below (with [cache=unsafe], nothing is promised); in writethrough mode all
    this holds with a limit on the cache too, and reclaiming blocks ends.

    It needs a layer below whose writes do not fail where the filter writes
    through, in writethrough mode and for FUA in writeback mode ([cb_writes];
    [CacheDefects.writethrough_failure_hidden] shows what happens otherwise),
    and whose trims keep the contents ([cc_trim]), since the filter passes
    trims down and goes on to read from the cache.  The reads and writes of
    the cache file are whole or fail, but are never short, and
    [posix_fadvise] does not fail ([ck_io], [ck_fadvise]). *)
Theorem cache_presents_disk :
  DiskLayer cache_inv cache_disk cache_settled (cache_next get_cache set_cache g bs nx) cache_limits.
Proof. apply cache_layer. Qed.
End Correct.

(** ** The first connection *)

(** What [blk_init] makes. *)
Lemma cache_init_start g k f_bsize io os bs c :
  cache_blk_init g f_bsize io os = Ok (bs, c) -> (exists n, 0 <= n <= 31 /\ bs = 2 ^ n) ->
  Forall io_good io -> Forall (fun r => r = 0) (o_fadvise os) ->
  cache_start g bs k c /\ b_limit (ca_bm c) = 0.
Proof.
  unfold cache_blk_init. set (b0 := u32 _). intros H (n & Hn & E) Hio Hos.
  assert (b0 = bs) as Eb. { destruct (bitmap_init b0 2), (lru_init b0); try done. by injection H as -> _. }
  rewrite Eb, E in H. unfold lru_init in H.
  destruct (bitmap_init_wf n 2) as (bm & Hb2 & Hwf & Hl & Hbs & Hbp); [lia|set_solver|]. rewrite Hb2 in H.
  destruct (bitmap_init_wf n 1) as (bm1 & Hb1 & Hwf1 & Hl1 & _); [lia|set_solver|]. rewrite Hb1 in H.
  injection H as <-. split; [|done].
  assert (Hz : forall blk, 0 <= blk -> entry bm blk = 0) by (intros blk Hb; apply entry_outside; (done || lia)).
  split; simpl; try done; try lia; auto.
  - split; simpl; (split; [done|]; rewrite Hl1; done).
  - intros _ blk Hb. by rewrite Hz.
Qed.

(** ** A concrete stack *)

Definition cache_world : Type := cache_state * (Z -> Z).
Definition plain (size : Z) : nbdkit_next cache_world := flat_next_in snd (fun d w => (w.1, d)) size.
Definition plain_limits (size : Z) : layer_limits := LayerLimits size 512 1048576 NBDKIT_FUA_NATIVE true.
Definition no_events : cache_os := CacheOs [] [] [] [] [].

Lemma plain_separate size :
  cache_separate fst (fun c w => (c, w.2)) (fun _ => True) (fun s => snd (s_world s)) (fun _ _ => True) (plain size)
    (plain_limits size).
Proof.
  split; try done.
  - intros c. apply (flat_layer_in snd (fun d (w : cache_world) => (w.1, d)) (fun s => True /\ cache_of fst s = c)); [done|].
    intros d s [_ Hs]. by split.
Qed.

(** Writethrough, with a limit of one megabyte. *)
Definition through_1m : cache_settings := CacheSettings 4096 CACHE_MODE_WRITETHROUGH 1048576 95 80 COR_ON.

Lemma through_1m_fits : cache_fits through_1m 4096 (fun _ => True) (plain 10240) (plain_limits 10240).
Proof.
  split; simpl; [by exists 12|limits; lia|by exists 8|by exists 20|lia|lia| | |done].
  - right. split; [done|]. limits. lia.
  - intros _ buf count offs flags err s _ _ _ _ _. by apply wp_bind, wp_modify, wp_ret.
Qed.

Lemma cache_presents_disk_witness :
  DiskLayer (cache_inv fst through_1m 4096 (fun _ => True) (fun s => snd (s_world s)) (plain_limits 10240))
    (cache_disk fst 4096 (fun s => snd (s_world s)) (plain_limits 10240))
    (cache_settled fst through_1m 4096 (fun s => snd (s_world s)) (fun _ _ => True) (plain_limits 10240))
    (cache_next fst (fun c w => (c, w.2)) through_1m 4096 (plain 10240))
    (cache_limits through_1m (plain_limits 10240)).
Proof.
  exact (cache_presents_disk fst (fun c w => (c, w.2)) through_1m 4096 (fun _ => True) (fun s => snd (s_world s))
    (fun _ _ => True) (plain 10240) (plain_limits 10240) (plain_separate 10240) through_1m_fits).
Defined.

