(* ===== verification/CacheDefects.v ===== *)
(** * Where the cache filter is not a disk

    What the filter of [Cache] does beyond the conditions of [CacheDisk]:
    with a limit on the cache and dirty blocks, with a failing layer below,
    with [cache=unsafe] and a trim, and for block status; and examples. *)

From S2P Require Import Prelude NbdProtocol Extents Exports Server Connections Backend Plugin Filter Protocol Handshake Bytes Io Parse Layer ExtentsQuery Bitmap Blocks Lru Cache CacheDisk.

(** ** Where the filter is not a disk *)

(** C40: Reclaiming does not look whether a block is dirty: it punches the
    block out of the file and marks it as not cached, and what was written
    is gone.  With [cache-max-size] and the default mode the disk silently
    returns to the old contents of the layer below, which was never
    written. *)
Theorem reclaim_discards_dirty {W} (get_cache : W -> cache_state) set_cache bs inv disk settled nx k s blk :
  cache_separate get_cache set_cache inv disk settled nx k -> 0 < bs ->
  bitmap_wf (ca_bm (cache_of get_cache s)) -> b_bpb (ca_bm (cache_of get_cache s)) = 2 ->
  0 <= blk < b_limit (ca_bm (cache_of get_cache s)) ->
  entry (ca_bm (cache_of get_cache s)) blk = BLOCK_DIRTY ->
  ca_reclaim_blk (cache_of get_cache s) = blk -> o_fallocate (ca_os (cache_of get_cache s)) = [] ->
  exists s', reclaim_block get_cache set_cache bs s = Ok (tt, s') /\
    entry (ca_bm (cache_of get_cache s')) blk = BLOCK_NOT_CACHED /\
    forall x, disk s' x = disk s x /\
      cache_disk get_cache bs disk k s' x =
        if decide (blk * bs <= x < (blk + 1) * bs /\ 0 <= x < l_size k) then disk s x else cache_disk get_cache bs disk k s x.
Proof.
  intros Hsep Hbs Hwf Hbp Hblk Hd Hr Ho.
  assert (Hgs : forall c s, get_cache (s_world (set_world (set_cache c (s_world s)) s)) = c) by (intros; apply Hsep).
  unfold cache_of in *. unfold reclaim_block, on_os, ca_gets, ca_modify. unfold_m.
  rewrite Hr, (proj2 (Z.eqb_neq blk (-1))) by lia. unfold os_fallocate. rewrite Ho. cbn [fst snd]. change (negb (0 =? 0)) with false.
  cbv iota beta. rewrite Hgs. eexists. split; [done|].
  assert (Hent : forall y, 0 <= y -> entry (bitmap_set_blk (ca_bm (get_cache (s_world s))) blk BLOCK_NOT_CACHED) y =
    if decide (y = blk) then BLOCK_NOT_CACHED else entry (ca_bm (get_cache (s_world s))) y).
  { intros y Hy. by apply entry_set_blk; rewrite ?Hbp. }
  set (s' := set_world _ _). assert (Hdisk : forall x, disk s' x = disk s x).
  { intros x. subst s'. assert (Hpd : forall c w, disk (set_world (set_cache c (s_world w)) w) x = disk w x).
    { intros c w. apply (cc_disk _ _ _ _ _ _ _ Hsep). }
    by rewrite !Hpd. }
  split.
  { subst s'. rewrite Hgs. cbn [ca_bm ca_with_bm ca_with_file ca_with_os]. rewrite Hent by lia. by case_decide. }
  intros x. split; [done|]. unfold cache_disk at 1, cache_view, cache_of. rewrite Hdisk. subst s'. rewrite Hgs.
  cbn [ca_bm ca_file ca_with_bm ca_with_file ca_with_os of_data]. unfold cache_disk, cache_view, cache_of.
  destruct (decide (0 <= x < l_size k)) as [Hx|Hx]; [|by rewrite decide_False by tauto].
  pose proof (Z.div_mod x bs ltac:(lia)). pose proof (Z.mod_pos_bound x bs Hbs).
  rewrite Hent by (apply Z.div_pos; lia). destruct (decide (x / bs = blk)) as [E|E].
  - rewrite decide_True by nia. done.
  - rewrite decide_False by nia. unfold fill. rewrite decide_False by nia. done.
Qed.

(** What comes after an assertion aborts, or the assertion does. *)
Lemma assert_aborts {W A} b (m : unit -> M W A) s :
  m tt s = Crash AssertFailed -> (cassert b ≫= m) s = Crash AssertFailed.
Proof. by destruct b. Qed.

Lemma connected_aborts {W A} (m : context -> M W A) c cs s :
  s_ctx s = c :: cs -> m c s = Crash AssertFailed -> (check_connected ≫= m) s = Crash AssertFailed.
Proof.
  intros Hc Hm. unfold check_connected, cur, mbind, M_bind. rewrite Hc. unfold cassert, mret, M_ret. by destruct (_ && _)%bool.
Qed.

Lemma range_aborts {W A} offset count (m : bool -> M W A) s c cs :
  s_ctx s = c :: cs -> (forall v, m v s = Crash AssertFailed) -> (backend_valid_range offset count ≫= m) s = Crash AssertFailed.
Proof.
  intros Hc Hm. unfold backend_valid_range, cur, mbind, M_bind. rewrite Hc. unfold cassert, mret, M_ret. by destruct (_ <=? _).
Qed.

(** With [cache=unsafe] a client can abort the server.  The filter
    answers [.can_fua] itself, so the server never asks the layer below, whose
    answer stays unknown; but the filter has no [.trim], so a trim request
    with FUA, which the server has offered, goes to the layer below as it is,
    and the server asserts that this layer can do FUA. *)
Lemma cache_unsafe_trim_aborts {W} (get_cache : W -> cache_state) set_cache g bs b rest ct c cs count offs flags err s :
  q_mode g = CACHE_MODE_UNSAFE -> s_ctx s = ct :: c :: cs -> c_can_fua c = c_can_fua (new_context false) ->
  has flags NBDKIT_FLAG_FUA = true ->
  let cn := cache_next get_cache set_cache g bs (next_ops b rest) in
  n_can_fua cn s = Ok (NBDKIT_FUA_NATIVE, s) /\ n_trim cn count offs flags err s = Crash AssertFailed.
Proof.
  intros Hm Hc Hcan Hf cn. subst cn. split; [cbn [n_can_fua cache_next]; unfold cache_can_fua; by rewrite Hm|].
  cbn [n_trim cache_next next_ops]. unfold on_next. rewrite Hc.
  replace (backend_trim _ _ _ _ _ _) with (Crash AssertFailed : outcome (Z * Z * st W)); [done|]. symmetry. unfold backend_trim.
  apply (connected_aborts _ c cs); [done|]. do 2 apply assert_aborts. apply (range_aborts _ _ _ _ c cs); [done|]. intros v.
  do 2 apply assert_aborts. rewrite Hf, Hcan. done.
Qed.

(** [blk_init], then some requests on a disk of sevens, with blocks of 16
    bytes. *)
Definition run_cache {A} (g : cache_settings) (os : cache_os) (nx : nbdkit_next cache_world)
    (m : nbdkit_next cache_world -> M cache_world A) : option (A * (Z -> Z)) :=
  match cache_blk_init g 16 [] os with
  | Crash _ => None
  | Ok (bs, c) =>
      match m (cache_next fst (fun c w => (c, w.2)) g bs nx) (witness_state (c, fun _ => 7)) with
      | Ok (a, s) => Some (a, snd (s_world s))
      | Crash _ => None
      end
  end.

(** A write across a block border is in the cache, and after a flush also
    below. *)
Example cache_example :
  match run_cache (CacheSettings 16 CACHE_MODE_WRITEBACK (-1) 95 80 COR_OFF) no_events (plain 40)
    (fun nx => n_prepare nx;; n_pwrite nx [1; 2; 3] 3 15 0 0;;
       '(r, err, data) ← n_pread nx 8 12 0 0;
       below ← gets (fun s => slice (snd (s_world s)) 12 8);
       '(f, _) ← n_flush nx 0 0; mret (r, data, below, f)) with
  | Some (res, d) => res = (0, [7; 7; 7; 1; 2; 3; 7; 7], replicate 8 7, 0) /\ slice d 12 8 = [7; 7; 7; 1; 2; 3; 7; 7]
  | None => False
  end.
Proof. vm_compute. done. Qed.

(** The same write, when the file system says that the cache has become too
    large: the requests after it reclaim the dirty block, the write is lost,
    and the flush succeeds. *)
Example reclaim_loses_write :
  match run_cache (CacheSettings 16 CACHE_MODE_WRITEBACK 16 95 80 COR_OFF) (CacheOs [] [] [] [Some 0; Some 1; Some 1] []) (plain 40)
    (fun nx => n_prepare nx;; '(w, _) ← n_pwrite nx (replicate 16 1) 16 16 0 0;
       n_pread nx 1 0 0 0;;
       '(r, err, data) ← n_pread nx 4 16 0 0; '(f, _) ← n_flush nx 0 0; mret (w, r, data, f)) with
  | Some (res, d) => res = (0, 0, [7; 7; 7; 7], 0) /\ slice d 16 4 = [7; 7; 7; 7]
  | None => False
  end.
Proof. vm_compute. done. Qed.

(** The same disk below, with other functions for writes and extents. *)
Definition plain_with (size : Z) (pwrite : list Z -> Z -> Z -> Z -> Z -> M cache_world (Z * Z))
    (extents : Z -> Z -> Z -> nbdkit_extents -> Z -> M cache_world (Z * Z * nbdkit_extents)) : nbdkit_next cache_world :=
  let nx := plain size in
  NextOps (n_prepare nx) (n_finalize nx) (n_export_description nx) (n_get_size nx) (n_block_size nx) (n_can_write nx)
    (n_can_flush nx) (n_is_rotational nx) (n_can_trim nx) (n_can_zero nx) (n_can_fast_zero nx) (n_can_extents nx)
    (n_can_fua nx) (n_can_multi_conn nx) (n_can_cache nx) (n_pread nx) pwrite (n_flush nx) (n_trim nx)
    (n_zero nx) extents (n_cache nx).

(** In writethrough mode a write that fails below is in the cache already:
    the block was cached, so it stays clean; reads return what was refused,
    and a flush, which only looks for dirty blocks, succeeds. *)
Example writethrough_failure_hidden :
  match run_cache (CacheSettings 16 CACHE_MODE_WRITETHROUGH (-1) 95 80 COR_ON) no_events
    (plain_with 40 (fun _ _ _ _ _ => mret (-1, EIO)) (n_extents (plain 40)))
    (fun nx => n_prepare nx;; n_pread nx 16 16 0 0;; '(w, _) ← n_pwrite nx (replicate 16 1) 16 16 0 0;
       '(f, _) ← n_flush nx 0 0; '(r, err, data) ← n_pread nx 4 16 0 0; mret (w, f, r, data)) with
  | Some (res, d) => res = (-1, 0, 0, [1; 1; 1; 1]) /\ slice d 16 4 = [7; 7; 7; 7]
  | None => False
  end.
Proof. vm_compute. done. Qed.

(** The filter does not define [.extents]: block status comes from below,
    which may call a hole what was written and is dirty. *)
Example extents_below_cache :
  match run_cache (CacheSettings 16 CACHE_MODE_WRITEBACK (-1) 95 80 COR_OFF) no_events
    (plain_with 40 (n_pwrite (plain 40)) (fun count offset _ exts err =>
       let '(_, exts) := nbdkit_add_extent exts offset count (Z.lor NBDKIT_EXTENT_HOLE NBDKIT_EXTENT_ZERO) in
       mret (0, err, exts)))
    (fun nx => n_prepare nx;; n_pwrite nx (replicate 16 1) 16 16 0 0;;
       '(r, err, exts) ← n_extents nx 16 16 0 (Extents [] 16 32 (-1)) 0;
       '(_, _, data) ← n_pread nx 2 16 0 0; mret (r, map (fun e => (e_offset e, e_length e, e_type e)) (x_extents exts), data)) with
  | Some (res, _) => res = (0, [(16, 16, 3)], [1; 1])
  | None => False
  end.
Proof. vm_compute. done. Qed.

(** ** Witnesses of the defects *)

(** A plugin with native FUA. *)
Definition below_backend_of (size : Z) : backend cache_world :=
  Backend 0 (fun _ _ exps => mret (0, nbdkit_use_default_export exps)) (fun _ _ => mret (Some []))
    (fun _ _ _ => mret 1) (fun _ => mret 0) (mret 0) (mret tt)
    (mret None) (mret size) (mret (0, (0, 0, 0)))
    (mret 1) (mret 1) (mret 0) (mret 1) (mret NBDKIT_ZERO_NATIVE) (mret 0)
    (mret 0) (mret NBDKIT_FUA_NATIVE) (mret 1) (mret NBDKIT_CACHE_NONE)
    (fun count offset _ err => d ← gets (fun s => snd (s_world s)); mret (0, err, slice d offset count))
    (fun _ _ _ _ err => mret (0, err)) (fun _ err => mret (0, err)) (fun _ _ _ err => mret (0, err))
    (fun _ _ _ err => mret (0, err)) (fun _ _ _ exts err => mret (0, err, exts))
    (fun _ _ _ err => mret (0, err)).

Definition dirty_state : cache_state :=
  CacheState (Bitmap 4096 2 1 4 [12]) 10240 (OsFile (fun _ => 1) 12288 []) lru_64 NOT_RECLAIMING 1 no_events.

Lemma reclaim_discards_dirty_witness :
  exists s', reclaim_block fst (fun c w => (c, w.2)) 4096 (witness_state (dirty_state, fun _ => 7)) = Ok (tt, s') /\
    cache_disk fst 4096 (fun s => snd (s_world s)) (plain_limits 10240) (witness_state (dirty_state, fun _ => 7)) 5000 = 1 /\
    cache_disk fst 4096 (fun s => snd (s_world s)) (plain_limits 10240) s' 5000 = 7.
Proof.
  destruct (reclaim_discards_dirty fst (fun c w => (c, w.2)) 4096 (fun _ => True) (fun s => snd (s_world s)) (fun _ _ => True)
    (plain 10240) (plain_limits 10240) (witness_state (dirty_state, fun _ => 7)) 1 (plain_separate 10240))
    as (s' & Hrun & _ & Hx); [lia| |done|done|done|done|done|].
  { split; simpl; [lia|done|done|by exists 12|]. repeat constructor; lia. }
  exists s'. split; [done|]. split; [reflexivity|]. destruct (Hx 5000) as [_ ->]. reflexivity.
Defined.

Lemma cache_unsafe_trim_aborts_witness :
  let g := CacheSettings 4096 CACHE_MODE_UNSAFE (-1) 95 80 COR_OFF in
  let s := set_ctx [new_context false; new_context false] (witness_state (dirty_state, fun _ => 7)) in
  n_trim (cache_next fst (fun c w => (c, w.2)) g 4096 (next_ops (below_backend_of 10240) [])) 4096 0 NBDKIT_FLAG_FUA 0 s =
    Crash AssertFailed.
Proof.
  intros g s. apply (cache_unsafe_trim_aborts fst (fun c w => (c, w.2)) g 4096 (below_backend_of 10240) []
    (new_context false) (new_context false) [] 4096 0 NBDKIT_FLAG_FUA 0 s); reflexivity.
Defined.

(** The client's view: an export is opened with [cache=unsafe] and the
    default mode, and the client sends a trim request with FUA. *)
Definition trim_fua (mode : caching_mode) : option crash :=
  let g := CacheSettings 4096 mode (-1) 95 80 COR_OFF in
  let plugin := below_backend_of 10240 in
  let top := filter_functions (cache_filter fst (fun c w => (c, w.2)) g 4096) plugin [] in
  let conn := Connection STATUS_ACTIVE 0 0 true [None; None] 3 1517 true false true true None (Some []) [] true [] [] in
  match cache_blk_init g 4096 [] no_events with
  | Crash c => Some c
  | Ok (_, c) =>
      match (protocol_common_open (Config 0 false true false false 3 NBDKIT_THREAD_MODEL_PARALLEL NBD_REP_ERR_POLICY)
               top [plugin] [97];;
             handle_request top NBD_CMD_TRIM NBD_CMD_FLAG_FUA 0 4096 [] (Extents [] 0 1 (-1)))
        (St witness_thread (c, fun _ => 7) conn []) with
      | Crash c => Some c
      | Ok _ => None
      end
  end.

Example unsafe_trim_fua : (trim_fua CACHE_MODE_UNSAFE, trim_fua CACHE_MODE_WRITEBACK) = (Some AssertFailed, None).
Proof. vm_compute. reflexivity. Qed.
