(* ===== verification/Memory.v ===== *)
(** * The memory plugin

    Models [plugins/memory/memory.c]: a disk kept by one of the allocators.
    Its globals are the record [memory_state]; the callbacks are those of the
    table [plugin], over the allocator's functions.  Whatever allocator is
    used, as long as it keeps its contract ([AllocatorSpec]) the plugin
    implements a disk ([Serve.DiskPlugin]), so that the server's and the
    filters' theorems apply to it. *)

From S2P Require Import Prelude NbdProtocol Extents Exports Server Connections Backend Plugin Filter Bytes Parse Protocol Layer Allocators Serve.

Section Memory.
(* The allocator's functions, and the [errno] that a failed allocation
   leaves. *)
Context {S : Type} (f : allocator_functions S) (alloc_errno : Z).

(** The globals; [mem_allocs] is whether coming allocations succeed. *)
Record memory_state : Type := MemoryState {
  mem_size : Z;
  mem_a : option S;
  mem_allocator_type : list Z;
  mem_allocs : list bool;
}.

(** ** Configuration *)

(* "sparse" *)
Definition default_allocator : list Z := [115; 112; 97; 114; 115; 101].
(* "size", "allocator" *)
Definition key_size : list Z := [115; 105; 122; 101].
Definition key_allocator : list Z := [97; 108; 108; 111; 99; 97; 116; 111; 114].

Definition memory_loaded (allocs : list bool) : memory_state := MemoryState (-1) None default_allocator allocs.

Definition memory_config (key value : list Z) (m : memory_state) : Z * memory_state :=
  if strcmp_eq key key_size then
    let size := nbdkit_parse_size value in
    (if size =? -1 then -1 else 0, MemoryState size (mem_a m) (mem_allocator_type m) (mem_allocs m))
  else if strcmp_eq key key_allocator then
    (0, MemoryState (mem_size m) (mem_a m) value (mem_allocs m))
  else (-1, m).

Definition memory_config_complete (m : memory_state) : Z := if mem_size m =? -1 then -1 else 0.

Definition memory_get_ready (create_allocator : list Z -> AM (option S)) (m : memory_state) : outcome (Z * memory_state) :=
  match create_allocator (mem_allocator_type m) (mem_allocs m) with
  | Crash c => Crash c
  | Ok (None, mem) => Ok (-1, MemoryState (mem_size m) None (mem_allocator_type m) mem)
  | Ok (Some a, mem) =>
      match af_set_size_hint f a (mem_size m) mem with
      | Crash c => Crash c
      | Ok ((r, a), mem) =>
          Ok (if r =? -1 then -1 else 0, MemoryState (mem_size m) (Some a) (mem_allocator_type m) mem)
      end
  end.

(** ** Callbacks *)

Context {W : Type} (get : W -> memory_state) (set : memory_state -> W -> W).

(** [a->f->g (a, ...)] *)
Definition with_allocator {A} (g : S -> AM (Z * S * A)) : cb W (Z * A) := fun t w =>
  let m := get w in
  match mem_a m with
  | None => Crash NullPointer
  | Some a =>
      match g a (mem_allocs m) with
      | Crash c => Crash c
      | Ok ((r, a, x), mem) =>
          Ok ((r, x), if r =? -1 then with_errno alloc_errno t else t,
              set (MemoryState (mem_size m) (Some a) (mem_allocator_type m) mem) w)
      end
  end.

Definition with_allocator' (g : S -> AM (Z * S)) : cb W Z := fun t w =>
  match with_allocator (fun a => '(r, a) ← g a; mret (r, a, tt)) t w with
  | Ok ((r, _), t, w) => Ok (r, t, w)
  | Crash c => Crash c
  end.

Definition cb_assert {A} (b : bool) (k : cb W A) : cb W A := fun t w =>
  if b then k t w else Crash AssertFailed.

Definition cb_ret {A} (a : A) : cb W A := fun t w => Ok (a, t, w).

(* NBDKIT_HANDLE_NOT_NEEDED: any pointer but NULL *)
Definition memory_open (readonly : bool) : cb W Z := cb_ret 1.
Definition memory_get_size (handle : Z) : cb W Z := fun t w => Ok (mem_size (get w), t, w).
Definition memory_block_size (handle : Z) : cb W (Z * (Z * Z * Z)) := fun t w =>
  match mem_a (get w) with
  | Some _ => Ok ((0, (1, af_preferred f, UINT32_MAX)), t, w)
  | None => Crash NullPointer
  end.
Definition memory_can_fua (handle : Z) : cb W Z := cb_ret NBDKIT_FUA_NATIVE.
Definition memory_can_multi_conn (handle : Z) : cb W Z := cb_ret 1.
Definition memory_can_cache (handle : Z) : cb W Z := cb_ret NBDKIT_CACHE_NATIVE.
Definition memory_can_fast_zero (handle : Z) : cb W Z := cb_ret 1.

Definition memory_pread (handle count offset flags : Z) : cb W (Z * list Z) :=
  cb_assert (flags =? 0)
    (with_allocator (fun a => '(r, buf) ← af_read f a count offset; mret (r, a, buf))).

Definition memory_pwrite (handle : Z) (buf : list Z) (count offset flags : Z) : cb W Z :=
  cb_assert (clear flags NBDKIT_FLAG_FUA =? 0) (with_allocator' (fun a => af_write f a buf count offset)).

Definition memory_zero (handle count offset flags : Z) : cb W Z :=
  cb_assert (clear flags (Z.lor (Z.lor NBDKIT_FLAG_FUA NBDKIT_FLAG_MAY_TRIM) NBDKIT_FLAG_FAST_ZERO) =? 0)
    (with_allocator' (fun a => af_zero f a count offset)).

(* the result of [zero] is not looked at *)
Definition memory_trim (handle count offset flags : Z) : cb W Z :=
  cb_assert (clear flags NBDKIT_FLAG_FUA =? 0)
    (fun t w => match with_allocator' (fun a => af_zero f a count offset) t w with
                | Ok (_, t, w) => Ok (0, t, w)
                | Crash c => Crash c
                end).

Definition memory_flush (handle flags : Z) : cb W Z := cb_ret 0.

Definition memory_extents (handle count offset flags : Z) (extents : nbdkit_extents)
    : cb W (Z * nbdkit_extents) :=
  with_allocator (fun a => '(r, extents) ← af_extents f a count offset extents; mret (r, a, extents)).

Definition memory_plugin : nbdkit_plugin W :=
  Plugin 2 1 None None memory_open None None memory_get_size (Some memory_block_size)
    None None None None None (Some memory_can_fast_zero) None (Some memory_can_fua)
    (Some memory_can_multi_conn) (Some memory_can_cache)
    (Some memory_pread) None (Some memory_pwrite) None (Some memory_flush) None
    (Some memory_trim) None (Some memory_zero) None (Some memory_extents) None.

(** ** The disk *)

Context (inv : S -> Prop) (view : S -> Z -> Z) (size : Z).
Context `{!AllocatorSpec f inv view size}.
Context (get_set : forall m w, get (set m w) = m).
(* what is known of the rest of the world *)
Context (rest : W -> Prop) (rest_set : forall m w, rest w -> rest (set m w)).
Context (Herrno : 0 < alloc_errno <= INT32_MAX /\ alloc_errno <> ENOTSUP).

Definition memory_limits : layer_limits := LayerLimits size 1 UINT32_MAX NBDKIT_FUA_NATIVE true.

(* the context of a connection that has been negotiated *)
Context (c : context) (Hc : serves memory_limits c) (Hzero : c_can_zero c = NBDKIT_ZERO_NATIVE).

(** The plugin has been configured and serves the connection. *)
Record memory_inv (s : st W) : Prop := MemoryInv {
  mi_ctx : s_ctx s = [c];
  mi_a : exists a, mem_a (get (s_world s)) = Some a /\ inv a;
  mi_size : mem_size (get (s_world s)) = size;
  mi_err : t_err (s_thread s) = 0;
  mi_rest : rest (s_world s);
}.

Definition memory_disk (s : st W) : Z -> Z :=
  match mem_a (get (s_world s)) with Some a => view a | None => fun _ => 0 end.

(* what is written is as stable as it gets *)
Definition memory_settled (s : st W) (x : Z) : Prop := True.

Notation unchanged := (unchanged memory_inv memory_disk memory_settled).
Notation failed := (cb_failed memory_plugin).

Lemma wp_with_allocator {A} (g : S -> AM (Z * S * A)) (P : S -> Z -> S -> A -> Prop) (Q : Z * A -> st W -> Prop) s :
  memory_inv s ->
  (forall a mem, inv a -> hwp (g a) (fun '(r, a', x) _ => inv a' /\ P a r a' x) mem) ->
  (forall a r a' x s', memory_disk s = view a -> memory_inv s' -> memory_disk s' = view a' -> P a r a' x ->
    (r = -1 -> failed s') -> Q (r, x) s') ->
  wp (call (with_allocator g)) Q s.
Proof.
  intros [Hs (a & Ha & Hi) Hsz He Hrest] Hg HQ. unfold wp, call, with_allocator. rewrite Ha.
  destruct (hwp_ok _ _ _ (Hg a (mem_allocs (get (s_world s))) Hi)) as ([[r a'] x] & mem' & -> & Hi' & HP).
  eapply HQ; [| |by unfold memory_disk; simpl; rewrite get_set|exact HP|].
  - by unfold memory_disk; rewrite Ha.
  - split; simpl; rewrite ?get_set; [done|by eauto|done|by destruct (r =? -1)|auto].
  - intros ->. simpl. exists alloc_errno. unfold get_errno, errno_ok, err_ok. split; [|lia].
    destruct s as [[] ? ? ?]. simpl in *. subst. unfold mbind, M_bind. simpl.
    rewrite (proj2 (Z.eqb_neq alloc_errno 0)) by lia. done.
Qed.

Lemma wp_with_allocator' (g : S -> AM (Z * S)) (P : S -> Z -> S -> Prop) (Q : Z -> st W -> Prop) s :
  memory_inv s ->
  (forall a mem, inv a -> hwp (g a) (fun '(r, a') _ => inv a' /\ P a r a') mem) ->
  (forall a r a' s', memory_disk s = view a -> memory_inv s' -> memory_disk s' = view a' -> P a r a' ->
    (r = -1 -> failed s') -> Q r s') ->
  wp (call (with_allocator' g)) Q s.
Proof.
  intros Hs Hg HQ. assert (Hw : wp (call (with_allocator (fun a => '(r, a) ← g a; mret (r, a, tt)))) (fun '(r, _) => Q r) s).
  { apply (wp_with_allocator _ (fun a r a' _ => P a r a')); [done| |].
    - intros a mem Hi. apply hwp_bind. eapply hwp_mono; [by apply Hg|]. by intros [r a'] mem'.
    - intros a r a' [] s'. apply HQ. }
  unfold wp, call, with_allocator' in *. by destruct (with_allocator _ _ _) as [[[[r []] t] w]|].
Qed.

Lemma wp_cb_assert {A} b (k : cb W A) (Q : A -> st W -> Prop) s :
  b = true -> wp (call k) Q s -> wp (call (cb_assert b k)) Q s.
Proof. by intros ->. Qed.

(** What an allocator does to its bytes is what a disk does to them. *)
Lemma modifies_wrote r a a' new count offset fua s s' :
  memory_disk s = view a -> memory_inv s' -> memory_disk s' = view a' ->
  (forall x, ~ in_request count offset x -> new x = view a x) ->
  modifies r (view a) new (view a') -> (r = -1 -> failed s') ->
  cb_wrote memory_plugin memory_inv memory_disk memory_settled new count offset fua r s s'.
Proof.
  intros Hd Hs' Hd' Hout Hm Hf. unfold cb_wrote. rewrite Hd, Hd'. split; [|split; [done|]].
  - split; [done|]. intros x Hx. split; [|done]. rewrite Hd' , Hd in *.
    assert (Hnew : new x = view a x) by (destruct (decide (in_request count offset x)); auto).
    destruct Hm as [[_ H]|[_ H]]; [by rewrite H|]. destruct (H x); congruence.
  - intros Hr x Hx. split; [|done]. by destruct Hm as [[_ H]|[? _]].
Qed.

Lemma aligned_in_range count offset : aligned_range memory_limits count offset -> in_range size count offset.
Proof. intros (? & ? & ? & _). unfold in_range. simpl in *. lia. Qed.

Lemma memory_same s s' : memory_inv s' -> memory_disk s' = memory_disk s -> same_disk memory_inv memory_disk memory_settled s s'.
Proof. intros Hi Hd. split; [done|]. by rewrite Hd. Qed.

Notation is_plugin C := (C memory_plugin memory_inv memory_disk memory_settled memory_limits).

#[export] Instance memory_read_plugin : is_plugin ReadPlugin.
Proof.
  split; simpl.
  - intros h count offset s Hs Hr%aligned_in_range Hm. eexists. split; [done|].
    apply wp_cb_assert; [done|].
    apply (wp_with_allocator _ (fun a r a' buf => a' = a /\ (r <> -1 -> buf = slice (view a) offset count))); [done| |].
    + intros a mem Hi. apply hwp_bind. eapply hwp_mono; [by apply as_read|].
      intros [r buf] mem' (_ & Hbuf & _). apply hwp_ret. split; [done|]. split; [done|]. by destruct Hbuf as [->|[_ ->]].
    + intros a r a' buf s' Hd Hs' Hd' [-> Hbuf] Hf. rewrite Hd. split; [|done].
      apply memory_same; congruence.
  - done.
  - intros h s g Hs [= <-]. unfold wp, call, memory_can_cache. simpl. split; [done|].
    destruct s as [t w co cs]. by apply memory_same.
  - intros h s Hs. unfold wp, call, memory_get_size. simpl. split; [left; apply Hs|].
    destruct s as [t w co cs]. by apply memory_same.
Qed.

#[export] Instance memory_disk_plugin : DiskPlugin memory_plugin memory_inv memory_disk memory_settled memory_limits.
Proof.
  assert (Hsame : forall s, memory_inv s -> same_disk memory_inv memory_disk memory_settled s s) by (intros; by apply memory_same).
  split; simpl.
  - apply _.
  - intros h s Hs. eexists. split; [done|]. split; [done|]. split; [done|]. destruct s. by apply Hsame.
  - intros h s Hs. eexists. split; [done|]. split; [done|]. destruct s. by apply Hsame.
  - intros h buf count offset flags s Hs Hr%aligned_in_range Hm [Hf _] Hl. eexists. split; [done|].
    apply wp_cb_assert; [by apply Z.eqb_eq|].
    apply (wp_with_allocator' _ (fun a r a' => modifies r (view a) (overwrite (view a) buf offset) (view a'))); [done| |].
    + intros a mem Hi. eapply hwp_mono; [by apply as_write|]. intros [r a'] mem'. tauto.
    + intros a r a' s' Hd Hs' Hd' Hmod Hfail. rewrite Hd. eapply modifies_wrote; try done.
      intros x Hx. apply overwrite_out. unfold in_request in Hx. destruct Hr. lia.
  - intros h count offset flags s Hs Hr%aligned_in_range (Hf & _). eexists. split; [done|].
    apply wp_cb_assert; [by apply Z.eqb_eq; rewrite <- Hf; f_equal|].
    apply (wp_with_allocator' _ (fun a r a' => modifies r (view a) (fill (view a) 0 count offset) (view a'))); [done| |].
    + intros a mem Hi. eapply hwp_mono; [by apply as_zero|]. intros [r a'] mem'. tauto.
    + intros a r a' s' Hd Hs' Hd' Hmod Hfail. split; [by destruct Hmod as [[-> _]|[-> _]]; auto|].
      eapply (cb_wrote_ext _ _ _ _ (fill (view a) 0 count offset)).
      2: { eapply modifies_wrote; try done. intros x Hx. unfold fill. by rewrite decide_False. }
      intros x Hx. unfold fill. by rewrite decide_True.
  - intros h count offset flags s Hs Hr%aligned_in_range [Hf _]. eexists. split; [done|].
    apply wp_cb_assert; [by apply Z.eqb_eq|]. 
    assert (Hw : wp (call (with_allocator' (fun a => af_zero f a count offset))) (fun _ s' =>
      unchanged (fun x => ~ in_request count offset x) s s') s).
    { apply (wp_with_allocator' _ (fun a r a' => modifies r (view a) (fill (view a) 0 count offset) (view a'))); [done| |].
      - intros a mem Hi. eapply hwp_mono; [by apply as_zero|]. intros [r a'] mem'. tauto.
      - intros a r a' s' Hd Hs' Hd' Hmod _. split; [done|]. intros x Hx. split; [|done]. rewrite Hd, Hd'.
        assert (Hout : fill (view a) 0 count offset x = view a x) by (unfold fill; by rewrite decide_False).
        destruct Hmod as [[_ H]|[_ H]]; [by rewrite H|]. destruct (H x); congruence. }
    unfold wp, call in *. destruct (with_allocator' _ _ _) as [[[r t] w]|]; [|done]. done.
  - intros h s Hs. eexists. split; [done|]. split; [destruct s; by apply Hsame|done].
  - intros s Hs. apply memory_same; [|done]. by destruct Hs.
Qed.

(** ** The backend *)

(** The plugin, behind [server/plugins.c] and [server/backend.c], on a
    connection that has negotiated what it offers. *)
Lemma memory_layer : DiskLayer memory_inv memory_disk memory_settled (backend_ops (plugin_functions memory_plugin) [])
  memory_limits.
Proof.
  apply backend_layer; [|by intros s [Hs _ _ _ _]; eauto|done].
  apply plugin_layer; [|apply _| |done]; intros s [Hs _ _ _ _]; exists c, [].
  - split; [done|by apply sv_read].
  - split; [done|]. split; [by apply (sv_fua _ _ Hc)|done].
Qed.

(** Resetting the error fields of the thread changes nothing. *)
Lemma memory_reset s : memory_inv s ->
  same_disk memory_inv memory_disk memory_settled s (set_thread (with_last_error None) (set_thread (with_err 0) s)).
Proof. intros Hs. apply memory_same; [|done]. by destruct Hs. Qed.
End Memory.

Arguments memory_state : clear implicits.
Arguments MemoryState {S}.
