(* ===== verification/System.v ===== *)
(** * A whole server

    [nbdkit --filter=blocksize --filter=cow --filter=truncate --filter=offset
    memory], from the requests that the protocol code executes down to the
    allocator that keeps the bytes: the tables of the filters
    ([struct nbdkit_filter]) with the handles that they allocate, the stack of
    backends that [server/backend.c], [server/filters.c] and
    [server/plugins.c] make of them, and the theorem that the stack answers
    like a disk.  The theorem is the composition of the theorems about the
    parts; nothing of them is opened here. *)

From stdpp Require Import gmap.
From S2P Require Import Prelude NbdProtocol Extents Exports Server Connections Backend Plugin Filter Bytes Io Parse Protocol Layer ExtentsQuery Blocksize Offset Truncate Bitmap Cow CowDisk Stack Vector Allocators Sparse Serve Memory.

(** ** Handles

    A filter's [void *handle] is the address of an object on the heap;
    address 0 is NULL.  [hp_allocs] is whether coming allocations succeed. *)

Record heap {H : Type} : Type := Heap {
  hp_next : Z;
  hp_objects : gmap Z H;
  hp_allocs : list bool;
}.
Arguments heap : clear implicits.
Arguments Heap {H}.

Section Handles.
Context {W H : Type} (get : W -> heap H) (set : heap H -> W -> W).

Definition heap_modify (f : heap H -> heap H) : M W unit :=
  modify (fun s => set_world (set (f (get (s_world s))) (s_world s)) s).

(** [malloc], and the object that is stored at the new address. *)
Definition new_handle (h : H) : M W Z :=
  hp ← gets (fun s => get (s_world s));
  match hp_allocs hp with
  | false :: allocs => heap_modify (fun hp => Heap (hp_next hp) (hp_objects hp) allocs);; mret 0
  | allocs =>
      heap_modify (fun hp => Heap (hp_next hp + 1) (<[hp_next hp := h]> (hp_objects hp)) (tail allocs));;
      mret (hp_next hp)
  end.

(** [*h] *)
Definition load_handle (p : Z) : M W H :=
  hp ← gets (fun s => get (s_world s));
  match hp_objects hp !! p with Some h => mret h | None => fail NullPointer end.

Definition store_handle (p : Z) (h : H) : M W unit :=
  heap_modify (fun hp => Heap (hp_next hp) (<[p := h]> (hp_objects hp)) (hp_allocs hp)).

Definition free_handle (p : Z) : M W unit :=
  heap_modify (fun hp => Heap (hp_next hp) (delete p (hp_objects hp)) (hp_allocs hp)).

(** [.open]: NULL when the layer below cannot be opened. *)
Definition open_handle (open : M W (option H)) : M W Z :=
  o ← open;
  match o with Some h => new_handle h | None => mret 0 end.

(** [.prepare] fills in the object. *)
Definition prepare_handle (prepare : H -> M W (Z * H)) (p : Z) : M W Z :=
  h ← load_handle p;
  '(r, h) ← prepare h;
  store_handle p h;;
  mret r.
End Handles.

(** ** The filters' tables *)

Definition offset_filter {W} (g : offset_config_state) : nbdkit_filter W :=
  Filter None None None None None None None None (Some (fun nx _ => offset_get_size nx g)) None None None None
    None None None None None None None (Some (fun nx _ => offset_pread nx g)) (Some (fun nx _ => offset_pwrite nx g))
    None (Some (fun nx _ => offset_trim nx g)) (Some (fun nx _ => offset_zero nx g))
    (Some (fun nx _ => offset_extents nx g)) (Some (fun nx _ => offset_cache nx g)).

Section Tables.
Context {W : Type}.

Section TruncateTable.
Context (get : W -> heap truncate_handle) (set : heap truncate_handle -> W -> W) (g : truncate_settings).

Notation on p := (fun op => h ← load_handle get p; op h).

Definition truncate_filter : nbdkit_filter W :=
  Filter None None None
    (Some (fun next readonly exportname _ => open_handle get set (truncate_open next readonly exportname)))
    (Some (free_handle get set)) (Some (fun nx p _ => prepare_handle get set (truncate_prepare nx g) p)) None None
    (Some (fun nx p => on p truncate_get_size)) None None None None None None
    (Some (fun nx p => truncate_can_fast_zero nx)) (Some (fun nx p => truncate_can_extents nx)) None None None
    (Some (fun nx p count offset flags err => on p (fun h => truncate_pread nx h count offset flags err)))
    (Some (fun nx p buf count offset flags err => on p (fun h => truncate_pwrite nx h buf count offset flags err)))
    None
    (Some (fun nx p count offset flags err => on p (fun h => truncate_trim nx h count offset flags err)))
    (Some (fun nx p count offset flags err => on p (fun h => truncate_zero nx h count offset flags err)))
    (Some (fun nx p count offset flags exts err => on p (fun h => truncate_extents nx g h count offset flags exts err)))
    (Some (fun nx p count offset flags err => on p (fun h => truncate_cache nx h count offset flags err))).
End TruncateTable.

Section BlocksizeTable.
Context (get : W -> heap blocksize_handle) (set : heap blocksize_handle -> W -> W) (config : blocksize_handle).
(* the backend of the layer below, for [nbdkit_extents_aligned] *)
Context (b : backend W).

Notation on p := (fun op => h ← load_handle get p; op h).

Definition blocksize_filter : nbdkit_filter W :=
  Filter None None None
    (Some (fun next readonly exportname _ => open_handle get set (blocksize_open next config readonly exportname)))
    (Some (free_handle get set)) (Some (fun nx p _ => prepare_handle get set (blocksize_prepare nx) p)) None None
    (Some (fun nx p => on p (blocksize_get_size nx))) (Some (fun nx p => on p (blocksize_block_size nx)))
    None None None None None None None None None None
    (Some (fun nx p count offset flags err => on p (fun h => blocksize_pread nx h count offset flags err)))
    (Some (fun nx p buf count offset flags err => on p (fun h => blocksize_pwrite nx h buf count offset flags err)))
    None
    (Some (fun nx p count offset flags err => on p (fun h => blocksize_trim nx h count offset flags err)))
    (Some (fun nx p count offset flags err => on p (fun h => blocksize_zero nx h count offset flags err)))
    (Some (fun nx p count offset flags exts err => on p (fun h => blocksize_extents b h count offset flags exts err)))
    (Some (fun nx p count offset flags err => on p (fun h => blocksize_cache nx h count offset flags err))).
End BlocksizeTable.

Section CowTable.
Context (get : W -> cow_state) (set : cow_state -> W -> W) (g : cow_settings) (b : backend W).

Definition cow_filter : nbdkit_filter W :=
  Filter None None None
    (Some (fun next readonly exportname _ =>
       o ← cow_open next readonly exportname; mret (match o with Some tt => HANDLE_NOT_NEEDED | None => 0 end)))
    None (Some (fun nx _ _ => cow_prepare get set g nx)) None None (Some (fun nx _ => cow_get_size get set g nx))
    (Some (fun nx _ => cow_block_size g nx)) (Some (fun _ _ => mret 1)) (Some (fun _ _ => mret 1)) None
    (Some (fun _ _ => mret 1)) None (Some (fun _ _ => mret 1)) (Some (fun _ _ => mret 1))
    (Some (fun _ _ => mret NBDKIT_FUA_NATIVE)) (Some (fun _ _ => mret 1)) (Some (fun nx _ => cow_can_cache nx))
    (Some (fun nx _ => cow_pread get set g nx)) (Some (fun nx _ => cow_pwrite get set g nx))
    (Some (fun _ _ => cow_flush)) (Some (fun nx _ => cow_trim get set g nx)) (Some (fun nx _ => cow_zero get set g nx))
    (Some (fun nx _ => cow_extents get g b nx)) (Some (fun nx _ => cow_cache get set g nx)).
End CowTable.
End Tables.

(** ** Equal layers *)

(** The operations of two layers do the same where [inv] holds. *)
Record agree {W} (inv : st W -> Prop) (nx nx' : nbdkit_next W) : Prop := Agree {
  ag_pread c o f e s : inv s -> n_pread nx c o f e s = n_pread nx' c o f e s;
  ag_cache c o f e s : inv s -> n_cache nx c o f e s = n_cache nx' c o f e s;
  ag_can_cache s : inv s -> n_can_cache nx s = n_can_cache nx' s;
  ag_get_size s : inv s -> n_get_size nx s = n_get_size nx' s;
  ag_pwrite b c o f e s : inv s -> n_pwrite nx b c o f e s = n_pwrite nx' b c o f e s;
  ag_zero c o f e s : inv s -> n_zero nx c o f e s = n_zero nx' c o f e s;
  ag_trim c o f e s : inv s -> n_trim nx c o f e s = n_trim nx' c o f e s;
  ag_flush f e s : inv s -> n_flush nx f e s = n_flush nx' f e s;
  ag_can_fua s : inv s -> n_can_fua nx s = n_can_fua nx' s;
  ag_can_fast_zero s : inv s -> n_can_fast_zero nx s = n_can_fast_zero nx' s;
}.

Section Agree.
Context {W : Type} (inv : st W -> Prop) (disk : st W -> Z -> Z) (settled : st W -> Z -> Prop) (k : layer_limits).

Lemma agree_read_layer nx nx' : agree inv nx nx' ->
  ReadLayer inv disk settled nx' k -> ReadLayer inv disk settled nx k.
Proof.
  intros Hag HL. split; intros; unfold wp.
  - rewrite (ag_pread _ _ _ Hag) by done. by apply (dl_pread (nx := nx')).
  - rewrite (ag_cache _ _ _ Hag) by done. by apply (dl_cache (nx := nx')).
  - rewrite (ag_can_cache _ _ _ Hag) by done. by apply (dl_can_cache (nx := nx')).
  - rewrite (ag_get_size _ _ _ Hag) by done. by apply (dl_get_size (nx := nx')).
Qed.

Lemma agree_layer nx nx' : agree inv nx nx' ->
  DiskLayer inv disk settled nx' k -> DiskLayer inv disk settled nx k.
Proof.
  intros Hag HL. split; intros; unfold wp; [by eapply agree_read_layer; [|apply _]|..].
  - rewrite (ag_pwrite _ _ _ Hag) by done. by apply (dl_pwrite (nx := nx')).
  - rewrite (ag_zero _ _ _ Hag) by done. by apply (dl_zero (nx := nx')).
  - rewrite (ag_trim _ _ _ Hag) by done. by apply (dl_trim (nx := nx')).
  - rewrite (ag_flush _ _ _ Hag) by done. by apply (dl_flush (nx := nx')).
  - rewrite (ag_can_fua _ _ _ Hag) by done. by apply (dl_can_fua (nx := nx')).
  - rewrite (ag_can_fast_zero _ _ _ Hag) by done. by apply (dl_can_fast_zero (nx := nx')).
Qed.

(** Only whether the invariant holds matters. *)
Lemma unchanged_iff inv' P s s' : (forall s, inv s <-> inv' s) ->
  unchanged inv disk settled P s s' -> unchanged inv' disk settled P s s'.
Proof. intros Hiff [Hi Hs]. split; [by apply Hiff|done]. Qed.

Lemma read_layer_iff inv' nx : (forall s, inv s <-> inv' s) ->
  ReadLayer inv disk settled nx k -> ReadLayer inv' disk settled nx k.
Proof.
  intros Hiff HL. pose proof (fun P s s' => unchanged_iff inv' P s s' Hiff) as Hun. split.
  - intros count offset err s Hi%Hiff He Hr Hm. eapply wp_mono; [by apply (dl_pread (nx := nx))|].
    intros [[r e] buf] s' (Hsd & Hf & Hb). split; [by apply Hun|done].
  - intros count offset err s Hi%Hiff He Hr Hm. eapply wp_mono; [by apply (dl_cache (nx := nx))|].
    intros [r e] s' (Hsd & Hf). split; [by apply Hun|done].
  - intros s Hi%Hiff. eapply wp_mono; [by apply (dl_can_cache (nx := nx))|].
    intros r s' (Hr & Hsd). split; [done|by apply Hun].
  - intros s Hi%Hiff. eapply wp_mono; [by apply (dl_get_size (nx := nx))|].
    intros r s' (Hr & Hsd). split; [done|by apply Hun].
Qed.
End Agree.

Section Loaded.
Context {W : Type} (inv : st W -> Prop) (p : Z).

Lemma load_run {H} (get : W -> heap H) (h : H) s :
  hp_objects (get (s_world s)) !! p = Some h -> load_handle get p s = Ok (h, s).
Proof. intros Hp. unfold load_handle. rewrite (bind_run _ _ s (get (s_world s)) s) by done. by rewrite Hp. Qed.

Lemma truncate_agree get set g h nx :
  (forall s, inv s -> hp_objects (get (s_world s)) !! p = Some h) ->
  agree inv (filter_ops (truncate_filter get set g) nx p) (truncate_next nx g h).
Proof. intros Hp. split; simpl; intros; (done || by erewrite bind_run; [|by apply load_run, Hp]). Qed.

Lemma blocksize_agree get set config b h nx :
  (forall s, inv s -> hp_objects (get (s_world s)) !! p = Some h) ->
  agree inv (filter_ops (blocksize_filter get set config b) nx p) (blocksize_next b nx h).
Proof. intros Hp. split; simpl; intros; (done || by erewrite bind_run; [|by apply load_run, Hp]). Qed.

Lemma offset_agree g nx : agree inv (filter_ops (offset_filter g) nx p) (offset_next nx g).
Proof. by split. Qed.

Lemma cow_agree get set g b nx : agree inv (filter_ops (cow_filter get set g b) nx p) (cow_next get set g b nx).
Proof. by split. Qed.
End Loaded.

(** ** Putting a filter on a stack *)

(** The contexts of a layer that has been put on top of others: its own, and
    then theirs. *)
Definition on_top {W} (c : context) (inv : st W -> Prop) : Prop :=
  forall s, inv s -> exists cs, s_ctx s = c :: cs.

Section OnTop.
Context {W : Type} (f : nbdkit_filter W) (b : backend W) (rest : list (backend W)).
Context (inv : st W -> Prop) (disk : st W -> Z -> Z) (settled : st W -> Z -> Prop) (k : layer_limits).
Context (inv' : st W -> Prop) (disk' : st W -> Z -> Z) (settled' : st W -> Z -> Prop) (k' : layer_limits).
Context (c0 c : context) (Hbelow : on_top c0 inv) (Htop : on_top c inv').

Lemma on_top_ne s : inv s -> s_ctx s <> [].
Proof. intros Hi. by destruct (Hbelow s Hi) as [cs ->]. Qed.

Lemma on_top_handle s : inv' s -> exists c1 cs, s_ctx s = c1 :: cs /\ c_handle c1 = c_handle c.
Proof. intros Hi. destruct (Htop s Hi) as [cs Hs]. by exists c, cs. Qed.

(** What a filter makes of the operations that it is given, the backend made
    of it and of a stack makes of the stack. *)
Lemma filter_on_top :
  serves k' c -> l_can_fua k' = NBDKIT_FUA_NATIVE ->
  DiskLayer inv disk settled (backend_ops b rest) k ->
  (DiskLayer (inv_below c inv) (Serve.below disk) (Serve.below settled) (next_ops b rest) k ->
   DiskLayer inv' disk' settled' (filter_ops f (next_ops b rest) (c_handle c)) k') ->
  DiskLayer inv' disk' settled' (backend_ops (filter_functions f b rest) (b :: rest)) k'.
Proof.
  intros Hk Hn HL Hf. apply backend_layer; [|intros s Hi; destruct (Htop s Hi) as [cs Hs]; by exists c, cs|by rewrite Hn].
  apply filter_layer with (h := c_handle c); [by apply on_top_handle|]. apply Hf. apply next_layer; [by apply on_top_ne|done].
Qed.

Lemma filter_read_on_top :
  serves k' c ->
  ReadLayer inv disk settled (backend_ops b rest) k ->
  (ReadLayer (inv_below c inv) (Serve.below disk) (Serve.below settled) (next_ops b rest) k ->
   ReadLayer inv' disk' settled' (filter_ops f (next_ops b rest) (c_handle c)) k') ->
  ReadLayer inv' disk' settled' (backend_ops (filter_functions f b rest) (b :: rest)) k'.
Proof.
  intros Hk HL Hf. apply backend_read_layer.
  - apply filter_read_layer with (h := c_handle c); [by apply on_top_handle|]. apply Hf.
    apply next_read_layer; [by apply on_top_ne|done].
  - intros s Hi. destruct (Htop s Hi) as [cs Hs]. exists c, cs. split; [done|by apply sv_read].
Qed.
End OnTop.

Lemma inv_below_top {W} c (inv : st W -> Prop) : on_top c (inv_below c inv).
Proof. intros s (c' & cs & Hs & _). eauto. Qed.

Lemma inv_below_world {W} c (inv inv' : st W -> Prop) (P : W -> Prop) :
  (forall s, inv' s <-> inv s /\ P (s_world s)) -> forall s, inv_below c inv' s <-> inv_below c inv s /\ P (s_world s).
Proof.
  intros Hiff s. unfold inv_below, Serve.below. setoid_rewrite Hiff. split.
  - intros (c' & cs & Hs & Hi & HP). split; [by exists c', cs|done].
  - intros [(c' & cs & Hs & Hi) HP]. by exists c', cs.
Qed.

(** ** The stack *)

Record world {S : Type} : Type := World {
  w_memory : memory_state S;
  w_cow : cow_state;
  w_truncate : heap truncate_handle;
  w_blocksize : heap blocksize_handle;
}.
Arguments world : clear implicits.
Arguments World {S}.

Section System.
Context {S : Type} (f : allocator_functions S) (alloc_errno : Z).
Context (config : blocksize_handle) (t : stack_settings).
Implicit Types (w : world S) (s : st (world S)).

Definition set_memory (m : memory_state S) w : world S := World m (w_cow w) (w_truncate w) (w_blocksize w).
Definition set_cow (c : cow_state) w : world S := World (w_memory w) c (w_truncate w) (w_blocksize w).
Definition set_truncate h w : world S := World (w_memory w) (w_cow w) h (w_blocksize w).
Definition set_blocksize h w : world S := World (w_memory w) (w_cow w) (w_truncate w) h.

Definition plugin_backend : backend (world S) :=
  plugin_functions (memory_plugin f alloc_errno w_memory set_memory).
Definition offset_backend : backend (world S) :=
  filter_functions (offset_filter (ss_offset t)) plugin_backend [].
Definition truncate_backend : backend (world S) :=
  filter_functions (truncate_filter w_truncate set_truncate (ss_truncate t)) offset_backend [plugin_backend].
Definition cow_backend : backend (world S) :=
  filter_functions (cow_filter w_cow set_cow (ss_cow t) truncate_backend) truncate_backend
    [offset_backend; plugin_backend].
Definition top_backend : backend (world S) :=
  filter_functions (blocksize_filter w_blocksize set_blocksize config cow_backend) cow_backend
    [truncate_backend; offset_backend; plugin_backend].
Definition below_top : list (backend (world S)) := [cow_backend; truncate_backend; offset_backend; plugin_backend].

Context (ainv : S -> Prop) (view : S -> Z -> Z) (size : Z).
Context `{!AllocatorSpec f ainv view size}.
Context (Herrno : 0 < alloc_errno <= INT32_MAX /\ alloc_errno <> ENOTSUP).
Context (c0 c1 c2 c3 c4 : context).

(** The limits of the layers from the plugin upwards. *)
Definition limits0 : layer_limits := memory_limits size.
Definition limits1 : layer_limits := window_limits (ss_offset t) limits0.
Definition limits2 : layer_limits := truncate_limits (ss_truncate_handle t) limits1.
Definition limits3 : layer_limits := cow_limits limits2.
Definition limits4 : layer_limits := blocksize_limits (ss_blocksize t) limits3.

(** Each layer has been asked for what it can do. *)
Record negotiated : Prop := Negotiated {
  ng_plugin : serves limits0 c0;
  ng_native : c_can_zero c0 = NBDKIT_ZERO_NATIVE;
  ng_offset : serves limits1 c1;
  ng_truncate : serves limits2 c2;
  ng_cow : serves limits3 c3;
  ng_blocksize : serves limits4 c4;
}.

Context (Hng : negotiated) (Hok : stack_ok t limits0).

(** The handles that [.open] and [.prepare] have left. *)
Definition handles_ok w : Prop :=
  hp_objects (w_truncate w) !! c_handle c2 = Some (ss_truncate_handle t) /\
  hp_objects (w_blocksize w) !! c_handle c4 = Some (ss_blocksize t).

Section Frame.
(* what is known of the world besides *)
Context (P : world S -> Prop) (P_set : forall m w, P w -> P (set_memory m w)).

Definition inv0 : st (world S) -> Prop := fun s =>
  memory_inv w_memory ainv size (fun w => handles_ok w /\ P w) c0 s.
Definition inv1 : st (world S) -> Prop := inv_below c1 inv0.
Definition inv2 : st (world S) -> Prop := inv_below c2 inv1.
Definition inv3 : st (world S) -> Prop := inv_below c3 inv2.

Notation settled0 := (memory_settled (W := world S)).
Definition disk0 : st (world S) -> Z -> Z := memory_disk w_memory view.
Definition disk1 (s : st (world S)) : Z -> Z := windowed (disk0 s) (o_offset (ss_offset t)).
Definition disk2 (s : st (world S)) : Z -> Z := resized (h_real_size (ss_truncate_handle t)) (disk1 s).
Definition settled2 (s : st (world S)) : Z -> Prop :=
  resized_settled (h_real_size (ss_truncate_handle t)) (windowed (settled0 s) (o_offset (ss_offset t))).

Lemma inv0_top : on_top c0 inv0.
Proof. intros s [Hs _ _ _ _]. eauto. Qed.

Lemma layer0 : DiskLayer inv0 disk0 settled0 (backend_ops plugin_backend []) limits0.
Proof.
  assert (Hset : forall m w, handles_ok w /\ P w -> handles_ok (set_memory m w) /\ P (set_memory m w))
    by (intros m w [Hh HP]; split; [done|by apply P_set]).
  apply memory_layer; (done || exact (ng_plugin Hng) || exact (ng_native Hng)).
Qed.

Lemma layer1 : DiskLayer inv1 disk1 (fun s => windowed (settled0 s) (o_offset (ss_offset t)))
  (backend_ops offset_backend [plugin_backend]) limits1.
Proof.
  eapply (filter_on_top _ _ _ inv0 disk0 settled0 limits0 _ _ _ _ c0 c1);
    [apply inv0_top|apply inv_below_top|exact (ng_offset Hng)|done|apply layer0|]. intros HL.
  eapply agree_layer; [apply offset_agree|].
  apply (offset_layer inv1 disk0 settled0 _ limits0); [apply Hok|exact HL].
Qed.

Lemma inv2_truncate s : inv2 s -> hp_objects (w_truncate (s_world s)) !! c_handle c2 = Some (ss_truncate_handle t).
Proof. by intros (? & ? & _ & ? & ? & _ & [_ _ _ _ [[? _] _]]). Qed.

Lemma layer2 : DiskLayer inv2 disk2 settled2 (backend_ops truncate_backend [offset_backend; plugin_backend]) limits2.
Proof.
  eapply (filter_on_top _ _ _ inv1 disk1 _ limits1 _ _ _ _ c1 c2);
    [apply inv_below_top|apply inv_below_top|exact (ng_truncate Hng)|done|apply layer1|]. intros HL.
  eapply agree_layer; [apply truncate_agree, inv2_truncate|].
  apply (truncate_layer inv2 disk1 (fun s => windowed (settled0 s) (o_offset (ss_offset t))) _ limits1);
    [apply Hok|exact HL].
Qed.

(** What the cow filter gets from below. *)
Lemma next3 : DiskLayer inv3 disk2 settled2 (next_ops truncate_backend [offset_backend; plugin_backend]) limits2.
Proof.
  apply (next_layer inv2 disk2 settled2); [|apply layer2]. intros s Hi.
  destruct (inv_below_top _ _ s Hi) as [cs ->]. done.
Qed.
End Frame.

Definition any : world S -> Prop := fun _ => True.
Definition with_cow (c : cow_state) : world S -> Prop := fun w => w_cow w = c.

Lemma inv3_cow c s : inv3 (with_cow c) s <-> inv3 any s /\ cow_of w_cow s = c.
Proof.
  revert s. do 3 apply (inv_below_world _ _ _ (fun w => w_cow w = c)). intros s. split.
  - intros [H1 H2 H3 H4 [H5 H6]]. split; [by split|done].
  - intros [[H1 H2 H3 H4 [H5 _]] H6]. by split.
Qed.

(** The layers below the cow filter do not see its state. *)
Lemma separate3 :
  cow_separate w_cow set_cow (inv3 any) disk2 settled2 (next_ops truncate_backend [offset_backend; plugin_backend]) limits2.
Proof.
  split; [done| |done|].
  - intros c s (c2' & cs2 & Hs & c1' & cs1 & Hs1 & c0' & cs0 & Hs0 & [H1 H2 H3 H4 H5]).
    exists c2', cs2. split; [done|]. exists c1', cs1. split; [done|]. exists c0', cs0. split; [done|]. by split.
  - intros c. eapply read_layer_iff; [apply inv3_cow|]. apply next3. intros m w Hw. apply Hw.
Qed.

(* the contents below the cow filter *)
Context (D : Z -> Z).

Definition inv4 : st (world S) -> Prop := cow_inv w_cow (ss_cow t) (inv3 any) disk2 limits2 D.
Definition disk4 : st (world S) -> Z -> Z := cow_disk w_cow (ss_cow t) limits2 D.

Lemma layer3 : DiskLayer inv4 disk4 cow_settled
  (backend_ops cow_backend [truncate_backend; offset_backend; plugin_backend]) limits3.
Proof.
  apply (filter_on_top _ _ _ (inv2 any) disk2 settled2 limits2 _ _ _ _ c2 c3);
    [apply inv_below_top| |exact (ng_cow Hng)|done|by apply layer2|].
  - intros s (Hi & _). by apply inv_below_top in Hi.
  - intros _. eapply agree_layer; [apply cow_agree|]. apply (cow_layer _ _ _ (inv3 any) disk2 settled2).
    + apply separate3.
    + apply Hok.
Qed.

Definition inv5 : st (world S) -> Prop := inv_below c4 inv4.
Definition disk5 : st (world S) -> Z -> Z := disk4.

Lemma inv5_blocksize s : inv5 s -> hp_objects (w_blocksize (s_world s)) !! c_handle c4 = Some (ss_blocksize t).
Proof.
  intros (? & ? & _ & (? & ? & _ & ? & ? & _ & ? & ? & _ & [_ _ _ _ [[_ H] _]]) & _). exact H.
Qed.

Lemma layer4 : DiskLayer inv5 disk5 (cow_settled (W := world S)) (backend_ops top_backend below_top) limits4.
Proof.
  eapply (filter_on_top _ _ _ inv4 disk4 cow_settled limits3 _ _ _ _ c3 c4);
    [|apply inv_below_top|exact (ng_blocksize Hng)|done|apply layer3|].
  - intros s (Hi & _). by apply inv_below_top in Hi.
  - intros HL. eapply agree_layer; [apply blocksize_agree, inv5_blocksize|].
    apply (blocksize_layer inv5 disk5 (cow_settled (W := world S)) _ limits3). apply Hok.
Qed.

(** ** What a client sees *)

(** A connection after negotiation. *)
Record ready (s : st (world S)) : Prop := Ready {
  rd_ctx : s_ctx s = [c4; c3; c2; c1; c0];
  rd_allocator : exists a, mem_a (w_memory (s_world s)) = Some a /\ ainv a;
  rd_size : mem_size (w_memory (s_world s)) = size;
  rd_err : t_err (s_thread s) = 0;
  rd_handles : handles_ok (s_world s);
  rd_cow : cow_ok (ss_cow t) limits2 (w_cow (s_world s));
}.

Lemma inv5_ready s : inv5 s <-> ready s /\ forall x, disk2 s x = D x.
Proof.
  split.
  - intros (c & cs & Hs & (c' & cs' & Hs' & Hb) & Hc & HD). split; [|done].
    destruct Hb as (c2' & cs2 & Hs2 & c1' & cs1 & Hs1 & [H1 H2 H3 H4 [H5 _]]).
    split; [|exact H2|exact H3|exact H4|exact H5|exact Hc].
    destruct s as [th w k l]. unfold lower in *. simpl in *. subst l. simplify_eq/=. congruence.
  - intros [[H1 H2 H3 H4 H5 H6] HD]. exists c3, [c2; c1; c0]. split; [done|]. split; [|done].
    unfold inv3, inv2, inv1, inv_below, Serve.below, lower. rewrite H1. simpl.
    exists c2, [c1; c0]. split; [done|]. exists c1, [c0]. split; [done|]. exists c0, []. split; [done|]. by split.
Qed.

Lemma ready_reset s : inv5 s ->
  same_disk inv5 disk5 (cow_settled (W := world S)) s (set_thread (with_last_error None) (set_thread (with_err 0) s)).
Proof. rewrite inv5_ready. intros [[] HD]. split; [|done]. apply inv5_ready. by split. Qed.
End System.

(** A request that [validate_request] accepts, with its payload; block status
    says nothing about the contents. *)
Definition accepted (conn : connection) (size : Z) (rq : nbd_request) (buf : list Z) : Prop :=
  0 <= rq_offset rq /\ 0 <= rq_count rq <= UINT32_MAX /\
  request_valid conn size (rq_type rq) (rq_flags rq) (rq_offset rq) (rq_count rq) /\
  rq_type rq <> NBD_CMD_BLOCK_STATUS /\ (rq_type rq = NBD_CMD_WRITE -> length buf = Z.to_nat (rq_count rq)).

(** The disk that clients are shown: the window of the plugin's disk,
    resized, and the overlay on top. *)
Definition shown {S} (t : stack_settings) (view : S -> Z -> Z) (size : Z) (below : Z -> Z) (s : st (world S)) : disk_state :=
  DiskState (cow_disk w_cow (ss_cow t) (limits2 t size) below s) (fun _ => True).

(** C1: [nbdkit --filter=blocksize --filter=cow --filter=truncate
    --filter=offset memory size=...], once a connection has been opened and
    its capabilities are known, answers every sequence of [accepted] requests
    like a disk, whatever allocator the plugin uses and however allocations
    and the reads and writes of the overlay fail: no assertion fails in the
    protocol code, in the backends, in the filters or in the plugin; a read
    returns the bytes last written, byte for byte, however requests are
    aligned; a failed write leaves each byte of its range old or new and
    changes no other; and what the client writes never reaches the plugin's
    disk.

    [accepted] are the requests that [validate_request] accepts, but for
    block status, which the blocksize filter can abort on
    ([Blocksize.blocksize_extents_aborts]).  [ready] includes that the
    overlay's reads and writes are whole or fail, but are never short, and
    that [posix_fadvise] does not fail ([CowDisk.full_pwrite_short_wrong],
    [CowDisk.blk_cache_error_lost] show what happens then). *)
Theorem server_is_a_disk {S} (f : allocator_functions S) ainv view size alloc_errno config t c0 c1 c2 c3 c4 conn
    rqs (s : st (world S)) :
  AllocatorSpec f ainv view size -> 0 < alloc_errno <= INT32_MAX /\ alloc_errno <> ENOTSUP ->
  negotiated t size c0 c1 c2 c3 c4 -> stack_ok t (memory_limits size) -> eflags_match conn c4 ->
  ready t ainv size c0 c1 c2 c3 c4 s ->
  Forall (fun '(rq, buf) => accepted conn (l_size (limits4 t size)) rq buf) rqs ->
  exists answers s', handle_requests (top_backend f alloc_errno config t) rqs s = Ok (answers, s') /\
    ready t ainv size c0 c1 c2 c3 c4 s' /\
    disk_run rqs answers (shown t view size (disk2 t view s) s) (shown t view size (disk2 t view s) s') /\
    forall x, disk2 t view s' x = disk2 t view s x.
Proof.
  intros Hspec Herrno Hng Hok Hem Hr Hqs. set (D := disk2 t view s).
  pose proof (layer4 f alloc_errno config t ainv view size Herrno c0 c1 c2 c3 c4 Hng Hok D) as HL.
  assert (Hi : inv5 t ainv view size c0 c1 c2 c3 c4 D s) by (by apply inv5_ready).
  assert (Hfit : Forall (fun '(rq, buf) => request_fits (limits4 t size) rq buf) rqs).
  { eapply Forall_impl; [exact Hqs|]. intros [rq buf] (Ho & Hc & Hv & Hn & Hl).
    eapply (valid_fits conn); [done|done|apply Hng|done..]. }
  pose proof (wp_handle_requests _ _ _ _ (below_top f alloc_errno t) _
    (ready_reset t ainv view size c0 c1 c2 c3 c4 D) rqs s Hi Hfit) as Hw.
  destruct (wp_ok _ _ _ Hw) as (answers & s' & E & Hi' & Hrun).
  exists answers, s'. split; [exact E|]. apply inv5_ready in Hi' as [Hr' HD].
  split; [done|]. split; [exact Hrun|done].
Qed.

(** *** A small disk *)

Definition example_context (size : Z) : context := Context 1 3 size 1 4096 UINT32_MAX 1 1 0 1 2 1 2 1 1 2.

Definition example_bitmap : bitmap := Bitmap 4096 2 1 4 [0].

(** 16384 bytes of memory, the settings of [example_stack], and an overlay
    whose writes are sometimes short. *)
Definition example_world : world sparse_array :=
  World (MemoryState 16384 (Some (SparseArray empty_vector)) default_allocator [])
    (CowState example_bitmap 10240 (OsFile (fun _ => 0) 12288 []) [] [] [])
    (Heap 2 {[ 1 := ss_truncate_handle example_stack ]} []) (Heap 2 {[ 1 := ss_blocksize example_stack ]} []).

Definition example_ready : st (world sparse_array) :=
  St witness_thread example_world witness_conn
    [example_context 10240; example_context 10240; example_context 10240; example_context 9216; example_context 16384].

Definition example_requests : list (nbd_request * list Z) :=
  [(NbdRequest NBD_REQUEST_MAGIC NBD_CMD_FLAG_FUA NBD_CMD_WRITE (zeroes 8) 1000 3, [11; 22; 33]);
   (NbdRequest NBD_REQUEST_MAGIC 0 NBD_CMD_WRITE_ZEROES (zeroes 8) 1001 1, []);
   (NbdRequest NBD_REQUEST_MAGIC 0 NBD_CMD_READ (zeroes 8) 999 5, [])].

Lemma example_serves size : 0 <= size <= INT64_MAX ->
  serves (LayerLimits size 1 UINT32_MAX NBDKIT_FUA_NATIVE true) (example_context size).
Proof. intros Hs. split; [split; [split| | |]|..]; simpl; auto; (done || lia). Qed.

(** The last request reads what the first two have written. *)
Example example_answers :
  match handle_requests (top_backend sparse_functions ENOMEM (ss_blocksize example_stack) example_stack)
    example_requests example_ready with
  | Ok (answers, _) => answers = [(0, [11; 22; 33]); (0, []); (0, [0; 11; 0; 33; 0])]
  | Crash _ => False
  end.
Proof. vm_compute. reflexivity. Qed.

Lemma example_stack_ok' : stack_ok example_stack (memory_limits 16384).
Proof.
  split; simpl.
  - split; simpl; [limits; lia|lia|lia|lia|apply Z.divide_1_l].
  - split; simpl; [done|limits; lia|limits; lia|apply Z.divide_1_l].
  - split; simpl; [by exists 12|limits; lia|apply Z.divide_1_l|apply Z.divide_1_l|limits; lia].
  - split; simpl; try (limits; lia); [by exists 9|apply Z.divide_1_l|by exists 2048|by exists 8388607].
Qed.

Lemma example_cow_ok : cow_ok cow_4k (limits2 example_stack 16384) (w_cow example_world).
Proof.
  assert (He : forall blk, entry example_bitmap blk = 0).
  { intros blk. unfold entry. cbn [b_bitmap example_bitmap].
    assert (E : forall n, nth n [0] 0 = 0) by (intros [|[]]; reflexivity). rewrite E, Zdiv_0_l. done. }
  split; simpl; try done.
  - split; simpl; [lia|done|done|by exists 12|by repeat constructor].
  - intros blk. lia.
  - intros blk _. left. apply He.
Qed.

Lemma server_is_a_disk_witness :
  exists answers s', handle_requests (top_backend sparse_functions ENOMEM (ss_blocksize example_stack) example_stack)
      example_requests example_ready = Ok (answers, s') /\
    ready example_stack sa_wf 16384 (example_context 16384) (example_context 9216) (example_context 10240)
      (example_context 10240) (example_context 10240) s' /\
    disk_run example_requests answers
      (shown example_stack sa_view 16384 (disk2 example_stack sa_view example_ready) example_ready)
      (shown example_stack sa_view 16384 (disk2 example_stack sa_view example_ready) s') /\
    forall x, disk2 example_stack sa_view s' x = disk2 example_stack sa_view example_ready x.
Proof.
  apply (server_is_a_disk sparse_functions sa_wf sa_view 16384 ENOMEM (ss_blocksize example_stack) example_stack
    (example_context 16384) (example_context 9216) (example_context 10240) (example_context 10240)
    (example_context 10240) witness_conn example_requests example_ready).
  - apply (spec_smaller _ _ _ INT64_MAX); [limits; lia|apply sparse_spec].
  - by vm_compute.
  - split; first [done|apply example_serves; limits; lia].
  - apply example_stack_ok'.
  - split; by vm_compute.
  - split; try done; [|apply example_cow_ok]. exists (SparseArray empty_vector). split; [done|].
    apply sparse_array_fresh.
  - repeat constructor; vm_compute; try done; intros; try done; auto.
Defined.
