(* ===== verification/DataFormat.v ===== *)
(** * The data plugin: expressions and parser

    Models the first half of [plugins/data/format.c]: the table of
    expressions and the parser of the [data='...'] parameter.  Expressions
    refer to each other by their index in the table ([node_id]).

    An allocation failure ends the process here, so allocations are assumed
    to succeed.  [sscanf] is modelled from the C standard: a number that does
    not fit is undefined behaviour, as is the use of a [%n] that was not
    reached. *)

From Stdlib Require Import Ascii String.
From S2P Require Import Prelude NbdProtocol Extents Exports Server Connections Backend Plugin Parse.

#[local] Open Scope Z_scope.

(** ** Characters *)

Definition chr (a : ascii) : Z := Z.of_N (N_of_ascii a).
Definition chars (s : string) : list Z := chr <$> list_ascii_of_string s.

#[global] Arguments chr _%_char_scope.
#[global] Arguments chars _%_string_scope.

Definition dquote : Z := 34.
Definition backslash : Z := 92.
Definition newline : Z := 10.

(** [value[i]]; the string ends with a NUL. *)
Definition char_at (value : list Z) (i : nat) : Z := nth i value 0.

Definition one_of (c : Z) (s : string) : bool := existsb (Z.eqb c) (chars s).

(** ** Expressions *)

Definition node_id : Type := nat.

Inductive expr : Type :=
| EXPR_NULL
| EXPR_LIST (list : list node_id)
| EXPR_BYTE (b : Z)
| EXPR_ABS_OFFSET (ui : Z)
| EXPR_REL_OFFSET (i : Z)
| EXPR_ALIGN_OFFSET (ui : Z)
| EXPR_FILE (filename : list Z)
| EXPR_SCRIPT (script : list Z)
| EXPR_STRING (string : list Z)
| EXPR_FILL (b n : Z)
| EXPR_NAME (name : list Z)
| EXPR_ASSIGN (name : list Z) (id : node_id)
| EXPR_REPEAT (id : node_id) (n : Z)
| EXPR_SLICE (id : node_id) (n m : Z).

Definition is_data_expr (e : expr) : bool :=
  match e with
  | EXPR_ABS_OFFSET _ | EXPR_REL_OFFSET _ | EXPR_ALIGN_OFFSET _ => false
  | _ => true
  end.

(** ** The table

    Code that adds to the table and may fail ([None] is -1). *)

Definition table : Type := list expr.

Definition T (A : Type) : Type := table -> outcome (option A * table).

#[global] Instance T_ret : MRet T := fun A a tbl => Ok (Some a, tbl).
#[global] Instance T_bind : MBind T := fun A B k m tbl =>
  match m tbl with
  | Ok (Some a, tbl) => k a tbl
  | Ok (None, tbl) => Ok (None, tbl)
  | Crash c => Crash c
  end.

Definition tfail {A} : T A := fun tbl => Ok (None, tbl).
Definition tcrash {A} (c : crash) : T A := fun _ => Crash c.
Definition tassert (b : bool) : T unit := if b then mret tt else tcrash AssertFailed.

Definition new_node (e : expr) : T node_id := fun tbl =>
  let tbl := match tbl with [] => [EXPR_NULL] | _ => tbl end in
  match e with
  | EXPR_NULL => Ok (Some 0%nat, tbl)
  | _ => Ok (Some (length tbl), tbl ++ [e])
  end.

Definition get_node (id : node_id) : T expr := fun tbl =>
  match tbl !! id with
  | Some e => Ok (Some e, tbl)
  | None => Crash AssertFailed
  end.

Definition append_expr (e : expr) (l : list node_id) : T (list node_id) :=
  id ← new_node e; mret (l ++ [id]).

(** ** [sscanf] *)

Inductive scanned : Type :=
| NoMatch
| Overflow
| Scanned (v : Z) (n : nat).   (* the value and the number of characters read *)

(** The digits of [%i]: unlike [strtol], it does not take [0x] alone for 0. *)
Definition scan_magnitude (str : list Z) : option (Z * list Z) :=
  match str with
  | a :: x :: rest =>
      if ((a =? chr "0") && ((x =? chr "x") || (x =? chr "X")))%bool
      then if is_digit 16 (deref rest) then Some (digits 16 0 rest) else None
      else magnitude 0 str
  | _ => magnitude 0 str
  end.

Definition scan_int (lo hi : Z) (str : list Z) : scanned :=
  let s := skip_spaces isspace str in
  let '(neg, s) := match s with
                   | c :: s' => if c =? chr "-" then (true, s') else if c =? chr "+" then (false, s') else (false, s)
                   | [] => (false, s)
                   end in
  match scan_magnitude s with
  | None => NoMatch
  | Some (m, rest) =>
      let v := if neg : bool then - m else m in
      if ((v <? lo) || (hi <? v))%bool then Overflow else Scanned v (length str - length rest)
  end.

(** [%i] and SCNi64 *)
Definition scan_i : list Z -> scanned := scan_int INT_MIN INT_MAX.
Definition scan_i64 : list Z -> scanned := scan_int INT64_MIN INT64_MAX.

(** [if (sscanf (&value[i], "%" SCNi64 "%n", &i64, &n) == 1) ...] *)
Definition with_i64 {A} (value : list Z) (i : nat) (k : Z -> nat -> T A) : T A :=
  match scan_i64 (drop i value) with
  | Scanned i64 n => k i64 n
  | NoMatch => tfail
  | Overflow => tcrash Undefined
  end.

(** Where [%n] has been reached after the literal [lit] at [n]. *)
Definition literal_n (str : list Z) (n : nat) (lit : Z) : option nat :=
  if char_at str n =? lit then Some (n + 1)%nat else None.

(** The three formats of a slice.  [SliceMatch k m n]: the bounds and [n], if
    it was set. *)
Inductive slice_scan : Type :=
| SliceNone
| SliceOverflow
| SliceMatch (k m : Z) (n : option nat).

(** ["%" SCNi64 ":%" SCNi64 "]%n"] returns 2 *)
Definition scan_slice_both (str : list Z) : slice_scan :=
  match scan_i64 str with
  | Overflow => SliceOverflow
  | NoMatch => SliceNone
  | Scanned k n =>
      if char_at str n =? chr ":" then
        match scan_i64 (drop (n + 1) str) with
        | Overflow => SliceOverflow
        | NoMatch => SliceNone
        | Scanned m n2 => SliceMatch k m (literal_n str (n + 1 + n2) (chr "]"))
        end
      else SliceNone
  end.

(** [":%" SCNi64 "]%n"] returns 1 *)
Definition scan_slice_end (str : list Z) : slice_scan :=
  if char_at str 0 =? chr ":" then
    match scan_i64 (drop 1 str) with
    | Overflow => SliceOverflow
    | NoMatch => SliceNone
    | Scanned m n => SliceMatch 0 m (literal_n str (1 + n) (chr "]"))
    end
  else SliceNone.

(** ["%" SCNi64 ":]%n"] returns 1 *)
Definition scan_slice_start (str : list Z) : slice_scan :=
  match scan_i64 str with
  | Overflow => SliceOverflow
  | NoMatch => SliceNone
  | Scanned k n =>
      SliceMatch k (-1) (if char_at str n =? chr ":" then literal_n str (n + 1) (chr "]") else None)
  end.

(** The conditions of the [if], and [strncmp (&value[i], ":]", 2)]. *)
Definition scan_slice (str : list Z) : slice_scan :=
  match scan_slice_both str with
  | SliceNone =>
      match scan_slice_end str with
      | SliceNone =>
          match scan_slice_start str with
          | SliceNone =>
              if ((char_at str 0 =? chr ":") && (char_at str 1 =? chr "]"))%bool
              then SliceMatch 0 (-1) (Some 2%nat) else SliceNone
          | r => r
          end
      | r => r
      end
  | r => r
  end.

(** ** Names, variables and scripts *)

Fixpoint span (p : Z -> bool) (str : list Z) : nat :=
  match str with
  | c :: str => if p c then S (span p str) else 0%nat
  | [] => 0%nat
  end.

(** The length of the name and its start; 0 if there is none. *)
Definition get_marked (mark : Z) (first rest : Z -> bool) (value : list Z) (i : nat) : nat * nat :=
  let i := (i + span ascii_isspace (drop i value))%nat in
  if ((length value <=? i)%nat || negb (char_at value i =? mark))%bool then (0%nat, i)
  else
    let i := (i + 1)%nat in
    if (length value <=? i)%nat then (0%nat, i)
    else if first (char_at value i) then (span rest (drop i value), i) else (0%nat, i).

Definition is_name_char (c : Z) : bool := (ascii_isalnum c || (c =? chr "_") || (c =? chr "-"))%bool.
Definition is_var_char (c : Z) : bool := (ascii_isalnum c || (c =? chr "_"))%bool.

Definition get_name : list Z -> nat -> nat * nat := get_marked backslash (fun _ => true) is_name_char.
Definition get_var : list Z -> nat -> nat * nat :=
  get_marked (chr "$") (fun c => ascii_isalpha c || (c =? chr "_"))%bool is_var_char.

(** The loop of [get_script] and its result. *)
Fixpoint script_loop (str : list Z) (lvl r : nat) : nat :=
  match str with
  | [] => 0%nat
  | c :: str =>
      if c =? chr "(" then script_loop str (lvl + 1) (r + 1)
      else if c =? chr ")" then
        if (0 <? lvl)%nat then script_loop str (lvl - 1) (r + 1) else r
      else script_loop str lvl (r + 1)
  end.

Definition get_script (value : list Z) (i : nat) : nat := script_loop (drop i value) 0 0.

(** ** Strings and words *)

(** The loop of [parse_string]: the string and what follows the quote. *)
Fixpoint string_loop (str acc : list Z) : option (list Z * list Z) :=
  match str with
  | [] => None
  | c :: str =>
      if c =? dquote then Some (acc, str)
      else if c =? backslash then
        match str with
        | [] => None
        | c :: str =>
            if c =? chr "a" then string_loop str (acc ++ [7])
            else if c =? chr "b" then string_loop str (acc ++ [8])
            else if c =? chr "f" then string_loop str (acc ++ [12])
            else if c =? chr "n" then string_loop str (acc ++ [10])
            else if c =? chr "r" then string_loop str (acc ++ [13])
            else if c =? chr "t" then string_loop str (acc ++ [9])
            else if c =? chr "v" then string_loop str (acc ++ [11])
            else if c =? chr "x" then
              match str with
              | x0 :: x1 :: str =>
                  if (negb (ascii_isxdigit x0) || negb (ascii_isxdigit x1))%bool then None
                  else string_loop str (acc ++ [hexbyte x0 x1])
              | _ => None
              end
            else if (ascii_isdigit c || (c =? chr "u"))%bool then None
            else string_loop str (acc ++ [c])
        end
      else string_loop str (acc ++ [c])
  end.

Definition parse_string (value : list Z) (start : nat) : T (list Z * nat) :=
  match string_loop (drop start value) [] with
  | Some (s, rest) => mret (s, (length value - length rest)%nat)
  | None => tfail
  end.

(** [le16:] and so on: the number of bytes and whether they are reversed. *)
Definition word_prefix (copy : list Z) : option (nat * bool) :=
  let p (s : string) := bool_decide (take 5 copy = chars s) in
  if p "le16:"%string then Some (2%nat, true)
  else if p "le32:"%string then Some (4%nat, true)
  else if p "le64:"%string then Some (8%nat, true)
  else if p "be16:"%string then Some (2%nat, false)
  else if p "be32:"%string then Some (4%nat, false)
  else if p "be64:"%string then Some (8%nat, false)
  else None.

Definition parse_word (value : list Z) (start : nat) : T (list Z * nat) :=
  let n := span (fun c => negb (ascii_isspace c)) (drop start value) in
  tassert (0 <? n)%nat;;
  let copy := take n (drop start value) in
  match word_prefix copy with
  | None => tfail
  | Some (len, little) =>
      let word := match len with
                  | 2%nat => nbdkit_parse_uint16_t (drop 5 copy)
                  | 4%nat => nbdkit_parse_uint32_t (drop 5 copy)
                  | _ => nbdkit_parse_uint64_t (drop 5 copy)
                  end in
      match word with
      | ParseError _ => tfail
      | Value v => mret (if little : bool then rev (be len v) else be len v, (start + n)%nat)
      end
  end.

(** ** The parser *)

Section Parser.
(* [get_extra_param] or [getenv] *)
Context (variable : list Z -> option (list Z)).

(** [@] and what follows; [i] is behind the [@]. *)
Definition parse_offset (value : list Z) (i : nat) (l : list node_id) : T (nat * list node_id) :=
  let relative (sign : Z) : T (nat * list node_id) :=
    let i := (i + 1)%nat in
    if (i =? length value)%nat then tfail
    else with_i64 value i (fun i64 n =>
      if i64 <? 0 then tfail
      else l ← append_expr (EXPR_REL_OFFSET (sign * i64)) l; mret ((i + n)%nat, l)) in
  let c := char_at value i in
  if (i =? length value)%nat then tfail
  else if c =? chr "+" then relative 1
  else if c =? chr "-" then relative (-1)
  else if c =? chr "^" then
    let i := (i + 1)%nat in
    if (i =? length value)%nat then tfail
    else with_i64 value i (fun i64 n =>
      if i64 <? 0 then tfail
      else if negb (is_power_of_2 i64) then tfail
      else l ← append_expr (EXPR_ALIGN_OFFSET i64) l; mret ((i + n)%nat, l))
  else if ascii_isdigit c then
    with_i64 value i (fun i64 n =>
      if i64 <? 0 then tfail
      else l ← append_expr (EXPR_ABS_OFFSET i64) l; mret ((i + n)%nat, l))
  else tfail.

(** The expression before an operator, and the list without it. *)
Definition operand (l : list node_id) : T (node_id * list node_id) :=
  match last l with
  | None => tfail
  | Some id =>
      e ← get_node id;
      if negb (is_data_expr e) then tfail else mret (id, removelast l)
  end.

(** [*N]; [i] is behind the [*]. *)
Definition parse_repeat (value : list Z) (i : nat) (l : list node_id) : T (nat * list node_id) :=
  '(id, l) ← operand l;
  with_i64 value i (fun i64 n =>
    if i64 <? 0 then tfail
    else l ← append_expr (EXPR_REPEAT id i64) l; mret ((i + n)%nat, l)).

(** [[N:M]] *)
Definition parse_slice (value : list Z) (i : nat) (l : list node_id) : T (nat * list node_id) :=
  '(id, l) ← operand l;
  match scan_slice (drop i value) with
  | SliceNone => tfail
  | SliceOverflow | SliceMatch _ _ None => tcrash Undefined
  | SliceMatch k m (Some n) =>
      l ← append_expr (EXPR_SLICE id (u64 k) m) l; mret ((i + n)%nat, l)
  end.

(** [<FILE] and [<(SCRIPT)]; [i] is at the [<]. *)
Definition parse_input (value : list Z) (i : nat) (l : list node_id) : T (nat * list node_id) :=
  if ((i + 1 <? length value)%nat && (char_at value (i + 1) =? chr "("))%bool then
    let i := (i + 2)%nat in
    let flen := get_script value i in
    if (flen =? 0)%nat then tfail
    else l ← append_expr (EXPR_SCRIPT (take flen (drop i value))) l; mret ((i + flen + 1)%nat, l)
  else
    let i := (i + 1)%nat in
    let flen := span (fun c => negb (one_of c "*[) "%string || (c =? 9) || (c =? newline))) (drop i value) in
    if (flen =? 0)%nat then tfail
    else l ← append_expr (EXPR_FILE (take flen (drop i value))) l; mret ((i + flen)%nat, l).

Definition parse_name (value : list Z) (i : nat) (l : list node_id) : T (nat * list node_id) :=
  let '(flen, i) := get_name value i in
  if (flen =? 0)%nat then tfail
  else l ← append_expr (EXPR_NAME (take flen (drop i value))) l; mret ((i + flen)%nat, l).

(** [-> \NAME]; [i] is behind the [-]. *)
Definition parse_assign (value : list Z) (i : nat) (l : list node_id) : T (nat * list node_id) :=
  if negb (char_at value i =? chr ">") then tfail
  else
    '(id, l) ← operand l;
    let '(flen, i) := get_name value (i + 1) in
    if (flen =? 0)%nat then tfail
    else l ← append_expr (EXPR_ASSIGN (take flen (drop i value)) id) l; mret ((i + flen)%nat, l).

Definition parse_byte (value : list Z) (i : nat) (l : list node_id) : T (nat * list node_id) :=
  match scan_i (drop i value) with
  | NoMatch => tfail
  | Overflow => tcrash Undefined
  | Scanned j n =>
      if ((j <? 0) || (255 <? j))%bool then tfail
      else l ← append_expr (EXPR_BYTE j) l; mret ((i + n)%nat, l)
  end.

(** One item that is not parsed recursively: the next index and the list. *)
Definition parse_item (value : list Z) (i : nat) (l : list node_id) : T (nat * list node_id) :=
  let c := char_at value i in
  if c =? chr "#" then mret ((i + 1 + span (fun x => negb (Z.eqb x newline)) (drop (i + 1) value))%nat, l)
  else if c =? chr "@" then parse_offset value (i + 1) l
  else if c =? chr "*" then parse_repeat value (i + 1) l
  else if c =? chr "[" then parse_slice value (i + 1) l
  else if c =? chr "<" then parse_input value i l
  else if c =? dquote then
    '(s, i) ← parse_string value (i + 1);
    l ← append_expr (EXPR_STRING s) l; mret (i, l)
  else if c =? backslash then parse_name value i l
  else if c =? chr "-" then parse_assign value (i + 1) l
  else if ascii_isdigit c then parse_byte value i l
  else if ((c =? chr "l") || (c =? chr "b"))%bool then
    '(s, i) ← parse_word value i;
    l ← append_expr (EXPR_STRING s) l; mret (i, l)
  else if isspace c then mret ((i + 1)%nat, l)
  else tfail.

Definition is_list (e : expr) : bool := match e with EXPR_LIST _ => true | _ => false end.

(** The loop of [parser] from index [i], with the nodes [l] so far.  Returns
    the node of the list and the next index. *)
Fixpoint parser (fuel : nat) (level : nat) (value : list Z) (i : nat) (l : list node_id) : T (node_id * nat) :=
  match fuel with
  | O => tcrash OutOfFuel
  | S fuel =>
      let out i : T (node_id * nat) := id ← new_node (EXPR_LIST l); mret (id, i) in
      let c := char_at value i in
      if (length value <=? i)%nat then if (0 <? level)%nat then tfail else out i
      else if c =? chr "(" then
        '(id, i) ← parser fuel (S level) value (i + 1) [];
        e ← get_node id;
        tassert (is_list e);;
        parser fuel level value i (l ++ [id])
      else if c =? chr ")" then if (level <? 1)%nat then tfail else out (i + 1)%nat
      else if c =? chr "$" then
        let '(flen, i) := get_var value i in
        if (flen =? 0)%nat then tfail
        else
          match variable (take flen (drop i value)) with
          | None => tfail
          | Some content =>
              '(id, _) ← parser fuel 0 content 0 [];
              e ← get_node id;
              tassert (is_list e);;
              parser fuel level value (i + flen) (l ++ [id])
          end
      else
        '(i, l) ← parse_item value i l;
        parser fuel level value i l
  end.
End Parser.
