(* ===== verification/DataEval.v ===== *)
(** * The data plugin: optimizer and evaluator

    Models the second half of [plugins/data/format.c]: [optimize_ast], which
    simplifies the table of expressions, and [evaluate], which writes the
    data into an allocator.  Both follow references between nodes, so they
    take a fuel; the height of the expression is enough for the optimizer,
    and [DataRun] shows that there is enough for the evaluator. *)

From Stdlib Require Import Ascii String.
From S2P Require Import Prelude NbdProtocol Extents Exports Server Connections Backend Plugin Parse Bytes Vector Allocators DataFormat.

#[local] Open Scope Z_scope.

(** ** Optimizer *)

Definition expr_safe_to_inline (e : expr) : bool :=
  match e with
  | EXPR_ASSIGN _ _ | EXPR_NAME _ => false
  | EXPR_ABS_OFFSET _ | EXPR_REL_OFFSET _ | EXPR_ALIGN_OFFSET _ => false
  | _ => true
  end.

Fixpoint list_safe_to_inline (l : list node_id) : T bool :=
  match l with
  | [] => mret true
  | id :: l => e ← get_node id; if expr_safe_to_inline e then list_safe_to_inline l else mret false
  end.

Fixpoint expr_is_single_byte (fuel : nat) (e : expr) : T (option Z) :=
  match fuel with
  | O => tcrash OutOfFuel
  | S fuel =>
      match e with
      | EXPR_BYTE b => mret (Some b)
      | EXPR_LIST [id] => e ← get_node id; expr_is_single_byte fuel e
      | EXPR_STRING [b] => mret (Some b)
      | EXPR_FILL b n => mret (if n =? 1 then Some b else None)
      | EXPR_REPEAT id n => if n =? 1 then e ← get_node id; expr_is_single_byte fuel e else mret None
      | _ => mret None
      end
  end.

(** [None] is false. *)
Definition exprs_can_combine (e0 e1 : expr) : T (option node_id) :=
  let combined (e : expr) : T (option node_id) := id ← new_node e; mret (Some id) in
  match e0, e1 with
  | EXPR_BYTE b0, EXPR_BYTE b1 => combined (if b0 =? b1 then EXPR_FILL b0 2 else EXPR_STRING [b0; b1])
  | EXPR_BYTE b0, EXPR_STRING s => combined (EXPR_STRING (b0 :: s))
  | EXPR_BYTE b0, EXPR_FILL b1 n =>
      if negb (b0 =? b1) then mret None else combined (EXPR_FILL b1 (u64 (n + 1)))
  | EXPR_STRING s, EXPR_BYTE b1 => combined (EXPR_STRING (s ++ [b1]))
  | EXPR_STRING s, EXPR_STRING s1 => combined (EXPR_STRING (s ++ s1))
  | EXPR_FILL b0 n, EXPR_BYTE b1 =>
      if negb (b0 =? b1) then mret None else combined (EXPR_FILL b0 (u64 (n + 1)))
  | EXPR_FILL b0 n, EXPR_FILL b1 n1 =>
      if negb (b0 =? b1) then mret None else combined (EXPR_FILL b0 (u64 (n + n1)))
  | _, _ => mret None
  end.

(** [MUL_OVERFLOW] at [uint64_t]: the product, if it fits. *)
Definition mul64 (a b : Z) : option Z := if UINT64_MAX <? a * b then None else Some (a * b).

(** The first loop over a list: optimize the elements, leave out nulls and
    inline lists. *)
Fixpoint optimize_elements (opt : node_id -> T node_id) (l acc : list node_id) : T (list node_id) :=
  match l with
  | [] => mret acc
  | id :: l =>
      id ← opt id;
      e ← get_node id;
      match e with
      | EXPR_NULL => optimize_elements opt l acc
      | EXPR_LIST sub =>
          safe ← list_safe_to_inline sub;
          optimize_elements opt l (if safe : bool then acc ++ sub else acc ++ [id])
      | _ => optimize_elements opt l (acc ++ [id])
      end
  end.

(** The second one: [cur] is [list.ptr[i-1]], and [l] starts at [i]. *)
Fixpoint combine_adjacent (acc : list node_id) (cur : node_id) (l : list node_id) : T (list node_id) :=
  match l with
  | [] => mret (acc ++ [cur])
  | id1 :: l =>
      e0 ← get_node cur;
      e1 ← get_node id1;
      r ← exprs_can_combine e0 e1;
      match r with
      | Some id => combine_adjacent acc id l
      | None => combine_adjacent (acc ++ [cur]) id1 l
      end
  end.

Definition optimize_list (opt : node_id -> T node_id) (l : list node_id) : T node_id :=
  l ← optimize_elements opt l [];
  l ← (match l with [] => mret [] | id :: l => combine_adjacent [] id l end);
  match l with
  | [] => new_node EXPR_NULL
  | [id] =>
      e ← get_node id;
      if expr_safe_to_inline e then mret id else new_node (EXPR_LIST l)
  | _ => new_node (EXPR_LIST l)
  end.

Definition optimize_repeat (fuel : nat) (opt : node_id -> T node_id) (id : node_id) (n : Z) : T node_id :=
  if n =? 0 then new_node EXPR_NULL
  else
    id ← opt id;
    e ← get_node id;
    let other : T node_id :=
      b ← expr_is_single_byte fuel e;
      match b with
      | Some b => new_node (EXPR_FILL b n)
      | None => new_node (EXPR_REPEAT id n)
      end in
    if n =? 1 then mret id
    else match e with
         | EXPR_NULL => mret id
         | EXPR_REPEAT id' n' =>
             match mul64 n n' with None => tfail | Some mul => new_node (EXPR_REPEAT id' mul) end
         | EXPR_FILL b n' =>
             match mul64 n n' with None => tfail | Some mul => new_node (EXPR_FILL b mul) end
         | EXPR_STRING s =>
             match mul64 n (Z.of_nat (length s)) with
             | Some mul =>
                 if mul <=? 4096 then new_node (EXPR_STRING (concat (replicate (Z.to_nat n) s))) else other
             | None => other
             end
         | _ => other
         end.

(** The part [[n:m]] of a string or fill of [len] bytes, if it is valid. *)
Definition valid_slice (n m len : Z) : option (Z * Z) :=
  if ((0 <=? m) && (n <=? m) && (m <=? len))%bool then Some (n, m - n)
  else if ((m =? -1) && (n <=? len))%bool then Some (n, len - n)
  else None.

Definition substring (s : list Z) (offset len : Z) : T (list Z) :=
  tassert (offset + len <=? Z.of_nat (length s));;
  mret (take (Z.to_nat len) (drop (Z.to_nat offset) s)).

Definition optimize_slice (opt : node_id -> T node_id) (id : node_id) (n m : Z) : T node_id :=
  if n =? u64 m then new_node EXPR_NULL
  else
    id ← opt id;
    e ← get_node id;
    let other : T node_id := new_node (EXPR_SLICE id n m) in
    match e with
    | EXPR_NULL => if ((m =? 0) || ((n =? 0) && (m =? -1)))%bool then new_node EXPR_NULL else other
    | EXPR_BYTE b => if ((m =? 1) || ((n =? 0) && (m =? -1)))%bool then new_node (EXPR_BYTE b) else other
    | EXPR_STRING s =>
        match valid_slice n m (Z.of_nat (length s)) with
        | Some (n, len) =>
            if len =? 1 then new_node (EXPR_BYTE (nth (Z.to_nat n) s 0))
            else sub ← substring s n len; new_node (EXPR_STRING sub)
        | None => other
        end
    | EXPR_FILL b k =>
        match valid_slice n m k with
        | Some (_, len) => new_node (if len =? 1 then EXPR_BYTE b else EXPR_FILL b len)
        | None => other
        end
    | _ => other
    end.

Definition optimize_string (root : node_id) (s : list Z) : T node_id :=
  match s with
  | [] => new_node EXPR_NULL
  | b :: (_ :: _) as s' =>
      if forallb (Z.eqb b) s then new_node (EXPR_FILL b (Z.of_nat (length s))) else mret root
  | _ => mret root
  end.

Fixpoint optimize_ast (fuel : nat) (root : node_id) : T node_id :=
  match fuel with
  | O => tcrash OutOfFuel
  | S fuel =>
      e ← get_node root;
      match e with
      | EXPR_LIST l => optimize_list (optimize_ast fuel) l
      | EXPR_ASSIGN name id => id ← optimize_ast fuel id; new_node (EXPR_ASSIGN name id)
      | EXPR_REPEAT id n => optimize_repeat fuel (optimize_ast fuel) id n
      | EXPR_SLICE id n m => optimize_slice (optimize_ast fuel) id n m
      | EXPR_STRING s => optimize_string root s
      | EXPR_FILL b n => if n =? 0 then new_node EXPR_NULL else mret root
      | _ => mret root
      end
  end.

(** ** Files and scripts

    What [fread] delivers, whether it ends with an error instead of the end
    of the file, and the result of [fclose] or [pclose]. *)
Record stream : Type := Stream {
  io_data : list Z;
  io_error : bool;
  io_close : Z;
}.

Definition stream_bufsiz : Z := 8192.

Section Evaluate.
(* [f] are the functions [a->f] of allocators of any type *)
Context {S : Type} (f : allocator_functions S).
(* [create_allocator ("sparse", false)] *)
Context (create_allocator : AM (option S)).
(* [None] when they cannot be opened *)
Context (fopen popen : list Z -> option stream).

(** The loop that reads a stream into the allocator: to its end, or [limit]
    bytes.  Every round but the last reads at least one byte. *)
Fixpoint store_loop (fuel : nat) (a : S) (data : list Z) (error : bool) (limit : option Z) (offset : Z)
    : AM (Z * S * Z) :=
  match fuel with
  | O => hfail OutOfFuel
  | Datatypes.S fuel =>
      if match limit with Some len => len <=? 0 | None => false end then mret (0, a, offset)
      else
        let want := match limit with Some len => Z.min len stream_bufsiz | None => stream_bufsiz end in
        let buf := take (Z.to_nat want) data in
        let n := Z.of_nat (length buf) in
        '(r, a) ← (if 0 <? n then af_write f a buf n offset else mret (0, a));
        if r =? -1 then mret (-1, a, offset)
        else if ((n <? want) && error)%bool then mret (-1, a, offset)
        else
          let offset := u64 (offset + n) in
          if n <? want then mret (0, a, offset)
          else store_loop fuel a (drop (Z.to_nat want) data) error ((fun len => len - n) <$> limit) offset
  end.

Definition store_stream (a : S) (s : stream) (limit : option Z) (offset : Z) : AM (Z * S * Z) :=
  store_loop (Datatypes.S (length (io_data s))) a (io_data s) (io_error s) limit offset.

Definition store_file (a : S) (filename : list Z) (offset : Z) : AM (Z * S * Z) :=
  match fopen filename with
  | None => mret (-1, a, offset)
  | Some s =>
      '(r, a, offset) ← store_stream a s None offset;
      if r =? -1 then mret (-1, a, offset)
      else mret (if io_close s =? -1 then -1 else 0, a, offset)
  end.

Definition store_file_slice (a : S) (filename : list Z) (skip end_ offset : Z) : AM (Z * S * Z) :=
  if (((0 <=? end_) && (end_ <? skip)) || (end_ <? -2))%bool then mret (-1, a, offset)
  else
    let len := if 0 <=? end_ then end_ - skip else 0 in
    match fopen filename with
    | None => mret (-1, a, offset)
    | Some s =>
        (* fseek takes a long *)
        if INT64_MAX <? skip then mret (-1, a, offset)
        else
          let s' := Stream (drop (Z.to_nat skip) (io_data s)) (io_error s) (io_close s) in
          '(r, a, offset) ← store_stream a s' (if end_ =? -1 then None else Some len) offset;
          if r =? -1 then mret (-1, a, offset)
          else mret (if io_close s =? -1 then -1 else 0, a, offset)
    end.

Definition store_script (a : S) (script : list Z) (offset : Z) : AM (Z * S * Z) :=
  match popen script with
  | None => mret (-1, a, offset)
  | Some s =>
      '(r, a, offset) ← store_stream a s None offset;
      if r =? -1 then mret (-1, a, offset)
      else mret (if negb (io_close s =? 0) then -1 else 0, a, offset)
  end.

Definition store_script_len (a : S) (script : list Z) (len offset : Z) : AM (Z * S * Z) :=
  match popen script with
  | None => mret (-1, a, offset)
  | Some s =>
      '(r, a, offset) ← store_stream a s (Some len) offset;
      if r =? -1 then mret (-1, a, offset)
      else mret (if io_close s =? -1 then -1 else 0, a, offset)
  end.

(** ** Evaluator *)

(** The innermost assignment first. *)
Definition dict : Type := list (list Z * node_id).

(** The rest of the list after the entry for [name] is its environment. *)
Fixpoint dict_lookup (d : dict) (name : list Z) : option (dict * node_id) :=
  match d with
  | [] => None
  | (x, id) :: d => if bool_decide (x = name) then Some (d, id) else dict_lookup d name
  end.

Context (tbl : table).

Definition node (id : node_id) : AM expr :=
  match tbl !! id with Some e => mret e | None => hfail AssertFailed end.

(** [evaluate] of a node into an allocator, from an offset and a size. *)
Definition evaluator : Type := dict -> node_id -> S -> Z -> Z -> AM (Z * S * Z * Z).

(** A new context: a new allocator, and the offset 0.  The allocator and its
    size. *)
Definition nested (ev : evaluator) (d : dict) (id : node_id) : AM (option (S * Z)) :=
  a2 ← create_allocator;
  match a2 with
  | None => mret None
  | Some a2 =>
      '(r, a2, _, size2) ← ev d id a2 0 0;
      mret (if r =? -1 then None else Some (a2, size2))
  end.

(** [a->f->blit (a2, a, count, offset1, *offset); *offset += count;] *)
Definition blit_at (a2 a : S) (count offset1 offset : Z) : AM (Z * S * Z) :=
  '(r, a) ← af_blit f (fun n o => af_read f a2 n o) a count offset1 offset;
  mret (if r =? -1 then -1 else 0, a, if r =? -1 then offset else u64 (offset + count)).

Fixpoint blit_times (n : nat) (a2 a : S) (size2 offset : Z) : AM (Z * S * Z) :=
  match n with
  | O => mret (0, a, offset)
  | Datatypes.S n =>
      '(r, a, offset) ← blit_at a2 a size2 0 offset;
      if r =? -1 then mret (-1, a, offset) else blit_times n a2 a size2 offset
  end.

(** [list], [expr*N] and [expr[N:M]] that are not treated specially. *)
Definition eval_nested (ev : evaluator) (d : dict) (id : node_id) (a : S) (offset : Z)
    (k : S -> Z -> AM (Z * S * Z)) : AM (Z * S * Z) :=
  o ← nested ev d id;
  match o with
  | None => mret (-1, a, offset)
  | Some (a2, size2) => k a2 size2
  end.

Definition eval_slice (ev : evaluator) (d : dict) (id : node_id) (n m : Z) (a : S) (offset : Z) : AM (Z * S * Z) :=
  e ← node id;
  let general :=
    eval_nested ev d id a offset (fun a2 size2 =>
      let m := if m <? 0 then size2 else m in
      if ((size2 <? n) || (size2 <? m) || (m <? n))%bool then mret (-1, a, offset)
      else blit_at a2 a (m - n) n offset) in
  match e with
  | EXPR_FILE filename => store_file_slice a filename n m offset
  | EXPR_SCRIPT script => if n =? 0 then store_script_len a script m offset else general
  | _ => general
  end.

(** One element of a list: the result, the dictionary, the allocator and the
    offset after it. *)
Definition eval_item (ev : evaluator) (d : dict) (id : node_id) (a : S) (offset : Z) : AM (Z * dict * S * Z) :=
  e ← node id;
  let stored (m : AM (Z * S * Z)) : AM (Z * dict * S * Z) :=
    '(r, a, offset) ← m; mret (r, d, a, offset) in
  let write (m : AM (Z * S)) (len : Z) : AM (Z * dict * S * Z) :=
    '(r, a) ← m;
    mret (if r =? -1 then -1 else 0, d, a, if r =? -1 then offset else u64 (offset + len)) in
  match e with
  | EXPR_NULL => mret (0, d, a, offset)
  | EXPR_BYTE b => write (af_write f a [b] 1 offset) 1
  | EXPR_ABS_OFFSET ui => mret (0, d, a, ui)
  | EXPR_REL_OFFSET i =>
      if ((i <? 0) && (offset <? - i))%bool then mret (-1, d, a, offset)
      else mret (0, d, a, u64 (offset + i))
  | EXPR_ALIGN_OFFSET n =>
      hassert (is_power_of_2 n);;
      mret (0, d, a, Z.land (u64 (offset + n - 1)) (u64 (- n)))
  | EXPR_FILE filename => stored (store_file a filename offset)
  | EXPR_SCRIPT script => stored (store_script a script offset)
  | EXPR_STRING s => write (af_write f a s (Z.of_nat (length s)) offset) (Z.of_nat (length s))
  | EXPR_FILL b n => write (af_fill f a b n offset) n
  | EXPR_ASSIGN name id' => mret (0, (name, id') :: d, a, offset)
  | EXPR_NAME name =>
      match dict_lookup d name with
      | None => mret (-1, d, a, offset)
      | Some (d', id') => stored (eval_nested ev d' id' a offset (fun a2 size2 => blit_at a2 a size2 0 offset))
      end
  | EXPR_LIST _ => stored (eval_nested ev d id a offset (fun a2 size2 => blit_at a2 a size2 0 offset))
  | EXPR_REPEAT id' n =>
      stored (eval_nested ev d id' a offset (fun a2 size2 => blit_times (Z.to_nat n) a2 a size2 offset))
  | EXPR_SLICE id' n m => stored (eval_slice ev d id' n m a offset)
  end.

Fixpoint eval_list (ev : evaluator) (d : dict) (l : list node_id) (a : S) (offset size : Z) : AM (Z * S * Z * Z) :=
  match l with
  | [] => mret (0, a, offset, size)
  | id :: l =>
      '(r, d, a, offset) ← eval_item ev d id a offset;
      if r =? -1 then mret (-1, a, offset, size)
      else eval_list ev d l a offset (if size <? offset then offset else size)
  end.

Fixpoint evaluate (fuel : nat) : evaluator := fun d root a offset size =>
  match fuel with
  | O => hfail OutOfFuel
  | Datatypes.S fuel =>
      e ← node root;
      eval_list (evaluate fuel) d (match e with EXPR_LIST l => l | _ => [root] end) a offset size
  end.
End Evaluate.

(** ** [read_data_format] *)

Section Read.
Context {S : Type} (f : allocator_functions S) (create_allocator : AM (option S)).
Context (fopen popen : list Z -> option stream) (variable : list Z -> option (list Z)).

(** The result, the allocator and [*size_rtn], which starts at [size]. *)
Definition read_data_format (fuel : nat) (value : list Z) (a : S) (size : Z) : AM (Z * S * Z) :=
  match ('(root, _) ← parser variable fuel 0 value 0 []; optimize_ast fuel root) [] with
  | Crash c => hfail c
  | Ok (None, _) => mret (-1, a, size)
  | Ok (Some root, tbl) =>
      '(r, a, _, size) ← evaluate f create_allocator fopen popen tbl fuel [] root a 0 size;
      mret (r, a, size)
  end.
End Read.
