(* ===== verification/DataSem.v ===== *)
(** * The data plugin: what expressions mean

    The meaning of the data format as the manual page gives it: an
    expression is a sequence of bytes, a list of expressions is written
    piece by piece at an offset that some expressions move, and names stand
    for what was assigned to them in the scope where the assignment was
    made.  [item] is the meaning of an expression as an element of a list,
    [value] that of an expression by itself; both are [None] where the data
    is not defined.  [rep] relates nodes of the table to the expressions they
    stand for. *)

From S2P Require Import Prelude NbdProtocol Extents Exports Server Connections Backend Plugin Parse Bytes Vector Allocators DataFormat DataEval.

(** ** Trees *)

Inductive tree : Type :=
| TNull
| TList (l : list tree)
| TByte (b : Z)
| TAbs (ui : Z)
| TRel (i : Z)
| TAlign (n : Z)
| TFile (filename : list Z)
| TScript (script : list Z)
| TString (s : list Z)
| TFill (b n : Z)
| TName (name : list Z)
| TAssign (name : list Z) (t : tree)
| TRepeat (t : tree) (n : Z)
| TSlice (t : tree) (n m : Z).

Section TreeInd.
Context (P : tree -> Prop).
Context (Hnull : P TNull) (Hlist : forall l, Forall P l -> P (TList l)) (Hbyte : forall b, P (TByte b)).
Context (Habs : forall ui, P (TAbs ui)) (Hrel : forall i, P (TRel i)) (Halign : forall n, P (TAlign n)).
Context (Hfile : forall s, P (TFile s)) (Hscript : forall s, P (TScript s)) (Hstring : forall s, P (TString s)).
Context (Hfill : forall b n, P (TFill b n)) (Hname : forall x, P (TName x)).
Context (Hassign : forall x t, P t -> P (TAssign x t)) (Hrepeat : forall t n, P t -> P (TRepeat t n)).
Context (Hslice : forall t n m, P t -> P (TSlice t n m)).

Fixpoint tree_nested_ind (t : tree) : P t :=
  match t with
  | TNull => Hnull
  | TList l => Hlist l ((fix go l : Forall P l :=
      match l with [] => Forall_nil_2 P | t :: l => Forall_cons_2 P t l (tree_nested_ind t) (go l) end) l)
  | TByte b => Hbyte b
  | TAbs ui => Habs ui
  | TRel i => Hrel i
  | TAlign n => Halign n
  | TFile s => Hfile s
  | TScript s => Hscript s
  | TString s => Hstring s
  | TFill b n => Hfill b n
  | TName x => Hname x
  | TAssign x t => Hassign x t (tree_nested_ind t)
  | TRepeat t n => Hrepeat t n (tree_nested_ind t)
  | TSlice t n m => Hslice t n m (tree_nested_ind t)
  end.
End TreeInd.

Fixpoint height (t : tree) : nat :=
  match t with
  | TList l => S (foldr (fun t n => Nat.max (height t) n) 0%nat l)
  | TAssign _ t | TRepeat t _ | TSlice t _ _ => S (height t)
  | _ => 1%nat
  end.

(** ** Documents *)

(** The bytes written so far and the offset, inside the bytes; [None] when
    the data would get too large for a disk. *)
Definition put (d : list Z) (o : Z) (v : list Z) : option (list Z * Z) :=
  let e := o + Z.of_nat (length v) in
  if INT64_MAX <? e then None
  else Some (take (Z.to_nat o) d ++ v ++ drop (Z.to_nat e) d, e).

Definition move (d : list Z) (o : Z) : option (list Z * Z) :=
  if INT64_MAX <? o then None else Some (d ++ memset 0 (o - Z.of_nat (length d)), o).

Definition repeat_list (n : Z) (v : list Z) : list Z := concat (replicate (Z.to_nat n) v).

(** [v[n:m]]; a negative [m] is the end. *)
Definition slice_list (v : list Z) (n m : Z) : option (list Z) :=
  let len := Z.of_nat (length v) in
  let m := if m <? 0 then len else m in
  if ((len <? n) || (len <? m) || (m <? n))%bool then None
  else Some (take (Z.to_nat (m - n)) (drop (Z.to_nat n) v)).

Section Meaning.
Context (fopen popen : list Z -> option stream).

(** What is read from a stream, or the first [len] bytes of it. *)
Definition stream_all (s : stream) : option (list Z) := if io_error s then None else Some (io_data s).
Definition stream_first (s : stream) (len : Z) : option (list Z) :=
  if (io_error s && (Z.of_nat (length (io_data s)) <? len))%bool then None else Some (take (Z.to_nat len) (io_data s)).

Definition file_data (filename : list Z) : option (list Z) :=
  s ← fopen filename; v ← stream_all s; if io_close s =? -1 then None else Some v.
Definition script_data (script : list Z) : option (list Z) :=
  s ← popen script; v ← stream_all s; if io_close s =? 0 then Some v else None.

(** [<FILE[n:m]] stops at the end of the file. *)
Definition file_slice (filename : list Z) (n m : Z) : option (list Z) :=
  if (((0 <=? m) && (m <? n)) || (m <? -2) || (INT64_MAX <? n))%bool then None
  else
    s ← fopen filename;
    let s := Stream (drop (Z.to_nat n) (io_data s)) (io_error s) (io_close s) in
    v ← (if m =? -1 then stream_all s else stream_first s (if 0 <=? m then m - n else 0));
    if io_close s =? -1 then None else Some v.

(** [<(SCRIPT)[:m]] stops at the end of the output. *)
Definition script_first (script : list Z) (m : Z) : option (list Z) :=
  s ← popen script; v ← stream_first s m; if io_close s =? -1 then None else Some v.

(** ** Meaning *)

(** Names and their values in the scope of the assignment. *)
Definition env : Type := list (list Z * option (list Z)).

Fixpoint env_lookup (r : env) (x : list Z) : option (list Z) :=
  match r with
  | [] => None
  | (y, v) :: r => if bool_decide (y = x) then v else env_lookup r x
  end.

Definition put_value (r : env) (d : list Z) (o : Z) (v : option (list Z)) : option (env * list Z * Z) :=
  v ← v; '(d, o) ← put d o v; Some (r, d, o).

Definition move_to (r : env) (d : list Z) (o : Z) : option (env * list Z * Z) :=
  '(d, o) ← move d o; Some (r, d, o).

Definition document (x : option (env * list Z * Z)) : option (list Z) := '(_, d, _) ← x; Some d.

Fixpoint item (t : tree) (r : env) (d : list Z) (o : Z) {struct t} : option (env * list Z * Z) :=
  let run := fix run (l : list tree) (r : env) (d : list Z) (o : Z) : option (env * list Z * Z) :=
    match l with
    | [] => Some (r, d, o)
    | t :: l => '(r, d, o) ← item t r d o; run l r d o
    end in
  match t with
  | TNull => Some (r, d, o)
  | TByte b => put_value r d o (Some [b])
  | TAbs ui => move_to r d ui
  | TRel i => if o + i <? 0 then None else move_to r d (o + i)
  | TAlign n => move_to r d (o + n - 1 - (o + n - 1) mod n)
  | TFile s => put_value r d o (file_data s)
  | TScript s => put_value r d o (script_data s)
  | TString s => put_value r d o (Some s)
  | TFill b n => put_value r d o (Some (memset b n))
  | TName x => put_value r d o (env_lookup r x)
  | TAssign x t => Some ((x, document (item t r [] 0)) :: r, d, o)
  | TList l => put_value r d o (document (run l r [] 0))
  | TRepeat t n => put_value r d o (repeat_list n <$> document (item t r [] 0))
  | TSlice t n m =>
      let general := v ← document (item t r [] 0); slice_list v n m in
      put_value r d o
        (match t with
         | TFile s => file_slice s n m
         | TScript s => if ((n =? 0) && (0 <=? m))%bool then script_first s m else general
         | _ => general
         end)
  end.

Fixpoint run (l : list tree) (r : env) (d : list Z) (o : Z) : option (env * list Z * Z) :=
  match l with
  | [] => Some (r, d, o)
  | t :: l => '(r, d, o) ← item t r d o; run l r d o
  end.

(** The bytes that an expression stands for. *)
Definition value (t : tree) (r : env) : option (list Z) := document (item t r [] 0).
End Meaning.

(** ** Nodes *)

Section Rep.
Context (tbl : table).

Inductive rep : node_id -> tree -> Prop :=
| rep_null id : tbl !! id = Some EXPR_NULL -> rep id TNull
| rep_list id l ts : tbl !! id = Some (EXPR_LIST l) -> Forall2 rep l ts -> rep id (TList ts)
| rep_byte id b : tbl !! id = Some (EXPR_BYTE b) -> rep id (TByte b)
| rep_abs id ui : tbl !! id = Some (EXPR_ABS_OFFSET ui) -> rep id (TAbs ui)
| rep_rel id i : tbl !! id = Some (EXPR_REL_OFFSET i) -> rep id (TRel i)
| rep_align id n : tbl !! id = Some (EXPR_ALIGN_OFFSET n) -> rep id (TAlign n)
| rep_file id s : tbl !! id = Some (EXPR_FILE s) -> rep id (TFile s)
| rep_script id s : tbl !! id = Some (EXPR_SCRIPT s) -> rep id (TScript s)
| rep_string id s : tbl !! id = Some (EXPR_STRING s) -> rep id (TString s)
| rep_fill id b n : tbl !! id = Some (EXPR_FILL b n) -> rep id (TFill b n)
| rep_name id x : tbl !! id = Some (EXPR_NAME x) -> rep id (TName x)
| rep_assign id x id' t : tbl !! id = Some (EXPR_ASSIGN x id') -> rep id' t -> rep id (TAssign x t)
| rep_repeat id id' t n : tbl !! id = Some (EXPR_REPEAT id' n) -> rep id' t -> rep id (TRepeat t n)
| rep_slice id id' t n m : tbl !! id = Some (EXPR_SLICE id' n m) -> rep id' t -> rep id (TSlice t n m).
End Rep.

(** Induction under a list of nodes. *)
Lemma Forall2_Forall_r {A B} (R R' : A -> B -> Prop) l l' :
  Forall2 R l l' -> Forall (fun y => forall x, R x y -> R' x y) l' -> Forall2 R' l l'.
Proof. induction 1; [constructor|]. intros [? ?]%Forall_cons. constructor; auto. Qed.

(** Adding nodes changes nothing. *)
Lemma rep_prefix tbl tbl' id t : tbl `prefix_of` tbl' -> rep tbl id t -> rep tbl' id t.
Proof.
  intros Hp. assert (Hl : forall id e, tbl !! id = Some e -> tbl' !! id = Some e)
    by (intros ? ? ?; by eapply prefix_lookup_Some).
  revert id. induction t as [|l IH| | | | | | | | | | | |] using tree_nested_ind; intros id Hr;
    inversion Hr; subst; try (by econstructor; eauto).
  eapply rep_list; [by apply Hl|]. by eapply Forall2_Forall_r.
Qed.

(** ** Documents *)

Section Documents.
Implicit Types (d v : list Z) (o : Z).

Definition inside d o : Prop := 0 <= o <= Z.of_nat (length d).

Lemma put_ok d o v d' o' : put d o v = Some (d', o') ->
  d' = take (Z.to_nat o) d ++ v ++ drop (Z.to_nat (o + Z.of_nat (length v))) d /\
  o' = o + Z.of_nat (length v) /\ o' <= INT64_MAX.
Proof. unfold put. destruct (Z.ltb_spec INT64_MAX (o + Z.of_nat (length v))); [done|]. intros [= <- <-]. done. Qed.

Lemma put_inside d o v d' o' : inside d o -> put d o v = Some (d', o') ->
  inside d' o' /\ Z.of_nat (length d') = Z.max (Z.of_nat (length d)) o'.
Proof.
  unfold inside. intros Ho (-> & -> & _)%put_ok. rewrite !length_app, length_take, length_drop. lia.
Qed.

Lemma put_nil d o : inside d o -> o <= INT64_MAX -> put d o [] = Some (d, o).
Proof.
  intros Ho Hm. unfold put. simpl. rewrite Z.add_0_r, (proj2 (Z.ltb_ge INT64_MAX o)) by lia. by rewrite take_drop.
Qed.

(** Writing two pieces is writing them together. *)
Lemma put_app d o v1 v2 : inside d o ->
  put d o (v1 ++ v2) = ('(d, o) ← put d o v1; put d o v2).
Proof.
  intros Ho. unfold put. rewrite length_app, Nat2Z.inj_add.
  destruct (Z.ltb_spec INT64_MAX (o + Z.of_nat (length v1))) as [Hbig|Hbig]; simpl.
  { destruct (Z.ltb_spec INT64_MAX (o + (Z.of_nat (length v1) + Z.of_nat (length v2)))); [done|lia]. }
  rewrite Z.add_assoc. destruct (Z.ltb_spec INT64_MAX (o + Z.of_nat (length v1) + Z.of_nat (length v2))); [done|].
  f_equal. f_equal. unfold inside in Ho.
  assert (Hlen : length (take (Z.to_nat o) d ++ v1) = Z.to_nat (o + Z.of_nat (length v1)))
    by (rewrite length_app, length_take; lia).
  rewrite (app_assoc (take (Z.to_nat o) d) v1). rewrite take_app_length' by done.
  rewrite drop_app_ge, Hlen, drop_drop by lia. rewrite <- !app_assoc. do 4 f_equal. lia.
Qed.

Lemma put_empty v : Z.of_nat (length v) <= INT64_MAX -> put [] 0 v = Some (v, Z.of_nat (length v)).
Proof.
  intros Hv. unfold put. simpl. rewrite (proj2 (Z.ltb_ge _ _)) by lia.
  rewrite drop_nil, app_nil_r. done.
Qed.

Lemma move_ok d o d' o' : move d o = Some (d', o') ->
  d' = d ++ memset 0 (o - Z.of_nat (length d)) /\ o' = o /\ o <= INT64_MAX.
Proof. unfold move. destruct (Z.ltb_spec INT64_MAX o); [done|]. by intros [= <- <-]. Qed.

Lemma move_inside d o d' o' : 0 <= o -> move d o = Some (d', o') ->
  inside d' o' /\ Z.of_nat (length d') = Z.max (Z.of_nat (length d)) o'.
Proof.
  unfold inside. intros Ho (-> & -> & _)%move_ok. rewrite length_app, length_memset. lia.
Qed.
End Documents.

(** ** Properties of the meaning *)

Section Meaning.
Context (fopen popen : list Z -> option stream).
Notation item := (item fopen popen).
Notation run := (run fopen popen).
Notation value := (value fopen popen).
Implicit Types (t : tree) (r : env) (d : list Z) (o : Z).

(** Expressions that are bytes wherever they are written. *)
Definition is_data (t : tree) : bool :=
  match t with TAbs _ | TRel _ | TAlign _ | TAssign _ _ => false | _ => true end.

(** The numbers are in the ranges that the parser checks. *)
Inductive wf_tree : tree -> Prop :=
| wf_null : wf_tree TNull
| wf_list l : Forall wf_tree l -> wf_tree (TList l)
| wf_byte b : wf_tree (TByte b)
| wf_abs ui : 0 <= ui -> wf_tree (TAbs ui)
| wf_rel i : - INT64_MAX <= i <= INT64_MAX -> wf_tree (TRel i)
| wf_align k : 0 <= k < 63 -> wf_tree (TAlign (2 ^ k))
| wf_file s : wf_tree (TFile s)
| wf_script s : wf_tree (TScript s)
| wf_string s : wf_tree (TString s)
| wf_fill b n : 0 <= n -> wf_tree (TFill b n)
| wf_name x : wf_tree (TName x)
| wf_assign x t : wf_tree t -> wf_tree (TAssign x t)
| wf_repeat t n : 0 <= n -> wf_tree t -> wf_tree (TRepeat t n)
| wf_slice t n m : 0 <= n <= UINT64_MAX -> m <= INT64_MAX -> wf_tree t -> wf_tree (TSlice t n m).

Definition doc_ok d o : Prop := inside d o /\ Z.of_nat (length d) <= INT64_MAX.

Lemma doc_ok_empty : doc_ok [] 0.
Proof. split; [split; simpl; lia|]. simpl. by limits. Qed.

Lemma item_list l r d o : item (TList l) r d o = put_value r d o (document (run l r [] 0)).
Proof. reflexivity. Qed.

Lemma run_app l1 l2 r d o : run (l1 ++ l2) r d o = ('(r, d, o) ← run l1 r d o; run l2 r d o).
Proof.
  revert r d o. induction l1 as [|t l1 IH]; intros r d o; simpl; [done|].
  destruct (item t r d o) as [[[r1 d1] o1]|]; simpl; [apply IH|done].
Qed.

Lemma put_value_Some r d o v r' d' o' : put_value r d o v = Some (r', d', o') ->
  r' = r /\ exists bs, v = Some bs /\ put d o bs = Some (d', o').
Proof.
  unfold put_value. destruct v as [bs|]; simpl; [|done].
  destruct (put d o bs) as [[d1 o1]|] eqn:E; simpl; [|done]. intros [= <- <- <-]. eauto.
Qed.

Lemma put_doc_ok d o v d' o' : doc_ok d o -> put d o v = Some (d', o') ->
  doc_ok d' o' /\ Z.of_nat (length d') = Z.max (Z.of_nat (length d)) o'.
Proof.
  intros [Hi Hm] Hp. destruct (put_inside _ _ _ _ _ Hi Hp) as [Hi' Hl]. apply put_ok in Hp as (_ & _ & Ho').
  split; [split; [done|lia]|done].
Qed.

Lemma put_value_ok r d o v r' d' o' : doc_ok d o -> put_value r d o v = Some (r', d', o') ->
  doc_ok d' o' /\ Z.of_nat (length d') = Z.max (Z.of_nat (length d)) o'.
Proof. intros Hok (_ & bs & _ & Hp)%put_value_Some. by eapply put_doc_ok. Qed.

Lemma move_to_ok r d o o' r' d' o2 : doc_ok d o -> 0 <= o' -> move_to r d o' = Some (r', d', o2) ->
  doc_ok d' o2 /\ Z.of_nat (length d') = Z.max (Z.of_nat (length d)) o2.
Proof.
  intros [Hi Hm] Ho. unfold move_to. destruct (move d o') as [[d1 o1]|] eqn:E; [|done]. intros [= <- <- <-].
  destruct (move_inside _ _ _ _ Ho E) as [Hi' Hl]. apply move_ok in E as (_ & -> & Hm'). split; [split; [done|lia]|done].
Qed.

(** The offset stays inside the bytes, which grow up to it. *)
Lemma item_ok t r d o r' d' o' : wf_tree t -> doc_ok d o -> item t r d o = Some (r', d', o') ->
  doc_ok d' o' /\ Z.of_nat (length d') = Z.max (Z.of_nat (length d)) o'.
Proof.
  intros Hwf Hok. pose proof Hok as [[Ho1 Ho2] Hm].
  destruct t; try (apply put_value_ok, Hok); simpl; intros E.
  - injection E as <- <- <-. split; [done|lia].
  - eapply move_to_ok; [exact Hok| |exact E]. by inversion Hwf.
  - destruct (Z.ltb_spec (o + i) 0); [done|]. eapply move_to_ok; [exact Hok| |exact E]. lia.
  - eapply move_to_ok; [exact Hok| |exact E]. inversion Hwf; subst.
    pose proof (Z.pow_pos_nonneg 2 k ltac:(lia) ltac:(lia)).
    pose proof (Z.mod_le (o + 2 ^ k - 1) (2 ^ k)). lia.
  - injection E as <- <- <-. split; [done|lia].
Qed.

Lemma run_ok l r d o r' d' o' : Forall wf_tree l -> doc_ok d o -> run l r d o = Some (r', d', o') ->
  doc_ok d' o' /\ Z.of_nat (length d) <= Z.of_nat (length d').
Proof.
  intros Hl. revert r d o. induction Hl as [|t l Ht _ IH]; intros r d o Hok; simpl.
  { by intros [= <- <- <-]. }
  destruct (item t r d o) as [[[r1 d1] o1]|] eqn:E; simpl; [|done]. intros Hr.
  destruct (item_ok _ _ _ _ _ _ _ Ht Hok E) as [Hok1 Hl1].
  destruct (IH _ _ _ Hok1 Hr) as [Hok2 Hle]. split; [done|lia].
Qed.

Lemma document_Some x v : document x = Some v -> exists r o, x = Some (r, v, o).
Proof. unfold document. destruct x as [[[r d] o]|]; [|done]. intros [= <-]. eauto. Qed.

Lemma value_bound t r v : wf_tree t -> value t r = Some v -> Z.of_nat (length v) <= INT64_MAX.
Proof.
  intros Hwf (r' & o & E)%document_Some. by destruct (item_ok _ _ _ _ _ _ _ Hwf doc_ok_empty E) as [[_ H] _].
Qed.

(** What [put] does with a value does not depend on where the value comes
    from. *)
Lemma put_value_empty r v : document (put_value r [] 0 v) =
  (v ← v; if INT64_MAX <? Z.of_nat (length v) then None else Some v).
Proof.
  destruct v as [v|]; [|done]. cbn [mbind option_bind put_value].
  case_eq (INT64_MAX <? Z.of_nat (length v)); intros Hc.
  - unfold put. by rewrite Z.add_0_l, Hc.
  - rewrite put_empty; [done|]. lia.
Qed.

Lemma put_value_large r d o v : doc_ok d o -> put_value r d o v = put_value r d o (document (put_value r [] 0 v)).
Proof.
  intros [[Ho _] _]. rewrite put_value_empty. destruct v as [v|]; [|done]. cbn [mbind option_bind].
  case_eq (INT64_MAX <? Z.of_nat (length v)); intros Hc; [|done].
  unfold put_value, put. cbn [mbind option_bind]. by rewrite (proj2 (Z.ltb_lt INT64_MAX (o + _))) by lia.
Qed.

(** Data is its value, wherever it is written. *)
Lemma data_item t r d o : is_data t = true -> doc_ok d o -> item t r d o = put_value r d o (value t r).
Proof.
  intros Hd Hok. unfold value. destruct t; try done; try (by apply put_value_large).
  simpl. unfold put_value. simpl. destruct Hok as [Hi Hm]. rewrite put_nil; [done|done|]. unfold inside in Hi. lia.
Qed.

Lemma value_list l r : Forall wf_tree l -> value (TList l) r = document (run l r [] 0).
Proof.
  intros Hl. unfold value. rewrite item_list, put_value_empty.
  destruct (run l r [] 0) as [[[r' d] o]|] eqn:E; [|done]. simpl.
  destruct (run_ok _ _ _ _ _ _ _ Hl doc_ok_empty E) as ([_ Hm] & _). by rewrite (proj2 (Z.ltb_ge _ _)).
Qed.

(** ** Refinement

    [t'] may be used instead of [t]: wherever [t] is defined, [t'] is the
    same. *)

Definition opt_le (x y : option (list Z)) : Prop := forall v, x = Some v -> y = Some v.

Definition env_le : env -> env -> Prop :=
  Forall2 (fun p q => p.1 = q.1 /\ opt_le p.2 q.2).

Definition result_le (x y : option (env * list Z * Z)) : Prop :=
  forall r d o, x = Some (r, d, o) -> exists r', y = Some (r', d, o) /\ env_le r r'.

Definition refines t t' : Prop := forall r r' d o, env_le r r' -> doc_ok d o ->
  result_le (item t r d o) (item t' r' d o).

Definition refines_list l l' : Prop := forall r r' d o, env_le r r' -> doc_ok d o ->
  result_le (run l r d o) (run l' r' d o).

#[global] Instance opt_le_refl : Reflexive opt_le.
Proof. by intros x v. Qed.
#[global] Instance opt_le_trans : Transitive opt_le.
Proof. intros x y z H1 H2 v Hv. auto. Qed.

#[global] Instance env_le_refl : Reflexive env_le.
Proof. intros r. unfold env_le. by induction r; constructor. Qed.
#[global] Instance env_le_trans : Transitive env_le.
Proof.
  intros r1 r2 r3 H12. revert r3. induction H12 as [|p q r1 r2 [Hx Hv] _ IH]; intros r3 H23;
    inversion H23 as [|? z ? r3' [Hy Hw] H]; subst; constructor; [|by apply IH].
  split; congruence || by etrans.
Qed.

Lemma env_le_lookup r r' x : env_le r r' -> opt_le (env_lookup r x) (env_lookup r' x).
Proof.
  induction 1 as [|[y v] [z w] r r' [Hx Hv] _ IH]; simpl in *; [done|]. subst. by case_bool_decide.
Qed.

#[global] Instance result_le_refl : Reflexive result_le.
Proof. intros x r d o ->. by exists r. Qed.
#[global] Instance result_le_trans : Transitive result_le.
Proof.
  intros x y z H12 H23 r d o E. destruct (H12 r d o E) as (r2 & E2 & Hr2).
  destruct (H23 _ _ _ E2) as (r3 & E3 & Hr3). exists r3. split; [done|]. by etrans.
Qed.

Lemma result_le_put r r' d o v v' : env_le r r' -> opt_le v v' -> result_le (put_value r d o v) (put_value r' d o v').
Proof.
  intros Hr Hv r1 d1 o1 (-> & bs & -> & Hp)%put_value_Some. exists r'. split; [|done].
  unfold put_value. rewrite (Hv bs eq_refl). simpl. by rewrite Hp.
Qed.

Lemma result_le_move r r' d o : env_le r r' -> result_le (move_to r d o) (move_to r' d o).
Proof.
  intros Hr r1 d1 o1. unfold move_to. destruct (move d o) as [[d2 o2]|]; [|done]. intros [= <- <- <-]. eauto.
Qed.

Lemma result_le_document x y : result_le x y -> opt_le (document x) (document y).
Proof. intros H v (r & o & ->)%document_Some. destruct (H _ _ _ eq_refl) as (r' & -> & _). done. Qed.

Lemma result_le_bind x y (f g : env -> list Z -> Z -> option (env * list Z * Z)) :
  result_le x y -> (forall r r' d o, env_le r r' -> x = Some (r, d, o) -> result_le (f r d o) (g r' d o)) ->
  result_le ('(r, d, o) ← x; f r d o) ('(r, d, o) ← y; g r d o).
Proof.
  intros Hxy Hfg r d o. destruct x as [[[r1 d1] o1]|]; [|done]. simpl. intros E.
  destruct (Hxy _ _ _ eq_refl) as (r1' & -> & Hr). simpl. by eapply Hfg.
Qed.

Lemma opt_le_fmap (g : list Z -> list Z) x y : opt_le x y -> opt_le (g <$> x) (g <$> y).
Proof. intros H v. destruct x as [w|]; [|done]. by rewrite (H w eq_refl). Qed.

Lemma opt_le_bind (g : list Z -> option (list Z)) x y : opt_le x y -> opt_le (x ≫= g) (y ≫= g).
Proof. intros H v. destruct x as [w|]; [|done]. by rewrite (H w eq_refl). Qed.
End Meaning.
