(* ===== verification/DataLaws.v ===== *)
(** * The data plugin: laws of the data format

    The rewritings of expressions that the optimizer relies on: which
    expressions may stand in for which others. *)

From S2P Require Import Prelude NbdProtocol Extents Exports Server Connections Backend Plugin Parse Bytes Vector Allocators DataFormat DataEval DataSem.

Section Laws.
Context (fopen popen : list Z -> option stream).
Notation item := (item fopen popen).
Notation run := (run fopen popen).
Notation value := (value fopen popen).
Notation refines := (refines fopen popen).
Notation refines_list := (refines_list fopen popen).
Implicit Types (t : tree) (l : list tree) (r : env) (d : list Z) (o : Z).

(** ** Environments *)

Lemma run_mono l r r' d o :
  Forall (fun t => forall r r' d o, env_le r r' -> result_le (item t r d o) (item t r' d o)) l ->
  env_le r r' -> result_le (run l r d o) (run l r' d o).
Proof.
  intros Hl. revert r r' d o. induction Hl as [|t l Ht _ IH]; intros r r' d o Hr; simpl.
  { intros ? ? ? [= <- <- <-]. eauto. }
  apply result_le_bind; [by apply Ht|]. intros. by apply IH.
Qed.

(** More names never hurt. *)
Lemma item_mono t r r' d o : env_le r r' -> result_le (item t r d o) (item t r' d o).
Proof.
  revert r r' d o. induction t as [|l IH| | | | | | | | |x|x t IH|t n IH|t n m IH] using tree_nested_ind;
    intros r r' d o Hr; try (apply result_le_put; done); try (apply result_le_move; done).
  - intros ? ? ? [= <- <- <-]. eauto.
  - rewrite !item_list. apply result_le_put; [done|]. apply result_le_document. by apply run_mono.
  - simpl. destruct (o + i <? 0); [done|]. by apply result_le_move.
  - apply result_le_put; [done|]. by apply env_le_lookup.
  - intros ? ? ? [= <- <- <-]. eexists. split; [done|]. constructor; [|done].
    split; [done|]. apply result_le_document. by apply IH.
  - apply result_le_put; [done|]. apply opt_le_fmap. apply result_le_document. by apply IH.
  - assert (Hg : opt_le (v ← value t r; slice_list v n m) (v ← value t r'; slice_list v n m))
      by (apply opt_le_bind, result_le_document; by apply IH).
    apply result_le_put; [done|]. destruct t; try exact Hg; [reflexivity|].
    destruct (_ && _)%bool; [reflexivity|exact Hg].
Qed.

#[global] Instance refines_refl : Reflexive refines.
Proof. intros t r r' d o Hr _. by apply item_mono. Qed.

#[global] Instance refines_trans : Transitive refines.
Proof.
  intros t1 t2 t3 H12 H23 r r' d o Hr Hok. etrans; [by apply (H12 r r)|]. by apply H23.
Qed.

#[global] Instance refines_list_refl : Reflexive refines_list.
Proof. intros l r r' d o Hr _. apply run_mono; [|done]. apply Forall_true. intros. by apply item_mono. Qed.

#[global] Instance refines_list_trans : Transitive refines_list.
Proof.
  intros l1 l2 l3 H12 H23 r r' d o Hr Hok. etrans; [by apply (H12 r r)|]. by apply H23.
Qed.

Lemma refines_value t t' r r' : refines t t' -> env_le r r' -> opt_le (value t r) (value t' r').
Proof. intros H Hr. apply result_le_document, H; [done|]. apply doc_ok_empty. Qed.

(** ** Lists *)

Lemma refines_list_app l1 l1' l2 l2' : Forall wf_tree l1 ->
  refines_list l1 l1' -> refines_list l2 l2' -> refines_list (l1 ++ l2) (l1' ++ l2').
Proof.
  intros Hwf H1 H2 r r' d o Hr Hok. rewrite !run_app.
  apply result_le_bind; [by apply H1|]. intros r1 r1' d1 o1 Hr1 E. apply H2; [done|].
  by eapply run_ok.
Qed.

Lemma run_singleton t r d o : run [t] r d o = item t r d o.
Proof. simpl. by destruct (item t r d o) as [[[? ?] ?]|]. Qed.

Lemma refines_singleton t t' : refines t t' -> refines_list [t] [t'].
Proof. intros H r r' d o Hr Hok. rewrite !run_singleton. by apply H. Qed.

Lemma refines_list_null : refines_list [TNull] [].
Proof. intros r r' d o Hr Hok ? ? ? [= <- <- <-]. eauto. Qed.

Lemma refines_null_nil : refines_list [] [TNull].
Proof. intros r r' d o Hr Hok ? ? ? [= <- <- <-]. eauto. Qed.

(** A list of data is the concatenation of its elements. *)
Fixpoint values l r : option (list Z) :=
  match l with
  | [] => Some []
  | t :: l => v ← value t r; vs ← values l r; Some (v ++ vs)
  end.

Lemma values_ok l r d o : Forall wf_tree l -> Forall (fun t => is_data t = true) l -> doc_ok d o ->
  run l r d o = put_value r d o (values l r).
Proof.
  intros Hwf Hl. revert d o Hwf. induction Hl as [|t l Ht Hl IH]; intros d o Hwf Hok.
  { destruct Hok as [Hi Hm]. simpl. unfold put_value. simpl. rewrite put_nil; [done|done|]. unfold inside in Hi. lia. }
  inversion_clear Hwf. cbn [run]. rewrite data_item by done. cbn [values].
  destruct (value t r) as [v|]; [|done]. unfold put_value at 1. cbn [mbind option_bind].
  assert (Happ : forall vs, put d o (v ++ vs) = ('(d, o) ← put d o v; put d o vs)) by (intros; apply put_app, Hok).
  destruct (put d o v) as [[d1 o1]|] eqn:E; cbn [mbind option_bind].
  - rewrite IH; [|done|by eapply put_doc_ok].
    destruct (values l r) as [vs|]; [|done]. unfold put_value. cbn [mbind option_bind]. by rewrite Happ.
  - destruct (values l r) as [vs|]; [|done]. unfold put_value. cbn [mbind option_bind]. by rewrite Happ.
Qed.

Lemma refines_inline l : Forall wf_tree l -> Forall (fun t => is_data t = true) l -> refines_list [TList l] l.
Proof.
  intros Hwf Hl r r' d o Hr Hok. rewrite run_singleton, item_list.
  rewrite values_ok by (done || apply doc_ok_empty). rewrite <- put_value_large by done.
  rewrite <- (values_ok l) by done. apply run_mono; [|done]. apply Forall_true. intros. by apply item_mono.
Qed.

(** A list of one element stands for the element. *)
Lemma value_singleton t r : wf_tree t -> value (TList [t]) r = value t r.
Proof. intros Hwf. rewrite value_list by (by constructor). by rewrite run_singleton. Qed.

Lemma refines_unlist t : wf_tree t -> is_data t = true -> refines (TList [t]) t.
Proof.
  intros Hwf Ht r r' d o Hr Hok. rewrite data_item, value_singleton by done. rewrite <- data_item by done.
  by apply item_mono.
Qed.

Lemma refines_list_congr l l' : refines_list l l' -> refines (TList l) (TList l').
Proof.
  intros H r r' d o Hr Hok. rewrite !item_list. apply result_le_put; [done|].
  apply result_le_document, H; [done|]. apply doc_ok_empty.
Qed.

Lemma refines_assign_congr x t t' : refines t t' -> refines (TAssign x t) (TAssign x t').
Proof.
  intros H r r' d o Hr Hok ? ? ? [= <- <- <-]. eexists. split; [done|]. constructor; [|done].
  split; [done|]. by apply refines_value.
Qed.

(** ** Literals *)

Definition literal t : option (list Z) :=
  match t with
  | TNull => Some []
  | TByte b => Some [b]
  | TString s => Some s
  | TFill b n => Some (memset b n)
  | _ => None
  end.

Lemma literal_item t v r d o : literal t = Some v -> doc_ok d o -> item t r d o = put_value r d o (Some v).
Proof.
  intros Hv [Hi Hm]. destruct t; simpl in Hv; try done; injection Hv as <-; try done.
  unfold put_value. cbn [mbind option_bind]. rewrite put_nil; [done|done|]. unfold inside in Hi. lia.
Qed.

Lemma literal_value t v r w : literal t = Some v -> value t r = Some w -> w = v.
Proof.
  intros Hv. unfold value. rewrite (literal_item _ _ _ _ _ Hv) by apply doc_ok_empty.
  rewrite put_value_empty. cbn [mbind option_bind]. by destruct (_ <? _); intros [= <-].
Qed.

Lemma put_length d o v d' o' : put d o v = Some (d', o') -> 0 <= o -> Z.of_nat (length v) <= INT64_MAX.
Proof. intros (_ & -> & H)%put_ok Ho. lia. Qed.

(** Adjacent literals can be written together. *)
Lemma refines_combine t0 t1 t c0 c1 c : literal t0 = Some c0 -> literal t1 = Some c1 -> literal t = Some c ->
  (Z.of_nat (length c0) + Z.of_nat (length c1) <= INT64_MAX -> c = c0 ++ c1) ->
  refines_list [t0; t1] [t].
Proof.
  intros H0 H1 H Hc r r' d o Hr Hok. rewrite run_singleton. cbn [run].
  rewrite (literal_item _ _ _ _ _ H0), (literal_item _ _ _ _ _ H) by done. unfold put_value.
  cbn [mbind option_bind]. destruct (put d o c0) as [[d1 o1]|] eqn:E0; [|by intros ? ? ?]. cbn [mbind option_bind].
  pose proof Hok as [Hi _]. destruct (put_doc_ok _ _ _ _ _ Hok E0) as [Hok1 _].
  rewrite (literal_item _ _ _ _ _ H1) by done. unfold put_value. cbn [mbind option_bind].
  destruct (put d1 o1 c1) as [[d2 o2]|] eqn:E1; [|by intros ? ? ?].
  assert (Hp : put d o (c0 ++ c1) = Some (d2, o2)) by (rewrite put_app, E0 by done; exact E1).
  intros ? ? ? [= <- <- <-]. exists r'. split; [|done].
  rewrite Hc, Hp; [done|]. destruct Hi. apply put_length in Hp; [|done]. rewrite length_app in Hp. lia.
Qed.

(** ** Repetition *)

Lemma item_repeat t n r d o : item (TRepeat t n) r d o = put_value r d o (repeat_list n <$> value t r).
Proof. reflexivity. Qed.

(** [t'] may stand for [n] times [t2]. *)
Lemma refines_repeat_to t n t2 t' : refines t t2 ->
  (forall r d o v, value t2 r = Some v -> doc_ok d o -> Z.of_nat (length (repeat_list n v)) <= INT64_MAX ->
    item t' r d o = put_value r d o (Some (repeat_list n v))) ->
  refines (TRepeat t n) t'.
Proof.
  intros H Ht' r r' d o Hr Hok r1 d1 o1. rewrite item_repeat. intros (-> & bs & Hv & Hp)%put_value_Some.
  destruct (value t r) as [v|] eqn:E; [|done]. injection Hv as <-.
  pose proof Hok as [[Hi _] _]. exists r'. split; [|done].
  rewrite (Ht' _ _ _ v); [|by eapply refines_value|done|by eapply put_length].
  unfold put_value. cbn [mbind option_bind]. by rewrite Hp.
Qed.

Lemma repeat_list_0 v : repeat_list 0 v = [].
Proof. reflexivity. Qed.

Lemma repeat_list_1 v : repeat_list 1 v = v.
Proof. unfold repeat_list. simpl. by rewrite app_nil_r. Qed.

Lemma repeat_list_nil n : repeat_list n [] = [].
Proof. unfold repeat_list. by induction (Z.to_nat n). Qed.

Lemma repeat_list_add a b v : 0 <= a -> 0 <= b -> repeat_list (a + b) v = repeat_list a v ++ repeat_list b v.
Proof. intros. unfold repeat_list. by rewrite Z2Nat.inj_add, replicate_add, concat_app by done. Qed.

Lemma repeat_list_mul a b v : 0 <= a -> 0 <= b -> repeat_list a (repeat_list b v) = repeat_list (a * b) v.
Proof.
  intros Ha Hb. revert a Ha. apply (natlike_ind (fun a => repeat_list a (repeat_list b v) = repeat_list (a * b) v));
    [by rewrite Z.mul_0_l, !repeat_list_0|]. intros a Ha IH.
  replace (Z.succ a * b) with (a * b + b) by lia. replace (Z.succ a) with (a + 1) by lia.
  rewrite !repeat_list_add by nia. by rewrite IH, repeat_list_1.
Qed.

Lemma repeat_list_memset n b : repeat_list n [b] = memset b n.
Proof.
  unfold repeat_list, memset. induction (Z.to_nat n) as [|k IH]; [done|]. cbn [replicate concat]. by rewrite IH.
Qed.

Lemma length_repeat_list n v : 0 <= n -> Z.of_nat (length (repeat_list n v)) = n * Z.of_nat (length v).
Proof.
  intros Hn. unfold repeat_list. replace n with (Z.of_nat (Z.to_nat n)) at 2 by lia.
  induction (Z.to_nat n) as [|k IH]; [simpl; lia|]. cbn [replicate concat]. rewrite length_app. nia.
Qed.

Lemma put_value_nil r d o : doc_ok d o -> put_value r d o (Some []) = Some (r, d, o).
Proof.
  intros [Hi Hm]. unfold put_value. cbn [mbind option_bind]. rewrite put_nil; [done|done|]. unfold inside in Hi. lia.
Qed.

Lemma refines_repeat_congr t t' n : refines t t' -> refines (TRepeat t n) (TRepeat t' n).
Proof. intros H. apply (refines_repeat_to _ _ t'); [done|]. intros r d o v Hv _ _. by rewrite item_repeat, Hv. Qed.

Lemma refines_repeat_0 t : refines (TRepeat t 0) TNull.
Proof.
  intros r r' d o Hr Hok. rewrite item_repeat. destruct (value t r) as [v|]; [|by intros ? ? ?].
  cbn [fmap option_fmap option_map]. rewrite repeat_list_0, put_value_nil by done. intros ? ? ? [= <- <- <-]. eauto.
Qed.

Lemma refines_repeat_1 t t' : is_data t' = true -> refines t t' -> refines (TRepeat t 1) t'.
Proof.
  intros Ht H. apply (refines_repeat_to _ _ t'); [done|]. intros r d o v Hv Hok _.
  by rewrite repeat_list_1, <- Hv, data_item.
Qed.

(** Repeating a literal. *)
Lemma refines_repeat_literal t n t2 t' v c : refines t t2 -> literal t2 = Some v -> literal t' = Some c ->
  (Z.of_nat (length (repeat_list n v)) <= INT64_MAX -> c = repeat_list n v) -> refines (TRepeat t n) t'.
Proof.
  intros H Hv Hc Hn. apply (refines_repeat_to _ _ t2); [done|]. intros r d o w Hw Hok Hlen.
  rewrite (literal_value _ _ _ _ Hv Hw) in *. rewrite (literal_item _ _ _ _ _ Hc) by done. by rewrite Hn.
Qed.

Lemma value_repeat t n r v : value (TRepeat t n) r = Some v -> exists w, value t r = Some w /\ v = repeat_list n w.
Proof.
  unfold value at 1. rewrite item_repeat, put_value_empty. destruct (value t r) as [w|]; [|done].
  cbn [fmap option_fmap option_map mbind option_bind]. destruct (_ <? _); [done|]. intros [= <-]. eauto.
Qed.

Lemma refines_repeat_repeat t n t3 n' : 0 <= n -> 0 <= n' -> refines t (TRepeat t3 n') ->
  refines (TRepeat t n) (TRepeat t3 (n * n')).
Proof.
  intros Hn Hn' H. apply (refines_repeat_to _ _ (TRepeat t3 n')); [done|].
  intros r d o v (w & Hw & ->)%value_repeat Hok _. rewrite item_repeat, Hw. cbn [fmap option_fmap option_map].
  by rewrite repeat_list_mul.
Qed.

(** A repeated byte. *)
Lemma refines_repeat_byte t n t' b : refines t t' -> (forall r v, value t' r = Some v -> v = [b]) ->
  refines (TRepeat t n) (TFill b n).
Proof.
  intros H Hb. apply (refines_repeat_to _ _ t'); [done|]. intros r d o v Hv _ _.
  rewrite (Hb _ _ Hv), repeat_list_memset. done.
Qed.

(** ** Slices *)

Definition is_stream t : bool := match t with TFile _ | TScript _ => true | _ => false end.
Definition is_script t : bool := match t with TScript _ => true | _ => false end.

(** The whole output of a script is not written as a slice, [<(SCRIPT)[:]],
    which the evaluator takes for the empty slice. *)
Fixpoint no_whole_script (t : tree) : bool :=
  match t with
  | TList l => forallb no_whole_script l
  | TAssign _ t | TRepeat t _ => no_whole_script t
  | TSlice t n m => (negb (is_script t && (n =? 0) && (m <? 0)) && no_whole_script t)%bool
  | _ => true
  end.

Definition slice_value t r (n m : Z) : option (list Z) :=
  match t with
  | TFile s => file_slice fopen s n m
  | TScript s => if ((n =? 0) && (0 <=? m))%bool then script_first popen s m else v ← value t r; slice_list v n m
  | _ => v ← value t r; slice_list v n m
  end.

Lemma item_slice t n m r d o : item (TSlice t n m) r d o = put_value r d o (slice_value t r n m).
Proof. by destruct t. Qed.

Lemma slice_value_list t r n m : is_stream t = false -> slice_value t r n m = (v ← value t r; slice_list v n m).
Proof. by destruct t. Qed.

Lemma slice_list_Some v n m w : slice_list v n m = Some w ->
  exists e, (if m <? 0 then e = Z.of_nat (length v) else e = m) /\ n <= e <= Z.of_nat (length v) /\
    w = take (Z.to_nat (e - n)) (drop (Z.to_nat n) v).
Proof.
  unfold slice_list. destruct (Z.ltb_spec m 0).
  - destruct (_ || _)%bool eqn:E; [done|]. intros [= <-]. eexists. split; [done|]. split; [lia|done].
  - destruct (_ || _)%bool eqn:E; [done|]. intros [= <-]. eexists. split; [done|]. split; [lia|done].
Qed.

Lemma slice_list_to v n e : n <= e <= Z.of_nat (length v) -> 0 <= e ->
  slice_list v n e = Some (take (Z.to_nat (e - n)) (drop (Z.to_nat n) v)).
Proof.
  intros He H0. unfold slice_list. rewrite (proj2 (Z.ltb_ge e 0)) by lia.
  destruct (_ || _)%bool eqn:E; [lia|done].
Qed.

(** A slice of a stream is what can be read of it. *)
Lemma stream_file s n m v w r : 0 <= n -> -1 <= m ->
  value (TFile s) r = Some v -> slice_list v n m = Some w -> file_slice fopen s n m = Some w.
Proof.
  intros Hn Hm Hv (e & He & Hr & ->)%slice_list_Some. unfold value in Hv. simpl in Hv.
  rewrite put_value_empty in Hv. unfold file_data in Hv. unfold file_slice.
  destruct (fopen s) as [st|]; [|done]. cbn [mbind option_bind] in *. unfold stream_all in *.
  destruct (io_error st) eqn:Eerr; [done|]. cbn [mbind option_bind] in *.
  destruct (io_close st =? -1) eqn:Ec; [done|]. cbn [mbind option_bind] in Hv. destruct (_ <? _) eqn:El in Hv; [done|]. injection Hv as <-.
  apply Z.ltb_ge in El. destruct (Z.ltb_spec m 0).
  - replace m with (-1) by lia. subst e. rewrite (proj2 (Z.ltb_ge INT64_MAX n)) by lia.
    unfold stream_all. cbn [io_error io_data io_close]. rewrite ?Eerr.
    transitivity (if io_close st =? -1 then None else Some (drop (Z.to_nat n) (io_data st))); [done|].
    rewrite Ec, take_ge; [done|]. rewrite length_drop. lia.
  - subst e. rewrite (proj2 (Z.leb_le 0 m)), (proj2 (Z.ltb_ge m n)), (proj2 (Z.ltb_ge m (-2))),
      (proj2 (Z.ltb_ge INT64_MAX n)), (proj2 (Z.eqb_neq m (-1))) by lia.
    unfold stream_first. cbn [andb orb io_error io_data io_close]. rewrite ?Eerr.
    cbn [andb mbind option_bind]. by rewrite Ec.
Qed.

Lemma stream_script s m v w r : 0 <= m ->
  value (TScript s) r = Some v -> slice_list v 0 m = Some w -> script_first popen s m = Some w.
Proof.
  intros Hm Hv (e & He & Hr & ->)%slice_list_Some. unfold value in Hv. simpl in Hv.
  rewrite put_value_empty in Hv. unfold script_data in Hv. unfold script_first.
  destruct (popen s) as [st|]; [|done]. cbn [mbind option_bind] in *. unfold stream_all, stream_first in *.
  destruct (io_error st) eqn:Eerr; [done|]. cbn [mbind option_bind] in *.
  destruct (Z.eqb_spec (io_close st) 0) as [Ec|]; [|done]. rewrite Ec. cbn [mbind option_bind] in Hv.
  destruct (_ <? _) eqn:El in Hv; [done|]. injection Hv as <-. rewrite (proj2 (Z.ltb_ge m 0)) in He by lia. subst e.
  rewrite Z.sub_0_r, drop_0. done.
Qed.

Lemma slice_value_stream t n m v w r : 0 <= n -> -1 <= m ->
  value t r = Some v -> slice_list v n m = Some w -> slice_value t r n m = Some w.
Proof.
  intros Hn Hm Hv Hw. assert (Hg : (v ← value t r; slice_list v n m) = Some w) by (rewrite Hv; exact Hw).
  destruct t; try exact Hg.
  - by eapply stream_file.
  - unfold slice_value. destruct (_ && _)%bool eqn:E; [|exact Hg].
    assert (n = 0 /\ 0 <= m) as [-> ?] by lia. by eapply stream_script.
Qed.

(** [t'] may stand for a slice of [t2]. *)
Lemma refines_slice_to t n m t2 t' : is_stream t = false -> refines t t2 ->
  (forall r d o v w, value t2 r = Some v -> slice_list v n m = Some w -> doc_ok d o ->
    item t' r d o = put_value r d o (Some w)) ->
  refines (TSlice t n m) t'.
Proof.
  intros Hs H Ht' r r' d o Hr Hok r1 d1 o1. rewrite item_slice, slice_value_list by done.
  intros (-> & w & Hw & Hp)%put_value_Some. destruct (value t r) as [v|] eqn:E; [|done]. cbn [mbind option_bind] in Hw.
  exists r'. split; [|done]. rewrite (Ht' _ _ _ v w); [|by eapply refines_value|done|done].
  unfold put_value. cbn [mbind option_bind]. by rewrite Hp.
Qed.

Lemma refines_slice_congr t t' n m : is_stream t = false -> 0 <= n -> -1 <= m -> refines t t' -> refines (TSlice t n m) (TSlice t' n m).
Proof.
  intros Hst Hn Hm H. eapply refines_slice_to; [done|exact H|]. intros r d o v w Hv Hw _.
  by rewrite item_slice, (slice_value_stream _ _ _ v w).
Qed.

Lemma refines_slice_literal t n m t2 t' v c : is_stream t = false -> refines t t2 ->
  literal t2 = Some v -> literal t' = Some c -> (forall w, slice_list v n m = Some w -> c = w) ->
  refines (TSlice t n m) t'.
Proof.
  intros Hst H Hv Hc Hw. eapply refines_slice_to; [done|exact H|]. intros r d o v' w Hv' Hw' Hok.
  rewrite (literal_value _ _ _ _ Hv Hv') in Hw'. rewrite (literal_item _ _ _ _ _ Hc) by done. by rewrite (Hw w).
Qed.

Lemma slice_value_empty t r n m w : wf_tree t -> 0 <= n -> -1 <= m <= INT64_MAX -> n = u64 m ->
  slice_value t r n m = Some w -> w = [].
Proof.
  intros Hwf Hn Hm Hnm Hw.
  assert (Hc : m = -1 /\ n = UINT64_MAX \/ n = m /\ 0 <= m).
  { destruct (decide (m = -1)) as [->|]; [by left|right]. rewrite u64_small in Hnm by (limits; lia). lia. }
  assert (Hg : (v ← value t r; slice_list v n m) = Some w -> w = []).
  { destruct (value t r) as [v|] eqn:Ev; [|done]. cbn [mbind option_bind]. intros (e & He & Hr & ->)%slice_list_Some.
    apply value_bound in Ev; [|done]. destruct Hc as [[-> ->]|[-> ?]]; [limits; lia|].
    rewrite (proj2 (Z.ltb_ge m 0)) in He by lia. subst e. by rewrite Z.sub_diag. }
  destruct t; try (by apply Hg).
  - simpl in Hw. unfold file_slice in Hw. destruct Hc as [[-> ->]|[-> ?]]; [done|].
    rewrite (proj2 (Z.leb_le 0 m)), (proj2 (Z.ltb_ge m m)), (proj2 (Z.ltb_ge m (-2))),
      (proj2 (Z.ltb_ge INT64_MAX m)), (proj2 (Z.eqb_neq m (-1))) in Hw by lia.
    unfold stream_first in Hw. rewrite Z.sub_diag in Hw. cbn [andb orb] in Hw.
    destruct (fopen filename) as [st|]; [|done]. cbn [mbind option_bind io_error io_data io_close] in Hw.
    destruct (_ && _)%bool; [done|]. cbn [mbind option_bind] in Hw. destruct (_ =? _); [done|]. by injection Hw.
  - unfold slice_value in Hw. destruct ((n =? 0) && _)%bool eqn:E; [|by apply Hg].
    assert (m = 0) as -> by (limits; lia). unfold script_first, stream_first in Hw.
    destruct (popen script) as [st|]; [|done]. cbn [mbind option_bind] in Hw.
    destruct (_ && _)%bool; [done|]. cbn [mbind option_bind] in Hw. destruct (_ =? _); [done|]. by injection Hw.
Qed.

Lemma refines_slice_empty t n m : wf_tree t -> 0 <= n -> -1 <= m <= INT64_MAX -> n = u64 m ->
  refines (TSlice t n m) TNull.
Proof.
  intros Hwf Hn Hm Hnm r r' d o Hr Hok r1 d1 o1. rewrite item_slice.
  intros (-> & w & Hw & Hp)%put_value_Some. apply slice_value_empty in Hw as ->; [|done..].
  pose proof Hok as [Hi Hd]. rewrite put_nil in Hp; [|done|unfold inside in Hi; lia]. injection Hp as <- <-. eauto.
Qed.

(** [valid_slice] and the meaning of a slice agree. *)
Lemma slice_list_valid v n m a k w : 0 <= n -> valid_slice n m (Z.of_nat (length v)) = Some (a, k) ->
  slice_list v n m = Some w -> a = n /\ 0 <= k /\ n + k <= Z.of_nat (length v) /\
    w = take (Z.to_nat k) (drop (Z.to_nat n) v).
Proof.
  intros Hn Hvs (e & He & Hr & ->)%slice_list_Some. unfold valid_slice in Hvs.
  destruct (_ && _)%bool eqn:E1 in Hvs.
  - injection Hvs as <- <-. rewrite (proj2 (Z.ltb_ge m 0)) in He by lia. subst e. split_and!; [done|lia|lia|done].
  - destruct (_ && _)%bool eqn:E2 in Hvs; [|done]. injection Hvs as <- <-.
    rewrite (proj2 (Z.ltb_lt m 0)) in He by lia. subst e. split_and!; [done|lia|lia|done].
Qed.
End Laws.

#[global] Existing Instances refines_refl refines_trans refines_list_refl refines_list_trans.
