(* ===== verification/DataOptim.v ===== *)
(** * The data plugin: correctness of the optimizer

    [optimize_ast] terminates, and what it returns may stand in for its
    argument: wherever the argument is defined, the result has the same
    bytes.  It fails only when a repetition count overflows. *)

From S2P Require Import Prelude NbdProtocol Extents Exports Server Connections Backend Plugin Parse Bytes Vector Allocators DataFormat DataEval DataSem DataLaws.

#[local] Open Scope Z_scope.

(** ** Specifications of code that adds to the table

    [twp m tbl Q E]: from [tbl], [m] ends with a result and a larger table
    that satisfy [Q], or it fails, and [E] holds. *)

Definition twp {A} (m : T A) (tbl : table) (Q : A -> table -> Prop) (E : Prop) : Prop :=
  exists r tbl', m tbl = Ok (r, tbl') /\ tbl `prefix_of` tbl' /\
    match r with Some a => Q a tbl' | None => E end.

(** The first node is the null expression. *)
Definition has_null (tbl : table) : Prop := tbl !! 0%nat = Some EXPR_NULL.

Lemma has_null_prefix tbl tbl' : tbl `prefix_of` tbl' -> has_null tbl -> has_null tbl'.
Proof. intros Hp H. by eapply prefix_lookup_Some. Qed.

Section Rules.
Context {A : Type}.
Implicit Types (tbl : table) (E : Prop).

Lemma twp_ret (a : A) tbl (Q : A -> table -> Prop) E : Q a tbl -> twp (mret a) tbl Q E.
Proof. intros H. by exists (Some a), tbl. Qed.

Lemma twp_fail tbl (Q : A -> table -> Prop) E : E -> twp tfail tbl Q E.
Proof. intros H. by exists None, tbl. Qed.

Lemma twp_bind {B} (m : T B) (k : B -> T A) tbl (Q : A -> table -> Prop) (Q1 : B -> table -> Prop) E :
  twp m tbl Q1 E -> (forall b tbl', tbl `prefix_of` tbl' -> Q1 b tbl' -> twp (k b) tbl' Q E) ->
  twp (b ← m; k b) tbl Q E.
Proof.
  intros (r & tbl' & Hm & Hp & Hr) Hk. destruct r as [b|].
  - destruct (Hk b tbl' Hp Hr) as (r2 & tbl2 & Hm2 & Hp2 & Hr2). exists r2, tbl2.
    split; [|split; [by etrans|done]]. unfold mbind, T_bind. by rewrite Hm.
  - exists None, tbl'. split; [|done]. unfold mbind, T_bind. by rewrite Hm.
Qed.

Lemma twp_mono (m : T A) tbl (Q Q' : A -> table -> Prop) E E' : twp m tbl Q E ->
  (forall a tbl', tbl `prefix_of` tbl' -> Q a tbl' -> Q' a tbl') -> (E -> E') -> twp m tbl Q' E'.
Proof. intros (r & tbl' & Hm & Hp & Hr) HQ HE. exists r, tbl'. destruct r; naive_solver. Qed.
End Rules.

Lemma twp_get id e tbl (Q : expr -> table -> Prop) E : tbl !! id = Some e -> Q e tbl -> twp (get_node id) tbl Q E.
Proof. intros Hid HQ. exists (Some e), tbl. unfold get_node. by rewrite Hid. Qed.

Lemma twp_get_bind {A} id e (k : expr -> T A) tbl Q E : tbl !! id = Some e -> twp (k e) tbl Q E ->
  twp (e ← get_node id; k e) tbl Q E.
Proof.
  intros Hid (r & tbl' & Hm & H). exists r, tbl'. split; [|done]. unfold mbind, T_bind, get_node. by rewrite Hid.
Qed.

Lemma twp_new e tbl (Q : node_id -> table -> Prop) E : has_null tbl ->
  (forall id tbl', tbl `prefix_of` tbl' -> tbl' !! id = Some e -> Q id tbl') -> twp (new_node e) tbl Q E.
Proof.
  intros Hn HQ. destruct tbl as [|e0 tbl]; [done|].
  assert (Hadd : twp (fun tbl => Ok (Some (length tbl), tbl ++ [e])) (e0 :: tbl) Q E).
  { eexists _, _. split; [done|]. split; [by apply prefix_app_r|]. apply HQ; [by apply prefix_app_r|].
    by apply list_lookup_middle. }
  destruct e; try exact Hadd. eexists _, _. split; [done|]. split; [done|]. by apply HQ.
Qed.

(** ** Measures *)

Definition heights (l : list tree) : nat := foldr (fun t n => Nat.max (height t) n) 0%nat l.

(** Without [<(SCRIPT)]. *)
Fixpoint script_free (t : tree) : bool :=
  match t with
  | TScript _ => false
  | TList l => forallb script_free l
  | TAssign _ t | TRepeat t _ | TSlice t _ _ => script_free t
  | _ => true
  end.

(** A bound of the repetition counts that the optimizer can multiply. *)
Fixpoint reps (t : tree) : Z :=
  match t with
  | TString s => Z.max 1 (Z.of_nat (length s))
  | TFill _ n => Z.max 1 n
  | TList l => Z.max 1 (foldr (fun t n => reps t + n) 0 l)
  | TAssign _ t | TSlice t _ _ => reps t
  | TRepeat t n => Z.max 1 (n * reps t)
  | _ => 1
  end.

Definition sum_reps (l : list tree) : Z := foldr (fun t n => reps t + n) 0 l.

Lemma reps_pos t : 1 <= reps t.
Proof. induction t using tree_nested_ind; simpl; lia. Qed.

Lemma sum_reps_app l1 l2 : sum_reps (l1 ++ l2) = sum_reps l1 + sum_reps l2.
Proof. induction l1 as [|t l1 IH]; [done|]. cbn [sum_reps foldr app]. fold sum_reps. unfold sum_reps in *. lia. Qed.

Lemma sum_reps_nonneg l : 0 <= sum_reps l.
Proof. induction l as [|t l IH]; [done|]. unfold sum_reps in *. simpl. pose proof (reps_pos t). lia. Qed.

Lemma heights_app l1 l2 : heights (l1 ++ l2) = Nat.max (heights l1) (heights l2).
Proof. induction l1 as [|t l1 IH]; [done|]. unfold heights in *. simpl. rewrite IH. lia. Qed.

(** No slice [<(SCRIPT)[:]], nor of an expression that can become one. *)
Fixpoint no_whole_slice (t : tree) : bool :=
  match t with
  | TList l => forallb no_whole_slice l
  | TAssign _ t | TRepeat t _ => no_whole_slice t
  | TSlice t n m => ((script_free t || negb ((n =? 0) && (m <? 0))) && no_whole_slice t)%bool
  | _ => true
  end.

Lemma forallb_mono {A} (p q : A -> bool) l : Forall (fun x => p x = true -> q x = true) l ->
  forallb p l = true -> forallb q l = true.
Proof. induction 1 as [|x l Hx _ IH]; [done|]. simpl. intros [? ?]%andb_prop. apply andb_true_intro. auto. Qed.

Lemma no_whole_slice_script t : no_whole_slice t = true -> no_whole_script t = true.
Proof.
  induction t as [|l IH| | | | | | | | | |x t IH|t n IH|t n m IH] using tree_nested_ind; simpl; try done.
  - by apply forallb_mono.
  - intros [Hs ?]%andb_prop. apply andb_true_intro. split; [|by apply IH].
    by destruct t.
Qed.

(** The expressions whose optimization is sound: repetitions are of data, and
    slices have ends that are inside or left out; the start and end of a
    script's output are not left out together. *)
Fixpoint regular (t : tree) : bool :=
  match t with
  | TList l => forallb regular l
  | TAssign _ t => regular t
  | TRepeat t _ => (is_data t && regular t)%bool
  | TSlice t n m => ((-1 <=? m) && (script_free t || negb ((n =? 0) && (m =? -1))) && regular t)%bool
  | _ => true
  end.

Lemma regular_whole t : regular t = true -> no_whole_slice t = true.
Proof.
  induction t as [|l IH| | | | | | | | | |x t IH|t n IH|t n m IH] using tree_nested_ind; simpl; try done.
  - by apply forallb_mono.
  - intros [_ ?]%andb_prop. by apply IH.
  - intros [[? ?]%andb_prop ?]%andb_prop. apply andb_true_intro. split; [|by apply IH].
    destruct (script_free t); [done|]. simpl in *. lia.
Qed.

(** ** What the optimizer keeps *)

Section Optimizer.
Context (fopen popen : list Z -> option stream).
Notation refines := (refines fopen popen).
Notation refines_list := (refines_list fopen popen).
Implicit Types (t : tree) (l : list tree) (tbl : table) (id : node_id).

Record optimized t t' : Prop := {
  opt_refines : refines t t';
  opt_wf : wf_tree t';
  opt_height : (height t' <= height t)%nat;
  opt_data : is_data t = true -> is_data t' = true;
  opt_script : script_free t = true -> script_free t' = true;
  opt_whole : no_whole_slice t = true -> no_whole_slice t' = true;
  opt_reps : reps t' <= reps t;
  opt_stream : is_stream t = true -> t' = t;
}.

Record optimized_list l l' : Prop := {
  optl_refines : refines_list l l';
  optl_wf : Forall wf_tree l';
  optl_height : (heights l' <= heights l)%nat;
  optl_script : forallb script_free l = true -> forallb script_free l' = true;
  optl_whole : forallb no_whole_slice l = true -> forallb no_whole_slice l' = true;
  optl_reps : sum_reps l' <= sum_reps l;
}.

Lemma optimized_refl t : wf_tree t -> optimized t t.
Proof. by split. Qed.

Lemma optimized_list_refl l : Forall wf_tree l -> optimized_list l l.
Proof. by split. Qed.

Lemma optimized_list_trans l1 l2 l3 : optimized_list l1 l2 -> optimized_list l2 l3 -> optimized_list l1 l3.
Proof.
  intros [H1 H2 H3 H4 H5 H6] [K1 K2 K3 K4 K5 K6]. split; try done; try lia; [by etrans|auto|auto].
Qed.

Lemma optimized_list_app l1 l1' l2 l2' : Forall wf_tree l1 ->
  optimized_list l1 l1' -> optimized_list l2 l2' -> optimized_list (l1 ++ l2) (l1' ++ l2').
Proof.
  intros Hwf [H1 H2 H3 H4 H5 H6] [K1 K2 K3 K4 K5 K6]. split.
  - by apply refines_list_app.
  - by apply Forall_app.
  - rewrite !heights_app. lia.
  - rewrite !forallb_app. intros [? ?]%andb_prop. apply andb_true_intro. auto.
  - rewrite !forallb_app. intros [? ?]%andb_prop. apply andb_true_intro. auto.
  - rewrite !sum_reps_app. lia.
Qed.

Lemma optimized_singleton t t' : optimized t t' -> optimized_list [t] [t'].
Proof.
  intros [H1 H2 H3 _ H5 H6 H7 _]. split.
  - by apply refines_singleton.
  - by constructor.
  - unfold heights. simpl. lia.
  - simpl. rewrite !andb_true_r. done.
  - simpl. rewrite !andb_true_r. done.
  - unfold sum_reps. simpl. lia.
Qed.

Lemma sum_reps_list l : sum_reps l <= reps (TList l).
Proof. simpl. fold (sum_reps l). lia. Qed.

(** A list element that is a list of data can be replaced by its elements. *)
Lemma optimized_inline l : Forall wf_tree l -> Forall (fun t => is_data t = true) l -> optimized_list [TList l] l.
Proof.
  intros Hwf Hd. split; [by apply refines_inline|done| | | |].
  - unfold heights. simpl. lia.
  - simpl. by rewrite andb_true_r.
  - simpl. by rewrite andb_true_r.
  - unfold sum_reps at 2. simpl. fold (sum_reps l). lia.
Qed.

Lemma optimized_null : optimized_list [TNull] [].
Proof. split; [by apply refines_list_null|done|simpl; lia|done..]. Qed.

(** ** Nodes *)

Definition node_list tbl (ids : list node_id) l : Prop := Forall2 (rep tbl) ids l.

Lemma node_list_prefix tbl tbl' ids l : tbl `prefix_of` tbl' -> node_list tbl ids l -> node_list tbl' ids l.
Proof. intros Hp H. eapply Forall2_impl; [exact H|]. intros. by eapply rep_prefix. Qed.

(** The constructor of the node of an expression. *)
Definition node_of (e : expr) t : Prop :=
  match e, t with
  | EXPR_NULL, TNull => True
  | EXPR_LIST _, TList _ => True
  | EXPR_BYTE b, TByte b' => b = b'
  | EXPR_ABS_OFFSET n, TAbs n' => n = n'
  | EXPR_REL_OFFSET n, TRel n' => n = n'
  | EXPR_ALIGN_OFFSET n, TAlign n' => n = n'
  | EXPR_FILE s, TFile s' => s = s'
  | EXPR_SCRIPT s, TScript s' => s = s'
  | EXPR_STRING s, TString s' => s = s'
  | EXPR_FILL b n, TFill b' n' => b = b' /\ n = n'
  | EXPR_NAME x, TName x' => x = x'
  | EXPR_ASSIGN x _, TAssign x' _ => x = x'
  | EXPR_REPEAT _ n, TRepeat _ n' => n = n'
  | EXPR_SLICE _ n m, TSlice _ n' m' => n = n' /\ m = m'
  | _, _ => False
  end.

Lemma rep_node tbl id t : rep tbl id t -> exists e, tbl !! id = Some e /\ node_of e t.
Proof. destruct 1; eexists; (split; [eassumption|]); simpl; auto. Qed.

Lemma rep_lookup_list tbl id ids t : rep tbl id t -> tbl !! id = Some (EXPR_LIST ids) ->
  exists l, t = TList l /\ node_list tbl ids l.
Proof. destruct 1; intros; simplify_eq; eauto. Qed.

Lemma rep_lookup_repeat tbl id id' n t : rep tbl id t -> tbl !! id = Some (EXPR_REPEAT id' n) ->
  exists t', t = TRepeat t' n /\ rep tbl id' t'.
Proof. destruct 1; intros; simplify_eq; eauto. Qed.

Lemma safe_data e t : node_of e t -> expr_safe_to_inline e = true -> is_data t = true.
Proof. by destruct e, t. Qed.

(** ** Helpers *)

Lemma twp_list_safe tbl ids l E : node_list tbl ids l ->
  twp (list_safe_to_inline ids) tbl
    (fun safe tbl' => tbl' = tbl /\ (safe = true -> Forall (fun t => is_data t = true) l)) E.
Proof.
  induction 1 as [|id t ids l Hid Hl IH]; simpl; [by apply twp_ret|].
  destruct (rep_node _ _ _ Hid) as (e & He & Hn). eapply twp_get_bind; [done|].
  destruct (expr_safe_to_inline e) eqn:Es; [|by apply twp_ret].
  eapply twp_mono; [exact IH| |done]. intros safe tbl' _ [-> Hs]. split; [done|].
  intros Ht. constructor; [by eapply safe_data|auto].
Qed.

Lemma twp_single_byte fuel tbl id e t E : rep tbl id t -> tbl !! id = Some e -> wf_tree t -> (height t <= fuel)%nat ->
  twp (expr_is_single_byte fuel e) tbl (fun r tbl' => tbl' = tbl /\
    match r with Some b => forall r v, value fopen popen t r = Some v -> v = [b] | None => True end) E.
Proof.
  revert id e t. induction fuel as [|fuel IH]; intros id e t Hr He Hwf Hh.
  { exfalso. destruct t; simpl in Hh; lia. }
  destruct (rep_node _ _ _ Hr) as (e' & He' & Hn). rewrite He in He'. injection He' as <-.
  assert (Hlit : forall b, literal t = Some [b] -> twp (mret (Some b)) tbl (fun r tbl' => tbl' = tbl /\
    match r with Some b => forall r v, value fopen popen t r = Some v -> v = [b] | None => True end) E).
  { intros b Hb. apply twp_ret. split; [done|]. intros r v Hv. by eapply literal_value. }
  destruct e; try (by apply twp_ret).
  - destruct (rep_lookup_list _ _ _ _ Hr He) as (l & -> & Hl).
    destruct Hl as [|id' t' ids l' Hid Hl]; [by apply twp_ret|]. destruct Hl; [|by apply twp_ret].
    destruct (rep_node _ _ _ Hid) as (e & He2 & _). inversion Hwf as [|? Hwf'| | | | | | | | | | | |]; subst.
    inversion_clear Hwf'. cbn [expr_is_single_byte]. eapply twp_get_bind; [done|].
    eapply twp_mono; [eapply (IH id'); [done|done|done|simpl in Hh; lia]| |done].
    intros [b|] tbl' _ [-> Hb]; [|done]. split; [done|]. intros r v. rewrite value_singleton by done. apply Hb.
  - destruct t; try done. simpl in Hn. subst. by apply Hlit.
  - destruct t; try done. simpl in Hn. subst. destruct s as [|b [|]]; try (by apply twp_ret). by apply Hlit.
  - destruct t; try done. destruct Hn as [-> ->]. cbn [expr_is_single_byte].
    destruct (Z.eqb_spec n0 1) as [->|]; [|by apply twp_ret]. by apply Hlit.
  - destruct (rep_lookup_repeat _ _ _ _ _ Hr He) as (t' & -> & Hr'). cbn [expr_is_single_byte].
    destruct (Z.eqb_spec n 1) as [->|]; [|by apply twp_ret].
    destruct (rep_node _ _ _ Hr') as (e & He2 & _). inversion Hwf; subst. eapply twp_get_bind; [done|].
    eapply twp_mono; [eapply (IH id0); [done|done|done|simpl in Hh; lia]| |done].
    intros [b|] tbl' _ [-> Hb]; [|done]. split; [done|]. intros r v (w & Hw & ->)%value_repeat.
    rewrite repeat_list_1. by eapply Hb.
Qed.

(** ** Lists *)

Lemma literal_whole t c : literal t = Some c -> no_whole_slice t = true.
Proof. by destruct t. Qed.

Lemma optimized_combine t0 t1 t c0 c1 c :
  literal t0 = Some c0 -> literal t1 = Some c1 -> literal t = Some c ->
  (Z.of_nat (length c0) + Z.of_nat (length c1) <= INT64_MAX -> c = c0 ++ c1) ->
  wf_tree t -> height t = 1%nat -> script_free t = true -> reps t <= reps t0 + reps t1 ->
  optimized_list [t0; t1] [t].
Proof.
  intros H0 H1 H Hc Hwf Hh Hs Hr. split.
  - by eapply refines_combine.
  - by constructor.
  - unfold heights. simpl. rewrite Hh. destruct t0; simpl; lia.
  - intros _. simpl. by rewrite Hs.
  - intros _. simpl. by rewrite (literal_whole _ _ H).
  - unfold sum_reps. simpl. lia.
Qed.

Lemma memset_app b n n1 : 0 <= n -> 0 <= n1 -> memset b (n + n1) = memset b n ++ memset b n1.
Proof. intros. unfold memset. by rewrite Z2Nat.inj_add, replicate_add. Qed.

Lemma memset_1 b : memset b 1 = [b].
Proof. reflexivity. Qed.

Lemma u64_le z : 0 <= z -> 0 <= u64 z <= z.
Proof. intros. pose proof (u64_range z). split; [lia|]. unfold u64. apply Z.mod_le; lia. Qed.

(** The combined fill, whose count wraps around. *)
Lemma optimized_fill t0 t1 b n n1 : literal t0 = Some (memset b n) -> literal t1 = Some (memset b n1) ->
  0 <= n -> 0 <= n1 -> n + n1 <= reps t0 + reps t1 -> 2 <= reps t0 + reps t1 ->
  optimized_list [t0; t1] [TFill b (u64 (n + n1))].
Proof.
  intros H0 H1 Hn Hn1 Hr H2. pose proof (u64_le (n + n1)).
  eapply optimized_combine; [exact H0|exact H1|done| |constructor; lia|done|done|simpl; lia].
  rewrite !length_memset. intros Hl. rewrite u64_small by (limits; lia). by apply memset_app.
Qed.

Lemma twp_exprs_can_combine tbl e0 e1 t0 t1 E : has_null tbl -> node_of e0 t0 -> node_of e1 t1 ->
  wf_tree t0 -> wf_tree t1 ->
  twp (exprs_can_combine e0 e1) tbl (fun r tbl' => match r with
    | Some id => exists t, rep tbl' id t /\ optimized_list [t0; t1] [t]
    | None => True end) E.
Proof.
  intros Hn H0 H1 Hw0 Hw1.
  assert (Hnew : forall e t, node_of e t -> (forall tbl' id, tbl' !! id = Some e -> rep tbl' id t) ->
    optimized_list [t0; t1] [t] ->
    twp (id ← new_node e; mret (Some id)) tbl (fun r tbl' => match r with
      | Some id => exists t, rep tbl' id t /\ optimized_list [t0; t1] [t] | None => True end) E).
  { intros e t Het Hrep Ho. apply (twp_bind _ _ _ _ (fun id tbl' => rep tbl' id t)).
    - apply twp_new; [done|]. auto.
    - intros id tbl' _ Hid. apply twp_ret. eauto. }
  destruct e0, e1; try (by apply twp_ret); destruct t0, t1; try done; simpl in H0, H1; simpl;
    repeat match goal with H : _ /\ _ |- _ => destruct H end; subst;
    inversion_clear Hw0; inversion_clear Hw1.
  all: try match goal with |- context [(?x =? ?y)] => destruct (Z.eqb_spec x y) as [->|] end; try (by apply twp_ret).
  - refine (Hnew _ (TFill _ 2) _ _ _); [done|by constructor|].
    eapply optimized_combine; [done|done|done|done|constructor; lia|done|done|done].
  - refine (Hnew _ (TString _) _ _ _); [done|by constructor|].
    eapply optimized_combine; [done|done|done|done|constructor|done|done|simpl; lia].
  - refine (Hnew _ (TString _) _ _ _); [done|by constructor|].
    eapply optimized_combine; [done|done|done|done|constructor|done|done|cbn [reps length]; lia].
  - refine (Hnew _ (TFill _ _) _ _ _); [done|by constructor|]. rewrite Z.add_comm.
    apply optimized_fill; [by rewrite memset_1|done|lia|done|simpl; lia|simpl; lia].
  - refine (Hnew _ (TString _) _ _ _); [done|by constructor|].
    eapply optimized_combine; [done|done|done|done|constructor|done|done|simpl; rewrite length_app; simpl; lia].
  - refine (Hnew _ (TString _) _ _ _); [done|by constructor|].
    eapply optimized_combine; [done|done|done|done|constructor|done|done|simpl; rewrite length_app; simpl; lia].
  - refine (Hnew _ (TFill _ _) _ _ _); [done|by constructor|].
    apply optimized_fill; [done|by rewrite memset_1|lia|done|simpl; lia|simpl; lia].
  - refine (Hnew _ (TFill _ _) _ _ _); [done|by constructor|].
    apply optimized_fill; [done|done|lia|done|simpl; lia|simpl; lia].
Qed.

Lemma twp_combine_adjacent ids : forall acc cur tbl tacc t0 l E, has_null tbl ->
  node_list tbl acc tacc -> rep tbl cur t0 -> node_list tbl ids l -> Forall wf_tree (t0 :: l) ->
  twp (combine_adjacent acc cur ids) tbl
    (fun ids' tbl' => exists l', node_list tbl' ids' (tacc ++ l') /\ optimized_list (t0 :: l) l') E.
Proof.
  induction ids as [|id1 ids IH]; intros acc cur tbl tacc t0 l E Hn Hacc Hcur Hids Hwf.
  - inversion Hids; subst. simpl. apply twp_ret. exists [t0]. split; [|by apply optimized_list_refl].
    apply Forall2_app; [done|]. by constructor.
  - inversion Hids as [|? t1 ? l1 Hid1 Hids1]; subst. inversion_clear Hwf as [|? ? Hw0 Hwf1].
    inversion_clear Hwf1 as [|? ? Hw1 Hwf2]. simpl.
    destruct (rep_node _ _ _ Hcur) as (e0 & He0 & Hn0). destruct (rep_node _ _ _ Hid1) as (e1 & He1 & Hn1).
    eapply twp_get_bind; [done|]. eapply twp_get_bind; [done|].
    eapply twp_bind; [by eapply twp_exprs_can_combine|]. intros [id|] tbl' Hp H; cbn beta in H.
    + destruct H as (t & Ht & Ho). eapply twp_mono; [eapply (IH acc id tbl' tacc t l1)| |done].
      * by eapply has_null_prefix.
      * by eapply node_list_prefix.
      * done.
      * by eapply node_list_prefix.
      * constructor; [|done]. pose proof (optl_wf _ _ Ho) as Hwt. by inversion Hwt.
      * intros ids' tbl2 _ (l' & Hl' & Hol). exists l'. split; [done|].
        eapply optimized_list_trans; [|exact Hol].
        apply (optimized_list_app [t0; t1] [t]); [by repeat constructor|done|by apply optimized_list_refl].
    + eapply twp_mono; [eapply (IH (acc ++ [cur]) id1 tbl' (tacc ++ [t0]) t1 l1)| |done].
      * by eapply has_null_prefix.
      * eapply node_list_prefix; [done|]. apply Forall2_app; [done|]. by constructor.
      * by eapply rep_prefix.
      * by eapply node_list_prefix.
      * by constructor.
      * intros ids' tbl2 _ (l' & Hl' & Hol). exists (t0 :: l'). split; [by rewrite <- app_assoc in Hl'|].
        apply (optimized_list_app [t0] [t0]); [by constructor|apply optimized_list_refl; by constructor|done].
Qed.

(** What is assumed of the recursive calls. *)
Definition opt_spec (opt : node_id -> T node_id) t : Prop := forall tbl id, has_null tbl -> rep tbl id t ->
  twp (opt id) tbl (fun id' tbl' => exists t', rep tbl' id' t' /\ optimized t t') (UINT64_MAX < reps t).

Lemma twp_optimize_elements opt ids : forall acc tbl tacc l, has_null tbl ->
  node_list tbl acc tacc -> node_list tbl ids l -> Forall wf_tree l -> Forall (opt_spec opt) l ->
  twp (optimize_elements opt ids acc) tbl
    (fun ids' tbl' => exists l', node_list tbl' ids' (tacc ++ l') /\ optimized_list l l') (UINT64_MAX < sum_reps l).
Proof.
  induction ids as [|id ids IH]; intros acc tbl tacc l Hn Hacc Hids Hwf Hopt.
  { inversion Hids; subst. simpl. apply twp_ret. exists []. rewrite app_nil_r. split; [done|by apply optimized_list_refl]. }
  inversion Hids as [|? t ? l1 Hid Hids1]; subst. inversion_clear Hwf as [|? ? Hw Hwf1].
  inversion_clear Hopt as [|? ? Ho Hopt1]. cbn [optimize_elements].
  assert (Hsum : sum_reps (t :: l1) = reps t + sum_reps l1) by done.
  pose proof (sum_reps_nonneg l1). pose proof (reps_pos t).
  eapply twp_bind; [eapply twp_mono; [by apply Ho|intros id1 tbl1 _ Ht; exact Ht|lia]|].
  intros id1 tbl1 Hp1 (t1 & Ht1 & Ho1). destruct (rep_node _ _ _ Ht1) as (e1 & He1 & Hn1).
  eapply twp_get_bind; [done|].
  (* the rest, with the nodes [mid] for [id] *)
  assert (Hrest : forall mid tmid, node_list tbl1 mid tmid -> optimized_list [t] tmid ->
    twp (optimize_elements opt ids (acc ++ mid)) tbl1
      (fun ids' tbl' => exists l', node_list tbl' ids' (tacc ++ l') /\ optimized_list (t :: l1) l')
      (UINT64_MAX < sum_reps (t :: l1))).
  { intros mid tmid Hmid Hom. eapply twp_mono; [eapply (IH (acc ++ mid) tbl1 (tacc ++ tmid) l1)| |lia].
    - by eapply has_null_prefix.
    - apply Forall2_app; [|done]. by eapply node_list_prefix.
    - by eapply node_list_prefix.
    - done.
    - done.
    - intros ids' tbl' _ (l' & Hl' & Hol). exists (tmid ++ l'). split; [by rewrite app_assoc|].
      apply (optimized_list_app [t]); [by constructor|done|done]. }
  assert (Hkeep : optimized_list [t] [t1]) by (by apply optimized_singleton).
  destruct e1; try (apply (Hrest [id1] [t1]); [by constructor|done]).
  - destruct t1; try done. specialize (Hrest [] []). rewrite app_nil_r in Hrest. apply Hrest; [constructor|].
    eapply optimized_list_trans; [exact Hkeep|apply optimized_null].
  - destruct (rep_lookup_list _ _ _ _ Ht1 He1) as (sub & -> & Hsub).
    eapply twp_bind; [by eapply twp_list_safe|]. intros [|] tbl2 _ [-> Hs];
      [|apply (Hrest [id1] [TList sub]); [by constructor|done]].
    apply (Hrest list sub); [done|]. eapply optimized_list_trans; [exact Hkeep|].
    pose proof (opt_wf _ _ Ho1) as Hwsub. inversion Hwsub; subst. by apply optimized_inline; [|apply Hs].
Qed.

(** A list expression for an optimized list. *)
Lemma optimized_tlist l l' : optimized_list l l' -> optimized (TList l) (TList l').
Proof.
  intros [H1 H2 H3 H4 H5 H6]. split.
  - by apply refines_list_congr.
  - by constructor.
  - cbn [height]. fold (heights l) (heights l'). lia.
  - done.
  - exact H4.
  - exact H5.
  - cbn [reps]. fold (sum_reps l) (sum_reps l'). lia.
  - done.
Qed.

Lemma optimized_trans t1 t2 t3 : is_stream t1 = false -> optimized t1 t2 -> optimized t2 t3 -> optimized t1 t3.
Proof.
  intros Hs [H1 H2 H3 H4 H5 H6 H7 H8] [K1 K2 K3 K4 K5 K6 K7 K8].
  split; [by etrans|done|lia|auto|auto|auto|lia|by rewrite Hs].
Qed.

Lemma optimized_unlist t : wf_tree t -> is_data t = true -> optimized (TList [t]) t.
Proof.
  intros Hw Hd. split; [by apply refines_unlist|done|simpl; lia|done| | |simpl; lia|done];
    simpl; by rewrite andb_true_r.
Qed.

Lemma optimized_empty : optimized (TList []) TNull.
Proof.
  split; [|constructor|simpl; lia|done..]. intros r r' d o Hr Hok. rewrite item_list. simpl document.
  rewrite put_value_nil by done. intros ? ? ? [= <- <- <-]. eauto.
Qed.

(** ** Expressions *)

(** The result of the optimizer for [t]. *)
Definition opt_post t (id : node_id) tbl : Prop := exists t', rep tbl id t' /\ optimized t t'.

Lemma twp_new_opt e t t' tbl E : has_null tbl -> optimized t t' ->
  (forall tbl' id, tbl `prefix_of` tbl' -> tbl' !! id = Some e -> rep tbl' id t') -> twp (new_node e) tbl (opt_post t) E.
Proof. intros Hn Ho Hrep. apply twp_new; [done|]. intros id tbl' Hp Hid. exists t'. eauto. Qed.

Lemma twp_optimize_list opt ids tbl l : has_null tbl -> node_list tbl ids l -> Forall wf_tree l ->
  Forall (opt_spec opt) l -> twp (optimize_list opt ids) tbl (opt_post (TList l)) (UINT64_MAX < reps (TList l)).
Proof.
  intros Hn Hids Hwf Hopt. pose proof (sum_reps_list l).
  assert (Hlist : forall tbl ids l', has_null tbl -> node_list tbl ids l' -> optimized_list l l' ->
    twp (new_node (EXPR_LIST ids)) tbl (opt_post (TList l)) (UINT64_MAX < reps (TList l))).
  { intros tbl1 ids1 l' Hn1 Hl' Ho. eapply twp_new_opt; [done|by apply optimized_tlist|].
    intros tbl2 id Hp Hid. eapply rep_list; [done|]. by eapply node_list_prefix. }
  eapply twp_bind.
  { eapply twp_mono; [eapply (twp_optimize_elements opt ids [] tbl []); [done|constructor|done..]|intros ? ? _ H'; exact H'|lia]. }
  intros ids1 tbl1 Hp1 (l1 & Hl1 & Ho1). cbn [app] in Hl1.
  assert (Hn1 : has_null tbl1) by (by eapply has_null_prefix).
  apply (twp_bind _ _ _ _ (fun ids2 tbl2 => exists l2, node_list tbl2 ids2 l2 /\ optimized_list l l2)).
  { destruct Hl1 as [|id1 t1 ids1 l1 Hid1 Hl1]; [apply twp_ret; exists []; split; [constructor|done]|].
    eapply twp_mono; [apply (twp_combine_adjacent _ [] id1 tbl1 [] t1 l1); [done|constructor|done|done|apply (optl_wf _ _ Ho1)]| |done].
    intros ids2 tbl2 _ (l2 & Hl2 & Ho2). exists l2. split; [done|]. by eapply optimized_list_trans. }
  intros ids2 tbl2 Hp2 (l2 & Hl2 & Ho2). assert (Hn2 : has_null tbl2) by (by eapply has_null_prefix).
  pose proof (optl_wf _ _ Ho2) as Hw2. pose proof (optimized_tlist _ _ Ho2) as Hot.
  destruct ids2 as [|id ids2].
  - inversion Hl2; subst. eapply (twp_new_opt _ _ TNull); [done| |intros; by constructor].
    eapply optimized_trans; [done|exact Hot|apply optimized_empty].
  - destruct ids2; [|by eapply Hlist].
    inversion Hl2 as [|? t ? ? Hid Hnil]; subst. inversion Hnil; subst. inversion_clear Hw2.
    destruct (rep_node _ _ _ Hid) as (e & He & Hne). eapply twp_get_bind; [done|].
    destruct (expr_safe_to_inline e) eqn:Es; [|by eapply Hlist].
    apply twp_ret. exists t. split; [done|].
    eapply optimized_trans; [done|exact Hot|]. apply optimized_unlist; [done|by eapply safe_data].
Qed.

Lemma mul64_Some a b c : mul64 a b = Some c -> c = a * b /\ a * b <= UINT64_MAX.
Proof. unfold mul64. destruct (Z.ltb_spec UINT64_MAX (a * b)); [done|]. intros [= <-]. done. Qed.

Lemma mul64_None a b : mul64 a b = None -> UINT64_MAX < a * b.
Proof. unfold mul64. by destruct (Z.ltb_spec UINT64_MAX (a * b)). Qed.

Lemma optimized_repeat t t' n t2 : 1 <= n -> optimized t t2 -> refines (TRepeat t n) t' -> wf_tree t' ->
  (height t' <= S (height t2))%nat -> is_data t' = true -> (script_free t2 = true -> script_free t' = true) ->
  (no_whole_slice t2 = true -> no_whole_slice t' = true) ->
  reps t' <= n * reps t2 -> optimized (TRepeat t n) t'.
Proof.
  intros Hn Ho Hr Hw Hh Hd Hs Hws Hrep. pose proof (opt_height _ _ Ho). pose proof (opt_reps _ _ Ho).
  split; [done|done|simpl; lia|done| | |simpl; nia|done]; intros Hsf.
  - apply Hs. by apply (opt_script _ _ Ho).
  - apply Hws. by apply (opt_whole _ _ Ho).
Qed.

Lemma twp_optimize_repeat fuel opt id tbl t n : has_null tbl -> rep tbl id t -> wf_tree t -> 0 <= n -> is_data t = true ->
  (height t <= fuel)%nat -> opt_spec opt t ->
  twp (optimize_repeat fuel opt id n) tbl (opt_post (TRepeat t n)) (UINT64_MAX < reps (TRepeat t n)).
Proof.
  intros Hnull Hid Hwf Hn Hd Hfuel Hopt. unfold optimize_repeat. pose proof (reps_pos t).
  destruct (Z.eqb_spec n 0) as [->|Hn0].
  { eapply (twp_new_opt _ _ TNull); [done| |intros; by constructor].
    split; [apply refines_repeat_0|constructor|simpl; lia|done|done|done|simpl; lia|done]. }
  eapply twp_bind; [eapply twp_mono; [by apply Hopt|intros ? ? _ H'; exact H'|simpl; nia]|].
  intros id1 tbl1 Hp1 (t1 & Ht1 & Ho). assert (Hn1 : has_null tbl1) by (by eapply has_null_prefix).
  destruct (rep_node _ _ _ Ht1) as (e & He & Hne). eapply twp_get_bind; [done|].
  pose proof (opt_refines _ _ Ho) as Href. pose proof (opt_wf _ _ Ho) as Hw1. pose proof (reps_pos t1).
  pose proof (opt_reps _ _ Ho) as Hr1.
  set (other := b ← _; _). set (E := UINT64_MAX < _).
  assert (Hother : twp other tbl1 (opt_post (TRepeat t n)) E).
  { eapply twp_bind; [eapply twp_single_byte; [done|done|done|pose proof (opt_height _ _ Ho); lia]|].
    intros [b|] tbl2 _ [-> Hb]; (eapply twp_new_opt; [done| |]).
    - eapply (optimized_repeat _ (TFill b n)); [lia|exact Ho|by eapply refines_repeat_byte|constructor; lia| |done|done|done|simpl; nia].
      simpl. lia.
    - intros tbl3 id3 _ H3. by constructor.
    - eapply (optimized_repeat _ (TRepeat t1 n)); [lia|exact Ho|by apply refines_repeat_congr|by constructor|done|done|done|done|simpl; lia].
    - intros tbl3 id3 Hp3 H3. eapply rep_repeat; [done|]. by eapply rep_prefix. }
  destruct (Z.eqb_spec n 1) as [->|Hn1'].
  { apply twp_ret. exists t1. split; [done|].
    eapply optimized_repeat; [lia|exact Ho| |done|lia|by apply (opt_data _ _ Ho)|done|done|lia].
    by apply refines_repeat_1; [apply (opt_data _ _ Ho)|]. }
  destruct e; try exact Hother.
  - (* null *)
    destruct t1; try done. apply twp_ret. exists TNull. split; [done|].
    eapply optimized_repeat; [lia|exact Ho| |done|simpl; lia|done|done|done|simpl; nia].
    eapply refines_repeat_literal; [exact Href|done|done|]. intros _. by rewrite repeat_list_nil.
  - (* string *)
    destruct t1 as [| | | | | | | |s'| | | | |]; try done. simpl in Hne. subst s'.
    destruct (mul64 n (Z.of_nat (length string))) as [mul|] eqn:Em; [|exact Hother].
    apply mul64_Some in Em as [-> _]. destruct (Z.leb_spec (n * Z.of_nat (length string)) 4096); [|exact Hother].
    eapply (twp_new_opt _ _ (TString (repeat_list n string))); [done| |intros; by constructor].
    eapply optimized_repeat; [lia|exact Ho| |constructor|simpl; lia|done|done|done|].
    + by eapply refines_repeat_literal; [exact Href|..].
    + cbn [reps] in *. rewrite length_repeat_list by lia. nia.
  - (* fill *)
    destruct t1 as [| | | | | | | | |b' n'| | | |]; try done. destruct Hne as [-> ->]. inversion_clear Hw1.
    destruct (mul64 n n') as [mul|] eqn:Em.
    + apply mul64_Some in Em as [-> _]. eapply (twp_new_opt _ _ (TFill b' (n * n'))); [done| |intros; by constructor].
      eapply optimized_repeat; [lia|exact Ho| |constructor; nia|simpl; lia|done|done|done|simpl; nia].
      eapply refines_repeat_literal; [exact Href|done|done|]. intros _.
      rewrite <- !repeat_list_memset, repeat_list_mul by lia. done.
    + apply mul64_None in Em. apply twp_fail. unfold E. cbn [reps] in *. nia.
  - (* repeat *)
    destruct (rep_lookup_repeat _ _ _ _ _ Ht1 He) as (t3 & -> & Ht3). inversion_clear Hw1.
    destruct (mul64 n n0) as [mul|] eqn:Em.
    + apply mul64_Some in Em as [-> _]. eapply (twp_new_opt _ _ (TRepeat t3 (n * n0))); [done| |].
      * eapply optimized_repeat; [lia|exact Ho| |constructor; [nia|done]|simpl; lia|done|done|done|].
        -- apply refines_repeat_repeat; [lia|done|exact Href].
        -- pose proof (reps_pos t3). cbn [reps] in *. nia.
      * intros tbl3 id3 Hp3 H3. eapply rep_repeat; [done|]. by eapply rep_prefix.
    + apply mul64_None in Em. apply twp_fail. unfold E. pose proof (reps_pos t3). cbn [reps] in *. nia.
Qed.

Lemma optimized_slice t t' n m t2 : optimized t t2 -> refines (TSlice t n m) t' -> wf_tree t' ->
  (height t' <= S (height t2))%nat -> is_data t' = true -> (script_free t2 = true -> script_free t' = true) ->
  (no_whole_slice (TSlice t n m) = true -> no_whole_slice t' = true) ->
  reps t' <= reps t2 -> optimized (TSlice t n m) t'.
Proof.
  intros Ho Hr Hw Hh Hd Hs Hws Hrep. pose proof (opt_height _ _ Ho). pose proof (opt_reps _ _ Ho).
  split; [done|done|simpl; lia|done| |done|simpl; lia|done]. intros Hsf. apply Hs. by apply (opt_script _ _ Ho).
Qed.

Lemma take_1_drop (s : list Z) (a : nat) : (a < length s)%nat -> take 1 (drop a s) = [nth a s 0].
Proof.
  intros Ha. destruct (lookup_lt_is_Some_2 s a Ha) as [x Hx]. rewrite (drop_S _ _ _ Hx).
  rewrite nth_lookup, Hx. done.
Qed.

Lemma slice_memset b k a len : 0 <= a -> 0 <= len -> a + len <= k ->
  take (Z.to_nat len) (drop (Z.to_nat a) (memset b k)) = memset b len.
Proof. intros. unfold memset. rewrite drop_replicate, take_replicate. f_equal. lia. Qed.

Lemma twp_optimize_slice opt id tbl t n m : has_null tbl -> rep tbl id t -> wf_tree t ->
  0 <= n <= UINT64_MAX -> -1 <= m <= INT64_MAX ->
  opt_spec opt t ->
  twp (optimize_slice opt id n m) tbl (opt_post (TSlice t n m)) (UINT64_MAX < reps (TSlice t n m)).
Proof.
  intros Hnull Hid Hwf Hn Hm Hopt. unfold optimize_slice. pose proof (reps_pos t).
  destruct (Z.eqb_spec n (u64 m)) as [Hnm|Hnm].
  { eapply (twp_new_opt _ _ TNull); [done| |intros; by constructor].
    split; [by apply refines_slice_empty; [|lia| |]|constructor|simpl; lia|done|done|done|simpl; lia|done]. }
  eapply twp_bind; [by apply Hopt|].
  intros id1 tbl1 Hp1 (t1 & Ht1 & Ho). assert (Hn1 : has_null tbl1) by (by eapply has_null_prefix).
  destruct (rep_node _ _ _ Ht1) as (e & He & Hne). eapply twp_get_bind; [done|].
  pose proof (opt_refines _ _ Ho) as Href. pose proof (opt_wf _ _ Ho) as Hw1. pose proof (reps_pos t1).
  set (E := UINT64_MAX < _).
  assert (Hother : twp (new_node (EXPR_SLICE id1 n m)) tbl1 (opt_post (TSlice t n m)) E).
  { eapply (twp_new_opt _ _ (TSlice t1 n m)); [done| |intros tbl3 id3 Hp3 H3; eapply rep_slice; [done|by eapply rep_prefix]].
    apply (optimized_slice _ _ _ _ t1); [done| |constructor; [done|lia|done]|done|done|done| |done].
    - destruct (is_stream t) eqn:Est; [by rewrite (opt_stream _ _ Ho Est)|].
      apply refines_slice_congr; [done|lia|lia|done].
    - simpl. intros [Hc Hws]%andb_prop. rewrite (opt_whole _ _ Ho Hws), andb_true_r.
      destruct (script_free t) eqn:Esf; [by rewrite (opt_script _ _ Ho Esf)|]. apply orb_true_iff. by right. }
  destruct (is_stream t) eqn:Est.
  { rewrite (opt_stream _ _ Ho Est) in *. destruct t; try done; destruct e; try done. }
  (* a literal for a slice of a literal *)
  assert (Hlit : forall e' t' v c, literal t1 = Some v -> literal t' = Some c ->
    (forall w, slice_list v n m = Some w -> c = w) -> wf_tree t' -> height t' = 1%nat -> is_data t' = true ->
    script_free t' = true -> reps t' <= reps t1 ->
    (forall tbl' id', tbl1 `prefix_of` tbl' -> tbl' !! id' = Some e' -> rep tbl' id' t') ->
    twp (new_node e') tbl1 (opt_post (TSlice t n m)) E).
  { intros e' t' v c Hv Hc Hw Hw' Hh Hd Hs Hr Hrep. eapply (twp_new_opt _ _ t'); [done| |done].
    eapply optimized_slice; [exact Ho| |done|lia|done|done| |done]; [by eapply refines_slice_literal|].
    intros _. by eapply literal_whole. }
  destruct e; try exact Hother.
  - (* null *)
    destruct t1; try done. destruct ((m =? 0) || _)%bool eqn:Ec; [|exact Hother].
    eapply (Hlit _ TNull); [done|done| |constructor|done|done|done|done|by constructor].
    intros w (e & Hem & Hr & ->)%slice_list_Some. simpl. by rewrite drop_nil, take_nil.
  - (* byte *)
    destruct t1; try done. simpl in Hne. subst b0. destruct ((m =? 1) || _)%bool eqn:Ec; [|exact Hother].
    eapply (Hlit _ (TByte b)); [done|done| |done|done|done|done|done|by constructor].
    intros w (e & Hem & Hr & ->)%slice_list_Some. simpl in Hr.
    destruct (Z.eqb_spec m 1) as [->|].
    + simpl in Hem. subst e. rewrite u64_small in Hnm by (limits; lia). by assert (n = 0) as -> by lia.
    + assert (n = 0 /\ m = -1) as [-> ->] by lia. simpl in Hem. by subst e.
  - (* string *)
    destruct t1 as [| | | | | | | |s'| | | | |]; try done. simpl in Hne. subst s'.
    destruct (valid_slice n m _) as [[a len]|] eqn:Ev; [|exact Hother].
    assert (Hval : a = n /\ 0 <= len /\ n + len <= Z.of_nat (length string)).
    { unfold valid_slice in Ev. repeat case_match; simplify_eq; lia. }
    destruct Hval as (-> & Hlen & Hfit). destruct (Z.eqb_spec len 1) as [->|].
    + eapply (Hlit _ (TByte (nth (Z.to_nat n) string 0))); [done|done| |constructor|done|done|done|cbn [reps]; lia|by constructor].
      intros w Hw. apply (slice_list_valid _ _ _ _ _ _ (proj1 Hn) Ev) in Hw as (_ & _ & _ & ->).
      rewrite take_1_drop; [done|lia].
    + unfold substring. rewrite (proj2 (Z.leb_le (n + len) _)) by done. cbn [tassert].
      eapply twp_bind; [apply (twp_ret _ _ (fun sub tbl' => sub = take (Z.to_nat len) (drop (Z.to_nat n) string) /\ tbl' = tbl1)); done|].
      intros ? ? _ [-> ->].
      eapply (Hlit _ (TString _)); [done|done| |constructor|done|done|done| |by constructor].
      * intros w Hw. by apply (slice_list_valid _ _ _ _ _ _ (proj1 Hn) Ev) in Hw as (_ & _ & _ & ->).
      * cbn [reps]. rewrite length_take, length_drop. lia.
  - (* fill *)
    destruct t1 as [| | | | | | | | |b' n'| | | |]; try done. destruct Hne as [-> ->]. inversion_clear Hw1.
    destruct (valid_slice n m n') as [[a len]|] eqn:Ev; [|exact Hother].
    assert (Hval : a = n /\ 0 <= len /\ n + len <= n').
    { unfold valid_slice in Ev. repeat case_match; simplify_eq; lia. }
    destruct Hval as (-> & Hlen & Hfit).
    assert (Hslice : forall w, slice_list (memset b' n') n m = Some w -> memset b' len = w).
    { intros w Hw. rewrite <- (Z2Nat.id n') in Ev by lia. rewrite <- (length_memset b' n') in Ev.
      apply (slice_list_valid _ _ _ _ _ _ (proj1 Hn) Ev) in Hw as (_ & _ & _ & ->). by rewrite slice_memset by lia. }
    destruct (Z.eqb_spec len 1) as [->|].
    + eapply (Hlit _ (TByte b')); [done|done|exact Hslice|constructor|done|done|done|simpl; lia|by constructor].
    + eapply (Hlit _ (TFill b' len)); [done|done|exact Hslice|by constructor|done|done|done|simpl; lia|by constructor].
Qed.

Lemma forallb_eqb_memset b s : forallb (Z.eqb b) s = true -> s = memset b (Z.of_nat (length s)).
Proof.
  unfold memset. rewrite Nat2Z.id. induction s as [|c s IH]; [done|]. cbn [forallb length replicate].
  intros [->%Z.eqb_eq Hs]%andb_prop. by rewrite <- IH.
Qed.

Lemma twp_optimize_string id tbl s E : has_null tbl -> rep tbl id (TString s) ->
  twp (optimize_string id s) tbl (opt_post (TString s)) E.
Proof.
  intros Hn Hid.
  assert (Hsame : twp (mret id) tbl (opt_post (TString s)) E).
  { apply twp_ret. exists (TString s). split; [done|]. by apply optimized_refl; constructor. }
  assert (Hlit : forall t', literal t' = Some s -> refines (TString s) t').
  { intros t' Hl r r' d o Hr Hok. rewrite (literal_item _ _ _ s r' _ _ Hl) by done.
    apply (result_le_put r r' d o (Some s)); [done|reflexivity]. }
  unfold optimize_string. destruct s as [|b [|c s]]; [|exact Hsame|].
  - eapply (twp_new_opt _ _ TNull); [done| |intros; by constructor].
    split; [by apply Hlit|constructor|simpl; lia|done|done|done|simpl; lia|done].
  - set (s' := b :: c :: s) in *. destruct (forallb (Z.eqb b) s') eqn:Eb; [|exact Hsame].
    eapply (twp_new_opt _ _ (TFill b (Z.of_nat (length s')))); [done| |intros; by constructor].
    split; [|constructor; lia|simpl; lia|done|done|done|cbn [reps]; lia|done].
    apply Hlit. simpl literal. f_equal. symmetry. by apply forallb_eqb_memset.
Qed.

Lemma heights_height t l fuel : (heights l <= fuel)%nat -> t ∈ l -> (height t <= fuel)%nat.
Proof. intros H Hin. induction Hin; unfold heights in *; simpl in H; [lia|]. apply IHHin. lia. Qed.

Lemma forallb_elem (p : tree -> bool) t l : forallb p l = true -> t ∈ l -> p t = true.
Proof. intros H Hin. rewrite forallb_forall in H. apply H. by apply list_elem_of_In. Qed.

Lemma twp_optimize_ast t : wf_tree t -> regular t = true -> forall fuel, (height t <= fuel)%nat ->
  opt_spec (optimize_ast fuel) t.
Proof.
  induction t as [|l IH| | | | | | |s|b n| |x t IH|t n IH|t n m IH] using tree_nested_ind;
    intros Hwf Hreg [|fuel] Hfuel tbl id Hnull Hid; try (simpl in Hfuel; lia); cbn [optimize_ast];
    destruct (rep_node _ _ _ Hid) as (e & He & Hne); (eapply twp_get_bind; [exact He|]);
    destruct e; try done; simpl in Hne;
    try (apply twp_ret; eexists; split; [done|by apply optimized_refl]).
  - (* list *)
    destruct (rep_lookup_list _ _ _ _ Hid He) as (l' & [= <-] & Hl). inversion Hwf as [|? Hwl| | | | | | | | | | | |]; subst.
    apply twp_optimize_list; [done|done|done|]. rewrite Forall_forall in IH, Hwl |- *. intros t Ht.
    apply IH; [done|by apply Hwl|by eapply forallb_elem|]. eapply heights_height; [|done].
    cbn [height] in Hfuel. fold (heights l) in Hfuel. lia.
  - (* string *) subst. by apply twp_optimize_string.
  - (* fill *)
    destruct Hne as [-> ->]. destruct (Z.eqb_spec n 0) as [->|].
    + eapply (twp_new_opt _ _ TNull); [done| |intros; by constructor].
      split; [|constructor|simpl; lia|done|done|done|simpl; lia|done]. intros r r' d o Hr Hok.
      rewrite (literal_item _ _ (TFill b 0) [] r), (literal_item _ _ TNull [] r') by done.
      by apply result_le_put.
    + apply twp_ret. eexists. split; [done|]. by apply optimized_refl.
  - (* assignment *)
    inversion Hid; subst; simplify_eq. inversion_clear Hwf. simpl in Hreg, Hfuel. eapply twp_bind; [apply IH; [done|done|lia|done|done]|].
    intros id1 tbl1 Hp1 (t1 & Ht1 & Ho). cbn beta.
    eapply (twp_new_opt _ _ (TAssign x t1)); [by eapply has_null_prefix| |].
    + destruct Ho. split; [by apply refines_assign_congr|by constructor|simpl; lia|done|done|done|done|done].
    + intros tbl2 id2 Hp2 H2. eapply rep_assign; [done|]. by eapply rep_prefix.
  - (* repeat *)
    destruct (rep_lookup_repeat _ _ _ _ _ Hid He) as (t' & [= <- <-] & Ht'). inversion_clear Hwf.
    simpl in Hreg, Hfuel. apply andb_prop in Hreg as [Hd Hreg].
    apply twp_optimize_repeat; [done..|lia|]. apply IH; [done|done|lia].
  - (* slice *)
    inversion Hid; subst; simplify_eq. inversion_clear Hwf. simpl in Hreg, Hfuel.
    apply andb_prop in Hreg as [[Hm Hs]%andb_prop Hreg].
    apply twp_optimize_slice; [done..|lia|]. apply IH; [done|done|lia].
Qed.
End Optimizer.

(** C19: the optimizer is correct and terminates.  For an expression in the
    table whose repetitions are of data and whose slices are regular, and
    with fuel for the height of the expression, [optimize_ast] ends without
    failed assertions; it keeps the nodes that were in the table, and it
    returns an expression that evaluates to the same bytes in every
    environment of names, files and scripts in which the given one has a
    value.  It can only fail when the product of nested repetition counts
    does not fit [uint64_t]. *)
Theorem optimize_ast_correct fopen popen tbl root t fuel :
  tbl !! 0%nat = Some EXPR_NULL -> rep tbl root t -> wf_tree t -> regular t = true -> (height t <= fuel)%nat ->
  exists r tbl', optimize_ast fuel root tbl = Ok (r, tbl') /\ tbl `prefix_of` tbl' /\
    match r with
    | Some root' => exists t', rep tbl' root' t' /\ wf_tree t' /\ (height t' <= height t)%nat /\
        forall names v, value fopen popen t names = Some v -> value fopen popen t' names = Some v
    | None => UINT64_MAX < reps t
    end.
Proof.
  intros Hn Hr Hw Hreg Hf.
  destruct (twp_optimize_ast fopen popen t Hw Hreg fuel Hf tbl root Hn Hr) as (r & tbl' & E & Hp & HQ).
  exists r, tbl'. split; [exact E|]. split; [done|]. destruct r as [root'|]; [|done].
  destruct HQ as (t' & Hrep & [H1 H2 H3 _ _ _ _ _]). exists t'. split_and!; [done..|].
  intros names. by apply refines_value.
Qed.

Definition sample_table : table :=
  [EXPR_NULL; EXPR_BYTE 1; EXPR_REPEAT 1%nat 3; EXPR_STRING [2; 2]; EXPR_SLICE 3%nat 1 (-1); EXPR_LIST [1; 2; 4]%nat].

Definition sample_tree : tree := TList [TByte 1; TRepeat (TByte 1) 3; TSlice (TString [2; 2]) 1 (-1)].

Lemma optimize_ast_correct_witness :
  exists r tbl', optimize_ast 3 5%nat sample_table = Ok (r, tbl') /\ sample_table `prefix_of` tbl' /\
    match r with
    | Some root' => exists t', rep tbl' root' t' /\ wf_tree t' /\ (height t' <= 3)%nat /\
        forall names v, value (fun _ => None) (fun _ => None) sample_tree names = Some v ->
          value (fun _ => None) (fun _ => None) t' names = Some v
    | None => UINT64_MAX < 6
    end.
Proof.
  apply (optimize_ast_correct (fun _ => None) (fun _ => None) sample_table 5%nat sample_tree 3).
  - done.
  - eapply rep_list; [reflexivity|]. constructor; [by apply rep_byte|]. constructor.
    { eapply rep_repeat; [reflexivity|by apply rep_byte]. }
    constructor; [|constructor]. eapply rep_slice; [reflexivity|by apply rep_string].
  - constructor. constructor; [constructor|]. constructor; [constructor; [lia|constructor]|].
    constructor; [|constructor]. constructor; [limits; lia|limits; lia|constructor].
  - done.
  - simpl. lia.
Defined.

(** Four bytes 1 and a byte 2. *)
Example optimize_sample :
  match optimize_ast 3 5%nat sample_table with
  | Ok (Some root, tbl) =>
      tbl !! root = Some (EXPR_LIST [9; 8]%nat) /\ tbl !! 9%nat = Some (EXPR_FILL 1 4) /\ tbl !! 8%nat = Some (EXPR_BYTE 2)
  | _ => False
  end.
Proof. by vm_compute. Qed.
