(* ===== verification/DataParse.v ===== *)
(** * The data plugin: correctness of the parser

    The parser ends, without failed assertions, unless parameters refer to
    each other in a cycle; the nodes that it creates stand for well-formed
    expressions. *)

From Stdlib Require Import Ascii String.
From S2P Require Import Prelude NbdProtocol Extents Exports Server Connections Backend Plugin Parse Bytes Vector Allocators DataFormat DataEval DataSem DataLaws DataOptim.

#[local] Open Scope Z_scope.

(** ** Characters and numbers *)

Lemma span_le p str : (span p str <= length str)%nat.
Proof. induction str as [|c str IH]; simpl; [lia|]. destruct (p c); simpl; lia. Qed.

Lemma get_marked_le mark first rest value i n j : get_marked mark first rest value i = (n, j) -> (i <= j)%nat.
Proof. unfold get_marked. repeat case_match; intros; simplify_eq; lia. Qed.

Lemma digits_le base str : forall acc v rest, digits base acc str = (v, rest) -> (length rest <= length str)%nat.
Proof.
  induction str as [|c str IH]; intros acc v rest; simpl; [by intros [= <- <-]|].
  destruct (digit_value c) as [d|]; [|by intros [= <- <-]]. destruct (d <? base); [|by intros [= <- <-]].
  intros ?%IH. lia.
Qed.

Lemma digits_lt base str acc v rest : is_digit base (deref str) = true -> digits base acc str = (v, rest) ->
  (length rest < length str)%nat.
Proof.
  destruct str as [|c str]; [done|]. unfold is_digit. simpl. destruct (digit_value c) as [d|]; [|done].
  intros ->. intros ?%digits_le. simpl. lia.
Qed.

Lemma digits_nonneg base str : forall acc v rest, 0 <= base -> 0 <= acc -> digits base acc str = (v, rest) -> 0 <= v.
Proof.
  assert (Hd : forall c d, digit_value c = Some d -> 0 <= d).
  { intros c d. unfold digit_value, ascii_isdigit, ascii_islower, ascii_isupper.
    repeat case_match; intros; simplify_eq; lia. }
  induction str as [|c str IH]; intros acc v rest Hb Ha; simpl; [by intros [= <- _]|].
  destruct (digit_value c) as [d|] eqn:E; [|by intros [= <- _]]. destruct (d <? base); [|by intros [= <- _]].
  apply Hd in E. apply IH; [done|nia].
Qed.

Lemma magnitude_0 str : deref str = 48 -> magnitude 0 str = None -> False.
Proof.
  intros Hc. unfold magnitude. destruct (_ && _)%bool; [done|]. rewrite Hc. simpl. done.
Qed.

Lemma magnitude_lt str m rest : magnitude 0 str = Some (m, rest) -> (length rest < length str)%nat.
Proof.
  unfold magnitude. cbn [Z.eqb andb].
  destruct (match str with a :: b :: d :: _ => _ | _ => _ end) eqn:E.
  - destruct str as [|a [|b [|d str]]]; try done. intros H. change (Some (digits 16 0 (d :: str)) = Some (m, rest)) in H.
    assert (H' : digits 16 0 (d :: str) = (m, rest)) by congruence.
    apply digits_le in H'. simpl in *. lia.
  - cbv zeta. destruct (is_digit _ (deref str)) eqn:Ed; [|done].
    destruct (digits _ 0 str) as [v r] eqn:Eg. intros [= <- <-]. by eapply digits_lt.
Qed.

Lemma scan_magnitude_lt str m rest : scan_magnitude str = Some (m, rest) -> (length rest < length str)%nat.
Proof.
  unfold scan_magnitude. destruct str as [|a [|x str]]; [done|by apply magnitude_lt|].
  destruct (_ && _)%bool; [|apply magnitude_lt]. destruct (is_digit 16 (deref str)); [|done].
  intros H. assert (H' : digits 16 0 str = (m, rest)) by congruence. apply digits_le in H'. simpl. lia.
Qed.

Lemma skip_spaces_le p str : (length (skip_spaces p str) <= length str)%nat.
Proof. induction str as [|c str IH]; simpl; [lia|]. destruct (p c); simpl; lia. Qed.

(** A number has at least one character, and is in the range of its type. *)
Lemma scan_int_spec lo hi str v n : scan_int lo hi str = Scanned v n -> lo <= v <= hi /\ (1 <= n)%nat.
Proof.
  unfold scan_int. pose proof (skip_spaces_le isspace str) as Hl. 
  match goal with |- (let '(_, _) := ?p in _) = _ -> _ => destruct p as [neg s] eqn:Es end.
  assert (Hs : (length s <= length str)%nat).
  { destruct (skip_spaces isspace str) as [|c s']; [injection Es as <- <-; lia|]. simpl in Hl.
    repeat case_match; simplify_eq; simpl; lia. }
  destruct (scan_magnitude s) as [[m rest]|] eqn:Em; [|done]. apply scan_magnitude_lt in Em.
  destruct (_ || _)%bool eqn:E; [done|]. intros [= <- <-]. lia.
Qed.

Lemma string_loop_le n : forall str acc s rest, (length str <= n)%nat -> string_loop str acc = Some (s, rest) ->
  (length rest <= length str)%nat.
Proof.
  induction n as [|n IH]; intros str acc s rest Hn; destruct str as [|c str]; simpl in Hn |- *; try done; try lia.
  assert (Hrec : forall str' acc', (length str' <= length str)%nat -> string_loop str' acc' = Some (s, rest) ->
    (length rest <= S (length str))%nat) by (intros str' acc' Hl H; apply IH in H; lia).
  destruct (c =? dquote); [intros [= <- <-]; lia|].
  destruct (c =? backslash); [|by apply Hrec].
  destruct str as [|c1 str]; [done|]. simpl in Hrec. do 7 (destruct (c1 =? _); [apply Hrec; lia|]).
  destruct (c1 =? _).
  - destruct str as [|x0 [|x1 str]]; try done. destruct (_ || _)%bool; [done|]. apply Hrec. simpl. lia.
  - destruct (_ || _)%bool; [done|]. apply Hrec. lia.
Qed.

(** ** Specifications of the parser's steps

    [pwp m tbl Q]: from [tbl], [m] either fails, or it meets undefined
    behaviour of [sscanf], or it ends with a result and a larger table that
    satisfy [Q]. *)

Definition table_ok (tbl : table) : Prop := tbl = [] \/ has_null tbl.

Definition pwp {A} (m : T A) (tbl : table) (Q : A -> table -> Prop) : Prop :=
  table_ok tbl -> match m tbl with
  | Ok (Some a, tbl') => tbl `prefix_of` tbl' /\ table_ok tbl' /\ Q a tbl'
  | Ok (None, _) => True
  | Crash c => c = Undefined
  end.

Lemma pwp_ret {A} (a : A) tbl (Q : A -> table -> Prop) : Q a tbl -> pwp (mret a) tbl Q.
Proof. intros H Ht. done. Qed.

Lemma pwp_fail {A} tbl (Q : A -> table -> Prop) : pwp tfail tbl Q.
Proof. done. Qed.

Lemma pwp_undefined {A} tbl (Q : A -> table -> Prop) : pwp (tcrash Undefined) tbl Q.
Proof. done. Qed.

Lemma pwp_bind {A B} (m : T B) (k : B -> T A) tbl Q1 Q : pwp m tbl Q1 ->
  (forall b tbl', tbl `prefix_of` tbl' -> Q1 b tbl' -> pwp (k b) tbl' Q) -> pwp (b ← m; k b) tbl Q.
Proof.
  intros Hm Hk Ht. specialize (Hm Ht). unfold mbind, T_bind. destruct (m tbl) as [[[b|] tbl1]|]; [|done..].
  destruct Hm as (Hp & Ht1 & HQ). specialize (Hk b tbl1 Hp HQ Ht1).
  destruct (k b tbl1) as [[[a|] tbl2]|]; [|done..]. destruct Hk as (Hp2 & ? & ?). split; [by etrans|done].
Qed.

Lemma pwp_mono {A} (m : T A) tbl (Q Q' : A -> table -> Prop) : pwp m tbl Q ->
  (forall a tbl', tbl `prefix_of` tbl' -> Q a tbl' -> Q' a tbl') -> pwp m tbl Q'.
Proof. intros H HQ Ht. specialize (H Ht). destruct (m tbl) as [[[b|] tbl1]|]; naive_solver. Qed.

Lemma pwp_assert b tbl (Q : unit -> table -> Prop) : b = true -> Q tt tbl -> pwp (tassert b) tbl Q.
Proof. intros -> H Ht. done. Qed.

Lemma pwp_get id e tbl (Q : expr -> table -> Prop) : tbl !! id = Some e -> Q e tbl -> pwp (get_node id) tbl Q.
Proof. intros He HQ Ht. unfold get_node. by rewrite He. Qed.

Lemma pwp_new e tbl (Q : node_id -> table -> Prop) : e <> EXPR_NULL ->
  (forall id tbl', tbl `prefix_of` tbl' -> has_null tbl' -> tbl' !! id = Some e -> Q id tbl') -> pwp (new_node e) tbl Q.
Proof.
  intros He HQ Ht. unfold new_node. set (tbl1 := match tbl with [] => [EXPR_NULL] | _ => tbl end).
  assert (Hp1 : tbl `prefix_of` tbl1) by (unfold tbl1; destruct tbl; [apply prefix_nil|done]).
  assert (Hn1 : has_null tbl1) by (unfold tbl1; destruct Ht as [->|H]; [done|by destruct tbl]).
  assert (Hp : tbl `prefix_of` tbl1 ++ [e]) by (by apply prefix_app_r).
  assert (Hn : has_null (tbl1 ++ [e])) by (apply (has_null_prefix tbl1); [by apply prefix_app_r|done]).
  destruct e; try done; (split; [exact Hp|split; [by right|apply HQ; [exact Hp|exact Hn|by apply list_lookup_middle]]]).
Qed.

(** ** The list of nodes so far *)

Definition good_list (tbl : table) (l : list node_id) : Prop :=
  exists ts, node_list tbl l ts /\ Forall wf_tree ts.

Lemma good_list_prefix tbl tbl' l : tbl `prefix_of` tbl' -> good_list tbl l -> good_list tbl' l.
Proof. intros Hp (ts & Hl & Hw). exists ts. split; [by eapply node_list_prefix|done]. Qed.

Lemma good_list_snoc tbl l id t : good_list tbl l -> rep tbl id t -> wf_tree t -> good_list tbl (l ++ [id]).
Proof.
  intros (ts & Hl & Hw) Hid Ht. exists (ts ++ [t]). split; [apply Forall2_app; [done|by constructor]|].
  apply Forall_app. by split; [|constructor].
Qed.

(** The index moves on, and the list stays good. *)
Definition advances (i : nat) (res : nat * list node_id) (tbl : table) : Prop :=
  (i < res.1)%nat /\ good_list tbl res.2.

Lemma pwp_append e t tbl i j l : e <> EXPR_NULL -> good_list tbl l -> wf_tree t -> (i < j)%nat ->
  (forall tbl' id, tbl `prefix_of` tbl' -> tbl' !! id = Some e -> rep tbl' id t) ->
  pwp (l ← append_expr e l; mret (j, l)) tbl (advances i).
Proof.
  intros He Hl Ht Hij Hrep. eapply (pwp_bind _ _ _ (fun l' tbl' => good_list tbl' l')).
  - eapply (pwp_bind _ _ _ (fun id tbl' => tbl `prefix_of` tbl' /\ rep tbl' id t)).
    + apply pwp_new; [done|]. intros id tbl' Hp _ Hid. eauto.
    + intros id tbl' Hp [_ Hid]. apply pwp_ret. eapply good_list_snoc; [by eapply good_list_prefix|done|done].
  - intros l' tbl' _ Hl'. by apply pwp_ret.
Qed.

(** Expressions without subexpressions. *)
Ltac append_leaf t :=
  eapply (pwp_append _ t);
    [done|eassumption|constructor; try done; try lia|try lia|intros; by constructor].

Lemma pwp_with_i64 {A} value i (k : Z -> nat -> T A) tbl Q :
  (forall v n, INT64_MIN <= v <= INT64_MAX -> (1 <= n)%nat -> pwp (k v n) tbl Q) -> pwp (with_i64 value i k) tbl Q.
Proof.
  intros Hk. unfold with_i64. destruct (scan_i64 _) as [| |v n] eqn:E; [apply pwp_fail|apply pwp_undefined|].
  apply scan_int_spec in E as [H1 H2]. by apply Hk.
Qed.

Lemma pwp_operand tbl l : good_list tbl l ->
  pwp (operand l) tbl (fun '(id, l') tbl' => tbl' = tbl /\ good_list tbl l' /\ exists t, rep tbl id t /\ wf_tree t).
Proof.
  intros (ts & Hl & Hw). unfold operand. destruct (last l) as [id|] eqn:E; [|apply pwp_fail].
  apply last_Some in E as [l' ->]. apply Forall2_app_inv_l in Hl as (ts1 & ts2 & Hl1 & Hl2 & ->).
  inversion Hl2 as [|? t ? ? Hid Hnil]; subst. inversion Hnil; subst.
  apply Forall_app in Hw as [Hw1 Hw2]. inversion_clear Hw2.
  destruct (rep_node _ _ _ Hid) as (e & He & _).
  eapply pwp_bind; [by apply (pwp_get id e _ (fun e' tbl' => e' = e /\ tbl' = tbl))|]. intros e' tbl' _ [-> ->].
  destruct (negb _); [apply pwp_fail|]. rewrite removelast_last. apply pwp_ret. split; [done|].
  split; [by exists ts1|by exists t].
Qed.

Lemma pow2_below k : 0 <= k -> 2 ^ k <= INT64_MAX -> k < 63.
Proof.
  intros Hk H. destruct (Z.lt_ge_cases k 63) as [|Hge]; [done|]. exfalso.
  assert (2 ^ 63 <= 2 ^ k) by (apply Z.pow_le_mono_r; lia). change (2 ^ 63) with 9223372036854775808 in *. limits. lia.
Qed.

Lemma pwp_parse_offset value i l tbl : good_list tbl l -> pwp (parse_offset value i l) tbl (advances (i - 1)).
Proof.
  intros Hl. unfold parse_offset. destruct (i =? length value)%nat; [apply pwp_fail|].
  assert (Hrel : forall sign, sign = 1 \/ sign = -1 -> pwp (if (i + 1 =? length value)%nat then tfail
    else with_i64 value (i + 1) (fun i64 n => if i64 <? 0 then tfail
      else l ← append_expr (EXPR_REL_OFFSET (sign * i64)) l; mret ((i + 1 + n)%nat, l))) tbl (advances (i - 1))).
  { intros sign Hs. destruct (_ =? _)%nat; [apply pwp_fail|]. apply pwp_with_i64. intros v n Hv Hn.
    destruct (Z.ltb_spec v 0); [apply pwp_fail|]. append_leaf (TRel (sign * v)). }
  destruct (_ =? chr "+"); [by apply Hrel; left|]. destruct (_ =? chr "-"); [by apply Hrel; right|].
  destruct (_ =? chr "^").
  - destruct (_ =? _)%nat; [apply pwp_fail|]. apply pwp_with_i64. intros v n Hv Hn.
    destruct (Z.ltb_spec v 0); [apply pwp_fail|]. destruct (is_power_of_2 v) eqn:Ep; [|apply pwp_fail]. cbn [negb].
    apply is_power_of_2_spec in Ep as (k & Hk & ->); [|done].
    append_leaf (TAlign (2 ^ k)). split; [done|]. apply pow2_below; [done|lia].
  - destruct (ascii_isdigit _); [|apply pwp_fail]. apply pwp_with_i64. intros v n Hv Hn.
    destruct (Z.ltb_spec v 0); [apply pwp_fail|]. append_leaf (TAbs v).
Qed.

Lemma pwp_parse_repeat value i l tbl : good_list tbl l -> pwp (parse_repeat value i l) tbl (advances (i - 1)).
Proof.
  intros Hl. unfold parse_repeat. eapply pwp_bind; [by apply pwp_operand|].
  intros [id l'] tbl' _ (-> & Hl' & t & Hid & Ht). apply pwp_with_i64. intros v n Hv Hn.
  destruct (Z.ltb_spec v 0); [apply pwp_fail|].
  eapply (pwp_append _ (TRepeat t v)); [done|done|by constructor|lia|].
  intros tbl2 id2 Hp H2. eapply rep_repeat; [done|]. by eapply rep_prefix.
Qed.

Lemma scan_slice_spec str k m n : scan_slice str = SliceMatch k m n -> m <= INT64_MAX.
Proof.
  assert (Hboth : forall str k m n, scan_slice_both str = SliceMatch k m n -> m <= INT64_MAX).
  { intros str' k' m' n'. unfold scan_slice_both. destruct (scan_i64 str') as [| |v c]; [done..|].
    destruct (_ =? _); [|done]. destruct (scan_i64 (drop _ _)) as [| |v2 c2] eqn:E; [done..|].
    intros [= _ <- _]. apply scan_int_spec in E. lia. }
  assert (Hend : forall str k m n, scan_slice_end str = SliceMatch k m n -> m <= INT64_MAX).
  { intros str' k' m' n'. unfold scan_slice_end. destruct (_ =? _); [|done].
    destruct (scan_i64 (drop _ _)) as [| |v2 c2] eqn:E; [done..|].
    intros [= _ <- _]. apply scan_int_spec in E. lia. }
  assert (Hstart : forall str k m n, scan_slice_start str = SliceMatch k m n -> m <= INT64_MAX).
  { intros str' k' m' n'. unfold scan_slice_start. destruct (scan_i64 str') as [| |v c]; [done..|].
    intros [= _ <- _]. limits. lia. }
  unfold scan_slice. destruct (scan_slice_both str) eqn:E1; try done; [|intros [= <- <- <-]; by eapply Hboth].
  destruct (scan_slice_end str) eqn:E2; try done; [|intros [= <- <- <-]; by eapply Hend].
  destruct (scan_slice_start str) eqn:E3; try done; [|intros [= <- <- <-]; by eapply Hstart].
  destruct (_ && _)%bool; [|done]. intros [= _ <- _]. limits. lia.
Qed.

Lemma pwp_parse_slice value i l tbl : (1 <= i)%nat -> good_list tbl l -> pwp (parse_slice value i l) tbl (advances (i - 1)).
Proof.
  intros Hi Hl. unfold parse_slice. eapply pwp_bind; [by apply pwp_operand|].
  intros [id l'] tbl' _ (-> & Hl' & t & Hid & Ht).
  destruct (scan_slice _) as [| |k m [n|]] eqn:E; [apply pwp_fail|apply pwp_undefined| |apply pwp_undefined].
  apply scan_slice_spec in E. pose proof (u64_range k).
  eapply (pwp_append _ (TSlice t (u64 k) m)); [done|done|by constructor|lia|].
  intros tbl2 id2 Hp H2. eapply rep_slice; [done|]. by eapply rep_prefix.
Qed.

Lemma pwp_parse_input value i l tbl : good_list tbl l -> pwp (parse_input value i l) tbl (advances i).
Proof.
  intros Hl. unfold parse_input. destruct (_ && _)%bool.
  - set (n := get_script _ _). destruct (n =? 0)%nat; [apply pwp_fail|].
    append_leaf (TScript (take n (drop (i + 2) value))).
  - set (n := span _ _). destruct (n =? 0)%nat; [apply pwp_fail|].
    append_leaf (TFile (take n (drop (i + 1) value))).
Qed.

Lemma pwp_parse_name value i l tbl : good_list tbl l -> pwp (parse_name value i l) tbl (advances i).
Proof.
  intros Hl. unfold parse_name. destruct (get_name value i) as [n j] eqn:E. apply get_marked_le in E.
  destruct (Nat.eqb_spec n 0); [apply pwp_fail|]. append_leaf (TName (take n (drop j value))).
Qed.

Lemma pwp_parse_assign value i l tbl : good_list tbl l -> pwp (parse_assign value i l) tbl (advances i).
Proof.
  intros Hl. unfold parse_assign. destruct (negb _); [apply pwp_fail|]. eapply pwp_bind; [by apply pwp_operand|].
  intros [id l'] tbl' _ (-> & Hl' & t & Hid & Ht).
  destruct (get_name value (i + 1)) as [n j] eqn:E. apply get_marked_le in E.
  destruct (Nat.eqb_spec n 0); [apply pwp_fail|].
  eapply (pwp_append _ (TAssign _ t)); [done|done|by constructor|lia|].
  intros tbl2 id2 Hp H2. eapply rep_assign; [done|]. by eapply rep_prefix.
Qed.

Lemma pwp_parse_byte value i l tbl : good_list tbl l -> pwp (parse_byte value i l) tbl (advances i).
Proof.
  intros Hl. unfold parse_byte. destruct (scan_i _) as [| |j n] eqn:E; [apply pwp_fail|apply pwp_undefined|].
  apply scan_int_spec in E as [_ Hn]. destruct (_ || _)%bool; [apply pwp_fail|]. append_leaf (TByte j).
Qed.

Lemma pwp_parse_string value i tbl : (i <= length value)%nat ->
  pwp (parse_string value i) tbl (fun '(s, j) tbl' => tbl' = tbl /\ (i <= j)%nat).
Proof.
  intros Hi. unfold parse_string. destruct (string_loop _ _) as [[s rest]|] eqn:E; [|apply pwp_fail].
  apply pwp_ret. split; [done|]. apply (string_loop_le _ _ _ _ _ (le_n _)) in E. rewrite length_drop in E. lia.
Qed.

Lemma span_pos p str : p (deref str) = true -> str <> [] -> (0 < span p str)%nat.
Proof. destruct str as [|c str]; [done|]. simpl. intros -> _. lia. Qed.

Lemma deref_drop value i : deref (drop i value) = char_at value i.
Proof. unfold char_at. revert i. induction value as [|c value IH]; intros [|i]; try done. apply IH. Qed.

Lemma pwp_parse_word value i tbl : (i < length value)%nat -> ascii_isspace (char_at value i) = false ->
  pwp (parse_word value i) tbl (fun '(s, j) tbl' => tbl' = tbl /\ (i < j)%nat).
Proof.
  intros Hi Hc. unfold parse_word. set (n := span _ _).
  assert (Hn : (0 < n)%nat).
  { apply span_pos; [by rewrite deref_drop, Hc|]. intros Hd. apply (f_equal length) in Hd. rewrite length_drop in Hd. simpl in Hd. lia. }
  eapply pwp_bind; [apply (pwp_assert _ _ (fun _ tbl' => tbl' = tbl)); [by apply Nat.ltb_lt|done]|]. intros _ tbl' _ ->.
  destruct (word_prefix _) as [[len little]|]; [|apply pwp_fail].
  destruct (match len with 2%nat => _ | _ => _ end) as [v|e]; [|apply pwp_fail]. apply pwp_ret. split; [done|lia].
Qed.

(** ** The parser *)

Lemma pwp_parse_item value i l tbl : (i < length value)%nat -> good_list tbl l ->
  pwp (parse_item value i l) tbl (advances i).
Proof.
  intros Hi Hl. unfold parse_item.
  assert (Hsub : forall m, pwp m tbl (advances (i + 1 - 1)) -> pwp m tbl (advances i))
    by (replace (i + 1 - 1)%nat with i by lia; done).
  destruct (_ =? chr "#"); [apply pwp_ret; split; [simpl; lia|done]|].
  destruct (_ =? chr "@"); [apply Hsub; by apply pwp_parse_offset|].
  destruct (_ =? chr "*"); [apply Hsub; by apply pwp_parse_repeat|].
  destruct (_ =? chr "["); [apply Hsub; by apply pwp_parse_slice; [lia|]|].
  destruct (_ =? chr "<"); [by apply pwp_parse_input|].
  destruct (_ =? dquote).
  { eapply pwp_bind; [apply pwp_parse_string; lia|]. intros [s j] tbl' _ [-> Hj]. append_leaf (TString s). }
  destruct (_ =? backslash); [by apply pwp_parse_name|].
  destruct (_ =? chr "-").
  { eapply pwp_mono; [by apply pwp_parse_assign|]. intros [j l'] tbl' _ [H1 H2]. split; [simpl in *; lia|done]. }
  destruct (ascii_isdigit _); [by apply pwp_parse_byte|].
  destruct ((_ =? chr "l") || _)%bool eqn:Ew.
  { eapply pwp_bind; [apply pwp_parse_word; [done|]|].
    - unfold ascii_isspace. apply orb_prop in Ew as [-> %Z.eqb_eq | -> %Z.eqb_eq]; done.
    - intros [s j] tbl' _ [-> Hj]. append_leaf (TString s). }
  destruct (isspace _); [|apply pwp_fail]. apply pwp_ret. split; [simpl; lia|done].
Qed.

Section Parser.
Context (variable : list Z -> option (list Z)).

(** A parameter that is inserted where [value] refers to it. *)
Definition expands (content value : list Z) : Prop :=
  exists i, let '(n, j) := get_var value i in n <> 0%nat /\ variable (take n (drop j value)) = Some content.

(** The node of a list, and the index behind it. *)
Definition parsed_list (i : nat) (res : node_id * nat) (tbl : table) : Prop :=
  (i <= res.2)%nat /\ has_null tbl /\ exists ts, rep tbl res.1 (TList ts) /\ wf_tree (TList ts).

Definition parses (fuel : nat) (value : list Z) (i : nat) : Prop := forall level l tbl, good_list tbl l ->
  pwp (parser variable fuel level value i l) tbl (parsed_list i).

Lemma parsed_list_weaken i j res tbl : (i <= j)%nat -> parsed_list j res tbl -> parsed_list i res tbl.
Proof. intros Hij (H & H1 & H2). split; [lia|done]. Qed.

Lemma good_list_nil tbl : good_list tbl [].
Proof. exists []. split; constructor. Qed.

(** After a recursive call: the node is a list and is appended. *)
Lemma pwp_sublist {A} (m : T (node_id * nat)) (k : node_id -> nat -> T A) tbl l i Q : good_list tbl l ->
  pwp m tbl (parsed_list i) ->
  (forall id n tbl', (i <= n)%nat -> good_list tbl' (l ++ [id]) -> pwp (k id n) tbl' Q) ->
  pwp ('(id, n) ← m; e ← get_node id; tassert (is_list e);; k id n) tbl Q.
Proof.
  intros Hl Hm Hk. eapply pwp_bind; [exact Hm|]. intros [id n] tbl1 Hp1 (Hn & _ & ts & Hr & Hw). simpl in Hn, Hr.
  inversion Hr as [|? ids ? He Hids| | | | | | | | | | | |]; subst.
  eapply pwp_bind; [by apply (pwp_get id (EXPR_LIST ids) _ (fun e tbl' => e = EXPR_LIST ids /\ tbl' = tbl1))|].
  intros e tbl2 _ [-> ->].
  eapply pwp_bind; [by apply (pwp_assert _ _ (fun _ tbl' => tbl' = tbl1))|]. intros _ tbl2 _ ->.
  apply Hk; [done|]. eapply good_list_snoc; [by eapply good_list_prefix|done|done].
Qed.

Lemma pwp_out tbl l i j : good_list tbl l -> (i <= j)%nat ->
  pwp (id ← new_node (EXPR_LIST l); mret (id, j)) tbl (parsed_list i).
Proof.
  intros (ts & Hl & Hw) Hj.
  eapply (pwp_bind _ _ _ (fun id tbl' => tbl `prefix_of` tbl' /\ has_null tbl' /\ tbl' !! id = Some (EXPR_LIST l))).
  - by apply pwp_new.
  - intros id tbl' _ (Hp & Hn & Hid). apply pwp_ret. split; [done|]. split; [done|]. exists ts.
    split; [|by constructor]. eapply rep_list; [done|]. by eapply node_list_prefix.
Qed.

Lemma parses_end fuel value i : (length value <= i)%nat -> parses (S fuel) value i.
Proof.
  intros Hi level l tbl Hl. cbn [parser]. rewrite (proj2 (Nat.leb_le _ _) Hi).
  destruct (0 <? level)%nat; [apply pwp_fail|by apply pwp_out].
Qed.

(** A step of the loop, with fuel for the rest and for the parameter at [i]. *)
Lemma parses_step fuel value i : (i < length value)%nat ->
  (forall j, (i < j)%nat -> parses fuel value j) ->
  (forall content, (let '(n, j) := get_var value i in
     n <> 0%nat /\ variable (take n (drop j value)) = Some content) -> parses fuel content 0) ->
  parses (S fuel) value i.
Proof.
  intros Hi Hrest Hvar level l tbl Hl. cbn [parser]. rewrite (proj2 (Nat.leb_gt _ _) Hi).
  destruct (_ =? chr "(").
  { eapply (pwp_sublist _ (fun id n => parser variable fuel level value n (l ++ [id]))); [done| |].
    - eapply (Hrest (i + 1)%nat); [lia|apply good_list_nil].
    - intros id n tbl1 Hn Hl1. eapply pwp_mono; [apply (Hrest n); [lia|done]|].
      intros res tbl2 _. apply parsed_list_weaken. lia. }
  destruct (_ =? chr ")"); [destruct (level <? 1)%nat; [apply pwp_fail|apply pwp_out; [done|lia]]|].
  destruct (_ =? chr "$").
  { destruct (get_var value i) as [n j] eqn:Ev. pose proof (get_marked_le _ _ _ _ _ _ _ Ev) as Hij.
    destruct (Nat.eqb_spec n 0); [apply pwp_fail|].
    destruct (variable _) as [content|] eqn:Ec; [|apply pwp_fail].
    eapply (pwp_sublist _ (fun id _ => parser variable fuel level value (j + n) (l ++ [id]))); [done| |].
    - by eapply Hvar; [split|apply good_list_nil].
    - intros id n' tbl1 _ Hl1. eapply pwp_mono; [apply (Hrest (j + n)%nat); [lia|done]|].
      intros res tbl2 _. apply parsed_list_weaken. lia. }
  eapply pwp_bind; [by apply pwp_parse_item|]. intros [j l'] tbl1 _ [Hj Hl1]. simpl in Hj, Hl1.
  eapply pwp_mono; [apply (Hrest j); [lia|done]|]. intros res tbl2 _. apply parsed_list_weaken. lia.
Qed.

Lemma parser_terminates value : Acc expands value ->
  exists fuel0, forall fuel i, (fuel0 <= fuel)%nat -> parses fuel value i.
Proof.
  induction 1 as [value _ IH].
  assert (H : forall m, exists fuel0, forall fuel i, (fuel0 <= fuel)%nat -> (length value - i <= m)%nat ->
    parses fuel value i).
  { induction m as [|m (f1 & Hf1)].
    - exists 1%nat. intros [|fuel] i Hf Hi; [lia|]. apply parses_end. lia.
    - (* the parameter that the only new index may refer to *)
      set (i0 := (length value - S m)%nat).
      assert (exists f2, forall fuel content, (f2 <= fuel)%nat -> (let '(n, j) := get_var value i0 in
        n <> 0%nat /\ variable (take n (drop j value)) = Some content) -> parses fuel content 0) as (f2 & Hf2).
      { destruct (get_var value i0) as [n j] eqn:Ev. destruct (variable (take n (drop j value))) as [content|] eqn:Ec.
        - destruct (decide (n = 0%nat)); [exists 0%nat; by intros ? ? ? []|].
          destruct (IH content) as (f2 & Hf2); [exists i0; by rewrite Ev|]. exists f2.
          intros fuel c Hf [_ [= <-]]. by apply Hf2.
        - exists 0%nat. by intros ? ? ? []. }
      exists (S (Nat.max f1 f2)). intros [|fuel] i Hf Hi; [lia|].
      destruct (decide (i < length value)%nat); [|apply parses_end; lia].
      destruct (decide (length value - i <= m)%nat); [apply Hf1; lia|].
      assert (i = i0) as -> by (unfold i0; lia).
      apply parses_step; [done| |].
      + intros j Hj. apply Hf1; lia.
      + intros content. apply Hf2. lia. }
  destruct (H (length value)) as (f0 & Hf0). exists f0. intros fuel i Hf. apply Hf0; [done|lia].
Qed.
End Parser.

(** C22: the parser terminates and produces well-formed expressions.  Unless
    the parameters that the text refers to ([$VAR]) refer to each other in a
    cycle, there is an amount of fuel with which the parser ends, on any
    text: it reports an error, or it meets undefined behaviour (of [sscanf]
    for a number that does not fit, or by advancing behind a slice without
    its closing bracket), or it returns a node of the table that
    stands for a well-formed list of expressions -- the offsets and counts
    are in range, alignments are powers of two, every reference is to an
    earlier node -- with the null expression as node 0.  No assertion fails. *)
Theorem parser_correct variable value : Acc (expands variable) value ->
  exists fuel0, forall fuel, (fuel0 <= fuel)%nat ->
    match parser variable fuel 0 value 0 [] [] with
    | Ok (Some (root, i), tbl) =>
        tbl !! 0%nat = Some EXPR_NULL /\ exists t, rep tbl root t /\ wf_tree t
    | Ok (None, _) => True
    | Crash c => c = Undefined
    end.
Proof.
  intros Hacc. destruct (parser_terminates variable value Hacc) as (f0 & Hf0). exists f0. intros fuel Hf.
  specialize (Hf0 fuel 0%nat Hf 0%nat [] [] (good_list_nil []) (or_introl eq_refl)).
  destruct (parser _ _ _ _ _ _ _) as [[[[root i]|] tbl]|]; [|done..].
  destruct Hf0 as (_ & _ & _ & Hn & ts & Hr & Hw). eauto.
Qed.

(** ** Cycles *)

(** a parameter that refers to itself.  The parser has no limit on the
    depth of parameters: where the content of the parameter [x] is [$x], it
    calls itself without end, and no amount of fuel (in C, no amount of
    stack) is enough. *)
Lemma parser_cycle variable x fuel level l tbl :
  ascii_isalpha (deref x) = true -> forallb is_var_char x = true -> variable x = Some (chr "$" :: x) ->
  parser variable fuel level (chr "$" :: x) 0 l tbl = Crash OutOfFuel.
Proof.
  intros Hx Hall Hvar. revert level l tbl. induction fuel as [|fuel IH]; intros level l tbl; [done|].
  destruct x as [|c x]; [done|]. cbn [parser]. change (length (chr "$" :: c :: x) <=? 0)%nat with false.
  change (char_at (chr "$" :: c :: x) 0) with (chr "$"). change (chr "$" =? chr "(") with false.
  change (chr "$" =? chr ")") with false. change (chr "$" =? chr "$") with true. cbn iota.
  assert (Hget : get_var (chr "$" :: c :: x) 0 = (length (c :: x), 1%nat)).
  { unfold get_var, get_marked. change (span ascii_isspace (drop 0 (chr "$" :: c :: x))) with 0%nat.
    change (0 + 0)%nat with 0%nat. change (char_at (chr "$" :: c :: x) 0) with (chr "$").
    change (length (chr "$" :: c :: x) <=? 0)%nat with false. cbn [Z.eqb negb orb Pos.eqb].
    change (length (chr "$" :: c :: x) <=? 0 + 1)%nat with false. change (char_at (chr "$" :: c :: x) (0 + 1)) with c.
    cbn [deref] in Hx. change (chr "$" =? chr "$") with true. cbn [negb]. rewrite Hx. cbn [orb].
    f_equal. change (drop (0 + 1) (chr "$" :: c :: x)) with (c :: x).
    rewrite <- (app_nil_r (c :: x)) at 1. generalize (c :: x) Hall. intros s Hs.
    induction s as [|b s IHs]; [done|]. simpl in Hs |- *. apply andb_prop in Hs as [-> Hs]. by rewrite IHs. }
  rewrite Hget. change (length (c :: x) =? 0)%nat with false. cbn iota.
  change (drop 1 (chr "$" :: c :: x)) with (c :: x). rewrite firstn_all, Hvar.
  unfold mbind at 1, T_bind at 1. by rewrite IH.
Qed.

Lemma parser_cycle_witness :
  parser (fun _ => Some (chars "$A")) 1000 0 (chars "$A") 0 [] [] = Crash OutOfFuel.
Proof. apply (parser_cycle (fun _ => Some (chars "$A")) (chars "A") 1000 0 [] []); reflexivity. Defined.

Lemma parser_correct_witness : exists fuel0, forall fuel, (fuel0 <= fuel)%nat ->
  match parser (fun _ => None) fuel 0 (chars "(1 2)*3 $A") 0 [] [] with
  | Ok (Some (root, i), tbl) => tbl !! 0%nat = Some EXPR_NULL /\ exists t, rep tbl root t /\ wf_tree t
  | Ok (None, _) => True
  | Crash c => c = Undefined
  end.
Proof.
  apply (parser_correct (fun _ => None) (chars "(1 2)*3 $A")).
  constructor. intros content [i Hi]. destruct (get_var _ i). by destruct Hi.
Defined.
