(* ===== verification/DataRun.v ===== *)
(** * The data plugin: correctness of the evaluator

    [evaluate] writes the bytes that an expression stands for into an
    allocator, and ends: given enough fuel, it succeeds wherever the meaning
    of the expression is defined, as long as no allocation fails. *)

From S2P Require Import Prelude NbdProtocol Extents Exports Server Connections Backend Plugin Parse Bytes Vector Allocators Sparse DataFormat DataEval DataSem DataLaws.

#[local] Open Scope Z_scope.

(** ** Runs without allocation failures *)

Definition awp {A} (m : AM A) (Q : A -> Prop) : Prop := hwp m (fun a mem => mem = [] /\ Q a) [].

Lemma awp_ret {A} (a : A) (Q : A -> Prop) : Q a -> awp (mret a) Q.
Proof. intros H. by apply hwp_ret. Qed.

Lemma awp_mono {A} (m : AM A) (P Q : A -> Prop) : awp m P -> (forall a, P a -> Q a) -> awp m Q.
Proof. intros H HPQ. eapply hwp_mono; [exact H|]. intros a mem [-> Ha]. auto. Qed.

Lemma awp_bind {A B} (m : AM A) (k : A -> AM B) (P : A -> Prop) (Q : B -> Prop) :
  awp m P -> (forall a, P a -> awp (k a) Q) -> awp (a ← m; k a) Q.
Proof. intros Hm Hk. apply hwp_bind. eapply hwp_mono; [exact Hm|]. intros a mem [-> Ha]. by apply Hk. Qed.

Lemma awp_ok {A} (m : AM A) Q : awp m Q -> exists a, m [] = Ok (a, []) /\ Q a.
Proof. intros (a & mem & E & -> & Ha)%hwp_ok. eauto. Qed.

(** ** An allocator that holds a document *)

Section Run.
Context {S : Type} (f : allocator_functions S) (inv : S -> Prop) (view : S -> Z -> Z).
Context (Hspec : AllocatorSpec f inv view INT64_MAX).
Context (create_allocator : AM (option S)).
Context (Hcreate : awp create_allocator (fun a => exists a', a = Some a' /\ inv a' /\ forall x, view a' x = 0)).
Context (fopen popen : list Z -> option stream) (tbl : table).

Definition holds (a : S) (d : list Z) : Prop := inv a /\ forall x, 0 <= x -> view a x = nth (Z.to_nat x) d 0.

Lemma holds_empty a : inv a -> (forall x, view a x = 0) -> holds a [].
Proof. intros Ha Hv. split; [done|]. intros x _. rewrite Hv. by destruct (Z.to_nat x). Qed.

Lemma nth_put d o v d' o' x : inside d o -> put d o v = Some (d', o') -> 0 <= x ->
  nth (Z.to_nat x) d' 0 = overwrite (fun x => nth (Z.to_nat x) d 0) v o x.
Proof.
  intros [Ho1 Ho2] (-> & _ & _)%put_ok Hx. unfold overwrite. rewrite !nth_lookup. cbn beta.
  assert (Hl : length (take (Z.to_nat o) d) = Z.to_nat o) by (rewrite length_take; lia).
  destruct (decide (o <= x < o + Z.of_nat (length v))).
  - rewrite lookup_app_r, Hl by lia. rewrite lookup_app_l by lia. do 2 f_equal. lia.
  - destruct (decide (x < o)).
    + rewrite lookup_app_l by lia. by rewrite lookup_take_lt by lia.
    + rewrite lookup_app_r, Hl by lia. rewrite lookup_app_r by lia. rewrite lookup_drop. do 2 f_equal. lia.
Qed.

Lemma holds_put a a' d o v d' o' : holds a d -> inside d o -> put d o v = Some (d', o') ->
  inv a' -> (forall x, view a' x = overwrite (view a) v o x) -> holds a' d'.
Proof.
  intros [_ Hv] Ho Hp Ha' Hv'. split; [done|]. intros x Hx. rewrite Hv', (nth_put _ _ _ _ _ _ Ho Hp Hx).
  apply overwrite_ext. by apply Hv.
Qed.

Lemma holds_move a d o d' o' : holds a d -> move d o = Some (d', o') -> holds a d'.
Proof.
  intros [Ha Hv] (-> & _ & _)%move_ok. split; [done|]. intros x Hx. rewrite (Hv x Hx), !nth_lookup.
  destruct (decide (x < Z.of_nat (length d))); [by rewrite lookup_app_l by lia|].
  rewrite (lookup_ge_None_2 d) by lia. rewrite lookup_app_r by lia. unfold memset.
  destruct (replicate _ 0 !! _) as [c|] eqn:E; [|done]. by apply lookup_replicate in E as [-> _].
Qed.

Lemma holds_slice a d : holds a d -> slice (view a) 0 (Z.of_nat (length d)) = d.
Proof. intros [_ Hv]. apply slice_of_list. intros i Hi. rewrite Z.add_0_l. apply Hv. lia. Qed.

Lemma modified r (d new d' : Z -> Z) : modifies r d new d' -> r = 0 -> forall x, d' x = new x.
Proof. intros [[_ H]|[-> _]]; [done|lia]. Qed.

(** The new state after [v] was put into the document. *)
Definition stored (a : S) (d : list Z) (o : Z) (v : list Z) (res : Z * S) : Prop :=
  forall d' o', put d o v = Some (d', o') -> res.1 = 0 /\ holds res.2 d'.

Lemma fits d o v d' o' : inside d o -> put d o v = Some (d', o') -> in_range INT64_MAX (Z.of_nat (length v)) o.
Proof. intros [H1 H2] (_ & -> & H)%put_ok. unfold in_range. lia. Qed.

Lemma awp_write a d o v d' o' : holds a d -> inside d o -> put d o v = Some (d', o') ->
  awp (af_write f a v (Z.of_nat (length v)) o) (fun '(r, a') => r = 0 /\ holds a' d').
Proof.
  intros Ha Ho Hp. eapply hwp_mono; [apply as_write; [apply Ha|by eapply fits|lia]|].
  intros [r a'] mem (Ha' & Hm & Hok). destruct (Hok eq_refl) as [-> ->]. split; [done|]. split; [done|].
  eapply holds_put; [done..|]. by eapply modified.
Qed.

Lemma awp_fill a d o b n d' o' : 0 <= n -> holds a d -> inside d o -> put d o (memset b n) = Some (d', o') ->
  awp (af_fill f a b n o) (fun '(r, a') => r = 0 /\ holds a' d').
Proof.
  intros Hn Ha Ho Hp. pose proof (fits _ _ _ _ _ Ho Hp) as Hf. rewrite length_memset, Z2Nat.id in Hf by done.
  eapply hwp_mono; [apply as_fill; [apply Ha|done]|].
  intros [r a'] mem (Ha' & Hm & Hok). destruct (Hok eq_refl) as [-> ->]. split; [done|]. split; [done|].
  eapply holds_put; [done..|]. intros x. rewrite (modified _ _ _ _ Hm eq_refl), overwrite_memset. done.
Qed.

(** Copying from another allocator. *)
Lemma awp_blit a2 v n k a d o d' o' : holds a2 v -> 0 <= n -> 0 <= k -> n + k <= Z.of_nat (length v) ->
  Z.of_nat (length v) <= INT64_MAX -> holds a d -> inside d o ->
  put d o (take (Z.to_nat k) (drop (Z.to_nat n) v)) = Some (d', o') ->
  awp (blit_at f a2 a k n o) (fun '(r, a', off) => r = 0 /\ holds a' d' /\ off = o').
Proof.
  intros Ha2 Hn Hk Hlen Hmax Ha Ho Hp. pose proof (fits _ _ _ _ _ Ho Hp) as Hf.
  set (w := take _ _) in *. assert (Hw : Z.of_nat (length w) = k) by (unfold w; rewrite length_take, length_drop; lia).
  rewrite Hw in Hf. unfold blit_at.
  assert (Hs : slice (view a2) n k = w).
  { rewrite <- Hw. apply slice_of_list. intros i Hi. destruct Ha2 as [_ Hv]. rewrite Hv by lia. unfold w.
    rewrite !nth_lookup, lookup_take_lt, lookup_drop by lia. do 2 f_equal. lia. }
  apply (awp_bind _ _ (fun '(r, a') => r = 0 /\ holds a' d')).
  - eapply hwp_mono; [apply (as_blit _ (view a2)); [apply Ha|done|done|lia|]|].
    + intros n' o1 mem Ho1 Hn' Hend. eapply hwp_mono; [apply as_read; [apply Ha2|unfold in_range; lia]|].
      intros [r buf] mem' (Hlen' & Hr & Hok). done.
    + intros [r a'] mem (Ha' & Hv & _ & _ & Hok). destruct (Hok eq_refl) as [-> ->]. split; [done|]. split; [done|].
      eapply holds_put; [done..|]. intros x. by rewrite (Hv eq_refl), Hs.
  - intros [r a'] [-> Ha']. apply awp_ret. split; [done|]. split; [done|]. cbn [Z.eqb].
    apply put_ok in Hp as (_ & -> & Hmax'). rewrite Hw in *. destruct Hf. unwrap. done.
Qed.

(** ** Files and scripts *)

(** What the loop stores, and when it is not stopped by an error. *)
Definition wanted (data : list Z) (limit : option Z) : list Z :=
  match limit with None => data | Some len => take (Z.to_nat len) data end.

Definition readable (data : list Z) (error : bool) (limit : option Z) : Prop :=
  error = true -> exists len, limit = Some len /\ len <= Z.of_nat (length data).

Lemma wanted_end data limit want : 0 < want ->
  match limit with Some len => want = Z.min len stream_bufsiz | None => want = stream_bufsiz end ->
  Z.of_nat (length data) < want -> wanted data limit = data.
Proof. intros Hw Hwant Hlen. destruct limit as [len|]; [|done]. simpl. apply take_ge. lia. Qed.

Lemma wanted_split data limit want : 0 < want ->
  match limit with Some len => want <= len | None => True end -> want <= Z.of_nat (length data) ->
  wanted data limit = take (Z.to_nat want) data ++ wanted (drop (Z.to_nat want) data) ((fun len => len - want) <$> limit).
Proof.
  intros Hw Hl Hlen. destruct limit as [len|]; simpl; [|by rewrite take_drop].
  rewrite <- (take_drop (Z.to_nat want) (take (Z.to_nat len) data)), take_take, skipn_firstn_comm.
  f_equal; f_equal; lia.
Qed.

Lemma awp_store_loop fuel : forall data error limit a d o d' o',
  (length data < fuel)%nat -> readable data error limit -> holds a d -> doc_ok d o ->
  put d o (wanted data limit) = Some (d', o') ->
  awp (store_loop f fuel a data error limit o) (fun '(r, a', off) => r = 0 /\ holds a' d' /\ off = o').
Proof.
  induction fuel as [|fuel IH]; intros data error limit a d o d' o' Hf Hr Ha Hok Hp; [lia|].
  pose proof Hok as [Hi Hmax]. cbn [store_loop].
  destruct (match limit with Some len => len <=? 0 | None => false end) eqn:Estop.
  { destruct limit as [len|]; [|done]. apply Z.leb_le in Estop. simpl in Hp.
    replace (Z.to_nat len) with 0%nat in Hp by lia. rewrite take_0, put_nil in Hp; [|done|unfold inside in Hi; lia].
    injection Hp as <- <-. by apply awp_ret. }
  set (want := match limit with Some len => Z.min len stream_bufsiz | None => stream_bufsiz end).
  assert (Hwant : 0 < want /\ match limit with Some len => want = Z.min len stream_bufsiz /\ want <= len | None => want = stream_bufsiz end).
  { unfold want, stream_bufsiz. destruct limit as [len|]; [apply Z.leb_gt in Estop; lia|lia]. }
  destruct Hwant as [Hw0 Hw]. clearbody want. set (buf := take (Z.to_nat want) data).
  assert (Hbuf : Z.of_nat (length buf) = Z.min want (Z.of_nat (length data))) by (unfold buf; rewrite length_take; lia).
  (* writing what was read *)
  assert (Hwrite : forall d1 o1, put d o buf = Some (d1, o1) ->
    awp (if 0 <? Z.of_nat (length buf) then af_write f a buf (Z.of_nat (length buf)) o else mret (0, a))
      (fun '(r, a') => r = 0 /\ holds a' d1)).
  { intros d1 o1 Hp1. destruct (Z.ltb_spec 0 (Z.of_nat (length buf))); [by eapply awp_write|].
    apply awp_ret. assert (buf = []) as Hb by (destruct buf; [done|simpl in *; lia]). rewrite Hb, put_nil in Hp1;
      [|done|unfold inside in Hi; lia]. by injection Hp1 as <- <-. }
  destruct (Z.ltb_spec (Z.of_nat (length buf)) want) as [Hend|Hmore].
  - (* the end of the data *)
    assert (Hall : buf = data) by (unfold buf; apply take_ge; lia).
    rewrite (wanted_end _ _ want) in Hp by (destruct limit; lia). rewrite Hall in *.
    eapply awp_bind; [exact (Hwrite _ _ Hp)|]. intros [r a'] [-> Ha']. change (0 =? -1) with false. cbn iota.
    destruct error; cbn [andb].
    { destruct (Hr eq_refl) as (len & -> & Hlen). lia. }
    apply awp_ret. split; [done|]. split; [done|]. destruct (put_doc_ok _ _ _ _ _ Hok Hp) as [[[H1 _] _] _].
    apply put_ok in Hp as (_ & -> & Hm). unwrap. done.
  - assert (Hwl : want <= Z.of_nat (length data)) by lia.
    rewrite (wanted_split _ _ want) in Hp by (destruct limit; lia). fold buf in Hp. rewrite put_app in Hp by done.
    destruct (put d o buf) as [[d1 o1]|] eqn:Ep1; [|done]. cbn [mbind option_bind] in Hp.
    destruct (put_doc_ok _ _ _ _ _ Hok Ep1) as [Hok1 _].
    eapply awp_bind; [exact (Hwrite _ _ eq_refl)|]. intros [r a'] [-> Ha']. change (0 =? -1) with false. cbn iota zeta.
    cbn [andb]. assert (Hoff : u64 (o + Z.of_nat (length buf)) = o1).
    { pose proof Hok1 as [[H1 _] _]. apply put_ok in Ep1 as (_ & -> & Hm). unwrap. done. }
    rewrite Hoff. replace (Z.of_nat (length buf)) with want by lia. eapply IH; [|idtac|done|done|done].
    + rewrite length_drop. lia.
    + intros He. destruct (Hr He) as (len & -> & Hlen). eexists. split; [done|]. rewrite length_drop. lia.
Qed.

Lemma awp_store_stream a s limit d o v d' o' : holds a d -> doc_ok d o ->
  match limit with None => stream_all s | Some len => stream_first s len end = Some v -> put d o v = Some (d', o') ->
  awp (store_stream f a s limit o) (fun '(r, a', off) => r = 0 /\ holds a' d' /\ off = o').
Proof.
  intros Ha Hok Hs Hp. unfold store_stream. eapply awp_store_loop; [lia| |done|done|].
  - intros He. destruct limit as [len|]; simpl in Hs.
    + unfold stream_first in Hs. rewrite He in Hs. cbn [andb] in Hs. exists len. split; [done|].
      destruct (Z.ltb_spec (Z.of_nat (length (io_data s))) len); [done|lia].
    + unfold stream_all in Hs. by rewrite He in Hs.
  - destruct limit as [len|]; simpl in Hs |- *.
    + unfold stream_first in Hs. destruct (_ && _)%bool; [done|]. by injection Hs as ->.
    + unfold stream_all in Hs. destruct (io_error s); [done|]. by injection Hs as ->.
Qed.

(** The document [d'] and the offset [o'] after a successful run. *)
Definition wrote (d' : list Z) (o' : Z) (res : Z * S * Z) : Prop :=
  let '(r, a', off) := res in r = 0 /\ holds a' d' /\ off = o'.

Lemma awp_close (m : AM (Z * S * Z)) (failed : bool) d' o' : failed = false -> awp m (wrote d' o') ->
  awp ('(r, a, offset) ← m; if r =? -1 then mret (-1, a, offset) else mret (if failed then -1 else 0, a, offset))
    (wrote d' o').
Proof.
  intros -> Hm. eapply awp_bind; [exact Hm|]. intros [[r a'] off] (-> & Ha' & ->).
  change (0 =? -1) with false. by apply awp_ret.
Qed.

Lemma awp_store_file a s d o v d' o' : holds a d -> doc_ok d o -> file_data fopen s = Some v ->
  put d o v = Some (d', o') -> awp (store_file f fopen a s o) (wrote d' o').
Proof.
  intros Ha Hok Hv Hp. unfold file_data in Hv. unfold store_file.
  destruct (fopen s) as [st|]; [|done]. cbn [mbind option_bind] in Hv.
  destruct (stream_all st) as [w|] eqn:Es; [|done]. cbn [mbind option_bind] in Hv.
  destruct (io_close st =? -1) eqn:Ec; [done|]. injection Hv as ->.
  apply (awp_close _ false); [done|]. by eapply (awp_store_stream _ _ None).
Qed.

Lemma awp_store_script a s d o v d' o' : holds a d -> doc_ok d o -> script_data popen s = Some v ->
  put d o v = Some (d', o') -> awp (store_script f popen a s o) (wrote d' o').
Proof.
  intros Ha Hok Hv Hp. unfold script_data in Hv. unfold store_script.
  destruct (popen s) as [st|]; [|done]. cbn [mbind option_bind] in Hv.
  destruct (stream_all st) as [w|] eqn:Es; [|done]. cbn [mbind option_bind] in Hv.
  destruct (io_close st =? 0) eqn:Ec; [|done]. injection Hv as ->.
  apply (awp_close _ false); [done|]. by eapply (awp_store_stream _ _ None).
Qed.

Lemma awp_store_script_len a s m d o v d' o' : holds a d -> doc_ok d o -> script_first popen s m = Some v ->
  put d o v = Some (d', o') -> awp (store_script_len f popen a s m o) (wrote d' o').
Proof.
  intros Ha Hok Hv Hp. unfold script_first in Hv. unfold store_script_len.
  destruct (popen s) as [st|]; [|done]. cbn [mbind option_bind] in Hv.
  destruct (stream_first st m) as [w|] eqn:Es; [|done]. cbn [mbind option_bind] in Hv.
  destruct (io_close st =? -1) eqn:Ec; [done|]. injection Hv as ->.
  apply (awp_close _ false); [done|]. by eapply (awp_store_stream _ _ (Some m)).
Qed.

Lemma awp_store_file_slice a s n m d o v d' o' : holds a d -> doc_ok d o -> file_slice fopen s n m = Some v ->
  put d o v = Some (d', o') -> awp (store_file_slice f fopen a s n m o) (wrote d' o').
Proof.
  intros Ha Hok Hv Hp. unfold file_slice in Hv. unfold store_file_slice.
  destruct ((0 <=? m) && (m <? n) || (m <? -2))%bool; [done|]. cbn [orb] in Hv.
  destruct (INT64_MAX <? n); [done|]. destruct (fopen s) as [st|]; [|done]. cbn [mbind option_bind] in Hv.
  set (st' := Stream _ _ _) in *.
  destruct (if m =? -1 then stream_all st' else _) as [w|] eqn:Es; [|done]. cbn [mbind option_bind] in Hv.
  change (io_close st') with (io_close st) in Hv. destruct (io_close st =? -1) eqn:Ec; [done|]. injection Hv as ->.
  apply (awp_close _ false); [done|]. destruct (m =? -1); [by eapply (awp_store_stream _ _ None)|].
  by eapply (awp_store_stream _ _ (Some _)).
Qed.

(** ** The evaluator *)

Notation evaluate := (evaluate f create_allocator fopen popen tbl).
Notation eval_item := (eval_item f create_allocator fopen popen tbl).
Notation eval_list := (eval_list f create_allocator fopen popen tbl).

(** The node evaluates to the bytes [v], given enough fuel. *)
Definition evaluates (dc : dict) (id : node_id) (v : list Z) : Prop :=
  exists fuel0, forall fuel a, (fuel0 <= fuel)%nat -> inv a -> (forall x, view a x = 0) ->
    awp (evaluate fuel dc id a 0 0) (fun '(r, a', _, size) => r = 0 /\ holds a' v /\ size = Z.of_nat (length v)).

(** The names of the dictionary stand for the values of the environment. *)
Inductive dict_ok : dict -> env -> Prop :=
| dict_nil : dict_ok [] []
| dict_cons x id v dc r : dict_ok dc r -> (forall w, v = Some w -> evaluates dc id w) ->
    dict_ok ((x, id) :: dc) ((x, v) :: r).

Lemma dict_ok_lookup dc r x w : dict_ok dc r -> env_lookup r x = Some w ->
  exists dc' id, dict_lookup dc x = Some (dc', id) /\ evaluates dc' id w.
Proof.
  induction 1 as [|y id v dc r _ IH Hv]; simpl; [done|]. case_bool_decide; [|exact IH]. subst. eauto.
Qed.

(** The element [id] of a list turns the document [d] at [o] into [d'] at
    [o'], and the environment into [r']. *)
Definition writes (dc : dict) (id : node_id) (d : list Z) (o : Z) (r' : env) (d' : list Z) (o' : Z) : Prop :=
  exists dc' fuel0, dict_ok dc' r' /\ forall fuel a, (fuel0 <= fuel)%nat -> holds a d ->
    awp (eval_item (evaluate fuel) dc id a o) (fun '(res, dc2, a', off) =>
      res = 0 /\ dc2 = dc' /\ holds a' d' /\ off = o').

(** [expr] in a new context, followed by [k]. *)
Lemma awp_eval_nested dc id v (Q : Z * S * Z -> Prop) : evaluates dc id v ->
  exists fuel0, forall fuel a o (k : S -> Z -> AM (Z * S * Z)), (fuel0 <= fuel)%nat ->
    (forall a2, holds a2 v -> awp (k a2 (Z.of_nat (length v))) Q) ->
    awp (eval_nested create_allocator (evaluate fuel) dc id a o k) Q.
Proof.
  intros (fuel0 & Hev). exists fuel0. intros fuel a o k Hf Hk. unfold eval_nested, nested.
  apply (awp_bind _ _ (fun res => exists a2, res = Some (a2, Z.of_nat (length v)) /\ holds a2 v)).
  - eapply awp_bind; [exact Hcreate|]. intros ? (a2 & -> & Ha2 & Hz). cbn iota.
    eapply awp_bind; [by apply Hev|]. intros [[[r a2'] ?] size] (-> & Ha2' & ->). apply awp_ret. eauto.
  - intros ? (a2 & -> & Ha2). by apply Hk.
Qed.

Notation item := (item fopen popen).
Notation run := (DataSem.run fopen popen).
Notation value := (value fopen popen).

Definition item_spec (t : tree) : Prop := forall id dc r d o r' d' o', rep tbl id t -> wf_tree t -> dict_ok dc r ->
  doc_ok d o -> item t r d o = Some (r', d', o') -> writes dc id d o r' d' o'.

Definition value_spec (t : tree) : Prop := forall id dc r v, rep tbl id t -> wf_tree t -> dict_ok dc r ->
  value t r = Some v -> evaluates dc id v.

Lemma awp_node {B} id e (k : expr -> AM B) (Q : B -> Prop) : tbl !! id = Some e -> awp (k e) Q ->
  awp (e ← node tbl id; k e) Q.
Proof. intros He Hk. unfold node. rewrite He. eapply awp_bind; [by apply (awp_ret _ (fun x => x = e))|]. by intros ? ->. Qed.

(** The elements of a list, one after the other. *)
Lemma list_writes l : Forall item_spec l -> forall ids dc r d o r' d' o', Forall2 (rep tbl) ids l ->
  Forall wf_tree l -> dict_ok dc r -> doc_ok d o -> run l r d o = Some (r', d', o') ->
  exists fuel0, forall fuel a, (fuel0 <= fuel)%nat -> holds a d ->
    awp (eval_list (evaluate fuel) dc ids a o (Z.of_nat (length d)))
      (fun '(res, a', _, size) => res = 0 /\ holds a' d' /\ size = Z.of_nat (length d')).
Proof.
  induction 1 as [|t l Ht _ IH]; intros ids dc r d o r' d' o' Hids Hwf Hd Hok Hrun.
  { inversion Hids; subst. injection Hrun as <- <- <-. exists 0%nat. intros fuel a _ Ha. by apply awp_ret. }
  inversion Hids as [|id ? ids' ? Hid Hids']; subst. inversion_clear Hwf. cbn [DataSem.run] in Hrun.
  destruct (item t r d o) as [[[r1 d1] o1]|] eqn:E; [|done]. cbn [mbind option_bind] in Hrun.
  destruct (Ht id dc r d o r1 d1 o1) as (dc1 & f1 & Hd1 & Hf1); [done..|].
  destruct (item_ok _ _ _ _ _ _ _ _ _ ltac:(done) Hok E) as [Hok1 Hlen].
  destruct (IH ids' dc1 r1 d1 o1 r' d' o') as (f2 & Hf2); [done..|].
  exists (Nat.max f1 f2). intros fuel a Hfuel Ha. cbn [DataEval.eval_list].
  eapply awp_bind; [apply Hf1; [lia|done]|]. intros [[[res dc2] a1] off] (-> & -> & Ha1 & ->).
  change (0 =? -1) with false. cbn iota.
  replace (if Z.of_nat (length d) <? o1 then o1 else Z.of_nat (length d)) with (Z.of_nat (length d1)).
  - apply Hf2; [lia|done].
  - rewrite Hlen. destruct (Z.ltb_spec (Z.of_nat (length d)) o1); lia.
Qed.

(** An expression by itself. *)
Lemma not_list_evaluates t id e dc r v : item_spec t -> rep tbl id t -> tbl !! id = Some e -> is_list e = false ->
  wf_tree t -> dict_ok dc r -> value t r = Some v -> evaluates dc id v.
Proof.
  intros Ht Hid He Hl Hwf Hd (r' & o' & E)%document_Some.
  destruct (list_writes [t] ltac:(by constructor) [id] dc r [] 0 r' v o') as (f1 & Hf1);
    [by constructor|by constructor|done|apply doc_ok_empty|simpl; by rewrite E|].
  exists (Datatypes.S f1). intros [|fuel] a Hfuel Ha Hz; [lia|]. cbn [DataEval.evaluate].
  eapply awp_node; [done|]. replace (match e with EXPR_LIST l => l | _ => [id] end) with [id] by (by destruct e).
  eapply awp_mono; [apply (Hf1 fuel a); [lia|by apply holds_empty]|]. by intros [[[res a'] off] size].
Qed.

Lemma list_evaluates l id dc r v : Forall item_spec l -> rep tbl id (TList l) -> wf_tree (TList l) ->
  dict_ok dc r -> value (TList l) r = Some v -> evaluates dc id v.
Proof.
  intros Hl Hid Hwf Hd Hv. inversion Hid as [|? ids ? He Hids| | | | | | | | | | | |]; subst.
  inversion Hwf as [|? Hwl| | | | | | | | | | | |]; subst. rewrite value_list in Hv by done.
  apply document_Some in Hv as (r' & o' & E).
  destruct (list_writes l Hl ids dc r [] 0 r' v o') as (f1 & Hf1); [done..|apply doc_ok_empty|done|].
  exists (Datatypes.S f1). intros [|fuel] a Hfuel Ha Hz; [lia|]. cbn [DataEval.evaluate].
  eapply awp_node; [done|]. cbn iota.
  eapply awp_mono; [apply (Hf1 fuel a); [lia|by apply holds_empty]|]. by intros [[[res a'] off] size].
Qed.

(** ** Every expression *)

Definition item_post (dc : dict) (d' : list Z) (o' : Z) (res : Z * dict * S * Z) : Prop :=
  let '(r, dc2, a', off) := res in r = 0 /\ dc2 = dc /\ holds a' d' /\ off = o'.

Lemma awp_item_stored (m : AM (Z * S * Z)) dc d' o' : awp m (wrote d' o') ->
  awp ('(r, a, offset) ← m; mret (r, dc, a, offset)) (item_post dc d' o').
Proof. intros Hm. eapply awp_bind; [exact Hm|]. intros [[r a'] off] (-> & Ha' & ->). by apply awp_ret. Qed.

Lemma awp_item_write (m : AM (Z * S)) dc d o v d' o' (n : Z) : n = Z.of_nat (length v) -> inside d o ->
  put d o v = Some (d', o') -> awp m (fun '(r, a') => r = 0 /\ holds a' d') ->
  awp ('(r, a) ← m; mret (if r =? -1 then -1 else 0, dc, a, if r =? -1 then o else u64 (o + n))) (item_post dc d' o').
Proof.
  intros -> [Ho _] (_ & -> & Hmax)%put_ok Hm. eapply awp_bind; [exact Hm|]. intros [r a'] [-> Ha'].
  apply awp_ret. change (0 =? -1) with false. cbn iota. unwrap. done.
Qed.

(** Without fuel. *)
Lemma writes_now dc id e d o r d' o' : tbl !! id = Some e -> dict_ok dc r ->
  (forall fuel a, holds a d -> awp (eval_item (evaluate fuel) dc id a o) (item_post dc d' o')) ->
  writes dc id d o r d' o'.
Proof. intros He Hd H. exists dc, 0%nat. split; [done|]. intros fuel a _. apply H. Qed.

(** Expressions that are evaluated in a context of their own. *)
Lemma writes_nested dc dc1 id1 id v d o r d' o' (k : S -> S -> Z -> AM (Z * S * Z)) : dict_ok dc r ->
  evaluates dc1 id1 v ->
  (forall fuel a, eval_item (evaluate fuel) dc id a o =
    ('(r, a, offset) ← eval_nested create_allocator (evaluate fuel) dc1 id1 a o (fun a2 => k a a2); mret (r, dc, a, offset))) ->
  (forall a a2, holds a d -> holds a2 v -> awp (k a a2 (Z.of_nat (length v))) (wrote d' o')) ->
  writes dc id d o r d' o'.
Proof.
  intros Hd Hev Heq Hk. destruct (awp_eval_nested dc1 id1 v (wrote d' o') Hev) as (f0 & Hf0).
  exists dc, f0. split; [done|]. intros fuel a Hf Ha. rewrite Heq. apply awp_item_stored.
  apply Hf0; [done|]. intros a2 Ha2. by apply Hk.
Qed.

Lemma awp_blit_all a2 v a d o d' o' : holds a2 v -> Z.of_nat (length v) <= INT64_MAX -> holds a d -> inside d o ->
  put d o v = Some (d', o') -> awp (blit_at f a2 a (Z.of_nat (length v)) 0 o) (wrote d' o').
Proof.
  intros Ha2 Hv Ha Ho Hp. eapply awp_mono; [apply (awp_blit a2 v 0 (Z.of_nat (length v)) a d o d' o'); try done; try lia|].
  - by rewrite drop_0, take_ge by lia.
  - by intros [[r a'] off].
Qed.

Lemma awp_blit_times k : forall a2 v a d o d' o', holds a2 v -> Z.of_nat (length v) <= INT64_MAX -> holds a d ->
  doc_ok d o -> put d o (concat (replicate k v)) = Some (d', o') ->
  awp (blit_times f k a2 a (Z.of_nat (length v)) o) (wrote d' o').
Proof.
  induction k as [|k IH]; intros a2 v a d o d' o' Ha2 Hv Ha Hok Hp; cbn [blit_times].
  - pose proof Hok as [Hi Hm]. simpl in Hp. rewrite put_nil in Hp; [|done|unfold inside in Hi; lia].
    injection Hp as <- <-. by apply awp_ret.
  - cbn [replicate concat] in Hp. pose proof Hok as [Hi Hm]. rewrite put_app in Hp by done.
    destruct (put d o v) as [[d1 o1]|] eqn:E; [|done]. cbn [mbind option_bind] in Hp.
    eapply awp_bind; [by eapply awp_blit_all|]. intros [[r a'] off] (-> & Ha' & ->).
    change (0 =? -1) with false. cbn iota. eapply IH; [done|done|done| |done]. by eapply put_doc_ok.
Qed.

(** A slice in a context of its own. *)
Lemma awp_eval_slice dc id1 e t v w n m d o d' o' : tbl !! id1 = Some e -> rep tbl id1 t -> is_stream t = false \/ (exists s, t = TScript s /\ n <> 0) ->
  0 <= n -> evaluates dc id1 v -> Z.of_nat (length v) <= INT64_MAX -> slice_list v n m = Some w -> doc_ok d o ->
  put d o w = Some (d', o') ->
  exists f0, forall fuel a, (f0 <= fuel)%nat -> holds a d ->
    awp (eval_slice f create_allocator fopen popen tbl (evaluate fuel) dc id1 n m a o) (wrote d' o').
Proof.
  intros He Hr Ht Hn Hev Hv Hw [Ho _] Hp. destruct (awp_eval_nested dc id1 v (wrote d' o') Hev) as (f0 & Hf0).
  exists f0. intros fuel a Hf Ha. unfold eval_slice. eapply awp_node; [done|].
  assert (Hg : awp (eval_nested create_allocator (evaluate fuel) dc id1 a o (fun a2 size2 =>
      let m := if m <? 0 then size2 else m in
      if ((size2 <? n) || (size2 <? m) || (m <? n))%bool then mret (-1, a, o) else blit_at f a2 a (m - n) n o))
    (wrote d' o')).
  { apply Hf0; [done|]. intros a2 Ha2. cbv zeta. unfold slice_list in Hw. destruct (_ || _)%bool eqn:Eb; [done|].
    injection Hw as <-. eapply awp_mono; [eapply (awp_blit a2 v); try done; lia|]. by intros [[r a'] off]. }
  destruct e; try exact Hg; inversion Hr; simplify_eq.
  - by destruct Ht as [|(? & ? & ?)].
  - destruct Ht as [|(s & _ & Hn0)]; [done|]. rewrite (proj2 (Z.eqb_neq n 0)) by done. exact Hg.
Qed.

Lemma item_slice_spec t n m : no_whole_script (TSlice t n m) = true ->
  item_spec t -> value_spec t -> item_spec (TSlice t n m).
Proof.
  intros [Hns _]%andb_prop IHi IHv id dc r d o r' d' o' Hid Hwf Hd Hok. rewrite item_slice.
  intros (-> & w & Hw & Hp)%put_value_Some. inversion Hid as [| | | | | | | | | | | | |? id1 ? ? ? He Hid1]; subst.
  inversion Hwf as [| | | | | | | | | | | | |? ? ? Hn Hm Hwt]; subst.
  assert (exists e1, tbl !! id1 = Some e1) as [e1 He1] by (destruct Hid1; eauto).
  assert (Hgen : forall v, value t r = Some v -> slice_list v n m = Some w ->
    is_stream t = false \/ (exists s, t = TScript s /\ n <> 0) -> writes dc id d o r d' o').
  { intros v Hv Hs Ht.
    destruct (awp_eval_slice dc id1 e1 t v w n m d o d' o') as (f0 & Hf0); try done; [lia|by eapply IHv|by eapply value_bound|].
    exists dc, f0. split; [done|]. intros fuel a Hf Ha. unfold DataEval.eval_item. eapply awp_node; [done|].
    apply awp_item_stored. by apply Hf0. }
  destruct (is_stream t) eqn:Est.
  - destruct t; try done; simpl in Hw; inversion Hid1; subst; simplify_eq.
    + eapply writes_now; [done|done|]. intros fuel a Ha. unfold DataEval.eval_item. eapply awp_node; [done|].
      apply awp_item_stored. unfold eval_slice. eapply awp_node; [done|]. by eapply awp_store_file_slice.
    + simpl in Hns. destruct (Z.eqb_spec n 0) as [->|Hn0].
      * rewrite (proj2 (Z.leb_le 0 m)) in Hw by lia. eapply writes_now; [done|done|]. intros fuel a Ha. unfold DataEval.eval_item. eapply awp_node; [done|].
        apply awp_item_stored. unfold eval_slice. eapply awp_node; [done|]. by eapply awp_store_script_len.
      * destruct (value (TScript script) r) as [v|] eqn:Ev; [|done]. eapply Hgen; [done|exact Hw|eauto].
  - rewrite slice_value_list in Hw by done. destruct (value t r) as [v|] eqn:Ev; [|done].
    eapply Hgen; [done|exact Hw|by left].
Qed.

Lemma item_repeat_spec t n : value_spec t -> item_spec (TRepeat t n).
Proof.
  intros IHv id dc r d o r' d' o' Hid Hwf Hd Hok. rewrite item_repeat.
  intros (-> & w & Hw & Hp)%put_value_Some. inversion Hid as [| | | | | | | | | | | |? id1 ? ? He Hid1|]; subst.
  inversion Hwf; subst. destruct (value t r) as [v|] eqn:Ev; [|done]. injection Hw as <-.
  eapply (writes_nested dc dc id1 _ v d o r d' o' (fun a a2 size2 => blit_times f (Z.to_nat n) a2 a size2 o)); [done|by eapply IHv| |].
  - intros fuel a. unfold DataEval.eval_item, node. rewrite He. reflexivity.
  - intros a a2 Ha Ha2. eapply awp_blit_times; [done|by eapply value_bound|done|done|done].
Qed.

Lemma item_name_spec x : item_spec (TName x).
Proof.
  intros id dc r d o r' d' o' Hid Hwf Hd Hok. simpl. intros (-> & w & Hw & Hp)%put_value_Some.
  inversion Hid as [| | | | | | | | | |? ? He| | |]; subst.
  destruct (dict_ok_lookup _ _ _ _ Hd Hw) as (dc1 & id1 & Hl & Hev).
  eapply (writes_nested dc dc1 id1 _ w d o r d' o' (fun a a2 size2 => blit_at f a2 a size2 0 o)); [done|done| |].
  - intros fuel a. unfold DataEval.eval_item, node. rewrite He. unfold mbind at 1, AM_bind at 1. simpl. by rewrite Hl.
  - intros a a2 Ha Ha2. pose proof Hok as [Ho _]. eapply awp_blit_all; [done| |done|done|done].
    destruct Ho. by eapply put_length.
Qed.

Lemma item_list_spec l : value_spec (TList l) -> item_spec (TList l).
Proof.
  intros IHv id dc r d o r' d' o' Hid Hwf Hd Hok E. assert (Hr : r' = r).
  { rewrite item_list in E. by apply put_value_Some in E as [-> _]. } subst r'.
  rewrite data_item in E by done. apply put_value_Some in E as (_ & v & Hv & Hp).
  inversion Hid as [|? ids ? He Hids| | | | | | | | | | | |]; subst.
  eapply (writes_nested dc dc id _ v d o r d' o' (fun a a2 size2 => blit_at f a2 a size2 0 o)); [done|by eapply IHv| |].
  - intros fuel a. unfold DataEval.eval_item, node. rewrite He. reflexivity.
  - intros a a2 Ha Ha2. pose proof Hok as [Ho _]. eapply awp_blit_all; [done|by eapply value_bound|done|done|done].
Qed.

Lemma item_other_spec t : match t with TList _ | TName _ | TAssign _ _ | TRepeat _ _ | TSlice _ _ _ => False | _ => True end ->
  item_spec t.
Proof.
  intros Ht id dc r d o r' d' o' Hid Hwf Hd Hok E. pose proof Hok as [Ho Hmax].
  assert (Ho' : 0 <= o <= INT64_MAX) by (unfold inside in Ho; lia).
  destruct t; try done; inversion Hid as [? He|? ? ? He|? ? He|? ? He|? ? He|? ? He|? ? He|? ? He|? ? He|? ? ? He| | | |]; subst.
  - simpl in E. injection E as <- <- <-. eapply writes_now; [done|done|]. intros fuel a Ha.
    unfold DataEval.eval_item. eapply awp_node; [done|]. by apply awp_ret.
  - apply (put_value_Some r d o (Some [b])) in E as (-> & v & [= <-] & Hp).
    eapply writes_now; [done|done|]. intros fuel a Ha. unfold DataEval.eval_item. eapply awp_node; [done|].
    eapply (awp_item_write _ _ d o [b]); [done|done|done|]. by eapply (awp_write _ _ _ [b]).
  - simpl in E. unfold move_to in E. destruct (move d ui) as [[d1 o1]|] eqn:Em; [|done]. injection E as <- <- <-.
    eapply writes_now; [done|done|]. intros fuel a Ha. unfold DataEval.eval_item. eapply awp_node; [done|].
    apply awp_ret. split; [done|]. split; [done|]. split; [by eapply holds_move|]. by apply move_ok in Em as (_ & -> & _).
  - simpl in E. destruct (Z.ltb_spec (o + i) 0); [done|]. unfold move_to in E.
    destruct (move d (o + i)) as [[d1 o1]|] eqn:Em; [|done]. injection E as <- <- <-.
    eapply writes_now; [done|done|]. intros fuel a Ha. unfold DataEval.eval_item. eapply awp_node; [done|].
    pose proof Em as (_ & -> & Hm)%move_ok. destruct (_ && _)%bool eqn:Eb; [lia|].
    apply awp_ret. split; [done|]. split; [done|]. split; [by eapply holds_move|]. by unwrap.
  - simpl in E. unfold move_to in E. inversion Hwf; subst. pose proof (Z.pow_pos_nonneg 2 k ltac:(lia) ltac:(lia)).
    destruct (move d _) as [[d1 o1]|] eqn:Em; [|done]. injection E as <- <- <-.
    assert (Hk : 2 ^ k <= 2 ^ 62) by (apply Z.pow_le_mono_r; lia). change (2 ^ 62) with 4611686018427387904 in Hk.
    eapply writes_now; [done|done|]. intros fuel a Ha. unfold DataEval.eval_item. eapply awp_node; [done|].
    eapply awp_bind; [apply (hwp_assert _ (fun _ mem => mem = [] /\ True)); split; [by apply is_power_of_2_pow; lia|done]|].
    intros _ _. pose proof Em as (_ & -> & Hm)%move_ok.
    rewrite u64_small by (limits; lia). rewrite land_neg_pow2 by (limits; lia).
    apply awp_ret. split; [done|]. split; [done|]. split; [by eapply holds_move|done].
  - simpl in E. apply put_value_Some in E as (-> & v & Hv & Hp).
    eapply writes_now; [done|done|]. intros fuel a Ha. unfold DataEval.eval_item. eapply awp_node; [done|].
    apply awp_item_stored. by eapply awp_store_file.
  - simpl in E. apply put_value_Some in E as (-> & v & Hv & Hp).
    eapply writes_now; [done|done|]. intros fuel a Ha. unfold DataEval.eval_item. eapply awp_node; [done|].
    apply awp_item_stored. by eapply awp_store_script.
  - apply (put_value_Some r d o (Some s)) in E as (-> & v & [= <-] & Hp).
    eapply writes_now; [done|done|]. intros fuel a Ha. unfold DataEval.eval_item. eapply awp_node; [done|].
    eapply awp_item_write; [done|done|done|]. by eapply awp_write.
  - apply (put_value_Some r d o (Some (memset b n))) in E as (-> & v & [= <-] & Hp).
    eapply writes_now; [done|done|]. intros fuel a Ha. unfold DataEval.eval_item. eapply awp_node; [done|].
    inversion Hwf; subst.
    eapply (awp_item_write _ _ d o (memset b n)); [rewrite length_memset; lia|done|done|]. by eapply awp_fill.
Qed.

Lemma specs t : no_whole_script t = true -> item_spec t /\ value_spec t.
Proof.
  assert (Hlit : forall t, match t with TList _ => False | _ => True end -> item_spec t -> item_spec t /\ value_spec t).
  { intros t0 Hl Hi. split; [done|]. intros id dc r v Hid Hwf Hd Hv.
    assert (exists e, tbl !! id = Some e /\ is_list e = false) as (e & He & Hle)
      by (destruct Hid; try done; eexists; split; done || eassumption).
    by eapply not_list_evaluates. }
  induction t as [|l IH| | | | | | | | | |x t IH|t n IH|t n m IH] using tree_nested_ind; intros Hns;
    try (by apply Hlit, item_other_spec); try destruct (IH Hns) as [IHi IHv].
  - assert (Hv : value_spec (TList l)).
    { intros id dc r v Hid Hwf Hd Hv. eapply list_evaluates; [|done..].
      rewrite Forall_forall in IH |- *. intros t Ht. apply IH; [done|].
      change (forallb no_whole_script l = true) in Hns. rewrite forallb_forall in Hns.
      by apply Hns, list_elem_of_In. }
    split; [by apply item_list_spec|done].
  - by apply Hlit, item_name_spec.
  - apply Hlit; [done|]. intros id dc r d o r' d' o' Hid Hwf Hd Hok [= <- <- <-].
    inversion Hid as [| | | | | | | | | | |? ? id1 ? He Hid1| |]; subst. inversion Hwf; subst.
    exists ((x, id1) :: dc), 0%nat. split; [constructor; [done|]; intros w Hw; by eapply IHv|].
    intros fuel a _ Ha. unfold DataEval.eval_item. eapply awp_node; [done|]. by apply awp_ret.
  - by apply Hlit, item_repeat_spec.
  - destruct IH as [IHi IHv]; [by apply andb_prop in Hns as [_ ?]|]. by apply Hlit, item_slice_spec.
Qed.
End Run.

(** C20: the evaluator computes the meaning of expressions, and terminates.
    For a well-formed expression in the table whose meaning (the data
    format of the manual page) is the bytes [v], and which has no slice of
    the whole output of a script, [evaluate] into an empty allocator ends
    without failed assertions, for all large enough fuel; it returns 0, the
    size is that of [v], and the allocator holds [v].  It holds for every
    allocator that keeps the contract, as long as no allocation fails; the
    sparse allocator of [create_allocator] does.  (The excluded slice
    [<(SCRIPT)[:]] stands for the whole output in the manual page, but
    stores nothing: [Data.whole_script_slice].) *)
Theorem evaluate_correct {S} (f : allocator_functions S) inv view `{!AllocatorSpec f inv view INT64_MAX}
    create_allocator fopen popen tbl root t v :
  awp create_allocator (fun a => exists a', a = Some a' /\ inv a' /\ forall x, view a' x = 0) ->
  rep tbl root t -> wf_tree t -> no_whole_script t = true -> value fopen popen t [] = Some v ->
  exists fuel0, forall fuel a, (fuel0 <= fuel)%nat -> inv a -> (forall x, view a x = 0) ->
    exists a' offset,
      evaluate f create_allocator fopen popen tbl fuel [] root a 0 0 [] = Ok (0, a', offset, Z.of_nat (length v), []) /\
      inv a' /\ forall x, 0 <= x -> view a' x = nth (Z.to_nat x) v 0.
Proof.
  intros Hc Hr Hw Hns Hv.
  destruct (specs f inv view _ create_allocator Hc fopen popen tbl t Hns) as [_ Hs].
  destruct (Hs root [] [] v Hr Hw (dict_nil _ _ _ _ _ _ _) Hv) as (f0 & Hf0).
  exists f0. intros fuel a Hf Ha Hz.
  destruct (awp_ok _ _ (Hf0 fuel a Hf Ha Hz)) as ([[[r a'] off] size] & E & -> & [Ha' Hv'] & ->). eauto.
Qed.

(** The bytes 1, 2, 2, 2. *)
Definition sample_table : table := [EXPR_NULL; EXPR_BYTE 1; EXPR_BYTE 2; EXPR_REPEAT 2%nat 3; EXPR_LIST [1; 3]%nat].

Lemma evaluate_correct_witness :
  exists fuel0, forall fuel a, (fuel0 <= fuel)%nat -> sa_wf a -> (forall x, sa_view a x = 0) ->
    exists a' offset,
      evaluate sparse_functions (sparse_array_create 0) (fun _ => None) (fun _ => None) sample_table fuel [] 4%nat a 0 0 [] =
        Ok (0, a', offset, 4, []) /\
      sa_wf a' /\ forall x, 0 <= x -> sa_view a' x = nth (Z.to_nat x) [1; 2; 2; 2] 0.
Proof.
  apply (evaluate_correct sparse_functions sa_wf sa_view (AllocatorSpec0 := sparse_spec) (sparse_array_create 0) (fun _ => None) (fun _ => None)
    sample_table 4%nat (TList [TByte 1; TRepeat (TByte 2) 3]) [1; 2; 2; 2]).
  - apply hwp_bind. cbn. split; [done|]. eexists. split; [done|]. apply sparse_array_fresh.
  - eapply rep_list; [reflexivity|]. constructor; [by apply rep_byte|]. constructor; [|constructor].
    eapply rep_repeat; [reflexivity|by apply rep_byte].
  - constructor. constructor; [constructor|]. constructor; [|constructor]. constructor; [lia|constructor].
  - done.
  - by vm_compute.
Defined.
