(* ===== verification/DataFuel.v ===== *)
(** * The data plugin: more fuel changes nothing

    The parser and the optimizer give the same result for every amount of
    fuel that is enough. *)

From S2P Require Import Prelude NbdProtocol Extents Exports Server Connections Backend Plugin Parse Bytes Vector Allocators DataFormat DataEval.

(** [m'] does what [m] does, unless that runs out of fuel. *)
Definition T_le {A} (m m' : T A) : Prop := forall tbl, m tbl = Crash OutOfFuel \/ m' tbl = m tbl.

#[global] Instance T_le_refl {A} : Reflexive (@T_le A).
Proof. intros m tbl. by right. Qed.

Lemma T_le_bind {A B} (m m' : T A) (k k' : A -> T B) :
  T_le m m' -> (forall a, T_le (k a) (k' a)) -> T_le (a ← m; k a) (a ← m'; k' a).
Proof.
  intros Hm Hk tbl. unfold mbind, T_bind. destruct (Hm tbl) as [-> | ->]; [by left|].
  destruct (m tbl) as [[[a|] tbl1]|c]; [apply Hk|by right|by right].
Qed.

Lemma T_le_crash {A} (m : T A) : T_le (tcrash OutOfFuel) m.
Proof. intros tbl. by left. Qed.

Lemma T_le_if {A} (b : bool) (m m' n n' : T A) : T_le m m' -> T_le n n' -> T_le (if b then m else n) (if b then m' else n').
Proof. by destruct b. Qed.

(** Enough fuel is enough. *)
Lemma T_le_eq {A} (m m' : T A) tbl r : T_le m m' -> m tbl = Ok r -> m' tbl = Ok r.
Proof. intros H E. destruct (H tbl) as [H1|H1]; congruence. Qed.

Create HintDb fuel.
#[export] Hint Resolve T_le_refl T_le_crash T_le_if : fuel.

(** Goes through a computation up to the parts that differ. *)
Ltac same_steps :=
  repeat first
    [ reflexivity
    | assumption
    | apply T_le_crash
    | progress intros
    | apply T_le_bind
    | apply T_le_if
    | match goal with |- T_le (match ?x with _ => _ end) _ => destruct x end ].

(** ** The optimizer *)

Lemma le_single_byte fuel : forall fuel' e, (fuel <= fuel')%nat ->
  T_le (expr_is_single_byte fuel e) (expr_is_single_byte fuel' e).
Proof.
  induction fuel as [|fuel IH]; intros [|fuel'] e Hf; try lia; try apply T_le_crash.
  cbn [expr_is_single_byte]. assert (Hrec : forall e, T_le (expr_is_single_byte fuel e) (expr_is_single_byte fuel' e))
    by (intros; apply IH; lia). same_steps; auto.
Qed.

Section Opt.
Context (opt opt' : node_id -> T node_id) (Hopt : forall id, T_le (opt id) (opt' id)).

Lemma le_elements l : forall acc, T_le (optimize_elements opt l acc) (optimize_elements opt' l acc).
Proof. induction l as [|id l IH]; intros acc; cbn [optimize_elements]; same_steps; auto. Qed.

Lemma le_list l : T_le (optimize_list opt l) (optimize_list opt' l).
Proof. unfold optimize_list. apply T_le_bind; [apply le_elements|]. intros; reflexivity. Qed.

Lemma le_repeat fuel fuel' id n : (fuel <= fuel')%nat ->
  T_le (optimize_repeat fuel opt id n) (optimize_repeat fuel' opt' id n).
Proof.
  intros Hf. unfold optimize_repeat. pose proof (fun e => le_single_byte fuel fuel' e Hf).
  same_steps; auto.
Qed.

Lemma le_slice id n m : T_le (optimize_slice opt id n m) (optimize_slice opt' id n m).
Proof. unfold optimize_slice. apply T_le_if; [reflexivity|]. apply T_le_bind; [done|]. intros; reflexivity. Qed.
End Opt.

Lemma le_optimize_ast fuel : forall fuel' root, (fuel <= fuel')%nat ->
  T_le (optimize_ast fuel root) (optimize_ast fuel' root).
Proof.
  induction fuel as [|fuel IH]; intros [|fuel'] root Hf; try lia; try apply T_le_crash.
  cbn [optimize_ast]. assert (Hrec : forall id, T_le (optimize_ast fuel id) (optimize_ast fuel' id))
    by (intros; apply IH; lia).
  apply T_le_bind; [reflexivity|]. intros []; try reflexivity.
  - by apply le_list.
  - apply T_le_bind; [done|]. intros; reflexivity.
  - apply le_repeat; [done|lia].
  - by apply le_slice.
Qed.

(** ** The parser *)

Lemma le_parser variable fuel : forall fuel' level value i l, (fuel <= fuel')%nat ->
  T_le (parser variable fuel level value i l) (parser variable fuel' level value i l).
Proof.
  induction fuel as [|fuel IH]; intros [|fuel'] level value i l Hf; try lia; try apply T_le_crash.
  cbn [parser].
  assert (Hrec : forall level value i l, T_le (parser variable fuel level value i l) (parser variable fuel' level value i l))
    by (intros; apply IH; lia).
  same_steps; auto.
Qed.
