(* ===== verification/DataPrint.v ===== *)
(** * The data plugin: printing expressions and reading them back

    A printer for the data format, and the theorems that the parser reads
    printed expressions back, and that [read_data_format] turns them into
    the bytes they stand for. *)

From Stdlib Require Import Ascii String.
From S2P Require Import Prelude NbdProtocol Extents Exports Server Connections Backend Plugin Parse Bytes Vector Allocators DataFormat DataEval DataSem DataLaws DataOptim DataParse.

#[local] Open Scope Z_scope.

(** ** The printer *)

Definition hex_char (d : Z) : Z := digit_char d.

Definition print_char (c : Z) : list Z :=
  if ((c =? dquote) || (c =? backslash))%bool then [backslash; c]
  else if ((32 <=? c) && (c <=? 126))%bool then [c]
  else [backslash; chr "x"; digit_char (c / 16); digit_char (c mod 16)].

Definition space : Z := chr " ".

Fixpoint print (t : tree) : list Z :=
  match t with
  | TList l => chr "(" :: (fix go l := match l with [] => [] | t :: l => print t ++ go l end) l ++ [chr ")"; space]
  | TByte b => print_unsigned 10 b ++ [space]
  | TAbs ui => chr "@" :: print_unsigned 10 ui ++ [space]
  | TRel i => chr "@" :: (if i <? 0 then chr "-" else chr "+") :: print_unsigned 10 (Z.abs i) ++ [space]
  | TAlign n => chr "@" :: chr "^" :: print_unsigned 10 n ++ [space]
  | TFile s => chr "<" :: s ++ [space]
  | TScript s => chr "<" :: chr "(" :: s ++ [chr ")"; space]
  | TString s => dquote :: concat (print_char <$> s) ++ [dquote; space]
  | TName x => backslash :: x ++ [space]
  | TAssign x t => print t ++ chr "-" :: chr ">" :: backslash :: x ++ [space]
  | TRepeat t n => print t ++ chr "*" :: print_unsigned 10 n ++ [space]
  | TSlice t n m => print t ++ chr "[" :: print_signed (i64 n) ++ chr ":" :: print_signed m ++ [chr "]"; space]
  | TNull | TFill _ _ => []
  end.

Definition print_list (l : list tree) : list Z := concat (print <$> l).

(** ** What can be printed *)

Definition file_char (c : Z) : bool := negb (one_of c "*[) "%string || (c =? 9) || (c =? newline)).

(** Every parenthesis of a script is closed. *)
Fixpoint balanced (lvl : nat) (s : list Z) : bool :=
  match s with
  | [] => (lvl =? 0)%nat
  | c :: s =>
      if c =? chr "(" then balanced (lvl + 1) s
      else if c =? chr ")" then ((0 <? lvl)%nat && balanced (lvl - 1) s)%bool
      else balanced lvl s
  end.

(** What the operators accept. *)
Definition is_operand (t : tree) : bool := match t with TAbs _ | TRel _ | TAlign _ => false | _ => true end.

Definition nonempty {A} (s : list A) : bool := match s with [] => false | _ => true end.

Definition between (lo z hi : Z) : bool := ((lo <=? z) && (z <=? hi))%bool.

Fixpoint printable (t : tree) : bool :=
  match t with
  | TNull | TFill _ _ => false
  | TList l => forallb printable l
  | TByte b => between 0 b 255
  | TAbs ui => between 0 ui INT64_MAX
  | TRel i => between (- INT64_MAX) i INT64_MAX
  | TAlign n => (between 1 n INT64_MAX && is_power_of_2 n)%bool
  | TFile s => (nonempty s && negb (deref s =? chr "(") && forallb file_char s)%bool
  | TScript s => (nonempty s && balanced 0 s)%bool
  | TString s => forallb (fun c => between 0 c 255) s
  | TName x => (nonempty x && forallb is_name_char x)%bool
  | TAssign x t => (nonempty x && forallb is_name_char x && is_operand t && printable t)%bool
  | TRepeat t n => (between 0 n INT64_MAX && is_operand t && printable t)%bool
  | TSlice t n m => (between 0 n UINT64_MAX && between INT64_MIN m INT64_MAX && is_operand t && printable t)%bool
  end.

(** ** Numbers *)

(** What follows is not part of a number. *)
Definition delimits (rest : list Z) : Prop := digit_value (deref rest) = None.

Lemma delimits_stops rest base : delimits rest -> stops base rest.
Proof. unfold delimits, stops, is_digit. by intros ->. Qed.

Lemma scan_magnitude_print n rest : 0 <= n -> delimits rest ->
  scan_magnitude (print_unsigned 10 n ++ rest) = Some (n, rest).
Proof.
  intros Hn Hd. assert (Hm : magnitude 0 (print_unsigned 10 n ++ rest) = Some (n, rest)).
  { apply magnitude_decimal; [by left|done|by apply delimits_stops|]. intros _ _. unfold delimits in Hd. rewrite Hd. by intros []. }
  unfold scan_magnitude. destruct (print_unsigned 10 n ++ rest) as [|a [|x str]] eqn:E; [done|done|].
  destruct (Z.eqb_spec a (chr "0")) as [->|]; [|done]. cbn [andb].
  destruct ((x =? chr "x") || _)%bool eqn:Ex; [|done]. exfalso.
  (* only 0 starts with the digit 0, and what follows it is no [x] *)
  destruct (print_unsigned_head 10 n) as (d & ds & Heq & Hdr & Hnz); [lia..|].
  rewrite Heq in E. injection E as Ed E.
  assert (d = 0) as -> by (unfold digit_char in Ed; destruct (d <? 10); unfold chr in Ed; simpl in Ed; lia).
  assert (n = 0) as -> by (destruct (Z.eq_dec n 0); [done|by apply Hnz in n0]).
  assert (ds = []) as -> by (vm_compute in Heq; congruence). simpl in E. subst rest.
  unfold delimits in Hd. simpl in Hd. apply orb_prop in Ex as [-> %Z.eqb_eq | -> %Z.eqb_eq]; done.
Qed.

Lemma scan_int_print lo hi (neg : bool) n rest : 0 <= n -> delimits rest ->
  lo <= (if neg then - n else n) <= hi ->
  scan_int lo hi ((if neg then [chr "-"] else []) ++ print_unsigned 10 n ++ rest) =
    Scanned (if neg then - n else n) (length ((if neg then [chr "-"] else []) ++ print_unsigned 10 n)).
Proof.
  intros Hn Hd Hv. unfold scan_int.
  destruct (print_unsigned_head 10 n) as (d & ds & Heq & Hdr & _); [lia..|].
  destruct (skip_spaces_digit isspace d (ds ++ rest) Hdr isspace_digit) as [Hs Hc].
  assert (Hb : ((if neg then - n else n) <? lo) || (hi <? (if neg then - n else n)) = false) by lia.
  destruct neg.
  - change ([chr "-"] ++ print_unsigned 10 n ++ rest) with (chr "-" :: print_unsigned 10 n ++ rest).
    cbn [skip_spaces]. change (isspace (chr "-")) with false. cbn iota. change (chr "-" =? chr "-") with true. cbn iota.
    rewrite scan_magnitude_print by done. rewrite Hb. f_equal. cbn [length]. rewrite !length_app. simpl. lia.
  - cbn [app]. replace (skip_spaces isspace (print_unsigned 10 n ++ rest)) with (print_unsigned 10 n ++ rest)
      by (rewrite Heq; symmetry; exact Hs).
    rewrite Heq at 1. cbn [app]. unfold chr at 1 2. simpl (Z.of_N _). rewrite (proj2 (Z.eqb_neq _ 45)), (proj2 (Z.eqb_neq _ 43)) by lia.
    rewrite scan_magnitude_print by done. rewrite Hb. f_equal. rewrite length_app. lia.
Qed.

Lemma scan_i64_print z rest : INT64_MIN <= z <= INT64_MAX -> delimits rest ->
  scan_i64 (print_signed z ++ rest) = Scanned z (length (print_signed z)).
Proof.
  intros Hz Hd. unfold print_signed, scan_i64. destruct (Z.ltb_spec z 0).
  - pose proof (scan_int_print INT64_MIN INT64_MAX true (- z) rest) as Hs. cbv iota in Hs.
    rewrite Z.opp_involutive in Hs. apply Hs; [lia|done|lia].
  - apply (scan_int_print _ _ false z); [lia|done|lia].
Qed.

Lemma scan_i64_unsigned n rest : 0 <= n <= INT64_MAX -> delimits rest ->
  scan_i64 (print_unsigned 10 n ++ rest) = Scanned n (length (print_unsigned 10 n)).
Proof. intros Hn Hd. apply (scan_int_print _ _ false n); [lia|done|]. unfold INT64_MIN. lia. Qed.

Lemma scan_i_unsigned n rest : 0 <= n <= 255 -> delimits rest ->
  scan_i (print_unsigned 10 n ++ rest) = Scanned n (length (print_unsigned 10 n)).
Proof. intros Hn Hd. apply (scan_int_print _ _ false n); [lia|done|]. unfold INT_MIN, INT_MAX. lia. Qed.

Lemma print_unsigned_digit n : 0 <= n -> exists c s, print_unsigned 10 n = c :: s /\ 48 <= c <= 57.
Proof.
  intros Hn. destruct (print_unsigned_head 10 n) as (d & ds & Heq & Hd & _); [lia..|].
  exists (digit_char d), ds. split; [done|]. unfold digit_char. destruct (Z.ltb_spec d 10); lia.
Qed.

(** ** Positions *)

Lemma char_at_app pre str i : i = length pre -> char_at (pre ++ str) i = deref str.
Proof.
  intros ->. unfold char_at. rewrite app_nth2 by lia. rewrite Nat.sub_diag. by destruct str.
Qed.

Lemma drop_pre (pre str : list Z) i : i = length pre -> drop i (pre ++ str) = str.
Proof. intros ->. apply drop_app_length. Qed.

Lemma span_app p s rest : forallb p s = true -> (rest = [] \/ p (deref rest) = false) -> span p (s ++ rest) = length s.
Proof.
  intros Hs Hr. induction s as [|c s IH]; simpl.
  - destruct rest as [|c rest]; [done|]. simpl. destruct Hr as [|Hr]; [done|]. simpl in Hr. by rewrite Hr.
  - simpl in Hs. apply andb_prop in Hs as [-> Hs]. by rewrite IH.
Qed.

(** ** Steps of the parser *)

Section Steps.
Context (variable : list Z -> option (list Z)).

(** The loop gets from one state to another in at most [k] steps. *)
Definition reaches (k : nat) (value : list Z) (i : nat) (l : list node_id) (tbl : table)
    (i' : nat) (l' : list node_id) (tbl' : table) : Prop :=
  forall level fuel, (k <= fuel)%nat -> exists fuel', (fuel - k <= fuel')%nat /\
    parser variable fuel level value i l tbl = parser variable fuel' level value i' l' tbl'.

Lemma reaches_refl value i l tbl : reaches 0 value i l tbl i l tbl.
Proof. intros level fuel _. exists fuel. split; [lia|done]. Qed.

Lemma reaches_trans k1 k2 value i1 l1 tbl1 i2 l2 tbl2 i3 l3 tbl3 : reaches k1 value i1 l1 tbl1 i2 l2 tbl2 ->
  reaches k2 value i2 l2 tbl2 i3 l3 tbl3 -> reaches (k1 + k2) value i1 l1 tbl1 i3 l3 tbl3.
Proof.
  intros H1 H2 level fuel Hf. destruct (H1 level fuel) as (f1 & Hf1 & ->); [lia|].
  destruct (H2 level f1) as (f2 & Hf2 & ->); [lia|]. exists f2. split; [lia|done].
Qed.

(** An item that is not parsed recursively. *)
Lemma reaches_item value i l tbl i' l' tbl' : (i < length value)%nat ->
  (char_at value i =? chr "(") = false -> (char_at value i =? chr ")") = false -> (char_at value i =? chr "$") = false ->
  parse_item value i l tbl = Ok (Some (i', l'), tbl') -> reaches 1 value i l tbl i' l' tbl'.
Proof.
  intros Hi H1 H2 H3 Hp level fuel Hf. destruct fuel as [|fuel]; [lia|]. exists fuel. split; [lia|].
  cbn [parser]. rewrite (proj2 (Nat.leb_gt _ _) Hi), H1, H2, H3.
  unfold mbind at 1, T_bind at 1. by rewrite Hp.
Qed.

Lemma reaches_space value i l tbl : (i < length value)%nat -> char_at value i = space ->
  reaches 1 value i l tbl (i + 1) l tbl.
Proof. intros Hi Hc. apply reaches_item; [done|by rewrite Hc..|]. unfold parse_item. by rewrite Hc. Qed.

Lemma append_expr_ok e l tbl : e <> EXPR_NULL -> table_ok tbl -> exists id tbl',
  append_expr e l tbl = Ok (Some (l ++ [id]), tbl') /\ tbl `prefix_of` tbl' /\ table_ok tbl' /\ tbl' !! id = Some e.
Proof.
  intros He Ht. assert (H : pwp (new_node e) tbl (fun id tbl' => tbl' !! id = Some e)) by (by apply pwp_new).
  specialize (H Ht).
  unfold append_expr, mbind, T_bind. destruct (new_node e tbl) as [[[id|] tbl']|] eqn:E.
  - destruct H as (Hp & Ht' & Hid). exists id, tbl'. split; [reflexivity|done].
  - by destruct e.
  - by destruct e.
Qed.

(** From [i] the text [str] of an expression is read, which is added to the
    list. *)
Definition reads (t : tree) (str : list Z) : Prop := forall pre post l tbl, table_ok tbl ->
  exists k id tbl', tbl `prefix_of` tbl' /\ table_ok tbl' /\ rep tbl' id t /\
    reaches k (pre ++ str ++ post) (length pre) l tbl (length pre + length str) (l ++ [id]) tbl'.

(** An item followed by a space. *)
Lemma reads_item t e c str : e <> EXPR_NULL ->
  (forall (tbl : table) id, tbl !! id = Some e -> rep tbl id t) ->
  (c =? chr "(") = false -> (c =? chr ")") = false -> (c =? chr "$") = false ->
  (forall pre post l, parse_item (pre ++ c :: str ++ space :: post) (length pre) l =
    (l ← append_expr e l; mret ((length pre + length (c :: str))%nat, l))) ->
  reads t ((c :: str) ++ [space]).
Proof.
  intros He Hrep H1 H2 H3 Hitem pre post l tbl Ht.
  destruct (append_expr_ok e l tbl He Ht) as (id & tbl' & Ha & Hp & Ht' & Hid).
  exists 2%nat, id, tbl'. split; [done|]. split; [done|]. split; [by apply Hrep|].
  rewrite <- (app_assoc (c :: str)). cbn [app].
  set (value := pre ++ c :: str ++ space :: post).
  assert (Hc : char_at value (length pre) = c) by (unfold value; by rewrite char_at_app).
  eapply (reaches_trans 1 1); [eapply reaches_item|].
  - unfold value. rewrite length_app. simpl. lia.
  - by rewrite Hc.
  - by rewrite Hc.
  - by rewrite Hc.
  - unfold value. rewrite Hitem. unfold mbind, T_bind. by rewrite Ha.
  - cbn [length]. rewrite length_app. cbn [length].
    replace (length pre + S (length str + 1))%nat with (length pre + S (length str) + 1)%nat by lia.
    apply reaches_space.
    + unfold value. rewrite !length_app. simpl. rewrite length_app. simpl. lia.
    + unfold value. replace (pre ++ c :: str ++ space :: post) with ((pre ++ c :: str) ++ space :: post)
        by (by rewrite <- app_assoc). rewrite char_at_app; [done|]. rewrite length_app. simpl. lia.
Qed.

(** ** Expressions without subexpressions *)

Lemma delimits_space rest : delimits (space :: rest).
Proof. reflexivity. Qed.

Lemma number_nonempty n rest : 0 <= n -> print_unsigned 10 n ++ rest <> [].
Proof. intros Hn. by destruct (print_unsigned_digit n Hn) as (c & s & -> & _). Qed.

(** A digit is none of the marks. *)
Ltac not_mark c :=
  repeat match goal with
  | |- context [c =? ?m] => let v := eval vm_compute in m in
      replace (c =? m) with false by (symmetry; apply Z.eqb_neq; change m with v; lia)
  end;
  replace (ascii_isdigit c) with true by (unfold ascii_isdigit; lia).

(** Positions, and that a number follows. *)
Ltac pos := first [by rewrite ?length_app | rewrite ?length_app; simpl; lia | apply number_nonempty; lia | apply delimits_space].

Lemma at_next (pre : list Z) c str : pre ++ c :: str = (pre ++ [c]) ++ str.
Proof. by rewrite <- app_assoc. Qed.

Lemma reads_byte b : printable (TByte b) = true -> reads (TByte b) (print (TByte b)).
Proof.
  intros Hb. simpl in Hb. unfold between in Hb. cbn [print].
  destruct (print_unsigned_digit b) as (c & s & Hs & Hc); [lia|]. rewrite Hs.
  apply (reads_item _ (EXPR_BYTE b)); [done|intros; econstructor; eassumption|apply Z.eqb_neq; unfold chr; cbn; lia..|].
  intros pre post l. unfold parse_item. rewrite char_at_app by done. cbn [deref].
  cbv zeta. not_mark c.
  unfold parse_byte. rewrite drop_pre by done.
  change (c :: s ++ space :: post) with ((c :: s) ++ space :: post). rewrite <- Hs.
  rewrite scan_i_unsigned by (lia || apply delimits_space).
  destruct ((b <? 0) || (255 <? b))%bool eqn:E; [lia|]. done.
Qed.

(** A number at a position. *)
Lemma with_i64_at {A} pre n rest i (k : Z -> nat -> T A) : i = length pre -> 0 <= n <= INT64_MAX -> delimits rest ->
  with_i64 (pre ++ print_unsigned 10 n ++ rest) i k = k n (length (print_unsigned 10 n)).
Proof. intros -> Hn Hd. unfold with_i64. rewrite drop_pre by done. by rewrite scan_i64_unsigned. Qed.

(** The character after a prefix of two characters, and the rest. *)
Lemma at_two (pre : list Z) a b str : pre ++ a :: b :: str = (pre ++ [a; b]) ++ str.
Proof. by rewrite <- app_assoc. Qed.

Lemma not_end (pre str : list Z) i : i = length pre -> str <> [] -> (i =? length (pre ++ str))%nat = false.
Proof. intros -> Hs. apply Nat.eqb_neq. rewrite length_app. destruct str; [done|simpl; lia]. Qed.

Lemma reads_abs ui : printable (TAbs ui) = true -> reads (TAbs ui) (print (TAbs ui)).
Proof.
  intros Hb. simpl in Hb. unfold between in Hb. cbn [print].
  destruct (print_unsigned_digit ui) as (c & s & Hs & Hc); [lia|].
  apply (reads_item _ (EXPR_ABS_OFFSET ui)); [done|intros; econstructor; eassumption|done..|].
  intros pre post l. unfold parse_item. rewrite char_at_app by done. cbn [deref].
  change (chr "@" =? chr "#") with false. change (chr "@" =? chr "@") with true. cbn iota.
  rewrite at_next. unfold parse_offset. rewrite not_end by pos.
  rewrite char_at_app by (by rewrite length_app). replace (deref (print_unsigned 10 ui ++ space :: post)) with c by (by rewrite Hs).
  cbv zeta. not_mark c.
  rewrite with_i64_at by pos.
  rewrite (proj2 (Z.ltb_ge ui 0)) by lia. simpl.
  by replace (length pre + 1 + length (print_unsigned 10 ui))%nat with (length pre + S (length (print_unsigned 10 ui)))%nat by lia.
Qed.

Lemma reads_rel i : printable (TRel i) = true -> reads (TRel i) (print (TRel i)).
Proof.
  intros Hb. simpl in Hb. unfold between in Hb. cbn [print].
  set (mark := if i <? 0 then chr "-" else chr "+"). set (num := print_unsigned 10 (Z.abs i)).
  apply (reads_item _ (EXPR_REL_OFFSET i) (chr "@") (mark :: num)); [done|intros; econstructor; eassumption|done..|].
  intros pre post l. unfold parse_item. rewrite char_at_app by done. cbn [deref].
  change (chr "@" =? chr "#") with false. change (chr "@" =? chr "@") with true. cbn iota.
  unfold parse_offset. cbn [app]. set (value := pre ++ _).
  assert (Hv1 : value = (pre ++ [chr "@"]) ++ mark :: num ++ space :: post) by (unfold value; by rewrite at_next).
  assert (Hv2 : value = (pre ++ [chr "@"; mark]) ++ num ++ space :: post) by (unfold value; by rewrite at_two).
  assert (Hc : char_at value (length pre + 1) = mark) by (rewrite Hv1; by rewrite char_at_app by pos).
  rewrite Hc. rewrite Hv1 at 1. rewrite not_end by pos.
  assert (Hrel : forall sign, sign * Z.abs i = i ->
    (if (length pre + 1 + 1 =? length value)%nat then tfail
     else with_i64 value (length pre + 1 + 1)
       (fun i64 n => if i64 <? 0 then tfail
        else l ← append_expr (EXPR_REL_OFFSET (sign * i64)) l; mret ((length pre + 1 + 1 + n)%nat, l))) =
    (l ← append_expr (EXPR_REL_OFFSET i) l; mret ((length pre + length (chr "@" :: mark :: num))%nat, l))).
  { intros sign Hsign. rewrite Hv2, not_end by pos. unfold num. rewrite with_i64_at by pos.
    rewrite (proj2 (Z.ltb_ge _ 0)) by lia. rewrite Hsign. cbn [length].
    by replace (length pre + 1 + 1 + length (print_unsigned 10 (Z.abs i)))%nat
      with (length pre + S (S (length (print_unsigned 10 (Z.abs i)))))%nat by lia. }
  unfold mark at 1 2 3. destruct (Z.ltb_spec i 0).
  - change (chr "-" =? chr "+") with false. change (chr "-" =? chr "-") with true. apply Hrel. lia.
  - change (chr "+" =? chr "+") with true. apply Hrel. lia.
Qed.

Lemma reads_align n : printable (TAlign n) = true -> reads (TAlign n) (print (TAlign n)).
Proof.
  intros Hb. simpl in Hb. unfold between in Hb. apply andb_prop in Hb as [Hb Hp2]. cbn [print].
  set (num := print_unsigned 10 n).
  apply (reads_item _ (EXPR_ALIGN_OFFSET n) (chr "@") (chr "^" :: num)); [done|intros; econstructor; eassumption|done..|].
  intros pre post l. unfold parse_item. rewrite char_at_app by done. cbn [deref].
  change (chr "@" =? chr "#") with false. change (chr "@" =? chr "@") with true. cbn iota.
  unfold parse_offset. cbn [app]. set (value := pre ++ _).
  assert (Hv1 : value = (pre ++ [chr "@"]) ++ chr "^" :: num ++ space :: post) by (unfold value; by rewrite at_next).
  assert (Hv2 : value = (pre ++ [chr "@"; chr "^"]) ++ num ++ space :: post) by (unfold value; by rewrite at_two).
  assert (Hc : char_at value (length pre + 1) = chr "^") by (rewrite Hv1; by rewrite char_at_app by pos).
  rewrite Hc. rewrite Hv1 at 1. rewrite not_end by pos.
  change (chr "^" =? chr "+") with false. change (chr "^" =? chr "-") with false. change (chr "^" =? chr "^") with true.
  cbv zeta iota. rewrite Hv2, not_end by pos. unfold num. rewrite with_i64_at by pos.
  rewrite (proj2 (Z.ltb_ge _ 0)) by lia. rewrite Hp2. cbn [negb length].
  by replace (length pre + 1 + 1 + length (print_unsigned 10 n))%nat
    with (length pre + S (S (length (print_unsigned 10 n))))%nat by lia.
Qed.

Lemma take_app_exact (s rest : list Z) n : n = length s -> take n (s ++ rest) = s.
Proof. intros ->. apply take_app_length. Qed.

Lemma reads_file s : printable (TFile s) = true -> reads (TFile s) (print (TFile s)).
Proof.
  intros Hb. simpl in Hb. apply andb_prop in Hb as [[Hne Hpar]%andb_prop Hs]. cbn [print].
  apply (reads_item _ (EXPR_FILE s) (chr "<") s); [done|intros; econstructor; eassumption|done..|].
  intros pre post l. unfold parse_item. rewrite char_at_app by done. cbn [deref].
  change (parse_input (pre ++ chr "<" :: s ++ space :: post) (length pre) l = (l ← append_expr (EXPR_FILE s) l;
    mret ((length pre + length (chr "<" :: s))%nat, l))).
  unfold parse_input. rewrite at_next. rewrite char_at_app by pos.
  replace (deref (s ++ space :: post)) with (deref s) by (by destruct s).
  apply negb_true_iff in Hpar. rewrite Hpar, andb_false_r. cbn iota. rewrite drop_pre by pos.
  rewrite (span_app file_char) by (done || by right).
  destruct (Nat.eqb_spec (length s) 0); [by destruct s|]. rewrite take_app_exact by done. cbn [length].
  by replace (length pre + 1 + length s)%nat with (length pre + S (length s))%nat by lia.
Qed.

Lemma script_loop_balanced s : forall lvl r rest, balanced lvl s = true ->
  script_loop (s ++ chr ")" :: rest) lvl r = (r + length s)%nat.
Proof.
  induction s as [|c s IH]; intros lvl r rest Hb; cbn [app script_loop balanced length] in *.
  - apply Nat.eqb_eq in Hb as ->. change (chr ")" =? chr "(") with false. change (chr ")" =? chr ")") with true. simpl. lia.
  - destruct (c =? chr "("); [rewrite IH by done; lia|]. destruct (c =? chr ")"); [|rewrite IH by done; lia].
    apply andb_prop in Hb as [-> Hb]. rewrite IH by done. lia.
Qed.

Lemma reads_script s : printable (TScript s) = true -> reads (TScript s) (print (TScript s)).
Proof.
  intros Hb. simpl in Hb. apply andb_prop in Hb as [Hne Hs]. cbn [print].
  replace (chr "<" :: chr "(" :: s ++ [chr ")"; space]) with ((chr "<" :: chr "(" :: s ++ [chr ")"]) ++ [space])
    by (cbn [app]; by rewrite <- app_assoc).
  apply (reads_item _ (EXPR_SCRIPT s) (chr "<") (chr "(" :: s ++ [chr ")"])); [done|intros; econstructor; eassumption|done..|].
  intros pre post l. unfold parse_item. rewrite char_at_app by done. cbn [deref]. cbn [app].
  set (value := pre ++ _).
  change (parse_input value (length pre) l = (l ← append_expr (EXPR_SCRIPT s) l;
    mret ((length pre + length (chr "<" :: chr "(" :: s ++ [chr ")"]))%nat, l))).
  assert (Hv1 : value = (pre ++ [chr "<"]) ++ chr "(" :: (s ++ [chr ")"]) ++ space :: post) by (unfold value; by rewrite at_next).
  assert (Hv2 : value = (pre ++ [chr "<"; chr "("]) ++ s ++ chr ")" :: space :: post)
    by (unfold value; rewrite at_two, <- (app_assoc s); done).
  unfold parse_input.
  assert (Hlt : (length pre + 1 <? length value)%nat = true)
    by (apply Nat.ltb_lt; rewrite Hv1, !length_app; simpl; lia).
  assert (Hc : char_at value (length pre + 1) = chr "(") by (rewrite Hv1; by rewrite char_at_app by pos).
  rewrite Hlt, Hc. change (true && (chr "(" =? chr "("))%bool with true. cbn iota. unfold get_script.
  rewrite Hv2, drop_pre by pos. rewrite script_loop_balanced by done. cbn [Nat.add].
  destruct (Nat.eqb_spec (length s) 0); [by destruct s|]. rewrite take_app_exact by done.
  cbn [length]. rewrite length_app. cbn [length].
  by replace (length pre + 2 + length s + 1)%nat with (length pre + S (S (length s + 1)))%nat by lia.
Qed.

Lemma get_name_at pre x rest i : i = length pre -> forallb is_name_char x = true ->
  (rest = [] \/ is_name_char (deref rest) = false) -> x <> [] ->
  get_name (pre ++ backslash :: x ++ rest) i = (length x, (i + 1)%nat).
Proof.
  intros -> Hx Hr Hne. unfold get_name, get_marked. rewrite drop_pre by done. cbn [span].
  change (ascii_isspace backslash) with false. cbn iota. rewrite Nat.add_0_r.
  rewrite char_at_app by done. cbn [deref]. change (backslash =? backslash) with true. cbn [negb]. rewrite orb_false_r.
  rewrite (proj2 (Nat.leb_gt _ _)) by (rewrite length_app; simpl; lia).
  assert (Hlen : (0 < length x)%nat) by (destruct x; [done|simpl; lia]).
  rewrite (proj2 (Nat.leb_gt _ _)) by (rewrite length_app; simpl; rewrite length_app; lia).
  rewrite at_next, drop_pre by pos. by rewrite span_app.
Qed.

Lemma nonempty_ne {A} (s : list A) : nonempty s = true -> s <> [].
Proof. by destruct s. Qed.

Lemma reads_name x : printable (TName x) = true -> reads (TName x) (print (TName x)).
Proof.
  intros Hb. simpl in Hb. apply andb_prop in Hb as [Hne Hx]. apply nonempty_ne in Hne. cbn [print].
  apply (reads_item _ (EXPR_NAME x) backslash x); [done|intros; econstructor; eassumption|done..|].
  intros pre post l. unfold parse_item. rewrite char_at_app by done. cbn [deref].
  change (parse_name (pre ++ backslash :: x ++ space :: post) (length pre) l = (l ← append_expr (EXPR_NAME x) l;
    mret ((length pre + length (backslash :: x))%nat, l))).
  unfold parse_name. rewrite get_name_at by (done || by right).
  destruct (Nat.eqb_spec (length x) 0); [by destruct x|].
  rewrite at_next, drop_pre by pos. rewrite take_app_exact by done. cbn [length].
  by replace (length pre + 1 + length x)%nat with (length pre + S (length x))%nat by lia.
Qed.

(** ** Strings *)

Definition hex_byte_ok (c : Z) : bool :=
  (ascii_isxdigit (digit_char (c / 16)) && ascii_isxdigit (digit_char (c mod 16)) &&
   (hexbyte (digit_char (c / 16)) (digit_char (c mod 16)) =? c))%bool.

Lemma hex_bytes c : 0 <= c <= 255 -> hex_byte_ok c = true.
Proof.
  intros Hc. assert (Hall : forallb hex_byte_ok (seqZ 0 256) = true) by (vm_compute; done).
  rewrite forallb_forall in Hall. apply Hall. apply list_elem_of_In, elem_of_seqZ. lia.
Qed.

Lemma string_loop_char c rest acc : 0 <= c <= 255 ->
  string_loop (print_char c ++ rest) acc = string_loop rest (acc ++ [c]).
Proof.
  intros Hc. unfold print_char.
  destruct (Z.eqb_spec c dquote) as [->|Hq]; [done|]. destruct (Z.eqb_spec c backslash) as [->|Hb]; [done|]. cbn [orb].
  destruct (_ && _)%bool.
  - cbn [app string_loop]. by rewrite (proj2 (Z.eqb_neq c dquote)), (proj2 (Z.eqb_neq c backslash)).
  - pose proof (hex_bytes c Hc) as Hx. unfold hex_byte_ok in Hx. apply andb_prop in Hx as [[H1 H2]%andb_prop H3].
    cbn [app]. change (string_loop (backslash :: chr "x" :: digit_char (c / 16) :: digit_char (c mod 16) :: rest) acc)
      with (if (negb (ascii_isxdigit (digit_char (c / 16))) || negb (ascii_isxdigit (digit_char (c mod 16))))%bool then None
        else string_loop rest (acc ++ [hexbyte (digit_char (c / 16)) (digit_char (c mod 16))])).
    rewrite H1, H2. cbn [negb orb]. apply Z.eqb_eq in H3. by rewrite H3.
Qed.

Lemma string_loop_print s rest : forall acc, forallb (fun c => between 0 c 255) s = true ->
  string_loop (concat (print_char <$> s) ++ dquote :: rest) acc = Some (acc ++ s, rest).
Proof.
  induction s as [|c s IH]; intros acc Hs; simpl in Hs.
  - cbn [fmap list_fmap concat app]. rewrite app_nil_r. done.
  - apply andb_prop in Hs as [Hc Hs]. unfold between in Hc. cbn [fmap list_fmap concat]. rewrite <- app_assoc.
    rewrite string_loop_char by lia. rewrite IH by done. by rewrite <- app_assoc.
Qed.

Lemma reads_string s : printable (TString s) = true -> reads (TString s) (print (TString s)).
Proof.
  intros Hs. simpl in Hs. cbn [print]. set (text := concat (print_char <$> s)).
  replace (dquote :: text ++ [dquote; space]) with ((dquote :: text ++ [dquote]) ++ [space])
    by (cbn [app]; by rewrite <- app_assoc).
  apply (reads_item _ (EXPR_STRING s) dquote (text ++ [dquote])); [done|intros; econstructor; eassumption|done..|].
  intros pre post l. unfold parse_item. rewrite char_at_app by done. cbn [deref].
  set (value := pre ++ _).
  change (('(s, i) ← parse_string value (length pre + 1); l ← append_expr (EXPR_STRING s) l; mret (i, l)) =
    (l ← append_expr (EXPR_STRING s) l; mret ((length pre + length (dquote :: text ++ [dquote]))%nat, l))).
  assert (Hv : value = (pre ++ [dquote]) ++ text ++ dquote :: space :: post).
  { unfold value. by rewrite at_next, <- (app_assoc text). }
  unfold parse_string. rewrite Hv, drop_pre by pos. unfold text. rewrite string_loop_print by done. fold text.
  cbn [app]. replace (length ((pre ++ [dquote]) ++ text ++ dquote :: space :: post) - length (space :: post))%nat
    with (length pre + length (dquote :: text ++ [dquote]))%nat; [done|].
  cbn [length]. rewrite !length_app. cbn [length]. lia.
Qed.

(** ** Operators *)

(** [t] is read, and the rest of the text turns it into [t']. *)
Lemma reads_operator t t' str e c op : reads t str -> is_operand t = true -> (forall id, e id <> EXPR_NULL) ->
  (forall (tbl : table) id id', tbl !! id' = Some (e id) -> rep tbl id t -> rep tbl id' t') ->
  (c =? chr "(") = false -> (c =? chr ")") = false -> (c =? chr "$") = false ->
  (forall pre post l (tbl : table) id en, tbl !! id = Some en -> is_data_expr en = true ->
    parse_item (pre ++ c :: op ++ space :: post) (length pre) (l ++ [id]) tbl =
    (l ← append_expr (e id) l; mret ((length pre + length (c :: op))%nat, l)) tbl) ->
  reads t' (str ++ (c :: op) ++ [space]).
Proof.
  intros Hr Hop He Hrep H1 H2 H3 Hitem pre post l tbl Ht.
  destruct (Hr pre ((c :: op) ++ space :: post) l tbl Ht) as (k & id & tbl1 & Hp1 & Ht1 & Hid & Hk).
  destruct (append_expr_ok (e id) l tbl1 (He id) Ht1) as (id' & tbl2 & Ha & Hp2 & Ht2 & Hid2).
  destruct (rep_node _ _ _ Hid) as (en & Hen & Hne).
  assert (Hd : is_data_expr en = true) by (by destruct en, t).
  exists (k + (1 + 1))%nat, id', tbl2. split; [by etrans|]. split; [done|].
  split; [eapply Hrep; [done|by eapply rep_prefix]|].
  assert (Hv : pre ++ (str ++ (c :: op) ++ [space]) ++ post = pre ++ str ++ (c :: op) ++ space :: post)
    by (by rewrite <- !app_assoc).
  rewrite Hv. eapply reaches_trans; [exact Hk|].
  set (value := pre ++ _). assert (Hv1 : value = (pre ++ str) ++ c :: op ++ space :: post) by (unfold value; by rewrite <- app_assoc).
  assert (Hl : (length pre + length str)%nat = length (pre ++ str)) by (by rewrite length_app). rewrite Hl.
  assert (Hc : char_at value (length (pre ++ str)) = c) by (rewrite Hv1; by rewrite char_at_app).
  eapply reaches_trans; [eapply reaches_item|].
  - rewrite Hv1, (length_app (pre ++ str)). simpl. lia.
  - by rewrite Hc.
  - by rewrite Hc.
  - by rewrite Hc.
  - rewrite Hv1, (Hitem _ _ _ _ _ en) by done. unfold mbind, T_bind. by rewrite Ha.
  - replace (length pre + length (str ++ (c :: op) ++ [space]))%nat with (length (pre ++ str) + length (c :: op) + 1)%nat
      by (rewrite !length_app; simpl; lia).
    apply reaches_space.
    + rewrite Hv1, !length_app. simpl. rewrite length_app. simpl. lia.
    + rewrite Hv1. replace ((pre ++ str) ++ c :: op ++ space :: post) with (((pre ++ str) ++ c :: op) ++ space :: post)
        by (by rewrite <- app_assoc). rewrite char_at_app; [done|]. rewrite !length_app. simpl. lia.
Qed.

Lemma operand_ok (l : list node_id) (tbl : table) id en : tbl !! id = Some en -> is_data_expr en = true ->
  operand (l ++ [id]) tbl = Ok (Some (id, l), tbl).
Proof.
  intros He Hd. unfold operand. rewrite last_snoc. unfold mbind, T_bind, get_node. rewrite He, Hd. cbn [negb].
  by rewrite removelast_last.
Qed.

(** The operand is found, and [k] continues. *)
Lemma operand_bind {A} (k : node_id -> list node_id -> T A) (l : list node_id) (tbl : table) id en : tbl !! id = Some en -> is_data_expr en = true ->
  ('(id, l) ← operand (l ++ [id]); k id l) tbl = k id l tbl.
Proof. intros He Hd. unfold mbind, T_bind. by rewrite (operand_ok _ _ _ _ He Hd). Qed.

Lemma reads_repeat t n : reads t (print t) -> printable (TRepeat t n) = true -> reads (TRepeat t n) (print (TRepeat t n)).
Proof.
  intros Hr Hb. cbn [printable] in Hb. apply andb_prop in Hb as [[Hn Hop]%andb_prop _]. unfold between in Hn. cbn [print].
  change (print t ++ chr "*" :: print_unsigned 10 n ++ [space])
    with (print t ++ (chr "*" :: print_unsigned 10 n) ++ [space]).
  apply (reads_operator t _ _ (fun id => EXPR_REPEAT id n)); [done..|intros; by eapply rep_repeat|done|done|done|].
  intros pre post l tbl id en He Hd. unfold parse_item. rewrite char_at_app by done. cbn [deref].
  set (value := pre ++ _).
  assert (Hv : value = (pre ++ [chr "*"]) ++ print_unsigned 10 n ++ space :: post) by (unfold value; by rewrite at_next).
  change (parse_repeat value (length pre + 1) (l ++ [id]) tbl = (l ← append_expr (EXPR_REPEAT id n) l;
    mret ((length pre + length (chr "*" :: print_unsigned 10 n))%nat, l)) tbl).
  unfold parse_repeat. rewrite (operand_bind _ _ _ _ _ He Hd). rewrite Hv, with_i64_at by pos.
  rewrite (proj2 (Z.ltb_ge _ 0)) by lia. cbn [length].
  by replace (length pre + 1 + length (print_unsigned 10 n))%nat
    with (length pre + S (length (print_unsigned 10 n)))%nat by lia.
Qed.

Lemma reads_assign x t : reads t (print t) -> printable (TAssign x t) = true -> reads (TAssign x t) (print (TAssign x t)).
Proof.
  intros Hr Hb. cbn [printable] in Hb. apply andb_prop in Hb as [[[Hne Hx]%andb_prop Hop]%andb_prop _].
  apply nonempty_ne in Hne. cbn [print].
  change (print t ++ chr "-" :: chr ">" :: backslash :: x ++ [space])
    with (print t ++ (chr "-" :: chr ">" :: backslash :: x) ++ [space]).
  apply (reads_operator t _ _ (fun id => EXPR_ASSIGN x id)); [done..|intros; by eapply rep_assign|done|done|done|].
  intros pre post l tbl id en He Hd. unfold parse_item. rewrite char_at_app by done. cbn [deref app].
  set (value := pre ++ _).
  assert (Hv1 : value = (pre ++ [chr "-"]) ++ chr ">" :: backslash :: x ++ space :: post) by (unfold value; by rewrite at_next).
  assert (Hv2 : value = (pre ++ [chr "-"; chr ">"]) ++ backslash :: x ++ space :: post) by (unfold value; by rewrite at_two).
  assert (Hv3 : value = (pre ++ [chr "-"; chr ">"; backslash]) ++ x ++ space :: post)
    by (unfold value; by rewrite <- app_assoc).
  change (parse_assign value (length pre + 1) (l ++ [id]) tbl = (l ← append_expr (EXPR_ASSIGN x id) l;
    mret ((length pre + length (chr "-" :: chr ">" :: backslash :: x))%nat, l)) tbl).
  unfold parse_assign.
  assert (Hc : char_at value (length pre + 1) = chr ">") by (rewrite Hv1; by rewrite char_at_app by pos).
  rewrite Hc. change (negb (chr ">" =? chr ">")) with false. cbn iota. rewrite (operand_bind _ _ _ _ _ He Hd).
  rewrite Hv2, get_name_at by (pos || done || by right). rewrite <- Hv2.
  destruct (Nat.eqb_spec (length x) 0); [by destruct x|].
  rewrite Hv3, drop_pre by pos. rewrite take_app_exact by done. cbn [length].
  by replace (length pre + 1 + 1 + 1 + length x)%nat with (length pre + S (S (S (length x))))%nat by lia.
Qed.

Lemma scan_slice_at n m rest : 0 <= n <= UINT64_MAX -> INT64_MIN <= m <= INT64_MAX ->
  scan_slice (print_signed (i64 n) ++ chr ":" :: print_signed m ++ chr "]" :: rest) =
  SliceMatch (i64 n) m (Some (length (print_signed (i64 n) ++ chr ":" :: print_signed m ++ [chr "]"])%nat)).
Proof.
  intros Hn Hm. assert (Hi : INT64_MIN <= i64 n <= INT64_MAX).
  { unfold i64, INT64_MIN. rewrite u64_small by lia. limits. destruct (Z.leb_spec n 9223372036854775807); lia. }
  unfold scan_slice, scan_slice_both. set (a := print_signed (i64 n)). set (str := a ++ _).
  assert (Hs1 : scan_i64 str = Scanned (i64 n) (length a)) by (apply scan_i64_print; done). rewrite Hs1.
  assert (Hc : char_at str (length a) = chr ":") by (unfold str; by rewrite char_at_app). rewrite Hc.
  change (chr ":" =? chr ":") with true. cbn iota.
  assert (Hs2 : str = (a ++ [chr ":"]) ++ print_signed m ++ chr "]" :: rest) by (unfold str; by rewrite at_next).
  rewrite Hs2 at 1. rewrite drop_pre by pos. rewrite scan_i64_print by done. set (b := print_signed m) in *.
  assert (Hs3 : str = ((a ++ [chr ":"]) ++ b) ++ chr "]" :: rest) by (by rewrite Hs2, <- (app_assoc _ b)).
  unfold literal_n. rewrite Hs3, char_at_app by (rewrite !length_app; simpl; lia). cbn [deref].
  change (chr "]" =? chr "]") with true. cbn iota. do 2 f_equal. rewrite !length_app. cbn [length]. rewrite length_app. simpl. lia.
Qed.

Lemma u64_i64 n : 0 <= n <= UINT64_MAX -> u64 (i64 n) = n.
Proof.
  intros Hn. unfold i64. rewrite !(u64_small n) by lia. destruct (Z.leb_spec n INT64_MAX); [by rewrite u64_small|].
  unfold u64. replace (n - 18446744073709551616) with (n + (-1) * 18446744073709551616) by lia.
  rewrite Z.mod_add by done. by apply Z.mod_small; limits; lia.
Qed.

Lemma reads_slice t n m : reads t (print t) -> printable (TSlice t n m) = true -> reads (TSlice t n m) (print (TSlice t n m)).
Proof.
  intros Hr Hb. cbn [printable] in Hb. apply andb_prop in Hb as [[[Hn Hm]%andb_prop Hop]%andb_prop _].
  unfold between in Hn, Hm. cbn [print].
  set (op := print_signed (i64 n) ++ chr ":" :: print_signed m ++ [chr "]"]).
  replace (print t ++ chr "[" :: print_signed (i64 n) ++ chr ":" :: print_signed m ++ [chr "]"; space])
    with (print t ++ (chr "[" :: op) ++ [space])
    by (unfold op; cbn [app]; rewrite <- app_assoc; cbn [app]; by rewrite <- app_assoc).
  apply (reads_operator t _ _ (fun id => EXPR_SLICE id n m)); [done..|intros; by eapply rep_slice|done|done|done|].
  intros pre post l tbl id en He Hd. unfold parse_item. rewrite char_at_app by done. cbn [deref].
  set (value := pre ++ _).
  assert (Hv : value = (pre ++ [chr "["]) ++ print_signed (i64 n) ++ chr ":" :: print_signed m ++ chr "]" :: space :: post).
  { unfold value, op. rewrite at_next. rewrite <- (app_assoc (print_signed (i64 n))). cbn [app]. by rewrite <- (app_assoc (print_signed m)). }
  change (parse_slice value (length pre + 1) (l ++ [id]) tbl = (l ← append_expr (EXPR_SLICE id n m) l;
    mret ((length pre + length (chr "[" :: op))%nat, l)) tbl).
  unfold parse_slice. rewrite (operand_bind _ _ _ _ _ He Hd). rewrite Hv, drop_pre by pos.
  rewrite scan_slice_at by lia. fold op. rewrite u64_i64 by lia. cbn [length].
  by replace (length pre + 1 + length op)%nat with (length pre + S (length op))%nat by lia.
Qed.

(** ** Lists *)

Lemma print_tlist l : print (TList l) = chr "(" :: print_list l ++ [chr ")"; space].
Proof. cbn [print]. f_equal. f_equal. unfold print_list. induction l as [|t l IH]; [done|]. cbn [fmap list_fmap concat]. by rewrite <- IH. Qed.

Lemma list_reads l : Forall (fun t => reads t (print t)) l -> forall pre post acc tbl, table_ok tbl ->
  exists k ids tbl', tbl `prefix_of` tbl' /\ table_ok tbl' /\ node_list tbl' ids l /\
    reaches k (pre ++ print_list l ++ post) (length pre) acc tbl (length pre + length (print_list l)) (acc ++ ids) tbl'.
Proof.
  induction 1 as [|t l Ht _ IH]; intros pre post acc tbl Htbl.
  - exists 0%nat, [], tbl. split; [done|]. split; [done|]. split; [constructor|]. rewrite Nat.add_0_r, app_nil_r.
    apply reaches_refl.
  - change (print_list (t :: l)) with (print t ++ print_list l). rewrite <- (app_assoc (print t)).
    destruct (Ht pre (print_list l ++ post) acc tbl Htbl) as (k1 & id & tbl1 & Hp1 & Ht1 & Hid & Hk1).
    destruct (IH (pre ++ print t) post (acc ++ [id]) tbl1 Ht1) as (k2 & ids & tbl2 & Hp2 & Ht2 & Hids & Hk2).
    exists (k1 + k2)%nat, (id :: ids), tbl2. split; [by etrans|]. split; [done|].
    split; [constructor; [by eapply rep_prefix|done]|]. eapply reaches_trans; [exact Hk1|].
    rewrite length_app in Hk2. rewrite <- !app_assoc in Hk2. cbn [app] in Hk2.
    rewrite length_app, Nat.add_assoc. exact Hk2.
Qed.

Lemma reads_tlist l : Forall (fun t => reads t (print t)) l -> reads (TList l) (print (TList l)).
Proof.
  intros Hl pre post acc tbl Htbl. rewrite print_tlist. set (text := print_list l).
  destruct (list_reads l Hl (pre ++ [chr "("]) (chr ")" :: space :: post) [] tbl Htbl)
    as (k & ids & tbl1 & Hp1 & Ht1 & Hids & Hk). fold text in Hk.
  set (value := pre ++ (chr "(" :: text ++ [chr ")"; space]) ++ post).
  assert (Hv1 : value = (pre ++ [chr "("]) ++ text ++ chr ")" :: space :: post).
  { unfold value. cbn [app]. rewrite <- (app_assoc text). cbn [app]. by rewrite at_next. }
  assert (Hv2 : value = ((pre ++ [chr "("]) ++ text) ++ chr ")" :: space :: post) by (by rewrite Hv1, app_assoc).
  assert (Hv3 : value = (((pre ++ [chr "("]) ++ text) ++ [chr ")"]) ++ space :: post) by (rewrite Hv2; apply at_next).
  rewrite <- Hv1 in Hk. set (close := (length (pre ++ [chr "("]) + length text)%nat) in Hk.
  assert (Hclose : close = length ((pre ++ [chr "("]) ++ text)) by (unfold close; by rewrite (length_app (pre ++ _) text)).
  assert (Hnew : exists id tbl2, new_node (EXPR_LIST ids) tbl1 = Ok (Some id, tbl2) /\
    tbl1 `prefix_of` tbl2 /\ table_ok tbl2 /\ tbl2 !! id = Some (EXPR_LIST ids)).
  { assert (H : pwp (new_node (EXPR_LIST ids)) tbl1 (fun id tbl' => tbl' !! id = Some (EXPR_LIST ids))) by (by apply pwp_new).
    specialize (H Ht1). cbn [new_node] in H |- *. eexists _, _. split; [done|]. exact H. }
  destruct Hnew as (id & tbl2 & Hnew & Hp2 & Ht2 & Hid).
  exists (S (k + 1) + 1)%nat, id, tbl2. split; [by etrans|]. split; [done|].
  split; [eapply rep_list; [done|]; by eapply node_list_prefix|].
  eapply (reaches_trans _ 1 _ _ _ _ (close + 1) (acc ++ [id]) tbl2).
  - intros level [|fuel] Hf; [lia|]. exists fuel. split; [lia|]. cbn [parser].
    assert (Hi : (length pre < length value)%nat) by (unfold value; rewrite !length_app; simpl; lia).
    rewrite (proj2 (Nat.leb_gt _ _) Hi).
    assert (Hc : char_at value (length pre) = chr "(") by (unfold value; by rewrite char_at_app). rewrite Hc.
    change (chr "(" =? chr "(") with true. cbn iota.
    destruct (Hk (S level) fuel) as (fuel' & Hf' & Heq); [lia|]. rewrite length_app in Heq. cbn [length] in Heq.
    destruct fuel' as [|fuel']; [lia|].
    assert (Hsub : parser variable fuel (S level) value (length pre + 1) [] tbl = Ok (Some (id, (close + 1)%nat), tbl2)).
    { rewrite Heq. cbn [parser]. rewrite (proj2 (Nat.leb_gt _ _)) by (rewrite Hv2, Hclose, (length_app (_ ++ text)); simpl; lia).
      assert (Hc2 : char_at value close = chr ")") by (rewrite Hv2; by rewrite char_at_app). rewrite Hc2.
      change (chr ")" =? chr "(") with false. change (chr ")" =? chr ")") with true. cbn iota.
      change (S level <? 1)%nat with false. cbn iota. cbn [app]. unfold mbind, T_bind. by rewrite Hnew. }
    unfold mbind at 1, T_bind at 1. rewrite Hsub. unfold mbind at 1, T_bind at 1, get_node. rewrite Hid.
    reflexivity.
  - replace (length pre + length (chr "(" :: text ++ [chr ")"; space]))%nat with (close + 1 + 1)%nat
      by (unfold close; rewrite !length_app; cbn [length]; rewrite length_app; simpl; lia).
    apply reaches_space.
    + rewrite Hv3, Hclose, !length_app. simpl. lia.
    + rewrite Hv3, char_at_app; [done|]. rewrite Hclose, (length_app (_ ++ text)). done.
Qed.

(** The parser reads every printed expression. *)
Lemma reads_print t : printable t = true -> reads t (print t).
Proof.
  induction t as [|l IH| | | | | | | | | |x t IH|t n IH|t n m IH] using tree_nested_ind; intros Hp; try done.
  - apply reads_tlist. rewrite Forall_forall in IH |- *. intros t Ht. apply IH; [done|]. by eapply forallb_elem.
  - by apply reads_byte.
  - by apply reads_abs.
  - by apply reads_rel.
  - by apply reads_align.
  - by apply reads_file.
  - by apply reads_script.
  - by apply reads_string.
  - by apply reads_name.
  - apply reads_assign; [|done]. apply IH. simpl in Hp. by apply andb_prop in Hp as [_ ?].
  - apply reads_repeat; [|done]. apply IH. simpl in Hp. by apply andb_prop in Hp as [_ ?].
  - apply reads_slice; [|done]. apply IH. simpl in Hp. by apply andb_prop in Hp as [_ ?].
Qed.
End Steps.

(** C21: printing and parsing.  For every list of expressions that the
    syntax can express (bytes, strings, offsets, alignments, files, balanced
    scripts, names, assignments, repetitions, slices with any bounds, and
    nested lists of them), the parser, given enough fuel, reads its printed
    form back: it returns a node that stands for exactly that list. *)
Theorem parser_print_roundtrip variable l : Forall (fun t => printable t = true) l ->
  exists fuel0 root i tbl, rep tbl root (TList l) /\ tbl !! 0%nat = Some EXPR_NULL /\
    forall fuel, (fuel0 <= fuel)%nat ->
      parser variable fuel 0 (print_list l) 0 [] [] = Ok (Some (root, i), tbl).
Proof.
  intros Hl. destruct (list_reads variable l) with (pre := @nil Z) (post := @nil Z) (acc := @nil node_id) (tbl := @nil expr)
    as (k & ids & tbl1 & Hp1 & Ht1 & Hids & Hk).
  { eapply Forall_impl; [exact Hl|]. intros t. apply reads_print. }
  { by left. }
  rewrite app_nil_r in Hk. cbn [app length Nat.add] in Hk.
  assert (H : pwp (new_node (EXPR_LIST ids)) tbl1 (fun id tbl' => has_null tbl' /\ tbl' !! id = Some (EXPR_LIST ids))) by (by apply pwp_new).
  specialize (H Ht1). cbn [new_node] in H. destruct H as (Hp2 & _ & Hn & Hid).
  exists (S k), (length (match tbl1 with [] => [EXPR_NULL] | _ => tbl1 end)), (length (print_list l)), (match tbl1 with [] => [EXPR_NULL] | _ => tbl1 end ++ [EXPR_LIST ids]).
  split; [eapply rep_list; [exact Hid|]; by eapply node_list_prefix|]. split; [exact Hn|].
  intros fuel Hf. destruct (Hk 0%nat fuel) as (fuel' & Hf' & ->); [lia|]. destruct fuel' as [|fuel']; [lia|].
  cbn [parser]. by rewrite (proj2 (Nat.leb_le _ _) (le_n _)).
Qed.

Definition sample_list : list tree :=
  [TAssign (chars "x") (TByte 1); TRepeat (TList [TName (chars "x"); TString [97; 34; 0]]) 2; TRel (-1); TAlign 8;
   TFile (chars "/etc/motd"); TScript (chars "echo (a)"); TSlice (TString [1; 2; 3]) 1 (-1)].

Lemma parser_print_roundtrip_witness :
  exists fuel0 root i tbl, rep tbl root (TList sample_list) /\ tbl !! 0%nat = Some EXPR_NULL /\
    forall fuel, (fuel0 <= fuel)%nat ->
      parser (fun _ => None) fuel 0 (print_list sample_list) 0 [] [] = Ok (Some (root, i), tbl).
Proof. apply (parser_print_roundtrip (fun _ => None) sample_list). by repeat constructor. Defined.

(** What is printed. *)
Example print_sample : print_list sample_list =
  chars "1 ->\x (\x " ++ dquote :: chars "a\" ++ dquote :: chars "\x00" ++ dquote :: chars " ) *2 @-1 @^8 </etc/motd <(echo (a)) " ++
  dquote :: chars "\x01\x02\x03" ++ dquote :: chars " [1:-1] ".
Proof. vm_compute. reflexivity. Qed.
