(* ===== verification/Data.v ===== *)
(** * The data plugin

    Models [plugins/data/data.c]: the parameters, and [data_get_ready],
    which fills the allocator from raw, base64 or formatted data; the
    callbacks are those of the memory plugin, but for [data_trim].  The data
    format itself is in [DataFormat] to [DataPrint]. *)

From Stdlib Require Import Ascii String.
From S2P Require Import Prelude NbdProtocol Extents Exports Server Connections Backend Plugin Filter Parse Bytes Vector Protocol Layer Allocators Sparse Serve Memory DataFormat DataEval DataSem DataLaws DataOptim DataParse DataRun DataFuel.

#[local] Open Scope Z_scope.

(** ** State *)

Inductive seen : Type := NOT_SEEN | RAW | BASE64 | DATA.

#[global] Instance seen_eq_dec : EqDecision seen.
Proof. solve_decision. Defined.

(** The globals; an allocation failure in [data_config] is not modelled. *)
Record data_state {S : Type} : Type := DataState {
  data_seen : seen;
  data_param : list Z;
  data_size : Z;
  data_a : option S;
  data_allocator_type : list Z;
  data_params : list (list Z * list Z);
}.
Arguments data_state : clear implicits.
Arguments DataState {S}.

Section Data.
Context {S : Type} (f : allocator_functions S) (create_allocator : list Z -> AM (option S)).
Context (fopen popen : list Z -> option stream) (getenv : list Z -> option (list Z)).
(* gnutls_base64_decode2, [None] where it fails or is not available *)
Context (base64_decode : list Z -> option (list Z)).

Definition data_loaded : data_state S := DataState NOT_SEEN [] (-1) None default_allocator [].

(** ** Configuration *)

Definition key_raw : list Z := chars "raw".
Definition key_base64 : list Z := chars "base64".
Definition key_data : list Z := chars "data".

Definition set_data (how : seen) (value : list Z) (st : data_state S) : Z * data_state S :=
  if bool_decide (data_seen st = NOT_SEEN)
  then (0, DataState how value (data_size st) (data_a st) (data_allocator_type st) (data_params st))
  else (-1, st).

Definition data_config (key value : list Z) (st : data_state S) : Z * data_state S :=
  if strcmp_eq key key_size then
    let r := nbdkit_parse_size value in
    if r =? -1 then (-1, st)
    else (0, DataState (data_seen st) (data_param st) r (data_a st) (data_allocator_type st) (data_params st))
  else if strcmp_eq key key_allocator then
    (0, DataState (data_seen st) (data_param st) (data_size st) (data_a st) value (data_params st))
  else if strcmp_eq key key_raw then set_data RAW value st
  else if strcmp_eq key key_base64 then set_data BASE64 value st
  else if strcmp_eq key key_data then set_data DATA value st
  else (0, DataState (data_seen st) (data_param st) (data_size st) (data_a st) (data_allocator_type st)
             (data_params st ++ [(key, value)])).

Fixpoint get_extra_param (params : list (list Z * list Z)) (name : list Z) : option (list Z) :=
  match params with
  | [] => None
  | (key, value) :: params => if strcmp_eq key name then Some value else get_extra_param params name
  end.

(** What a [$VAR] stands for. *)
Definition data_variable (st : data_state S) (name : list Z) : option (list Z) :=
  match get_extra_param (data_params st) name with
  | Some value => Some value
  | None => getenv name
  end.

Definition data_config_complete (st : data_state S) : Z :=
  if bool_decide (data_seen st = NOT_SEEN) then -1
  else if (bool_decide (data_seen st <> DATA) && negb (Z.of_nat (length (data_params st)) =? 0))%bool then -1
  else 0.

(** ** Getting ready *)

Definition read_base64 (a : S) (value : list Z) : AM (Z * S * Z) :=
  match base64_decode value with
  | None => mret (-1, a, 0)
  | Some out =>
      '(r, a) ← af_write f a out (Z.of_nat (length out)) 0;
      mret (if r =? -1 then -1 else 0, a, if r =? -1 then 0 else Z.of_nat (length out))
  end.

Definition with_a (st : data_state S) (a : option S) (size : Z) : data_state S :=
  DataState (data_seen st) (data_param st) size a (data_allocator_type st) (data_params st).

Definition data_get_ready (fuel : nat) (st : data_state S) : AM (Z * data_state S) :=
  a ← create_allocator (data_allocator_type st);
  match a with
  | None => mret (-1, with_a st None (data_size st))
  | Some a =>
      '(r, a, size) ← (match data_seen st with
        | RAW =>
            let len := Z.of_nat (length (data_param st)) in
            '(r, a) ← af_write f a (data_param st) len 0; mret (r, a, len)
        | BASE64 => read_base64 a (data_param st)
        | DATA => read_data_format f (create_allocator default_allocator) fopen popen (data_variable st) fuel (data_param st) a 0
        | NOT_SEEN => hfail AssertFailed
        end);
      if r =? -1 then mret (-1, with_a st (Some a) (data_size st))
      else
        let size := if data_size st =? -1 then i64 size else data_size st in
        '(r, a) ← af_set_size_hint f a size;
        mret (if r =? -1 then -1 else 0, with_a st (Some a) size)
  end.

(** ** Callbacks

    [data_open] to [data_extents] have the bodies of the memory plugin's,
    but [data_trim] returns the result of zeroing. *)

Section Callbacks.
Context (alloc_errno : Z) {W : Type} (get : W -> data_state S * list bool) (set : data_state S * list bool -> W -> W).

(** The part of the globals that the callbacks use. *)
Definition get_memory (w : W) : memory_state S :=
  MemoryState (data_size (get w).1) (data_a (get w).1) (data_allocator_type (get w).1) (get w).2.
Definition put_memory (m : memory_state S) (w : W) : W :=
  set (with_a (get w).1 (mem_a m) (mem_size m), mem_allocs m) w.

Definition data_pread := memory_pread f alloc_errno get_memory put_memory.
Definition data_pwrite := memory_pwrite f alloc_errno get_memory put_memory.
Definition data_zero := memory_zero f alloc_errno get_memory put_memory.
Definition data_extents := memory_extents f alloc_errno get_memory put_memory.
Definition data_get_size := memory_get_size get_memory.
Definition data_block_size := memory_block_size f get_memory.

Definition data_trim (handle count offset flags : Z) : cb W Z :=
  cb_assert (clear flags NBDKIT_FLAG_FUA =? 0)
    (with_allocator' alloc_errno get_memory put_memory (fun a => af_zero f a count offset)).

Definition data_open (readonly : bool) : cb W Z := memory_open readonly.
Definition data_can_fua (handle : Z) : cb W Z := memory_can_fua handle.
Definition data_can_multi_conn (handle : Z) : cb W Z := memory_can_multi_conn handle.
Definition data_can_cache (handle : Z) : cb W Z := memory_can_cache handle.
Definition data_can_fast_zero (handle : Z) : cb W Z := memory_can_fast_zero handle.
Definition data_flush (handle flags : Z) : cb W Z := memory_flush handle flags.

Definition data_plugin : nbdkit_plugin W :=
  Plugin 2 1 None None data_open None None data_get_size (Some data_block_size)
    None None None None None (Some data_can_fast_zero) None (Some data_can_fua)
    (Some data_can_multi_conn) (Some data_can_cache)
    (Some data_pread) None (Some data_pwrite) None (Some data_flush) None
    (Some data_trim) None (Some data_zero) None (Some data_extents) None.
End Callbacks.
End Data.

(** ** Formatted data *)

Section Ready.
Context {S : Type} (f : allocator_functions S) (inv : S -> Prop) (view : S -> Z -> Z).
Context (Hspec : AllocatorSpec f inv view INT64_MAX).
Context (create_allocator : AM (option S)).
Context (Hcreate : awp create_allocator (fun a => exists a', a = Some a' /\ inv a' /\ forall x, view a' x = 0)).
Context (fopen popen : list Z -> option stream) (variable : list Z -> option (list Z)).

(** What the parser made of a text stands for a well-formed expression. *)
Lemma parsed_well_formed text fuel root i tbl : Acc (expands variable) text ->
  parser variable fuel 0 text 0 [] [] = Ok (Some (root, i), tbl) ->
  has_null tbl /\ exists t, rep tbl root t /\ wf_tree t.
Proof.
  intros Hacc Hparse. destruct (parser_terminates variable text Hacc) as (f0 & Hf0).
  specialize (Hf0 (Nat.max f0 fuel) 0%nat ltac:(lia) 0%nat [] [] (good_list_nil []) (or_introl eq_refl)).
  pose proof (le_parser variable fuel (Nat.max f0 fuel) 0 text 0 [] ltac:(lia)) as Hle.
  rewrite (T_le_eq _ _ _ _ Hle Hparse) in Hf0. destruct Hf0 as (_ & _ & _ & Hn & ts & Hr & Hw). eauto.
Qed.

(** An expression in the table stands for one tree. *)
Lemma rep_unique tbl id t : rep tbl id t -> forall t', rep tbl id t' -> t' = t.
Proof.
  revert id. induction t as [|l IH| | | | | | | | | |x t IH|t n IH|t n m IH] using tree_nested_ind;
    intros id Hr t' Hr'; inversion Hr; subst; inversion Hr'; subst; simplify_eq; try done; f_equal; try (by eapply IH).
  match goal with H1 : Forall2 (rep tbl) ?l ?a, H2 : Forall2 (rep tbl) ?l ?b |- _ =>
    revert IH H1 H2; clear; intros IH H1; revert b; induction H1 as [|id t l l' Hid _ IHl]; intros b H2;
      inversion H2; subst; [done|]; apply Forall_cons in IH as [IH1 IH2]; f_equal; [by eapply IH1|by apply IHl] end.
Qed.

Lemma read_data_format_ok text fuel0 root i tbl t v : Acc (expands variable) text ->
  parser variable fuel0 0 text 0 [] [] = Ok (Some (root, i), tbl) -> rep tbl root t ->
  regular t = true -> reps t <= UINT64_MAX -> value fopen popen t [] = Some v ->
  exists fuel1, forall fuel a, (fuel1 <= fuel)%nat -> inv a -> (forall x, view a x = 0) ->
    awp (read_data_format f create_allocator fopen popen variable fuel text a 0)
      (fun '(r, a', size) => r = 0 /\ holds inv view a' v /\ size = Z.of_nat (length v)).
Proof.
  intros Hacc Hparse Hr Hreg Hreps Hv.
  destruct (parsed_well_formed _ _ _ _ _ Hacc Hparse) as (Hn & t0 & Hr0 & Hw).
  rewrite (rep_unique _ _ _ Hr _ Hr0) in *. clear t0 Hr0.
  destruct (twp_optimize_ast fopen popen t Hw Hreg (height t) (le_n _) tbl root Hn Hr) as (r & tbl' & Hopt & Hp & HQ).
  destruct r as [root'|]; [|lia]. destruct HQ as (t' & Hr' & Ho).
  assert (Hv' : value fopen popen t' [] = Some v) by (eapply refines_value; [apply (opt_refines _ _ _ _ Ho)|reflexivity|done]).
  destruct (specs f inv view _ create_allocator Hcreate fopen popen tbl' t') as [_ Hs].
  { by apply no_whole_slice_script, (opt_whole _ _ _ _ Ho), regular_whole. }
  destruct (Hs root' [] [] v Hr' (opt_wf _ _ _ _ Ho) (dict_nil _ _ _ _ _ _ _) Hv') as (f2 & Hf2).
  exists (Nat.max fuel0 (Nat.max (height t) f2)). intros fuel a Hf Ha Hz. unfold read_data_format.
  assert (Hboth : ('(root, _) ← parser variable fuel 0 text 0 []; optimize_ast fuel root) [] = Ok (Some root', tbl')).
  { unfold mbind, T_bind. rewrite (T_le_eq _ _ _ _ (le_parser variable fuel0 fuel 0 text 0 [] ltac:(lia)) Hparse).
    by apply (T_le_eq _ _ _ _ (le_optimize_ast (height t) fuel root ltac:(lia))). }
  rewrite Hboth. eapply awp_bind; [apply (Hf2 fuel a); [lia|done|done]|].
  intros [[[r a'] off] size] (-> & Ha' & ->). by apply awp_ret.
Qed.
End Ready.

(** C2: the data plugin serves the data.  When the plugin was configured
    with [data=TEXT], the parser accepts the text as the expression [t] (with
    whatever parameters it refers to, as long as they do not refer to
    themselves), [t] is [regular], and the meaning of [t] is the bytes [v],
    then [data_get_ready], given enough fuel and memory, returns 0 without
    failed assertions or crashes; the disk is [v], followed by zeroes, and its
    size is the [size] parameter, or that of [v] if there was none.

    [regular] leaves out the expressions which the plugin gets wrong: a
    repeated assignment or offset ([repeat_of_assignment_leaks]), a slice
    whose end is below -1, and the slice of the whole output of a script
    ([whole_script_slice]); [reps] bounds the product of nested repetition
    counts, whose overflow the plugin reports as an error.  Every allocation
    succeeds: the hypotheses on the allocator say so. *)
Theorem data_get_ready_correct {S} (f : allocator_functions S) inv view `{!AllocatorSpec f inv view INT64_MAX}
    create_allocator fopen popen getenv base64_decode st fuel0 root i tbl t v :
  (forall type, type = data_allocator_type st \/ type = default_allocator ->
    awp (create_allocator type) (fun a => exists a', a = Some a' /\ inv a' /\ forall x, view a' x = 0)) ->
  (forall a size, inv a -> awp (af_set_size_hint f a size) (fun '(r, a') =>
    r = 0 /\ inv a' /\ forall x, view a' x = view a x)) ->
  data_seen st = DATA ->
  Acc (expands (data_variable getenv st)) (data_param st) ->
  parser (data_variable getenv st) fuel0 0 (data_param st) 0 [] [] = Ok (Some (root, i), tbl) ->
  rep tbl root t -> regular t = true -> reps t <= UINT64_MAX -> value fopen popen t [] = Some v ->
  exists fuel1, forall fuel, (fuel1 <= fuel)%nat -> exists a,
    data_get_ready f create_allocator fopen popen getenv base64_decode fuel st [] =
      Ok (0, with_a st (Some a) (if data_size st =? -1 then Z.of_nat (length v) else data_size st), []) /\
    inv a /\ forall x, 0 <= x -> view a x = nth (Z.to_nat x) v 0.
Proof.
  intros Hc Hh Hseen Hacc Hparse Hr Hreg Hreps Hv.
  destruct (read_data_format_ok f inv view _ (create_allocator default_allocator) (Hc _ (or_intror eq_refl))
    fopen popen _ _ _ _ _ _ _ _ Hacc Hparse Hr Hreg Hreps Hv) as (f1 & Hf1).
  assert (Hlen : Z.of_nat (length v) <= INT64_MAX).
  { destruct (parsed_well_formed _ _ _ _ _ _ Hacc Hparse) as (_ & t0 & Hr0 & Hw).
    rewrite (rep_unique _ _ _ Hr _ Hr0) in *. by eapply value_bound. }
  exists f1. intros fuel Hf.
  assert (H : awp (data_get_ready f create_allocator fopen popen getenv base64_decode fuel st) (fun '(r, st') =>
    exists a, r = 0 /\ st' = with_a st (Some a) (if data_size st =? -1 then Z.of_nat (length v) else data_size st) /\
      holds inv view a v)).
  { unfold data_get_ready. eapply awp_bind; [apply Hc; by left|]. intros ? (a & -> & Ha & Hz). cbn iota.
    rewrite Hseen. eapply awp_bind; [by apply Hf1|]. intros [[r a'] size] (-> & [Ha' Hv'] & ->).
    change (0 =? -1) with false. cbn iota. rewrite i64_small by lia.
    eapply awp_bind; [by apply Hh|]. intros [r a2] (-> & Ha2 & Hv2). apply awp_ret. exists a2.
    split; [done|]. split; [done|]. split; [done|]. intros x Hx. by rewrite Hv2, Hv'. }
  destruct (awp_ok _ _ H) as ([r st'] & E & a & -> & -> & Ha & Hview). eauto.
Qed.

(** ** Examples *)

Lemma awp_sparse_create : awp (sparse_array_create 0) (fun a => exists a', a = Some a' /\ sa_wf a' /\ forall x, sa_view a' x = 0).
Proof. apply hwp_bind. cbn. split; [done|]. eexists. split; [done|]. apply sparse_array_fresh. Qed.

Definition no_parameters (name : list Z) : option (list Z) := None.
Definition no_stream (name : list Z) : option stream := None.

Lemma no_parameters_acc text : Acc (expands no_parameters) text.
Proof. constructor. intros content [i Hi]. destruct (get_var text i). by destruct Hi. Qed.

Definition parse_text (text : list Z) : outcome (option (node_id * nat) * table) :=
  parser no_parameters 100 0 text 0 [] [].

Definition parsed_text (text : list Z) : node_id * table :=
  match parse_text text with Ok (Some (root, _), tbl) => (root, tbl) | _ => (0%nat, []) end.

Definition sample_text : list Z := chars "1 -> \x (\x 2)*2 @+1 (7 8 9)[1:2]".

Definition sample_tree : tree :=
  TList [TAssign (chars "x") (TByte 1); TRepeat (TList [TName (chars "x"); TByte 2]) 2; TRel 1;
    TSlice (TList [TByte 7; TByte 8; TByte 9]) 1 2].

Ltac solve_rep :=
  repeat match goal with
  | |- Forall2 _ _ _ => constructor
  | |- rep _ _ (TList _) => eapply rep_list; [vm_compute; reflexivity|]
  | |- rep _ _ (TAssign _ _) => eapply rep_assign; [vm_compute; reflexivity|]
  | |- rep _ _ (TRepeat _ _) => eapply rep_repeat; [vm_compute; reflexivity|]
  | |- rep _ _ (TSlice _ _ _) => eapply rep_slice; [vm_compute; reflexivity|]
  | |- rep _ _ (TByte _) => apply rep_byte; vm_compute; reflexivity
  | |- rep _ _ (TName _) => apply rep_name; vm_compute; reflexivity
  | |- rep _ _ (TRel _) => apply rep_rel; vm_compute; reflexivity
  end.

Lemma sample_rep : rep (parsed_text sample_text).2 (parsed_text sample_text).1 sample_tree.
Proof.
  unfold sample_tree. solve_rep.
Qed.

Definition sample_state : data_state sparse_array :=
  DataState DATA sample_text (-1) None default_allocator [].

Lemma data_get_ready_correct_witness :
  exists fuel1, forall fuel, (fuel1 <= fuel)%nat -> exists a,
    data_get_ready sparse_functions (fun _ => sparse_array_create 0) no_stream no_stream no_parameters no_parameters
      fuel sample_state [] = Ok (0, with_a sample_state (Some a) 6, []) /\
    sa_wf a /\ forall x, 0 <= x -> sa_view a x = nth (Z.to_nat x) [1; 2; 1; 2; 0; 8] 0.
Proof.
  apply (data_get_ready_correct sparse_functions sa_wf sa_view (AllocatorSpec0 := sparse_spec) (fun _ => sparse_array_create 0) no_stream no_stream
    no_parameters no_parameters sample_state 100 (parsed_text sample_text).1 (length sample_text) (parsed_text sample_text).2 sample_tree [1; 2; 1; 2; 0; 8]).
  - intros type _. apply awp_sparse_create.
  - intros a size Ha. by apply awp_ret.
  - done.
  - apply no_parameters_acc.
  - by vm_compute.
  - apply sample_rep.
  - done.
  - by vm_compute.
  - by vm_compute.
Defined.

(** ** Defects *)

(** What the sparse allocator holds after [read_data_format]: the result,
    the size and the first bytes. *)
Definition read_text (text : list Z) (n : Z) : option (Z * Z * list Z) :=
  match read_data_format sparse_functions (sparse_array_create 0) no_stream no_stream no_parameters 100 text
    (SparseArray empty_vector) 0 [] with
  | Ok ((r, a, size), _) => match af_read sparse_functions a n 0 [] with Ok ((_, buf), _) => Some (r, size, buf) | _ => None end
  | _ => None
  end.

Definition leak_text : list Z := chars "2 -> \x 1 -> \x *1 \x".

Definition leak_tree : tree :=
  TList [TAssign (chars "x") (TByte 2); TRepeat (TAssign (chars "x") (TByte 1)) 1; TName (chars "x")].

(** the optimizer changes the data.  It replaces a repetition of 1 by
    what is repeated, even when that is an assignment, which then escapes
    from its scope: in [2 -> \x 1 -> \x*1 \x] the last name stands for 2,
    but the plugin serves the byte 1. *)
Lemma repeat_of_assignment_leaks :
  exists root i tbl, parse_text leak_text = Ok (Some (root, i), tbl) /\ rep tbl root leak_tree /\
    value no_stream no_stream leak_tree [] = Some [2] /\ read_text leak_text 1 = Some (0, 1, [1]).
Proof.
  exists (parsed_text leak_text).1, (length leak_text), (parsed_text leak_text).2.
  split; [by vm_compute|]. split; [unfold leak_tree; solve_rep|]. split; by vm_compute.
Qed.

(** A slice without its bracket: the number of characters is used although
    [sscanf] has not set it. *)
Example unterminated_slice : parse_text (chars "(1 2)[1:2") = Crash Undefined /\ parse_text (chars "(1 2)[1]") = Crash Undefined.
Proof. by vm_compute. Qed.

(** [le16:] takes everything up to white space. *)
Example word_in_parentheses :
  match parse_text (chars "(le16:5)") with Ok (None, _) => True | _ => False end /\
  read_text (chars "(le16:5 )") 2 = Some (0, 2, [5; 0]).
Proof. by vm_compute. Qed.

(** Slices that are out of range are accepted by the optimizer, although the
    evaluator would reject them. *)
Example invalid_slices :
  read_text (chars "7[5:1]") 1 = Some (0, 1, [7]) /\ value no_stream no_stream (TSlice (TByte 7) 5 1) [] = None /\
  read_text (chars "7[2:2]") 1 = Some (0, 0, [0]) /\ value no_stream no_stream (TSlice (TByte 7) 2 2) [] = None.
Proof. by vm_compute. Qed.

(** [<(SCRIPT)[:]] stores nothing, although it stands for the whole output. *)
Definition echo (script : list Z) : option stream := Some (Stream [104; 105] false 0).

Example whole_script_slice :
  match read_data_format sparse_functions (sparse_array_create 0) no_stream echo no_parameters 100
    (chars "<(echo hi)[:]") (SparseArray empty_vector) 0 [] with
  | Ok ((r, _, size), _) => r = 0 /\ size = 0
  | Crash _ => False
  end /\
  value no_stream echo (TSlice (TScript (chars "echo hi")) 0 (-1)) [] = Some [104; 105].
Proof. by vm_compute. Qed.
