(* ===== verification/Regions.v ===== *)
(** * Regions

    Models [common/regions]: the layout of a virtual disk as an array of
    contiguous regions, with padding where alignment asks for it, and the
    search for the region that contains an offset.  [D] is the type of
    pointers to the data of a region ([u.data]). *)

From S2P Require Import Prelude NbdProtocol Extents Exports Server Connections Backend Plugin Bytes Vector.

(** [s] rounded up to a multiple of [alignment], if there is one. *)
Definition padded (s alignment : Z) : Z :=
  if (alignment =? 0) || (s mod alignment =? 0) then s else s + (alignment - s mod alignment).

Definition alignment_ok (a : Z) : Prop := a = 0 \/ exists n, 0 <= n <= 62 /\ a = 2 ^ n.

Lemma padded_spec s a : 0 <= s -> alignment_ok a -> a <> 0 -> s <= padded s a < s + a /\ (a | padded s a).
Proof.
  intros Hs [->|(n & Hn & ->)] Ha; [done|]. pose proof (Z.mod_pos_bound s (2 ^ n) ltac:(lia)).
  unfold padded. rewrite (proj2 (Z.eqb_neq (2 ^ n) 0)) by done. simpl.
  destruct (Z.eqb_spec (s mod 2 ^ n) 0) as [E|E]; [split; [lia|by apply Z.mod_divide]|]. split; [lia|].
  exists (s / 2 ^ n + 1). rewrite Z.mod_eq by lia. lia.
Qed.

Lemma padded_0 s : padded s 0 = s.
Proof. done. Qed.

Lemma padded_mono s a : 0 <= s -> alignment_ok a -> s <= padded s a.
Proof.
  intros Hs Ha. destruct (decide (a = 0)) as [-> |Hne]; [by rewrite padded_0|]. by apply padded_spec.
Qed.

Section Regions.
Context {D : Type}.

(** ** Data and operations *)

Inductive region_type : Type :=
| region_file (i : Z)
| region_data (data : D)
| region_zero.

(** [description] is only for debugging. *)
Record region : Type := Region {
  r_start : Z;
  r_len : Z;
  r_end : Z;
  r_type : region_type;
}.

Definition regions : Type := vector region.
Definition sizeof_region : Z := 48.

Definition init_regions : regions := empty_vector.
Definition nr_regions (rs : regions) : Z := v_len rs.

Definition virtual_size (rs : regions) : Z :=
  match last (v_items rs) with
  | None => 0
  | Some r => i64 (r_end r + 1)
  end.

Definition compare_offset (offset : Z) (r : region) : Z :=
  if offset <? r_start r then -1 else if r_end r <? offset then 1 else 0.

Definition find_region (rs : regions) (offset : Z) : option region :=
  match vector_search rs (compare_offset offset) with
  | None => None
  | Some i => v_items rs !! i
  end.

Definition append_one_region (rs : regions) (r : region) : AM (Z * regions) :=
  hassert (r_start r =? u64 (virtual_size rs));;
  hassert (0 <? r_len r);;
  hassert (r_start r <=? r_end r);;
  hassert (r_len r =? u64 (r_end r - r_start r + 1));;
  vector_append sizeof_region rs r.

(** [IS_ALIGNED], at type [uint64_t]. *)
Definition is_aligned64 (size align : Z) : AM bool :=
  hassert (is_power_of_2 align);;
  mret (Z.land size (u64 (align - 1)) =? 0).

Definition append_padding (rs : regions) (alignment : Z) : AM (Z * regions) :=
  hassert (is_power_of_2 alignment);;
  let start := u64 (virtual_size rs) in
  aligned ← is_aligned64 start alignment;
  if aligned : bool then mret (0, rs)
  else
    let end_ := u64 (Z.land start (u64 (Z.lnot (alignment - 1))) + alignment - 1) in
    append_one_region rs (Region start (u64 (end_ - start + 1)) end_ region_zero).

(** The padding on one side of a region, if an alignment is given, and the
    check of the result. *)
Definition append_alignment (rs : regions) (alignment : Z) : AM (Z * regions) :=
  if negb (alignment =? 0) then
    '(r, rs) ← append_padding rs alignment;
    if r =? -1 then mret (-1, rs)
    else
      aligned ← is_aligned64 (u64 (virtual_size rs)) alignment;
      hassert aligned;;
      mret (0, rs)
  else mret (0, rs).

(** [append_region_va]; the variable argument is part of [type]. *)
Definition append_region_va (rs : regions) (len pre_alignment post_alignment : Z) (type : region_type)
    : AM (Z * regions) :=
  '(r, rs) ← append_alignment rs pre_alignment;
  if r =? -1 then mret (-1, rs)
  else
    let start := u64 (virtual_size rs) in
    '(r, rs) ← append_one_region rs (Region start len (u64 (start + len - 1)) type);
    if r =? -1 then mret (-1, rs) else append_alignment rs post_alignment.

Definition append_region_len := append_region_va.

Definition append_region_end (rs : regions) (end_ pre_alignment post_alignment : Z) (type : region_type)
    : AM (Z * regions) :=
  append_region_va rs (u64 (end_ - virtual_size rs + 1)) pre_alignment post_alignment type.

(** ** The invariant *)

(** The regions follow each other from [s] on, *)
Fixpoint contiguous (s : Z) (l : list region) : Prop :=
  match l with
  | [] => True
  | r :: l => r_start r = s /\ 0 < r_len r /\ r_end r = s + r_len r - 1 /\ contiguous (s + r_len r) l
  end.

(** and end before [regions_end]. *)
Fixpoint regions_end (s : Z) (l : list region) : Z :=
  match l with
  | [] => s
  | r :: l => regions_end (s + r_len r) l
  end.

(** There are few enough of them for their array. *)
Definition MAX_REGIONS : Z := 2 ^ 50.

Definition regions_wf (rs : regions) : Prop :=
  vector_wf rs /\ v_cap rs <= 2 * (v_len rs + 1) /\
  contiguous 0 (v_items rs) /\ regions_end 0 (v_items rs) <= INT64_MAX.

Definition region_size (rs : regions) : Z := regions_end 0 (v_items rs).

(** What is appended at [s]. *)
Definition padding (s alignment : Z) : list region :=
  if (alignment =? 0) || (s mod alignment =? 0) then []
  else [Region s (alignment - s mod alignment) (s + (alignment - s mod alignment) - 1) region_zero].

Definition placed (s len pre post : Z) (type : region_type) : list region :=
  let s1 := padded s pre in
  padding s pre ++ Region s1 len (s1 + len - 1) type :: padding (s1 + len) post.

Lemma contiguous_app s l1 l2 : contiguous s (l1 ++ l2) <-> contiguous s l1 /\ contiguous (regions_end s l1) l2.
Proof.
  revert s. induction l1 as [|r l1 IH]; intros s; simpl; [tauto|]. rewrite IH. tauto.
Qed.

Lemma regions_end_app s l1 l2 : regions_end s (l1 ++ l2) = regions_end (regions_end s l1) l2.
Proof. revert s. induction l1 as [|r l1 IH]; intros s; simpl; auto. Qed.

Lemma regions_end_le s l : contiguous s l -> s + Z.of_nat (length l) <= regions_end s l.
Proof.
  revert s. induction l as [|r l IH]; intros s; [simpl; lia|]. intros (_ & Hl & _ & Hc).
  specialize (IH _ Hc). cbn [regions_end length]. lia.
Qed.

Lemma contiguous_last s l r : contiguous s l -> last l = Some r -> r_end r + 1 = regions_end s l.
Proof.
  revert s. induction l as [|r0 l IH]; intros s; [done|]. intros (Hs & Hl & He & Hc) Hr.
  destruct l as [|r1 l]; [simplify_eq/=; lia|]. apply (IH _ Hc). exact Hr.
Qed.

(** Where a region lies. *)
Lemma contiguous_lookup l : forall s i r, contiguous s l -> l !! i = Some r ->
  s <= r_start r /\ r_start r < r_start r + r_len r <= regions_end s l /\ r_end r = r_start r + r_len r - 1.
Proof.
  induction l as [|r0 l IH]; intros s i r; [done|]. intros (Hs & Hl & He & Hc).
  pose proof (regions_end_le _ _ Hc). destruct i as [|i]; simpl.
  - intros [= <-]. lia.
  - intros Hi. destruct (IH _ _ _ Hc Hi) as (? & ? & ?). lia.
Qed.

Lemma contiguous_ordered l : forall s i j x y, contiguous s l -> (i < j)%nat -> l !! i = Some x -> l !! j = Some y ->
  r_end x < r_start y.
Proof.
  induction l as [|r0 l IH]; intros s i j x y; [done|]. intros (Hs & Hl & He & Hc) Hij Hi Hj.
  destruct j as [|j]; [lia|]. simpl in Hj. destruct i as [|i]; simpl in Hi.
  - simplify_eq. destruct (contiguous_lookup _ _ _ _ Hc Hj) as (? & _). lia.
  - eapply IH; [exact Hc| |done|done]. lia.
Qed.

(** Every offset is in a region. *)
Lemma contiguous_covers l : forall s x, contiguous s l -> s <= x < regions_end s l ->
  exists i r, l !! i = Some r /\ r_start r <= x <= r_end r.
Proof.
  induction l as [|r l IH]; intros s x; simpl; [lia|]. intros (Hs & Hl & He & Hc) Hx.
  destruct (decide (x < s + r_len r)).
  - exists 0%nat, r. split; [done|lia].
  - destruct (IH (s + r_len r) x Hc ltac:(lia)) as (i & r' & ? & ?). by exists (S i), r'.
Qed.

(** The region that contains an offset is unique. *)
Lemma contiguous_unique s l i j x r r' :
  contiguous s l -> l !! i = Some r -> l !! j = Some r' ->
  r_start r <= x <= r_end r -> r_start r' <= x <= r_end r' -> i = j /\ r = r'.
Proof.
  intros Hc Hi Hj Hx Hx'. destruct (lt_eq_lt_dec i j) as [[Hlt|<-]|Hlt].
  - pose proof (contiguous_ordered _ _ _ _ _ _ Hc Hlt Hi Hj). lia.
  - split; [done|congruence].
  - pose proof (contiguous_ordered _ _ _ _ _ _ Hc Hlt Hj Hi). lia.
Qed.

Lemma region_size_virtual rs : regions_wf rs -> virtual_size rs = region_size rs /\ 0 <= region_size rs <= INT64_MAX.
Proof.
  intros (_ & _ & Hc & Hm). unfold virtual_size, region_size. pose proof (regions_end_le _ _ Hc).
  split; [|lia]. destruct (last (v_items rs)) as [r|] eqn:E.
  - rewrite (contiguous_last _ _ _ Hc E). apply i64_small. lia.
  - apply last_None in E. by rewrite E.
Qed.

Lemma init_regions_wf : regions_wf init_regions.
Proof. unfold regions_wf, vector_wf, v_len. simpl. limits. lia. Qed.

(** ** Searching *)

Lemma compare_offset_ordered l s x : contiguous s l -> ordered_for (compare_offset x) l.
Proof.
  intros Hc i j r r' Hij Hi Hj. pose proof (contiguous_ordered _ _ _ _ _ _ Hc Hij Hi Hj).
  destruct (contiguous_lookup _ _ _ _ Hc Hi) as (_ & ? & ?). destruct (contiguous_lookup _ _ _ _ Hc Hj) as (_ & ? & ?).
  unfold compare_offset. destruct (Z.ltb_spec x (r_start r)), (Z.ltb_spec x (r_start r')),
    (Z.ltb_spec (r_end r) x), (Z.ltb_spec (r_end r') x); lia.
Qed.

(** The search finds the region of every offset up to the end of the regions. *)
Lemma find_region_contiguous rs x :
  contiguous 0 (v_items rs) -> 0 <= x < region_size rs ->
  exists i r, v_items rs !! i = Some r /\ find_region rs x = Some r /\ r_start r <= x <= r_end r.
Proof.
  intros Hc Hx. destruct (contiguous_covers _ _ _ Hc Hx) as (j & r & Hj & Hr).
  pose proof (vector_search_spec (compare_offset x) rs (compare_offset_ordered _ _ x Hc)) as Hs.
  unfold find_region. destruct (vector_search _ _) as [i|].
  - destruct Hs as (r' & Hi & Hcmp). exists i, r'. split; [done|]. split; [done|].
    unfold compare_offset in Hcmp. destruct (Z.ltb_spec x (r_start r')), (Z.ltb_spec (r_end r') x); lia.
  - exfalso. apply (Hs j r Hj). unfold compare_offset.
    rewrite (proj2 (Z.ltb_ge _ _)), (proj2 (Z.ltb_ge _ _)) by lia. done.
Qed.

(** Inside the disk the search finds the region. *)
Lemma find_region_correct rs x :
  regions_wf rs -> 0 <= x < region_size rs ->
  exists i r, v_items rs !! i = Some r /\ find_region rs x = Some r /\ r_start r <= x <= r_end r.
Proof. intros (_ & _ & Hc & _). by apply find_region_contiguous. Qed.

(** ** Appending *)

Lemma padding_end s a : regions_end s (padding s a) = padded s a.
Proof. unfold padding, padded. by destruct (_ || _)%bool. Qed.

Lemma padding_contiguous s a : 0 <= s -> alignment_ok a -> contiguous s (padding s a).
Proof.
  intros Hs Ha. destruct (decide (a = 0)) as [->|Hne]; [done|].
  destruct (padded_spec s a Hs Ha Hne) as [Hp _]. destruct Ha as [?|(n & Hn & ->)]; [done|].
  unfold padded, padding in *. pose proof (Z.mod_pos_bound s (2 ^ n) ltac:(lia)).
  destruct (_ || _)%bool; simpl; [done|]. repeat split; lia.
Qed.

Lemma length_padding s a : (length (padding s a) <= 1)%nat.
Proof. unfold padding. destruct (_ || _)%bool; simpl; lia. Qed.

(** A step that appends [new]: all of it or, when an allocation fails, only a
    part. *)
Definition appends (rs : regions) (new : list region) (mem : list bool) (res : Z * regions) (mem' : list bool) : Prop :=
  let '(r, rs') := res in
  regions_wf rs' /\
  ((r = 0 /\ v_items rs' = v_items rs ++ new) \/
   (r = -1 /\ exists some, some `prefix_of` new /\ v_items rs' = v_items rs ++ some)) /\
  (mem = [] -> r = 0 /\ mem' = []).

Lemma appends_nothing rs mem : regions_wf rs -> appends rs [] mem (0, rs) mem.
Proof. intros Hwf. split; [done|]. rewrite app_nil_r. split; [by left|done]. Qed.

(** One step after another. *)
Lemma appends_trans rs new1 new2 mem rs1 mem1 res mem2 :
  appends rs new1 mem (0, rs1) mem1 -> appends rs1 new2 mem1 res mem2 -> appends rs (new1 ++ new2) mem res mem2.
Proof.
  destruct res as [r rs2]. intros (_ & [[_ E1]|[? _]] & Hm1) (Hwf & H2 & Hm2); [|done].
  split; [done|]. split.
  - destruct H2 as [[-> E2]|(-> & some & Hp & E2)]; [left|right]; rewrite E2, E1, <- app_assoc.
    + done.
    + split; [done|]. exists (new1 ++ some). split; [by apply prefix_app|done].
  - intros Hmem. apply Hm2, Hm1, Hmem.
Qed.

Lemma appends_failed rs new1 new2 mem rs1 mem1 :
  appends rs new1 mem (-1, rs1) mem1 -> appends rs (new1 ++ new2) mem (-1, rs1) mem1.
Proof.
  intros (Hwf & [[? _]|(_ & some & Hp & E)] & Hm); [done|]. split; [done|]. split; [|exact Hm].
  right. split; [done|]. exists some. split; [|done]. by apply prefix_app_r.
Qed.

(** Room for the regions [new]. *)
Definition room (rs : regions) (new : list region) : Prop :=
  regions_end (region_size rs) new <= INT64_MAX /\ v_len rs + Z.of_nat (length new) <= MAX_REGIONS.

Lemma room_app rs new1 new2 rs1 mem mem1 :
  contiguous (region_size rs) (new1 ++ new2) -> room rs (new1 ++ new2) -> appends rs new1 mem (0, rs1) mem1 ->
  room rs new1 /\ room rs1 new2 /\ region_size rs1 = regions_end (region_size rs) new1.
Proof.
  intros [Hc1 Hc2]%contiguous_app [He Hl] (Hwf & [[_ E]|[? _]] & _); [|done].
  rewrite regions_end_app in He. rewrite length_app in Hl. pose proof (regions_end_le _ _ Hc2).
  assert (Hs : region_size rs1 = regions_end (region_size rs) new1) by (unfold region_size; by rewrite E, regions_end_app).
  unfold room, v_len in *. rewrite E, length_app, Hs. repeat split; lia.
Qed.

Lemma hwp_append_one rs r mem :
  regions_wf rs -> room rs [r] -> contiguous (region_size rs) [r] ->
  hwp (append_one_region rs r) (appends rs [r] mem) mem.
Proof.
  intros Hwf [Hr Hl] (Hs & Hpos & He & _). destruct (region_size_virtual rs Hwf) as [Hv Hv2]. simpl in Hr.
  unfold append_one_region. rewrite Hv, (u64_small (region_size rs)), (u64_small (_ - _ + 1)) by (limits; lia).
  apply hwp_bind, hwp_assert. split; [lia|]. apply hwp_bind, hwp_assert. split; [lia|].
  apply hwp_bind, hwp_assert. split; [lia|]. apply hwp_bind, hwp_assert. split; [lia|].
  destruct Hwf as (Hvw & Hcap & Hc & Hend). unfold vector_append. simpl in Hl. unfold MAX_REGIONS in *.
  eapply hwp_mono; [apply hwp_insert; [done|unfold v_len; lia|unfold sizeof_region; limits; lia]|].
  intros [r' rs'] mem' (Hvw' & Hcap' & Hr' & Hm). unfold v_len in Hr'. rewrite Nat2Z.id in Hr'.
  rewrite firstn_all, drop_all in Hr'. unfold appends.
  destruct Hr' as [[-> ->]|[-> E]].
  - split; [done|]. split; [right; split; [done|]; exists []; split; [by apply prefix_nil|by rewrite app_nil_r]|].
    intros Hmem. destruct Hm as [? _]; [done| |done]. unfold sizeof_region. limits. lia.
  - split; [|split; [by left|]].
    + split; [done|]. unfold v_len in *. rewrite E, length_app. simpl. split; [lia|]. fold (region_size rs) in Hend.
      rewrite contiguous_app, regions_end_app. fold (region_size rs). simpl. repeat split; (done || lia).
    + intros Hmem. apply Hm; [done|]. unfold sizeof_region. limits. lia.
Qed.

Lemma hwp_append_alignment rs a mem :
  regions_wf rs -> alignment_ok a -> room rs (padding (region_size rs) a) ->
  hwp (append_alignment rs a) (appends rs (padding (region_size rs) a) mem) mem.
Proof.
  intros Hwf Ha Hroom. destruct (region_size_virtual rs Hwf) as [Hv Hv2]. unfold append_alignment.
  destruct (Z.eqb_spec a 0) as [->|Hne]; [by apply hwp_ret, appends_nothing|]. simpl.
  destruct (padded_spec (region_size rs) a ltac:(lia) Ha Hne) as (Hp & Hd).
  destruct Ha as [?|(n & Hn & ->)]; [done|]. pose proof (Z.pow_le_mono_r 2 n 62 ltac:(lia) ltac:(lia)).
  assert (Hpow : is_power_of_2 (2 ^ n) = true) by (apply is_power_of_2_pow; lia).
  assert (Hal : forall size, 0 <= size <= INT64_MAX -> Z.land size (u64 (2 ^ n - 1)) = size mod 2 ^ n).
  { intros size Hs. rewrite u64_small by (limits; lia). apply land_pred_pow2. lia. }
  apply hwp_bind. apply (hwp_mono _ (appends rs (padding (region_size rs) (2 ^ n)) mem)).
  - unfold append_padding, is_aligned64. apply hwp_bind, hwp_assert. split; [done|]. rewrite Hv.
    rewrite (u64_small (region_size rs)) by (limits; lia). apply hwp_bind, hwp_bind, hwp_assert. split; [done|].
    apply hwp_ret. rewrite Hal by lia.
    unfold padded, padding, room in *. rewrite (proj2 (Z.eqb_neq (2 ^ n) 0)) in * by done. simpl in *.
    destruct (Z.eqb_spec (region_size rs mod 2 ^ n) 0) as [E|E]; [by apply hwp_ret, appends_nothing|]. simpl in *.
    replace (Z.lnot (2 ^ n - 1)) with (- 2 ^ n) by (unfold Z.lnot; lia).
    rewrite land_neg_pow2 by (limits; lia). pose proof (Z.mod_pos_bound (region_size rs) (2 ^ n) ltac:(lia)).
    rewrite (u64_small (_ + _ - 1)) by (limits; lia).
    replace (region_size rs - region_size rs mod 2 ^ n + 2 ^ n - 1)
      with (region_size rs + (2 ^ n - region_size rs mod 2 ^ n) - 1) by lia.
    rewrite u64_small by (limits; lia).
    replace (region_size rs + (2 ^ n - region_size rs mod 2 ^ n) - 1 - region_size rs + 1)
      with (2 ^ n - region_size rs mod 2 ^ n) by lia.
    apply hwp_append_one; [done|done|]. simpl. repeat split; lia.
  - intros [r rs1] mem1 Happ. pose proof Happ as (Hwf1 & Hr & _). destruct Hr as [[-> E]|[-> Hr]]; [|by apply hwp_ret].
    change (0 =? -1) with false. cbv iota.
    destruct (region_size_virtual rs1 Hwf1) as [Hv1 Hv3].
    assert (Hs : region_size rs1 = padded (region_size rs) (2 ^ n)) by (rewrite <- padding_end; unfold region_size; by rewrite E, regions_end_app).
    unfold is_aligned64. apply hwp_bind, hwp_bind, hwp_assert. split; [done|]. apply hwp_ret, hwp_bind, hwp_assert.
    rewrite Hv1, (u64_small (region_size rs1)), Hal, Hs by (limits; lia). rewrite (proj2 (Z.mod_divide _ _ Hne) Hd). split; [done|].
    by apply hwp_ret.
Qed.
Lemma placed_contiguous s len pre post type :
  0 <= s -> 0 < len -> alignment_ok pre -> alignment_ok post -> contiguous s (placed s len pre post type).
Proof.
  intros Hs Hl Hpre Hpost. unfold placed. apply contiguous_app. split; [by apply padding_contiguous|].
  rewrite padding_end. pose proof (padded_mono s pre Hs Hpre). simpl. repeat split; [lia..|].
  apply padding_contiguous; [lia|done].
Qed.

Lemma placed_end s len pre post type :
  regions_end s (placed s len pre post type) = padded (padded s pre + len) post.
Proof. unfold placed. rewrite regions_end_app, padding_end. simpl. by rewrite padding_end. Qed.

Lemma length_placed s len pre post type : (length (placed s len pre post type) <= 3)%nat.
Proof.
  unfold placed. rewrite length_app. cbn [length].
  pose proof (length_padding s pre). pose proof (length_padding (padded s pre + len) post). lia.
Qed.

Lemma hwp_append_region rs len pre post type mem :
  regions_wf rs -> 0 < len -> alignment_ok pre -> alignment_ok post ->
  room rs (placed (region_size rs) len pre post type) ->
  hwp (append_region_len rs len pre post type) (appends rs (placed (region_size rs) len pre post type) mem) mem.
Proof.
  intros Hwf Hl Hpre Hpost Hroom. destruct (region_size_virtual rs Hwf) as [_ Hv].
  pose proof (placed_contiguous (region_size rs) len pre post type ltac:(lia) Hl Hpre Hpost) as Hc.
  unfold append_region_len, append_region_va. unfold placed in *. set (s1 := padded (region_size rs) pre) in *.
  apply hwp_bind. apply (hwp_mono _ (appends rs (padding (region_size rs) pre) mem)).
  { apply hwp_append_alignment; [done|done|]. destruct Hroom as [He Hn]. rewrite regions_end_app in He.
    apply contiguous_app in Hc as [_ Hc]. pose proof (regions_end_le _ _ Hc).
    rewrite length_app in Hn. split; lia. }
  intros [r rs1] mem1 H1. pose proof H1 as (Hwf1 & [[-> _]|[-> _]] & _); [|by apply hwp_ret, appends_failed].
  change (0 =? -1) with false. cbv iota.
  destruct (room_app _ _ _ _ _ _ Hc Hroom H1) as (_ & Hroom1 & Hs1).
  apply contiguous_app in Hc as [_ Hc].
  rewrite padding_end in Hs1, Hc. fold s1 in Hs1, Hc.
  destruct (region_size_virtual rs1 Hwf1) as [Hv1 Hv2]. rewrite Hv1.
  change (?r :: ?l) with ([r] ++ l) in Hc, Hroom1.
  rewrite (u64_small (region_size rs1)) by (limits; lia). rewrite Hs1.
  pose proof Hroom1 as [He1 _]. rewrite Hs1, regions_end_app in He1. pose proof Hc as [_ Hc2]%contiguous_app.
  pose proof (regions_end_le _ _ Hc2) as Hle. cbn [regions_end r_len] in Hle, He1. rewrite u64_small by (limits; lia).
  apply hwp_bind. eapply hwp_mono.
  { apply hwp_append_one; [done| |].
    - destruct Hroom1 as [_ Hn]. rewrite length_app in Hn. split; [rewrite Hs1; cbn [regions_end r_len]; lia|lia].
    - rewrite Hs1. by apply contiguous_app in Hc as [Hc _]. }
  intros [r rs2] mem2 H2. pose proof H2 as (Hwf2 & [[-> _]|[-> _]] & _).
  2: { apply hwp_ret. eapply appends_trans; [exact H1|]. by apply (appends_failed _ [_] (padding _ _)). }
  change (0 =? -1) with false. cbv iota.
  rewrite <- Hs1 in Hc at 1. destruct (room_app _ _ _ _ _ _ Hc Hroom1 H2) as (_ & Hroom2 & Hs2).
  cbn [regions_end r_len] in Hs2. rewrite Hs1 in Hs2.
  eapply hwp_mono; [apply (hwp_append_alignment rs2 post); [done|done|by rewrite Hs2]|].
  intros [r rs3] mem3 H3. rewrite Hs2 in H3. eapply appends_trans; [exact H1|]. by apply (appends_trans _ [_] _ _ _ _ _ _ H2).
Qed.

(** C35: appending a region keeps the invariant of the layout (the regions are
    not empty, they do not overlap and leave no gaps) and, unless an
    allocation fails, adds exactly the region that was asked for, with just
    the zero padding before and after it that the alignments call for; the
    array of regions is never left inconsistent.  Afterwards the binary
    search finds for every offset of the disk the one region that contains
    it. *)
Theorem append_region_correct rs len pre post type mem :
  regions_wf rs -> 0 < len -> alignment_ok pre -> alignment_ok post ->
  let new := placed (region_size rs) len pre post type in room rs new ->
  hwp (append_region_len rs len pre post type) (fun '(r, rs') mem' =>
    regions_wf rs' /\
    (r = 0 /\ v_items rs' = v_items rs ++ new \/
     r = -1 /\ exists some, some `prefix_of` new /\ v_items rs' = v_items rs ++ some) /\
    (mem = [] -> r = 0) /\
    (r = 0 -> exists reg, reg ∈ v_items rs' /\ r_type reg = type /\ r_len reg = len /\
       region_size rs <= r_start reg /\ (pre <> 0 -> (pre | r_start reg) /\ r_start reg < region_size rs + pre) /\
       (post <> 0 -> (post | region_size rs'))) /\
    forall x, 0 <= x < region_size rs' ->
      exists reg, find_region rs' x = Some reg /\ r_start reg <= x <= r_end reg /\
        forall reg', reg' ∈ v_items rs' -> r_start reg' <= x <= r_end reg' -> reg' = reg) mem.
Proof.
  intros Hwf Hl Hpre Hpost new Hroom. destruct (region_size_virtual rs Hwf) as [_ Hv].
  eapply hwp_mono; [by apply hwp_append_region|]. intros [r rs'] mem' (Hwf' & Hr & Hm).
  split; [done|]. split; [exact Hr|]. split; [intros Hmem; by apply Hm|]. split.
  - intros ->. destruct Hr as [[_ E]|[? _]]; [|done]. subst new.
    pose proof (padded_mono (region_size rs) pre ltac:(lia) Hpre).
    eexists. split; [rewrite E; unfold placed; apply elem_of_app; right; apply elem_of_app; right; left|]. simpl.
    split; [done|]. split; [done|]. split; [done|]. split.
    + intros Hne. destruct (padded_spec (region_size rs) pre ltac:(lia) Hpre Hne). split; [done|lia].
    + intros Hne. unfold region_size. rewrite E, regions_end_app. fold (region_size rs). rewrite placed_end.
      by apply padded_spec; [lia| |].
  - intros x Hx. destruct (find_region_correct rs' x Hwf' Hx) as (i & reg & Hi & Hf & Hin). exists reg.
    split; [done|]. split; [done|]. intros reg' (j & Hj)%list_elem_of_lookup Hin'.
    destruct Hwf' as (_ & _ & Hc & _). by eapply contiguous_unique.
Qed.
End Regions.

Arguments region_type : clear implicits.
Arguments region : clear implicits.
Arguments regions : clear implicits.
Arguments region_file {D}.
Arguments region_data {D}.
Arguments region_zero {D}.
Arguments Region {D}.
#[global] Arguments append_region_len : simpl never.

(** A file of 1000 bytes after the first sector. *)
Lemma append_region_correct_witness :
  hwp (append_region_len (D := unit) (Vec [Region 0 512 511 (region_data tt)] 1) 1000 1048576 512 (region_file 0))
    (fun '(r, rs') _ => regions_wf rs' /\ r = 0) [].
Proof.
  eapply hwp_mono.
  { apply (append_region_correct (Vec [Region 0 512 511 (region_data tt)] 1) 1000 1048576 512 (region_file 0) []).
    - split; [by vm_compute|]. split; [by vm_compute|]. split; [|by vm_compute]. simpl. lia.
    - lia.
    - right. by exists 20.
    - right. by exists 9.
    - split; by vm_compute. }
  intros [r rs'] mem' (Hwf & _ & Hr & _). auto.
Defined.
