(* ===== verification/Gpt.v ===== *)
(** * GUID partition tables

    Models [common/gpt]: the layout of the header and of the entries of a GUID
    partition table, and [efi_crc32], the checksum of their contents; and
    [parse_guid] of [plugins/partitioning/partition-gpt.c].  The table-driven
    checksum is proved to be the bitwise CRC-32, and to detect every change of
    up to four neighbouring bytes. *)

From S2P Require Import Prelude NbdProtocol Server Bytes Parse.

(** ** Little-endian fields ([htole32], [le32toh] and friends) *)

Definition le (n : nat) (z : Z) : list Z := rev (be n z).
Definition le_val (bs : list Z) : Z := be_val (rev bs).

#[global] Arguments le : simpl never.
#[global] Arguments le_val : simpl never.

Lemma length_le n z : length (le n z) = n.
Proof. unfold le. by rewrite length_rev, length_be. Qed.

Lemma le_val_le n z : le_val (le n z) = z mod 256 ^ Z.of_nat n.
Proof. unfold le_val, le. rewrite rev_involutive. apply be_val_be. Qed.

Lemma le_val_le_small n z : 0 <= z < 256 ^ Z.of_nat n -> le_val (le n z) = z.
Proof. intros. rewrite le_val_le. by apply Z.mod_small. Qed.

Lemma le_bytes n z : Forall is_byte (le n z).
Proof. unfold le. apply Forall_rev, be_bytes. Qed.

Lemma le_val_bound bs : Forall is_byte bs -> 0 <= le_val bs < 256 ^ Z.of_nat (length bs).
Proof. intros Hb. unfold le_val. rewrite <- length_rev. by apply be_val_bound, Forall_rev. Qed.

(** ** Parts of a structure in memory *)

Lemma sub_splice_same p b off n :
  0 <= off -> Z.of_nat (length b) = n -> off + n <= Z.of_nat (length p) -> sub (splice p b off) off n = b.
Proof.
  intros Ho <- Hl. unfold sub, splice. rewrite drop_app_length' by (rewrite length_take; lia).
  by rewrite take_app_length' by lia.
Qed.

Lemma sub_splice_other p b off o n :
  0 <= off -> off + Z.of_nat (length b) <= Z.of_nat (length p) -> 0 <= o -> 0 <= n ->
  (o + n <= off \/ off + Z.of_nat (length b) <= o) -> sub (splice p b off) o n = sub p o n.
Proof.
  intros Hoff Hl Ho Hn Hd. unfold sub, splice. apply list_eq. intros i.
  destruct (decide (i < Z.to_nat n)%nat) as [Hi|Hi]; [|by rewrite !lookup_take_ge by lia].
  rewrite !lookup_take_lt, !lookup_drop by lia. destruct Hd as [Hd|Hd].
  - rewrite lookup_app_l by (rewrite length_take; lia). by rewrite lookup_take_lt by lia.
  - rewrite lookup_app_r by (rewrite length_take; lia). rewrite length_take.
    rewrite lookup_app_r by lia. rewrite lookup_drop. f_equal. lia.
Qed.

Lemma sub_sub p o n o' n' : 0 <= o -> 0 <= o' -> 0 <= n' -> o' + n' <= n -> sub (sub p o n) o' n' = sub p (o + o') n'.
Proof.
  intros Ho Ho' Hn' Hle. unfold sub. apply list_eq. intros i.
  destruct (decide (i < Z.to_nat n')%nat) as [Hi|Hi]; [|by rewrite !lookup_take_ge by lia].
  rewrite !lookup_take_lt, !lookup_drop by lia. rewrite lookup_take_lt, lookup_drop by lia. f_equal. lia.
Qed.

Lemma splice_sub p b o i n :
  0 <= o -> 0 <= i -> i + Z.of_nat (length b) <= n -> o + n <= Z.of_nat (length p) ->
  sub (splice p b (o + i)) o n = splice (sub p o n) b i.
Proof.
  intros Ho Hi Hl Hp. pose proof (length_sub p o n Ho ltac:(lia) Hp) as Hs.
  assert (Hs' : length (sub (splice p b (o + i)) o n) = Z.to_nat n) by (apply length_sub; rewrite ?length_splice; lia).
  apply list_eq_same_length with (Z.to_nat n); [|done|].
  { rewrite length_splice; lia. }
  intros j x y Hj Hx Hy. apply (nth_lookup_Some _ _ 0) in Hx. apply (nth_lookup_Some _ _ 0) in Hy. subst x y.
  rewrite <- (Nat2Z.id j). rewrite nth_splice by lia. rewrite nth_sub by (rewrite ?length_splice; lia).
  rewrite nth_splice by lia. rewrite nth_sub by lia.
  destruct (decide _), (decide _); try lia; do 2 f_equal; lia.
Qed.

Lemma sub_add l o n m : 0 <= o -> 0 <= n -> 0 <= m -> sub l o (n + m) = sub l o n ++ sub l (o + n) m.
Proof.
  intros Ho Hn Hm. unfold sub. rewrite !Z2Nat.inj_add by lia. rewrite <- drop_drop. symmetry. apply take_take_drop.
Qed.

(** Tables that agree on every entry. *)
Lemma sub_chunks a b oa ob c : 0 <= oa -> 0 <= ob -> 0 <= c -> forall m : nat,
  (forall k, (k < m)%nat -> sub a (oa + c * Z.of_nat k) c = sub b (ob + c * Z.of_nat k) c) ->
  sub a oa (c * Z.of_nat m) = sub b ob (c * Z.of_nat m).
Proof.
  intros Ha Hb Hc. induction m as [|m IH]; intros H; [by rewrite Z.mul_0_r|].
  replace (c * Z.of_nat (S m)) with (c * Z.of_nat m + c) by lia. rewrite !sub_add by lia.
  rewrite IH by (intros; apply H; lia). f_equal. apply H. lia.
Qed.

Lemma sub_app_l l1 l2 o n : 0 <= o -> 0 <= n -> o + n <= Z.of_nat (length l1) -> sub (l1 ++ l2) o n = sub l1 o n.
Proof.
  intros Ho Hn Hl. unfold sub. rewrite drop_app_le by lia. rewrite take_app_le by (rewrite length_drop; lia). done.
Qed.

Lemma sub_app_r l1 l2 o n : Z.of_nat (length l1) <= o -> sub (l1 ++ l2) o n = sub l2 (o - Z.of_nat (length l1)) n.
Proof.
  intros Ho. unfold sub. rewrite drop_app_ge by lia. do 2 f_equal. lia.
Qed.

Lemma sub_all l n : Z.of_nat (length l) = n -> sub l 0 n = l.
Proof. intros <-. unfold sub. rewrite drop_0. by rewrite Nat2Z.id, firstn_all. Qed.

Lemma sub_memset c m o n : 0 <= o -> 0 <= n -> o + n <= m -> sub (memset c m) o n = memset c n.
Proof.
  intros Ho Hn Hm. unfold sub, memset. rewrite drop_replicate, take_replicate. f_equal. lia.
Qed.

(** ** Layout *)

Record gpt_header : Type := GptHeader {
  g_signature : list Z;
  g_revision : list Z;
  g_header_size : Z;
  g_crc : Z;
  g_reserved : Z;
  g_current_lba : Z;
  g_backup_lba : Z;
  g_first_usable_lba : Z;
  g_last_usable_lba : Z;
  g_guid : list Z;
  g_partition_entries_lba : Z;
  g_nr_partition_entries : Z;
  g_size_partition_entry : Z;
  g_crc_partitions : Z;
}.

(** The structure in memory, with the padding at its end. *)
Definition gpt_header_bytes (h : gpt_header) : list Z :=
  g_signature h ++ g_revision h ++ le 4 (g_header_size h) ++ le 4 (g_crc h) ++ le 4 (g_reserved h) ++
  le 8 (g_current_lba h) ++ le 8 (g_backup_lba h) ++ le 8 (g_first_usable_lba h) ++ le 8 (g_last_usable_lba h) ++
  g_guid h ++ le 8 (g_partition_entries_lba h) ++ le 4 (g_nr_partition_entries h) ++
  le 4 (g_size_partition_entry h) ++ le 4 (g_crc_partitions h) ++ [0; 0; 0; 0].

(* sizeof (struct gpt_header) *)
Definition sizeof_gpt_header : Z := 96.

(* "EFI PART" *)
Definition GPT_SIGNATURE : list Z := [69; 70; 73; 32; 80; 65; 82; 84].
Definition GPT_REVISION : list Z := [0; 0; 1; 0].

(** An entry without its [name], the last 72 bytes. *)
Record gpt_entry : Type := GptEntry {
  g_partition_type_guid : list Z;
  g_unique_guid : list Z;
  g_first_lba : Z;
  g_last_lba : Z;
  g_attributes : Z;
}.

Definition gpt_entry_bytes (e : gpt_entry) : list Z :=
  g_partition_type_guid e ++ g_unique_guid e ++ le 8 (g_first_lba e) ++ le 8 (g_last_lba e) ++ le 8 (g_attributes e).

Definition gpt_entry_name : Z := 56.

Definition GPT_MIN_PARTITIONS : Z := 128.
Definition GPT_PT_ENTRY_SIZE : Z := 128.

(** ** [efi_crc32] *)

Definition crc32_tab : list Z :=
  [0x00000000; 0x77073096; 0xee0e612c; 0x990951ba; 0x076dc419; 0x706af48f; 0xe963a535; 0x9e6495a3;
   0x0edb8832; 0x79dcb8a4; 0xe0d5e91e; 0x97d2d988; 0x09b64c2b; 0x7eb17cbd; 0xe7b82d07; 0x90bf1d91;
   0x1db71064; 0x6ab020f2; 0xf3b97148; 0x84be41de; 0x1adad47d; 0x6ddde4eb; 0xf4d4b551; 0x83d385c7;
   0x136c9856; 0x646ba8c0; 0xfd62f97a; 0x8a65c9ec; 0x14015c4f; 0x63066cd9; 0xfa0f3d63; 0x8d080df5;
   0x3b6e20c8; 0x4c69105e; 0xd56041e4; 0xa2677172; 0x3c03e4d1; 0x4b04d447; 0xd20d85fd; 0xa50ab56b;
   0x35b5a8fa; 0x42b2986c; 0xdbbbc9d6; 0xacbcf940; 0x32d86ce3; 0x45df5c75; 0xdcd60dcf; 0xabd13d59;
   0x26d930ac; 0x51de003a; 0xc8d75180; 0xbfd06116; 0x21b4f4b5; 0x56b3c423; 0xcfba9599; 0xb8bda50f;
   0x2802b89e; 0x5f058808; 0xc60cd9b2; 0xb10be924; 0x2f6f7c87; 0x58684c11; 0xc1611dab; 0xb6662d3d;
   0x76dc4190; 0x01db7106; 0x98d220bc; 0xefd5102a; 0x71b18589; 0x06b6b51f; 0x9fbfe4a5; 0xe8b8d433;
   0x7807c9a2; 0x0f00f934; 0x9609a88e; 0xe10e9818; 0x7f6a0dbb; 0x086d3d2d; 0x91646c97; 0xe6635c01;
   0x6b6b51f4; 0x1c6c6162; 0x856530d8; 0xf262004e; 0x6c0695ed; 0x1b01a57b; 0x8208f4c1; 0xf50fc457;
   0x65b0d9c6; 0x12b7e950; 0x8bbeb8ea; 0xfcb9887c; 0x62dd1ddf; 0x15da2d49; 0x8cd37cf3; 0xfbd44c65;
   0x4db26158; 0x3ab551ce; 0xa3bc0074; 0xd4bb30e2; 0x4adfa541; 0x3dd895d7; 0xa4d1c46d; 0xd3d6f4fb;
   0x4369e96a; 0x346ed9fc; 0xad678846; 0xda60b8d0; 0x44042d73; 0x33031de5; 0xaa0a4c5f; 0xdd0d7cc9;
   0x5005713c; 0x270241aa; 0xbe0b1010; 0xc90c2086; 0x5768b525; 0x206f85b3; 0xb966d409; 0xce61e49f;
   0x5edef90e; 0x29d9c998; 0xb0d09822; 0xc7d7a8b4; 0x59b33d17; 0x2eb40d81; 0xb7bd5c3b; 0xc0ba6cad;
   0xedb88320; 0x9abfb3b6; 0x03b6e20c; 0x74b1d29a; 0xead54739; 0x9dd277af; 0x04db2615; 0x73dc1683;
   0xe3630b12; 0x94643b84; 0x0d6d6a3e; 0x7a6a5aa8; 0xe40ecf0b; 0x9309ff9d; 0x0a00ae27; 0x7d079eb1;
   0xf00f9344; 0x8708a3d2; 0x1e01f268; 0x6906c2fe; 0xf762575d; 0x806567cb; 0x196c3671; 0x6e6b06e7;
   0xfed41b76; 0x89d32be0; 0x10da7a5a; 0x67dd4acc; 0xf9b9df6f; 0x8ebeeff9; 0x17b7be43; 0x60b08ed5;
   0xd6d6a3e8; 0xa1d1937e; 0x38d8c2c4; 0x4fdff252; 0xd1bb67f1; 0xa6bc5767; 0x3fb506dd; 0x48b2364b;
   0xd80d2bda; 0xaf0a1b4c; 0x36034af6; 0x41047a60; 0xdf60efc3; 0xa867df55; 0x316e8eef; 0x4669be79;
   0xcb61b38c; 0xbc66831a; 0x256fd2a0; 0x5268e236; 0xcc0c7795; 0xbb0b4703; 0x220216b9; 0x5505262f;
   0xc5ba3bbe; 0xb2bd0b28; 0x2bb45a92; 0x5cb36a04; 0xc2d7ffa7; 0xb5d0cf31; 0x2cd99e8b; 0x5bdeae1d;
   0x9b64c2b0; 0xec63f226; 0x756aa39c; 0x026d930a; 0x9c0906a9; 0xeb0e363f; 0x72076785; 0x05005713;
   0x95bf4a82; 0xe2b87a14; 0x7bb12bae; 0x0cb61b38; 0x92d28e9b; 0xe5d5be0d; 0x7cdcefb7; 0x0bdbdf21;
   0x86d3d2d4; 0xf1d4e242; 0x68ddb3f8; 0x1fda836e; 0x81be16cd; 0xf6b9265b; 0x6fb077e1; 0x18b74777;
   0x88085ae6; 0xff0f6a70; 0x66063bca; 0x11010b5c; 0x8f659eff; 0xf862ae69; 0x616bffd3; 0x166ccf45;
   0xa00ae278; 0xd70dd2ee; 0x4e048354; 0x3903b3c2; 0xa7672661; 0xd06016f7; 0x4969474d; 0x3e6e77db;
   0xaed16a4a; 0xd9d65adc; 0x40df0b66; 0x37d83bf0; 0xa9bcae53; 0xdebb9ec5; 0x47b2cf7f; 0x30b5ffe9;
   0xbdbdf21c; 0xcabac28a; 0x53b39330; 0x24b4a3a6; 0xbad03605; 0xcdd70693; 0x54de5729; 0x23d967bf;
   0xb3667a2e; 0xc4614ab8; 0x5d681b02; 0x2a6f2b94; 0xb40bbe37; 0xc30c8ea1; 0x5a05df1b; 0x2d02ef8d].

(** [_efi_crc32] *)
Definition efi_crc32_seed (buf : list Z) (seed : Z) : Z :=
  fold_left (fun crc32val s =>
    Z.lxor (nth (Z.to_nat (Z.land (Z.lxor crc32val s) 0xff)) crc32_tab 0) (Z.shiftr crc32val 8)) buf seed.

Definition efi_crc32 (buf : list Z) : Z := Z.lxor (efi_crc32_seed buf UINT32_MAX) UINT32_MAX.

(** ** [parse_guid] *)

(** [str[i]] is a hexadecimal digit for [i] from [first] to [last - 1]. *)
Definition xdigits (str : list Z) (first last : nat) : bool :=
  forallb ascii_isxdigit (take (last - first) (drop first str)).

Definition hexbyte_at (str : list Z) (i : nat) : Z := hexbyte (nth i str 0) (nth (S i) str 0).

Definition parse_guid (str : list Z) : option (list Z) :=
  let braces := ((length str =? 38)%nat && (nth 0 str 0 =? 123) && (nth 37 str 0 =? 125))%bool in
  if negb ((length str =? 36)%nat || braces) then None
  else
    let str := if (length str =? 36)%nat then str else drop 1 str in
    let dash i := nth i str 0 =? 45 in
    if negb (dash 8%nat && dash 13%nat && dash 18%nat && dash 23%nat) then None
    else if negb (xdigits str 0 8 && xdigits str 9 13 && xdigits str 14 18 && xdigits str 19 23 && xdigits str 24 36) then None
    else Some (hexbyte_at str <$>
      [6%nat; 4%nat; 2%nat; 0%nat; 11%nat; 9%nat; 16%nat; 14%nat; 19%nat; 21%nat; 24%nat; 26%nat; 28%nat; 30%nat; 32%nat; 34%nat]).

(** ** The checksum

    The reference: the CRC with the reversed polynomial, a bit at a time. *)
Definition crc_poly : Z := 0xedb88320.
Definition crc_bit (c : Z) : Z := if Z.odd c then Z.lxor (Z.shiftr c 1) crc_poly else Z.shiftr c 1.
Definition crc_bits (n : nat) (c : Z) : Z := Nat.iter n crc_bit c.
Definition crc32 (buf : list Z) : Z :=
  Z.lxor (fold_left (fun c b => crc_bits 8 (Z.lxor c b)) buf UINT32_MAX) UINT32_MAX.

Definition is_u32 (c : Z) : Prop := 0 <= c <= UINT32_MAX.

Lemma crc_bit_lxor a b : crc_bit (Z.lxor a b) = Z.lxor (crc_bit a) (crc_bit b).
Proof.
  unfold crc_bit. rewrite <- !Z.bit0_odd, Z.lxor_spec, Z.shiftr_lxor.
  destruct (Z.testbit a 0), (Z.testbit b 0); simpl; apply Z.bits_inj'; intros i Hi; rewrite !Z.lxor_spec;
    destruct (Z.testbit (Z.shiftr a 1) i), (Z.testbit (Z.shiftr b 1) i), (Z.testbit crc_poly i); done.
Qed.

Lemma crc_bits_lxor n a b : crc_bits n (Z.lxor a b) = Z.lxor (crc_bits n a) (crc_bits n b).
Proof. unfold crc_bits. induction n as [|n IH]; simpl; [done|]. by rewrite IH, crc_bit_lxor. Qed.

Lemma crc_bits_add n m c : crc_bits (n + m) c = crc_bits n (crc_bits m c).
Proof. unfold crc_bits. induction n as [|n IH]; simpl; [done|]. by rewrite IH. Qed.

(** The low byte decides, the others are shifted. *)
Lemma crc_bits_shiftl n c : 0 <= c -> crc_bits n (Z.shiftl c (Z.of_nat n)) = c.
Proof.
  intros Hc. induction n as [|n IH]; [apply Z.shiftl_0_r|].
  replace (S n) with (n + 1)%nat by lia. rewrite crc_bits_add. etrans; [|exact IH]. f_equal.
  unfold crc_bits. simpl. unfold crc_bit. rewrite <- Z.bit0_odd, Z.shiftl_spec_low by lia.
  rewrite Z.shiftr_shiftl_l by lia. f_equal. lia.
Qed.

Lemma split_byte c : 0 <= c -> c = Z.lxor (Z.shiftl (Z.shiftr c 8) 8) (Z.land c 255).
Proof.
  intros Hc. apply Z.bits_inj'. intros i Hi. rewrite Z.lxor_spec, Z.land_spec.
  change 255 with (Z.ones 8). rewrite Z.testbit_ones_nonneg by lia.
  destruct (Z.ltb_spec i 8).
  - rewrite Z.shiftl_spec_low by lia. by rewrite andb_true_r.
  - rewrite Z.shiftl_spec, Z.shiftr_spec by lia. rewrite andb_false_r, xorb_false_r. f_equal. lia.
Qed.

Lemma crc32_tab_correct i : 0 <= i <= 255 -> nth (Z.to_nat i) crc32_tab 0 = crc_bits 8 i.
Proof.
  intros Hi. assert (H : forallb (fun j => nth j crc32_tab 0 =? crc_bits 8 (Z.of_nat j)) (seq 0 256) = true) by (by vm_compute).
  rewrite forallb_forall in H. specialize (H (Z.to_nat i)). apply Z.eqb_eq in H; [by rewrite Z2Nat.id in H by lia|].
  apply in_seq. lia.
Qed.

Lemma lxor_u32 a b : is_u32 a -> is_u32 b -> is_u32 (Z.lxor a b).
Proof.
  unfold is_u32. change UINT32_MAX with (Z.ones 32). intros Ha Hb.
  assert (Hn : 0 <= Z.lxor a b) by (apply Z.lxor_nonneg; lia). split; [done|].
  assert (Hm : Z.lxor a b = Z.land (Z.lxor a b) (Z.ones 32)).
  { apply Z.bits_inj'. intros i Hi. rewrite Z.land_spec, Z.lxor_spec, Z.testbit_ones_nonneg by lia.
    destruct (Z.ltb_spec i 32) as [|Hge]; [by rewrite andb_true_r|]. rewrite andb_false_r.
    assert (Hz : forall c, 0 <= c <= Z.ones 32 -> Z.testbit c i = false).
    { intros c Hc. destruct (Z.eq_dec c 0) as [-> |]; [apply Z.bits_0|]. apply Z.bits_above_log2; [lia|].
      apply Z.log2_lt_pow2; [lia|]. apply Z.lt_le_trans with (2 ^ 32); [change (Z.ones 32) with (2 ^ 32 - 1) in Hc; lia|].
      apply Z.pow_le_mono_r; lia. }
    by rewrite !Hz by lia. }
  rewrite Hm, Z.land_ones by lia. pose proof (Z.mod_pos_bound (Z.lxor a b) (2 ^ 32) ltac:(lia)).
  change (Z.ones 32) with (2 ^ 32 - 1). lia.
Qed.

Lemma shiftr_u32 c n : 0 <= n -> is_u32 c -> is_u32 (Z.shiftr c n).
Proof.
  unfold is_u32. intros Hn Hc. rewrite Z.shiftr_div_pow2 by done. pose proof (Z.pow_pos_nonneg 2 n ltac:(lia) Hn).
  split; [apply Z.div_pos; lia|]. apply Z.div_le_upper_bound; [lia|]. nia.
Qed.

Lemma crc_bit_u32 c : is_u32 c -> is_u32 (crc_bit c).
Proof.
  intros Hc. unfold crc_bit. pose proof (shiftr_u32 c 1 ltac:(lia) Hc).
  destruct (Z.odd c); [|done]. apply lxor_u32; [done|]. by unfold is_u32, crc_poly; limits; lia.
Qed.

Lemma crc_bits_u32 n c : is_u32 c -> is_u32 (crc_bits n c).
Proof. intros Hc. unfold crc_bits. induction n; simpl; [done|]. by apply crc_bit_u32. Qed.

Lemma byte_u32 b : is_byte b -> is_u32 b.
Proof. unfold is_byte, is_u32. limits. lia. Qed.

(** One step of the table. *)
Lemma crc_step c b : is_u32 c -> is_byte b ->
  Z.lxor (nth (Z.to_nat (Z.land (Z.lxor c b) 0xff)) crc32_tab 0) (Z.shiftr c 8) = crc_bits 8 (Z.lxor c b).
Proof.
  intros Hc Hb. pose proof (lxor_u32 c b Hc (byte_u32 b Hb)) as Hx.
  assert (Hlow : 0 <= Z.land (Z.lxor c b) 255 <= 255).
  { replace (Z.land (Z.lxor c b) 255) with (Z.lxor c b mod 2 ^ 8) by (symmetry; by apply (Z.land_ones _ 8)).
    pose proof (Z.mod_pos_bound (Z.lxor c b) (2 ^ 8) ltac:(lia)). lia. }
  rewrite crc32_tab_correct by exact Hlow.
  rewrite (split_byte (Z.lxor c b)) at 2 by apply Hx. rewrite crc_bits_lxor.
  rewrite (crc_bits_shiftl 8) by (apply Z.shiftr_nonneg, Hx). rewrite Z.lxor_comm. f_equal.
  rewrite Z.shiftr_lxor. replace (Z.shiftr b 8) with 0; [by rewrite Z.lxor_0_r|].
  symmetry. rewrite Z.shiftr_div_pow2 by lia. apply Z.div_small. unfold is_byte in Hb. lia.
Qed.

Lemma crc_fold buf : forall c, is_u32 c -> Forall is_byte buf ->
  efi_crc32_seed buf c = fold_left (fun c b => crc_bits 8 (Z.lxor c b)) buf c /\ is_u32 (efi_crc32_seed buf c).
Proof.
  unfold efi_crc32_seed. induction buf as [|b buf IH]; intros c Hc Hb; [done|].
  inversion_clear Hb as [|?? Hb1 Hb2]. cbn [fold_left]. rewrite crc_step by done. apply IH; [|done].
  by apply crc_bits_u32, lxor_u32, byte_u32.
Qed.

(** The top bit tells whether the polynomial was added. *)
Lemma crc_bit_inj c d : is_u32 c -> is_u32 d -> crc_bit c = crc_bit d -> c = d.
Proof.
  intros Hc Hd E. assert (Hinv : forall x, is_u32 x ->
    x = (let r := crc_bit x in if Z.testbit r 31 then Z.shiftl (Z.lxor r crc_poly) 1 + 1 else Z.shiftl r 1)).
  { clear. intros x Hx. unfold is_u32 in Hx. unfold crc_bit.
    assert (Hhi : Z.testbit (Z.shiftr x 1) 31 = false).
    { destruct (Z.eq_dec (Z.shiftr x 1) 0) as [-> |]; [apply Z.bits_0|].
      assert (0 <= Z.shiftr x 1 < 2 ^ 31).
      { rewrite Z.shiftr_div_pow2 by lia. split; [apply Z.div_pos; lia|apply Z.div_lt_upper_bound; limits; lia]. }
      apply Z.bits_above_log2; [lia|]. apply Z.log2_lt_pow2; lia. }
    pose proof (Z.div2_odd x) as Hodd. rewrite <- Z.div2_spec in *. destruct (Z.odd x) eqn:Eo; cbv zeta.
    - rewrite Z.lxor_spec, Hhi. change (Z.testbit crc_poly 31) with true. simpl.
      rewrite Z.lxor_assoc, Z.lxor_nilpotent, Z.lxor_0_r, Z.shiftl_mul_pow2 by lia. cbn [Z.b2z] in Hodd. lia.
    - rewrite Hhi, Z.shiftl_mul_pow2 by lia. cbn [Z.b2z] in Hodd. lia. }
  rewrite (Hinv c Hc), (Hinv d Hd). by rewrite E.
Qed.

Lemma crc_bits_inj n c d : is_u32 c -> is_u32 d -> crc_bits n c = crc_bits n d -> c = d.
Proof.
  intros Hc Hd. induction n as [|n IH]; [done|]. intros E. apply IH.
  change (crc_bit (crc_bits n c) = crc_bit (crc_bits n d)) in E. apply crc_bit_inj in E; [done|by apply crc_bits_u32..].
Qed.

Lemma lxor_cancel_r a b c : Z.lxor a c = Z.lxor b c -> a = b.
Proof.
  intros E. rewrite <- (Z.lxor_0_r a), <- (Z.lxor_0_r b), <- (Z.lxor_nilpotent c), <- !Z.lxor_assoc. by rewrite E.
Qed.

(** What comes after a change does not hide it. *)
Lemma crc_seed_inj buf : forall c d, is_u32 c -> is_u32 d -> Forall is_byte buf ->
  efi_crc32_seed buf c = efi_crc32_seed buf d -> c = d.
Proof.
  unfold efi_crc32_seed. induction buf as [|b buf IH]; intros c d Hc Hd Hb E; [done|].
  inversion_clear Hb as [|?? Hb1 Hb2]. cbn [fold_left] in E. rewrite !crc_step in E by done.
  apply IH in E; [|by apply crc_bits_u32, lxor_u32, byte_u32|by apply crc_bits_u32, lxor_u32, byte_u32|done].
  apply crc_bits_inj in E; [|by apply lxor_u32, byte_u32|by apply lxor_u32, byte_u32]. by apply lxor_cancel_r in E.
Qed.

(** Up to four bytes are taken in like one word. *)
Fixpoint word (bs : list Z) : Z := match bs with [] => 0 | b :: bs => Z.lxor b (Z.shiftl (word bs) 8) end.

Lemma crc_seed_word bs : forall c, is_u32 c -> Forall is_byte bs ->
  efi_crc32_seed bs c = crc_bits (8 * length bs) (Z.lxor c (word bs)).
Proof.
  unfold efi_crc32_seed. induction bs as [|b bs IH]; intros c Hc Hb.
  { simpl. by rewrite Z.lxor_0_r. }
  inversion_clear Hb as [|?? Hb1 Hb2]. cbn [fold_left word length]. rewrite crc_step by done.
  rewrite IH by (done || by apply crc_bits_u32, lxor_u32, byte_u32).
  replace (8 * S (length bs))%nat with (8 * length bs + 8)%nat by lia. rewrite crc_bits_add. f_equal.
  rewrite <- Z.lxor_assoc, (crc_bits_lxor 8 (Z.lxor c b)). f_equal. symmetry. apply (crc_bits_shiftl 8).
  clear -Hb2. induction Hb2 as [|b bs Hb _ IH]; [done|]. simpl. apply Z.lxor_nonneg.
  rewrite Z.shiftl_nonneg. unfold is_byte in Hb. lia.
Qed.

Lemma word_u32 bs : (length bs <= 4)%nat -> Forall is_byte bs -> is_u32 (word bs).
Proof.
  intros Hl Hb. assert (H : forall n, (length bs <= n)%nat -> 0 <= word bs < 2 ^ (8 * Z.of_nat n)).
  { clear Hl. induction Hb as [|b bs Hb1 _ IH]; intros n Hn; [simpl; lia|]. destruct n as [|n]; simpl in Hn; [lia|].
    specialize (IH n ltac:(lia)). cbn [word].
    assert (Hd : Z.lxor b (Z.shiftl (word bs) 8) = b + word bs * 256).
    { rewrite <- Z.add_nocarry_lxor; [by rewrite Z.shiftl_mul_pow2 by lia|].
      apply Z.bits_inj'. intros i Hi. rewrite Z.land_spec, Z.bits_0.
      destruct (Z.ltb_spec i 8); [rewrite Z.shiftl_spec_low by lia; apply andb_false_r|].
      replace (Z.testbit b i) with false; [done|]. unfold is_byte in Hb1.
      destruct (Z.eq_dec b 0) as [-> |]; [symmetry; apply Z.bits_0|]. symmetry. apply Z.bits_above_log2; [lia|].
      apply Z.log2_lt_pow2; [lia|]. apply Z.lt_le_trans with (2 ^ 8); [lia|]. apply Z.pow_le_mono_r; lia. }
    rewrite Hd. unfold is_byte in Hb1. replace (8 * Z.of_nat (S n)) with (8 * Z.of_nat n + 8) by lia.
    rewrite Z.pow_add_r by lia. lia. }
  specialize (H 4%nat Hl). change (2 ^ (8 * Z.of_nat 4)) with 4294967296 in H. unfold is_u32. limits. lia.
Qed.

Lemma word_inj bs bs' : length bs = length bs' -> Forall is_byte bs -> Forall is_byte bs' -> word bs = word bs' -> bs = bs'.
Proof.
  intros Hl Hb. revert bs' Hl. induction Hb as [|b bs Hb1 _ IH]; intros [|b' bs'] Hl Hb' E; [done..|].
  inversion_clear Hb' as [|?? Hb1' Hb2']. simpl in E, Hl.
  assert (Hlow : forall b w, is_byte b -> Z.land (Z.lxor b (Z.shiftl w 8)) 255 = b).
  { clear. intros b w Hb. unfold is_byte in Hb. change 255 with (Z.ones 8).
    transitivity (b mod 2 ^ 8); [|apply Z.mod_small; lia]. rewrite <- Z.land_ones by lia.
    apply Z.bits_inj'. intros i Hi. rewrite !Z.land_spec, Z.lxor_spec, Z.testbit_ones_nonneg by lia.
    destruct (Z.ltb_spec i 8); [|by rewrite !andb_false_r]. by rewrite Z.shiftl_spec_low, xorb_false_r by lia. }
  assert (b = b') as -> by (rewrite <- (Hlow b (word bs) Hb1), E; by apply Hlow).
  f_equal. apply IH; [lia|done|]. rewrite (Z.lxor_comm b'), (Z.lxor_comm b') in E. apply lxor_cancel_r in E.
  apply (f_equal (fun x => Z.shiftr x 8)) in E. by rewrite !Z.shiftr_shiftl_l, !Z.shiftl_0_r in E by lia.
Qed.

(** C36: the checksum of the partition tables is CRC-32: the table-driven
    [efi_crc32] computes the same 32-bit number as the bitwise division by the
    polynomial.  As a checksum should, it detects every change of up to four
    neighbouring bytes, wherever it happens. *)
Theorem efi_crc32_correct buf :
  Forall is_byte buf ->
  efi_crc32 buf = crc32 buf /\ is_u32 (efi_crc32 buf) /\
  forall pre bs bs' post, buf = pre ++ bs ++ post -> length bs' = length bs -> (length bs <= 4)%nat ->
    Forall is_byte bs' -> efi_crc32 (pre ++ bs' ++ post) = efi_crc32 buf -> bs' = bs.
Proof.
  intros Hb. assert (Hseed : is_u32 UINT32_MAX) by (unfold is_u32; limits; lia).
  destruct (crc_fold buf UINT32_MAX Hseed Hb) as [E Hu]. split; [unfold efi_crc32, crc32; by rewrite E|].
  split; [by apply lxor_u32|]. intros pre bs bs' post -> Hl H4 Hb' Heq%lxor_cancel_r.
  rewrite !Forall_app in Hb. destruct Hb as (Hpre & Hbs & Hpost).
  unfold efi_crc32_seed in Heq. rewrite !fold_left_app in Heq.
  destruct (crc_fold pre UINT32_MAX Hseed Hpre) as [_ Hc]. unfold efi_crc32_seed in Hc.
  set (c := fold_left _ pre UINT32_MAX) in *.
  change (efi_crc32_seed post (efi_crc32_seed bs' c) = efi_crc32_seed post (efi_crc32_seed bs c)) in Heq.
  apply crc_seed_inj in Heq; [|by apply crc_fold|by apply crc_fold|done].
  rewrite !crc_seed_word, Hl in Heq by done.
  apply crc_bits_inj in Heq; [|apply lxor_u32; [done|apply word_u32; [lia|done]]..].
  rewrite !(Z.lxor_comm c) in Heq. apply lxor_cancel_r in Heq. by apply word_inj in Heq.
Qed.

(** The check value of CRC-32, the checksum of "123456789". *)
Lemma efi_crc32_correct_witness :
  efi_crc32 [49; 50; 51; 52; 53; 54; 55; 56; 57] = crc32 [49; 50; 51; 52; 53; 54; 55; 56; 57] /\
  efi_crc32 [49; 50; 51; 52; 53; 54; 55; 56; 57] = 0xcbf43926.
Proof.
  split; [|by vm_compute]. apply (efi_crc32_correct [49; 50; 51; 52; 53; 54; 55; 56; 57]).
  repeat constructor; unfold is_byte; lia.
Defined.
