(* ===== verification/Partitioning.v ===== *)
(** * The partitioning plugin

    Models [plugins/partitioning]: [partitioning.c] (parameters, callbacks),
    [virtual-disk.c] (the layout of the disk as regions), [partition-mbr.c]
    and [partition-gpt.c] (the contents of the partition tables), with
    [common/include/random.h].  The plugin's globals are the record
    [partitioning]; the code that prepares the disk runs in a monad over it
    in which [None] is the return value -1.  Opening files and asking for
    their sizes are parameters. *)

From stdpp Require Import functions.
From S2P Require Import Prelude NbdProtocol Extents Exports Server Connections Backend Plugin Bytes Io Parse Vector Bitmap Regions Gpt.

(** ** Random numbers: splitmix64 and xoshiro256** *)

Record random_state : Type := RandomState { rs_0 : Z; rs_1 : Z; rs_2 : Z; rs_3 : Z }.

(** The new seed and the number. *)
Definition snext (seed : Z) : Z * Z :=
  let seed := u64 (seed + 0x9e3779b97f4a7c15) in
  let z := seed in
  let z := u64 (Z.lxor z (Z.shiftr z 30) * 0xbf58476d1ce4e5b9) in
  let z := u64 (Z.lxor z (Z.shiftr z 27) * 0x94d049bb133111eb) in
  (seed, Z.lxor z (Z.shiftr z 31)).

Definition xsrandom (seed : Z) : random_state :=
  let '(seed, s0) := snext seed in
  let '(seed, s1) := snext seed in
  let '(seed, s2) := snext seed in
  let '(_, s3) := snext seed in RandomState s0 s1 s2 s3.

Definition rotl (x k : Z) : Z := Z.lor (u64 (Z.shiftl x k)) (Z.shiftr x (64 - k)).

Definition xrandom (s : random_state) : Z * random_state :=
  let result_starstar := u64 (rotl (u64 (rs_1 s * 5)) 7 * 9) in
  let t := u64 (Z.shiftl (rs_1 s) 17) in
  let s2 := Z.lxor (rs_2 s) (rs_0 s) in
  let s3 := Z.lxor (rs_3 s) (rs_1 s) in
  let s1 := Z.lxor (rs_1 s) s2 in
  let s0 := Z.lxor (rs_0 s) s3 in
  let s2 := Z.lxor s2 t in
  (result_starstar, RandomState s0 s1 s2 (rotl s3 45)).

(** ** Data *)

Definition SECTOR_SIZE : Z := 512.
Definition MAX_ALIGNMENT : Z := 2048 * SECTOR_SIZE.
Definition DEFAULT_ALIGNMENT : Z := MAX_ALIGNMENT.
Definition MAX_MBR_DISK_SIZE : Z := UINT32_MAX * SECTOR_SIZE - 5 * MAX_ALIGNMENT.
Definition DEFAULT_MBR_ID : Z := 0x83.
(* "0FC63DAF-8483-4772-8E79-3D69D8477DE4" *)
Definition DEFAULT_TYPE_GUID : list Z :=
  [48; 70; 67; 54; 51; 68; 65; 70; 45; 56; 52; 56; 51; 45; 52; 55; 55; 50; 45; 56; 69; 55; 57; 45;
   51; 68; 54; 57; 68; 56; 52; 55; 55; 68; 69; 52].

Inductive part_type : Type := PARTTYPE_UNSET | PARTTYPE_MBR | PARTTYPE_GPT.
#[global] Instance part_type_eq_dec : EqDecision part_type.
Proof. solve_decision. Defined.

(** [fi_fd] identifies the file that was opened. *)
Record file : Type := File {
  fi_filename : list Z;
  fi_fd : Z;
  fi_size : Z;
  fi_guid : list Z;
  fi_alignment : Z;
  fi_mbr_id : Z;
  fi_type_guid : list Z;
}.
Definition sizeof_file : Z := 72.

(** The memory that regions point to. *)
Inductive buffer : Type := primary_buffer | secondary_buffer | ebr_buffer (i : Z).
#[global] Instance buffer_eq_dec : EqDecision buffer.
Proof. solve_decision. Defined.

Record partitioning : Type := Partitioning {
  pt_alignment : Z;
  pt_mbr_id : Z;
  pt_type_guid : list Z;
  pt_parttype : part_type;
  pt_files : vector file;
  pt_regions : regions buffer;
  pt_primary : option (list Z);
  pt_secondary : option (list Z);
  pt_ebr : option (list (list Z));
  pt_random : random_state;
}.

Definition with_alignment (v : Z) (st : partitioning) : partitioning :=
  Partitioning v (pt_mbr_id st) (pt_type_guid st) (pt_parttype st) (pt_files st) (pt_regions st)
    (pt_primary st) (pt_secondary st) (pt_ebr st) (pt_random st).
Definition with_mbr_id (v : Z) (st : partitioning) : partitioning :=
  Partitioning (pt_alignment st) v (pt_type_guid st) (pt_parttype st) (pt_files st) (pt_regions st)
    (pt_primary st) (pt_secondary st) (pt_ebr st) (pt_random st).
Definition with_type_guid (v : list Z) (st : partitioning) : partitioning :=
  Partitioning (pt_alignment st) (pt_mbr_id st) v (pt_parttype st) (pt_files st) (pt_regions st)
    (pt_primary st) (pt_secondary st) (pt_ebr st) (pt_random st).
Definition with_parttype (v : part_type) (st : partitioning) : partitioning :=
  Partitioning (pt_alignment st) (pt_mbr_id st) (pt_type_guid st) v (pt_files st) (pt_regions st)
    (pt_primary st) (pt_secondary st) (pt_ebr st) (pt_random st).
Definition with_files (v : vector file) (st : partitioning) : partitioning :=
  Partitioning (pt_alignment st) (pt_mbr_id st) (pt_type_guid st) (pt_parttype st) v (pt_regions st)
    (pt_primary st) (pt_secondary st) (pt_ebr st) (pt_random st).
Definition with_regions (v : regions buffer) (st : partitioning) : partitioning :=
  Partitioning (pt_alignment st) (pt_mbr_id st) (pt_type_guid st) (pt_parttype st) (pt_files st) v
    (pt_primary st) (pt_secondary st) (pt_ebr st) (pt_random st).
Definition with_primary (v : option (list Z)) (st : partitioning) : partitioning :=
  Partitioning (pt_alignment st) (pt_mbr_id st) (pt_type_guid st) (pt_parttype st) (pt_files st) (pt_regions st)
    v (pt_secondary st) (pt_ebr st) (pt_random st).
Definition with_secondary (v : option (list Z)) (st : partitioning) : partitioning :=
  Partitioning (pt_alignment st) (pt_mbr_id st) (pt_type_guid st) (pt_parttype st) (pt_files st) (pt_regions st)
    (pt_primary st) v (pt_ebr st) (pt_random st).
Definition with_ebr (v : option (list (list Z))) (st : partitioning) : partitioning :=
  Partitioning (pt_alignment st) (pt_mbr_id st) (pt_type_guid st) (pt_parttype st) (pt_files st) (pt_regions st)
    (pt_primary st) (pt_secondary st) v (pt_random st).
Definition with_random (v : random_state) (st : partitioning) : partitioning :=
  Partitioning (pt_alignment st) (pt_mbr_id st) (pt_type_guid st) (pt_parttype st) (pt_files st) (pt_regions st)
    (pt_primary st) (pt_secondary st) (pt_ebr st) v.

(** ** The monad *)

Definition PM (A : Type) : Type := partitioning -> AM (option A * partitioning).

#[global] Instance PM_ret : MRet PM := fun A a st => mret (Some a, st).
#[global] Instance PM_bind : MBind PM := fun A B k m st =>
  '(o, st) ← m st;
  match o with
  | Some a => k a st
  | None => mret (None, st)
  end.

(** [return -1;] *)
Definition p_return_error {A} : PM A := fun st => mret (None, st).
Definition p_crash {A} (c : crash) : PM A := fun _ => hfail c.
Definition p_assert (b : bool) : PM unit := if b then mret tt else p_crash AssertFailed.
Definition p_get {A} (f : partitioning -> A) : PM A := fun st => mret (Some (f st), st).
Definition p_modify (f : partitioning -> partitioning) : PM unit := fun st => mret (Some tt, f st).
Definition p_lift {A} (m : AM A) : PM A := fun st => a ← m; mret (Some a, st).

(** [calloc], checked. *)
Definition p_calloc (size : Z) : PM (list Z) :=
  ok ← p_lift allocate;
  if ok : bool then mret (memset 0 size) else p_return_error.

(** ** Parameters *)

(* "file", "partition-type", "alignment", "mbr-id", "type-guid" *)
Definition key_file : list Z := [102; 105; 108; 101].
Definition key_partition_type : list Z := [112; 97; 114; 116; 105; 116; 105; 111; 110; 45; 116; 121; 112; 101].
Definition key_alignment : list Z := [97; 108; 105; 103; 110; 109; 101; 110; 116].
Definition key_mbr_id : list Z := [109; 98; 114; 45; 105; 100].
Definition key_type_guid : list Z := [116; 121; 112; 101; 45; 103; 117; 105; 100].
(* "mbr", "dos", "gpt", "default" *)
Definition text_mbr : list Z := [109; 98; 114].
Definition text_dos : list Z := [100; 111; 115].
Definition text_gpt : list Z := [103; 112; 116].
Definition text_default : list Z := [100; 101; 102; 97; 117; 108; 116].

Definition default_guid : list Z := match parse_guid DEFAULT_TYPE_GUID with Some g => g | None => memset 0 16 end.

(** [time] is the time of day. *)
Definition partitioning_load (time : Z) : partitioning :=
  Partitioning DEFAULT_ALIGNMENT DEFAULT_MBR_ID default_guid PARTTYPE_UNSET empty_vector init_regions
    None None None (xsrandom time).

Fixpoint random_bytes (n : nat) (s : random_state) : list Z * random_state :=
  match n with
  | O => ([], s)
  | S n =>
      let '(r, s) := xrandom s in
      let '(bs, s) := random_bytes n s in (Z.land r 0xff :: bs, s)
  end.

Section Config.
(* [open]: the file, if it can be opened; [device_size]: its size or -1 *)
Context (os_open : list Z -> option Z) (device_size : Z -> Z).

Definition config_file (value : list Z) : PM unit :=
  st ← p_get id;
  match os_open value with
  | None => p_return_error
  | Some fd =>
      let size := device_size fd in
      if (size =? -1) || (size =? 0) then p_return_error
      else
        let '(guid, random) := random_bytes 16 (pt_random st) in
        p_modify (with_random random);;
        '(r, files) ← p_lift (vector_append sizeof_file (pt_files st)
          (File value fd size guid (pt_alignment st) (pt_mbr_id st) (pt_type_guid st)));
        p_modify (with_files files);;
        if r =? -1 then p_return_error else mret tt
  end.

Definition partitioning_config (key value : list Z) : PM unit :=
  if strcmp_eq key key_file then config_file value
  else if strcmp_eq key key_partition_type then
    if strcasecmp_eq value text_mbr || strcasecmp_eq value text_dos then p_modify (with_parttype PARTTYPE_MBR)
    else if strcasecmp_eq value text_gpt then p_modify (with_parttype PARTTYPE_GPT)
    else p_return_error
  else if strcmp_eq key key_alignment then
    let r := nbdkit_parse_size value in
    if r =? -1 then p_return_error
    else if negb ((SECTOR_SIZE <=? r) && (r <=? MAX_ALIGNMENT)) then p_return_error
    else
      aligned ← p_lift (is_aligned64 r SECTOR_SIZE);
      if negb aligned then p_return_error else p_modify (with_alignment r)
  else if strcmp_eq key key_mbr_id then
    if strcasecmp_eq value text_default then p_modify (with_mbr_id DEFAULT_MBR_ID)
    else
      match nbdkit_parse_uint8_t value with
      | Value r => p_modify (with_mbr_id r)
      | ParseError _ => p_return_error
      end
  else if strcmp_eq key key_type_guid then
    if strcasecmp_eq value text_default then p_modify (with_type_guid default_guid)
    else
      match parse_guid value with
      | Some g => p_modify (with_type_guid g)
      | None => p_return_error
      end
  else p_return_error.
End Config.

Definition total_size (files : list file) : Z := fold_left (fun total f => u64 (total + fi_size f)) files 0.

Definition partitioning_config_complete : PM unit :=
  st ← p_get id;
  if v_len (pt_files st) =? 0 then p_return_error
  else
    let needs_gpt := MAX_MBR_DISK_SIZE <? total_size (v_items (pt_files st)) in
    match pt_parttype st with
    | PARTTYPE_UNSET =>
        p_modify (with_parttype (if needs_gpt || (4 <? v_len (pt_files st)) then PARTTYPE_GPT else PARTTYPE_MBR))
    | PARTTYPE_MBR => if needs_gpt then p_return_error else mret tt
    | PARTTYPE_GPT => mret tt
    end.

(** ** [partition-mbr.c] *)

Definition chs_too_large : list Z :=
  let c := 1023 in let h := 254 in let s := 63 in
  [h; Z.lor (Z.shiftr (Z.land c 0x300) 2) s; Z.land c 0xff].

(** The 16 bytes of an entry, from [region->start] and [region->len]. *)
Definition create_mbr_partition_table_entry (start len : Z) (bootable : bool) (partition_id : Z) : AM (list Z) :=
  aligned ← is_aligned64 start SECTOR_SIZE;
  hassert aligned;;
  let start_sector := start / SECTOR_SIZE in
  let nr_sectors := DIV_ROUND_UP len SECTOR_SIZE in
  hassert (start_sector <=? UINT32_MAX);;
  hassert (nr_sectors <=? UINT32_MAX);;
  mret ((if bootable then 0x80 else 0) :: chs_too_large ++ [partition_id mod 256] ++ chs_too_large ++
        le 4 start_sector ++ le 4 nr_sectors).

(** [memcpy (&primary[offset], bytes)] and the like. *)
Definition write_primary (bytes : list Z) (offset : Z) : PM unit :=
  p ← p_get pt_primary;
  match p with
  | Some p => p_modify (with_primary (Some (splice p bytes offset)))
  | None => p_crash NullPointer
  end.

Definition write_secondary (bytes : list Z) (offset : Z) : PM unit :=
  p ← p_get pt_secondary;
  match p with
  | Some p => p_modify (with_secondary (Some (splice p bytes offset)))
  | None => p_crash NullPointer
  end.

Definition write_ebr (i : Z) (bytes : list Z) (offset : Z) : PM unit :=
  e ← p_get pt_ebr;
  match e with
  | Some ebrs =>
      match ebrs !! Z.to_nat i with
      | Some p => p_modify (with_ebr (Some (<[Z.to_nat i := splice p bytes offset]> ebrs)))
      | None => p_crash OutOfBounds
      end
  | None => p_crash NullPointer
  end.

(** The first region from the [j]-th on that satisfies [p], and its index;
    [abort] if there is none. *)
Fixpoint scan_regions (p : region buffer -> bool) (l : list (region buffer)) (j : nat) : option (region buffer * nat) :=
  match l with
  | [] => None
  | r :: l => if p r then Some (r, j) else scan_regions p l (S j)
  end.

Definition find_region_by (p : region buffer -> bool) (j : nat) : PM (region buffer * nat) :=
  rs ← p_get pt_regions;
  match scan_regions p (drop j (v_items rs)) j with
  | Some res => mret res
  | None => p_crash AssertFailed
  end.

Definition is_file_region (i : Z) (r : region buffer) : bool :=
  match r_type r with region_file i' => i' =? i | _ => false end.
Definition is_ebr_region (i : Z) (r : region buffer) : bool :=
  match r_type r with region_data b => bool_decide (b = ebr_buffer (i - 3)) | _ => false end.

Definition find_file_region (i : Z) (j : nat) : PM (region buffer * nat) := find_region_by (is_file_region i) j.
Definition find_ebr_region (i : Z) (j : nat) : PM (region buffer * nat) :=
  p_assert (3 <=? i);;
  find_region_by (is_ebr_region i) j.

(** The entries of the primary partitions, from the [i]-th on. *)
Fixpoint mbr_primary (files : list file) (i : Z) (j : nat) : PM nat :=
  match files with
  | [] => mret j
  | f :: files =>
      '(r, j) ← find_file_region i j;
      entry ← p_lift (create_mbr_partition_table_entry (r_start r) (r_len r) (i =? 0) (fi_mbr_id f));
      write_primary entry (0x1be + 16 * i);;
      mbr_primary files (i + 1) j
  end.

(** The logical partitions: [eptr0] is the first EBR. *)
Fixpoint mbr_logical (eptr0 : region buffer) (files : list file) (i : Z) (j : nat) : PM unit :=
  match files with
  | [] => mret tt
  | f :: files =>
      '(eptr, j) ← (if i =? 3 then mret (eptr0, j) else find_ebr_region i j);
      '(rptr, j) ← find_file_region i j;
      write_ebr (i - 3) [0x55; 0xaa] 0x1fe;;
      entry ← p_lift (create_mbr_partition_table_entry (u64 (r_start rptr - r_start eptr)) (r_len rptr) false (fi_mbr_id f));
      write_ebr (i - 3) entry 0x1be;;
      (match files with
       | [] => mret tt
       | _ :: _ =>
           '(enext, j2) ← find_ebr_region (i + 1) j;
           '(rnext, _) ← find_file_region (i + 1) j2;
           entry ← p_lift (create_mbr_partition_table_entry (u64 (r_start enext - r_start eptr0))
             (u64 (r_end rnext - r_start enext + 1)) false 0xf);
           write_ebr (i - 3) entry 0x1ce
       end);;
      mbr_logical eptr0 files (i + 1) j
  end.

Definition create_mbr_layout : PM unit :=
  write_primary [0x55; 0xaa] 0x1fe;;
  files ← p_get (fun st => v_items (pt_files st));
  if Z.of_nat (length files) <=? 4 then
    mbr_primary files 0 0;;
    mret tt
  else
    j ← mbr_primary (take 3 files) 0 0;
    '(eptr0, j) ← find_ebr_region 3 j;
    rs ← p_get pt_regions;
    let end_ := u64 (virtual_size rs - 1) in
    entry ← p_lift (create_mbr_partition_table_entry (r_start eptr0) (u64 (end_ - r_start eptr0 + 1)) false 0xf);
    write_primary entry 0x1ee;;
    mbr_logical eptr0 (drop 3 files) 3 j.

(** ** [partition-gpt.c] *)

(** [ROUND_UP] by a constant power of 2. *)
Definition GPT_PTA_SIZE (nr_files : Z) : Z := Z.land (u64 (nr_files + GPT_MIN_PARTITIONS - 1)) (u64 (- GPT_MIN_PARTITIONS)).
Definition GPT_PTA_LBAs (nr_files : Z) : Z := u64 (GPT_PTA_SIZE nr_files * GPT_PT_ENTRY_SIZE) / SECTOR_SIZE.

(** The fields of the header. *)
Definition gpt_header_of (size nr_files crc_partitions : Z) (is_primary : bool) (crc : Z) : gpt_header :=
  let nr_lbas := u64 size / SECTOR_SIZE in
  let lbas := GPT_PTA_LBAs nr_files in
  GptHeader GPT_SIGNATURE GPT_REVISION sizeof_gpt_header crc 0
    (if is_primary then 1 else nr_lbas - 1) (if is_primary then nr_lbas - 1 else 1)
    (2 + lbas) (nr_lbas - lbas - 2) (memset 0 16) (if is_primary then 2 else nr_lbas - lbas - 1)
    (GPT_PTA_SIZE nr_files) GPT_PT_ENTRY_SIZE crc_partitions.

(** The header of the partition table in [pt]. *)
Definition create_gpt_partition_header (size nr_files : Z) (pt : list Z) (is_primary : bool) : list Z :=
  let crc_partitions := efi_crc32 (sub pt 0 (GPT_PT_ENTRY_SIZE * GPT_PTA_SIZE nr_files)) in
  let header crc := gpt_header_bytes (gpt_header_of size nr_files crc_partitions is_primary crc) in
  header (efi_crc32 (header 0)).

(** The bytes of the name: empty if it is too long or not ASCII. *)
Definition gpt_name (filename : list Z) : list Z :=
  if (Z.of_nat (length filename) <? 36) && forallb (fun c => c <=? 127) filename
  then concat ((fun c => [c; 0]) <$> filename) else [].

(** The entry, into [out] at [offset]. *)
Definition create_gpt_partition_table_entry (r : region buffer) (f : file) (bootable : bool) (out : list Z) (offset : Z)
    : list Z :=
  let out := splice out (gpt_entry_bytes (GptEntry (fi_type_guid f) (fi_guid f) (r_start r / SECTOR_SIZE)
    (r_end r / SECTOR_SIZE) (if bootable then 4 else 0))) offset in
  splice out (gpt_name (fi_filename f)) (offset + gpt_entry_name).

Fixpoint gpt_partition_table (files : list file) (l : list (region buffer)) (out : list Z) (offset : Z) : AM (list Z) :=
  match l with
  | [] => mret out
  | r :: l =>
      match r_type r with
      | region_file i =>
          hassert (i <? GPT_PTA_SIZE (Z.of_nat (length files)));;
          match files !! Z.to_nat i with
          | None => hfail OutOfBounds
          | Some f =>
              gpt_partition_table files l (create_gpt_partition_table_entry r f (i =? 0) out offset)
                (offset + GPT_PT_ENTRY_SIZE)
          end
      | _ => gpt_partition_table files l out offset
      end
  end.

(** [create_gpt_partition_table], into [out] at [offset]. *)
Definition create_gpt_partition_table (out : list Z) (offset : Z) : PM (list Z) :=
  st ← p_get id;
  p_lift (gpt_partition_table (v_items (pt_files st)) (v_items (pt_regions st)) out offset).

Definition create_gpt_protective_mbr : PM unit :=
  rs ← p_get pt_regions;
  let end_ := u64 (virtual_size rs - 1) in
  let end_ := if UINT32_MAX * SECTOR_SIZE <? end_ then UINT32_MAX * SECTOR_SIZE else end_ in
  entry ← p_lift (create_mbr_partition_table_entry 512 (u64 (end_ - 512 + 1)) false 0xee);
  write_primary entry 0x1be;;
  write_primary [0x55; 0xaa] 0x1fe.

Definition create_gpt_layout : PM unit :=
  st ← p_get id;
  let size := virtual_size (pt_regions st) in
  let n := v_len (pt_files st) in
  create_gpt_protective_mbr;;
  p ← p_get pt_primary;
  match p with
  | None => p_crash NullPointer
  | Some p =>
      p ← create_gpt_partition_table p (2 * SECTOR_SIZE);
      p_modify (with_primary (Some p));;
      write_primary (create_gpt_partition_header size n (drop (Z.to_nat (2 * SECTOR_SIZE)) p) true) SECTOR_SIZE;;
      s ← p_get pt_secondary;
      match s with
      | None => p_crash NullPointer
      | Some s =>
          s ← create_gpt_partition_table s 0;
          p_modify (with_secondary (Some s));;
          write_secondary (create_gpt_partition_header size n s false) (GPT_PTA_LBAs n * SECTOR_SIZE)
      end
  end.

(** ** [virtual-disk.c] *)

Definition append_region (len pre post : Z) (type : region_type buffer) : PM unit :=
  rs ← p_get pt_regions;
  '(r, rs) ← p_lift (append_region_len rs len pre post type);
  p_modify (with_regions rs);;
  if r =? -1 then p_return_error else mret tt.

(** The sectors of the EBRs. *)
Fixpoint allocate_ebrs (n : nat) : PM unit :=
  match n with
  | O => mret tt
  | S n =>
      e ← p_calloc SECTOR_SIZE;
      p_modify (fun st => with_ebr (Some (match pt_ebr st with Some l => l ++ [e] | None => [e] end)) st);;
      allocate_ebrs n
  end.

Definition allocate_tables : PM unit :=
  st ← p_get id;
  let n := v_len (pt_files st) in
  match pt_parttype st with
  | PARTTYPE_MBR =>
      p ← p_calloc SECTOR_SIZE;
      p_modify (with_primary (Some p));;
      if 4 <? n then
        ok ← p_lift allocate;
        if negb ok then p_return_error
        else
          p_modify (with_ebr (Some []));;
          allocate_ebrs (Z.to_nat (n - 3))
      else mret tt
  | _ =>
      p ← p_calloc ((2 + GPT_PTA_LBAs n) * SECTOR_SIZE);
      p_modify (with_primary (Some p));;
      s ← p_calloc ((GPT_PTA_LBAs n + 1) * SECTOR_SIZE);
      p_modify (with_secondary (Some s))
  end.

(** The partitions from the [i]-th on. *)
Fixpoint append_partitions (files : list file) (i : Z) : PM unit :=
  match files with
  | [] => mret tt
  | f :: files =>
      st ← p_get id;
      aligned ← p_lift (is_aligned64 (u64 (virtual_size (pt_regions st))) SECTOR_SIZE);
      p_assert aligned;;
      (if bool_decide (pt_parttype st = PARTTYPE_MBR) && (4 <? v_len (pt_files st)) && (3 <=? i)
       then append_region SECTOR_SIZE 0 0 (region_data (ebr_buffer (i - 3))) else mret tt);;
      append_region (fi_size f) (fi_alignment f) SECTOR_SIZE (region_file i);;
      append_partitions files (i + 1)
  end.

(** The final check of the alignments. *)
Fixpoint check_alignments (files : list file) (l : list (region buffer)) : AM unit :=
  match l with
  | [] => mret tt
  | r :: l =>
      (match r_type r with
       | region_file i =>
           match files !! Z.to_nat i with
           | None => hfail OutOfBounds
           | Some f => aligned ← is_aligned64 (r_start r) (fi_alignment f); hassert aligned
           end
       | _ => mret tt
       end);;
      check_alignments files l
  end.

Definition create_partition_table : PM unit :=
  st ← p_get id;
  p_assert (0 <? nr_regions (pt_regions st));;
  p_assert (match pt_primary st with Some _ => true | None => false end);;
  match pt_parttype st with
  | PARTTYPE_GPT =>
      p_assert (match pt_secondary st with Some _ => true | None => false end);;
      create_gpt_layout
  | PARTTYPE_MBR => create_mbr_layout
  | PARTTYPE_UNSET => create_gpt_layout
  end.

Definition create_virtual_disk_layout : PM unit :=
  st ← p_get id;
  p_assert (nr_regions (pt_regions st) =? 0);;
  p_assert (0 <? v_len (pt_files st));;
  p_assert (match pt_primary st with Some _ => false | None => true end);;
  p_assert (match pt_secondary st with Some _ => false | None => true end);;
  allocate_tables;;
  let n := v_len (pt_files st) in
  (match pt_parttype st with
   | PARTTYPE_MBR => append_region SECTOR_SIZE 0 0 (region_data primary_buffer)
   | _ => append_region ((2 + GPT_PTA_LBAs n) * SECTOR_SIZE) 0 0 (region_data primary_buffer)
   end);;
  append_partitions (v_items (pt_files st)) 0;;
  (match pt_parttype st with
   | PARTTYPE_GPT => append_region ((GPT_PTA_LBAs n + 1) * SECTOR_SIZE) 0 0 (region_data secondary_buffer)
   | _ => mret tt
   end);;
  rs ← p_get pt_regions;
  p_assert (0 <? nr_regions rs);;
  p_lift (check_alignments (v_items (pt_files st)) (v_items rs));;
  create_partition_table.

(** [partitioning_get_ready]: 0 or -1. *)
Definition partitioning_get_ready (st : partitioning) : AM (Z * partitioning) :=
  '(o, st) ← create_virtual_disk_layout st;
  mret (match o with Some _ => 0 | None => -1 end, st).

(** ** Callbacks *)

(** The plugin's globals, and the files by [fi_fd]. *)
Record partitioning_world : Type := PartitioningWorld {
  pw_state : partitioning;
  pw_os : Z -> os_file;
}.

(** What a data region points to. *)
Definition buffer_data (st : partitioning) (b : buffer) : option (list Z) :=
  match b with
  | primary_buffer => pt_primary st
  | secondary_buffer => pt_secondary st
  | ebr_buffer i => match pt_ebr st with Some l => l !! Z.to_nat i | None => None end
  end.

(** The length of the rest of a region, at most [count]. *)
Definition piece (r : region buffer) (count offset : Z) : Z :=
  let len := u64 (r_end r - offset + 1) in if count <? len then count else len.

(** A result: -1 with the [errno] that was set, if any. *)
Inductive io_result : Type := IoDone | IoFailed (errno : option Z).

(** The loop of [partitioning_pread].  [got] is what was read so far; every
    iteration adds at least a byte. *)
Fixpoint pread_loop (fuel : nat) (st : partitioning) (os : Z -> os_file) (count offset : Z) (got : list Z)
    : outcome (io_result * list Z * (Z -> os_file)) :=
  if 0 <? count then
    match fuel with
    | O => Crash OutOfFuel
    | S fuel =>
        match find_region (pt_regions st) offset with
        | None => Crash NullPointer
        | Some r =>
            let len := piece r count offset in
            let continue os data :=
              let len := Z.of_nat (length data) in
              pread_loop fuel st os (u32 (count - len)) (u64 (offset + len)) (got ++ data) in
            match r_type r with
            | region_file i =>
                match v_items (pt_files st) !! Z.to_nat i with
                | None => Crash AssertFailed
                | Some f =>
                    match of_pread (os (fi_fd f)) len (offset - r_start r) with
                    | (inl errno, file) => Ok (IoFailed (Some errno), got, <[fi_fd f := file]> os)
                    | (inr [], file) => Ok (IoFailed None, got, <[fi_fd f := file]> os)
                    | (inr data, file) => continue (<[fi_fd f := file]> os) data
                    end
                end
            | region_data b =>
                match buffer_data st b with
                | None => Crash NullPointer
                | Some data => continue os (sub data (offset - r_start r) len)
                end
            | region_zero => continue os (memset 0 len)
            end
        end
    end
  else Ok (IoDone, got, os).

(** The loop of [partitioning_pwrite]; a call of [pwrite] writes at least a
    byte. *)
Fixpoint pwrite_loop (fuel : nat) (st : partitioning) (os : Z -> os_file) (buf : list Z) (count offset : Z)
    : outcome (io_result * (Z -> os_file)) :=
  if 0 <? count then
    match fuel with
    | O => Crash OutOfFuel
    | S fuel =>
        match find_region (pt_regions st) offset with
        | None => Crash NullPointer
        | Some r =>
            let len := piece r count offset in
            let continue os len :=
              pwrite_loop fuel st os (drop (Z.to_nat len) buf) (u32 (count - len)) (u64 (offset + len)) in
            match r_type r with
            | region_file i =>
                match v_items (pt_files st) !! Z.to_nat i with
                | None => Crash AssertFailed
                | Some f =>
                    match of_pwrite (os (fi_fd f)) buf len (offset - r_start r) with
                    | (inl errno, file) => Ok (IoFailed (Some errno), <[fi_fd f := file]> os)
                    | (inr n, file) => continue (<[fi_fd f := file]> os) n
                    end
                end
            | region_data b =>
                match buffer_data st b with
                | None => Crash NullPointer
                | Some data =>
                    if memeq (drop (Z.to_nat (offset - r_start r)) data) buf len then continue os len
                    else Ok (IoFailed (Some EIO), os)
                end
            | region_zero => if is_zero (take (Z.to_nat len) buf) len then continue os len else Ok (IoFailed (Some EIO), os)
            end
        end
    end
  else Ok (IoDone, os).

(** [fdatasync] of one file after another. *)
Fixpoint flush_loop (files : list file) (os : Z -> os_file) : io_result * (Z -> os_file) :=
  match files with
  | [] => (IoDone, os)
  | f :: files =>
      match pop_io (os (fi_fd f)) with
      | (IoErr errno, file) => (IoFailed (Some errno), <[fi_fd f := file]> os)
      | (_, file) => flush_loop files (<[fi_fd f := file]> os)
      end
  end.

Section Callbacks.
Context {W : Type} (get : W -> partitioning_world) (set : partitioning_world -> W -> W).

Definition io_value (res : io_result) : Z := match res with IoDone => 0 | IoFailed _ => -1 end.
Definition io_errno (res : io_result) (t : thread) : thread :=
  match res with IoFailed (Some e) => with_errno e t | _ => t end.

Definition partitioning_open (readonly : bool) : cb W Z := fun t w => Ok (1, t, w).

Definition partitioning_get_size (handle : Z) : cb W Z := fun t w =>
  Ok (virtual_size (pt_regions (pw_state (get w))), t, w).

Definition partitioning_can_multi_conn (handle : Z) : cb W Z := fun t w => Ok (1, t, w).
Definition partitioning_can_cache (handle : Z) : cb W Z := fun t w => Ok (NBDKIT_CACHE_EMULATE, t, w).

Definition partitioning_pread (handle count offset : Z) : cb W (Z * list Z) := fun t w =>
  let pw := get w in
  match pread_loop (Z.to_nat count) (pw_state pw) (pw_os pw) count offset [] with
  | Crash c => Crash c
  | Ok (res, buf, os) => Ok ((io_value res, buf), io_errno res t, set (PartitioningWorld (pw_state pw) os) w)
  end.

Definition partitioning_pwrite (handle : Z) (buf : list Z) (count offset : Z) : cb W Z := fun t w =>
  let pw := get w in
  match pwrite_loop (Z.to_nat count) (pw_state pw) (pw_os pw) buf count offset with
  | Crash c => Crash c
  | Ok (res, os) => Ok (io_value res, io_errno res t, set (PartitioningWorld (pw_state pw) os) w)
  end.

Definition partitioning_flush (handle : Z) : cb W Z := fun t w =>
  let pw := get w in
  let '(res, os) := flush_loop (v_items (pt_files (pw_state pw))) (pw_os pw) in
  Ok (io_value res, io_errno res t, set (PartitioningWorld (pw_state pw) os) w).

Definition partitioning_plugin : nbdkit_plugin W :=
  Plugin 1 1 None None partitioning_open None None partitioning_get_size None
    None None None None None None None None
    (Some partitioning_can_multi_conn) (Some partitioning_can_cache)
    None (Some partitioning_pread) None (Some partitioning_pwrite) None (Some partitioning_flush)
    None None None None None None.
End Callbacks.
