(* ===== verification/PartitioningDisk.v ===== *)
(** * The partitioning plugin: its disk

    The layout that [create_virtual_disk_layout] makes, what the partition
    tables contain, and the reading and writing callbacks as operations on
    the virtual disk. *)

From stdpp Require Import functions.
From S2P Require Import Prelude NbdProtocol Extents Exports Server Connections Backend Plugin Filter Bytes Io Parse Vector Bitmap Layer Serve Regions Gpt Partitioning.

(** ** The layout *)

Implicit Types (gpt : bool) (files : list file) (f : file) (st : partitioning) (l items : list (region buffer)) (r : region buffer).

(** The partitions of [files], numbered from [i], on a disk that has been laid
    out up to [s]. *)
Fixpoint partition_regions (logical : bool) files (i s : Z) : list (region buffer) :=
  match files with
  | [] => []
  | f :: files =>
      let e := if logical && (3 <=? i) then [Region s SECTOR_SIZE (s + SECTOR_SIZE - 1) (region_data (ebr_buffer (i - 3)))] else [] in
      let new := e ++ placed (regions_end s e) (fi_size f) (fi_alignment f) SECTOR_SIZE (region_file i) in
      new ++ partition_regions logical files (i + 1) (regions_end s new)
  end.

Definition table_size (gpt : bool) files : Z :=
  if gpt then (2 + GPT_PTA_LBAs (Z.of_nat (length files))) * SECTOR_SIZE else SECTOR_SIZE.
Definition backup_size files : Z := (GPT_PTA_LBAs (Z.of_nat (length files)) + 1) * SECTOR_SIZE.

Definition has_logical (gpt : bool) files : bool := negb gpt && (4 <? Z.of_nat (length files)).

(** The tables and partitions, up to the backup table of a GPT disk. *)
Definition front_regions (gpt : bool) files : list (region buffer) :=
  Region 0 (table_size gpt files) (table_size gpt files - 1) (region_data primary_buffer) ::
  partition_regions (has_logical gpt files) files 0 (table_size gpt files).

Definition disk_regions (gpt : bool) files : list (region buffer) :=
  let front := front_regions gpt files in
  let s := regions_end 0 front in
  front ++ (if gpt then [Region s (backup_size files) (s + backup_size files - 1) (region_data secondary_buffer)] else []).

Definition disk_size (gpt : bool) files : Z := regions_end 0 (disk_regions gpt files).

(** A file as the parameters give it, with an alignment that is a power of 2
    (see [alignment_aborts]). *)
Record file_ok f : Prop := FileOk {
  fo_size : 0 < fi_size f;
  fo_alignment : exists n, 9 <= n <= 20 /\ fi_alignment f = 2 ^ n;
  fo_mbr_id : is_byte (fi_mbr_id f);
  fo_guid : length (fi_guid f) = 16%nat;
  fo_type_guid : length (fi_type_guid f) = 16%nat;
}.

(** ** The order of the regions

    Regions other than padding have a rank, and are in the order of their
    ranks. *)
Definition rank r : option Z :=
  match r_type r with
  | region_data primary_buffer => Some (-2)
  | region_file i => Some (2 * i)
  | region_data (ebr_buffer i) => Some (2 * (i + 3) - 1)
  | region_data secondary_buffer => Some INT64_MAX
  | region_zero => None
  end.

Fixpoint ranked (lo : Z) l : Prop :=
  match l with
  | [] => True
  | r :: l => match rank r with None => ranked lo l | Some k => lo <= k /\ ranked (k + 1) l end
  end.

Lemma ranked_mono lo lo' l : lo' <= lo -> ranked lo l -> ranked lo' l.
Proof.
  revert lo lo'. induction l as [|r l IH]; intros lo lo' Hle; simpl; [done|].
  destruct (rank r); [|by apply IH]. intros [? ?]. split; [lia|done].
Qed.

Lemma ranked_lookup l : forall lo i r k, ranked lo l -> l !! i = Some r -> rank r = Some k -> lo <= k.
Proof.
  induction l as [|r0 l IH]; intros lo i r k; [done|]. simpl. intros Hr Hi Hk.
  destruct i as [|i]; simpl in Hi.
  - simplify_eq. rewrite Hk in Hr. by destruct Hr.
  - destruct (rank r0) as [k0|]; [|by eapply IH]. destruct Hr as [? Hr]. specialize (IH _ _ _ _ Hr Hi Hk). lia.
Qed.

Lemma ranked_ordered l : forall lo i j x y kx ky, ranked lo l -> l !! i = Some x -> l !! j = Some y ->
  rank x = Some kx -> rank y = Some ky -> (i < j)%nat -> kx < ky.
Proof.
  induction l as [|r0 l IH]; intros lo i j x y kx ky; [done|]. intros Hr Hi Hj Hx Hy Hij.
  destruct j as [|j]; [lia|]. simpl in Hr, Hj. destruct i as [|i]; simpl in Hi.
  - simplify_eq. rewrite Hx in Hr. destruct Hr as [_ Hr]. pose proof (ranked_lookup _ _ _ _ _ Hr Hj Hy). lia.
  - destruct (rank r0) as [k0|]; [destruct Hr as [_ Hr]|]; (eapply (IH _ i j x y); [exact Hr|done..|lia]).
Qed.

(** Ranks tell indexes apart. *)
Lemma ranked_index l lo i j x y kx ky : ranked lo l -> l !! i = Some x -> l !! j = Some y ->
  rank x = Some kx -> rank y = Some ky -> (kx < ky <-> (i < j)%nat) /\ (kx = ky <-> i = j).
Proof.
  intros Hr Hi Hj Hx Hy. destruct (lt_eq_lt_dec i j) as [[Hlt|<-]|Hlt].
  - pose proof (ranked_ordered _ _ _ _ _ _ _ _ Hr Hi Hj Hx Hy Hlt). lia.
  - simplify_eq. lia.
  - pose proof (ranked_ordered _ _ _ _ _ _ _ _ Hr Hj Hi Hy Hx Hlt). lia.
Qed.

Lemma ranked_padding lo s a l : ranked lo l -> ranked lo (padding s a ++ l).
Proof. intros Hr. unfold padding. by destruct (_ || _)%bool. Qed.

Lemma ranked_placed lo s len pre i l :
  lo <= 2 * i -> ranked (2 * i + 1) l -> ranked lo (placed s len pre SECTOR_SIZE (region_file i) ++ l).
Proof.
  intros Hlo Hl. unfold placed. rewrite <- app_assoc. apply ranked_padding. simpl. split; [done|]. by apply ranked_padding.
Qed.

Lemma ranked_partitions logical files : forall i s tail,
  0 <= i -> ranked (2 * (i + Z.of_nat (length files)) - 1) tail ->
  ranked (2 * i - 1) (partition_regions logical files i s ++ tail).
Proof.
  induction files as [|f files IH]; intros i s tail Hi Ht.
  { eapply ranked_mono; [|exact Ht]. simpl. lia. }
  assert (Hrest : forall s', ranked (2 * i + 1) (partition_regions logical files (i + 1) s' ++ tail)).
  { intros s'. replace (2 * i + 1) with (2 * (i + 1) - 1) by lia. apply IH; [lia|].
    eapply ranked_mono; [|exact Ht]. cbn [length]. lia. }
  cbn [partition_regions]. rewrite <- !app_assoc.
  destruct (logical && (3 <=? i)); simpl; [split; [lia|]|]; (apply ranked_placed; [lia|apply Hrest]).
Qed.

Lemma disk_ranked gpt files : Z.of_nat (length files) <= MAX_REGIONS -> ranked (-2) (disk_regions gpt files).
Proof.
  intros Hn. unfold disk_regions, front_regions. simpl. split; [lia|].
  apply (ranked_partitions _ files 0); [lia|]. unfold MAX_REGIONS in Hn. destruct gpt; simpl; [|done]. limits. lia.
Qed.

(** ** The partitions in the layout *)

Lemma sector_alignment : alignment_ok SECTOR_SIZE.
Proof. right. by exists 9. Qed.

Lemma file_alignment f : file_ok f -> alignment_ok (fi_alignment f) /\ fi_alignment f <> 0 /\ (SECTOR_SIZE | fi_alignment f).
Proof.
  intros [_ (n & Hn & ->) _ _ _]. split; [right; exists n; split; [lia|done]|]. split; [lia|].
  exists (2 ^ (n - 9)). change SECTOR_SIZE with (2 ^ 9). rewrite <- Z.pow_add_r by lia. f_equal. lia.
Qed.

Lemma partitions_contiguous logical files : forall i s, 0 <= s -> Forall file_ok files -> (SECTOR_SIZE | s) ->
  contiguous s (partition_regions logical files i s) /\
  (SECTOR_SIZE | regions_end s (partition_regions logical files i s)).
Proof.
  induction files as [|f files IH]; intros i s Hs Hall Hd; [done|].
  inversion_clear Hall as [|?? Hf Hall']. destruct (file_alignment f Hf) as (Ha & Hne & Hda).
  cbn [partition_regions]. set (e := if logical && (3 <=? i) then _ else _).
  assert (He : contiguous s e /\ s <= regions_end s e /\ (SECTOR_SIZE | regions_end s e)).
  { subst e. destruct (logical && (3 <=? i)); simpl; [|by auto with lia]. unfold SECTOR_SIZE in *.
    split; [repeat split; lia|]. split; [lia|]. by apply Z.divide_add_r. }
  destruct He as (Hce & Hle & Hde). pose proof (fo_size _ Hf) as Hpos.
  pose proof (placed_contiguous (regions_end s e) (fi_size f) (fi_alignment f) SECTOR_SIZE (region_file i : region_type buffer)
    ltac:(lia) Hpos Ha sector_alignment) as Hcp.
  pose proof (regions_end_le _ _ Hcp) as Hep. rewrite placed_end in Hep.
  assert (Hdn : (SECTOR_SIZE | regions_end s (e ++ placed (regions_end s e) (fi_size f) (fi_alignment f) SECTOR_SIZE (region_file i)))).
  { rewrite regions_end_app, placed_end. pose proof (padded_mono (regions_end s e) (fi_alignment f) ltac:(lia) Ha).
    apply padded_spec; [lia|apply sector_alignment|done]. }
  destruct (IH (i + 1) (regions_end s (e ++ placed (regions_end s e) (fi_size f) (fi_alignment f) SECTOR_SIZE (region_file i))))
    as [Hc' Hd']; [rewrite regions_end_app, placed_end; lia|done|done|].
  rewrite !contiguous_app, !regions_end_app in *. done.
Qed.

(** The end of a file's partition: the file is padded to whole sectors. *)
Definition partition_end r : Z := padded (r_start r + r_len r) SECTOR_SIZE.

(** The region [r] holds the file [f], the [i]-th, in the layout [l], *)
Record file_region l (i : Z) f r : Prop := FileRegion {
  fr_in : r ∈ l;
  fr_type : r_type r = region_file i;
  fr_len : r_len r = fi_size f;
  fr_alignment : (fi_alignment f | r_start r);
  fr_sector : (SECTOR_SIZE | r_start r);
  fr_padding x : r_end r < x < partition_end r -> exists z, z ∈ l /\ r_type z = region_zero /\ r_start z <= x <= r_end z;
}.

(** and [e] is its EBR. *)
Record ebr_region l (i : Z) e r : Prop := EbrRegion {
  er_in : e ∈ l;
  er_type : r_type e = region_data (ebr_buffer (i - 3));
  er_len : r_len e = SECTOR_SIZE;
  er_sector : (SECTOR_SIZE | r_start e);
  er_before : r_start e + SECTOR_SIZE <= r_start r;
}.

Lemma file_region_mono l l' i f r : (forall r, r ∈ l -> r ∈ l') -> file_region l i f r -> file_region l' i f r.
Proof.
  intros Hl [H1 H2 H3 H4 H5 H6]. split; auto. intros x Hx. destruct (H6 x Hx) as (z & Hz & ?). exists z. auto.
Qed.

Lemma ebr_region_mono l l' i e r : (forall r, r ∈ l -> r ∈ l') -> ebr_region l i e r -> ebr_region l' i e r.
Proof. intros Hl [H1 H2 H3 H4 H5]. split; auto. Qed.

(** A region placed at a whole sector. *)
Lemma placed_file s i f : 0 <= s -> file_ok f -> (SECTOR_SIZE | s) ->
  exists r, s <= r_start r /\
    file_region (placed s (fi_size f) (fi_alignment f) SECTOR_SIZE (region_file i)) i f r.
Proof.
  intros Hs Hf Hd. destruct (file_alignment f Hf) as (Ha & Hne & Hda). pose proof (fo_size _ Hf) as Hpos.
  destruct (padded_spec s (fi_alignment f) Hs Ha Hne) as (Hp & Hdp).
  unfold placed. set (s1 := padded s (fi_alignment f)) in *.
  exists (Region s1 (fi_size f) (s1 + fi_size f - 1) (region_file i)). split; [simpl; lia|].
  split; simpl; [by apply elem_of_app; right; left|done|done|done|by etrans|].
  unfold partition_end. simpl. intros x Hx.
  pose proof (padding_contiguous (D := buffer) (s1 + fi_size f) SECTOR_SIZE ltac:(lia) sector_alignment) as Hc.
  rewrite <- (padding_end (D := buffer)) in Hx.
  destruct (contiguous_covers _ _ x Hc ltac:(lia)) as (j & z & Hj & Hz).
  exists z. split; [|split; [|done]].
  - apply elem_of_app. right. right. by eapply list_elem_of_lookup_2.
  - unfold padding in Hj. destruct (_ || _)%bool in Hj; [done|]. apply list_lookup_singleton_Some in Hj as [_ <-]. done.
Qed.

Lemma partitions_lookup logical files : forall i s k f, 0 <= s -> Forall file_ok files -> (SECTOR_SIZE | s) ->
  files !! k = Some f ->
  exists r, s <= r_start r /\ file_region (partition_regions logical files i s) (i + Z.of_nat k) f r /\
    (logical && (3 <=? i + Z.of_nat k) = true -> exists e, s <= r_start e /\
       ebr_region (partition_regions logical files i s) (i + Z.of_nat k) e r).
Proof.
  induction files as [|f0 files IH]; intros i s k f Hs Hall Hd Hk; [done|].
  inversion_clear Hall as [|?? Hf Hall'].
  pose proof (partitions_contiguous logical [f0] i s Hs ltac:(by constructor) Hd) as [Hc1 Hd1].
  cbn [partition_regions] in Hc1, Hd1 |- *. rewrite app_nil_r in Hc1, Hd1. pose proof (regions_end_le _ _ Hc1) as Hle.
  set (e := if logical && (3 <=? i) then _ else _) in *.
  assert (He : contiguous s e /\ s <= regions_end s e /\ (SECTOR_SIZE | regions_end s e)).
  { subst e. destruct (logical && (3 <=? i)); simpl; [|by auto with lia]. unfold SECTOR_SIZE in *.
    split; [repeat split; lia|]. split; [lia|]. by apply Z.divide_add_r. }
  destruct He as (Hce & Hle' & Hde).
  set (p := placed (regions_end s e) (fi_size f0) (fi_alignment f0) SECTOR_SIZE (region_file i)) in *.
  destruct k as [|k]; simpl in Hk.
  - simplify_eq. rewrite Z.add_0_r. destruct (placed_file (regions_end s e) i f ltac:(lia) Hf Hde) as (r & Hr & Hfr).
    exists r. split; [lia|]. split.
    + eapply file_region_mono; [|exact Hfr]. intros x Hx. rewrite !elem_of_app. auto.
    + intros Hlog. subst e. rewrite Hlog in *. simpl in Hr.
      exists (Region s SECTOR_SIZE (s + SECTOR_SIZE - 1) (region_data (ebr_buffer (i - 3)))). simpl. split; [lia|].
      split; simpl; [left|done..|lia].
  - destruct (IH (i + 1) (regions_end s (e ++ p)) k f ltac:(lia) Hall' Hd1 Hk) as (r & Hr & Hfr & Her).
    replace (i + Z.of_nat (S k)) with (i + 1 + Z.of_nat k) by lia. exists r. split; [lia|]. split.
    + eapply file_region_mono; [|exact Hfr]. intros x Hx. rewrite !elem_of_app. auto.
    + intros Hlog. destruct (Her Hlog) as (e' & Hse & He'). exists e'. split; [lia|].
      eapply ebr_region_mono; [|exact He']. intros x Hx. rewrite !elem_of_app. auto.
Qed.

(** The whole disk. *)
Lemma table_sectors gpt files : Z.of_nat (length files) <= MAX_REGIONS ->
  (SECTOR_SIZE | table_size gpt files) /\ SECTOR_SIZE <= table_size gpt files /\
  (SECTOR_SIZE | backup_size files) /\ 0 < backup_size files /\
  (GPT_PTA_SIZE (Z.of_nat (length files)) * GPT_PT_ENTRY_SIZE = GPT_PTA_LBAs (Z.of_nat (length files)) * SECTOR_SIZE) /\
  Z.of_nat (length files) <= GPT_PTA_SIZE (Z.of_nat (length files)) < Z.of_nat (length files) + 128 /\
  (0 < Z.of_nat (length files) -> 128 <= GPT_PTA_SIZE (Z.of_nat (length files))).
Proof.
  intros Hn. set (n := Z.of_nat (length files)) in *.
  assert (Hp : GPT_PTA_SIZE n = n + 127 - (n + 127) mod 2 ^ 7).
  { unfold GPT_PTA_SIZE, GPT_MIN_PARTITIONS. unfold MAX_REGIONS in Hn.
    rewrite u64_small by (limits; lia). change (- (128)) with (- 2 ^ 7). rewrite land_neg_pow2 by (limits; lia).
    f_equal; [|f_equal]; lia. }
  pose proof (Z.mod_pos_bound (n + 127) (2 ^ 7) ltac:(lia)) as Hm.
  assert (Hd : (128 | GPT_PTA_SIZE n)) by (rewrite Hp; by apply divide_sub_mod). destruct Hd as [q Hq].
  assert (Hl : GPT_PTA_LBAs n = q * 32).
  { unfold GPT_PTA_LBAs, GPT_PT_ENTRY_SIZE, SECTOR_SIZE. unfold MAX_REGIONS in Hn. rewrite u64_small by (limits; lia).
    rewrite Hq. symmetry. apply Z.div_unique_exact; lia. }
  unfold table_size, backup_size. fold n. rewrite Hl, Hq. unfold SECTOR_SIZE, GPT_PT_ENTRY_SIZE. change (2 ^ 7) with 128 in *.
  split; [destruct gpt; [by exists (2 + q * 32)|by exists 1]|]. split; [destruct gpt; lia|].
  split; [by exists (q * 32 + 1)|]. lia.
Qed.

Definition gpt_tail (gpt : bool) files : list (region buffer) :=
  let s := regions_end 0 (front_regions gpt files) in
  if gpt then [Region s (backup_size files) (s + backup_size files - 1) (region_data secondary_buffer)] else [].

Lemma disk_contiguous gpt files : Z.of_nat (length files) <= MAX_REGIONS -> Forall file_ok files ->
  contiguous 0 (front_regions gpt files) /\ (SECTOR_SIZE | regions_end 0 (front_regions gpt files)) /\
  contiguous 0 (disk_regions gpt files) /\ (SECTOR_SIZE | disk_size gpt files).
Proof.
  intros Hn Hall. destruct (table_sectors gpt files Hn) as (Hd & Hpos & Hdb & Hb & _). unfold SECTOR_SIZE in Hpos.
  destruct (partitions_contiguous (has_logical gpt files) files 0 (table_size gpt files) ltac:(lia) Hall Hd) as [Hc Hdc].
  assert (Hfc : contiguous 0 (front_regions gpt files)) by (simpl; repeat split; (done || lia)).
  assert (Hfd : (SECTOR_SIZE | regions_end 0 (front_regions gpt files))) by exact Hdc.
  do 2 (split; [done|]). unfold disk_size, disk_regions. destruct gpt; [|by rewrite !app_nil_r].
  rewrite contiguous_app, regions_end_app. cbn [contiguous regions_end r_start r_len r_end]. split; [|by apply Z.divide_add_r].
  split; [done|]. repeat split; lia.
Qed.

Lemma disk_lookup gpt files k f : Z.of_nat (length files) <= MAX_REGIONS -> Forall file_ok files -> files !! k = Some f ->
  exists r, table_size gpt files <= r_start r /\ file_region (disk_regions gpt files) (Z.of_nat k) f r /\
    (has_logical gpt files && (3 <=? Z.of_nat k) = true -> exists e, table_size gpt files <= r_start e /\
       ebr_region (disk_regions gpt files) (Z.of_nat k) e r).
Proof.
  intros Hn Hall Hk. destruct (table_sectors gpt files Hn) as (Hd & Hpos & _). unfold SECTOR_SIZE in Hpos.
  destruct (partitions_lookup (has_logical gpt files) files 0 (table_size gpt files) k f ltac:(lia) Hall Hd Hk)
    as (r & Hr & Hfr & He). simpl in Hfr, He.
  assert (Hin : forall x, x ∈ partition_regions (has_logical gpt files) files 0 (table_size gpt files) ->
    x ∈ disk_regions gpt files).
  { intros x Hx. unfold disk_regions, front_regions. simpl. right. apply elem_of_app. by left. }
  exists r. split; [done|]. split; [by eapply file_region_mono|]. intros Hlog. destruct (He Hlog) as (e & Hse & Her).
  exists e. split; [done|]. by eapply ebr_region_mono.
Qed.

(** ** Programs of the plugin

    [m] does not crash, returns -1 only if an allocation fails, and otherwise
    ends with [P]. *)
Definition runs {A} (m : PM A) (P : A -> partitioning -> Prop) st : Prop :=
  forall mem, hwp (m st) (fun '(o, st') mem' =>
    match o with Some a => P a st' /\ (mem = [] -> mem' = []) | None => mem <> [] end) mem.

Lemma runs_ret {A} (a : A) P st : P a st -> runs (mret a) P st.
Proof. intros HP mem. by apply hwp_ret. Qed.

Lemma runs_bind {A B} (m : PM A) (k : A -> PM B) P st :
  runs m (fun a => runs (k a) P) st -> runs (m ≫= k) P st.
Proof.
  intros Hm mem. apply hwp_bind. eapply hwp_mono; [apply Hm|]. intros [[a|] st'] mem'; [|by intros; apply hwp_ret].
  intros [Hk Hmem]. eapply hwp_mono; [apply Hk|]. intros [[b|] st''] mem''; naive_solver.
Qed.

Lemma runs_mono {A} (m : PM A) (P Q : A -> partitioning -> Prop) st :
  runs m P st -> (forall a st', P a st' -> Q a st') -> runs m Q st.
Proof.
  intros Hm HPQ mem. eapply hwp_mono; [apply Hm|]. intros [[a|] st'] mem'; naive_solver.
Qed.

Lemma runs_get {A} (g : partitioning -> A) P st : P (g st) st -> runs (p_get g) P st.
Proof. intros HP mem. by apply hwp_ret. Qed.

Lemma runs_modify (g : partitioning -> partitioning) (P : unit -> partitioning -> Prop) st :
  P tt (g st) -> runs (p_modify g) P st.
Proof. intros HP mem. by apply hwp_ret. Qed.

Lemma runs_assert b (P : unit -> partitioning -> Prop) st : b = true -> P tt st -> runs (p_assert b) P st.
Proof. intros -> HP. by apply runs_ret. Qed.

(** Allocating code that does not allocate after all. *)
Lemma runs_lift {A} (m : AM A) (P : A -> partitioning -> Prop) st :
  (forall mem, hwp m (fun a mem' => P a st /\ mem' = mem) mem) -> runs (p_lift m) P st.
Proof.
  intros Hm mem. apply hwp_bind. eapply hwp_mono; [apply Hm|]. intros a mem' [HP ->]. by apply hwp_ret.
Qed.

Lemma runs_malloc {A} (k : PM A) P st :
  runs k P st -> runs (ok ← p_lift allocate; if negb ok then p_return_error else k) P st.
Proof.
  intros Hk mem. apply hwp_bind, hwp_bind, hwp_allocate. intros ok mem' Hok. apply hwp_ret. destruct ok.
  - eapply hwp_mono; [apply Hk|]. intros [[a|] st'] mem''; [|naive_solver]. intros [HP Hm]. split; [done|].
    intros E. by apply Hm, Hok.
  - apply hwp_ret. intros E. by destruct (Hok E).
Qed.

Lemma runs_calloc n (P : list Z -> partitioning -> Prop) st : P (memset 0 n) st -> runs (p_calloc n) P st.
Proof.
  intros HP mem. unfold p_calloc, mbind, PM_bind. apply hwp_bind, hwp_bind, hwp_allocate.
  intros ok mem' Hok. apply hwp_ret. destruct ok; apply hwp_ret.
  - split; [done|]. intros Hm. by apply Hok.
  - intros Hm. by destruct (Hok Hm).
Qed.

Ltac run := first
  [ apply runs_bind | apply runs_get | apply runs_modify | apply runs_assert; [try done|] | apply runs_ret ].

(** ** Building the layout *)

(** [st'] is [st] with the regions [new] added. *)
Definition extended (new : list (region buffer)) st st' : Prop :=
  exists rs, st' = with_regions rs st /\ regions_wf rs /\ v_items rs = v_items (pt_regions st) ++ new /\
    region_size rs = regions_end (region_size (pt_regions st)) new.

Lemma extended_trans new1 new2 st st1 st2 : extended new1 st st1 -> extended new2 st1 st2 -> extended (new1 ++ new2) st st2.
Proof.
  intros (rs1 & -> & Hwf1 & E1 & S1) (rs2 & -> & Hwf2 & E2 & S2). exists rs2. simpl in *.
  split; [done|]. split; [done|]. by rewrite E2, E1, S2, S1, regions_end_app, app_assoc.
Qed.

Lemma extended_nil st : regions_wf (pt_regions st) -> extended [] st st.
Proof. intros Hwf. exists (pt_regions st). rewrite app_nil_r. by destruct st. Qed.

Lemma runs_append_region len pre post type st :
  regions_wf (pt_regions st) -> 0 < len -> alignment_ok pre -> alignment_ok post ->
  let new := placed (region_size (pt_regions st)) len pre post type in
  room (pt_regions st) new -> runs (append_region len pre post type) (fun _ => extended new st) st.
Proof.
  intros Hwf Hl Hpre Hpost new Hroom mem. unfold append_region, mbind, PM_bind.
  apply hwp_bind, hwp_ret, hwp_bind, hwp_bind. eapply hwp_mono; [by apply hwp_append_region|].
  intros [r rs] mem' (Hwf' & Hr & Hm). apply hwp_ret, hwp_bind, hwp_ret.
  destruct Hr as [[-> E]|[-> _]]; apply hwp_ret; simpl.
  - split; [|by intros ?; apply Hm]. exists rs. split; [done|]. split; [done|]. split; [done|].
    unfold region_size. by rewrite E, regions_end_app.
  - intros ->. by destruct (Hm eq_refl).
Qed.

Lemma room_extended new1 new2 st st' : contiguous (region_size (pt_regions st)) (new1 ++ new2) ->
  room (pt_regions st) (new1 ++ new2) -> extended new1 st st' ->
  room (pt_regions st) new1 /\ room (pt_regions st') new2.
Proof.
  intros Hc Hroom (rs & -> & Hwf & E & S).
  assert (Ha : appends (pt_regions st) new1 [] (0, rs) []) by (split; [done|]; split; [by left|done]).
  by destruct (room_app _ _ _ _ _ _ Hc Hroom Ha) as (? & ? & _).
Qed.

Lemma room_app_l (rs : regions buffer) new1 new2 : contiguous (region_size rs) (new1 ++ new2) -> room rs (new1 ++ new2) -> room rs new1.
Proof.
  intros [_ Hc]%contiguous_app [H1 H2]. rewrite regions_end_app in H1. rewrite length_app in H2.
  pose proof (regions_end_le _ _ Hc). split; lia.
Qed.

Lemma placed_plain s len (type : region_type buffer) : placed s len 0 0 type = [Region s len (s + len - 1) type].
Proof. done. Qed.

Lemma extended_wf new st st' : extended new st st' -> regions_wf (pt_regions st') /\
  region_size (pt_regions st') = regions_end (region_size (pt_regions st)) new.
Proof. by intros (rs & -> & ? & _ & ?). Qed.

Lemma runs_append_partitions logical files : forall i st,
  regions_wf (pt_regions st) -> Forall file_ok files -> (SECTOR_SIZE | region_size (pt_regions st)) ->
  logical = bool_decide (pt_parttype st = PARTTYPE_MBR) && (4 <? v_len (pt_files st)) ->
  room (pt_regions st) (partition_regions logical files i (region_size (pt_regions st))) ->
  runs (append_partitions files i) (fun _ => extended (partition_regions logical files i (region_size (pt_regions st))) st) st.
Proof.
  induction files as [|f files IH]; intros i st Hwf Hall Hd Hlog Hroom.
  { simpl. run. by apply extended_nil. }
  pose proof Hall as [Hf Hall']%Forall_cons_1. destruct (region_size_virtual _ Hwf) as [Hv Hv2].
  destruct (partitions_contiguous logical [f] i _ ltac:(by destruct Hv2) ltac:(by constructor) Hd) as [Hc1 Hd1].
  pose proof (proj1 (partitions_contiguous logical (f :: files) i _ ltac:(by destruct Hv2) Hall Hd)) as Hc.
  cbn [append_partitions partition_regions] in *. rewrite app_nil_r in Hc1, Hd1.
  pose proof (room_app_l _ _ _ Hc Hroom) as Hroom1.
  set (s := region_size (pt_regions st)) in *. set (e := if logical && (3 <=? i) then _ else _) in *.
  set (p := placed (regions_end s e) (fi_size f) (fi_alignment f) SECTOR_SIZE (region_file i)) in *.
  run. run. run. apply runs_lift. intros mem. apply hwp_bind, hwp_assert. split; [done|]. apply hwp_ret. split; [|done].
  change (id st) with st. rewrite Hv, u64_small by (limits; lia). change (u64 (SECTOR_SIZE - 1)) with (2 ^ 9 - 1).
  rewrite land_pred_pow2 by lia. change (2 ^ 9) with SECTOR_SIZE. rewrite (proj2 (Z.mod_divide _ SECTOR_SIZE ltac:(unfold SECTOR_SIZE; lia)) Hd).
  run. run. rewrite <- Hlog. run.
  apply (runs_mono _ (fun _ => extended e st)).
  { subst e. destruct (logical && (3 <=? i)); [|run; by apply extended_nil].
    apply runs_append_region; [done|done|by left|by left|]. rewrite placed_plain. by eapply room_app_l. }
  intros [] st1 He. pose proof (extended_wf _ _ _ He) as [Hwf1 Hs1]. fold s in Hs1. run.
  apply (runs_mono _ (fun _ => extended p st1)).
  { subst p. rewrite <- Hs1 in *. apply runs_append_region; [done|apply Hf|by apply file_alignment|apply sector_alignment|].
    rewrite Hs1 in *. by destruct (room_extended _ _ _ _ Hc1 Hroom1 He). }
  intros [] st2 Hp. pose proof (extended_trans _ _ _ _ _ He Hp) as Hep. pose proof (extended_wf _ _ _ Hep) as [Hwf2 Hs2].
  fold s in Hs2. destruct (room_extended _ _ _ _ Hc Hroom Hep) as [_ Hroom2]. rewrite <- Hs2 in Hroom2, Hd1.
  assert (Hlog2 : logical = bool_decide (pt_parttype st2 = PARTTYPE_MBR) && (4 <? v_len (pt_files st2))).
  { by destruct Hep as (rs & -> & _). }
  eapply runs_mono; [by apply IH|]. intros [] st3 H3. rewrite Hs2 in H3. by eapply extended_trans.
Qed.

(** Parameters that suit a disk of the chosen type. *)
Record layout_ok (gpt : bool) files : Prop := LayoutOk {
  lo_files : Forall file_ok files;
  lo_some : (0 < length files)%nat;
  lo_few : Z.of_nat (length files) <= 2 ^ 40;
  lo_size : disk_size gpt files <= INT64_MAX;
  lo_mbr : gpt = false -> disk_size gpt files <= UINT32_MAX * SECTOR_SIZE;
}.

(** The state before [get_ready]. *)
Record configured (gpt : bool) st : Prop := Configured {
  cf_type : pt_parttype st = if gpt then PARTTYPE_GPT else PARTTYPE_MBR;
  cf_layout : layout_ok gpt (v_items (pt_files st));
  cf_regions : pt_regions st = init_regions;
  cf_primary : pt_primary st = None;
  cf_secondary : pt_secondary st = None;
}.

Lemma layout_max gpt files : layout_ok gpt files -> Z.of_nat (length files) <= MAX_REGIONS.
Proof. intros [_ _ H _ _]. unfold MAX_REGIONS. lia. Qed.

(** The memory for the tables. *)
Definition tables_allocated (gpt : bool) files st : partitioning :=
  let zeroes := with_primary (Some (memset 0 (table_size gpt files))) in
  if gpt then with_secondary (Some (memset 0 (backup_size files))) (zeroes st)
  else if has_logical gpt files then with_ebr (Some (replicate (length files - 3) (memset 0 SECTOR_SIZE))) (zeroes st)
  else zeroes st.

Lemma runs_allocate_ebrs n : forall ebrs st, pt_ebr st = Some ebrs ->
  runs (allocate_ebrs n) (fun _ st' => st' = with_ebr (Some (ebrs ++ replicate n (memset 0 SECTOR_SIZE))) st) st.
Proof.
  induction n as [|n IH]; intros ebrs st Hst; simpl.
  - run. rewrite app_nil_r, <- Hst. by destruct st.
  - run. apply runs_calloc. run. run. rewrite Hst. eapply runs_mono; [by apply IH|].
    intros [] st' ->. simpl. by rewrite <- app_assoc.
Qed.

Lemma runs_allocate_tables gpt st : pt_parttype st = (if gpt then PARTTYPE_GPT else PARTTYPE_MBR) ->
  runs allocate_tables (fun _ st' => st' = tables_allocated gpt (v_items (pt_files st)) st) st.
Proof.
  intros Ht. unfold allocate_tables, tables_allocated, has_logical, table_size, backup_size, v_len. run. run.
  change (id st) with st. rewrite Ht. destruct gpt; simpl.
  - run. apply runs_calloc. run. run. run. apply runs_calloc. by run.
  - run. apply runs_calloc. run. run. destruct (4 <? Z.of_nat (length (v_items (pt_files st)))) eqn:E; [|by run].
    apply runs_malloc. run. run. eapply runs_mono; [by apply runs_allocate_ebrs|]. intros [] st' ->. simpl.
    unfold with_ebr. simpl. do 3 f_equal. lia.
Qed.

Lemma extended_files new st st' : extended new st st' -> pt_files st' = pt_files st /\ pt_parttype st' = pt_parttype st.
Proof. by intros (rs & -> & _). Qed.

Lemma length_partition_regions logical files : forall i s,
  Z.of_nat (length (partition_regions logical files i s)) <= 4 * Z.of_nat (length files).
Proof.
  induction files as [|f files IH]; intros i s; [done|]. cbn [partition_regions]. rewrite !length_app. cbn [length].
  set (e := if logical && (3 <=? i) then _ else _). assert (length e <= 1)%nat by (subst e; destruct (_ && _)%bool; simpl; lia).
  pose proof (length_placed (regions_end s e) (fi_size f) (fi_alignment f) SECTOR_SIZE (region_file i : region_type buffer)).
  specialize (IH (i + 1) (regions_end s (e ++ placed (regions_end s e) (fi_size f) (fi_alignment f) SECTOR_SIZE (region_file i)))).
  lia.
Qed.

(** The alignments are as they should be. *)
Lemma hwp_check_alignments files l mem : Forall file_ok files ->
  (forall r i, r ∈ l -> r_type r = region_file i -> exists f, files !! Z.to_nat i = Some f /\
    (fi_alignment f | r_start r) /\ 0 <= r_start r <= INT64_MAX) ->
  hwp (check_alignments files l) (fun _ mem' => mem' = mem) mem.
Proof.
  intros Hall. induction l as [|r l IH]; intros Hl; cbn [check_alignments]; [by apply hwp_ret|].
  apply hwp_bind. apply (hwp_mono _ (fun _ mem' => mem' = mem)).
  2: { intros _ mem' ->. apply IH. intros. apply Hl; [by right|done]. }
  destruct (r_type r) as [i|d|] eqn:Et; [|by apply hwp_ret..].
  destruct (Hl r i ltac:(left) Et) as (f & Hi & Hd & Hr). rewrite Hi.
  pose proof (Forall_lookup_1 _ _ _ _ Hall Hi) as Hf. destruct (fo_alignment _ Hf) as (n & Hn & E). rewrite E in *.
  pose proof (Z.pow_le_mono_r 2 n 20 ltac:(lia) ltac:(lia)).
  apply hwp_bind, hwp_bind, hwp_assert. split; [apply is_power_of_2_pow; lia|]. apply hwp_ret, hwp_assert.
  rewrite u64_small, land_pred_pow2 by (limits; lia). split; [|done].
  apply Z.eqb_eq. apply Z.mod_divide; [lia|done].
Qed.

(** ** The layout is as it should be *)

Lemma disk_files gpt files r i : layout_ok gpt files -> r ∈ disk_regions gpt files -> r_type r = region_file i ->
  exists k f, i = Z.of_nat k /\ files !! k = Some f.
Proof.
  intros Hlay Hin Ht. assert (Hp : forall logical fs i0 s, r ∈ partition_regions logical fs i0 s ->
    exists k f, i = i0 + Z.of_nat k /\ fs !! k = Some f).
  { clear -Ht. intros logical fs. induction fs as [|f fs IH]; intros i0 s Hr; cbn [partition_regions] in Hr; [by apply elem_of_nil in Hr|].
    rewrite !elem_of_app in Hr. destruct Hr as [[Hr|Hr]|Hr].
    - destruct (logical && (3 <=? i0)); [|by apply elem_of_nil in Hr]. apply list_elem_of_singleton in Hr as ->. done.
    - unfold placed in Hr. rewrite elem_of_app, elem_of_cons in Hr.
      assert (Hpad : forall s a, r ∈ padding s a -> False).
      { intros s0 a Hr0. unfold padding in Hr0. destruct (_ || _)%bool in Hr0; [by apply elem_of_nil in Hr0|].
        by apply list_elem_of_singleton in Hr0 as ->. }
      destruct Hr as [?|[->|?]]; [by exfalso; eapply Hpad| |by exfalso; eapply Hpad].
      simpl in Ht. simplify_eq. exists 0%nat, f. split; [lia|done].
    - destruct (IH _ _ Hr) as (k & f' & -> & Hk). exists (S k), f'. split; [lia|done]. }
  unfold disk_regions, front_regions in Hin. rewrite elem_of_app, elem_of_cons in Hin. destruct Hin as [[->|Hin]|Hin].
  - done.
  - destruct (Hp _ _ _ _ Hin) as (k & f & -> & Hk). by exists k, f.
  - destruct gpt; [|by apply elem_of_nil in Hin]. by apply list_elem_of_singleton in Hin as ->.
Qed.

(** The disk has been laid out. *)
Record laid_out (gpt : bool) files st : Prop := LaidOut {
  ld_ok : layout_ok gpt files;
  ld_files : v_items (pt_files st) = files;
  ld_type : pt_parttype st = if gpt then PARTTYPE_GPT else PARTTYPE_MBR;
  ld_wf : regions_wf (pt_regions st);
  ld_regions : v_items (pt_regions st) = disk_regions gpt files;
}.

Lemma disk_length gpt files : Z.of_nat (length (disk_regions gpt files)) <= 4 * Z.of_nat (length files) + 2.
Proof.
  unfold disk_regions, front_regions. rewrite length_app. cbn [length].
  pose proof (length_partition_regions (has_logical gpt files) files 0 (table_size gpt files)).
  set (tail := if gpt then _ else _). assert (length tail <= 1)%nat by (subst tail; destruct gpt; simpl; lia). lia.
Qed.

Lemma runs_layout gpt st (P : unit -> partitioning -> Prop) : configured gpt st ->
  (forall rs, let st1 := with_regions rs (tables_allocated gpt (v_items (pt_files st)) st) in
     laid_out gpt (v_items (pt_files st)) st1 -> runs create_partition_table P st1) ->
  runs create_virtual_disk_layout P st.
Proof.
  intros [Ht Hlay Hr Hp Hsec] Hrest. set (files := v_items (pt_files st)) in *.
  pose proof (layout_max _ _ Hlay) as Hmax. destruct (table_sectors gpt files Hmax) as (Htd & Hts & Hbd & Hbs & _).
  destruct (disk_contiguous gpt files Hmax (lo_files _ _ Hlay)) as (Hfc & Hfd & Hdc & Hdd).
  pose proof (lo_some _ _ Hlay) as Hsome. pose proof (disk_length gpt files) as Hlen. pose proof (lo_few _ _ Hlay).
  unfold create_virtual_disk_layout. run. run. change (id st) with st. rewrite Hr, Hp, Hsec.
  run. run. run. run; [apply Z.ltb_lt; unfold v_len; fold files; lia|]. run. run. run. run. run.
  eapply runs_mono; [by apply runs_allocate_tables|]. intros [] st1 ->. fold files.
  set (st1 := tables_allocated gpt files st).
  assert (E1 : pt_regions st1 = init_regions /\ pt_files st1 = pt_files st /\ pt_parttype st1 = pt_parttype st).
  { subst st1. unfold tables_allocated. destruct gpt; [done|]. by destruct (has_logical false files). }
  destruct E1 as (Er1 & Ef1 & Et1).
  assert (Hwf1 : regions_wf (pt_regions st1)) by (rewrite Er1; apply init_regions_wf).
  assert (Hs1 : region_size (pt_regions st1) = 0) by (by rewrite Er1).
  set (head := [Region 0 (table_size gpt files) (table_size gpt files - 1) (region_data primary_buffer)]).
  assert (Hroom : room (pt_regions st1) (disk_regions gpt files)).
  { split; [rewrite Hs1; apply Hlay|]. rewrite Er1. change (v_len init_regions) with 0. unfold MAX_REGIONS. lia. }
  assert (Hdc1 : contiguous (region_size (pt_regions st1)) (disk_regions gpt files)) by (by rewrite Hs1).
  change (disk_regions gpt files) with (head ++ partition_regions (has_logical gpt files) files 0 (table_size gpt files) ++ gpt_tail gpt files) in Hroom, Hdc1, Hdc.
  run. apply (runs_mono _ (fun _ => extended head st1)).
  { assert (H0 : runs (append_region (table_size gpt files) 0 0 (region_data primary_buffer)) (fun _ => extended head st1) st1).
    { unfold SECTOR_SIZE in Hts. pose proof (runs_append_region (table_size gpt files) 0 0 (region_data primary_buffer) st1 Hwf1
        ltac:(lia) ltac:(by left) ltac:(by left)) as H0. rewrite placed_plain, Hs1 in H0.
      apply H0. by apply (room_app_l _ head _ Hdc1). }
    rewrite Ht. by destruct gpt. }
  intros [] st2 H2. pose proof (extended_wf _ _ _ H2) as [Hwf2 Hs2]. pose proof (extended_files _ _ _ H2) as [Ef2 Et2].
  destruct (room_extended _ _ _ _ Hdc1 Hroom H2) as [_ Hroom2]. rewrite Hs1 in Hs2. change (regions_end 0 head) with (table_size gpt files) in Hs2.
  apply contiguous_app in Hdc as [_ Hdc]. change (regions_end 0 head) with (table_size gpt files) in Hdc.
  rewrite <- Hs2 in Hdc, Hroom2.
  assert (Hlog : has_logical gpt files = bool_decide (pt_parttype st2 = PARTTYPE_MBR) && (4 <? v_len (pt_files st2))).
  { unfold has_logical, v_len. rewrite Et2, Et1, Ef2, Ef1, Ht. fold files. by destruct gpt. }
  run. eapply runs_mono.
  { apply (runs_append_partitions (has_logical gpt files) files 0 st2); [done|apply Hlay|by rewrite Hs2|done|].
    by apply (room_app_l _ _ _ Hdc). }
  intros [] st3 H3. pose proof (extended_trans _ _ _ _ _ H2 H3) as H23. pose proof (extended_wf _ _ _ H23) as [Hwf3 Hs3].
  destruct (room_extended _ _ _ _ Hdc Hroom2 H3) as [_ Hroom3]. rewrite Hs1 in Hs3. rewrite Hs2 in *.
  change (head ++ partition_regions (has_logical gpt files) files 0 (table_size gpt files)) with (front_regions gpt files) in *.
  run. apply (runs_mono _ (fun _ => extended (gpt_tail gpt files) st3)).
  { rewrite Ht. unfold gpt_tail in *. destruct gpt; [|run; by apply extended_nil].
    pose proof (runs_append_region (backup_size files) 0 0 (region_data secondary_buffer) st3 Hwf3
        Hbs ltac:(by left) ltac:(by left)) as H0. rewrite placed_plain, Hs3 in H0. by apply H0. }
  intros [] st4 H4. pose proof (extended_trans _ _ _ _ _ H23 H4) as Hall. destruct Hall as (rs & E4 & Hwf4 & Ei & _).
  rewrite Er1 in Ei. simpl in Ei.
  change (front_regions gpt files ++ gpt_tail gpt files) with (disk_regions gpt files) in Ei.
  assert (Hout : laid_out gpt files st4).
  { split; rewrite ?E4; simpl; [done|by rewrite Ef1|by rewrite Et1|done|done]. }
  run. run. run. run; [rewrite E4; unfold nr_regions, v_len; simpl; rewrite Ei; apply Z.ltb_lt; simpl; lia|].
  run. apply runs_lift. intros mem. eapply hwp_mono.
  { apply hwp_check_alignments; [apply Hlay|]. rewrite (ld_regions _ _ _ Hout). intros r i Hin Hti.
    destruct (disk_files _ _ _ _ Hlay Hin Hti) as (k & f & -> & Hk). rewrite Nat2Z.id. exists f. split; [done|].
    destruct (disk_lookup gpt files k f Hmax (lo_files _ _ Hlay) Hk) as (r' & _ & Hfr & _).
    assert (r = r') as ->.
    { apply list_elem_of_lookup in Hin as [a Ha]. pose proof (fr_in _ _ _ _ Hfr) as [b Hb]%list_elem_of_lookup.
      pose proof (fr_type _ _ _ _ Hfr) as Ht'.
      destruct (ranked_index _ _ _ _ _ _ (2 * Z.of_nat k) (2 * Z.of_nat k) (disk_ranked gpt files Hmax) Ha Hb) as [_ Hab].
      - unfold rank. by rewrite Hti.
      - unfold rank. by rewrite Ht'.
      - destruct Hab as [Hab _]. specialize (Hab eq_refl). subst b. by simplify_eq. }
    split; [apply (fr_alignment _ _ _ _ Hfr)|]. pose proof (fr_in _ _ _ _ Hfr) as [b Hb]%list_elem_of_lookup.
    destruct (contiguous_lookup _ _ _ _ (proj1 (proj2 (proj2 (disk_contiguous gpt files Hmax (lo_files _ _ Hlay))))) Hb) as (? & ? & _).
    pose proof (lo_size _ _ Hlay). unfold disk_size in *. lia. }
  intros _ mem' ->. split; [|done]. rewrite E4 in Hout |- *. by apply (Hrest rs).
Qed.

(** ** Finding regions *)

(** No region of rank [k] or more is before the index [j]. *)
Definition before items (j : nat) (k : Z) : Prop :=
  forall i r x, items !! i = Some r -> rank r = Some x -> k <= x -> (j <= i)%nat.

Lemma before_0 items k : before items 0 k.
Proof. intros i r x _ _ _. lia. Qed.

Lemma before_found items lo j k k' r : ranked lo items -> items !! j = Some r -> rank r = Some k -> k <= k' -> before items j k'.
Proof.
  intros Hr Hj Hk Hle i x y Hi Hy Hxy. destruct (ranked_index _ _ _ _ _ _ _ _ Hr Hj Hi Hk Hy) as [H1 H2]. lia.
Qed.

Lemma scan_regions_found (p : region buffer -> bool) l j k r :
  l !! k = Some r -> p r = true -> (forall i x, (i < k)%nat -> l !! i = Some x -> p x = false) ->
  scan_regions p l j = Some (r, (j + k)%nat).
Proof.
  revert j k. induction l as [|r0 l IH]; intros j k Hk Hp Hno; [done|]. simpl. destruct k as [|k].
  - simpl in Hk. simplify_eq. rewrite Hp. do 2 f_equal. lia.
  - rewrite (Hno 0%nat r0 ltac:(lia) eq_refl). rewrite (IH (S j) k); [do 2 f_equal; lia|done|done|].
    intros i x Hi. apply (Hno (S i)). lia.
Qed.

Lemma runs_find (p : region buffer -> bool) k j kr r st items lo :
  v_items (pt_regions st) = items -> ranked lo items ->
  (forall x, p x = true <-> rank x = Some k) -> before items j k -> items !! kr = Some r -> rank r = Some k ->
  runs (find_region_by p j) (fun a st' => a = (r, kr) /\ st' = st) st.
Proof.
  intros <- Hr Hp Hj Hkr Hk. unfold find_region_by. run. run.
  pose proof (Hj _ _ _ Hkr Hk (Z.le_refl k)) as Hle.
  rewrite (scan_regions_found _ _ _ (kr - j) r).
  - run. split; [|done]. f_equal. lia.
  - rewrite lookup_drop. rewrite <- Hkr. f_equal. lia.
  - by apply Hp.
  - intros i x Hi Hx. rewrite lookup_drop in Hx. destruct (p x) eqn:E; [|done]. apply Hp in E.
    destruct (ranked_index _ _ _ _ _ _ _ _ Hr Hx Hkr E Hk) as [_ [H _]]. specialize (H eq_refl). lia.
Qed.

Lemma is_file_rank i x : 0 <= i -> 2 * i < INT64_MAX -> is_file_region i x = true <-> rank x = Some (2 * i).
Proof.
  intros Hi Hm. unfold is_file_region, rank. destruct (r_type x) as [i'|[| |i']|]; split; intros E; simplify_eq/=; try done.
  - apply Z.eqb_eq in E. by subst.
  - apply Z.eqb_eq. lia.
  - exfalso. lia.
  - exfalso. limits. lia.
  - exfalso. lia.
Qed.

Lemma is_ebr_rank i x : 2 * i - 1 < INT64_MAX -> 0 <= i -> is_ebr_region i x = true <-> rank x = Some (2 * i - 1).
Proof.
  intros Hm Hi. unfold is_ebr_region, rank. destruct (r_type x) as [i'|[| |i']|]; split; intros E; simplify_eq/=; try done.
  - exfalso. lia.
  - exfalso. lia.
  - exfalso. lia.
  - apply bool_decide_eq_true in E. simplify_eq. f_equal. lia.
  - apply bool_decide_eq_true. f_equal. lia.
Qed.

Lemma rank_file items i f r : file_region items i f r -> rank r = Some (2 * i).
Proof. intros Hf. unfold rank. by rewrite (fr_type _ _ _ _ Hf). Qed.

Lemma rank_ebr items i e r : ebr_region items i e r -> rank e = Some (2 * i - 1).
Proof. intros He. unfold rank. rewrite (er_type _ _ _ _ He). f_equal. lia. Qed.

Lemma rank_unique items lo r r' k : ranked lo items -> r ∈ items -> r' ∈ items -> rank r = Some k -> rank r' = Some k -> r = r'.
Proof.
  intros Hr [i Hi]%list_elem_of_lookup [j Hj]%list_elem_of_lookup Hk Hk'.
  destruct (ranked_index _ _ _ _ _ _ _ _ Hr Hi Hj Hk Hk') as [_ [H _]]. specialize (H eq_refl). by simplify_eq.
Qed.

(** ** Entries of an MBR *)

Definition mbr_entry (start len : Z) (bootable : bool) (id : Z) : list Z :=
  (if bootable then 0x80 else 0) :: chs_too_large ++ [id mod 256] ++ chs_too_large ++
  le 4 (start / SECTOR_SIZE) ++ le 4 ((len + 511) / SECTOR_SIZE).

Lemma length_mbr_entry start len bootable id : length (mbr_entry start len bootable id) = 16%nat.
Proof. unfold mbr_entry. cbn [length]. by rewrite !length_app, !length_le. Qed.

Lemma hwp_mbr_entry start len bootable id mem :
  (SECTOR_SIZE | start) -> 0 <= start <= UINT32_MAX * SECTOR_SIZE -> 0 <= len <= UINT32_MAX * SECTOR_SIZE ->
  hwp (create_mbr_partition_table_entry start len bootable id) (fun e mem' => e = mbr_entry start len bootable id /\ mem' = mem) mem.
Proof.
  intros Hd Hs Hl. unfold SECTOR_SIZE in Hs, Hl. unfold create_mbr_partition_table_entry, is_aligned64.
  apply hwp_bind, hwp_bind, hwp_assert. split; [done|]. apply hwp_ret, hwp_bind, hwp_assert.
  change (u64 (SECTOR_SIZE - 1)) with (2 ^ 9 - 1). rewrite land_pred_pow2 by lia. change (2 ^ 9) with SECTOR_SIZE.
  rewrite (proj2 (Z.mod_divide _ SECTOR_SIZE ltac:(unfold SECTOR_SIZE; lia)) Hd). split; [done|].
  assert (E : DIV_ROUND_UP len SECTOR_SIZE = (len + 511) / SECTOR_SIZE).
  { unfold DIV_ROUND_UP, SECTOR_SIZE. rewrite u64_small by (limits; lia). f_equal. lia. }
  apply hwp_bind, hwp_assert. split; [apply Z.leb_le, Z.div_le_upper_bound; unfold SECTOR_SIZE; lia|].
  apply hwp_bind, hwp_assert. rewrite E.
  split; [apply Z.leb_le, Z.lt_succ_r, Z.div_lt_upper_bound; unfold SECTOR_SIZE; lia|]. by apply hwp_ret.
Qed.

(** Writing into a table of [n] bytes. *)
Lemma runs_write_primary p bytes offset (P : unit -> partitioning -> Prop) st :
  pt_primary st = Some p -> P tt (with_primary (Some (splice p bytes offset)) st) -> runs (write_primary bytes offset) P st.
Proof. intros Hp HP. unfold write_primary. run. run. rewrite Hp. by run. Qed.

Lemma laid_out_primary gpt files st p : laid_out gpt files st -> laid_out gpt files (with_primary p st).
Proof. intros [? ? ? ? ?]. by split. Qed.
Lemma laid_out_secondary gpt files st p : laid_out gpt files st -> laid_out gpt files (with_secondary p st).
Proof. intros [? ? ? ? ?]. by split. Qed.
Lemma laid_out_ebr gpt files st p : laid_out gpt files st -> laid_out gpt files (with_ebr p st).
Proof. intros [? ? ? ? ?]. by split. Qed.

(** The bounds of the regions of an MBR disk. *)
Lemma region_bounds gpt files r : layout_ok gpt files -> r ∈ disk_regions gpt files ->
  0 <= r_start r /\ r_start r < r_start r + r_len r <= disk_size gpt files /\ r_end r = r_start r + r_len r - 1.
Proof.
  intros Hlay [i Hi]%list_elem_of_lookup.
  destruct (disk_contiguous gpt files (layout_max _ _ Hlay) (lo_files _ _ Hlay)) as (_ & _ & Hc & _).
  exact (contiguous_lookup _ _ _ _ Hc Hi).
Qed.

Section Mbr.
Context (files : list file) (Hlay : layout_ok false files).
Notation items := (disk_regions false files).

Lemma mbr_ranked : ranked (-2) items.
Proof. apply disk_ranked. by eapply layout_max. Qed.

(** The region [r] of the [i]-th file [f] fits the entry of an MBR. *)
Lemma mbr_bounds r : r ∈ items ->
  0 <= r_start r <= UINT32_MAX * SECTOR_SIZE /\ 0 < r_len r <= UINT32_MAX * SECTOR_SIZE /\
  r_start r + r_len r <= disk_size false files <= UINT32_MAX * SECTOR_SIZE /\ r_end r = r_start r + r_len r - 1.
Proof. intros Hr. destruct (region_bounds _ _ _ Hlay Hr) as (? & ? & ?). pose proof (lo_mbr _ _ Hlay eq_refl). lia. Qed.

Lemma mbr_lookup k f : files !! k = Some f ->
  exists r, file_region items (Z.of_nat k) f r /\
    (has_logical false files && (3 <=? Z.of_nat k) = true -> exists e, ebr_region items (Z.of_nat k) e r).
Proof.
  intros Hk. destruct (disk_lookup false files k f (layout_max _ _ Hlay) (lo_files _ _ Hlay) Hk) as (r & _ & Hf & He).
  exists r. split; [done|]. intros Hl. destruct (He Hl) as (e & _ & ?). by exists e.
Qed.

Lemma file_index_small k f : files !! k = Some f -> 2 * Z.of_nat k + 2 < INT64_MAX.
Proof. intros Hk%lookup_lt_Some. pose proof (lo_few _ _ Hlay). limits. lia. Qed.

(** The entry of the [i]-th file. *)
Definition primary_entry (i : Z) f (entry : list Z) : Prop :=
  exists r, file_region items i f r /\ entry = mbr_entry (r_start r) (r_len r) (i =? 0) (fi_mbr_id f).

Lemma runs_find_file st k f j : laid_out false files st -> files !! k = Some f -> before items j (2 * Z.of_nat k) ->
  runs (find_file_region (Z.of_nat k) j) (fun a st' => exists r j', a = (r, j') /\ st' = st /\
    file_region items (Z.of_nat k) f r /\ before items j' (2 * Z.of_nat k)) st.
Proof.
  intros Hst Hk Hj. destruct (mbr_lookup k f Hk) as (r & Hf & _). pose proof (file_index_small _ _ Hk).
  pose proof (fr_in _ _ _ _ Hf) as [kr Hkr]%list_elem_of_lookup. pose proof (rank_file _ _ _ _ Hf) as Hrk.
  eapply runs_mono.
  { apply (runs_find _ (2 * Z.of_nat k) j kr r _ items (-2) (ld_regions _ _ _ Hst) mbr_ranked); [|done..].
    intros x. apply is_file_rank; lia. }
  intros a st' [-> ->]. exists r, kr. do 3 (split; [done|]). eapply before_found; [apply mbr_ranked|done..].
Qed.

Lemma runs_find_ebr st k f j : laid_out false files st -> files !! k = Some f ->
  has_logical false files = true -> 3 <= Z.of_nat k -> before items j (2 * Z.of_nat k - 1) ->
  runs (find_ebr_region (Z.of_nat k) j) (fun a st' => exists e j' r, a = (e, j') /\ st' = st /\
    file_region items (Z.of_nat k) f r /\ ebr_region items (Z.of_nat k) e r /\ before items j' (2 * Z.of_nat k - 1)) st.
Proof.
  intros Hst Hk Hlog H3 Hj. destruct (mbr_lookup k f Hk) as (r & Hf & He). pose proof (file_index_small _ _ Hk).
  rewrite Hlog, (proj2 (Z.leb_le _ _)) in He by done. destruct (He eq_refl) as (e & Her).
  pose proof (er_in _ _ _ _ Her) as [ke Hke]%list_elem_of_lookup. pose proof (rank_ebr _ _ _ _ Her) as Hrk.
  unfold find_ebr_region. run. run; [by apply Z.leb_le|]. eapply runs_mono.
  { apply (runs_find _ (2 * Z.of_nat k - 1) j ke e _ items (-2) (ld_regions _ _ _ Hst) mbr_ranked); [|done..].
    intros x. apply is_ebr_rank; lia. }
  intros a st' [-> ->]. exists e, ke, r. do 4 (split; [done|]). eapply before_found; [apply mbr_ranked|done..|lia].
Qed.

Lemma before_mono j k k' : before items j k -> k <= k' -> before items j k'.
Proof. intros H Hle i r x Hi Hx Hk. eapply H; [done..|lia]. Qed.

Lemma runs_entry (P : list Z -> partitioning -> Prop) start len bootable id st :
  (SECTOR_SIZE | start) -> 0 <= start <= UINT32_MAX * SECTOR_SIZE -> 0 <= len <= UINT32_MAX * SECTOR_SIZE ->
  P (mbr_entry start len bootable id) st -> runs (p_lift (create_mbr_partition_table_entry start len bootable id)) P st.
Proof.
  intros Hd Hs Hl HP. apply runs_lift. intros mem. eapply hwp_mono; [by apply hwp_mbr_entry|]. by intros e mem' [-> ->].
Qed.

(** The table of the primary partitions. *)
Lemma runs_mbr_primary fs : forall k j st p, laid_out false files st -> pt_primary st = Some p -> length p = 512%nat ->
  (k + length fs <= 4)%nat -> (forall i, (i < length fs)%nat -> fs !! i = files !! (k + i)%nat) ->
  before items j (2 * Z.of_nat k - 1) ->
  runs (mbr_primary fs (Z.of_nat k) j) (fun j' st' => exists p', st' = with_primary (Some p') st /\ length p' = 512%nat /\
    before items j' (2 * Z.of_nat (k + length fs) - 1) /\
    (forall i f, fs !! i = Some f -> primary_entry (Z.of_nat (k + i)) f (sub p' (0x1be + 16 * Z.of_nat (k + i)) 16)) /\
    (forall o n, 0 <= o -> 0 <= n -> (o + n <= 0x1be + 16 * Z.of_nat k \/ 0x1be + 16 * Z.of_nat (k + length fs) <= o) ->
       sub p' o n = sub p o n)) st.
Proof.
  induction fs as [|f fs IH]; intros k j st p Hst Hp Hlen Hk Hfs Hj; cbn [mbr_primary].
  { run. exists p. split; [by rewrite <- Hp; destruct st|]. split; [done|]. cbn [length].
    rewrite Nat.add_0_r. split; [done|]. split; [|done]. intros i f Hi. by rewrite lookup_nil in Hi. }
  cbn [length] in *. assert (Hkf : files !! k = Some f) by (rewrite <- (Nat.add_0_r k), <- (Hfs 0%nat) by lia; done).
  run. eapply runs_mono; [apply (runs_find_file st k f j); [done|done|eapply before_mono; [exact Hj|lia]]|].
  intros a st' (r & j' & -> & -> & Hf & Hj').
  destruct (mbr_bounds r (fr_in _ _ _ _ Hf)) as (Hb1 & Hb2 & _).
  run. apply runs_entry; [apply Hf|done|lia|]. run. set (entry := mbr_entry _ _ _ _).
  assert (He : length entry = 16%nat) by apply length_mbr_entry.
  eapply runs_write_primary; [done|]. set (p1 := splice p entry _).
  assert (Hlen1 : length p1 = 512%nat) by (subst p1; rewrite length_splice; lia).
  replace (Z.of_nat k + 1) with (Z.of_nat (S k)) by lia.
  eapply runs_mono.
  { apply (IH (S k) j' (with_primary (Some p1) st) p1); [by apply laid_out_primary|done|done|lia| |].
    - intros i Hi. rewrite Nat.add_succ_comm. apply (Hfs (S i)). lia.
    - eapply before_mono; [exact Hj'|lia]. }
  intros j2 st2 (p2 & -> & Hlen2 & Hj2 & Hent & Hkeep). exists p2. split; [done|]. split; [done|].
  rewrite <- Nat.add_succ_comm. split; [done|]. split.
  - intros i g Hi. destruct i as [|i]; simpl in Hi.
    + simplify_eq. rewrite Nat.add_0_r, Hkeep by lia. exists r. split; [done|]. subst p1. by rewrite sub_splice_same by lia.
    + rewrite <- Nat.add_succ_comm. by apply Hent.
  - intros o n Ho Hn Hd. rewrite Hkeep by lia. subst p1. by rewrite sub_splice_other by lia.
Qed.

(** Regions of higher rank come later. *)
Lemma rank_after x y kx ky : x ∈ items -> y ∈ items -> rank x = Some kx -> rank y = Some ky -> kx < ky -> r_end x < r_start y.
Proof.
  intros [i Hi]%list_elem_of_lookup [j Hj]%list_elem_of_lookup Hx Hy Hlt.
  destruct (ranked_index _ _ _ _ _ _ _ _ mbr_ranked Hi Hj Hx Hy) as [[H _] _].
  destruct (disk_contiguous false files (layout_max _ _ Hlay) (lo_files _ _ Hlay)) as (_ & _ & Hc & _).
  exact (contiguous_ordered _ _ _ _ _ _ Hc (H Hlt) Hi Hj).
Qed.

(** The EBR [eb] of the [k]-th file; the extended partition starts at
    [ep]. *)
Definition ebr_entries (ep : Z) (k : nat) f (eb : list Z) : Prop :=
  exists e r, ebr_region items (Z.of_nat k) e r /\ file_region items (Z.of_nat k) f r /\ length eb = 512%nat /\
    sub eb 0x1fe 2 = [0x55; 0xaa] /\
    sub eb 0x1be 16 = mbr_entry (r_start r - r_start e) (r_len r) false (fi_mbr_id f) /\
    match files !! S k with
    | None => sub eb 0x1ce 16 = memset 0 16
    | Some f' => exists e' r', ebr_region items (Z.of_nat (S k)) e' r' /\ file_region items (Z.of_nat (S k)) f' r' /\
        sub eb 0x1ce 16 = mbr_entry (r_start e' - ep) (r_end r' - r_start e' + 1) false 0xf
    end.

Lemma runs_write_ebr i eb ebrs bytes offset (P : unit -> partitioning -> Prop) st :
  pt_ebr st = Some ebrs -> ebrs !! Z.to_nat i = Some eb ->
  P tt (with_ebr (Some (<[Z.to_nat i := splice eb bytes offset]> ebrs)) st) -> runs (write_ebr i bytes offset) P st.
Proof. intros He Hi HP. unfold write_ebr. run. run. rewrite He, Hi. by run. Qed.

Context (Hlog : has_logical false files = true).
Context (e0 : region buffer) (He0 : e0 ∈ items) (Hr0 : rank e0 = Some 5) (Hd0 : (SECTOR_SIZE | r_start e0)).

(** The second entry of an EBR, if there is a next logical partition. *)
Lemma runs_next_entry fs k j st ebrs eb : laid_out false files st -> (3 <= k)%nat ->
  (forall i, fs !! i = files !! (S k + i)%nat) -> before items j (2 * Z.of_nat k) ->
  pt_ebr st = Some ebrs -> ebrs !! (k - 3)%nat = Some eb -> length eb = 512%nat -> sub eb 0x1ce 16 = memset 0 16 ->
  runs (match fs with
        | [] => mret tt
        | _ :: _ =>
            '(enext, j2) ← find_ebr_region (Z.of_nat k + 1) j;
            '(rnext, _) ← find_file_region (Z.of_nat k + 1) j2;
            entry ← p_lift (create_mbr_partition_table_entry (u64 (r_start enext - r_start e0))
              (u64 (r_end rnext - r_start enext + 1)) false 0xf);
            write_ebr (Z.of_nat k - 3) entry 0x1ce
        end)
    (fun _ st' => exists eb', st' = with_ebr (Some (<[(k - 3)%nat := eb']> ebrs)) st /\ length eb' = 512%nat /\
       (forall o n, 0 <= o -> 0 <= n -> (o + n <= 0x1ce \/ 0x1de <= o) -> sub eb' o n = sub eb o n) /\
       match files !! S k with
       | None => sub eb' 0x1ce 16 = memset 0 16
       | Some f' => exists e' r', ebr_region items (Z.of_nat (S k)) e' r' /\ file_region items (Z.of_nat (S k)) f' r' /\
           sub eb' 0x1ce 16 = mbr_entry (r_start e' - r_start e0) (r_end r' - r_start e' + 1) false 0xf
       end) st.
Proof.
  intros Hst Hk Hfs Hj He Hi Hlen Hz. pose proof (Hfs 0%nat) as Hf. rewrite Nat.add_0_r in Hf. rewrite <- Hf.
  destruct fs as [|f fs]; simpl in *.
  { run. exists eb. split; [|done]. rewrite list_insert_id by done. rewrite <- He. by destruct st. }
  symmetry in Hf. replace (Z.of_nat k + 1) with (Z.of_nat (S k)) by lia.
  run. eapply runs_mono; [apply (runs_find_ebr st (S k) f j); [done|done|done|lia|]|].
  { eapply before_mono; [exact Hj|lia]. }
  intros a st' (e & j' & r & -> & -> & Hfr & Her & Hj'). run. eapply runs_mono; [apply (runs_find_file st (S k) f j'); [done|done|]|].
  { eapply before_mono; [exact Hj'|lia]. }
  intros a st' (r' & j2 & -> & -> & Hfr' & _).
  assert (r' = r) as -> by (eapply rank_unique; [apply mbr_ranked|apply Hfr'|apply Hfr|by eapply rank_file..]).
  destruct (mbr_bounds e (er_in _ _ _ _ Her)) as (Hb1 & _ & _). destruct (mbr_bounds r (fr_in _ _ _ _ Hfr)) as (Hb2 & Hb3 & Hb4 & Hb5).
  destruct (mbr_bounds e0 He0) as (Hb6 & Hb9 & Hb7 & Hb8). unfold SECTOR_SIZE in Hb4, Hb7.
  pose proof (rank_after e0 e _ _ He0 (er_in _ _ _ _ Her) Hr0 (rank_ebr _ _ _ _ Her) ltac:(lia)) as Hord.
  pose proof (er_before _ _ _ _ Her) as Hbef. unfold SECTOR_SIZE in Hbef, Hb1, Hb2, Hb3, Hb6.
  pose proof (er_sector _ _ _ _ Her) as Hds.
  run. rewrite !u64_small by (limits; lia). apply runs_entry; [by apply Z.divide_sub_r|unfold SECTOR_SIZE; lia..|].
  set (entry := mbr_entry _ _ _ _). assert (Hle : length entry = 16%nat) by apply length_mbr_entry.
  replace (k - 3)%nat with (Z.to_nat (Z.of_nat k - 3)) in * by lia.
  eapply runs_write_ebr; [done|done|]. exists (splice eb entry 0x1ce). split; [done|].
  split; [rewrite length_splice; lia|]. split; [intros o n Ho Hn Hd; by rewrite sub_splice_other by lia|].
  exists e, r. do 2 (split; [done|]). by rewrite sub_splice_same by lia.
Qed.

Lemma runs_mbr_logical fs : forall k j st ebrs, laid_out false files st -> (3 <= k)%nat ->
  (forall i, fs !! i = files !! (k + i)%nat) -> before items j (2 * Z.of_nat k - 1) -> pt_ebr st = Some ebrs ->
  (forall i, (i < length fs)%nat -> ebrs !! (k - 3 + i)%nat = Some (memset 0 SECTOR_SIZE)) ->
  (k = 3%nat -> exists r, ebr_region items 3 e0 r) ->
  runs (mbr_logical e0 fs (Z.of_nat k) j) (fun _ st' => exists ebrs', st' = with_ebr (Some ebrs') st /\
    length ebrs' = length ebrs /\
    (forall i f, fs !! i = Some f -> exists eb, ebrs' !! (k - 3 + i)%nat = Some eb /\ ebr_entries (r_start e0) (k + i) f eb) /\
    (forall i, (i < k - 3)%nat -> ebrs' !! i = ebrs !! i)) st.
Proof.
  induction fs as [|f fs IH]; intros k j st ebrs Hst Hk Hfs Hj He Hz Hk3; cbn [mbr_logical].
  { run. exists ebrs. split; [by rewrite <- He; destruct st|]. split; [done|]. split; [|done].
    intros i f Hi. by rewrite lookup_nil in Hi. }
  pose proof (Hfs 0%nat) as Hkf. rewrite Nat.add_0_r in Hkf. simpl in Hkf. symmetry in Hkf. cbn [length] in Hz.
  pose proof (Hz 0%nat ltac:(lia)) as Hz0. rewrite Nat.add_0_r in Hz0.
  run. apply (runs_mono _ (fun a st' => exists e j' r, a = (e, j') /\ st' = st /\
    file_region items (Z.of_nat k) f r /\ ebr_region items (Z.of_nat k) e r /\ before items j' (2 * Z.of_nat k - 1))).
  { destruct (Z.eqb_spec (Z.of_nat k) 3) as [E|E]; [|apply runs_find_ebr; (done || lia)].
    run. destruct (Hk3 ltac:(lia)) as (r1 & Her). destruct (mbr_lookup k f Hkf) as (r & Hf & He').
    rewrite Hlog, (proj2 (Z.leb_le _ _)) in He' by lia. destruct (He' eq_refl) as (e & Her').
    assert (e0 = e) as -> by (eapply rank_unique; [apply mbr_ranked|done|apply Her'|done|rewrite (rank_ebr _ _ _ _ Her'); f_equal; lia]).
    exists e, j, r. auto. }
  intros a st' (e & j1 & r & -> & -> & Hfr & Her & Hj1).
  run. eapply runs_mono; [apply (runs_find_file st k f j1); [done|done|]|]. { eapply before_mono; [exact Hj1|lia]. }
  intros a st' (r' & j2 & -> & -> & Hfr' & Hj2).
  assert (r' = r) as -> by (eapply rank_unique; [apply mbr_ranked|apply Hfr'|apply Hfr|by eapply rank_file..]).
  destruct (mbr_bounds e (er_in _ _ _ _ Her)) as (Hb1 & _ & _). destruct (mbr_bounds r (fr_in _ _ _ _ Hfr)) as (Hb2 & Hb3 & Hb4 & Hb5).
  pose proof (er_before _ _ _ _ Her) as Hbef. unfold SECTOR_SIZE in Hbef, Hb1, Hb2, Hb3, Hb4.
  assert (Hk' : Z.to_nat (Z.of_nat k - 3) = (k - 3)%nat) by lia.
  run. eapply runs_write_ebr; [done|by rewrite Hk'|]. rewrite Hk'. set (eb1 := splice _ _ _).
  assert (Hm : length (memset 0 SECTOR_SIZE) = 512%nat) by done.
  assert (Hl1 : length eb1 = 512%nat) by (subst eb1; rewrite length_splice; rewrite ?Hm; simpl; lia).
  run. rewrite u64_small by (limits; lia). apply runs_entry.
  { apply Z.divide_sub_r; [apply Hfr|apply Her]. } { unfold SECTOR_SIZE; lia. } { unfold SECTOR_SIZE; lia. }
  set (entry := mbr_entry _ _ _ _). assert (Hle : length entry = 16%nat) by apply length_mbr_entry.
  assert (Hlt : (k - 3 < length ebrs)%nat) by (by eapply lookup_lt_Some).
  run. eapply runs_write_ebr; [done|rewrite Hk', list_lookup_insert_eq; [done|lia]|]. rewrite Hk'. simpl.
  rewrite list_insert_insert. destruct (decide (k - 3 = k - 3)%nat) as [_|]; [|done]. set (eb2 := splice _ _ _).
  assert (Hl2 : length eb2 = 512%nat) by (subst eb2; rewrite length_splice; lia).
  assert (Hz2 : sub eb2 0x1ce 16 = memset 0 16).
  { subst eb2. rewrite sub_splice_other by lia. subst eb1. rewrite sub_splice_other by (rewrite ?Hm; simpl; lia).
    by apply sub_memset. }
  run. eapply runs_mono.
  { apply (runs_next_entry fs k j2 _ (<[(k - 3)%nat := eb2]> ebrs) eb2); [|done| |done|done|rewrite list_lookup_insert_eq; [done|lia]|done|done].
    - by do 2 apply laid_out_ebr.
    - intros i. rewrite Nat.add_succ_comm. apply (Hfs (S i)). }
  intros [] st3 (eb3 & -> & Hl3 & Hkeep & Hnext). simpl. rewrite list_insert_insert.
  destruct (decide (k - 3 = k - 3)%nat) as [_|]; [|done].
  replace (Z.of_nat k + 1) with (Z.of_nat (S k)) by lia. eapply runs_mono.
  { apply (IH (S k) j2 _ (<[(k - 3)%nat := eb3]> ebrs)); [by do 3 apply laid_out_ebr|lia| | |done| |lia].
    - intros i. rewrite Nat.add_succ_comm. apply (Hfs (S i)).
    - eapply before_mono; [exact Hj2|lia].
    - intros i Hi. rewrite list_lookup_insert_ne by lia. rewrite <- (Hz (S i)) by lia. f_equal. lia. }
  intros [] st4 (ebrs' & -> & Hl4 & Hent & Hold). exists ebrs'. split; [done|]. split; [by rewrite Hl4, length_insert|]. split.
  - intros i g Hi. destruct i as [|i]; simpl in Hi.
    + simplify_eq. rewrite !Nat.add_0_r. exists eb3. split; [rewrite Hold by lia; rewrite list_lookup_insert_eq; [done|lia]|].
      exists e, r. do 3 (split; [done|]). rewrite !Hkeep by lia. split; [|split; [|done]].
      * subst eb2. rewrite sub_splice_other by lia. subst eb1. apply sub_splice_same; [lia|done|]. rewrite Hm. lia.
      * subst eb2. by rewrite sub_splice_same by lia.
    + destruct (Hent i g Hi) as (eb & Heb & Hebe). exists eb. split; [rewrite <- Heb; f_equal; lia|].
      by rewrite <- Nat.add_succ_comm.
  - intros i Hi. rewrite Hold by lia. by rewrite list_lookup_insert_ne by lia.
Qed.
End Mbr.

(** ** The partition tables *)

(** The tables of an MBR disk: the signatures, an entry for every file, and
    for logical partitions an extended partition with a chain of EBRs. *)
Definition mbr_tables files st : Prop :=
  let items := disk_regions false files in
  exists p, pt_primary st = Some p /\ length p = 512%nat /\ sub p 0x1fe 2 = [0x55; 0xaa] /\
    (forall k f, files !! k = Some f -> (k < (if has_logical false files then 3 else 4))%nat ->
       primary_entry files (Z.of_nat k) f (sub p (0x1be + 16 * Z.of_nat k) 16)) /\
    (has_logical false files = true -> exists e0 r0 ebrs, ebr_region items 3 e0 r0 /\
       sub p 0x1ee 16 = mbr_entry (r_start e0) (disk_size false files - r_start e0) false 0xf /\
       pt_ebr st = Some ebrs /\ length ebrs = (length files - 3)%nat /\
       forall k f, (3 <= k)%nat -> files !! k = Some f ->
         exists eb, ebrs !! (k - 3)%nat = Some eb /\ ebr_entries files (r_start e0) k f eb).

(** The 128 bytes of an entry of a GPT. *)
Definition gpt_entry_of r f (bootable : bool) : gpt_entry :=
  GptEntry (fi_type_guid f) (fi_guid f) (r_start r / SECTOR_SIZE) (r_end r / SECTOR_SIZE) (if bootable then 4 else 0).

Definition gpt_entry_block r f (bootable : bool) : list Z :=
  splice (splice (memset 0 GPT_PT_ENTRY_SIZE) (gpt_entry_bytes (gpt_entry_of r f bootable)) 0) (gpt_name (fi_filename f)) gpt_entry_name.

(** One copy of the entries, in a zeroed table: the file [k] has the entry
    [k], the others are empty. *)
Definition gpt_entries files (out : list Z) (offset : Z) : Prop :=
  (forall k f, files !! k = Some f -> exists r, file_region (disk_regions true files) (Z.of_nat k) f r /\
     sub out (offset + GPT_PT_ENTRY_SIZE * Z.of_nat k) GPT_PT_ENTRY_SIZE = gpt_entry_block r f (Z.of_nat k =? 0)) /\
  (forall k, (length files <= k)%nat -> Z.of_nat k < GPT_PTA_SIZE (Z.of_nat (length files)) ->
     sub out (offset + GPT_PT_ENTRY_SIZE * Z.of_nat k) GPT_PT_ENTRY_SIZE = memset 0 GPT_PT_ENTRY_SIZE).

(** The tables of a GPT disk: the protective MBR, and two identical copies of
    the entries, each with its header, whose checksums are right. *)
Definition gpt_tables files st : Prop :=
  let n := Z.of_nat (length files) in
  let len := GPT_PT_ENTRY_SIZE * GPT_PTA_SIZE n in
  exists p q, pt_primary st = Some p /\ pt_secondary st = Some q /\
    length p = Z.to_nat (table_size true files) /\ length q = Z.to_nat (backup_size files) /\
    sub p 0x1fe 2 = [0x55; 0xaa] /\
    sub p 0x1be 16 = mbr_entry 512 (Z.min (disk_size true files - 1) (UINT32_MAX * SECTOR_SIZE) - 511) false 0xee /\
    gpt_entries files p (2 * SECTOR_SIZE) /\ sub q 0 len = sub p (2 * SECTOR_SIZE) len /\
    sub p SECTOR_SIZE sizeof_gpt_header = create_gpt_partition_header (disk_size true files) n (sub p (2 * SECTOR_SIZE) len) true /\
    sub q len sizeof_gpt_header = create_gpt_partition_header (disk_size true files) n (sub q 0 len) false.

Lemma runs_create_mbr_layout files st : laid_out false files st -> pt_primary st = Some (memset 0 SECTOR_SIZE) ->
  (has_logical false files = true -> pt_ebr st = Some (replicate (length files - 3) (memset 0 SECTOR_SIZE))) ->
  runs create_mbr_layout (fun _ st' => laid_out false files st' /\ mbr_tables files st') st.
Proof.
  intros Hst Hp He. pose proof (ld_ok _ _ _ Hst) as Hlay. assert (Hm : length (memset 0 SECTOR_SIZE) = 512%nat) by done.
  unfold create_mbr_layout. run. eapply runs_write_primary; [done|]. set (p1 := splice _ _ _).
  assert (Hl1 : length p1 = 512%nat) by (subst p1; rewrite length_splice; rewrite ?Hm; simpl; lia).
  assert (Hsig : sub p1 0x1fe 2 = [0x55; 0xaa]) by (subst p1; apply sub_splice_same; [lia|done|rewrite Hm; lia]).
  run. run. cbn [pt_files with_primary]. rewrite (ld_files _ _ _ Hst).
  assert (Hst1 : laid_out false files (with_primary (Some p1) st)) by by apply laid_out_primary.
  unfold mbr_tables. destruct (has_logical false files) eqn:Hlog; unfold has_logical in Hlog; simpl in Hlog.
  - rewrite (proj2 (Z.leb_gt _ _)) by lia. assert (H3 : (3 < length files)%nat) by lia. specialize (He eq_refl).
    run. eapply runs_mono.
    { apply (runs_mbr_primary files Hlay (take 3 files) 0 0 _ p1); [done|done|done|rewrite length_take; lia| |apply before_0].
      intros i Hi. rewrite length_take in Hi. by rewrite lookup_take_lt by lia. }
    intros j st2 (p2 & -> & Hl2 & Hj & Hent & Hkeep). rewrite length_take, Nat.min_l in Hj, Hkeep by lia.
    destruct (lookup_lt_is_Some_2 files 3 ltac:(lia)) as [f3 Hf3].
    run. eapply runs_mono.
    { apply (runs_find_ebr files Hlay _ 3 f3 j); [by apply laid_out_primary|done|unfold has_logical; simpl; lia|lia|].
      eapply before_mono; [exact Hj|]. lia. }
    intros a st2 (e0 & j2 & r0 & -> & -> & Hfr0 & Her0 & Hj2). change (Z.of_nat 3) with 3 in *.
    destruct (mbr_bounds files Hlay e0 (er_in _ _ _ _ Her0)) as (Hb1 & Hb2 & Hb3 & _). unfold SECTOR_SIZE in Hb1, Hb2, Hb3.
    pose proof (ld_wf _ _ _ Hst) as Hwf. destruct (region_size_virtual _ Hwf) as [Hv _].
    unfold region_size in Hv. rewrite (ld_regions _ _ _ Hst) in Hv. fold (disk_size false files) in Hv.
    run. run. cbn [pt_regions with_primary]. rewrite Hv. run. rewrite (u64_small (_ - 1)) by (limits; lia).
    replace (disk_size false files - 1 - r_start e0 + 1) with (disk_size false files - r_start e0) by lia.
    rewrite u64_small by (limits; lia).
    apply runs_entry; [apply Her0|unfold SECTOR_SIZE; lia..|]. set (entry := mbr_entry _ _ _ _).
    assert (Hle : length entry = 16%nat) by apply length_mbr_entry.
    run. eapply runs_write_primary; [done|]. set (p3 := splice p2 entry _).
    eapply runs_mono.
    { change 3 with (Z.of_nat 3).
      apply (runs_mbr_logical files Hlay ltac:(unfold has_logical; simpl; lia) e0 (er_in _ _ _ _ Her0) (rank_ebr _ _ _ _ Her0)
        (er_sector _ _ _ _ Her0) (drop 3 files) 3 j2 _ (replicate (length files - 3) (memset 0 SECTOR_SIZE))).
      - by do 3 apply laid_out_primary.
      - lia.
      - intros k. by rewrite lookup_drop.
      - exact Hj2.
      - done.
      - intros k Hk. rewrite length_drop in Hk. apply lookup_replicate_2. lia.
      - intros _. by exists r0. }
    intros [] st4 (ebrs & -> & Hle4 & Hent4 & _). split; [by apply laid_out_ebr; do 3 apply laid_out_primary|].
    exists p3. split; [done|]. split; [subst p3; rewrite length_splice; lia|].
    split; [subst p3; rewrite sub_splice_other, Hkeep by lia; done|]. split.
    + intros k f Hk H3k. subst p3. rewrite sub_splice_other by lia.
      apply (Hent k f). by rewrite lookup_take_lt by lia.
    + intros _. exists e0, r0, ebrs. split; [done|]. split; [subst p3; by rewrite sub_splice_same by lia|]. split; [done|].
      split; [by rewrite Hle4, length_replicate|].
      intros k f H3k Hk. destruct (Hent4 (k - 3)%nat f) as (eb & Heb & Hebe).
      { rewrite lookup_drop, <- Hk. f_equal. lia. }
      exists eb. replace (3 - 3 + (k - 3))%nat with (k - 3)%nat in Heb by lia. by replace (3 + (k - 3))%nat with k in Hebe by lia.
  - rewrite (proj2 (Z.leb_le _ _)) by lia. run. eapply runs_mono.
    { apply (runs_mbr_primary files Hlay files 0 0 _ p1); [done|done|done|lia|done|apply before_0]. }
    intros j st2 (p2 & -> & Hl2 & Hj & Hent & Hkeep). run. split; [by do 2 apply laid_out_primary|].
    exists p2. split; [done|]. split; [done|]. split; [rewrite Hkeep by lia; done|]. split; [|done].
    intros k f Hk _. by apply (Hent k f).
Qed.

(** The entries of a GUID partition table. *)
Lemma gpt_partition_table_padding files s a l out offset mem :
  gpt_partition_table files (padding s a ++ l) out offset mem = gpt_partition_table files l out offset mem.
Proof. unfold padding. by destruct (_ || _)%bool. Qed.

Lemma length_gpt_name filename : Z.of_nat (length (gpt_name filename)) <= 72.
Proof.
  unfold gpt_name. destruct ((_ <? 36) && _) eqn:E; [|simpl; lia]. apply andb_prop in E as [E _].
  assert (H : length (concat ((fun c => [c; 0]) <$> filename)) = (2 * length filename)%nat).
  { clear. induction filename as [|c l IH]; [done|]. rewrite fmap_cons. cbn [concat]. rewrite length_app, IH. simpl. lia. }
  lia.
Qed.

Lemma length_gpt_entry r f b : length (fi_guid f) = 16%nat -> length (fi_type_guid f) = 16%nat ->
  length (gpt_entry_bytes (gpt_entry_of r f b)) = 56%nat.
Proof. intros H1 H2. unfold gpt_entry_bytes. cbn [gpt_entry_of g_partition_type_guid g_unique_guid g_first_lba g_last_lba g_attributes].
  by rewrite !length_app, !length_le, H1, H2. Qed.

Lemma gpt_entry_written r f b out offset : length (fi_guid f) = 16%nat -> length (fi_type_guid f) = 16%nat ->
  0 <= offset -> offset + 128 <= Z.of_nat (length out) -> sub out offset 128 = memset 0 128 ->
  let out' := create_gpt_partition_table_entry r f b out offset in
  length out' = length out /\ sub out' offset 128 = gpt_entry_block r f b /\
  forall o n, 0 <= o -> 0 <= n -> (o + n <= offset \/ offset + 128 <= o) -> sub out' o n = sub out o n.
Proof.
  intros H1 H2 Ho Hlen Hz. pose proof (length_gpt_entry r f b H1 H2) as He. pose proof (length_gpt_name (fi_filename f)).
  unfold create_gpt_partition_table_entry. fold (gpt_entry_of r f b). unfold gpt_entry_name. simpl.
  set (out1 := splice out _ offset). assert (Hl1 : length out1 = length out) by (subst out1; rewrite length_splice; lia).
  split; [rewrite length_splice; lia|]. split.
  - rewrite splice_sub by lia. subst out1. rewrite <- (Z.add_0_r offset) at 1. rewrite splice_sub, Hz by lia. done.
  - intros o n Ho' Hn Hd. rewrite sub_splice_other by lia. subst out1. by rewrite sub_splice_other by lia.
Qed.

Lemma hwp_gpt_partition_table files fs tail : forall i s out offset mem,
  Forall file_ok fs -> 0 <= offset -> offset + 128 * Z.of_nat (i + length fs) <= Z.of_nat (length out) ->
  (forall k, (k < length fs)%nat -> fs !! k = files !! (i + k)%nat) ->
  Z.of_nat (length files) <= MAX_REGIONS -> (i + length fs <= length files)%nat ->
  (forall r, r ∈ tail -> match r_type r with region_file _ => False | _ => True end) ->
  (forall k, (k < length fs)%nat -> sub out (offset + 128 * Z.of_nat (i + k)) 128 = memset 0 128) ->
  hwp (gpt_partition_table files (partition_regions false fs (Z.of_nat i) s ++ tail) out (offset + 128 * Z.of_nat i))
    (fun out' mem' => mem' = mem /\ length out' = length out /\
      (forall k f, fs !! k = Some f -> exists r, r ∈ partition_regions false fs (Z.of_nat i) s /\ r_type r = region_file (Z.of_nat (i + k)) /\
         sub out' (offset + 128 * Z.of_nat (i + k)) 128 = gpt_entry_block r f (Z.of_nat (i + k) =? 0)) /\
      (forall o n, 0 <= o -> 0 <= n -> (o + n <= offset + 128 * Z.of_nat i \/ offset + 128 * Z.of_nat (i + length fs) <= o) ->
         sub out' o n = sub out o n)) mem.
Proof.
  induction fs as [|f fs IH]; intros i s out offset mem Hall Ho Hlen Hfs Hmax Hle Htail Hz.
  { simpl. assert (Ht : hwp (gpt_partition_table files tail out (offset + 128 * Z.of_nat i)) (fun out' mem' => mem' = mem /\ out' = out) mem).
    { clear -Htail. induction tail as [|r tail IH]; [by apply hwp_ret|]. simpl.
      pose proof (Htail r ltac:(left)) as Hr. destruct (r_type r); [done|apply IH; intros; apply Htail; by right..]. }
    eapply hwp_mono; [exact Ht|]. intros out' mem' [-> ->]. split; [done|]. split; [done|]. split; [|done].
    intros k f Hk. by rewrite lookup_nil in Hk. }
  apply Forall_cons_1 in Hall as [Hf Hall]. cbn [length] in *.
  destruct (table_sectors true files Hmax) as (_ & _ & _ & _ & _ & Hpta & _).
  pose proof (Hfs 0%nat ltac:(lia)) as Hfi. rewrite Nat.add_0_r in Hfi. simpl in Hfi.
  cbn [partition_regions andb]. rewrite app_nil_l. cbn [regions_end]. unfold placed.
  set (s1 := padded s (fi_alignment f)). set (r := Region s1 _ _ (region_file (Z.of_nat i))). set (s2 := regions_end _ _).
  rewrite <- !app_assoc, <- app_comm_cons.
  unfold hwp. rewrite gpt_partition_table_padding. cbn [gpt_partition_table r_type]. subst r. cbn [r_type].
  set (r := Region s1 _ _ _). rewrite Nat2Z.id, <- Hfi.
  rewrite (proj2 (Z.ltb_lt (Z.of_nat i) _)) by lia. unfold mbind, AM_bind, hassert. simpl.
  rewrite gpt_partition_table_padding.
  pose proof (Hz 0%nat ltac:(lia)) as Hz0. rewrite Nat.add_0_r in Hz0.
  destruct (gpt_entry_written r f (Z.of_nat i =? 0) out (offset + 128 * Z.of_nat i) (fo_guid _ Hf) (fo_type_guid _ Hf) ltac:(lia) ltac:(lia) Hz0)
    as (Hl1 & Hs1 & Hk1).
  set (out1 := create_gpt_partition_table_entry _ _ _ _ _) in *.
  replace (offset + 128 * Z.of_nat i + GPT_PT_ENTRY_SIZE) with (offset + 128 * Z.of_nat (S i)) by (unfold GPT_PT_ENTRY_SIZE; lia).
  replace (Z.of_nat i + 1) with (Z.of_nat (S i)) by lia.
  eapply hwp_mono.
  { apply (IH (S i) s2 out1 offset mem); [done|done|lia| |done|lia|done|].
    - intros k Hk. rewrite Nat.add_succ_comm. apply (Hfs (S k)). lia.
    - intros k Hk. rewrite Hk1 by lia. rewrite Nat.add_succ_comm. apply (Hz (S k)). lia. }
  intros out2 mem2 (-> & Hl2 & Hent & Hkeep). split; [done|]. split; [lia|]. split.
  - intros k g Hk. destruct k as [|k]; simpl in Hk.
    + simplify_eq. rewrite Nat.add_0_r. exists r. split; [|split; [done|]].
      * rewrite elem_of_app. right. left.
      * rewrite Hkeep by lia. exact Hs1.
    + destruct (Hent k g Hk) as (r' & Hin & Ht & Hs). exists r'. rewrite <- Nat.add_succ_comm. split; [|done].
      rewrite elem_of_app, elem_of_cons, elem_of_app. auto.
  - intros o n Ho' Hn Hd. rewrite Hkeep by lia. by rewrite Hk1 by lia.
Qed.

Lemma runs_protective_mbr files st p : laid_out true files st -> pt_primary st = Some p -> (512 <= length p)%nat ->
  runs create_gpt_protective_mbr (fun _ st' => exists p', st' = with_primary (Some p') st /\ length p' = length p /\
    sub p' 0x1fe 2 = [0x55; 0xaa] /\
    sub p' 0x1be 16 = mbr_entry 512 (Z.min (disk_size true files - 1) (UINT32_MAX * SECTOR_SIZE) - 511) false 0xee /\
    forall o n, 512 <= o -> 0 <= n -> sub p' o n = sub p o n) st.
Proof.
  intros Hst Hp Hlen. pose proof (ld_ok _ _ _ Hst) as Hlay. pose proof (lo_size _ _ Hlay) as Hmax.
  pose proof (ld_wf _ _ _ Hst) as Hwf. destruct (region_size_virtual _ Hwf) as [Hv _].
  unfold region_size in Hv. rewrite (ld_regions _ _ _ Hst) in Hv. fold (disk_size true files) in Hv.
  destruct (table_sectors true files (layout_max _ _ Hlay)) as (_ & Hts & _).
  destruct (disk_lookup true files 0 (hd (File [] 0 0 [] 0 0 []) files) (layout_max _ _ Hlay) (lo_files _ _ Hlay)) as (r & Hr1 & Hfr & _).
  { pose proof (lo_some _ _ Hlay). destruct files; simpl in *; [lia|done]. }
  destruct (region_bounds _ _ _ Hlay (fr_in _ _ _ _ Hfr)) as (_ & Hr2 & _). unfold SECTOR_SIZE in Hts.
  unfold create_gpt_protective_mbr. run. run. rewrite Hv, (u64_small (disk_size true files - 1)) by (limits; lia).
  assert (E : (if UINT32_MAX * SECTOR_SIZE <? disk_size true files - 1 then UINT32_MAX * SECTOR_SIZE else disk_size true files - 1)
    = Z.min (disk_size true files - 1) (UINT32_MAX * SECTOR_SIZE)) by (generalize (UINT32_MAX * SECTOR_SIZE); intros m; destruct (Z.ltb_spec m (disk_size true files - 1)); lia).
  rewrite E. unfold SECTOR_SIZE. set (end_ := Z.min _ _) in *. assert (Hend : 512 <= end_ <= UINT32_MAX * 512) by (subst end_; unfold SECTOR_SIZE; limits; lia).
  run. replace (end_ - 512 + 1) with (end_ - 511) by lia. rewrite u64_small by (limits; lia).
  apply runs_entry; [by exists 1|unfold SECTOR_SIZE; limits; lia..|]. set (entry := mbr_entry _ _ _ _).
  assert (Hle : length entry = 16%nat) by apply length_mbr_entry.
  run. eapply runs_write_primary; [done|]. eapply runs_write_primary; [done|]. set (p1 := splice p entry _).
  assert (Hl1 : length p1 = length p) by (subst p1; rewrite length_splice; lia).
  eexists. split; [done|]. split; [rewrite length_splice; simpl; lia|].
  split; [apply sub_splice_same; (done || lia)|]. split.
  - rewrite sub_splice_other by (simpl; lia). subst p1. by rewrite sub_splice_same by lia.
  - intros o n Ho Hn. rewrite sub_splice_other by (simpl; lia). subst p1. by rewrite sub_splice_other by lia.
Qed.

Lemma length_gpt_header size n pt b : length (create_gpt_partition_header size n pt b) = 96%nat.
Proof.
  unfold create_gpt_partition_header, gpt_header_bytes, gpt_header_of. cbv zeta.
  cbn [g_signature g_revision g_header_size g_crc g_reserved g_current_lba g_backup_lba g_first_usable_lba g_last_usable_lba
    g_guid g_partition_entries_lba g_nr_partition_entries g_size_partition_entry g_crc_partitions].
  rewrite !length_app, !length_le, length_memset. done.
Qed.

(** Only the entries count for the header. *)
Lemma gpt_header_entries size n pt pt' b : sub pt 0 (GPT_PT_ENTRY_SIZE * GPT_PTA_SIZE n) = sub pt' 0 (GPT_PT_ENTRY_SIZE * GPT_PTA_SIZE n) ->
  create_gpt_partition_header size n pt b = create_gpt_partition_header size n pt' b.
Proof. intros E. unfold create_gpt_partition_header. by rewrite E. Qed.

Lemma sub_drop (bs : list Z) n m : 0 <= n -> sub (drop (Z.to_nat n) bs) 0 m = sub bs n m.
Proof. intros Hn. unfold sub. by rewrite drop_0. Qed.

Lemma runs_gpt_entries files st out offset : laid_out true files st -> 0 <= offset ->
  let len := GPT_PT_ENTRY_SIZE * GPT_PTA_SIZE (Z.of_nat (length files)) in
  offset + len <= Z.of_nat (length out) -> sub out offset len = memset 0 len ->
  runs (create_gpt_partition_table out offset) (fun out' st' => st' = st /\ length out' = length out /\
    gpt_entries files out' offset /\
    (forall o n, 0 <= o -> 0 <= n -> (o + n <= offset \/ offset + len <= o) -> sub out' o n = sub out o n)) st.
Proof.
  intros Hst Ho len Hlen Hzero. pose proof (ld_ok _ _ _ Hst) as Hlay. pose proof (layout_max _ _ Hlay) as Hmax.
  destruct (table_sectors true files Hmax) as (_ & _ & _ & _ & _ & Hpta & _). subst len. unfold gpt_entries, GPT_PT_ENTRY_SIZE in *.
  assert (Hz : forall k, Z.of_nat k < GPT_PTA_SIZE (Z.of_nat (length files)) -> sub out (offset + 128 * Z.of_nat k) 128 = memset 0 128).
  { intros k Hk. rewrite <- (sub_sub out offset (128 * GPT_PTA_SIZE (Z.of_nat (length files)))) by lia. rewrite Hzero.
    apply sub_memset; lia. }
  unfold create_gpt_partition_table. run. run. change (id st) with st. rewrite (ld_files _ _ _ Hst), (ld_regions _ _ _ Hst).
  apply runs_lift. intros mem. eapply hwp_mono.
  { pose proof (hwp_gpt_partition_table files files (gpt_tail true files) 0 (table_size true files) out offset mem) as H.
    simpl Nat.add in H. simpl Z.of_nat in H. rewrite Z.mul_0_r, Z.add_0_r in H.
    apply H; [apply Hlay|done|lia|done|done|lia| |].
    - unfold gpt_tail. intros r Hr. by apply list_elem_of_singleton in Hr as ->.
    - intros k Hk. apply Hz. lia. }
  intros out' mem' (-> & Hl & Hent & Hkeep). split; [|done]. split; [done|]. split; [done|].
  split; [split|intros o n Ho' Hn Hd; apply Hkeep; lia].
  - intros k f Hk. destruct (Hent k f Hk) as (r & Hin & Ht & Hs). exists r. split; [|exact Hs].
    destruct (disk_lookup true files k f Hmax (lo_files _ _ Hlay) Hk) as (r' & _ & Hfr & _).
    assert (r = r') as ->; [|done]. eapply rank_unique; [by apply disk_ranked| |apply Hfr| |by eapply rank_file].
    + unfold disk_regions, front_regions. rewrite elem_of_app, elem_of_cons. auto.
    + unfold rank. by rewrite Ht.
  - intros k Hk Hk'. rewrite Hkeep by lia. by apply Hz.
Qed.

Lemma gpt_entries_unique files p o q o' : layout_ok true files -> 0 <= o -> 0 <= o' ->
  gpt_entries files p o -> gpt_entries files q o' ->
  let len := GPT_PT_ENTRY_SIZE * GPT_PTA_SIZE (Z.of_nat (length files)) in sub p o len = sub q o' len.
Proof.
  intros Hlay Ho Ho' [Hp1 Hp2] [Hq1 Hq2] len. pose proof (layout_max _ _ Hlay) as Hmax.
  destruct (table_sectors true files Hmax) as (_ & _ & _ & _ & _ & Hpta & _). subst len.
  rewrite <- (Z2Nat.id (GPT_PTA_SIZE _)) by lia. apply sub_chunks; [done|done|done|]. intros k Hk.
  destruct (files !! k) as [f|] eqn:Ek.
  - destruct (Hp1 k f Ek) as (r & Hr & ->), (Hq1 k f Ek) as (r' & Hr' & ->).
    assert (r = r') as ->; [|done].
    eapply rank_unique; [by apply disk_ranked|apply Hr|apply Hr'|by eapply rank_file..].
  - apply lookup_ge_None in Ek. rewrite Hp2, Hq2 by lia. done.
Qed.

Lemma runs_create_gpt_layout files st : laid_out true files st ->
  pt_primary st = Some (memset 0 (table_size true files)) -> pt_secondary st = Some (memset 0 (backup_size files)) ->
  runs create_gpt_layout (fun _ st' => laid_out true files st' /\ gpt_tables files st') st.
Proof.
  intros Hst Hp Hq. pose proof (ld_ok _ _ _ Hst) as Hlay. pose proof (layout_max _ _ Hlay) as Hmax.
  pose proof (ld_wf _ _ _ Hst) as Hwf. destruct (region_size_virtual _ Hwf) as [Hv _].
  unfold region_size in Hv. rewrite (ld_regions _ _ _ Hst) in Hv. fold (disk_size true files) in Hv.
  destruct (table_sectors true files Hmax) as (_ & _ & _ & Hbs & Hlbas & Hpta & H128).
  pose proof (lo_some _ _ Hlay). specialize (H128 ltac:(lia)).
  unfold gpt_tables. set (n := Z.of_nat (length files)) in *.
  assert (Hts : table_size true files = 2 * 512 + GPT_PT_ENTRY_SIZE * GPT_PTA_SIZE n) by (unfold table_size, SECTOR_SIZE in *; fold n; lia).
  assert (Hbs' : backup_size files = GPT_PT_ENTRY_SIZE * GPT_PTA_SIZE n + 512) by (unfold backup_size, SECTOR_SIZE in *; fold n; lia).
  assert (Hlq : GPT_PTA_LBAs n * SECTOR_SIZE = GPT_PT_ENTRY_SIZE * GPT_PTA_SIZE n) by lia.
  rewrite Hts, Hbs' in *. clear Hts Hbs' Hlbas.
  assert (Hlen : 0 < GPT_PT_ENTRY_SIZE * GPT_PTA_SIZE n) by (unfold GPT_PT_ENTRY_SIZE; lia).
  assert (Hents := fun p q o => gpt_entries_unique files p o q 0 Hlay). cbv zeta in Hents. fold n in Hents.
  pose proof (fun o st out => runs_gpt_entries files st out o) as Hrun. cbv zeta in Hrun. fold n in Hrun.
  pose proof (gpt_header_entries (disk_size true files) n) as Hhead.
  set (len := GPT_PT_ENTRY_SIZE * GPT_PTA_SIZE n) in *.
  assert (Hlm : length (memset 0 (2 * 512 + len)) = Z.to_nat (1024 + len)) by (rewrite length_memset; f_equal; lia).
  assert (Hlm2 : length (memset 0 (len + 512)) = Z.to_nat (len + 512)) by (by rewrite length_memset).
  unfold create_gpt_layout. run. run. change (id st) with st. rewrite Hv. unfold v_len. rewrite (ld_files _ _ _ Hst). fold n.
  run. eapply runs_mono; [apply (runs_protective_mbr files st _ Hst Hp); lia|].
  intros [] st1 (p1 & -> & Hl1 & Hsig1 & Hpm1 & Hz1). run. run. cbn [pt_primary with_primary]. rewrite Hlm in Hl1.
  unfold SECTOR_SIZE in *. run. eapply runs_mono.
  { apply (Hrun (2 * 512) _ p1); [by apply laid_out_primary|done|lia|]. rewrite Hz1 by lia. apply sub_memset; lia. }
  intros p2 st2 (-> & Hl2 & Hent & Hkeep). run. run. set (h1 := create_gpt_partition_header _ _ _ true).
  assert (Hh1 : length h1 = 96%nat) by apply length_gpt_header.
  run. eapply runs_write_primary; [done|]. set (p3 := splice p2 h1 512).
  assert (Hl3 : length p3 = Z.to_nat (1024 + len)) by (subst p3; rewrite length_splice; lia).
  assert (Hp3 : forall o k, 1024 <= o -> 0 <= k -> sub p3 o k = sub p2 o k) by (intros; subst p3; apply sub_splice_other; lia).
  run. run. cbn [pt_secondary with_primary]. rewrite Hq. run. eapply runs_mono.
  { apply (Hrun 0 _ (memset 0 (len + 512))); [by do 3 apply laid_out_primary|done|lia|apply sub_memset; lia]. }
  intros q1 st3 (-> & Hlq1 & Hentq & Hkeepq). run. run.
  set (h2 := create_gpt_partition_header _ _ _ false). assert (Hh2 : length h2 = 96%nat) by apply length_gpt_header.
  unfold write_secondary. run. run. run. rewrite Hlq. set (q2 := splice q1 h2 _).
  split; [by apply laid_out_secondary, laid_out_secondary; do 3 apply laid_out_primary|].
  assert (Hlq2 : length q2 = Z.to_nat (len + 512)) by (subst q2; rewrite length_splice; lia).
  assert (Hq2 : sub q2 0 len = sub q1 0 len) by (subst q2; apply sub_splice_other; lia).
  exists p3, q2. do 2 (split; [done|]). split; [rewrite Hl3; f_equal; lia|]. split; [done|].
  split; [subst p3; rewrite sub_splice_other, Hkeep by lia; done|].
  split; [subst p3; rewrite sub_splice_other, Hkeep by lia; done|]. split; [|split; [|split]].
  - destruct Hent as [He1 He2]. unfold gpt_entries, GPT_PT_ENTRY_SIZE in *. split.
    + intros k f Hk. destruct (He1 k f Hk) as (r & Hr & Hs). exists r. split; [done|]. rewrite Hp3 by lia. exact Hs.
    + intros k Hk Hk'. rewrite Hp3 by lia. by apply He2.
  - rewrite Hq2, Hp3 by lia. symmetry. by apply Hents.
  - unfold sizeof_gpt_header. transitivity h1; [subst p3; apply sub_splice_same; [lia|by rewrite Hh1|lia]|]. subst h1. apply Hhead.
    rewrite (sub_drop p2 (2 * 512)) by lia. rewrite Hp3 by lia. symmetry. apply sub_all. rewrite length_sub; lia.
  - unfold sizeof_gpt_header. transitivity h2; [subst q2; apply sub_splice_same; [lia|by rewrite Hh2|lia]|]. subst h2. apply Hhead.
    rewrite Hq2. symmetry. apply sub_all. rewrite length_sub; lia.
Qed.

(** ** [get_ready] *)

(** The disk is ready to be served. *)
Record ready (gpt : bool) files st : Prop := Ready {
  rd_laid_out : laid_out gpt files st;
  rd_tables : if gpt then gpt_tables files st else mbr_tables files st;
}.

Lemma runs_get_ready gpt st : configured gpt st ->
  runs create_virtual_disk_layout (fun _ => ready gpt (v_items (pt_files st))) st.
Proof.
  intros Hc. apply (runs_layout gpt); [done|]. intros rs st1 Hst. set (files := v_items (pt_files st)) in *.
  pose proof (ld_ok _ _ _ Hst) as Hlay. pose proof (lo_some _ _ Hlay) as Hsome.
  assert (Ep : pt_primary st1 = Some (memset 0 (table_size gpt files)) /\
    (gpt = true -> pt_secondary st1 = Some (memset 0 (backup_size files))) /\
    (has_logical gpt files = true -> pt_ebr st1 = Some (replicate (length files - 3) (memset 0 SECTOR_SIZE)))).
  { subst st1. unfold tables_allocated. destruct gpt; [done|]. by destruct (has_logical false files) eqn:E. }
  destruct Ep as (Ep & Es & Ee). unfold create_partition_table. run. run. change (id st1) with st1.
  run. apply runs_assert; [by unfold nr_regions, v_len; rewrite (ld_regions _ _ _ Hst)|].
  run. apply runs_assert; [by rewrite Ep|]. rewrite (ld_type _ _ _ Hst). destruct gpt.
  - run. apply runs_assert; [by rewrite Es|]. eapply runs_mono; [apply (runs_create_gpt_layout files); auto|]. intros [] st2 [H1 H2]. by split.
  - eapply runs_mono; [apply (runs_create_mbr_layout files); auto|]. intros [] st2 [H1 H2]. by split.
Qed.

(** The checksums of a GPT header. *)
Lemma gpt_header_checksums size n pt b : let h := create_gpt_partition_header size n pt b in
  le_val (sub h 16 4) = efi_crc32 (splice h [0; 0; 0; 0] 16) mod 2 ^ 32 /\
  le_val (sub h 88 4) = efi_crc32 (sub pt 0 (GPT_PT_ENTRY_SIZE * GPT_PTA_SIZE n)) mod 2 ^ 32.
Proof.
  unfold create_gpt_partition_header. cbv zeta. set (crc_pt := efi_crc32 (sub pt _ _)).
  set (hdr := fun crc => gpt_header_bytes (gpt_header_of size n crc_pt b crc)).
  change (le_val (sub (hdr (efi_crc32 (hdr 0))) 16 4) = efi_crc32 (splice (hdr (efi_crc32 (hdr 0))) [0; 0; 0; 0] 16) mod 2 ^ 32 /\
    le_val (sub (hdr (efi_crc32 (hdr 0))) 88 4) = crc_pt mod 2 ^ 32).
  assert (Hsplit : exists l1 l2 l3 : list Z, length l1 = 16%nat /\ length l2 = 68%nat /\
    forall crc, hdr crc = l1 ++ le 4 crc ++ l2 ++ le 4 crc_pt ++ l3).
  { set (h := gpt_header_of size n crc_pt b 0).
    exists (g_signature h ++ g_revision h ++ le 4 (g_header_size h)),
      (le 4 (g_reserved h) ++ le 8 (g_current_lba h) ++ le 8 (g_backup_lba h) ++ le 8 (g_first_usable_lba h) ++
       le 8 (g_last_usable_lba h) ++ g_guid h ++ le 8 (g_partition_entries_lba h) ++ le 4 (g_nr_partition_entries h) ++
       le 4 (g_size_partition_entry h)), [0; 0; 0; 0].
    split; [by rewrite !length_app, length_le|]. split; [by rewrite !length_app, !length_le|].
    intros crc. subst hdr h. unfold gpt_header_bytes. by rewrite <- !app_assoc. }
  destruct Hsplit as (l1 & l2 & l3 & H1 & H2 & Hall). rewrite (Hall (efi_crc32 (hdr 0))). split.
  - rewrite (sub_app_r l1) by lia. rewrite sub_app_l by (rewrite ?length_le; lia). rewrite H1, sub_all by (by rewrite length_le).
    rewrite le_val_le. f_equal. f_equal. rewrite (Hall 0). unfold splice. rewrite take_app_length' by lia.
    change (le 4 0) with [0; 0; 0; 0]. f_equal. simpl length. rewrite drop_app_ge by lia. rewrite H1.
    rewrite drop_app_ge by (rewrite length_le; lia). rewrite length_le. done.
  - rewrite (sub_app_r l1) by lia. rewrite sub_app_r by (rewrite length_le; lia). rewrite sub_app_r by (rewrite length_le; lia).
    rewrite sub_app_l by (rewrite ?length_le; lia). rewrite length_le, H1, H2. change (88 - _ - _ - _) with 0.
    rewrite sub_all by (by rewrite length_le). by rewrite le_val_le.
Qed.

(** C34: with parameters that the plugin accepts and that suit the type of
    disk, [partitioning_get_ready] ends without a failed assertion, and with
    -1 only if memory runs out.  Afterwards the regions are a contiguous
    layout of the whole disk in which every file has a partition of its size,
    aligned as requested and padded to whole sectors with zeroes; and the
    partition tables describe exactly those partitions: for MBR the four
    entries, the extended partition and the chain of EBRs of the logical
    partitions, for GPT two identical arrays of entries, in whose headers both
    checksums are right. *)
Theorem partitioning_get_ready_correct gpt st mem : configured gpt st ->
  hwp (partitioning_get_ready st) (fun '(r, st') _ =>
    let files := v_items (pt_files st) in
    (r = -1 /\ mem <> []) \/
    (r = 0 /\ ready gpt files st' /\ virtual_size (pt_regions st') = disk_size gpt files /\
     (forall k f, files !! k = Some f -> exists reg,
        file_region (v_items (pt_regions st')) (Z.of_nat k) f reg /\ 0 < r_start reg /\ r_end reg < disk_size gpt files) /\
     (gpt = true -> exists p q, pt_primary st' = Some p /\ pt_secondary st' = Some q /\
        Forall (fun '(h, entries) =>
          le_val (sub h 16 4) = efi_crc32 (splice h [0; 0; 0; 0] 16) mod 2 ^ 32 /\
          le_val (sub h 88 4) = efi_crc32 entries mod 2 ^ 32)
        (let len := GPT_PT_ENTRY_SIZE * GPT_PTA_SIZE (Z.of_nat (length files)) in
         [(sub p SECTOR_SIZE sizeof_gpt_header, sub p (2 * SECTOR_SIZE) len); (sub q len sizeof_gpt_header, sub q 0 len)])))) mem.
Proof.
  intros Hc. unfold partitioning_get_ready. apply hwp_bind. eapply hwp_mono; [by apply runs_get_ready|].
  intros [[[]|] st'] mem'; [|by intros Hm; apply hwp_ret; left]. intros [Hr _]. apply hwp_ret. right. set (files := v_items (pt_files st)) in *.
  split; [done|]. split; [done|]. destruct Hr as [Hl Ht]. pose proof (ld_ok _ _ _ Hl) as Hlay.
  destruct (region_size_virtual _ (ld_wf _ _ _ Hl)) as [Hv _]. unfold region_size in Hv.
  rewrite (ld_regions _ _ _ Hl) in *. split; [done|]. split.
  - intros k f Hk. destruct (disk_lookup gpt files k f (layout_max _ _ Hlay) (lo_files _ _ Hlay) Hk) as (reg & Hs & Hf & _).
    exists reg. split; [done|]. destruct (region_bounds _ _ _ Hlay (fr_in _ _ _ _ Hf)) as (? & ? & ?).
    destruct (table_sectors gpt files (layout_max _ _ Hlay)) as (_ & Ht0 & _). unfold SECTOR_SIZE in Ht0. lia.
  - intros ->. destruct Ht as (p & q & Hp & Hq & Hlp & Hlq & _ & _ & _ & _ & Hh1 & Hh2). exists p, q. do 2 (split; [done|]). cbv zeta.
    destruct (table_sectors true files (layout_max _ _ Hlay)) as (_ & _ & _ & Hbs & Hlbas & Hpta & H128).
    pose proof (lo_some _ _ Hlay). specialize (H128 ltac:(lia)). unfold table_size, backup_size, SECTOR_SIZE, GPT_PT_ENTRY_SIZE in *.
    assert (Hsum : forall size pt b, Z.of_nat (length pt) = 128 * GPT_PTA_SIZE (Z.of_nat (length files)) ->
      let h := create_gpt_partition_header size (Z.of_nat (length files)) pt b in
      le_val (sub h 16 4) = efi_crc32 (splice h [0; 0; 0; 0] 16) mod 2 ^ 32 /\ le_val (sub h 88 4) = efi_crc32 pt mod 2 ^ 32).
    { intros size pt b Hpt. cbv zeta. destruct (gpt_header_checksums size (Z.of_nat (length files)) pt b) as [E1 E2].
      split; [exact E1|]. rewrite E2. do 2 f_equal. apply sub_all. unfold GPT_PT_ENTRY_SIZE. lia. }
    rewrite Hh1, Hh2. apply Forall_cons; split; [|apply Forall_cons; split; [|by apply Forall_nil]]; apply Hsum; rewrite length_sub; lia.
Qed.

(** Two files. *)
Definition sample_file (n size : Z) : file := File [65; 48 + n] n size (memset n 16) DEFAULT_ALIGNMENT DEFAULT_MBR_ID default_guid.
Definition sample_files : list file := [sample_file 3 1000; sample_file 4 4096].
Definition sample_partitioning : partitioning := with_parttype PARTTYPE_GPT (with_files (Vec sample_files 2) (partitioning_load 1)).

Lemma sample_configured : configured true sample_partitioning.
Proof.
  split; [done| |done..]. split.
  - repeat constructor; try done; exists 20; split; done || lia.
  - simpl. lia.
  - simpl. lia.
  - by vm_compute.
  - done.
Qed.

Lemma partitioning_get_ready_correct_witness :
  hwp (partitioning_get_ready sample_partitioning) (fun '(r, st') _ => r = 0 /\ ready true sample_files st') [].
Proof.
  eapply hwp_mono; [apply (partitioning_get_ready_correct true), sample_configured|].
  intros [r st'] mem' [[_ ?]|(? & ? & _)]; [done|]. by split.
Defined.

(** ** Alignments that are not powers of 2 *)

Lemma PM_bind_ok {A B} (m : PM A) (k : A -> PM B) st mem a st' mem' :
  m st mem = Ok ((Some a, st'), mem') -> (m ≫= k) st mem = k a st' mem'.
Proof. intros E. change ((m ≫= k) st mem) with ((m st ≫= (λ '(o, st0), match o with Some a0 => k a0 st0 | None => mret (None, st0) end)) mem). unfold mbind at 1, AM_bind. by rewrite E. Qed.

Lemma PM_bind_crash {A B} (m : PM A) (k : A -> PM B) st mem c : m st mem = Crash c -> (m ≫= k) st mem = Crash c.
Proof. intros E. unfold mbind, PM_bind, mbind, AM_bind. by rewrite E. Qed.

Lemma PM_lift_ok {A} (m : AM A) st mem a mem' : m mem = Ok (a, mem') -> p_lift m st mem = Ok ((Some a, st), mem').
Proof. intros E. unfold p_lift, mbind, AM_bind. by rewrite E. Qed.

Lemma config_alignment_ok os_open device_size value st mem :
  let a := nbdkit_parse_size value in 512 <= a <= 2048 * 512 -> a mod 512 = 0 ->
  partitioning_config os_open device_size key_alignment value st mem = Ok ((Some tt, with_alignment a st), mem).
Proof.
  intros a Ha Hmod. change (partitioning_config os_open device_size key_alignment value) with
    (if a =? -1 then p_return_error
     else if negb ((512 <=? a) && (a <=? 2048 * 512)) then p_return_error
     else aligned ← p_lift (is_aligned64 a 512); if negb aligned then p_return_error else p_modify (with_alignment a)).
  rewrite (proj2 (Z.eqb_neq a (-1))), (proj2 (Z.leb_le 512 a)), (proj2 (Z.leb_le a _)) by lia. simpl negb. cbv iota.
  assert (E : is_aligned64 a 512 mem = Ok (true, mem)).
  2: { simpl. erewrite PM_bind_ok; [|by apply PM_lift_ok, E]. done. }
  change (is_aligned64 a 512 mem) with (Ok (Z.land a (2 ^ 9 - 1) =? 0, mem)). rewrite land_pred_pow2 by lia.
  change (2 ^ 9) with 512. by rewrite Hmod.
Qed.

Lemma config_file_ok os_open device_size name fd st : os_open name = Some fd -> 0 < device_size fd -> pt_files st = empty_vector ->
  exists f random, fi_alignment f = pt_alignment st /\ fi_size f = device_size fd /\
    partitioning_config os_open device_size key_file name st [] =
      Ok ((Some tt, with_files (Vec [f] 1) (with_random random st)), []).
Proof.
  intros Hopen Hsize Hfiles. destruct (random_bytes 16 (pt_random st)) as [guid random] eqn:Hr.
  exists (File name fd (device_size fd) guid (pt_alignment st) (pt_mbr_id st) (pt_type_guid st)), random.
  do 2 (split; [done|]). change (partitioning_config os_open device_size key_file name) with (config_file os_open device_size name).
  unfold config_file. erewrite PM_bind_ok; [|reflexivity]. change (id st) with st. rewrite Hopen. cbv zeta.
  rewrite (proj2 (Z.eqb_neq _ (-1))), (proj2 (Z.eqb_neq _ 0)) by lia. change (false || false) with false. cbv iota. rewrite Hr, Hfiles.
  reflexivity.
Qed.

Lemma config_complete_mbr f st : pt_files st = Vec [f] 1 -> pt_parttype st = PARTTYPE_UNSET -> 0 <= fi_size f <= MAX_MBR_DISK_SIZE ->
  partitioning_config_complete st [] = Ok ((Some tt, with_parttype PARTTYPE_MBR st), []).
Proof.
  intros Hf Ht Hs. unfold partitioning_config_complete. erewrite PM_bind_ok; [|reflexivity]. change (id st) with st. rewrite Hf, Ht.
  change (v_len (Vec [f] 1)) with 1. change (total_size (v_items (Vec [f] 1))) with (u64 (0 + fi_size f)).
  rewrite u64_small by (unfold MAX_MBR_DISK_SIZE, MAX_ALIGNMENT, SECTOR_SIZE in *; limits; lia).
  by rewrite (proj2 (Z.ltb_ge MAX_MBR_DISK_SIZE _)) by lia.
Qed.

Lemma layout_alignment_crash f st : pt_files st = Vec [f] 1 -> pt_parttype st = PARTTYPE_MBR -> pt_regions st = init_regions ->
  pt_primary st = None -> pt_secondary st = None -> fi_alignment f <> 0 -> is_power_of_2 (fi_alignment f) = false ->
  create_virtual_disk_layout st [] = Crash AssertFailed.
Proof.
  intros Hf Ht Hr Hp Hs Hz Hpow. destruct st as [al mid tg ty fs rs pr se eb ra]. simpl in *. subst.
  destruct f as [fn fd sz gu fa fm ft]. simpl in *. 
  unfold create_virtual_disk_layout. do 5 (erewrite PM_bind_ok; [|reflexivity]). 
  cbn -[is_power_of_2]. do 2 (erewrite PM_bind_ok; [|cbv; reflexivity]). apply PM_bind_crash.
  do 4 (erewrite PM_bind_ok; [|cbv; reflexivity]). apply PM_bind_crash. unfold append_region. erewrite PM_bind_ok; [|reflexivity].
  apply PM_bind_crash. unfold p_lift, append_region_len, append_region_va, append_alignment, append_padding. rewrite Hpow.
  by rewrite (proj2 (Z.eqb_neq fa 0)) by done.
Qed.

(** [partitioning_config] accepts every multiple of 512 up to 1M as an
    alignment, but [append_region_len] asserts that alignments are powers of
    2: with an alignment like 1536 the plugin aborts when it gets ready. *)
Lemma alignment_aborts os_open device_size time value name fd :
  let a := nbdkit_parse_size value in
  SECTOR_SIZE <= a <= MAX_ALIGNMENT -> a mod SECTOR_SIZE = 0 -> is_power_of_2 a = false ->
  os_open name = Some fd -> 0 < device_size fd <= MAX_MBR_DISK_SIZE ->
  (partitioning_config os_open device_size key_alignment value;;
   partitioning_config os_open device_size key_file name;;
   partitioning_config_complete;;
   create_virtual_disk_layout) (partitioning_load time) [] = Crash AssertFailed.
Proof.
  intros a Ha Hmod Hpow Hopen Hsize. unfold MAX_ALIGNMENT, SECTOR_SIZE in Ha, Hmod.
  erewrite PM_bind_ok; [|by apply config_alignment_ok; [..|exact Hmod]]. fold a.
  destruct (config_file_ok os_open device_size name fd (with_alignment a (partitioning_load time)) Hopen ltac:(lia) eq_refl)
    as (f & random & Hfa & Hfs & E). erewrite PM_bind_ok; [|exact E].
  erewrite PM_bind_ok; [|by apply (config_complete_mbr f); [..|lia]].
  apply (layout_alignment_crash f); try done; [|by rewrite Hfa]. rewrite Hfa. simpl. lia.
Qed.

Lemma alignment_aborts_witness :
  (partitioning_config (fun _ => Some 3) (fun _ => 4096) key_alignment [49; 53; 51; 54];;
   partitioning_config (fun _ => Some 3) (fun _ => 4096) key_file [65];;
   partitioning_config_complete;;
   create_virtual_disk_layout) (partitioning_load 0) [] = Crash AssertFailed.
Proof. apply (alignment_aborts _ _ 0 [49; 53; 51; 54] [65] 3); by vm_compute. Defined.
