(* ===== verification/PartitioningServe.v ===== *)
(** * The partitioning plugin: serving the disk

    The callbacks of [plugins/partitioning/partitioning.c] on the disk that
    [get_ready] laid out ([PartitioningDisk]): reads return the bytes of the
    virtual disk, which is made of the files, the partition tables and zero
    padding, and writes change the files and nothing else. *)

From stdpp Require Import functions.
From S2P Require Import Prelude NbdProtocol Extents Exports Server Connections Backend Plugin Filter Bytes Io Parse Vector Bitmap Layer ExtentsQuery Offset Serve Regions Gpt Partitioning PartitioningDisk.

Implicit Types (files : list file) (f : file) (st : partitioning) (l items : list (region buffer)) (r : region buffer) (os : Z -> os_file).

(** ** The bytes of the disk *)

(** The byte at [x], in the region [r] that contains it. *)
Definition region_byte st os r (x : Z) : Z :=
  match r_type r with
  | region_file i =>
      match v_items (pt_files st) !! Z.to_nat i with
      | Some f => of_data (os (fi_fd f)) (x - r_start r)
      | None => 0
      end
  | region_data b => match buffer_data st b with Some data => nth (Z.to_nat (x - r_start r)) data 0 | None => 0 end
  | region_zero => 0
  end.

Definition virtual_disk st os : Z -> Z := fun x =>
  match find_region (pt_regions st) x with Some r => region_byte st os r x | None => 0 end.

(** ** The regions of the disk *)

Inductive region_shape (gpt : bool) files r : Prop :=
| shape_primary : r_type r = region_data primary_buffer -> r_start r = 0 -> r_len r = table_size gpt files -> region_shape gpt files r
| shape_file k f : files !! k = Some f -> r_type r = region_file (Z.of_nat k) -> r_len r = fi_size f -> region_shape gpt files r
| shape_ebr k f : files !! k = Some f -> (3 <= k)%nat -> has_logical gpt files = true ->
    r_type r = region_data (ebr_buffer (Z.of_nat k - 3)) -> r_len r = SECTOR_SIZE -> region_shape gpt files r
| shape_zero : r_type r = region_zero -> region_shape gpt files r
| shape_secondary : gpt = true -> r_type r = region_data secondary_buffer -> r_len r = backup_size files -> region_shape gpt files r.

Lemma padding_type s a r : r ∈ padding s a -> r_type r = region_zero.
Proof. unfold padding. destruct (_ || _)%bool; [by intros ?%elem_of_nil|]. by intros ->%list_elem_of_singleton. Qed.

Lemma disk_region_shape gpt files r : r ∈ disk_regions gpt files -> region_shape gpt files r.
Proof.
  assert (Hp : forall logical fs n s, r ∈ partition_regions logical fs (Z.of_nat n) s ->
    (exists k f, fs !! k = Some f /\ r_type r = region_file (Z.of_nat (n + k)) /\ r_len r = fi_size f) \/
    (exists k f, fs !! k = Some f /\ (3 <= n + k)%nat /\ logical = true /\
       r_type r = region_data (ebr_buffer (Z.of_nat (n + k) - 3)) /\ r_len r = SECTOR_SIZE) \/
    r_type r = region_zero).
  { intros logical fs. induction fs as [|f fs IH]; intros n s Hr; cbn [partition_regions] in Hr; [by apply elem_of_nil in Hr|].
    rewrite !elem_of_app in Hr. destruct Hr as [[Hr|Hr]|Hr].
    - destruct logical, (Z.leb_spec 3 (Z.of_nat n)); simpl in Hr; try by apply elem_of_nil in Hr.
      apply list_elem_of_singleton in Hr as ->. right; left. exists 0%nat, f. simpl. rewrite Nat.add_0_r. split_and!; (done || lia).
    - unfold placed in Hr. rewrite elem_of_app, elem_of_cons in Hr.
      destruct Hr as [?%padding_type|[->|?%padding_type]]; [auto| |auto]. left. exists 0%nat, f. simpl. by rewrite Nat.add_0_r.
    - replace (Z.of_nat n + 1) with (Z.of_nat (S n)) in Hr by lia.
      destruct (IH (S n) _ Hr) as [(k & f' & Hk & Ht)|[(k & f' & Hk & H3 & Ht)|?]]; [left|right; left|auto];
        exists (S k), f'; rewrite Nat.add_succ_r; (split_and!; [done|..]); try apply Ht; done. }
  unfold disk_regions, front_regions. rewrite elem_of_app, elem_of_cons. intros [[->|Hin]|Hin].
  - by apply shape_primary.
  - destruct (Hp _ _ 0%nat _ Hin) as [(k & f & Hk & Ht & Hl)|[(k & f & Hk & H3 & Hlog & Ht & Hl)|?]].
    + by eapply shape_file.
    + by eapply shape_ebr.
    + by apply shape_zero.
  - destruct gpt; [|by apply elem_of_nil in Hin]. apply list_elem_of_singleton in Hin as ->. by apply shape_secondary.
Qed.

(** What a region refers to is there, and long enough. *)
Lemma ready_region gpt files st r : ready gpt files st -> r ∈ disk_regions gpt files ->
  match r_type r with
  | region_file i => exists f, files !! Z.to_nat i = Some f /\ r_len r = fi_size f
  | region_data b => exists data, buffer_data st b = Some data /\ Z.of_nat (length data) = r_len r
  | region_zero => True
  end.
Proof.
  intros [Hl Ht] Hin. pose proof (ld_ok _ _ _ Hl) as Hlay.
  destruct (table_sectors gpt files (layout_max _ _ Hlay)) as (_ & Hts & _ & Hbs & _).
  destruct (disk_region_shape _ _ _ Hin) as [Er _ El|k f Hk Er El|k f Hk H3 Hlog Er El|Er|Hgpt Er El]; rewrite Er; rewrite ?El; try subst gpt.
  - destruct gpt.
    + destruct Ht as (p & q & Hp & _ & Hlp & _). exists p. split; [done|]. unfold SECTOR_SIZE in *. lia.
    + destruct Ht as (p & Hp & Hlp & _). exists p. split; [done|]. by rewrite Hlp.
  - rewrite Nat2Z.id. by exists f.
  - destruct gpt; [done|]. destruct Ht as (p & _ & _ & _ & _ & Hebr). destruct (Hebr Hlog) as (e0 & r0 & ebrs & _ & _ & He & Hle & Hall).
    destruct (Hall k f H3 Hk) as (eb & Heb & e & r1 & _ & _ & Hleb & _). exists eb. simpl. rewrite He.
    replace (Z.to_nat (Z.of_nat k - 3)) with (k - 3)%nat by lia. split; [done|]. by rewrite Hleb.
  - done.
  - destruct Ht as (p & q & _ & Hq & _ & Hlq & _). exists q. split; [done|]. lia.
Qed.

(** ** The files

    The system calls may fail or transfer less than was asked for, and the
    files are still as large as when they were opened. *)
Definition io_event_ok (e : io_event) : Prop := match e with IoErr n => errno_ok n /\ n <> 0 | _ => True end.

Definition file_there os f : Prop :=
  fi_size f <= of_size (os (fi_fd f)) /\ Forall io_event_ok (of_io (os (fi_fd f))).

Definition files_there os files : Prop := Forall (file_there os) files.

(** Only what coming system calls do has changed. *)
Definition same_files os os' : Prop := forall fd, of_data (os' fd) = of_data (os fd) /\ of_size (os' fd) = of_size (os fd).

Lemma same_files_refl os : same_files os os.
Proof. done. Qed.

Lemma same_files_trans os1 os2 os3 : same_files os1 os2 -> same_files os2 os3 -> same_files os1 os3.
Proof. intros H1 H2 fd. destruct (H1 fd), (H2 fd). split; congruence. Qed.

Lemma region_byte_same st os os' r x : same_files os os' -> region_byte st os' r x = region_byte st os r x.
Proof. intros H. unfold region_byte. destruct (r_type r); [|done..]. destruct (_ !! _) as [f|]; [|done]. by rewrite (proj1 (H (fi_fd f))). Qed.

Lemma virtual_disk_same st os os' x : same_files os os' -> virtual_disk st os' x = virtual_disk st os x.
Proof. intros H. unfold virtual_disk. destruct (find_region _ _); [|done]. by apply region_byte_same. Qed.

Lemma pop_io_spec file e file' : Forall io_event_ok (of_io file) -> pop_io file = (e, file') ->
  io_event_ok e /\ of_data file' = of_data file /\ of_size file' = of_size file /\ Forall io_event_ok (of_io file').
Proof.
  unfold pop_io. destruct (of_io file) as [|e0 io] eqn:E; intros Hio [= <- <-].
  - by rewrite E.
  - inversion_clear Hio. by simpl.
Qed.

Lemma of_pread_spec file count offset res file' :
  Forall io_event_ok (of_io file) -> 0 < count -> 0 <= offset -> offset + count <= of_size file ->
  of_pread file count offset = (res, file') ->
  of_data file' = of_data file /\ of_size file' = of_size file /\ Forall io_event_ok (of_io file') /\
  match res with
  | inl errno => errno_ok errno /\ errno <> 0
  | inr data => exists n, 0 < n <= count /\ data = slice (of_data file) offset n
  end.
Proof.
  intros Hio Hc Ho Hle. unfold of_pread. destruct (pop_io file) as [e file1] eqn:E.
  destruct (pop_io_spec _ _ _ Hio E) as (He & Hd & Hs & Hio1). destruct e as [|n|errno]; intros [= <- <-]; split_and!; try done.
  - exists count. split; [lia|]. rewrite Hd, Hs. f_equal. lia.
  - exists (Z.min count (Z.of_nat (S n))). split; [lia|]. rewrite Hd, Hs. f_equal. lia.
  - apply He.
  - apply He.
Qed.

(** A system call on the file [f]. *)
Lemma same_files_insert os fd file : of_data file = of_data (os fd) -> of_size file = of_size (os fd) -> same_files os (<[fd := file]> os).
Proof.
  intros Hd Hs fd'. destruct (decide (fd = fd')) as [<-|]; [by rewrite fn_lookup_insert|by rewrite fn_lookup_insert_ne].
Qed.

Lemma files_there_insert os files fd file : of_size file = of_size (os fd) -> Forall io_event_ok (of_io file) ->
  files_there os files -> files_there (<[fd := file]> os) files.
Proof.
  intros Hs Hio Hall. eapply Forall_impl; [exact Hall|]. intros f [H1 H2]. unfold file_there.
  destruct (decide (fd = fi_fd f)) as [-> |]; [|by rewrite fn_lookup_insert_ne]. rewrite fn_lookup_insert. split; [by rewrite Hs|done].
Qed.

Section Serve.
Context (gpt : bool) (files : list file) (st : partitioning) (Hready : ready gpt files st).

Notation size := (disk_size gpt files).

Lemma virtual_disk_size : 0 <= size <= INT64_MAX /\ virtual_size (pt_regions st) = size.
Proof.
  pose proof (rd_laid_out _ _ _ Hready) as Hl. destruct (region_size_virtual _ (ld_wf _ _ _ Hl)) as [Hv Hb].
  unfold region_size in *. rewrite (ld_regions _ _ _ Hl) in *. done.
Qed.

(** Every offset of the disk is in a region. *)
Lemma serve_region x : 0 <= x < size -> exists r, find_region (pt_regions st) x = Some r /\ r ∈ disk_regions gpt files /\
  0 <= r_start r <= x /\ x <= r_end r /\ r_end r = r_start r + r_len r - 1 /\ r_start r + r_len r <= size.
Proof.
  intros Hx. pose proof (rd_laid_out _ _ _ Hready) as Hl.
  destruct (find_region_correct (pt_regions st) x (ld_wf _ _ _ Hl)) as (i & r & Hi & Hf & Hr).
  { unfold region_size. by rewrite (ld_regions _ _ _ Hl). }
  rewrite (ld_regions _ _ _ Hl) in Hi. apply list_elem_of_lookup_2 in Hi. exists r. split; [done|]. split; [done|].
  destruct (region_bounds _ _ _ (ld_ok _ _ _ Hl) Hi) as (? & ? & ?). lia.
Qed.

(** The bytes of a region. *)
Lemma virtual_disk_region os r x : r ∈ disk_regions gpt files -> r_start r <= x <= r_end r ->
  virtual_disk st os x = region_byte st os r x.
Proof.
  intros Hin Hx. pose proof (rd_laid_out _ _ _ Hready) as Hl. destruct (region_bounds _ _ _ (ld_ok _ _ _ Hl) Hin) as (H1 & H2 & H3).
  destruct (serve_region x ltac:(lia)) as (r' & Hf & Hin' & Hx' & Hx'' & _). unfold virtual_disk. rewrite Hf.
  assert (r' = r) as ->; [|done]. apply list_elem_of_lookup in Hin as [i Hi], Hin' as [j Hj].
  destruct (ld_wf _ _ _ Hl) as (_ & _ & Hc & _). rewrite (ld_regions _ _ _ Hl) in Hc.
  destruct (contiguous_unique _ _ _ _ x _ _ Hc Hj Hi) as [_ E]; [lia..|done].
Qed.

Lemma virtual_disk_slice os r offset len : r ∈ disk_regions gpt files ->
  r_start r <= offset -> 0 <= len -> offset + len - 1 <= r_end r ->
  slice (virtual_disk st os) offset len =
  match r_type r with
  | region_file i =>
      match v_items (pt_files st) !! Z.to_nat i with
      | Some f => slice (of_data (os (fi_fd f))) (offset - r_start r) len
      | None => memset 0 len
      end
  | region_data b => match buffer_data st b with Some data => sub data (offset - r_start r) len | None => memset 0 len end
  | region_zero => memset 0 len
  end.
Proof.
  intros Hin Ho Hlen He. rewrite (slice_ext _ (region_byte st os r)) by (intros; apply virtual_disk_region; [done|lia]).
  unfold region_byte. pose proof (ready_region _ _ _ _ Hready Hin) as Hr.
  pose proof (ld_files _ _ _ (rd_laid_out _ _ _ Hready)) as Hfiles.
  destruct (region_bounds _ _ _ (ld_ok _ _ _ (rd_laid_out _ _ _ Hready)) Hin) as (Hs & _ & Hend).
  destruct (r_type r) as [i|b|].
  - destruct Hr as (f & Hf & _). rewrite Hfiles, Hf.
    rewrite <- (Z.add_opp_r offset), <- slice_windowed. apply slice_ext. intros x _. unfold windowed. by rewrite Z.add_opp_r.
  - destruct Hr as (data & Hdata & Hdl). rewrite Hdata.
    assert (Hl : length (sub data (offset - r_start r) len) = Z.to_nat len) by (apply length_sub; lia).
    replace len with (Z.of_nat (length (sub data (offset - r_start r) len))) at 1 by lia. apply slice_of_list.
    intros i Hi. rewrite nth_sub by lia. f_equal. lia.
  - by apply slice_const.
Qed.

(** [partitioning_pread] reads the virtual disk. *)
Lemma pread_loop_correct fuel : forall count offset got os, files_there os files ->
  0 <= offset -> 0 <= count <= UINT32_MAX -> count <= Z.of_nat fuel -> offset + count <= size ->
  exists res buf os', pread_loop fuel st os count offset got = Ok (res, buf, os') /\ same_files os os' /\ files_there os' files /\
    match res with
    | IoDone => buf = got ++ slice (virtual_disk st os) offset count
    | IoFailed e => exists n, e = Some n /\ errno_ok n /\ n <> 0
    end.
Proof.
  induction fuel as [|fuel IH]; intros count offset got os Hos Ho Hc Hfuel Hle; cbn [pread_loop].
  { rewrite (proj2 (Z.ltb_ge 0 count)) by lia. do 3 eexists. split; [reflexivity|]. split; [done|]. split; [done|].
    replace count with 0 by lia. by rewrite slice_nil, app_nil_r. }
  destruct (Z.ltb_spec 0 count) as [Hpos|]; [|do 3 eexists; (split; [reflexivity|]); replace count with 0 by lia; by rewrite slice_nil, app_nil_r].
  destruct virtual_disk_size as [Hsize _]. destruct (serve_region offset ltac:(lia)) as (r & Hf & Hin & Hs & He & Hend & Hrs). rewrite Hf.
  assert (Hlen : piece r count offset = Z.min count (r_end r - offset + 1)).
  { unfold piece. rewrite u64_small by (limits; lia). destruct (Z.ltb_spec count (r_end r - offset + 1)); lia. }
  set (len := piece r count offset) in *.
  assert (Hgo : forall os' data n, same_files os os' -> files_there os' files -> 0 < n <= len -> Z.of_nat (length data) = n ->
    data = slice (virtual_disk st os) offset n ->
    exists res buf os'', pread_loop fuel st os' (u32 (count - n)) (u64 (offset + n)) (got ++ data) = Ok (res, buf, os'') /\
      same_files os os'' /\ files_there os'' files /\
      match res with
      | IoDone => buf = got ++ slice (virtual_disk st os) offset count
      | IoFailed e => exists n, e = Some n /\ errno_ok n /\ n <> 0
      end).
  { intros os' data n Hsame Hos' Hn Hdl Hdata. rewrite u32_small, u64_small by (limits; lia).
    destruct (IH (count - n) (offset + n) (got ++ data) os' Hos' ltac:(lia) ltac:(lia) ltac:(lia) ltac:(lia))
      as (res & buf & os'' & E & Hsame' & Hos'' & Hres). exists res, buf, os''. split; [done|].
    split; [by eapply same_files_trans|]. split; [done|]. destruct res; [|done]. rewrite Hres, <- app_assoc. f_equal.
    rewrite (slice_ext (virtual_disk st os') (virtual_disk st os)) by (intros; by apply virtual_disk_same).
    rewrite Hdata, <- slice_app by lia. f_equal. lia. }
  pose proof (virtual_disk_slice os r offset) as Hslice. pose proof (ready_region _ _ _ _ Hready Hin) as Hr.
  pose proof (ld_files _ _ _ (rd_laid_out _ _ _ Hready)) as Hfiles.
  destruct (r_type r) as [i|b|].
  - destruct Hr as (f & Hfi & Hfl). rewrite Hfiles, Hfi in *.
    pose proof Hos as Hos'. unfold files_there in Hos'. rewrite Forall_lookup in Hos'. destruct (Hos' _ _ Hfi) as [Hfs Hio]. clear Hos'.
    destruct (of_pread (os (fi_fd f)) len (offset - r_start r)) as [res file] eqn:E.
    apply of_pread_spec in E; [|done|lia..]. destruct E as (Hd & Hsz & Hio' & Hres).
    pose proof (same_files_insert os (fi_fd f) file Hd Hsz) as Hsame.
    pose proof (files_there_insert os files (fi_fd f) file Hsz Hio' Hos) as Hthere.
    destruct res as [errno|data].
    + do 3 eexists. split; [reflexivity|]. split; [done|]. split; [done|]. by exists errno.
    + destruct Hres as (n & Hn & Hdata). assert (Hl : Z.of_nat (length data) = n) by (rewrite Hdata, length_slice; lia).
      destruct data as [|b data]; [simpl in Hl; lia|]. cbv zeta. rewrite Hl. apply Hgo; [done|done|done|done|].
      rewrite Hdata. symmetry. apply Hslice; (done || lia).
  - destruct Hr as (data & Hdata & Hdl). rewrite Hdata in *. cbv zeta.
    assert (Hl : Z.of_nat (length (sub data (offset - r_start r) len)) = len) by (rewrite length_sub; lia).
    rewrite Hl. apply Hgo; [done|done|lia|done|]. symmetry. apply Hslice; (done || lia).
  - cbv zeta. assert (Hl : Z.of_nat (length (memset 0 len)) = len) by (rewrite length_memset; lia).
    rewrite Hl. apply Hgo; [done|done|lia|done|]. symmetry. apply Hslice; (done || lia).
Qed.

(** ** Writing *)

Context (Hfds : NoDup (fi_fd <$> files)).

(** Writing to the file of a region writes to the disk. *)
Lemma write_region os r i f data offset file x : r ∈ disk_regions gpt files -> r_type r = region_file i ->
  files !! Z.to_nat i = Some f -> (forall y, of_data file y = overwrite (of_data (os (fi_fd f))) data (offset - r_start r) y) ->
  r_start r <= offset -> offset + Z.of_nat (length data) - 1 <= r_end r -> 0 <= x < size ->
  virtual_disk st (<[fi_fd f := file]> os) x = overwrite (virtual_disk st os) data offset x.
Proof.
  intros Hin Ht Hf Hdata Ho He Hx. destruct (serve_region x Hx) as (r' & Hfind & Hin' & Hs' & He' & _).
  pose proof (ld_files _ _ _ (rd_laid_out _ _ _ Hready)) as Hfiles.
  destruct (region_bounds _ _ _ (ld_ok _ _ _ (rd_laid_out _ _ _ Hready)) Hin) as (Hs & Hb & Hend).
  destruct (decide (r_start r <= x <= r_end r)) as [Hxr|Hxr].
  - unfold overwrite. rewrite !(virtual_disk_region _ r) by done. unfold region_byte. rewrite Ht, Hfiles, Hf, fn_lookup_insert, Hdata.
    unfold overwrite. replace (x - r_start r - (offset - r_start r)) with (x - offset) by lia.
    destruct (decide _), (decide _); (done || lia).
  - rewrite overwrite_out by lia. unfold virtual_disk. rewrite Hfind. unfold region_byte. rewrite Hfiles.
    destruct (r_type r') as [i'|b|] eqn:Ht'; [|done..]. destruct (files !! Z.to_nat i') as [f'|] eqn:Hf'; [|done].
    destruct (decide (fi_fd f = fi_fd f')) as [E|E]; [|by rewrite fn_lookup_insert_ne]. exfalso.
    assert (Ei : Z.to_nat i = Z.to_nat i').
    { eapply (NoDup_lookup (fi_fd <$> files)); [done|rewrite list_lookup_fmap, Hf; reflexivity|by rewrite list_lookup_fmap, Hf', E]. }
    pose proof (rd_laid_out _ _ _ Hready) as Hl. pose proof (ld_ok _ _ _ Hl) as Hlay. pose proof (layout_max _ _ Hlay) as Hmax.
    destruct (disk_region_shape _ _ _ Hin) as [E1|k1 f1 _ E1|? ? _ _ _ E1|E1|_ E1]; rewrite Ht in E1; simplify_eq.
    destruct (disk_region_shape _ _ _ Hin') as [E2|k2 f2 _ E2|? ? _ _ _ E2|E2|_ E2]; rewrite Ht' in E2; simplify_eq.
    rewrite !Nat2Z.id in Ei. subst k2.
    assert (r' = r) as ->; [|lia]. eapply rank_unique; [by apply disk_ranked|done|done|unfold rank; by rewrite Ht'|unfold rank; by rewrite Ht].
Qed.

Lemma of_pwrite_spec file buf count offset res file' : Forall io_event_ok (of_io file) -> 0 < count ->
  offset + count <= of_size file -> of_pwrite file buf count offset = (res, file') ->
  of_size file' = of_size file /\ Forall io_event_ok (of_io file') /\
  match res with
  | inl errno => errno_ok errno /\ errno <> 0 /\ of_data file' = of_data file
  | inr n => 0 < n <= count /\ of_data file' = overwrite (of_data file) (take (Z.to_nat n) buf) offset
  end.
Proof.
  intros Hio Hc Hle. unfold of_pwrite. destruct (pop_io file) as [e file1] eqn:E.
  destruct (pop_io_spec _ _ _ Hio E) as (He & Hd & Hs & Hio1). destruct e as [|n|errno]; intros [= <- <-]; simpl; rewrite ?Hd, ?Hs.
  - split; [lia|]. split; [done|]. split; [lia|done].
  - split; [lia|]. split; [done|]. split; [lia|done].
  - destruct He. auto.
Qed.

(** [partitioning_pwrite] writes the virtual disk.  If it fails, the first
    [m] bytes have been written. *)
Lemma pwrite_loop_correct fuel : forall count offset buf os, files_there os files ->
  0 <= offset -> 0 <= count <= UINT32_MAX -> count <= Z.of_nat fuel -> offset + count <= size -> Z.of_nat (length buf) = count ->
  exists res os' m, pwrite_loop fuel st os buf count offset = Ok (res, os') /\ files_there os' files /\ (m <= length buf)%nat /\
    (forall x, 0 <= x < size -> virtual_disk st os' x = overwrite (virtual_disk st os) (take m buf) offset x) /\
    match res with
    | IoDone => m = length buf
    | IoFailed e => exists n, e = Some n /\ errno_ok n /\ n <> 0
    end.
Proof.
  induction fuel as [|fuel IH]; intros count offset buf os Hos Ho Hc Hfuel Hle Hbuf; cbn [pwrite_loop].
  { rewrite (proj2 (Z.ltb_ge 0 count)) by lia. exists IoDone, os, (length buf). split_and!; try done.
    intros x _. destruct buf; [by rewrite take_nil, overwrite_nil|simpl in *; lia]. }
  destruct (Z.ltb_spec 0 count) as [Hpos|].
  2: { exists IoDone, os, (length buf). split_and!; try done.
       intros x _. destruct buf; [by rewrite take_nil, overwrite_nil|simpl in *; lia]. }
  destruct virtual_disk_size as [Hsize _]. destruct (serve_region offset ltac:(lia)) as (r & Hf & Hin & Hs & He & Hend & Hrs). rewrite Hf.
  assert (Hlen : piece r count offset = Z.min count (r_end r - offset + 1)).
  { unfold piece. rewrite u64_small by (limits; lia). destruct (Z.ltb_spec count (r_end r - offset + 1)); lia. }
  set (len := piece r count offset) in *.
  assert (Hgo : forall os' n, files_there os' files -> 0 < n <= len ->
    (forall x, 0 <= x < size -> virtual_disk st os' x = overwrite (virtual_disk st os) (take (Z.to_nat n) buf) offset x) ->
    exists res os'' m, pwrite_loop fuel st os' (drop (Z.to_nat n) buf) (u32 (count - n)) (u64 (offset + n)) = Ok (res, os'') /\
      files_there os'' files /\ (m <= length buf)%nat /\
      (forall x, 0 <= x < size -> virtual_disk st os'' x = overwrite (virtual_disk st os) (take m buf) offset x) /\
      match res with
      | IoDone => m = length buf
      | IoFailed e => exists n, e = Some n /\ errno_ok n /\ n <> 0
      end).
  { intros os' n Hos' Hn Hd. rewrite u32_small, u64_small by (limits; lia).
    destruct (IH (count - n) (offset + n) (drop (Z.to_nat n) buf) os' Hos' ltac:(lia) ltac:(lia) ltac:(lia) ltac:(lia))
      as (res & os'' & m & E & Hos'' & Hm & Hd' & Hres); [rewrite length_drop; lia|]. rewrite length_drop in Hm.
    exists res, os'', (Z.to_nat n + m)%nat. split; [done|]. split; [done|]. split; [lia|]. split.
    - intros x Hx. rewrite Hd', <- take_take_drop, overwrite_app by done. rewrite length_take.
      replace (offset + Z.of_nat (Z.to_nat n `min` length buf)) with (offset + n) by lia. apply overwrite_ext. by apply Hd.
    - destruct res; [rewrite length_drop in Hres; lia|done]. }
  assert (Hfail : forall e os', files_there os' files -> errno_ok e -> e <> 0 -> 
    (forall x, virtual_disk st os' x = virtual_disk st os x) ->
    exists res os'' m, Ok (IoFailed (Some e), os') = Ok (res, os'') /\ files_there os'' files /\ (m <= length buf)%nat /\
      (forall x, 0 <= x < size -> virtual_disk st os'' x = overwrite (virtual_disk st os) (take m buf) offset x) /\
      match res with
      | IoDone => m = length buf
      | IoFailed e => exists n, e = Some n /\ errno_ok n /\ n <> 0
      end).
  { intros e os' Hos' He1 He2 Hd. exists (IoFailed (Some e)), os', 0%nat. split_and!; try done; [lia| |by exists e].
    intros x _. by rewrite take_0, overwrite_nil. }
  pose proof (virtual_disk_slice os r offset len Hin ltac:(lia) ltac:(lia) ltac:(lia)) as Hslice.
  pose proof (ready_region _ _ _ _ Hready Hin) as Hr.
  pose proof (ld_files _ _ _ (rd_laid_out _ _ _ Hready)) as Hfiles.
  assert (Hsame : take (Z.to_nat len) buf = slice (virtual_disk st os) offset len -> forall x, 0 <= x < size ->
    virtual_disk st os x = overwrite (virtual_disk st os) (take (Z.to_nat len) buf) offset x).
  { intros E x _. rewrite E. unfold overwrite. rewrite length_slice. case_decide; [|done]. rewrite nth_slice by lia. f_equal. lia. }
  assert (Heio : errno_ok EIO) by by split.
  destruct (r_type r) as [i|b|] eqn:Ht.
  - destruct Hr as (f & Hfi & Hfl). rewrite Hfiles, Hfi in *.
    pose proof Hos as Hos'. unfold files_there in Hos'. rewrite Forall_lookup in Hos'. destruct (Hos' _ _ Hfi) as [Hfs Hio]. clear Hos'.
    destruct (of_pwrite (os (fi_fd f)) buf len (offset - r_start r)) as [res file] eqn:E.
    apply of_pwrite_spec in E; [|done|lia..]. destruct E as (Hsz & Hio' & Hres).
    pose proof (files_there_insert os files (fi_fd f) file Hsz Hio' Hos) as Hthere. destruct res as [errno|n].
    + destruct Hres as (He1 & He2 & Hd). apply Hfail; [done..|]. intros x. apply virtual_disk_same. by apply same_files_insert.
    + destruct Hres as [Hn Hd]. apply Hgo; [done|done|]. intros x Hx. eapply write_region; try done; [by rewrite Hd|lia|].
      rewrite length_take. lia.
  - destruct Hr as (data & Hdata & Hdl). rewrite Hdata in *.
    destruct (memeq _ _ _) eqn:Em; [|by apply Hfail]. apply Hgo; [done|lia|]. apply Hsame. rewrite Hslice. unfold sub.
    unfold memeq in Em. by apply bool_decide_eq_true in Em.
  - destruct (is_zero _ _) eqn:Em; [|by apply Hfail]. apply Hgo; [done|lia|]. apply Hsame. rewrite Hslice.
    assert (Hl : Z.of_nat (length (take (Z.to_nat len) buf)) = len) by (rewrite length_take; lia).
    rewrite <- Hl in Em at 2. rewrite is_zero_all_zero, all_zero_spec in Em.
    symmetry. apply replicate_as_Forall. split; [lia|]. eapply Forall_impl; [exact Em|]. by intros x ->.
Qed.
End Serve.

(** ** The callbacks *)

Section Callbacks.
Context {W : Type} (get : W -> partitioning_world) (set : partitioning_world -> W -> W).
Context (get_set : forall pw w, get (set pw w) = pw).
Context (gpt : bool) (files : list file) (pst : partitioning) (Hready : ready gpt files pst).
Implicit Types (w : W) (t : thread).

Notation size := (disk_size gpt files).

(** The plugin is serving the files. *)
Definition serving w : Prop := pw_state (get w) = pst /\ files_there (pw_os (get w)) files.

Definition disk_of w : Z -> Z := virtual_disk pst (pw_os (get w)).

(** A failed callback has set [errno]. *)
Definition errno_set t : Prop := errno_ok (t_errno t) /\ t_errno t <> 0.

Lemma pread_serves h count offset t w : serving w -> 0 <= offset -> 0 <= count <= UINT32_MAX -> offset + count <= size ->
  exists (v : Z) (buf : list Z) t' w', partitioning_pread get set h count offset t w = Ok ((v, buf), t', w') /\ serving w' /\
    (forall x, disk_of w' x = disk_of w x) /\ t_err t' = t_err t /\
    (v = 0 /\ buf = slice (disk_of w) offset count /\ t_errno t' = t_errno t \/ v = -1 /\ errno_set t').
Proof.
  intros [Hst Hos] Ho Hc Hle. unfold partitioning_pread. cbv zeta. rewrite Hst.
  destruct (pread_loop_correct gpt files pst Hready (Z.to_nat count) count offset [] (pw_os (get w)) Hos Ho Hc ltac:(lia) Hle)
    as (res & buf & os' & -> & Hsame & Hos' & Hres). do 4 eexists. split; [reflexivity|].
  unfold serving, disk_of. rewrite get_set. split; [done|]. split; [intros x; by apply virtual_disk_same|].
  destruct res as [|e]; simpl; [split; [done|by left]|]. destruct Hres as (n & -> & Hn1 & Hn2). split; [done|]. by right.
Qed.

Lemma pwrite_serves h buf offset t w : NoDup (fi_fd <$> files) -> serving w -> 0 <= offset ->
  let count := Z.of_nat (length buf) in count <= UINT32_MAX -> offset + count <= size ->
  exists (v : Z) t' w' m, partitioning_pwrite get set h buf count offset t w = Ok (v, t', w') /\ serving w' /\ (m <= length buf)%nat /\
    (forall x, 0 <= x < size -> disk_of w' x = overwrite (disk_of w) (take m buf) offset x) /\
    (v = 0 /\ m = length buf \/ v = -1 /\ errno_set t').
Proof.
  intros Hfds [Hst Hos] Ho count Hc Hle. unfold partitioning_pwrite. cbv zeta. rewrite Hst.
  destruct (pwrite_loop_correct gpt files pst Hready Hfds (Z.to_nat count) count offset buf (pw_os (get w)) Hos Ho ltac:(lia) ltac:(lia) Hle eq_refl)
    as (res & os' & m & -> & Hos' & Hm & Hd & Hres). exists (io_value res), (io_errno res t). do 2 eexists. split; [reflexivity|].
  unfold serving, disk_of. rewrite get_set. split; [done|]. split; [exact Hm|]. split; [exact Hd|].
  destruct res as [|e]; [by left|]. destruct Hres as (n & -> & Hn1 & Hn2). by right.
Qed.

(** Tables and padding never change. *)
Lemma tables_constant w w' r x : r ∈ disk_regions gpt files -> (forall i, r_type r <> region_file i) -> r_start r <= x <= r_end r ->
  disk_of w' x = disk_of w x.
Proof.
  intros Hin Ht Hx. unfold disk_of. rewrite !(virtual_disk_region gpt files pst Hready _ r) by done. unfold region_byte.
  destruct (r_type r) as [i| |]; [by destruct (Ht i)|done..].
Qed.

(** The contents of a file are the contents of its partition, padded with
    zeroes. *)
Lemma partition_contents w k f : files !! k = Some f -> exists reg, file_region (disk_regions gpt files) (Z.of_nat k) f reg /\
  (forall i, 0 <= i < fi_size f -> disk_of w (r_start reg + i) = of_data (pw_os (get w) (fi_fd f)) i) /\
  (forall i, fi_size f <= i < partition_end reg - r_start reg -> disk_of w (r_start reg + i) = 0).
Proof.
  intros Hk. pose proof (rd_laid_out _ _ _ Hready) as Hl. pose proof (ld_ok _ _ _ Hl) as Hlay.
  destruct (disk_lookup gpt files k f (layout_max _ _ Hlay) (lo_files _ _ Hlay) Hk) as (reg & _ & Hf & _). exists reg. split; [done|].
  destruct (region_bounds _ _ _ Hlay (fr_in _ _ _ _ Hf)) as (? & ? & ?). pose proof (fr_len _ _ _ _ Hf).
  split; intros i Hi; unfold disk_of.
  - rewrite (virtual_disk_region gpt files pst Hready _ reg) by (apply Hf || lia). unfold region_byte.
    rewrite (fr_type _ _ _ _ Hf), (ld_files _ _ _ Hl), Nat2Z.id, Hk. f_equal. lia.
  - destruct (fr_padding _ _ _ _ Hf (r_start reg + i)) as (z & Hz & Hzt & Hzx); [lia|].
    rewrite (virtual_disk_region gpt files pst Hready _ z) by done. unfold region_byte. by rewrite Hzt.
Qed.

(** C10: the disk that the partitioning plugin serves consists of the files in
    their partitions, followed by zeroes up to the next sector, and of the
    partition tables.  A read inside the disk returns exactly its bytes or
    fails with an error number, and changes nothing.  A write that succeeds
    has written exactly the requested bytes; one that fails, with an error
    number, has written a prefix of them.  In neither case does a byte of a
    partition table or of the padding change: a write that would change one
    fails.  The loops end although system calls may be short. *)
Theorem partitioning_serves_files w h t : serving w ->
  (forall k f, files !! k = Some f -> exists reg, file_region (disk_regions gpt files) (Z.of_nat k) f reg /\
     (forall i, 0 <= i < fi_size f -> disk_of w (r_start reg + i) = of_data (pw_os (get w) (fi_fd f)) i) /\
     (forall i, fi_size f <= i < partition_end reg - r_start reg -> disk_of w (r_start reg + i) = 0)) /\
  (forall count offset, 0 <= offset -> 0 <= count <= UINT32_MAX -> offset + count <= size ->
     exists v buf t' w', partitioning_pread get set h count offset t w = Ok ((v, buf), t', w') /\ serving w' /\
       (forall x, disk_of w' x = disk_of w x) /\
       (v = 0 /\ buf = slice (disk_of w) offset count \/ v = -1 /\ errno_set t')) /\
  (forall buf offset, NoDup (fi_fd <$> files) -> 0 <= offset -> let count := Z.of_nat (length buf) in
     count <= UINT32_MAX -> offset + count <= size ->
     exists v t' w' m, partitioning_pwrite get set h buf count offset t w = Ok (v, t', w') /\ serving w' /\ (m <= length buf)%nat /\
       (forall x, 0 <= x < size -> disk_of w' x = overwrite (disk_of w) (take m buf) offset x) /\
       (v = 0 /\ m = length buf \/ v = -1 /\ errno_set t') /\
       (forall reg x, reg ∈ disk_regions gpt files -> (forall i, r_type reg <> region_file i) -> r_start reg <= x <= r_end reg ->
          disk_of w' x = disk_of w x /\
          (in_request count offset x -> disk_of w x <> nth (Z.to_nat (x - offset)) buf 0 -> v = -1))).
Proof.
  intros Hw. split; [by apply partition_contents|]. split.
  - intros count offset Ho Hc Hle. destruct (pread_serves h count offset t w Hw Ho Hc Hle) as (v & buf & t' & w' & E & Hs & Hd & _ & Hv).
    exists v, buf, t', w'. split; [done|]. split; [done|]. split; [done|]. tauto.
  - intros buf offset Hfds Ho count Hc Hle.
    destruct (pwrite_serves h buf offset t w Hfds Hw Ho Hc Hle) as (v & t' & w' & m & E & Hs & Hm & Hd & Hv).
    exists v, t', w', m. do 5 (split; [done|]). intros reg x Hin Ht Hx.
    pose proof (tables_constant w w' reg x Hin Ht Hx) as Hsame. split; [done|]. intros Hreq Hne.
    destruct Hv as [[-> ->]|[? _]]; [|done]. destruct Hne.
    destruct (region_bounds _ _ _ (ld_ok _ _ _ (rd_laid_out _ _ _ Hready)) Hin) as (? & ? & ?).
    rewrite <- Hsame, Hd, firstn_all by lia. by apply overwrite_in.
Qed.

(** *** The plugin as a layer that can be read *)

Context (c : context).

Record partitioning_inv (s : st W) : Prop := PartitioningInv {
  pi_ctx : s_ctx s = [c];
  pi_serving : serving (s_world s);
  pi_err : t_err (s_thread s) = 0;
  pi_errno : errno_ok (t_errno (s_thread s));
}.

Definition partitioning_limits : layer_limits := LayerLimits size 1 UINT32_MAX NBDKIT_FUA_EMULATE false.

Definition served_disk (s : st W) : Z -> Z := disk_of (s_world s).
Definition served_settled (s : st W) (x : Z) : Prop := True.

Lemma served_same s t' w' : partitioning_inv s -> serving w' -> (forall x, disk_of w' x = disk_of (s_world s) x) ->
  t_err t' = 0 -> errno_ok (t_errno t') ->
  same_disk partitioning_inv served_disk served_settled s (St t' w' (s_conn s) (s_ctx s)).
Proof. intros [Hc Hs He Hn] Hs' Hd He' Hn'. split; [by split|]. intros x _. split; [apply Hd|done]. Qed.

#[export] Instance partitioning_read_plugin :
  ReadPlugin (partitioning_plugin get set) partitioning_inv served_disk served_settled partitioning_limits.
Proof.
  split; simpl.
  - intros h count offset s Hi (Ho & Hc & Hle & _) _. eexists. split; [reflexivity|]. pose proof Hi as [_ Hs He Hn].
    destruct (pread_serves h count offset (s_thread s) (s_world s) Hs Ho ltac:(lia) Hle) as (v & buf & t' & w' & E & Hs' & Hd & He' & Hv).
    unfold wp, call. rewrite E. split.
    { apply served_same; try done; [congruence|]. by destruct Hv as [(_ & _ & ->)|[_ [? _]]]. }
    destruct Hv as [(-> & -> & _)|[-> [H1 H2]]]; (split; [|done || by intros ?]); [done|].
    intros _. exists (t_errno t'). split; [|done]. destruct t' as [te tn tl]. simpl in *. subst te.
    unfold get_errno, mbind, M_bind, threadlocal_get_errno, get_errno_c, gets. simpl. rewrite He. simpl.
    by rewrite (proj2 (Z.eqb_neq tn 0)).
  - done.
  - intros h s g Hi [= <-]. unfold wp, call, partitioning_can_cache. split; [by vm_compute|].
    pose proof Hi as [_ Hs He Hn]. by apply served_same.
  - intros h s Hi. pose proof Hi as [_ Hs He Hn]. unfold wp, call, partitioning_get_size.
    split; [|by apply served_same]. left. destruct Hs as [-> _].
    by apply (virtual_disk_size gpt files pst Hready).
Qed.

(** The plugin, behind [server/plugins.c] and [server/backend.c]. *)
Lemma partitioning_layer : readable partitioning_limits c ->
  ReadLayer partitioning_inv served_disk served_settled (backend_ops (plugin_functions (partitioning_plugin get set)) [])
    partitioning_limits.
Proof.
  intros Hc. assert (Hctx : forall s, partitioning_inv s -> exists c cs, s_ctx s = c :: cs /\ readable partitioning_limits c).
  { intros s [Hs _ _ _]. by exists c, []. }
  apply backend_read_layer; [|done]. apply plugin_read_layer; [done|apply _].
Qed.
End Callbacks.

(** The files of [sample_partitioning], of zeroes. *)
Lemma partitioning_serves_files_witness : exists pst, ready true sample_files pst /\
  let w := PartitioningWorld pst (fun _ => OsFile (fun _ => 0) 4096 []) in
  exists v buf t' w', partitioning_pread id (fun pw _ => pw) 1 1024 0 (Thread 0 0 None) w = Ok ((v, buf), t', w') /\
    (v = 0 /\ buf = slice (disk_of id pst w) 0 1024 \/ v = -1 /\ errno_set t').
Proof.
  pose proof (runs_get_ready true sample_partitioning sample_configured []) as Hr. apply hwp_ok in Hr.
  destruct Hr as ([[[]|] pst] & mem & _ & Hr); [|done]. destruct Hr as [Hr _]. exists pst. split; [done|]. intros w.
  assert (Hw : serving id sample_files pst w) by (split; [done|]; repeat constructor; simpl; lia).
  destruct (partitioning_serves_files id (fun pw _ => pw) (fun _ _ => eq_refl) true sample_files pst Hr w 1 (Thread 0 0 None) Hw)
    as (_ & Hread & _).
  destruct (Hread 1024 0 ltac:(lia) ltac:(limits; lia) ltac:(by vm_compute)) as (v & buf & t' & w' & E & _ & _ & Hv).
  by exists v, buf, t', w'.
Defined.
