(* ===== verification/Partition.v ===== *)
(** * The partition filter

    Models [filters/partition]: [partition.c], and the searches of an MBR
    ([partition-mbr.c]) and of a GPT ([partition-gpt.c]) for the partition
    with the configured number.  The partition tables are read from the disk
    below, which may contain anything.  The settings are globals that
    [partition_prepare] may still change, so they are part of the world; the
    operations on the window are those of the offset filter. *)

From S2P Require Import Prelude NbdProtocol Extents Exports Server Connections Backend Plugin Filter Bytes Parse Layer ExtentsQuery Offset Truncate System Gpt.

Definition SECTOR_SIZE_4K : Z := 4096.
Definition SECTOR_SIZE_512 : Z := 512.
Definition SECTOR_SIZE_DEFAULT : Z := SECTOR_SIZE_512.

(** The globals [partnum] and [sector_size]. *)
Record partition_settings : Type := PartitionSettings {
  partnum : Z;
  sector_size : Z;
}.

Definition partition_defaults : partition_settings := PartitionSettings 0 0.

Implicit Types (g : partition_settings).

Inductive partition_key : Type := partition_partition | partition_sectorsize | partition_other.

(** 0 or -1 and the settings; any other key is passed on ([None]). *)
Definition partition_config g (key : partition_key) (value : list Z) : option (Z * partition_settings) :=
  match key with
  | partition_partition =>
      Some match nbdkit_parse_unsigned value with
           | Value n => (if n =? 0 then -1 else 0, PartitionSettings n (sector_size g))
           | ParseError _ => (-1, g)
           end
  | partition_sectorsize =>
      let n := u32 (nbdkit_parse_size value) in
      Some (if negb (n =? SECTOR_SIZE_512) && negb (n =? SECTOR_SIZE_4K) then -1 else 0, PartitionSettings (partnum g) n)
  | partition_other => None
  end.

(** -1, or what [next] answers. *)
Definition partition_config_complete g (next : Z) : Z := if partnum g =? 0 then -1 else next.

Inductive table_type : Type := table_gpt | table_mbr.

(** [struct handle] *)
Record partition_handle : Type := PartitionHandle {
  ph_offset : Z;
  ph_range : Z;
  ph_type : option table_type;
}.

Implicit Types (h : partition_handle).

(** ** Entries *)

Definition is_extended (byte : Z) : bool := (byte =? 0x5) || (byte =? 0xf) || (byte =? 0x85).

Record mbr_partition : Type := MbrPartition {
  part_type_byte : Z;
  start_sector : Z;
  nr_sectors : Z;
}.

Definition get_mbr_partition (sector : list Z) (i : Z) : mbr_partition :=
  let offset := 0x1be + i * 0x10 in
  MbrPartition (nth (Z.to_nat (offset + 4)) sector 0) (le_val (sub sector (offset + 8) 4)) (le_val (sub sector (offset + 0xc) 4)).

(** [nr_partition_entries] and [size_partition_entry]; [None] is -1. *)
Definition get_gpt_header (sector : list Z) : option (Z * Z) :=
  if negb (le_val (sub sector 72 8) =? 2) then None
  else Some (le_val (sub sector 80 4), le_val (sub sector 84 4)).

(** The type, [first_lba] and [last_lba]. *)
Definition get_gpt_partition (bytes : list Z) : list Z * Z * Z :=
  (sub bytes 0 16, le_val (sub bytes 32 8), le_val (sub bytes 40 8)).

Section Partition.
Context {W : Type} (get : W -> partition_settings) (set : partition_settings -> W -> W).
Implicit Types (nx : nbdkit_next W).

(** ** [partition-mbr.c] *)

(** The search for a primary partition, from the [i]-th entry on: an error
    ([Some None]), its place, or nothing. *)
Fixpoint find_primary (n : nat) g (mbr : list Z) (i : Z) : option (option (Z * Z)) :=
  match n with
  | O => None
  | S n =>
      let p := get_mbr_partition mbr i in
      if (0 <? nr_sectors p) && negb (part_type_byte p =? 0) && negb (is_extended (part_type_byte p)) && (partnum g =? i + 1)
      then
        if part_type_byte p =? 0xee then Some None
        else Some (Some (start_sector p * sector_size g, nr_sectors p * sector_size g))
      else find_primary n g mbr (i + 1)
  end.

(** The extended partition. *)
Fixpoint find_extended (n : nat) (mbr : list Z) (i : Z) : option mbr_partition :=
  match n with
  | O => None
  | S n =>
      let p := get_mbr_partition mbr i in
      if (0 <? nr_sectors p) && is_extended (part_type_byte p) then Some p else find_extended n mbr (i + 1)
  end.

(** The loop over the EBRs, from the [i]-th partition on; it returns when
    [i] is [partnum], or before. *)
Fixpoint ebr_loop (fuel : nat) nx g (size ep_start_sector ep_nr_sectors i ebr : Z) : M W (option (Z * Z)) :=
  match fuel with
  | O => fail OutOfFuel
  | S fuel =>
      cassert (is_power_of_2 (sector_size g));;
      if negb (Z.land ebr (sector_size g - 1) =? 0) || (ebr <? sector_size g) || (u64 (size - sector_size g) <=? ebr)
      then mret None
      else
        errno ← get_errno_c;
        '(r, errno, sector) ← n_pread nx (sector_size g) ebr 0 errno;
        set_errno errno;;
        if r =? -1 then mret None
        else if partnum g =? i then
          let p := get_mbr_partition sector 0 in
          let offset := u64 (ebr + start_sector p * sector_size g) in
          let range := nr_sectors p * sector_size g in
          if (offset <=? ebr) || (u64 ((ep_start_sector + ep_nr_sectors) * sector_size g) <? u64 (offset + range)) then mret None
          else mret (Some (i64 offset, i64 range))
        else
          let p := get_mbr_partition sector 1 in
          if (start_sector p =? 0) && (nr_sectors p =? 0) then mret None
          else
            let next_ebr := u64 ((ep_start_sector + start_sector p) * sector_size g) in
            if next_ebr <=? ebr then mret None
            else if i =? INT32_MAX then fail Undefined
            else ebr_loop fuel nx g size ep_start_sector ep_nr_sectors (i + 1) next_ebr
  end.

(** [*offset_r] and [*range_r]; [None] is -1. *)
Definition find_mbr_partition nx g (size : Z) (mbr : list Z) : M W (option (Z * Z)) :=
  if partnum g <=? 4 then
    mret match find_primary 4 g mbr 0 with Some o => o | None => None end
  else
    match find_extended 4 mbr 0 with
    | None => mret None
    | Some p =>
        ebr_loop (Z.to_nat (partnum g - 4)) nx g size (start_sector p) (nr_sectors p) 5 (u64 (start_sector p * sector_size g))
    end.

(** ** [partition-gpt.c] *)

(** The loop over the entries; [sector] holds what was read last. *)
Fixpoint gpt_loop (fuel : nat) nx g (nr_partition_entries size_partition_entry i : Z) (sector : list Z)
    : M W (option (Z * Z)) :=
  if i <? nr_partition_entries then
    match fuel with
    | O => fail OutOfFuel
    | S fuel =>
        let entries_per_sector := sector_size g / size_partition_entry in
        '(r, sector) ← (if i mod entries_per_sector =? 0 then
          '(r, _, sector) ← n_pread nx (sector_size g) (u32 (sector_size g * (2 + i / entries_per_sector))) 0 0;
          mret (r, sector)
        else mret (0, sector));
        if r =? -1 then mret None
        else
          let '(guid, first_lba, last_lba) :=
            get_gpt_partition (drop (Z.to_nat (i mod entries_per_sector * size_partition_entry)) sector) in
          if i =? INT32_MAX then fail Undefined
          else if negb (bool_decide (guid = memset 0 16)) && (partnum g =? i + 1)
          then mret (Some (i64 (u64 (first_lba * sector_size g)), i64 (u64 (u64 (1 + last_lba - first_lba) * sector_size g))))
          else gpt_loop fuel nx g nr_partition_entries size_partition_entry (i + 1) sector
    end
  else mret None.

Definition find_gpt_partition nx g (size : Z) (header_bytes : list Z) : M W (option (Z * Z)) :=
  match get_gpt_header header_bytes with
  | None => mret None
  | Some (nr_partition_entries, size_partition_entry) =>
      if nr_partition_entries <? partnum g then mret None
      else if (size_partition_entry <? 128) || (sector_size g <? size_partition_entry) ||
              negb (sector_size g mod size_partition_entry =? 0) then mret None
      else if size <? 3 * sector_size g + 2 * nr_partition_entries * size_partition_entry then mret None
      else gpt_loop (Z.to_nat nr_partition_entries) nx g nr_partition_entries size_partition_entry 0 []
  end.

(** ** [partition.c] *)

Definition partition_open (next : bool -> list Z -> M W Z) (readonly : bool) (exportname : list Z)
    : M W (option partition_handle) :=
  r ← next readonly exportname;
  mret (if r =? -1 then None else Some (PartitionHandle (-1) (-1) None)).

Definition get_settings : M W partition_settings := gets (fun s => get (s_world s)).
Definition set_settings g : M W unit := modify (fun s => set_world (set g (s_world s)) s).

(** [sector_size], determined if it has not been set; [false] on error. *)
Definition choose_sector_size nx : M W bool :=
  g ← get_settings;
  if sector_size g =? 0 then
    '(r, (minimum, _, _)) ← n_block_size nx;
    if negb (r =? 0) then mret false
    else
      set_settings (PartitionSettings (partnum g)
        (if (minimum =? SECTOR_SIZE_512) || (minimum =? SECTOR_SIZE_4K) then minimum else SECTOR_SIZE_DEFAULT));;
      mret true
  else mret true.

(** The partition, from the disk's first two sectors, and the handle's
    [type]. *)
Definition find_partition nx g (size : Z) (lba01 : list Z) h : M W (option (Z * Z) * partition_handle) :=
  let ss := sector_size g in
  if (u32 (3 * ss + 2 * 128 * 128) <=? size) && bool_decide (sub lba01 ss 8 = GPT_SIGNATURE) then
    o ← find_gpt_partition nx g size (drop (Z.to_nat ss) lba01);
    mret (o, PartitionHandle (ph_offset h) (ph_range h) (Some table_gpt))
  else if (nth 0x1fe lba01 0 =? 0x55) && (nth 0x1ff lba01 0 =? 0xaa) then
    o ← find_mbr_partition nx g size lba01;
    mret (o, PartitionHandle (ph_offset h) (ph_range h) (Some table_mbr))
  else mret (None, h).

(** The final check; the addition is of signed numbers. *)
Definition check_partition (size offset range : Z) : M W Z :=
  if (offset <? 0) || (range <? 0) then mret (-1)
  else if INT64_MAX <? offset + range then fail Undefined
  else mret (if size <? offset + range then -1 else 0).

Definition partition_prepare nx h : M W (Z * partition_handle) :=
  ok ← choose_sector_size nx;
  if negb ok then mret (-1, h)
  else
    g ← get_settings;
    size ← n_get_size nx;
    if size =? -1 then mret (-1, h)
    else if size <? u32 (2 * sector_size g) then mret (-1, h)
    else
      '(r, _, lba01) ← n_pread nx (u32 (2 * sector_size g)) 0 0 0;
      if r =? -1 then mret (-1, h)
      else
        '(o, h) ← find_partition nx g size lba01 h;
        match o with
        | None => mret (-1, h)
        | Some (offset, range) =>
            r ← check_partition size offset range;
            mret (r, PartitionHandle offset range (ph_type h))
        end.

(* "partition ", " of ", "GPT", "MBR", " disk: " *)
Definition text_partition : list Z := [112; 97; 114; 116; 105; 116; 105; 111; 110; 32].
Definition text_of : list Z := [32; 111; 102; 32].
Definition text_type (t : table_type) : list Z := match t with table_gpt => [71; 80; 84] | table_mbr => [77; 66; 82] end.
Definition text_disk : list Z := [32; 100; 105; 115; 107; 58; 32].

Definition partition_export_description nx h : M W (option (list Z)) :=
  base ← n_export_description nx;
  match ph_type h with
  | None => fail AssertFailed
  | Some t =>
      match base with
      | None => mret None
      | Some base =>
          g ← get_settings;
          mret (Some (text_partition ++ print_signed (i32 (partnum g)) ++ text_of ++ text_type t ++ text_disk ++ base))
      end
  end.

Definition partition_get_size h : M W Z := mret (ph_range h).

Definition partition_pread nx h (count offs flags err : Z) : M W (Z * Z * list Z) :=
  n_pread nx count (u64 (offs + ph_offset h)) flags err.

Definition partition_pwrite nx h (buf : list Z) (count offs flags err : Z) : M W (Z * Z) :=
  n_pwrite nx buf count (u64 (offs + ph_offset h)) flags err.

Definition partition_trim nx h (count offs flags err : Z) : M W (Z * Z) :=
  n_trim nx count (u64 (offs + ph_offset h)) flags err.

Definition partition_zero nx h (count offs flags err : Z) : M W (Z * Z) :=
  n_zero nx count (u64 (offs + ph_offset h)) flags err.

(** The loop is that of [offset_extents]. *)
Definition partition_extents nx h (count offs flags : Z) (extents : nbdkit_extents) (err : Z)
    : M W (Z * Z * nbdkit_extents) :=
  match nbdkit_extents_new (u64 (offs + ph_offset h)) (u64 (ph_offset h + ph_range h)) with
  | inl errno => mret (-1, errno, extents)
  | inr extents2 =>
      '(r, err, extents2) ← n_extents nx count (u64 (offs + ph_offset h)) flags extents2 err;
      if r =? -1 then mret (-1, err, extents)
      else mret (offset_add_extents (ph_offset h) (x_extents extents2) extents err)
  end.

Definition partition_cache nx h (count offs flags err : Z) : M W (Z * Z) :=
  n_cache nx count (u64 (offs + ph_offset h)) flags err.

(** The filter's operations; the others are the next layer's. *)
Definition partition_next nx h : nbdkit_next W :=
  NextOps (n_prepare nx) (n_finalize nx) (partition_export_description nx h) (partition_get_size h)
    (n_block_size nx) (n_can_write nx) (n_can_flush nx) (n_is_rotational nx) (n_can_trim nx)
    (n_can_zero nx) (n_can_fast_zero nx) (n_can_extents nx) (n_can_fua nx) (n_can_multi_conn nx)
    (n_can_cache nx) (partition_pread nx h) (partition_pwrite nx h) (n_flush nx) (partition_trim nx h)
    (partition_zero nx h) (partition_extents nx h) (partition_cache nx h).

Context (get_heap : W -> heap partition_handle) (set_heap : heap partition_handle -> W -> W).

Notation on p := (fun op => h ← load_handle get_heap p; op h).

Definition partition_filter : nbdkit_filter W :=
  Filter None None None
    (Some (fun next readonly exportname _ => open_handle get_heap set_heap (partition_open next readonly exportname)))
    (Some (free_handle get_heap set_heap)) (Some (fun nx p _ => prepare_handle get_heap set_heap (partition_prepare nx) p)) None
    (Some (fun nx p => on p (partition_export_description nx))) (Some (fun nx p => on p partition_get_size)) None None None None None
    None None None None None None
    (Some (fun nx p count offset flags err => on p (fun h => partition_pread nx h count offset flags err)))
    (Some (fun nx p buf count offset flags err => on p (fun h => partition_pwrite nx h buf count offset flags err)))
    None
    (Some (fun nx p count offset flags err => on p (fun h => partition_trim nx h count offset flags err)))
    (Some (fun nx p count offset flags err => on p (fun h => partition_zero nx h count offset flags err)))
    (Some (fun nx p count offset flags exts err => on p (fun h => partition_extents nx h count offset flags exts err)))
    (Some (fun nx p count offset flags err => on p (fun h => partition_cache nx h count offset flags err))).
End Partition.

(** ** The search as a function of the disk *)

Section Search.
Context (d : Z -> Z) (g : partition_settings) (size : Z).

Fixpoint ebr_search (fuel : nat) (ep_start_sector ep_nr_sectors i ebr : Z) : option (Z * Z) :=
  match fuel with
  | O => None
  | S fuel =>
      let ss := sector_size g in
      if negb (Z.land ebr (ss - 1) =? 0) || (ebr <? ss) || (size - ss <=? ebr) then None
      else
        let sector := slice d ebr ss in
        if partnum g =? i then
          let p := get_mbr_partition sector 0 in
          let offset := ebr + start_sector p * ss in
          let range := nr_sectors p * ss in
          if (offset <=? ebr) || ((ep_start_sector + ep_nr_sectors) * ss <? offset + range) then None
          else Some (offset, range)
        else
          let p := get_mbr_partition sector 1 in
          if (start_sector p =? 0) && (nr_sectors p =? 0) then None
          else
            let next_ebr := (ep_start_sector + start_sector p) * ss in
            if next_ebr <=? ebr then None else ebr_search fuel ep_start_sector ep_nr_sectors (i + 1) next_ebr
  end.

Definition search_mbr (mbr : list Z) : option (Z * Z) :=
  if partnum g <=? 4 then match find_primary 4 g mbr 0 with Some o => o | None => None end
  else
    match find_extended 4 mbr 0 with
    | None => None
    | Some p => ebr_search (Z.to_nat (partnum g - 4)) (start_sector p) (nr_sectors p) 5 (start_sector p * sector_size g)
    end.

(** The [i]-th of the entries of [spe] bytes, in the sector it is in. *)
Definition gpt_entry_at (spe i : Z) : list Z * Z * Z :=
  let per_sector := sector_size g / spe in
  get_gpt_partition (drop (Z.to_nat (i mod per_sector * spe))
    (slice d (u32 (sector_size g * (2 + i / per_sector))) (sector_size g))).

(** Where the entry with the number [partnum] puts the partition. *)
Definition gpt_place (spe : Z) : option (Z * Z) :=
  let '(guid, first_lba, last_lba) := gpt_entry_at spe (partnum g - 1) in
  if bool_decide (guid = memset 0 16) then None
  else Some (i64 (u64 (first_lba * sector_size g)), i64 (u64 (u64 (1 + last_lba - first_lba) * sector_size g))).

Definition search_gpt (header_bytes : list Z) : option (Z * Z) :=
  match get_gpt_header header_bytes with
  | None => None
  | Some (nr, spe) =>
      let ss := sector_size g in
      if (nr <? partnum g) || (spe <? 128) || (ss <? spe) || negb (ss mod spe =? 0) || (size <? 3 * ss + 2 * nr * spe) then None
      else gpt_place spe
  end.

Definition is_gpt : bool :=
  (3 * sector_size g + 2 * 128 * 128 <=? size) && bool_decide (slice d (sector_size g) 8 = GPT_SIGNATURE).

Definition is_mbr : bool := (d 0x1fe =? 0x55) && (d 0x1ff =? 0xaa).

Definition search : option (Z * Z) :=
  if is_gpt then search_gpt (slice d (sector_size g) (sector_size g))
  else if is_mbr then search_mbr (slice d 0 (2 * sector_size g))
  else None.
(** The number of entries that a GPT claims to have. *)
Definition gpt_nr_entries (ss : Z) : Z := le_val (slice d (ss + 80) 4).

(** A partition whose end cannot be represented, or a table with more entries
    than the loop can count. *)
Definition table_overflows : Prop :=
  is_gpt = true /\
  (INT32_MAX < gpt_nr_entries (sector_size g) \/
   exists offset range, search = Some (offset, range) /\ 0 <= offset /\ 0 <= range /\ INT64_MAX < offset + range).

(** The partition that [partition_prepare] opens. *)
Definition opened_partition : option (Z * Z) :=
  if size <? 2 * sector_size g then None
  else match search with
  | Some (offset, range) => if (0 <=? offset) && (0 <=? range) && (offset + range <=? size) then Some (offset, range) else None
  | None => None
  end.
End Search.

Definition sector_size_ok (ss : Z) : Prop := ss = SECTOR_SIZE_512 \/ ss = SECTOR_SIZE_4K.

(** *** Fields *)

Lemma le_val_slice (d : Z -> Z) o n : (forall x, is_byte (d x)) -> 0 <= n -> 0 <= le_val (slice d o n) < 256 ^ n.
Proof.
  intros Hd Hn. pose proof (le_val_bound (slice d o n)) as H. rewrite length_slice, Z2Nat.id in H by lia.
  apply H. apply Forall_forall. intros x Hx. unfold slice in Hx. apply list_elem_of_fmap in Hx as (y & -> & _). apply Hd.
Qed.

Lemma le_val_sub l o n : Forall is_byte l -> 0 <= n -> 0 <= le_val (sub l o n) < 256 ^ n.
Proof.
  intros Hl Hn. assert (Hb : Forall is_byte (sub l o n)) by (unfold sub; by apply Forall_take, Forall_drop).
  pose proof (le_val_bound _ Hb) as [H0 H1]. split; [done|]. eapply Z.lt_le_trans; [exact H1|]. apply Z.pow_le_mono_r; [lia|].
  unfold sub. rewrite length_take. lia.
Qed.

Lemma mbr_partition_bounds sector i : Forall is_byte sector ->
  0 <= start_sector (get_mbr_partition sector i) <= UINT32_MAX /\ 0 <= nr_sectors (get_mbr_partition sector i) <= UINT32_MAX.
Proof.
  intros Hs. pose proof (le_val_sub sector (0x1be + i * 0x10 + 8) 4 Hs ltac:(lia)).
  pose proof (le_val_sub sector (0x1be + i * 0x10 + 0xc) 4 Hs ltac:(lia)). simpl. limits. lia.
Qed.

Lemma slice_bytes (d : Z -> Z) o n : (forall x, is_byte (d x)) -> Forall is_byte (slice d o n).
Proof. intros Hd. unfold slice. apply Forall_fmap, Forall_forall. intros x _. apply Hd. Qed.

Lemma sector_size_pow ss : sector_size_ok ss -> exists n, 9 <= n <= 12 /\ ss = 2 ^ n.
Proof. intros [-> | ->]; [exists 9|exists 12]; split; (done || lia). Qed.

Lemma sector_size_bounds ss : sector_size_ok ss -> 512 <= ss <= 4096 /\ is_power_of_2 ss = true /\ (ss | 2 ^ 32).
Proof.
  intros [-> | ->]; (split; [by split|]); (split; [done|]); [by exists (2 ^ 23)|by exists (2 ^ 20)].
Qed.

Lemma u32_sector ss x : sector_size_ok ss -> (ss | x) -> 0 <= x -> 0 <= u32 x <= x /\ (ss | u32 x).
Proof.
  intros Hss Hd Hx. destruct (sector_size_bounds ss Hss) as (? & _ & Hp). unfold u32.
  split; [split; [by apply Z.mod_pos_bound|by apply Z.mod_le]|].
  rewrite Z.mod_eq by done. apply Z.divide_sub_r; [done|]. by apply Z.divide_mul_l.
Qed.

(** The search depends on the bytes only. *)
Section Ext.
Context (d d' : Z -> Z) (Hd : forall x, d x = d' x) (g : partition_settings) (size : Z).

Lemma ebr_search_ext fuel eps epn i ebr : ebr_search d g size fuel eps epn i ebr = ebr_search d' g size fuel eps epn i ebr.
Proof.
  revert i ebr. induction fuel as [|fuel IH]; intros i ebr; [done|]. cbn [ebr_search].
  rewrite (slice_ext d d') by (intros; apply Hd). by rewrite IH.
Qed.

Lemma search_mbr_ext mbr : search_mbr d g size mbr = search_mbr d' g size mbr.
Proof. unfold search_mbr. destruct (find_extended 4 mbr 0); [|done]. by rewrite ebr_search_ext. Qed.

Lemma gpt_place_ext spe : gpt_place d g spe = gpt_place d' g spe.
Proof. unfold gpt_place, gpt_entry_at. by rewrite (slice_ext d d') by (intros; apply Hd). Qed.

Lemma is_gpt_ext : is_gpt d g size = is_gpt d' g size.
Proof. unfold is_gpt. by rewrite (slice_ext d d') by (intros; apply Hd). Qed.

Lemma search_gpt_ext header : search_gpt d g size header = search_gpt d' g size header.
Proof. unfold search_gpt. destruct (get_gpt_header header) as [[nr spe]|]; [|done]. by rewrite gpt_place_ext. Qed.

Lemma search_ext : search d g size = search d' g size.
Proof.
  unfold search, is_mbr. rewrite is_gpt_ext, search_gpt_ext, search_mbr_ext, !Hd.
  by rewrite !(slice_ext d d') by (intros; apply Hd).
Qed.
End Ext.

(** ** Finding the partition on a layer

    [fails] is what is known when a read fails. *)
Section Find.
Context {W : Type} (inv : st W -> Prop) (disk : st W -> Z -> Z) (settled : st W -> Z -> Prop).
Context (nx : nbdkit_next W) (k : layer_limits) `{!ReadLayer inv disk settled nx k} (fails : Prop).
Context (Hfails : forall count offset err s, inv s -> errno_ok err -> aligned_range k count offset -> count <= l_maximum k ->
  wp (n_pread nx count offset 0 err) (fun '(r, _, _) _ => r = -1 -> fails) s).
Context (Hsize_fails : forall s, inv s -> wp (n_get_size nx) (fun r _ => r = -1 -> fails) s).
Context (Hthread : forall s, inv s -> errno_ok (t_errno (s_thread s)) /\
  forall e, errno_ok e -> same_disk inv disk settled s (set_thread (with_errno e) s)).
Context (Hbytes : forall s, inv s -> forall x, is_byte (disk s x)).
Context (g : partition_settings) (Hss : sector_size_ok (sector_size g)) (Hnum : 1 <= partnum g <= INT32_MAX).
Context (Hmin : (l_minimum k | sector_size g)) (Hmax : 2 * sector_size g <= l_maximum k).
Context (Hsize : 0 <= l_size k <= INT64_MAX).

Notation same := (same_disk inv disk settled).
Notation size := (l_size k).

(** What a search ends with. *)
Definition found (s : st W) {A} (expected : option A) (o : option A) (s' : st W) : Prop :=
  same s s' /\ (o = expected \/ o = None /\ fails).

Lemma found_same {A} (expected : (Z -> Z) -> option A) s s1 o s' :
  same s s1 -> (expected (disk s1) = expected (disk s)) -> found s1 (expected (disk s1)) o s' -> found s (expected (disk s)) o s'.
Proof. intros H1 E [H2 Ho]. rewrite E in Ho. split; [by eapply same_disk_trans|done]. Qed.

Lemma wp_read n o err (Q : Z * Z * list Z -> st W -> Prop) s :
  inv s -> errno_ok err -> 0 <= o -> 0 < n <= 2 * sector_size g -> o + n <= size -> (sector_size g | o) -> (sector_size g | n) ->
  (forall r e buf s', same s s' -> errno_ok e -> (r = -1 -> fails) -> (r <> -1 -> buf = slice (disk s) o n) -> Q (r, e, buf) s') ->
  wp (n_pread nx n o 0 err) Q s.
Proof.
  intros Hi He Ho Hn Hle Hdo Hdn HQ. destruct (sector_size_bounds _ Hss) as (? & _).
  assert (Hr : aligned_range k n o).
  { split; [done|]. split; [limits; lia|]. split; [done|]. split; by eapply Z.divide_trans. }
  eapply wp_mono; [apply wp_and; [apply (dl_pread n o err s); (done || lia)|apply (Hfails n o err s); (done || lia)]|].
  intros [[r e] buf] s' [(Hsd & [He' _] & Hb) Hf]. by apply HQ.
Qed.

Lemma ebr_loop_search fuel : forall eps epn i ebr s,
  inv s -> 5 <= i <= partnum g -> fuel = Z.to_nat (partnum g - i + 1) ->
  0 <= eps <= UINT32_MAX -> 0 <= epn <= UINT32_MAX -> 0 <= ebr <= 2 ^ 46 ->
  2 * sector_size g <= size ->
  wp (ebr_loop fuel nx g size eps epn i ebr) (found s (ebr_search (disk s) g size fuel eps epn i ebr)) s.
Proof.
  induction fuel as [|fuel IH]; intros eps epn i ebr s Hi Hip Hfuel Heps Hepn Hebr Hsz; [lia|].
  destruct (sector_size_bounds _ Hss) as (Hb & Hpow & _). destruct (sector_size_pow _ Hss) as (n & Hn & En).
  cbn [ebr_loop ebr_search]. apply wp_bind, wp_assert. split; [done|].
  rewrite (u64_small (size - _)) by (limits; lia).
  assert (Hnone : found s (None (A := Z * Z)) None s) by (split; [by apply unchanged_refl|by left]).
  destruct (_ || _ || _) eqn:Eg; [by apply wp_ret|]. apply orb_false_iff in Eg as [[Eg1 Eg2]%orb_false_iff Eg3].
  apply negb_false_iff, Z.eqb_eq in Eg1. apply Z.ltb_ge in Eg2. apply Z.leb_gt in Eg3.
  rewrite En in Eg1. rewrite land_pred_pow2 in Eg1 by lia. rewrite <- En in Eg1.
  destruct (Hthread s Hi) as [He0 Hset]. apply wp_bind. unfold get_errno_c. apply wp_gets.
  apply wp_bind, wp_read; [done|done|lia|lia|lia|by apply Z.mod_divide; [lia|]|done|].
  intros r e buf s1 Hs1 He Hf Hbuf. pose proof Hs1 as [Hi1 _]. destruct (Hthread s1 Hi1) as [_ Hset1].
  apply wp_bind. unfold set_errno. apply wp_modify. set (s2 := set_thread (with_errno e) s1).
  assert (Hs2 : same s s2) by (eapply same_disk_trans; [exact Hs1|by apply Hset1]). pose proof Hs2 as [Hi2 Hd2].
  destruct (Z.eqb_spec r (-1)) as [Er|Er]; [apply wp_ret; split; [done|right; auto]|]. rewrite (Hbuf Er). clear Hbuf.
  set (sector := slice (disk s) ebr (sector_size g)).
  assert (Hsb : Forall is_byte sector) by (apply slice_bytes, Hbytes; done).
  pose proof (mbr_partition_bounds sector 0 Hsb) as [Ha1 Ha2]. pose proof (mbr_partition_bounds sector 1 Hsb) as [Hb1 Hb2].
  set (p0 := get_mbr_partition sector 0) in *. set (p1 := get_mbr_partition sector 1) in *. limits.
  assert (Hm : forall x, 0 <= x <= 2 * UINT32_MAX -> 0 <= x * sector_size g <= 2 ^ 45) by (limits; intros; nia).
  assert (0 <= start_sector p0 * sector_size g <= 2 ^ 45) by (apply Hm; limits; lia).
  assert (0 <= nr_sectors p0 * sector_size g <= 2 ^ 45) by (apply Hm; limits; lia).
  assert (0 <= (eps + epn) * sector_size g <= 2 ^ 45) by (apply Hm; limits; lia).
  assert (0 <= (eps + start_sector p1) * sector_size g <= 2 ^ 45) by (apply Hm; limits; lia).
  rewrite (u64_small (ebr + _)), (u64_small (_ + _ + _)), (u64_small ((eps + epn) * _)), (u64_small ((eps + start_sector p1) * _)) by (limits; lia).
  destruct (Z.eqb_spec (partnum g) i) as [Ei|Ei].
  - rewrite !i64_small by (limits; lia). destruct (_ || _); apply wp_ret; (split; [done|by left]).
  - destruct (_ && _); [by apply wp_ret; split; [|left]|]. destruct (Z.leb_spec ((eps + start_sector p1) * sector_size g) ebr).
    { by apply wp_ret; split; [|left]. }
    destruct (Z.eqb_spec i 2147483647); [lia|].
    eapply wp_mono; [apply (IH eps epn (i + 1)); limits; (done || lia)|]. intros o s' [Hs' Ho].
    split; [by eapply same_disk_trans|]. rewrite (ebr_search_ext (disk s2) (disk s)) in Ho; [done|]. intros x. by apply Hd2.
Qed.

(** The sector that the entry [i] is in, and its place there. *)
Lemma gpt_sector_bounds nr spe i : 0 <= i < nr -> 128 <= spe <= sector_size g -> sector_size g mod spe = 0 ->
  let per := sector_size g / spe in
  0 < per /\ per * spe = sector_size g /\ 0 <= i / per /\ sector_size g * (2 + i / per) + sector_size g <= 3 * sector_size g + nr * spe.
Proof.
  intros Hi Hspe Hmod per. destruct (sector_size_bounds _ Hss) as (Hb & _). subst per.
  pose proof (Z_div_exact_2 (sector_size g) spe ltac:(lia) Hmod) as E. pose proof (Z.div_str_pos (sector_size g) spe ltac:(lia)).
  set (per := sector_size g / spe) in *. rewrite E. pose proof (Z.div_pos i per ltac:(lia) ltac:(lia)).
  pose proof (Z.mul_div_le i per ltac:(lia)). split; [done|]. split; [lia|]. split; [done|].
  assert (spe * (per * (i / per)) <= spe * i) by (apply Z.mul_le_mono_nonneg_l; lia). nia.
Qed.

Lemma gpt_loop_search nr spe : 128 <= spe <= sector_size g -> sector_size g mod spe = 0 ->
  partnum g <= nr <= INT32_MAX -> 3 * sector_size g + nr * spe <= size -> forall fuel i sector s,
  inv s -> 0 <= i -> fuel = Z.to_nat (nr - i) ->
  (i mod (sector_size g / spe) <> 0 -> sector = slice (disk s) (u32 (sector_size g * (2 + i / (sector_size g / spe)))) (sector_size g)) ->
  wp (gpt_loop fuel nx g nr spe i sector) (found s (if i <? partnum g then gpt_place (disk s) g spe else None)) s.
Proof.
  intros Hspe Hmod Hnr Hfit. set (ss := sector_size g) in *. set (per := ss / spe).
  induction fuel as [|fuel IH]; intros i sector s Hi Hi0 Hfuel Hsec.
  { cbn [gpt_loop]. rewrite (proj2 (Z.ltb_ge i nr)), (proj2 (Z.ltb_ge i (partnum g))) by lia.
    apply wp_ret. split; [by apply unchanged_refl|by left]. }
  cbn [gpt_loop]. fold ss. fold per. rewrite (proj2 (Z.ltb_lt i nr)) by lia.
  destruct (gpt_sector_bounds nr spe i ltac:(lia) Hspe Hmod) as (Hper & Hps & Hdiv & Hend). fold ss per in Hper, Hps, Hdiv, Hend.
  destruct (u32_sector ss (ss * (2 + i / per)) Hss ltac:(by apply Z.divide_mul_l) ltac:(nia)) as [Hu Hud].
  destruct (sector_size_bounds _ Hss) as (Hb & _). fold ss in Hb.
  set (o := u32 (ss * (2 + i / per))) in *.
  apply wp_bind. apply (wp_mono _ (fun '(r, sector') s' => same s s' /\ (r = -1 -> fails) /\ (r <> -1 -> sector' = slice (disk s) o ss))).
  { destruct (Z.eqb_spec (i mod per) 0) as [E|E].
    - apply wp_bind, wp_read; [done|apply errno_ok_0|lia|lia|lia|done|done|]. intros r e buf s' Hs He Hf Hbuf. by apply wp_ret.
    - apply wp_ret. split; [by apply unchanged_refl|]. split; [done|]. intros _. by apply Hsec. }
  intros [r sector'] s1 (Hs1 & Hf & Hb1). destruct (Z.eqb_spec r (-1)) as [Er|Er]; [apply wp_ret; split; [done|right; auto]|].
  rewrite (Hb1 Er). clear Hb1.
  assert (Eat : get_gpt_partition (drop (Z.to_nat (i mod per * spe)) (slice (disk s) o ss)) = gpt_entry_at (disk s) g spe i) by done.
  rewrite Eat. clear Eat. destruct (gpt_entry_at (disk s) g spe i) as [[guid first] last] eqn:Ee.
  rewrite (proj2 (Z.eqb_neq i INT32_MAX)) by lia.
  destruct (_ && _) eqn:Eg.
  - apply andb_true_iff in Eg as [Eg Ei%Z.eqb_eq]. apply negb_true_iff in Eg. apply wp_ret. split; [done|]. left.
    rewrite (proj2 (Z.ltb_lt i _)) by lia. unfold gpt_place. replace (partnum g - 1) with i by lia. by rewrite Ee, Eg.
  - pose proof Hs1 as [Hi1 Hd1]. eapply wp_mono; [apply (IH (i + 1)); [done|lia|lia|]|].
    + intros Hne. rewrite (slice_ext (disk s1) (disk s)) by (intros; by apply Hd1). fold per. subst o. do 3 f_equal.
      clear -Hper Hi0 Hne. pose proof (Z.div_mod i per ltac:(lia)) as E. pose proof (Z.mod_pos_bound i per Hper).
      pose proof (Z.div_mod (i + 1) per ltac:(lia)) as E1. pose proof (Z.mod_pos_bound (i + 1) per Hper). fold per in Hne. nia.
    + intros x s2 [Hs2 Hx]. split; [by eapply same_disk_trans|].
      rewrite (gpt_place_ext (disk s1) (disk s)) in Hx by (intros; by apply Hd1).
      destruct (Z.ltb_spec (i + 1) (partnum g)), (Z.ltb_spec i (partnum g)); try lia; try done.
      assert (i = partnum g - 1) as Ei by lia. unfold gpt_place. rewrite <- Ei, Ee.
      apply andb_false_iff in Eg as [Eg|Eg%Z.eqb_neq]; [|lia]. apply negb_false_iff in Eg. by rewrite Eg.
Qed.

Lemma find_gpt_search header s : inv s -> header = slice (disk s) (sector_size g) (sector_size g) ->
  gpt_nr_entries (disk s) (sector_size g) <= INT32_MAX ->
  wp (find_gpt_partition nx g size header) (found s (search_gpt (disk s) g size header)) s.
Proof.
  intros Hi Hh Hnr. unfold find_gpt_partition, search_gpt.
  assert (Hnone : found s (None (A := Z * Z)) None s) by (split; [by apply unchanged_refl|by left]).
  assert (Enr : forall nr spe, get_gpt_header header = Some (nr, spe) -> nr <= INT32_MAX /\ 0 <= nr).
  { intros nr spe E. unfold get_gpt_header in E. destruct (negb _); [done|]. injection E as <- _.
    destruct (sector_size_bounds _ Hss) as (? & _). rewrite Hh, sub_slice by lia. split; [exact Hnr|].
    apply le_val_slice; [by apply Hbytes|lia]. }
  destruct (get_gpt_header header) as [[nr spe]|]; [|by apply wp_ret]. destruct (Enr nr spe eq_refl) as [Hn1 Hn0].
  destruct (Z.ltb_spec nr (partnum g)); [by apply wp_ret|]. simpl orb.
  destruct (Z.ltb_spec spe 128); [by apply wp_ret|]. simpl orb. destruct (Z.ltb_spec (sector_size g) spe); [by apply wp_ret|]. simpl orb.
  destruct (Z.eqb_spec (sector_size g mod spe) 0) as [E|E]; [|by apply wp_ret]. simpl orb.
  destruct (Z.ltb_spec size (3 * sector_size g + 2 * nr * spe)); [by apply wp_ret|].
  assert (0 <= nr * spe) by (apply Z.mul_nonneg_nonneg; lia).
  eapply wp_mono; [apply (gpt_loop_search nr spe); try done; try lia|].
  intros o s'. by rewrite (proj2 (Z.ltb_lt 0 _)) by lia.
Qed.

Lemma find_mbr_search mbr s : inv s -> Forall is_byte mbr -> 2 * sector_size g <= size ->
  wp (find_mbr_partition nx g size mbr) (found s (search_mbr (disk s) g size mbr)) s.
Proof.
  intros Hi Hm Hsz. unfold find_mbr_partition, search_mbr. destruct (sector_size_bounds _ Hss) as (? & _).
  assert (Hret : forall o : option (Z * Z), found s o o s) by (intros o; split; [by apply unchanged_refl|by left]).
  destruct (Z.leb_spec (partnum g) 4); [by apply wp_ret|].
  assert (Hp : forall n i p, find_extended n mbr i = Some p -> exists j, p = get_mbr_partition mbr j).
  { induction n as [|n IH]; intros i p; [done|]. cbn [find_extended]. destruct (_ && _); [|apply IH]. intros [= <-]. eauto. }
  destruct (find_extended 4 mbr 0) as [p|] eqn:E; [|by apply wp_ret]. destruct (Hp _ _ _ E) as [j ->].
  destruct (mbr_partition_bounds mbr j Hm) as [H1 H2]. set (q := get_mbr_partition mbr j) in *.
  assert (0 <= start_sector q * sector_size g <= 2 ^ 46) by (limits; nia).
  rewrite u64_small by (limits; lia). apply ebr_loop_search; try done; try lia.
Qed.

Lemma find_partition_search h s : inv s -> 2 * sector_size g <= size ->
  (is_gpt (disk s) g size = true -> gpt_nr_entries (disk s) (sector_size g) <= INT32_MAX) ->
  wp (find_partition nx g size (slice (disk s) 0 (2 * sector_size g)) h) (fun '(o, h') s' =>
    found s (search (disk s) g size) o s' /\ ph_offset h' = ph_offset h /\ ph_range h' = ph_range h /\
    (o <> None -> is_Some (ph_type h'))) s.
Proof.
  intros Hi Hsz Hnr. unfold find_partition, search. destruct (sector_size_bounds _ Hss) as (Hb & _).
  rewrite sub_slice by lia. change (0 + sector_size g) with (sector_size g).
  rewrite (u32_small (3 * _ + _)) by (limits; lia). fold (is_gpt (disk s) g size).
  destruct (is_gpt (disk s) g size) eqn:Eg.
  - replace (2 * sector_size g) with (sector_size g + sector_size g) by lia. rewrite drop_slice by lia.
    change (0 + sector_size g) with (sector_size g).
    apply wp_bind. eapply wp_mono; [by apply find_gpt_search; [| |apply Hnr]|].
    intros o s' Ho. by apply wp_ret.
  - assert (E1 : nth 0x1fe (slice (disk s) 0 (2 * sector_size g)) 0 = disk s 0x1fe) by (apply (nth_slice (disk s) 0 _ 0x1fe); lia).
    assert (E2 : nth 0x1ff (slice (disk s) 0 (2 * sector_size g)) 0 = disk s 0x1ff) by (apply (nth_slice (disk s) 0 _ 0x1ff); lia).
    rewrite E1, E2. fold (is_mbr (disk s)). destruct (is_mbr (disk s)).
    + apply wp_bind. eapply wp_mono; [apply find_mbr_search; [done|by apply slice_bytes, Hbytes|done]|].
      intros o s' Ho. by apply wp_ret.
    + apply wp_ret. split; [|done]. split; [by apply unchanged_refl|by left].
Qed.

(** *** [partition_prepare] *)

Lemma find_extended_lookup n mbr : forall i p, find_extended n mbr i = Some p -> exists j, p = get_mbr_partition mbr j.
Proof.
  induction n as [|n IH]; intros i p; [done|]. cbn [find_extended]. destruct (_ && _); [|apply IH]. intros [= <-]. eauto.
Qed.

Lemma sector_mul x : 0 <= x <= 2 * UINT32_MAX -> 0 <= x * sector_size g <= 2 ^ 60.
Proof. destruct (sector_size_bounds _ Hss) as (Hb & _). limits. intros. nia. Qed.

Lemma sector_field x : 0 <= x <= UINT32_MAX -> 0 <= x <= 2 * UINT32_MAX.
Proof. limits. lia. Qed.

Lemma search_mbr_small d mbr offset range : (forall x, is_byte (d x)) -> Forall is_byte mbr ->
  search_mbr d g size mbr = Some (offset, range) -> 0 <= offset <= 2 ^ 60 /\ 0 <= range <= 2 ^ 60.
Proof.
  intros Hd Hm. unfold search_mbr. destruct (sector_size_bounds _ Hss) as (Hb & _).
  destruct (Z.leb_spec (partnum g) 4).
  - destruct (find_primary 4 g mbr 0) as [o|] eqn:E; [|done]. intros ->. revert E. generalize 0 at 1. generalize 4%nat.
    induction n as [|n IH]; intros i; [done|]. cbn [find_primary]. destruct (_ && _); [|apply IH].
    destruct (_ =? _); [done|]. destruct (mbr_partition_bounds mbr i Hm) as [H1 H2].
    pose proof (sector_mul _ (sector_field _ H1)). pose proof (sector_mul _ (sector_field _ H2)). by intros [= <- <-].
  - destruct (find_extended 4 mbr 0) as [p|] eqn:E; [|done]. apply find_extended_lookup in E as [j ->].
    destruct (mbr_partition_bounds mbr j Hm) as [Hs Hn]. set (q := get_mbr_partition mbr j) in *.
    generalize (start_sector q * sector_size g) as ebr.
    generalize 5 as i. generalize (Z.to_nat (partnum g - 4)) as n. induction n as [|n IH]; intros i ebr; [done|]. cbn [ebr_search].
    destruct (_ || _ || _) eqn:E; [done|]. apply orb_false_iff in E as [[_ E%Z.ltb_ge]%orb_false_iff _]. destruct (_ =? _).
    + destruct (mbr_partition_bounds (slice d ebr (sector_size g)) 0 (slice_bytes _ _ _ Hd)) as [? ?].
      remember (get_mbr_partition (slice d ebr (sector_size g)) 0) as p0 eqn:Hp0. clear Hp0.
      destruct (_ || _) eqn:E2; [done|]. apply orb_false_iff in E2 as [? ?%Z.ltb_ge]. intros [= <- <-].
      pose proof (sector_mul (start_sector q + nr_sectors q) ltac:(limits; lia)). 
      pose proof (sector_mul (nr_sectors p0) ltac:(limits; lia)). pose proof (sector_mul (start_sector p0) ltac:(limits; lia)). lia.
    + destruct (_ && _); [done|]. destruct (_ <=? _); [done|]. apply IH.
Qed.

Lemma search_small d : is_gpt d g size = false -> (forall x, is_byte (d x)) ->
  forall offset range, search d g size = Some (offset, range) -> 0 <= offset <= 2 ^ 60 /\ 0 <= range <= 2 ^ 60.
Proof.
  intros Hg Hd offset range. unfold search. rewrite Hg. destruct (is_mbr d); [|done].
  by apply search_mbr_small, slice_bytes.
Qed.

(** What [partition_prepare] does once [sector_size] is known. *)
Lemma prepare_search get set h s : inv s -> get (s_world s) = g -> ~ table_overflows (disk s) g size ->
  wp (partition_prepare get set nx h) (fun '(r, h') s' =>
    same s s' /\ (r = 0 \/ r = -1) /\
    match opened_partition (disk s) g size with
    | Some (offset, range) => (r = 0 /\ ph_offset h' = offset /\ ph_range h' = range /\ is_Some (ph_type h')) \/ (r = -1 /\ fails)
    | None => r = -1
    end) s.
Proof.
  intros Hi Hg Hov. destruct (sector_size_bounds _ Hss) as (Hb & _). unfold partition_prepare, choose_sector_size, get_settings.
  apply wp_bind, wp_bind, wp_gets. rewrite Hg. rewrite (proj2 (Z.eqb_neq (sector_size g) 0)) by lia. apply wp_ret. simpl negb.
  cbv iota. apply wp_bind, wp_gets. rewrite Hg. rewrite u32_small by (limits; lia).
  set (P := fun '(r, h') s' => same s s' /\ (r = 0 \/ r = -1) /\ _).
  assert (Hfail : forall h' s', same s s' -> fails -> P (-1, h') s').
  { intros h' s' Hs' Hf. split; [done|]. split; [by right|]. destruct (opened_partition (disk s) g size) as [[offset range]|]; [by right|done]. }
  apply wp_bind. eapply wp_mono; [apply wp_and; [by apply dl_get_size|by apply Hsize_fails]|].
  intros r s1 [[Hr Hs1] Hf]. destruct (Z.eqb_spec r (-1)) as [-> |Hr1]; [apply wp_ret, Hfail; auto|].
  destruct Hr as [-> |]; [|done]. pose proof Hs1 as [Hi1 Hd1]. destruct (Z.ltb_spec size (2 * sector_size g)) as [Hlt|Hge].
  { apply wp_ret. split; [done|]. split; [by right|]. unfold opened_partition. by rewrite (proj2 (Z.ltb_lt _ _)). }
  apply wp_bind, wp_read; [done|apply errno_ok_0|lia|lia|lia|by exists 0|by exists 2|]. intros r2 e buf s2 Hs2 He Hf2 Hbuf.
  destruct (Z.eqb_spec r2 (-1)) as [-> |Hr2]; [apply wp_ret, Hfail; [by eapply same_disk_trans|auto]|]. rewrite (Hbuf Hr2).
  assert (Hs02 : same s s2) by by eapply same_disk_trans. pose proof Hs02 as [Hi2 Hd2].
  assert (E1 : slice (disk s1) 0 (2 * sector_size g) = slice (disk s2) 0 (2 * sector_size g)).
  { symmetry. by apply (same_disk_slice inv disk settled). }
  assert (Hnr : is_gpt (disk s2) g size = true -> gpt_nr_entries (disk s2) (sector_size g) <= INT32_MAX).
  { rewrite (is_gpt_ext (disk s2) (disk s)) by (intros; by apply Hd2). intros Hgpt. unfold gpt_nr_entries.
    rewrite (slice_ext (disk s2) (disk s)) by (intros; by apply Hd2). apply Z.nlt_ge. intros Hnr. apply Hov. split; [done|by left]. }
  rewrite E1. apply wp_bind. eapply wp_mono; [by apply find_partition_search|].
  intros [o h'] s3 ([Hs3 Ho] & _ & _ & Ht). rewrite (search_ext (disk s2) (disk s)) in Ho by (intros; by apply Hd2).
  assert (Hs03 : same s s3) by by eapply same_disk_trans. 
  destruct Ho as [-> |[-> Hf3]]; [|by apply wp_ret, Hfail]. unfold P, opened_partition. rewrite (proj2 (Z.ltb_ge _ _)) by lia.
  destruct (search (disk s) g size) as [[offset range]|] eqn:Es; [|apply wp_ret; auto].
  destruct (Ht ltac:(done)) as [ty Ety]. apply wp_bind. unfold check_partition.
  destruct (Z.ltb_spec offset 0) as [Hneg|Hoff].
  { simpl orb. apply wp_ret, wp_ret. rewrite (proj2 (Z.leb_gt _ _)) by done. simpl. auto. }
  destruct (Z.ltb_spec range 0) as [Hneg|Hrange].
  { simpl orb. apply wp_ret, wp_ret. rewrite (proj2 (Z.leb_le 0 offset)), (proj2 (Z.leb_gt _ _)) by done. simpl. auto. }
  simpl orb. cbv iota. destruct (Z.ltb_spec INT64_MAX (offset + range)) as [Hbig|Hle].
  { exfalso. destruct (is_gpt (disk s) g size) eqn:Eg.
    - apply Hov. split; [done|]. right. by exists offset, range.
    - pose proof (search_small _ Eg (Hbytes s Hi) _ _ Es). limits. lia. }
  apply wp_ret, wp_ret. rewrite (proj2 (Z.leb_le 0 offset)), (proj2 (Z.leb_le 0 range)) by done. rewrite Ety.
  destruct (Z.ltb_spec size (offset + range)); [rewrite (proj2 (Z.leb_gt _ _)) by done; simpl; auto|].
  rewrite (proj2 (Z.leb_le (offset + range) _)) by done. simpl. eauto 10.
Qed.
End Find.

(** ** The window *)

Definition window_of h : offset_config_state := OffsetConfig (ph_offset h) (ph_range h).

Section Window.
Context {W : Type} (inv : st W -> Prop) (disk : st W -> Z -> Z) (settled : st W -> Z -> Prop).
Context (get : W -> partition_settings) (nx : nbdkit_next W) (k : layer_limits) (h : partition_handle).
Context (Hh : window_ok (window_of h) k) (Hrange : 0 <= ph_range h).

Notation wdisk := (fun s => windowed (disk s) (ph_offset h)).
Notation wsettled := (fun s => windowed (settled s) (ph_offset h)).

Lemma window_limits_range : l_size (window_limits (window_of h) k) = ph_range h.
Proof. simpl. by rewrite (proj2 (Z.leb_le 0 _)). Qed.

Lemma partition_read_layer `{!ReadLayer inv disk settled nx k} :
  ReadLayer inv wdisk wsettled (partition_next get nx h) (window_limits (window_of h) k).
Proof.
  pose proof (offset_read_layer inv disk settled nx k (window_of h) Hh) as HL. split.
  - exact (dl_pread (nx := offset_next nx (window_of h))).
  - exact (dl_cache (nx := offset_next nx (window_of h))).
  - exact (dl_can_cache (nx := offset_next nx (window_of h))).
  - intros s Hi. rewrite window_limits_range. apply wp_ret. split; [by left|by apply unchanged_refl].
Qed.

Lemma partition_layer `{!DiskLayer inv disk settled nx k} :
  DiskLayer inv wdisk wsettled (partition_next get nx h) (window_limits (window_of h) k).
Proof.
  pose proof (offset_layer inv disk settled nx k (window_of h) Hh) as HL. split; [apply partition_read_layer|..].
  - exact (dl_pwrite (nx := offset_next nx (window_of h))).
  - exact (dl_zero (nx := offset_next nx (window_of h))).
  - exact (dl_trim (nx := offset_next nx (window_of h))).
  - exact (dl_flush (nx := offset_next nx (window_of h))).
  - exact (dl_can_fua (nx := offset_next nx (window_of h))).
  - exact (dl_can_fast_zero (nx := offset_next nx (window_of h))).
Qed.
End Window.

(** Reads keep a disk of bytes one. *)
Lemma read_layer_bytes {W} (inv : st W -> Prop) disk settled nx k :
  ReadLayer inv disk settled nx k ->
  ReadLayer (fun s => inv s /\ forall x, is_byte (disk s x)) disk settled nx k.
Proof.
  intros HL. set (inv' := fun s => _). 
  assert (Hsame : forall s s', inv' s -> same_disk inv disk settled s s' -> same_disk inv' disk settled s s').
  { intros s s' [_ Hb] [Hi Hd]. split; [|done]. split; [done|]. intros x. by rewrite (proj1 (Hd x I)). }
  split.
  - intros count offset err s Hs He Hr Hm. eapply wp_mono; [apply (dl_pread count offset err s); [apply Hs|done..]|].
    intros [[r e] buf] s' (Hsd & Hrest). auto.
  - intros count offset err s Hs He Hr Hm. eapply wp_mono; [apply (dl_cache count offset err s); [apply Hs|done..]|].
    intros [r e] s' (Hsd & Hrest). auto.
  - intros s Hs. eapply wp_mono; [apply dl_can_cache, Hs|]. intros r s' (Hr & Hsd). auto.
  - intros s Hs. eapply wp_mono; [apply dl_get_size, Hs|]. intros r s' (Hr & Hsd). auto.
Qed.

(** The partition starts at a sector. *)
Lemma ebr_search_aligned d g size : sector_size_ok (sector_size g) -> forall fuel eps epn i ebr offset range,
  ebr_search d g size fuel eps epn i ebr = Some (offset, range) -> (sector_size g | offset).
Proof.
  intros Hss. destruct (sector_size_pow _ Hss) as (n & Hn & En). induction fuel as [|fuel IH]; intros eps epn i ebr offset range; [done|].
  cbn [ebr_search]. destruct (_ || _ || _) eqn:Eg; [done|]. apply orb_false_iff in Eg as [[Eg _]%orb_false_iff _].
  apply negb_false_iff, Z.eqb_eq in Eg. rewrite En, land_pred_pow2, <- En in Eg by lia.
  destruct (_ =? i).
  - destruct (_ || _); [done|]. intros [= <- _]. apply Z.divide_add_r; [|apply Z.divide_factor_r].
    apply Z.mod_divide; [|done]. destruct (sector_size_bounds _ Hss). lia.
  - destruct (_ && _); [done|]. destruct (_ <=? _); [done|]. apply IH.
Qed.

Lemma i64_wrap z : exists q, i64 (u64 z) = z + q * 2 ^ 64.
Proof.
  unfold i64, u64. rewrite Zmod_mod. pose proof (Z_div_mod_eq_full z 18446744073709551616).
  destruct (_ <=? _); [exists (- (z / 18446744073709551616))|exists (- (z / 18446744073709551616) - 1)]; lia.
Qed.

Lemma search_aligned d g size offset range : sector_size_ok (sector_size g) ->
  search d g size = Some (offset, range) -> (sector_size g | offset).
Proof.
  intros Hss. destruct (sector_size_bounds _ Hss) as (Hb & _ & Hd). unfold search.
  destruct (is_gpt d g size); [|destruct (is_mbr d); [|done]].
  - unfold search_gpt. destruct (get_gpt_header _) as [[nr spe]|]; [|done]. destruct (_ || _ || _); [done|]. unfold gpt_place.
    destruct (gpt_entry_at _ _ _ _) as [[guid first] last]. case_bool_decide; [done|]. intros [= <- _].
    destruct (i64_wrap (first * sector_size g)) as [q ->]. apply Z.divide_add_r; [apply Z.divide_factor_r|].
    apply Z.divide_mul_r. change (2 ^ 64) with (2 ^ 32 * 2 ^ 32). by apply Z.divide_mul_l.
  - unfold search_mbr. destruct (partnum g <=? 4).
    + destruct (find_primary 4 g _ 0) as [o|] eqn:E; [|done]. intros ->. revert E. generalize 0 at 2. generalize 4%nat.
      induction n as [|n IH]; intros i; [done|]. cbn [find_primary]. destruct (_ && _); [|apply IH].
      destruct (_ =? _); [done|]. intros [= <- _]. apply Z.divide_factor_r.
    + destruct (find_extended 4 _ 0) as [p|]; [|done]. by apply ebr_search_aligned.
Qed.

Lemma opened_spec d g size offset range : sector_size_ok (sector_size g) ->
  opened_partition d g size = Some (offset, range) ->
  2 * sector_size g <= size /\ search d g size = Some (offset, range) /\ 0 <= offset /\ 0 <= range /\ offset + range <= size /\
  (sector_size g | offset).
Proof.
  intros Hss. unfold opened_partition. destruct (Z.ltb_spec size (2 * sector_size g)); [done|].
  destruct (search d g size) as [[o r]|] eqn:E; [|done]. destruct (_ && _) eqn:Ec; [|done]. intros [= <- <-].
  rewrite !andb_true_iff, !Z.leb_le in Ec. destruct Ec as [[? ?] ?]. repeat split; try done. by eapply search_aligned.
Qed.

(** ** The filter *)

Section Filter.
Context {W : Type} (inv : st W -> Prop) (disk : st W -> Z -> Z) (settled : st W -> Z -> Prop).
Context (get : W -> partition_settings) (set : partition_settings -> W -> W).
Context (nx : nbdkit_next W) (k : layer_limits) (fails : Prop).

Notation same := (same_disk inv disk settled).

(** The disk below: [errno] keeps being an error number, and [fails] is known
    when reading or asking for the size fails. *)
Record partition_below : Prop := PartitionBelow {
  pb_size : 0 <= l_size k <= INT64_MAX;
  pb_thread s : inv s -> errno_ok (t_errno (s_thread s)) /\ forall e, errno_ok e -> same s (set_thread (with_errno e) s);
  pb_pread count offset err s : inv s -> errno_ok err -> aligned_range k count offset -> count <= l_maximum k ->
    wp (n_pread nx count offset 0 err) (fun '(r, _, _) _ => r = -1 -> fails) s;
  pb_get_size s : inv s -> wp (n_get_size nx) (fun r _ => r = -1 -> fails) s;
}.

(** Settings that suit it. *)
Record partition_settings_ok (g : partition_settings) : Prop := PartitionSettingsOk {
  ps_sector : sector_size_ok (sector_size g);
  ps_partnum : 1 <= partnum g <= INT32_MAX;
  ps_minimum : (l_minimum k | sector_size g);
  ps_maximum : 2 * sector_size g <= l_maximum k;
}.

(** What [partition_prepare] makes of the disk below. *)
Lemma prepare_presents h s : let g := get (s_world s) in
  ReadLayer inv disk settled nx k -> partition_below -> partition_settings_ok g ->
  inv s -> (forall x, is_byte (disk s x)) -> ~ table_overflows (disk s) g (l_size k) ->
  wp (partition_prepare get set nx h) (fun '(r, h') s' =>
    same s s' /\
    match opened_partition (disk s) g (l_size k) with
    | None => r = -1
    | Some (offset, range) =>
        0 <= offset /\ 0 <= range /\ offset + range <= l_size k /\
        (r = -1 /\ fails \/
         r = 0 /\ let disk' s := windowed (disk s) offset in let settled' s := windowed (settled s) offset in
           let k' := LayerLimits range (l_minimum k) (l_maximum k) (l_can_fua k) (l_can_fast_zero k) in
           ReadLayer inv disk' settled' (partition_next get nx h') k' /\
           (DiskLayer inv disk settled nx k -> DiskLayer inv disk' settled' (partition_next get nx h') k'))
    end) s.
Proof.
  intros g HL [Hsize Hthread Hread Hget] [Hss Hnum Hmin Hmax] Hi Hb Hov.
  set (inv' := fun s => inv s /\ forall x, is_byte (disk s x)).
  assert (Hsame : forall s s', inv' s -> same s s' -> same_disk inv' disk settled s s').
  { intros s0 s' [_ Hb0] [Hi0 Hd]. split; [|done]. split; [done|]. intros x. by rewrite (proj1 (Hd x I)). }
  pose proof (read_layer_bytes _ _ _ _ _ HL) as HL'. fold inv' in HL'.
  eapply wp_mono; [apply (prepare_search inv' disk settled nx k fails) with (g := g); try done|].
  - intros count offset err s0 [Hi0 _]. by apply Hread.
  - intros s0 [Hi0 _]. by apply Hget.
  - intros s0 Hs0. destruct (Hthread s0 (proj1 Hs0)) as [He Hset]. split; [done|]. auto.
  - intros s0 [_ Hb0]. exact Hb0.
  - intros [r h'] s' ([[Hi' _] Hd] & Hr & Ho). split; [by split|].
    destruct (opened_partition (disk s) g (l_size k)) as [[offset range]|] eqn:Eo; [|done].
    destruct (opened_spec _ _ _ _ _ Hss Eo) as (_ & _ & Hoff & Hrange & Hend & Hal). do 3 (split; [done|]).
    destruct Ho as [(-> & <- & <- & _)|[-> Hf]]; [right|by left]. split; [done|].
    assert (Hw : window_ok (window_of h') k).
    { split; simpl; try done; try lia. by eapply Z.divide_trans. }
    assert (Ek : LayerLimits (ph_range h') (l_minimum k) (l_maximum k) (l_can_fua k) (l_can_fast_zero k) = window_limits (window_of h') k).
    { unfold window_limits. simpl. by rewrite (proj2 (Z.leb_le 0 _)). }
    rewrite Ek. split; [by apply partition_read_layer|]. intros HD. by apply partition_layer.
Qed.

(** C11: whatever the disk below contains, [partition_prepare] ends without a
    crash (unless a GPT claims more than [INT_MAX] entries, or puts the end of
    the partition beyond 64 bits) and changes nothing.  It fails if the
    partition tables have no such partition inside the disk, or if a read
    fails; otherwise the filter presents exactly the bytes of the partition:
    reading and writing its layer reads and writes the part of the disk that
    the tables name, with the durability of the layer below. *)
Theorem partition_presents_partition h s : let g := get (s_world s) in
  ReadLayer inv disk settled nx k -> partition_below -> partition_settings_ok g ->
  inv s -> (forall x, is_byte (disk s x)) -> ~ table_overflows (disk s) g (l_size k) ->
  wp (partition_prepare get set nx h) (fun '(r, h') s' =>
    same s s' /\
    match opened_partition (disk s) g (l_size k) with
    | None => r = -1
    | Some (offset, range) =>
        0 <= offset /\ 0 <= range /\ offset + range <= l_size k /\
        (r = -1 /\ fails \/
         r = 0 /\ let disk' s := windowed (disk s) offset in let settled' s := windowed (settled s) offset in
           let k' := LayerLimits range (l_minimum k) (l_maximum k) (l_can_fua k) (l_can_fast_zero k) in
           ReadLayer inv disk' settled' (partition_next get nx h') k' /\
           (DiskLayer inv disk settled nx k -> DiskLayer inv disk' settled' (partition_next get nx h') k'))
    end) s.
Proof. apply prepare_presents. Qed.

(** a GPT on the disk can make [partition_prepare] execute undefined
    behaviour: [first_lba] and [last_lba] are not checked before
    [h->offset + h->range] is computed, so an entry with which the sum
    overflows is enough. *)
Lemma gpt_partition_overflow h s offset range : let g := get (s_world s) in
  ReadLayer inv disk settled nx k -> partition_below -> ~ fails -> partition_settings_ok g ->
  inv s -> (forall x, is_byte (disk s x)) -> 2 * sector_size g <= l_size k ->
  is_gpt (disk s) g (l_size k) = true -> gpt_nr_entries (disk s) (sector_size g) <= INT32_MAX ->
  search (disk s) g (l_size k) = Some (offset, range) -> 0 <= offset -> 0 <= range -> INT64_MAX < offset + range ->
  partition_prepare get set nx h s = Crash Undefined.
Proof.
  intros g HL [Hsize Hthread Hread Hget] Hfails [Hss Hnum Hmin Hmax] Hi Hb Hsz Hgpt Hnr Hs Hoff Hrange Hover.
  set (inv' := fun s => inv s /\ forall x, is_byte (disk s x)).
  assert (Hsame : forall s s', inv' s -> same s s' -> same_disk inv' disk settled s s').
  { intros s0 s' [_ Hb0] [Hi0 Hd]. split; [|done]. split; [done|]. intros x. by rewrite (proj1 (Hd x I)). }
  pose proof (read_layer_bytes _ _ _ _ _ HL) as HL'. fold inv' in HL'. destruct (sector_size_bounds _ Hss) as (Hbd & _).
  unfold partition_prepare, choose_sector_size, get_settings.
  erewrite bind_run; [|erewrite bind_run; [|reflexivity]; fold g; by rewrite (proj2 (Z.eqb_neq (sector_size g) 0)) by lia].
  change (negb true) with false. cbv iota. erewrite bind_run; [|reflexivity]. fold g. rewrite u32_small by (limits; lia).
  destruct (wp_ok _ _ _ (wp_and _ _ _ _ (dl_get_size (nx := nx) s Hi) (Hget s Hi))) as (r & s1 & E1 & [Hr Hs1] & Hf1).
  rewrite (bind_run _ _ _ _ _ E1). destruct (Z.eqb_spec r (-1)) as [|Hne]; [tauto|]. destruct Hr as [-> |]; [|done].
  rewrite (proj2 (Z.ltb_ge _ _)) by lia. pose proof Hs1 as [Hi1 Hd1].
  assert (Hr2 : aligned_range k (2 * sector_size g) 0).
  { split; [lia|]. split; [limits; lia|]. split; [lia|]. split; [by apply Z.divide_0_r|by apply Z.divide_mul_r]. }
  destruct (wp_ok _ _ _ (wp_and _ _ _ _ (dl_pread (nx := nx) _ 0 0 s1 Hi1 errno_ok_0 Hr2 ltac:(lia)) (Hread _ 0 0 s1 Hi1 errno_ok_0 Hr2 ltac:(lia))))
    as ([[r2 e2] buf] & s2 & E2 & (Hs2 & _ & Hbuf) & Hf2).
  rewrite (bind_run _ _ _ _ _ E2). destruct (Z.eqb_spec r2 (-1)) as [|Hne2]; [tauto|]. rewrite (Hbuf Hne2).
  assert (Hs02 : same s s2) by by eapply same_disk_trans. pose proof Hs02 as [Hi2 Hd2].
  assert (E3 : slice (disk s1) 0 (2 * sector_size g) = slice (disk s2) 0 (2 * sector_size g)) by (symmetry; by apply (same_disk_slice inv disk settled)).
  rewrite E3.
  assert (Hfind : wp (find_partition nx g (l_size k) (slice (disk s2) 0 (2 * sector_size g)) h) (fun '(o, h') _ => o = Some (offset, range)) s2).
  { eapply wp_mono; [apply (find_partition_search inv' disk settled nx k fails) with (g := g); try done|].
    - intros count o err s0 [Hi0 _]. by apply Hread.
    - intros s0 Hs0. destruct (Hthread s0 (proj1 Hs0)) as [He Hset]. split; [done|]. auto.
    - intros s0 [_ Hb0]. exact Hb0.
    - split; [done|]. intros x. by rewrite (proj1 (Hd2 x I)).
    - intros _. unfold gpt_nr_entries. by rewrite (slice_ext (disk s2) (disk s)) by (intros; by apply Hd2).
    - intros [o h'] s3 ([_ Ho] & _). rewrite (search_ext (disk s2) (disk s)) in Ho by (intros; by apply Hd2). destruct Ho as [-> |[_ ?]]; done. }
  destruct (wp_ok _ _ _ Hfind) as ([o h'] & s3 & E4 & ->). rewrite (bind_run _ _ _ _ _ E4). unfold check_partition.
  rewrite (proj2 (Z.ltb_ge offset 0)), (proj2 (Z.ltb_ge range 0)) by lia. by rewrite (proj2 (Z.ltb_lt INT64_MAX _)).
Qed.
End Filter.

(** *** Witnesses *)

(** A disk with two sectors of a GPT and one entry. *)
Definition gpt_disk (first_lba last_lba : Z) : Z -> Z :=
  overwrite (overwrite (fun _ => 0)
    (gpt_header_bytes (GptHeader GPT_SIGNATURE GPT_REVISION 96 0 0 1 66 34 33 (memset 0 16) 2 128 128 0)) 512)
    (gpt_entry_bytes (GptEntry (memset 1 16) (memset 2 16) first_lba last_lba 0)) 1024.

Lemma overwrite_bytes d buf o : (forall x, is_byte (d x)) -> Forall is_byte buf -> forall x, is_byte (overwrite d buf o x).
Proof.
  intros Hd Hb x. unfold overwrite. case_decide; [|done]. apply Forall_nth; [done|lia].
Qed.

Lemma memset_bytes c n : is_byte c -> Forall is_byte (memset c n).
Proof. intros Hc. unfold memset. by apply Forall_replicate. Qed.

Lemma gpt_disk_bytes first_lba last_lba x : is_byte (gpt_disk first_lba last_lba x).
Proof.
  apply overwrite_bytes; [apply overwrite_bytes; [done|]|].
  - unfold gpt_header_bytes. cbn [g_signature g_revision g_guid]. rewrite !Forall_app.
    repeat split; (apply le_bytes || by apply memset_bytes || by repeat (apply Forall_cons; split)).
  - unfold gpt_entry_bytes. cbn [g_partition_type_guid g_unique_guid]. rewrite !Forall_app.
    repeat split; (apply le_bytes || by apply memset_bytes).
Qed.

Definition sample_world : Type := partition_settings * (Z -> Z).
Definition sample_next : nbdkit_next sample_world := flat_next_in snd (fun d w => (fst w, d)) 65536.
Definition sample_limits : layer_limits := LayerLimits 65536 1 1048576 NBDKIT_FUA_NATIVE true.
Definition sample_inv (s : st sample_world) : Prop := errno_ok (t_errno (s_thread s)).

Lemma sample_layer : DiskLayer sample_inv (fun s => snd (s_world s)) (fun _ _ => True) sample_next sample_limits.
Proof. by apply flat_layer_in. Qed.

Lemma flat_below size : 0 <= size <= INT64_MAX ->
  partition_below sample_inv (fun s => snd (s_world s)) (fun _ _ => True) (flat_next_in snd (fun d w => (fst w, d)) size)
    (LayerLimits size 1 1048576 NBDKIT_FUA_NATIVE true) False.
Proof. intros Hs. split; [done|by split| |]; intros; apply wp_ret; simpl; lia. Qed.

Lemma sample_below : partition_below sample_inv (fun s => snd (s_world s)) (fun _ _ => True) sample_next sample_limits False.
Proof. by apply flat_below. Qed.

Lemma sample_settings_ok : partition_settings_ok sample_limits (PartitionSettings 1 512).
Proof. split; simpl; [by left|done|apply Z.divide_1_l|lia]. Qed.

(** A partition of 16 sectors. *)
Lemma partition_presents_partition_witness :
  let s := witness_state (PartitionSettings 1 512, gpt_disk 64 79) in
  wp (partition_prepare fst (fun g w => (g, snd w)) sample_next (PartitionHandle (-1) (-1) None)) (fun '(r, h') s' =>
    r = 0 /\ DiskLayer sample_inv (fun s => windowed (snd (s_world s)) 32768) (fun s => windowed (fun _ => True) 32768)
      (partition_next fst sample_next h') (LayerLimits 8192 1 1048576 NBDKIT_FUA_NATIVE true)) s.
Proof.
  cbv zeta. eapply wp_mono.
  { apply (partition_presents_partition sample_inv (fun s => snd (s_world s)) (fun _ _ => True) fst (fun g w => (g, snd w))
      sample_next sample_limits False (PartitionHandle (-1) (-1) None)).
    - apply sample_layer.
    - apply sample_below.
    - apply sample_settings_ok.
    - by split.
    - intros x. apply gpt_disk_bytes.
    - intros (_ & [H|(o & r & H & _ & _ & Hlt)]); [by vm_compute in H|].
      replace (search _ _ _) with (Some (32768, 8192)) in H by (by vm_compute). simplify_eq. limits. lia. }
  intros [r h'] s' [_ H]. replace (opened_partition _ _ _) with (Some (32768, 8192)) in H by (by vm_compute).
  destruct H as (_ & _ & _ & [[_ []]|(-> & _ & H)]). split; [done|]. apply H, sample_layer.
Defined.

(** An entry of 2^53 sectors that starts at sector 2^53. *)
Lemma gpt_partition_overflow_witness :
  partition_prepare fst (fun g w => (g, snd w)) sample_next (PartitionHandle (-1) (-1) None)
    (witness_state (PartitionSettings 1 512, gpt_disk (2 ^ 53) (2 ^ 54 - 1))) = Crash Undefined.
Proof.
  apply (gpt_partition_overflow sample_inv (fun s => snd (s_world s)) (fun _ _ => True) fst (fun g w => (g, snd w))
      sample_next sample_limits False) with (offset := 2 ^ 62) (range := 2 ^ 62).
  - apply sample_layer.
  - apply sample_below.
  - intros [].
  - apply sample_settings_ok.
  - by split.
  - intros x. apply gpt_disk_bytes.
  - done.
  - by vm_compute.
  - by vm_compute.
  - by vm_compute.
  - lia.
  - lia.
  - by vm_compute.
Defined.

(** The answers about extents are those of the offset filter. *)
Lemma partition_extents_offset {W} (nx : nbdkit_next W) h count offs flags extents err s :
  0 <= ph_range h ->
  partition_extents nx h count offs flags extents err s = offset_extents nx (window_of h) count offs flags extents err s.
Proof. intros Hr. unfold offset_extents. simpl. by rewrite (proj2 (Z.leb_le 0 _)). Qed.

(** What [partition_prepare] finds out about the sector size. *)
Lemma choose_sector_size_run {W} (get : W -> partition_settings) set (nx : nbdkit_next W) s minimum preferred maximum s' :
  (forall g w, get (set g w) = g) -> n_block_size nx s = Ok ((0, (minimum, preferred, maximum)), s') ->
  exists s1, choose_sector_size get set nx s = Ok (true, s1) /\
    sector_size (get (s_world s1)) =
      (let ss := sector_size (get (s_world s)) in
       if ss =? 0 then if (minimum =? 512) || (minimum =? 4096) then minimum else 512 else ss).
Proof.
  intros Hgs Hbs. unfold choose_sector_size, get_settings. erewrite bind_run; [|reflexivity]. cbv zeta.
  destruct (_ =? 0); [|by eexists]. rewrite (bind_run _ _ _ _ _ Hbs). simpl.
  eexists. split; [reflexivity|]. simpl. by rewrite Hgs.
Qed.

(** The size is converted to [unsigned] before it is checked: 4G + 512 is
    taken for 512. *)
Example sectorsize_truncated g :
  partition_config g partition_sectorsize [52; 50; 57; 52; 57; 54; 55; 56; 48; 56] = Some (0, PartitionSettings (partnum g) 512).
Proof. reflexivity. Qed.
