(* ===== verification/PartitionTable.v ===== *)
(** * Partition tables read back

    The partition filter ([filters/partition]) on top of the partitioning
    plugin ([plugins/partitioning]): the filter finds in the tables that the
    plugin wrote, MBR with its chain of EBRs or GPT, the partition of every
    file, so it serves the contents of that file. *)

From stdpp Require Import functions.
From S2P Require Import Prelude NbdProtocol Extents Exports Server Connections Backend Plugin Filter Bytes Io Parse Vector Bitmap Layer ExtentsQuery Offset Serve Truncate System Regions Gpt Partitioning PartitioningDisk PartitioningServe Partition.

Implicit Types (files : list file) (f : file) (r : region buffer).

(** ** Fields of the tables *)

Lemma le4_val z : 0 <= z <= UINT32_MAX -> le_val (le 4 z) = z.
Proof. intros Hz. apply le_val_le_small. change (256 ^ Z.of_nat 4) with 4294967296. limits. lia. Qed.

Lemma sub_mbr_entry start len bootable id :
  nth 4 (mbr_entry start len bootable id) 0 = id mod 256 /\
  sub (mbr_entry start len bootable id) 8 4 = le 4 (start / SECTOR_SIZE) /\
  sub (mbr_entry start len bootable id) 12 4 = le 4 ((len + 511) / SECTOR_SIZE).
Proof.
  unfold mbr_entry. pose proof (length_le 4 (start / SECTOR_SIZE)) as H1.
  destruct (le 4 (start / SECTOR_SIZE)) as [|a0 [|a1 [|a2 [|a3 [|]]]]]; try done.
Qed.

(** What the filter reads from an entry that the plugin wrote. *)
Lemma read_mbr_entry sector i start len bootable id : 0 <= i ->
  sub sector (0x1be + i * 0x10) 16 = mbr_entry start len bootable id -> 0x1be + i * 0x10 + 16 <= Z.of_nat (length sector) ->
  is_byte id -> 0 <= start / 512 <= UINT32_MAX -> 0 <= (len + 511) / 512 <= UINT32_MAX ->
  get_mbr_partition sector i = MbrPartition id (start / 512) ((len + 511) / 512).
Proof.
  intros Hi E Hl Hid Hs Hn. destruct (sub_mbr_entry start len bootable id) as (E1 & E2 & E3). rewrite <- E in E1, E2, E3.
  unfold get_mbr_partition. cbv zeta. f_equal.
  - transitivity (nth 4 (sub sector (446 + i * 16) 16) 0); [symmetry; apply (nth_sub _ _ _ 4); lia|]. rewrite E1. apply Z.mod_small. unfold is_byte in Hid. lia.
  - rewrite sub_sub in E2 by lia. rewrite E2. by apply le4_val.
  - rewrite sub_sub in E3 by lia. rewrite E3. by apply le4_val.
Qed.

(** ** The disk that the plugin serves *)

Section Disk.
Context (gpt : bool) (files : list file) (pst : partitioning) (Hready : ready gpt files pst).
Context (d : Z -> Z) (os : Z -> os_file) (Hd : forall x, 0 <= x < disk_size gpt files -> d x = virtual_disk pst os x).
Context (g : partition_settings) (Hss : sector_size g = 512).

Notation size := (disk_size gpt files).
Notation items := (disk_regions gpt files).

Lemma disk_ok : layout_ok gpt files.
Proof. apply (rd_laid_out _ _ _ Hready). Qed.

(** The bytes of a table. *)
Lemma slice_table r b data o n : r ∈ items -> r_type r = region_data b -> buffer_data pst b = Some data ->
  0 <= o -> 0 <= n -> o + n <= r_len r -> slice d (r_start r + o) n = sub data o n.
Proof.
  intros Hin Ht Hb Ho Hn Hle. destruct (region_bounds _ _ _ disk_ok Hin) as (? & ? & ?).
  rewrite (slice_ext d (virtual_disk pst os)) by (intros; apply Hd; lia).
  rewrite (virtual_disk_slice gpt files pst Hready os r) by (done || lia). rewrite Ht, Hb. f_equal. lia.
Qed.

Definition primary_region : region buffer := Region 0 (table_size gpt files) (table_size gpt files - 1) (region_data primary_buffer).

Lemma primary_region_in : primary_region ∈ items.
Proof. unfold disk_regions, front_regions. by left. Qed.

Lemma slice_primary p o n : pt_primary pst = Some p -> 0 <= o -> 0 <= n -> o + n <= table_size gpt files -> slice d o n = sub p o n.
Proof. intros Hp Ho Hn Hle. by apply (slice_table primary_region primary_buffer p o n primary_region_in). Qed.

(** The disk consists of whole sectors. *)
Lemma disk_sectors : (512 | size) /\ 1024 <= size <= INT64_MAX.
Proof.
  pose proof disk_ok as Hlay. pose proof (layout_max _ _ Hlay) as Hmax.
  destruct (table_sectors gpt files Hmax) as (_ & Hts & _). unfold SECTOR_SIZE in Hts.
  destruct (disk_contiguous gpt files Hmax (lo_files _ _ Hlay)) as (_ & _ & _ & Hdd). split; [done|].
  pose proof (lo_some _ _ Hlay). destruct (lookup_lt_is_Some_2 files 0) as [f Hf]; [lia|].
  destruct (disk_lookup gpt files 0 f Hmax (lo_files _ _ Hlay) Hf) as (r & Hs & Hfr & _).
  destruct (region_bounds _ _ _ Hlay (fr_in _ _ _ _ Hfr)) as (? & ? & _).
  destruct Hdd as [q Hq]. unfold SECTOR_SIZE in Hq. pose proof (lo_size _ _ Hlay). lia.
Qed.

(** The other regions come after the table. *)
Lemma after_table r : r ∈ items -> r_type r <> region_data primary_buffer -> table_size gpt files <= r_start r.
Proof.
  intros [i Hi]%list_elem_of_lookup Ht. pose proof disk_ok as Hlay.
  destruct (disk_contiguous gpt files (layout_max _ _ Hlay) (lo_files _ _ Hlay)) as (_ & _ & Hc & _).
  destruct i as [|i]; [injection Hi as <-; done|].
  pose proof (contiguous_ordered _ _ 0%nat (S i) primary_region r Hc ltac:(lia) eq_refl Hi) as H. simpl in H. lia.
Qed.

(** The partition of a file, and its place. *)
Definition partition_place r : Z * Z := (r_start r, (r_len r + 511) / 512 * 512).

Lemma file_region_sectors k f r : file_region items (Z.of_nat k) f r -> files !! k = Some f ->
  (512 | r_start r) /\ 512 <= r_start r /\ 0 < r_len r /\ r_start r + (r_len r + 511) / 512 * 512 <= size /\
  r_end r = r_start r + r_len r - 1.
Proof.
  intros Hfr Hk. pose proof disk_ok as Hlay. destruct disk_sectors as [[q Hq] _].
  destruct (region_bounds _ _ _ Hlay (fr_in _ _ _ _ Hfr)) as (? & ? & ?). split; [apply Hfr|].
  destruct (fr_sector _ _ _ _ Hfr) as [m Hm]. unfold SECTOR_SIZE in Hm.
  pose proof (after_table r (fr_in _ _ _ _ Hfr) ltac:(by rewrite (fr_type _ _ _ _ Hfr))) as Hts.
  destruct (table_sectors gpt files (layout_max _ _ Hlay)) as (_ & Hts' & _). unfold SECTOR_SIZE in Hts'.
  pose proof (Z.mul_div_le (r_len r + 511) 512 ltac:(lia)). split; [lia|]. split; [lia|]. split; [|done].
  assert (r_len r <= (q - m) * 512) by lia. assert ((r_len r + 511) / 512 <= q - m); [|lia].
  apply Z.lt_succ_r, Z.div_lt_upper_bound; lia.
Qed.

End Disk.

(** A type byte that the filter does not take for a sign of something else. *)
Definition plain_id (id : Z) : Prop := id <> 0 /\ is_extended id = false /\ id <> 0xee.

(** The numbers that a partition of an MBR has: logical partitions count from
    5. *)
Definition partition_number (gpt : bool) files (k : nat) : Z :=
  if has_logical gpt files && (3 <=? Z.of_nat k) then Z.of_nat k + 2 else Z.of_nat k + 1.

Lemma mbr_sectors start len : 0 <= start -> 0 < len -> start + len <= UINT32_MAX * 512 ->
  0 <= start / 512 <= UINT32_MAX /\ 0 < (len + 511) / 512 <= UINT32_MAX.
Proof.
  intros Hs Hl Hle. pose proof (Z.div_pos start 512 Hs ltac:(lia)). pose proof (Z.mul_div_le start 512 ltac:(lia)).
  split; [lia|]. split; [apply Z.div_str_pos; lia|]. apply Z.lt_succ_r, Z.div_lt_upper_bound; lia.
Qed.

(** ** MBR *)

Section Mbr.
Context (files : list file) (pst : partitioning) (Hready : ready false files pst).
Context (d : Z -> Z) (os : Z -> os_file) (Hd : forall x, 0 <= x < disk_size false files -> d x = virtual_disk pst os x).
Context (g : partition_settings) (Hss : sector_size g = 512).

Notation size := (disk_size false files).
Notation items := (disk_regions false files).
Notation Hlay := (disk_ok false files pst Hready).

Lemma items_ranked : ranked (-2) items.
Proof. apply disk_ranked, (layout_max _ _ Hlay). Qed.

Lemma file_region_unique k f r r' : file_region items k f r -> file_region items k f r' -> r = r'.
Proof. intros H1 H2. eapply rank_unique; [apply items_ranked|apply H1|apply H2|by eapply rank_file..]. Qed.

Lemma mbr_sector_bounds r : r ∈ items -> 0 <= r_start r / 512 <= UINT32_MAX /\ 0 < (r_len r + 511) / 512 <= UINT32_MAX.
Proof.
  intros Hr. destruct (region_bounds _ _ _ Hlay Hr) as (? & ? & ?). pose proof (lo_mbr _ _ Hlay eq_refl) as Hm. unfold SECTOR_SIZE in Hm.
  apply mbr_sectors; lia.
Qed.

(** An entry of the MBR. *)
Lemma read_mbr i p start len bootable id : pt_primary pst = Some p -> length p = 512%nat -> 0 <= i <= 3 ->
  sub p (0x1be + 16 * i) 16 = mbr_entry start len bootable id -> is_byte id ->
  0 <= start / 512 <= UINT32_MAX -> 0 <= (len + 511) / 512 <= UINT32_MAX ->
  get_mbr_partition (slice d 0 1024) i = MbrPartition id (start / 512) ((len + 511) / 512).
Proof.
  intros Hp Hlp Hi E Hid Hs Hn. destruct (disk_sectors _ _ _ Hready) as [_ [H1024 _]]. eapply read_mbr_entry; [lia| |rewrite length_slice; lia|done..].
  rewrite sub_slice by lia.
  rewrite (slice_primary _ _ _ Hready d os Hd p) by (done || unfold table_size, SECTOR_SIZE; lia). rewrite <- E. f_equal. lia.
Qed.

Lemma file_id k f : files !! k = Some f -> is_byte (fi_mbr_id f).
Proof. intros Hk. pose proof (lo_files _ _ Hlay) as Hall. rewrite Forall_lookup in Hall. apply (Hall _ _ Hk). Qed.

(** The entry of a primary partition. *)
Lemma read_primary k f r : files !! k = Some f -> (k < (if has_logical false files then 3 else 4))%nat ->
  file_region items (Z.of_nat k) f r ->
  get_mbr_partition (slice d 0 1024) (Z.of_nat k) = MbrPartition (fi_mbr_id f) (r_start r / 512) ((r_len r + 511) / 512).
Proof.
  intros Hk Hk4 Hfr. pose proof (rd_tables _ _ _ Hready) as (p & Hp & Hlp & _ & Hent & _).
  destruct (Hent k f Hk Hk4) as (r' & Hfr' & E). rewrite <- (file_region_unique _ _ _ _ Hfr Hfr') in E.
  destruct (mbr_sector_bounds r (fr_in _ _ _ _ Hfr)). assert (k < 4)%nat by (destruct (has_logical false files); lia).
  eapply read_mbr; [done|done|lia|exact E|by eapply file_id|done|lia].
Qed.

Lemma find_primary_at mbr n : forall i, i <= partnum g - 1 < i + Z.of_nat n ->
  let q := get_mbr_partition mbr (partnum g - 1) in 0 < nr_sectors q -> plain_id (part_type_byte q) ->
  find_primary n g mbr i = Some (Some (start_sector q * 512, nr_sectors q * 512)).
Proof.
  induction n as [|n IH]; intros i Hi q Hn (H0 & Hext & Hee); [lia|]. cbn [find_primary]. rewrite Hss.
  destruct (Z.eqb_spec (partnum g) (i + 1)) as [E|E].
  - replace i with (partnum g - 1) in * by lia. fold q. rewrite Hext, (proj2 (Z.ltb_lt 0 _)), (proj2 (Z.eqb_neq _ 0)) by done. simpl andb.
    by rewrite (proj2 (Z.eqb_neq _ 0xee)).
  - rewrite andb_false_r. apply IH; [lia|done|done].
Qed.

(** A primary partition is found. *)
Lemma search_primary k f r : files !! k = Some f -> (k < (if has_logical false files then 3 else 4))%nat ->
  file_region items (Z.of_nat k) f r -> plain_id (fi_mbr_id f) -> partnum g = Z.of_nat k + 1 ->
  search_mbr d g size (slice d 0 1024) = Some (partition_place r).
Proof.
  intros Hk Hk4 Hfr Hid Hnum. assert (Hk4' : (k < 4)%nat) by (destruct (has_logical false files); lia).
  pose proof (read_primary k f r Hk Hk4 Hfr) as E. destruct (file_region_sectors _ _ _ Hready k f r Hfr Hk) as ([q Hq] & Hs & Hl & He & _).
  destruct (mbr_sector_bounds r (fr_in _ _ _ _ Hfr)) as [Hb1 Hb2].
  unfold search_mbr. rewrite (proj2 (Z.leb_le _ 4)) by lia. rewrite (find_primary_at _ 4 0).
  - replace (partnum g - 1) with (Z.of_nat k) by lia. rewrite E. simpl. unfold partition_place. rewrite Hq, Z.div_mul by lia. done.
  - lia.
  - replace (partnum g - 1) with (Z.of_nat k) by lia. rewrite E. simpl. lia.
  - replace (partnum g - 1) with (Z.of_nat k) by lia. by rewrite E.
Qed.

(** *** Logical partitions *)

Section Logical.
Context (Hlog : has_logical false files = true) (Hplain : forall k f, files !! k = Some f -> plain_id (fi_mbr_id f)).

Lemma many_files : (4 < length files)%nat.
Proof. unfold has_logical in Hlog. simpl in Hlog. apply Z.ltb_lt in Hlog. lia. Qed.

(** The extended partition is the fourth. *)
Lemma find_extended_partition e0 p : pt_primary pst = Some p -> length p = 512%nat -> e0 ∈ items -> 
  sub p 0x1ee 16 = mbr_entry (r_start e0) (size - r_start e0) false 0xf ->
  find_extended 4 (slice d 0 1024) 0 = Some (MbrPartition 0xf (r_start e0 / 512) ((size - r_start e0 + 511) / 512)).
Proof.
  intros Hp Hlp Hin E.
  assert (Hskip : forall k mbr, (k < 3)%nat -> mbr = slice d 0 1024 -> is_extended (part_type_byte (get_mbr_partition mbr (Z.of_nat k))) = false).
  { intros k _ Hk ->. pose proof many_files. destruct (lookup_lt_is_Some_2 files k) as [f Hf]; [lia|].
    destruct (mbr_lookup _ Hlay k f Hf) as (r & Hfr & _). rewrite (read_primary k f r Hf) by (rewrite ?Hlog; done). apply (Hplain _ _ Hf). }
  destruct (region_bounds _ _ _ Hlay Hin) as (? & ? & ?). pose proof (lo_mbr _ _ Hlay eq_refl) as Hm. unfold SECTOR_SIZE in Hm.
  destruct (mbr_sectors (r_start e0) (size - r_start e0)) as [Hb1 Hb2]; [lia..|].
  assert (E3 : get_mbr_partition (slice d 0 1024) 3 = MbrPartition 0xf (r_start e0 / 512) ((size - r_start e0 + 511) / 512)).
  { eapply read_mbr; [done|done|lia|exact E|by split|done|lia]. }
  remember (slice d 0 1024) as mbr eqn:Hmbr. cbn [find_extended].
  pose proof (Hskip 0%nat mbr ltac:(lia) eq_refl) as S0. pose proof (Hskip 1%nat mbr ltac:(lia) eq_refl) as S1.
  pose proof (Hskip 2%nat mbr ltac:(lia) eq_refl) as S2. change (Z.of_nat 0) with 0 in S0. change (Z.of_nat 1) with (0 + 1) in S1. change (Z.of_nat 2) with (0 + 1 + 1) in S2.
  rewrite S0, S1, S2, !andb_false_r. change (0 + 1 + 1 + 1) with 3. rewrite E3. simpl nr_sectors.
  by rewrite (proj2 (Z.ltb_lt 0 _)) by lia.
Qed.

Context (e0 r0 : region buffer) (ebrs : list (list Z)) (He0 : ebr_region items 3 e0 r0) (Hebrs : pt_ebr pst = Some ebrs).
Context (Hchain : forall k f, (3 <= k)%nat -> files !! k = Some f -> exists eb, ebrs !! (k - 3)%nat = Some eb /\ ebr_entries files (r_start e0) k f eb).

(** What the filter reads from the EBR of the file [j]. *)
Lemma read_ebr j f e r : (3 <= j)%nat -> files !! j = Some f -> file_region items (Z.of_nat j) f r -> ebr_region items (Z.of_nat j) e r ->
  get_mbr_partition (slice d (r_start e) 512) 0 = MbrPartition (fi_mbr_id f) ((r_start r - r_start e) / 512) ((r_len r + 511) / 512) /\
  (is_Some (files !! S j) -> exists f' e' r', files !! S j = Some f' /\ ebr_region items (Z.of_nat (S j)) e' r' /\ file_region items (Z.of_nat (S j)) f' r' /\
     r_start e < r_start e' /\ get_mbr_partition (slice d (r_start e) 512) 1 =
       MbrPartition 0xf ((r_start e' - r_start e0) / 512) ((r_end r' - r_start e' + 1 + 511) / 512) /\
     0 < (r_end r' - r_start e' + 1 + 511) / 512).
Proof.
  intros Hj Hf Hfr Her. destruct (Hchain j f Hj Hf) as (eb & Heb & e1 & r1 & Her1 & Hfr1 & Hleb & _ & E0 & E1).
  rewrite <- (file_region_unique _ _ _ _ Hfr Hfr1) in *.
  assert (e1 = e) as -> by (eapply rank_unique; [apply items_ranked|apply Her1|apply Her|by eapply rank_ebr..]).
  assert (Hsl : slice d (r_start e) 512 = eb).
  { pose proof (slice_table _ _ _ Hready d os Hd e (ebr_buffer (Z.of_nat j - 3)) eb 0 512 (er_in _ _ _ _ Her) (er_type _ _ _ _ Her)) as H.
    rewrite Z.add_0_r in H. rewrite H; [by apply sub_all; rewrite Hleb| |lia|lia|rewrite (er_len _ _ _ _ Her); done].
    simpl. rewrite Hebrs. simpl. rewrite <- Heb. f_equal. lia. }
  rewrite Hsl. destruct (region_bounds _ _ _ Hlay (fr_in _ _ _ _ Hfr)) as (? & ? & _).
  destruct (region_bounds _ _ _ Hlay (er_in _ _ _ _ Her)) as (? & _ & Hee). pose proof (er_before _ _ _ _ Her) as Hbef. unfold SECTOR_SIZE in Hbef.
  pose proof (lo_mbr _ _ Hlay eq_refl) as Hm. unfold SECTOR_SIZE in Hm. split.
  - destruct (mbr_sectors (r_start r - r_start e) (r_len r)) as [Hb1 Hb2]; [lia..|].
    eapply read_mbr_entry; [lia|exact E0|rewrite Hleb; lia|by eapply file_id|done|lia].
  - intros [f' Hf']. rewrite Hf' in E1. destruct E1 as (e' & r' & Her' & Hfr' & E1). exists f', e', r'. do 3 (split; [done|]).
    pose proof (rank_after _ Hlay e e' _ _ (er_in _ _ _ _ Her) (er_in _ _ _ _ Her') (rank_ebr _ _ _ _ Her) (rank_ebr _ _ _ _ Her') ltac:(lia)) as Hord.
    destruct (region_bounds _ _ _ Hlay (er_in _ _ _ _ Her')) as (? & _ & _). pose proof (er_before _ _ _ _ Her') as Hbef'. unfold SECTOR_SIZE in Hbef'.
    destruct (region_bounds _ _ _ Hlay (fr_in _ _ _ _ Hfr')) as (? & ? & ?). pose proof (er_len _ _ _ _ Her) as Hle. unfold SECTOR_SIZE in Hle.
    assert (r_start e0 <= r_start e).
    { destruct (decide (j = 3%nat)) as [-> |]; [|].
      - assert (e0 = e) as -> ; [|lia]. eapply rank_unique; [apply items_ranked|apply He0|apply Her|by eapply rank_ebr..].
      - pose proof (rank_after _ Hlay e0 e _ _ (er_in _ _ _ _ He0) (er_in _ _ _ _ Her) (rank_ebr _ _ _ _ He0) (rank_ebr _ _ _ _ Her) ltac:(lia)).
        destruct (region_bounds _ _ _ Hlay (er_in _ _ _ _ He0)) as (? & ? & ?). lia. }
    destruct (region_bounds _ _ _ Hlay (er_in _ _ _ _ He0)) as (? & ? & ?).
    split; [lia|]. destruct (mbr_sectors (r_start e' - r_start e0) (r_end r' - r_start e' + 1)) as [Hb1 Hb2]; [lia..|].
    split; [|lia]. eapply read_mbr_entry; [lia|exact E1|rewrite Hleb; lia|by split|done|lia].
Qed.

(** The chain of EBRs leads to the partition of the file [k]. *)
Lemma ebr_chain k f r m : files !! k = Some f -> file_region items (Z.of_nat k) f r -> partnum g = Z.of_nat k + 2 ->
  forall j fuel fj rj e, (3 <= j)%nat -> (j + m = k)%nat -> (m < fuel)%nat -> files !! j = Some fj ->
  file_region items (Z.of_nat j) fj rj -> ebr_region items (Z.of_nat j) e rj ->
  ebr_search d g size fuel (r_start e0 / 512) ((size - r_start e0 + 511) / 512) (Z.of_nat j + 2) (r_start e) = Some (partition_place r).
Proof.
  intros Hk Hfr Hnum. destruct (er_sector _ _ _ _ He0) as [q0 Hq0]. destruct (disk_sectors _ _ _ Hready) as [[qs Hqs] _].
  unfold SECTOR_SIZE in Hq0. assert (En : (size - r_start e0 + 511) / 512 = qs - q0) by (symmetry; apply Z.div_unique with 511; lia).
  assert (E0 : r_start e0 / 512 = q0) by (rewrite Hq0; by apply Z.div_mul). rewrite En, E0. clear En E0.
  induction m as [|m IH]; intros j fuel fj rj e Hj Hjk Hm Hfj Hrj Her; (destruct fuel as [|fuel]; [lia|]); cbn [ebr_search]; rewrite Hss.
  all: destruct (region_bounds _ _ _ Hlay (er_in _ _ _ _ Her)) as (He1 & _ & _); destruct (er_sector _ _ _ _ Her) as [qe Hqe].
  all: destruct (file_region_sectors _ _ _ Hready j fj rj Hrj Hfj) as ([q Hq] & Hs & Hl & He & _).
  all: pose proof (er_before _ _ _ _ Her) as Hbef; unfold SECTOR_SIZE in Hqe, Hbef.
  all: destruct (region_bounds _ _ _ Hlay (fr_in _ _ _ _ Hrj)) as (_ & Hrb & _).
  all: pose proof (after_table _ _ _ Hready e (er_in _ _ _ _ Her) ltac:(by rewrite (er_type _ _ _ _ Her))) as Hee.
  all: unfold table_size, SECTOR_SIZE in Hee.
  all: change (512 - 1) with (2 ^ 9 - 1); rewrite land_pred_pow2, Hqe, Z.mod_mul by lia; rewrite <- Hqe; cbn [negb orb Z.eqb].
  all: rewrite (proj2 (Z.ltb_ge _ 512)), (proj2 (Z.leb_gt _ (r_start e))) by lia; cbn [orb].
  all: destruct (read_ebr j fj e rj Hj Hfj Hrj Her) as [R0 R1].
  - assert (j = k) as -> by lia. assert (rj = r) as -> by (rewrite Hk in Hfj; simplify_eq; by eapply file_region_unique).
    rewrite Hnum, Z.eqb_refl, R0. simpl start_sector. simpl nr_sectors.
    replace ((r_start r - r_start e) / 512) with (q - qe) by (apply Z.div_unique with 0; lia).
    replace (r_start e + (q - qe) * 512) with (r_start r) by lia.
    rewrite (proj2 (Z.leb_gt _ _)), (proj2 (Z.ltb_ge _ _)) by lia. done.
  - rewrite (proj2 (Z.eqb_neq _ _)) by lia. destruct R1 as (f' & e' & r' & Hf' & Her' & Hfr' & Hlt & R1 & Hpos).
    { apply lookup_lt_is_Some_2. apply lookup_lt_Some in Hk. lia. }
    rewrite R1. simpl start_sector. simpl nr_sectors. destruct (er_sector _ _ _ _ Her') as [q' Hq']. unfold SECTOR_SIZE in Hq'.
    rewrite (proj2 (Z.eqb_neq ((_ + 511) / 512) 0)), andb_false_r by lia.
    replace ((r_start e' - r_start e0) / 512) with (q' - q0) by (apply Z.div_unique with 0; lia).
    replace ((q0 + (q' - q0)) * 512) with (r_start e') by lia. rewrite (proj2 (Z.leb_gt _ _)) by lia.
    replace (Z.of_nat j + 2 + 1) with (Z.of_nat (S j) + 2) by lia. eapply IH; [lia..|exact Hf'|exact Hfr'|exact Her'].
Qed.

End Logical.

(** The partition of every file is found. *)
Lemma search_mbr_file k f r : files !! k = Some f -> file_region items (Z.of_nat k) f r ->
  (forall i f, files !! i = Some f -> plain_id (fi_mbr_id f)) -> (has_logical false files = false -> (k < 4)%nat) ->
  partnum g = partition_number false files k -> search_mbr d g size (slice d 0 1024) = Some (partition_place r).
Proof.
  intros Hk Hfr Hplain Hfew Hnum. unfold partition_number in Hnum.
  destruct (has_logical false files) eqn:Hlog; [destruct (Z.leb_spec 3 (Z.of_nat k))|]; simpl in Hnum.
  - pose proof (rd_tables _ _ _ Hready) as (p & Hp & Hlp & _ & _ & Htab). destruct (Htab Hlog) as (e0 & r0 & ebrs & He0 & Hext & Hebrs & _ & Hchain).
    unfold search_mbr. rewrite (proj2 (Z.leb_gt _ 4)) by lia. rewrite (find_extended_partition Hlog Hplain e0 p Hp Hlp (er_in _ _ _ _ He0) Hext).
    simpl start_sector. simpl nr_sectors. rewrite Hss. destruct (er_sector _ _ _ _ He0) as [q0 Hq0]. unfold SECTOR_SIZE in Hq0.
    replace (r_start e0 / 512 * 512) with (r_start e0) by (rewrite Hq0, Z.div_mul; lia).
    pose proof (many_files Hlog). destruct (lookup_lt_is_Some_2 files 3) as [f3 Hf3]; [lia|].
    destruct (mbr_lookup _ Hlay 3 f3 Hf3) as (r3 & Hfr3 & He3). rewrite Hlog in He3. destruct (He3 eq_refl) as (e3 & Her3).
    assert (e3 = e0) as -> by (eapply rank_unique; [apply items_ranked|apply Her3|apply He0|by eapply rank_ebr..]).
    apply (ebr_chain e0 r0 ebrs He0 Hebrs Hchain k f r (k - 3) Hk Hfr ltac:(lia) 3 _ f3 r3 e0); [lia..|done|done|done].
  - apply (search_primary k f r); [done|rewrite Hlog; lia|done|by eapply Hplain|lia].
  - apply (search_primary k f r); [done|rewrite Hlog; auto|done|by eapply Hplain|lia].
Qed.
End Mbr.

(** ** GPT *)

(** Fields of the entries and of the header. *)
Lemma le8_val z : 0 <= z <= UINT64_MAX -> le_val (le 8 z) = z.
Proof. intros Hz. apply le_val_le_small. change (256 ^ Z.of_nat 8) with 18446744073709551616. limits. lia. Qed.

Lemma sub_mid (a b c : list Z) o n : Z.of_nat (length a) = o -> Z.of_nat (length b) = n -> sub (a ++ b ++ c) o n = b.
Proof. intros <- Hn. rewrite sub_app_r, Z.sub_diag, sub_app_l by lia. by apply sub_all. Qed.

Lemma gpt_header_fields size n pt : 0 <= GPT_PTA_SIZE n <= UINT32_MAX ->
  let h := create_gpt_partition_header size n pt true in
  sub h 0 8 = GPT_SIGNATURE /\ le_val (sub h 72 8) = 2 /\ le_val (sub h 80 4) = GPT_PTA_SIZE n /\ le_val (sub h 84 4) = 128.
Proof.
  intros Hn. unfold create_gpt_partition_header. cbv zeta. set (crc := efi_crc32 (gpt_header_bytes _)). set (h := gpt_header_of _ _ _ _ _).
  unfold gpt_header_bytes.
  set (a := g_signature h ++ g_revision h ++ le 4 (g_header_size h) ++ le 4 (g_crc h) ++ le 4 (g_reserved h) ++
    le 8 (g_current_lba h) ++ le 8 (g_backup_lba h) ++ le 8 (g_first_usable_lba h) ++ le 8 (g_last_usable_lba h) ++ g_guid h).
  set (c := le 4 (g_crc_partitions h) ++ [0; 0; 0; 0]).
  assert (Ha : length a = 72%nat) by (subst a; by rewrite !length_app, !length_le).
  match goal with |- sub ?l 0 8 = _ /\ _ =>
    replace l with (a ++ le 8 2 ++ le 4 (GPT_PTA_SIZE n) ++ le 4 128 ++ c) by (subst a c h; cbn [g_partition_entries_lba g_nr_partition_entries g_size_partition_entry gpt_header_of]; by rewrite <- !app_assoc) end.
  split; [|split; [|split]].
  - rewrite sub_app_l by lia. subst a. by rewrite sub_app_l.
  - rewrite sub_mid by (rewrite ?length_le; lia). by apply le8_val.
  - rewrite app_assoc, sub_mid by (rewrite ?length_app, ?length_le; lia). by apply le4_val.
  - rewrite !app_assoc, <- (app_assoc _ _ c), sub_mid by (rewrite ?length_app, ?length_le; lia). by apply le4_val.
Qed.

Lemma gpt_block_fields r f b : length (fi_guid f) = 16%nat -> length (fi_type_guid f) = 16%nat ->
  0 <= r_start r / 512 <= UINT64_MAX -> 0 <= r_end r / 512 <= UINT64_MAX ->
  get_gpt_partition (gpt_entry_block r f b) = (fi_type_guid f, r_start r / 512, r_end r / 512).
Proof.
  intros Hg Ht Hs He. unfold get_gpt_partition, gpt_entry_block. set (e := gpt_entry_bytes _).
  assert (Hl : Z.of_nat (length e) = 56) by (subst e; unfold gpt_entry_bytes; unfold gpt_entry_of; cbn [g_partition_type_guid g_unique_guid g_first_lba g_last_lba g_attributes]; rewrite !length_app, !length_le, Hg, Ht; lia).
  assert (Hin : forall o n, 0 <= o -> 0 <= n -> o + n <= 56 ->
    sub (splice (splice (memset 0 GPT_PT_ENTRY_SIZE) e 0) (gpt_name (fi_filename f)) gpt_entry_name) o n = sub e o n).
  { intros o n Ho Hn Hle. pose proof (length_gpt_name (fi_filename f)). unfold GPT_PT_ENTRY_SIZE, gpt_entry_name.
    assert (Hz : length (memset 0 128) = 128%nat) by done.
    rewrite sub_splice_other by (rewrite ?length_splice, ?Hz; lia).
    rewrite <- (sub_splice_same (memset 0 128) e 0 56) at 2 by (rewrite ?Hz; lia). by rewrite sub_sub by lia. }
  rewrite !Hin by lia. subst e. unfold gpt_entry_bytes, gpt_entry_of, SECTOR_SIZE. cbn [g_partition_type_guid g_unique_guid g_first_lba g_last_lba g_attributes].
  rewrite sub_app_l, sub_all by lia. rewrite (app_assoc (fi_type_guid f)), sub_mid by (rewrite ?length_app, ?length_le; lia).
  rewrite (app_assoc _ (le 8 _)), sub_mid by (rewrite ?length_app, ?length_le; lia). by rewrite !le8_val.
Qed.

Section Gpt.
Context (files : list file) (pst : partitioning) (Hready : ready true files pst) (Hfew : Z.of_nat (length files) <= 2 ^ 24).
Context (d : Z -> Z) (os : Z -> os_file) (Hd : forall x, 0 <= x < disk_size true files -> d x = virtual_disk pst os x).
Context (g : partition_settings) (Hss : sector_size g = 512).

Notation size := (disk_size true files).
Notation items := (disk_regions true files).
Notation Hlay := (disk_ok true files pst Hready).
Notation n := (Z.of_nat (length files)).

Lemma gpt_sizes : 128 <= GPT_PTA_SIZE n <= UINT32_MAX /\ n <= GPT_PTA_SIZE n <= 2 ^ 24 + 128 /\
  table_size true files = 1024 + 128 * GPT_PTA_SIZE n /\ table_size true files + 512 + 128 * GPT_PTA_SIZE n + 1 <= size.
Proof.
  pose proof (lo_some _ _ Hlay) as Hsome. destruct (table_sectors true files (layout_max _ _ Hlay)) as (_ & _ & _ & _ & E & Hn1 & Hn2).
  specialize (Hn2 ltac:(lia)). unfold GPT_PT_ENTRY_SIZE, SECTOR_SIZE in E.
  assert (Ht : table_size true files = 1024 + 128 * GPT_PTA_SIZE n) by (unfold table_size, SECTOR_SIZE; lia).
  destruct (disk_contiguous true files (layout_max _ _ Hlay) (lo_files _ _ Hlay)) as (Hf & _).
  assert (Hs : size = regions_end 0 (front_regions true files) + backup_size files).
  { unfold disk_size, disk_regions. by rewrite regions_end_app. }
  assert (Hb : backup_size files = 128 * GPT_PTA_SIZE n + 512) by (unfold backup_size, SECTOR_SIZE; lia).
  split; [limits; lia|]. split; [lia|]. split; [done|].
  destruct (lookup_lt_is_Some_2 files 0) as [f Hf0]; [lia|].
  assert (Hfront : table_size true files < regions_end 0 (front_regions true files)); [|lia].
  pose proof (Forall_lookup_1 _ _ _ _ (lo_files _ _ Hlay) Hf0) as Hfo.
  destruct (partitions_lookup (has_logical true files) files 0 (table_size true files) 0 f) as (r & Hr & Hfr & _); [lia|apply Hlay| |done|].
  { by apply table_sectors, (layout_max _ _ Hlay). }
  assert (Hin : r ∈ front_regions true files) by (unfold front_regions; right; apply (fr_in _ _ _ _ Hfr)).
  apply list_elem_of_lookup in Hin as [i Hi]. destruct (contiguous_lookup _ _ _ _ Hf Hi) as (_ & ? & _). lia.
Qed.

(** The primary table. *)
Lemma gpt_bytes : exists p, pt_primary pst = Some p /\ (forall o m, 0 <= o -> 0 <= m -> o + m <= table_size true files -> slice d o m = sub p o m) /\
  gpt_entries files p (2 * SECTOR_SIZE) /\
  sub p SECTOR_SIZE sizeof_gpt_header = create_gpt_partition_header size n (sub p (2 * SECTOR_SIZE) (GPT_PT_ENTRY_SIZE * GPT_PTA_SIZE n)) true.
Proof.
  pose proof (rd_tables _ _ _ Hready) as (p & q & Hp & _ & _ & _ & _ & _ & Hent & _ & Hh & _). exists p. split; [done|].
  split; [|done]. intros o m Ho Hm Hle. by apply (slice_primary _ _ _ Hready d os Hd).
Qed.

Lemma gpt_recognised : is_gpt d g size = true /\ get_gpt_header (slice d (sector_size g) (sector_size g)) = Some (GPT_PTA_SIZE n, 128).
Proof.
  destruct gpt_sizes as (Hn & Hn' & Ht & Hs). destruct gpt_bytes as (p & _ & Hsl & _ & Hh). unfold sizeof_gpt_header, SECTOR_SIZE in Hh.
  set (pt := sub p (2 * 512) _) in Hh. destruct (gpt_header_fields size n pt ltac:(lia)) as (E1 & E2 & E3 & E4). rewrite <- Hh in E1, E2, E3, E4.
  rewrite !sub_sub in E1, E2, E3, E4 by lia. change (512 + 0) with 512 in E1. rewrite Hss. split.
  - unfold is_gpt. rewrite Hss, Hsl, E1 by lia. rewrite bool_decide_eq_true_2 by done. rewrite andb_true_r. apply Z.leb_le. lia.
  - unfold get_gpt_header. rewrite Hsl by lia. rewrite !sub_sub, E2, E3, E4 by lia. done.
Qed.

(** The entry of the file [k]. *)
Lemma gpt_entry_found k f r : files !! k = Some f -> file_region items (Z.of_nat k) f r ->
  gpt_entry_at d g 128 (Z.of_nat k) = (fi_type_guid f, r_start r / 512, r_end r / 512).
Proof.
  intros Hk Hfr. destruct gpt_sizes as (Hn & Hn' & Ht & Hs). destruct gpt_bytes as (p & _ & Hsl & [Hent _] & _).
  destruct (Hent k f Hk) as (r' & Hfr' & E). unfold SECTOR_SIZE, GPT_PT_ENTRY_SIZE in E.
  assert (r' = r) as ->.
  { eapply rank_unique; [apply disk_ranked, (layout_max _ _ Hlay)|apply Hfr'|apply Hfr|by eapply rank_file..]. }
  pose proof (lookup_lt_Some _ _ _ Hk) as Hlt. pose proof (lo_files _ _ Hlay) as Hall. rewrite Forall_lookup in Hall. pose proof (Hall _ _ Hk) as Hfo.
  destruct (region_bounds _ _ _ Hlay (fr_in _ _ _ _ Hfr)) as (Hb1 & Hb2 & Hb3). pose proof (lo_size _ _ Hlay) as Hmax.
  unfold gpt_entry_at. rewrite Hss. change (512 / 128) with 4.
  pose proof (Z.div_mod (Z.of_nat k) 4 ltac:(lia)) as Hdm. pose proof (Z.mod_pos_bound (Z.of_nat k) 4 ltac:(lia)).
  rewrite u32_small by (limits; lia). replace 512 with (Z.of_nat k mod 4 * 128 + (512 - Z.of_nat k mod 4 * 128)) at 2 by lia.
  rewrite drop_slice by lia. replace (512 * (2 + Z.of_nat k / 4) + Z.of_nat k mod 4 * 128) with (1024 + 128 * Z.of_nat k) by lia.
  assert (Hg : forall m, 128 <= m -> get_gpt_partition (slice d (1024 + 128 * Z.of_nat k) m) = get_gpt_partition (slice d (1024 + 128 * Z.of_nat k) 128)).
  { intros m Hm. unfold get_gpt_partition. by rewrite !sub_slice by lia. }
  rewrite Hg by lia. rewrite Hsl by lia. change (2 * 512) with 1024 in E. rewrite E.
  pose proof (Z.div_pos (r_start r) 512 Hb1 ltac:(lia)). pose proof (Z.div_pos (r_end r) 512 ltac:(lia) ltac:(lia)).
  pose proof (Z.mul_div_le (r_start r) 512 ltac:(lia)). pose proof (Z.mul_div_le (r_end r) 512 ltac:(lia)).
  apply gpt_block_fields; [apply Hfo|apply Hfo|limits; lia..].
Qed.

Lemma search_gpt_file k f r : files !! k = Some f -> file_region items (Z.of_nat k) f r -> fi_type_guid f <> memset 0 16 ->
  partnum g = Z.of_nat k + 1 -> search_gpt d g size (slice d (sector_size g) (sector_size g)) = Some (partition_place r).
Proof.
  intros Hk Hfr Hguid Hnum. destruct gpt_sizes as (Hn & Hn' & Ht & Hs). pose proof (lookup_lt_Some _ _ _ Hk) as Hlt.
  unfold search_gpt. rewrite (proj2 gpt_recognised), Hss. rewrite (proj2 (Z.ltb_ge _ (partnum g))) by lia. rewrite (proj2 (Z.ltb_ge size _)) by lia.
  change (_ || false) with false. cbv iota. unfold gpt_place. replace (partnum g - 1) with (Z.of_nat k) by lia.
  rewrite (gpt_entry_found k f r Hk Hfr), bool_decide_eq_false_2, Hss by done. unfold partition_place.
  destruct (file_region_sectors _ _ _ Hready k f r Hfr Hk) as ([q Hq] & ? & Hl & He & Hend). pose proof (lo_size _ _ Hlay) as Hmax.
  assert (Ec : 1 + r_end r / 512 - r_start r / 512 = (r_len r + 511) / 512).
  { rewrite Hend, Hq, Z.div_mul by lia. replace (q * 512 + r_len r - 1) with (r_len r - 1 + q * 512) by lia. rewrite Z.div_add by lia.
    replace (r_len r + 511) with (r_len r - 1 + 1 * 512) by lia. rewrite Z.div_add by lia. lia. }
  rewrite Ec. pose proof (Z.div_pos (r_len r + 511) 512 ltac:(lia) ltac:(lia)). rewrite Hq, Z.div_mul by lia.
  rewrite (u64_small (_ / _)), !u64_small, !i64_small by (limits; lia). done.
Qed.
End Gpt.

(** ** The filter on the plugin's disk *)

(** What the filter needs to know about the files: their partitions are not
    taken for something else, and a file does not look like a GPT. *)
Definition recognisable (gpt : bool) files (d : Z -> Z) : Prop :=
  if gpt then Z.of_nat (length files) <= 2 ^ 24 /\ Forall (fun f => fi_type_guid f <> memset 0 16) files
  else Forall (fun f => plain_id (fi_mbr_id f)) files /\ slice d 512 8 <> GPT_SIGNATURE.

Lemma mbr_signature files pst d os : ready false files pst ->
  (forall x, 0 <= x < disk_size false files -> d x = virtual_disk pst os x) -> is_mbr d = true.
Proof.
  intros Hready Hd. pose proof (rd_tables _ _ _ Hready) as (p & Hp & Hlp & Hsig & _).
  pose proof (slice_primary _ _ _ Hready d os Hd p 0x1fe 2 Hp ltac:(lia) ltac:(lia) ltac:(unfold table_size, SECTOR_SIZE; lia)) as H.
  rewrite Hsig in H. assert (E : forall i, 0 <= i < 2 -> d (0x1fe + i) = nth (Z.to_nat i) [0x55; 0xaa] 0).
  { intros i Hi. by rewrite <- H, nth_slice by lia. }
  unfold is_mbr. pose proof (E 0 ltac:(lia)) as E0. pose proof (E 1 ltac:(lia)) as E1. change (0x1fe + 0) with 0x1fe in E0. change (0x1fe + 1) with 0x1ff in E1. by rewrite E0, E1.
Qed.

Lemma search_file gpt files pst d os g k f r : ready gpt files pst ->
  (forall x, 0 <= x < disk_size gpt files -> d x = virtual_disk pst os x) -> recognisable gpt files d ->
  sector_size g = 512 -> partnum g = partition_number gpt files k ->
  files !! k = Some f -> file_region (disk_regions gpt files) (Z.of_nat k) f r ->
  search d g (disk_size gpt files) = Some (partition_place r).
Proof.
  intros Hready Hd Hrec Hss Hnum Hk Hfr. unfold search. destruct gpt.
  - destruct Hrec as [Hfew Hguid]. rewrite Forall_lookup in Hguid. rewrite (proj1 (gpt_recognised files pst Hready Hfew d os Hd g Hss)).
    by eapply search_gpt_file; [..|exact (Hguid _ _ Hk)|].
  - destruct Hrec as [Hplain Hgpt]. rewrite Forall_lookup in Hplain. unfold is_gpt. rewrite Hss, bool_decide_eq_false_2, andb_false_r by done.
    rewrite (mbr_signature files pst d os Hready Hd). change (2 * 512) with 1024. eapply search_mbr_file; try done.
    intros Hlog. apply lookup_lt_Some in Hk. unfold has_logical in Hlog. simpl in Hlog. apply Z.ltb_ge in Hlog. lia.
Qed.

(** What [partition_prepare] makes of the disk. *)
Lemma file_opened gpt files pst d os g k f r : ready gpt files pst ->
  (forall x, 0 <= x < disk_size gpt files -> d x = virtual_disk pst os x) -> recognisable gpt files d ->
  sector_size g = 512 -> partnum g = partition_number gpt files k ->
  files !! k = Some f -> file_region (disk_regions gpt files) (Z.of_nat k) f r ->
  opened_partition d g (disk_size gpt files) = Some (partition_place r) /\ ~ table_overflows d g (disk_size gpt files).
Proof.
  intros Hready Hd Hrec Hss Hnum Hk Hfr. pose proof (search_file gpt files pst d os g k f r Hready Hd Hrec Hss Hnum Hk Hfr) as Hs.
  destruct (disk_sectors _ _ _ Hready) as [_ Hds]. destruct (file_region_sectors _ _ _ Hready k f r Hfr Hk) as (_ & ? & Hl & He & _).
  pose proof (Z.div_pos (r_len r + 511) 512 ltac:(lia) ltac:(lia)). split.
  - unfold opened_partition. rewrite Hss, Hs. unfold partition_place. by rewrite (proj2 (Z.ltb_ge _ _)), !(proj2 (Z.leb_le _ _)) by lia.
  - intros (Hgpt & [Hbig|(o & len & Hs' & _ & _ & Hov)]).
    + destruct gpt; [|destruct Hrec as [_ Hno]; unfold is_gpt in Hgpt; rewrite Hss, bool_decide_eq_false_2, andb_false_r in Hgpt; done].
      destruct Hrec as [Hfew _]. destruct (gpt_recognised files pst Hready Hfew d os Hd g Hss) as [_ Hh].
      destruct (gpt_sizes files pst Hready Hfew) as (_ & Hn & _). rewrite Hss in Hbig, Hh. unfold gpt_nr_entries in Hbig.
      unfold get_gpt_header in Hh. destruct (negb _); [done|]. injection Hh as Hh _. rewrite sub_slice in Hh by lia. rewrite Hh in Hbig. limits. lia.
    + rewrite Hs in Hs'. unfold partition_place in Hs'. injection Hs' as <- <-. lia.
Qed.

(** The size of the partition. *)
Lemma file_partition_size gpt files k f r : file_region (disk_regions gpt files) (Z.of_nat k) f r -> 0 <= r_start r -> 0 < fi_size f ->
  let size := (fi_size f + 511) / 512 * 512 in fi_size f <= size < fi_size f + 512 /\ partition_end r = r_start r + size.
Proof.
  intros Hfr Hs Hl size. assert (Hsz : fi_size f <= size < fi_size f + 512).
  { subst size. pose proof (Z.div_mod (fi_size f + 511) 512 ltac:(lia)). pose proof (Z.mod_pos_bound (fi_size f + 511) 512 ltac:(lia)). lia. }
  split; [done|]. unfold partition_end. rewrite (fr_len _ _ _ _ Hfr). destruct (fr_sector _ _ _ _ Hfr) as [q Hq].
  destruct (padded_spec (r_start r + fi_size f) SECTOR_SIZE ltac:(lia) sector_alignment ltac:(done)) as (Hp & [m Hm]). unfold SECTOR_SIZE in *.
  subst size. set (c := (fi_size f + 511) / 512) in *. lia.
Qed.

Section Filter.
Context {W : Type} (inv : st W -> Prop) (disk : st W -> Z -> Z) (settled : st W -> Z -> Prop).
Context (get : W -> partition_settings) (set : partition_settings -> W -> W).
Context (nx : nbdkit_next W) (l : layer_limits) (fails : Prop).

(** C9: the partition filter on top of the partitioning plugin gives back each
    file: for every file, MBR (primary or logical) or GPT, when [partnum] is
    the number of its partition, [partition_prepare] finds it in the tables
    that the plugin wrote (unless a read fails), and the layer that it
    presents has the contents of the file, followed by the zeroes that pad it
    to whole sectors.  The filter is configured for 512-byte sectors, which
    the plugin's tables have, and the tables must be [recognisable]. *)
Theorem partition_of_file gpt files pst os k f h s : let g := get (s_world s) in
  ReadLayer inv disk settled nx l -> partition_below inv disk settled nx l fails -> partition_settings_ok l g ->
  inv s -> (forall x, is_byte (disk s x)) ->
  ready gpt files pst -> l_size l = disk_size gpt files -> (forall x, 0 <= x < l_size l -> disk s x = virtual_disk pst os x) ->
  recognisable gpt files (disk s) -> sector_size g = 512 -> files !! k = Some f -> partnum g = partition_number gpt files k ->
  wp (partition_prepare get set nx h) (fun '(r, h') s' =>
    same_disk inv disk settled s s' /\
    (r = -1 /\ fails \/
     r = 0 /\ exists offset, let size := (fi_size f + 511) / 512 * 512 in
       ReadLayer inv (fun s => windowed (disk s) offset) (fun s => windowed (settled s) offset) (partition_next get nx h')
         (LayerLimits size (l_minimum l) (l_maximum l) (l_can_fua l) (l_can_fast_zero l)) /\
       slice (windowed (disk s') offset) 0 size = slice (of_data (os (fi_fd f))) 0 (fi_size f) ++ memset 0 (size - fi_size f))) s.
Proof.
  intros g HL Hbelow Hset Hi Hb Hready Hsize Hd Hrec Hss Hk Hnum. rewrite Hsize in Hd.
  destruct (partition_contents (fun w : partitioning_world => w) gpt files pst Hready (PartitioningWorld pst os) k f Hk) as (r & Hfr & Hdata & Hpad).
  destruct (file_opened gpt files pst (disk s) os g k f r Hready Hd Hrec Hss Hnum Hk Hfr) as [Ho Hov]. rewrite <- Hsize in Ho, Hov.
  destruct (file_region_sectors _ _ _ Hready k f r Hfr Hk) as (_ & ? & Hl & He & _). unfold partition_place in Ho. rewrite (fr_len _ _ _ _ Hfr) in *.
  destruct (file_partition_size gpt files k f r Hfr ltac:(lia) Hl) as [Hsz Hend]. set (size := (fi_size f + 511) / 512 * 512) in *.
  eapply wp_mono; [by apply (prepare_presents inv disk settled get set nx l fails h s HL Hbelow Hset Hi Hb)|].
  - intros [v h'] s' [Hsame Hv]. split; [done|]. fold g in Hv. rewrite Ho in Hv. destruct Hv as (_ & _ & _ & [[-> Hf]|(-> & HR & _)]); [by left|].
    right. split; [done|]. exists (r_start r). split; [exact HR|].
    replace size with (fi_size f + (size - fi_size f)) at 1 by lia. rewrite slice_app by lia.
    assert (Hbyte : forall i, 0 <= i < size -> windowed (disk s') (r_start r) i = virtual_disk pst os (r_start r + i)).
    { intros i Hi'. unfold windowed. destruct Hsame as [_ Hsame]. rewrite (proj1 (Hsame _ I)), Hd by lia. f_equal. lia. }
    f_equal.
    + apply slice_ext. intros i Hi'. rewrite Hbyte by lia. apply (Hdata i). lia.
    + rewrite (slice_ext _ (fun _ => 0)); [apply slice_const; auto with lia|]. intros i Hi'. rewrite Hbyte by lia. apply (Hpad i). lia.
Qed.
End Filter.

(** *** Witness

    Five files, so there is an extended partition with two logical ones. *)
Definition sample_mbr_file (n size : Z) : file := File [65; 48 + n] n size (memset n 16) 512 0x83 default_guid.
Definition sample_mbr_files : list file :=
  [sample_mbr_file 3 1000; sample_mbr_file 4 4096; sample_mbr_file 5 100; sample_mbr_file 6 512; sample_mbr_file 7 700].
Definition sample_mbr : partitioning := with_parttype PARTTYPE_MBR (with_files (Vec sample_mbr_files 5) (partitioning_load 1)).
Definition sample_mbr_ready : partitioning := match create_virtual_disk_layout sample_mbr [] with Ok ((_, pst), _) => pst | Crash _ => sample_mbr end.
Definition sample_mbr_os (fd : Z) : os_file := OsFile (fun _ => fd mod 256) 4096 [].
Definition sample_mbr_disk : Z -> Z := virtual_disk sample_mbr_ready sample_mbr_os.

Lemma sample_mbr_is_ready : ready false sample_mbr_files sample_mbr_ready.
Proof.
  assert (Hc : configured false sample_mbr).
  { split; [done| |done..]. split; [|simpl; lia|simpl; lia|by vm_compute|by vm_compute].
    repeat constructor; try done; exists 9; split; done || lia. }
  pose proof (runs_get_ready false sample_mbr Hc []) as Hr. apply hwp_ok in Hr.
  destruct Hr as ([o pst] & mem & E & Hr). unfold sample_mbr_ready. rewrite E. destruct o as [[]|]; [apply Hr|].
  assert (match create_virtual_disk_layout sample_mbr [] with Ok ((Some _, _), _) => true | _ => false end = true) as Hok by (by vm_compute).
  by rewrite E in Hok.
Qed.

(** The bytes of a disk are bytes. *)
Lemma virtual_disk_bytes pst os x : (forall fd y, is_byte (of_data (os fd) y)) ->
  (forall b data, buffer_data pst b = Some data -> Forall is_byte data) -> is_byte (virtual_disk pst os x).
Proof.
  intros Hos Hb. unfold virtual_disk, region_byte. destruct (find_region _ _) as [r|]; [|by split].
  destruct (r_type r) as [i|b|]; [destruct (_ !! _); [apply Hos|by split]| |by split].
  destruct (buffer_data pst b) as [data|] eqn:E; [|by split]. specialize (Hb _ _ E).
  destruct (decide (Z.to_nat (x - r_start r) < length data)%nat); [by apply Forall_nth|]. rewrite nth_overflow by lia. by split.
Qed.

Lemma sample_mbr_bytes x : is_byte (sample_mbr_disk x).
Proof.
  apply virtual_disk_bytes.
  - intros fd y. unfold is_byte. simpl. pose proof (Z.mod_pos_bound fd 256). lia.
  - assert (Hc : forall l, forallb (fun c => (0 <=? c) && (c <=? 255)) l = true -> Forall is_byte l).
    { intros l Hl. apply Forall_forall. intros c Hc%list_elem_of_In. rewrite forallb_forall in Hl. specialize (Hl c Hc).
      apply andb_prop in Hl as [H1%Z.leb_le H2%Z.leb_le]. by split. }
    intros [| |i] data; unfold buffer_data.
    + intros E. apply Hc. assert (match pt_primary sample_mbr_ready with Some l => forallb (fun c => (0 <=? c) && (c <=? 255)) l | None => true end = true)
        as Hok by (by vm_compute). by rewrite E in Hok.
    + assert (pt_secondary sample_mbr_ready = None) as -> by (by vm_compute). done.
    + destruct (pt_ebr sample_mbr_ready) as [ebrs|] eqn:E; [|done]. intros Hi. apply Hc.
      assert (match pt_ebr sample_mbr_ready with Some ls => forallb (forallb (fun c => (0 <=? c) && (c <=? 255))) ls | None => true end = true)
        as Hok by (by vm_compute). rewrite E in Hok. rewrite forallb_forall in Hok. apply Hok, list_elem_of_In. by eapply list_elem_of_lookup_2.
Qed.

Definition sample_mbr_size : Z := disk_size false sample_mbr_files.
Definition sample_mbr_next : nbdkit_next sample_world := flat_next_in snd (fun d w => (fst w, d)) sample_mbr_size.

(** The last file is in the partition 6. *)
Lemma partition_of_file_witness :
  wp (partition_prepare fst (fun g w => (g, snd w)) sample_mbr_next (PartitionHandle (-1) (-1) None)) (fun '(r, h') s' =>
    r = 0 /\ exists offset, slice (windowed (snd (s_world s')) offset) 0 1024 = memset 7 700 ++ memset 0 324)
    (witness_state (PartitionSettings 6 512, sample_mbr_disk)).
Proof.
  eapply wp_mono.
  { apply (partition_of_file sample_inv (fun s => snd (s_world s)) (fun _ _ => True) fst (fun g w => (g, snd w)) sample_mbr_next
      (LayerLimits sample_mbr_size 1 1048576 NBDKIT_FUA_NATIVE true) False false sample_mbr_files sample_mbr_ready sample_mbr_os 4
      (sample_mbr_file 7 700)).
    - by apply flat_layer_in.
    - apply flat_below. by vm_compute.
    - split; simpl; [by left|limits; lia|apply Z.divide_1_l|lia].
    - by split.
    - intros x. apply sample_mbr_bytes.
    - apply sample_mbr_is_ready.
    - done.
    - done.
    - split; [repeat (apply Forall_cons; split; [by split|]); by apply Forall_nil|by vm_compute].
    - done.
    - done.
    - done. }
  intros [r h'] s' [_ [[_ []]|(-> & offset & _ & E)]]. split; [done|]. exists offset. exact E.
Defined.
