(* ===== verification/Protect.v ===== *)
(** * The protect filter: which bytes are protected

    Models the configuration of [filters/protect/protect.c]: the ranges of the
    [protect] parameters, their sorting and combining, and the list of regions
    that divides the whole disk into protected and unprotected ones.  Where
    the code calls [exit], the result is [None].  The C library's [qsort] is a
    parameter: a sorted permutation. *)

From stdpp Require Import sorting.
From S2P Require Import Prelude NbdProtocol Extents Exports Server Connections Backend Plugin Bytes Parse Vector Regions.

(** [description] is only for messages. *)
Record range : Type := Range { rg_start : Z; rg_end : Z }.
Definition sizeof_range : Z := 24.

(** ** A monad for functions that may exit *)

Definition EM (A : Type) : Type := AM (option A).
#[global] Instance EM_ret : MRet EM := fun A a => (mret (Some a) : AM (option A)).
#[global] Instance EM_bind : MBind EM := fun A B k m =>
  (o ← (m : AM (option A)); match o with Some a => k a | None => mret None end : AM (option B)).

Definition exit_failure {A} : EM A := (mret None : AM (option A)).
Definition e_lift {A} (m : AM A) : EM A := (a ← m; mret (Some a) : AM (option A)).

(** ** Ranges *)

(** [strchr (value, c)]: the text before the first [c] and the text after it. *)
Fixpoint split_at (c : Z) (s : list Z) : option (list Z * list Z) :=
  match s with
  | [] => None
  | x :: s =>
      if x =? c then Some ([], s)
      else match split_at c s with Some (a, b) => Some (x :: a, b) | None => None end
  end.

Definition append_range (range_list : vector range) (r : range) : EM (vector range) :=
  '(r, range_list) ← e_lift (vector_append sizeof_range range_list r);
  if r =? -1 then exit_failure else mret range_list.

(** One end of a range; the default is used for an empty string. *)
Definition parse_end (str : list Z) (default : Z) : EM Z :=
  if deref str =? 0 then mret default
  else match nbdkit_parse_uint64_t str with Value v => mret v | ParseError _ => exit_failure end.

Definition parse_range (range_list : vector range) (value : list Z) : EM (vector range) :=
  let negate := deref value =? 126 in
  let value := if negate then drop 1 value else value in
  match split_at 45 value with
  | None => exit_failure
  | Some (start_str, end_str) =>
      ok ← e_lift allocate;
      if negb ok then exit_failure
      else
        start ← parse_end start_str 0;
        end_ ← parse_end end_str INT64_MAX;
        if end_ <? start then exit_failure
        else if negb negate then append_range range_list (Range start end_)
        else
          range_list ← (if 0 <? start then append_range range_list (Range 0 (start - 1)) else mret range_list);
          if end_ <? INT64_MAX then append_range range_list (Range (end_ + 1) INT64_MAX) else mret range_list
  end.

(* "protect" *)
Definition key_protect : list Z := [112; 114; 111; 116; 101; 99; 116].

(** [None]: the key is passed on. *)
Definition protect_config (range_list : vector range) (key value : list Z) : option (EM (vector range)) :=
  if strcmp_eq key key_protect then Some (parse_range range_list value) else None.

Definition compare_ranges (r1 r2 : range) : Z :=
  if rg_start r1 <? rg_start r2 then -1 else if rg_start r2 <? rg_start r1 then 1 else 0.

(** ** Regions

    The data of a region is a pointer: to the string ["protected"] ([true]) or
    [NULL] ([false]). *)
Definition append_unprotected_region (region_list : regions bool) (end_ : Z) : EM (regions bool) :=
  '(r, region_list) ← e_lift (append_region_end region_list end_ 0 0 (region_data false));
  if r =? -1 then exit_failure else mret region_list.

Definition append_protected_region (region_list : regions bool) (range : range) : EM (regions bool) :=
  e_lift (hassert (u64 (virtual_size region_list) =? rg_start range));;
  '(r, region_list) ← e_lift (append_region_end region_list (rg_end range) 0 0 (region_data true));
  if r =? -1 then exit_failure else mret region_list.

(** The loop that combines adjacent and overlapping ranges, at range [r] and
    the ranges after it. *)
Fixpoint combine_ranges (r : range) (l : list range) : AM (list range) :=
  match l with
  | [] => mret [r]
  | r' :: l =>
      hassert (rg_start r <=? rg_start r');;
      if rg_start r' <=? u64 (rg_end r + 1) then combine_ranges (Range (rg_start r) (rg_end r')) l
      else rest ← combine_ranges r' l; mret (r :: rest)
  end.

(** The loop that appends the regions. *)
Fixpoint append_ranges (region_list : regions bool) (l : list range) : EM (regions bool) :=
  match l with
  | [] => mret region_list
  | r :: l =>
      region_list ← append_protected_region region_list r;
      region_list ← (match l with
                     | r' :: _ => append_unprotected_region region_list (u64 (rg_start r' - 1))
                     | [] => mret region_list
                     end);
      append_ranges region_list l
  end.

Section ConfigComplete.
Context (qsort : (range -> range -> Z) -> list range -> list range).

Definition protect_config_complete (range_list : vector range) : EM (regions bool) :=
  l ← e_lift (match qsort compare_ranges (v_items range_list) with
              | [] => mret []
              | r :: l => combine_ranges r l
              end);
  region_list ← (match l with
                 | r :: _ => if 0 <? rg_start r then append_unprotected_region init_regions (rg_start r - 1) else mret init_regions
                 | [] => mret init_regions
                 end);
  region_list ← append_ranges region_list l;
  if u64 (virtual_size region_list) <? INT64_MAX then append_unprotected_region region_list INT64_MAX
  else mret region_list.
End ConfigComplete.

(** ** The ranges that are protected *)

Implicit Types (l : list range) (r : range).

(** What the parameters ask for. *)
Definition covered l (x : Z) : Prop := Exists (fun r => rg_start r <= x <= rg_end r) l.

Definition range_ok r : Prop := 0 <= rg_start r <= rg_end r /\ rg_end r <= INT64_MAX.

(** No range lies inside of another one, unless both end (or begin) together. *)
Definition not_nested l : Prop :=
  forall r r', r ∈ l -> r' ∈ l -> rg_start r <= rg_start r' -> rg_end r <= rg_end r'.

Definition start_le r r' : Prop := rg_start r <= rg_start r'.

(** The order of the comparison function. *)
Definition sorts (qsort : (range -> range -> Z) -> list range -> list range) : Prop :=
  forall l, qsort compare_ranges l ≡ₚ l /\ StronglySorted (fun r r' => compare_ranges r r' <= 0) (qsort compare_ranges l).

(** Ranges from [s] on, with gaps between them. *)
Fixpoint separated (s : Z) l : Prop :=
  match l with
  | [] => True
  | r :: l => s <= rg_start r /\ range_ok r /\ separated (rg_end r + 2) l
  end.

Lemma covered_cons r l x : covered (r :: l) x <-> rg_start r <= x <= rg_end r \/ covered l x.
Proof. apply Exists_cons. Qed.

Lemma compare_ranges_le r r' : compare_ranges r r' <= 0 <-> start_le r r'.
Proof.
  unfold compare_ranges, start_le. destruct (Z.ltb_spec (rg_start r) (rg_start r')); [lia|].
  destruct (Z.ltb_spec (rg_start r') (rg_start r)); lia.
Qed.

Lemma StronglySorted_impl {A} (R R' : A -> A -> Prop) (l : list A) :
  (forall x y, R x y -> R' x y) -> StronglySorted R l -> StronglySorted R' l.
Proof.
  intros HR Hs. induction Hs as [|x l Hs IH Hx]; constructor; [done|]. eapply Forall_impl; [exact Hx|auto].
Qed.

Lemma separated_mono s s' l : s' <= s -> separated s l -> separated s' l.
Proof. destruct l; simpl; [done|]. intros Hs (H & ?). split; [lia|done]. Qed.

(** Combining a range with the next one. *)
Lemma merged_covered r r' l x : start_le r r' -> rg_start r' <= rg_end r + 1 ->
  covered (Range (rg_start r) (rg_end r') :: l) x -> covered (r :: r' :: l) x.
Proof. unfold start_le. rewrite !covered_cons. simpl. intros H1 H2 [Hx|Hx]; [lia|auto]. Qed.

Lemma merged_covers r r' l x : start_le r r' -> rg_end r <= rg_end r' ->
  covered (r :: r' :: l) x -> covered (Range (rg_start r) (rg_end r') :: l) x.
Proof. unfold start_le. rewrite !covered_cons. simpl. intros H1 H2 [Hx|[Hx|Hx]]; [left; lia..|auto]. Qed.

Lemma merged_not_nested r r' l : StronglySorted start_le (r :: r' :: l) -> not_nested (r :: r' :: l) ->
  not_nested (Range (rg_start r) (rg_end r') :: l).
Proof.
  intros Hs Hn. inversion Hs as [|? ? Hs' Hr]; subst. inversion Hs' as [|? ? _ Hr']; subst.
  rewrite Forall_forall in Hr, Hr'. unfold start_le in *. pose proof (Hr r' ltac:(set_solver)) as H0.
  intros y y' [-> |Hy]%elem_of_cons [-> |Hy']%elem_of_cons; simpl.
  - lia.
  - intros _. apply Hn; [set_solver..|]. by apply Hr'.
  - intros Hle. apply Hn; [set_solver..|]. pose proof (Hr' y Hy). lia.
  - apply Hn; set_solver.
Qed.

Lemma hwp_combine l mem : forall r,
  StronglySorted start_le (r :: l) -> Forall range_ok (r :: l) ->
  hwp (combine_ranges r l) (fun l' mem' => mem' = mem /\ separated (rg_start r) l' /\
    (forall x, covered l' x -> covered (r :: l) x) /\
    (not_nested (r :: l) -> forall x, covered (r :: l) x -> covered l' x)) mem.
Proof.
  induction l as [|r' l IH]; intros r Hs Hok; simpl.
  - apply hwp_ret. split; [done|]. inversion Hok. split; [|done]. simpl. split; [lia|done].
  - pose proof Hs as Hs0. inversion Hs as [|? ? Hs' Hr]; subst. inversion Hs' as [|? ? Hs'' Hr']; subst.
    inversion Hr as [|? ? Hrr Hr0]; subst. unfold start_le in Hrr.
    inversion Hok as [|? ? Hr1 Hok']; subst. inversion Hok' as [|? ? Hr2 Hok'']; subst. unfold range_ok in Hr1, Hr2.
    apply hwp_bind, hwp_assert. split; [lia|]. rewrite u64_small by (limits; lia).
    destruct (Z.leb_spec (rg_start r') (rg_end r + 1)).
    + eapply hwp_mono; [apply (IH (Range (rg_start r) (rg_end r')))|].
      * constructor; [done|]. done.
      * constructor; [|done]. unfold range_ok. simpl. lia.
      * intros l' mem' (-> & Hsep & H1 & H2). split; [done|]. split; [done|].
        split; [intros x Hx; by apply merged_covered, H1|]. intros Hn x Hx.
        apply H2; [by eapply merged_not_nested|]. apply merged_covers; [done| |done].
        apply Hn; [set_solver..|done].
    + apply hwp_bind. eapply hwp_mono; [by apply IH|]. intros l' mem' (-> & Hsep & H1 & H2). apply hwp_ret.
      split; [done|]. split; [|split].
      * simpl. split; [lia|]. split; [done|]. eapply separated_mono; [|done]. lia.
      * intros x. rewrite !(covered_cons r). intros [Hx|Hx]; [auto|]. right. by apply H1.
      * intros Hn x. rewrite !(covered_cons r). intros [Hx|Hx]; [auto|]. right. apply H2; [|done].
        intros y y' Hy Hy'. apply Hn; by apply elem_of_cons; right.
Qed.

(** ** The regions

    The last region ends at [INT64_MAX], so the size of the whole list does
    not fit the return type of [virtual_size]. *)

Definition regions_upto (rs : regions bool) (s : Z) : Prop :=
  vector_wf rs /\ v_cap rs <= 2 * (v_len rs + 1) /\ contiguous 0 (v_items rs) /\ region_size rs = s.

(** The regions that divide the disk from [s] on.  The last byte that an
    offset can address has a region only if the one before it has the same. *)
Fixpoint divided (s : Z) l : list (region bool) :=
  match l with
  | [] => if s <? INT64_MAX then [Region s (INT64_MAX - s + 1) INT64_MAX (region_data false)] else []
  | r :: l =>
      (if s <? rg_start r then [Region s (rg_start r - s) (rg_start r - 1) (region_data false)] else []) ++
      Region (rg_start r) (rg_end r - rg_start r + 1) (rg_end r) (region_data true) :: divided (rg_end r + 1) l
  end.

(** The code exits only when an allocation fails; otherwise [P]. *)
Definition exits_or {A} (P : A -> Prop) (mem : list bool) (o : option A) (mem' : list bool) : Prop :=
  (mem = [] -> mem' = []) /\ match o with None => mem <> [] | Some a => P a end.

Lemma exits_trans {A B} (P : A -> Prop) (Q : B -> Prop) (m : EM A) (k : A -> EM B) mem :
  hwp m (exits_or P mem) mem -> (forall a mem', P a -> hwp (k a) (exits_or Q mem') mem') ->
  hwp (m ≫= k) (exits_or Q mem) mem.
Proof.
  intros Hm Hk. unfold mbind, EM_bind. apply hwp_bind. eapply hwp_mono; [exact Hm|]. intros [a|] mem' [He Ha].
  - eapply hwp_mono; [by apply Hk|]. intros o mem'' [He' Ho]. split; [auto|]. destruct o; [done|]. auto.
  - by apply hwp_ret.
Qed.

Lemma exits_ret {A} (P : A -> Prop) a mem : P a -> hwp (mret a : EM A) (exits_or P mem) mem.
Proof. done. Qed.

Lemma exits_lift {A} (m : AM A) (P : A -> Prop) mem :
  hwp m (fun a mem' => mem' = mem /\ P a) mem -> hwp (e_lift m) (exits_or P mem) mem.
Proof. intros Hm. apply hwp_bind. eapply hwp_mono; [exact Hm|]. intros a mem' [-> Ha]. by apply hwp_ret. Qed.

Lemma regions_upto_virtual rs s : regions_upto rs s -> 0 <= s <= INT64_MAX -> virtual_size rs = s.
Proof.
  intros (Hv & Hc & Hcon & <-) Hs. apply region_size_virtual. unfold region_size in Hs.
  split; [done|]. split; [done|]. split; [done|lia].
Qed.

(** Appending one region without alignment. *)
Lemma exits_append_end rs s e data mem :
  regions_upto rs s -> 0 <= s <= e -> e <= INT64_MAX -> v_len rs < MAX_REGIONS ->
  hwp ('(r, rs) ← e_lift (append_region_end rs e 0 0 (region_data data)); if r =? -1 then exit_failure else mret rs : EM (regions bool))
    (exits_or (fun rs' => regions_upto rs' (e + 1) /\ v_items rs' = v_items rs ++ [Region s (e - s + 1) e (region_data data)]) mem) mem.
Proof.
  intros Hrs Hs He Hlen. pose proof (regions_upto_virtual _ _ Hrs ltac:(lia)) as Hvs.
  destruct Hrs as (Hv & Hcap & Hc & Hsz). unfold append_region_end, append_region_va, append_alignment, append_one_region, MAX_REGIONS in *.
  rewrite Hvs. simpl. unfold mbind at 1, EM_bind, e_lift. do 2 apply hwp_bind. apply hwp_bind, hwp_ret. simpl.
  assert (Hu : u64 s = s /\ u64 (e - s + 1) = e - s + 1 /\ u64 (s + u64 (e - s + 1) - 1) = e).
  { rewrite !(u64_small (e - s + 1)) by (limits; lia). rewrite !u64_small by (limits; lia). lia. }
  rewrite Hvs. destruct Hu as (-> & -> & Hu). rewrite u64_small in Hu by (limits; lia). rewrite u64_small by (limits; lia).
  rewrite Hu. cbn [r_start r_len r_end].
  apply hwp_bind. apply hwp_bind, hwp_assert. split; [lia|]. apply hwp_bind, hwp_assert. split; [lia|].
  apply hwp_bind, hwp_assert. split; [lia|]. rewrite u64_small by (limits; lia). apply hwp_bind, hwp_assert. split; [lia|].
  unfold vector_append. eapply hwp_mono; [apply hwp_insert; [done|unfold v_len; lia|unfold sizeof_region; limits; lia]|].
  intros [r' rs'] mem' (Hvw' & Hcap' & Hr' & Hm). unfold v_len in Hr'. rewrite Nat2Z.id, firstn_all, drop_all in Hr'.
  assert (Hmem : mem = [] -> r' = 0 /\ mem' = []) by (intros E; apply Hm; [done|unfold sizeof_region; limits; lia]).
  destruct Hr' as [[-> ->]|[-> E]]; simpl.
  - do 2 apply hwp_ret. split; [intros E; by apply Hmem|]. intros E. by destruct (Hmem E).
  - do 2 apply hwp_ret. split; [intros E'; by apply Hmem|]. split; [|done]. unfold region_size, v_len in *.
    unfold regions_upto, region_size, v_len. rewrite E, length_app, contiguous_app, regions_end_app, Hsz. simpl.
    split; [done|]. split; [lia|]. split; [|lia]. split; [done|]. repeat split; lia.
Qed.

Lemma contiguous_divided l : forall s, separated s l -> 0 <= s <= INT64_MAX + 1 ->
  contiguous s (divided s l) /\ INT64_MAX <= regions_end s (divided s l) <= INT64_MAX + 1.
Proof.
  induction l as [|r l IH]; intros s; simpl.
  - intros _ Hs. destruct (Z.ltb_spec s INT64_MAX); simpl; [|lia]. repeat split; lia.
  - intros (Hs & Hok & Hsep) H0. unfold range_ok in Hok.
    destruct (IH (rg_end r + 1)) as [Hc He]; [eapply separated_mono; [|done]; lia|lia|].
    rewrite contiguous_app, regions_end_app. destruct (Z.ltb_spec s (rg_start r)); simpl.
    + replace (s + (rg_start r - s)) with (rg_start r) by lia.
      replace (rg_start r + (rg_end r - rg_start r + 1)) with (rg_end r + 1) by lia. repeat split; (done || lia).
    + replace s with (rg_start r) by lia.
      replace (rg_start r + (rg_end r - rg_start r + 1)) with (rg_end r + 1) by lia. repeat split; (done || lia).
Qed.

Lemma divided_lookup l : forall s i (g : region bool) x, separated s l -> 0 <= s ->
  divided s l !! i = Some g -> r_start g <= x <= r_end g ->
  s <= x /\ exists b, r_type g = region_data b /\ (b = true <-> covered l x).
Proof.
  assert (Hbelow : forall l s x, separated s l -> x < s -> ~ covered l x).
  { intros l0. induction l0 as [|r0 l0 IH]; [intros s x _ _ Hc; by apply Exists_nil in Hc|]. intros s x (Hs & [? ?] & Hsep) Hx.
    rewrite covered_cons. intros [?|Hc]; [lia|]. revert Hc. apply (IH (rg_end r0 + 2)); [done|lia]. }
  induction l as [|r l IH]; intros s i g x Hsep H0; simpl.
  - destruct (Z.ltb_spec s INT64_MAX); [|done]. destruct i; [|done]. intros [= <-] Hx. simpl in Hx. split; [lia|].
    exists false. split; [done|]. split; [done|]. intros Hc. by apply Exists_nil in Hc.
  - destruct Hsep as (Hs & [Hr1 Hr2] & Hsep). assert (Hsep1 : separated (rg_end r + 1) l)
      by (eapply separated_mono; [|done]; lia).
    intros Hg Hx. apply lookup_app_Some in Hg as [Hg|[_ Hg]].
    + destruct (Z.ltb_spec s (rg_start r)); [|done]. destruct i; [|done]. injection Hg as <-. simpl in Hx. split; [lia|].
      exists false. split; [done|]. split; [done|]. rewrite covered_cons. intros [?|Hc]; [lia|].
      exfalso. revert Hc. apply (Hbelow _ (rg_end r + 1)); [done|lia].
    + destruct (i - _)%nat as [|j]; simpl in Hg.
      * injection Hg as <-. simpl in Hx. split; [lia|]. exists true. split; [done|]. split; [|done].
        intros _. apply covered_cons. lia.
      * destruct (IH _ _ _ _ Hsep1 ltac:(lia) Hg Hx) as (Hge & b & Hb & Hcov). split; [lia|]. exists b. split; [done|].
        rewrite Hcov, covered_cons. split; [auto|]. intros [?|?]; [lia|done].
Qed.

(** One step of the list. *)
Definition reached (region_list : regions bool) l (n : Z) (rs' : regions bool) : Prop :=
  exists s', regions_upto rs' s' /\ 0 <= s' <= INT64_MAX + 1 /\ v_len rs' <= n /\
    v_items rs' ++ divided s' [] = v_items region_list ++ divided (region_size region_list) l.

Lemma exits_append_ranges l : forall rs s mem,
  regions_upto rs s -> separated s l -> 0 <= s <= INT64_MAX + 1 ->
  match l with [] => True | r :: _ => rg_start r = s end ->
  v_len rs + 2 * Z.of_nat (length l) <= MAX_REGIONS ->
  hwp (append_ranges rs l) (exits_or (reached rs l (v_len rs + 2 * Z.of_nat (length l))) mem) mem.
Proof.
  induction l as [|r l IH]; intros rs s mem Hrs Hsep H0 Hhd Hlen; cbn [append_ranges].
  - apply exits_ret. assert (Hsz : region_size rs = s) by apply Hrs. exists s. rewrite Hsz. simpl. repeat split; (done || lia || apply Hrs).
  - destruct Hsep as (Hs & [Hr1 Hr2] & Hsep). cbn [length] in *. subst s.
    pose proof (regions_upto_virtual _ _ Hrs ltac:(lia)) as Hvs. assert (Hsz : region_size rs = rg_start r) by apply Hrs.
    eapply exits_trans.
    { unfold append_protected_region. eapply exits_trans with (P := fun _ => True).
      - apply exits_lift, hwp_assert. split; [|done]. rewrite Hvs, u64_small by (limits; lia). lia.
      - intros _ mem' _. apply exits_append_end; [exact Hrs|lia..]. }
    intros rs1 mem1 [Hrs1 E1]. assert (Hl1 : v_len rs1 = v_len rs + 1) by (unfold v_len; rewrite E1, length_app; simpl; lia).
    destruct l as [|r' l].
    + eapply exits_trans; [by apply exits_ret with (P := fun rs => rs = rs1)|]. intros ? mem2 ->. apply exits_ret.
      exists (rg_end r + 1). split; [done|]. split; [lia|]. split; [simpl; lia|]. rewrite E1, Hsz, <- app_assoc.
      simpl. by rewrite (proj2 (Z.ltb_ge (rg_start r) (rg_start r))) by lia.
    + destruct Hsep as (Hs' & Hr' & Hsep'). pose proof Hr' as [Hr1' Hr2']. cbn [length] in Hlen.
      eapply exits_trans; [unfold append_unprotected_region; rewrite u64_small by (limits; lia);
        apply (exits_append_end rs1 (rg_end r + 1)); [done|lia..]|].
      intros rs2 mem2 [Hrs2 E2]. replace (rg_start r' - 1 + 1) with (rg_start r') in Hrs2 by lia.
      assert (Hl2 : v_len rs2 = v_len rs1 + 1) by (unfold v_len; rewrite E2, length_app; simpl; lia).
      assert (Hsz2 : region_size rs2 = rg_start r') by apply Hrs2.
      eapply hwp_mono; [apply (IH rs2 (rg_start r')); [done| |lia|done|simpl; lia]|].
      { simpl. split; [lia|done]. }
      intros o mem' [Hm Ho]. split; [done|]. destruct o as [rs'|]; [|done]. destruct Ho as (s' & Hs3 & Hs4 & Hl & E).
      exists s'. split; [done|]. split; [done|]. split; [cbn [length] in *; lia|]. rewrite E, E2, E1, Hsz, Hsz2, <- !app_assoc.
      simpl. rewrite (proj2 (Z.ltb_ge (rg_start r) _)), (proj2 (Z.ltb_lt (rg_end r + 1) _)), (proj2 (Z.ltb_ge (rg_start r') _)) by lia.
      simpl. by replace (rg_start r' - 1 - (rg_end r + 1) + 1) with (rg_start r' - (rg_end r + 1)) by lia.
Qed.

(** The list of regions for separated ranges. *)
Lemma exits_regions l mem : separated 0 l -> 2 * Z.of_nat (length l) + 2 <= MAX_REGIONS ->
  hwp (region_list ← (match l with
                      | r :: _ => if 0 <? rg_start r then append_unprotected_region init_regions (rg_start r - 1) else mret init_regions
                      | [] => mret init_regions
                      end);
       region_list ← append_ranges region_list l;
       if u64 (virtual_size region_list) <? INT64_MAX then append_unprotected_region region_list INT64_MAX
       else mret region_list : EM (regions bool))
    (exits_or (fun rs => v_items rs = divided 0 l) mem) mem.
Proof.
  intros Hsep Hlen. assert (Hinit : regions_upto init_regions 0).
  { destruct (init_regions_wf (D := bool)) as (? & ? & ? & _). by split. }
  eapply exits_trans with (P := fun rs => exists s, regions_upto rs s /\ separated s l /\ 0 <= s <= INT64_MAX + 1 /\
    match l with [] => True | r :: _ => rg_start r = s end /\ v_len rs <= 1 /\
    v_items rs ++ divided s l = divided 0 l).
  { destruct l as [|r l]; [apply exits_ret; exists 0; split; [done|]; repeat split; (done || lia)|]. destruct Hsep as (Hs & Hr & Hsep).
    pose proof Hr as [Hr1 Hr2]. destruct (Z.ltb_spec 0 (rg_start r)) as [Hpos|Hpos].
    - eapply hwp_mono; [apply (exits_append_end init_regions 0); [done|lia..|unfold v_len; simpl; unfold MAX_REGIONS; lia]|].
      intros o mem' [Hm Ho]. split; [done|]. destruct o as [rs|]; [|done]. destruct Ho as [Hrs E]. exists (rg_start r).
      replace (rg_start r - 1 + 1) with (rg_start r) in Hrs by lia. split; [done|]. split; [simpl; split; [lia|done]|].
      split; [lia|]. split; [done|]. split; [unfold v_len; rewrite E; simpl; lia|]. rewrite E. simpl.
      rewrite (proj2 (Z.ltb_ge (rg_start r) _)), (proj2 (Z.ltb_lt 0 _)) by lia. simpl.
      by replace (rg_start r - 1 - 0 + 1) with (rg_start r - 0) by lia.
    - apply exits_ret. exists 0. split; [done|]. split; [simpl; auto|]. split; [lia|]. split; [lia|].
      split; [unfold v_len; simpl; lia|done]. }
  intros rs mem1 (s & Hrs & Hsep' & H0 & Hhd & Hl & E).
  eapply exits_trans; [by apply (exits_append_ranges _ _ s); [..|lia]|].
  intros rs' mem2 (s' & Hrs' & H0' & Hl' & E'). assert (Hsz : region_size rs = s) by apply Hrs.
  rewrite Hsz, E in E'. simpl in E'. destruct (decide (s' <= INT64_MAX)) as [Hle|Hgt].
  - rewrite (regions_upto_virtual _ _ Hrs'), u64_small by (limits; lia). destruct (Z.ltb_spec s' INT64_MAX).
    + eapply hwp_mono; [apply (exits_append_end rs' s'); [done|lia..]|]. intros o mem' [Hm Ho]. split; [done|].
      destruct o as [rs''|]; [|done]. destruct Ho as [_ E'']. by rewrite E''.
    + apply exits_ret. by rewrite <- E', app_nil_r.
  - assert (s' = INT64_MAX + 1) as -> by lia. rewrite (proj2 (Z.ltb_ge (INT64_MAX + 1) _)), app_nil_r in E' by lia.
    assert (Hv : u64 (virtual_size rs') = INT64_MAX + 1).
    { destruct Hrs' as (_ & _ & Hc & Hsz'). unfold virtual_size, region_size in *.
      destruct (last (v_items rs')) as [r|] eqn:El.
      - by rewrite (contiguous_last _ _ _ Hc El), Hsz'.
      - apply last_None in El. by rewrite El in Hsz'. }
    rewrite Hv, (proj2 (Z.ltb_ge _ _)) by lia. by apply exits_ret.
Qed.

(** ** Properties *)

(** The flag of the region in which a byte lies. *)
Definition protected (region_list : regions bool) (x : Z) : Prop :=
  exists r : region bool, find_region region_list x = Some r /\ r_start r <= x <= r_end r /\ r_type r = region_data true.

(** Regions, in the list's order, for every byte that a disk can have. *)
Definition divides (region_list : regions bool) : Prop :=
  contiguous 0 (v_items region_list) /\ INT64_MAX <= region_size region_list <= INT64_MAX + 1 /\
  Forall (fun r : region bool => exists b, r_type r = region_data b) (v_items region_list).

Lemma divides_find rs x : divides rs -> 0 <= x < INT64_MAX ->
  exists (r : region bool) b, find_region rs x = Some r /\ r_start r <= x <= r_end r /\ r_type r = region_data b /\ 
    r_end r <= INT64_MAX /\ (protected rs x <-> b = true).
Proof.
  intros (Hc & Hsz & Hty) Hx. destruct (find_region_contiguous rs x Hc ltac:(lia)) as (i & r & Hi & Hf & Hr).
  destruct (proj1 (Forall_lookup _ _) Hty i r Hi) as [b Hb]. exists r, b. split; [done|]. split; [done|]. split; [done|].
  destruct (contiguous_lookup _ _ _ _ Hc Hi) as (_ & [_ Hle] & He). unfold region_size in Hsz. split; [lia|].
  unfold protected. rewrite Hf. split; [intros (? & [= <-] & _ & E); congruence|]. intros ->. by exists r.
Qed.

Lemma length_combine_ranges l : forall r mem l' mem',
  combine_ranges r l mem = Ok (l', mem') -> (length l' <= S (length l))%nat.
Proof.
  induction l as [|r' l IH]; intros r mem l' mem'; simpl; [by intros [= <- _]|].
  unfold hassert. destruct (rg_start r <=? rg_start r'); [|done]. unfold mbind, AM_bind. simpl.
  destruct (rg_start r' <=? u64 (rg_end r + 1)); [intros H%IH; simpl; lia|].
  destruct (combine_ranges r' l mem) as [[l'' mem'']|] eqn:E; [|done]. intros [= <- _]. apply IH in E. simpl. lia.
Qed.

Lemma hwp_sorted_ranges qsort items mem : sorts qsort -> Forall range_ok items ->
  hwp (match qsort compare_ranges items with [] => mret [] | r :: l => combine_ranges r l end) (fun l mem' => mem' = mem /\
    separated 0 l /\ (length l <= length items)%nat /\ (forall x, covered l x -> covered items x) /\
    (not_nested items -> forall x, covered items x -> covered l x)) mem.
Proof.
  intros Hq Hok. destruct (Hq items) as [Hp Hs]. rewrite <- Hp in Hok.
  eapply StronglySorted_impl in Hs; [|intros r r'; apply compare_ranges_le].
  assert (Hcov : forall x, covered items x <-> covered (qsort compare_ranges items) x)
    by (intros x; unfold covered; by rewrite Hp).
  assert (Hn : not_nested items -> not_nested (qsort compare_ranges items))
    by (intros Hn r r'; rewrite !Hp; apply Hn).
  assert (Hlen : length (qsort compare_ranges items) = length items) by by rewrite Hp.
  destruct (qsort compare_ranges items) as [|r l].
  - apply hwp_ret. split; [done|]. split; [done|]. split; [simpl; lia|]. split; intros; by apply Hcov.
  - pose proof (hwp_combine l mem r Hs Hok) as Hc. pose proof (length_combine_ranges l r mem) as Hl.
    unfold hwp in *. destruct (combine_ranges r l mem) as [[l' mem']|]; [|done]. specialize (Hl _ _ eq_refl).
    destruct Hc as (-> & Hsep & H1 & H2).
    split; [done|]. apply Forall_cons in Hok as [[Hr0 _] _]. split; [eapply separated_mono; [|done]; lia|].
    split; [simpl in Hlen; lia|]. split; [intros x Hx; by apply Hcov, H1|]. intros Hnn x Hx. apply H2; [by apply Hn|]. by apply Hcov.
Qed.

(** The regions for separated ranges protect exactly these. *)
Lemma divided_protects rs l : v_items rs = divided 0 l -> separated 0 l ->
  divides rs /\ forall x, 0 <= x < INT64_MAX -> (protected rs x <-> covered l x).
Proof.
  intros E Hsep. destruct (contiguous_divided l 0 Hsep ltac:(limits; lia)) as [Hc Hsz].
  assert (Hdata : forall i (r : region bool), v_items rs !! i = Some r -> exists b, r_type r = region_data b /\
    forall x, r_start r <= x <= r_end r -> (b = true <-> covered l x)).
  { rewrite <- E in Hc. intros i r Hi. destruct (contiguous_lookup _ _ _ _ Hc Hi) as (_ & [Hlt _] & He). rewrite E in Hi.
    destruct (divided_lookup _ _ _ _ (r_start r) Hsep ltac:(lia) Hi ltac:(lia)) as (_ & b & Hb & _). exists b. split; [done|].
    intros x Hx. destruct (divided_lookup _ _ _ _ x Hsep ltac:(lia) Hi Hx) as (_ & b' & Hb' & Hcov). congruence. }
  assert (Hdiv : divides rs).
  { unfold divides, region_size. rewrite E at 1 2 3. split; [done|]. split; [done|].
    apply Forall_lookup. intros i r Hi. destruct (Hdata i r Hi) as (b & Hb & _). by exists b. }
  split; [exact Hdiv|]. intros x Hx. destruct Hdiv as (Hc' & Hsz' & _).
  destruct (find_region_contiguous rs x Hc') as (i & r & Hi & Hf & Hr); [lia|].
  destruct (Hdata i r Hi) as (b & Hb & Hcov). rewrite <- (Hcov x Hr). split.
  - intros (r' & Hf' & Hr' & Ht). congruence.
  - intros ->. by exists r.
Qed.

(** C15: With ranges that end at [INT64_MAX] or before ([range_ok]), the
    configuration of the protect filter never crashes, and exits only for lack
    of memory.  Its list of regions divides the whole disk, and protects only
    bytes that are in a [protect] range.  If no range lies inside of another
    one, it protects all of them. *)
Theorem protect_config_complete_correct qsort (range_list : vector range) mem :
  sorts qsort -> Forall range_ok (v_items range_list) -> 2 * v_len range_list + 2 <= MAX_REGIONS ->
  hwp (protect_config_complete qsort range_list) (fun o _ =>
    match o with
    | None => mem <> []
    | Some region_list =>
        divides region_list /\
        forall x, 0 <= x < INT64_MAX ->
          (protected region_list x -> covered (v_items range_list) x) /\
          (not_nested (v_items range_list) -> covered (v_items range_list) x -> protected region_list x)
    end) mem.
Proof.
  intros Hq Hok Hlen. unfold protect_config_complete. eapply hwp_mono.
  { eapply exits_trans with (Q := fun rs => exists l, v_items rs = divided 0 l /\ separated 0 l /\
      (forall x, covered l x -> covered (v_items range_list) x) /\
      (not_nested (v_items range_list) -> forall x, covered (v_items range_list) x -> covered l x));
      [apply exits_lift; by apply hwp_sorted_ranges|]. intros l mem' (Hsep & Hl & Hcov).
    eapply hwp_mono; [apply exits_regions; [done|unfold v_len in Hlen; lia]|]. intros o mem2 [Hm Ho]. split; [exact Hm|].
    destruct o as [rs|]; [|exact Ho]. by exists l. }
  intros o mem' [_ Ho]. destruct o as [rs|]; [|exact Ho]. destruct Ho as (l & E & Hsep & H1 & H2).
  destruct (divided_protects rs l E Hsep) as [Hdiv Hp]. split; [exact Hdiv|]. intros x Hx. rewrite (Hp x Hx). auto.
Qed.

(** The parser accepts larger ends: [protect=0-18446744073709551615] fails an
    assertion, since the length of the region wraps around to 0. *)
Lemma largest_range_aborts qsort cap : sorts qsort ->
  protect_config_complete qsort (Vec [Range 0 UINT64_MAX] cap) [] = Crash AssertFailed.
Proof.
  intros Hq. destruct (Hq [Range 0 UINT64_MAX]) as [Hp _].
  apply Permutation_singleton_r in Hp. unfold protect_config_complete. cbn [v_items]. rewrite Hp.
  by vm_compute.
Qed.

(** A range inside of another one, which should be redundant, takes the
    protection from the rest of the larger range: the loop that combines
    ranges sets the end of the first to the end of the second also when that
    is smaller.  With [protect=0-99 protect=10-19] the bytes from 20 to 99 are
    not protected. *)
Lemma nested_range_unprotects qsort r r' cap x mem :
  sorts qsort -> range_ok r -> range_ok r' -> rg_start r < rg_start r' -> rg_end r' < x <= rg_end r -> x < INT64_MAX ->
  hwp (protect_config_complete qsort (Vec [r; r'] cap)) (fun o _ =>
    match o with
    | None => mem <> []
    | Some region_list => covered [r; r'] x /\ ~ protected region_list x
    end) mem.
Proof.
  intros Hq [Hr1 Hr2] [Hr1' Hr2'] Hlt Hx Hmax. destruct (Hq [r; r']) as [Hp Hs].
  assert (E : qsort compare_ranges [r; r'] = [r; r']).
  { destruct (Permutation_length_2_inv (symmetry Hp)) as [E|E]; [exact E|]. rewrite E in Hs.
    inversion Hs as [|? ? _ Hall]; subst. inversion Hall as [|? ? Hle _]; subst. apply compare_ranges_le in Hle.
    unfold start_le in Hle. lia. }
  unfold protect_config_complete. cbn [v_items]. rewrite E. eapply hwp_mono.
  { eapply exits_trans with (P := fun l => l = [Range (rg_start r) (rg_end r')]).
    - apply exits_lift. simpl. apply hwp_bind, hwp_assert. split; [lia|].
      rewrite u64_small, (proj2 (Z.leb_le _ _)) by (limits; lia). by apply hwp_ret.
    - intros l mem' ->. apply (exits_regions [Range (rg_start r) (rg_end r')]); [|simpl; unfold MAX_REGIONS; lia]. simpl. unfold range_ok. simpl. lia. }
  intros o mem' [_ Ho]. destruct o as [rs|]; [|exact Ho]. split; [apply covered_cons; lia|].
  rewrite (proj2 (divided_protects rs _ Ho ltac:(simpl; unfold range_ok; simpl; lia)) x) by lia.
  rewrite covered_cons. simpl. intros [?|Hc]; [lia|]. by apply Exists_nil in Hc.
Qed.

(** ** A [qsort] *)

Definition le_by (compare : range -> range -> Z) (r r' : range) : Prop := compare r r' <= 0.
#[global] Instance le_by_dec compare : RelDecision (le_by compare).
Proof. intros r r'. unfold le_by. apply _. Defined.

Definition qsort_merge (compare : range -> range -> Z) : list range -> list range := merge_sort (le_by compare).

#[global] Instance compare_ranges_trans : Transitive (le_by compare_ranges).
Proof. intros r r' r''. unfold le_by. rewrite !compare_ranges_le. unfold start_le. lia. Qed.

#[global] Instance compare_ranges_total : Total (le_by compare_ranges).
Proof. intros r r'. unfold le_by. rewrite !compare_ranges_le. unfold start_le. lia. Qed.

Lemma qsort_merge_sorts : sorts qsort_merge.
Proof. intros l. split; [apply merge_sort_Permutation|apply (StronglySorted_merge_sort (le_by compare_ranges)); apply _]. Qed.

Lemma protect_config_complete_correct_witness :
  exists o mem', protect_config_complete qsort_merge (Vec [Range 1024 2047; Range 0 511] 2) [] = Ok (o, mem') /\
    match o with None => False | Some region_list => protected region_list 1500 /\ ~ protected region_list 600 end.
Proof.
  destruct (hwp_ok _ _ _ (protect_config_complete_correct qsort_merge (Vec [Range 1024 2047; Range 0 511] 2) [] qsort_merge_sorts
    ltac:(repeat constructor; simpl; limits; lia) ltac:(unfold v_len, MAX_REGIONS; simpl; lia))) as (o & mem' & Hrun & Ho).
  exists o, mem'. split; [exact Hrun|]. destruct o as [rs|]; [|by destruct Ho]. destruct Ho as [_ Hp]. simpl in Hp.
  destruct (Hp 1500 ltac:(limits; lia)) as [_ Hyes]. destruct (Hp 600 ltac:(limits; lia)) as [Hno _]. split.
  - apply Hyes; [|apply covered_cons; simpl; lia]. intros r r' [-> |[-> |[]%not_elem_of_nil]%elem_of_cons]%elem_of_cons
      [-> |[-> |[]%not_elem_of_nil]%elem_of_cons]%elem_of_cons; simpl; lia.
  - intros Hc. apply Hno in Hc. rewrite !covered_cons in Hc. simpl in Hc. destruct Hc as [?|[?|Hc]]; [lia..|].
    by apply Exists_nil in Hc.
Defined.

(** [protect=0-99 protect=10-19] does not protect byte 50. *)
Lemma nested_range_unprotects_witness :
  exists o mem', protect_config_complete qsort_merge (Vec [Range 0 99; Range 10 19] 2) [] = Ok (o, mem') /\
    match o with None => False | Some region_list => covered [Range 0 99; Range 10 19] 50 /\ ~ protected region_list 50 end.
Proof.
  destruct (hwp_ok _ _ _ (nested_range_unprotects qsort_merge (Range 0 99) (Range 10 19) 2 50 [] qsort_merge_sorts
    ltac:(unfold range_ok; simpl; limits; lia) ltac:(unfold range_ok; simpl; limits; lia) ltac:(simpl; lia)
    ltac:(simpl; lia) ltac:(limits; lia))) as (o & mem' & Hrun & Ho).
  exists o, mem'. split; [exact Hrun|]. destruct o as [rs|]; [exact Ho|by destruct Ho].
Defined.

(** ** Parameters *)

Lemma split_at_app c a b : Forall (fun x => x <> c) a -> split_at c (a ++ c :: b) = Some (a, b).
Proof.
  induction 1 as [|x a Hx Ha IH]; simpl; [by rewrite Z.eqb_refl|]. by rewrite (proj2 (Z.eqb_neq _ _) Hx), IH.
Qed.

(** The ranges so far, with room for more. *)
Definition ranges_wf (range_list : vector range) : Prop :=
  vector_wf range_list /\ v_cap range_list <= 2 * (v_len range_list + 1) /\ Forall range_ok (v_items range_list).

Lemma exits_append_range rl r mem : ranges_wf rl -> range_ok r -> v_len rl < MAX_REGIONS ->
  hwp (append_range rl r) (exits_or (fun rl' => ranges_wf rl' /\ v_items rl' = v_items rl ++ [r]) mem) mem.
Proof.
  intros (Hv & Hcap & Hok) Hr Hlen. unfold append_range, mbind, EM_bind, e_lift, vector_append, MAX_REGIONS in *.
  do 2 apply hwp_bind. eapply hwp_mono; [apply hwp_insert; [done|unfold v_len; lia|unfold sizeof_range; limits; lia]|].
  intros [c rl'] mem' (Hv' & Hcap' & Hc & Hm). unfold v_len in Hc. rewrite Nat2Z.id, firstn_all, drop_all in Hc.
  assert (Hmem : mem = [] -> c = 0 /\ mem' = []) by (intros E; apply Hm; [done|unfold sizeof_range; limits; lia]).
  destruct Hc as [[-> ->]|[-> E]]; simpl; do 2 apply hwp_ret; (split; [intros E'; by apply Hmem|]).
  - intros E. by destruct (Hmem E).
  - split; [|exact E]. split; [exact Hv'|]. unfold v_len in *. rewrite E, length_app. simpl. split; [lia|].
    apply Forall_app. split; [exact Hok|by apply Forall_singleton].
Qed.

(** A string that is one end of a range. *)
Definition end_of (str : list Z) (default v : Z) : Prop :=
  if deref str =? 0 then v = default else nbdkit_parse_uint64_t str = Value v.

Lemma parse_end_of str default v : end_of str default v -> parse_end str default = mret v.
Proof. unfold end_of, parse_end. destruct (deref str =? 0); [by intros ->|by intros ->]. Qed.

(** [malloc], checked. *)
Lemma exits_alloc {B} (k : EM B) (Q : B -> Prop) mem :
  (forall mem', hwp k (exits_or Q mem') mem') ->
  hwp (ok ← e_lift allocate; if negb ok then exit_failure else k : EM B) (exits_or Q mem) mem.
Proof.
  intros Hk. unfold mbind, EM_bind, e_lift. do 2 apply hwp_bind. apply hwp_allocate. intros ok mem' Hok.
  apply hwp_ret. destruct ok; simpl.
  - eapply hwp_mono; [apply Hk|]. intros o mem'' [Hm Ho]. split; [intros E; by apply Hm, Hok|].
    destruct o; [exact Ho|]. intros E. apply Ho. by apply Hok.
  - apply hwp_ret. split; [intros E; by apply Hok|]. intros E. by destruct (Hok E).
Qed.

(** [START-END] protects the range, [~START-END] its complement. *)
Lemma parse_range_correct rl negate start_str end_str s e mem :
  ranges_wf rl -> v_len rl + 1 < MAX_REGIONS -> Forall (fun c => c <> 45) start_str -> deref start_str <> 126 ->
  end_of start_str 0 s -> end_of end_str INT64_MAX e -> 0 <= s <= e -> e <= INT64_MAX ->
  hwp (parse_range rl ((if negate : bool then [126] else []) ++ start_str ++ 45 :: end_str))
    (exits_or (fun rl' => ranges_wf rl' /\
       forall x, 0 <= x <= INT64_MAX ->
         (covered (v_items rl') x <-> covered (v_items rl) x \/ if negate then x < s \/ e < x else s <= x <= e)) mem) mem.
Proof.
  intros Hwf Hlen Hno Hhd Hs He Hse Hmax. unfold parse_range.
  assert (Hsnoc : forall l r x, covered (l ++ [r]) x <-> covered l x \/ rg_start r <= x <= rg_end r)
    by (intros; unfold covered; rewrite Exists_app, Exists_cons, Exists_nil; tauto).
  assert (Hneg : (deref ((if negate then [126] else []) ++ start_str ++ 45 :: end_str) =? 126) = negate).
  { destruct negate; [done|]. apply Z.eqb_neq. by destruct start_str. }
  rewrite Hneg. assert (Hdrop : (if negate then drop 1 ((if negate then [126] else []) ++ start_str ++ 45 :: end_str)
    else (if negate then [126] else []) ++ start_str ++ 45 :: end_str) = start_str ++ 45 :: end_str) by by destruct negate.
  rewrite Hdrop, split_at_app by done. apply exits_alloc. intros mem1.
  rewrite (parse_end_of _ _ _ Hs), (parse_end_of _ _ _ He).
  eapply exits_trans; [by apply exits_ret with (P := eq s)|]. intros ? mem2 <-.
  eapply exits_trans; [by apply exits_ret with (P := eq e)|]. intros ? mem3 <-.
  rewrite (proj2 (Z.ltb_ge e s)) by lia. destruct negate; simpl.
  - eapply exits_trans with (P := fun rl' => ranges_wf rl' /\ v_len rl' <= v_len rl + 1 /\
      forall x, 0 <= x -> (covered (v_items rl') x <-> covered (v_items rl) x \/ x < s)).
    { destruct (Z.ltb_spec 0 s).
      - eapply hwp_mono; [apply exits_append_range; [done|unfold range_ok; simpl; lia|lia]|].
        intros [rl'|] mem4 [Hm Ho]; (split; [exact Hm|]); [|exact Ho]. destruct Ho as [Hwf' E]. split; [exact Hwf'|].
        unfold v_len. rewrite E, length_app. simpl. split; [lia|]. intros x Hx. rewrite Hsnoc. simpl. intuition lia.
      - apply exits_ret. split; [exact Hwf|]. split; [lia|]. intros x Hx. intuition lia. }
    intros rl' mem4 (Hwf' & Hlen' & Hcov'). destruct (Z.ltb_spec e INT64_MAX).
    + eapply hwp_mono; [apply exits_append_range; [done|unfold range_ok; simpl; lia|lia]|].
      intros [rl''|] mem5 [Hm Ho]; (split; [exact Hm|]); [|exact Ho]. destruct Ho as [Hwf'' E]. split; [exact Hwf''|].
      intros x Hx. rewrite E, Hsnoc, Hcov' by lia. simpl. intuition lia.
    + apply exits_ret. split; [exact Hwf'|]. intros x Hx. rewrite Hcov' by lia. intuition lia.
  - eapply hwp_mono; [apply exits_append_range; [done|unfold range_ok; simpl; lia|lia]|].
    intros [rl'|] mem4 [Hm Ho]; (split; [exact Hm|]); [|exact Ho]. destruct Ho as [Hwf' E]. split; [exact Hwf'|].
    intros x Hx. rewrite E, Hsnoc. done.
Qed.
