(* ===== verification/ProtectDisk.v ===== *)
(** * The protect filter: writes

    Models the callbacks of [filters/protect/protect.c]: [check_write], which
    compares the data of a request with what the protected ranges contain, and
    the requests that it guards.  Memory allocation is the parameter
    [malloc]. *)

From S2P Require Import Prelude NbdProtocol Extents Exports Server Connections Backend Plugin Filter Bytes Protocol Vector Layer Serve Regions Protect.

(** The argument [buf]: [NULL], data, or the pointer that [buf += len] makes
    of [NULL]. *)
Inductive write_buf : Type := buf_null | buf_data (data : list Z) | buf_wild.

Definition advance (buf : write_buf) (len : Z) : write_buf :=
  match buf with
  | buf_data data => buf_data (drop (Z.to_nat len) data)
  | buf_null | buf_wild => buf_wild
  end.

Section Protect.
Context {W : Type} (malloc : M W bool) (region_list : regions bool).
Implicit Types (nx : nbdkit_next W).

(** Does the data match what was read? *)
Definition buf_matches (expected : list Z) (buf : write_buf) (len : Z) : M W bool :=
  match buf with
  | buf_data data => mret (memeq expected data len)
  | buf_null => mret (is_zero expected len)
  | buf_wild => fail Undefined
  end.

(** The part of the loop's body for a protected region. *)
Definition check_protected nx (len offset : Z) (buf : write_buf) (err : Z) : M W (Z * Z) :=
  ok ← malloc;
  if negb ok then mret (-1, ENOMEM)
  else
    '(r, err, expected) ← n_pread nx len offset 0 err;
    if r =? -1 then mret (-1, err)
    else
      matches ← buf_matches expected buf len;
      if negb matches then mret (-1, EPERM) else mret (0, err).

(** The loop; every step makes [count] smaller. *)
Fixpoint check_write_loop (fuel : nat) nx (count offset : Z) (buf : write_buf) (err : Z) : M W (Z * Z) :=
  if 0 <? count then
    match fuel with
    | O => fail OutOfFuel
    | S fuel =>
        match find_region region_list offset with
        | None => fail AssertFailed
        | Some region =>
            match r_type region with
            | region_data is_protected =>
                let len := Z.min (u64 (r_end region - offset + 1)) count in
                cassert (0 <? len);;
                '(r, err) ← (if is_protected : bool then check_protected nx len offset buf err else mret (0, err));
                if r =? -1 then mret (-1, err)
                else check_write_loop fuel nx (u32 (count - len)) (u64 (offset + len)) (advance buf len) err
            | _ => fail AssertFailed
            end
        end
    end
  else mret (0, err).

Definition check_write nx (count offset : Z) (buf : write_buf) (err : Z) : M W (Z * Z) :=
  check_write_loop (Z.to_nat count) nx count offset buf err.

Definition protect_pwrite nx (buf : list Z) (count offset flags err : Z) : M W (Z * Z) :=
  '(r, err) ← check_write nx count offset (buf_data buf) err;
  if r =? -1 then mret (-1, err) else n_pwrite nx buf count offset flags err.

Definition protect_trim nx (count offset flags err : Z) : M W (Z * Z) :=
  '(r, err) ← check_write nx count offset buf_null err;
  if r =? -1 then mret (-1, err) else n_trim nx count offset flags err.

Definition protect_zero nx (count offset flags err : Z) : M W (Z * Z) :=
  '(r, err) ← check_write nx count offset buf_null err;
  if r =? -1 then mret (-1, err) else n_zero nx count offset flags err.

(** [struct nbdkit_filter filter]. *)
Definition protect_filter : nbdkit_filter W :=
  Filter None None None None None None None None None None None None None None None None None None None None
    None (Some (fun nx _ => protect_pwrite nx)) None (Some (fun nx _ => protect_trim nx))
    (Some (fun nx _ => protect_zero nx)) None None.

(** ** Correctness *)

Section Correct.
Context (inv : st W -> Prop) (disk : st W -> Z -> Z) (settled : st W -> Z -> Prop).
Context (nx : nbdkit_next W) (k : layer_limits) `{!ReadLayer inv disk settled nx k}.
Context (malloc_ok : forall s, inv s -> wp malloc (fun _ s' => same_disk inv disk settled s s') s).
Context (Hdiv : divides region_list) (Hsize : l_size k <= INT64_MAX).
(* the ranges respect the block size of the layer below *)
Context (Haligned : Forall (fun r : region bool => (l_minimum k | r_start r) /\ (l_minimum k | r_end r + 1)) (v_items region_list)).
Implicit Types (s : st W) (new : Z -> Z).

Notation same_disk := (same_disk inv disk settled).
Notation protected := (protected region_list).

(** What a request is going to write at [offset]. *)
Definition buf_holds (buf : write_buf) new (offset count : Z) : Prop :=
  match buf with
  | buf_data data => data = slice new offset count
  | buf_null => forall x, in_request count offset x -> new x = 0
  | buf_wild => forall x, in_request count offset x -> ~ protected x
  end.

(** [NULL] is still that when the first protected byte is reached. *)
Definition buf_usable (buf : write_buf) (offset count : Z) : Prop :=
  buf = buf_null -> forall x, in_request count offset x -> protected x -> find_region region_list x = find_region region_list offset.

Lemma slice_inj d d' offset count x : slice d offset count = slice d' offset count -> in_request count offset x -> d x = d' x.
Proof.
  intros E Hx. unfold in_request in Hx. pose proof (nth_slice d offset count (x - offset) ltac:(lia)) as H1.
  pose proof (nth_slice d' offset count (x - offset) ltac:(lia)) as H2. rewrite E, H2 in H1.
  by replace (offset + (x - offset)) with x in H1 by lia.
Qed.

Lemma is_zero_slice d offset n : 0 <= n -> is_zero (slice d offset n) n = true <-> forall x, in_request n offset x -> d x = 0.
Proof.
  intros Hn. replace n with (Z.of_nat (length (slice d offset n))) at 2 by (rewrite length_slice; lia).
  rewrite is_zero_all_zero, all_zero_spec, Forall_lookup. unfold in_request. split.
  - intros H x Hx. apply (H (Z.to_nat (x - offset))). rewrite lookup_slice by lia. f_equal. f_equal. lia.
  - intros H i y Hy. assert (Hi : (i < Z.to_nat n)%nat) by (rewrite <- (length_slice d offset n); by eapply lookup_lt_Some).
    rewrite <- (Nat2Z.id i), lookup_slice in Hy by lia. injection Hy as <-. apply H. lia.
Qed.

(** The comparison decides whether the protected bytes stay as they are. *)
Lemma wp_buf_matches (Q : bool -> st W -> Prop) buf new offset count len s :
  buf_holds buf new offset count -> 0 < len <= count -> protected offset ->
  (forall b, (b = true -> forall x, in_request len offset x -> disk s x = new x) -> Q b s) ->
  wp (buf_matches (slice (disk s) offset len) buf len) Q s.
Proof.
  intros Hb Hlen Hp HQ. destruct buf as [|data|]; simpl in *.
  - apply wp_ret, HQ. rewrite is_zero_slice by lia. intros Hz x Hx. rewrite Hz, Hb; [done| |done].
    unfold in_request in *. lia.
  - subst data. apply wp_ret, HQ. unfold memeq. rewrite bool_decide_eq_true, !take_slice by lia.
    intros E x Hx. by eapply slice_inj.
  - exfalso. apply (Hb offset); [unfold in_request; lia|done].
Qed.

(** What is left of the request after a step. *)
Lemma buf_holds_advance buf new offset count len region :
  buf_holds buf new offset count -> buf_usable buf offset count -> 0 < len <= count ->
  find_region region_list offset = Some region -> (len = count \/ r_end region < offset + len) ->
  buf_holds (advance buf len) new (offset + len) (count - len) /\ buf_usable (advance buf len) (offset + len) (count - len).
Proof.
  intros Hb Hu Hlen Hf Hend. split; [|by destruct buf]. destruct buf as [|data|]; simpl in *.
  - intros x Hx Hp. assert (Hx0 : in_request count offset x) by (unfold in_request in *; lia). pose proof (Hu eq_refl x Hx0 Hp) as E. unfold in_request in *.
    destruct Hp as (r & Hr & Hin & _). rewrite Hf in E. assert (r = region) as -> by congruence. lia.
  - subst data. replace count with (len + (count - len)) at 1 by lia. apply drop_slice; lia.
  - intros x Hx. apply Hb. unfold in_request in *. lia.
Qed.

Definition checked new count offset (r err : Z) s s' : Prop :=
  same_disk s s' /\ fails_errno r err /\
  (r <> -1 -> r = 0 /\ forall x, in_request count offset x -> protected x -> disk s x = new x).

Lemma wp_check_protected buf new len count offset err s :
  inv s -> errno_ok err -> aligned_range k len offset -> len <= l_maximum k -> len <= count ->
  buf_holds buf new offset count -> protected offset ->
  wp (check_protected nx len offset buf err) (fun '(r, err') s' => same_disk s s' /\ fails_errno r err' /\
    (r <> -1 -> r = 0 /\ forall x, in_request len offset x -> disk s x = new x)) s.
Proof.
  intros Hi He Hr Hm Hc Hb Hp. unfold check_protected. apply wp_bind. eapply wp_mono; [by apply malloc_ok|].
  intros ok s1 Hs1. destruct ok; simpl; cycle 1.
  { apply wp_ret. split; [done|]. split; [by apply fails_errno_const|done]. }
  apply wp_bind. eapply wp_mono; [apply (dl_pread (nx := nx)); (done || by destruct Hs1)|].
  intros [[r e] expected] s2 (Hs2 & He2 & Hexp). pose proof (same_disk_trans _ _ _ _ _ _ Hs1 Hs2) as Hs.
  destruct (Z.eqb_spec r (-1)) as [-> |Hne]; [apply wp_ret; split; [done|]; split; [done|by intros []]|].
  rewrite Hexp by done. rewrite <- (same_disk_slice _ _ _ s1 s2) by done.
  assert (Hlen : 0 < len) by (unfold aligned_range in Hr; lia).
  apply wp_bind, (wp_buf_matches _ buf new offset count len); [done|lia|done|]. intros b Hmatch. destruct b; simpl.
  - apply wp_ret. split; [done|]. split; [apply succeeds_errno_ok; [done|by destruct He2]|]. intros _. split; [done|].
    intros x Hx. rewrite <- (Hmatch eq_refl x Hx). symmetry. by apply Hs.
  - apply wp_ret. split; [done|]. split; [by apply fails_errno_const|done].
Qed.

(** What is left to be checked: nothing, or a request inside of the disk. *)
Definition remaining (count offset : Z) : Prop :=
  count = 0 \/ aligned_range k count offset /\ count <= l_maximum k.

(** The region of an offset: all of its bytes are protected or none. *)
Lemma region_at offset : 0 <= offset < INT64_MAX ->
  exists (region : Regions.region bool) b, find_region region_list offset = Some region /\ r_type region = region_data b /\
    r_start region <= offset <= r_end region /\ r_end region <= INT64_MAX /\ (l_minimum k | r_end region + 1) /\
    forall x, r_start region <= x <= r_end region -> x < INT64_MAX -> (protected x <-> b = true).
Proof.
  intros Ho. destruct (divides_find _ offset Hdiv Ho) as (region & b & Hf & Hin & Hty & Hmax & _).
  destruct Hdiv as (Hc & Hsz & _). assert (Hat : forall x, 0 <= x < INT64_MAX ->
    exists i r, v_items region_list !! i = Some r /\ find_region region_list x = Some r /\ r_start r <= x <= r_end r)
    by (intros; apply find_region_contiguous; [done|lia]).
  destruct (Hat offset Ho) as (i & g & Hi & Hf' & _). assert (g = region) as -> by congruence.
  destruct (contiguous_lookup _ _ _ _ Hc Hi) as (Hge & _ & _).
  exists region, b. repeat (split; [done|]). split; [by destruct (proj1 (Forall_lookup _ _) Haligned i region Hi)|].
  intros x Hx Hlt. destruct (divides_find _ x Hdiv ltac:(lia)) as (r & b' & Hfx & Hinx & Htx & _ & ->).
  destruct (Hat x ltac:(lia)) as (j & g' & Hj & Hfg' & _). assert (g' = r) as -> by congruence.
  destruct (contiguous_unique _ _ _ _ x _ _ Hc Hi Hj ltac:(lia) Hinx) as [_ <-]. split; congruence.
Qed.

Lemma checked_nothing new offset err s : inv s -> errno_ok err -> checked new 0 offset 0 err s s.
Proof.
  intros Hi He. split; [by apply unchanged_refl|]. split; [by apply succeeds_errno_ok|]. intros _. split; [done|].
  intros x Hx. unfold in_request in Hx. lia.
Qed.

(** One part of the request after the other. *)
Lemma checked_app new count offset len err e r s s1 s2 :
  checked new len offset 0 err s s1 -> checked new (count - len) (offset + len) r e s1 s2 -> checked new count offset r e s s2.
Proof.
  intros (Hs1 & _ & Hx1) (Hs2 & He & Hx2). split; [by eapply same_disk_trans|]. split; [done|]. intros Hr.
  destruct (Hx2 Hr) as [-> Hx2']. destruct Hx1 as [_ Hx1']; [done|]. split; [done|]. intros x Hxr Hp.
  destruct (decide (in_request len offset x)) as [Hl|Hl]; [by apply Hx1'|].
  rewrite <- (Hx2' x); [symmetry; by apply Hs1|unfold in_request in *; lia|done].
Qed.

(** The part of the request that lies in the first region. *)
Lemma remaining_step count offset region :
  aligned_range k count offset -> count <= l_maximum k -> (l_minimum k | r_end region + 1) -> offset <= r_end region ->
  let len := Z.min (r_end region - offset + 1) count in
  0 < len <= count /\ (len = count \/ r_end (D := bool) region < offset + len) /\ aligned_range k len offset /\
  remaining (count - len) (offset + len).
Proof.
  intros (Ho & Hc & Hle & Hdo & Hdc) Hm Hal Hin len. subst len. set (len := Z.min _ _). assert (Hlen : 0 < len <= count) by lia.
  assert (Hdl : (l_minimum k | len)).
  { destruct (Z.min_spec (r_end region - offset + 1) count) as [[_ E]|[_ E]]; subst len; rewrite E; [|done].
    replace (r_end region - offset + 1) with (r_end region + 1 - offset) by lia. by apply Z.divide_sub_r. }
  split; [done|]. split; [lia|]. split; [by repeat split; lia || done|].
  destruct (decide (len = count)); [left; lia|right]. split; [|lia]. repeat split; try lia.
  - by apply Z.divide_add_r.
  - by apply Z.divide_sub_r.
Qed.

Lemma wp_check_write_loop fuel : forall count offset buf new err s,
  inv s -> errno_ok err -> remaining count offset -> count <= Z.of_nat fuel ->
  buf_holds buf new offset count -> buf_usable buf offset count ->
  wp (check_write_loop fuel nx count offset buf err) (fun '(r, err') s' => checked new count offset r err' s s') s.
Proof.
  induction fuel as [|fuel IH]; intros count offset buf new err s Hi He Hrem Hfuel Hb Hu; cbn [check_write_loop];
    (destruct Hrem as [-> |[Hr Hm]]; [by apply wp_ret, checked_nothing|]); pose proof Hr as (Ho & Hc & Hle & _).
  - lia.
  - rewrite (proj2 (Z.ltb_lt 0 count)) by lia.
    destruct (region_at offset ltac:(lia)) as (region & b & Hf & Hty & Hin & Hmax & Hal & Hprot). rewrite Hf, Hty.
    rewrite (u64_small (r_end region - offset + 1)) by (limits; lia).
    destruct (remaining_step count offset region Hr Hm Hal ltac:(lia)) as (Hlen & Hend & Hr' & Hrem'). set (len := Z.min _ _) in *.
    rewrite (proj2 (Z.ltb_lt 0 len)), u32_small, u64_small by (limits; lia). apply wp_bind, wp_assert. split; [done|].
    destruct (buf_holds_advance buf new offset count len region) as [Hb' Hu']; [done..|].
    apply wp_bind. eapply wp_mono with (P := fun '(r, e) s1 => checked new len offset r e s s1).
    { destruct b.
      - eapply wp_mono; [apply (wp_check_protected buf new len count); [done..|lia|lia|done|]|].
        + apply Hprot; [lia|lia|done].
        + intros [r e] s1 (Hs1 & He1 & Hx). split; [done|]. split; [done|]. intros Hne. destruct (Hx Hne) as [-> Hx']. auto.
      - apply wp_ret. split; [by apply unchanged_refl|]. split; [by apply succeeds_errno_ok|]. intros _. split; [done|].
        intros x Hx Hp. unfold in_request in Hx. by apply Hprot in Hp; [|lia..]. }
    intros [r e] s1 Hck. destruct (Z.eqb_spec r (-1)) as [-> |Hne].
    { apply wp_ret. destruct Hck as (? & ? & _). split; [done|]. split; [done|by intros []]. }
    assert (r = 0) as -> by by apply Hck. pose proof Hck as ([Hi1 _] & [He1 _] & _).
    eapply wp_mono; [apply (IH _ _ _ new); (done || lia)|]. intros [r' e'] s2 Hck2. by eapply checked_app.
Qed.
End Correct.
End Protect.

(** ** Properties *)

Section Guarded.
Context {W : Type} (malloc : M W bool) (region_list : regions bool).
Context (inv : st W -> Prop) (disk : st W -> Z -> Z) (settled : st W -> Z -> Prop).
Context (nx : nbdkit_next W) (k : layer_limits).
Implicit Types (s : st W).

(** What the filter relies on. *)
Record protect_ok : Prop := ProtectOk {
  po_malloc s : inv s -> wp malloc (fun _ s' => same_disk inv disk settled s s') s;
  po_divides : divides region_list;
  po_size : l_size k <= INT64_MAX;
  po_aligned : Forall (fun r : region bool => (l_minimum k | r_start r) /\ (l_minimum k | r_end r + 1)) (v_items region_list);
}.

(** Protected bytes stay as they are. *)
Definition guarded s s' : Prop := unchanged inv disk settled (protected region_list) s s'.

Lemma wp_check_write `{!ReadLayer inv disk settled nx k} buf new count offset err s :
  protect_ok -> inv s -> errno_ok err -> aligned_range k count offset -> count <= l_maximum k ->
  buf_holds region_list buf new offset count -> buf_usable region_list buf offset count ->
  wp (check_write malloc region_list nx count offset buf err) (fun '(r, err') s' =>
    checked region_list inv disk settled new count offset r err' s s') s.
Proof.
  intros [H1 H2 H3 H4] Hi He Hr Hm Hb Hu. eapply wp_check_write_loop; try done; [by right|].
  destruct Hr as (_ & ? & _). lia.
Qed.

Lemma wrote_guarded new count offset fua r err s s1 s' :
  checked region_list inv disk settled new count offset 0 0 s s1 ->
  wrote inv disk settled new count offset fua r err s1 s' ->
  wrote inv disk settled new count offset fua r err s s' /\ guarded s s'.
Proof.
  intros (Hs1 & _ & Hx) Hw. split; [by eapply wrote_same_l|]. destruct Hw as (Hu & _ & _). destruct Hx as [_ Hx]; [done|].
  eapply (unchanged_trans inv disk settled); [..|exact Hs1|exact Hu]; simpl; [done|].
  intros x Hp Hd Hin. rewrite Hd. symmetry. by apply Hx.
Qed.

Lemma checked_refused new count offset fua err s s1 :
  checked region_list inv disk settled new count offset (-1) err s s1 ->
  wrote inv disk settled new count offset fua (-1) err s s1 /\ guarded s s1.
Proof. intros (Hs1 & He & _). split; [by apply wrote_unchanged|by apply same_disk_unchanged]. Qed.

Lemma checked_passed new count offset r err s s1 : r <> -1 ->
  checked region_list inv disk settled new count offset r err s s1 ->
  inv s1 /\ errno_ok err /\ checked region_list inv disk settled new count offset 0 0 s s1.
Proof.
  intros Hr (Hs1 & [He _] & Hx). destruct (Hx Hr) as [-> Hx']. destruct Hs1 as [Hi1 Hd]. split; [exact Hi1|]. split; [exact He|].
  split; [by split|]. split; [by apply succeeds_errno_ok|]. auto.
Qed.

(** The bytes [new] differ from what a protected byte of the range contains. *)
Definition refuses (new : Z -> Z) (count offset : Z) s : Prop :=
  exists x, in_request count offset x /\ protected region_list x /\ new x <> disk s x.

Lemma checked_accepts new count offset s s1 :
  checked region_list inv disk settled new count offset 0 0 s s1 -> ~ refuses new count offset s.
Proof. intros (_ & _ & Hx) (x & Hx1 & Hx2 & Hx3). destruct Hx as [_ Hx]; [done|]. apply Hx3. symmetry. by apply Hx. Qed.

(** C14: A write through the protect filter writes like the layer below, but
    never changes a protected byte.  If the data of the request differs from
    what some protected byte in its range contains, the request fails and no
    byte of the disk changes, the unprotected part of the range included. *)
Theorem protect_pwrite_guards `{!DiskLayer inv disk settled nx k} buf count offset flags err s :
  protect_ok -> inv s -> errno_ok err -> aligned_range k count offset -> count <= l_maximum k ->
  write_flags k flags -> length buf = Z.to_nat count ->
  wp (protect_pwrite malloc region_list nx buf count offset flags err) (fun '(r, err') s' =>
    wrote inv disk settled (overwrite (disk s) buf offset) count offset (has flags NBDKIT_FLAG_FUA) r err' s s' /\
    guarded s s' /\
    (refuses (overwrite (disk s) buf offset) count offset s -> r = -1 /\ same_disk inv disk settled s s')) s.
Proof.
  intros Hok Hi He Hr Hm Hfl Hlen. assert (Hc : 0 < count) by (destruct Hr as (_ & ? & _); lia).
  unfold protect_pwrite. apply wp_bind. eapply wp_mono; [apply (wp_check_write _ (overwrite (disk s) buf offset)); try done|].
  { simpl. replace count with (Z.of_nat (length buf)) by lia. by rewrite slice_overwrite. }
  intros [r e] s1 Hck. destruct (Z.eqb_spec r (-1)) as [-> |Hne].
  { apply wp_ret. pose proof Hck as [Hs1 _]. apply (checked_refused _ _ _ (has flags NBDKIT_FLAG_FUA)) in Hck. tauto. }
  destruct (checked_passed _ _ _ _ _ _ _ Hne Hck) as (Hi1 & He1 & Hck0).
  eapply wp_mono; [by apply dl_pwrite|]. intros [r' e'] s2 Hw.
  refine ((fun H1 H2 => conj (proj1 H1) (conj (proj2 H1) H2)) _ _);
    [|intros Hrf; by destruct (checked_accepts _ _ _ _ _ Hck0)].
  eapply wrote_guarded; [exact Hck0|]. eapply wrote_ext; [|exact Hw]. intros x Hx. unfold in_request in Hx. rewrite !overwrite_in by lia. done.
Qed.

(** The requests without data: the first protected byte must be in the region
    where the request begins (see [protect_zero_crashes]). *)
Definition one_region (count offset : Z) : Prop :=
  forall x, in_request count offset x -> protected region_list x -> find_region region_list x = find_region region_list offset.

Lemma protect_zero_guards `{!DiskLayer inv disk settled nx k} count offset flags err s :
  protect_ok -> inv s -> errno_ok err -> aligned_range k count offset -> count <= l_maximum k ->
  zero_flags k flags -> one_region count offset ->
  wp (protect_zero malloc region_list nx count offset flags err) (fun '(r, err') s' =>
    wrote inv disk settled (fun _ => 0) count offset (has flags NBDKIT_FLAG_FUA) r (zero_err flags r err') s s' /\
    guarded s s') s.
Proof.
  intros Hok Hi He Hr Hm Hfl Hone. unfold protect_zero. apply wp_bind.
  eapply wp_mono; [apply (wp_check_write buf_null (fun _ => 0)); (done || by intros ?)|].
  intros [r e] s1 Hck. destruct (Z.eqb_spec r (-1)) as [-> |Hne].
  - apply wp_ret. rewrite zero_err_errno_ok by (destruct Hck as (_ & [? _] & _); done). by apply checked_refused.
  - destruct (checked_passed _ _ _ _ _ _ _ Hne Hck) as (Hi1 & He1 & Hck0).
    eapply wp_mono; [by apply dl_zero|]. intros [r' e'] s2 Hw. by eapply wrote_guarded.
Qed.

(** A trim is only let through where the protected bytes are zero. *)
Lemma protect_trim_guards `{!DiskLayer inv disk settled nx k} count offset flags err s :
  protect_ok -> inv s -> errno_ok err -> aligned_range k count offset -> count <= l_maximum k ->
  write_flags k flags -> one_region count offset ->
  wp (protect_trim malloc region_list nx count offset flags err) (fun '(r, err') s' =>
    trimmed inv disk settled count offset (has flags NBDKIT_FLAG_FUA) r err' s s' /\
    (r <> -1 -> forall x, in_request count offset x -> protected region_list x -> disk s x = 0)) s.
Proof.
  intros Hok Hi He Hr Hm Hfl Hone. unfold protect_trim. apply wp_bind.
  eapply wp_mono; [apply (wp_check_write buf_null (fun _ => 0)); (done || by intros ?)|].
  intros [r e] s1 Hck. destruct (Z.eqb_spec r (-1)) as [-> |Hne].
  - apply wp_ret. destruct Hck as (Hs1 & He1 & _). split; [|done]. split; [by apply same_disk_unchanged|]. split; [done|by intros []].
  - destruct (checked_passed _ _ _ _ _ _ _ Hne Hck) as (Hi1 & He1 & (Hs1 & _ & Hx)).
    eapply wp_mono; [by apply dl_trim|]. intros [r' e'] s2 Hw. split; [by eapply trimmed_same_l|]. intros _. by apply Hx.
Qed.
End Guarded.

Section Unguarded.
Context {W : Type} (malloc : M W bool) (region_list : regions bool) (nx : nbdkit_next W) (Hdiv : divides region_list).
Implicit Types (s : st W) (region : Regions.region bool).

(** One step in an unprotected region, *)
Lemma check_write_skips fuel count offset region buf err s :
  find_region region_list offset = Some region -> r_type region = region_data false ->
  0 <= offset -> 0 < count <= UINT32_MAX -> offset + count <= INT64_MAX ->
  check_write_loop malloc region_list (S fuel) nx count offset buf err s =
    let len := Z.min (r_end region - offset + 1) count in
    check_write_loop malloc region_list fuel nx (count - len) (offset + len) (advance buf len) err s.
Proof.
  intros Hf Hty Ho Hc Hmax. cbn [check_write_loop]. rewrite (proj2 (Z.ltb_lt 0 count)), Hf, Hty by lia.
  destruct (divides_find _ offset Hdiv ltac:(lia)) as (r & b & Hf' & Hin & _ & Hend & _).
  assert (r = region) as -> by congruence. rewrite (u64_small (r_end region - offset + 1)) by (limits; lia). cbv zeta.
  set (len := Z.min _ _). rewrite (proj2 (Z.ltb_lt 0 len)), u32_small, u64_small by (limits; lia). done.
Qed.

(** and in a protected one whose data is a wild pointer. *)
Lemma check_write_wild fuel count offset region err s r e expected s1 :
  find_region region_list offset = Some region -> r_type region = region_data true ->
  0 <= offset -> 0 < count <= UINT32_MAX -> offset + count <= INT64_MAX ->
  malloc s = Ok (true, s) -> n_pread nx (Z.min (r_end region - offset + 1) count) offset 0 err s = Ok (r, e, expected, s1) -> r <> -1 ->
  check_write_loop malloc region_list (S fuel) nx count offset buf_wild err s = Crash Undefined.
Proof.
  intros Hf Hty Ho Hc Hmax Hal Hrd Hr. cbn [check_write_loop]. rewrite (proj2 (Z.ltb_lt 0 count)), Hf, Hty by lia.
  destruct (divides_find _ offset Hdiv ltac:(lia)) as (g & b & Hf' & Hin & _ & Hend & _).
  assert (g = region) as -> by congruence. rewrite (u64_small (r_end region - offset + 1)) by (limits; lia). cbv zeta.
  set (len := Z.min _ _) in *. rewrite (proj2 (Z.ltb_lt 0 len)) by lia.
  unfold check_protected, mbind, M_bind, cassert. simpl. rewrite Hal. simpl. rewrite Hrd, (proj2 (Z.eqb_neq r (-1))) by done. done.
Qed.

(** C39: A zero or trim request that begins in an unprotected region and
    reaches into the protected region after it makes the server read through
    an invalid pointer: [buf += len] turns the [NULL] of such a request into
    another pointer, with which the protected part is compared as if it were
    data. *)
Theorem protect_zero_crashes count offset flags err region s :
  find_region region_list offset = Some region -> r_type region = region_data false ->
  protected region_list (r_end region + 1) ->
  0 <= offset -> 0 < count <= UINT32_MAX -> r_end region + 1 < offset + count -> offset + count <= INT64_MAX ->
  malloc s = Ok (true, s) ->
  (forall len o, exists r e data s', n_pread nx len o 0 err s = Ok (r, e, data, s') /\ r <> -1) ->
  protect_zero malloc region_list nx count offset flags err s = Crash Undefined /\
  protect_trim malloc region_list nx count offset flags err s = Crash Undefined.
Proof.
  intros Hf Hty (region' & Hf' & Hin' & Hty') Ho Hc Hlt Hmax Hal Hrd.
  destruct (divides_find _ offset Hdiv ltac:(lia)) as (g & b & Hg & Hin & _). assert (g = region) as -> by congruence.
  assert (E : check_write malloc region_list nx count offset buf_null err s = Crash Undefined).
  { unfold check_write. replace (Z.to_nat count) with (S (S (Z.to_nat count - 2))) by lia.
    rewrite (check_write_skips _ _ _ region) by (done || lia). cbv zeta. rewrite Z.min_l by lia.
    replace (offset + (r_end region - offset + 1)) with (r_end region + 1) by lia.
    destruct (Hrd (Z.min (r_end region' - (r_end region + 1) + 1) (count - (r_end region - offset + 1))) (r_end region + 1))
      as (r & e & data & s' & Hread & Hr).
    eapply check_write_wild; (done || lia). }
  unfold protect_zero, protect_trim, mbind, M_bind. by rewrite E.
Qed.
End Unguarded.

(** ** Examples: a protected boot sector, and one between two other sectors *)

Definition boot_sector : regions bool :=
  Vec [Region 0 512 511 (region_data true); Region 512 (INT64_MAX - 511) INT64_MAX (region_data false)] 2.
Definition second_sector : regions bool :=
  Vec [Region 0 512 511 (region_data false); Region 512 512 1023 (region_data true);
       Region 1024 (INT64_MAX - 1023) INT64_MAX (region_data false)] 4.

Lemma divides_boot_sector : divides boot_sector.
Proof. split; [by vm_compute|]. split; [by vm_compute|]. repeat constructor; eauto. Qed.

Lemma divides_second_sector : divides second_sector.
Proof. split; [by vm_compute|]. split; [by vm_compute|]. repeat constructor; eauto. Qed.

Lemma protect_pwrite_guards_witness :
  (exists r err s', protect_pwrite (mret true) boot_sector (flat_next 1024) [0; 7] 2 511 0 0 (witness_state (fun _ => 0)) = Ok (r, err, s') /\
    s_world s' 511 = 0 /\ (r <> -1 -> s_world s' 512 = 7)) /\
  (exists err s', protect_pwrite (mret true) second_sector (flat_next 1024) [5; 7] 2 511 0 0 (witness_state (fun _ => 0)) = Ok (-1, err, s') /\
    s_world s' 511 = 0).
Proof.
  assert (Hr : aligned_range (LayerLimits 1024 1 65536 NBDKIT_FUA_NATIVE true) 2 511).
  { split; [lia|]. split; [limits; lia|]. split; [simpl; lia|]. split; apply Z.divide_1_l. }
  split.
  - destruct (wp_ok _ _ _ (protect_pwrite_guards (mret true) boot_sector (fun _ => True) s_world (fun _ _ => True) (flat_next 1024)
      (LayerLimits 1024 1 65536 NBDKIT_FUA_NATIVE true) [0; 7] 2 511 0 0 (witness_state (fun _ => 0))
      ltac:(split; [by intros|by apply divides_boot_sector|by vm_compute|repeat constructor; apply Z.divide_1_l])
      I errno_ok_0 Hr ltac:(simpl; lia) ltac:(by split) eq_refl)) as ([r e] & s' & Hrun & Hw & Hg & _).
    exists r, e, s'. split; [exact Hrun|]. split.
    + destruct Hg as [_ Hg]. destruct (Hg 511) as [-> _]; [|done]. eexists. split; [by vm_compute|]. simpl. split; [lia|done].
    + intros H. destruct Hw as (_ & _ & Hw). destruct (Hw H 512) as [-> _]; [unfold in_request; lia|done].
  - destruct (wp_ok _ _ _ (protect_pwrite_guards (mret true) second_sector (fun _ => True) s_world (fun _ _ => True) (flat_next 1024)
      (LayerLimits 1024 1 65536 NBDKIT_FUA_NATIVE true) [5; 7] 2 511 0 0 (witness_state (fun _ => 0))
      ltac:(split; [by intros|by apply divides_second_sector|by vm_compute|repeat constructor; apply Z.divide_1_l])
      I errno_ok_0 Hr ltac:(simpl; lia) ltac:(by split) eq_refl)) as ([r e] & s' & Hrun & _ & _ & Hrf).
    destruct Hrf as [-> [_ Hsame]].
    { exists 512. split; [unfold in_request; lia|]. split; [|done]. eexists. split; [by vm_compute|]. simpl. split; [lia|done]. }
    exists e, s'. split; [exact Hrun|]. by destruct (Hsame 511) as [-> _].
Defined.

Lemma protect_zero_crashes_witness :
  protect_zero (mret true) second_sector (flat_next 2048) 1024 0 0 0 (witness_state (fun _ => 0)) = Crash Undefined.
Proof.
  apply (protect_zero_crashes (mret true) second_sector (flat_next 2048) divides_second_sector 1024 0 0 0
    (Region 0 512 511 (region_data false)) (witness_state (fun _ => 0)));
    try done; try (limits; simpl; lia).
  - eexists. split; [by vm_compute|]. simpl. split; [lia|done].
  - intros len o. exists 0, 0. by eexists _, _.
Defined.
